(* ===== verification/_CoqProject ===== *)
-Q . S2P
Prelude.v
GoStd.v
Landlock.v
Policy.v
Identity.v
ObservationDomain.v
Digest.v
Json.v
SpoBackend.v
Target.v
History.v
Kube.v
Journal.v
KubeJournal.v
Unstructured.v
JsonParse.v
K8sApply.v
Attempt.v
RollbackAttempt.v
Proposal.v
ApplyPlan.v
Derivation.v
ProposalStore.v
Apply.v
ApplyCustody.v
Rollback.v
RollbackCustody.v
RollbackRestore.v
AuthorityDomain.v
AuthorityFacts.v
Decimal.v
Compatibility.v
AuthorityMatching.v
AuthorityResolution.v
AuthorityCanonical.v
Timestamp.v
AuthoritySemantic.v
AuthorityRequirements.v
AuthorityWire.v
SemanticSnapshot.v
SemanticEvents.v
SemanticGraph.v
SemanticDerivation.v
SemanticBelief.v
SemanticAdapter.v
Reconciliation.v
ReconciliationAttention.v
ReconciliationEnvironment.v
ReconciliationHistory.v
HistoryPersisted.v
HistoryStore.v
Contribution.v
ContributionStore.v
ContributionCustody.v
Duration.v
ObservationPersisted.v
ObservationAdapter.v
ObservationExecutor.v
