(* ===== verification/Prelude.v ===== *)
(** * landlock-genprof: a verification development

    landlock-genprof observes what a container does, synthesizes least-privilege
    profiles from it (Landlock, PodLock, seccomp, network policies), turns them
    into proposals a reviewer approves, applies an approved proposal to a
    cluster under custody, and can roll it back. The development follows that
    path. Names are those of the source; files below are under src/internal.

    ** The parts and the files that model them

    Foundations.
    - [Prelude] (this file): results with an error, guards, sorting, grouping.
    - [GoStd]: strings, paths, formatted numbers, instants of Go's library.
    - [Digest], [Json], [JsonParse], [Unstructured], [Decimal], [Timestamp]:
      SHA-256 (FIPS 180-4, executable), encoding/json in both directions,
      unstructured objects, strconv and RFC 3339; [Duration]: time.Duration.
    - [Kube], [Journal], [KubeJournal]: the API server as an interface with the
      laws the stores rely on (optimistic concurrency), logics for the calls of a
      run, and a world that keeps a journal of the calls made to it.

    Observation and synthesis.
    - [Landlock] (landlock/abi.go, kernel.go): the ABI tables, the grouping of
      paths and the candidate of least privilege.
    - [Policy] (profile, observation, policy/synthesize.go): the behavior profile.
    - [Identity], [ObservationDomain] (observation/domain): the Observation
      aggregate, a state machine with frozen results; [op] and [reachable] are
      its steps and histories.
    - [ObservationPersisted], [ObservationAdapter] (observation/kubernetes/
      adapter.go): the stored form of an Observation and its strict decoding;
      [ObservationExecutor] (executor.go, store.go): the executor's claim, its
      lease and the fenced writes; [run_call] is the code, run over a journal,
      [permitted] what the protocol allows a call to do.
    - [History] (history/record.go, population_identity.go, provenance.go): the
      merge of runs and their populations; [HistoryPersisted]: the JSON tags of a
      population and all it holds; [HistoryStore] (store.go): the stored form of
      a record, the merging write and the snapshot of a population.
    - [Contribution] (contribution.go, observation_contribution.go): what one
      Observation contributes, its digest and its effect; [ContributionStore]
      (receipt_store.go and the protocol of contribution.go): receipts, markers,
      [ApplyContribution]; [ContributionCustody]: the order of its calls.

    Proposals.
    - [Target] (k8s/target.go, association), [SpoBackend] (spobackend): governed
      targets and the names of governed profiles.
    - [Proposal] (proposal/types, candidate_v2, governance_v2, validate, digest):
      candidates, digests, approval checks; [Derivation] (derive_container.go);
      [ProposalStore] (store.go): publication, review, approval over [Kube].

    Apply and rollback.
    - [K8sApply] (k8s/apply.go, restart.go): the mutation path.
    - [Attempt], [RollbackAttempt] (attempt): the custody records, as stored and
      as read back; [ApplyPlan], [Apply] (applyproposal): the plan and [Run];
      [ApplyCustody]: the order of its calls.
    - [Rollback] (rollback/rollback.go), [RollbackCustody], [RollbackRestore]:
      the inverse of a mutation, [Run], and what is restored.

    Authority (authority): the eligibility of a candidate under an RFC-0004 rule.
    - [AuthorityDomain], [AuthorityFacts], [Compatibility], [AuthorityMatching],
      [AuthorityResolution]: values, facts and their snapshot, predicates, the
      match of a requirement, the resolution of a reference.
    - [AuthorityCanonical], [AuthoritySemantic], [AuthorityRequirements],
      [AuthorityWire]: canonical bytes, rules, requirement sets, eligibility and
      the wire form.

    Semantic graph (semantic): the propositions observations state, and belief.
    - [SemanticSnapshot], [SemanticEvents] (snapshot, structuralequal, identity,
      act, assertionevent): values, canonical strings and events;
      [SemanticGraph] (graph.go, relations.go): the append-only store with its
      indexes; [SemanticDerivation] (derivation.go), [SemanticBelief] (belief.go,
      least_fixed_point.go), [SemanticAdapter] (semantic/adapter).

    Reconciliation (reconciliation): read-only projections of the stored objects.
    - [Reconciliation] (reconciliation.go, verification.go): the selection of the
      approved policy and the five axes; [ReconciliationAttention] (attention.go),
      [ReconciliationEnvironment] (environment.go), [ReconciliationHistory]
      (history.go): what needs attention, the rows per subject, the history.

    ** What the theorems show

    - Custody: a mutation or an inverse is sent only after a fresh check and a
      durable record, on exactly the object that was read; success is recorded
      only when everything succeeded ([Run_write_ahead], [Run_outcome],
      [Run_rollback_write_ahead], [executeInverse_accounted],
      [applyParsedObserved_justified]); what is restored is what was there
      ([restoreControlledState_workload]).
    - Binding: a digest, an approval, a reference or an identity determines what
      it names, or a collision of SHA-256 is exhibited
      ([ValidateApprovedCandidate_binds], [BoundCandidateDigestOf_binds],
      [TypedResolvedAuthorityRule_determined], [contentDigest_binds]).
    - Contributions: whatever the API server answers and wherever the process
      stops, the effect is written only under a durable receipt and the receipt
      committed only over a durable effect ([ApplyContribution_crash_safe]); the
      effect happens at most once ([contribution_applied_once]), is that of a set
      of facts ([contribution_is_a_set]) and loses none
      ([addContributionFacts_exact]); a merge is of what was stored at the write
      ([SaveWithMerge_atomic]).
    - Executors: a call of the Observation store writes at most once, what the
      protocol permits on the object stored at the write, and nothing when it
      fails ([executor_fenced]); along the objects such writes make there is one
      executor and no way back ([single_executor]).
    - Belief: the belief state exists within the bound, is the least fixed point
      of the labelling step and a complete labelling of the attacks
      ([BeliefState_terminates], [BeliefState_least], [BeliefState_complete]); the
      graph is append-only ([graph_append_only]) and the derivations it enumerates
      are exactly those that exist
      ([EnumerateCandidateIncompatibilityDerivations_exact]).
    - Reconciliation: a claim of success is backed by the records
      ([confirmed_application_justified]), attention is raised exactly when its
      predicate holds ([EvaluateAttention_exact]), there is one right row per
      subject ([ProjectEnvironment_rows]), and the history is bounded and says
      what it dropped ([projectHistory_bounded]).
    - Grounds: an eligible decision rests on current facts for every requirement
      ([EvaluateEligibility_grounded]); a reference is resolved only by exact
      authoritative answers ([AggregateObservations_resolved]).
    - Synthesis and history: exactly the rights that were needed, counted by the
      runs that needed them ([Synthesize_least_privilege], [Merge_counts_runs]).
    - State machines: invariants by induction on histories, termination, and an
      end that can always be reached ([reachable_wf], [transitions_bounded],
      [every_observation_ends]).
    - Round trips: what is stored or sent is read back unchanged
      ([custody_status_read_back], [wire_round_trip], [history_round_trip],
      [persisted_round_trip], [Restore_reachable]), within the bounds each states:
      what a Go map or the JSON loses (text that is not UTF-8, counters above
      2^53, equal start and completion times) is excluded by name.

    ** Conventions, bounds and fuel

    - A function that returns an error is a function into [result]; an error keeps
      the sentinel it wraps and a message, abbreviated where the source formats
      values into it; a panic is an error of the class [panic].
    - Instants are nanoseconds since January 1 of the year 1, in UTC; their text
      is that of the years 1 to 9999.
    - Integers are [Z], with the wrap-around written out where it can occur.
    - [sort.Slice] keeps elements that compare equal in the order of the input.
    - Loops that poll the cluster take their number of rounds from the budgets of
      the source (deletion: 50 rounds; the readiness gates: an argument, since the
      deadline depends on the clock); the recursion of the JSON reader is on its
      input, its nesting bounded by 10000 as in encoding/json.
    - Loops of optimistic concurrency have the source's bounds: 5 attempts for an
      effect or a cleanup, 5 reads of a receipt that is being initialised, 4 more
      reads for convergence; retry.RetryOnConflict is an interface whose law is
      that a success is the success of one round.
    - An Observation is stored through Go maps: text that is not UTF-8 becomes the
      replacement character and a number is a float64, written with the fewest
      digits; a renewal of a lease has the source's two attempts.
    - The search for derivations runs on a fuel computed from the number of
      states a subsumption path can reach and the evaluation of belief on one more
      round than there are events; that both suffice on every graph is proved.
    - A parameter stands for code outside the repository: the API server and
      client-go, YAML decoding, the traversal order of a Go map, the text of %#v,
      apimachinery's conversion of one tagged struct to a map and back.
    - Where the source compares structs with [!=], what it sees beyond this
      development's values (the location and monotonic reading of a [time.Time],
      the address of a pointer) is an argument ([ObservationAdapter.representation]).

    ** What is not modelled

    I/O around the modelled packages: the command line and HTTP servers, the
    exporters, the eBPF tracer, Kubernetes discovery and read-only helpers,
    authentication and metrics. The observation runtime and the executor process
    are goroutines, files and API clients around the aggregate of
    [ObservationDomain] and its store. Projection and seccomp verification assemble
    third-party API objects and node evidence; the verification fact they leave is
    modelled in [Proposal] and its append in [ProposalStore]. SPO coverage of the
    authority reads live objects into the facts of [AuthorityFacts]. *)
From stdpp Require Export base tactics numbers list gmap strings.
From stdpp Require Export sorting.
From Stdlib Require Export ZArith Ascii.

(** ** Results

    A Go function returning [(T, error)] becomes a function into [result T].
    An error keeps the sentinel it wraps with [%w] (the empty string when it
    wraps none) and the constant part of its message. *)
Record error := mkError { err_is : string; err_msg : string }.

#[global] Instance error_eq_dec : EqDecision error.
Proof. solve_decision. Defined.

Inductive result (A : Type) : Type :=
| Ok (a : A)
| Err (e : error).
Arguments Ok {A} a.
Arguments Err {A} e.

#[global] Instance result_eq_dec `{EqDecision A} : EqDecision (result A).
Proof. solve_decision. Defined.

#[global] Instance result_ret : MRet result := fun A a => Ok a.
#[global] Instance result_bind : MBind result := fun A B f r =>
  match r with Ok a => f a | Err e => Err e end.
#[global] Instance result_fmap : FMap result := fun A B f r =>
  match r with Ok a => Ok (f a) | Err e => Err e end.

(** A guard with an early error return: [if c { return e }]. *)
Definition failwith {A} (msg : string) : result A := Err (mkError "" msg).

Declare Scope go_scope.
Delimit Scope go_scope with go.
Notation "'fail_if' c 'with' e ; k" :=
  (if c then Err e else k)
  (at level 100, c at level 200, e at level 200, k at level 200, right associativity) : go_scope.
Open Scope go_scope.

Definition is_ok {A} (r : result A) : bool :=
  match r with Ok _ => true | Err _ => false end.

Lemma result_bind_Ok {A B} (r : result A) (f : A → result B) b :
  r ≫= f = Ok b ↔ ∃ a, r = Ok a ∧ f a = Ok b.
Proof. destruct r; cbn; naive_solver. Qed.

Lemma result_guard_Ok {A} (c : bool) (e : error) (k : result A) a :
  (fail_if c with e; k) = Ok a ↔ c = false ∧ k = Ok a.
Proof. destruct c; naive_solver. Qed.

Lemma Ok_inj {A} (a b : A) : Ok a = Ok b → a = b.
Proof. by intros [= ->]. Qed.

(** Mapping a fallible function over a list, left to right, first error wins. *)
Fixpoint result_mapM {A B} (f : A → result B) (l : list A) : result (list B) :=
  match l with
  | [] => Ok []
  | x :: l => y ← f x; ys ← result_mapM f l; Ok (y :: ys)
  end.

Lemma result_mapM_Ok {A B} (f : A → result B) l k :
  result_mapM f l = Ok k ↔ Forall2 (fun x y => f x = Ok y) l k.
Proof.
  revert k. induction l as [|x l IH]; intros k; cbn.
  - split; [intros [= <-]; constructor | by inversion 1].
  - rewrite result_bind_Ok. setoid_rewrite result_bind_Ok. setoid_rewrite IH. split.
    + intros (y & Hy & ys & Hys & [= <-]). by constructor.
    + inversion 1; subst; eauto 10.
Qed.

(** ** Automation *)

(** Case analysis on the scrutinee of the first [match]/[if] of the goal or of
    a hypothesis, keeping the equation. *)
Ltac case_match_in H :=
  match type of H with context [match ?x with _ => _ end] => destruct x eqn:? end.

(** Break a successful run of a handler into the guards it passed. *)
Ltac inv_ok :=
  repeat match goal with
  | H : Err _ = Ok _ |- _ => discriminate H
  | H : failwith _ = Ok _ |- _ => discriminate H
  | H : Ok _ = Err _ |- _ => discriminate H
  | H : Ok _ = Ok _ |- _ => injection H as H; subst
  | H : mret _ = Ok _ |- _ => injection H as H; subst
  | H : (if ?b then Err _ else _) = Ok _ |- _ => destruct b eqn:?; [discriminate H|]
  | H : (if ?b then failwith _ else _) = Ok _ |- _ => destruct b eqn:?; [discriminate H|]
  | H : (?r ≫= _) = Ok _ |- _ =>
      apply result_bind_Ok in H; destruct H as (? & ? & H)
  end.

Ltac bool_simpl :=
  repeat match goal with
  | H : _ || _ = false |- _ => apply orb_false_iff in H; destruct H
  | H : _ && _ = true |- _ => apply andb_true_iff in H; destruct H
  | H : negb _ = true |- _ => apply negb_true_iff in H
  | H : negb _ = false |- _ => apply negb_false_iff in H
  | H : bool_decide _ = true |- _ => apply bool_decide_eq_true in H
  | H : bool_decide _ = false |- _ => apply bool_decide_eq_false in H
  end.

Create HintDb genprof.
Create Rewrite HintDb genprof.

(** ** Sorting

    [sort.Slice], [sort.SliceStable] and [sort.Strings] with a comparison
    [less]: a stable insertion sort.  Where the source uses the unstable
    [sort.Slice], the keys it sorts are distinct or the equal elements are
    interchangeable, so the stable order is the order it produces. *)
Class StrictWeak {A} (less : A → A → bool) : Prop := {
  less_asym : ∀ x y, less x y = true → less y x = false;
  less_negtrans : ∀ x y z, less x y = false → less y z = false → less x z = false
}.

(** A comparison that separates distinct elements. *)
Class TotalLess {A} (less : A → A → bool) : Prop := {
  total_weak :: StrictWeak less;
  less_total : ∀ x y, less x y = false → less y x = false → x = y
}.

Definition not_above {A} (less : A → A → bool) (x y : A) : Prop := less y x = false.

Section sorting.
Context {A : Type} (less : A → A → bool).

Fixpoint insert_by (x : A) (l : list A) : list A :=
  match l with
  | [] => [x]
  | y :: l' => if less y x then y :: insert_by x l' else x :: l
  end.

Fixpoint sort_by (l : list A) : list A :=
  match l with [] => [] | x :: l => insert_by x (sort_by l) end.

Lemma insert_by_perm x l : insert_by x l ≡ₚ x :: l.
Proof.
  induction l as [|y l IH]; cbn; [done|].
  destruct (less y x); [|done]. rewrite IH. apply Permutation_swap.
Qed.

Lemma sort_by_perm l : sort_by l ≡ₚ l.
Proof.
  induction l as [|x l IH]; cbn; [done|]. by rewrite insert_by_perm, IH.
Qed.

Lemma elem_of_sort_by x l : x ∈ sort_by l ↔ x ∈ l.
Proof. by rewrite sort_by_perm. Qed.

Lemma length_sort_by l : length (sort_by l) = length l.
Proof. by rewrite sort_by_perm. Qed.

Lemma NoDup_sort_by l : NoDup (sort_by l) ↔ NoDup l.
Proof. by rewrite sort_by_perm. Qed.

Context `{!StrictWeak less}.

#[global] Instance not_above_trans : Transitive (not_above less).
Proof. intros x y z Hxy Hyz. exact (less_negtrans z y x Hyz Hxy). Qed.

Lemma less_irrefl x : less x x = false.
Proof. destruct (less x x) eqn:E; [|done]. by rewrite (less_asym x x E) in E. Qed.

Lemma insert_by_sorted x l :
  StronglySorted (not_above less) l → StronglySorted (not_above less) (insert_by x l).
Proof.
  induction 1 as [|y l Hs IH Hall]; cbn; [repeat constructor|].
  destruct (less y x) eqn:E; constructor; try done.
  - rewrite insert_by_perm. constructor; [|done]. by apply less_asym.
  - by constructor.
  - constructor; [done|]. eapply Forall_impl; [done|]. intros z Hz.
    by etrans.
Qed.

Lemma sort_by_sorted l : StronglySorted (not_above less) (sort_by l).
Proof. induction l; cbn; [constructor|]. by apply insert_by_sorted. Qed.

(** Sorting a sorted list changes nothing. *)
Lemma sort_by_id l : StronglySorted (not_above less) l → sort_by l = l.
Proof.
  induction 1 as [|x l Hs IH Hall]; cbn; [done|]. rewrite IH.
  destruct l as [|y l]; cbn; [done|]. inversion Hall as [|?? Hxy]; subst.
  unfold not_above in Hxy. by rewrite Hxy.
Qed.

Lemma sort_by_idemp l : sort_by (sort_by l) = sort_by l.
Proof. apply sort_by_id, sort_by_sorted. Qed.
End sorting.

Section total_sorting.
Context {A : Type} (less : A → A → bool) `{!TotalLess less}.

#[global] Instance not_above_antisymm : AntiSymm (=) (not_above less).
Proof. intros x y Hxy Hyx. by apply less_total. Qed.

(** The sorted list depends only on the multiset sorted. *)
Lemma sort_by_unique l1 l2 : l1 ≡ₚ l2 → sort_by less l1 = sort_by less l2.
Proof.
  intros Hp. apply (StronglySorted_unique (not_above less));
    [apply sort_by_sorted, _ .. |]. by rewrite !sort_by_perm.
Qed.
End total_sorting.

(** Sorting by a key. *)
Definition less_on {A B} (f : A → B) (less : B → B → bool) (x y : A) : bool :=
  less (f x) (f y).

#[global] Instance less_on_weak {A B} (f : A → B) less `{!StrictWeak less} :
  StrictWeak (less_on f less).
Proof.
  split; unfold less_on; intros; [by apply less_asym|].
  by apply less_negtrans with (f y).
Qed.

(** Mapping the sort key over a sorted list gives a sorted list of keys. *)
Lemma sorted_by_key {A B} (f : A → B) less l :
  StronglySorted (not_above (less_on f less)) l → StronglySorted (not_above less) (map f l).
Proof.
  induction 1 as [|x l Hs IH Hall]; cbn; constructor; [done|].
  apply Forall_fmap. eapply Forall_impl; [exact Hall|]. done.
Qed.

(** First key, then second key on a tie. *)
Definition less_lex {A} (l1 l2 : A → A → bool) (x y : A) : bool :=
  l1 x y || (negb (l1 y x) && l2 x y).

#[global] Instance less_lex_weak {A} (l1 l2 : A → A → bool)
  `{!StrictWeak l1, !StrictWeak l2} : StrictWeak (less_lex l1 l2).
Proof.
  split; unfold less_lex; intros x y.
  - intros H. destruct (l1 x y) eqn:E1; cbn in *.
    + by rewrite (less_asym x y E1).
    + destruct (l1 y x); cbn in *; [done|]. by apply less_asym.
  - intros z Hxy Hyz. apply orb_false_iff in Hxy as [Hxy1 Hxy2].
    apply orb_false_iff in Hyz as [Hyz1 Hyz2].
    rewrite (less_negtrans x y z Hxy1 Hyz1). cbn.
    destruct (l1 z x) eqn:Ezx; cbn; [done|].
    assert (l1 y x = false) as Hyx.
    { destruct (l1 y x) eqn:E; [|done]. by rewrite (less_negtrans y z x Hyz1 Ezx) in E. }
    assert (l1 z y = false) as Hzy.
    { destruct (l1 z y) eqn:E; [|done]. by rewrite (less_negtrans z x y Ezx Hxy1) in E. }
    rewrite Hyx in Hxy2. rewrite Hzy in Hyz2. cbn in *. eauto using less_negtrans.
Qed.

(** *** Orders of the types the source sorts *)
#[global] Instance Zltb_total : TotalLess Z.ltb.
Proof. split; [split|]; intros; lia. Qed.

Lemma ascii_compare_lt_trans a b c :
  Ascii.compare a b = Lt → Ascii.compare b c = Lt → Ascii.compare a c = Lt.
Proof. unfold Ascii.compare. rewrite !N.compare_lt_iff. lia. Qed.

Lemma ascii_compare_refl a : Ascii.compare a a = Eq.
Proof. apply N.compare_refl. Qed.

Lemma string_compare_refl s : String.compare s s = Eq.
Proof. induction s as [|a s IH]; cbn; [done|]. by rewrite ascii_compare_refl. Qed.

Lemma string_compare_lt_trans s t u :
  String.compare s t = Lt → String.compare t u = Lt → String.compare s u = Lt.
Proof.
  revert t u. induction s as [|a s IH]; intros [|b t] [|c u]; cbn; try done.
  destruct (Ascii.compare a b) eqn:Eab; try done;
    destruct (Ascii.compare b c) eqn:Ebc; try done; intros H1 H2.
  - apply Ascii.compare_eq_iff in Eab as ->. rewrite Ebc. eauto.
  - apply Ascii.compare_eq_iff in Eab as ->. by rewrite Ebc.
  - apply Ascii.compare_eq_iff in Ebc as ->. by rewrite Eab.
  - by rewrite (ascii_compare_lt_trans a b c Eab Ebc).
Qed.

(** Go compares strings bytewise. *)
Definition string_ltb : string → string → bool := String.ltb.

#[global] Instance string_ltb_total : TotalLess string_ltb.
Proof.
  split; [split|]; unfold string_ltb, String.ltb.
  - intros x y. rewrite (String.compare_antisym y x).
    by destruct (String.compare x y).
  - intros x y z Hxy Hyz. destruct (String.compare x z) eqn:Exz; try done.
    destruct (String.compare x y) eqn:Exy; try done.
    + apply String.compare_eq_iff in Exy as ->. by rewrite Exz in Hyz.
    + rewrite String.compare_antisym in Exy.
      destruct (String.compare y x) eqn:Eyx; try done.
      by rewrite (string_compare_lt_trans y x z Eyx Exz) in Hyz.
  - intros x y Hxy Hyx. destruct (String.compare x y) eqn:E; try done.
    + by apply String.compare_eq_iff.
    + rewrite String.compare_antisym, E in Hyx. done.
Qed.

(** [sort.Strings]. *)
Abbreviation sort_strings := (sort_by string_ltb).

Lemma string_ltb_irrefl s : string_ltb s s = false.
Proof. apply less_irrefl, _. Qed.

(** A strictly sorted list has no duplicates and is fixed by sorting. *)
Lemma sorted_strings_unique l k :
  StronglySorted (not_above string_ltb) l → StronglySorted (not_above string_ltb) k →
  l ≡ₚ k → l = k.
Proof. apply (StronglySorted_unique (not_above string_ltb)). Qed.

(** ** First occurrences

    The [seen]-map loops of the source keep the first occurrence of each key. *)
Section dedup.
Context {A : Type} `{EqDecision A}.

Fixpoint dedup_go (seen : list A) (l : list A) : list A :=
  match l with
  | [] => []
  | x :: l => if bool_decide (x ∈ seen) then dedup_go seen l else x :: dedup_go (x :: seen) l
  end.

Definition dedup (l : list A) : list A := dedup_go [] l.

Lemma elem_of_dedup_go x seen l : x ∈ dedup_go seen l ↔ x ∈ l ∧ x ∉ seen.
Proof.
  revert seen. induction l as [|y l IH]; intros seen; cbn; [set_solver|].
  case_bool_decide; [rewrite IH; set_solver|].
  rewrite elem_of_cons, IH. destruct (decide (x = y)); set_solver.
Qed.

Lemma elem_of_dedup x l : x ∈ dedup l ↔ x ∈ l.
Proof. unfold dedup. rewrite elem_of_dedup_go. set_solver. Qed.

Lemma NoDup_dedup_go seen l : NoDup (dedup_go seen l).
Proof.
  revert seen. induction l as [|y l IH]; intros seen; cbn; [constructor|].
  case_bool_decide; [done|]. constructor; [|done]. rewrite elem_of_dedup_go. set_solver.
Qed.

Lemma NoDup_dedup l : NoDup (dedup l).
Proof. apply NoDup_dedup_go. Qed.

Lemma dedup_go_id seen l : NoDup l → (∀ x, x ∈ l → x ∉ seen) → dedup_go seen l = l.
Proof.
  intros Hnd. revert seen. induction Hnd as [|y l Hy Hnd IH]; intros seen Hs; cbn; [done|].
  rewrite bool_decide_eq_false_2 by (apply Hs; set_solver). f_equal. apply IH. set_solver.
Qed.

Lemma dedup_id l : NoDup l → dedup l = l.
Proof. intros. apply dedup_go_id; set_solver. Qed.
End dedup.

(** [existsb] over members and permutations. *)
Lemma existsb_false_elem {A} (f : A → bool) l x : existsb f l = false → x ∈ l → f x = false.
Proof.
  intros H Hx. apply not_true_iff_false. intros Hf. apply not_true_iff_false in H. apply H, existsb_exists.
  exists x. split; [by apply list_elem_of_In|done].
Qed.

Lemma existsb_perm {A} (f : A → bool) l k : l ≡ₚ k → existsb f l = existsb f k.
Proof. induction 1; cbn; [done|congruence|by rewrite !orb_assoc, (orb_comm (f x))|congruence]. Qed.

(** Two duplicate-free lists with the same members are permutations. *)
Lemma NoDup_same_perm {A} (l k : list A) :
  NoDup l → NoDup k → (∀ x, x ∈ l ↔ x ∈ k) → l ≡ₚ k.
Proof. intros. by apply NoDup_Permutation. Qed.

(** ** Grouping

    The accumulation loops of the source build a map from a key of each
    element: elements without a key are skipped, the first element of a key
    starts from [init]. *)
Section grouping.
Context {A K V : Type} `{Countable K}.
Context (key : A → option K) (upd : A → V → V) (init : V).

Definition group_step (m : gmap K V) (a : A) : gmap K V :=
  match key a with
  | None => m
  | Some k => <[k := upd a (default init (m !! k))]> m
  end.

Definition group_fold (l : list A) : gmap K V := foldl group_step ∅ l.

Definition in_group (k : K) (l : list A) : list A := filter (fun a => key a = Some k) l.

Lemma in_group_app k l1 l2 : in_group k (l1 ++ l2) = in_group k l1 ++ in_group k l2.
Proof. apply filter_app. Qed.

(** The entry of a key is the fold over the elements of that key, in order. *)
Lemma group_fold_lookup l k :
  group_fold l !! k =
    match in_group k l with
    | [] => None
    | g => Some (foldl (fun v a => upd a v) init g)
    end.
Proof.
  unfold group_fold. induction l as [|a l IH] using rev_ind; [done|].
  unfold in_group in *. rewrite foldl_app, filter_app, filter_cons, filter_nil.
  cbn. unfold group_step at 1.
  destruct (key a) as [k'|] eqn:Ek; cbn.
  - destruct (decide (k' = k)) as [->|Hne].
    + rewrite lookup_insert_eq, IH, decide_True by done.
      destruct (filter _ l) as [|b g]; cbn; [done|]. by rewrite foldl_app.
    + rewrite lookup_insert_ne, IH, decide_False, app_nil_r by congruence. done.
  - rewrite IH, decide_False, app_nil_r by done. done.
Qed.

Lemma group_fold_dom l k : is_Some (group_fold l !! k) ↔ ∃ a, a ∈ l ∧ key a = Some k.
Proof.
  rewrite group_fold_lookup. unfold in_group. split.
  - destruct (filter _ l) as [|a g] eqn:E; [by intros [? [=]]|]. intros _. exists a.
    assert (a ∈ filter (fun a => key a = Some k) l) as Ha by (rewrite E; set_solver).
    apply list_elem_of_filter in Ha. naive_solver.
  - intros (a & Ha & Hk).
    assert (a ∈ filter (fun a => key a = Some k) l) as Hf
      by (by apply list_elem_of_filter).
    destruct (filter _ l); [set_solver|eauto].
Qed.
End grouping.

(** Sorted keys of a map. *)
Definition sorted_keys {K V} `{Countable K} (less : K → K → bool) (m : gmap K V) : list K :=
  sort_by less (map_to_list m).*1.

Lemma elem_of_sorted_keys {K V} `{Countable K} less (m : gmap K V) k :
  k ∈ sorted_keys less m ↔ is_Some (m !! k).
Proof.
  unfold sorted_keys. rewrite elem_of_sort_by, list_elem_of_fmap. split.
  - intros ([k' v] & -> & Hin). apply elem_of_map_to_list in Hin. eauto.
  - intros [v Hv]. exists (k, v). by rewrite elem_of_map_to_list.
Qed.

Lemma NoDup_sorted_keys {K V} `{Countable K} less (m : gmap K V) : NoDup (sorted_keys less m).
Proof. apply NoDup_sort_by, NoDup_fst_map_to_list. Qed.

Lemma sorted_keys_sorted {K V} `{Countable K} less `{!StrictWeak less} (m : gmap K V) :
  StronglySorted (not_above less) (sorted_keys less m).
Proof. apply sort_by_sorted, _. Qed.

#[export] Hint Rewrite @elem_of_sort_by @elem_of_dedup @length_sort_by : genprof.
#[export] Hint Resolve NoDup_dedup sort_by_sorted : genprof.
