(* ===== verification/GoStd.v ===== *)
(** * Go's standard library, as far as the modelled source uses it

    Strings are byte strings, integers are [Z], instants are nanoseconds since
    the zero [time.Time] (January 1, year 1, UTC).  The functions below are
    executable; the lemmas are the facts the component files need. *)
From S2P Require Import Prelude.

(** ** strings *)
Fixpoint has_prefix (p s : string) : bool :=
  match p, s with
  | EmptyString, _ => true
  | String a p, String b s => bool_decide (a = b) && has_prefix p s
  | _, EmptyString => false
  end.

Fixpoint drop_prefix (p s : string) : option string :=
  match p, s with
  | EmptyString, _ => Some s
  | String a p, String b s => if bool_decide (a = b) then drop_prefix p s else None
  | _, EmptyString => None
  end.

Fixpoint str_rev_app (s t : string) : string :=
  match s with EmptyString => t | String a s => str_rev_app s (String a t) end.
Definition str_rev (s : string) : string := str_rev_app s "".

(** [strings.Split] on a one-byte separator: never empty. *)
Fixpoint split_on (sep : ascii) (s : string) : list string :=
  match s with
  | EmptyString => [""]
  | String a s =>
      if bool_decide (a = sep) then "" :: split_on sep s
      else match split_on sep s with
           | [] => [String a ""]
           | w :: ws => String a w :: ws
           end
  end.

(** [strings.Join]. *)
Fixpoint join (sep : string) (parts : list string) : string :=
  match parts with
  | [] => ""
  | [p] => p
  | p :: ps => p +:+ sep +:+ join sep ps
  end.

(** [strings.Trim] with a one-byte cutset. *)
Fixpoint trim_left_byte (c : ascii) (s : string) : string :=
  match s with
  | EmptyString => ""
  | String a s' => if bool_decide (a = c) then trim_left_byte c s' else s
  end.
Definition trim_byte (c : ascii) (s : string) : string :=
  str_rev (trim_left_byte c (str_rev (trim_left_byte c s))).

(** The UTF-8 encodings of the runes [unicode.IsSpace] accepts. *)
Definition bytes_string (l : list nat) : string :=
  foldr (fun n s => String (ascii_of_nat n) s) "" l.
Definition space_runes : list string :=
  map bytes_string
    ([[9]; [10]; [11]; [12]; [13]; [32]; [194; 133]; [194; 160]; [225; 154; 128]]
     ++ map (fun k => [226; 128; k]) [128; 129; 130; 131; 132; 133; 134; 135; 136; 137; 138; 168; 169; 175]
     ++ [[226; 129; 159]; [227; 128; 128]]).

Fixpoint first_drop (ps : list string) (s : string) : option string :=
  match ps with
  | [] => None
  | p :: ps => match drop_prefix p s with Some r => Some r | None => first_drop ps s end
  end.

Fixpoint trim_prefixes (ps : list string) (fuel : nat) (s : string) : string :=
  match fuel with
  | 0 => s
  | S n => match first_drop ps s with Some r => trim_prefixes ps n r | None => s end
  end.

(** [strings.TrimSpace]; each round drops at least one byte, so the length of
    the string is enough fuel. *)
Definition trim_space (s : string) : string :=
  let l := trim_prefixes space_runes (String.length s) s in
  str_rev (trim_prefixes (map str_rev space_runes) (String.length l) (str_rev l)).

(** [strings.TrimSpace(s) == ""]. *)
Definition blank (s : string) : bool := bool_decide (trim_space s = "").

Example blank_spaces : blank (" 	 " +:+ bytes_string [194; 160]) = true.
Proof. reflexivity. Qed.
Example trim_space_inner : trim_space "  a b
" = "a b".
Proof. reflexivity. Qed.

Definition lower_ascii (a : ascii) : ascii :=
  let n := nat_of_ascii a in
  if (65 <=? n) && (n <=? 90) then ascii_of_nat (n + 32) else a.

(** [strings.ToLower], as far as ASCII output goes: the ASCII letters, and the
    two other runes whose lower case is ASCII (U+212A and U+0130).  Every other
    rune keeps a non-ASCII image, left as it is here; the callers only look at
    the ASCII bytes of the result. *)
Fixpoint to_lower (s : string) : string :=
  match s with
  | EmptyString => ""
  | String a s1 =>
      match s1 with
      | String b s2 =>
          if (nat_of_ascii a =? 196) && (nat_of_ascii b =? 176) then String "i" (to_lower s2)
          else match s2 with
               | String c s3 =>
                   if (nat_of_ascii a =? 226) && (nat_of_ascii b =? 132) && (nat_of_ascii c =? 170)
                   then String "k" (to_lower s3) else String (lower_ascii a) (to_lower s1)
               | EmptyString => String (lower_ascii a) (to_lower s1)
               end
      | EmptyString => String (lower_ascii a) ""
      end
  end.

Example to_lower_ex : to_lower ("PodLoc" +:+ bytes_string [226; 132; 170]) = "podlock".
Proof. reflexivity. Qed.

Definition has_suffix (p s : string) : bool := has_prefix (str_rev p) (str_rev s).
Definition trim_prefix (p s : string) : string := match drop_prefix p s with Some r => r | None => s end.
Definition trim_suffix (p s : string) : string := str_rev (trim_prefix (str_rev p) (str_rev s)).

Lemma str_app_nil_l s : "" +:+ s = s.
Proof. done. Qed.

Lemma str_app_cons a s t : String a s +:+ t = String a (s +:+ t).
Proof. done. Qed.

Ltac str_simpl := repeat first [rewrite str_app_cons | rewrite str_app_nil_l].

Lemma str_app_nil_r s : s +:+ "" = s.
Proof. induction s as [|a s IH]; [done|]. str_simpl. by rewrite IH. Qed.

Lemma str_app_assoc (s t u : string) : (s +:+ t) +:+ u = s +:+ t +:+ u.
Proof. induction s as [|a s IH]; [done|]. str_simpl. by rewrite IH. Qed.

Lemma str_app_inj_l (s t u : string) : s +:+ t = s +:+ u → t = u.
Proof. induction s as [|a s IH]; str_simpl; [done|]. intros [= H]. eauto. Qed.

Lemma str_length_app s t : String.length (s +:+ t) = String.length s + String.length t.
Proof. induction s as [|a s IH]; str_simpl; cbn; [done|]. by rewrite IH. Qed.

(** Equal-length prefixes of equal strings are equal. *)
Lemma str_app_inj_len (s s' t t' : string) :
  String.length s = String.length s' → s +:+ t = s' +:+ t' → s = s' ∧ t = t'.
Proof.
  revert s'. induction s as [|a s IH]; intros [|b s']; cbn; str_simpl; try done.
  intros [= Hl] [= -> H]. destruct (IH _ Hl H) as [-> ->]. done.
Qed.

Lemma has_prefix_app p s : has_prefix p s = true ↔ ∃ r, s = p +:+ r.
Proof.
  revert s. induction p as [|a p IH]; intros s; cbn.
  - split; [|done]. intros _. by exists s.
  - destruct s as [|b s]; cbn.
    + split; [done|]. intros (r & Hr). rewrite str_app_cons in Hr. done.
    + rewrite andb_true_iff, bool_decide_eq_true, IH.
      setoid_rewrite str_app_cons. naive_solver.
Qed.

(** Splitting and joining. *)
Fixpoint has_byte (c : ascii) (s : string) : bool :=
  match s with EmptyString => false | String a s => bool_decide (a = c) || has_byte c s end.

Lemma split_on_nonnil c s : split_on c s ≠ [].
Proof. destruct s; cbn; [done|]. case_bool_decide; [done|]. by destruct (split_on c s). Qed.

Lemma split_on_plain c s : has_byte c s = false → split_on c s = [s].
Proof.
  induction s as [|a s IH]; cbn; [done|]. intros [? ?]%orb_false_iff.
  rewrite H. by rewrite IH.
Qed.

Lemma split_on_app c s t :
  has_byte c s = false → split_on c (s +:+ String c t) = s :: split_on c t.
Proof.
  induction s as [|a s IH]; str_simpl; cbn.
  - by rewrite bool_decide_eq_true_2.
  - intros [H ?]%orb_false_iff. rewrite H. by rewrite IH.
Qed.

(** Joining parts without the separator and splitting again gives them back. *)
Lemma split_on_join c ps :
  ps ≠ [] → Forall (fun p => has_byte c p = false) ps →
  split_on c (join (String c "") ps) = ps.
Proof.
  intros Hne Hall. induction Hall as [|p ps Hp Hall IH]; [done|]. clear Hne.
  destruct ps as [|q ps]; [by apply split_on_plain|].
  change (join (String c "") (p :: q :: ps)) with (p +:+ String c (join (String c "") (q :: ps))).
  rewrite split_on_app by done. by rewrite IH.
Qed.

Lemma split_on_parts c s : Forall (fun p => has_byte c p = false) (split_on c s).
Proof.
  induction s as [|a s IH]; cbn; [by repeat constructor|].
  case_bool_decide as Ha; [by constructor|].
  inversion IH as [|w ws Hw Hws Heq]; [repeat constructor; cbn; by rewrite bool_decide_eq_false_2|].
  constructor; [|done]. cbn. by rewrite bool_decide_eq_false_2.
Qed.

(** And splitting and joining gives the text back. *)
Lemma join_split c s : join (String c "") (split_on c s) = s.
Proof.
  induction s as [|a s IH]; [done|]. cbn [split_on]. case_bool_decide as E.
  - subst a. destruct (split_on c s) as [|w ws] eqn:Ew; [by apply split_on_nonnil in Ew|].
    change (join (String c "") ("" :: w :: ws)) with (String c (join (String c "") (w :: ws))). by rewrite IH.
  - destruct (split_on c s) as [|w [|v ws]] eqn:Ew; [by apply split_on_nonnil in Ew| |].
    + cbn in *. by rewrite IH.
    + change (join (String c "") (String a w :: v :: ws)) with (String a (join (String c "") (w :: v :: ws))). by rewrite IH.
Qed.

(** Reversal and trimming. *)
Lemma str_rev_app_spec s t : str_rev_app s t = str_rev s +:+ t.
Proof.
  unfold str_rev. revert t. induction s as [|a s IH]; intros t; [done|].
  cbn. rewrite (IH (String a t)), (IH (String a "")), str_app_assoc. done.
Qed.

Lemma str_rev_cons a s : str_rev (String a s) = str_rev s +:+ String a "".
Proof. unfold str_rev at 1. cbn. apply str_rev_app_spec. Qed.

Lemma str_rev_append s t : str_rev (s +:+ t) = str_rev t +:+ str_rev s.
Proof.
  induction s as [|a s IH]; str_simpl; [by rewrite str_app_nil_r|].
  by rewrite !str_rev_cons, IH, str_app_assoc.
Qed.

Lemma str_rev_involutive s : str_rev (str_rev s) = s.
Proof.
  induction s as [|a s IH]; [done|]. by rewrite str_rev_cons, str_rev_append, IH.
Qed.

Lemma has_byte_app c s t : has_byte c (s +:+ t) = has_byte c s || has_byte c t.
Proof. induction s as [|a s IH]; str_simpl; cbn; [done|]. by rewrite IH, orb_assoc. Qed.

Lemma has_byte_rev c s : has_byte c (str_rev s) = has_byte c s.
Proof.
  induction s as [|a s IH]; [done|]. rewrite str_rev_cons, has_byte_app, IH. cbn.
  by rewrite orb_false_r, orb_comm.
Qed.

Lemma str_rev_nonempty s : s ≠ "" → str_rev s ≠ "".
Proof. intros Hs Hr. apply Hs. by rewrite <- (str_rev_involutive s), Hr. Qed.

Lemma trim_left_plain c s t :
  s ≠ "" → has_byte c s = false → trim_left_byte c (s +:+ t) = s +:+ t.
Proof.
  destruct s as [|a s]; [done|]. intros _ [Ha _]%orb_false_iff. str_simpl. cbn.
  by rewrite Ha.
Qed.

Lemma join_app_singleton sep ps w :
  ps ≠ [] → join sep (ps ++ [w]) = join sep ps +:+ sep +:+ w.
Proof.
  induction ps as [|p ps IH]; [done|]. intros _.
  destruct ps as [|q ps]; [done|].
  change (join sep ((p :: q :: ps) ++ [w])) with (p +:+ sep +:+ join sep ((q :: ps) ++ [w])).
  change (join sep (p :: q :: ps)) with (p +:+ sep +:+ join sep (q :: ps)).
  rewrite IH by done. by rewrite !str_app_assoc.
Qed.

(** A path segment: neither empty, nor containing the separator. *)
Definition plain (c : ascii) (p : string) : Prop := p ≠ "" ∧ has_byte c p = false.

Lemma trim_byte_join c ps :
  Forall (plain c) ps → trim_byte c (join (String c "") ps) = join (String c "") ps.
Proof.
  intros Hall. unfold trim_byte.
  assert (trim_left_byte c (join (String c "") ps) = join (String c "") ps) as ->.
  { destruct Hall as [|p ps Hp Hall]; [done|]. destruct Hp as [Hp1 Hp2]. destruct ps as [|q ps].
    - pose proof (trim_left_plain c p "" Hp1 Hp2) as H. by rewrite str_app_nil_r in H.
    - by apply trim_left_plain. }
  destruct ps as [|w ps' _] using rev_ind; [done|].
  apply Forall_app in Hall as [_ Hw]. apply Forall_singleton in Hw as [Hw1 Hw2].
  assert (∃ t, join (String c "") (ps' ++ [w]) = t +:+ w) as [t ->].
  { destruct ps' as [|p ps']; [by exists ""|].
    exists (join (String c "") (p :: ps') +:+ String c "").
    rewrite join_app_singleton by done. by rewrite str_app_assoc. }
  rewrite str_rev_append, trim_left_plain.
  - by rewrite <- str_rev_append, str_rev_involutive.
  - by apply str_rev_nonempty.
  - by rewrite has_byte_rev.
Qed.

Lemma trim_byte_lead c s : trim_byte c (String c s) = trim_byte c s.
Proof. unfold trim_byte. cbn. by rewrite bool_decide_eq_true_2. Qed.

(** ** path/filepath on Unix *)

(** The element loop of [Clean]: empty and "." elements are skipped, ".."
    removes the last element (kept when there is none and the path is not
    rooted). The stack is reversed. *)
Fixpoint clean_elems (rooted : bool) (elems stack : list string) : list string :=
  match elems with
  | [] => rev stack
  | e :: elems =>
      if bool_decide (e = "") || bool_decide (e = ".") then clean_elems rooted elems stack
      else if bool_decide (e = "..") then
        match stack with
        | [] => clean_elems rooted elems (if rooted then [] else [".."])
        | t :: stack' =>
            if bool_decide (t = "..") then clean_elems rooted elems (".." :: stack)
            else clean_elems rooted elems stack'
        end
      else clean_elems rooted elems (e :: stack)
  end.

Definition slash : ascii := "/".

Definition filepath_clean (p : string) : string :=
  if bool_decide (p = "") then "." else
  let rooted := has_prefix "/" p in
  let out := join "/" (clean_elems rooted (split_on slash p) []) in
  if rooted then "/" +:+ out else if bool_decide (out = "") then "." else out.

(** [path[:i+1]] for the last slash [i] (empty when there is none). *)
Definition up_to_last_slash (p : string) : string :=
  match removelast (split_on slash p) with
  | [] => ""
  | ds => join "/" ds +:+ "/"
  end.

Definition filepath_dir (p : string) : string := filepath_clean (up_to_last_slash p).

Example filepath_dir_ex :
  map filepath_dir ["/etc/nginx/nginx.conf"; "/passwd"; "/a/../b//c/x"; "/a/b/"; "rel"] =
  ["/etc/nginx"; "/"; "/b/c"; "/a/b"; "."].
Proof. reflexivity. Qed.

(** A segment [Clean] keeps. *)
Definition clean_segment (p : string) : Prop := plain slash p ∧ p ≠ "." ∧ p ≠ "..".

Lemma clean_elems_plain r ps stack :
  Forall clean_segment ps → clean_elems r ps stack = rev stack ++ ps.
Proof.
  intros Hall. revert stack.
  induction Hall as [|p ps [[Hp _] [Hd Hdd]] Hall IH]; intros stack; cbn.
  - by rewrite app_nil_r.
  - rewrite !bool_decide_eq_false_2 by done. cbn. rewrite IH. cbn.
    by rewrite <- app_assoc.
Qed.

Lemma clean_segments_plain ps : Forall clean_segment ps → Forall (plain slash) ps.
Proof. intros H. eapply Forall_impl; [exact H|]. by intros ? [? _]. Qed.

Lemma segments_no_slash ps :
  Forall clean_segment ps → Forall (fun p => has_byte slash p = false) ps.
Proof. intros H. eapply Forall_impl; [exact H|]. by intros ? [[_ ?] _]. Qed.

(** The absolute path of a list of segments. *)
Definition abs_path (segs : list string) : string := "/" +:+ join "/" segs.

Lemma abs_path_join segs :
  segs ≠ [] → abs_path segs = join "/" ("" :: segs).
Proof. by destruct segs. Qed.

Lemma split_abs_path segs :
  segs ≠ [] → Forall clean_segment segs → split_on slash (abs_path segs) = "" :: segs.
Proof.
  intros Hne Hall. rewrite abs_path_join by done.
  apply (split_on_join slash); [done|]. constructor; [done|]. by apply segments_no_slash.
Qed.

(** The parent directory of a clean absolute path. *)
Lemma filepath_dir_abs segs f :
  Forall clean_segment (segs ++ [f]) → filepath_dir (abs_path (segs ++ [f])) = abs_path segs.
Proof.
  intros Hall. unfold filepath_dir, up_to_last_slash.
  rewrite split_abs_path by (done || by destruct segs).
  change ("" :: segs ++ [f]) with (("" :: segs) ++ [f]). rewrite removelast_last.
  apply Forall_app in Hall as [Hall _]. unfold filepath_clean.
  assert (∃ t, join "/" ("" :: segs) +:+ "/" = String slash t) as [t Ht].
  { destruct segs; cbn; [by exists ""|]. by eexists. }
  rewrite Ht, bool_decide_eq_false_2 by done. rewrite <- Ht.
  replace (has_prefix "/" (join "/" ("" :: segs) +:+ "/")) with true
    by (rewrite Ht; cbn; by rewrite bool_decide_eq_true_2).
  unfold abs_path. do 2 f_equal.
  assert (split_on slash (join "/" ("" :: segs) +:+ "/") = ("" :: segs) ++ [""]) as ->.
  { rewrite <- (str_app_nil_r (join _ _ +:+ _)), str_app_assoc, <- join_app_singleton by done.
    apply (split_on_join slash); [done|]. apply Forall_app. split; [|by repeat constructor].
    constructor; [done|]. by apply segments_no_slash. }
  cbn [app clean_elems]. rewrite bool_decide_eq_true_2 by done. cbn [orb].
  assert (∀ stack, clean_elems true (segs ++ [""]) stack = rev stack ++ segs) as Hc.
  { clear -Hall. induction Hall as [|p ps [[Hp _] [Hd Hdd]] Hall IH]; intros stack.
    - cbn. rewrite bool_decide_eq_true_2 by done. cbn. by rewrite app_nil_r.
    - cbn [app clean_elems]. rewrite !bool_decide_eq_false_2 by done. cbn [orb].
      rewrite IH. cbn. by rewrite <- app_assoc. }
  by rewrite Hc.
Qed.

(** ** Bytes, decimal and hexadecimal *)
Definition byte_of (a : ascii) : Z := Z.of_nat (nat_of_ascii a).

Fixpoint string_bytes (s : string) : list Z :=
  match s with EmptyString => [] | String a s => byte_of a :: string_bytes s end.

Definition ascii_of_Z (z : Z) : ascii := ascii_of_nat (Z.to_nat z).

Definition digit (d : Z) : ascii := ascii_of_Z (48 + d).

Fixpoint decimal_go (fuel : nat) (n : Z) (acc : string) : string :=
  match fuel with
  | 0 => acc
  | S k =>
      let acc := String (digit (n mod 10)) acc in
      if (n <? 10)%Z then acc else decimal_go k (n / 10) acc
  end.

(** [strconv.Itoa]: the binary length bounds the number of decimal digits. *)
Definition itoa (n : Z) : string :=
  let fuel := S (Z.to_nat (Z.log2 (Z.abs n) + 1)) in
  if (n <? 0)%Z then String "-" (decimal_go fuel (- n) "") else decimal_go fuel n "".

Example itoa_ex : map itoa [0; 7; 10; -305; 65535; 18446744073709551615]%Z =
  ["0"; "7"; "10"; "-305"; "65535"; "18446744073709551615"].
Proof. reflexivity. Qed.

Definition hex_digit (d : Z) : ascii := ascii_of_Z (if (d <? 10)%Z then 48 + d else 87 + d).

(** [hex.EncodeToString]. *)
Fixpoint hex_encode (l : list Z) : string :=
  match l with
  | [] => ""
  | b :: l => String (hex_digit (b / 16)) (String (hex_digit (b mod 16)) (hex_encode l))
  end.

(** ** time

    A [time.Time] is compared by its instant. *)
Abbreviation time := Z.
Definition time_is_zero (t : time) : bool := (t =? 0)%Z.

(** Zero-padded decimal of a fixed width. *)
Fixpoint pad_digits (width : nat) (n : Z) (acc : string) : string :=
  match width with
  | 0 => acc
  | S k => pad_digits k (n / 10) (String (digit (n mod 10)) acc)
  end.

(** Proleptic Gregorian date of a day number counted from January 1, year 1
    (400-year eras of 146097 days starting on March 1). *)
Definition civil_from_days (d : Z) : Z * Z * Z :=
  let z := (d + 306)%Z in
  let era := (z / 146097)%Z in
  let doe := (z mod 146097)%Z in
  let yoe := ((doe - doe / 1460 + doe / 36524 - doe / 146096) / 365)%Z in
  let doy := (doe - (365 * yoe + yoe / 4 - yoe / 100))%Z in
  let mp := ((5 * doy + 2) / 153)%Z in
  let day := (doy - (153 * mp + 2) / 5 + 1)%Z in
  let month := (if mp <? 10 then mp + 3 else mp - 9)%Z in
  ((yoe + era * 400 + (if month <=? 2 then 1 else 0))%Z, month, day).

Fixpoint drop_trailing_zeros_rev (s : string) : string :=
  match s with
  | String "0" s => drop_trailing_zeros_rev s
  | _ => s
  end.

(** The layout [2006-01-02T15:04:05.999999999Z07:00] of a UTC instant. *)
Definition format_rfc3339nano (t : time) : string :=
  let secs := (t / 1000000000)%Z in
  let nanos := (t mod 1000000000)%Z in
  let '(y, m, d) := civil_from_days (secs / 86400) in
  let sod := (secs mod 86400)%Z in
  let frac := str_rev (drop_trailing_zeros_rev (str_rev (pad_digits 9 nanos ""))) in
  pad_digits 4 y "" +:+ "-" +:+ pad_digits 2 m "" +:+ "-" +:+ pad_digits 2 d "" +:+ "T"
  +:+ pad_digits 2 (sod / 3600) "" +:+ ":" +:+ pad_digits 2 (sod / 60 mod 60) "" +:+ ":"
  +:+ pad_digits 2 (sod mod 60) ""
  +:+ (if bool_decide (frac = "") then "" else "." +:+ frac) +:+ "Z".

(** The Unix epoch is 62135596800 seconds after the zero time. *)
Definition unix (secs nanos : Z) : time := ((62135596800 + secs) * 1000000000 + nanos)%Z.

Example format_zero : format_rfc3339nano 0 = "0001-01-01T00:00:00Z".
Proof. vm_compute. reflexivity. Qed.
Example format_epoch : format_rfc3339nano (unix 0 0) = "1970-01-01T00:00:00Z".
Proof. vm_compute. reflexivity. Qed.
Example format_leap : format_rfc3339nano (unix 1709210096 120000000) = "2024-02-29T12:34:56.12Z".
Proof. vm_compute. reflexivity. Qed.

(** *** [time.Parse(time.RFC3339Nano, s)]: does it succeed?

    Hours may have one digit and fractions may start with a comma, as the
    general layout parser accepts. *)
Definition digit_val (a : ascii) : option Z :=
  let n := Z.of_nat (nat_of_ascii a) in
  if ((48 <=? n) && (n <=? 57))%Z then Some (n - 48)%Z else None.

Definition getnum (fixed : bool) (s : string) : option (Z * string) :=
  match s with
  | String a s =>
      match digit_val a with
      | None => None
      | Some x =>
          match s with
          | String b s' =>
              match digit_val b with
              | Some y => Some (10 * x + y, s')%Z
              | None => if fixed then None else Some (x, s)
              end
          | EmptyString => if fixed then None else Some (x, s)
          end
      end
  | EmptyString => None
  end.

Definition get_in (fixed : bool) (lo hi : Z) (s : string) : option (Z * string) :=
  '(x, r) ← getnum fixed s; if ((lo <=? x) && (x <=? hi))%Z then Some (x, r) else None.

Fixpoint skip_digits (s : string) : string :=
  match s with
  | String a r => match digit_val a with Some _ => skip_digits r | None => s end
  | EmptyString => s
  end.

Definition skip_fraction (s : string) : string :=
  match s with
  | String p (String a r) =>
      if bool_decide (p = "."%char ∨ p = ","%char) then
        match digit_val a with Some _ => skip_digits r | None => s end
      else s
  | _ => s
  end.

Definition days_in (m y : Z) : Z :=
  if (m =? 2)%Z then
    if ((y mod 4 =? 0) && (negb (y mod 100 =? 0) || (y mod 400 =? 0)))%Z then 29 else 28
  else if ((m =? 4) || (m =? 6) || (m =? 9) || (m =? 11))%Z then 30 else 31.

Definition zone_parses (s : string) : bool :=
  match s with
  | "Z" => true
  | String g r =>
      bool_decide (g = "+"%char ∨ g = "-"%char) &&
      match '(_, r) ← get_in true 0 24 r; r ← drop_prefix ":" r; '(_, r) ← get_in true 0 60 r; Some r with
      | Some "" => true
      | _ => false
      end
  | EmptyString => false
  end.

Definition rfc3339_parses (s : string) : bool :=
  match
    '(y1, r) ← getnum true s; '(y2, r) ← getnum true r; r ← drop_prefix "-" r;
    '(m, r) ← get_in true 1 12 r; r ← drop_prefix "-" r;
    '(d, r) ← getnum true r; r ← drop_prefix "T" r;
    '(_, r) ← get_in false 0 23 r; r ← drop_prefix ":" r;
    '(_, r) ← get_in true 0 59 r; r ← drop_prefix ":" r;
    '(_, r) ← get_in true 0 59 r;
    Some ((1 <=? d)%Z && (d <=? days_in m (100 * y1 + y2))%Z && zone_parses (skip_fraction r))
  with Some b => b | None => false end.

Example rfc3339_parses_ex :
  map rfc3339_parses ["2024-02-29T12:34:56.12Z"; "2023-02-29T12:34:56Z"; "2024-02-29T1:34:56,5+02:00";
                      "2024-02-29T12:34:56"; ""; "2024-13-01T00:00:00Z"; "2024-02-29 12:34:56Z"] =
  [true; false; true; false; false; false; false].
Proof. vm_compute. reflexivity. Qed.
Example rfc3339_round_trip :
  forallb (fun t => rfc3339_parses (format_rfc3339nano t)) [0; unix 0 0; unix 1709210096 120000000; unix 1709164800 5]%Z = true.
Proof. vm_compute. reflexivity. Qed.
