(* ===== verification/Landlock.v ===== *)
(** * internal/landlock: the ABI table and the filesystem synthesis kernel

    [abi.go] (module [Abi]) and [kernel.go] (module [Kernel]).  A right is the
    Go string constant, an ABI level an integer; the tables are finite maps. *)
From S2P Require Import Prelude GoStd.

Module Abi.

(** ** abi.go: data *)
Abbreviation ABILevel := Z.
Abbreviation LandlockRight := string.

Definition ABI1 : ABILevel := 1%Z.
Definition ABI2 : ABILevel := 2%Z.
Definition ABI3 : ABILevel := 3%Z.
Definition ABI4 : ABILevel := 4%Z.
Definition ABI5 : ABILevel := 5%Z.
Definition ABI6 : ABILevel := 6%Z.
Definition ABI7 : ABILevel := 7%Z.

Definition LandlockRightExecute : LandlockRight := "execute".
Definition LandlockRightWriteFile : LandlockRight := "write_file".
Definition LandlockRightReadFile : LandlockRight := "read_file".
Definition LandlockRightReadDir : LandlockRight := "read_dir".
Definition LandlockRightRemoveDir : LandlockRight := "remove_dir".
Definition LandlockRightRemoveFile : LandlockRight := "remove_file".
Definition LandlockRightMakeChar : LandlockRight := "make_char".
Definition LandlockRightMakeDir : LandlockRight := "make_dir".
Definition LandlockRightMakeReg : LandlockRight := "make_reg".
Definition LandlockRightMakeSock : LandlockRight := "make_sock".
Definition LandlockRightMakeFifo : LandlockRight := "make_fifo".
Definition LandlockRightMakeBlock : LandlockRight := "make_block".
Definition LandlockRightMakeSym : LandlockRight := "make_sym".
Definition LandlockRightRefer : LandlockRight := "refer".
Definition LandlockRightTruncate : LandlockRight := "truncate".
Definition LandlockRightNetBindTCP : LandlockRight := "net_bind_tcp".
Definition LandlockRightNetConnectTCP : LandlockRight := "net_connect_tcp".
Definition LandlockRightIoctlDev : LandlockRight := "ioctl_dev".
Definition LandlockRightScopeAbstractUnixSocket : LandlockRight := "scope_abstract_unix_socket".
Definition LandlockRightScopeSignal : LandlockRight := "scope_signal".

Definition abiOf : gmap LandlockRight ABILevel := list_to_map [
  (LandlockRightExecute, ABI1); (LandlockRightWriteFile, ABI1);
  (LandlockRightReadFile, ABI1); (LandlockRightReadDir, ABI1);
  (LandlockRightRemoveDir, ABI1); (LandlockRightRemoveFile, ABI1);
  (LandlockRightMakeChar, ABI1); (LandlockRightMakeDir, ABI1);
  (LandlockRightMakeReg, ABI1); (LandlockRightMakeSock, ABI1);
  (LandlockRightMakeFifo, ABI1); (LandlockRightMakeBlock, ABI1);
  (LandlockRightMakeSym, ABI1); (LandlockRightRefer, ABI2);
  (LandlockRightTruncate, ABI3); (LandlockRightNetBindTCP, ABI4);
  (LandlockRightNetConnectTCP, ABI4); (LandlockRightIoctlDev, ABI5);
  (LandlockRightScopeAbstractUnixSocket, ABI6); (LandlockRightScopeSignal, ABI6)].

Record kernelVersion := mkKernelVersion { Major : Z; Minor : Z }.

Definition minKernelForABI : gmap ABILevel kernelVersion := list_to_map [
  (ABI1, mkKernelVersion 5 13); (ABI2, mkKernelVersion 5 19);
  (ABI3, mkKernelVersion 6 2); (ABI4, mkKernelVersion 6 7);
  (ABI5, mkKernelVersion 6 10); (ABI6, mkKernelVersion 6 12);
  (ABI7, mkKernelVersion 6 15)].

(** ** abi.go: operations *)

(** A map lookup of a missing key gives the zero value. *)
Definition lessRight (a b : LandlockRight) : bool :=
  let ia := default 0%Z (abiOf !! a) in
  let ib := default 0%Z (abiOf !! b) in
  if negb (ia =? ib)%Z then (ia <? ib)%Z else string_ltb a b.

(** The inner loop: the new element moves left past the elements it is below;
    the sorted prefix is kept reversed, its last element first. *)
Fixpoint sift (x : LandlockRight) (rprefix : list LandlockRight) : list LandlockRight :=
  match rprefix with
  | [] => [x]
  | y :: rest => if lessRight x y then y :: sift x rest else x :: rprefix
  end.

Definition sortRightsDeterministic (rights : list LandlockRight) : list LandlockRight :=
  reverse (foldl (fun rprefix x => sift x rprefix) [] rights).

Definition RightsAt (abi : ABILevel) : list LandlockRight :=
  let rights := foldl (fun acc '(r, introducedAt) =>
    if (introducedAt <=? abi)%Z then acc ++ [r] else acc) [] (map_to_list abiOf) in
  sortRightsDeterministic rights.

Definition ABIForRight (r : LandlockRight) : option ABILevel := abiOf !! r.

Definition MinKernelFor (abi : ABILevel) : Z * Z * bool :=
  match minKernelForABI !! abi with
  | Some v => (Major v, Minor v, true)
  | None => (0%Z, 0%Z, false)
  end.

Definition kernelAtLeastVersion (major minor minMajor minMinor : Z) : bool :=
  if negb (major =? minMajor)%Z then (minMajor <? major)%Z else (minMinor <=? minor)%Z.

Definition ABIForKernel (major minor : Z) : ABILevel * bool :=
  foldl (fun '(best, found) '(abi, mn) =>
    if kernelAtLeastVersion major minor (Major mn) (Minor mn)
    then if negb found || (best <? abi)%Z then (abi, true) else (best, found)
    else (best, found)) (0%Z, false) (map_to_list minKernelForABI).

Definition HighestABI (rights : list LandlockRight) : ABILevel * bool :=
  foldl (fun '(highest, found) r =>
    match abiOf !! r with
    | None => (highest, found)
    | Some abi => if negb found || (highest <? abi)%Z then (abi, true) else (highest, found)
    end) (0%Z, false) rights.

(** ** Lemmas *)
Arguments abiOf : simpl never.
Arguments minKernelForABI : simpl never.

(** The level a right sorts under. *)
Definition level (r : LandlockRight) : ABILevel := default 0%Z (abiOf !! r).

Lemma lessRight_spec a b :
  lessRight a b = less_lex (less_on level Z.ltb) string_ltb a b.
Proof.
  unfold lessRight, less_lex, less_on. fold (level a) (level b). cbv zeta.
  destruct (Z.eqb_spec (level a) (level b)) as [->|]; cbn.
  - by rewrite Z.ltb_irrefl.
  - destruct (Z.ltb_spec (level a) (level b)); cbn; [done|].
    destruct (Z.ltb_spec (level b) (level a)); cbn; [done|lia].
Qed.

#[export] Instance lessRight_total : TotalLess lessRight.
Proof.
  split; [split|].
  - intros x y. rewrite !lessRight_spec. apply less_asym.
  - intros x y z. rewrite !lessRight_spec. apply less_negtrans.
  - intros x y. rewrite !lessRight_spec. unfold less_lex, less_on.
    intros [? ?]%orb_false_iff [? ?]%orb_false_iff.
    assert (level x = level y) as E by lia. rewrite E, Z.ltb_irrefl in *. cbn in *.
    by apply less_total.
Qed.

Lemma sift_perm x l : sift x l ≡ₚ x :: l.
Proof.
  induction l as [|y l IH]; cbn; [done|]. case_match; [|done].
  rewrite IH. apply Permutation_swap.
Qed.

(** The reversed prefix is sorted downwards. *)
Lemma sift_sorted x l :
  StronglySorted (fun a b => not_above lessRight b a) l →
  StronglySorted (fun a b => not_above lessRight b a) (sift x l).
Proof.
  induction 1 as [|y l Hs IH Hall]; cbn; [repeat constructor|].
  destruct (lessRight x y) eqn:E; constructor; try done.
  - rewrite sift_perm. constructor; [|done]. by apply less_asym.
  - by constructor.
  - constructor; [done|]. eapply Forall_impl; [done|]. intros z Hz.
    by apply (not_above_trans lessRight z y x).
Qed.

Lemma foldl_sift l acc :
  StronglySorted (fun a b => not_above lessRight b a) acc →
  StronglySorted (fun a b => not_above lessRight b a)
    (foldl (fun rprefix x => sift x rprefix) acc l) ∧
  foldl (fun rprefix x => sift x rprefix) acc l ≡ₚ l ++ acc.
Proof.
  revert acc. induction l as [|x l IH]; intros acc Hs; cbn; [done|].
  destruct (IH (sift x acc) (sift_sorted _ _ Hs)) as [? Hp].
  split; [done|]. rewrite Hp, sift_perm. by rewrite Permutation_middle.
Qed.

Lemma StronglySorted_reverse {A} (R : A → A → Prop) l :
  StronglySorted (fun a b => R b a) l → StronglySorted R (reverse l).
Proof.
  induction 1 as [|x l Hs IH Hall]; [constructor|]. rewrite reverse_cons.
  apply StronglySorted_app. split; [|split; [done|repeat constructor]].
  intros a b Ha ->%list_elem_of_singleton. rewrite Forall_forall in Hall.
  apply Hall. by apply elem_of_reverse.
Qed.

(** The in-place insertion sort computes the sorted list. *)
Lemma sortRightsDeterministic_sort l : sortRightsDeterministic l = sort_by lessRight l.
Proof.
  destruct (foldl_sift l []) as [Hs Hp]; [constructor|]. rewrite app_nil_r in Hp.
  apply (StronglySorted_unique (not_above lessRight)).
  - by apply StronglySorted_reverse.
  - apply sort_by_sorted, _.
  - unfold sortRightsDeterministic. by rewrite reverse_Permutation, Hp, sort_by_perm.
Qed.

Lemma RightsAt_filter_foldl (abi : ABILevel) l acc :
  foldl (fun acc '(r, introducedAt) =>
    if (introducedAt <=? abi)%Z then acc ++ [r] else acc) acc l =
  acc ++ (filter (fun p : LandlockRight * ABILevel => (p.2 <=? abi)%Z = true) l).*1.
Proof.
  revert acc. induction l as [|[r a] l IH]; intros acc; [cbn; by rewrite app_nil_r|].
  rewrite filter_cons. cbn [foldl snd]. rewrite IH. destruct (a <=? abi)%Z.
  - rewrite decide_True by done. cbn. by rewrite <- app_assoc.
  - by rewrite decide_False by done.
Qed.

Lemma elem_of_RightsAt abi r :
  r ∈ RightsAt abi ↔ ∃ a, abiOf !! r = Some a ∧ (a <= abi)%Z.
Proof.
  unfold RightsAt. rewrite sortRightsDeterministic_sort, elem_of_sort_by,
    RightsAt_filter_foldl, app_nil_l, list_elem_of_fmap. split.
  - intros ([r' a] & -> & [Ha Hin]%list_elem_of_filter). cbn in *.
    apply elem_of_map_to_list in Hin. exists a. split; [done|lia].
  - intros (a & Hr & Ha). exists (r, a). split; [done|]. apply list_elem_of_filter.
    cbn. split; [lia|]. by apply elem_of_map_to_list.
Qed.

Lemma RightsAt_sorted abi : StronglySorted (not_above lessRight) (RightsAt abi).
Proof. unfold RightsAt. rewrite sortRightsDeterministic_sort. apply sort_by_sorted, _. Qed.

(** The running maximum of the two search loops. *)
Definition keep_max (acc : ABILevel * bool) (abi : ABILevel) : ABILevel * bool :=
  let '(best, found) := acc in
  if negb found || (best <? abi)%Z then (abi, true) else (best, found).

Lemma foldl_keep_max_found h l :
  foldl keep_max (h, true) l = (foldl Z.max h l, true).
Proof.
  revert h. induction l as [|a l IH]; intros h; [done|]. cbn.
  destruct (Z.ltb_spec h a); cbn; rewrite IH; do 2 f_equal; lia.
Qed.

Lemma foldl_max_spec h l :
  (h <= foldl Z.max h l)%Z ∧ (∀ a, a ∈ l → (a <= foldl Z.max h l)%Z) ∧
  foldl Z.max h l ∈ h :: l.
Proof.
  revert h. induction l as [|b l IH]; intros h; cbn.
  - split; [lia|]. split; [set_solver|]. by apply list_elem_of_singleton.
  - destruct (IH (Z.max h b)) as (H1 & H2 & H3). split; [lia|]. split.
    + intros a [->|Ha]%elem_of_cons; [lia|auto].
    + apply elem_of_cons in H3 as [->|H3]; [|by do 2 apply list_elem_of_further].
      destruct (Z.max_spec h b) as [[_ ->]|[_ ->]]; [apply list_elem_of_further|];
        apply list_elem_of_here.
Qed.

Lemma foldl_keep_max l m b :
  foldl keep_max (0%Z, false) l = (m, b) →
  if b then m ∈ l ∧ (∀ a, a ∈ l → (a <= m)%Z) else l = [].
Proof.
  destruct l as [|a l]; cbn; [by intros [= <- <-]|].
  rewrite foldl_keep_max_found. intros [= <- <-].
  destruct (foldl_max_spec a l) as (H1 & H2 & H3). split; [done|].
  intros c [->|Hc]%elem_of_cons; auto.
Qed.

Lemma HighestABI_keep_max rights :
  HighestABI rights = foldl keep_max (0%Z, false) (omap (abiOf !!.) rights).
Proof.
  unfold HighestABI. generalize (0%Z, false). induction rights as [|r l IH]; intros [h f]; [done|].
  cbn. destruct (abiOf !! r); cbn; apply IH.
Qed.

(** The result is attained by a known right and bounds every known right. *)
Lemma HighestABI_spec rights m b :
  HighestABI rights = (m, b) →
  if b then (∃ r, r ∈ rights ∧ abiOf !! r = Some m) ∧
            (∀ r a, r ∈ rights → abiOf !! r = Some a → (a <= m)%Z)
  else ∀ r, r ∈ rights → abiOf !! r = None.
Proof.
  rewrite HighestABI_keep_max. intros H%foldl_keep_max. destruct b.
  - destruct H as [H1 H2]. split; [by apply list_elem_of_omap in H1|].
    intros r a Hr Ha. apply H2, list_elem_of_omap. eauto.
  - intros r Hr. destruct (abiOf !! r) as [a|] eqn:E; [|done].
    assert (a ∈ omap (abiOf !!.) rights) as Ha by (apply list_elem_of_omap; eauto).
    rewrite H in Ha. by apply elem_of_nil in Ha.
Qed.

Definition supported_levels (major minor : Z) : list ABILevel :=
  (filter (fun p : ABILevel * kernelVersion =>
    kernelAtLeastVersion major minor (Major p.2) (Minor p.2) = true)
    (map_to_list minKernelForABI)).*1.

Lemma ABIForKernel_keep_max major minor :
  ABIForKernel major minor = foldl keep_max (0%Z, false) (supported_levels major minor).
Proof.
  unfold ABIForKernel, supported_levels. generalize (0%Z, false).
  induction (map_to_list minKernelForABI) as [|[a v] l IH]; intros [h f]; [done|].
  rewrite filter_cons. cbn [foldl snd].
  destruct (kernelAtLeastVersion _ _ _ _).
  - rewrite decide_True by done. cbn. by rewrite <- IH.
  - by rewrite decide_False by done.
Qed.

Lemma elem_of_supported_levels major minor a :
  a ∈ supported_levels major minor ↔
  ∃ v, minKernelForABI !! a = Some v ∧
       kernelAtLeastVersion major minor (Major v) (Minor v) = true.
Proof.
  unfold supported_levels. rewrite list_elem_of_fmap. split.
  - intros ([a' v] & -> & [Hv Hin]%list_elem_of_filter). exists v.
    by apply elem_of_map_to_list in Hin.
  - intros (v & Hv & Hk). exists (a, v). split; [done|]. apply list_elem_of_filter.
    split; [done|]. by apply elem_of_map_to_list.
Qed.

(** ABIForKernel in one comparison per documented level. *)
Lemma kernelAtLeastVersion_lex M m M' m' :
  kernelAtLeastVersion M m M' m' = true ↔ (M' < M ∨ M = M' ∧ m' <= m)%Z.
Proof. unfold kernelAtLeastVersion. case_match; bool_simpl; lia. Qed.

(** The table rows, and that newer levels need newer kernels. *)
Lemma minKernelForABI_rows a v :
  minKernelForABI !! a = Some v →
  (a, Major v, Minor v) ∈ [(1, 5, 13); (2, 5, 19); (3, 6, 2); (4, 6, 7);
                           (5, 6, 10); (6, 6, 12); (7, 6, 15)]%Z.
Proof.
  intros Hin%elem_of_list_to_map_2. destruct v as [x y].
  repeat (apply elem_of_cons in Hin as [[= -> -> ->]|Hin]; [set_solver|]).
  by apply elem_of_nil in Hin.
Qed.

Lemma minKernelForABI_mono a b v w M m :
  minKernelForABI !! a = Some v → minKernelForABI !! b = Some w → (a <= b)%Z →
  kernelAtLeastVersion M m (Major w) (Minor w) = true →
  kernelAtLeastVersion M m (Major v) (Minor v) = true.
Proof.
  intros Hv%minKernelForABI_rows Hw%minKernelForABI_rows Hab.
  rewrite !kernelAtLeastVersion_lex.
  repeat (apply elem_of_cons in Hv as [[= -> -> ->]|Hv]); [..|by apply elem_of_nil in Hv];
    repeat (apply elem_of_cons in Hw as [[= -> -> ->]|Hw]);
    try (by apply elem_of_nil in Hw); lia.
Qed.

(** [HighestABI] is the least level at which a candidate can be enforced:
    every right of the list that the table knows is available at a level exactly
    when the level reaches what [HighestABI] reports, and the level it reports
    is the level of one of the rights. *)
Theorem HighestABI_least rights abi :
  ((∀ r, r ∈ rights → is_Some (ABIForRight r) → r ∈ RightsAt abi) ↔
   (snd (HighestABI rights) = true → (fst (HighestABI rights) <= abi)%Z)) ∧
  (snd (HighestABI rights) = true →
   ∃ r, r ∈ rights ∧ ABIForRight r = Some (fst (HighestABI rights))).
Proof.
  unfold ABIForRight. destruct (HighestABI rights) as [m b] eqn:E.
  apply HighestABI_spec in E. cbn. setoid_rewrite elem_of_RightsAt. destruct b; split.
  - destruct E as [(r & Hr & Hm) Hmax]. split.
    + intros H _. destruct (H r Hr) as (a & Ha & ?); [eauto|]. by simplify_eq.
    + intros H r' Hr' [a Ha]. exists a. split; [done|]. specialize (Hmax _ _ Hr' Ha). lia.
  - intros _. apply E.
  - split; [done|]. intros _ r Hr [a Ha]. by rewrite (E r Hr) in Ha.
  - done.
Qed.

(** [ABIForKernel] inverts [MinKernelFor]: a kernel reaches the documented
    minimum of a level exactly when the level is at most the one reported. *)
Theorem ABIForKernel_MinKernelFor M m abi x y :
  MinKernelFor abi = (x, y, true) →
  kernelAtLeastVersion M m x y = true ↔
  ∃ best, ABIForKernel M m = (best, true) ∧ (abi <= best)%Z.
Proof.
  unfold MinKernelFor. destruct (minKernelForABI !! abi) as [v|] eqn:Ev; [|done].
  intros [= <- <-]. rewrite ABIForKernel_keep_max.
  destruct (foldl keep_max _ _) as [best b] eqn:E. apply foldl_keep_max in E. split.
  - intros Hk. assert (abi ∈ supported_levels M m) as Hin
      by (apply elem_of_supported_levels; eauto).
    destruct b; [exists best; destruct E; auto|]. rewrite E in Hin. by apply elem_of_nil in Hin.
  - intros (best' & [= <- ->] & Hle). destruct E as [E _].
    apply elem_of_supported_levels in E as (w & Hw & Hk).
    by apply (minKernelForABI_mono abi best v w).
Qed.

Lemma ABIForKernel_MinKernelFor_witness :
  MinKernelFor ABI3 = (6%Z, 2%Z, true) ∧
  (kernelAtLeastVersion 6 8 6 2 = true ↔
   ∃ best, ABIForKernel 6 8 = (best, true) ∧ (ABI3 <= best)%Z).
Proof.
  split; [vm_compute; reflexivity|].
  apply (ABIForKernel_MinKernelFor 6 8 ABI3 6 2). vm_compute. reflexivity.
Defined.

End Abi.

Module Kernel.
Import Abi.

(** ** kernel.go: data *)
Definition maxAggregationDepth : nat := 3.

Abbreviation Operation := string.
Definition OperationRead : Operation := "read".
Definition OperationWrite : Operation := "write".
Definition OperationExecute : Operation := "execute".
Definition OperationReadWrite : Operation := "read_write".

Record EvidenceRef := mkEvidenceRef { ev_Source : string; ev_Timestamp : time }.

Record FilesystemObservation := mkFilesystemObservation {
  fo_Path : string;
  fo_Operation : Operation;
  fo_IsDir : bool;
  fo_Truncate : bool;
  fo_Evidence : EvidenceRef
}.

Abbreviation Confidence := string.
Definition ConfidenceLow : Confidence := "low".
Definition ConfidenceMedium : Confidence := "medium".
Definition ConfidenceHigh : Confidence := "high".

Record Rule := mkRule {
  r_Path : string;
  r_Rights : list LandlockRight;
  r_Evidence : list EvidenceRef;
  r_Confidence : Confidence;
  r_SeenCount : nat
}.

Record Candidate := mkCandidate { Rules : list Rule }.
Record SynthesisReport := mkSynthesisReport { sr_Candidate : Candidate }.

Record dirAccess := mkDirAccess {
  readFile : bool; readDir : bool; da_write : bool; da_exec : bool; truncate : bool;
  evidence : list EvidenceRef
}.
Definition new_dirAccess : dirAccess := mkDirAccess false false false false false [].

(** ** kernel.go: operations *)
Definition aggregationDir (path : string) (isDir : bool) : string :=
  let dir := if isDir then path else filepath_dir path in
  let segments := split_on slash (trim_byte slash dir) in
  let segments := if maxAggregationDepth <? length segments
                  then take maxAggregationDepth segments else segments in
  "/" +:+ join "/" segments.

Definition rightsFor (acc : dirAccess) : list LandlockRight :=
  let rights := [] in
  let rights := if readFile acc then rights ++ [LandlockRightReadFile] else rights in
  let rights := if readDir acc then rights ++ [LandlockRightReadDir] else rights in
  let rights := if da_write acc then rights ++ [LandlockRightWriteFile] else rights in
  let rights := if da_exec acc then rights ++ [LandlockRightExecute] else rights in
  let rights := if truncate acc then rights ++ [LandlockRightTruncate] else rights in
  rights.

Definition confidenceFor (seenCount : nat) : Confidence :=
  if 3 <=? seenCount then ConfidenceHigh
  else if seenCount =? 2 then ConfidenceMedium else ConfidenceLow.

(** The accesses one observation sets on its directory's entry. *)
Definition record_access (obs : FilesystemObservation) (acc : dirAccess) : dirAccess :=
  let '(mkDirAccess rf rd w x t evs) := acc in
  let evs := evs ++ [fo_Evidence obs] in
  let t := if fo_Truncate obs then true else t in
  let op := fo_Operation obs in
  if bool_decide (op = OperationRead) then
    if fo_IsDir obs then mkDirAccess rf true w x t evs else mkDirAccess true rd w x t evs
  else if bool_decide (op = OperationWrite) then mkDirAccess rf rd true x t evs
  else if bool_decide (op = OperationReadWrite) then
    if fo_IsDir obs then mkDirAccess rf true true x t evs else mkDirAccess true rd true x t evs
  else if bool_decide (op = OperationExecute) then mkDirAccess rf rd w true t evs
  else mkDirAccess rf rd w x t evs.

Definition skipped (obs : FilesystemObservation) : bool :=
  bool_decide (fo_Path obs = "") || negb (has_prefix "/" (fo_Path obs)).

Definition collect (byDir : gmap string dirAccess) (obs : FilesystemObservation)
  : gmap string dirAccess :=
  if skipped obs then byDir
  else
    let dir := aggregationDir (fo_Path obs) (fo_IsDir obs) in
    let acc := match byDir !! dir with Some acc => acc | None => new_dirAccess end in
    <[dir := record_access obs acc]> byDir.

Definition rule_of (byDir : gmap string dirAccess) (dir : string) : Rule :=
  let acc := match byDir !! dir with Some acc => acc | None => new_dirAccess end in
  mkRule dir (rightsFor acc) (evidence acc) (confidenceFor (length (evidence acc)))
    (length (evidence acc)).

Definition Synthesize (observations : list FilesystemObservation) : result SynthesisReport :=
  let byDir := foldl collect ∅ observations in
  let dirs := sorted_keys string_ltb byDir in
  Ok (mkSynthesisReport (mkCandidate (map (rule_of byDir) dirs))).

(** ** Specification of one observation *)

(** The directory an observation is filed under, if it is not skipped. *)
Definition target_dir (o : FilesystemObservation) : option string :=
  if skipped o then None else Some (aggregationDir (fo_Path o) (fo_IsDir o)).

(** The rights the kernel needs for the access one observation reports. *)
Inductive justifies (o : FilesystemObservation) : LandlockRight → Prop :=
| needs_read_file : fo_Operation o ∈ [OperationRead; OperationReadWrite] → fo_IsDir o = false →
    justifies o LandlockRightReadFile
| needs_read_dir : fo_Operation o ∈ [OperationRead; OperationReadWrite] → fo_IsDir o = true →
    justifies o LandlockRightReadDir
| needs_write : fo_Operation o ∈ [OperationWrite; OperationReadWrite] →
    justifies o LandlockRightWriteFile
| needs_exec : fo_Operation o = OperationExecute → justifies o LandlockRightExecute
| needs_truncate : fo_Truncate o = true → justifies o LandlockRightTruncate.

(** ** Lemmas *)
Lemma collect_group_step m o : collect m o = group_step target_dir record_access new_dirAccess m o.
Proof.
  unfold collect, group_step, target_dir. destruct (skipped o); [done|].
  by destruct (m !! _).
Qed.

Lemma collect_group_fold l :
  foldl collect ∅ l = group_fold target_dir record_access new_dirAccess l.
Proof.
  unfold group_fold. generalize (∅ : gmap string dirAccess). induction l as [|o l IH]; intros m; [done|].
  cbn. by rewrite collect_group_step, IH.
Qed.

Lemma foldl_record_evidence g acc :
  evidence (foldl (fun acc o => record_access o acc) acc g) = evidence acc ++ map fo_Evidence g.
Proof.
  revert acc. induction g as [|o g IH]; intros acc; cbn; [by rewrite app_nil_r|].
  rewrite IH. destruct acc. unfold record_access. cbn.
  repeat case_match; cbn; by rewrite <- app_assoc.
Qed.

Lemma elem_of_rightsFor acc r :
  r ∈ rightsFor acc ↔
    (r = LandlockRightReadFile ∧ readFile acc = true) ∨
    (r = LandlockRightReadDir ∧ readDir acc = true) ∨
    (r = LandlockRightWriteFile ∧ da_write acc = true) ∨
    (r = LandlockRightExecute ∧ da_exec acc = true) ∨
    (r = LandlockRightTruncate ∧ truncate acc = true).
Proof.
  destruct acc as [[] [] [] [] [] evs]; cbn;
    rewrite ?elem_of_cons, ?elem_of_nil; intuition congruence.
Qed.

Lemma justifies_iff o r :
  justifies o r ↔
    (r = LandlockRightReadFile ∧
       (fo_Operation o = OperationRead ∨ fo_Operation o = OperationReadWrite) ∧ fo_IsDir o = false) ∨
    (r = LandlockRightReadDir ∧
       (fo_Operation o = OperationRead ∨ fo_Operation o = OperationReadWrite) ∧ fo_IsDir o = true) ∨
    (r = LandlockRightWriteFile ∧
       (fo_Operation o = OperationWrite ∨ fo_Operation o = OperationReadWrite)) ∨
    (r = LandlockRightExecute ∧ fo_Operation o = OperationExecute) ∨
    (r = LandlockRightTruncate ∧ fo_Truncate o = true).
Proof.
  split.
  - destruct 1 as [Hop|Hop|Hop| |];
      try (rewrite !elem_of_cons, elem_of_nil in Hop); intuition.
  - intros [(-> & ? & ?)|[(-> & ? & ?)|[(-> & ?)|[(-> & ?)|(-> & ?)]]]]; constructor;
      rewrite ?elem_of_cons, ?elem_of_nil; intuition.
Qed.

Lemma record_access_rights o acc r :
  r ∈ rightsFor (record_access o acc) ↔ r ∈ rightsFor acc ∨ justifies o r.
Proof.
  rewrite justifies_iff, !elem_of_rightsFor. destruct acc as [rf rd w x t evs].
  destruct o as [p op isdir tr ev]. unfold record_access. cbn [fo_Operation fo_IsDir fo_Truncate].
  assert (OperationRead ≠ OperationWrite ∧ OperationRead ≠ OperationReadWrite ∧
          OperationRead ≠ OperationExecute ∧ OperationWrite ≠ OperationReadWrite ∧
          OperationWrite ≠ OperationExecute ∧ OperationReadWrite ≠ OperationExecute)
    as (? & ? & ? & ? & ? & ?) by (repeat split; discriminate).
  repeat case_bool_decide; subst; destruct isdir, tr; cbn; intuition congruence.
Qed.

Lemma foldl_record_rights g acc r :
  r ∈ rightsFor (foldl (fun acc o => record_access o acc) acc g) ↔
  r ∈ rightsFor acc ∨ ∃ o, o ∈ g ∧ justifies o r.
Proof.
  revert acc. induction g as [|o g IH]; intros acc; cbn.
  - split; [by left|]. intros [?|(o & Ho%elem_of_nil & _)]; done.
  - rewrite IH, record_access_rights. setoid_rewrite elem_of_cons. naive_solver.
Qed.

(** The accumulated entry of a directory, as a fold over its observations. *)
Lemma byDir_lookup l d :
  foldl collect ∅ l !! d =
    match in_group target_dir d l with
    | [] => None
    | g => Some (foldl (fun acc o => record_access o acc) new_dirAccess g)
    end.
Proof. by rewrite collect_group_fold, group_fold_lookup. Qed.

Lemma elem_of_in_group (d : string) o l :
  o ∈ in_group target_dir d l ↔ o ∈ l ∧ target_dir o = Some d.
Proof. unfold in_group. rewrite list_elem_of_filter. naive_solver. Qed.

Definition rules_of (l : list FilesystemObservation) : list Rule :=
  match Synthesize l with Ok rep => Rules (sr_Candidate rep) | Err _ => [] end.

Lemma Synthesize_rules l : Synthesize l = Ok (mkSynthesisReport (mkCandidate (rules_of l))).
Proof. done. Qed.

(** The rule of a directory: its fields in terms of the directory's observations. *)
Lemma elem_of_rules_of l rule :
  rule ∈ rules_of l ↔
  ∃ d, in_group target_dir d l ≠ [] ∧
       rule = rule_of (foldl collect ∅ l) d.
Proof.
  unfold rules_of, Synthesize. cbn. rewrite list_elem_of_fmap.
  setoid_rewrite elem_of_sorted_keys. setoid_rewrite byDir_lookup.
  split; intros (d & H1 & H2); exists d.
  - split; [|done]. destruct (in_group target_dir d l); [by destruct H2|done].
  - split; [done|]. destruct (in_group target_dir d l); [done|eauto].
Qed.

Lemma rule_of_rights l d r :
  r ∈ r_Rights (rule_of (foldl collect ∅ l) d) ↔
  ∃ o, o ∈ l ∧ target_dir o = Some d ∧ justifies o r.
Proof.
  unfold rule_of. cbn [r_Rights]. rewrite byDir_lookup.
  destruct (in_group target_dir d l) as [|o g] eqn:E.
  - split; [intros H%elem_of_nil; done|]. intros (o & Ho & Ht & _).
    assert (o ∈ in_group target_dir d l) as Hin by (by apply elem_of_in_group).
    rewrite E in Hin. by apply elem_of_nil in Hin.
  - rewrite foldl_record_rights. setoid_rewrite <- E. setoid_rewrite elem_of_in_group.
    split; [|naive_solver]. intros [H%elem_of_nil|H]; [done|naive_solver].
Qed.

Lemma rule_of_evidence l d :
  r_Evidence (rule_of (foldl collect ∅ l) d) = map fo_Evidence (in_group target_dir d l).
Proof.
  unfold rule_of. cbn [r_Evidence]. rewrite byDir_lookup.
  destruct (in_group target_dir d l) as [|o g] eqn:E; [done|].
  by rewrite foldl_record_evidence.
Qed.

Lemma rule_of_seen l d :
  r_SeenCount (rule_of (foldl collect ∅ l) d) = length (in_group target_dir d l).
Proof.
  transitivity (length (r_Evidence (rule_of (foldl collect ∅ l) d))); [done|].
  by rewrite rule_of_evidence, length_map.
Qed.

Lemma rules_of_paths l :
  (r_Path <$> rules_of l) = sorted_keys string_ltb (foldl collect ∅ l).
Proof.
  unfold rules_of, Synthesize. cbn. rewrite <- list_fmap_compose.
  rewrite <- (list_fmap_id (sorted_keys _ _)) at 2. by apply list_fmap_ext.
Qed.

(** C38: least privilege, both ways: a synthesized candidate grants a right on a
    directory exactly when some absolute observation filed under that directory
    reports an access the kernel needs that right for. Nothing observed is lost
    and nothing unobserved is granted. *)
Theorem Synthesize_least_privilege observations d r :
  (∃ rule, rule ∈ rules_of observations ∧ r_Path rule = d ∧ r ∈ r_Rights rule) ↔
  (∃ o, o ∈ observations ∧ target_dir o = Some d ∧ justifies o r).
Proof.
  rewrite <- rule_of_rights. split.
  - intros (rule & (d' & _ & ->)%elem_of_rules_of & <- & Hr). done.
  - intros Hr. exists (rule_of (foldl collect ∅ observations) d).
    split; [|done]. apply elem_of_rules_of. exists d. split; [|done].
    apply rule_of_rights in Hr as (o & Ho & Ht & _). intros E.
    assert (o ∈ in_group target_dir d observations) as Hin by (by apply elem_of_in_group).
    rewrite E in Hin. by apply elem_of_nil in Hin.
Qed.

(** The shape of a candidate: one rule per directory in increasing path
    order, its evidence is the evidence of that directory's observations in
    input order, its count is their number and its confidence follows the
    count. *)
Theorem Synthesize_rule_shape observations :
  NoDup (r_Path <$> rules_of observations) ∧
  StronglySorted (not_above string_ltb) (r_Path <$> rules_of observations) ∧
  ∀ rule, rule ∈ rules_of observations →
    r_Evidence rule = map fo_Evidence (in_group target_dir (r_Path rule) observations) ∧
    r_SeenCount rule = length (r_Evidence rule) ∧
    1 <= r_SeenCount rule ∧
    r_Confidence rule =
      (if 3 <=? r_SeenCount rule then ConfidenceHigh
       else if r_SeenCount rule =? 2 then ConfidenceMedium else ConfidenceLow).
Proof.
  rewrite rules_of_paths. split; [apply NoDup_sorted_keys|].
  split; [apply sorted_keys_sorted, _|].
  intros rule (d & Hd & ->)%elem_of_rules_of. split; [apply rule_of_evidence|].
  split; [done|]. split; [|done]. rewrite rule_of_seen.
  destruct (in_group target_dir d observations); cbn; [done|lia].
Qed.

(** *** Aggregation directories *)
Lemma aggregationDir_segments segs :
  Forall clean_segment segs →
  "/" +:+ join "/" (let s := split_on slash (trim_byte slash (abs_path segs)) in
                    if maxAggregationDepth <? length s then take maxAggregationDepth s else s) =
  abs_path (take maxAggregationDepth segs).
Proof.
  intros Hall. unfold abs_path. change ("/" +:+ join "/" segs) with (String slash (join "/" segs)).
  rewrite trim_byte_lead. rewrite (trim_byte_join slash) by (by apply clean_segments_plain).
  destruct segs as [|p segs]; [done|].
  rewrite (split_on_join slash) by (done || by apply segments_no_slash). cbv zeta.
  destruct (Nat.ltb_spec maxAggregationDepth (length (p :: segs))); [done|].
  rewrite take_ge by lia. done.
Qed.

(** A file is filed under its parent directory, a directory under itself,
    both cut to at most [maxAggregationDepth] leading segments: the directory of
    the rule is an ancestor-or-self of what was accessed, never deeper. *)
Theorem aggregationDir_clean segs f :
  Forall clean_segment (segs ++ [f]) →
  aggregationDir (abs_path (segs ++ [f])) false = abs_path (take maxAggregationDepth segs) ∧
  aggregationDir (abs_path (segs ++ [f])) true =
    abs_path (take maxAggregationDepth (segs ++ [f])).
Proof.
  intros Hall. unfold aggregationDir. rewrite filepath_dir_abs by done. split.
  - apply aggregationDir_segments. by apply Forall_app in Hall as [? _].
  - by apply aggregationDir_segments.
Qed.

Lemma aggregationDir_clean_witness :
  aggregationDir (abs_path (["var"; "log"; "nginx"; "old"] ++ ["access.log"])) false =
    abs_path ["var"; "log"; "nginx"] ∧
  aggregationDir "/etc/nginx" true = "/etc/nginx".
Proof.
  split.
  - apply (aggregationDir_clean ["var"; "log"; "nginx"; "old"] "access.log").
    repeat constructor; done.
  - apply (aggregationDir_clean ["etc"] "nginx"). repeat constructor; done.
Defined.

(** *** Order of observations *)
Lemma rightsFor_flags acc :
  (LandlockRightReadFile ∈ rightsFor acc ↔ readFile acc = true) ∧
  (LandlockRightReadDir ∈ rightsFor acc ↔ readDir acc = true) ∧
  (LandlockRightWriteFile ∈ rightsFor acc ↔ da_write acc = true) ∧
  (LandlockRightExecute ∈ rightsFor acc ↔ da_exec acc = true) ∧
  (LandlockRightTruncate ∈ rightsFor acc ↔ truncate acc = true).
Proof. rewrite !elem_of_rightsFor. split_and!; (split; [intros H; destruct_or! H; destruct H; first [done|discriminate]|auto 8]). Qed.

Lemma rightsFor_ext a b :
  (∀ r, r ∈ rightsFor a ↔ r ∈ rightsFor b) → rightsFor a = rightsFor b.
Proof.
  intros H.
  assert (∀ x y : bool, (x = true ↔ y = true) → x = y) as Hb by (intros [] []; naive_solver).
  destruct (rightsFor_flags a) as (A1 & A2 & A3 & A4 & A5), (rightsFor_flags b) as (B1 & B2 & B3 & B4 & B5).
  assert (readFile a = readFile b) as E1 by (apply Hb; by rewrite <- A1, <- B1).
  assert (readDir a = readDir b) as E2 by (apply Hb; by rewrite <- A2, <- B2).
  assert (da_write a = da_write b) as E3 by (apply Hb; by rewrite <- A3, <- B3).
  assert (da_exec a = da_exec b) as E4 by (apply Hb; by rewrite <- A4, <- B4).
  assert (truncate a = truncate b) as E5 by (apply Hb; by rewrite <- A5, <- B5).
  unfold rightsFor. by rewrite E1, E2, E3, E4, E5.
Qed.

(** What a rule grants, without its evidence trail. *)
Definition grant (rule : Rule) : string * list LandlockRight * Confidence * nat :=
  (r_Path rule, r_Rights rule, r_Confidence rule, r_SeenCount rule).

Lemma in_group_perm (d : string) l1 l2 :
  l1 ≡ₚ l2 → in_group target_dir d l1 ≡ₚ in_group target_dir d l2.
Proof. intros H. unfold in_group. by rewrite H. Qed.

(** The grants of a candidate depend only on which observations were made,
    not on the order they arrived in. *)
Theorem Synthesize_permutation l1 l2 :
  l1 ≡ₚ l2 → map grant (rules_of l1) = map grant (rules_of l2).
Proof.
  intros Hp. unfold rules_of, Synthesize. cbn. rewrite !map_map.
  assert (sorted_keys string_ltb (foldl collect ∅ l1) =
          sorted_keys string_ltb (foldl collect ∅ l2)) as ->.
  { apply sorted_strings_unique; [apply sorted_keys_sorted, _..|].
    apply NoDup_same_perm; [apply NoDup_sorted_keys..|]. intros d.
    rewrite !elem_of_sorted_keys, !byDir_lookup.
    pose proof (in_group_perm d _ _ Hp) as Hg.
    destruct (in_group target_dir d l1), (in_group target_dir d l2);
      [done|by apply Permutation_nil_cons in Hg
      |by apply symmetry, Permutation_nil_cons in Hg|]. split; eauto. }
  apply map_ext. intros d. unfold grant.
  assert (r_SeenCount (rule_of (foldl collect ∅ l1) d) =
          r_SeenCount (rule_of (foldl collect ∅ l2) d)) as Hs.
  { rewrite !rule_of_seen. by rewrite (in_group_perm d _ _ Hp). }
  assert (r_Rights (rule_of (foldl collect ∅ l1) d) =
          r_Rights (rule_of (foldl collect ∅ l2) d)) as Hr.
  { apply rightsFor_ext. intros r. etransitivity; [apply rule_of_rights|].
    etransitivity; [|symmetry; apply rule_of_rights]. by setoid_rewrite Hp. }
  change (r_Confidence ?r) with (confidenceFor (r_SeenCount r)).
  by rewrite Hs, Hr.
Qed.

Lemma Synthesize_permutation_witness :
  let o1 := mkFilesystemObservation "/etc/nginx/nginx.conf" OperationRead false false
              (mkEvidenceRef "" 5) in
  let o2 := mkFilesystemObservation "/var/run/pid" OperationWrite false true
              (mkEvidenceRef "" 7) in
  map grant (rules_of [o1; o2]) = map grant (rules_of [o2; o1]).
Proof. intros o1 o2. apply (Synthesize_permutation [o1; o2] [o2; o1]). apply Permutation_swap. Defined.

End Kernel.
