(* ===== verification/Policy.v ===== *)
(** * internal/profile, internal/observation and internal/policy

    The behavior IR and its synthesis from a stream of observations.  The
    filesystem domain goes through [Landlock.Kernel]. *)
From S2P Require Import Prelude GoStd Landlock.
Import Abi Kernel.

(** ** internal/observation/observation.go *)
Inductive Kind := KindOther | KindFilesystem | KindNetwork | KindSyscall | KindCapability.

Record Observation := mkObservation {
  ob_Kind : Kind;
  ob_Path : string;
  ob_Mode : string;
  ob_Syscall : string;
  ob_IsDir : bool;
  ob_Truncate : bool;
  ob_Port : Z;
  ob_Timestamp : time
}.

Module Profile.

(** ** internal/profile/profile.go *)
Abbreviation FilePermission := string.
Definition PermissionRead : FilePermission := "read".
Definition PermissionWrite : FilePermission := "write".
Definition PermissionExecute : FilePermission := "execute".

Abbreviation NetworkDirection := string.
Definition DirectionEgress : NetworkDirection := "egress".
Definition DirectionIngress : NetworkDirection := "ingress".

Abbreviation Confidence := string.
Definition ConfidenceLow : Confidence := "low".
Definition ConfidenceMedium : Confidence := "medium".
Definition ConfidenceHigh : Confidence := "high".

Record FileAccess := mkFileAccess {
  fa_Path : string; fa_Permissions : list FilePermission;
  fa_Confidence : Confidence; fa_SeenCount : nat }.
Record NetworkAccess := mkNetworkAccess {
  na_Port : Z; na_Direction : NetworkDirection;
  na_Confidence : Confidence; na_SeenCount : nat }.
Record SyscallAccess := mkSyscallAccess {
  sa_Name : string; sa_Confidence : Confidence; sa_SeenCount : nat }.
Record CapabilityAccess := mkCapabilityAccess {
  ca_Name : string; ca_Confidence : Confidence; ca_SeenCount : nat }.

Record SyscallProfile := mkSyscallProfile {
  sp_Accesses : list SyscallAccess; sp_Architectures : list string }.

Record BehaviorProfile := mkBehaviorProfile {
  Filesystem : list FileAccess;
  Network : list NetworkAccess;
  Syscalls : SyscallProfile;
  Capabilities : list CapabilityAccess }.

Fixpoint HasPermission_go (p : FilePermission) (perms : list FilePermission) : bool :=
  match perms with
  | [] => false
  | perm :: perms => if bool_decide (perm = p) then true else HasPermission_go p perms
  end.
Definition HasPermission (fa : FileAccess) (p : FilePermission) : bool :=
  HasPermission_go p (fa_Permissions fa).

End Profile.
Import Profile.

Module Policy.

(** ** internal/policy/synthesize.go *)
Definition ephemeralPortStart : Z := 32768.

Definition netKey : Type := Z * NetworkDirection.

Definition less_netKey (a b : netKey) : bool :=
  if negb (fst a =? fst b)%Z then (fst a <? fst b)%Z else string_ltb (snd a) (snd b).

Definition operationFor (mode : string) : Operation :=
  if bool_decide (mode = "read") then OperationRead
  else if bool_decide (mode = "write") then OperationWrite
  else if bool_decide (mode = "read_write") then OperationReadWrite
  else if bool_decide (mode = "exec") then OperationExecute
  else mode.

Definition is_one_of (r : LandlockRight) (l : list LandlockRight) : bool := bool_decide (r ∈ l).

Definition collapsePermissions (rights : list LandlockRight) : list FilePermission :=
  let '(rd, wr, ex) := foldl (fun '(rd, wr, ex) r =>
    if is_one_of r [LandlockRightReadFile; LandlockRightReadDir] then (true, wr, ex)
    else if is_one_of r [LandlockRightWriteFile; LandlockRightTruncate] then (rd, true, ex)
    else if is_one_of r [LandlockRightExecute] then (rd, wr, true)
    else (rd, wr, ex)) (false, false, false) rights in
  (if (rd : bool) then [PermissionRead] else []) ++
  (if (wr : bool) then [PermissionWrite] else []) ++
  (if (ex : bool) then [PermissionExecute] else []).

Definition confidenceFor (seenCount : nat) : Profile.Confidence :=
  if 3 <=? seenCount then ConfidenceHigh
  else if seenCount =? 2 then ConfidenceMedium else ConfidenceLow.

Definition FileAccessesFromCandidate (c : Candidate) : list FileAccess :=
  map (fun r => mkFileAccess (r_Path r) (collapsePermissions (r_Rights r))
                  (r_Confidence r) (r_SeenCount r)) (Rules c).

(** The filesystem observation an event translates to. *)
Definition fs_observation (ev : Observation) : FilesystemObservation :=
  mkFilesystemObservation (ob_Path ev) (operationFor (ob_Mode ev)) (ob_IsDir ev)
    (ob_Truncate ev) (mkEvidenceRef "" (ob_Timestamp ev)).

(** The four accumulators of the event loop. *)
Record accumulators := mkAccumulators {
  fsObservations : list FilesystemObservation;
  byNet : gmap netKey nat;
  bySyscall : gmap string nat;
  byCapability : gmap string nat }.

(** [m[k]++]. *)
Definition incr {K} `{Countable K} (k : K) (m : gmap K nat) : gmap K nat :=
  <[k := S (default 0 (m !! k))]> m.

Definition absolute (path : string) : bool :=
  negb (bool_decide (path = "") || negb (has_prefix "/" path)).

(** One iteration of the loop of [Synthesize]. *)
Definition synth_event (st : accumulators) (ev : Observation) : accumulators :=
  let '(mkAccumulators fs net sys cap) := st in
  if bool_decide (ob_Mode ev = "syscall") then
    if bool_decide (ob_Syscall ev = "") then st
    else mkAccumulators fs net (incr (ob_Syscall ev) sys) cap
  else if bool_decide (ob_Mode ev = "capability") then
    if bool_decide (ob_Syscall ev = "") then st
    else mkAccumulators fs net sys (incr (ob_Syscall ev) cap)
  else if bool_decide (ob_Syscall ev = "connect" ∨ ob_Syscall ev = "bind") then
    if (ob_Port ev =? 0)%Z then st
    else if bool_decide (ob_Syscall ev = "bind") then
      if (ephemeralPortStart <=? ob_Port ev)%Z then st
      else mkAccumulators fs (incr (ob_Port ev, DirectionIngress) net) sys cap
    else mkAccumulators fs (incr (ob_Port ev, DirectionEgress) net) sys cap
  else if negb (absolute (ob_Path ev)) then st
  else mkAccumulators (fs ++ [fs_observation ev]) net sys cap.

Definition count_of {K} `{Countable K} (k : K) (m : gmap K nat) : nat := default 0 (m !! k).

Definition net_accesses (m : gmap netKey nat) : list NetworkAccess :=
  map (fun k => mkNetworkAccess (fst k) (snd k) (confidenceFor (count_of k m)) (count_of k m))
    (sorted_keys less_netKey m).
Definition syscall_accesses (m : gmap string nat) : list SyscallAccess :=
  map (fun n => mkSyscallAccess n (confidenceFor (count_of n m)) (count_of n m))
    (sorted_keys string_ltb m).
Definition capability_accesses (m : gmap string nat) : list CapabilityAccess :=
  map (fun n => mkCapabilityAccess n (confidenceFor (count_of n m)) (count_of n m))
    (sorted_keys string_ltb m).

Definition Synthesize (observations : list Observation) (architectures : list string)
  : result BehaviorProfile :=
  let st := foldl synth_event (mkAccumulators [] ∅ ∅ ∅) observations in
  report ← Kernel.Synthesize (fsObservations st);
  Ok (mkBehaviorProfile
        (FileAccessesFromCandidate (sr_Candidate report))
        (net_accesses (byNet st))
        (mkSyscallProfile (syscall_accesses (bySyscall st)) architectures)
        (capability_accesses (byCapability st))).

(** The separate filtering pass of [SynthesizeCandidate]. *)
Definition candidate_event (obs : list FilesystemObservation) (ev : Observation)
  : list FilesystemObservation :=
  if bool_decide (ob_Mode ev = "syscall") || bool_decide (ob_Mode ev = "capability") then obs
  else if bool_decide (ob_Syscall ev = "connect" ∨ ob_Syscall ev = "bind") then obs
  else if negb (absolute (ob_Path ev)) then obs
  else obs ++ [fs_observation ev].

Definition SynthesizeCandidate (observations : list Observation) : result Candidate :=
  report ← Kernel.Synthesize (foldl candidate_event [] observations);
  Ok (sr_Candidate report).

(** ** Lemmas *)
#[export] Instance less_netKey_total : TotalLess less_netKey.
Proof.
  assert (∀ a b, less_netKey a b = less_lex (less_on fst Z.ltb) (less_on snd string_ltb) a b) as E.
  { intros a b. unfold less_netKey, less_lex, less_on.
    destruct (Z.eqb_spec (fst a) (fst b)) as [->|]; cbn; [by rewrite Z.ltb_irrefl|].
    destruct (Z.ltb_spec (fst a) (fst b)); cbn; [done|].
    destruct (Z.ltb_spec (fst b) (fst a)); cbn; [done|lia]. }
  split; [split|].
  - intros x y. rewrite !E. apply less_asym.
  - intros x y z. rewrite !E. apply less_negtrans.
  - intros [x1 x2] [y1 y2]. unfold less_netKey. cbn.
    destruct (Z.eqb_spec x1 y1) as [->|]; cbn.
    + rewrite Z.eqb_refl. cbn. intros. f_equal. by apply (less_total (less := string_ltb)).
    + rewrite (proj2 (Z.eqb_neq y1 x1)) by done. cbn. lia.
Qed.

(** Which domain key, if any, an event counts towards. *)
Definition net_key (ev : Observation) : option netKey :=
  if bool_decide (ob_Mode ev = "syscall") || bool_decide (ob_Mode ev = "capability") then None
  else if bool_decide (ob_Syscall ev = "connect") then
    if (ob_Port ev =? 0)%Z then None else Some (ob_Port ev, DirectionEgress)
  else if bool_decide (ob_Syscall ev = "bind") then
    if (ob_Port ev =? 0)%Z || (ephemeralPortStart <=? ob_Port ev)%Z then None
    else Some (ob_Port ev, DirectionIngress)
  else None.

Definition syscall_key (ev : Observation) : option string :=
  if bool_decide (ob_Mode ev = "syscall") && negb (bool_decide (ob_Syscall ev = ""))
  then Some (ob_Syscall ev) else None.

Definition capability_key (ev : Observation) : option string :=
  if bool_decide (ob_Mode ev = "capability") && negb (bool_decide (ob_Syscall ev = ""))
  then Some (ob_Syscall ev) else None.

Definition fs_selected (ev : Observation) : bool :=
  negb (bool_decide (ob_Mode ev = "syscall") || bool_decide (ob_Mode ev = "capability"))
  && negb (bool_decide (ob_Syscall ev = "connect" ∨ ob_Syscall ev = "bind"))
  && absolute (ob_Path ev).

Abbreviation tally key l := (group_fold key (fun _ n => S n) 0 l).

(** The loop is four independent tallies. *)
Lemma synth_event_step st ev :
  synth_event st ev =
  mkAccumulators
    (fsObservations st ++ (if fs_selected ev then [fs_observation ev] else []))
    (group_step net_key (fun _ n => S n) 0 (byNet st) ev)
    (group_step syscall_key (fun _ n => S n) 0 (bySyscall st) ev)
    (group_step capability_key (fun _ n => S n) 0 (byCapability st) ev).
Proof.
  destruct st as [fs net sys cap]. unfold synth_event, fs_selected, group_step, net_key,
    syscall_key, capability_key, incr. cbn [fsObservations byNet bySyscall byCapability].
  destruct (decide (ob_Mode ev = "syscall")) as [Em|Em].
  { assert (ob_Mode ev ≠ "capability") as Ec by (rewrite Em; done).
    rewrite !(bool_decide_eq_true_2 _ Em), !(bool_decide_eq_false_2 _ Ec). cbn.
    rewrite app_nil_r. by case_bool_decide. }
  rewrite (bool_decide_eq_false_2 _ Em). cbn [orb negb andb].
  destruct (decide (ob_Mode ev = "capability")) as [Ec|Ec].
  { rewrite !(bool_decide_eq_true_2 _ Ec). cbn.
    rewrite app_nil_r. by case_bool_decide. }
  rewrite (bool_decide_eq_false_2 _ Ec). cbn [orb negb andb].
  destruct (decide (ob_Syscall ev = "connect")) as [Es|Es].
  { rewrite !(bool_decide_eq_true_2 _ Es). rewrite bool_decide_eq_true_2 by auto.
    rewrite (bool_decide_eq_false_2 (ob_Syscall ev = "bind")) by (rewrite Es; done). cbn.
    rewrite app_nil_r. by destruct (ob_Port ev =? 0)%Z. }
  rewrite (bool_decide_eq_false_2 _ Es).
  destruct (decide (ob_Syscall ev = "bind")) as [Eb|Eb].
  { rewrite !(bool_decide_eq_true_2 _ Eb). rewrite bool_decide_eq_true_2 by auto. cbn.
    rewrite app_nil_r. by destruct (ob_Port ev =? 0)%Z, (ephemeralPortStart <=? ob_Port ev)%Z. }
  rewrite !(bool_decide_eq_false_2 _ Eb), bool_decide_eq_false_2 by naive_solver. cbn.
  destruct (absolute (ob_Path ev)); cbn; by rewrite ?app_nil_r.
Qed.

Lemma synth_events l :
  foldl synth_event (mkAccumulators [] ∅ ∅ ∅) l =
  mkAccumulators (fs_observation <$> filter (fun ev => fs_selected ev = true) l)
    (tally net_key l) (tally syscall_key l) (tally capability_key l).
Proof.
  induction l as [|ev l IH] using rev_ind; [done|].
  rewrite foldl_app, IH. cbn [foldl]. rewrite synth_event_step.
  cbn [fsObservations byNet bySyscall byCapability].
  unfold group_fold. rewrite !foldl_app, filter_app, fmap_app, filter_cons, filter_nil. cbn.
  f_equal. destruct (fs_selected ev); [by rewrite decide_True|by rewrite decide_False].
Qed.

Lemma candidate_events l acc :
  foldl candidate_event acc l = acc ++ (fs_observation <$> filter (fun ev => fs_selected ev = true) l).
Proof.
  revert acc. induction l as [|ev l IH]; intros acc; [cbn; by rewrite app_nil_r|].
  rewrite filter_cons. cbn [foldl]. rewrite IH. unfold candidate_event, fs_selected.
  destruct (bool_decide (ob_Mode ev = "syscall") || bool_decide (ob_Mode ev = "capability")); cbn.
  { by rewrite decide_False. }
  destruct (bool_decide (ob_Syscall ev = "connect" ∨ ob_Syscall ev = "bind")); cbn.
  { by rewrite decide_False. }
  destruct (absolute (ob_Path ev)); cbn.
  - rewrite decide_True by done. cbn. by rewrite <- app_assoc.
  - by rewrite decide_False.
Qed.

Lemma tally_lookup {A K} `{Countable K} (key : A → option K) l k :
  tally key l !! k = (let n := length (in_group key k l) in if n =? 0 then None else Some n).
Proof.
  rewrite group_fold_lookup. destruct (in_group key k l) as [|a g]; [done|]. cbn.
  f_equal. enough (∀ n, foldl (fun v _ => S v) n g = length g + n) as -> by lia.
  induction g as [|b g IH]; intros n; cbn; [done|]. rewrite IH. lia.
Qed.

Lemma count_of_tally {A K} `{Countable K} (key : A → option K) l k :
  count_of k (tally key l) = length (in_group key k l).
Proof.
  unfold count_of. rewrite tally_lookup. cbv zeta.
  by destruct (length (in_group key k l)).
Qed.

(** The coarse permission a right folds into. *)
Definition coarse (r : LandlockRight) : option FilePermission :=
  if is_one_of r [LandlockRightReadFile; LandlockRightReadDir] then Some PermissionRead
  else if is_one_of r [LandlockRightWriteFile; LandlockRightTruncate] then Some PermissionWrite
  else if is_one_of r [LandlockRightExecute] then Some PermissionExecute
  else None.

Lemma collapse_foldl rights rd wr ex :
  foldl (fun '(rd, wr, ex) r =>
    if is_one_of r [LandlockRightReadFile; LandlockRightReadDir] then (true, wr, ex)
    else if is_one_of r [LandlockRightWriteFile; LandlockRightTruncate] then (rd, true, ex)
    else if is_one_of r [LandlockRightExecute] then (rd, wr, true)
    else (rd, wr, ex)) (rd, wr, ex) rights =
  let has p := bool_decide (Exists (fun r => coarse r = Some p) rights) in
  (rd || has PermissionRead, wr || has PermissionWrite, ex || has PermissionExecute).
Proof.
  revert rd wr ex. induction rights as [|r l IH]; intros rd wr ex; cbn [foldl]; cbv zeta in *.
  - rewrite !bool_decide_eq_false_2 by (intros H; inversion H). by rewrite !orb_false_r.
  - assert (∀ p, bool_decide (Exists (fun r => coarse r = Some p) (r :: l)) =
                 bool_decide (coarse r = Some p) ||
                 bool_decide (Exists (fun r => coarse r = Some p) l)) as E.
    { intros p. rewrite <- bool_decide_or. apply bool_decide_ext. by rewrite Exists_cons. }
    rewrite !E.
    destruct (is_one_of r [LandlockRightReadFile; LandlockRightReadDir]) eqn:E1;
      [|destruct (is_one_of r [LandlockRightWriteFile; LandlockRightTruncate]) eqn:E2;
        [|destruct (is_one_of r [LandlockRightExecute]) eqn:E3]].
    + assert (coarse r = Some PermissionRead) as -> by (unfold coarse; by rewrite E1).
      rewrite IH. cbn. by rewrite !orb_true_r.
    + assert (coarse r = Some PermissionWrite) as -> by (unfold coarse; by rewrite E1, E2).
      rewrite IH. cbn. by rewrite !orb_true_r.
    + assert (coarse r = Some PermissionExecute) as -> by (unfold coarse; by rewrite E1, E2, E3).
      rewrite IH. cbn. by rewrite !orb_true_r.
    + assert (coarse r = None) as -> by (unfold coarse; by rewrite E1, E2, E3).
      by rewrite IH.
Qed.

Lemma elem_of_collapsePermissions rights p :
  p ∈ collapsePermissions rights ↔ ∃ r, r ∈ rights ∧ coarse r = Some p.
Proof.
  unfold collapsePermissions. rewrite collapse_foldl. cbv zeta. cbn [orb].
  rewrite <- Exists_exists. rewrite !elem_of_app.
  assert (∀ (b : bool) q, p ∈ (if b then [q] else []) ↔ b = true ∧ p = q) as E.
  { intros [] q; rewrite ?list_elem_of_singleton, ?elem_of_nil; naive_solver. }
  rewrite !E, !bool_decide_eq_true. split.
  - intros [[? ->]|[[? ->]|[? ->]]]; done.
  - intros H. assert (p = PermissionRead ∨ p = PermissionWrite ∨ p = PermissionExecute) as Hp.
    { apply Exists_exists in H as (r & _ & Hr). unfold coarse in Hr.
      repeat case_match; simplify_eq; auto. }
    destruct Hp as [->|[->| ->]]; auto.
Qed.

(** The collapsed permissions of a rule are a subset of read, write and
    execute in that order, each at most once, and each present exactly when one
    of the rule's rights folds into it; truncation folds into write. *)
Theorem collapsePermissions_spec rights :
  (∀ p, p ∈ collapsePermissions rights ↔ ∃ r, r ∈ rights ∧ coarse r = Some p) ∧
  collapsePermissions rights `sublist_of` [PermissionRead; PermissionWrite; PermissionExecute] ∧
  (LandlockRightTruncate ∈ rights → PermissionWrite ∈ collapsePermissions rights).
Proof.
  split; [intros p; apply elem_of_collapsePermissions|]. split.
  - unfold collapsePermissions. rewrite collapse_foldl. cbv zeta.
    repeat case_match; cbn; repeat constructor.
  - intros H. apply elem_of_collapsePermissions. by exists LandlockRightTruncate.
Qed.

Lemma HasPermission_elem fa p : HasPermission fa p = true ↔ p ∈ fa_Permissions fa.
Proof.
  unfold HasPermission. induction (fa_Permissions fa) as [|q l IH]; cbn.
  - by rewrite elem_of_nil.
  - rewrite elem_of_cons. case_bool_decide as E; [naive_solver|]. rewrite IH. naive_solver.
Qed.

Lemma Synthesize_ok observations archs :
  Synthesize observations archs = Ok (mkBehaviorProfile
    (FileAccessesFromCandidate (mkCandidate (rules_of
      (fs_observation <$> filter (fun ev => fs_selected ev = true) observations))))
    (net_accesses (tally net_key observations))
    (mkSyscallProfile (syscall_accesses (tally syscall_key observations)) archs)
    (capability_accesses (tally capability_key observations))).
Proof. unfold Synthesize. by rewrite synth_events. Qed.

(** The two synthesis entry points agree: the filesystem part of the
    behavior profile is the translation of the candidate [SynthesizeCandidate]
    derives from the same events, and neither can fail. *)
Theorem SynthesizeCandidate_filesystem observations archs :
  ∃ c p, SynthesizeCandidate observations = Ok c ∧
         Synthesize observations archs = Ok p ∧
         Filesystem p = FileAccessesFromCandidate c.
Proof.
  rewrite Synthesize_ok. unfold SynthesizeCandidate. rewrite candidate_events.
  rewrite app_nil_l, Synthesize_rules. eexists _, _. split; [reflexivity|].
  split; reflexivity.
Qed.

(** The coarse access an event's mode and flags ask for. *)
Definition event_needs (ev : Observation) (p : FilePermission) : Prop :=
  (p = PermissionRead ∧ (ob_Mode ev = "read" ∨ ob_Mode ev = "read_write")) ∨
  (p = PermissionWrite ∧ (ob_Mode ev = "write" ∨ ob_Mode ev = "read_write" ∨ ob_Truncate ev = true)) ∨
  (p = PermissionExecute ∧ (ob_Mode ev = "exec" ∨ ob_Mode ev = "execute")).

Lemma operationFor_cases mode :
  (operationFor mode = OperationRead ↔ mode = "read") ∧
  (operationFor mode = OperationWrite ↔ mode = "write") ∧
  (operationFor mode = OperationReadWrite ↔ mode = "read_write") ∧
  (operationFor mode = OperationExecute ↔ mode = "exec" ∨ mode = "execute").
Proof.
  unfold operationFor, OperationRead, OperationWrite, OperationReadWrite, OperationExecute.
  repeat case_bool_decide; subst; naive_solver.
Qed.

Lemma justifies_coarse ev p :
  (∃ r, justifies (fs_observation ev) r ∧ coarse r = Some p) ↔ event_needs ev p.
Proof.
  destruct (operationFor_cases (ob_Mode ev)) as (H1 & H2 & H3 & H4).
  setoid_rewrite justifies_iff. unfold event_needs. cbn [fo_Operation fo_IsDir fo_Truncate fs_observation].
  setoid_rewrite H1. setoid_rewrite H2. setoid_rewrite H3. setoid_rewrite H4. split.
  - intros (r & [(-> & ? & _)|[(-> & ? & _)|[(-> & ?)|[(-> & ?)|(-> & ?)]]]] & Hc);
      vm_compute in Hc; injection Hc as <-; tauto.
  - intros [[-> H]|[[-> H]|[-> H]]].
    + destruct (ob_IsDir ev) eqn:E;
        [exists LandlockRightReadDir|exists LandlockRightReadFile]; split; try reflexivity; tauto.
    + destruct H as [H|[H|H]];
        [exists LandlockRightWriteFile|exists LandlockRightWriteFile|exists LandlockRightTruncate];
        split; try reflexivity; tauto.
    + exists LandlockRightExecute. split; [tauto|reflexivity].
Qed.

Lemma fs_selected_target ev :
  fs_selected ev = true → target_dir (fs_observation ev) =
    Some (aggregationDir (ob_Path ev) (ob_IsDir ev)).
Proof.
  unfold fs_selected, absolute, target_dir, skipped. cbn.
  intros [_ ->%negb_true_iff]%andb_true_iff. done.
Qed.

(** End to end, a behavior profile gives a directory a permission exactly
    when some selected filesystem event under that directory asked for it. *)
Theorem Synthesize_permission_exact observations archs prof d p :
  Synthesize observations archs = Ok prof →
  (∃ fa, fa ∈ Filesystem prof ∧ fa_Path fa = d ∧ HasPermission fa p = true) ↔
  (∃ ev, ev ∈ observations ∧ fs_selected ev = true ∧
         aggregationDir (ob_Path ev) (ob_IsDir ev) = d ∧ event_needs ev p).
Proof.
  rewrite Synthesize_ok. intros [= <-]. cbn [Filesystem].
  setoid_rewrite HasPermission_elem.
  transitivity (∃ r, (∃ rule, rule ∈ rules_of (fs_observation <$>
      filter (fun ev => fs_selected ev = true) observations) ∧
      r_Path rule = d ∧ r ∈ r_Rights rule) ∧ coarse r = Some p).
  - unfold FileAccessesFromCandidate. cbn [Rules].
    generalize (rules_of (fs_observation <$> filter (fun ev => fs_selected ev = true) observations)).
    intros rs. setoid_rewrite list_elem_of_fmap. split.
    + intros (fa & (rule & -> & Hrule) & <- & Hp). cbn in *.
      apply elem_of_collapsePermissions in Hp as (r & Hr & Hc).
      exists r. split; [|done]. by exists rule.
    + intros (r & (rule & Hrule & Hd & Hr) & Hc). eexists. split; [by exists rule|].
      cbn. split; [done|]. apply elem_of_collapsePermissions. eauto.
  - setoid_rewrite Synthesize_least_privilege. setoid_rewrite <- justifies_coarse.
    setoid_rewrite list_elem_of_fmap. setoid_rewrite list_elem_of_filter. split.
    + intros (r & (o & (ev & -> & Hsel & Hin) & Ht & Hj) & Hc). exists ev.
      rewrite fs_selected_target in Ht by done. injection Ht as Ht.
      repeat split; [done..|]. by exists r.
    + intros (ev & Hin & Hsel & Hd & r & Hj & Hc). exists r. split; [|done].
      exists (fs_observation ev). split; [eauto|]. rewrite fs_selected_target, Hd by done. done.
Qed.

Definition ev_read : Observation :=
  mkObservation KindFilesystem "/etc/nginx/nginx.conf" "read" "openat" false false 0 1.
Definition ev_bind (port : Z) : Observation :=
  mkObservation KindNetwork "" "" "bind" false false port 2.

Lemma Synthesize_permission_exact_witness :
  ∃ prof, Synthesize [ev_read; ev_bind 8080] [] = Ok prof ∧
  ((∃ fa, fa ∈ Filesystem prof ∧ fa_Path fa = "/etc/nginx" ∧ HasPermission fa PermissionRead = true) ↔
   (∃ ev, ev ∈ [ev_read; ev_bind 8080] ∧ fs_selected ev = true ∧
      aggregationDir (ob_Path ev) (ob_IsDir ev) = "/etc/nginx" ∧ event_needs ev PermissionRead)).
Proof.
  eexists. split; [apply Synthesize_ok|].
  apply (Synthesize_permission_exact [ev_read; ev_bind 8080] []). apply Synthesize_ok.
Defined.

(** Entries of a tallied domain. *)
Lemma elem_of_tallied {A K B} `{Countable K} (key : A → option K) (mk : K → nat → B) less l (b : B) :
  b ∈ map (fun k => mk k (count_of k (tally key l))) (sorted_keys less (tally key l)) ↔
  ∃ k, b = mk k (length (in_group key k l)) ∧ 0 < length (in_group key k l).
Proof.
  rewrite list_elem_of_fmap. setoid_rewrite elem_of_sorted_keys.
  setoid_rewrite count_of_tally. setoid_rewrite tally_lookup. cbv zeta. split.
  - intros (k & -> & Hk). exists k. split; [done|].
    destruct (length (in_group key k l)); [by destruct Hk|lia].
  - intros (k & -> & Hk). exists k. split; [done|].
    destruct (length (in_group key k l)); [lia|]. cbn. eauto.
Qed.

(** Network, syscall and capability entries are exact counts: an entry is in
    the profile exactly when its count is the positive number of events of that
    key, with the confidence of the count; inbound entries exist only for
    non-zero ports below the ephemeral range. *)
Theorem Synthesize_counts observations archs prof :
  Synthesize observations archs = Ok prof →
  (∀ a, a ∈ Network prof ↔ ∃ n, n = length (in_group net_key (na_Port a, na_Direction a) observations) ∧
     0 < n ∧ na_SeenCount a = n ∧ na_Confidence a = confidenceFor n) ∧
  (∀ a, a ∈ sp_Accesses (Syscalls prof) ↔ ∃ n, n = length (in_group syscall_key (sa_Name a) observations) ∧
     0 < n ∧ sa_SeenCount a = n ∧ sa_Confidence a = confidenceFor n) ∧
  (∀ a, a ∈ Capabilities prof ↔ ∃ n, n = length (in_group capability_key (ca_Name a) observations) ∧
     0 < n ∧ ca_SeenCount a = n ∧ ca_Confidence a = confidenceFor n) ∧
  (∀ a, a ∈ Network prof → na_Port a ≠ 0%Z ∧
     (na_Direction a = DirectionIngress → (na_Port a < ephemeralPortStart)%Z)).
Proof.
  rewrite Synthesize_ok. intros [= <-]. cbn [Network Syscalls Capabilities sp_Accesses].
  assert (∀ a, a ∈ net_accesses (tally net_key observations) ↔
     ∃ n, n = length (in_group net_key (na_Port a, na_Direction a) observations) ∧
     0 < n ∧ na_SeenCount a = n ∧ na_Confidence a = confidenceFor n) as Hnet.
  { intros a. unfold net_accesses.
    rewrite (elem_of_tallied net_key (fun k n => mkNetworkAccess (fst k) (snd k) (confidenceFor n) n)).
    split; [intros ([port dir] & -> & ?); cbn; eauto|].
    intros (n & -> & ? & Hs & Hc). exists (na_Port a, na_Direction a). split; [|done].
    destruct a; cbn in *. by subst. }
  split; [done|]. split; [|split].
  - intros a. unfold syscall_accesses.
    rewrite (elem_of_tallied syscall_key (fun k n => mkSyscallAccess k (confidenceFor n) n)).
    split; [intros (name & -> & ?); cbn; eauto|].
    intros (n & -> & ? & Hs & Hc). exists (sa_Name a). split; [|done].
    destruct a; cbn in *. by subst.
  - intros a. unfold capability_accesses.
    rewrite (elem_of_tallied capability_key (fun k n => mkCapabilityAccess k (confidenceFor n) n)).
    split; [intros (name & -> & ?); cbn; eauto|].
    intros (n & -> & ? & Hs & Hc). exists (ca_Name a). split; [|done].
    destruct a; cbn in *. by subst.
  - intros a (n & -> & Hn & _)%Hnet.
    destruct (in_group net_key _ observations) as [|ev g] eqn:E; [cbn in Hn; lia|].
    assert (net_key ev = Some (na_Port a, na_Direction a)) as Hk.
    { assert (ev ∈ in_group net_key (na_Port a, na_Direction a) observations) as Hin
        by (rewrite E; apply list_elem_of_here).
      unfold in_group in Hin. by apply list_elem_of_filter in Hin as [? _]. }
    unfold net_key in Hk. repeat case_match; simplify_eq; bool_simpl; split;
      try lia; unfold DirectionEgress, DirectionIngress in *; intros; try lia; congruence.
Qed.

Lemma Synthesize_counts_witness :
  ∃ prof, Synthesize [ev_bind 8080; ev_read; ev_bind 40000; ev_bind 8080] ["SCMP_ARCH_X86_64"] = Ok prof ∧
  Network prof = [mkNetworkAccess 8080 DirectionIngress ConfidenceMedium 2] ∧
  (∀ a, a ∈ Network prof → na_Port a ≠ 0%Z ∧
     (na_Direction a = DirectionIngress → (na_Port a < ephemeralPortStart)%Z)).
Proof.
  eexists. split; [apply Synthesize_ok|]. split; [vm_compute; reflexivity|].
  refine (proj2 (proj2 (proj2 (Synthesize_counts _ ["SCMP_ARCH_X86_64"] _ _)))).
  apply Synthesize_ok.
Defined.

End Policy.
