(* ===== verification/Identity.v ===== *)
(** * internal/observation/domain/identity.go and facts.go

    Policy-neutral identity values of an Observation and the closed vocabulary
    of normalized facts. *)
From S2P Require Import Prelude GoStd Policy.
Import Profile.

Definition ErrInvalidDomainValue : string := "invalid observation domain value".
Definition ErrClusterIdentityUnresolved : string := "CLUSTER_IDENTITY_UNRESOLVED".
Definition errDomain (msg : string) : error := mkError ErrInvalidDomainValue msg.

(** ** identity.go *)
Record ClusterIdentity := mkClusterIdentity { NamespaceUID : string }.

Definition NewClusterIdentity (namespaceUID : string) : result ClusterIdentity :=
  fail_if blank namespaceUID with
    mkError ErrClusterIdentityUnresolved "kube-system Namespace UID is empty";
  Ok (mkClusterIdentity namespaceUID).

Record GroupKind := mkGroupKind { gk_Group : string; gk_Kind : string }.

Record WorkloadIdentity := mkWorkloadIdentity {
  w_Cluster : ClusterIdentity; w_Namespace : string; w_GroupKind : GroupKind;
  w_Name : string; w_UID : string }.

Definition nonempty (s : string) : bool := negb (bool_decide (s = "")).

Definition WorkloadIdentity_Valid (w : WorkloadIdentity) : bool :=
  nonempty (NamespaceUID (w_Cluster w)) && nonempty (w_Namespace w) &&
  nonempty (gk_Kind (w_GroupKind w)) && nonempty (w_Name w) && nonempty (w_UID w).

Record WorkloadRevision := mkWorkloadRevision { wr_Value : string }.

Definition NewWorkloadRevision (value : string) : result WorkloadRevision :=
  fail_if blank value with mkError "" "workload revision is unresolved";
  Ok (mkWorkloadRevision value).

Record ContainerSlot := mkContainerSlot { s_Workload : WorkloadIdentity; s_Container : string }.

Definition ContainerSlot_Valid (s : ContainerSlot) : bool :=
  WorkloadIdentity_Valid (s_Workload s) && nonempty (s_Container s).

(** [(?:^|[@/:])sha256:[0-9a-fA-F]{64}$]: a suffix of the string is the prefix
    "sha256:" with 64 hexadecimal digits up to the end, at the start of the
    string or after one of the three separators. *)
Definition is_hex (upper : bool) (a : ascii) : bool :=
  let n := nat_of_ascii a in
  ((48 <=? n) && (n <=? 57)) || ((97 <=? n) && (n <=? 102)) ||
  (upper && (65 <=? n) && (n <=? 70)).

Fixpoint all_bytes (f : ascii → bool) (s : string) : bool :=
  match s with EmptyString => true | String a s => f a && all_bytes f s end.

Definition sha256_hex (upper : bool) (s : string) : bool :=
  match drop_prefix "sha256:" s with
  | Some h => (String.length h =? 64) && all_bytes (is_hex upper) h
  | None => false
  end.

Fixpoint digest_after_separator (s : string) : bool :=
  match s with
  | EmptyString => false
  | String a s =>
      (bool_decide (a = "@"%char ∨ a = "/"%char ∨ a = ":"%char) && sha256_hex true s)
      || digest_after_separator s
  end.

Definition digestPattern (s : string) : bool := sha256_hex true s || digest_after_separator s.

Record ContainerImageRevision := mkContainerImageRevision {
  ir_Slot : ContainerSlot; ir_ImageDigest : string }.

Definition NewContainerImageRevision (slot : ContainerSlot) (imageDigest : string)
  : result ContainerImageRevision :=
  fail_if negb (ContainerSlot_Valid slot) with
    mkError "" "container image revision has invalid container slot";
  fail_if negb (digestPattern imageDigest) with
    mkError "" "container image revision requires an immutable sha256 digest";
  Ok (mkContainerImageRevision slot imageDigest).

Record RuntimeContainerInstance := mkRuntimeContainerInstance {
  ri_Slot : ContainerSlot; ri_PodUID : string; ri_ContainerID : string;
  ri_ImageRevision : option ContainerImageRevision }.

Definition RuntimeContainerInstance_Valid (r : RuntimeContainerInstance) : bool :=
  ContainerSlot_Valid (ri_Slot r) && nonempty (ri_PodUID r).

#[export] Instance ClusterIdentity_eq_dec : EqDecision ClusterIdentity.
Proof. solve_decision. Defined.
#[export] Instance GroupKind_eq_dec : EqDecision GroupKind.
Proof. solve_decision. Defined.
#[export] Instance WorkloadIdentity_eq_dec : EqDecision WorkloadIdentity.
Proof. solve_decision. Defined.
#[export] Instance ContainerSlot_eq_dec : EqDecision ContainerSlot.
Proof. solve_decision. Defined.
#[export] Instance ContainerImageRevision_eq_dec : EqDecision ContainerImageRevision.
Proof. solve_decision. Defined.
#[export] Instance RuntimeContainerInstance_eq_dec : EqDecision RuntimeContainerInstance.
Proof. solve_decision. Defined.

(** ** facts.go *)
Definition maxNormalizedFacts : nat := 256.

Record FilesystemFact := mkFilesystemFact { ff_Path : string; ff_Permissions : list FilePermission }.
Record NetworkFact := mkNetworkFact { nf_Port : Z; nf_Direction : NetworkDirection }.
Record CapabilityFact := mkCapabilityFact { cf_Name : string }.
Record ExecFact := mkExecFact { ef_Path : string }.

Record NormalizedFacts := mkNormalizedFacts {
  f_Filesystem : list FilesystemFact;
  f_Exec : list ExecFact;
  f_NetworkConnect : list NetworkFact;
  f_NetworkBind : list NetworkFact;
  f_Capabilities : list CapabilityFact }.
Definition no_facts : NormalizedFacts := mkNormalizedFacts [] [] [] [] [].

Fixpoint validatePermissions_go (seen : list FilePermission) (values : list FilePermission) : bool :=
  match values with
  | [] => true
  | value :: values =>
      if bool_decide (value = PermissionRead ∨ value = PermissionWrite ∨ value = PermissionExecute)
      then if bool_decide (value ∈ seen) then false
           else validatePermissions_go (value :: seen) values
      else false
  end.
Definition validatePermissions (values : list FilePermission) : bool :=
  if length values =? 0 then false else validatePermissions_go [] values.

(** The validation loops: each fact must pass [ok] and have a fresh key. *)
Fixpoint all_fresh {A K} `{EqDecision K} (ok : A → bool) (key : A → K) (seen : list K) (l : list A) : bool :=
  match l with
  | [] => true
  | x :: l => ok x && negb (bool_decide (key x ∈ seen)) && all_fresh ok key (key x :: seen) l
  end.

Definition Count (f : NormalizedFacts) : nat :=
  length (f_Filesystem f) + length (f_Exec f) + length (f_NetworkConnect f)
  + length (f_NetworkBind f) + length (f_Capabilities f).

Definition valid_filesystem_fact (fact : FilesystemFact) : bool :=
  negb (blank (ff_Path fact)) && validatePermissions (ff_Permissions fact).
Definition valid_exec_fact (fact : ExecFact) : bool := negb (blank (ef_Path fact)).
Definition valid_network_fact (fact : NetworkFact) : bool :=
  (0 <? nf_Port fact)%Z &&
  bool_decide (nf_Direction fact = DirectionEgress ∨ nf_Direction fact = DirectionIngress).
(** [fmt.Sprintf("%d/%s", fact.Port, fact.Direction)]. *)
Definition network_key (fact : NetworkFact) : string :=
  itoa (nf_Port fact) +:+ "/" +:+ nf_Direction fact.
Fixpoint validate_network_facts (seen : list string) (facts : list NetworkFact) : result unit :=
  match facts with
  | [] => Ok ()
  | fact :: facts =>
      fail_if negb (valid_network_fact fact) with errDomain "invalid network facts";
      fail_if bool_decide (network_key fact ∈ seen) with errDomain "duplicate network facts";
      validate_network_facts (network_key fact :: seen) facts
  end.
Definition valid_capability_fact (fact : CapabilityFact) : bool :=
  negb (blank (cf_Name fact)) && (String.length (cf_Name fact) <=? 128).

Definition ValidateForSource (f : NormalizedFacts) (source : string) : result unit :=
  fail_if existsb (fun count => maxNormalizedFacts <? count)
      [length (f_Filesystem f); length (f_Exec f); length (f_NetworkConnect f);
       length (f_NetworkBind f); length (f_Capabilities f)]
    with errDomain "normalized fact limit exceeded";
  if Count f =? 0 then Ok () else
  if bool_decide (source = "filesystem") then
    fail_if negb (length (f_Exec f) + length (f_NetworkConnect f) + length (f_NetworkBind f)
                  + length (f_Capabilities f) =? 0)
      with errDomain "facts do not match filesystem source";
    fail_if negb (all_fresh valid_filesystem_fact ff_Path [] (f_Filesystem f))
      with errDomain "invalid filesystem facts";
    Ok ()
  else if bool_decide (source = "exec") then
    fail_if negb (length (f_Filesystem f) + length (f_NetworkConnect f) + length (f_NetworkBind f)
                  + length (f_Capabilities f) =? 0)
      with errDomain "facts do not match exec source";
    fail_if negb (all_fresh valid_exec_fact ef_Path [] (f_Exec f))
      with errDomain "invalid exec facts";
    Ok ()
  else if bool_decide (source = "networkConnect" ∨ source = "networkBind") then
    fail_if negb (length (f_Filesystem f) + length (f_Exec f) + length (f_Capabilities f) =? 0)
      with errDomain "facts do not match network source";
    let facts := if bool_decide (source = "networkBind") then f_NetworkBind f else f_NetworkConnect f in
    fail_if (bool_decide (source = "networkConnect") && negb (length (f_NetworkBind f) =? 0)) ||
            (bool_decide (source = "networkBind") && negb (length (f_NetworkConnect f) =? 0))
      with errDomain "network facts do not match source";
    validate_network_facts [] facts
  else if bool_decide (source = "capabilities") then
    fail_if negb (length (f_Filesystem f) + length (f_Exec f) + length (f_NetworkConnect f)
                  + length (f_NetworkBind f) =? 0)
      with errDomain "facts do not match capability source";
    fail_if negb (all_fresh valid_capability_fact cf_Name [] (f_Capabilities f))
      with errDomain "invalid capability facts";
    Ok ()
  else Err (errDomain "unsupported source").

Definition less_network (a b : NetworkFact) : bool :=
  if negb (nf_Port a =? nf_Port b)%Z then (nf_Port a <? nf_Port b)%Z
  else string_ltb (nf_Direction a) (nf_Direction b).

Definition sort_permissions (fact : FilesystemFact) : FilesystemFact :=
  mkFilesystemFact (ff_Path fact) (sort_strings (ff_Permissions fact)).

Definition sortFacts (f : NormalizedFacts) : NormalizedFacts :=
  mkNormalizedFacts
    (map sort_permissions (sort_by (less_on ff_Path string_ltb) (f_Filesystem f)))
    (sort_by (less_on ef_Path string_ltb) (f_Exec f))
    (sort_by less_network (f_NetworkConnect f))
    (sort_by less_network (f_NetworkBind f))
    (sort_by (less_on cf_Name string_ltb) (f_Capabilities f)).

(** ** Lemmas *)
#[export] Instance less_network_weak : StrictWeak less_network.
Proof.
  assert (∀ a b, less_network a b =
    less_lex (less_on nf_Port Z.ltb) (less_on nf_Direction string_ltb) a b) as E.
  { intros a b. unfold less_network, less_lex, less_on.
    destruct (Z.eqb_spec (nf_Port a) (nf_Port b)) as [->|]; cbn; [by rewrite Z.ltb_irrefl|].
    destruct (Z.ltb_spec (nf_Port a) (nf_Port b)); cbn; [done|].
    destruct (Z.ltb_spec (nf_Port b) (nf_Port a)); cbn; [done|lia]. }
  split; intros *; rewrite !E; [apply less_asym|apply less_negtrans].
Qed.

Lemma all_bytes_app f s t : all_bytes f (s +:+ t) = all_bytes f s && all_bytes f t.
Proof. induction s as [|a s IH]; [done|]. str_simpl. cbn. by rewrite IH, andb_assoc. Qed.

Lemma all_bytes_rev f s : all_bytes f (str_rev s) = all_bytes f s.
Proof. induction s as [|a s IH]; [done|]. rewrite str_rev_cons, all_bytes_app, IH. cbn. by rewrite andb_true_r, andb_comm. Qed.

(** Freshness and validity do not depend on the order of the facts. *)
Lemma all_fresh_spec {A K} `{EqDecision K} ok (key : A → K) seen l :
  all_fresh ok key seen l = true ↔
  Forall (fun x => ok x = true) l ∧ NoDup (map key l) ∧ (∀ x, x ∈ l → key x ∉ seen).
Proof.
  revert seen. induction l as [|x l IH]; intros seen; cbn.
  - split; [|done]. intros _. split; [constructor|]. split; [constructor|]. set_solver.
  - rewrite !andb_true_iff, negb_true_iff, bool_decide_eq_false, IH, Forall_cons, NoDup_cons.
    rewrite list_elem_of_fmap. setoid_rewrite elem_of_cons. split.
    + intros [[Hx Hs] (Hall & Hnd & Hfresh)]. split; [done|]. split.
      * split; [|done]. intros (y & Hy & Hin). apply (Hfresh y Hin). by left.
      * intros y [->|Hin]; [done|]. intros Hy. apply (Hfresh y Hin). by right.
    + intros ([Hx Hall] & [Hn Hnd] & Hfresh). split; [split; [done|apply Hfresh; by left]|].
      split; [done|]. split; [done|]. intros y Hin [Hy|Hy].
      * apply Hn. by exists y.
      * by apply (Hfresh y); [right|].
Qed.

Lemma all_fresh_perm {A K} `{EqDecision K} ok (key : A → K) l l' :
  l ≡ₚ l' → all_fresh ok key [] l = all_fresh ok key [] l'.
Proof.
  intros Hp. apply eq_true_iff_eq. rewrite !all_fresh_spec. rewrite Hp.
  by setoid_rewrite Hp.
Qed.

Lemma validatePermissions_go_spec seen values :
  validatePermissions_go seen values = true ↔
  Forall (fun v => v = PermissionRead ∨ v = PermissionWrite ∨ v = PermissionExecute) values ∧
  NoDup values ∧ (∀ v, v ∈ values → v ∉ seen).
Proof.
  revert seen. induction values as [|v l IH]; intros seen; cbn.
  - split; [|done]. intros _. split; [constructor|]. split; [constructor|]. set_solver.
  - rewrite Forall_cons, NoDup_cons. case_bool_decide as Hv; [|naive_solver].
    case_bool_decide as Hs; [set_solver|]. rewrite IH. set_solver.
Qed.

Lemma validatePermissions_perm l l' :
  l ≡ₚ l' → validatePermissions l = validatePermissions l'.
Proof.
  intros Hp. unfold validatePermissions. rewrite (Permutation_length Hp).
  destruct (length l' =? 0); [done|]. apply eq_true_iff_eq.
  rewrite !validatePermissions_go_spec. by setoid_rewrite Hp.
Qed.

(** Sorting facts does not change whether a source accepts them. *)
Lemma sortFacts_lengths f :
  length (f_Filesystem (sortFacts f)) = length (f_Filesystem f) ∧
  length (f_Exec (sortFacts f)) = length (f_Exec f) ∧
  length (f_NetworkConnect (sortFacts f)) = length (f_NetworkConnect f) ∧
  length (f_NetworkBind (sortFacts f)) = length (f_NetworkBind f) ∧
  length (f_Capabilities (sortFacts f)) = length (f_Capabilities f).
Proof. unfold sortFacts. cbn. by rewrite length_map, !length_sort_by. Qed.

Lemma sorted_filesystem_fresh l :
  all_fresh valid_filesystem_fact ff_Path []
    (map sort_permissions (sort_by (less_on ff_Path string_ltb) l)) =
  all_fresh valid_filesystem_fact ff_Path [] l.
Proof.
  rewrite <- (all_fresh_perm valid_filesystem_fact ff_Path (sort_by (less_on ff_Path string_ltb) l) l)
    by apply sort_by_perm.
  generalize (@nil string) as seen. induction (sort_by (less_on ff_Path string_ltb) l) as [|x k IH];
    intros seen; [done|]. cbn. rewrite IH. do 2 f_equal.
  unfold valid_filesystem_fact. cbn. f_equal. apply validatePermissions_perm, sort_by_perm.
Qed.

Lemma validate_network_facts_ok seen l :
  validate_network_facts seen l = Ok () ↔ all_fresh valid_network_fact network_key seen l = true.
Proof.
  revert seen. induction l as [|x l IH]; intros seen; cbn; [done|].
  destruct (valid_network_fact x); cbn; [|done].
  case_bool_decide; cbn; [done|]. apply IH.
Qed.

Lemma validate_network_facts_perm l l' :
  l ≡ₚ l' → validate_network_facts [] l = Ok () ↔ validate_network_facts [] l' = Ok ().
Proof. intros Hp. rewrite !validate_network_facts_ok. by rewrite (all_fresh_perm _ _ _ _ Hp). Qed.

Lemma ValidateForSource_sortFacts f source :
  ValidateForSource (sortFacts f) source = Ok () ↔ ValidateForSource f source = Ok ().
Proof.
  destruct (sortFacts_lengths f) as (H1 & H2 & H3 & H4 & H5).
  unfold ValidateForSource, Count. rewrite H1, H2, H3, H4, H5.
  unfold sortFacts. cbn [f_Filesystem f_Exec f_NetworkConnect f_NetworkBind f_Capabilities].
  rewrite sorted_filesystem_fresh.
  rewrite (all_fresh_perm valid_exec_fact ef_Path (sort_by _ (f_Exec f)) (f_Exec f)) by apply sort_by_perm.
  rewrite (all_fresh_perm valid_capability_fact cf_Name (sort_by _ (f_Capabilities f)) (f_Capabilities f))
    by apply sort_by_perm.
  rewrite !result_guard_Ok. apply and_iff_compat_l.
  destruct (_ =? 0); [done|]. destruct (bool_decide (source = "filesystem")); [done|].
  destruct (bool_decide (source = "exec")); [done|].
  destruct (bool_decide (source = "networkConnect" ∨ source = "networkBind")); [|done].
  cbv zeta. rewrite !result_guard_Ok. do 2 apply and_iff_compat_l.
  apply validate_network_facts_perm. case_bool_decide; apply sort_by_perm.
Qed.

Lemma map_sorted {A} (less : A → A → bool) (g : A → A) l :
  (∀ x y, less (g x) (g y) = less x y) →
  StronglySorted (not_above less) l → StronglySorted (not_above less) (map g l).
Proof.
  intros Hg. induction 1 as [|x l Hs IH Hall]; cbn; constructor; [done|].
  apply Forall_fmap. eapply Forall_impl; [exact Hall|]. intros y. unfold not_above, compose. cbn. by rewrite Hg.
Qed.

Lemma sortFacts_idemp f : sortFacts (sortFacts f) = sortFacts f.
Proof.
  unfold sortFacts. cbn. f_equal; try apply sort_by_idemp, _.
  assert (∀ l, sort_by (less_on ff_Path string_ltb)
    (map sort_permissions (sort_by (less_on ff_Path string_ltb) l)) =
    map sort_permissions (sort_by (less_on ff_Path string_ltb) l)) as ->.
  { intros l. apply sort_by_id, map_sorted; [done|]. apply sort_by_sorted, _. }
  rewrite map_map. apply map_ext. intros x. unfold sort_permissions. cbn. f_equal.
  apply sort_by_idemp, _.
Qed.
