(* ===== verification/ObservationDomain.v ===== *)
(** * internal/observation/domain/observation.go

    The Observation aggregate: requested intent, runtime binding, execution
    state machine, per-source results and frozen provenance.  The clock is an
    argument; every slice the source copies defensively is a value. *)
From S2P Require Import Prelude GoStd Policy Identity.

Definition ErrObservationFrozen : error := mkError "observation is terminal and frozen" "".
Definition errTransition (msg : string) : error :=
  mkError "invalid observation state transition" msg.

(** ** Identity and specification *)
Abbreviation ObservationID := string.
Definition ObservationID_Valid (id : ObservationID) : bool := nonempty id.

Record RequestedTarget := mkRequestedTarget { rt_Slot : ContainerSlot }.
Definition RequestedTarget_Valid (t : RequestedTarget) : bool := ContainerSlot_Valid (rt_Slot t).

Record ObservationSpec := mkObservationSpec {
  os_Target : RequestedTarget; os_Sources : list string; os_Duration : Z;
  os_RequesterSession : string; os_AnchorPodUID : string }.

Definition NewObservationSpec (target : RequestedTarget) (sources : list string)
  (duration : Z) (requesterSession : string) : result ObservationSpec :=
  fail_if negb (RequestedTarget_Valid target) || (duration <=? 0)%Z || (length sources =? 0)
    with errDomain "incomplete ObservationSpec";
  fail_if existsb blank sources with errDomain "empty evidence source";
  Ok (mkObservationSpec target (sort_strings sources) duration requesterSession "").

Definition WithAnchorPodUID (s : ObservationSpec) (uid : string) : result ObservationSpec :=
  fail_if blank uid || negb (bool_decide (uid = trim_space uid)) || (128 <? String.length uid)
    with errDomain "invalid anchor Pod UID";
  Ok (mkObservationSpec (os_Target s) (os_Sources s) (os_Duration s) (os_RequesterSession s) uid).

(** ** Binding *)
Definition runtimeInstanceKey (item : RuntimeContainerInstance) : string :=
  let nul := String "000"%char "" in
  let w := s_Workload (ri_Slot item) in
  w_Namespace w +:+ nul +:+ w_Name w +:+ nul +:+ s_Container (ri_Slot item) +:+ nul
  +:+ ri_PodUID item +:+ nul +:+ ri_ContainerID item.

Definition newTargetItems (items : list RuntimeContainerInstance)
  : result (list RuntimeContainerInstance) :=
  fail_if existsb (fun item => negb (RuntimeContainerInstance_Valid item)) items
    with errDomain "invalid runtime target";
  Ok (sort_by (less_on runtimeInstanceKey string_ltb) items).

Record ResolvedTargetSet := mkResolvedTargetSet { rts_items : list RuntimeContainerInstance }.
Definition NewResolvedTargetSet (items : list RuntimeContainerInstance) : result ResolvedTargetSet :=
  copyItems ← newTargetItems items; Ok (mkResolvedTargetSet copyItems).

Record BackendIdentity := mkBackendIdentity { b_Kind : string; b_Version : string }.
Definition no_backend : BackendIdentity := mkBackendIdentity "" "".
#[export] Instance BackendIdentity_eq_dec : EqDecision BackendIdentity.
Proof. solve_decision. Defined.

Abbreviation TargetChangeKind := string.
Definition PodAdded : TargetChangeKind := "POD_ADDED".
Definition PodRemoved : TargetChangeKind := "POD_REMOVED".
Definition ImageChanged : TargetChangeKind := "IMAGE_CHANGED".
Definition WorkloadRevisionChanged : TargetChangeKind := "WORKLOAD_REVISION_CHANGED".

Record TargetChangeEvent := mkTargetChangeEvent { tc_At : time; tc_Kind : TargetChangeKind; tc_Detail : string }.

Definition NewTargetChangeEvent (at_ : time) (kind : TargetChangeKind) (detail : string)
  : result TargetChangeEvent :=
  fail_if time_is_zero at_ || blank kind with errDomain "incomplete target change event";
  fail_if negb (bool_decide (kind ∈ [PodAdded; PodRemoved; ImageChanged; WorkloadRevisionChanged]))
    with errDomain "unsupported target change kind";
  Ok (mkTargetChangeEvent at_ kind detail).

Record ObservationBinding := mkObservationBinding {
  ob_ResolvedTargets : ResolvedTargetSet;
  ob_Backend : BackendIdentity;
  ob_ImageRevisions : list ContainerImageRevision;
  ob_TargetChanges : list TargetChangeEvent }.
Definition no_binding : ObservationBinding :=
  mkObservationBinding (mkResolvedTargetSet []) no_backend [] [].

(** ** Execution *)
Abbreviation ExecutionState := string.
Definition ExecutionRequested : ExecutionState := "REQUESTED".
Definition ExecutionStarting : ExecutionState := "STARTING".
Definition ExecutionRunning : ExecutionState := "RUNNING".
Definition ExecutionCompleting : ExecutionState := "COMPLETING".
Definition ExecutionCompleted : ExecutionState := "COMPLETED".
Definition ExecutionFailed : ExecutionState := "FAILED".
Abbreviation CompletionReason := string.

Definition ExecutionState_Valid (s : ExecutionState) : bool :=
  bool_decide (s ∈ [ExecutionRequested; ExecutionStarting; ExecutionRunning;
                    ExecutionCompleting; ExecutionCompleted; ExecutionFailed]).

Record FailureInfo := mkFailureInfo {
  fi_Stage : string; fi_Code : string; fi_Reason : string; fi_Source : string;
  fi_OccurredAt : time; fi_Retryable : bool; fi_ExecutorID : string; fi_ClaimGeneration : Z }.

Record StopIntent := mkStopIntent {
  si_RequestedAt : time; si_Requester : string; si_ContextVersion : Z;
  si_ExecutorID : string; si_ClaimGeneration : Z }.

Record ObservationExecution := mkObservationExecution {
  ex_State : ExecutionState; ex_Completion : CompletionReason;
  ex_StartedAt : time; ex_CompletedAt : time;
  ex_StopIntent : option StopIntent; ex_Failure : option FailureInfo }.

Definition StopRequested (e : ObservationExecution) : bool :=
  match ex_StopIntent e with Some _ => true | None => false end.

Definition terminal (s : ExecutionState) : bool :=
  bool_decide (s = ExecutionCompleted ∨ s = ExecutionFailed).

Definition validExecutionTransition (from to : ExecutionState) : bool :=
  if bool_decide (from = ExecutionRequested) then bool_decide (to = ExecutionStarting)
  else if bool_decide (from = ExecutionStarting) then
    bool_decide (to = ExecutionRunning ∨ to = ExecutionCompleting ∨ to = ExecutionFailed)
  else if bool_decide (from = ExecutionRunning) then bool_decide (to = ExecutionCompleting)
  else if bool_decide (from = ExecutionCompleting) then
    bool_decide (to = ExecutionCompleted ∨ to = ExecutionFailed)
  else false.

(** ** Attribution and evidence *)
Abbreviation AttributionState := string.
Definition AttributionNotStarted : AttributionState := "NOT_STARTED".
Definition AttributionInProgress : AttributionState := "IN_PROGRESS".
Definition AttributionCompleted : AttributionState := "COMPLETED".
Definition AttributionFailed : AttributionState := "FAILED".

Definition AttributionState_Valid (s : AttributionState) : bool :=
  bool_decide (s ∈ [AttributionNotStarted; AttributionInProgress; AttributionCompleted; AttributionFailed]).

Definition AdvanceAttribution (from to : AttributionState) : result unit :=
  fail_if negb (AttributionState_Valid from) || negb (AttributionState_Valid to)
    with errDomain "invalid attribution state";
  let valid := bool_decide (from = AttributionNotStarted ∧ to = AttributionInProgress) ||
    bool_decide (from = AttributionInProgress ∧ (to = AttributionCompleted ∨ to = AttributionFailed)) in
  fail_if negb valid with errTransition "attribution";
  Ok ().

Abbreviation EvidenceState := string.
Definition EvidenceEmpty : EvidenceState := "EMPTY".
Definition EvidenceAvailable : EvidenceState := "AVAILABLE".
Definition EvidenceUnknown : EvidenceState := "UNKNOWN".

Record SourceQualification := mkSourceQualification {
  BackendHealthConfirmed : bool; SourceAttachedForBoundWindow : bool; FlushConfirmed : bool;
  Attribution : AttributionState; AttributedCount : Z; ExcludedCount : Z }.

Definition DeriveEvidenceState (q : SourceQualification) : EvidenceState :=
  if negb (BackendHealthConfirmed q) || negb (SourceAttachedForBoundWindow q) ||
     negb (FlushConfirmed q) || negb (bool_decide (Attribution q = AttributionCompleted)) ||
     (0 <? ExcludedCount q)%Z
  then EvidenceUnknown
  else if (0 <? AttributedCount q)%Z then EvidenceAvailable else EvidenceEmpty.

Record EvidenceSource := mkEvidenceSource { es_Name : string; es_Backend : string; es_Version : string }.
#[export] Instance EvidenceSource_eq_dec : EqDecision EvidenceSource.
Proof. solve_decision. Defined.

Record ExclusionReasonCount := mkExclusionReasonCount { er_Reason : string; er_Count : Z }.

Record SourceResult := mkSourceResult {
  sr_Source : EvidenceSource; sr_Qualification : SourceQualification; sr_Evidence : EvidenceState;
  sr_References : list string; sr_Facts : NormalizedFacts;
  sr_ExclusionReasons : list ExclusionReasonCount }.

Definition max_uint64 : Z := 18446744073709551615.
Definition add_uint64 (a b : Z) : Z := ((a + b) mod 18446744073709551616)%Z.

(** The summation loop over the sorted reasons; [prev] is [out[i-1].Reason]. *)
Fixpoint exclusion_total (prev : option string) (total : Z) (l : list ExclusionReasonCount) : result Z :=
  match l with
  | [] => Ok total
  | item :: l =>
      fail_if blank (er_Reason item) || negb (bool_decide (er_Reason item = trim_space (er_Reason item)))
              || (160 <? String.length (er_Reason item)) || (er_Count item =? 0)%Z
              || bool_decide (prev = Some (er_Reason item))
        with errDomain "invalid exclusion reason summary";
      fail_if (max_uint64 - total <? er_Count item)%Z with errDomain "exclusion reason count overflow";
      exclusion_total (Some (er_Reason item)) (add_uint64 total (er_Count item)) l
  end.

Definition WithExclusionReasons (r : SourceResult) (reasons : list ExclusionReasonCount) : result SourceResult :=
  fail_if 8 <? length reasons with errDomain "too many exclusion reason categories";
  let out := sort_by (less_on er_Reason string_ltb) reasons in
  total ← exclusion_total None 0 out;
  fail_if (ExcludedCount (sr_Qualification r) <? total)%Z
    with errDomain "exclusion reasons exceed excluded event count";
  Ok (mkSourceResult (sr_Source r) (sr_Qualification r) (sr_Evidence r) (sr_References r) (sr_Facts r) out).

Definition NewSourceResult (source : EvidenceSource) (qualification : SourceQualification)
  (references : list string) (facts : list NormalizedFacts) : result SourceResult :=
  fail_if blank (es_Name source) || negb (AttributionState_Valid (Attribution qualification))
    with errDomain "incomplete source result";
  fail_if 64 <? length references with errDomain "too many evidence references";
  fail_if existsb (fun ref => blank ref || (512 <? String.length ref)) references
    with errDomain "invalid evidence reference";
  fail_if 1 <? length facts with errDomain "multiple normalized fact sets";
  let normalized := match facts with f :: _ => f | [] => no_facts end in
  _ ← ValidateForSource normalized (es_Name source);
  let normalized := sortFacts normalized in
  fail_if (AttributedCount qualification =? 0)%Z && (0 <? Count normalized)
    with errDomain "facts require attributed evidence";
  Ok (mkSourceResult source qualification (DeriveEvidenceState qualification) references normalized []).

Record ObservationResult := mkObservationResult { sources : list SourceResult }.

Definition sort_sources (l : list SourceResult) : list SourceResult :=
  sort_by (less_on (fun r => es_Name (sr_Source r)) string_ltb) l.

Fixpoint validate_sources (seen : list string) (l : list SourceResult) : result (list SourceResult) :=
  match l with
  | [] => Ok []
  | source :: l =>
      validated ← NewSourceResult (sr_Source source) (sr_Qualification source)
                    (sr_References source) [sr_Facts source];
      validated ← WithExclusionReasons validated (sr_ExclusionReasons source);
      fail_if nonempty (sr_Evidence source) && negb (bool_decide (sr_Evidence source = sr_Evidence validated))
        with errDomain "source evidence does not match qualification";
      fail_if bool_decide (es_Name (sr_Source source) ∈ seen) with errDomain "duplicate evidence source";
      rest ← validate_sources (es_Name (sr_Source source) :: seen) l;
      Ok (validated :: rest)
  end.

Definition NewObservationResult (l : list SourceResult) : result ObservationResult :=
  validated ← validate_sources [] l;
  Ok (mkObservationResult (sort_sources validated)).

Record ObservationProvenance := mkObservationProvenance {
  op_ResolvedTargets : ResolvedTargetSet; op_ImageRevisions : list ContainerImageRevision;
  op_Backend : BackendIdentity; op_RequestedSources : list string }.
Definition no_provenance : ObservationProvenance :=
  mkObservationProvenance (mkResolvedTargetSet []) [] no_backend [].

(** ** The aggregate *)
Record Observation := mkObservation {
  o_id : ObservationID; o_spec : ObservationSpec; o_binding : ObservationBinding;
  o_execution : ObservationExecution; o_result : ObservationResult;
  o_provenance : ObservationProvenance; o_bound : bool; o_frozen : bool }.

Definition new_execution : ObservationExecution :=
  mkObservationExecution ExecutionRequested "" 0 0 None None.

Definition NewObservation (id : ObservationID) (spec : ObservationSpec) : result Observation :=
  fail_if negb (ObservationID_Valid id) || negb (RequestedTarget_Valid (os_Target spec))
          || (os_Duration spec <=? 0)%Z || (length (os_Sources spec) =? 0)
    with errDomain "invalid Observation";
  Ok (mkObservation id spec no_binding new_execution (mkObservationResult []) no_provenance false false).

Definition binding_recorded (b : ObservationBinding) : bool :=
  negb (bool_decide (ob_Backend b = no_backend)) || (0 <? length (ob_ImageRevisions b))
  || (0 <? length (ob_TargetChanges b)) || (0 <? length (rts_items (ob_ResolvedTargets b))).

Definition has_provenance (p : ObservationProvenance) : bool :=
  negb (length (op_RequestedSources p) =? 0) || negb (length (op_ImageRevisions p) =? 0)
  || negb (length (rts_items (op_ResolvedTargets p)) =? 0)
  || negb (bool_decide (op_Backend p = no_backend)).

Definition RestoreObservation (id : ObservationID) (spec : ObservationSpec) (binding : ObservationBinding)
  (execution : ObservationExecution) (res : ObservationResult) (provenance : ObservationProvenance)
  : result Observation :=
  _ ← NewObservation id spec;
  fail_if negb (ExecutionState_Valid (ex_State execution)) with errDomain "invalid execution state";
  if terminal (ex_State execution) then
    fail_if blank (ex_Completion execution)
      with errDomain "terminal execution requires a completion reason";
    Ok (mkObservation id spec binding execution res provenance (binding_recorded binding) true)
  else
    fail_if has_provenance provenance with errDomain "non-terminal observation has provenance";
    Ok (mkObservation id spec binding execution res provenance (binding_recorded binding) false).

Definition with_execution (o : Observation) (e : ObservationExecution) : Observation :=
  mkObservation (o_id o) (o_spec o) (o_binding o) e (o_result o) (o_provenance o) (o_bound o) (o_frozen o).
Definition with_binding (o : Observation) (b : ObservationBinding) (bound : bool) : Observation :=
  mkObservation (o_id o) (o_spec o) b (o_execution o) (o_result o) (o_provenance o) bound (o_frozen o).
Definition with_result (o : Observation) (r : ObservationResult) : Observation :=
  mkObservation (o_id o) (o_spec o) (o_binding o) (o_execution o) r (o_provenance o) (o_bound o) (o_frozen o).

Definition RecordFailure (o : Observation) (failure : FailureInfo) : result Observation :=
  fail_if o_frozen o with ErrObservationFrozen;
  fail_if blank (fi_Stage failure) || blank (fi_Code failure) || blank (fi_Reason failure)
          || blank (fi_Source failure) || time_is_zero (fi_OccurredAt failure)
    with errDomain "incomplete failure diagnostic";
  let e := o_execution o in
  Ok (with_execution o (mkObservationExecution (ex_State e) (ex_Completion e) (ex_StartedAt e)
        (ex_CompletedAt e) (ex_StopIntent e) (Some failure))).

Definition CanRequestStop (o : Observation) : bool :=
  if o_frozen o then false
  else bool_decide (ex_State (o_execution o) ∈ [ExecutionRequested; ExecutionStarting; ExecutionRunning]).

Definition RequestStop (o : Observation) (intent : StopIntent) : result Observation :=
  fail_if time_is_zero (si_RequestedAt intent) || blank (si_Requester intent)
    with errDomain "incomplete stop intent";
  match ex_StopIntent (o_execution o) with
  | Some _ => Ok o
  | None =>
      fail_if negb (CanRequestStop o) with ErrObservationFrozen;
      let e := o_execution o in
      Ok (with_execution o (mkObservationExecution (ex_State e) (ex_Completion e) (ex_StartedAt e)
            (ex_CompletedAt e) (Some intent) (ex_Failure e)))
  end.

Definition Bind (o : Observation) (resolved : ResolvedTargetSet) (backend : BackendIdentity)
  (revisions : list ContainerImageRevision) : result Observation :=
  fail_if o_frozen o with ErrObservationFrozen;
  fail_if o_bound o with errTransition "binding already established";
  Ok (with_binding o (mkObservationBinding resolved backend revisions []) true).

Definition AppendTargetChange (o : Observation) (event : TargetChangeEvent) : result Observation :=
  fail_if o_frozen o with ErrObservationFrozen;
  let b := o_binding o in
  Ok (with_binding o (mkObservationBinding (ob_ResolvedTargets b) (ob_Backend b) (ob_ImageRevisions b)
        (ob_TargetChanges b ++ [event])) (o_bound o)).

Fixpoint replace_source (source : SourceResult) (l : list SourceResult) : option (list SourceResult) :=
  match l with
  | [] => None
  | s :: l =>
      if bool_decide (sr_Source s = sr_Source source) then Some (source :: l)
      else match replace_source source l with Some l' => Some (s :: l') | None => None end
  end.

Definition RecordSourceResult (o : Observation) (source : SourceResult) : result Observation :=
  fail_if o_frozen o with ErrObservationFrozen;
  fail_if blank (es_Name (sr_Source source)) || negb (AttributionState_Valid (Attribution (sr_Qualification source)))
    with errDomain "incomplete source result";
  let source := mkSourceResult (sr_Source source) (sr_Qualification source)
                  (DeriveEvidenceState (sr_Qualification source)) (sr_References source)
                  (sr_Facts source) (sr_ExclusionReasons source) in
  match replace_source source (sources (o_result o)) with
  | Some l => Ok (with_result o (mkObservationResult l))
  | None => Ok (with_result o (mkObservationResult (sort_sources (sources (o_result o) ++ [source]))))
  end.

Definition Transition (now : time) (o : Observation) (next : ExecutionState) (reason : CompletionReason)
  : result Observation :=
  fail_if o_frozen o with ErrObservationFrozen;
  fail_if negb (ExecutionState_Valid next) || negb (validExecutionTransition (ex_State (o_execution o)) next)
    with errTransition "execution";
  fail_if terminal next && blank reason
    with errDomain "terminal execution requires a completion reason";
  let e := o_execution o in
  let started := if bool_decide (next = ExecutionRunning) && time_is_zero (ex_StartedAt e)
                 then now else ex_StartedAt e in
  if terminal next then
    let b := o_binding o in
    Ok (mkObservation (o_id o) (o_spec o) b
          (mkObservationExecution next reason started now (ex_StopIntent e) (ex_Failure e))
          (o_result o)
          (mkObservationProvenance (ob_ResolvedTargets b) (ob_ImageRevisions b) (ob_Backend b)
             (os_Sources (o_spec o)))
          (o_bound o) true)
  else
    Ok (with_execution o (mkObservationExecution next (ex_Completion e) started (ex_CompletedAt e)
          (ex_StopIntent e) (ex_Failure e))).

(** ** Operations as steps *)
Inductive op :=
| OpBind (resolved : ResolvedTargetSet) (backend : BackendIdentity) (revisions : list ContainerImageRevision)
| OpTargetChange (event : TargetChangeEvent)
| OpSourceResult (source : SourceResult)
| OpFailure (failure : FailureInfo)
| OpStop (intent : StopIntent)
| OpTransition (now : time) (next : ExecutionState) (reason : CompletionReason).

Definition apply_op (o : Observation) (x : op) : result Observation :=
  match x with
  | OpBind resolved backend revisions => Bind o resolved backend revisions
  | OpTargetChange event => AppendTargetChange o event
  | OpSourceResult source => RecordSourceResult o source
  | OpFailure failure => RecordFailure o failure
  | OpStop intent => RequestStop o intent
  | OpTransition now next reason => Transition now o next reason
  end.

(** Aggregates a client can hold: created, then changed by the operations. *)
Inductive reachable : Observation → Prop :=
| reachable_new id spec o : NewObservation id spec = Ok o → reachable o
| reachable_step o x o' : reachable o → apply_op o x = Ok o' → reachable o'.

(** Well-formed results: one entry per evidence source, in name order, each
    with the evidence state its qualification implies. *)
Definition results_wf (l : list SourceResult) : Prop :=
  NoDup (map sr_Source l) ∧
  StronglySorted (not_above (less_on (fun r => es_Name (sr_Source r)) string_ltb)) l ∧
  Forall (fun r => sr_Evidence r = DeriveEvidenceState (sr_Qualification r)) l.

Definition snapshot (o : Observation) : ObservationProvenance :=
  mkObservationProvenance (ob_ResolvedTargets (o_binding o)) (ob_ImageRevisions (o_binding o))
    (ob_Backend (o_binding o)) (os_Sources (o_spec o)).

Record wf (o : Observation) : Prop := {
  wf_state : ExecutionState_Valid (ex_State (o_execution o)) = true;
  wf_frozen : o_frozen o = terminal (ex_State (o_execution o));
  wf_terminal : o_frozen o = true →
    blank (ex_Completion (o_execution o)) = false ∧ o_provenance o = snapshot o;
  wf_active : o_frozen o = false →
    o_provenance o = no_provenance ∧ ex_Completion (o_execution o) = "" ∧
    ex_CompletedAt (o_execution o) = 0%Z;
  wf_results : results_wf (sources (o_result o));
  wf_created : is_ok (NewObservation (o_id o) (o_spec o)) = true }.

(** ** Lemmas *)
Lemma replace_source_Some s l l' :
  replace_source s l = Some l' →
  map sr_Source l' = map sr_Source l ∧ (∀ r, r ∈ l' → r = s ∨ r ∈ l).
Proof.
  revert l'. induction l as [|r l IH]; intros l'; cbn; [done|].
  case_bool_decide as E.
  - intros [= <-]. cbn. split; [by rewrite E|]. set_solver.
  - destruct (replace_source s l) as [k|]; [|done]. intros [= <-].
    destruct (IH k eq_refl) as [H1 H2]. cbn. split; [by rewrite H1|]. set_solver.
Qed.

Lemma replace_source_None s l : replace_source s l = None → sr_Source s ∉ map sr_Source l.
Proof.
  induction l as [|r l IH]; cbn; [intros _; apply not_elem_of_nil|].
  case_bool_decide as E; [done|]. destruct (replace_source s l); [done|].
  intros _. rewrite not_elem_of_cons. split; [congruence|auto].
Qed.

(** The name order only looks at the sources. *)
Lemma sorted_by_source l l' :
  map sr_Source l = map sr_Source l' →
  StronglySorted (not_above (less_on (fun r => es_Name (sr_Source r)) string_ltb)) l →
  StronglySorted (not_above (less_on (fun r => es_Name (sr_Source r)) string_ltb)) l'.
Proof.
  intros E Hs. revert l' E. induction Hs as [|r l Hs IH Hall]; intros [|r' l'] E; try done;
    constructor; cbn in E; injection E as E1 E2; [auto|].
  rewrite Forall_forall in Hall |- *. intros x Hx.
  assert (sr_Source x ∈ map sr_Source l) as Hin by (rewrite E2; by apply (list_elem_of_fmap_2 sr_Source)).
  apply list_elem_of_fmap in Hin as (y & Hy & Hin). specialize (Hall y Hin).
  unfold not_above, less_on in *. by rewrite <- E1, Hy.
Qed.

Lemma results_wf_record o s o' :
  RecordSourceResult o s = Ok o' → results_wf (sources (o_result o)) → results_wf (sources (o_result o')).
Proof.
  unfold RecordSourceResult. intros H (Hnd & Hs & He). inv_ok.
  match type of H with context [replace_source ?x _] => set (src := x) in H end.
  destruct (replace_source src (sources (o_result o))) as [k|] eqn:E; injection H as <-; cbn.
  - destruct (replace_source_Some _ _ _ E) as [E1 E2]. split; [by rewrite E1|].
    split; [by apply (sorted_by_source _ _ (eq_sym E1))|].
    rewrite Forall_forall in He |- *. intros r Hr. destruct (E2 r Hr) as [->|]; [done|auto].
  - apply replace_source_None in E. unfold sort_sources. split; [|split].
    + assert (map sr_Source (sort_sources (sources (o_result o) ++ [src])) ≡ₚ
              map sr_Source (sources (o_result o)) ++ [sr_Source src]) as ->.
      { change (map sr_Source ?l) with (sr_Source <$> l).
        unfold sort_sources. rewrite sort_by_perm, fmap_app. done. }
      apply NoDup_app. split; [done|]. split; [|apply NoDup_singleton].
      intros x Hx ->%list_elem_of_singleton. done.
    + apply sort_by_sorted, _.
    + rewrite sort_by_perm. apply Forall_app. split; [done|]. by repeat constructor.
Qed.

Lemma terminal_valid s : terminal s = true → ExecutionState_Valid s = true.
Proof.
  unfold terminal, ExecutionState_Valid. rewrite !bool_decide_eq_true.
  intros [->| ->]; set_solver.
Qed.

Lemma NewObservation_parts id spec o :
  NewObservation id spec = Ok o →
  o = mkObservation id spec no_binding new_execution (mkObservationResult []) no_provenance false false.
Proof. unfold NewObservation. intros H. inv_ok. done. Qed.

(** Operations that leave the execution state and the freeze alone. *)
Lemma wf_active_step o o' :
  wf o → o_frozen o = false → o_frozen o' = false →
  ex_State (o_execution o') = ex_State (o_execution o) →
  ex_Completion (o_execution o') = ex_Completion (o_execution o) →
  ex_CompletedAt (o_execution o') = ex_CompletedAt (o_execution o) →
  o_provenance o' = o_provenance o → results_wf (sources (o_result o')) →
  o_id o' = o_id o → o_spec o' = o_spec o → wf o'.
Proof.
  intros [H1 H2 H3 H4 H5 H6] Hf Hf' Es Ec Ea Ep Hr Ei Esp.
  split; rewrite ?Es, ?Ec, ?Ea, ?Ep, ?Ei, ?Esp; try done; try (intros; congruence); auto.
Qed.

Lemma wf_step o x o' : wf o → apply_op o x = Ok o' → wf o'.
Proof.
  intros Hw Hx. pose proof Hw as [H1 H2 H3 H4 H5 H6]. destruct x; cbn in Hx.
  - unfold Bind in Hx. inv_ok. by apply (wf_active_step o).
  - unfold AppendTargetChange in Hx. inv_ok. by apply (wf_active_step o).
  - pose proof (results_wf_record _ _ _ Hx H5) as Hr. unfold RecordSourceResult in Hx. inv_ok.
    destruct (replace_source _ _); injection Hx as <-; by apply (wf_active_step o).
  - unfold RecordFailure in Hx. inv_ok. by apply (wf_active_step o).
  - unfold RequestStop, CanRequestStop in Hx. inv_ok.
    destruct (ex_StopIntent (o_execution o)); [congruence|].
    destruct (o_frozen o) eqn:Hf; cbn in Hx; [discriminate|]. inv_ok. by apply (wf_active_step o).
  - unfold Transition in Hx. inv_ok. bool_simpl.
    destruct (terminal next) eqn:Et; injection Hx as <-; split; cbn; try done; try congruence.
    intros _. by apply H4.
Qed.

Lemma reachable_wf_aux o : reachable o → wf o.
Proof.
  induction 1 as [id spec o H|o x o' _ IH Hx]; [|by eapply wf_step].
  pose proof H as Hn. apply NewObservation_parts in H as ->. split; cbn; try done.
  - split; [constructor|]. split; constructor.
  - by rewrite Hn.
Qed.

(** C40: every reachable Observation is well formed: it is frozen exactly in the
    two terminal states; a frozen one has a completion reason and a provenance
    that snapshots its binding and requested sources; an active one has neither;
    its results hold one entry per source, in order, with the derived evidence
    state. *)
Theorem reachable_wf o : reachable o → wf o.
Proof. apply reachable_wf_aux. Qed.

(** A concrete run to completion. *)
Definition ex_slot : ContainerSlot :=
  mkContainerSlot (mkWorkloadIdentity (mkClusterIdentity "c1") "default"
    (mkGroupKind "apps" "Deployment") "web" "uid-1") "app".
Definition ex_spec : ObservationSpec :=
  mkObservationSpec (mkRequestedTarget ex_slot) ["exec"; "filesystem"] 60 "s" "".
Definition ex_new : Observation :=
  mkObservation "obs-1" ex_spec no_binding new_execution (mkObservationResult []) no_provenance false false.

Fixpoint run_ops (o : Observation) (l : list op) : result Observation :=
  match l with [] => Ok o | x :: l => o' ← apply_op o x; run_ops o' l end.

Lemma reachable_run o l o' : reachable o → run_ops o l = Ok o' → reachable o'.
Proof.
  revert o. induction l as [|x l IH]; intros o Hr; cbn; [by intros [= <-]|].
  intros (o1 & H1 & H2)%result_bind_Ok. eapply IH; [|done]. by eapply reachable_step.
Qed.

Definition ex_ops : list op :=
  [OpTransition 5 ExecutionStarting ""; OpTransition 6 ExecutionRunning "";
   OpTransition 7 ExecutionCompleting ""; OpTransition 8 ExecutionCompleted "COMPLETED"].

Lemma reachable_wf_witness :
  ∃ o, run_ops ex_new ex_ops = Ok o ∧ o_frozen o = true ∧ wf o.
Proof.
  eexists. split; [vm_compute; reflexivity|]. split; [reflexivity|].
  apply reachable_wf, (reachable_run ex_new ex_ops); [|vm_compute; reflexivity].
  apply (reachable_new "obs-1" ex_spec). vm_compute. reflexivity.
Defined.

(** A frozen Observation is immutable: no operation changes it, and every
    operation but a repeated stop request reports that it is frozen. *)
Theorem frozen_immutable o x o' :
  o_frozen o = true → apply_op o x = Ok o' →
  o' = o ∧ ∃ intent, x = OpStop intent ∧ StopRequested (o_execution o) = true.
Proof.
  intros Hf Hx. destruct x; cbn in Hx;
    try (unfold Bind, AppendTargetChange, RecordSourceResult, RecordFailure, Transition in Hx;
         rewrite Hf in Hx; discriminate).
  unfold RequestStop, CanRequestStop in Hx. rewrite Hf in Hx. inv_ok. unfold StopRequested.
  destruct (ex_StopIntent (o_execution o)); [|done]. injection Hx as <-. eauto.
Qed.

Lemma frozen_immutable_witness :
  let intent := mkStopIntent 6 "alice" 1 "" 0 in
  ∃ o, run_ops ex_new (OpStop intent :: ex_ops) = Ok o ∧ apply_op o (OpStop intent) = Ok o ∧
       StopRequested (o_execution o) = true.
Proof.
  intros intent. eexists. split; [vm_compute; reflexivity|]. split; [vm_compute; reflexivity|].
  refine (match frozen_immutable _ (OpStop intent) _ _ _ with
          | conj _ (ex_intro _ _ (conj _ H)) => H end); vm_compute; reflexivity.
Defined.

(** ** Progress of the execution state machine *)
Definition rank (s : ExecutionState) : nat :=
  if bool_decide (s = ExecutionRequested) then 0
  else if bool_decide (s = ExecutionStarting) then 1
  else if bool_decide (s = ExecutionRunning) then 2
  else if bool_decide (s = ExecutionCompleting) then 3 else 4.

Lemma transition_rank from to :
  validExecutionTransition from to = true → rank from < rank to.
Proof.
  unfold validExecutionTransition, rank. repeat case_bool_decide; subst; cbn; try done; try lia;
    intuition (subst; try done).
Qed.

Definition is_transition (x : op) : bool := match x with OpTransition _ _ _ => true | _ => false end.

Lemma other_op_rank o x o' :
  apply_op o x = Ok o' → is_transition x = false → ex_State (o_execution o') = ex_State (o_execution o).
Proof.
  destruct x; cbn; intros Hx E; try done.
  - unfold Bind in Hx. by inv_ok.
  - unfold AppendTargetChange in Hx. by inv_ok.
  - unfold RecordSourceResult in Hx. inv_ok. destruct (replace_source _ _); by injection Hx as <-.
  - unfold RecordFailure in Hx. by inv_ok.
  - unfold RequestStop in Hx. inv_ok. destruct (ex_StopIntent _); [congruence|]. by inv_ok.
Qed.

Lemma Transition_rank now o next reason o' :
  Transition now o next reason = Ok o' →
  rank (ex_State (o_execution o)) < rank (ex_State (o_execution o')).
Proof.
  unfold Transition. intros H. inv_ok. bool_simpl.
  destruct (terminal next); injection H as <-; cbn; by apply transition_rank.
Qed.

(** Every successful transition moves the execution strictly forward, so a
    history contains at most four of them, and never revisits a state. *)
Theorem transitions_bounded o l o' :
  run_ops o l = Ok o' →
  length (List.filter is_transition l) + rank (ex_State (o_execution o)) ≤ rank (ex_State (o_execution o'))
  ∧ rank (ex_State (o_execution o')) ≤ 4.
Proof.
  intros H. split; [|unfold rank; repeat case_bool_decide; lia].
  revert o H. induction l as [|x l IH]; intros o; cbn; [intros [= <-]; lia|].
  intros (o1 & H1 & H2)%result_bind_Ok. specialize (IH o1 H2).
  destruct (is_transition x) eqn:E; cbn.
  - destruct x; try done. apply Transition_rank in H1. lia.
  - rewrite <- (other_op_rank o x o1) by done. done.
Qed.

Lemma transitions_bounded_witness :
  ∃ o, run_ops ex_new ex_ops = Ok o ∧ length (List.filter is_transition ex_ops) = 4 ∧
       length (List.filter is_transition ex_ops) + rank (ex_State (o_execution ex_new))
         ≤ rank (ex_State (o_execution o)).
Proof.
  eexists. split; [vm_compute; reflexivity|]. split; [reflexivity|].
  refine (proj1 (transitions_bounded ex_new ex_ops _ _)). vm_compute. reflexivity.
Defined.

(** *** No Observation is stuck *)
Lemma Transition_enabled now o next reason : o_frozen o = false → ExecutionState_Valid next = true →
  validExecutionTransition (ex_State (o_execution o)) next = true → blank reason = false →
  ∃ o', Transition now o next reason = Ok o' ∧ ex_State (o_execution o') = next ∧ o_frozen o' = terminal next ∧
    (terminal next = true → ex_Completion (o_execution o') = reason).
Proof.
  intros Hf Hv Ht Hr. unfold Transition. rewrite Hf, Hv, Ht, Hr. cbn [negb orb]. rewrite andb_false_r.
  destruct (terminal next); (eexists; split; [reflexivity|]); cbn; by rewrite ?Hf.
Qed.

(** The states an execution still has to pass to reach its end. *)
Definition route (from final : ExecutionState) : list ExecutionState :=
  if bool_decide (from = ExecutionRequested) then [ExecutionStarting; ExecutionCompleting; final]
  else if bool_decide (from = ExecutionStarting ∨ from = ExecutionRunning) then [ExecutionCompleting; final]
  else [final].

Lemma follow_route now reason path : blank reason = false → ∀ o, o_frozen o = false →
  Forall (fun s => ExecutionState_Valid s = true) path →
  (∀ i a b, (ex_State (o_execution o) :: path) !! i = Some a → path !! i = Some b → validExecutionTransition a b = true) →
  (∀ i a, path !! i = Some a → S i < length path → terminal a = false) →
  ∃ o', run_ops o (map (fun s => OpTransition now s reason) path) = Ok o' ∧
    (path ≠ [] → ∃ s, last path = Some s ∧ ex_State (o_execution o') = s ∧ o_frozen o' = terminal s ∧
       (terminal s = true → ex_Completion (o_execution o') = reason)).
Proof.
  intros Hr. induction path as [|s path IH]; intros o Hf Hv Hedge Hmid; [by exists o|].
  inversion Hv as [|?? Hs Hv']; subst.
  destruct (Transition_enabled now o s reason Hf Hs (Hedge 0 _ _ eq_refl eq_refl) Hr) as (o1 & H1 & Es & Efr & Ec).
  cbn [map run_ops apply_op]. rewrite H1. cbn [mbind result_bind]. destruct path as [|s' path].
  { exists o1. split; [done|]. intros _. by exists s. }
  assert (terminal s = false) as Hterm by (apply (Hmid 0); [done|cbn; lia]).
  destruct (IH o1) as (o' & Hrun & Hlast); [congruence|done| | |].
  - intros i a b Ha Hb. apply (Hedge (S i)); [|done]. cbn. by rewrite Es in Ha.
  - intros i a Ha Hi. apply (Hmid (S i)); [done|cbn in *; lia].
  - exists o'. split; [done|]. intros _. rewrite last_cons. destruct (Hlast ltac:(done)) as (z & -> & Hz). by exists z.
Qed.

(** C28: every Observation can be brought to an end: from whatever state a client
    has driven it to, at most three transitions complete it, or fail it, with
    the reason that is given, and freeze it. *)
Theorem every_observation_ends o final now reason : reachable o → o_frozen o = false →
  final = ExecutionCompleted ∨ final = ExecutionFailed → blank reason = false →
  ∃ path o', length path ≤ 3 ∧ run_ops o (map (fun s => OpTransition now s reason) path) = Ok o' ∧
    ex_State (o_execution o') = final ∧ ex_Completion (o_execution o') = reason ∧ o_frozen o' = true ∧ wf o'.
Proof.
  intros Hreach Hf Hfinal Hr. pose proof (reachable_wf_aux o Hreach) as [Hv Hfr _ _ _ _]. rewrite Hf in Hfr.
  set (s := ex_State (o_execution o)) in *.
  assert (terminal final = true ∧ ExecutionState_Valid final = true) as [Ht Hvf] by (by destruct Hfinal as [-> | ->]).
  assert (s = ExecutionRequested ∨ s = ExecutionStarting ∨ s = ExecutionRunning ∨ s = ExecutionCompleting) as Hs.
  { unfold ExecutionState_Valid in Hv. apply bool_decide_eq_true in Hv. unfold terminal in Hfr.
    symmetry in Hfr. apply bool_decide_eq_false_1 in Hfr. set_solver. }
  destruct (follow_route now reason (route s final) Hr o Hf) as (o' & Hrun & Hlast).
  - destruct Hs as [-> |[-> |[-> | ->]]]; repeat constructor; done.
  - fold s. destruct Hs as [-> |[-> |[-> | ->]]], Hfinal as [-> | ->]; intros [|[|[|i]]] a b Ha Hb;
      vm_compute in Ha, Hb; simplify_eq; reflexivity.
  - destruct Hs as [-> |[-> |[-> | ->]]], Hfinal as [-> | ->]; intros [|[|[|i]]] a Ha Hi; vm_compute in Ha; simplify_eq;
      (reflexivity || (vm_compute in Hi; lia)).
  - assert (route s final ≠ [] ∧ last (route s final) = Some final ∧ length (route s final) ≤ 3) as (Hne & Hl & Hlen)
      by (destruct Hs as [-> |[-> |[-> | ->]]], Hfinal as [-> | ->]; vm_compute; split_and!; (done || lia)).
    destruct (Hlast Hne) as (z & Hz & Hst & Hfz & Hc). rewrite Hl in Hz. injection Hz as <-. rewrite Ht in Hfz.
    exists (route s final), o'. split_and!; [done|done|done|by apply Hc|done|].
    apply reachable_wf_aux. by eapply reachable_run.
Qed.

Lemma every_observation_ends_witness :
  ∃ o path o', run_ops ex_new [OpTransition 5 ExecutionStarting ""] = Ok o ∧ o_frozen o = false ∧
    run_ops o (map (fun s => OpTransition 9 s "TIMEOUT") path) = Ok o' ∧ ex_State (o_execution o') = ExecutionFailed ∧ o_frozen o' = true.
Proof.
  destruct (run_ops ex_new [OpTransition 5 ExecutionStarting ""]) as [o|] eqn:E; [|vm_compute in E; discriminate E].
  assert (o_frozen o = false) as Hf by (vm_compute in E; injection E as <-; reflexivity).
  assert (reachable o) as Hr.
  { apply (reachable_run ex_new [OpTransition 5 ExecutionStarting ""]); [|exact E].
    apply (reachable_new "obs-1" ex_spec). vm_compute. reflexivity. }
  destruct (every_observation_ends o ExecutionFailed 9 "TIMEOUT" Hr Hf (or_intror eq_refl) eq_refl)
    as (path & o' & _ & Hrun & Hst & _ & Hfz & _).
  exists o, path, o'. split; [reflexivity|]. split; [exact Hf|]. split; [exact Hrun|]. split; [exact Hst|exact Hfz].
Defined.

(** ** What a history never rewrites *)
Record evolves (o o' : Observation) : Prop := {
  ev_id : o_id o' = o_id o;
  ev_spec : o_spec o' = o_spec o;
  ev_stop : ∀ i, ex_StopIntent (o_execution o) = Some i → ex_StopIntent (o_execution o') = Some i;
  ev_started : ex_StartedAt (o_execution o) ≠ 0%Z →
    ex_StartedAt (o_execution o') = ex_StartedAt (o_execution o);
  ev_bound : o_bound o = true → o_bound o' = true ∧
    ob_ResolvedTargets (o_binding o') = ob_ResolvedTargets (o_binding o) ∧
    ob_Backend (o_binding o') = ob_Backend (o_binding o) ∧
    ob_ImageRevisions (o_binding o') = ob_ImageRevisions (o_binding o) ∧
    ob_TargetChanges (o_binding o) `prefix_of` ob_TargetChanges (o_binding o');
  ev_sources : ∀ s, s ∈ map sr_Source (sources (o_result o)) → s ∈ map sr_Source (sources (o_result o')) }.

#[global] Instance evolves_preorder : PreOrder evolves.
Proof.
  split.
  - intros o. by split; auto.
  - intros a b c [A1 A2 A3 A4 A5 A6] [B1 B2 B3 B4 B5 B6]. split; try congruence; auto.
    + intros H. rewrite B4; [by apply A4|]. by rewrite A4.
    + intros H. destruct (A5 H) as (E1 & E2 & E3 & E4 & E5).
      destruct (B5 E1) as (F1 & F2 & F3 & F4 & F5).
      repeat split; try congruence. by etrans.
Qed.

Lemma evolves_step o x o' : apply_op o x = Ok o' → evolves o o'.
Proof.
  destruct x; cbn; intros Hx.
  - unfold Bind in Hx. inv_ok. split; cbn; auto; congruence.
  - unfold AppendTargetChange in Hx. inv_ok. split; cbn; auto. intros Hb.
    repeat split; auto. by apply prefix_app_r.
  - unfold RecordSourceResult in Hx. inv_ok.
    destruct (replace_source _ _) as [k|] eqn:E; injection Hx as <-; split; cbn; auto.
    + apply replace_source_Some in E as [-> _]. auto.
    + intros s Hs. change (map sr_Source ?l) with (sr_Source <$> l) in *.
      unfold sort_sources. rewrite sort_by_perm, fmap_app. set_solver.
  - unfold RecordFailure in Hx. inv_ok. split; cbn; auto.
  - unfold RequestStop in Hx. inv_ok. destruct (ex_StopIntent (o_execution o)) eqn:E.
    + injection Hx as <-. done.
    + inv_ok. split; cbn; auto; congruence.
  - unfold Transition in Hx. inv_ok.
    assert (ex_StartedAt (o_execution o) ≠ 0%Z →
      (if bool_decide (next = ExecutionRunning) && time_is_zero (ex_StartedAt (o_execution o))
       then now else ex_StartedAt (o_execution o)) = ex_StartedAt (o_execution o)) as Hst.
    { intros Hne. unfold time_is_zero. rewrite (proj2 (Z.eqb_neq _ _)) by done. by rewrite andb_false_r. }
    destruct (terminal next); injection Hx as <-; split; cbn; auto.
Qed.

(** Along any history the identity and the requested specification are
    constant; the first stop intent and the first start time are final; once
    bound, the targets, backend and images are final and target changes are
    only appended; no recorded evidence source is lost. *)
Theorem history_evolves o l o' : run_ops o l = Ok o' → evolves o o'.
Proof.
  revert o. induction l as [|x l IH]; intros o; cbn; [by intros [= <-]|].
  intros (o1 & H1 & H2)%result_bind_Ok. etrans; [by eapply evolves_step|by apply IH].
Qed.

Lemma history_evolves_witness :
  let intent := mkStopIntent 6 "alice" 1 "" 0 in
  ∃ o, run_ops ex_new (OpStop intent :: ex_ops) = Ok o ∧ evolves ex_new o.
Proof.
  intros intent. eexists. split; [vm_compute; reflexivity|].
  apply (history_evolves ex_new (OpStop intent :: ex_ops)). vm_compute. reflexivity.
Defined.

(** ** Storage round trip *)

(** The restored parts of a reachable Observation are that Observation,
    provided its bound flag is what the binding records (the flag itself is not
    stored; see the two examples below). *)
Theorem Restore_reachable o :
  reachable o → o_bound o = binding_recorded (o_binding o) →
  RestoreObservation (o_id o) (o_spec o) (o_binding o) (o_execution o) (o_result o) (o_provenance o) = Ok o.
Proof.
  intros Hr Hb. destruct (reachable_wf_aux o Hr) as [H1 H2 H3 H4 H5 H6].
  unfold RestoreObservation. destruct (NewObservation (o_id o) (o_spec o)); [|done]. cbn.
  rewrite H1. cbn. destruct o as [id spec b e r p bd fz]; cbn in *. subst bd.
  destruct (terminal (ex_State e)); subst fz.
  - destruct (H3 eq_refl) as [-> ?]. done.
  - destruct (H4 eq_refl) as [-> ?]. done.
Qed.

Definition ex_binding_ops : list op :=
  [OpBind (mkResolvedTargetSet []) (mkBackendIdentity "ig" "1") [];
   OpTransition 5 ExecutionStarting ""; OpTransition 6 ExecutionRunning ""].

Lemma Restore_reachable_witness :
  ∃ o, run_ops ex_new ex_binding_ops = Ok o ∧ o_bound o = true ∧
    RestoreObservation (o_id o) (o_spec o) (o_binding o) (o_execution o) (o_result o) (o_provenance o) = Ok o.
Proof.
  eexists. split; [vm_compute; reflexivity|]. split; [reflexivity|].
  apply Restore_reachable; [|vm_compute; reflexivity].
  apply (reachable_run ex_new ex_binding_ops); [|vm_compute; reflexivity].
  apply (reachable_new "obs-1" ex_spec). vm_compute. reflexivity.
Defined.

(** A target change recorded before the binding makes the restored aggregate
    count as bound, although the original may still be bound. *)
Example restore_change_before_bind :
  let x := OpTargetChange (mkTargetChangeEvent 5 PodAdded "") in
  match run_ops ex_new [x] with
  | Ok o => o_bound o = false ∧
      match RestoreObservation (o_id o) (o_spec o) (o_binding o) (o_execution o) (o_result o) (o_provenance o) with
      | Ok r => o_bound r = true
      | Err _ => False
      end
  | Err _ => False
  end.
Proof. vm_compute. split; reflexivity. Qed.

(** ** Exclusion reasons *)
Definition reason_ok (item : ExclusionReasonCount) : Prop :=
  blank (er_Reason item) = false ∧ er_Reason item = trim_space (er_Reason item) ∧
  String.length (er_Reason item) ≤ 160 ∧ er_Count item ≠ 0%Z.

Fixpoint reasons_sum (l : list ExclusionReasonCount) : Z :=
  match l with [] => 0%Z | i :: l => (er_Count i + reasons_sum l)%Z end.

Fixpoint adjacent_distinct (prev : option string) (l : list string) : Prop :=
  match l with [] => True | x :: l => prev ≠ Some x ∧ adjacent_distinct (Some x) l end.

Lemma adjacent_sorted_some p l :
  StronglySorted (not_above string_ltb) (p :: l) → (adjacent_distinct (Some p) l ↔ NoDup (p :: l)).
Proof.
  revert p. induction l as [|x l IH]; intros p Hs; cbn.
  - split; [intros _; apply NoDup_singleton|done].
  - inversion Hs as [|?? Hs' Hall]; subst. inversion Hall as [|?? Hpx _]; subst.
    rewrite (IH x Hs'), (NoDup_cons p), not_elem_of_cons. split.
    + intros [Hne Hnd]. split; [|done]. split; [congruence|]. intros Hin. apply Hne. f_equal.
      inversion Hs' as [|?? _ Hx]; subst. rewrite Forall_forall in Hx.
      apply (less_total (less := string_ltb)); [by apply Hx|done].
    + intros [[Hne _] Hnd]. split; [congruence|done].
Qed.

Lemma adjacent_sorted l :
  StronglySorted (not_above string_ltb) l → (adjacent_distinct None l ↔ NoDup l).
Proof.
  destruct l as [|x l]; intros Hs; cbn; [split; [constructor|done]|].
  rewrite (adjacent_sorted_some x l Hs). naive_solver.
Qed.

Lemma reasons_sum_nonneg l : Forall (fun i => 0 ≤ er_Count i ≤ max_uint64)%Z l → (0 ≤ reasons_sum l)%Z.
Proof. induction 1; cbn in *; lia. Qed.

#[local] Arguments Nat.ltb : simpl never.
Lemma exclusion_total_Ok l prev total t :
  Forall (fun i => 0 ≤ er_Count i ≤ max_uint64)%Z l → (0 ≤ total ≤ max_uint64)%Z →
  exclusion_total prev total l = Ok t ↔
    Forall reason_ok l ∧ adjacent_distinct prev (map er_Reason l) ∧
    (total + reasons_sum l ≤ max_uint64)%Z ∧ t = (total + reasons_sum l)%Z.
Proof.
  intros Hl. revert prev total. induction Hl as [|i l Hi Hl IH]; intros prev total Ht; cbn.
  - rewrite Z.add_0_r. split; [intros [= <-]; repeat split; [constructor|lia]|].
    by intros (_ & _ & _ & ->).
  - pose proof (reasons_sum_nonneg l Hl) as Hpos. rewrite !result_guard_Ok.
    rewrite !orb_false_iff, !negb_false_iff, !bool_decide_eq_true, !bool_decide_eq_false.
    rewrite Nat.ltb_ge, Z.eqb_neq, Z.ltb_ge, Forall_cons. unfold reason_ok at 1.
    assert (er_Count i ≤ max_uint64 - total →
      add_uint64 total (er_Count i) = total + er_Count i ∧ 0 ≤ total + er_Count i ≤ max_uint64)%Z as Hadd.
    { intros. unfold add_uint64, max_uint64 in *. rewrite Z.mod_small; lia. }
    split.
    + intros (((((Hb & Htr) & Hlen) & Hc) & Hp) & Hle & H).
      destruct (Hadd Hle) as [E Hr]. rewrite E in H. apply IH in H as (Hf & Ha & Hs & ->); [|done].
      split_and!; try done; lia.
    + intros (((Hb & Htr & Hlen & Hc) & Hf) & (Hp & Ha) & Hle & ->).
      assert (er_Count i ≤ max_uint64 - total)%Z as Hle' by lia.
      destruct (Hadd Hle') as [-> Hr]. split; [by repeat split|]. split; [done|].
      apply IH; [done|]. split_and!; try done; lia.
Qed.

Lemma reasons_sum_perm l k : l ≡ₚ k → reasons_sum l = reasons_sum k.
Proof. induction 1; cbn; lia. Qed.

(** The exclusion summary accepts exactly at most eight distinct, trimmed,
    counted reasons whose true sum, computed without wrap-around, stays within
    the excluded count; it stores them sorted. *)
Theorem WithExclusionReasons_spec r reasons :
  Forall (fun i => 0 ≤ er_Count i ≤ max_uint64)%Z reasons →
  (0 ≤ ExcludedCount (sr_Qualification r) ≤ max_uint64)%Z →
  is_ok (WithExclusionReasons r reasons) = true ↔
    length reasons ≤ 8 ∧ Forall reason_ok reasons ∧ NoDup (map er_Reason reasons) ∧
    (reasons_sum reasons ≤ ExcludedCount (sr_Qualification r))%Z.
Proof.
  intros Hl He. unfold WithExclusionReasons.
  set (out := sort_by (less_on er_Reason string_ltb) reasons).
  assert (out ≡ₚ reasons) as Hp by apply sort_by_perm.
  assert (NoDup (map er_Reason reasons) ↔ adjacent_distinct None (map er_Reason out)) as ->.
  { rewrite adjacent_sorted by (apply sorted_by_key, sort_by_sorted, _).
    change (map er_Reason ?l) with (er_Reason <$> l). by rewrite Hp. }
  rewrite <- (reasons_sum_perm _ _ Hp), <- Hp at 1. rewrite <- Hp in Hl.
  pose proof (reasons_sum_nonneg _ Hl) as Hpos.
  assert (Forall reason_ok reasons ↔ Forall reason_ok out) as -> by by rewrite Hp.
  rewrite (Permutation_length Hp). clearbody out. clear Hp.
  destruct (exclusion_total None 0 out) as [t|e] eqn:E.
  - apply exclusion_total_Ok in E as (Hf & Ha & Hs & ->); [|done|unfold max_uint64; lia].
    destruct (8 <? length reasons) eqn:E8; cbn.
    + apply Nat.ltb_lt in E8. split; [done|lia].
    + apply Nat.ltb_ge in E8. rewrite Z.add_0_l.
      destruct (Z.ltb_spec (ExcludedCount (sr_Qualification r)) (reasons_sum out)); cbn;
        [split; [done|lia]|tauto].
  - split; [by case_match|]. intros (H8 & Hf & Ha & Hs).
    assert (exclusion_total None 0 out = Ok (0 + reasons_sum out)%Z) as Hok.
    { apply exclusion_total_Ok; [done|unfold max_uint64; lia|]. split_and!; try done; lia. }
    congruence.
Qed.

Definition ex_result (excluded : Z) : SourceResult :=
  mkSourceResult (mkEvidenceSource "exec" "ig" "1")
    (mkSourceQualification true true true AttributionCompleted 3 excluded) EvidenceUnknown [] no_facts [].

Lemma WithExclusionReasons_spec_witness :
  is_ok (WithExclusionReasons (ex_result 5)
    [mkExclusionReasonCount "late" 3; mkExclusionReasonCount "foreign" 2]) = true.
Proof.
  apply WithExclusionReasons_spec.
  - repeat constructor; vm_compute; discriminate.
  - vm_compute. split; discriminate.
  - split; [cbn; lia|]. split; [|split].
    + repeat constructor; vm_compute; discriminate.
    + apply (bool_decide_eq_true _). vm_compute. reflexivity.
    + vm_compute. discriminate.
Defined.

(** ** Validated results are fixed points *)
Lemma NewSourceResult_again source q refs facts v :
  NewSourceResult source q refs facts = Ok v →
  sr_Source v = source ∧ sr_Qualification v = q ∧ sr_References v = refs ∧ sr_ExclusionReasons v = [] ∧
  NewSourceResult source q refs [sr_Facts v] = Ok v.
Proof.
  intros H. unfold NewSourceResult in H. inv_ok. split_and!; try reflexivity.
  unfold NewSourceResult. rewrite Heqb, Heqb0, Heqb1. destruct x. clear Heqb2.
  cbn beta iota delta [sr_Facts length Nat.ltb Nat.leb].
  match type of H0 with context [ValidateForSource ?n] => set (f := n) in * end. clearbody f.
  rewrite (proj2 (ValidateForSource_sortFacts f (es_Name source)) H0), sortFacts_idemp.
  cbn [mbind result_bind]. by rewrite Heqb3.
Qed.

Lemma WithExclusionReasons_again v reasons v' :
  WithExclusionReasons v reasons = Ok v' → sr_ExclusionReasons v = [] →
  WithExclusionReasons v (sr_ExclusionReasons v') = Ok v' ∧
  sr_Source v' = sr_Source v ∧ sr_Qualification v' = sr_Qualification v ∧
  sr_References v' = sr_References v ∧ sr_Facts v' = sr_Facts v ∧ sr_Evidence v' = sr_Evidence v.
Proof.
  unfold WithExclusionReasons. intros H _. inv_ok. cbn. rewrite length_sort_by, Heqb.
  rewrite (sort_by_idemp (less_on er_Reason string_ltb)), H0. cbn. by rewrite Heqb0.
Qed.

(** One pass of the loop, for an element that passed it. *)
Definition validated (v : SourceResult) : Prop :=
  ∃ w, NewSourceResult (sr_Source v) (sr_Qualification v) (sr_References v) [sr_Facts v] = Ok w ∧
    WithExclusionReasons w (sr_ExclusionReasons v) = Ok v ∧ sr_Evidence v = sr_Evidence w.

Lemma validate_sources_cons seen s l k :
  validate_sources seen (s :: l) = Ok k →
  ∃ v k', k = v :: k' ∧ validated v ∧ sr_Source v = sr_Source s ∧
    es_Name (sr_Source s) ∉ seen ∧ validate_sources (es_Name (sr_Source s) :: seen) l = Ok k'.
Proof.
  cbn. intros (w & Hw & H)%result_bind_Ok. apply result_bind_Ok in H as (v & Hv & H).
  inv_ok. exists v, x. bool_simpl.
  apply NewSourceResult_again in Hw as (E1 & E2 & E3 & E4 & Hw).
  destruct (WithExclusionReasons_again _ _ _ Hv E4) as (Hv' & F1 & F2 & F3 & F4 & F5).
  split_and!; try done; [|congruence]. exists w. by rewrite F1, F2, F3, F4, E1, E2, E3.
Qed.

Lemma validate_sources_validated seen l k :
  validate_sources seen l = Ok k →
  Forall validated k ∧ NoDup (map (fun v => es_Name (sr_Source v)) k) ∧
  Forall (fun v => es_Name (sr_Source v) ∉ seen) k.
Proof.
  revert seen k. induction l as [|s l IH]; intros seen k.
  - intros [= <-]. split_and!; constructor.
  - intros (v & k' & -> & Hv & Es & Hs & H)%validate_sources_cons.
    destruct (IH _ _ H) as (Hk & Hd & Hf). rewrite Forall_forall in Hf. cbn. rewrite Es. split_and!.
    + by constructor.
    + constructor; [|done]. intros (y & Hy & Hin)%list_elem_of_fmap. apply (Hf y Hin). rewrite Hy. left.
    + constructor; [by rewrite Es|]. apply Forall_forall. intros y Hy Hin. apply (Hf y Hy). by right.
Qed.

Lemma validate_sources_again seen l :
  Forall validated l → NoDup (map (fun v => es_Name (sr_Source v)) l) →
  Forall (fun v => es_Name (sr_Source v) ∉ seen) l →
  validate_sources seen l = Ok l.
Proof.
  intros Hv. revert seen. induction Hv as [|v l (w & Hw & He & Ee) Hv IH]; intros seen Hd Hs; [done|].
  cbn in Hd. inversion Hd as [|?? Hin Hd']; subst. inversion Hs as [|?? Hsv Hs']; subst.
  cbn. rewrite Hw. cbn. rewrite He. cbn.
  rewrite (bool_decide_eq_true_2 (sr_Evidence v = sr_Evidence v)), andb_false_r by done.
  rewrite bool_decide_eq_false_2 by done. rewrite IH; [done|done|].
  rewrite Forall_forall in Hs' |- *. intros y Hy. rewrite not_elem_of_cons. split; [|by apply Hs'].
  intros E. apply Hin. rewrite <- E. by apply (list_elem_of_fmap_2 (fun v => es_Name (sr_Source v))).
Qed.

(** What NewObservationResult accepts it stores in a form it accepts again
    and stores unchanged: results survive a load, validate and store cycle. *)
Theorem NewObservationResult_stable l r :
  NewObservationResult l = Ok r → NewObservationResult (sources r) = Ok r.
Proof.
  unfold NewObservationResult. intros (k & Hk & [= <-])%result_bind_Ok. cbn.
  apply validate_sources_validated in Hk as (Hv & Hd & _).
  assert (sort_sources k ≡ₚ k) as Hp by apply sort_by_perm.
  rewrite validate_sources_again; cbn.
  - unfold sort_sources. by rewrite (sort_by_idemp (less_on _ string_ltb)).
  - by rewrite Hp.
  - change (map ?f ?l) with (f <$> l). by rewrite Hp.
  - apply Forall_forall. intros y _. apply not_elem_of_nil.
Qed.

Lemma NewObservationResult_stable_witness :
  let s name := mkSourceResult (mkEvidenceSource name "ig" "1")
    (mkSourceQualification true true true AttributionCompleted 3 0) "" [] no_facts [] in
  ∃ r, NewObservationResult [s "network"; s "exec"] = Ok r ∧
    map (fun x => es_Name (sr_Source x)) (sources r) = ["exec"; "network"] ∧
    NewObservationResult (sources r) = Ok r.
Proof.
  intros s. eexists. split; [vm_compute; reflexivity|]. split; [reflexivity|].
  apply (NewObservationResult_stable [s "network"; s "exec"]). vm_compute. reflexivity.
Defined.

(** Recording keys a result by name, backend and version, validating keys it by
    name: two backend versions of one source can be recorded, and the recorded
    result is then not one that validates. *)
Example recorded_result_not_validated :
  let s ver := mkSourceResult (mkEvidenceSource "exec" "ig" ver)
    (mkSourceQualification true true true AttributionCompleted 3 0) "" [] no_facts [] in
  match run_ops ex_new [OpSourceResult (s "1"); OpSourceResult (s "2")] with
  | Ok o => length (sources (o_result o)) = 2 ∧
      NewObservationResult (sources (o_result o)) = Err (errDomain "duplicate evidence source")
  | Err _ => False
  end.
Proof. vm_compute. split; reflexivity. Qed.
