(* ===== verification/Digest.v ===== *)
(** * Digests and canonical encodings

    SHA-256 over byte lists (crypto/sha256, FIPS 180-4), the textual digest form
    [sha256:<hex>] of internal/proposal/digest.go, and the length-prefixed
    encoding that internal/proposal/canonical_encoding.go and the digests of
    candidates and review contexts are written in. *)
From S2P Require Import Prelude GoStd Identity.

(** ** SHA-256 *)
Definition w32 (z : Z) : Z := (z mod 4294967296)%Z.
Definition rotr (n x : Z) : Z := Z.lor (Z.shiftr x n) (w32 (Z.shiftl x (32 - n))).
Definition add32 (x y : Z) : Z := w32 (x + y).

Definition sha_init : list Z :=
  [1779033703; 3144134277; 1013904242; 2773480762; 1359893119; 2600822924; 528734635; 1541459225]%Z.
Definition sha_rounds : list Z :=
  [1116352408; 1899447441; 3049323471; 3921009573; 961987163; 1508970993; 2453635748; 2870763221;
   3624381080; 310598401; 607225278; 1426881987; 1925078388; 2162078206; 2614888103; 3248222580;
   3835390401; 4022224774; 264347078; 604807628; 770255983; 1249150122; 1555081692; 1996064986;
   2554220882; 2821834349; 2952996808; 3210313671; 3336571891; 3584528711; 113926993; 338241895;
   666307205; 773529912; 1294757372; 1396182291; 1695183700; 1986661051; 2177026350; 2456956037;
   2730485921; 2820302411; 3259730800; 3345764771; 3516065817; 3600352804; 4094571909; 275423344;
   430227734; 506948616; 659060556; 883997877; 958139571; 1322822218; 1537002063; 1747873779;
   1955562222; 2024104815; 2227730452; 2361852424; 2428436474; 2756734187; 3204031479; 3329325298]%Z.

(** Big-endian bytes of a word. *)
Fixpoint be_bytes (n : nat) (z : Z) : list Z :=
  match n with 0 => [] | S k => (Z.shiftr z (8 * Z.of_nat k) mod 256)%Z :: be_bytes k z end.
Definition be_word (l : list Z) : Z := foldl (fun acc b => acc * 256 + b)%Z 0%Z l.

Definition sha_pad (msg : list Z) : list Z :=
  let len := Z.of_nat (length msg) in
  msg ++ [128%Z] ++ replicate (Z.to_nat ((55 - len) mod 64)) 0%Z ++ be_bytes 8 (8 * len)%Z.

Fixpoint words (fuel : nat) (l : list Z) : list Z :=
  match fuel, l with
  | S k, a :: b :: c :: d :: l => be_word [a; b; c; d] :: words k l
  | _, _ => []
  end.

Definition sigma (a b c x : Z) : Z := Z.lxor (Z.lxor (rotr a x) (rotr b x)) (Z.shiftr x c).
Definition Sigma (a b c x : Z) : Z := Z.lxor (Z.lxor (rotr a x) (rotr b x)) (rotr c x).

(** The message schedule, newest word first. *)
Fixpoint schedule (n : nat) (w : list Z) : list Z :=
  match n with
  | 0 => w
  | S k =>
      let at_ i := nth i w 0%Z in
      let s1 := sigma 17 19 10 (at_ 1) in
      let s0 := sigma 7 18 3 (at_ 14) in
      schedule k (w32 (Z.add (Z.add s1 (at_ 6)) (Z.add s0 (at_ 15))) :: w)
  end.

Definition sha_round (s : list Z) (kw : Z * Z) : list Z :=
  match s with
  | [a; b; c; d; e; f; g; h] =>
      let ch := Z.lxor (Z.land e f) (Z.land (Z.lxor e 4294967295) g) in
      let maj := Z.lxor (Z.lxor (Z.land a b) (Z.land a c)) (Z.land b c) in
      let t1 := (h + Sigma 6 11 25 e + ch + kw.1 + kw.2)%Z in
      let t2 := (Sigma 2 13 22 a + maj)%Z in
      [w32 (t1 + t2); a; b; c; add32 d t1; e; f; g]
  | _ => s
  end.

Definition sha_block (h block : list Z) : list Z :=
  let w := rev (schedule 48 (rev (words 16 block))) in
  zip_with add32 h (foldl sha_round h (zip sha_rounds w)).

Fixpoint sha_blocks (fuel : nat) (h msg : list Z) : list Z :=
  match fuel with
  | 0 => h
  | S k => if length msg =? 0 then h else sha_blocks k (sha_block h (take 64 msg)) (drop 64 msg)
  end.

(** [sha256.Sum256]; a block is at least one byte, so the padded length is
    enough fuel. *)
Definition sha256 (msg : list Z) : list Z :=
  let p := sha_pad msg in
  foldr (fun w acc => be_bytes 4 w ++ acc) [] (sha_blocks (length p) sha_init p).

Example sha256_empty : hex_encode (sha256 []) =
  "e3b0c44298fc1c149afbf4c8996fb92427ae41e4649b934ca495991b7852b855".
Proof. vm_compute. reflexivity. Qed.
Example sha256_abc : hex_encode (sha256 (string_bytes "abc")) =
  "ba7816bf8f01cfea414140de5dae2223b00361a396177a9cb410ff61f20015ad".
Proof. vm_compute. reflexivity. Qed.
Example sha256_two_blocks :
  hex_encode (sha256 (string_bytes "abcdbcdecdefdefgefghfghighijhijkijkljklmklmnlmnomnopnopq")) =
  "248d6a61d20638b8e5c026930c3e6039a33ce45964ff2167f6ecedd419db06c1".
Proof. vm_compute. reflexivity. Qed.

(** The textual digest of a byte string. *)
Definition sha256_digest (msg : string) : string := "sha256:" +:+ hex_encode (sha256 (string_bytes msg)).

(** ** Shape of a digest *)
Definition is_byte (z : Z) : Prop := (0 <= z < 256)%Z.

Lemma be_bytes_length n z : length (be_bytes n z) = n.
Proof. induction n as [|n IH]; cbn; [done|]. by rewrite IH. Qed.

Lemma be_bytes_range n z : Forall is_byte (be_bytes n z).
Proof. induction n as [|n IH]; cbn; constructor; [|done]. unfold is_byte. by apply Z.mod_pos_bound. Qed.

Lemma sha_round_length s kw : length s = 8 → length (sha_round s kw) = 8.
Proof. intros H. unfold sha_round. by repeat (destruct s as [|? s]; try done). Qed.

Lemma sha_block_length h block : length h = 8 → length (sha_block h block) = 8.
Proof.
  intros H. unfold sha_block. set (l := zip _ _). clearbody l.
  assert (length (foldl sha_round h l) = 8) as Hf.
  { revert h H. induction l as [|x l IH]; intros h H; cbn; [done|]. by apply IH, sha_round_length. }
  rewrite length_zip_with, H, Hf. done.
Qed.

Lemma sha_blocks_length fuel h msg : length h = 8 → length (sha_blocks fuel h msg) = 8.
Proof.
  revert h msg. induction fuel as [|k IH]; intros h msg H; cbn; [done|].
  destruct (length msg =? 0); [done|]. by apply IH, sha_block_length.
Qed.

Lemma word_bytes l :
  length (foldr (fun w acc => be_bytes 4 w ++ acc) [] l) = 4 * length l ∧
  Forall is_byte (foldr (fun w acc => be_bytes 4 w ++ acc) [] l).
Proof.
  induction l as [|w l [IH1 IH2]]; [by split; constructor|]. cbn [foldr length]. split.
  - rewrite length_app, be_bytes_length, IH1. lia.
  - apply Forall_app. split; [apply be_bytes_range|done].
Qed.

Lemma sha256_length m : length (sha256 m) = 32.
Proof. unfold sha256. rewrite (proj1 (word_bytes _)), sha_blocks_length; done. Qed.

Lemma sha256_range m : Forall is_byte (sha256 m).
Proof. apply word_bytes. Qed.

(** ** Hexadecimal and textual digests *)
Lemma nibble_cases (P : Z → Prop) d :
  (0 <= d < 16)%Z → Forall P [0;1;2;3;4;5;6;7;8;9;10;11;12;13;14;15]%Z → P d.
Proof.
  intros Hd H. rewrite Forall_forall in H. apply H.
  assert (d = 0 ∨ d = 1 ∨ d = 2 ∨ d = 3 ∨ d = 4 ∨ d = 5 ∨ d = 6 ∨ d = 7 ∨ d = 8 ∨ d = 9 ∨
    d = 10 ∨ d = 11 ∨ d = 12 ∨ d = 13 ∨ d = 14 ∨ d = 15)%Z as Hc by lia.
  repeat (destruct Hc as [->|Hc]; [repeat (try apply list_elem_of_here; apply list_elem_of_further)|]).
  subst. repeat (try apply list_elem_of_here; apply list_elem_of_further).
Qed.

Definition hex_val (a : ascii) : Z :=
  let n := Z.of_nat (nat_of_ascii a) in if (n <? 97)%Z then (n - 48)%Z else (n - 87)%Z.

Lemma hex_val_digit d : (0 <= d < 16)%Z → hex_val (hex_digit d) = d.
Proof. intros Hd. apply (nibble_cases (fun d => hex_val (hex_digit d) = d) d Hd). repeat constructor. Qed.

Lemma hex_digit_is_hex d : (0 <= d < 16)%Z → is_hex false (hex_digit d) = true.
Proof. intros Hd. apply (nibble_cases (fun d => is_hex false (hex_digit d) = true) d Hd). repeat constructor. Qed.

Lemma nibbles b : is_byte b → (0 <= b / 16 < 16 ∧ 0 <= b mod 16 < 16)%Z.
Proof. unfold is_byte. intros. split; [split; [apply Z.div_pos|apply Z.div_lt_upper_bound]|apply Z.mod_pos_bound]; lia. Qed.

Lemma hex_encode_inj l k :
  Forall is_byte l → Forall is_byte k → hex_encode l = hex_encode k → l = k.
Proof.
  intros Hl. revert k. induction Hl as [|b l Hb Hl IH]; intros k Hk; destruct Hk as [|c k Hc Hk];
    cbn; try done. intros [= E1 E2 E3]. apply IH in E3 as ->; [|done]. f_equal.
  destruct (nibbles b Hb), (nibbles c Hc).
  apply (f_equal hex_val) in E1, E2. rewrite !hex_val_digit in E1, E2 by done.
  rewrite (Z.div_mod b 16), (Z.div_mod c 16) by lia. by rewrite E1, E2.
Qed.

Lemma hex_encode_length l : String.length (hex_encode l) = 2 * length l.
Proof. induction l as [|b l IH]; cbn; [done|]. rewrite IH. lia. Qed.

Lemma hex_encode_hex l : Forall is_byte l → all_bytes (is_hex false) (hex_encode l) = true.
Proof.
  induction 1 as [|b l Hb Hl IH]; cbn; [done|]. destruct (nibbles b Hb).
  by rewrite !hex_digit_is_hex, IH.
Qed.

Lemma byte_of_inj a b : byte_of a = byte_of b → a = b.
Proof.
  unfold byte_of. intros H. apply Nat2Z.inj in H.
  by rewrite <- (ascii_nat_embedding a), H, ascii_nat_embedding.
Qed.

Lemma string_bytes_inj s t : string_bytes s = string_bytes t → s = t.
Proof.
  revert t. induction s as [|a s IH]; intros [|b t]; cbn; try done.
  intros [= E1 E2]. apply byte_of_inj in E1 as ->. by rewrite (IH t E2).
Qed.

Lemma drop_prefix_app p s : drop_prefix p (p +:+ s) = Some s.
Proof. induction p as [|a p IH]; [done|]. str_simpl. cbn. by rewrite bool_decide_eq_true_2. Qed.

(** A computed digest has the canonical form. *)
Lemma sha256_digest_shape m : sha256_hex false (sha256_digest m) = true.
Proof.
  unfold sha256_hex, sha256_digest. rewrite drop_prefix_app, hex_encode_length, sha256_length.
  by rewrite hex_encode_hex by apply sha256_range.
Qed.

(** Two byte strings with different SHA-256 inputs and the same output. *)
Definition collision (m m' : string) : Prop :=
  m ≠ m' ∧ sha256 (string_bytes m) = sha256 (string_bytes m').

(** Equal digests come from equal messages or exhibit a collision. *)
Lemma sha256_digest_inj m m' : sha256_digest m = sha256_digest m' → m = m' ∨ collision m m'.
Proof.
  unfold sha256_digest. intros H. apply str_app_inj_l, hex_encode_inj in H; try apply sha256_range.
  destruct (decide (m = m')); [by left|by right].
Qed.

(** ** Length-prefixed encodings *)
Definition checkedUint32Length (n : Z) : result Z :=
  fail_if (n <? 0)%Z || (4294967295 <? n)%Z with mkError "" "canonical field length exceeds uint32";
  Ok n.

Definition be32 (n : Z) : string := foldr String "" (map ascii_of_Z (be_bytes 4 n)).

Definition put_count (n : nat) : result string :=
  len ← checkedUint32Length (Z.of_nat n); Ok (be32 len).

Definition put_string (value : string) : result string :=
  len ← put_count (String.length value); Ok (len +:+ value).

(** Writes of consecutive values. *)
Fixpoint put_all {A} (put : A → result string) (l : list A) : result string :=
  match l with
  | [] => Ok ""
  | x :: l => a ← put x; b ← put_all put l; Ok (a +:+ b)
  end.

Definition put_list {A} (put : A → result string) (l : list A) : result string :=
  n ← put_count (length l); b ← put_all put l; Ok (n +:+ b).

(** A prefix code: from a stream that starts with an encoding, the value and
    the rest of the stream can be recovered. *)
Definition prefix_code {A} (put : A → result string) : Prop :=
  ∀ x y p q t u, put x = Ok p → put y = Ok q → p +:+ t = q +:+ u → x = y ∧ t = u.

Lemma be_bytes_inj k z z' :
  be_bytes k z = be_bytes k z' → (z mod 256 ^ Z.of_nat k = z' mod 256 ^ Z.of_nat k)%Z.
Proof.
  induction k as [|k IH]; cbn [be_bytes]; [by rewrite !Z.mod_1_r|].
  intros [= E1 E2]. apply IH in E2.
  rewrite Nat2Z.inj_succ, Z.pow_succ_r, Z.mul_comm by lia.
  rewrite !Z.rem_mul_r by lia. rewrite !Z.shiftr_div_pow2, Z.pow_mul_r in E1 by lia.
  change (2 ^ 8)%Z with 256%Z in E1. lia.
Qed.

Lemma byte_of_ascii b : is_byte b → byte_of (ascii_of_Z b) = b.
Proof. unfold is_byte, byte_of, ascii_of_Z. intros. rewrite nat_ascii_embedding; lia. Qed.

Lemma ascii_of_Z_inj l k :
  Forall is_byte l → Forall is_byte k → map ascii_of_Z l = map ascii_of_Z k → l = k.
Proof.
  intros Hl. revert k. induction Hl as [|b l Hb Hl IH]; intros k Hk; destruct Hk as [|c k Hc Hk];
    cbn; try done. intros [= E1 E2]. apply (f_equal byte_of) in E1.
  rewrite !byte_of_ascii in E1 by done. by rewrite E1, (IH k Hk E2).
Qed.

Lemma string_of_list_inj l k : foldr String "" l = foldr String "" k → l = k.
Proof. revert k. induction l as [|a l IH]; intros [|b k]; cbn; try done. intros [= -> E]. by rewrite (IH k E). Qed.

Lemma be32_length n : String.length (be32 n) = 4.
Proof. done. Qed.

Lemma be32_inj n m : (0 <= n < 4294967296)%Z → (0 <= m < 4294967296)%Z → be32 n = be32 m → n = m.
Proof.
  unfold be32. intros Hn Hm E%string_of_list_inj%ascii_of_Z_inj; try apply be_bytes_range.
  apply be_bytes_inj in E. change (256 ^ Z.of_nat 4)%Z with 4294967296%Z in E.
  by rewrite !Z.mod_small in E.
Qed.

Lemma put_count_Ok n p : put_count n = Ok p → p = be32 (Z.of_nat n) ∧ (Z.of_nat n < 4294967296)%Z.
Proof.
  unfold put_count, checkedUint32Length. intros H. inv_ok. bool_simpl.
  repeat match goal with H : (_ <? _)%Z = false |- _ => apply Z.ltb_ge in H end. split; [done|lia].
Qed.

Lemma prefix_code_count : prefix_code put_count.
Proof.
  intros x y p q t u [-> Hx]%put_count_Ok [-> Hy]%put_count_Ok E.
  apply str_app_inj_len in E as [E ->]; [|done]. apply be32_inj in E; [|lia..]. split; [lia|done].
Qed.

Lemma prefix_code_string : prefix_code put_string.
Proof.
  intros x y p q t u Hx Hy E. unfold put_string in Hx, Hy.
  apply result_bind_Ok in Hx as (cx & Hcx & [= <-]). apply result_bind_Ok in Hy as (cy & Hcy & [= <-]).
  rewrite !str_app_assoc in E. destruct (prefix_code_count _ _ _ _ _ _ Hcx Hcy E) as [El Er].
  by apply str_app_inj_len in Er.
Qed.

Lemma prefix_code_all {A} (put : A → result string) l k p q t u :
  prefix_code put → put_all put l = Ok p → put_all put k = Ok q → length l = length k →
  p +:+ t = q +:+ u → l = k ∧ t = u.
Proof.
  intros Hput Hl Hk Hlen. revert k p q Hlen Hl Hk.
  induction l as [|x l IH]; intros [|y k] p q Hlen; try done.
  - cbn. intros [= <-] [= <-] E. by rewrite !str_app_nil_l in E.
  - cbn. intros (a & Ha & (b & Hb & [= <-])%result_bind_Ok)%result_bind_Ok.
    intros (c & Hc & (d & Hd & [= <-])%result_bind_Ok)%result_bind_Ok E.
    rewrite !str_app_assoc in E. destruct (Hput _ _ _ _ _ _ Ha Hc E) as [-> E'].
    injection Hlen as Hlen. by destruct (IH k b d Hlen Hb Hd E') as [-> ->].
Qed.

Lemma prefix_code_list {A} (put : A → result string) : prefix_code put → prefix_code (put_list put).
Proof.
  intros Hput x y p q t u Hx Hy E. unfold put_list in Hx, Hy.
  apply result_bind_Ok in Hx as (cx & Hcx & (bx & Hbx & [= <-])%result_bind_Ok).
  apply result_bind_Ok in Hy as (cy & Hcy & (by_ & Hby & [= <-])%result_bind_Ok).
  rewrite !str_app_assoc in E. destruct (prefix_code_count _ _ _ _ _ _ Hcx Hcy E) as [El Er].
  by apply (prefix_code_all put x y bx by_).
Qed.

(** Consecutive encodings. *)
Definition put_pair {A B} (f : A → result string) (g : B → result string) (x : A * B) : result string :=
  a ← f x.1; b ← g x.2; Ok (a +:+ b).

Lemma prefix_code_pair {A B} (f : A → result string) (g : B → result string) :
  prefix_code f → prefix_code g → prefix_code (put_pair f g).
Proof.
  intros Hf Hg [x1 x2] [y1 y2] p q t u Hx Hy E. unfold put_pair in Hx, Hy. cbn in Hx, Hy.
  apply result_bind_Ok in Hx as (a & Ha & (b & Hb & [= <-])%result_bind_Ok).
  apply result_bind_Ok in Hy as (c & Hc & (d & Hd & [= <-])%result_bind_Ok).
  rewrite !str_app_assoc in E. destruct (Hf _ _ _ _ _ _ Ha Hc E) as [-> E'].
  by destruct (Hg _ _ _ _ _ _ Hb Hd E') as [-> ->].
Qed.

#[export] Hint Resolve prefix_code_string prefix_code_count prefix_code_list prefix_code_pair : genprof.

(** A prefix code is injective. *)
Lemma prefix_code_inj {A} (put : A → result string) x y p :
  prefix_code put → put x = Ok p → put y = Ok p → x = y.
Proof. intros Hput Hx Hy. by destruct (Hput x y p p "" "" Hx Hy eq_refl). Qed.
