(* ===== verification/Json.v ===== *)
(** * encoding/json strings

    The string encoder of Go's encoding/json (HTML escaping on, as
    [json.Marshal] runs it) over UTF-8 byte strings, the RFC 3339 parser the
    custody checks call, and the injectivity of the encoding on well-formed
    UTF-8, the only text a Kubernetes object carries. *)
From S2P Require Import Prelude GoStd Digest.

(** ** UTF-8 *)
Definition byte_in (lo hi : nat) (a : ascii) : bool :=
  let n := nat_of_ascii a in (lo <=? n) && (n <=? hi).
Definition cont (a : ascii) : bool := byte_in 128 191 a.
Definition ascii7 (a : ascii) : bool := byte_in 0 127 a.

(** Leading byte and second byte of a two, three and four byte sequence. *)
Definition lead2 (a b : ascii) : bool := byte_in 194 223 a && cont b.
Definition lead3 (a b c : ascii) : bool :=
  ((byte_in 224 224 a && byte_in 160 191 b) || (byte_in 225 236 a && cont b) ||
   (byte_in 237 237 a && byte_in 128 159 b) || (byte_in 238 239 a && cont b)) && cont c.
Definition lead4 (a b c d : ascii) : bool :=
  ((byte_in 240 240 a && byte_in 144 191 b) || (byte_in 241 243 a && cont b) ||
   (byte_in 244 244 a && byte_in 128 143 b)) && cont c && cont d.

(** U+2028 and U+2029. *)
Definition line_separator (a b c : ascii) : bool :=
  byte_in 226 226 a && byte_in 128 128 b && byte_in 168 169 c.

(** ** The encoder *)
Definition quote : ascii := ascii_of_nat 34.
Definition backslash : ascii := ascii_of_nat 92.
Definition esc (s : string) : string := String backslash s.

Section encoder.
(** Whether HTML characters are escaped: [json.Marshal] does, an encoder with
    [SetEscapeHTML(false)] does not. *)
Variable html : bool.

Definition json_ascii_of (a : ascii) : string :=
  let n := nat_of_ascii a in
  if (n =? 34) || (n =? 92) then esc (String a "")
  else if n =? 8 then esc "b" else if n =? 12 then esc "f" else if n =? 10 then esc "n"
  else if n =? 13 then esc "r" else if n =? 9 then esc "t"
  else if (n <? 32) || (html && ((n =? 60) || (n =? 62) || (n =? 38))) then
    esc ("u00" +:+ String (hex_digit (byte_of a / 16)) (String (hex_digit (byte_of a mod 16)) ""))
  else String a "".

(** [appendString]: an ASCII byte, a valid rune, or the replacement escape for
    one invalid byte, at a time. *)
Fixpoint json_body_of (s : string) : string :=
  match s with
  | EmptyString => ""
  | String a s1 =>
      if ascii7 a then json_ascii_of a +:+ json_body_of s1 else
      match s1 with
      | String b s2 =>
          if lead2 a b then String a (String b (json_body_of s2)) else
          match s2 with
          | String c s3 =>
              if lead3 a b c then
                if line_separator a b c
                then esc ("u202" +:+ String (hex_digit (byte_of c mod 16)) (json_body_of s3))
                else String a (String b (String c (json_body_of s3)))
              else match s3 with
                   | String d s4 =>
                       if lead4 a b c d then String a (String b (String c (String d (json_body_of s4))))
                       else esc "ufffd" +:+ json_body_of s1
                   | EmptyString => esc "ufffd" +:+ json_body_of s1
                   end
          | EmptyString => esc "ufffd" +:+ json_body_of s1
          end
      | EmptyString => esc "ufffd" +:+ json_body_of s1
      end
  end.

Definition json_string_of (s : string) : string := String quote (json_body_of s +:+ String quote "").
End encoder.
Abbreviation json_ascii := (json_ascii_of true).
Abbreviation json_body := (json_body_of true).
Abbreviation json_string := (json_string_of true).

Fixpoint valid_utf8 (s : string) : bool :=
  match s with
  | EmptyString => true
  | String a s1 =>
      if ascii7 a then valid_utf8 s1 else
      match s1 with
      | String b s2 =>
          if lead2 a b then valid_utf8 s2 else
          match s2 with
          | String c s3 =>
              if lead3 a b c then valid_utf8 s3
              else match s3 with
                   | String d s4 => if lead4 a b c d then valid_utf8 s4 else false
                   | EmptyString => false
                   end
          | EmptyString => false
          end
      | EmptyString => false
      end
  end.

(** An object of string fields, in declaration order. *)
Definition json_field (f : string * string) : string := json_string f.1 +:+ ":" +:+ json_string f.2.
Definition json_object (fields : list (string * string)) : string :=
  "{" +:+ join "," (map json_field fields) +:+ "}".

Example json_object_ex :
  json_object [("a", "x<y"); ("b", bytes_string [10; 226; 128; 168; 195; 169; 255])] =
  "{" +:+ json_string "a" +:+ ":" +:+ String quote ("x" +:+ esc "u003cy") +:+ String quote ("," +:+
  json_string "b" +:+ ":" +:+ String quote (esc "n" +:+ esc "u2028" +:+ bytes_string [195; 169] +:+ esc "ufffd")
  +:+ String quote "}").
Proof. vm_compute. reflexivity. Qed.

(** ** Decoding *)
Definition unescape (c : ascii) : ascii :=
  if bool_decide (c = "b"%char) then ascii_of_nat 8 else if bool_decide (c = "f"%char) then ascii_of_nat 12
  else if bool_decide (c = "n"%char) then ascii_of_nat 10 else if bool_decide (c = "r"%char) then ascii_of_nat 13
  else if bool_decide (c = "t"%char) then ascii_of_nat 9 else c.

(** One unit of an encoded body: the bytes it stands for and the rest. *)
Definition json_unit (s : string) : option (string * string) :=
  match s with
  | EmptyString => None
  | String a r =>
      if bool_decide (a = backslash) then
        match r with
        | String "u" (String h1 (String _ (String h3 (String h4 r)))) =>
            if bool_decide (h1 = "2"%char)
            then Some (bytes_string [226; 128; 160 + Z.to_nat (hex_val h4)], r)
            else Some (String (ascii_of_Z (16 * hex_val h3 + hex_val h4)) "", r)
        | String c r => Some (String (unescape c) "", r)
        | EmptyString => None
        end
      else Some (String a "", r)
  end.

Fixpoint json_decode (fuel : nat) (s : string) : option (string * string) :=
  match fuel with
  | 0 => None
  | S k =>
      match s with
      | EmptyString => None
      | String a r =>
          if bool_decide (a = quote) then Some ("", r)
          else match json_unit s with
               | Some (x, r) =>
                   match json_decode k r with Some (y, t) => Some (x +:+ y, t) | None => None end
               | None => None
               end
      end
  end.

Section inverse.
Context {html : bool}.

Lemma json_ascii_unit a r :
  ascii7 a = true → json_unit (json_ascii_of html a +:+ r) = Some (String a "", r) ∧
  ∃ b t, json_ascii_of html a +:+ r = String b t ∧ b ≠ quote.
Proof.
  destruct html, a as [[] [] [] [] [] [] [] []]; vm_compute; try discriminate; intros _;
    (split; [reflexivity|eexists _, _; split; [reflexivity|discriminate]]).
Qed.

Lemma json_decode_unit k s x r a t :
  s = String a t → a ≠ quote → json_unit s = Some (x, r) →
  json_decode (S k) s = match json_decode k r with Some (y, t) => Some (x +:+ y, t) | None => None end.
Proof. intros -> Ha Hu. cbn [json_decode]. by rewrite bool_decide_eq_false_2, Hu. Qed.

Lemma json_raw_unit a r :
  ascii7 a = false → json_unit (String a r) = Some (String a "", r) ∧ a ≠ quote.
Proof. destruct a as [[] [] [] [] [] [] [] []]; vm_compute; try discriminate; intros _; by split. Qed.

Lemma json_decode_raw k a r :
  ascii7 a = false → json_decode (S k) (String a r) =
    match json_decode k r with Some (y, t) => Some (String a y, t) | None => None end.
Proof. intros [Hu Hq]%(json_raw_unit a r). by rewrite (json_decode_unit k (String a r) (String a "") r a r). Qed.

Lemma lead2_raw a b : lead2 a b = true → ascii7 b = false.
Proof.
  unfold lead2, cont, ascii7, byte_in. rewrite !andb_true_iff, !Nat.leb_le. intros.
  apply andb_false_iff. right. apply Nat.leb_gt. lia.
Qed.

Lemma lead3_raw a b c : lead3 a b c = true → ascii7 b = false ∧ ascii7 c = false.
Proof.
  unfold lead3, cont, ascii7, byte_in.
  rewrite !andb_true_iff, !orb_true_iff, !andb_true_iff, !Nat.leb_le, !andb_false_iff, !Nat.leb_gt. lia.
Qed.

Lemma lead4_raw a b c d : lead4 a b c d = true → ascii7 b = false ∧ ascii7 c = false ∧ ascii7 d = false.
Proof.
  unfold lead4, cont, ascii7, byte_in.
  rewrite !andb_true_iff, !orb_true_iff, !andb_true_iff, !Nat.leb_le, !andb_false_iff, !Nat.leb_gt. lia.
Qed.

Lemma separator_unit a b c r :
  line_separator a b c = true →
  json_unit (esc ("u202" +:+ String (hex_digit (byte_of c mod 16)) r)) =
    Some (String a (String b (String c "")), r).
Proof.
  unfold line_separator, byte_in. rewrite !andb_true_iff, !Nat.leb_le. intros [[Ha Hb] Hc].
  assert (a = ascii_of_nat 226) as ->.
  { rewrite <- (ascii_nat_embedding a). f_equal. lia. }
  assert (b = ascii_of_nat 128) as ->.
  { rewrite <- (ascii_nat_embedding b). f_equal. lia. }
  assert (c = ascii_of_nat 168 ∨ c = ascii_of_nat 169) as [->| ->].
  { rewrite <- (ascii_nat_embedding c).
    assert (nat_of_ascii c = 168 ∨ nat_of_ascii c = 169) as [-> | ->] by lia; auto. }
  all: reflexivity.
Qed.

(** Decoding an encoded body gives the text back and stops at the quote. *)
Lemma json_decode_body k : ∀ s t,
  String.length s < k → valid_utf8 s = true →
  json_decode k (json_body_of html s +:+ String quote t) = Some (s, t).
Proof.
  induction k as [k IH] using (well_founded_induction lt_wf). intros s t Hk Hv.
  destruct k as [|k]; [lia|]. destruct s as [|a s1].
  { cbn [json_body_of]. rewrite str_app_nil_l. cbn [json_decode]. by rewrite bool_decide_eq_true_2. }
  cbn [String.length] in Hk. cbn [json_body_of valid_utf8] in *.
  destruct (ascii7 a) eqn:Ea.
  { rewrite str_app_assoc. destruct (json_ascii_unit a (json_body_of html s1 +:+ String quote t) Ea) as [Hu (b & u & E & Hb)].
    rewrite (json_decode_unit k _ _ _ b u E Hb Hu), IH by (done || lia). done. }
  destruct s1 as [|b s2]; [done|]. destruct (lead2 a b) eqn:E2.
  { apply lead2_raw in E2. cbn [String.length] in Hk. destruct k as [|k]; [lia|].
    str_simpl. rewrite (json_decode_raw _ a) by done. rewrite (json_decode_raw _ b) by done.
    rewrite IH by (done || lia). done. }
  destruct s2 as [|c s3]; [done|]. cbn [String.length] in Hk. destruct (lead3 a b c) eqn:E3.
  { destruct (line_separator a b c) eqn:El.
    - assert (∀ r, esc ("u202" +:+ String (hex_digit (byte_of c mod 16)) r) +:+ String quote t =
        esc ("u202" +:+ String (hex_digit (byte_of c mod 16)) (r +:+ String quote t))) as -> by done.
      rewrite (json_decode_unit k _ _ _ backslash _ eq_refl ltac:(done) (separator_unit a b c _ El)).
      rewrite IH by (done || lia). done.
    - apply lead3_raw in E3 as [Hb Hc]. destruct k as [|[|k]]; [lia..|].
      str_simpl. rewrite (json_decode_raw _ a), (json_decode_raw _ b), (json_decode_raw _ c) by done.
      rewrite IH by (done || lia). done. }
  destruct s3 as [|d s4]; [done|]. cbn [String.length] in Hk. destruct (lead4 a b c d) eqn:E4; [|done].
  apply lead4_raw in E4 as (Hb & Hc & Hd). destruct k as [|[|[|k]]]; [lia..|].
  str_simpl. rewrite (json_decode_raw _ a), (json_decode_raw _ b), (json_decode_raw _ c), (json_decode_raw _ d) by done.
  rewrite IH by (done || lia). done.
Qed.

Lemma json_string_inj s s' t t' :
  valid_utf8 s = true → valid_utf8 s' = true →
  json_string_of html s +:+ t = json_string_of html s' +:+ t' → s = s' ∧ t = t'.
Proof.
  intros Hs Hs'. unfold json_string_of. str_simpl. intros [= E].
  rewrite !str_app_assoc in E. revert E. str_simpl. intros E.
  set (k := S (String.length s + String.length s')).
  apply (f_equal (json_decode k)) in E.
  rewrite !json_decode_body in E by (done || unfold k; lia). by injection E.
Qed.
End inverse.

(** Objects over the same names are equal only when their values are. *)
Lemma json_object_inj names vs vs' :
  length vs = length names → length vs' = length names →
  Forall (fun s => valid_utf8 s = true) vs → Forall (fun s => valid_utf8 s = true) vs' →
  json_object (zip names vs) = json_object (zip names vs') → vs = vs'.
Proof.
  intros Hl Hl' Hv Hv' E. unfold json_object in E. apply str_app_inj_l in E.
  revert names vs' Hl Hl' Hv' E. induction Hv as [|v vs Hv Hvs IH]; intros [|n names] [|v' vs'] Hl Hl' Hv' E;
    try done; cbn in Hl, Hl'.
  inversion Hv' as [|?? Hv1 Hvs']; subst.
  assert (∀ w ws, join "," (map json_field (zip (n :: names) (w :: ws))) +:+ "}" =
    (json_string n +:+ ":") +:+ json_string w +:+
      match map json_field (zip names ws) with [] => "}" | l => "," +:+ join "," l +:+ "}" end) as Hj.
  { intros w ws. cbn. destruct (map json_field (zip names ws)); cbn; unfold json_field; cbn;
      by rewrite !str_app_assoc. }
  rewrite !Hj in E. apply str_app_inj_l, json_string_inj in E as [-> E]; [|done..]. f_equal.
  destruct names as [|n' names], vs as [|w vs], vs' as [|w' vs']; try done; cbn in Hl, Hl'; try lia.
  apply (IH (n' :: names)); [cbn; lia|cbn; lia|done|]. cbn [zip zip_with map] in E |- *.
  by apply str_app_inj_l in E.
Qed.
