(* ===== verification/SpoBackend.v ===== *)
(** * internal/spobackend: the shape of the SPO API

    Names, node-local paths and ownership of governed seccomp profiles. *)
From S2P Require Import Prelude GoStd Identity Digest.

(** A group, version and kind. *)
Record GVK := mkGVK { gvk_Group : string; gvk_Version : string; gvk_Kind : string }.
#[export] Instance GVK_eq_dec : EqDecision GVK.
Proof. solve_decision. Defined.

Module SpoBackend.

Definition Group : string := "security-profiles-operator.x-k8s.io".
Definition Version : string := "v1".
Definition SeccompProfileKind : string := "SeccompProfile".
Definition SeccompProfileGVK : GVK := mkGVK Group Version SeccompProfileKind.
Definition SeccompProfileClusterScoped : bool := true.

(** ** Node-local paths *)
Definition localhostProfilePrefix : string := "operator/".
Definition localhostProfileSuffix : string := ".json".

Definition LocalhostProfilePath (name : string) : string :=
  localhostProfilePrefix +:+ name +:+ localhostProfileSuffix.

Definition ParseLocalhostProfilePath (path : string) : option string :=
  if negb (has_prefix localhostProfilePrefix path) || negb (has_suffix localhostProfileSuffix path) then None
  else
    let name := trim_suffix localhostProfileSuffix (trim_prefix localhostProfilePrefix path) in
    if bool_decide (name = "") || has_byte "/" name then None else Some name.

(** ** Governed names *)
Definition NameScheme : string := "v1".
Definition namePrefix : string := "lg-" +:+ NameScheme +:+ "-".
Definition nameHashBytes : nat := 8.
Definition namePodSegmentMax : nat := 40.
Definition nameHashDomain : string := "lg-seccomp-name-v1".
Definition nameFallbackSegment : string := "workload".

Definition name_rune (r : ascii) : bool :=
  let n := nat_of_ascii r in ((97 <=? n) && (n <=? 122)) || ((48 <=? n) && (n <=? 57)).

(** The loop of [sanitizeNameSegment]: [started] is [b.Len() > 0].  The bytes of
    a rune outside [a-z0-9] fall in the default case together. *)
Fixpoint sanitize_loop (lastDash started : bool) (s : string) : string :=
  match s with
  | EmptyString => ""
  | String r s =>
      if name_rune r then String r (sanitize_loop false true s)
      else if negb lastDash && started then String "-" (sanitize_loop true started s)
      else sanitize_loop lastDash started s
  end.

Definition sanitizeNameSegment (s : string) : string :=
  let out := trim_byte "-" (sanitize_loop false false (to_lower s)) in
  let out := if namePodSegmentMax <? String.length out
             then trim_byte "-" (String.substring 0 namePodSegmentMax out) else out in
  if bool_decide (out = "") then nameFallbackSegment else out.

(** The hashed bytes; the length guard panics in the source. *)
Definition name_payload (namespace pod container : string) : result string :=
  parts ← put_all put_string [namespace; pod; container];
  Ok (nameHashDomain +:+ String "000" "" +:+ parts).

Definition GovernedProfileName (namespace pod container : string) : result string :=
  payload ← name_payload namespace pod container;
  let digest := hex_encode (take nameHashBytes (sha256 (string_bytes payload))) in
  Ok (namePrefix +:+ sanitizeNameSegment pod +:+ "-" +:+ digest).

(** ** Ownership *)
Definition ManagedByAnnotation : string := "landlockgenprof.io/managed-by".
Definition NameSchemeAnnotation : string := "landlockgenprof.io/name-scheme".
Definition TargetNamespaceAnnotation : string := "landlockgenprof.io/target-namespace".
Definition TargetPodAnnotation : string := "landlockgenprof.io/target-pod".
Definition TargetContainerAnnotation : string := "landlockgenprof.io/target-container".
Definition ManagedByValue : string := "landlock-genprof".

Abbreviation annotations := (gmap string string).
(** Reading an absent key of a Go map yields the empty string. *)
Definition annotation (m : annotations) (key : string) : string := default "" (m !! key).

Definition OwnershipAnnotations (namespace pod container : string) : annotations :=
  list_to_map [(ManagedByAnnotation, ManagedByValue); (NameSchemeAnnotation, NameScheme);
    (TargetNamespaceAnnotation, namespace); (TargetPodAnnotation, pod); (TargetContainerAnnotation, container)].

Inductive OwnershipVerdict := OwnedSameTarget | OwnedDifferentTarget | NotOwned.
#[export] Instance OwnershipVerdict_eq_dec : EqDecision OwnershipVerdict.
Proof. solve_decision. Defined.

Definition ClassifyOwnership (m : annotations) (namespace pod container : string) : OwnershipVerdict :=
  if negb (bool_decide (annotation m ManagedByAnnotation = ManagedByValue)) then NotOwned
  else if negb (bool_decide (annotation m NameSchemeAnnotation = NameScheme)) ||
          negb (bool_decide (annotation m TargetNamespaceAnnotation = namespace)) ||
          negb (bool_decide (annotation m TargetPodAnnotation = pod)) ||
          negb (bool_decide (annotation m TargetContainerAnnotation = container)) then OwnedDifferentTarget
  else OwnedSameTarget.

Example name_ex :
  GovernedProfileName "a-b" "C_d--e/x." "main" =
  Ok ("lg-v1-c-d-e-x-" +:+ hex_encode (take 8 (sha256 (string_bytes (default "" (match name_payload "a-b" "C_d--e/x." "main" with Ok p => Some p | _ => None end)))))).
Proof. vm_compute. reflexivity. Qed.

(** ** Lemmas on the segment *)
Definition label_rune (r : ascii) : bool := name_rune r || bool_decide (r = "-"%char).

Lemma sanitize_loop_runes d b s : all_bytes label_rune (sanitize_loop d b s) = true.
Proof.
  revert d b. induction s as [|a s IH]; intros d b; cbn; [done|].
  destruct (name_rune a) eqn:E; cbn; [unfold label_rune at 1; by rewrite E, IH|].
  destruct (negb d && b); cbn; by rewrite IH.
Qed.

Lemma trim_left_byte_all f c s : all_bytes f s = true → all_bytes f (trim_left_byte c s) = true.
Proof. induction s as [|a s IH]; cbn; [done|]. intros [Ha Hs]%andb_true_iff. case_bool_decide; [by apply IH|]. cbn. by rewrite Ha, Hs. Qed.

Lemma trim_byte_all f c s : all_bytes f s = true → all_bytes f (trim_byte c s) = true.
Proof. intros H. unfold trim_byte. rewrite all_bytes_rev. apply trim_left_byte_all. rewrite all_bytes_rev. by apply trim_left_byte_all. Qed.

Lemma trim_left_byte_length c s : String.length (trim_left_byte c s) ≤ String.length s.
Proof. induction s as [|a s IH]; cbn; [done|]. case_bool_decide; cbn; lia. Qed.

Lemma str_rev_length s : String.length (str_rev s) = String.length s.
Proof. induction s as [|a s IH]; [done|]. rewrite str_rev_cons, str_length_app, IH. cbn. lia. Qed.

Lemma trim_byte_length c s : String.length (trim_byte c s) ≤ String.length s.
Proof.
  unfold trim_byte. rewrite str_rev_length. etrans; [apply trim_left_byte_length|]. rewrite str_rev_length.
  apply trim_left_byte_length.
Qed.

Lemma substring_all f n s : all_bytes f s = true → all_bytes f (String.substring 0 n s) = true.
Proof.
  revert s. induction n as [|n IH]; intros [|a s]; cbn; try done.
  intros [Ha Hs]%andb_true_iff. by rewrite Ha, IH.
Qed.

Lemma substring_length n s : String.length (String.substring 0 n s) ≤ n.
Proof. revert s. induction n as [|n IH]; intros [|a s]; cbn; try lia. specialize (IH s). lia. Qed.

Lemma sanitizeNameSegment_shape s :
  all_bytes label_rune (sanitizeNameSegment s) = true ∧
  1 ≤ String.length (sanitizeNameSegment s) ≤ namePodSegmentMax.
Proof.
  unfold sanitizeNameSegment. set (o1 := trim_byte _ _).
  assert (all_bytes label_rune o1 = true) as H1 by apply trim_byte_all, sanitize_loop_runes.
  set (o2 := if _ <? _ then _ else _).
  assert (all_bytes label_rune o2 = true ∧ String.length o2 ≤ namePodSegmentMax) as [H2 H3].
  { unfold o2. destruct (Nat.ltb_spec namePodSegmentMax (String.length o1)); [|done]. split.
    - by apply trim_byte_all, substring_all.
    - etrans; [apply trim_byte_length|apply substring_length]. }
  case_bool_decide as E; [split; [done|cbn; unfold namePodSegmentMax; lia]|]. split; [done|]. split; [|done].
  destruct o2; [done|cbn; lia].
Qed.

Lemma label_rune_hex : ∀ r, is_hex false r = true → label_rune r = true.
Proof.
  intros r. unfold is_hex, label_rune, name_rune. destruct r as [[] [] [] [] [] [] [] []]; vm_compute; done.
Qed.

Lemma digest_hex m : all_bytes (is_hex false) (hex_encode (take nameHashBytes (sha256 m))) = true.
Proof. apply hex_encode_hex, Forall_take, sha256_range. Qed.

Lemma digest_length m : String.length (hex_encode (take nameHashBytes (sha256 m))) = 16.
Proof. by rewrite hex_encode_length, length_take, sha256_length. Qed.

Lemma name_shape ns pod c n :
  GovernedProfileName ns pod c = Ok n →
  ∃ m, name_payload ns pod c = Ok m ∧
    n = namePrefix +:+ sanitizeNameSegment pod +:+ "-" +:+ hex_encode (take nameHashBytes (sha256 (string_bytes m))).
Proof. unfold GovernedProfileName. intros H. apply result_bind_Ok in H as (m & Hm & [= <-]). by exists m. Qed.

Lemma trim_suffix_app p s : trim_suffix p (s +:+ p) = s.
Proof. unfold trim_suffix, trim_prefix. by rewrite str_rev_append, drop_prefix_app, str_rev_involutive. Qed.

Lemma path_overlap r y :
  localhostProfilePrefix +:+ r = y +:+ localhostProfileSuffix → ∃ y', r = y' +:+ localhostProfileSuffix.
Proof.
  unfold localhostProfilePrefix. str_simpl. intros H.
  do 9 (destruct y as [|? y]; [discriminate H|]; rewrite str_app_cons in H; injection H as <- H).
  by exists y.
Qed.

Lemma parse_path path n :
  ParseLocalhostProfilePath path = Some n ↔ path = LocalhostProfilePath n ∧ n ≠ "" ∧ has_byte "/" n = false.
Proof.
  unfold ParseLocalhostProfilePath, LocalhostProfilePath. split.
  - destruct (has_prefix _ path) eqn:Hp; [|done]. apply has_prefix_app in Hp as (r & ->).
    destruct (has_suffix _ _) eqn:Hs; [|done]. cbn [negb orb]. unfold has_suffix in Hs.
    apply has_prefix_app in Hs as (x & Hx).
    assert (localhostProfilePrefix +:+ r = str_rev x +:+ localhostProfileSuffix) as E.
    { rewrite <- (str_rev_involutive (_ +:+ r)), Hx, str_rev_append. by rewrite str_rev_involutive. }
    apply path_overlap in E as (y & ->). unfold trim_prefix. rewrite drop_prefix_app, trim_suffix_app.
    case_bool_decide as En; [done|]. destruct (has_byte _ y) eqn:Eb; [done|]. by intros [= ->].
  - intros (-> & Hn & Hb).
    assert (has_prefix localhostProfilePrefix (localhostProfilePrefix +:+ n +:+ localhostProfileSuffix) = true) as ->
      by (apply has_prefix_app; eauto).
    assert (has_suffix localhostProfileSuffix (localhostProfilePrefix +:+ n +:+ localhostProfileSuffix) = true) as ->.
    { unfold has_suffix. rewrite <- str_app_assoc, str_rev_append. apply has_prefix_app. eauto. }
    cbn [negb orb]. unfold trim_prefix. rewrite drop_prefix_app, trim_suffix_app, bool_decide_eq_false_2 by done.
    by rewrite Hb.
Qed.

(** Exactly the paths the backend materialises profiles at are recognised,
    and they give back the profile name: no other form, in particular not the
    obsolete namespaced one, names a profile. *)
Theorem ParseLocalhostProfilePath_spec path n :
  ParseLocalhostProfilePath path = Some n ↔ path = LocalhostProfilePath n ∧ n ≠ "" ∧ has_byte "/" n = false.
Proof. apply parse_path. Qed.

Lemma label_no_slash s : all_bytes label_rune s = true → has_byte "/" s = false.
Proof.
  induction s as [|a s IH]; cbn; [done|]. intros [Ha Hs]%andb_true_iff. rewrite (IH Hs), orb_false_r.
  apply bool_decide_eq_false. intros ->. done.
Qed.

(** A governed name is a DNS-1123 label within the 63 byte limit, whatever
    the pod name, and its node-local path parses back to it. *)
Theorem GovernedProfileName_label ns pod c n :
  GovernedProfileName ns pod c = Ok n →
  all_bytes label_rune n = true ∧ String.length n ≤ 63 ∧
  has_prefix "l" n = true ∧ (∃ s d, n = s +:+ String d "" ∧ is_hex false d = true) ∧
  ParseLocalhostProfilePath (LocalhostProfilePath n) = Some n.
Proof.
  intros (m & _ & ->)%name_shape. destruct (sanitizeNameSegment_shape pod) as [Hr Hl].
  pose proof (digest_hex (string_bytes m)) as Hd. pose proof (digest_length (string_bytes m)) as Hn.
  set (seg := sanitizeNameSegment pod) in *. set (d := hex_encode _) in *.
  assert (all_bytes label_rune d = true) as Hd'.
  { clearbody d. clear Hn. induction d as [|a d IH]; cbn in *; [done|]. apply andb_true_iff in Hd as [Ha Hd].
    by rewrite (label_rune_hex a Ha), IH. }
  assert (all_bytes label_rune (namePrefix +:+ seg +:+ "-" +:+ d) = true) as Hall
    by (rewrite !all_bytes_app, Hr, Hd'; reflexivity).
  split; [done|]. split.
  { rewrite !str_length_app, Hn. unfold namePodSegmentMax in Hl.
    change (String.length namePrefix) with 6. change (String.length "-") with 1. lia. }
  split; [done|]. split.
  - destruct (str_rev d) as [|x r] eqn:E.
    { assert (String.length (str_rev d) = 16) as E' by (by rewrite str_rev_length, Hn). rewrite E in E'. done. }
    exists (namePrefix +:+ seg +:+ "-" +:+ str_rev r), x. split.
    + rewrite !str_app_assoc. do 3 f_equal. by rewrite <- (str_rev_involutive d), E, str_rev_cons.
    + rewrite <- all_bytes_rev, E in Hd. cbn in Hd. by apply andb_true_iff in Hd as [? _].
  - apply parse_path. split; [done|]. split; [done|]. by apply label_no_slash.
Qed.

Lemma GovernedProfileName_label_witness :
  ParseLocalhostProfilePath (LocalhostProfilePath
    ("lg-v1-web-0-" +:+ hex_encode (take 8 (sha256 (string_bytes
       (nameHashDomain +:+ String "000" "" +:+ be32 4 +:+ "prod" +:+ be32 5 +:+ "web-0" +:+ be32 3 +:+ "app")))))) =
  Some ("lg-v1-web-0-" +:+ hex_encode (take 8 (sha256 (string_bytes
       (nameHashDomain +:+ String "000" "" +:+ be32 4 +:+ "prod" +:+ be32 5 +:+ "web-0" +:+ be32 3 +:+ "app"))))).
Proof.
  refine (proj2 (proj2 (proj2 (proj2 (GovernedProfileName_label "prod" "web-0" "app" _ _))))).
  vm_compute. reflexivity.
Defined.

Lemma name_payload_inj ns pod c ns' pod' c' m :
  name_payload ns pod c = Ok m → name_payload ns' pod' c' = Ok m → (ns, pod, c) = (ns', pod', c').
Proof.
  unfold name_payload. intros H H'.
  apply result_bind_Ok in H as (p & Hp & <-%Ok_inj). apply result_bind_Ok in H' as (p' & Hp' & E%Ok_inj).
  apply str_app_inj_l, str_app_inj_l in E. subst p'.
  destruct (prefix_code_all put_string [ns; pod; c] [ns'; pod'; c'] p p "" "" prefix_code_string) as [E _];
    try done. by injection E as -> -> ->.
Qed.

Lemma classify_ownership ns pod c ns' pod' c' :
  ClassifyOwnership (OwnershipAnnotations ns pod c) ns' pod' c' =
  if bool_decide ((ns, pod, c) = (ns', pod', c')) then OwnedSameTarget else OwnedDifferentTarget.
Proof.
  unfold ClassifyOwnership.
  assert (annotation (OwnershipAnnotations ns pod c) ManagedByAnnotation = ManagedByValue) as -> by reflexivity.
  assert (annotation (OwnershipAnnotations ns pod c) NameSchemeAnnotation = NameScheme) as -> by reflexivity.
  assert (annotation (OwnershipAnnotations ns pod c) TargetNamespaceAnnotation = ns) as -> by reflexivity.
  assert (annotation (OwnershipAnnotations ns pod c) TargetPodAnnotation = pod) as -> by reflexivity.
  assert (annotation (OwnershipAnnotations ns pod c) TargetContainerAnnotation = c) as -> by reflexivity.
  rewrite !bool_decide_eq_true_2 by done. cbn [negb orb]. repeat case_bool_decide; try done; naive_solver.
Qed.

(** Two workloads get one governed name only through a collision of the
    64 digest bits kept; and when they do, the ownership marker of the one
    makes the apply path refuse to overwrite it for the other. *)
Theorem GovernedProfileName_collision ns pod c ns' pod' c' n :
  GovernedProfileName ns pod c = Ok n → GovernedProfileName ns' pod' c' = Ok n →
  (ns, pod, c) = (ns', pod', c') ∨
  (∃ m m', name_payload ns pod c = Ok m ∧ name_payload ns' pod' c' = Ok m' ∧ m ≠ m' ∧
     take nameHashBytes (sha256 (string_bytes m)) = take nameHashBytes (sha256 (string_bytes m'))) ∧
  ClassifyOwnership (OwnershipAnnotations ns pod c) ns' pod' c' = OwnedDifferentTarget.
Proof.
  intros (m & Hm & ->)%name_shape (m' & Hm' & E)%name_shape.
  destruct (decide ((ns, pod, c) = (ns', pod', c'))) as [|Hne]; [by left|right]. split.
  - exists m, m'. split; [done|]. split; [done|].
    split; [intros <-; by apply Hne, (name_payload_inj ns pod c ns' pod' c' m)|].
    apply str_app_inj_l in E. rewrite <- !str_app_assoc in E.
    apply str_app_inj_len in E as [_ E].
    + apply hex_encode_inj in E; [done|apply Forall_take, sha256_range|apply Forall_take, sha256_range].
    + apply (f_equal String.length) in E. rewrite !str_length_app, !digest_length in E.
      rewrite !str_length_app. lia.
  - by rewrite classify_ownership, bool_decide_eq_false_2.
Qed.

Lemma GovernedProfileName_collision_witness :
  (("a", "b", "c") = ("a", "b", "c") ∨
   (∃ m m', name_payload "a" "b" "c" = Ok m ∧ name_payload "a" "b" "c" = Ok m' ∧ m ≠ m' ∧
      take nameHashBytes (sha256 (string_bytes m)) = take nameHashBytes (sha256 (string_bytes m'))) ∧
   ClassifyOwnership (OwnershipAnnotations "a" "b" "c") "a" "b" "c" = OwnedDifferentTarget).
Proof.
  destruct (GovernedProfileName "a" "b" "c") as [n|] eqn:E; [|vm_compute in E; discriminate].
  exact (GovernedProfileName_collision "a" "b" "c" "a" "b" "c" n E E).
Defined.
End SpoBackend.
