(* ===== verification/Target.v ===== *)
(** * internal/k8s/target.go and internal/association/association.go

    Governed targets, their persisted bindings, the resolution of a container
    in a pod, and the read-side association of evidence and proposals with the
    targets discovered in a cluster.  API calls are not modelled: a pod is its
    container list and its detected owner. *)
From S2P Require Import Prelude GoStd Digest Json.

(** ** Targets *)
Module K8s.

Record WorkloadRef := mkWorkloadRef { w_Group : string; w_Kind : string; w_Name : string }.
Record GovernedTarget := mkGovernedTarget {
  Namespace : string; Workload : WorkloadRef; Container : string }.

#[export] Instance WorkloadRef_eq_dec : EqDecision WorkloadRef.
Proof. solve_decision. Defined.
#[export] Instance GovernedTarget_eq_dec : EqDecision GovernedTarget.
Proof. solve_decision. Defined.

Record CanonicalTargetBinding := mkCanonicalTargetBinding {
  tb_Namespace : string; tb_Group : string; tb_Kind : string; tb_Name : string }.
#[export] Instance CanonicalTargetBinding_eq_dec : EqDecision CanonicalTargetBinding.
Proof. solve_decision. Defined.

Definition empty (s : string) : bool := bool_decide (s = "").

Definition CanonicalTargetBindingFor (target : GovernedTarget) : CanonicalTargetBinding :=
  mkCanonicalTargetBinding (Namespace target) (w_Group (Workload target))
    (w_Kind (Workload target)) (w_Name (Workload target)).

(** [(b CanonicalTargetBinding) GovernedTarget(container)]. *)
Definition CanonicalTargetBinding_GovernedTarget (b : CanonicalTargetBinding) (container : string)
  : result GovernedTarget :=
  fail_if empty (tb_Namespace b) || empty (tb_Kind b) || empty (tb_Name b) || empty container
    with mkError "" "incomplete canonical target binding";
  fail_if empty (tb_Group b) && negb (bool_decide (tb_Kind b = "Pod"))
    with mkError "" "non-Pod canonical target binding requires a Group";
  Ok (mkGovernedTarget (tb_Namespace b) (mkWorkloadRef (tb_Group b) (tb_Kind b) (tb_Name b)) container).

Definition Equal (t other : GovernedTarget) : bool := bool_decide (t = other).

Definition CanonicalJSON (t : GovernedTarget) : string :=
  "{" +:+ json_string "namespace" +:+ ":" +:+ json_string (Namespace t) +:+ ","
  +:+ json_string "workload" +:+ ":" +:+ json_object
        [("group", w_Group (Workload t)); ("kind", w_Kind (Workload t)); ("name", w_Name (Workload t))] +:+ ","
  +:+ json_string "container" +:+ ":" +:+ json_string (Container t) +:+ "}".

Definition LegacyString (t : GovernedTarget) : string :=
  if bool_decide (w_Kind (Workload t) = "Pod") then w_Name (Workload t)
  else w_Kind (Workload t) +:+ "/" +:+ w_Name (Workload t).

Record RuntimeSubject := mkRuntimeSubject {
  rs_Target : GovernedTarget; rs_PodUID : string; rs_ImageID : string; rs_BinaryPath : string }.

Abbreviation OwnerKind := string.
Definition OwnerNone : OwnerKind := "none".

Definition governedTargetFor (namespace podName : string) (owner : OwnerKind) (ownerName container : string)
  : GovernedTarget :=
  if bool_decide (owner = OwnerNone)
  then mkGovernedTarget namespace (mkWorkloadRef "" "Pod" podName) container
  else mkGovernedTarget namespace (mkWorkloadRef "apps" owner ownerName) container.

(** The pod's container names, in order, and the requested name. *)
Definition resolveContainer (containers : list string) (container : string) : result string :=
  match containers with
  | [] => failwith "pod has no containers"
  | first :: rest =>
      if empty container then
        fail_if 1 <? length containers with mkError "" "pod has multiple containers: specify --container";
        Ok first
      else if existsb (fun c => bool_decide (c = container)) containers then Ok container
      else failwith "container not found in pod"
  end.

(** *** Properties *)

Definition complete (t : GovernedTarget) : Prop :=
  Namespace t ≠ "" ∧ w_Kind (Workload t) ≠ "" ∧ w_Name (Workload t) ≠ "" ∧ Container t ≠ "" ∧
  (w_Group (Workload t) = "" → w_Kind (Workload t) = "Pod").

(** A binding reconstructs exactly the complete target it was taken from,
    and every target a binding reconstructs is complete and has that binding. *)
Theorem binding_round_trip b c t :
  CanonicalTargetBinding_GovernedTarget b c = Ok t ↔
    complete t ∧ CanonicalTargetBindingFor t = b ∧ Container t = c.
Proof.
  unfold CanonicalTargetBinding_GovernedTarget, complete, CanonicalTargetBindingFor, empty.
  rewrite !result_guard_Ok, !orb_false_iff, andb_false_iff, negb_false_iff,
    !bool_decide_eq_false, !bool_decide_eq_true. split.
  - intros ((((Hn & Hk) & Hm) & Hc) & Hg & [= <-]). destruct b as [n g k m]. cbn in *.
    repeat split; try done. intros ->. by destruct Hg.
  - destruct t as [n [g k m] c'], b as [bn bg bk bm]. cbn.
    intros ((Hn & Hk & Hm & Hc & Hg) & [= <- <- <- <-] & <-). repeat split; try done.
    destruct (decide (g = "")); [right; auto|by left].
Qed.

Definition utf8_target (t : GovernedTarget) : Prop :=
  Forall (fun s => valid_utf8 s = true)
    [Namespace t; w_Group (Workload t); w_Kind (Workload t); w_Name (Workload t); Container t].

(** The canonical JSON form separates distinct targets (collision
    resistance of the log and consumer key), for well-formed text. *)
Theorem CanonicalJSON_inj t t' :
  utf8_target t → utf8_target t' → CanonicalJSON t = CanonicalJSON t' → t = t'.
Proof.
  intros Ht Ht' E. destruct t as [n [g k m] c], t' as [n' [g' k' m'] c'].
  unfold utf8_target in *. cbn in *. repeat rewrite Forall_cons in *.
  destruct Ht as (H1 & H2 & H3 & H4 & H5 & _), Ht' as (K1 & K2 & K3 & K4 & K5 & _).
  unfold CanonicalJSON, json_object, json_field in E. cbn [Namespace Workload Container w_Group w_Kind w_Name] in E.
  cbn [map join fst snd] in E. rewrite !str_app_assoc in E.
  repeat first [apply str_app_inj_l in E | apply json_string_inj in E as [-> E]; [|done..]]. done.
Qed.

Definition ex_target : GovernedTarget := mkGovernedTarget "default" (mkWorkloadRef "apps" "Deployment" "web") "app".

Lemma CanonicalJSON_inj_witness :
  valid_utf8 (CanonicalJSON ex_target) = true
  ∧ ex_target = ex_target.
Proof.
  split; [vm_compute; reflexivity|].
  apply CanonicalJSON_inj; [repeat constructor..|reflexivity].
Defined.

(** A resolved container is one of the pod's, the requested one when named. *)
Lemma resolveContainer_sound containers c r :
  resolveContainer containers c = Ok r → r ∈ containers ∧ (c ≠ "" → r = c) ∧ (c = "" → containers = [r]).
Proof.
  destruct containers as [|x l]; cbn; [done|]. unfold empty. case_bool_decide as Hc.
  - destruct l; cbn; [|done]. intros [= ->]. split; [left|]. by split.
  - destruct (existsb _ l) eqn:E, (bool_decide (x = c)) eqn:Ex; cbn; intros [= <-]; bool_simpl.
    all: repeat split; try done; try (subst; left).
    apply existsb_exists in E as (y & Hy & ->%bool_decide_eq_true). right. by apply list_elem_of_In.
Qed.

End K8s.
Export K8s.

(** ** Association *)
Module Association.

Inductive State := Associated | Unassociated | Ambiguous | Stale | Orphaned | InsufficientProvenance.
Record Result := mkResult { r_State : State; r_Reason : string }.

(** The fields of a history population the association reads. *)
Record Population := mkPopulation {
  p_TargetBinding : option CanonicalTargetBinding; p_Container : string;
  p_ImageIdentity : string; p_BinaryPath : string }.

Record Evidence := mkEvidence { ev_Target : option GovernedTarget; ev_Population : Population }.

Definition reconstruct (binding : option CanonicalTargetBinding) (container : string) : option GovernedTarget :=
  match binding with
  | Some b => match CanonicalTargetBinding_GovernedTarget b container with Ok t => Some t | Err _ => None end
  | None => None
  end.

Definition EvidenceFromPopulation (population : Population) : Evidence :=
  mkEvidence (reconstruct (p_TargetBinding population) (p_Container population)) population.

Definition validTarget (target : GovernedTarget) : bool :=
  negb (empty (Namespace target)) && negb (empty (w_Kind (Workload target))) &&
  negb (empty (w_Name (Workload target))) && negb (empty (Container target)).

Definition associate (target : GovernedTarget) (source : option GovernedTarget) (kind : string) : Result :=
  match source with
  | Some s =>
      if negb (validTarget target) || negb (validTarget s)
      then mkResult InsufficientProvenance (kind +:+ " lacks a complete canonical target")
      else if Equal target s then mkResult Associated (kind +:+ " has an explicit canonical target binding")
      else mkResult Unassociated (kind +:+ " has a different canonical target")
  | None => mkResult InsufficientProvenance (kind +:+ " lacks a complete canonical target")
  end.

(** The loop over the discovered targets: the distinct matches counted. *)
Fixpoint count_matches (source : GovernedTarget) (seen : list GovernedTarget) (matches : nat)
  (targets : list GovernedTarget) : nat :=
  match targets with
  | [] => matches
  | target :: targets =>
      if negb (validTarget target) then count_matches source seen matches targets
      else if Equal target source then
        if bool_decide (target ∈ seen) then count_matches source seen matches targets
        else count_matches source (target :: seen) (matches + 1) targets
      else count_matches source seen matches targets
  end.

Definition associateToTargets (source : option GovernedTarget) (targets : list GovernedTarget) (kind : string)
  : Result :=
  match source with
  | Some s =>
      if negb (validTarget s) then mkResult InsufficientProvenance (kind +:+ " lacks a complete canonical target")
      else match count_matches s [] 0 targets with
           | 0 => mkResult Orphaned ("complete " +:+ kind +:+ " target is absent from discovered targets")
           | 1 => mkResult Associated (kind +:+ " has one matching canonical target")
           | _ => mkResult Ambiguous (kind +:+ " matches multiple canonical targets")
           end
  | None => mkResult InsufficientProvenance (kind +:+ " lacks a complete canonical target")
  end.

Definition AssociateEvidence (target : GovernedTarget) (source : Evidence) : Result :=
  associate target (ev_Target source) "evidence".
Definition AssociateEvidenceToTargets (source : Evidence) (targets : list GovernedTarget) : Result :=
  associateToTargets (ev_Target source) targets "evidence".

Inductive RuntimeCompatibilityState := RuntimeMatches | RuntimeDiffers | RuntimeUnknown.

Definition CompareRuntimePopulation (source : Evidence) (subject : RuntimeSubject) : RuntimeCompatibilityState :=
  match ev_Target source with
  | Some s =>
      if negb (validTarget s) || negb (Equal (rs_Target subject) s) then RuntimeUnknown
      else if empty (p_ImageIdentity (ev_Population source)) || empty (rs_ImageID subject) ||
              empty (p_BinaryPath (ev_Population source)) || empty (rs_BinaryPath subject) then RuntimeUnknown
      else if negb (bool_decide (p_ImageIdentity (ev_Population source) = rs_ImageID subject)) ||
              negb (bool_decide (p_BinaryPath (ev_Population source) = rs_BinaryPath subject)) then RuntimeDiffers
      else RuntimeMatches
  | None => RuntimeUnknown
  end.

Lemma count_matches_seen s seen n l :
  s ∈ seen → count_matches s seen n l = n.
Proof.
  intros Hs. induction l as [|t l IH]; cbn; [done|]. destruct (validTarget t); cbn; [|done].
  unfold Equal. case_bool_decide; subst; [|done]. by rewrite bool_decide_eq_true_2.
Qed.

Lemma count_matches_spec s l :
  validTarget s = true → count_matches s [] 0 l = if bool_decide (s ∈ l) then 1 else 0.
Proof.
  intros Hv. induction l as [|t l IH]; cbn.
  - rewrite bool_decide_eq_false_2; [done|apply not_elem_of_nil].
  - unfold Equal. destruct (decide (t = s)) as [->|Hne].
    + rewrite Hv. cbn. rewrite bool_decide_eq_true_2 by done.
      rewrite (bool_decide_eq_true_2 (s ∈ s :: l)) by left.
      rewrite bool_decide_eq_false_2 by apply not_elem_of_nil.
      apply count_matches_seen. left.
    + rewrite (bool_decide_eq_false_2 (t = s)) by done.
      replace (bool_decide (s ∈ t :: l)) with (bool_decide (s ∈ l))
        by (apply bool_decide_ext; rewrite elem_of_cons; naive_solver).
      by destruct (validTarget t).
Qed.

(** A source is associated with a discovered set exactly when its complete
    target is in it, orphaned exactly when its complete target is not, and
    insufficient exactly when it has no complete target: classification does
    not depend on the order or the multiplicity of the targets, and
    [Ambiguous] is never reached. *)
Theorem associateToTargets_spec source targets kind :
  r_State (associateToTargets source targets kind) =
    match source with
    | Some s => if validTarget s then if bool_decide (s ∈ targets) then Associated else Orphaned
                else InsufficientProvenance
    | None => InsufficientProvenance
    end.
Proof.
  unfold associateToTargets. destruct source as [s|]; [|done].
  destruct (validTarget s) eqn:Hv; cbn; [|done].
  rewrite count_matches_spec by done. by case_bool_decide.
Qed.

End Association.
