(* ===== verification/History.v ===== *)
(** * internal/history: accumulated training history

    record.go, population_identity.go and provenance.go: the merge of a run's
    behavior profile into a record or into one of its populations, the
    confidence computed from it, and the identity and provenance of
    populations.  The central result is a refinement: the index-and-append
    loops of the source implement a finite map from access keys to run counts. *)
From S2P Require Import Prelude GoStd Policy Digest Target.
Import Profile.

(** ** The merge loops

    One loop per access kind in the source, all of this form: an index from key
    to position is built over the existing records; an observed access either
    updates the record at its position or is appended. *)
Section merge.
Context {A R K : Type} `{Countable K} (key_of : A → K) (key : R → K) (bump : A → R → R) (fresh : A → R).

Definition build_index (l : list R) : gmap K nat :=
  (foldl (fun '(m, i) r => (<[key r := i]> m, S i)) (∅, 0) l).1.

Definition merge_step (st : list R * gmap K nat) (a : A) : list R * gmap K nat :=
  match st.2 !! key_of a with
  | Some i => (alter (bump a) i st.1, st.2)
  | None => (st.1 ++ [fresh a], <[key_of a := length st.1]> st.2)
  end.

Definition merge_accesses (less : R → R → bool) (existing : list R) (observed : list A) : list R :=
  sort_by less (foldl merge_step (existing, build_index existing) observed).1.

(** *** The finite map a list of records stands for *)
Definition view (l : list R) : gmap K R := list_to_map (map (fun r => (key r, r)) l).

Definition view_step (m : gmap K R) (a : A) : gmap K R :=
  <[key_of a := match m !! key_of a with Some r => bump a r | None => fresh a end]> m.

#[local] Arguments view : simpl never.
#[local] Arguments view_step : simpl never.

Hypothesis key_bump : ∀ a r, key (bump a r) = key r.
Hypothesis key_fresh : ∀ a, key (fresh a) = key_of a.

Definition distinct (l : list R) : Prop := NoDup (map key l).

Lemma view_fst l : (map (fun r => (key r, r)) l).*1 = map key l.
Proof. induction l as [|r l IH]; cbn; [done|]. by rewrite IH. Qed.

Lemma lookup_view l k r : distinct l → view l !! k = Some r ↔ r ∈ l ∧ key r = k.
Proof.
  intros Hd. unfold view. rewrite <- elem_of_list_to_map by (by rewrite view_fst).
  rewrite list_elem_of_fmap. naive_solver.
Qed.

Lemma lookup_view_None l k : view l !! k = None ↔ k ∉ map key l.
Proof. unfold view. by rewrite <- not_elem_of_list_to_map, view_fst. Qed.

Lemma view_perm l l' : distinct l → l ≡ₚ l' → view l = view l'.
Proof.
  intros Hd Hp. apply list_to_map_proper; [by rewrite view_fst|].
  change (map ?f ?l) with (f <$> l). by rewrite Hp.
Qed.

(** The index points at the record of each key. *)
Definition indexed (st : list R * gmap K nat) : Prop :=
  distinct st.1 ∧ ∀ k i, st.2 !! k = Some i ↔ ∃ r, st.1 !! i = Some r ∧ key r = k.

Lemma build_index_spec l k i :
  distinct l → build_index l !! k = Some i ↔ ∃ r, l !! i = Some r ∧ key r = k.
Proof.
  unfold build_index, distinct.
  assert ((foldl (fun '(m, i) r => (<[key r := i]> m, S i)) (∅ : gmap K nat, 0) l).2 = length l) as Hlen.
  { induction l as [|r l IH] using rev_ind; [done|].
    rewrite foldl_app, length_app. cbn. destruct (foldl _ _ l); cbn in *. lia. }
  induction l as [|r l IH] using rev_ind; cbn.
  - intros _. rewrite lookup_empty. split; [done|]. intros (r & [=] & _).
  - rewrite foldl_app in Hlen |- *. intros Hd. rewrite map_app in Hd.
    apply NoDup_app in Hd as (Hd & Hn & _). cbn in *.
    assert ((foldl (fun '(m, i) r => (<[key r := i]> m, S i)) (∅ : gmap K nat, 0) l).2 = length l) as Hl.
    { rewrite length_app in Hlen. destruct (foldl _ _ l); cbn in *. lia. }
    specialize (IH Hl Hd). destruct (foldl _ _ l) as [m n]; cbn in *. subst n.
    destruct (decide (key r = k)) as [<-|Hne].
    + rewrite lookup_insert_eq. split.
      * intros [= <-]. exists r. by rewrite lookup_app_r, Nat.sub_diag by lia.
      * intros (r' & Hr & Hk). f_equal. destruct (decide (i < length l)) as [Hi|Hi].
        { rewrite lookup_app_l in Hr by done. exfalso. apply (Hn (key r)); [|left].
          rewrite <- Hk. apply (list_elem_of_fmap_2 key). by apply (list_elem_of_lookup_2 l i). }
        { apply lookup_lt_Some in Hr. rewrite length_app in Hr. cbn in Hr. lia. }
    + rewrite lookup_insert_ne by done. rewrite IH. split.
      * intros (r' & Hr & Hk). exists r'. split; [|done]. by apply lookup_app_l_Some.
      * intros (r' & Hr & Hk). exists r'. split; [|done]. apply lookup_app_Some in Hr as [Hr|[Hi Hr]]; [done|].
        destruct (i - length l); cbn in Hr; [|done]. congruence.
Qed.

Lemma indexed_build l : distinct l → indexed (l, build_index l).
Proof. intros Hd. split; [done|]. intros k i. by apply build_index_spec. Qed.

Lemma map_key_alter (f : R → R) i l : (∀ r, key (f r) = key r) → map key (alter f i l) = map key l.
Proof. intros Hf. revert i. induction l as [|r l IH]; intros [|i]; cbn; [done..|by rewrite Hf|by rewrite IH]. Qed.

(** One step of a loop is one step of the map. *)
Lemma merge_step_view st a :
  indexed st → indexed (merge_step st a) ∧ view (merge_step st a).1 = view_step (view st.1) a.
Proof.
  destruct st as [l m]. intros [Hd Hi]. unfold merge_step. cbn in *.
  destruct (m !! key_of a) as [i|] eqn:E; cbn.
  - apply Hi in E as (r & Hr & Hk).
    assert (distinct (alter (bump a) i l)) as Hd' by (unfold distinct; by rewrite map_key_alter).
    split; [split; [done|]|].
    + cbn. intros k j. rewrite Hi. split; intros (r' & Hr' & Hk').
      * destruct (decide (i = j)) as [<-|Hne].
        { exists (bump a r). rewrite list_lookup_alter_eq, Hr. split; [done|]. rewrite key_bump. congruence. }
        { exists r'. by rewrite list_lookup_alter_ne. }
      * destruct (decide (i = j)) as [<-|Hne].
        { rewrite list_lookup_alter_eq, Hr in Hr'. injection Hr' as <-. exists r. by rewrite key_bump in Hk'. }
        { exists r'. by rewrite list_lookup_alter_ne in Hr'. }
    + unfold view_step. assert (view l !! key_of a = Some r) as ->
        by (apply lookup_view; [done|split; [by apply list_elem_of_lookup_2 with i|done]]).
      apply map_eq. intros k. destruct (decide (key_of a = k)) as [<-|Hne].
      * rewrite lookup_insert_eq. apply lookup_view; [done|]. split; [|by rewrite key_bump].
        apply list_elem_of_lookup_2 with i. by rewrite list_lookup_alter_eq, Hr.
      * rewrite lookup_insert_ne by done. apply option_eq. intros r'. rewrite !lookup_view by done. split.
        { intros [(j & Hj)%list_elem_of_lookup_1 Hk']. split; [|done].
          destruct (decide (i = j)) as [<-|Hij].
          - rewrite list_lookup_alter_eq, Hr in Hj. injection Hj as <-. rewrite key_bump in Hk'. congruence.
          - rewrite list_lookup_alter_ne in Hj by done. by apply list_elem_of_lookup_2 with j. }
        { intros [(j & Hj)%list_elem_of_lookup_1 Hk']. split; [|done].
          destruct (decide (i = j)) as [<-|Hij]; [congruence|].
          apply list_elem_of_lookup_2 with j. by rewrite list_lookup_alter_ne. }
  - assert (key_of a ∉ map key l) as Hn.
    { intros (r & Hk & (i & Hr)%list_elem_of_lookup_1)%list_elem_of_fmap.
      assert (m !! key_of a = Some i) as E' by (apply Hi; eauto). congruence. }
    assert (distinct (l ++ [fresh a])) as Hd'.
    { unfold distinct. rewrite map_app. apply NoDup_app. split; [done|]. split; [|apply NoDup_singleton].
      intros k Hk Hk'%list_elem_of_singleton. rewrite key_fresh in Hk'. congruence. }
    split; [split; [done|]|].
    + cbn. intros k i. destruct (decide (key_of a = k)) as [<-|Hne].
      * rewrite lookup_insert_eq. split.
        { intros [= <-]. exists (fresh a). by rewrite lookup_app_r, Nat.sub_diag by lia. }
        { intros (r & [Hr|[Hle Hr]]%lookup_app_Some & Hk).
          - exfalso. apply Hn. rewrite <- Hk. apply (list_elem_of_fmap_2 key). by apply list_elem_of_lookup_2 with i.
          - apply lookup_lt_Some in Hr. cbn in Hr. f_equal. lia. }
      * rewrite lookup_insert_ne by done. rewrite Hi. split; intros (r & Hr & Hk); exists r; (split; [|done]).
        { by apply lookup_app_l_Some. }
        { apply lookup_app_Some in Hr as [Hr|[_ Hr]]; [done|]. destruct (i - length l); [|done].
          injection Hr as <-. by rewrite key_fresh in Hk. }
    + unfold view_step. pose proof Hn as ->%lookup_view_None. unfold view.
      rewrite map_app. cbn. rewrite list_to_map_snoc; [by rewrite key_fresh|].
      by rewrite view_fst, key_fresh.
Qed.

(** The whole loop, sorted: the map folded over the observed accesses, with
    distinct keys. *)
Lemma merge_accesses_view less existing observed :
  distinct existing →
  distinct (merge_accesses less existing observed) ∧
  view (merge_accesses less existing observed) = foldl view_step (view existing) observed.
Proof.
  intros Hd. unfold merge_accesses.
  assert (∀ st, indexed st → indexed (foldl merge_step st observed) ∧
    view (foldl merge_step st observed).1 = foldl view_step (view st.1) observed) as Hf.
  { induction observed as [|a l IH]; intros st Hst; cbn; [done|].
    destruct (merge_step_view st a Hst) as [Hi Hv]. rewrite <- Hv. by apply IH. }
  destruct (Hf _ (indexed_build existing Hd)) as [[Hd' _] Hv]. cbn in Hv. rewrite <- Hv.
  assert (distinct (sort_by less (foldl merge_step (existing, build_index existing) observed).1)) as Hs.
  { unfold distinct. change (map key ?l) with (key <$> l). by rewrite sort_by_perm. }
  split; [done|]. apply view_perm; [done|apply sort_by_perm].
Qed.

(** When the observed keys are distinct, each is visited once. *)
Lemma view_fold_lookup m observed k :
  NoDup (map key_of observed) →
  foldl view_step m observed !! k =
    match List.find (fun a => bool_decide (key_of a = k)) observed with
    | Some a => Some (match m !! k with Some r => bump a r | None => fresh a end)
    | None => m !! k
    end.
Proof.
  revert m. induction observed as [|a l IH]; intros m Hnd; cbn; [done|].
  cbn in Hnd. inversion Hnd as [|?? Hn Hnd']; subst. rewrite (IH _ Hnd'). unfold view_step.
  case_bool_decide as E.
  - subst k. rewrite lookup_insert_eq. destruct (List.find _ l) as [b|] eqn:Ef; [|done].
    apply find_some in Ef as [Hin Hb]. apply bool_decide_eq_true in Hb. exfalso. apply Hn. rewrite <- Hb.
    apply (list_elem_of_fmap_2 key_of). by apply list_elem_of_In.
  - by rewrite lookup_insert_ne.
Qed.

(** *** Counting runs *)
Context (seen : R → Z).
Hypothesis seen_bump : ∀ a r, seen (bump a r) = (seen r + 1)%Z.
Hypothesis seen_fresh : ∀ a, seen (fresh a) = 1%Z.

(** The runs in which a key was observed. *)
Definition observed_in (k : K) (run : list A) : bool := bool_decide (k ∈ map key_of run).
Definition run_count (k : K) (runs : list (list A)) : nat := length (List.filter (observed_in k) runs).
Definition merge_runs (less : R → R → bool) (runs : list (list A)) : list R :=
  foldl (merge_accesses less) [] runs.

Lemma find_observed k run :
  match List.find (fun a => bool_decide (key_of a = k)) run with
  | Some a => a ∈ run ∧ key_of a = k ∧ observed_in k run = true
  | None => observed_in k run = false
  end.
Proof.
  destruct (List.find _ run) as [a|] eqn:E.
  - apply find_some in E as [Hin Hk]. bool_simpl. rewrite <- list_elem_of_In in Hin. split; [done|]. split; [done|].
    apply bool_decide_eq_true. rewrite <- Hk. by apply (list_elem_of_fmap_2 key_of).
  - apply bool_decide_eq_false. intros (a & -> & Hin)%list_elem_of_fmap.
    rewrite list_elem_of_In in Hin. pose proof (find_none _ _ E a Hin) as Hf. cbn beta in Hf. bool_simpl. congruence.
Qed.

Lemma merge_runs_view less runs :
  Forall (fun run => NoDup (map key_of run)) runs →
  distinct (merge_runs less runs) ∧
  ∀ k, match view (merge_runs less runs) !! k with
       | Some r => seen r = Z.of_nat (run_count k runs) ∧ 0 < run_count k runs
       | None => run_count k runs = 0
       end.
Proof.
  unfold merge_runs. induction runs as [|run runs IH] using rev_ind.
  - intros _. split; [constructor|]. intros k. cbn. assert (view [] !! k = None) as -> by apply lookup_empty. done.
  - intros [Hr Hrun]%Forall_app. rewrite Forall_singleton in Hrun. destruct (IH Hr) as [Hd Hv].
    rewrite foldl_app. cbn. destruct (merge_accesses_view less _ run Hd) as [Hd' Hv']. split; [done|].
    intros k. rewrite Hv', view_fold_lookup by exact Hrun. specialize (Hv k).
    unfold run_count in *. rewrite List.filter_app, length_app. cbn.
    pose proof (find_observed k run) as Hf. destruct (List.find _ run) as [a|].
    + destruct Hf as (_ & _ & ->). cbn. destruct (view _ !! k) as [r|].
      * rewrite seen_bump. lia.
      * rewrite seen_fresh. lia.
    + rewrite Hf. cbn. rewrite Nat.add_0_r. done.
Qed.

(** *** Accumulated attributes *)
Context {X : Type} (has : R → X → Prop) (has_of : A → X → Prop) (known : X → Prop).
Hypothesis has_bump : ∀ a r x, known x → has (bump a r) x ↔ has r x ∨ has_of a x.
Hypothesis has_fresh : ∀ a x, known x → has (fresh a) x ↔ has_of a x.

Lemma merge_runs_has less runs k r x :
  Forall (fun run => NoDup (map key_of run)) runs → known x →
  view (merge_runs less runs) !! k = Some r →
  has r x ↔ ∃ run a, run ∈ runs ∧ a ∈ run ∧ key_of a = k ∧ has_of a x.
Proof.
  intros Hnd Hx. revert r. unfold merge_runs. induction runs as [|run runs IH] using rev_ind; [done|].
  apply Forall_app in Hnd as [Hr Hrun]. rewrite Forall_singleton in Hrun. specialize (IH Hr).
  destruct (merge_runs_view less runs Hr) as [Hd Hv]. unfold merge_runs in Hd, Hv.
  rewrite foldl_app. cbn. destruct (merge_accesses_view less _ run Hd) as [_ Hv'].
  rewrite Hv', view_fold_lookup by exact Hrun. specialize (Hv k).
  assert (∀ a b, a ∈ run → b ∈ run → key_of a = key_of b → a = b) as Huniq.
  { clear -Hrun. induction run as [|c run IHr]; intros a b; [by intros ?%elem_of_nil|].
    cbn in Hrun. inversion Hrun as [|?? Hn Hnd]; subst.
    intros [->|Ha]%elem_of_cons [->|Hb]%elem_of_cons E; [done|..|by apply IHr]; exfalso; apply Hn;
      [rewrite E|rewrite <- E]; by apply (list_elem_of_fmap_2 key_of). }
  pose proof (find_observed k run) as Hf. destruct (List.find _ run) as [a|]; intros r.
  - destruct Hf as (Ha & Hk & _). intros [= <-].
    assert (∀ b, b ∈ run → key_of b = k → b = a) as Hb by (intros b ? ?; apply Huniq; congruence).
    destruct (view _ !! k) as [r0|] eqn:E.
    + rewrite has_bump, (IH r0 eq_refl) by done. setoid_rewrite elem_of_app. setoid_rewrite list_elem_of_singleton.
      split; [intros [(rn & b & ? & ? & ? & ?)|?]; [exists rn, b|exists run, a]; by auto 10|].
      intros (rn & b & [?| ->] & Hbr & Hbk & Hbh); [left; by exists rn, b|right; by rewrite <- (Hb b Hbr Hbk)].
    + rewrite has_fresh by done. setoid_rewrite elem_of_app. setoid_rewrite list_elem_of_singleton.
      split; [intros ?; exists run, a; by auto 10|].
      intros (rn & b & [Hrn| ->] & Hbr & Hbk & Hbh); [|by rewrite <- (Hb b Hbr Hbk)].
      exfalso. unfold run_count in Hv.
      assert (rn ∈ List.filter (observed_in k) runs) as Hin.
      { apply list_elem_of_In, filter_In. split; [by apply list_elem_of_In|].
        apply bool_decide_eq_true. rewrite <- Hbk. by apply (list_elem_of_fmap_2 key_of). }
      destruct (List.filter _ runs); [by apply elem_of_nil in Hin|done].
  - intros E. rewrite (IH r E). setoid_rewrite elem_of_app. setoid_rewrite list_elem_of_singleton.
    split; [intros (rn & b & ? & ? & ? & ?); exists rn, b; by auto 10|]. intros (rn & b & [?| ->] & Hbr & Hbk & Hbh); [by exists rn, b|].
    exfalso. apply bool_decide_eq_false in Hf. apply Hf. rewrite <- Hbk. by apply (list_elem_of_fmap_2 key_of).
Qed.
End merge.

(** ** Records *)
Module History.

Record FileAccessRecord := mkFileAccessRecord {
  fr_Path : string; fr_Permissions : list FilePermission; fr_SeenInRuns : Z }.
Record NetworkAccessRecord := mkNetworkAccessRecord {
  nr_Port : Z; nr_Direction : NetworkDirection; nr_SeenInRuns : Z }.
Record SyscallAccessRecord := mkSyscallAccessRecord { sr_Name : string; sr_SeenInRuns : Z }.
Record CapabilityAccessRecord := mkCapabilityAccessRecord { cr_Name : string; cr_SeenInRuns : Z }.

Definition netRecordKey : Type := Z * NetworkDirection.
Definition net_key (a : NetworkAccess) : netRecordKey := (na_Port a, na_Direction a).
Definition net_record_key (r : NetworkAccessRecord) : netRecordKey := (nr_Port r, nr_Direction r).

(** The union in the fixed order read, write, execute. *)
Definition mergePermissions (existing observed : list FilePermission) : list FilePermission :=
  List.filter (fun p => bool_decide (p ∈ existing) || bool_decide (p ∈ observed))
    [PermissionRead; PermissionWrite; PermissionExecute].

Definition mergeFileAccesses (existing : list FileAccessRecord) (observed : list FileAccess) : list FileAccessRecord :=
  merge_accesses fa_Path fr_Path
    (fun access r => mkFileAccessRecord (fr_Path r) (mergePermissions (fr_Permissions r) (fa_Permissions access))
                       (fr_SeenInRuns r + 1)%Z)
    (fun access => mkFileAccessRecord (fa_Path access) (fa_Permissions access) 1)
    (less_on fr_Path string_ltb) existing observed.

Definition less_net_record (a b : NetworkAccessRecord) : bool :=
  if negb (nr_Port a =? nr_Port b)%Z then (nr_Port a <? nr_Port b)%Z else string_ltb (nr_Direction a) (nr_Direction b).

Definition mergeNetworkAccesses (existing : list NetworkAccessRecord) (observed : list NetworkAccess)
  : list NetworkAccessRecord :=
  merge_accesses net_key net_record_key
    (fun _ r => mkNetworkAccessRecord (nr_Port r) (nr_Direction r) (nr_SeenInRuns r + 1)%Z)
    (fun access => mkNetworkAccessRecord (na_Port access) (na_Direction access) 1)
    less_net_record existing observed.

Definition mergeSyscallAccesses (existing : list SyscallAccessRecord) (observed : list SyscallAccess)
  : list SyscallAccessRecord :=
  merge_accesses sa_Name sr_Name
    (fun _ r => mkSyscallAccessRecord (sr_Name r) (sr_SeenInRuns r + 1)%Z)
    (fun access => mkSyscallAccessRecord (sa_Name access) 1)
    (less_on sr_Name string_ltb) existing observed.

Definition mergeCapabilityAccesses (existing : list CapabilityAccessRecord) (observed : list CapabilityAccess)
  : list CapabilityAccessRecord :=
  merge_accesses ca_Name cr_Name
    (fun _ r => mkCapabilityAccessRecord (cr_Name r) (cr_SeenInRuns r + 1)%Z)
    (fun access => mkCapabilityAccessRecord (ca_Name access) 1)
    (less_on cr_Name string_ltb) existing observed.

(** *** Identity *)
Abbreviation PopulationScope := string.
Definition ScopeBinary : PopulationScope := "BINARY".
Definition ScopeContainer : PopulationScope := "CONTAINER".
Definition ErrInvalidPopulationIdentity : string := "invalid population identity".
Definition ErrInvalidContribution : string := "invalid observation contribution".

Record PopulationIdentity := mkPopulationIdentity {
  pi_Scope : PopulationScope; pi_Target : string; pi_Container : string; pi_ImageIdentity : string;
  pi_BinaryPath : string }.
(** [PopulationFingerprint] has the same fields. *)
Abbreviation PopulationFingerprint := PopulationIdentity.
#[export] Instance PopulationIdentity_eq_dec : EqDecision PopulationIdentity.
Proof. solve_decision. Defined.

Definition PopulationIdentity_Validate (i : PopulationIdentity) : result unit :=
  fail_if empty (pi_Target i) || empty (pi_Container i) || empty (pi_ImageIdentity i)
    with mkError ErrInvalidPopulationIdentity "target, container, and image identity are required";
  if bool_decide (pi_Scope i = ScopeBinary) then
    fail_if empty (pi_BinaryPath i)
      with mkError ErrInvalidPopulationIdentity "binary scope requires binary path"; Ok ()
  else if bool_decide (pi_Scope i = ScopeContainer) then
    fail_if negb (empty (pi_BinaryPath i))
      with mkError ErrInvalidPopulationIdentity "container scope forbids binary path"; Ok ()
  else Err (mkError ErrInvalidPopulationIdentity "unsupported population scope").

Definition with_scope (f : PopulationFingerprint) (scope : PopulationScope) : PopulationFingerprint :=
  mkPopulationIdentity scope (pi_Target f) (pi_Container f) (pi_ImageIdentity f) (pi_BinaryPath f).

Definition normalized (f : PopulationFingerprint) : result PopulationFingerprint :=
  fail_if empty (pi_Target f) || empty (pi_Container f) || empty (pi_ImageIdentity f)
    with mkError ErrInvalidPopulationIdentity "target, container, and image identity are required";
  fail_if empty (pi_Scope f) && empty (pi_BinaryPath f)
    with mkError ErrInvalidPopulationIdentity "legacy binary population requires binary path";
  let f := if empty (pi_Scope f) then with_scope f ScopeBinary else f in
  if bool_decide (pi_Scope f = ScopeBinary) then
    fail_if empty (pi_BinaryPath f)
      with mkError ErrInvalidPopulationIdentity "binary population requires binary path"; Ok f
  else if bool_decide (pi_Scope f = ScopeContainer) then
    fail_if negb (empty (pi_BinaryPath f))
      with mkError ErrInvalidPopulationIdentity "container population forbids binary path"; Ok f
  else Err (mkError ErrInvalidPopulationIdentity "unsupported population scope").

Definition PopulationFingerprint_Valid (f : PopulationFingerprint) : bool := is_ok (normalized f).

Definition legacy_scope (f : PopulationFingerprint) : PopulationFingerprint :=
  if empty (pi_Scope f) && negb (empty (pi_BinaryPath f)) then with_scope f ScopeBinary else f.
Definition PopulationFingerprint_Equal (f other : PopulationFingerprint) : bool :=
  bool_decide (legacy_scope f = legacy_scope other).

Definition nul : string := String "000"%char "".
Definition populationKey (f : PopulationFingerprint) : string :=
  pi_Target f +:+ nul +:+ pi_Container f +:+ nul +:+ pi_ImageIdentity f +:+ nul +:+ pi_BinaryPath f.

Definition ContainerPopulationCanonicalBytes (i : PopulationIdentity) : result string :=
  fail_if negb (bool_decide (pi_Scope i = ScopeContainer))
    with mkError ErrInvalidPopulationIdentity "container fingerprint requires CONTAINER scope";
  _ ← PopulationIdentity_Validate i;
  put_all put_string ["population-container-v2"; pi_Target i; pi_Container i; pi_ImageIdentity i].

Definition ContainerPopulationFingerprint (i : PopulationIdentity) : result string :=
  canonical ← ContainerPopulationCanonicalBytes i; Ok (sha256_digest canonical).

Definition FingerprintForPopulation (i : PopulationIdentity) : result string :=
  _ ← PopulationIdentity_Validate i;
  if bool_decide (pi_Scope i = ScopeBinary) then Ok (populationKey i) else ContainerPopulationFingerprint i.

(** *** Contribution keys *)
Record ContributionKey := mkContributionKey { ck_ObservationID : string; ck_Population : PopulationFingerprint }.
Definition maxObservationID : nat := 128.

Definition ContributionKey_Valid (k : ContributionKey) : bool :=
  (0 <? String.length (ck_ObservationID k)) && (String.length (ck_ObservationID k) <=? maxObservationID) &&
  PopulationFingerprint_Valid (ck_Population k).

Definition key_fields (id : string) (population : PopulationFingerprint) : list string :=
  [id] ++ (if bool_decide (pi_Scope population = ScopeContainer) then ["population-container-v2"] else []) ++
  [pi_Target population; pi_Container population; pi_ImageIdentity population] ++
  (if bool_decide (pi_Scope population = ScopeBinary) then [pi_BinaryPath population] else []).

Definition ContributionKey_CanonicalBytes (k : ContributionKey) : result string :=
  fail_if negb (ContributionKey_Valid k) with mkError ErrInvalidContribution "invalid contribution key";
  population ← normalized (ck_Population k);
  body ← put_all put_string (key_fields (ck_ObservationID k) population);
  Ok ("contribution-key-v1" +:+ body).

Definition ContributionKey_Digest (k : ContributionKey) : result string :=
  b ← ContributionKey_CanonicalBytes k; Ok (hex_encode (sha256 (string_bytes b))).

Definition ReceiptName (k : ContributionKey) : result string :=
  digest ← ContributionKey_Digest k; Ok ("obscontrib-" +:+ String.substring 0 32 digest).

(** *** Provenance *)
Definition sources : list string := ["filesystem"; "exec"; "networkConnect"; "networkBind"; "capabilities"].
Definition validSource (source : string) : bool := bool_decide (source ∈ sources).
Definition validEvidence (value : string) : bool := bool_decide (value ∈ ["EMPTY"; "AVAILABLE"; "UNKNOWN"]).
Definition validAttribution (value : string) : bool :=
  bool_decide (value ∈ ["NOT_STARTED"; "IN_PROGRESS"; "COMPLETED"; "FAILED"]).

Record ObservationSourceContribution := mkObservationSourceContribution {
  os_Source : string; os_EvidenceState : string; os_AttributionState : string; os_BackendHealthy : bool;
  os_AttachedForWindow : bool; os_FlushConfirmed : bool; os_AttributedCount : Z; os_ExcludedCount : Z;
  os_NormalizedFactCount : Z }.

Record ObservationContribution := mkObservationContribution {
  oc_ObservationID : string; oc_Sources : list ObservationSourceContribution;
  oc_CapabilityFacts : list string; oc_CapabilityFactsComplete : bool }.

Record ContributionMarker := mkContributionMarker {
  cm_ObservationID : string; cm_Population : PopulationFingerprint; cm_KeyDigest : string }.

Definition invalid {A} (msg : string) : result A := Err (mkError ErrInvalidContribution msg).

Definition ObservationSourceContribution_Validate (s : ObservationSourceContribution) : result unit :=
  fail_if negb (validSource (os_Source s)) || negb (validEvidence (os_EvidenceState s)) ||
          negb (validAttribution (os_AttributionState s)) || (os_AttributedCount s <? 0)%Z ||
          (os_ExcludedCount s <? 0)%Z || (os_NormalizedFactCount s <? 0)%Z ||
          (0 <? os_NormalizedFactCount s)%Z && (os_AttributedCount s =? 0)%Z
    with mkError ErrInvalidContribution "invalid source summary";
  Ok ().

Fixpoint validate_summaries (seen : list string) (l : list ObservationSourceContribution) : result unit :=
  match l with
  | [] => Ok ()
  | source :: l =>
      _ ← ObservationSourceContribution_Validate source;
      fail_if bool_decide (os_Source source ∈ seen) with mkError ErrInvalidContribution "duplicate source summary";
      validate_summaries (os_Source source :: seen) l
  end.

(** Nonempty and strictly increasing. *)
Fixpoint canonical_facts (prev : option string) (l : list string) : bool :=
  match l with
  | [] => true
  | c :: l =>
      negb (empty c) && match prev with Some p => string_ltb p c | None => true end && canonical_facts (Some c) l
  end.

Definition maxContributionSourceSummaries : nat := 16.

Definition ObservationContribution_Validate (c : ObservationContribution) : result unit :=
  fail_if empty (oc_ObservationID c) || (maxObservationID <? String.length (oc_ObservationID c)) ||
          (length (oc_Sources c) =? 0) || (maxContributionSourceSummaries <? length (oc_Sources c))
    with mkError ErrInvalidContribution "invalid contribution";
  _ ← validate_summaries [] (oc_Sources c);
  fail_if negb (canonical_facts None (oc_CapabilityFacts c))
    with mkError ErrInvalidContribution "capability facts are invalid or not canonical";
  if oc_CapabilityFactsComplete c then
    match List.find (fun s => bool_decide (os_Source s = "capabilities")) (oc_Sources c) with
    | None => invalid "capability facts marked complete without complete source qualification"
    | Some s =>
        fail_if negb (bool_decide (os_AttributionState s = "COMPLETED")) || negb (os_BackendHealthy s) ||
                negb (os_AttachedForWindow s) || negb (os_FlushConfirmed s) ||
                negb (os_ExcludedCount s =? 0)%Z || bool_decide (os_EvidenceState s = "UNKNOWN") ||
                (os_NormalizedFactCount s <? Z.of_nat (length (oc_CapabilityFacts c)))%Z
          with mkError ErrInvalidContribution "capability facts marked complete without complete source qualification";
        fail_if bool_decide (os_EvidenceState s = "EMPTY") && negb (length (oc_CapabilityFacts c) =? 0)
          with mkError ErrInvalidContribution "EMPTY capability evidence contains facts";
        Ok ()
    end
  else Ok ().

Definition ContributionMarker_KeyValid (m : ContributionMarker) : bool :=
  match ContributionKey_Digest (mkContributionKey (cm_ObservationID m) (cm_Population m)) with
  | Ok digest => bool_decide (digest = cm_KeyDigest m) && (String.length (cm_KeyDigest m) =? 64)
  | Err _ => false
  end.

Record Population := mkPopulation {
  p_Qualified : bool; p_Scope : PopulationScope; p_TargetBinding : option CanonicalTargetBinding;
  p_Target : string; p_Container : string; p_ImageIdentity : string; p_BinaryPath : string;
  p_RunsRecorded : Z; p_Contributors : list string;
  p_FilesystemAccesses : list FileAccessRecord; p_NetworkAccesses : list NetworkAccessRecord;
  p_SyscallAccesses : list SyscallAccessRecord; p_CapabilityAccesses : list CapabilityAccessRecord;
  p_ObservationContributions : list ObservationContribution;
  p_PendingContributionMarkers : list ContributionMarker }.

Definition Population_Identity (p : Population) : result PopulationIdentity :=
  let i := mkPopulationIdentity (p_Scope p) (p_Target p) (p_Container p) (p_ImageIdentity p) (p_BinaryPath p) in
  _ ← PopulationIdentity_Validate i; Ok i.

(** The released representation, without a scope, is of binary scope. *)
Definition NormalizeLegacyScope (p : Population) : result Population :=
  fail_if empty (p_Scope p) && empty (p_BinaryPath p)
    with mkError ErrInvalidPopulationIdentity "legacy population has no binary path";
  let p := if empty (p_Scope p) then
      mkPopulation (p_Qualified p) ScopeBinary (p_TargetBinding p) (p_Target p) (p_Container p) (p_ImageIdentity p)
        (p_BinaryPath p) (p_RunsRecorded p) (p_Contributors p) (p_FilesystemAccesses p) (p_NetworkAccesses p)
        (p_SyscallAccesses p) (p_CapabilityAccesses p) (p_ObservationContributions p) (p_PendingContributionMarkers p)
    else p in
  _ ← Population_Identity p; Ok p.

Definition PopulationIdentityEqual (a b : Population) : bool :=
  match Population_Identity a, Population_Identity b with
  | Ok aa, Ok bb =>
      bool_decide (pi_Scope aa = pi_Scope bb) && bool_decide (pi_Target aa = pi_Target bb) &&
      bool_decide (pi_Container aa = pi_Container bb) && bool_decide (pi_ImageIdentity aa = pi_ImageIdentity bb) &&
      (bool_decide (pi_Scope aa = ScopeContainer) || bool_decide (pi_BinaryPath aa = pi_BinaryPath bb))
  | _, _ => false
  end.

Fixpoint validate_contributions (seen : list string) (l : list ObservationContribution) : result (list string) :=
  match l with
  | [] => Ok seen
  | c :: l =>
      _ ← ObservationContribution_Validate c;
      fail_if bool_decide (oc_ObservationID c ∈ seen)
        with mkError ErrInvalidContribution "duplicate observation contribution";
      validate_contributions (oc_ObservationID c :: seen) l
  end.

Fixpoint validate_markers (seen : list string) (l : list ContributionMarker) : result unit :=
  match l with
  | [] => Ok ()
  | m :: l =>
      fail_if negb (ContributionMarker_KeyValid m) with mkError ErrInvalidContribution "invalid contribution marker";
      fail_if bool_decide (cm_KeyDigest m ∈ seen) with mkError ErrInvalidContribution "duplicate contribution marker";
      validate_markers (cm_KeyDigest m :: seen) l
  end.

(** [l[i-1] > l[i]] for no [i]. *)
Fixpoint ascending (l : list string) : bool :=
  match l with
  | x :: (y :: _) as l' => negb (string_ltb y x) && ascending l'
  | _ => true
  end.

Definition maxObservationContributions : nat := 256.
Definition maxPendingContributionMarkers : nat := 32.

Definition ValidateObservationMetadata (p : Population) : result unit :=
  let cs := p_ObservationContributions p in
  let ms := p_PendingContributionMarkers p in
  fail_if (maxObservationContributions <? length cs) || (maxPendingContributionMarkers <? length ms)
    with mkError ErrInvalidContribution "metadata bound exceeded";
  seen ← validate_contributions [] cs;
  _ ← validate_markers seen ms;
  fail_if negb (ascending (map oc_ObservationID cs)) with mkError ErrInvalidContribution "contributions not canonical";
  fail_if existsb (fun c => negb (ascending (map os_Source (oc_Sources c)))) cs
    with mkError ErrInvalidContribution "source summaries not canonical";
  fail_if negb (ascending (map cm_KeyDigest ms)) with mkError ErrInvalidContribution "markers not canonical";
  Ok ().

(** *** Merging a run *)
Record Record_ := mkRecord {
  rec_Container : string; rec_Binary : string; rec_RunsRecorded : Z;
  rec_FilesystemAccesses : list FileAccessRecord; rec_NetworkAccesses : list NetworkAccessRecord;
  rec_SyscallAccesses : list SyscallAccessRecord; rec_CapabilityAccesses : list CapabilityAccessRecord;
  rec_Populations : list Population }.

Definition new_record (container binary : string) : Record_ := mkRecord container binary 0 [] [] [] [] [].

Definition Merge (existing : option Record_) (container binary : string) (behavior : BehaviorProfile) : Record_ :=
  let r := match existing with Some r => r | None => new_record container binary end in
  mkRecord (rec_Container r) (rec_Binary r) (rec_RunsRecorded r + 1)%Z
    (mergeFileAccesses (rec_FilesystemAccesses r) (Filesystem behavior))
    (mergeNetworkAccesses (rec_NetworkAccesses r) (Network behavior))
    (mergeSyscallAccesses (rec_SyscallAccesses r) (sp_Accesses (Syscalls behavior)))
    (mergeCapabilityAccesses (rec_CapabilityAccesses r) (Capabilities behavior))
    (rec_Populations r).

Definition mergeBehaviorIntoPopulation (p : Population) (behavior : BehaviorProfile) : Population :=
  mkPopulation (p_Qualified p) (p_Scope p) (p_TargetBinding p) (p_Target p) (p_Container p) (p_ImageIdentity p)
    (p_BinaryPath p) (p_RunsRecorded p) (p_Contributors p)
    (mergeFileAccesses (p_FilesystemAccesses p) (Filesystem behavior))
    (mergeNetworkAccesses (p_NetworkAccesses p) (Network behavior))
    (mergeSyscallAccesses (p_SyscallAccesses p) (sp_Accesses (Syscalls behavior)))
    (mergeCapabilityAccesses (p_CapabilityAccesses p) (Capabilities behavior))
    (p_ObservationContributions p) (p_PendingContributionMarkers p).

Definition populationFingerprint (p : Population) : PopulationFingerprint :=
  mkPopulationIdentity (if bool_decide (p_Scope p = ScopeBinary) then "" else p_Scope p)
    (p_Target p) (p_Container p) (p_ImageIdentity p) (p_BinaryPath p).

Definition qualifiedPopulationRuns (populations : list Population) : Z :=
  foldl (fun total p => if p_Qualified p then (total + p_RunsRecorded p)%Z else total) 0%Z populations.

(** The population a fingerprint starts: always of binary scope. *)
Definition new_population (fingerprint : PopulationFingerprint) (target : option CanonicalTargetBinding) : Population :=
  mkPopulation (PopulationFingerprint_Valid fingerprint) ScopeBinary
    (if PopulationFingerprint_Valid fingerprint then target else None)
    (pi_Target fingerprint) (pi_Container fingerprint) (pi_ImageIdentity fingerprint) (pi_BinaryPath fingerprint)
    0 [] [] [] [] [] [] [].

(** One more run by [subject]. *)
Definition count_run (subject : string) (behavior : BehaviorProfile) (p : Population) : Population :=
  let contributors :=
    if negb (empty subject) && negb (bool_decide (subject ∈ p_Contributors p))
    then sort_strings (p_Contributors p ++ [subject]) else p_Contributors p in
  mergeBehaviorIntoPopulation
    (mkPopulation (p_Qualified p) (p_Scope p) (p_TargetBinding p) (p_Target p) (p_Container p) (p_ImageIdentity p)
       (p_BinaryPath p) (p_RunsRecorded p + 1)%Z contributors (p_FilesystemAccesses p) (p_NetworkAccesses p)
       (p_SyscallAccesses p) (p_CapabilityAccesses p) (p_ObservationContributions p)
       (p_PendingContributionMarkers p)) behavior.

(** Update the first population of the fingerprint, appending one if there is none. *)
Fixpoint update_population (fingerprint : PopulationFingerprint) (target : option CanonicalTargetBinding)
  (f : Population → Population) (l : list Population) : list Population :=
  match l with
  | [] => [f (new_population fingerprint target)]
  | p :: l =>
      if PopulationFingerprint_Equal (populationFingerprint p) fingerprint then f p :: l
      else p :: update_population fingerprint target f l
  end.

Definition legacy_present (r : Record_) : bool :=
  negb (length (rec_FilesystemAccesses r) =? 0) || negb (length (rec_NetworkAccesses r) =? 0) ||
  negb (length (rec_SyscallAccesses r) =? 0) || negb (length (rec_CapabilityAccesses r) =? 0) ||
  ((length (rec_Populations r) =? 0) && (0 <? rec_RunsRecorded r)%Z).

Definition mergePopulation (existing : option Record_) (fingerprint : PopulationFingerprint) (subject : string)
  (behavior : BehaviorProfile) (target : option CanonicalTargetBinding) : Record_ :=
  let legacyPresent := match existing with Some r => legacy_present r | None => false end in
  let r := match existing with
           | Some r => r
           | None => new_record (pi_Container fingerprint) (pi_BinaryPath fingerprint)
           end in
  let populations := sort_by (less_on (fun p => populationKey (populationFingerprint p)) string_ltb)
    (update_population fingerprint target (count_run subject behavior) (rec_Populations r)) in
  mkRecord (rec_Container r) (rec_Binary r)
    (if legacyPresent then rec_RunsRecorded r else qualifiedPopulationRuns populations)
    (rec_FilesystemAccesses r) (rec_NetworkAccesses r) (rec_SyscallAccesses r) (rec_CapabilityAccesses r) populations.

Definition MergePopulation (existing : option Record_) (fingerprint : PopulationFingerprint) (subject : string)
  (behavior : BehaviorProfile) : Record_ := mergePopulation existing fingerprint subject behavior None.
Definition MergePopulationWithTarget (existing : option Record_) (fingerprint : PopulationFingerprint)
  (subject : string) (behavior : BehaviorProfile) (target : CanonicalTargetBinding) : Record_ :=
  mergePopulation existing fingerprint subject behavior (Some target).

(** *** Confidence *)
Definition confidenceForHistory (seenInRuns runsRecorded : Z) : Confidence :=
  if (seenInRuns <? 0)%Z || (runsRecorded <? 0)%Z || (runsRecorded <? seenInRuns)%Z then ConfidenceLow
  else if (2 <=? runsRecorded)%Z && (seenInRuns =? runsRecorded)%Z then ConfidenceHigh
  else if (2 <=? runsRecorded)%Z && (runsRecorded <=? seenInRuns * 2)%Z then ConfidenceMedium
  else ConfidenceLow.

Definition ApplyConfidence (record : option Record_) (behavior : BehaviorProfile) : BehaviorProfile :=
  match record with
  | None => behavior
  | Some r =>
      let n := rec_RunsRecorded r in
      mkBehaviorProfile
        (map (fun a => mkFileAccess (fr_Path a) (fr_Permissions a) (confidenceForHistory (fr_SeenInRuns a) n)
                         (Z.to_nat (fr_SeenInRuns a))) (rec_FilesystemAccesses r))
        (map (fun a => mkNetworkAccess (nr_Port a) (nr_Direction a) (confidenceForHistory (nr_SeenInRuns a) n)
                         (Z.to_nat (nr_SeenInRuns a))) (rec_NetworkAccesses r))
        (mkSyscallProfile
          (map (fun a => mkSyscallAccess (sr_Name a) (confidenceForHistory (sr_SeenInRuns a) n)
                           (Z.to_nat (sr_SeenInRuns a))) (rec_SyscallAccesses r))
          (sp_Architectures (Syscalls behavior)))
        (map (fun a => mkCapabilityAccess (cr_Name a) (confidenceForHistory (cr_SeenInRuns a) n)
                         (Z.to_nat (cr_SeenInRuns a))) (rec_CapabilityAccesses r))
  end.

Definition ApplyPopulationConfidence (record : option Record_) (fingerprint : PopulationFingerprint)
  (behavior : BehaviorProfile) : BehaviorProfile :=
  match record with
  | None => behavior
  | Some r =>
      if negb (PopulationFingerprint_Valid fingerprint) then behavior
      else match List.find (fun p => p_Qualified p && PopulationFingerprint_Equal (populationFingerprint p) fingerprint)
                   (rec_Populations r) with
           | Some p => ApplyConfidence (Some (mkRecord "" "" (p_RunsRecorded p) (p_FilesystemAccesses p)
                         (p_NetworkAccesses p) (p_SyscallAccesses p) (p_CapabilityAccesses p) [])) behavior
           | None => behavior
           end
  end.

(** ** Theorems: records count runs *)

(** Merging the profiles of successive runs, from nothing. *)
Definition merge_history (container binary : string) (runs : list BehaviorProfile) : option Record_ :=
  foldl (fun r b => Some (Merge r container binary b)) None runs.

(** A list of records is the table of a counting function. *)
Definition counts {R K} `{Countable K} (key : R → K) (seen : R → Z) (l : list R) (count : K → nat) : Prop :=
  NoDup (map key l) ∧
  (∀ r, r ∈ l → seen r = Z.of_nat (count (key r)) ∧ 0 < count (key r)) ∧
  ∀ k, 0 < count k → ∃ r, r ∈ l ∧ key r = k.

Lemma counts_of_view {R K} `{Countable K} (key : R → K) seen l count :
  distinct key l →
  (∀ k, match view key l !! k with Some r => seen r = Z.of_nat (count k) ∧ 0 < count k | None => count k = 0 end) →
  counts key seen l count.
Proof.
  intros Hd Hv. split; [done|]. split.
  - intros r Hr. assert (view key l !! key r = Some r) as E by by apply lookup_view.
    specialize (Hv (key r)). by rewrite E in Hv.
  - intros k Hk. specialize (Hv k). destruct (view key l !! k) as [r|] eqn:E; [|lia].
    exists r. by apply lookup_view in E.
Qed.

Lemma counts_merge_runs {A R K} `{Countable K} (key_of : A → K) (key : R → K) bump fresh seen less runs :
  (∀ a r, key (bump a r) = key r) → (∀ a, key (fresh a) = key_of a) →
  (∀ a r, seen (bump a r) = (seen r + 1)%Z) → (∀ a, seen (fresh a) = 1%Z) →
  Forall (fun run => NoDup (map key_of run)) runs →
  counts key seen (merge_runs key_of key bump fresh less runs) (fun k => run_count key_of k runs).
Proof.
  intros H1 H2 H3 H4 Hnd.
  destruct (merge_runs_view key_of key bump fresh H1 H2 seen H3 H4 less runs Hnd) as [Hd Hv].
  by apply counts_of_view.
Qed.

(** The keys of a profile are distinct, as the synthesis produces them. *)
Definition wf_profile (b : BehaviorProfile) : Prop :=
  NoDup (map fa_Path (Filesystem b)) ∧ NoDup (map net_key (Network b)) ∧
  NoDup (map sa_Name (sp_Accesses (Syscalls b))) ∧ NoDup (map ca_Name (Capabilities b)).

Definition path_runs (runs : list BehaviorProfile) (path : string) : nat :=
  run_count fa_Path path (map Filesystem runs).
Definition net_runs (runs : list BehaviorProfile) (k : netRecordKey) : nat :=
  run_count net_key k (map Network runs).
Definition syscall_runs (runs : list BehaviorProfile) (name : string) : nat :=
  run_count sa_Name name (map (fun b => sp_Accesses (Syscalls b)) runs).
Definition capability_runs (runs : list BehaviorProfile) (name : string) : nat :=
  run_count ca_Name name (map Capabilities runs).

Definition known_permission (p : FilePermission) : Prop :=
  p ∈ [PermissionRead; PermissionWrite; PermissionExecute].

Lemma elem_of_mergePermissions existing observed p :
  known_permission p → p ∈ mergePermissions existing observed ↔ p ∈ existing ∨ p ∈ observed.
Proof.
  intros Hp. unfold mergePermissions. rewrite list_elem_of_In, filter_In, <- list_elem_of_In.
  rewrite orb_true_iff, !bool_decide_eq_true. naive_solver.
Qed.

(** The record of a nonempty history, kind by kind. *)
Lemma merge_history_lists container binary runs :
  runs ≠ [] → ∃ r, merge_history container binary runs = Some r ∧
    rec_RunsRecorded r = Z.of_nat (length runs) ∧
    rec_FilesystemAccesses r = foldl mergeFileAccesses [] (map Filesystem runs) ∧
    rec_NetworkAccesses r = foldl mergeNetworkAccesses [] (map Network runs) ∧
    rec_SyscallAccesses r = foldl mergeSyscallAccesses [] (map (fun b => sp_Accesses (Syscalls b)) runs) ∧
    rec_CapabilityAccesses r = foldl mergeCapabilityAccesses [] (map Capabilities runs).
Proof.
  unfold merge_history. induction runs as [|b runs IH] using rev_ind; [done|]. intros _.
  rewrite !map_app, !foldl_app, length_app. cbn.
  destruct (decide (runs = [])) as [->|Hne]; [by eexists|].
  destruct (IH Hne) as (r & -> & E0 & E1 & E2 & E3 & E4). eexists. split; [done|].
  unfold Merge. cbn. rewrite E0, E1, E2, E3, E4. split; [lia|done].
Qed.

(** C39: A history counts runs.  After any number of merged runs, every access
    kind holds one record per key observed in some run, and its [SeenInRuns] is
    the number of runs that observed the key; the permissions of a path are
    those some run recorded for it. *)
Theorem Merge_counts_runs container binary runs :
  runs ≠ [] → Forall wf_profile runs →
  ∃ r, merge_history container binary runs = Some r ∧
    rec_RunsRecorded r = Z.of_nat (length runs) ∧
    counts fr_Path fr_SeenInRuns (rec_FilesystemAccesses r) (path_runs runs) ∧
    counts net_record_key nr_SeenInRuns (rec_NetworkAccesses r) (net_runs runs) ∧
    counts sr_Name sr_SeenInRuns (rec_SyscallAccesses r) (syscall_runs runs) ∧
    counts cr_Name cr_SeenInRuns (rec_CapabilityAccesses r) (capability_runs runs) ∧
    ∀ e p, e ∈ rec_FilesystemAccesses r → known_permission p →
      p ∈ fr_Permissions e ↔
      ∃ b a, b ∈ runs ∧ a ∈ Filesystem b ∧ fa_Path a = fr_Path e ∧ p ∈ fa_Permissions a.
Proof.
  intros Hne Hwf. destruct (merge_history_lists container binary runs Hne) as (r & Hr & E0 & E1 & E2 & E3 & E4).
  exists r. split; [done|]. split; [done|]. rewrite E1, E2, E3, E4.
  assert (∀ {A} (f : BehaviorProfile → list A) {K} (k : A → K),
    (∀ b, wf_profile b → NoDup (map k (f b))) → Forall (fun run => NoDup (map k run)) (map f runs)) as Hall.
  { intros A f K k Hf. apply Forall_map. eapply Forall_impl; [exact Hwf|]. exact Hf. }
  assert (Forall (fun run => NoDup (map fa_Path run)) (map Filesystem runs)) as HF by (apply Hall; by intros b (?&?&?&?)).
  assert (Forall (fun run => NoDup (map net_key run)) (map Network runs)) as HN by (apply Hall; by intros b (?&?&?&?)).
  assert (Forall (fun run => NoDup (map sa_Name run)) (map (fun b => sp_Accesses (Syscalls b)) runs)) as HS
    by (apply (Hall _ (fun b => sp_Accesses (Syscalls b))); by intros b (?&?&?&?)).
  assert (Forall (fun run => NoDup (map ca_Name run)) (map Capabilities runs)) as HC by (apply Hall; by intros b (?&?&?&?)).
  split; [|split; [|split; [|split]]].
  - by apply (counts_merge_runs fa_Path).
  - apply (counts_merge_runs net_key); done || by intros ? [].
  - by apply (counts_merge_runs sa_Name).
  - by apply (counts_merge_runs ca_Name).
  - intros e p He Hp.
    assert (view fr_Path (foldl mergeFileAccesses [] (map Filesystem runs)) !! fr_Path e = Some e) as Hv.
    { apply lookup_view; [|done]. by apply (counts_merge_runs fa_Path fr_Path _ _ fr_SeenInRuns). }
    assert (p ∈ fr_Permissions e ↔ ∃ run a, run ∈ map Filesystem runs ∧ a ∈ run ∧ fa_Path a = fr_Path e ∧
      p ∈ fa_Permissions a) as ->.
    { unshelve (eapply (merge_runs_has fa_Path fr_Path _ _ _ _ fr_SeenInRuns _ _ (fun r p => p ∈ fr_Permissions r)
        (fun a p => p ∈ fa_Permissions a) known_permission _ _ _ _ _ _ _ HF Hp Hv)); try done.
      intros a x q Hq. by apply elem_of_mergePermissions. }
    split.
    + intros (run & a & (b & -> & Hb)%list_elem_of_fmap & Ha & ? & ?). by exists b, a.
    + intros (b & a & Hb & Ha & ? & ?). exists (Filesystem b), a. split; [|done].
      by apply (list_elem_of_fmap_2 Filesystem).
Qed.

Definition ex_run (paths : list string) : BehaviorProfile :=
  mkBehaviorProfile (map (fun p => mkFileAccess p [PermissionRead] ConfidenceLow 1) paths) []
    (mkSyscallProfile [] []) [].

Lemma Merge_counts_runs_witness :
  ∃ r, merge_history "app" "/bin/app" [ex_run ["/etc"; "/var"]; ex_run ["/etc"]] = Some r ∧ rec_RunsRecorded r = 2%Z.
Proof.
  destruct (Merge_counts_runs "app" "/bin/app" [ex_run ["/etc"; "/var"]; ex_run ["/etc"]]) as (r & Hr & Hn & _).
  - discriminate.
  - repeat constructor; cbn; rewrite ?list_elem_of_singleton; try done; apply not_elem_of_nil.
  - exists r. split; [exact Hr|exact Hn].
Defined.

(** *** Confidence *)
Lemma confidenceForHistory_cases (c n : nat) :
  c ≤ n →
  (confidenceForHistory (Z.of_nat c) (Z.of_nat n) = ConfidenceHigh ↔ 2 ≤ n ∧ c = n) ∧
  (confidenceForHistory (Z.of_nat c) (Z.of_nat n) = ConfidenceMedium ↔ 2 ≤ n ∧ c < n ∧ n ≤ 2 * c).
Proof.
  intros Hc. unfold confidenceForHistory.
  destruct (Z.ltb_spec (Z.of_nat c) 0), (Z.ltb_spec (Z.of_nat n) 0), (Z.ltb_spec (Z.of_nat n) (Z.of_nat c)); try lia.
  cbn [orb]. destruct (Z.leb_spec 2 (Z.of_nat n)), (Z.eqb_spec (Z.of_nat c) (Z.of_nat n)),
    (Z.leb_spec (Z.of_nat n) (Z.of_nat c * 2)); cbn [andb];
    (split; (split; [try discriminate; intros _; lia|intros ?; try reflexivity; exfalso; lia])).
Qed.

Lemma run_count_le {A K} `{Countable K} (key_of : A → K) k runs : run_count key_of k runs ≤ length runs.
Proof. unfold run_count. apply filter_length_le. Qed.

(** The profile exported from a history lists exactly the paths of all its
    runs, also those the last run did not observe, each with its run count as
    evidence; High confidence means seen in every one of at least two runs,
    Medium means seen in at least half of them but not in all. *)
Theorem ApplyConfidence_files container binary runs behavior :
  runs ≠ [] → Forall wf_profile runs →
  let out := Filesystem (ApplyConfidence (merge_history container binary runs) behavior) in
  (∀ b a, b ∈ runs → a ∈ Filesystem b → ∃ fa, fa ∈ out ∧ fa_Path fa = fa_Path a) ∧
  ∀ fa, fa ∈ out →
    let c := path_runs runs (fa_Path fa) in
    let n := length runs in
    0 < c ≤ n ∧ fa_SeenCount fa = c ∧
    (fa_Confidence fa = ConfidenceHigh ↔ 2 ≤ n ∧ c = n) ∧
    (fa_Confidence fa = ConfidenceMedium ↔ 2 ≤ n ∧ c < n ∧ n ≤ 2 * c).
Proof.
  intros Hne Hwf. destruct (merge_history_lists container binary runs Hne) as (r & Hr & En & E1 & _).
  rewrite Hr. cbn. rewrite En.
  assert (counts fr_Path fr_SeenInRuns (rec_FilesystemAccesses r) (path_runs runs)) as (Hd & Hc & Hk).
  { rewrite E1. apply (counts_merge_runs fa_Path); try done.
    apply Forall_map. eapply Forall_impl; [exact Hwf|]. by intros b (?&?&?&?). }
  assert (∀ k, path_runs runs k ≤ length runs) as Hle.
  { intros k. unfold path_runs. etrans; [apply run_count_le|]. by rewrite length_map. }
  split.
  - intros b a Hb Ha. destruct (Hk (fa_Path a)) as (e & He & Hek).
    { unfold path_runs, run_count.
      assert (Filesystem b ∈ List.filter (observed_in fa_Path (fa_Path a)) (map Filesystem runs)) as Hin.
      { apply list_elem_of_In, filter_In. split; [by apply list_elem_of_In, (list_elem_of_fmap_2 Filesystem)|].
        apply bool_decide_eq_true. by apply (list_elem_of_fmap_2 fa_Path). }
      destruct (List.filter _ _); [by apply elem_of_nil in Hin|cbn; lia]. }
    eexists. split; [apply list_elem_of_fmap; eexists; split; [reflexivity|exact He]|done].
  - intros fa (e & -> & He)%list_elem_of_fmap. cbn. destruct (Hc e He) as [Hs Hpos]. rewrite Hs.
    specialize (Hle (fr_Path e)). split; [lia|]. split; [lia|]. by apply confidenceForHistory_cases.
Qed.

Lemma ApplyConfidence_files_witness :
  let runs := [ex_run ["/etc"; "/var"]; ex_run ["/etc"]] in
  Forall (fun fa => 0 < fa_SeenCount fa) (Filesystem (ApplyConfidence (merge_history "app" "/bin/app" runs) (ex_run []))).
Proof.
  intros runs. apply Forall_forall. intros fa Hfa.
  destruct (ApplyConfidence_files "app" "/bin/app" runs (ex_run [])) as [_ H].
  - discriminate.
  - repeat constructor; cbn; rewrite ?list_elem_of_singleton; try done; apply not_elem_of_nil.
  - destruct (H fa Hfa) as (Hc & -> & _). destruct Hc as [Hc _]. exact Hc.
Defined.

(** *** Populations *)
Lemma update_population_split f target g l :
  (∃ l1 p l2, l = l1 ++ p :: l2 ∧
     Forall (fun q => PopulationFingerprint_Equal (populationFingerprint q) f = false) l1 ∧
     PopulationFingerprint_Equal (populationFingerprint p) f = true ∧
     update_population f target g l = l1 ++ g p :: l2) ∨
  (Forall (fun q => PopulationFingerprint_Equal (populationFingerprint q) f = false) l ∧
     update_population f target g l = l ++ [g (new_population f target)]).
Proof.
  induction l as [|p l IH]; cbn; [by right|].
  destruct (PopulationFingerprint_Equal (populationFingerprint p) f) eqn:E.
  - left. exists [], p, l. done.
  - destruct IH as [(l1 & q & l2 & -> & H1 & H2 & ->)|[H1 ->]].
    + left. exists (p :: l1), q, l2. split; [done|]. split; [by constructor|done].
    + right. split; [by constructor|done].
Qed.

(** A run is counted in exactly one population: the first one of its
    fingerprint, or a new one (qualified only for a valid fingerprint) when
    there is none; every other population, and the legacy lists of the record,
    are untouched. *)
Theorem mergePopulation_isolated existing f subject behavior target :
  let r' := mergePopulation existing f subject behavior target in
  let before := match existing with Some r => rec_Populations r | None => [] end in
  let fresh q := PopulationFingerprint_Equal (populationFingerprint q) f = false in
  ((∃ l1 p l2, before = l1 ++ p :: l2 ∧ Forall fresh l1 ∧
      PopulationFingerprint_Equal (populationFingerprint p) f = true ∧
      rec_Populations r' ≡ₚ l1 ++ count_run subject behavior p :: l2) ∨
   (Forall fresh before ∧
      rec_Populations r' ≡ₚ before ++ [count_run subject behavior (new_population f target)] ∧
      p_Qualified (new_population f target) = PopulationFingerprint_Valid f)) ∧
  match existing with
  | Some r => rec_FilesystemAccesses r' = rec_FilesystemAccesses r ∧
      rec_NetworkAccesses r' = rec_NetworkAccesses r ∧ rec_SyscallAccesses r' = rec_SyscallAccesses r ∧
      rec_CapabilityAccesses r' = rec_CapabilityAccesses r
  | None => rec_FilesystemAccesses r' = [] ∧ rec_NetworkAccesses r' = [] ∧ rec_SyscallAccesses r' = [] ∧
      rec_CapabilityAccesses r' = []
  end.
Proof.
  cbv zeta. split; [|by destruct existing].
  set (before := match existing with Some r => rec_Populations r | None => [] end).
  assert (rec_Populations (mergePopulation existing f subject behavior target) ≡ₚ
    update_population f target (count_run subject behavior) before) as Hp.
  { destruct existing; apply (sort_by_perm (less_on (fun p => populationKey (populationFingerprint p)) string_ltb)). }
  destruct (update_population_split f target (count_run subject behavior) before)
    as [(l1 & p & l2 & E & H1 & H2 & E')|[H1 E']]; rewrite E' in Hp; [left|right].
  - by exists l1, p, l2.
  - done.
Qed.

(** A fingerprint of container scope never finds its population again: the
    population is created with binary scope, so a second run creates a second
    one. *)
Example container_population_split :
  let f := mkPopulationIdentity ScopeContainer "Deployment/web" "app" "sha256:00" "" in
  let b := ex_run ["/etc"] in
  length (rec_Populations (MergePopulation (Some (MergePopulation None f "p1" b)) f "p2" b)) = 2.
Proof. vm_compute. reflexivity. Qed.

(** *** Contributions *)
Lemma validate_contributions_Ok seen l k :
  validate_contributions seen l = Ok k → Forall (fun c => ObservationContribution_Validate c = Ok ()) l.
Proof.
  revert seen. induction l as [|c l IH]; intros seen; cbn; [constructor|].
  intros H. inv_ok. constructor; [by destruct x|by eapply IH].
Qed.

(** *** Contribution keys *)
Lemma normalized_scope f n :
  normalized f = Ok n → (pi_Scope n = ScopeBinary ∧ pi_BinaryPath n ≠ "") ∨ (pi_Scope n = ScopeContainer ∧ pi_BinaryPath n = "").
Proof.
  unfold normalized. intros H. inv_ok. cbv zeta in H.
  set (g := if empty (pi_Scope f) then with_scope f ScopeBinary else f) in *. clearbody g.
  case_bool_decide as E1.
  - inv_ok. left. split; [done|]. by apply bool_decide_eq_false in Heqb1.
  - case_bool_decide as E2; [|done]. inv_ok. right. split; [done|]. by apply negb_false_iff, bool_decide_eq_true in Heqb1.
Qed.

(** The canonical bytes of a contribution key determine the observation and
    the normalised population, except for one confusion the encoding allows: a
    binary population whose target is the container domain tag reads as a
    container population with its fields shifted. *)
Theorem ContributionKey_CanonicalBytes_inj k k' b :
  ContributionKey_CanonicalBytes k = Ok b → ContributionKey_CanonicalBytes k' = Ok b →
  ck_ObservationID k = ck_ObservationID k' ∧
  ∃ n n', normalized (ck_Population k) = Ok n ∧ normalized (ck_Population k') = Ok n' ∧
    (n = n' ∨
     (pi_Scope n = ScopeBinary ∧ pi_Scope n' = ScopeContainer ∧ pi_Target n = "population-container-v2" ∧
      pi_Container n = pi_Target n' ∧ pi_ImageIdentity n = pi_Container n' ∧ pi_BinaryPath n = pi_ImageIdentity n') ∨
     (pi_Scope n' = ScopeBinary ∧ pi_Scope n = ScopeContainer ∧ pi_Target n' = "population-container-v2" ∧
      pi_Container n' = pi_Target n ∧ pi_ImageIdentity n' = pi_Container n ∧ pi_BinaryPath n' = pi_ImageIdentity n)).
Proof.
  unfold ContributionKey_CanonicalBytes. intros H H'.
  apply result_guard_Ok in H as [_ (n & Hn & (p & Hp & <-%Ok_inj)%result_bind_Ok)%result_bind_Ok].
  apply result_guard_Ok in H' as [_ (n' & Hn' & (p' & Hp' & E%Ok_inj)%result_bind_Ok)%result_bind_Ok].
  apply str_app_inj_l in E. symmetry in E.
  assert (∀ m id, normalized (ck_Population k) = Ok m ∨ normalized (ck_Population k') = Ok m →
    length (key_fields id m) = 5) as Hlen.
  { intros m id [Hm|Hm]; apply normalized_scope in Hm as [[Hs _]|[Hs _]]; unfold key_fields; by rewrite Hs. }
  assert (key_fields (ck_ObservationID k) n = key_fields (ck_ObservationID k') n') as Ef.
  { eapply (prefix_code_all put_string _ _ p p' "" "" prefix_code_string); [done..| |congruence].
    by rewrite !Hlen by auto. }
  pose proof (normalized_scope _ _ Hn) as Hs. pose proof (normalized_scope _ _ Hn') as Hs'.
  destruct n as [s t c i x], n' as [s' t' c' i' x']. cbn in *. unfold key_fields in Ef. cbn in Ef.
  destruct Hs as [[-> Hx]|[-> ->]], Hs' as [[-> Hx']|[-> ->]]; vm_compute bool_decide in Ef; cbn in Ef; simplify_eq;
    (split; [done|eexists _, _; split; [exact Hn|]; split; [exact Hn'|]]); auto 10.
Qed.

Definition ex_binary_key : ContributionKey :=
  mkContributionKey "obs-1" (mkPopulationIdentity ScopeBinary "population-container-v2" "web" "app" "sha256:00").
Definition ex_container_key : ContributionKey :=
  mkContributionKey "obs-1" (mkPopulationIdentity ScopeContainer "web" "app" "sha256:00" "").

(** The two distinct keys have one receipt name. *)
Example receipt_confusion :
  is_ok (ReceiptName ex_binary_key) = true ∧ ReceiptName ex_binary_key = ReceiptName ex_container_key.
Proof. vm_compute. split; reflexivity. Qed.

Lemma ContributionKey_CanonicalBytes_inj_witness : ck_ObservationID ex_binary_key = ck_ObservationID ex_container_key.
Proof.
  destruct (ContributionKey_CanonicalBytes ex_binary_key) as [b|] eqn:E; [|vm_compute in E; discriminate].
  apply (ContributionKey_CanonicalBytes_inj ex_binary_key ex_container_key b E).
  rewrite <- E. vm_compute. reflexivity.
Defined.
End History.
