(* ===== verification/Kube.v ===== *)
(** * The API server as the source uses it

    The Kubernetes API server and client-go are not part of the repository:
    they are a parameter.  Calls run in a state and error monad over an
    unspecified world, which may move between any two calls (other clients
    write too).  [ApiLaws] states the documented behaviour the stores rely on:
    a read returns a committed object, an object is stored under its name, a
    resource version identifies the
    content of a committed object, an object is created where there is none, a write with a stale version fails, and
    [RetryOnConflict] returns the outcome of one run of its body. *)
From S2P Require Import Prelude GoStd.

(** ** The monad *)
Definition M (W A : Type) : Type := W → result A * W.

Definition m_ret {W A} (a : A) : M W A := fun w => (Ok a, w).
Definition m_err {W A} (e : error) : M W A := fun w => (Err e, w).
Definition m_bind {W A B} (m : M W A) (f : A → M W B) : M W B := fun w =>
  match m w with (Ok a, w) => f a w | (Err e, w) => (Err e, w) end.
Definition m_lift {W A} (r : result A) : M W A := fun w => (r, w).
(** Run and inspect the error, as [if err != nil] does. *)
Definition m_try {W A B} (m : M W A) (f : result A → M W B) : M W B := fun w =>
  let '(r, w) := m w in f r w.

Declare Scope kube_scope.
Delimit Scope kube_scope with kube.
Notation "x <- m ;! k" := (m_bind m (fun x => k))
  (at level 100, m at next level, k at level 200, right associativity) : kube_scope.
Notation "'do' m ;! k" := (m_bind m (fun _ => k))
  (at level 100, m at next level, k at level 200, right associativity) : kube_scope.
Notation "'guard' c 'with' e ;! k" := (if c then m_err e else k)
  (at level 100, c at level 200, e at level 200, k at level 200, right associativity) : kube_scope.
Open Scope kube_scope.

Lemma m_bind_Ok {W A B} (m : M W A) (f : A → M W B) w b w' :
  m_bind m f w = (Ok b, w') ↔ ∃ a w1, m w = (Ok a, w1) ∧ f a w1 = (Ok b, w').
Proof. unfold m_bind. destruct (m w) as [[a|e] w1]; naive_solver. Qed.

Lemma m_lift_Ok {W A} (r : result A) (w : W) a w' : m_lift r w = (Ok a, w') ↔ r = Ok a ∧ w' = w.
Proof. unfold m_lift. naive_solver. Qed.

(** Split a successful run into its calls. *)
Ltac inv_run :=
  repeat match goal with
  | H : m_bind _ _ _ = (Ok _, _) |- _ => apply m_bind_Ok in H; destruct H as (? & ? & ? & H)
  | H : m_lift _ _ = (Ok _, _) |- _ => apply m_lift_Ok in H; destruct H as [? ->]
  | H : m_ret _ _ = (Ok _, _) |- _ => unfold m_ret in H; inversion H; subst; clear H
  | H : m_err _ _ = (Ok _, _) |- _ => discriminate H
  | H : (if ?b then m_err _ else _) _ = (Ok _, _) |- _ => destruct b eqn:?; [discriminate H|]
  end.

(** ** Errors of the API *)
Definition IsNotFound (e : error) : bool := bool_decide (err_is e = "NotFound").
Definition IsConflict (e : error) : bool := bool_decide (err_is e = "Conflict").
Definition IsAlreadyExists (e : error) : bool := bool_decide (err_is e = "AlreadyExists").

(** ** Objects and the interface

    An object is its name, identity and version with its typed spec and status
    (the maps the unstructured converter reads and writes). *)
Record KObject (S T : Type) := mkObject {
  o_Name : string; o_UID : string; o_ResourceVersion : string; o_Spec : option S; o_Status : option T }.
Arguments mkObject {S T}.
Arguments o_Name {S T}.
Arguments o_UID {S T}.
Arguments o_ResourceVersion {S T}.
Arguments o_Spec {S T}.
Arguments o_Status {S T}.

Class Api (W S T : Type) := {
  api_get : string → M W (KObject S T);
  api_create : KObject S T → M W (KObject S T);
  api_update : KObject S T → M W (KObject S T);
  api_update_status : KObject S T → M W (KObject S T);
  api_now : M W time;
  api_retry : M W unit → M W unit }.

(** [seen w o]: if the current object has the version of [o], it is [o].  It
    holds of every object a call returned, until it is overwritten and after. *)
Class ApiLaws (W S T : Type) `{!Api W S T} := {
  look : W → string → option (KObject S T);
  seen : W → KObject S T → Prop;
  look_name : ∀ w n o, look w n = Some o → o_Name o = n;
  seen_version : ∀ w o cur,
    seen w o → look w (o_Name o) = Some cur → o_ResourceVersion cur = o_ResourceVersion o → cur = o;
  get_seen : ∀ n w o w', api_get n w = (Ok o, w') → seen w' o ∧ o_Name o = n ∧ o_ResourceVersion o ≠ "";
  now_keeps : ∀ w r w' o, api_now w = (r, w') → seen w o → seen w' o;
  create_commits : ∀ o w r w', api_create o w = (Ok r, w') →
    look w (o_Name o) = None ∧ look w' (o_Name o) = Some r ∧
    seen w' r ∧ o_Name r = o_Name o ∧ o_ResourceVersion r ≠ "" ∧ o_Spec r = o_Spec o;
  update_commits : ∀ o w r w', api_update o w = (Ok r, w') → o_ResourceVersion o ≠ "" →
    ∃ cur, look w (o_Name o) = Some cur ∧ o_ResourceVersion cur = o_ResourceVersion o ∧
      look w' (o_Name o) = Some r ∧ o_UID r = o_UID cur ∧ o_Spec r = o_Spec o ∧ o_Status r = o_Status cur;
  update_status_commits : ∀ o w r w', api_update_status o w = (Ok r, w') → o_ResourceVersion o ≠ "" →
    ∃ cur, look w (o_Name o) = Some cur ∧ o_ResourceVersion cur = o_ResourceVersion o ∧
      look w' (o_Name o) = Some r ∧ o_UID r = o_UID cur ∧ o_Spec r = o_Spec cur ∧ o_Status r = o_Status o;
  retry_runs : ∀ f w r w', api_retry f w = (r, w') → ∃ w1, f w1 = (r, w') }.

(** ** A concrete server

    One namespace, no other client: it shows the laws can hold and lets the
    examples run. *)
Record cell (S T : Type) := mkCell { c_uid : nat; c_version : nat; c_spec : option S; c_status : option T }.
Arguments mkCell {S T}.
Arguments c_uid {S T}.
Arguments c_version {S T}.
Arguments c_spec {S T}.
Arguments c_status {S T}.

Record cluster (S T : Type) := mkCluster { cl_cells : gmap string (cell S T); cl_next : nat; cl_clock : time }.
Arguments mkCluster {S T}.
Arguments cl_cells {S T}.
Arguments cl_next {S T}.
Arguments cl_clock {S T}.

Section cluster.
Context {S T : Type}.

Definition cell_object (n : string) (c : cell S T) : KObject S T :=
  mkObject n ("uid-" +:+ itoa (Z.of_nat (c_uid c))) ("v" +:+ itoa (Z.of_nat (c_version c))) (c_spec c) (c_status c).

Definition cl_look (w : cluster S T) (n : string) : option (KObject S T) :=
  match cl_cells w !! n with Some c => Some (cell_object n c) | None => None end.

Definition cl_get (n : string) : M (cluster S T) (KObject S T) := fun w =>
  (match cl_look w n with Some o => Ok o | None => Err (mkError "NotFound" "") end, w).

Definition cl_put (n : string) (c : cell S T) (w : cluster S T) : result (KObject S T) * cluster S T :=
  (Ok (cell_object n c), mkCluster (<[n := c]> (cl_cells w)) (cl_next w + 1) (cl_clock w)).

Definition cl_create (o : KObject S T) : M (cluster S T) (KObject S T) := fun w =>
  match cl_cells w !! o_Name o with
  | Some _ => (Err (mkError "AlreadyExists" ""), w)
  | None => cl_put (o_Name o) (mkCell (cl_next w) (cl_next w) (o_Spec o) None) w
  end.

Definition cl_write (f : cell S T → nat → KObject S T → cell S T) (o : KObject S T) : M (cluster S T) (KObject S T) :=
  fun w => match cl_cells w !! o_Name o with
  | None => (Err (mkError "NotFound" ""), w)
  | Some c =>
      if bool_decide (o_ResourceVersion (cell_object (o_Name o) c) = o_ResourceVersion o)
      then cl_put (o_Name o) (f c (cl_next w) o) w
      else (Err (mkError "Conflict" ""), w)
  end.

Definition cl_update := cl_write (fun c v o => mkCell (c_uid c) v (o_Spec o) (c_status c)).
Definition cl_update_status := cl_write (fun c v o => mkCell (c_uid c) v (c_spec c) (o_Status o)).
Definition cl_now : M (cluster S T) time := fun w =>
  (Ok (cl_clock w), mkCluster (cl_cells w) (cl_next w) (cl_clock w + 1000000000)%Z).

Fixpoint cl_retry (n : nat) (f : M (cluster S T) unit) : M (cluster S T) unit := fun w =>
  match n with
  | 0 => f w
  | Datatypes.S k =>
      match f w with
      | (Err e, w') => if IsConflict e then cl_retry k f w' else (Err e, w')
      | r => r
      end
  end.

#[export] Instance cluster_api : Api (cluster S T) S T :=
  {| api_get := cl_get; api_create := cl_create; api_update := cl_update;
     api_update_status := cl_update_status; api_now := cl_now; api_retry := cl_retry 4 |}.

Lemma cl_put_look n c w r w' : cl_put n c w = (Ok r, w') → r = cell_object n c ∧ cl_look w' n = Some r.
Proof. unfold cl_put, cl_look. intros [= <- <-]. cbn. by rewrite lookup_insert_eq. Qed.

Lemma cl_write_Ok f o w r w' :
  cl_write f o w = (Ok r, w') → ∃ c, cl_cells w !! o_Name o = Some c ∧
    o_ResourceVersion (cell_object (o_Name o) c) = o_ResourceVersion o ∧
    r = cell_object (o_Name o) (f c (cl_next w) o) ∧ cl_look w' (o_Name o) = Some r.
Proof.
  unfold cl_write. destruct (cl_cells w !! o_Name o) as [c|]; [|done].
  case_bool_decide as E; [|done]. intros H. apply cl_put_look in H as [-> Hl]. eauto.
Qed.

#[export] Program Instance cluster_laws : ApiLaws (cluster S T) S T :=
  {| look := cl_look;
     seen w o := ∀ cur, cl_look w (o_Name o) = Some cur → o_ResourceVersion cur = o_ResourceVersion o → cur = o |}.
Next Obligation. cbn. unfold cl_look. intros w n o. destruct (cl_cells w !! n); [|done]. by intros [= <-]. Qed.
Next Obligation. cbn. eauto. Qed.
Next Obligation.
  cbn. unfold cl_get. intros n w o w'. unfold cl_look at 1.
  destruct (cl_cells w !! n) as [c|] eqn:E; [|done]. intros [= <- <-]. cbn. unfold cl_look. rewrite E.
  split; [by intros cur [= <-]|done].
Qed.
Next Obligation. cbn. unfold cl_now. intros w r w' o [= <- <-]. done. Qed.
Next Obligation.
  cbn. unfold cl_create, cl_look at 1. intros o w r w'. destruct (cl_cells w !! o_Name o); [done|].
  intros H. apply cl_put_look in H as [-> Hl]. cbn. split; [done|]. split; [done|]. split; [|done].
  rewrite Hl. by intros cur [= <-].
Qed.
Next Obligation.
  cbn. intros o w r w' (c & Hc & Hv & -> & Hl)%cl_write_Ok _. exists (cell_object (o_Name o) c).
  unfold cl_look at 1. by rewrite Hc.
Qed.
Next Obligation.
  cbn. intros o w r w' (c & Hc & Hv & -> & Hl)%cl_write_Ok _. exists (cell_object (o_Name o) c).
  unfold cl_look at 1. by rewrite Hc.
Qed.
Next Obligation.
  cbn. intros f w r w' H. change (cl_retry 4 f w = (r, w')) in H. revert w H. generalize 4.
  induction n as [|n IH]; intros w; cbn; [by exists w|].
  destruct (f w) as [[u|e] w1] eqn:E; [intros [= <- <-]; by exists w|].
  destruct (IsConflict e); [by apply IH|]. intros [= <- <-]. by exists w.
Qed.
End cluster.
