(* ===== verification/Journal.v ===== *)
(** * Traces

    A small logic for the calls a run makes.  A world keeps a journal of its
    calls; [traced m T] says that whatever the world answers, the calls [m]
    adds and its result satisfy [T]. *)
From S2P Require Import Prelude GoStd Kube.

Section traced.
Context {W Ev : Type} (journal : W → list Ev).

Definition traced {A} (m : M W A) (T : list Ev → result A → Prop) : Prop :=
  ∀ w r w', m w = (r, w') → ∃ evs, journal w' = journal w ++ evs ∧ T evs r.
Definition quiet {A} (m : M W A) : Prop := traced m (fun evs _ => evs = []).

Lemma traced_mono {A} (m : M W A) (T U : list Ev → result A → Prop) :
  traced m T → (∀ evs r, T evs r → U evs r) → traced m U.
Proof. intros H HTU w r w' Hm. destruct (H w r w' Hm) as (evs & Hj & HT). eauto. Qed.

Lemma traced_ret {A} (a : A) (T : list Ev → result A → Prop) : T [] (Ok a) → traced (m_ret a) T.
Proof. intros H w r w' [= <- <-]. exists []. by rewrite app_nil_r. Qed.

Lemma traced_err {A} (e : error) (T : list Ev → result A → Prop) : T [] (Err e) → traced (m_err e) T.
Proof. intros H w r w' [= <- <-]. exists []. by rewrite app_nil_r. Qed.

Lemma traced_lift {A} (x : result A) (T : list Ev → result A → Prop) : T [] x → traced (m_lift x) T.
Proof. intros H w r w' [= <- <-]. exists []. by rewrite app_nil_r. Qed.

Lemma traced_try {A B} (m : M W A) (f : result A → M W B) T V :
  traced m T → (∀ r evs, T evs r → traced (f r) (fun evs' r' => V (evs ++ evs') r')) → traced (m_try m f) V.
Proof.
  intros Hm Hf w r w' H. unfold m_try in H. destruct (m w) as [a w1] eqn:E1.
  destruct (Hm _ _ _ E1) as (e1 & Hj1 & HT). destruct (Hf a e1 HT _ _ _ H) as (e2 & Hj2 & HV).
  exists (e1 ++ e2). split; [|done]. by rewrite Hj2, Hj1, app_assoc.
Qed.

Lemma traced_bind {A B} (m : M W A) (f : A → M W B) T V :
  traced m T → (∀ a evs, T evs (Ok a) → traced (f a) (fun evs' r' => V (evs ++ evs') r')) →
  (∀ e evs, T evs (Err e) → V evs (Err e)) → traced (m_bind m f) V.
Proof.
  intros Hm Hf He w r w' H. unfold m_bind in H. destruct (m w) as [[a|e] w1] eqn:E1.
  - destruct (Hm _ _ _ E1) as (e1 & Hj1 & HT). destruct (Hf a e1 HT _ _ _ H) as (e2 & Hj2 & HV).
    exists (e1 ++ e2). split; [|done]. by rewrite Hj2, Hj1, app_assoc.
  - injection H as <- <-. destruct (Hm _ _ _ E1) as (e1 & Hj1 & HT). eauto.
Qed.

Lemma traced_quiet_bind {A B} (m : M W A) (f : A → M W B) V :
  quiet m → (∀ a, traced (f a) V) → (∀ e, V [] (Err e)) → traced (m_bind m f) V.
Proof.
  intros Hm Hf He. eapply traced_bind; [exact Hm| |]; cbn.
  - intros a evs ->. apply Hf.
  - intros e evs ->. apply He.
Qed.

Lemma traced_lift_bind {A B} (x : result A) (f : A → M W B) V :
  (∀ a, x = Ok a → traced (f a) V) → (∀ e, x = Err e → V [] (Err e)) → traced (m_bind (m_lift x) f) V.
Proof.
  intros Hf He. eapply (traced_bind _ _ (fun evs r => evs = [] ∧ r = x)); [by apply traced_lift| |]; cbn.
  - intros a evs [-> E]. by apply Hf.
  - intros e evs [-> E]. by apply He.
Qed.

Lemma quiet_ret {A} (a : A) : quiet (m_ret a).
Proof. by apply traced_ret. Qed.
Lemma quiet_err {A} (e : error) : quiet (@m_err W A e).
Proof. by apply traced_err. Qed.
Lemma quiet_lift {A} (x : result A) : quiet (m_lift x).
Proof. by apply traced_lift. Qed.
Lemma quiet_bind {A B} (m : M W A) (f : A → M W B) : quiet m → (∀ a, quiet (f a)) → quiet (m_bind m f).
Proof. intros Hm Hf. by apply traced_quiet_bind. Qed.
Lemma quiet_try {A B} (m : M W A) (f : result A → M W B) : quiet m → (∀ r, quiet (f r)) → quiet (m_try m f).
Proof. intros Hm Hf. eapply traced_try; [exact Hm|]; cbn. intros r evs ->. apply Hf. Qed.
Lemma quiet_if {A} (c : bool) (m k : M W A) : quiet m → quiet k → quiet (if c then m else k).
Proof. by destruct c. Qed.

(** ** Runs whose calls are all of a kind *)
Section all_calls.
Variable C : Ev → Prop.

Definition all_calls {A} (m : M W A) : Prop := traced m (fun evs _ => Forall C evs).

Lemma all_quiet {A} (m : M W A) : quiet m → all_calls m.
Proof. intros Hx. eapply traced_mono; [exact Hx|]. cbn. intros evs r ->. constructor. Qed.
Lemma all_call {A} (m : M W A) (E : result A → Ev) :
  traced m (fun evs r => evs = [E r]) → (∀ r, C (E r)) → all_calls m.
Proof. intros Hm HC. eapply traced_mono; [exact Hm|]. cbn. intros evs r ->. by repeat constructor. Qed.
Lemma all_bind {A B} (m : M W A) (f : A → M W B) : all_calls m → (∀ a, all_calls (f a)) → all_calls (m_bind m f).
Proof.
  intros Hm Hf. eapply traced_bind; [exact Hm| |done]. intros a evs Hx.
  eapply traced_mono; [apply Hf|]. intros evs' r Hx'. by apply Forall_app.
Qed.
Lemma all_try {A B} (m : M W A) (f : result A → M W B) : all_calls m → (∀ r, all_calls (f r)) → all_calls (m_try m f).
Proof.
  intros Hm Hf. eapply traced_try; [exact Hm|]. intros r evs Hx.
  eapply traced_mono; [apply Hf|]. intros evs' r' Hx'. by apply Forall_app.
Qed.
Lemma all_if {A} (c : bool) (m k : M W A) : all_calls m → all_calls k → all_calls (if c then m else k).
Proof. by destruct c. Qed.
Lemma all_ret {A} (a : A) : all_calls (m_ret a).
Proof. apply all_quiet, quiet_ret. Qed.
Lemma all_err {A} e : all_calls (@m_err W A e).
Proof. apply all_quiet, quiet_err. Qed.
Lemma all_lift {A} (r : result A) : all_calls (m_lift r).
Proof. apply all_quiet, quiet_lift. Qed.
End all_calls.

(** ** Calls justified by what went before

    [each P evs]: every call of [evs] satisfies [P] of the calls before it.
    [safe P pre m Q]: after the calls [pre], whatever the world answers, every
    call of [m] satisfies [P] of all calls before it and the run ends in [Q]. *)
Definition each (P : list Ev → Ev → Prop) (evs : list Ev) : Prop := ∀ l e k, evs = l ++ e :: k → P l e.

Lemma each_nil P : each P [].
Proof. by intros [|x l] e k E. Qed.

Lemma each_app P l1 l2 : each P l1 → each (fun l => P (l1 ++ l)) l2 → each P (l1 ++ l2).
Proof.
  intros H1 H2 l e k E. apply app_eq_inv in E as [(t & Ht & E)|(t & -> & E)]; [|by eapply H2].
  destruct t as [|e' t]; cbn in E.
  - rewrite app_nil_r in Ht. subst l1. rewrite <-(app_nil_r l). by eapply (H2 []).
  - injection E as <- _. by eapply H1.
Qed.

Lemma each_one (P : list Ev → Ev → Prop) e : P [] e → each P [e].
Proof. intros H [|x [|y l]] e2 k E; cbn in E; by simplify_eq. Qed.

Lemma each_mono (P P' : list Ev → Ev → Prop) evs : (∀ l e, P l e → P' l e) → each P evs → each P' evs.
Proof. intros H He l e k E. eapply H, He, E. Qed.

Lemma each_snoc_inv P evs e : each P (evs ++ [e]) → each P evs ∧ P evs e.
Proof. intros H. split; [|by eapply H]. intros l x k ->. eapply H. by rewrite <-app_assoc. Qed.

Definition safe {A} (P : list Ev → Ev → Prop) (pre : list Ev) (m : M W A) (Q : list Ev → result A → Prop) : Prop :=
  traced m (fun evs r => each (fun l => P (pre ++ l)) evs ∧ Q (pre ++ evs) r).

Section safe.
Variable P : list Ev → Ev → Prop.

Lemma safe_mono {A} pre (m : M W A) (Q R : list Ev → result A → Prop) :
  safe P pre m Q → (∀ evs r, Q evs r → R evs r) → safe P pre m R.
Proof. intros Hm H. eapply traced_mono; [exact Hm|]. cbn. intros evs r [He Hq]. auto. Qed.

Lemma safe_ret {A} pre (a : A) (Q : list Ev → result A → Prop) : Q pre (Ok a) → safe P pre (m_ret a) Q.
Proof. intros H. apply traced_ret. split; [apply each_nil|by rewrite app_nil_r]. Qed.
Lemma safe_err {A} pre e (Q : list Ev → result A → Prop) : Q pre (Err e) → safe P pre (m_err e) Q.
Proof. intros H. apply traced_err. split; [apply each_nil|by rewrite app_nil_r]. Qed.
Lemma safe_lift {A} pre (x : result A) (Q : list Ev → result A → Prop) : Q pre x → safe P pre (m_lift x) Q.
Proof. intros H. apply traced_lift. split; [apply each_nil|by rewrite app_nil_r]. Qed.

Lemma safe_quiet {A} pre (m : M W A) (Q : list Ev → result A → Prop) : quiet m → (∀ r, Q pre r) → safe P pre m Q.
Proof.
  intros Hm H. eapply traced_mono; [exact Hm|]. cbn. intros evs r ->. split; [apply each_nil|by rewrite app_nil_r].
Qed.

Lemma safe_call {A} pre (m : M W A) (E : result A → Ev) (Q : list Ev → result A → Prop) :
  traced m (fun evs r => evs = [E r]) → (∀ r, P pre (E r)) → (∀ r, Q (pre ++ [E r]) r) → safe P pre m Q.
Proof.
  intros Hm HP HQ. eapply traced_mono; [exact Hm|]. cbn. intros evs r ->. split; [|done].
  apply each_one. rewrite app_nil_r. apply HP.
Qed.

Lemma safe_try {A B} pre (m : M W A) (f : result A → M W B) Q R :
  safe P pre m Q → (∀ r pre', Q pre' r → safe P pre' (f r) R) → safe P pre (m_try m f) R.
Proof.
  intros Hm Hf. eapply traced_try; [exact Hm|]. cbn. intros r evs [He Hq].
  eapply traced_mono; [by apply Hf|]. cbn. intros evs' r' [He' Hr]. rewrite app_assoc. split; [|done].
  apply each_app; [done|]. eapply each_mono; [|exact He']. intros l e. by rewrite app_assoc.
Qed.

Lemma safe_bind {A B} pre (m : M W A) (f : A → M W B) Q R :
  safe P pre m Q → (∀ a pre', Q pre' (Ok a) → safe P pre' (f a) R) → (∀ e pre', Q pre' (Err e) → R pre' (Err e)) →
  safe P pre (m_bind m f) R.
Proof.
  intros Hm Hf He. eapply traced_bind; [exact Hm| |].
  - cbn. intros a evs [H1 Hq]. eapply traced_mono; [by apply Hf|]. cbn. intros evs' r' [He' Hr].
    rewrite app_assoc. split; [|done]. apply each_app; [done|].
    eapply each_mono; [|exact He']. intros l e. by rewrite app_assoc.
  - cbn. intros e evs [H1 Hq]. auto.
Qed.

Lemma safe_lift_bind {A B} pre (x : result A) (f : A → M W B) (R : list Ev → result B → Prop) :
  (∀ a, x = Ok a → safe P pre (f a) R) → (∀ e, R pre (Err e)) → safe P pre (m_bind (m_lift x) f) R.
Proof.
  intros Hf He. eapply (safe_bind _ _ _ (fun pre' r => pre' = pre ∧ r = x)); [by apply safe_lift| |].
  - intros a pre' [-> E]. by apply Hf.
  - intros e pre' [-> E]. apply He.
Qed.

(** The common case: one call of the world, then the rest of the run. *)
Lemma safe_try_call {A B} pre (m : M W A) (E : result A → Ev) (f : result A → M W B) R :
  traced m (fun evs r => evs = [E r]) → (∀ r, P pre (E r)) → (∀ r, safe P (pre ++ [E r]) (f r) R) →
  safe P pre (m_try m f) R.
Proof.
  intros Hm HP Hf. eapply (safe_try _ _ _ (fun evs r => evs = pre ++ [E r])); [by eapply safe_call|].
  intros r pre' ->. apply Hf.
Qed.

Lemma safe_bind_call {A B} pre (m : M W A) (E : result A → Ev) (f : A → M W B) (R : list Ev → result B → Prop) :
  traced m (fun evs r => evs = [E r]) → (∀ r, P pre (E r)) → (∀ a, safe P (pre ++ [E (Ok a)]) (f a) R) →
  (∀ e, R (pre ++ [E (Err e)]) (Err e)) → safe P pre (m_bind m f) R.
Proof.
  intros Hm HP Hf He. eapply (safe_bind _ _ _ (fun evs r => evs = pre ++ [E r])); [by eapply safe_call| |].
  - intros a pre' ->. apply Hf.
  - intros e pre' ->. apply He.
Qed.

Lemma safe_quiet_bind {A B} pre (m : M W A) (f : A → M W B) (R : list Ev → result B → Prop) :
  quiet m → (∀ a, safe P pre (f a) R) → (∀ e, R pre (Err e)) → safe P pre (m_bind m f) R.
Proof.
  intros Hm Hf He. eapply (safe_bind _ _ _ (fun evs _ => evs = pre)); [by apply safe_quiet|by intros ? ? ->|by intros ? ? ->].
Qed.
End safe.
End traced.

#[export] Hint Resolve quiet_ret quiet_err quiet_lift quiet_bind quiet_try quiet_if : genprof.
