(* ===== verification/KubeJournal.v ===== *)
(** * A journal of the API calls of a run

    [journalled W] is a world [W] that keeps the calls made to it with their
    answers; a run of a store function over it shows which calls it made, in
    order.  [run_spec] is a small logic for such runs: every call of the
    journal is justified by the calls before it. *)
From S2P Require Import Prelude GoStd Kube Journal.

(** A call, its arguments and its answer; a status write also with the world
    before and after it. *)
Inductive api_event (W S T : Type) :=
| EvGet (name : string) (answer : result (KObject S T))
| EvCreate (o : KObject S T) (answer : result (KObject S T))
| EvUpdate (o : KObject S T) (answer : result (KObject S T))
| EvUpdateStatus (before : W) (o : KObject S T) (answer : result (KObject S T)) (after : W)
| EvNow (answer : result time).
Arguments EvGet {W S T}.
Arguments EvCreate {W S T}.
Arguments EvUpdate {W S T}.
Arguments EvUpdateStatus {W S T}.
Arguments EvNow {W S T}.

Record journalled (W S T : Type) := mkJournalled { j_world : W; j_log : list (api_event W S T) }.
Arguments mkJournalled {W S T}.
Arguments j_world {W S T}.
Arguments j_log {W S T}.

Section journalled.
Context {W S T : Type} `{!Api W S T}.
Abbreviation J := (journalled W S T).

Definition logged {A} (m : M W A) (event : W → result A → W → api_event W S T) : M J A := fun j =>
  let '(r, w) := m (j_world j) in (r, mkJournalled w (j_log j ++ [event (j_world j) r w])).

(** [retry.RetryOnConflict] with [retry.DefaultRetry]: five attempts. *)
Fixpoint j_retry (n : nat) (f : M J unit) : M J unit := fun j =>
  match n with
  | 0 => f j
  | Datatypes.S k => match f j with
                     | (Err e, j') => if IsConflict e then j_retry k f j' else (Err e, j')
                     | r => r
                     end
  end.

#[export] Instance journalled_api : Api J S T :=
  {| api_get n := logged (api_get n) (fun _ r _ => EvGet n r);
     api_create o := logged (api_create o) (fun _ r _ => EvCreate o r);
     api_update o := logged (api_update o) (fun _ r _ => EvUpdate o r);
     api_update_status o := logged (api_update_status o) (fun w r w' => EvUpdateStatus w o r w');
     api_now := logged api_now (fun _ r _ => EvNow r);
     api_retry := j_retry 4 |}.

(** The clock readings of a journal, oldest first. *)
Definition readings (log : list (api_event W S T)) : list time :=
  omap (fun e => match e with EvNow (Ok t) => Some t | _ => None end) log.
(** A write the server accepted. *)
Definition wrote (e : api_event W S T) : bool :=
  match e with EvCreate _ r | EvUpdate _ r | EvUpdateStatus _ _ r _ => is_ok r | _ => false end.
Definition unwritten (log : list (api_event W S T)) : Prop := Forall (fun e => wrote e = false) log.

Lemma readings_snoc log e : readings (log ++ [e]) = readings log ++ readings [e].
Proof. unfold readings. apply omap_app. Qed.
Lemma unwritten_snoc log e : unwritten log → wrote e = false → unwritten (log ++ [e]).
Proof. intros H He. apply Forall_app. split; [done|]. by repeat constructor. Qed.

(** ** Runs with justified calls *)
Section run_spec.
Variable justified : list (api_event W S T) → api_event W S T → Prop.

(** From a journal in [P], every call is justified and the run ends in [Q], or
    fails with nothing written. *)
Definition run_spec {A} (P : J → Prop) (m : M J A) (Q : A → J → Prop) : Prop :=
  ∀ j r j', each justified (j_log j) → P j → m j = (r, j') →
    each justified (j_log j') ∧ match r with Ok a => Q a j' | Err _ => unwritten (j_log j') end.

Lemma run_ret {A} (P : J → Prop) (a : A) (Q : A → J → Prop) : (∀ j, P j → Q a j) → run_spec P (m_ret a) Q.
Proof. intros H j r j' Hj HP [= <- <-]. auto. Qed.
Lemma run_err {A} (P : J → Prop) e (Q : A → J → Prop) : (∀ j, P j → unwritten (j_log j)) → run_spec P (m_err e) Q.
Proof. intros H j r j' Hj HP [= <- <-]. auto. Qed.
Lemma run_lift {A} (P : J → Prop) (x : result A) (Q : A → J → Prop) : (∀ j, P j → unwritten (j_log j)) →
  (∀ a, x = Ok a → ∀ j, P j → Q a j) → run_spec P (m_lift x) Q.
Proof. intros Hu H j r j' Hj HP [= <- <-]. split; [done|]. destruct x; [by apply H|by apply Hu]. Qed.
Lemma run_bind {A B} (P : J → Prop) (m : M J A) (f : A → M J B) Q R :
  run_spec P m Q → (∀ a, run_spec (Q a) (f a) R) → run_spec P (m_bind m f) R.
Proof.
  intros Hm Hf j r j' Hj HP H. unfold m_bind in H. destruct (m j) as [[a|e] j1] eqn:E.
  - destruct (Hm _ _ _ Hj HP E) as [H1 HQ]. by eapply Hf.
  - injection H as <- <-. exact (Hm _ _ _ Hj HP E).
Qed.
Lemma run_lift_bind {A B} (P : J → Prop) (x : result A) (f : A → M J B) R : (∀ j, P j → unwritten (j_log j)) →
  (∀ a, x = Ok a → run_spec P (f a) R) → run_spec P (m_bind (m_lift x) f) R.
Proof.
  intros Hu Hf. destruct x as [a|e]; [exact (Hf a eq_refl)|]. intros j r j' Hj HP [= <- <-]. auto.
Qed.
Lemma run_guard {A} (P : J → Prop) (c : bool) e (k : M J A) Q : (∀ j, P j → unwritten (j_log j)) →
  (c = false → run_spec P k Q) → run_spec P (if c then m_err e else k) Q.
Proof. intros Hu Hk. destruct c; [by apply run_err|by apply Hk]. Qed.
Lemma run_pre {A} (P P' : J → Prop) (m : M J A) Q : (∀ j, P j → P' j) → run_spec P' m Q → run_spec P m Q.
Proof. intros H Hm j r j' Hj HP. by apply Hm, H. Qed.
Lemma run_post {A} (P : J → Prop) (m : M J A) (Q Q' : A → J → Prop) : (∀ a j, Q a j → Q' a j) → run_spec P m Q → run_spec P m Q'.
Proof. intros H Hm j r j' Hj HP E. destruct (Hm _ _ _ Hj HP E) as [H1 H2]. split; [done|]. destruct r; auto. Qed.
Lemma run_exists {A B} (P : B → J → Prop) (m : M J A) Q : (∀ x, run_spec (P x) m Q) → run_spec (fun j => ∃ x, P x j) m Q.
Proof. intros H j r j' Hj [x Hx]. by eapply H. Qed.
Lemma run_fact {A} (F : Prop) (P : J → Prop) (m : M J A) Q : (F → run_spec P m Q) → run_spec (fun j => P j ∧ F) m Q.
Proof. intros H j r j' Hj [HP HF]. by apply H. Qed.
(** Inspecting the error ends the run well. *)
Lemma run_result {A} (P : J → Prop) (m : M J A) Q :
  run_spec P m Q → run_spec P (m_try m (fun r => m_ret r)) (fun r j => match r with Ok a => Q a j | Err _ => unwritten (j_log j) end).
Proof.
  intros Hm j r j' Hj HP H. unfold m_try in H. destruct (m j) as [x j1] eqn:E. injection H as <- <-. exact (Hm _ _ _ Hj HP E).
Qed.

(** A run of one call from the empty journal. *)
Lemma run_from_start {A} (P : J → Prop) (m : M J A) Q w r w' log :
  run_spec P m Q → P (mkJournalled w []) → m (mkJournalled w []) = (r, mkJournalled w' log) →
  each justified log ∧ match r with Ok a => Q a (mkJournalled w' log) | Err _ => unwritten log end.
Proof. intros Hm HP E. exact (Hm (mkJournalled w []) r (mkJournalled w' log) (each_nil _) HP E). Qed.

Lemma each_snoc (P : list (api_event W S T) → api_event W S T → Prop) log e : each P log → P log e → each P (log ++ [e]).
Proof. intros Hl He. apply each_app; [done|]. apply each_one. by rewrite app_nil_r. Qed.
End run_spec.
End journalled.
