(* ===== verification/Unstructured.v ===== *)
(** * Unstructured objects

    The JSON values [map[string]interface{}] holds and their marshalled form.
    A Go map is a list of fields sorted by key without duplicates, so equality
    of values is [reflect.DeepEqual]; a number is its literal.  The accessors of
    k8s.io/apimachinery are a parameter, with the traversal law the source
    relies on, and a concrete instance that satisfies it. *)
From S2P Require Import Prelude GoStd Identity Digest Json SpoBackend.

Inductive json :=
| JNull
| JBool (b : bool)
| JNum (literal : string)
| JStr (s : string)
| JArr (l : list json)
| JObj (fields : list (string * json)).

#[export] Instance json_eq_dec : EqDecision json.
Proof.
  refine (fix go (x y : json) : Decision (x = y) :=
    let _ : EqDecision json := go in
    match x, y with
    | JNull, JNull => left eq_refl
    | JBool b, JBool c => cast_if (decide (b = c))
    | JNum s, JNum t => cast_if (decide (s = t))
    | JStr s, JStr t => cast_if (decide (s = t))
    | JArr l, JArr k => cast_if (decide (l = k))
    | JObj l, JObj k => cast_if (decide (l = k))
    | _, _ => right _
    end); abstract congruence.
Defined.

Section json_induction.
Variable P : json → Prop.
Hypothesis HNull : P JNull.
Hypothesis HBool : ∀ b, P (JBool b).
Hypothesis HNum : ∀ t, P (JNum t).
Hypothesis HStr : ∀ s, P (JStr s).
Hypothesis HArr : ∀ l, Forall P l → P (JArr l).
Hypothesis HObj : ∀ fs, Forall (fun f => P f.2) fs → P (JObj fs).

Fixpoint json_nested_ind (j : json) : P j :=
  match j with
  | JNull => HNull
  | JBool b => HBool b
  | JNum t => HNum t
  | JStr s => HStr s
  | JArr l => HArr l ((fix go l : Forall P l :=
      match l with [] => Forall_nil_2 P | x :: l => Forall_cons_2 P x l (json_nested_ind x) (go l) end) l)
  | JObj fs => HObj fs ((fix go l : Forall (fun f : string * json => P f.2) l :=
      match l with
      | [] => Forall_nil_2 _
      | x :: l => Forall_cons_2 (fun f : string * json => P f.2) x l (json_nested_ind x.2) (go l)
      end) fs)
  end.
End json_induction.

(** A map literal: its fields in key order. *)
Definition obj_of (fields : list (string * json)) : json := JObj (sort_by (less_on fst string_ltb) fields).

Fixpoint lookup_field (key : string) (fields : list (string * json)) : option json :=
  match fields with
  | [] => None
  | f :: fields => if bool_decide (f.1 = key) then Some f.2 else lookup_field key fields
  end.

Definition delete_field (key : string) (fields : list (string * json)) : list (string * json) :=
  List.filter (fun f => negb (bool_decide (f.1 = key))) fields.

Definition set_field (key : string) (v : json) (fs : list (string * json)) : list (string * json) :=
  sort_by (less_on fst string_ltb) ((key, v) :: delete_field key fs).

(** *** Lookups after updates *)
Lemma lookup_insert a (x : string * json) l :
  lookup_field a (insert_by (less_on fst string_ltb) x l) = if bool_decide (x.1 = a) then Some x.2 else lookup_field a l.
Proof.
  induction l as [|y l IH]; cbn [insert_by]; [done|]. destruct (less_on fst string_ltb y x) eqn:E; [|done].
  cbn [lookup_field]. rewrite IH.
  destruct (bool_decide (y.1 = a)) eqn:Ey, (bool_decide (x.1 = a)) eqn:Ex; try done. bool_simpl.
  unfold less_on in E. by rewrite Ey, Ex, string_ltb_irrefl in E.
Qed.

Lemma lookup_sort a l : lookup_field a (sort_by (less_on fst string_ltb) l) = lookup_field a l.
Proof. induction l as [|x l IH]; [done|]. cbn [sort_by]. by rewrite lookup_insert, IH. Qed.

Lemma lookup_delete a key l : lookup_field a (delete_field key l) = if bool_decide (key = a) then None else lookup_field a l.
Proof.
  unfold delete_field. induction l as [|f l IH]; cbn [List.filter]; [by case_bool_decide|].
  destruct (bool_decide (f.1 = key)) eqn:E; cbn [negb lookup_field]; rewrite IH; repeat case_bool_decide; congruence.
Qed.

Lemma lookup_set a key v l : lookup_field a (set_field key v l) = if bool_decide (key = a) then Some v else lookup_field a l.
Proof.
  unfold set_field. rewrite lookup_sort. cbn [lookup_field fst snd]. rewrite lookup_delete. by repeat case_bool_decide.
Qed.

(** [json.Marshal]. *)
Fixpoint marshal_of (html : bool) (j : json) : string :=
  match j with
  | JNull => "null"
  | JBool b => if b then "true" else "false"
  | JNum t => t
  | JStr s => json_string_of html s
  | JArr l => "[" +:+ join "," (map (marshal_of html) l) +:+ "]"
  | JObj fs => "{" +:+ join "," (map (fun f => json_string_of html f.1 +:+ ":" +:+ marshal_of html f.2) fs) +:+ "}"
  end.
Abbreviation marshal := (marshal_of true).

(** ** The accessors *)
Class Unstructured := {
  GetAPIVersion : json → string;
  GetKind : json → string;
  GetName : json → string;
  GetNamespace : json → string;
  GetUID : json → string;
  GetResourceVersion : json → string;
  GroupVersionKind : json → GVK;
  GetAnnotations : json → gmap string string;
  GetLabels : json → gmap string string;
  GetCreationTimestamp : json → time;
  SetNamespace : string → json → json;
  SetResourceVersion : string → json → json;
  (** A nested field: absent, present, or behind a value that is no map. *)
  NestedField : list string → json → result (option json);
  RemoveNestedField : list string → json → json;
  (** Fails, and changes nothing, when a value on the way is no map. *)
  SetNestedField : list string → json → json → result json }.

Class UnstructuredLaws `{Unstructured} := {
  nested_fields : ∀ key path fs,
    NestedField (key :: path) (JObj fs) =
      match lookup_field key fs with
      | Some v => match path with [] => Ok (Some v) | _ => NestedField path v end
      | None => Ok None
      end;
  nested_null : ∀ key path, NestedField (key :: path) JNull = Ok None;
  nested_other : ∀ key path j, j ≠ JNull → (∀ fs, j ≠ JObj fs) → is_ok (NestedField (key :: path) j) = false;
  set_nested_last : ∀ key v fs, SetNestedField [key] v (JObj fs) = Ok (JObj (set_field key v fs));
  set_nested_step : ∀ key key' path v fs,
    SetNestedField (key :: key' :: path) v (JObj fs) =
      match lookup_field key fs with
      | None => inner ← SetNestedField (key' :: path) v (JObj []); Ok (JObj (set_field key inner fs))
      | Some (JObj inner) => inner ← SetNestedField (key' :: path) v (JObj inner); Ok (JObj (set_field key inner fs))
      | Some _ => failwith "value cannot be set: not a map"
      end }.

Section nested.
Context `{Unstructured}.

(** The typed getters: a value of another type is an error. *)
Definition typed {A} (cast : json → option A) (r : result (option json)) : result (option A) :=
  v ← r;
  match v with
  | None => Ok None
  | Some v => match cast v with Some a => Ok (Some a) | None => failwith "accessor error: unexpected type" end
  end.
Definition NestedString (path : list string) (j : json) : result (option string) :=
  typed (fun v => match v with JStr s => Some s | _ => None end) (NestedField path j).
Definition NestedSlice (path : list string) (j : json) : result (option (list json)) :=
  typed (fun v => match v with JArr l => Some l | _ => None end) (NestedField path j).
Definition NestedMap (path : list string) (j : json) : result (option (list (string * json))) :=
  typed (fun v => match v with JObj fs => Some fs | _ => None end) (NestedField path j).
Definition is_string (j : json) : bool := match j with JStr _ => true | _ => false end.
Definition NestedStringMap (path : list string) (j : json) : result (option (list (string * json))) :=
  typed (fun v => match v with JObj fs => if forallb (fun f => is_string f.2) fs then Some fs else None | _ => None end)
    (NestedField path j).

(** [err == nil && found]. *)
Definition found {A} (r : result (option A)) : option A := match r with Ok o => o | Err _ => None end.
End nested.

(** ** A concrete instance *)
Fixpoint std_nested (path : list string) (j : json) : result (option json) :=
  match path, j with
  | [], _ => Ok (Some j)
  | key :: path, JObj fs => match lookup_field key fs with Some v => std_nested path v | None => Ok None end
  | _, JNull => Ok None
  | _, _ => failwith "accessor error: not a map"
  end.

Definition std_string (path : list string) (j : json) : string :=
  match std_nested path j with Ok (Some (JStr s)) => s | _ => "" end.

Fixpoint std_set (path : list string) (v : json) (j : json) : json :=
  match path with
  | [] => v
  | key :: path =>
      let fs := match j with JObj fs => fs | _ => [] end in
      JObj (set_field key (std_set path v (default JNull (lookup_field key fs))) fs)
  end.

Fixpoint std_remove (path : list string) (j : json) : json :=
  match path, j with
  | [key], JObj fs => JObj (delete_field key fs)
  | key :: path, JObj fs => JObj (map (fun f => (f.1, if bool_decide (f.1 = key) then std_remove path f.2 else f.2)) fs)
  | _, _ => j
  end.

(** The setters of metadata strings: the empty string removes the field. *)
Definition std_set_string (path : list string) (s : string) (j : json) : json :=
  if bool_decide (s = "") then std_remove path j else std_set path (JStr s) j.

Fixpoint std_set_nested (path : list string) (v : json) (fs : list (string * json)) : result json :=
  match path with
  | [] => Ok (JObj fs)
  | [key] => Ok (JObj (set_field key v fs))
  | key :: path =>
      inner ← match lookup_field key fs with
              | None => std_set_nested path v []
              | Some (JObj fs) => std_set_nested path v fs
              | Some _ => failwith "value cannot be set: not a map"
              end;
      Ok (JObj (set_field key inner fs))
  end.

Definition std_string_map (path : list string) (j : json) : gmap string string :=
  match std_nested path j with
  | Ok (Some (JObj fs)) => list_to_map (map (fun f => (f.1, match f.2 with JStr s => s | _ => "" end)) fs)
  | _ => ∅
  end.

Definition std_gvk (j : json) : GVK :=
  match split_on "/" (std_string ["apiVersion"] j) with
  | [version] => mkGVK "" version (std_string ["kind"] j)
  | [group; version] => mkGVK group version (std_string ["kind"] j)
  | _ => mkGVK "" "" ""
  end.

#[export] Instance std_unstructured : Unstructured :=
  {| GetAPIVersion := std_string ["apiVersion"]; GetKind := std_string ["kind"];
     GetName := std_string ["metadata"; "name"]; GetNamespace := std_string ["metadata"; "namespace"];
     GetUID := std_string ["metadata"; "uid"]; GetResourceVersion := std_string ["metadata"; "resourceVersion"];
     GroupVersionKind := std_gvk;
     GetAnnotations := std_string_map ["metadata"; "annotations"]; GetLabels := std_string_map ["metadata"; "labels"];
     GetCreationTimestamp := fun _ => 0%Z;
     SetNamespace := fun ns => std_set_string ["metadata"; "namespace"] ns;
     SetResourceVersion := fun rv => std_set_string ["metadata"; "resourceVersion"] rv;
     NestedField := std_nested; RemoveNestedField := std_remove;
     SetNestedField := fun path v j => std_set_nested path v (match j with JObj fs => fs | _ => [] end) |}.

#[export] Program Instance std_unstructured_laws : @UnstructuredLaws std_unstructured.
Next Obligation. intros key path fs. cbn. destruct (lookup_field key fs); [|done]. by destruct path. Qed.
Next Obligation. done. Qed.
Next Obligation. intros key path [] H1 H2; try done. by destruct (H2 fields). Qed.
Next Obligation. done. Qed.
Next Obligation. intros key key' path v fs. cbn. by destruct (lookup_field key fs) as [[]|]. Qed.

Example marshal_ex :
  marshal (obj_of [("b", JArr [JNum "1"; JNull]); ("a", JStr "x")]) =
  "{" +:+ json_string "a" +:+ ":" +:+ json_string "x" +:+ "," +:+ json_string "b" +:+ ":[1,null]}".
Proof. reflexivity. Qed.
