(* ===== verification/JsonParse.v ===== *)
(** * encoding/json: reading a document back

    [json.Unmarshal] into an empty interface or a map, as the rollback reads the
    snapshots of an attempt: the scanner as a machine over the bytes, the
    decoder of string literals, and the nesting as a stack machine over the
    tokens.  A number is kept as its literal: the float64 values of the source
    are equal when the literals are, and the literals it reads were written by
    its own encoder, in one form per value. *)
From S2P Require Import Prelude GoStd Digest Json Unstructured.

(** ** String literals *)
Definition hex_digit_of (a : ascii) : option Z :=
  let n := byte_of a in
  if ((48 <=? n) && (n <=? 57))%Z then Some (n - 48)%Z
  else if ((97 <=? n) && (n <=? 102))%Z then Some (n - 87)%Z
  else if ((65 <=? n) && (n <=? 70))%Z then Some (n - 55)%Z
  else None.

(** [getu4], after the backslash and the [u]. *)
Definition hex4 (a b c d : ascii) : option Z :=
  match hex_digit_of a, hex_digit_of b, hex_digit_of c, hex_digit_of d with
  | Some a, Some b, Some c, Some d => Some (4096 * a + 256 * b + 16 * c + d)%Z
  | _, _, _, _ => None
  end.

(** [utf8.EncodeRune], for a Unicode scalar value. *)
Definition rune_string (r : Z) : string :=
  let tail z := ascii_of_Z (128 + z mod 64) in
  if (r <? 128)%Z then String (ascii_of_Z r) ""
  else if (r <? 2048)%Z then String (ascii_of_Z (192 + r / 64)) (String (tail r) "")
  else if (r <? 65536)%Z then
    String (ascii_of_Z (224 + r / 4096)) (String (tail (r / 64)%Z) (String (tail r) ""))
  else String (ascii_of_Z (240 + r / 262144))
    (String (tail (r / 4096)%Z) (String (tail (r / 64)%Z) (String (tail r) ""))).

Definition replacement : string := rune_string 65533.
Definition high_surrogate (r : Z) : bool := ((55296 <=? r) && (r <? 56320))%Z.
Definition low_surrogate (r : Z) : bool := ((56320 <=? r) && (r <? 57344))%Z.
Definition surrogate_pair (r s : Z) : Z := (65536 + (r - 55296) * 1024 + (s - 56320))%Z.

(** The one-letter escapes. *)
Definition escape_char (c : ascii) : option ascii :=
  if bool_decide (c = quote) || bool_decide (c = backslash) || bool_decide (c = "/"%char) then Some c
  else if bool_decide (c = "b"%char) then Some (ascii_of_nat 8)
  else if bool_decide (c = "f"%char) then Some (ascii_of_nat 12)
  else if bool_decide (c = "n"%char) then Some (ascii_of_nat 10)
  else if bool_decide (c = "r"%char) then Some (ascii_of_nat 13)
  else if bool_decide (c = "t"%char) then Some (ascii_of_nat 9)
  else None.

Definition prepend (p : string) (r : option string) : option string :=
  match r with Some s => Some (p +:+ s) | None => None end.

(** [unquote] of the bytes between the quotes: an unpaired surrogate and an
    invalid byte become the replacement character. *)
Fixpoint unquote (s : string) : option string :=
  match s with
  | EmptyString => Some ""
  | String a s1 =>
      if bool_decide (a = backslash) then
        match s1 with
        | EmptyString => None
        | String c s2 =>
            if bool_decide (c = "u"%char) then
              match s2 with
              | String h1 (String h2 (String h3 (String h4 r))) =>
                  match hex4 h1 h2 h3 h4 with
                  | None => None
                  | Some u =>
                      if high_surrogate u || low_surrogate u then
                        match r with
                        | String b (String x (String g1 (String g2 (String g3 (String g4 r2))))) =>
                            match hex4 g1 g2 g3 g4 with
                            | Some v =>
                                if bool_decide (b = backslash) && bool_decide (x = "u"%char) &&
                                   high_surrogate u && low_surrogate v
                                then prepend (rune_string (surrogate_pair u v)) (unquote r2)
                                else prepend replacement (unquote r)
                            | None => prepend replacement (unquote r)
                            end
                        | _ => prepend replacement (unquote r)
                        end
                      else prepend (rune_string u) (unquote r)
                  end
              | _ => None
              end
            else match escape_char c with
                 | Some x => prepend (String x "") (unquote s2)
                 | None => None
                 end
        end
      else if bool_decide (a = quote) || byte_in 0 31 a then None
      else if ascii7 a then prepend (String a "") (unquote s1)
      else match s1 with
      | String b s2 =>
          if lead2 a b then prepend (String a (String b "")) (unquote s2) else
          match s2 with
          | String c s3 =>
              if lead3 a b c then prepend (String a (String b (String c ""))) (unquote s3)
              else match s3 with
                   | String d s4 =>
                       if lead4 a b c d then prepend (String a (String b (String c (String d "")))) (unquote s4)
                       else prepend replacement (unquote s1)
                   | EmptyString => prepend replacement (unquote s1)
                   end
          | EmptyString => prepend replacement (unquote s1)
          end
      | EmptyString => prepend replacement (unquote s1)
      end
  end.

(** ** Numbers *)
Definition is_digit (a : ascii) : bool := byte_in 48 57 a.
Definition number_char (a : ascii) : bool :=
  is_digit a || bool_decide (a ∈ ["-"; "+"; "."; "e"; "E"]%char).

(** The scanner's states inside a number. *)
Inductive number_state := NumStart | NumMinus | NumZero | NumInt | NumDot | NumFrac | NumExp | NumSign | NumPow | NumBad.

Definition number_step (st : number_state) (a : ascii) : number_state :=
  let dot := bool_decide (a = "."%char) in
  let e := bool_decide (a = "e"%char) || bool_decide (a = "E"%char) in
  let first := if bool_decide (a = "0"%char) then NumZero else if is_digit a then NumInt else NumBad in
  match st with
  | NumStart => if bool_decide (a = "-"%char) then NumMinus else first
  | NumMinus => first
  | NumZero => if dot then NumDot else if e then NumExp else NumBad
  | NumInt => if is_digit a then NumInt else if dot then NumDot else if e then NumExp else NumBad
  | NumDot => if is_digit a then NumFrac else NumBad
  | NumFrac => if is_digit a then NumFrac else if e then NumExp else NumBad
  | NumExp => if is_digit a then NumPow else
      if bool_decide (a = "+"%char) || bool_decide (a = "-"%char) then NumSign else NumBad
  | NumSign | NumPow => if is_digit a then NumPow else NumBad
  | NumBad => NumBad
  end.
Fixpoint number_run (st : number_state) (s : string) : number_state :=
  match s with EmptyString => st | String a s => number_run (number_step st a) s end.
Definition valid_number (s : string) : bool :=
  match number_run NumStart s with NumZero | NumInt | NumFrac | NumPow => true | _ => false end.

(** ** The scanner *)
Inductive token := TPunct (a : ascii) | TVal (j : json).
Inductive lexer := Between | InString (raw : string) | Escaped (raw : string) | InNumber (lit : string) | InWord (w : string).

Definition is_space (a : ascii) : bool := bool_decide (nat_of_ascii a ∈ [32; 9; 10; 13]).
Definition is_punct (a : ascii) : bool := bool_decide (a ∈ ["["; "]"; "{"; "}"; ":"; ","]%char).
Definition is_letter (a : ascii) : bool := byte_in 97 122 a.

Definition literal (w : string) : option json :=
  if bool_decide (w = "null") then Some JNull
  else if bool_decide (w = "true") then Some (JBool true)
  else if bool_decide (w = "false") then Some (JBool false)
  else None.

Definition begin (a : ascii) : option (list token * lexer) :=
  if is_space a then Some ([], Between)
  else if is_punct a then Some ([TPunct a], Between)
  else if bool_decide (a = quote) then Some ([], InString "")
  else if is_digit a || bool_decide (a = "-"%char) then Some ([], InNumber (String a ""))
  else if is_letter a then Some ([], InWord (String a ""))
  else None.

Definition emit (v : json) (next : option (list token * lexer)) : option (list token * lexer) :=
  match next with Some (ts, st) => Some (TVal v :: ts, st) | None => None end.

Definition lex_step (st : lexer) (a : ascii) : option (list token * lexer) :=
  match st with
  | Between => begin a
  | InString raw =>
      if bool_decide (a = backslash) then Some ([], Escaped raw)
      else if bool_decide (a = quote) then
        match unquote raw with Some t => Some ([TVal (JStr t)], Between) | None => None end
      else Some ([], InString (raw +:+ String a ""))
  | Escaped raw => Some ([], InString (raw +:+ String backslash (String a "")))
  | InNumber lit =>
      if number_char a then Some ([], InNumber (lit +:+ String a ""))
      else if valid_number lit then emit (JNum lit) (begin a) else None
  | InWord w =>
      if is_letter a then Some ([], InWord (w +:+ String a ""))
      else match literal w with Some v => emit v (begin a) | None => None end
  end.

Definition lex_end (st : lexer) : option (list token) :=
  match st with
  | Between => Some []
  | InNumber lit => if valid_number lit then Some [TVal (JNum lit)] else None
  | InWord w => match literal w with Some v => Some [TVal v] | None => None end
  | InString _ | Escaped _ => None
  end.

Definition append_tokens (ts : list token) (r : option (list token)) : option (list token) :=
  match r with Some l => Some (ts ++ l) | None => None end.

Fixpoint lex (st : lexer) (s : string) : option (list token) :=
  match s with
  | EmptyString => lex_end st
  | String a r => match lex_step st a with Some (ts, st) => append_tokens ts (lex st r) | None => None end
  end.

(** ** The decoder

    A frame is an enclosing array with its items so far, last first, or an
    enclosing object with its fields so far and the key of the pending value. *)
Inductive frame := FArr (items : list json) | FObj (fields : list (string * json)) (key : string).
Inductive expect := Value | FirstItem | FirstKey | Key (fields : list (string * json))
| Colon (fields : list (string * json)) (key : string) | After (v : json).

(** [maxNestingDepth]. *)
Definition deep (stack : list frame) : bool := (10000 <=? Z.of_nat (length stack))%Z.

Definition value_step (stack : list frame) (t : token) : option (expect * list frame) :=
  match t with
  | TVal v => Some (After v, stack)
  | TPunct a =>
      if bool_decide (a = "["%char) then if deep stack then None else Some (FirstItem, FArr [] :: stack)
      else if bool_decide (a = "{"%char) then if deep stack then None else Some (FirstKey, stack)
      else None
  end.

Definition parse_step (e : expect) (stack : list frame) (t : token) : option (expect * list frame) :=
  match e, stack, t with
  | Value, _, _ => value_step stack t
  | FirstItem, FArr [] :: rest, TPunct "]"%char => Some (After (JArr []), rest)
  | FirstItem, _, _ => value_step stack t
  | FirstKey, _, TPunct "}"%char => Some (After (JObj []), stack)
  | FirstKey, _, TVal (JStr k) => Some (Colon [] k, stack)
  | Key fs, _, TVal (JStr k) => Some (Colon fs k, stack)
  | Colon fs k, _, TPunct ":"%char => Some (Value, FObj fs k :: stack)
  | After v, FArr items :: rest, TPunct ","%char => Some (Value, FArr (v :: items) :: rest)
  | After v, FArr items :: rest, TPunct "]"%char => Some (After (JArr (rev (v :: items))), rest)
  | After v, FObj fs k :: rest, TPunct ","%char => Some (Key (set_field k v fs), rest)
  | After v, FObj fs k :: rest, TPunct "}"%char => Some (After (JObj (set_field k v fs)), rest)
  | _, _, _ => None
  end.

Fixpoint parse (e : expect) (stack : list frame) (ts : list token) : option json :=
  match ts with
  | [] => match e, stack with After v, [] => Some v | _, _ => None end
  | t :: ts => match parse_step e stack t with Some (e, stack) => parse e stack ts | None => None end
  end.

(** [json.Unmarshal] into an [interface{}], and into a [map[string]interface{}]
    (JSON null leaves the map nil). *)
Definition Unmarshal (s : string) : result json :=
  match lex Between s with
  | Some ts => match parse Value [] ts with Some j => Ok j | None => failwith "invalid JSON" end
  | None => failwith "invalid JSON"
  end.
Definition UnmarshalMap (s : string) : result (list (string * json)) :=
  j ← Unmarshal s;
  match j with JObj fs => Ok fs | JNull => Ok [] | _ => failwith "cannot unmarshal into map" end.

Example unmarshal_ex :
  Unmarshal (" {" +:+ json_string "b" +:+ ": [1, -2.5e3,true , null], " +:+ json_string "a" +:+ ":{}," +:+
    json_string "b" +:+ ":" +:+ String quote (esc "u00e9" +:+ esc "ud83d" +:+ esc "ude00" +:+ esc "udc00x" +:+ String quote "} ")) =
  Ok (JObj [("a", JObj []); ("b", JStr (bytes_string [195; 169; 240; 159; 152; 128; 239; 191; 189; 120]))]).
Proof. vm_compute. reflexivity. Qed.

Example unmarshal_refuses :
  Forall (fun s => is_ok (Unmarshal s) = false)
    [""; "[1,]"; "{,}"; "01"; "1."; "-"; "[1 2]"; "nul"; "{1:2}"; "[1}"; String quote (String quote "x");
     String quote (esc ("x" +:+ String quote "")); "1 2"; "[1"; "truefalse"].
Proof. repeat (constructor; [vm_compute; reflexivity|]). constructor. Qed.

(** ** Canonical values

    What a Kubernetes object holds: valid UTF-8, number literals, and maps as
    key-ordered fields. *)
Fixpoint keys_ascending (ks : list string) : bool :=
  match ks with
  | k :: ks => match ks with [] => true | k' :: _ => string_ltb k k' && keys_ascending ks end
  | [] => true
  end.

Fixpoint canonical (j : json) : bool :=
  match j with
  | JNull | JBool _ => true
  | JNum t => valid_number t
  | JStr s => valid_utf8 s
  | JArr l => forallb canonical l
  | JObj fs => keys_ascending (map fst fs) && forallb (fun f => valid_utf8 f.1 && canonical f.2) fs
  end.

Fixpoint depth (j : json) : nat :=
  match j with
  | JArr l => S (list_max (map depth l))
  | JObj fs => S (list_max (map (fun f => depth f.2) fs))
  | _ => 0
  end.

Lemma keys_ascending_spec ks : keys_ascending ks = true ↔ StronglySorted (fun a b => string_ltb a b = true) ks.
Proof.
  induction ks as [|k ks IH]; [split; [constructor|done]|]. cbn [keys_ascending]. split.
  - intros H. assert (keys_ascending ks = true) as Hs%IH by (destruct ks; [done|by apply andb_prop in H as [_ ?]]).
    constructor; [done|]. destruct ks as [|k' ks]; [constructor|]. apply andb_prop in H as [Hk _].
    inversion Hs as [|?? _ Hall]; subst. constructor; [done|]. eapply Forall_impl; [exact Hall|].
    cbn. intros b Hb. unfold string_ltb, String.ltb in *.
    destruct (String.compare k k') eqn:E1; try done. destruct (String.compare k' b) eqn:E2; try done.
    by rewrite (string_compare_lt_trans _ _ _ E1 E2).
  - intros Hs. inversion Hs as [|?? Hs' Hall]; subst. destruct ks as [|k' ks]; [done|].
    inversion Hall; subst. apply andb_true_intro. split; [done|]. by apply IH.
Qed.

Lemma ascending_sorted (fs : list (string * json)) :
  keys_ascending (map fst fs) = true → StronglySorted (not_above (less_on fst string_ltb)) fs.
Proof.
  rewrite keys_ascending_spec. intros Hs. remember (map fst fs) as ks eqn:E. revert fs E.
  induction Hs as [|k ks Hs IH Hall]; intros [|f fs] E; try done; [constructor|]. injection E as -> ->.
  constructor; [by apply IH|]. apply Forall_fmap in Hall. eapply Forall_impl; [exact Hall|].
  cbn. intros g Hg. by apply less_asym.
Qed.

Lemma insert_by_last {A} (less : A → A → bool) x l :
  Forall (fun y => less y x = true) l → insert_by less x l = l ++ [x].
Proof. induction 1 as [|y l Hy _ IH]; [done|]. cbn. by rewrite Hy, IH. Qed.

Lemma delete_absent k (fs : list (string * json)) : k ∉ map fst fs → delete_field k fs = fs.
Proof.
  unfold delete_field. induction fs as [|f fs IH]; [done|]. cbn. intros [Hk Hks]%not_elem_of_cons.
  rewrite bool_decide_eq_false_2 by congruence. cbn. by rewrite IH.
Qed.

(** Setting a field above all others appends it. *)
Lemma set_field_last k v fs :
  keys_ascending (map fst (fs ++ [(k, v)])) = true → set_field k v fs = fs ++ [(k, v)].
Proof.
  intros Ha. assert (Forall (fun f => string_ltb f.1 k = true) fs) as Hlt.
  { apply keys_ascending_spec in Ha. rewrite map_app in Ha. cbn in Ha.
    apply StronglySorted_app in Ha as (Hx & _ & _).
    apply Forall_forall. intros f Hf. apply Hx; [by apply list_elem_of_fmap_2|by apply list_elem_of_singleton]. }
  assert (StronglySorted (not_above (less_on fst string_ltb)) fs) as Hs.
  { apply ascending_sorted in Ha. by apply StronglySorted_app in Ha as (_ & ? & _). }
  unfold set_field. rewrite delete_absent.
  - cbn [sort_by]. rewrite sort_by_id by done. apply insert_by_last. exact Hlt.
  - intros (f & -> & Hf)%list_elem_of_fmap. rewrite Forall_forall in Hlt. specialize (Hlt f Hf).
    by rewrite string_ltb_irrefl in Hlt.
Qed.

Lemma keys_ascending_app_l ks ks' : keys_ascending (ks ++ ks') = true → keys_ascending ks = true.
Proof. rewrite !keys_ascending_spec. intros Hs. by apply StronglySorted_app in Hs as (_ & ? & _). Qed.

(** An ascending list of fields is what its insertions build. *)
Lemma fold_set_field l : ∀ fs, keys_ascending (map fst (fs ++ l)) = true →
  foldl (fun fs f => set_field f.1 f.2 fs) fs l = fs ++ l.
Proof.
  induction l as [|[k v] l IH]; intros fs Ha; cbn [foldl fst snd]; [by rewrite app_nil_r|].
  rewrite set_field_last.
  - rewrite IH by (by rewrite <-app_assoc). by rewrite <-app_assoc.
  - rewrite (cons_middle (k, v) fs l), app_assoc, map_app in Ha. by apply keys_ascending_app_l in Ha.
Qed.

(** ** Reading an encoded value back *)
Lemma prepend_app p q r : prepend p (prepend q r) = prepend (p +:+ q) r.
Proof. destruct r; [|done]. cbn. by rewrite str_app_assoc. Qed.

(** What the encoder writes for an ASCII byte: an escaped letter, a
    four-digit escape, or the byte itself. *)
Inductive encoded_ascii (a : ascii) : string → Prop :=
| encoded_letter c : bool_decide (c = "u"%char) = false → escape_char c = Some a → encoded_ascii a (esc (String c ""))
| encoded_digits h1 h2 h3 h4 u : hex4 h1 h2 h3 h4 = Some u → high_surrogate u || low_surrogate u = false →
    rune_string u = String a "" → encoded_ascii a (esc (String "u" (String h1 (String h2 (String h3 (String h4 ""))))))
| encoded_raw : bool_decide (a = backslash) = false → bool_decide (a = quote) || byte_in 0 31 a = false →
    ascii7 a = true → encoded_ascii a (String a "").

Lemma json_ascii_encoded html a : ascii7 a = true → encoded_ascii a (json_ascii_of html a).
Proof.
  destruct html, a as [[] [] [] [] [] [] [] []]; vm_compute; try discriminate; intros _;
    solve [ apply encoded_raw; reflexivity | apply encoded_letter; reflexivity
          | eapply encoded_digits; [vm_compute; reflexivity|vm_compute; reflexivity|vm_compute; reflexivity] ].
Qed.

Lemma unquote_digits h1 h2 h3 h4 u r :
  hex4 h1 h2 h3 h4 = Some u → high_surrogate u || low_surrogate u = false →
  unquote (esc (String "u" (String h1 (String h2 (String h3 (String h4 r)))))) = prepend (rune_string u) (unquote r).
Proof.
  intros Hh Hs. unfold esc. cbn [unquote]. rewrite (bool_decide_eq_true_2 (backslash = backslash)) by done.
  rewrite (bool_decide_eq_true_2 ("u"%char = "u"%char)) by done. by rewrite Hh, Hs.
Qed.

Lemma unquote_ascii html a r : ascii7 a = true → unquote (json_ascii_of html a +:+ r) = prepend (String a "") (unquote r).
Proof.
  intros Ha. destruct (json_ascii_encoded html a Ha) as [c Hc He|h1 h2 h3 h4 u Hh Hs Hr|Hb Hq _].
  - unfold esc. str_simpl. cbn [unquote]. rewrite bool_decide_eq_true_2, Hc, He by done. done.
  - unfold esc. str_simpl. rewrite (unquote_digits _ _ _ _ u) by done. by rewrite Hr.
  - str_simpl. cbn [unquote]. rewrite Hb, Hq, Ha. done.
Qed.

Lemma unquote_separator a b c r :
  line_separator a b c = true →
  unquote (esc ("u202" +:+ String (hex_digit (byte_of c mod 16)) r)) =
    prepend (String a (String b (String c ""))) (unquote r).
Proof.
  unfold line_separator, byte_in. rewrite !andb_true_iff, !Nat.leb_le. intros [[Ha Hb] Hc].
  assert (a = ascii_of_nat 226) as -> by (rewrite <- (ascii_nat_embedding a); f_equal; lia).
  assert (b = ascii_of_nat 128) as -> by (rewrite <- (ascii_nat_embedding b); f_equal; lia).
  assert (c = ascii_of_nat 168 ∨ c = ascii_of_nat 169) as [->| ->].
  { rewrite <- (ascii_nat_embedding c).
    assert (nat_of_ascii c = 168 ∨ nat_of_ascii c = 169) as [-> | ->] by lia; auto. }
  - apply (unquote_digits "2" "0" "2" "8" 8232); reflexivity.
  - apply (unquote_digits "2" "0" "2" "9" 8233); reflexivity.
Qed.

Lemma raw_byte a : ascii7 a = false → bool_decide (a = backslash) = false ∧ bool_decide (a = quote) || byte_in 0 31 a = false.
Proof. destruct a as [[] [] [] [] [] [] [] []]; vm_compute; try discriminate; by split. Qed.

Lemma byte_in_bounds lo hi a : byte_in lo hi a = true → lo ≤ nat_of_ascii a ∧ nat_of_ascii a ≤ hi.
Proof. unfold byte_in. by intros [?%Nat.leb_le ?%Nat.leb_le]%andb_prop. Qed.
Lemma lead_range a b c d :
  (lead2 a b = true → 194 ≤ nat_of_ascii a ≤ 223) ∧ (lead3 a b c = true → 224 ≤ nat_of_ascii a ≤ 239) ∧
  (lead4 a b c d = true → 240 ≤ nat_of_ascii a ≤ 244).
Proof.
  unfold lead2, lead3, lead4. split; [|split].
  - by intros [[? ?]%byte_in_bounds _]%andb_prop.
  - intros [H _]%andb_prop. repeat apply orb_prop in H as [H|H]; apply andb_prop in H as [[? ?]%byte_in_bounds _]; lia.
  - intros [[H _]%andb_prop _]%andb_prop. repeat apply orb_prop in H as [H|H]; apply andb_prop in H as [[? ?]%byte_in_bounds _]; lia.
Qed.
Lemma lead_not_ascii a b c d :
  (lead2 a b = true → ascii7 a = false) ∧ (lead3 a b c = true → ascii7 a = false ∧ lead2 a b = false) ∧
  (lead4 a b c d = true → ascii7 a = false ∧ lead2 a b = false ∧ lead3 a b c = false).
Proof.
  destruct (lead_range a b c d) as (H2 & H3 & H4).
  assert (128 ≤ nat_of_ascii a → ascii7 a = false) as H7.
  { intros H. unfold ascii7, byte_in. apply andb_false_iff. right. by apply Nat.leb_gt. }
  split; [|split]; intros Hl.
  - specialize (H2 Hl). apply H7. lia.
  - specialize (H3 Hl). split; [apply H7; lia|]. destruct (lead2 a b); [specialize (H2 eq_refl); lia|done].
  - specialize (H4 Hl). split; [apply H7; lia|]. split.
    + destruct (lead2 a b); [specialize (H2 eq_refl); lia|done].
    + destruct (lead3 a b c); [specialize (H3 eq_refl); lia|done].
Qed.

(** The decoder inverts the encoder on valid text. *)
Lemma unquote_body html k : ∀ s, String.length s < k → valid_utf8 s = true → unquote (json_body_of html s) = Some s.
Proof.
  induction k as [k IH] using (well_founded_induction lt_wf). intros s Hk Hv.
  destruct k as [|k]; [lia|]. destruct s as [|a s1]; [done|].
  cbn [String.length] in Hk. cbn [json_body_of valid_utf8] in *.
  destruct (ascii7 a) eqn:Ea.
  { rewrite unquote_ascii by done. rewrite (IH k) by (done || lia). done. }
  destruct (raw_byte a Ea) as [Hb Hq].
  destruct s1 as [|b s2]; [done|]. destruct (lead2 a b) eqn:E2.
  { cbn [String.length] in Hk. cbn [unquote]. rewrite Hb, Hq, Ea, E2, (IH k) by (done || lia). done. }
  destruct s2 as [|c s3]; [done|]. cbn [String.length] in Hk. destruct (lead3 a b c) eqn:E3.
  { destruct (line_separator a b c) eqn:El.
    - rewrite (unquote_separator a b c) by done. rewrite (IH k) by (done || lia). done.
    - cbn [unquote]. rewrite Hb, Hq, Ea, E2, E3, (IH k) by (done || lia). done. }
  destruct s3 as [|d s4]; [done|]. cbn [String.length] in Hk. destruct (lead4 a b c d) eqn:E4; [|done].
  cbn [unquote]. rewrite Hb, Hq, Ea, E2, E3, E4, (IH k) by (done || lia). done.
Qed.

(** *** The scanner on an encoded value *)
Lemma append_append ts us r : append_tokens ts (append_tokens us r) = append_tokens (ts ++ us) r.
Proof. destruct r; [|done]. cbn. by rewrite app_assoc. Qed.
Lemma append_nil r : append_tokens [] r = r.
Proof. by destruct r. Qed.

(** Text that stays inside a string literal. *)
Definition inside (u : string) : Prop :=
  ∀ raw t, lex (InString raw) (u +:+ t) = lex (InString (raw +:+ u)) t.

Lemma inside_nil : inside "".
Proof. intros raw t. by rewrite str_app_nil_r. Qed.
Lemma inside_app u v : inside u → inside v → inside (u +:+ v).
Proof. intros Hu Hv raw t. by rewrite str_app_assoc, Hu, Hv, str_app_assoc. Qed.

Lemma inside_raw a s : bool_decide (a = backslash) = false → bool_decide (a = quote) = false → inside s →
  inside (String a s).
Proof.
  intros Hb Hq Hs raw t. str_simpl. cbn [lex lex_step]. rewrite Hb, Hq, append_nil.
  etrans; [apply Hs|]. by rewrite str_app_assoc.
Qed.

Lemma inside_escape c s : inside s → inside (esc (String c s)).
Proof.
  intros Hs raw t. unfold esc. str_simpl. cbn [lex lex_step].
  rewrite bool_decide_eq_true_2, append_nil by done. cbn [lex lex_step]. rewrite append_nil.
  etrans; [apply Hs|]. by rewrite str_app_assoc.
Qed.

Lemma inside_hex d : inside (String (hex_digit (d mod 16)) "").
Proof.
  assert (0 <= d mod 16 < 16)%Z as Hd by (apply Z.mod_pos_bound; lia).
  apply inside_raw; [| |apply inside_nil]; revert Hd; generalize (d mod 16)%Z; intros x Hx;
    pattern x; apply (nibble_cases _ _ Hx);
    repeat (constructor; [reflexivity|]); constructor.
Qed.

Lemma inside_plain a s : ascii7 a = false → inside s → inside (String a s).
Proof. intros [Hb [Hq _]%orb_false_iff]%raw_byte. by apply inside_raw. Qed.

Lemma inside_ascii html a : ascii7 a = true → inside (json_ascii_of html a).
Proof.
  intros Ha. destruct (json_ascii_encoded html a Ha) as [c _ _|h1 h2 h3 h4 u Hh _ _|Hb [Hq _]%orb_false_iff _].
  - apply inside_escape, inside_nil.
  - apply inside_escape.
    assert (∀ h x, hex_digit_of h = Some x → bool_decide (h = backslash) = false ∧ bool_decide (h = quote) = false)
      as Hd by (intros h x; destruct h as [[] [] [] [] [] [] [] []]; vm_compute; try discriminate; done).
    unfold hex4 in Hh. destruct (hex_digit_of h1) eqn:E1; [|done]. destruct (hex_digit_of h2) eqn:E2; [|done].
    destruct (hex_digit_of h3) eqn:E3; [|done]. destruct (hex_digit_of h4) eqn:E4; [|done].
    apply Hd in E1 as [? ?], E2 as [? ?], E3 as [? ?], E4 as [? ?].
    repeat (apply inside_raw; [done|done|]). apply inside_nil.
  - by apply inside_raw, inside_nil.
Qed.

Lemma inside_body html k : ∀ s, String.length s < k → inside (json_body_of html s).
Proof.
  induction k as [k IH] using (well_founded_induction lt_wf). intros s Hk.
  destruct k as [|k]; [lia|]. destruct s as [|a s1]; [apply inside_nil|].
  cbn [String.length] in Hk. cbn [json_body_of].
  assert (∀ s, inside s → inside (esc ("ufffd" +:+ s))) as Hr.
  { intros s Hs. apply inside_escape. repeat (apply inside_raw; [done|done|]). done. }
  assert (Hi : ∀ s, String.length s < k → inside (json_body_of html s)) by (intros; apply (IH k); lia).
  destruct (ascii7 a) eqn:Ea; [apply inside_app; [by apply inside_ascii|apply Hi; lia]|].
  destruct s1 as [|b s2]; [apply Hr, inside_nil|]. cbn [String.length] in Hk.
  destruct (lead2 a b) eqn:E2.
  { apply lead2_raw in E2. apply inside_plain; [done|]. apply inside_plain; [done|]. apply Hi. lia. }
  destruct s2 as [|c s3]; [apply Hr, Hi; cbn; lia|]. cbn [String.length] in Hk.
  destruct (lead3 a b c) eqn:E3.
  { apply lead3_raw in E3 as [Hb Hc]. destruct (line_separator a b c) eqn:El.
    - apply inside_escape. apply inside_raw; [done|done|]. apply inside_raw; [done|done|]. apply inside_raw; [done|done|].
      apply (inside_app (String _ "")); [apply inside_hex|apply Hi; lia].
    - repeat (apply inside_plain; [done|]). apply Hi. lia. }
  destruct s3 as [|d s4]; [apply Hr, Hi; cbn; lia|]. cbn [String.length] in Hk.
  destruct (lead4 a b c d) eqn:E4; [|apply Hr, Hi; cbn; lia].
  apply lead4_raw in E4 as (Hb & Hc & Hd). repeat (apply inside_plain; [done|]). apply Hi. lia.
Qed.

Lemma lex_string html s t : valid_utf8 s = true →
  lex Between (json_string_of html s +:+ t) = append_tokens [TVal (JStr s)] (lex Between t).
Proof.
  intros Hv. unfold json_string_of. str_simpl. cbn [lex lex_step].
  change (begin quote) with (Some (@nil token, InString "")). cbn iota beta. rewrite append_nil.
  rewrite str_app_assoc, (inside_body html (S (String.length s)) s) by lia. str_simpl.
  cbn [lex lex_step]. rewrite bool_decide_eq_false_2, bool_decide_eq_true_2 by done.
  by rewrite (unquote_body html (S (String.length s)) s) by (done || lia).
Qed.

(** What follows a value: the end of the text or a closing or separating
    character. *)
Definition ends (t : string) : Prop :=
  t = "" ∨ ∃ a r, t = String a r ∧ bool_decide (a ∈ [","; "]"; "}"]%char) = true.

Lemma ends_char a r : bool_decide (a ∈ [","; "]"; "}"]%char) = true → ends (String a r).
Proof. right. eauto. Qed.

Lemma begin_end a : bool_decide (a ∈ [","; "]"; "}"]%char) = true →
  begin a = Some ([TPunct a], Between) ∧ number_char a = false ∧ is_letter a = false.
Proof. destruct a as [[] [] [] [] [] [] [] []]; vm_compute; try discriminate; done. Qed.

Lemma number_bad s : number_run NumBad s = NumBad.
Proof. induction s as [|a s IH]; [done|]. exact IH. Qed.

Lemma number_chars st a s : number_run st (String a s) ≠ NumBad → number_char a = true.
Proof.
  cbn. intros H. destruct (number_char a) eqn:E; [done|]. exfalso. apply H.
  unfold number_char in E. apply orb_false_iff in E as [Hd Hc].
  assert (number_step st a = NumBad) as ->; [|apply number_bad].
  unfold number_step. rewrite Hd. bool_simpl. rewrite !elem_of_cons in Hc.
  rewrite !bool_decide_eq_false_2 by naive_solver congruence.
  destruct st; reflexivity.
Qed.

Lemma lex_digits st s : number_run st s ≠ NumBad →
  ∀ lit t, lex (InNumber lit) (s +:+ t) = lex (InNumber (lit +:+ s)) t.
Proof.
  revert st. induction s as [|a s IH]; intros st Hs lit t; [by rewrite str_app_nil_r|].
  pose proof (number_chars _ _ _ Hs) as Hc. str_simpl. cbn [lex lex_step]. rewrite Hc, append_nil.
  etrans; [by eapply IH|]. by rewrite str_app_assoc.
Qed.

Lemma lex_pending st v t : ends t →
  (lex_end st = Some [TVal v]) →
  (∀ a, bool_decide (a ∈ [","; "]"; "}"]%char) = true → lex_step st a = emit v (begin a)) →
  lex st t = append_tokens [TVal v] (lex Between t).
Proof.
  intros [->|(a & r & -> & Ha)] He Hs; cbn [lex]; [by rewrite He|]. rewrite Hs by done.
  destruct (begin_end a Ha) as (Hb & _). cbn [lex_step]. rewrite Hb. cbn [emit]. by rewrite append_append.
Qed.

Lemma begin_number a : number_step NumStart a ≠ NumBad → begin a = Some ([], InNumber (String a "")).
Proof. destruct a as [[] [] [] [] [] [] [] []]; vm_compute; intros H; try reflexivity; by destruct H. Qed.

Lemma lex_number s t : valid_number s = true → ends t →
  lex Between (s +:+ t) = append_tokens [TVal (JNum s)] (lex Between t).
Proof.
  intros Hv Ht. assert (number_run NumStart s ≠ NumBad) as Hn.
  { unfold valid_number in Hv. by destruct (number_run NumStart s). }
  destruct s as [|a s]; [done|]. str_simpl. cbn [lex lex_step].
  cbn [number_run] in Hn. assert (number_step NumStart a ≠ NumBad) as Ha.
  { intros E. rewrite E, number_bad in Hn. done. }
  rewrite (begin_number a Ha), append_nil. etrans; [by eapply lex_digits|].
  change (String a "" +:+ s) with (String a s). apply lex_pending; [done|cbn; by rewrite Hv|].
  intros b Hb. cbn [lex_step]. destruct (begin_end b Hb) as (_ & -> & _). by rewrite Hv.
Qed.

Lemma begin_letter a r : is_letter a = true → lex Between (String a r) = lex (InWord (String a "")) r.
Proof.
  intros Ha. cbn [lex lex_step]. assert (begin a = Some ([], InWord (String a ""))) as ->; [|apply append_nil].
  revert Ha. destruct a as [[] [] [] [] [] [] [] []]; vm_compute; by intros.
Qed.
Lemma lex_letter w a r : is_letter a = true → lex (InWord w) (String a r) = lex (InWord (w +:+ String a "")) r.
Proof. intros Ha. cbn [lex lex_step]. by rewrite Ha, append_nil. Qed.

Lemma lex_word w v t : literal w = Some v → ends t → lex Between (w +:+ t) = append_tokens [TVal v] (lex Between t).
Proof.
  intros Hl Ht. assert (lex Between (w +:+ t) = lex (InWord w) t) as ->.
  { unfold literal in Hl. repeat case_bool_decide; subst; try done; str_simpl; rewrite begin_letter by done;
      rewrite !lex_letter by done; reflexivity. }
  apply lex_pending; [done|cbn; by rewrite Hl|].
  intros b Hb. cbn [lex_step]. destruct (begin_end b Hb) as (_ & _ & ->). by rewrite Hl.
Qed.

Lemma lex_punct a s : is_punct a = true → lex Between (String a s) = append_tokens [TPunct a] (lex Between s).
Proof. destruct a as [[] [] [] [] [] [] [] []]; vm_compute is_punct; try discriminate; intros _; reflexivity. Qed.

(** The tokens of a value, in the order the encoder writes them. *)
Definition comma_tokens (ls : list (list token)) : list token :=
  match ls with [] => [] | l :: ls => l ++ flat_map (fun l => TPunct ","%char :: l) ls end.

Fixpoint tokens (j : json) : list token :=
  match j with
  | JArr l => TPunct "["%char :: comma_tokens (map tokens l) ++ [TPunct "]"%char]
  | JObj fs => TPunct "{"%char ::
      comma_tokens (map (fun f => TVal (JStr f.1) :: TPunct ":"%char :: tokens f.2) fs) ++ [TPunct "}"%char]
  | v => [TVal v]
  end.

Lemma lex_join {A} (text : A → string) (toks : A → list token) l :
  Forall (fun x => ∀ t, ends t → lex Between (text x +:+ t) = append_tokens (toks x) (lex Between t)) l →
  ∀ t, ends t → lex Between (join "," (map text l) +:+ t) = append_tokens (comma_tokens (map toks l)) (lex Between t).
Proof.
  induction 1 as [|x l Hx _ IH]; intros t Ht; [by rewrite append_nil|].
  destruct l as [|y l]; cbn [map join comma_tokens flat_map].
  { rewrite app_nil_r. by apply Hx. }
  rewrite !str_app_assoc, Hx by (by apply ends_char).
  change ("," +:+ ?r) with (String "," r). rewrite lex_punct by done.
  specialize (IH t Ht). cbn [map join comma_tokens] in IH. rewrite IH.
  rewrite !append_append. cbn. by rewrite <-?app_assoc.
Qed.

Lemma lex_value html j : canonical j = true →
  ∀ t, ends t → lex Between (marshal_of html j +:+ t) = append_tokens (tokens j) (lex Between t).
Proof.
  induction j as [|b|s|s|l IH|fs IH] using json_nested_ind; intros Hc t Ht; cbn [marshal_of tokens].
  - by apply lex_word.
  - by destruct b; apply lex_word.
  - by apply lex_number.
  - by apply lex_string.
  - rewrite str_app_assoc, str_app_assoc. change ("[" +:+ ?r) with (String "[" r). rewrite lex_punct by done.
    rewrite (lex_join (marshal_of html) tokens); [|apply Forall_forall; intros x Hx; rewrite Forall_forall in IH; apply IH; [done|];
      cbn in Hc; rewrite forallb_forall in Hc; by apply Hc, list_elem_of_In |by apply ends_char].
    change ("]" +:+ ?r) with (String "]" r). rewrite lex_punct by done. by rewrite !append_append.
  - cbn in Hc. apply andb_prop in Hc as [_ Hc].
    rewrite str_app_assoc, str_app_assoc. change ("{" +:+ ?r) with (String "{" r). rewrite lex_punct by done.
    rewrite (lex_join _ (fun f => TVal (JStr f.1) :: TPunct ":"%char :: tokens f.2)); [|
      apply Forall_forall; intros x Hx; rewrite Forall_forall in IH; intros u Hu;
      rewrite forallb_forall in Hc; apply list_elem_of_In in Hx as Hin; specialize (Hc _ Hin) as [Hk Hv]%andb_prop;
      rewrite str_app_assoc, lex_string by done; rewrite str_app_assoc; change (":" +:+ ?r) with (String ":" r);
      rewrite lex_punct by done; rewrite (IH x Hx Hv u Hu); by rewrite !append_append
      |by apply ends_char].
    change ("}" +:+ ?r) with (String "}" r). rewrite lex_punct by done. by rewrite !append_append.
Qed.

(** *** The decoder on its tokens *)
Lemma parse_cons e stack t ts :
  parse e stack (t :: ts) = match parse_step e stack t with Some (e, stack) => parse e stack ts | None => None end.
Proof. done. Qed.

(** A value is read the same way at the start of an array. *)
Lemma parse_first_item j items stack ts :
  parse FirstItem (FArr items :: stack) (tokens j ++ ts) = parse Value (FArr items :: stack) (tokens j ++ ts).
Proof. destruct j; try reflexivity; cbn [tokens app]; rewrite !parse_cons; destruct items; reflexivity. Qed.

Definition reads (j : json) : Prop :=
  ∀ stack ts, (Z.of_nat (length stack + depth j) <= 10000)%Z →
    parse Value stack (tokens j ++ ts) = parse (After j) stack ts.

Lemma parse_items l : ∀ items x stack ts,
  Forall reads l → (∀ y, y ∈ l → (Z.of_nat (S (length stack + depth y)) <= 10000)%Z) →
  parse (After x) (FArr items :: stack)
    (flat_map (fun l => TPunct ","%char :: l) (map tokens l) ++ TPunct "]"%char :: ts) =
  parse (After (JArr (rev items ++ x :: l))) stack ts.
Proof.
  induction l as [|y l IH]; intros items x stack ts Hr Hd; [done|]. inversion Hr; subst.
  cbn [map flat_map app]. rewrite parse_cons. cbn [parse_step]. rewrite <-app_assoc.
  rewrite (Forall_inv Hr) by (apply (Hd y); left).
  rewrite IH; [|done|by intros z Hz; apply Hd; right]. cbn [rev]. by rewrite <-app_assoc.
Qed.

Lemma parse_fields l : ∀ fs k v stack ts,
  Forall (fun f => reads f.2) l → (∀ f, f ∈ l → (Z.of_nat (S (length stack + depth f.2)) <= 10000)%Z) →
  parse (After v) (FObj fs k :: stack)
    (flat_map (fun l => TPunct ","%char :: l) (map (fun f => TVal (JStr f.1) :: TPunct ":"%char :: tokens f.2) l)
      ++ TPunct "}"%char :: ts) =
  parse (After (JObj (foldl (fun fs f => set_field f.1 f.2 fs) (set_field k v fs) l))) stack ts.
Proof.
  induction l as [|[k' v'] l IH]; intros fs k v stack ts Hr Hd; [done|]. inversion Hr; subst.
  cbn [map flat_map app fst snd]. do 3 (rewrite parse_cons; cbn [parse_step]).
  rewrite <-app_assoc.
  pose proof (Forall_inv Hr : reads v') as Hv. rewrite Hv by (apply (Hd (k', v')); left).
  rewrite IH; [done|done|by intros z Hz; apply Hd; right].
Qed.

Lemma depth_element {A} (d : A → nat) l x : x ∈ l → d x ≤ list_max (map d l).
Proof.
  induction 1 as [x l|x y l _ IH]; unfold list_max in *; cbn [map foldr]; [apply Nat.le_max_l|].
  etrans; [exact IH|apply Nat.le_max_r].
Qed.

Lemma parse_open stack ts : deep stack = false →
  parse Value stack (TPunct "["%char :: ts) = parse FirstItem (FArr [] :: stack) ts ∧
  parse Value stack (TPunct "{"%char :: ts) = parse FirstKey stack ts.
Proof. intros Hd. rewrite !parse_cons. unfold parse_step, value_step. rewrite Hd. by split. Qed.

Lemma reads_all j : canonical j = true → reads j.
Proof.
  induction j as [|b|s|s|l IH|fs IH] using json_nested_ind; intros Hc stack ts Hd; try reflexivity; cbn [tokens].
  - cbn [app]. assert (deep stack = false) as Hp by (unfold deep; apply Z.leb_gt; change (depth (JArr l)) with (S (list_max (map depth l))) in Hd; lia).
    rewrite (proj1 (parse_open _ _ Hp)). cbn in Hc. destruct l as [|x l]; [reflexivity|]. cbn [map comma_tokens].
    assert (∀ y, y ∈ x :: l → reads y ∧ (Z.of_nat (S (length stack + depth y)) <= 10000)%Z) as Hy.
    { intros y Hy. rewrite Forall_forall in IH. rewrite forallb_forall in Hc. split.
      - apply IH; [done|]. by apply Hc, list_elem_of_In.
      - apply (depth_element depth) in Hy. cbn [depth] in Hd. lia. }
    rewrite <-!app_assoc. cbn [app]. rewrite parse_first_item.
    destruct (Hy x) as [Hx Hdx]; [left|]. rewrite Hx by exact Hdx.
    rewrite (parse_items l [] x); [done| |].
    + apply Forall_forall. intros y Hin. apply Hy. by right.
    + intros y Hin. apply Hy. by right.
  - cbn [app]. assert (deep stack = false) as Hp by (unfold deep; apply Z.leb_gt; change (depth (JObj fs)) with (S (list_max (map (fun f => depth f.2) fs))) in Hd; lia).
    rewrite (proj2 (parse_open _ _ Hp)). cbn [canonical] in Hc. apply andb_prop in Hc as [Ha Hc]. destruct fs as [|[k v] fs]; [reflexivity|].
    cbn [map comma_tokens fst snd].
    assert (∀ f, f ∈ (k, v) :: fs → reads f.2 ∧ (Z.of_nat (S (length stack + depth f.2)) <= 10000)%Z) as Hy.
    { intros f Hf. rewrite Forall_forall in IH. rewrite forallb_forall in Hc. split.
      - apply IH; [done|]. apply list_elem_of_In, Hc in Hf. by apply andb_prop in Hf as [_ ?].
      - apply (depth_element (fun f => depth f.2)) in Hf. cbn [depth] in Hd. lia. }
    rewrite <-!app_assoc. cbn [app]. do 2 (rewrite parse_cons; cbn [parse_step]).
    destruct (Hy (k, v)) as [Hx Hdx]; [left|]. cbn [snd] in Hx, Hdx. rewrite Hx by exact Hdx.
    rewrite <-?app_assoc. cbn [app]. rewrite (parse_fields fs [] k v).
    + change (set_field k v []) with (foldl (fun fs f => set_field f.1 f.2 fs) [] [(k, v)]).
      rewrite <-foldl_app. cbn [app]. by rewrite (fold_set_field _ []).
    + apply Forall_forall. intros y Hin. apply Hy. by right.
    + intros y Hin. apply Hy. by right.
Qed.

(** What [json.Marshal] writes, [json.Unmarshal] reads back. *)
Lemma Unmarshal_marshal html j :
  canonical j = true → (Z.of_nat (depth j) <= 10000)%Z → Unmarshal (marshal_of html j) = Ok j.
Proof.
  intros Hc Hd. unfold Unmarshal. rewrite <-(str_app_nil_r (marshal_of html j)), lex_value by (done || by left).
  cbn [lex lex_end append_tokens]. rewrite reads_all by done. done.
Qed.

(** ** The encoding is injective *)
Section items.
Context {A} (toks : A → list token) (close : ascii).
Hypothesis Hclose : close ≠ ","%char.
Hypothesis Hhead : ∀ x ts ts', toks x ++ ts ≠ TPunct close :: ts'.

Definition separates (x : A) : Prop := ∀ y ts ts', toks x ++ ts = toks y ++ ts' → x = y ∧ ts = ts'.

Lemma rest_inj l : Forall separates l → ∀ l' ts ts',
  flat_map (fun l => TPunct ","%char :: l) (map toks l) ++ TPunct close :: ts =
  flat_map (fun l => TPunct ","%char :: l) (map toks l') ++ TPunct close :: ts' → l = l' ∧ ts = ts'.
Proof.
  induction 1 as [|x l Hx _ IH]; intros [|y l'] ts ts'; cbn; [by intros [= ->]|by intros [= ? _]|by intros [= ? _]|].
  rewrite <-!app_assoc. intros [= [-> E]%Hx]. by apply IH in E as [-> ->].
Qed.
Lemma items_inj l : Forall separates l → ∀ l' ts ts',
  comma_tokens (map toks l) ++ TPunct close :: ts = comma_tokens (map toks l') ++ TPunct close :: ts' → l = l' ∧ ts = ts'.
Proof.
  destruct 1 as [|x l Hx Hl]; intros [|y l'] ts ts'; cbn; rewrite <-?app_assoc; [by intros [= ->]| | |].
  - intros E. symmetry in E. by apply Hhead in E.
  - intros E. by apply Hhead in E.
  - intros [-> E]%Hx. by apply (rest_inj l Hl) in E as [-> ->].
Qed.
End items.

Lemma tokens_head j a ts ts' : a = "]"%char ∨ a = "}"%char → tokens j ++ ts ≠ TPunct a :: ts'.
Proof. intros [-> | ->]; by destruct j. Qed.

Lemma tokens_inj j : separates tokens j.
Proof.
  induction j as [|b|s|s|l IH|fs IH] using json_nested_ind; intros k ts ts'; destruct k; cbn [tokens app]; try (by intros [= -> ->]); try (by intros [= ->]).
  - intros [= E]. rewrite <-!app_assoc in E. apply items_inj in E as [-> ->]; [done|done| |done].
    intros x u u'. apply tokens_head. by left.
  - intros [= E]. rewrite <-!app_assoc in E. apply items_inj in E as [-> ->]; [done|done|done|].
    eapply Forall_impl; [exact IH|]. cbn. intros [n v] Hv [n' v'] u u' [= -> Ev]. cbn in Hv, Ev. by apply Hv in Ev as [-> ->].
Qed.

Lemma marshal_inj html j k : canonical j = true → canonical k = true → marshal_of html j = marshal_of html k → j = k.
Proof.
  intros Hj Hk E.
  assert (∀ v, canonical v = true → lex Between (marshal_of html v) = Some (tokens v)) as Hlex.
  { intros v Hv. rewrite <-(str_app_nil_r (marshal_of html v)), lex_value by (done || by left).
    cbn. by rewrite app_nil_r. }
  apply (f_equal (lex Between)) in E. rewrite !Hlex in E by done. injection E as E.
  apply (f_equal (fun l => l ++ [])) in E. by apply tokens_inj in E as [-> _].
Qed.

(** ** Every document read is canonical *)
Definition utf8_block (p : string) : Prop := ∀ t, valid_utf8 (p +:+ t) = valid_utf8 t.

Lemma byte_in_Z lo hi z : is_byte z →
  byte_in lo hi (ascii_of_Z z) = true ↔ (Z.of_nat lo <= z <= Z.of_nat hi)%Z.
Proof.
  intros Hz. pose proof (byte_of_ascii z Hz) as E. unfold byte_of in E. unfold byte_in.
  rewrite andb_true_iff, !Nat.leb_le. lia.
Qed.

Lemma byte_in_Z_false lo hi z : is_byte z →
  byte_in lo hi (ascii_of_Z z) = false ↔ ¬ (Z.of_nat lo <= z <= Z.of_nat hi)%Z.
Proof. intros Hz. rewrite <-(byte_in_Z lo hi z Hz). by destruct (byte_in lo hi (ascii_of_Z z)). Qed.

Lemma block2 a b : lead2 a b = true → utf8_block (String a (String b "")).
Proof.
  intros H t. destruct (lead_not_ascii a b a a) as [Ha _]. str_simpl. cbn [valid_utf8]. by rewrite (Ha H), H.
Qed.
Lemma block3 a b c : lead3 a b c = true → utf8_block (String a (String b (String c ""))).
Proof.
  intros H t. destruct (lead_not_ascii a b c a) as (_ & Ha & _). destruct (Ha H) as [H1 H2].
  str_simpl. cbn [valid_utf8]. by rewrite H1, H2, H.
Qed.
Lemma block4 a b c d : lead4 a b c d = true → utf8_block (String a (String b (String c (String d "")))).
Proof.
  intros H t. destruct (lead_not_ascii a b c d) as (_ & _ & Ha). destruct (Ha H) as (H1 & H2 & H3).
  str_simpl. cbn [valid_utf8]. by rewrite H1, H2, H3, H.
Qed.

(** A Unicode scalar value. *)
Definition scalar (r : Z) : Prop := (0 <= r < 1114112 ∧ ¬ 55296 <= r < 57344)%Z.

Lemma rune_block r : scalar r → utf8_block (rune_string r).
Proof.
  intros [Hr Hs]. unfold rune_string.
  destruct (Z.ltb_spec r 128) as [H1|H1].
  { intros t. str_simpl. cbn [valid_utf8]. unfold ascii7.
    by rewrite (proj2 (byte_in_Z 0 127 r ltac:(unfold is_byte; lia))) by lia. }
  destruct (Z.ltb_spec r 2048) as [H2|H2].
  { apply block2. unfold lead2, cont.
    rewrite andb_true_iff, !byte_in_Z by (unfold is_byte; Z.to_euclidean_division_equations; lia).
    Z.to_euclidean_division_equations. lia. }
  destruct (Z.ltb_spec r 65536) as [H3|H3].
  { apply block3. unfold lead3, cont.
    rewrite !andb_true_iff, !orb_true_iff, !andb_true_iff, !byte_in_Z
      by (unfold is_byte; Z.to_euclidean_division_equations; lia).
    Z.to_euclidean_division_equations. lia. }
  apply block4. unfold lead4, cont.
  rewrite !andb_true_iff, !orb_true_iff, !andb_true_iff, !byte_in_Z
    by (unfold is_byte; Z.to_euclidean_division_equations; lia).
  Z.to_euclidean_division_equations. lia.
Qed.

Lemma hex_digit_of_range a d : hex_digit_of a = Some d → (0 <= d < 16)%Z.
Proof. unfold hex_digit_of. intros H. repeat case_match; simplify_eq; bool_simpl; lia. Qed.

Lemma hex4_range a b c d u : hex4 a b c d = Some u → (0 <= u < 65536)%Z.
Proof.
  unfold hex4. destruct (hex_digit_of a) eqn:Ea, (hex_digit_of b) eqn:Eb, (hex_digit_of c) eqn:Ec, (hex_digit_of d) eqn:Ed;
    try done. intros [= <-]. apply hex_digit_of_range in Ea, Eb, Ec, Ed. lia.
Qed.

Lemma replacement_block : utf8_block replacement.
Proof. apply rune_block. split; lia. Qed.

Lemma prepend_valid p r t : utf8_block p → (∀ s, r = Some s → valid_utf8 s = true) → prepend p r = Some t → valid_utf8 t = true.
Proof. intros Hp Hr. destruct r as [s|]; [|done]. intros [= <-]. rewrite Hp. by apply Hr. Qed.

Lemma escape_char_ascii c x : escape_char c = Some x → ascii7 x = true.
Proof.
  unfold escape_char. destruct (_ || _) eqn:E; [intros [= <-]|repeat case_bool_decide; by intros [= <-]].
  by repeat (apply orb_prop in E as [E|E]); bool_simpl; subst.
Qed.

Lemma ascii_block a : ascii7 a = true → utf8_block (String a "").
Proof. intros Ha t. str_simpl. cbn [valid_utf8]. by rewrite Ha. Qed.

Lemma unquote_valid k : ∀ s t, String.length s < k → unquote s = Some t → valid_utf8 t = true.
Proof.
  induction k as [|k IH]; [lia|]. intros s t Hk.
  assert (Hr : ∀ p r x, utf8_block p → String.length r < k → prepend p (unquote r) = Some x → valid_utf8 x = true)
    by (intros p r x Hp Hl; apply prepend_valid; [done|intros y Hy; by eapply IH]).
  destruct s as [|a s1]; [by intros [= <-]|]. cbn [String.length] in Hk.
  assert (Hf : prepend replacement (unquote s1) = Some t → valid_utf8 t = true)
    by (apply Hr; [apply replacement_block|lia]).
  cbn [unquote]. destruct (bool_decide (a = backslash)).
  { destruct s1 as [|c s2]; [done|]. cbn [String.length] in Hk. destruct (bool_decide (c = "u"%char)).
    2:{ destruct (escape_char c) as [x|] eqn:Ex; [|done]. apply Hr; [|lia]. by eapply ascii_block, escape_char_ascii. }
    destruct s2 as [|h1 [|h2 [|h3 [|h4 r]]]]; try done. cbn [String.length] in Hk.
    destruct (hex4 h1 h2 h3 h4) as [u|] eqn:Eu; [|done]. apply hex4_range in Eu.
    assert (Hrep : prepend replacement (unquote r) = Some t → valid_utf8 t = true)
      by (apply Hr; [apply replacement_block|lia]).
    destruct (high_surrogate u || low_surrogate u) eqn:Es.
    2:{ apply Hr; [|lia]. apply rune_block. unfold high_surrogate, low_surrogate in Es. bool_simpl. split; lia. }
    destruct r as [|b [|x [|g1 [|g2 [|g3 [|g4 r2]]]]]]; try exact Hrep.
    destruct (hex4 g1 g2 g3 g4) as [v|] eqn:Ev; [|exact Hrep]. apply hex4_range in Ev.
    destruct (_ && _ && _ && _) eqn:Ep; [|exact Hrep]. cbn [String.length] in Hk. apply Hr; [|lia].
    apply rune_block. unfold high_surrogate, low_surrogate, surrogate_pair in *. bool_simpl. split; lia. }
  destruct (bool_decide (a = quote) || byte_in 0 31 a); [done|].
  destruct (ascii7 a) eqn:Ea; [apply Hr; [by apply ascii_block|lia]|].
  destruct s1 as [|b s2]; [exact Hf|]. destruct (lead2 a b) eqn:E2; [apply Hr; [by apply block2|cbn in Hk; lia]|].
  destruct s2 as [|c s3]; [exact Hf|]. destruct (lead3 a b c) eqn:E3; [apply Hr; [by apply block3|cbn in Hk; lia]|].
  destruct s3 as [|d s4]; [exact Hf|]. destruct (lead4 a b c d) eqn:E4; [|exact Hf].
  apply Hr; [by apply block4|cbn in Hk; lia].
Qed.

Definition good_token (t : token) : Prop := match t with TVal v => canonical v = true | TPunct _ => True end.
Definition good_step (r : option (list token * lexer)) : Prop := ∀ ts st, r = Some (ts, st) → Forall good_token ts.

Lemma begin_good a : good_step (begin a).
Proof. intros ts st. unfold begin. intros H. repeat case_match; simplify_eq; repeat constructor. Qed.

Lemma literal_canonical w v : literal w = Some v → canonical v = true.
Proof. unfold literal. intros H. repeat case_match; by simplify_eq. Qed.

Lemma emit_good v a : canonical v = true → good_step (emit v (begin a)).
Proof.
  intros Hv ts st. unfold emit. destruct (begin a) as [[us st']|] eqn:E; [|done]. intros [= <- <-].
  constructor; [done|]. by eapply begin_good.
Qed.

Lemma lex_step_good st a : good_step (lex_step st a).
Proof.
  destruct st as [|raw|raw|lit|w]; cbn [lex_step]; [apply begin_good| | | |]; intros ts st'.
  - repeat case_match; intros; simplify_eq; repeat constructor.
    eapply (unquote_valid (S (String.length raw)) raw); [lia|done].
  - intros. by simplify_eq.
  - destruct (number_char a); [intros; by simplify_eq|]. destruct (valid_number lit) eqn:E; [|done].
    by apply emit_good.
  - destruct (is_letter a); [intros; by simplify_eq|]. destruct (literal w) as [v|] eqn:E; [|done].
    apply emit_good. by eapply literal_canonical.
Qed.

Lemma lex_good s : ∀ st ts, lex st s = Some ts → Forall good_token ts.
Proof.
  induction s as [|a s IH]; intros st ts; cbn [lex].
  - destruct st as [|raw|raw|lit|w]; cbn; intros H; repeat case_match; simplify_eq; repeat constructor; [done|].
    by eapply literal_canonical.
  - destruct (lex_step st a) as [[us st']|] eqn:E; [|done]. destruct (lex st' s) as [vs|] eqn:E2; [|done].
    intros [= <-]. apply Forall_app. split; [by eapply lex_step_good|by eapply IH].
Qed.

(** The fields of an object under construction. *)
Definition good_fields (fs : list (string * json)) : Prop :=
  keys_ascending (map fst fs) = true ∧ Forall (fun f => valid_utf8 f.1 && canonical f.2 = true) fs.

Lemma canonical_obj fs : canonical (JObj fs) = true ↔ good_fields fs.
Proof.
  cbn [canonical]. unfold good_fields. rewrite andb_true_iff, Forall_forall, forallb_forall.
  setoid_rewrite list_elem_of_In. done.
Qed.

Lemma strictly_sorted (fs : list (string * json)) :
  NoDup (map fst fs) → StronglySorted (not_above (less_on fst string_ltb)) fs → keys_ascending (map fst fs) = true.
Proof.
  intros Hn Hs%(sorted_by_key fst string_ltb). apply keys_ascending_spec.
  induction Hs as [|k ks Hs IH Hall]; constructor; apply NoDup_cons in Hn as [Hk Hn]; [by apply IH|].
  apply Forall_forall. intros k' Hk'. rewrite Forall_forall in Hall. specialize (Hall k' Hk').
  destruct (string_ltb k k') eqn:E; [done|]. destruct Hk. by rewrite (less_total k k' E Hall).
Qed.

Lemma set_field_good k v fs : valid_utf8 k = true → canonical v = true → good_fields fs → good_fields (set_field k v fs).
Proof.
  intros Hk Hv [Ha Hf]. assert (Hp := sort_by_perm (less_on fst string_ltb) ((k, v) :: delete_field k fs)).
  assert (NoDup (map fst fs)) as Hn.
  { apply keys_ascending_spec in Ha. clear -Ha. induction Ha as [|a l _ IH Hall]; constructor; [|done].
    intros Hin. rewrite Forall_forall in Hall. specialize (Hall a Hin). by rewrite string_ltb_irrefl in Hall. }
  assert (∀ f, f ∈ delete_field k fs → f ∈ fs ∧ f.1 ≠ k) as Hd.
  { intros f. unfold delete_field. rewrite list_elem_of_In, filter_In, <-list_elem_of_In.
    intros [? Hx]. bool_simpl. done. }
  split.
  - apply strictly_sorted.
    + unfold set_field. rewrite Hp. cbn. apply NoDup_cons. split.
      * intros (f & -> & [_ Hx]%Hd)%list_elem_of_fmap. done.
      * clear -Hn. unfold delete_field. induction fs as [|f fs IH]; cbn; [done|].
        cbn in Hn. apply NoDup_cons in Hn as [Hf Hn].
        destruct (negb _); cbn; [|by apply IH]. apply NoDup_cons. split; [|by apply IH].
        intros (g & E & Hg)%list_elem_of_fmap. apply list_elem_of_In, filter_In in Hg as [Hg _]. apply Hf.
        rewrite E. by apply list_elem_of_fmap_2, list_elem_of_In.
    + apply sort_by_sorted, _.
  - unfold set_field. rewrite Hp. constructor; [by cbn; rewrite Hk, Hv|].
    apply Forall_forall. intros f [Hin _]%Hd. by rewrite Forall_forall in Hf; apply Hf.
Qed.

Definition good_frame (f : frame) : Prop :=
  match f with
  | FArr items => Forall (fun j => canonical j = true) items
  | FObj fs k => good_fields fs ∧ valid_utf8 k = true
  end.
Definition good_expect (e : expect) : Prop :=
  match e with
  | Key fs => good_fields fs
  | Colon fs k => good_fields fs ∧ valid_utf8 k = true
  | After v => canonical v = true
  | _ => True
  end.

Lemma canonical_arr l : Forall (fun j => canonical j = true) l → canonical (JArr (rev l)) = true.
Proof.
  intros Hl. cbn. apply forallb_forall. intros x Hx. rewrite <-in_rev, <-list_elem_of_In in Hx.
  by rewrite Forall_forall in Hl; apply Hl.
Qed.

Lemma value_step_good stack t e stack' : Forall good_frame stack → good_token t →
  value_step stack t = Some (e, stack') → good_expect e ∧ Forall good_frame stack'.
Proof.
  unfold value_step. intros Hs Ht H. repeat case_match; simplify_eq; split; try done; by repeat constructor.
Qed.

Lemma parse_step_good e stack t e' stack' : good_expect e → Forall good_frame stack → good_token t →
  parse_step e stack t = Some (e', stack') → good_expect e' ∧ Forall good_frame stack'.
Proof.
  intros He Hs Ht H. unfold parse_step in H.
  destruct e as [| | |fs|fs k|v]; try (exact (value_step_good _ _ _ _ Hs Ht H)).
  - destruct stack as [|[[|]|] stack]; try (exact (value_step_good _ _ _ _ Hs Ht H)).
    destruct t as [a|v]; [|exact (value_step_good _ _ _ _ Hs Ht H)]. inversion Hs; subst.
    repeat case_match; try (exact (value_step_good _ _ _ _ Hs Ht H)); simplify_eq; by split.
  - repeat case_match; simplify_eq; done.
  - repeat case_match; simplify_eq; done.
  - repeat case_match; simplify_eq. split; [done|]. by constructor.
  - destruct stack as [|f stack]; [done|]. inversion Hs as [|?? Hf Hs']; subst.
    destruct f as [items|fs k]; cbn in He, Hf; repeat case_match; simplify_eq; (split; [|by repeat constructor]);
      cbn [good_expect]; try done;
      first [ apply canonical_arr; by constructor | apply canonical_obj; destruct Hf; by apply set_field_good
            | destruct Hf; by apply set_field_good ].
Qed.

Lemma parse_good ts : ∀ e stack j, good_expect e → Forall good_frame stack → Forall good_token ts →
  parse e stack ts = Some j → canonical j = true.
Proof.
  induction ts as [|t ts IH]; intros e stack j He Hs Ht; cbn [parse].
  - by destruct e, stack; intros; simplify_eq.
  - inversion Ht; subst. destruct (parse_step e stack t) as [[e' stack']|] eqn:E; [|done].
    apply parse_step_good in E as [? ?]; [|done..]. by apply IH.
Qed.

Lemma Unmarshal_canonical s j : Unmarshal s = Ok j → canonical j = true.
Proof.
  unfold Unmarshal. destruct (lex Between s) as [ts|] eqn:E; [|done].
  destruct (parse Value [] ts) as [v|] eqn:E2; [|done]. intros [= <-].
  eapply parse_good; [| | |exact E2]; [done|constructor|by eapply lex_good].
Qed.
