(* ===== verification/K8sApply.v ===== *)
(** * internal/k8s: applying a manifest and restarting a workload

    The mutation path of apply.go (create or update under an observation guard,
    the ownership check of cluster-scoped objects, the conflict retry, delete
    and recreate of a bare Pod) and restart.go, over the dynamic client as a
    parameter.  A world of the client may move between any two calls. *)
From S2P Require Import Prelude GoStd Identity Digest Json SpoBackend Target Kube Journal Unstructured.
Import SpoBackend.

Record GVR := mkGVR { gvr_Group : string; gvr_Version : string; gvr_Resource : string }.
#[export] Instance GVR_eq_dec : EqDecision GVR.
Proof. solve_decision. Defined.

Record ApplyGuard := mkGuard { g_Present : bool; g_UID : string; g_ResourceVersion : string }.
#[export] Instance ApplyGuard_eq_dec : EqDecision ApplyGuard.
Proof. solve_decision. Defined.

Record MutationObservation := mkObservation { mo_UID : string; mo_ResourceVersion : string }.

(** The dynamic client on a resource in a namespace (empty for a cluster-scoped
    one).  A deletion carries its preconditions; [dyn_expired] is the select
    between a deadline and a timer; [dyn_manifest] is the YAML decoder. *)
Class Dynamic (W : Type) := {
  dyn_get : GVR → string → string → M W json;
  dyn_create : GVR → string → json → M W json;
  dyn_update : GVR → string → json → M W json;
  dyn_delete : GVR → string → string → option string → option string → M W unit;
  dyn_patch : GVR → string → string → json → M W json;
  dyn_expired : M W bool;
  dyn_manifest : string → result json }.

Module K8sApply.

Definition LandlockProfileGVK : GVK := mkGVK "podlock.kubewarden.io" "v1alpha1" "LandlockProfile".
Definition NetworkPolicyGVK : GVK := mkGVK "networking.k8s.io" "v1" "NetworkPolicy".
Definition SeccompProfileGVR : GVR := mkGVR Group Version "seccompprofiles".

Definition applyGVRs : list (GVK * GVR) :=
  [(LandlockProfileGVK, mkGVR "podlock.kubewarden.io" "v1alpha1" "landlockprofiles");
   (NetworkPolicyGVK, mkGVR "networking.k8s.io" "v1" "networkpolicies");
   (SeccompProfileGVK, SeccompProfileGVR);
   (mkGVK "" "v1" "Pod", mkGVR "" "v1" "pods");
   (mkGVK "apps" "v1" "Deployment", mkGVR "apps" "v1" "deployments");
   (mkGVK "apps" "v1" "StatefulSet", mkGVR "apps" "v1" "statefulsets");
   (mkGVK "apps" "v1" "DaemonSet", mkGVR "apps" "v1" "daemonsets")].
Definition gvr_of (gvk : GVK) : option GVR :=
  match List.find (fun e => bool_decide (e.1 = gvk)) applyGVRs with Some e => Some e.2 | None => None end.

Definition clusterScoped (gvk : GVK) : bool := bool_decide (gvk = SeccompProfileGVK) && SeccompProfileClusterScoped.

(** ** Deletion budgets

    Durations are nanoseconds in an int64, which wraps. *)
Definition int64 (z : Z) : Z := ((z + 9223372036854775808) mod 18446744073709551616 - 9223372036854775808)%Z.
Definition second : Z := 1000000000.
Definition restartPollInterval : Z := 500000000.
Definition deletionObservationMargin : Z := 5 * second.
Definition defaultPodTerminationGrace : Z := 30 * second.

Definition podDeletionBudget (graceSeconds : option Z) : Z :=
  let grace := match graceSeconds with
               | Some g => if (0 <=? g)%Z then int64 (g * second) else defaultPodTerminationGrace
               | None => defaultPodTerminationGrace
               end in
  int64 (grace + deletionObservationMargin).

(** [NestedInt64]: an integer literal. *)
Fixpoint digits_value (acc : Z) (s : string) : option Z :=
  match s with
  | "" => Some acc
  | String c s => match digit_val c with Some d => digits_value (acc * 10 + d)%Z s | None => None end
  end.
Definition int_literal (s : string) : option Z :=
  match s with
  | "" => None
  | String c rest =>
      if bool_decide (c = "-"%char)
      then if empty rest then None else match digits_value 0 rest with Some z => Some (- z)%Z | None => None end
      else digits_value 0 s
  end.

Section k8s.
Context {W : Type} `{!Dynamic W} `{!Unstructured}.

Definition NestedInt64 (path : list string) (j : json) : result (option Z) :=
  typed (fun v => match v with JNum t => int_literal t | _ => None end) (NestedField path j).

(** ** Reading the object an artifact targets *)
Definition ReadApplyResource (namespace : string) (desired : json) : M W (option json) :=
  let gvk := GroupVersionKind desired in
  match gvr_of gvk with
  | None => m_err (mkError "" "unrecognized resource kind")
  | Some gvr =>
      let ns := if clusterScoped gvk then ""
                else if empty (GetNamespace desired) then namespace else GetNamespace desired in
      m_try (dyn_get gvr ns (GetName desired)) (fun r =>
        match r with
        | Err e => if IsNotFound e then m_ret None else m_err e
        | Ok current => m_ret (Some current)
        end)
  end.

(** ** Guards *)
Definition observation_of (o : json) : MutationObservation := mkObservation (GetUID o) (GetResourceVersion o).

(** The live object differs from the observation of the caller. *)
Definition guard_refuses (g : option ApplyGuard) (existing : json) : bool :=
  match g with
  | None => false
  | Some g => negb (g_Present g) || negb (bool_decide (GetUID existing = g_UID g)) ||
              negb (bool_decide (GetResourceVersion existing = g_ResourceVersion g))
  end.

Definition checkGovernedOwnership (existing incoming : json) : result unit :=
  let want := GetAnnotations incoming in
  if negb (bool_decide (annotation want ManagedByAnnotation = ManagedByValue)) then Ok ()
  else match ClassifyOwnership (GetAnnotations existing) (annotation want TargetNamespaceAnnotation)
               (annotation want TargetPodAnnotation) (annotation want TargetContainerAnnotation) with
       | OwnedSameTarget => Ok ()
       | _ => failwith "refusing to overwrite cluster-scoped object"
       end.

(** ** Waiting for a Pod to be gone

    The loop of [waitForDynamicPodGone] and [waitForPodGone], on the read of
    the Pod's UID.  Each round waits [interval], so [timeout / interval + 2]
    rounds reach the deadline. *)
Fixpoint poll_gone (fuel : nat) (read : M W string) (originalUID : string) : M W unit :=
  match fuel with
  | 0 => m_err (mkError "" "timed out waiting for Pod to be deleted")
  | S k =>
      m_try read (fun pod =>
        match pod with
        | Err e => if IsNotFound e then m_ret () else m_err e
        | Ok uid =>
            guard negb (empty originalUID) && negb (bool_decide (uid = originalUID))
              with mkError "" "Pod changed identity while being deleted" ;!
            expired <- dyn_expired ;!
            if expired then m_err (mkError "" "timed out waiting for Pod to be deleted")
            else poll_gone k read originalUID
        end)
  end.
Definition wait_gone (read : M W string) (originalUID : string) (timeout interval : Z) : M W unit :=
  poll_gone (Z.to_nat (timeout / interval) + 2) read originalUID.

Definition waitForDynamicPodGone (gvr : GVR) (ns name originalUID : string) (timeout interval : Z) : M W unit :=
  wait_gone (pod <- dyn_get gvr ns name ;! m_ret (GetUID pod)) originalUID timeout interval.

(** The UID precondition of a deletion. *)
Definition uid_precondition (uid : string) : option string := if empty uid then None else Some uid.

Definition create_observed (gvr : GVR) (ns : string) (obj : json) : M W MutationObservation :=
  created <- dyn_create gvr ns obj ;! m_ret (observation_of created).

Definition applyPodObserved (gvr : GVR) (ns : string) (obj : json) (g : option ApplyGuard) : M W MutationObservation :=
  let name := GetName obj in
  m_try (dyn_get gvr ns name) (fun r =>
    match r with
    | Err e => if IsNotFound e then create_observed gvr ns obj else m_err e
    | Ok existing =>
        guard guard_refuses g existing with mkError "" "live Pod changed before mutation" ;!
        grace <- m_lift (NestedInt64 ["spec"; "terminationGracePeriodSeconds"] existing) ;!
        let originalUID := GetUID existing in
        do dyn_delete gvr ns name (uid_precondition originalUID) None ;!
        do waitForDynamicPodGone gvr ns name originalUID (podDeletionBudget grace) restartPollInterval ;!
        create_observed gvr ns obj
    end).

(** ** Create or update *)
Definition maxConflictRetries : nat := 3.

Fixpoint update_loop (retries : nat) (gvr : GVR) (ns : string) (obj existing : json) : M W MutationObservation :=
  let obj := SetResourceVersion (GetResourceVersion existing) obj in
  m_try (dyn_update gvr ns obj) (fun r =>
    match r with
    | Ok updated => m_ret (observation_of updated)
    | Err e =>
        if IsConflict e then
          match retries with
          | 0 => m_err e
          | S k => existing <- dyn_get gvr ns (GetName obj) ;! update_loop k gvr ns obj existing
          end
        else m_err e
    end).

(** The namespace of the request and the object that goes into it. *)
Definition scoped_object (namespace : string) (gvk : GVK) (obj : json) : string * json :=
  if clusterScoped gvk then ("", SetNamespace "" obj)
  else if empty (GetNamespace obj) then (namespace, SetNamespace namespace obj) else (GetNamespace obj, obj).

Definition applyParsedObserved (namespace : string) (obj : json) (g : option ApplyGuard) : M W MutationObservation :=
  let gvk := GroupVersionKind obj in
  match gvr_of gvk with
  | None => m_err (mkError "" "unrecognized resource kind in generated manifest")
  | Some gvr =>
      let '(ns, obj) := scoped_object namespace gvk obj in
      if bool_decide (gvk_Kind gvk = "Pod") then applyPodObserved gvr ns obj g
      else
        m_try (dyn_get gvr ns (GetName obj)) (fun r =>
          match r with
          | Err e => if IsNotFound e then create_observed gvr ns obj else m_err e
          | Ok existing =>
              guard guard_refuses g existing with mkError "" "live resource changed before mutation" ;!
              do (if clusterScoped gvk then m_lift (checkGovernedOwnership existing obj) else m_ret ()) ;!
              update_loop maxConflictRetries gvr ns obj existing
          end)
  end.

Definition ApplyWithGuardObserved (namespace yamlContent : string) (g : ApplyGuard) : M W MutationObservation :=
  desired <- m_lift (dyn_manifest yamlContent) ;! applyParsedObserved namespace desired (Some g).
Definition ApplyObserved (namespace yamlContent : string) : M W MutationObservation :=
  obj <- m_lift (dyn_manifest yamlContent) ;! applyParsedObserved namespace obj None.
Definition ApplyWithGuard (namespace yamlContent : string) (g : ApplyGuard) : M W unit :=
  do ApplyWithGuardObserved namespace yamlContent g ;! m_ret ().
Definition Apply (namespace yamlContent : string) : M W unit :=
  do ApplyObserved namespace yamlContent ;! m_ret ().
End k8s.

(** ** Every mutation is justified *)

(** The calls of the client, with their answers. *)
Inductive call :=
| CGet (gvr : GVR) (ns name : string) (r : result json)
| CCreate (gvr : GVR) (ns : string) (obj : json) (r : result json)
| CUpdate (gvr : GVR) (ns : string) (obj : json) (r : result json)
| CDelete (gvr : GVR) (ns name : string) (uid rv : option string) (r : result unit).

Class DynamicJournal (W : Type) `{!Dynamic W} := {
  calls : W → list call;
  calls_get : ∀ gvr ns n, traced calls (dyn_get gvr ns n) (fun evs r => evs = [CGet gvr ns n r]);
  calls_create : ∀ gvr ns o, traced calls (dyn_create gvr ns o) (fun evs r => evs = [CCreate gvr ns o r]);
  calls_update : ∀ gvr ns o, traced calls (dyn_update gvr ns o) (fun evs r => evs = [CUpdate gvr ns o r]);
  calls_delete : ∀ gvr ns n u v, traced calls (dyn_delete gvr ns n u v) (fun evs r => evs = [CDelete gvr ns n u v r]);
  calls_expired : quiet calls dyn_expired }.

Definition is_update (c : call) : bool := match c with CUpdate _ _ _ _ => true | _ => false end.
Definition updates (cs : list call) : nat := length (List.filter is_update cs).

Section guarded.
Context {W : Type} `{!Dynamic W} `{!DynamicJournal W} `{!Unstructured}.
Variable g : option ApplyGuard.

(** What stands before a mutating call: the read of the object it is about, and
    that the object is absent, or is the one the guard observed; a further
    update follows a conflict and takes the version of a new read. *)
Definition justified (before : list call) (c : call) : Prop :=
  match c with
  | CGet _ _ _ _ => True
  | CCreate gvr ns obj _ => ∃ l e, before = l ++ [CGet gvr ns (GetName obj) (Err e)] ∧ IsNotFound e = true
  | CUpdate gvr ns obj _ => ∃ l existing desired,
      before = l ++ [CGet gvr ns (GetName desired) (Ok existing)] ∧
      obj = SetResourceVersion (GetResourceVersion existing) desired ∧ updates l ≤ maxConflictRetries ∧
      (guard_refuses g existing = false ∨
       ∃ l' obj' e, l = l' ++ [CUpdate gvr ns obj' (Err e)] ∧ IsConflict e = true)
  | CDelete gvr ns name uid rv _ => ∃ l existing,
      before = l ++ [CGet gvr ns name (Ok existing)] ∧ guard_refuses g existing = false ∧
      uid = uid_precondition (GetUID existing) ∧ rv = None
  end.
Abbreviation safely := (safe calls justified).
(** A success is the last write, and its observation. *)
Definition written (evs : list call) (r : result MutationObservation) : Prop :=
  match r with
  | Ok ob => ∃ l gvr ns obj live, ob = observation_of live ∧
      (evs = l ++ [CCreate gvr ns obj (Ok live)] ∨ evs = l ++ [CUpdate gvr ns obj (Ok live)])
  | Err _ => True
  end.

Lemma updates_app l k : updates (l ++ k) = updates l + updates k.
Proof. unfold updates. by rewrite List.filter_app, length_app. Qed.

Lemma create_safe l gvr ns obj e : IsNotFound e = true →
  safely (l ++ [CGet gvr ns (GetName obj) (Err e)]) (create_observed gvr ns obj) written.
Proof.
  intros He. eapply safe_bind_call; [apply calls_create| | |done].
  - intros r. by exists l, e.
  - intros live. apply safe_ret. eexists _, gvr, ns, obj, live. split; [done|by left].
Qed.

Lemma update_loop_safe retries l gvr ns desired existing :
  updates l + retries ≤ maxConflictRetries →
  (guard_refuses g existing = false ∨ ∃ l' obj' e, l = l' ++ [CUpdate gvr ns obj' (Err e)] ∧ IsConflict e = true) →
  safely (l ++ [CGet gvr ns (GetName desired) (Ok existing)]) (update_loop retries gvr ns desired existing) written.
Proof.
  revert l desired existing. induction retries as [|k IH]; intros l desired existing Hn Hj; cbn [update_loop];
    (eapply safe_try_call; [apply calls_update|intros r; exists l, existing, desired; repeat split; [lia|done]|]);
    intros [updated|e]; [by apply safe_ret; eexists _, gvr, ns, _, updated; split; [done|right]| |
      by apply safe_ret; eexists _, gvr, ns, _, updated; split; [done|right]|];
    (destruct (IsConflict e) eqn:He; [|by apply safe_err]); [by apply safe_err|].
  set (obj := SetResourceVersion _ _).
  eapply safe_bind_call; [apply calls_get|done| |done]. intros existing'. apply IH.
  - rewrite !updates_app. cbn. lia.
  - right. by eexists _, obj, e.
Qed.

Lemma poll_gone_safe fuel pre gvr ns name uid :
  safely pre (poll_gone fuel (pod <- dyn_get gvr ns name ;! m_ret (GetUID pod)) uid) (fun evs r =>
    is_ok r = true → ∃ l e, evs = l ++ [CGet gvr ns name (Err e)] ∧ IsNotFound e = true).
Proof.
  revert pre. induction fuel as [|k IH]; intros pre; cbn [poll_gone]; [by apply safe_err|].
  eapply safe_try with (Q := fun evs r => ∃ q, evs = pre ++ [CGet gvr ns name q] ∧ match q, r with
    | Err e, Err e' => e = e' | Ok _, Ok _ => True | _, _ => False end).
  - eapply safe_bind_call; [apply calls_get|done| |].
    + intros pod. apply safe_ret. by exists (Ok pod).
    + intros e. by exists (Err e).
  - intros [uid'|e] pre' (q & -> & Hq).
    + destruct (_ && _); [by apply safe_err|].
      apply safe_quiet_bind; [apply calls_expired| |done]. intros []; [by apply safe_err|]. apply IH.
    + destruct q as [o|e']; [done|]. subst e'. destruct (IsNotFound e) eqn:He; [|by apply safe_err].
      apply safe_ret. intros _. by exists pre, e.
Qed.

Lemma applyPodObserved_safe gvr ns obj : safely [] (applyPodObserved gvr ns obj g) written.
Proof.
  eapply safe_try_call; [apply calls_get|done|]. intros [existing|e]; last first.
  { destruct (IsNotFound e) eqn:He; [|by apply safe_err]. by apply create_safe. }
  destruct (guard_refuses g existing) eqn:Hg; [by apply safe_err|].
  apply safe_lift_bind; [|done]. intros grace _.
  eapply safe_bind_call; [apply calls_delete| | |done].
  { intros r. by exists [], existing. }
  intros ?. eapply safe_bind; [apply poll_gone_safe| |done].
  intros [] pre' Hx. destruct (Hx eq_refl) as (l & e & -> & He). by apply create_safe.
Qed.

Lemma applyParsedObserved_safe namespace obj : safely [] (applyParsedObserved namespace obj g) written.
Proof.
  unfold applyParsedObserved. destruct (gvr_of _) as [gvr|]; [|by apply safe_err].
  destruct (scoped_object _ _ _) as [ns obj']. destruct (bool_decide _); [apply applyPodObserved_safe|].
  eapply safe_try_call; [apply calls_get|done|]. intros [existing|e]; last first.
  { destruct (IsNotFound e) eqn:He; [|by apply safe_err]. by apply create_safe. }
  destruct (guard_refuses g existing) eqn:Hg; [by apply safe_err|].
  eapply safe_bind with (Q := fun evs _ => evs = [CGet gvr ns (GetName obj') (Ok existing)]); [| |done].
  - destruct (clusterScoped _); [by apply safe_lift|by apply safe_ret].
  - intros [] pre' ->. apply (update_loop_safe maxConflictRetries []); [done|by left].
Qed.

(** C8: every mutation of an apply is justified. Whatever the API server
    answers, an object is created only right after it was read as absent, the
    first update and every deletion come right after the read of an object the
    guard accepts, a deletion carries the UID of that object, a further update
    comes only after a conflict and takes the version of a new read, there are
    at most four updates, and a success is the answer of the last write. *)
Theorem applyParsedObserved_justified namespace obj w r w' :
  applyParsedObserved namespace obj g w = (r, w') →
  ∃ cs, calls w' = calls w ++ cs ∧ written cs r ∧ ∀ l c k, cs = l ++ c :: k → justified l c.
Proof.
  intros Hrun. destruct (applyParsedObserved_safe _ _ _ _ _ Hrun) as (cs & Hc & Hj & Hw). by exists cs.
Qed.
End guarded.

(** ** A concrete client

    Objects by resource, namespace and name; each call is preceded by the next
    write of another client, if the script has one. *)
Module Sim.

Record store := mkStore {
  d_live : gmap string json; d_next : nat; d_others : list (option (string * json)); d_log : list call }.

Definition key (gvr : GVR) (ns name : string) : string := gvr_Resource gvr +:+ "/" +:+ ns +:+ "/" +:+ name.
Definition stamp (n : nat) (uid : string) (o : json) : json :=
  std_set ["metadata"; "uid"] (JStr uid) (SetResourceVersion ("v" +:+ itoa (Z.of_nat n)) o).

(** The write of another client: it keeps the identity of a present object. *)
Definition other (w : store) : store :=
  match d_others w with
  | [] => w
  | None :: rest => mkStore (d_live w) (d_next w) rest (d_log w)
  | Some (k, o) :: rest =>
      let uid := match d_live w !! k with Some cur => GetUID cur | None => "uid-" +:+ itoa (Z.of_nat (d_next w)) end in
      mkStore (<[k := stamp (d_next w) uid o]> (d_live w)) (d_next w + 1) rest (d_log w)
  end.

Definition step {A} (ev : result A → call) (f : store → result A * store) : M store A := fun w =>
  let '(r, w') := f (other w) in (r, mkStore (d_live w') (d_next w') (d_others w') (d_log w ++ [ev r])).

Definition put (k : string) (uid : string) (o : json) (w : store) : result json * store :=
  let o := stamp (d_next w) uid o in
  (Ok o, mkStore (<[k := o]> (d_live w)) (d_next w + 1) (d_others w) (d_log w)).

Definition not_found {A} : result A := Err (mkError "NotFound" "").
Definition conflict {A} : result A := Err (mkError "Conflict" "").
Definition differs (want : option string) (have : string) : bool :=
  match want with Some v => negb (bool_decide (v = have)) | None => false end.

#[export] Instance dynamic : Dynamic store :=
  {| dyn_get := fun gvr ns n => step (CGet gvr ns n) (fun w =>
       (match d_live w !! key gvr ns n with Some o => Ok o | None => not_found end, w));
     dyn_create := fun gvr ns o => step (CCreate gvr ns o) (fun w =>
       match d_live w !! key gvr ns (GetName o) with
       | Some _ => (Err (mkError "AlreadyExists" ""), w)
       | None => put (key gvr ns (GetName o)) ("uid-" +:+ itoa (Z.of_nat (d_next w))) o w
       end);
     dyn_update := fun gvr ns o => step (CUpdate gvr ns o) (fun w =>
       match d_live w !! key gvr ns (GetName o) with
       | None => (not_found, w)
       | Some cur => if bool_decide (GetResourceVersion cur = GetResourceVersion o)
                     then put (key gvr ns (GetName o)) (GetUID cur) o w else (conflict, w)
       end);
     dyn_delete := fun gvr ns n uid rv => step (CDelete gvr ns n uid rv) (fun w =>
       match d_live w !! key gvr ns n with
       | None => (not_found, w)
       | Some cur =>
           if differs uid (GetUID cur) || differs rv (GetResourceVersion cur) then (conflict, w)
           else (Ok (), mkStore (delete (key gvr ns n) (d_live w)) (d_next w) (d_others w) (d_log w))
       end);
     dyn_patch := fun _ _ _ o => m_ret o;
     dyn_expired := m_ret true;
     dyn_manifest := fun _ => failwith "no manifest" |}.

#[export] Instance journal : DynamicJournal store.
Proof.
  assert (Hstep : ∀ A (ev : result A → call) f, traced d_log (step ev f) (fun evs r => evs = [ev r])).
  { intros A ev f w r w' E. unfold step in E. destruct (f (other w)) as [a w1]. injection E as <- <-. by eexists. }
  refine {| calls := d_log |}; cbn; intros; first [apply Hstep|by apply traced_ret].
Defined.

Definition policy (spec : string) : json :=
  obj_of [("apiVersion", JStr "networking.k8s.io/v1"); ("kind", JStr "NetworkPolicy");
    ("metadata", obj_of [("name", JStr "allow"); ("namespace", JStr "default")]); ("spec", JStr spec)].
Definition policies : GVR := mkGVR "networking.k8s.io" "v1" "networkpolicies".
Definition slot : string := key policies "default" "allow".
Definition start (others : list (option (string * json))) : store :=
  mkStore {[ slot := stamp 1 "uid-1" (policy "old") ]} 2 others [].
Definition observed : ApplyGuard := mkGuard true "uid-1" "v1".
Definition apply (others : list (option (string * json))) :=
  applyParsedObserved "default" (policy "new") (Some observed) (start others).

Lemma applyParsedObserved_justified_witness :
  (apply []).1 = Ok (mkObservation "uid-1" "v2") ∧
  ∃ cs, @calls store dynamic journal (apply []).2 = @calls store dynamic journal (start []) ++ cs ∧
    written cs (apply []).1 ∧ ∀ l c k, cs = l ++ c :: k → justified (Some observed) l c.
Proof.
  split; [vm_compute; reflexivity|].
  exact (applyParsedObserved_justified (Some observed) "default" (policy "new") (start []) _ _ (surjective_pairing _)).
Defined.

(** The comment on the mutation path says that a guarded caller cannot re-read a
    newer object and mutate it under an observation it did not persist.  It can:
    a write of another client between the read and the update is a conflict,
    and the retry reads the newer object and overwrites it, without checking
    the guard again. *)
Example guard_not_rechecked :
  let w := (apply [None; Some (slot, policy "theirs")]).2 in
  (apply [None; Some (slot, policy "theirs")]).1 = Ok (mkObservation "uid-1" "v3") ∧
  std_string ["spec"] (default JNull (d_live w !! slot)) = "new".
Proof. vm_compute. split; reflexivity. Qed.

(** An object that the guard observed and that is gone is created again. *)
Example guard_present_object_gone :
  (applyParsedObserved "default" (policy "new") (Some observed) (mkStore ∅ 5 [] [])).1 = Ok (mkObservation "uid-5" "v5").
Proof. vm_compute. reflexivity. Qed.

(** The comment says an existing cluster-scoped object of another owner is never
    overwritten.  It is when the incoming manifest carries no ownership
    annotations: the check then asserts nothing. *)
Definition profile (annotations : list (string * string)) (spec : string) : json :=
  obj_of [("apiVersion", JStr (Group +:+ "/" +:+ Version)); ("kind", JStr SeccompProfileKind);
    ("metadata", obj_of [("annotations", obj_of (map (fun a => (a.1, JStr a.2)) annotations)); ("name", JStr "shared")]);
    ("spec", JStr spec)].
Definition shared : string := key SeccompProfileGVR "" "shared".
Definition theirs : json := stamp 1 "uid-1" (profile [(ManagedByAnnotation, "somebody-else")] "theirs").

Example ungoverned_overwrites :
  let run o := applyParsedObserved "default" o (Some observed) (mkStore {[ shared := theirs ]} 2 [] []) in
  is_ok (run (profile [(ManagedByAnnotation, ManagedByValue)] "ours")).1 = false ∧
  is_ok (run (profile [] "ours")).1 = true ∧
  std_string ["spec"] (default JNull (d_live (run (profile [] "ours")).2 !! shared)) = "ours".
Proof. vm_compute. repeat split. Qed.
End Sim.

(** ** The deletion budget *)

(** The budget is the grace period and the margin, as long as the int64 product
    does not wrap. *)
Lemma podDeletionBudget_exact g : (0 <= g <= 9223372031)%Z → podDeletionBudget (Some g) = ((g + 5) * second)%Z.
Proof.
  intros Hg. unfold podDeletionBudget, deletionObservationMargin, second, int64.
  rewrite (proj2 (Z.leb_le 0 g)) by lia. rewrite (Z.mod_small (g * 1000000000 + _)) by lia.
  rewrite Z.mod_small by lia. lia.
Qed.

Example podDeletionBudget_wraps : (podDeletionBudget (Some 9223372037) < 0)%Z.
Proof. reflexivity. Qed.

(** ** Restarting a workload *)
Abbreviation OwnerReference := (string * string)%type.

Record Pod := mkPod {
  pod_Name : string; pod_Namespace : string; pod_UID : string; pod_Labels : list (string * string);
  pod_NodeName : string; pod_Grace : option Z; pod_Spec : json; pod_Owners : list OwnerReference }.

(** The typed client on Pods, the owners of a ReplicaSet, and the patch that
    starts a rollout of an owner. *)
Class Workloads (W : Type) := {
  pod_get : string → string → M W Pod;
  pod_create : Pod → M W unit;
  pod_delete : string → string → option string → M W unit;
  replicaset_owners : string → string → M W (list OwnerReference);
  rollout_patch : OwnerKind → string → string → M W unit;
  pod_expired : M W bool }.

Definition OwnerDeployment : OwnerKind := "Deployment".
Definition OwnerStatefulSet : OwnerKind := "StatefulSet".
Definition OwnerDaemonSet : OwnerKind := "DaemonSet".

Definition KeepsStableName (owner : OwnerKind) : bool :=
  bool_decide (owner = OwnerNone) || bool_decide (owner = OwnerStatefulSet).

Section restart.
Context {W : Type} `{!Workloads W}.

Definition DetectOwner (namespace : string) (pod : Pod) : M W (OwnerKind * string) :=
  match pod_Owners pod with
  | [] => m_ret (OwnerNone, "")
  | (kind, name) :: _ =>
      if bool_decide (kind = "StatefulSet") then m_ret (OwnerStatefulSet, name)
      else if bool_decide (kind = "DaemonSet") then m_ret (OwnerDaemonSet, name)
      else if bool_decide (kind = "ReplicaSet") then
        owners <- replicaset_owners namespace name ;!
        match owners with
        | (kind, owner) :: _ =>
            if bool_decide (kind = "Deployment") then m_ret (OwnerDeployment, owner)
            else m_err (mkError "" "ReplicaSet has no Deployment owner, which Restart does not support")
        | [] => m_err (mkError "" "ReplicaSet has no Deployment owner, which Restart does not support")
        end
      else m_err (mkError "" "pod is owned by a kind which Restart does not support yet")
  end.

Fixpoint poll_pod_gone (fuel : nat) (namespace name originalUID : string) : M W unit :=
  match fuel with
  | 0 => m_err (mkError "" "timed out waiting for pod to be deleted")
  | S k =>
      m_try (pod_get namespace name) (fun pod =>
        match pod with
        | Err e => if IsNotFound e then m_ret () else m_err e
        | Ok pod =>
            guard negb (empty originalUID) && negb (bool_decide (pod_UID pod = originalUID))
              with mkError "" "pod changed identity while being deleted" ;!
            expired <- pod_expired ;!
            if expired then m_err (mkError "" "timed out waiting for pod to be deleted")
            else poll_pod_gone k namespace name originalUID
        end)
  end.
Definition waitForPodGone (namespace name originalUID : string) (timeout interval : Z) : M W unit :=
  poll_pod_gone (Z.to_nat (timeout / interval) + 2) namespace name originalUID.

(** The replacement: name, namespace, labels and specification, no node. *)
Definition replacement (pod : Pod) : Pod :=
  mkPod (pod_Name pod) (pod_Namespace pod) "" (pod_Labels pod) "" (pod_Grace pod) (pod_Spec pod) [].

Definition restartBarePod (pod : Pod) : M W unit :=
  do pod_delete (pod_Namespace pod) (pod_Name pod) (uid_precondition (pod_UID pod)) ;!
  do waitForPodGone (pod_Namespace pod) (pod_Name pod) (pod_UID pod) (podDeletionBudget (pod_Grace pod))
       restartPollInterval ;!
  pod_create (replacement pod).

Definition Restart (namespace podName : string) : M W unit :=
  pod <- pod_get namespace podName ;!
  detected <- DetectOwner namespace pod ;!
  let '(owner, ownerName) := detected in
  if bool_decide (owner = OwnerNone) then restartBarePod pod else rollout_patch owner namespace ownerName.
End restart.
End K8sApply.
