(* ===== verification/Attempt.v ===== *)
(** * internal/attempt: durable custody of an apply execution

    The attempt record, its validation, its persistence through the API server
    interface of [Kube], and the custody epoch published on the CRD. *)
From S2P Require Import Prelude GoStd Identity Digest Kube SpoBackend Target Unstructured.

(** The client surface beyond the typed objects: randomness and the CRD that
    carries the custody epoch. *)
Class Environment (W : Type) := {
  random_bytes : nat → M W (list Z);
  get_crd : M W json;
  patch_crd : json → M W json }.

Module Attempt.

Definition StateInProgress : string := "IN_PROGRESS".
Definition StateApplied : string := "APPLIED".
Definition StatePartiallyApplied : string := "PARTIALLY_APPLIED".
Definition StateFailed : string := "FAILED".
Definition StateOutcomeUnknown : string := "OUTCOME_UNKNOWN".
Definition ResultSucceeded : string := "SUCCEEDED".
Definition ResultFailed : string := "FAILED".
Definition ResultUnknown : string := "OUTCOME_UNKNOWN".

Record Spec := mkSpec {
  ProposalNamespace : string; ProposalName : string; ProposalUID : string; ApprovedCandidateDigest : string;
  Target : GovernedTarget; StartedAt : string; OperatorIdentity : string; CustodyEpoch : string }.

Record MutationRecord := mkMutationRecord {
  m_ID : string; m_GVK : GVK; m_Namespace : string; m_Name : string; m_UID : string; m_ResourceVersion : string;
  m_Operation : string; m_Before : string; m_IntendedAfter : string; m_ObservedAfter : string;
  m_BeforeDigest : string; m_IntendedAfterDigest : string; m_ObservedAfterDigest : string;
  m_AttributableAfterRV : string; m_SourceMutationID : string; m_Result : string; m_Error : string }.
#[export] Instance MutationRecord_eq_dec : EqDecision MutationRecord.
Proof. solve_decision. Defined.

Record Status := mkStatus {
  st_State : string; st_UpdatedAt : string; st_CompletedAt : string; st_Failure : string;
  st_Mutations : list MutationRecord }.
#[export] Instance Status_eq_dec : EqDecision Status.
Proof. solve_decision. Defined.

Definition valid_state (s : string) : bool :=
  bool_decide (s ∈ [StateInProgress; StateApplied; StatePartiallyApplied; StateFailed; StateOutcomeUnknown]).
Definition valid_result (r : string) : bool :=
  bool_decide (r ∈ [ResultSucceeded; ResultFailed; ResultUnknown]).

Definition Validate (s : Status) : result unit :=
  fail_if negb (valid_state (st_State s)) with mkError "" "invalid ApplyAttempt state";
  fail_if existsb (fun mutation => negb (valid_result (m_Result mutation))) (st_Mutations s)
    with mkError "" "invalid ApplyAttempt mutation result";
  Ok ().

(** The attempt object: its spec and status under the API server's identity. *)
Abbreviation Object := (KObject Spec Status).

Section store.
Context {W : Type} `{!Api W Spec Status} `{!Environment W}.

(** [time.Format("20060102t150405")]. *)
Definition format_compact (t : time) : string :=
  let secs := (t / 1000000000)%Z in
  let '(y, m, d) := civil_from_days (secs / 86400)%Z in
  let s := (secs mod 86400)%Z in
  pad_digits 4 y (pad_digits 2 m (pad_digits 2 d ("t" +:+ pad_digits 2 (s / 3600)%Z
    (pad_digits 2 (s / 60 mod 60)%Z (pad_digits 2 (s mod 60)%Z ""))))).

Definition newName : M W string :=
  b <- random_bytes 8 ;! now <- api_now ;!
  m_ret ("apply-" +:+ format_compact now +:+ "-" +:+ hex_encode b).

Definition Create (spec : Spec) : M W (string * Object) :=
  name <- newName ;! created <- api_create (mkObject name "" "" (Some spec) None) ;! m_ret (name, created).

(** The status is validated, stamped and written over the object the caller
    carries, which takes the server's new version. *)
Definition SaveStatus (obj : Object) (status : Status) : M W Object :=
  do m_lift (Validate status) ;!
  now <- api_now ;!
  api_update_status (mkObject (o_Name obj) (o_UID obj) (o_ResourceVersion obj) (o_Spec obj)
    (Some (mkStatus (st_State status) (format_rfc3339nano now) (st_CompletedAt status) (st_Failure status)
             (st_Mutations status)))).

Definition CustodyEpochAnnotation : string := "landlockgenprof.io/custody-epoch".

Context `{!Unstructured}.

Definition CurrentCustodyEpoch : M W string :=
  m_try get_crd (fun crd =>
    match crd with
    | Err e => if IsNotFound e then m_ret "" else m_err e
    | Ok crd => m_ret (default "" (GetAnnotations crd !! CustodyEpochAnnotation))
    end).

(** Whether the served schema carries validation rules on spec and status. *)
Definition hardened (version : json) : bool :=
  let rules field :=
    match found (NestedSlice ["schema"; "openAPIV3Schema"; "properties"; field; "x-kubernetes-validations"] version) with
    | Some l => 0 <? length l
    | None => false
    end in
  rules "spec" && rules "status".

Definition CustodyEpochAndHardening : M W (string * bool) :=
  m_try get_crd (fun crd =>
    match crd with
    | Err e => if IsNotFound e then m_ret ("", false) else m_err e
    | Ok crd =>
        let epoch := default "" (GetAnnotations crd !! CustodyEpochAnnotation) in
        versions <- m_lift (NestedSlice ["spec"; "versions"] crd) ;!
        match versions with
        | Some (JObj v :: _) => m_ret (epoch, hardened (JObj v))
        | _ => m_ret (epoch, false)
        end
    end).

Definition NewCustodyEpoch : M W string := b <- random_bytes 16 ;! m_ret (hex_encode b).

Definition PatchCustodyEpoch (epoch : string) : M W json :=
  guard String.length epoch <? 32 with mkError "" "custody epoch must contain at least 128 bits" ;!
  patch_crd (obj_of [("metadata", obj_of [("annotations", obj_of [(CustodyEpochAnnotation, JStr epoch)])])]).
End store.

End Attempt.
