(* ===== verification/RollbackAttempt.v ===== *)
(** * internal/attempt: custody of a rollback, and custody read back

    The rollback attempt of store.go and its persistence, and the reading of a
    stored attempt: [fromUnstructured] of rollback.go is json.Marshal followed by
    json.Unmarshal into the structs of types.go, so the decoders below follow
    the struct tags and the rules of encoding/json (a JSON null leaves a field
    as it is, an unknown key is ignored, names match whatever their case, a
    value of another type is an error). *)
From S2P Require Import Prelude GoStd Identity Digest Kube SpoBackend Target Unstructured Attempt.

(** ** Decoding structs *)
Definition fold_eq (name key : string) : bool := bool_decide (to_lower name = to_lower key).

Definition into_string (cur : string) (j : json) : result string :=
  match j with JStr s => Ok s | JNull => Ok cur | _ => failwith "cannot unmarshal into string" end.

(** The field [name] of a struct, over the keys of the object in order. *)
Definition into_field {A} (into : A → json → result A) (name : string) (fs : list (string * json)) (cur : A) : result A :=
  foldl (fun acc f => if fold_eq name f.1 then cur ← acc; into cur f.2 else acc) (Ok cur) fs.
Abbreviation string_field name fs cur := (into_field into_string name fs cur).

Definition into_struct {A} (fields : list (string * json) → A → result A) (cur : A) (j : json) : result A :=
  match j with JObj fs => fields fs cur | JNull => Ok cur | _ => failwith "cannot unmarshal into struct" end.

(** A slice starts again from zero elements. *)
Definition into_slice {A} (zero : A) (into : A → json → result A) (cur : list A) (j : json) : result (list A) :=
  match j with
  | JArr l => result_mapM (into zero) l
  | JNull => Ok []
  | _ => failwith "cannot unmarshal into slice"
  end.

Definition into_WorkloadRef : WorkloadRef → json → result WorkloadRef := into_struct (fun fs w =>
  group ← string_field "group" fs (w_Group w);
  kind ← string_field "kind" fs (w_Kind w);
  name ← string_field "name" fs (w_Name w);
  Ok (mkWorkloadRef group kind name)).

Definition into_GovernedTarget : GovernedTarget → json → result GovernedTarget := into_struct (fun fs t =>
  ns ← string_field "namespace" fs (Namespace t);
  workload ← into_field into_WorkloadRef "workload" fs (Workload t);
  container ← string_field "container" fs (Container t);
  Ok (mkGovernedTarget ns workload container)).

Definition zero_target : GovernedTarget := mkGovernedTarget "" (mkWorkloadRef "" "" "") "".

Module RollbackAttempt.

(** ** The rollback attempt *)
Record RollbackSpec := mkRollbackSpec {
  SourceNamespace : string; SourceName : string; SourceUID : string; ProposalNamespace : string;
  ProposalName : string; ProposalUID : string; ApprovedCandidateDigest : string; Target : GovernedTarget;
  CustodyEpoch : string; PreviousNamespace : string; PreviousName : string; PreviousUID : string;
  StartedAt : string; OperatorIdentity : string }.
#[export] Instance RollbackSpec_eq_dec : EqDecision RollbackSpec.
Proof. solve_decision. Defined.

Abbreviation Object := (KObject RollbackSpec Attempt.Status).

Section store.
Context {W : Type} `{!Api W RollbackSpec Attempt.Status} `{!Environment W}.

Definition newRollbackName : M W string :=
  b <- random_bytes 8 ;! now <- api_now ;!
  m_ret ("rollback-" +:+ Attempt.format_compact now +:+ "-" +:+ hex_encode b).

Definition CreateRollback (spec : RollbackSpec) : M W (string * Object) :=
  name <- newRollbackName ;! created <- api_create (mkObject name "" "" (Some spec) None) ;! m_ret (name, created).

Definition saveStatusFor (obj : Object) (status : Attempt.Status) : M W Object :=
  do m_lift (Attempt.Validate status) ;!
  now <- api_now ;!
  api_update_status (mkObject (o_Name obj) (o_UID obj) (o_ResourceVersion obj) (o_Spec obj)
    (Some (Attempt.mkStatus (Attempt.st_State status) (format_rfc3339nano now) (Attempt.st_CompletedAt status)
             (Attempt.st_Failure status) (Attempt.st_Mutations status)))).
Definition SaveRollbackStatus : Object → Attempt.Status → M W Object := saveStatusFor.
End store.

(** ** Reading stored attempts *)
Definition zero_Spec : Attempt.Spec := Attempt.mkSpec "" "" "" "" zero_target "" "" "".
Definition into_Spec : Attempt.Spec → json → result Attempt.Spec := into_struct (fun fs s =>
  ns ← string_field "proposalNamespace" fs (Attempt.ProposalNamespace s);
  name ← string_field "proposalName" fs (Attempt.ProposalName s);
  uid ← string_field "proposalUID" fs (Attempt.ProposalUID s);
  digest ← string_field "approvedCandidateDigest" fs (Attempt.ApprovedCandidateDigest s);
  target ← into_field into_GovernedTarget "target" fs (Attempt.Target s);
  started ← string_field "startedAt" fs (Attempt.StartedAt s);
  operator ← string_field "operatorIdentity" fs (Attempt.OperatorIdentity s);
  epoch ← string_field "custodyEpoch" fs (Attempt.CustodyEpoch s);
  Ok (Attempt.mkSpec ns name uid digest target started operator epoch)).

Definition zero_MutationRecord : Attempt.MutationRecord :=
  Attempt.mkMutationRecord "" (mkGVK "" "" "") "" "" "" "" "" "" "" "" "" "" "" "" "" "" "".
Definition into_MutationRecord : Attempt.MutationRecord → json → result Attempt.MutationRecord := into_struct (fun fs r =>
  id ← string_field "id" fs (Attempt.m_ID r);
  group ← string_field "group" fs (gvk_Group (Attempt.m_GVK r));
  version ← string_field "version" fs (gvk_Version (Attempt.m_GVK r));
  kind ← string_field "kind" fs (gvk_Kind (Attempt.m_GVK r));
  ns ← string_field "namespace" fs (Attempt.m_Namespace r);
  name ← string_field "name" fs (Attempt.m_Name r);
  uid ← string_field "uid" fs (Attempt.m_UID r);
  rv ← string_field "resourceVersion" fs (Attempt.m_ResourceVersion r);
  operation ← string_field "operation" fs (Attempt.m_Operation r);
  before ← string_field "before" fs (Attempt.m_Before r);
  intended ← string_field "intendedAfter" fs (Attempt.m_IntendedAfter r);
  observed ← string_field "observedAfter" fs (Attempt.m_ObservedAfter r);
  beforeDigest ← string_field "beforeDigest" fs (Attempt.m_BeforeDigest r);
  intendedDigest ← string_field "intendedAfterDigest" fs (Attempt.m_IntendedAfterDigest r);
  observedDigest ← string_field "observedAfterDigest" fs (Attempt.m_ObservedAfterDigest r);
  attributable ← string_field "attributableAfterRV" fs (Attempt.m_AttributableAfterRV r);
  source ← string_field "sourceMutationID" fs (Attempt.m_SourceMutationID r);
  outcome ← string_field "result" fs (Attempt.m_Result r);
  error ← string_field "error" fs (Attempt.m_Error r);
  Ok (Attempt.mkMutationRecord id (mkGVK group version kind) ns name uid rv operation before intended observed
        beforeDigest intendedDigest observedDigest attributable source outcome error)).

Definition zero_Status : Attempt.Status := Attempt.mkStatus "" "" "" "" [].
Definition into_Status : Attempt.Status → json → result Attempt.Status := into_struct (fun fs s =>
  state ← string_field "state" fs (Attempt.st_State s);
  updated ← string_field "updatedAt" fs (Attempt.st_UpdatedAt s);
  completed ← string_field "completedAt" fs (Attempt.st_CompletedAt s);
  failure ← string_field "failure" fs (Attempt.st_Failure s);
  mutations ← into_field (into_slice zero_MutationRecord into_MutationRecord) "mutations" fs (Attempt.st_Mutations s);
  Ok (Attempt.mkStatus state updated completed failure mutations)).

Definition zero_RollbackSpec : RollbackSpec := mkRollbackSpec "" "" "" "" "" "" "" zero_target "" "" "" "" "" "".
Definition into_RollbackSpec : RollbackSpec → json → result RollbackSpec := into_struct (fun fs s =>
  sourceNamespace ← string_field "sourceNamespace" fs (SourceNamespace s);
  sourceName ← string_field "sourceName" fs (SourceName s);
  sourceUID ← string_field "sourceUID" fs (SourceUID s);
  ns ← string_field "proposalNamespace" fs (ProposalNamespace s);
  name ← string_field "proposalName" fs (ProposalName s);
  uid ← string_field "proposalUID" fs (ProposalUID s);
  digest ← string_field "approvedCandidateDigest" fs (ApprovedCandidateDigest s);
  target ← into_field into_GovernedTarget "target" fs (Target s);
  epoch ← string_field "custodyEpoch" fs (CustodyEpoch s);
  previousNamespace ← string_field "previousNamespace" fs (PreviousNamespace s);
  previousName ← string_field "previousName" fs (PreviousName s);
  previousUID ← string_field "previousUID" fs (PreviousUID s);
  started ← string_field "startedAt" fs (StartedAt s);
  operator ← string_field "operatorIdentity" fs (OperatorIdentity s);
  Ok (mkRollbackSpec sourceNamespace sourceName sourceUID ns name uid digest target epoch previousNamespace
        previousName previousUID started operator)).

(** [fromUnstructured] of a field of an object, [nil] when the key is absent. *)
Definition field_value (key : string) (obj : json) : json :=
  match obj with JObj fs => default JNull (lookup_field key fs) | _ => JNull end.

(** ** The stored form

    The JSON fields of a struct, by its tags: a field with [omitempty] is left
    out when it is empty. *)
Definition field : Type := string * json * bool.
Definition required (name value : string) : field := (name, JStr value, false).
Definition omitempty (name value : string) : field := (name, JStr value, empty value).
Definition stored (fields : list field) : list (string * json) :=
  flat_map (fun f : field => if f.2 then [] else [f.1]) fields.
Definition struct_json (fields : list field) : json := obj_of (stored fields).

Definition record_fields (r : Attempt.MutationRecord) : list field :=
  [required "id" (Attempt.m_ID r); omitempty "group" (gvk_Group (Attempt.m_GVK r));
   required "version" (gvk_Version (Attempt.m_GVK r)); required "kind" (gvk_Kind (Attempt.m_GVK r));
   omitempty "namespace" (Attempt.m_Namespace r); required "name" (Attempt.m_Name r);
   omitempty "uid" (Attempt.m_UID r); omitempty "resourceVersion" (Attempt.m_ResourceVersion r);
   required "operation" (Attempt.m_Operation r); required "before" (Attempt.m_Before r);
   required "intendedAfter" (Attempt.m_IntendedAfter r); omitempty "observedAfter" (Attempt.m_ObservedAfter r);
   omitempty "beforeDigest" (Attempt.m_BeforeDigest r); omitempty "intendedAfterDigest" (Attempt.m_IntendedAfterDigest r);
   omitempty "observedAfterDigest" (Attempt.m_ObservedAfterDigest r);
   omitempty "attributableAfterRV" (Attempt.m_AttributableAfterRV r);
   omitempty "sourceMutationID" (Attempt.m_SourceMutationID r); required "result" (Attempt.m_Result r);
   omitempty "error" (Attempt.m_Error r)].
Definition record_json (r : Attempt.MutationRecord) : json := struct_json (record_fields r).

Definition status_json (s : Attempt.Status) : json := struct_json
  [required "state" (Attempt.st_State s); required "updatedAt" (Attempt.st_UpdatedAt s);
   omitempty "completedAt" (Attempt.st_CompletedAt s); omitempty "failure" (Attempt.st_Failure s);
   ("mutations", JArr (map record_json (Attempt.st_Mutations s)), bool_decide (Attempt.st_Mutations s = []))].

Definition target_json (t : GovernedTarget) : json := struct_json
  [required "namespace" (Namespace t);
   ("workload", struct_json [required "group" (w_Group (Workload t)); required "kind" (w_Kind (Workload t));
      required "name" (w_Name (Workload t))], false);
   required "container" (Container t)].
Definition spec_json (s : Attempt.Spec) : json := struct_json
  [required "proposalNamespace" (Attempt.ProposalNamespace s); required "proposalName" (Attempt.ProposalName s);
   required "proposalUID" (Attempt.ProposalUID s); required "approvedCandidateDigest" (Attempt.ApprovedCandidateDigest s);
   ("target", target_json (Attempt.Target s), false); required "startedAt" (Attempt.StartedAt s);
   omitempty "operatorIdentity" (Attempt.OperatorIdentity s); omitempty "custodyEpoch" (Attempt.CustodyEpoch s)].

(** *** Reading a stored struct *)
Definition names_distinct (names : list string) : Prop := NoDup (map to_lower names).
#[export] Instance names_distinct_dec names : Decision (names_distinct names).
Proof. unfold names_distinct. apply _. Defined.

Definition field_step {A} (into : A → json → result A) (name : string) (acc : result A) (f : string * json) : result A :=
  if fold_eq name f.1 then cur ← acc; into cur f.2 else acc.

Lemma fold_eq_refl key : fold_eq key key = true.
Proof. by apply bool_decide_eq_true. Qed.

Lemma field_step_hit {A} (into : A → json → result A) key v cur : field_step into key (Ok cur) (key, v) = into cur v.
Proof. unfold field_step. by rewrite fold_eq_refl. Qed.

Lemma into_field_absent {A} (into : A → json → result A) name fs r :
  (∀ f, f ∈ fs → to_lower name ≠ to_lower f.1) → foldl (field_step into name) r fs = r.
Proof.
  revert r. induction fs as [|f fs IH]; intros r Hf; [done|]. cbn [foldl]. unfold field_step at 2.
  assert (fold_eq name f.1 = false) as ->. { apply bool_decide_eq_false. apply Hf. left. }
  apply IH. intros g Hg. apply Hf. by right.
Qed.

Lemma into_field_found {A} (into : A → json → result A) key v fs cur :
  names_distinct (map fst fs) → (key, v) ∈ fs → into_field into key fs cur = into cur v.
Proof.
  intros Hn Hin. apply list_elem_of_split in Hin as (l & k & ->). unfold names_distinct in Hn.
  rewrite !map_app in Hn. apply NoDup_app in Hn as (_ & Hl & Hk). apply NoDup_cons in Hk as [Hk _].
  unfold into_field. fold (field_step into key). rewrite foldl_app, (into_field_absent into key l).
  - cbn [foldl]. rewrite field_step_hit.
    apply into_field_absent. intros f Hf E. apply Hk. cbn [fst]. rewrite E. by apply list_elem_of_fmap_2, list_elem_of_fmap_2.
  - intros f Hf E. apply (Hl (to_lower f.1)); [by apply list_elem_of_fmap_2, list_elem_of_fmap_2|]. rewrite <-E. left.
Qed.

Lemma stored_names fields : sublist (map fst (stored fields)) (map (fun f : field => f.1.1) fields).
Proof.
  induction fields as [|f fields IH]; [done|]. cbn. destruct f.2; [by apply sublist_cons|by apply sublist_skip].
Qed.

Lemma sublist_map {A B} (g : A → B) l k : sublist l k → sublist (map g l) (map g k).
Proof. induction 1; cbn; by constructor. Qed.

(** A stored field is read back; an omitted one leaves the zero value. *)
Lemma into_field_stored {A} (into : A → json → result A) name v omitted fields cur :
  names_distinct (map (fun f : field => f.1.1) fields) → (name, v, omitted) ∈ fields →
  into_field into name (sort_by (less_on fst string_ltb) (stored fields)) cur = if omitted : bool then Ok cur else into cur v.
Proof.
  intros Hn Hin. assert (names_distinct (map fst (sort_by (less_on fst string_ltb) (stored fields)))) as Hd.
  { unfold names_distinct. rewrite sort_by_perm. eapply sublist_NoDup; [exact Hn|]. apply sublist_map, stored_names. }
  destruct omitted.
  - unfold into_field. fold (field_step into name). apply into_field_absent. intros f Hf E. rewrite sort_by_perm in Hf.
    apply list_elem_of_split in Hin as (l & k & ->).
    unfold names_distinct in Hn. rewrite !map_app in Hn. apply NoDup_app in Hn as (_ & Hl & Hk). apply NoDup_cons in Hk as [Hk _].
    unfold stored in Hf. rewrite flat_map_app in Hf. cbn [flat_map snd app] in Hf.
    assert (∀ l', f ∈ stored l' → to_lower f.1 ∈ map to_lower (map (fun f : field => f.1.1) l')) as Hs.
    { intros l' Hf'. apply list_elem_of_fmap_2. eapply elem_of_sublist; [|apply stored_names]. by apply list_elem_of_fmap_2. }
    apply elem_of_app in Hf as [Hf%Hs|Hf%Hs]; rewrite <-E in Hf; [by apply (Hl (to_lower name)); [|left]|done].
  - apply into_field_found; [done|]. rewrite sort_by_perm. unfold stored. apply list_elem_of_In, in_flat_map.
    exists (name, v, false). split; [by apply list_elem_of_In|by left].
Qed.

Lemma string_required name v fields : names_distinct (map (fun f : field => f.1.1) fields) → required name v ∈ fields →
  string_field name (sort_by (less_on fst string_ltb) (stored fields)) "" = Ok v.
Proof. intros Hn Hin. by rewrite (into_field_stored _ _ (JStr v) false). Qed.

Lemma string_omitempty name v fields : names_distinct (map (fun f : field => f.1.1) fields) → omitempty name v ∈ fields →
  string_field name (sort_by (less_on fst string_ltb) (stored fields)) "" = Ok v.
Proof.
  intros Hn Hin. rewrite (into_field_stored _ _ (JStr v) (empty v)) by done.
  unfold empty. case_bool_decide; by subst.
Qed.

(** The strings of a stored struct, one by one. *)
Ltac member := first [apply list_elem_of_here | apply list_elem_of_further; member].
Ltac distinct := apply (bool_decide_unpack _); vm_compute; exact I.
Ltac read_fields :=
  repeat (first [ erewrite string_required; [|distinct|member]
                | erewrite string_omitempty; [|distinct|member]
                | erewrite into_field_stored; [|distinct|member] ];
          cbn [mbind result_bind]).

Lemma read_record r : into_MutationRecord zero_MutationRecord (record_json r) = Ok r.
Proof.
  unfold into_MutationRecord, record_json, struct_json, obj_of, into_struct. read_fields. by destruct r as [? []].
Qed.

Lemma read_records l : result_mapM (into_MutationRecord zero_MutationRecord) (map record_json l) = Ok l.
Proof. induction l as [|r l IH]; [done|]. cbn [map result_mapM]. rewrite read_record. cbn. by rewrite IH. Qed.

Lemma read_target t : into_GovernedTarget zero_target (target_json t) = Ok t.
Proof.
  unfold into_GovernedTarget, target_json, struct_json, obj_of, into_struct. read_fields. cbn [into_WorkloadRef into_struct].
  unfold into_WorkloadRef, into_struct. read_fields. by destruct t as [? [] ?].
Qed.

(** Custody saved is custody read: the status that [saveStatusFor] stores, whatever its records, is decoded field by field, and
    with the omitted ones empty again, by the rollback. *)
Theorem custody_status_read_back s : into_Status zero_Status (status_json s) = Ok s.
Proof.
  unfold into_Status, status_json, struct_json, obj_of, into_struct. read_fields. case_bool_decide as E.
  - cbn. destruct s. cbn in *. by subst.
  - cbn [into_slice]. rewrite read_records. by destruct s.
Qed.

(** The immutable context of an attempt is decoded as it was stored. *)
Theorem custody_spec_read_back s : into_Spec zero_Spec (spec_json s) = Ok s.
Proof.
  unfold into_Spec, spec_json, struct_json, obj_of, into_struct. read_fields. unfold zero_Spec at 1. cbn [Attempt.Target].
  rewrite read_target. by destruct s.
Qed.

(** A null status, and one that the API server has not filled, decode to the zero value; a scalar in its place is an error. *)
Example status_absent : into_Status zero_Status JNull = Ok zero_Status ∧ into_Status zero_Status (JObj []) = Ok zero_Status.
Proof. done. Qed.
Example status_scalar : match into_Status zero_Status (JStr "APPLIED") with Err _ => True | Ok _ => False end.
Proof. exact I. Qed.
End RollbackAttempt.
