(* ===== verification/Proposal.v ===== *)
(** * internal/proposal: candidates, review contexts and approval validation

    candidate_v2.go, digest.go, governance_v2.go, types.go and validate.go.
    Pointers are options.  The result groups: what the canonical bytes and the
    digests determine, and what an accepted approval guarantees about the
    specification it is checked against. *)
From S2P Require Import Prelude GoStd Identity Digest Json Target.

(** Replace the error of a failed call. *)
Definition or_error {A} (r : result A) (e : error) : result A :=
  match r with Ok a => Ok a | Err _ => Err e end.

(** ** Candidates *)
Definition CandidateV2Version : string := "candidate-v2".
Definition CandidateV2ScopeContainer : string := "CONTAINER".
Definition CandidateV2ArtifactContainerCaps : string := "CONTAINER_CAPABILITIES".
Definition candidateV2DomainSeparator : string := CandidateV2Version.
Definition CandidateVersionV1 : string := "candidate-v1".
Definition CandidateVersionV2 : string := CandidateV2Version.

Record SubjectV2 := mkSubjectV2 {
  sub_Scope : string; sub_Target : string; sub_Container : string; sub_ImageIdentity : string }.
Record ContainerCapabilitiesV2 := mkContainerCapabilitiesV2 { cc_Drop : list string; cc_Add : list string }.
Record ArtifactV2 := mkArtifactV2 { art_Type : string; art_ContainerCapabilities : ContainerCapabilitiesV2 }.
Record CandidateV2 := mkCandidateV2 {
  cand_Version : string; cand_Subject : SubjectV2; cand_Artifact : ArtifactV2 }.

#[export] Instance SubjectV2_eq_dec : EqDecision SubjectV2.
Proof. solve_decision. Defined.
#[export] Instance ContainerCapabilitiesV2_eq_dec : EqDecision ContainerCapabilitiesV2.
Proof. solve_decision. Defined.
#[export] Instance ArtifactV2_eq_dec : EqDecision ArtifactV2.
Proof. solve_decision. Defined.

Definition linuxCapabilityNames : list string :=
  ["CAP_AUDIT_CONTROL"; "CAP_AUDIT_READ"; "CAP_AUDIT_WRITE";
   "CAP_BLOCK_SUSPEND"; "CAP_BPF"; "CAP_CHECKPOINT_RESTORE";
   "CAP_CHOWN"; "CAP_DAC_OVERRIDE"; "CAP_DAC_READ_SEARCH";
   "CAP_FOWNER"; "CAP_FSETID"; "CAP_IPC_LOCK"; "CAP_IPC_OWNER";
   "CAP_KILL"; "CAP_LEASE"; "CAP_LINUX_IMMUTABLE"; "CAP_MAC_ADMIN";
   "CAP_MAC_OVERRIDE"; "CAP_MKNOD"; "CAP_NET_ADMIN";
   "CAP_NET_BIND_SERVICE"; "CAP_NET_BROADCAST"; "CAP_NET_RAW";
   "CAP_PERFMON"; "CAP_SETFCAP"; "CAP_SETGID"; "CAP_SETPCAP";
   "CAP_SETUID"; "CAP_SYSLOG"; "CAP_SYS_ADMIN"; "CAP_SYS_BOOT";
   "CAP_SYS_CHROOT"; "CAP_SYS_MODULE"; "CAP_SYS_NICE";
   "CAP_SYS_PACCT"; "CAP_SYS_PTRACE"; "CAP_SYS_RAWIO";
   "CAP_SYS_RESOURCE"; "CAP_SYS_TIME"; "CAP_SYS_TTY_CONFIG";
   "CAP_WAKE_ALARM"].

(** The loop over [c.Add]. *)
Fixpoint add_capabilities (seen : list string) (l : list string) : result (list string) :=
  match l with
  | [] => Ok []
  | name :: l =>
      fail_if negb (bool_decide (name ∈ linuxCapabilityNames)) with mkError "" "candidate-v2: unknown capability";
      if bool_decide (name ∈ seen) then add_capabilities seen l
      else rest ← add_capabilities (name :: seen) l; Ok (name :: rest)
  end.

Definition normalizeCapabilities (c : ContainerCapabilitiesV2) : result ContainerCapabilitiesV2 :=
  fail_if negb (bool_decide (cc_Drop c = ["ALL"])) with mkError "" "candidate-v2: drop must be exactly [ALL]";
  add ← add_capabilities [] (cc_Add c);
  Ok (mkContainerCapabilitiesV2 ["ALL"] (sort_strings add)).

Definition SubjectV2_validate (s : SubjectV2) : result unit :=
  fail_if negb (bool_decide (sub_Scope s = CandidateV2ScopeContainer))
    with mkError "" "candidate-v2: unsupported subject scope";
  fail_if empty (sub_Target s) || empty (sub_Container s) || empty (sub_ImageIdentity s)
    with mkError "" "candidate-v2: subject identity fields are required";
  Ok ().

Definition ArtifactV2_validate (a : ArtifactV2) : result unit :=
  fail_if negb (bool_decide (art_Type a = CandidateV2ArtifactContainerCaps))
    with mkError "" "candidate-v2: unsupported artifact type";
  _ ← normalizeCapabilities (art_ContainerCapabilities a); Ok ().

Definition CandidateV2_Validate (c : CandidateV2) : result unit :=
  fail_if negb (bool_decide (cand_Version c = CandidateV2Version))
    with mkError "" "candidate-v2: unsupported version";
  _ ← SubjectV2_validate (cand_Subject c);
  ArtifactV2_validate (cand_Artifact c).

Definition CanonicalBytes (c : CandidateV2) : result string :=
  _ ← CandidateV2_Validate c;
  caps ← normalizeCapabilities (art_ContainerCapabilities (cand_Artifact c));
  let s := cand_Subject c in
  fields ← or_error (put_all put_string
    [candidateV2DomainSeparator; cand_Version c; sub_Scope s; sub_Target s; sub_Container s;
     sub_ImageIdentity s; art_Type (cand_Artifact c)]) (mkError "" "candidate-v2: string too long");
  drops ← or_error (put_list put_string (cc_Drop caps)) (mkError "" "candidate-v2: list too long");
  adds ← or_error (put_list put_string (cc_Add caps)) (mkError "" "candidate-v2: list too long");
  Ok (fields +:+ drops +:+ adds).

Definition CandidateDigestV2 (c : CandidateV2) : result string :=
  b ← CanonicalBytes c; Ok (sha256_digest b).

Definition ValidateCandidateDigest (value : string) : result unit :=
  fail_if negb (sha256_hex false value) with mkError "" "invalid candidate digest"; Ok ().

(** ** Provenance, qualification and derivation status *)
Record CapabilityAttribution := mkCapabilityAttribution {
  ca_Capability : string; ca_State : string; ca_ObservationIDs : list string }.
Definition CapabilityAttributionKnown : string := "ATTRIBUTED".
Definition CapabilityAttributionUnknown : string := "UNKNOWN".

Record ProposalProvenance := mkProposalProvenance {
  pp_PopulationScope : string; pp_ObservationIDs : list string;
  pp_CapabilityAttribution : list CapabilityAttribution }.
Record ProposalQualification := mkProposalQualification {
  q_Filesystem : string; q_Exec : string; q_NetworkConnect : string; q_NetworkBind : string;
  q_Capabilities : string }.
Record ProposalDerivationStatus := mkProposalDerivationStatus {
  ds_Capabilities : string; ds_PodLock : string; ds_NetworkPolicy : string; ds_Seccomp : string }.

#[export] Instance CapabilityAttribution_eq_dec : EqDecision CapabilityAttribution.
Proof. solve_decision. Defined.
#[export] Instance ProposalProvenance_eq_dec : EqDecision ProposalProvenance.
Proof. solve_decision. Defined.
#[export] Instance ProposalQualification_eq_dec : EqDecision ProposalQualification.
Proof. solve_decision. Defined.
#[export] Instance ProposalDerivationStatus_eq_dec : EqDecision ProposalDerivationStatus.
Proof. solve_decision. Defined.

Definition normalizedCandidateVersion (value : string) : result string :=
  if empty value then Ok CandidateVersionV1
  else fail_if negb (bool_decide (value = CandidateVersionV1)) && negb (bool_decide (value = CandidateVersionV2))
         with mkError "" "unsupported candidate version";
       Ok value.

(** [values[i] == values[i-1]] for some [i]. *)
Fixpoint adjacent_duplicate (l : list string) : bool :=
  match l with
  | x :: (y :: _) as l' => bool_decide (y = x) || adjacent_duplicate l'
  | _ => false
  end.

Definition normalize_attribution (entry : CapabilityAttribution) : result CapabilityAttribution :=
  fail_if empty (ca_Capability entry) ||
          negb (bool_decide (ca_State entry = CapabilityAttributionKnown)) &&
          negb (bool_decide (ca_State entry = CapabilityAttributionUnknown))
    with mkError "" "invalid capability attribution";
  let ids := sort_strings (ca_ObservationIDs entry) in
  fail_if existsb empty ids || adjacent_duplicate ids
    with mkError "" "invalid capability attribution ObservationID";
  fail_if bool_decide (ca_State entry = CapabilityAttributionKnown) && (length ids =? 0)
    with mkError "" "attributed capability requires an ObservationID";
  Ok (mkCapabilityAttribution (ca_Capability entry) (ca_State entry) ids).

Definition ProposalProvenance_normalize (p : ProposalProvenance) : result ProposalProvenance :=
  fail_if negb (bool_decide (pp_PopulationScope p = CandidateV2ScopeContainer))
    with mkError "" "provenance population scope must be CONTAINER";
  fail_if 256 <? length (pp_ObservationIDs p) with mkError "" "provenance has too many ObservationIDs";
  fail_if existsb empty (pp_ObservationIDs p) with mkError "" "provenance ObservationID must be non-empty";
  let ids := sort_strings (pp_ObservationIDs p) in
  fail_if adjacent_duplicate ids with mkError "" "duplicate provenance ObservationID";
  fail_if 41 <? length (pp_CapabilityAttribution p)
    with mkError "" "provenance has too many capability attribution entries";
  entries ← result_mapM normalize_attribution (pp_CapabilityAttribution p);
  let attribution := sort_by (less_on ca_Capability string_ltb) entries in
  fail_if adjacent_duplicate (map ca_Capability attribution) with mkError "" "duplicate capability attribution";
  fail_if existsb (fun entry => existsb (fun id => negb (bool_decide (id ∈ ids))) (ca_ObservationIDs entry)) attribution
    with mkError "" "capability attribution references unknown ObservationID";
  Ok (mkProposalProvenance (pp_PopulationScope p) ids attribution).

Definition validEvidenceState (value : string) : bool :=
  bool_decide (value = "AVAILABLE") || bool_decide (value = "UNKNOWN") || bool_decide (value = "EMPTY").

Definition ProposalQualification_validate (q : ProposalQualification) : result unit :=
  fail_if existsb (fun v => negb (validEvidenceState v))
            [q_Filesystem q; q_Exec q; q_NetworkConnect q; q_NetworkBind q; q_Capabilities q]
    with mkError "" "invalid proposal evidence state";
  Ok ().

Definition ProposalDerivationStatus_validate (d : ProposalDerivationStatus) : result unit :=
  fail_if negb (bool_decide (ds_Capabilities d = "SUPPORTED"))
    with mkError "" "capabilities derivation status must be SUPPORTED";
  fail_if existsb (fun v => negb (bool_decide (v = "NOT_AVAILABLE")) && negb (bool_decide (v = "UNSUPPORTED")))
            [ds_PodLock d; ds_NetworkPolicy d; ds_Seccomp d]
    with mkError "" "invalid derivation status";
  Ok ().

(** ** Specifications *)
Record Spec := mkSpec {
  sp_CandidateVersion : string; sp_Container : string; sp_Binary : string; sp_GeneratedAt : string;
  sp_HistoryUsed : bool; sp_TargetBinding : option CanonicalTargetBinding;
  sp_PodLock : string; sp_NetworkPolicy : string; sp_PatchedManifest : string; sp_SPOSeccompProfile : string;
  sp_Subject : option SubjectV2; sp_CapabilityArtifact : option ArtifactV2;
  sp_Provenance : option ProposalProvenance; sp_Qualification : option ProposalQualification;
  sp_DerivationStatus : option ProposalDerivationStatus }.
#[export] Instance Spec_eq_dec : EqDecision Spec.
Proof. solve_decision. Defined.

Definition is_nil {A} (o : option A) : bool := match o with None => true | Some _ => false end.

(** The check of the attribution against the proposed capabilities. *)
Definition attribution_covers (attribution : list CapabilityAttribution) (add : list string) : result unit :=
  if 0 <? length attribution then
    fail_if negb (length attribution =? length (dedup add))
      with mkError "" "capability attribution must cover every proposed capability";
    fail_if existsb (fun entry => negb (bool_decide (ca_Capability entry ∈ add))) attribution
      with mkError "" "capability attribution contains unproposed capability";
    Ok ()
  else Ok ().

Definition ValidateProposalSpec (spec : Spec) : result unit :=
  version ← normalizedCandidateVersion (sp_CandidateVersion spec);
  if bool_decide (version = CandidateVersionV1) then
    fail_if negb (is_nil (sp_Subject spec)) || negb (is_nil (sp_CapabilityArtifact spec)) ||
            negb (is_nil (sp_Provenance spec)) || negb (is_nil (sp_Qualification spec)) ||
            negb (is_nil (sp_DerivationStatus spec))
      with mkError "" "candidate-v1 proposal cannot contain candidate-v2 fields";
    Ok ()
  else
    fail_if negb (empty (sp_Container spec)) || negb (empty (sp_Binary spec)) || negb (empty (sp_PodLock spec)) ||
            negb (empty (sp_NetworkPolicy spec)) || negb (empty (sp_PatchedManifest spec)) ||
            negb (empty (sp_SPOSeccompProfile spec)) || negb (is_nil (sp_TargetBinding spec))
      with mkError "" "candidate-v2 proposal cannot contain legacy v1 fields";
    match sp_Subject spec, sp_CapabilityArtifact spec, sp_Provenance spec, sp_Qualification spec,
          sp_DerivationStatus spec with
    | Some subject, Some artifact, Some provenance, Some qualification, Some derivation =>
        _ ← SubjectV2_validate subject;
        _ ← ArtifactV2_validate artifact;
        normalized ← ProposalProvenance_normalize provenance;
        _ ← attribution_covers (pp_CapabilityAttribution normalized)
              (cc_Add (art_ContainerCapabilities artifact));
        _ ← ProposalQualification_validate qualification;
        ProposalDerivationStatus_validate derivation
    | _, _, _, _, _ =>
        failwith "candidate-v2 proposal requires subject, artifact, provenance, qualification, and derivation status"
    end.

(** The dereferences after validation; [ValidateProposalSpec] accepts a v1
    specification too, whose nil pointers would panic: the callers only reach
    here with version v2, see [candidateV2_v2]. *)
Definition candidateV2 (s : Spec) : result CandidateV2 :=
  _ ← ValidateProposalSpec s;
  match sp_Subject s, sp_CapabilityArtifact s with
  | Some subject, Some artifact => Ok (mkCandidateV2 CandidateV2Version subject artifact)
  | _, _ => failwith "panic: nil pointer dereference"
  end.

Record ProposalReviewContextV2 := mkProposalReviewContextV2 {
  rc_Provenance : ProposalProvenance; rc_Qualification : ProposalQualification;
  rc_DerivationStatus : ProposalDerivationStatus }.

Definition reviewContextV2 (s : Spec) : result ProposalReviewContextV2 :=
  _ ← ValidateProposalSpec s;
  match sp_Provenance s, sp_Qualification s, sp_DerivationStatus s with
  | Some provenance, Some qualification, Some derivation =>
      p ← ProposalProvenance_normalize provenance;
      Ok (mkProposalReviewContextV2 p qualification derivation)
  | _, _, _ => failwith "panic: nil pointer dereference"
  end.

Definition ReviewContextV2Domain : string := "proposal-review-context-v2".

Definition put_attribution (entry : CapabilityAttribution) : result string :=
  a ← put_string (ca_Capability entry); b ← put_string (ca_State entry);
  c ← put_list put_string (ca_ObservationIDs entry); Ok (a +:+ b +:+ c).

Definition attribution_tag : string := "capability-attribution-v1".

Definition ReviewContextCanonicalBytesV2 (c : ProposalReviewContextV2) : result string :=
  p ← ProposalProvenance_normalize (rc_Provenance c);
  _ ← ProposalQualification_validate (rc_Qualification c);
  _ ← ProposalDerivationStatus_validate (rc_DerivationStatus c);
  head ← put_all put_string [ReviewContextV2Domain; pp_PopulationScope p];
  ids ← put_list put_string (pp_ObservationIDs p);
  attribution ← (if 0 <? length (pp_CapabilityAttribution p) then
      tag ← put_string attribution_tag;
      entries ← put_list put_attribution (pp_CapabilityAttribution p);
      Ok (tag +:+ entries)
    else Ok "");
  let q := rc_Qualification c in
  let d := rc_DerivationStatus c in
  tail ← put_all put_string
    [q_Filesystem q; q_Exec q; q_NetworkConnect q; q_NetworkBind q; q_Capabilities q;
     ds_Capabilities d; ds_PodLock d; ds_NetworkPolicy d; ds_Seccomp d];
  Ok (head +:+ ids +:+ attribution +:+ tail).

Definition ReviewContextDigestV2 (c : ProposalReviewContextV2) : result string :=
  b ← ReviewContextCanonicalBytesV2 c; Ok (sha256_digest b).

(** The candidate-v1 payload. *)
Definition candidate_fields (spec : Spec) : list string :=
  [sp_Container spec; sp_Binary spec; sp_PodLock spec; sp_NetworkPolicy spec;
   sp_PatchedManifest spec; sp_SPOSeccompProfile spec].
Definition candidate_names : list string :=
  ["container"; "binary"; "podLock"; "networkPolicy"; "patchedManifest"; "spoSeccompProfile"].
Definition candidate_payload (spec : Spec) : string := json_object (zip candidate_names (candidate_fields spec)).
Definition CandidateDigest (spec : Spec) : result string := Ok (sha256_digest (candidate_payload spec)).

(** ** Status *)
Abbreviation ApprovalState := string.
Definition ApprovalDraft : ApprovalState := "Draft".
Definition ApprovalReviewed : ApprovalState := "Reviewed".
Definition ApprovalApproved : ApprovalState := "Approved".
Definition ApprovalRejected : ApprovalState := "Rejected".

Record ApprovalSnapshot := mkApprovalSnapshot {
  as_ProposalUID : string; as_ApprovalMechanismVersion : string; as_ApprovedCandidateDigest : string;
  as_ReviewContextDigest : string; as_ApprovedAt : string }.
#[export] Instance ApprovalSnapshot_eq_dec : EqDecision ApprovalSnapshot.
Proof. solve_decision. Defined.

(** The fields of a seccomp verification fact the proposal store reads. *)
Record Fact := mkFact {
  f_AttemptID : string; f_CandidateDigest : string; f_ProposalUID : string; f_Namespace : string }.
#[export] Instance Fact_eq_dec : EqDecision Fact.
Proof. solve_decision. Defined.

Record Status := mkStatus {
  st_ApprovalState : ApprovalState; st_ReviewedBy : string; st_ApprovedBy : string; st_RejectedBy : string;
  st_Reason : string; st_UpdatedAt : string; st_ApprovedCandidateDigest : string;
  st_ApprovedReviewContextDigest : string; st_ApprovalMechanismVersion : string;
  st_LastApprovalSnapshot : option ApprovalSnapshot; st_BehavioralVerifications : list Fact }.

Definition ApprovalSnapshot_Validate (s : option ApprovalSnapshot) : result unit :=
  match s with
  | None => Ok ()
  | Some s =>
      fail_if empty (as_ProposalUID s) with mkError "" "approval snapshot has no Proposal UID";
      fail_if negb (bool_decide (as_ApprovalMechanismVersion s = CandidateVersionV1)) &&
              negb (bool_decide (as_ApprovalMechanismVersion s = CandidateVersionV2))
        with mkError "" "approval snapshot has unsupported mechanism";
      _ ← ValidateCandidateDigest (as_ApprovedCandidateDigest s);
      fail_if bool_decide (as_ApprovalMechanismVersion s = CandidateVersionV1) && negb (empty (as_ReviewContextDigest s))
        with mkError "" "candidate-v1 approval snapshot must not have review context digest";
      fail_if bool_decide (as_ApprovalMechanismVersion s = CandidateVersionV2) && empty (as_ReviewContextDigest s)
        with mkError "" "candidate-v2 approval snapshot requires review context digest";
      _ ← (if negb (empty (as_ReviewContextDigest s)) then ValidateCandidateDigest (as_ReviewContextDigest s) else Ok ());
      fail_if negb (rfc3339_parses (as_ApprovedAt s)) with mkError "" "approval snapshot approvedAt";
      Ok ()
  end.

Definition validateApprovedCandidateV1 (spec : Spec) (status : option Status) : result unit :=
  match status with
  | None => failwith "no approval status: legacy or missing status; re-approval required"
  | Some status =>
      fail_if negb (bool_decide (st_ApprovalState status = ApprovalApproved)) with mkError "" "proposal not Approved";
      fail_if empty (st_ApprovedCandidateDigest status)
        with mkError "" "legacy approval requires explicit re-approval: approvedCandidateDigest missing";
      _ ← ValidateCandidateDigest (st_ApprovedCandidateDigest status);
      fail_if negb (bool_decide (st_ApprovalMechanismVersion status = CandidateVersionV1))
        with mkError "" "unsupported approval mechanism version";
      computed ← CandidateDigest spec;
      fail_if negb (bool_decide (computed = st_ApprovedCandidateDigest status))
        with mkError "" "approved candidate digest mismatch";
      Ok ()
  end.

Definition validateApprovedCandidateV2 (spec : Spec) (status : option Status) : result unit :=
  match status with
  | None => failwith "proposal not Approved"
  | Some status =>
      fail_if negb (bool_decide (st_ApprovalState status = ApprovalApproved)) with mkError "" "proposal not Approved";
      fail_if negb (bool_decide (st_ApprovalMechanismVersion status = CandidateVersionV2))
        with mkError "" "candidate-v2 approval mechanism mismatch";
      fail_if empty (st_ApprovedCandidateDigest status) || empty (st_ApprovedReviewContextDigest status)
        with mkError "" "candidate-v2 approval requires candidate and review-context digests";
      candidate ← candidateV2 spec;
      computedCandidate ← CandidateDigestV2 candidate;
      fail_if negb (bool_decide (computedCandidate = st_ApprovedCandidateDigest status))
        with mkError "" "approved candidate-v2 digest mismatch";
      contextV2 ← reviewContextV2 spec;
      computedContext ← ReviewContextDigestV2 contextV2;
      fail_if negb (bool_decide (computedContext = st_ApprovedReviewContextDigest status))
        with mkError "" "approved review context digest mismatch";
      Ok ()
  end.

Definition ValidateApprovedCandidate (spec : option Spec) (status : option Status) : result unit :=
  match spec with
  | None => failwith "proposal spec is nil"
  | Some spec =>
      version ← normalizedCandidateVersion (sp_CandidateVersion spec);
      if bool_decide (version = CandidateVersionV2) then validateApprovedCandidateV2 spec status
      else validateApprovedCandidateV1 spec status
  end.

(** ** Capability normalisation *)
Lemma add_capabilities_Ok seen l k :
  add_capabilities seen l = Ok k ↔ Forall (fun n => n ∈ linuxCapabilityNames) l ∧ k = dedup_go seen l.
Proof.
  revert seen k. induction l as [|n l IH]; intros seen k; cbn [add_capabilities dedup_go].
  - split; [intros [= <-]; by split; [constructor|]|by intros [_ ->]].
  - rewrite result_guard_Ok, negb_false_iff, bool_decide_eq_true, Forall_cons.
    destruct (bool_decide (n ∈ seen)); [rewrite IH; naive_solver|].
    rewrite result_bind_Ok. setoid_rewrite IH. split.
    + intros (Hn & r & (Hf & ->) & [= <-]). done.
    + intros ((Hn & Hf) & ->). split; [done|]. by eexists.
Qed.

Lemma normalizeCapabilities_Ok c n :
  normalizeCapabilities c = Ok n ↔
    cc_Drop c = ["ALL"] ∧ Forall (fun n => n ∈ linuxCapabilityNames) (cc_Add c) ∧
    n = mkContainerCapabilitiesV2 ["ALL"] (sort_strings (dedup (cc_Add c))).
Proof.
  unfold normalizeCapabilities. rewrite result_guard_Ok, negb_false_iff, bool_decide_eq_true, result_bind_Ok.
  setoid_rewrite add_capabilities_Ok. unfold dedup. split.
  - intros (Hd & a & (Hf & ->) & [= <-]). done.
  - intros (Hd & Hf & ->). split; [done|]. by eexists.
Qed.

Lemma sort_dedup_eq l l' : sort_strings (dedup l) = sort_strings (dedup l') ↔ ∀ x, x ∈ l ↔ x ∈ l'.
Proof.
  split.
  - intros E x. rewrite <- (elem_of_dedup x l), <- (elem_of_dedup x l').
    by rewrite <- (elem_of_sort_by string_ltb x (dedup l)), E, elem_of_sort_by.
  - intros H. apply (sort_by_unique string_ltb), NoDup_same_perm; try apply NoDup_dedup.
    intros x. by rewrite !elem_of_dedup.
Qed.

(** ** What a candidate digest determines *)

(** Equality up to the order and repetition of the added capabilities. *)
Definition same_candidate (c c' : CandidateV2) : Prop :=
  cand_Version c = cand_Version c' ∧ cand_Subject c = cand_Subject c' ∧
  art_Type (cand_Artifact c) = art_Type (cand_Artifact c') ∧
  cc_Drop (art_ContainerCapabilities (cand_Artifact c)) = cc_Drop (art_ContainerCapabilities (cand_Artifact c')) ∧
  ∀ x, x ∈ cc_Add (art_ContainerCapabilities (cand_Artifact c)) ↔
       x ∈ cc_Add (art_ContainerCapabilities (cand_Artifact c')).

Lemma or_error_Ok {A} (r : result A) e a : or_error r e = Ok a ↔ r = Ok a.
Proof. by destruct r. Qed.

Lemma CanonicalBytes_Ok c p :
  CanonicalBytes c = Ok p ↔
    CandidateV2_Validate c = Ok () ∧
    ∃ n, normalizeCapabilities (art_ContainerCapabilities (cand_Artifact c)) = Ok n ∧
    ∃ a b d,
      put_all put_string
        [candidateV2DomainSeparator; cand_Version c; sub_Scope (cand_Subject c); sub_Target (cand_Subject c);
         sub_Container (cand_Subject c); sub_ImageIdentity (cand_Subject c); art_Type (cand_Artifact c)] = Ok a ∧
      put_list put_string (cc_Drop n) = Ok b ∧ put_list put_string (cc_Add n) = Ok d ∧ p = a +:+ b +:+ d.
Proof.
  unfold CanonicalBytes. split.
  - intros ([] & Hv & (n & Hn & H)%result_bind_Ok)%result_bind_Ok. split; [done|]. exists n. split; [done|].
    apply result_bind_Ok in H as (a & Ha%or_error_Ok & H). apply result_bind_Ok in H as (b & Hb%or_error_Ok & H).
    apply result_bind_Ok in H as (d & Hd%or_error_Ok & [= <-]). by exists a, b, d.
  - intros (Hv & n & Hn & a & b & d & Ha & Hb & Hd & ->). cbv zeta.
    repeat first [rewrite Hv | rewrite Hn | rewrite Ha | rewrite Hb | rewrite Hd | progress cbn [mbind result_bind or_error]].
    done.
Qed.

Lemma CanonicalBytes_inj c c' p :
  CanonicalBytes c = Ok p → CanonicalBytes c' = Ok p → same_candidate c c'.
Proof.
  intros (_ & n & Hn & a & b & d & Ha & Hb & Hd & ->)%CanonicalBytes_Ok
         (_ & n' & Hn' & a' & b' & d' & Ha' & Hb' & Hd' & E)%CanonicalBytes_Ok.
  destruct (prefix_code_all put_string _ _ _ _ _ _ prefix_code_string Ha Ha' eq_refl E) as [Ef E1].
  destruct (prefix_code_list put_string prefix_code_string _ _ _ _ _ _ Hb Hb' E1) as [_ ->].
  pose proof (prefix_code_inj (put_list put_string) _ _ _ (prefix_code_list _ prefix_code_string) Hd Hd') as Eadd.
  apply normalizeCapabilities_Ok in Hn as (Hdr & _ & ->), Hn' as (Hdr' & _ & ->). cbn in Eadd.
  destruct c as [v [s t ct i] [ty caps]], c' as [v' [s' t' ct' i'] [ty' caps']]. cbn in *.
  injection Ef as -> -> -> -> -> ->. unfold same_candidate. cbn.
  split_and!; try done; [congruence|]. by apply sort_dedup_eq.
Qed.

Lemma CanonicalBytes_same c c' p p' :
  same_candidate c c' → CanonicalBytes c = Ok p → CanonicalBytes c' = Ok p' → p = p'.
Proof.
  intros (Ev & Es & Et & Edr & Eadd)
    (_ & n & Hn & a & b & d & Ha & Hb & Hd & ->)%CanonicalBytes_Ok
    (_ & n' & Hn' & a' & b' & d' & Ha' & Hb' & Hd' & ->)%CanonicalBytes_Ok.
  apply normalizeCapabilities_Ok in Hn as (_ & _ & ->), Hn' as (_ & _ & ->).
  apply sort_dedup_eq in Eadd. cbn [cc_Drop cc_Add] in *. rewrite Ev, Es, Et in Ha. rewrite Eadd in Hd. congruence.
Qed.

(** The digest of a candidate binds its content: equal candidates (up to
    the order and repetition of capabilities) have equal digests, and equal
    digests come from equal candidates or exhibit a SHA-256 collision between
    the two canonical encodings. *)
Theorem CandidateDigestV2_binds c c' d d' :
  CandidateDigestV2 c = Ok d → CandidateDigestV2 c' = Ok d' →
  (same_candidate c c' → d = d') ∧
  (d = d' → same_candidate c c' ∨
    ∃ m m', CanonicalBytes c = Ok m ∧ CanonicalBytes c' = Ok m' ∧ collision m m').
Proof.
  unfold CandidateDigestV2.
  intros (m & Hm & [= <-])%result_bind_Ok (m' & Hm' & [= <-])%result_bind_Ok. split.
  - intros Hs. by rewrite (CanonicalBytes_same c c' m m').
  - intros [->|Hc]%sha256_digest_inj; [left; by apply (CanonicalBytes_inj c c' m')|right; eauto].
Qed.

Definition ex_candidate (add : list string) : CandidateV2 :=
  mkCandidateV2 CandidateV2Version
    (mkSubjectV2 CandidateV2ScopeContainer "Deployment/web" "app" "sha256:00")
    (mkArtifactV2 CandidateV2ArtifactContainerCaps (mkContainerCapabilitiesV2 ["ALL"] add)).

Lemma CandidateDigestV2_binds_witness :
  CandidateDigestV2 (ex_candidate ["CAP_KILL"; "CAP_CHOWN"; "CAP_KILL"]) =
  CandidateDigestV2 (ex_candidate ["CAP_CHOWN"; "CAP_KILL"]).
Proof.
  destruct (CandidateDigestV2 (ex_candidate ["CAP_KILL"; "CAP_CHOWN"; "CAP_KILL"])) as [d|] eqn:E;
    [|vm_compute in E; discriminate].
  destruct (CandidateDigestV2 (ex_candidate ["CAP_CHOWN"; "CAP_KILL"])) as [d'|] eqn:E';
    [|vm_compute in E'; discriminate].
  f_equal. apply (proj1 (CandidateDigestV2_binds _ _ d d' E E')).
  repeat split; try done; cbn; intros; set_solver.
Defined.

(** ** What a review context digest determines *)
Lemma prefix_code_attribution : prefix_code put_attribution.
Proof.
  intros [c s l] [c' s' l'] p q t u Hx Hy E. unfold put_attribution in Hx, Hy. cbn in Hx, Hy.
  apply result_bind_Ok in Hx as (a & Ha & (b & Hb & (d & Hd & [= <-])%result_bind_Ok)%result_bind_Ok).
  apply result_bind_Ok in Hy as (a' & Ha' & (b' & Hb' & (d' & Hd' & [= <-])%result_bind_Ok)%result_bind_Ok).
  rewrite !str_app_assoc in E.
  destruct (prefix_code_string _ _ _ _ _ _ Ha Ha' E) as [-> E1].
  destruct (prefix_code_string _ _ _ _ _ _ Hb Hb' E1) as [-> E2].
  by destruct (prefix_code_list _ prefix_code_string _ _ _ _ _ _ Hd Hd' E2) as [-> ->].
Qed.

(** The optional attribution block and the block that follows it. *)
Definition put_block (l : list CapabilityAttribution) : result string :=
  if 0 <? length l then
    tag ← put_string attribution_tag; entries ← put_list put_attribution l; Ok (tag +:+ entries)
  else Ok "".

Lemma put_block_inj l l' x xs x' xs' p p' t t' :
  x ≠ attribution_tag → x' ≠ attribution_tag →
  put_block l = Ok p → put_block l' = Ok p' →
  put_all put_string (x :: xs) = Ok t → put_all put_string (x' :: xs') = Ok t' →
  length xs = length xs' → p +:+ t = p' +:+ t' → l = l' ∧ x :: xs = x' :: xs'.
Proof.
  intros Hx Hx' Hp Hp' Ht Ht' Hlen E.
  assert (∀ y ys r, put_all put_string (y :: ys) = Ok r → ∃ h k, put_string y = Ok h ∧ r = h +:+ k) as Hhead.
  { intros y ys r (h & Hh & (k & _ & [= <-])%result_bind_Ok)%result_bind_Ok. eauto. }
  unfold put_block in Hp, Hp'. destruct l as [|e l], l' as [|e' l']; cbn [length Nat.ltb Nat.leb] in Hp, Hp'.
  - injection Hp as <-. injection Hp' as <-. rewrite !str_app_nil_l in E. split; [done|].
    apply (prefix_code_all put_string _ _ t t' "" "" prefix_code_string); [done..|cbn; by rewrite Hlen|congruence].
  - injection Hp as <-. apply result_bind_Ok in Hp' as (g & Hg & (n & _ & [= <-])%result_bind_Ok).
    destruct (Hhead _ _ _ Ht) as (h & k & Hh & ->). rewrite str_app_nil_l, !str_app_assoc in E.
    by destruct (prefix_code_string _ _ _ _ _ _ Hh Hg E).
  - injection Hp' as <-. apply result_bind_Ok in Hp as (g & Hg & (n & _ & [= <-])%result_bind_Ok).
    destruct (Hhead _ _ _ Ht') as (h & k & Hh & ->). rewrite str_app_nil_l, !str_app_assoc in E.
    by destruct (prefix_code_string _ _ _ _ _ _ Hg Hh E).
  - apply result_bind_Ok in Hp as (g & Hg & (n & Hn & [= <-])%result_bind_Ok).
    apply result_bind_Ok in Hp' as (g' & Hg' & (n' & Hn' & [= <-])%result_bind_Ok).
    rewrite !str_app_assoc in E.
    destruct (prefix_code_string _ _ _ _ _ _ Hg Hg' E) as [_ E1].
    destruct (prefix_code_list _ prefix_code_attribution _ _ _ _ _ _ Hn Hn' E1) as [-> ->]. split; [done|].
    apply (prefix_code_all put_string _ _ t' t' "" "" prefix_code_string); [done..|cbn; by rewrite Hlen|done].
Qed.

Lemma evidence_state_not_tag q :
  ProposalQualification_validate q = Ok () → q_Filesystem q ≠ attribution_tag.
Proof.
  unfold ProposalQualification_validate. cbn. destruct (validEvidenceState (q_Filesystem q)) eqn:E; [|done].
  intros _ Ht. rewrite Ht in E. vm_compute in E. discriminate.
Qed.

Lemma ReviewContextDigestV2_inj c c' d :
  ReviewContextDigestV2 c = Ok d → ReviewContextDigestV2 c' = Ok d →
  (ProposalProvenance_normalize (rc_Provenance c) = ProposalProvenance_normalize (rc_Provenance c') ∧
   rc_Qualification c = rc_Qualification c' ∧ rc_DerivationStatus c = rc_DerivationStatus c') ∨
  ∃ m m', ReviewContextCanonicalBytesV2 c = Ok m ∧ ReviewContextCanonicalBytesV2 c' = Ok m' ∧ collision m m'.
Proof.
  unfold ReviewContextDigestV2.
  intros (m & Hm & [= <-])%result_bind_Ok (m' & Hm' & H%Ok_inj)%result_bind_Ok.
  symmetry in H. apply sha256_digest_inj in H as [->|Hc]; [left|right; eauto].
  unfold ReviewContextCanonicalBytesV2 in Hm, Hm'.
  apply result_bind_Ok in Hm as (p & Hp & ([] & Hq & (u & _ & Hm)%result_bind_Ok)%result_bind_Ok).
  apply result_bind_Ok in Hm' as (p' & Hp' & ([] & Hq' & (u' & _ & Hm')%result_bind_Ok)%result_bind_Ok).
  apply result_bind_Ok in Hm as (h & Hh & (i & Hi & (a & Ha & (t & Ht & [= <-])%result_bind_Ok)%result_bind_Ok)%result_bind_Ok).
  apply result_bind_Ok in Hm' as (h' & Hh' & (i' & Hi' & (a' & Ha' & (t' & Ht' & [= E])%result_bind_Ok)%result_bind_Ok)%result_bind_Ok).
  symmetry in E. rewrite ?str_app_assoc in E.
  destruct (prefix_code_all put_string _ _ _ _ _ _ prefix_code_string Hh Hh' eq_refl E) as [Eh E1].
  destruct (prefix_code_list _ prefix_code_string _ _ _ _ _ _ Hi Hi' E1) as [Ei E2].
  apply evidence_state_not_tag in Hq, Hq'.
  apply (put_block_inj _ _ _ _ _ _ _ _ _ _ Hq Hq' Ha Ha' Ht Ht' eq_refl) in E2 as [Ea Et].
  rewrite Hp, Hp'. destruct p, p', (rc_Qualification c), (rc_Qualification c'),
    (rc_DerivationStatus c), (rc_DerivationStatus c'). cbn in *. by simplify_eq.
Qed.

(** The digest of a review context binds the normalised provenance, the
    evidence qualification and the derivation status: equal digests come from
    contexts equal in these, or exhibit a SHA-256 collision. The optional
    attribution block cannot be mistaken for the fields that follow it. *)
Theorem ReviewContextDigestV2_binds c c' d :
  ReviewContextDigestV2 c = Ok d → ReviewContextDigestV2 c' = Ok d →
  (ProposalProvenance_normalize (rc_Provenance c) = ProposalProvenance_normalize (rc_Provenance c') ∧
   rc_Qualification c = rc_Qualification c' ∧ rc_DerivationStatus c = rc_DerivationStatus c') ∨
  ∃ m m', ReviewContextCanonicalBytesV2 c = Ok m ∧ ReviewContextCanonicalBytesV2 c' = Ok m' ∧ collision m m'.
Proof. apply ReviewContextDigestV2_inj. Qed.

Definition ex_provenance (ids : list string) : ProposalProvenance :=
  mkProposalProvenance CandidateV2ScopeContainer ids
    [mkCapabilityAttribution "CAP_KILL" CapabilityAttributionKnown ["o1"]].
Definition ex_qualification : ProposalQualification :=
  mkProposalQualification "EMPTY" "EMPTY" "UNKNOWN" "EMPTY" "AVAILABLE".
Definition ex_derivation : ProposalDerivationStatus :=
  mkProposalDerivationStatus "SUPPORTED" "NOT_AVAILABLE" "NOT_AVAILABLE" "NOT_AVAILABLE".
Definition ex_context (ids : list string) : ProposalReviewContextV2 :=
  mkProposalReviewContextV2 (ex_provenance ids) ex_qualification ex_derivation.

Lemma ReviewContextDigestV2_binds_witness :
  ∃ d, ReviewContextDigestV2 (ex_context ["o1"; "o2"]) = Ok d ∧ ReviewContextDigestV2 (ex_context ["o2"; "o1"]) = Ok d ∧
  ((ProposalProvenance_normalize (ex_provenance ["o1"; "o2"]) = ProposalProvenance_normalize (ex_provenance ["o2"; "o1"]) ∧
    ex_qualification = ex_qualification ∧ ex_derivation = ex_derivation) ∨
   ∃ m m', ReviewContextCanonicalBytesV2 (ex_context ["o1"; "o2"]) = Ok m ∧
     ReviewContextCanonicalBytesV2 (ex_context ["o2"; "o1"]) = Ok m' ∧ collision m m').
Proof.
  eexists. split; [vm_compute; reflexivity|]. split; [vm_compute; reflexivity|].
  eapply (ReviewContextDigestV2_binds (ex_context ["o1"; "o2"]) (ex_context ["o2"; "o1"])); vm_compute; reflexivity.
Defined.

(** ** The version boundary *)
Lemma normalizedCandidateVersion_Ok v w :
  normalizedCandidateVersion v = Ok w → w = CandidateVersionV1 ∨ w = CandidateVersionV2.
Proof.
  unfold normalizedCandidateVersion. destruct (empty v); [intros [= <-]; by left|].
  intros H. inv_ok. apply andb_false_iff in Heqb as [H|H]; bool_simpl; subst; auto.
Qed.

Lemma empty_true s : empty s = true ↔ s = "".
Proof. apply bool_decide_eq_true. Qed.
Lemma is_nil_true {A} (o : option A) : is_nil o = true ↔ o = None.
Proof. by destruct o. Qed.

(** An accepted specification is not a hybrid. A candidate-v1 one carries
    none of the v2 parts; a candidate-v2 one carries all of them, each valid,
    with every attributed capability proposed, and none of the v1 artifacts nor
    a target binding. *)
Theorem ValidateProposalSpec_boundary spec :
  ValidateProposalSpec spec = Ok () →
  (normalizedCandidateVersion (sp_CandidateVersion spec) = Ok CandidateVersionV1 ∧
   sp_Subject spec = None ∧ sp_CapabilityArtifact spec = None ∧ sp_Provenance spec = None ∧
   sp_Qualification spec = None ∧ sp_DerivationStatus spec = None) ∨
  (sp_CandidateVersion spec = CandidateVersionV2 ∧ sp_TargetBinding spec = None ∧
   candidate_fields spec = ["" ; ""; ""; ""; ""; ""] ∧
   ∃ subject artifact provenance p qualification derivation,
     sp_Subject spec = Some subject ∧ sp_CapabilityArtifact spec = Some artifact ∧
     sp_Provenance spec = Some provenance ∧ sp_Qualification spec = Some qualification ∧
     sp_DerivationStatus spec = Some derivation ∧
     CandidateV2_Validate (mkCandidateV2 CandidateV2Version subject artifact) = Ok () ∧
     ProposalProvenance_normalize provenance = Ok p ∧
     (∀ e, e ∈ pp_CapabilityAttribution p →
        ca_Capability e ∈ cc_Add (art_ContainerCapabilities artifact) ∧
        ∀ id, id ∈ ca_ObservationIDs e → id ∈ pp_ObservationIDs p)).
Proof.
  unfold ValidateProposalSpec. intros (v & Hv & H)%result_bind_Ok. case_bool_decide as E1.
  - subst v. left. inv_ok. bool_simpl. rewrite !is_nil_true in *. done.
  - destruct (normalizedCandidateVersion_Ok _ _ Hv) as [->| ->]; [done|]. right.
    assert (sp_CandidateVersion spec = CandidateVersionV2) as ->.
    { unfold normalizedCandidateVersion in Hv. destruct (empty _); [done|]. by inv_ok. }
    inv_ok. bool_simpl. rewrite !empty_true, !is_nil_true in *.
    split; [done|]. split; [done|]. split; [unfold candidate_fields; congruence|].
    destruct (sp_Subject spec) as [sub|], (sp_CapabilityArtifact spec) as [art|], (sp_Provenance spec) as [prov|],
      (sp_Qualification spec) as [q|], (sp_DerivationStatus spec) as [der|]; try discriminate.
    apply result_bind_Ok in H as ([] & Hs & ([] & Ha & (p & Hp & ([] & Hc & _)%result_bind_Ok)%result_bind_Ok)%result_bind_Ok).
    exists sub, art, prov, p, q, der. repeat (split; [done|]). split.
    { unfold CandidateV2_Validate. cbn [cand_Version cand_Subject cand_Artifact]. by rewrite Hs. }
    split; [done|]. intros e He. split.
    + unfold attribution_covers in Hc. destruct (pp_CapabilityAttribution p) as [|e0 l]; [by apply elem_of_nil in He|].
      cbn [length Nat.ltb Nat.leb] in Hc. inv_ok.
      match goal with H : existsb _ _ = false |- _ => apply (existsb_false_elem _ _ e) in H; [cbn beta in H|done] end.
      by bool_simpl.
    + unfold ProposalProvenance_normalize in Hp. inv_ok. cbn in *. intros id Hid.
      match goal with H : existsb (fun _ => existsb _ _) _ = false |- _ =>
        apply (existsb_false_elem _ _ e) in H; [|done]; apply (existsb_false_elem _ _ id) in H; [cbn beta in H|done] end.
      by bool_simpl.
Qed.

Definition ex_spec_v2 (add : list string) : Spec :=
  mkSpec CandidateVersionV2 "" "" "2024-01-01T00:00:00Z" true None "" "" "" ""
    (Some (cand_Subject (ex_candidate []))) (Some (cand_Artifact (ex_candidate add)))
    (Some (ex_provenance ["o1"; "o2"])) (Some ex_qualification) (Some ex_derivation).

Lemma ValidateProposalSpec_boundary_witness :
  ValidateProposalSpec (ex_spec_v2 ["CAP_KILL"]) = Ok () ∧ sp_TargetBinding (ex_spec_v2 ["CAP_KILL"]) = None.
Proof.
  assert (ValidateProposalSpec (ex_spec_v2 ["CAP_KILL"]) = Ok ()) as H by (vm_compute; reflexivity).
  split; [exact H|].
  destruct (ValidateProposalSpec_boundary _ H) as [(Hv & _)|(_ & Hb & _)]; [vm_compute in Hv; discriminate|exact Hb].
Defined.

(** A v2 candidate is only taken from a v2 specification: the dereferences of
    [candidateV2] and [reviewContextV2] do not panic there. *)
Lemma candidateV2_v2 spec :
  normalizedCandidateVersion (sp_CandidateVersion spec) = Ok CandidateVersionV2 →
  ValidateProposalSpec spec = Ok () → is_ok (candidateV2 spec) = true ∧ is_ok (reviewContextV2 spec) = true.
Proof.
  intros Hv H. pose proof H as H'. unfold ValidateProposalSpec in H'. rewrite Hv in H'.
  cbn [mbind result_bind] in H'. rewrite bool_decide_eq_false_2 in H' by done. inv_ok.
  unfold candidateV2, reviewContextV2. rewrite H. cbn [mbind result_bind].
  destruct (sp_Subject spec), (sp_CapabilityArtifact spec), (sp_Provenance spec), (sp_Qualification spec),
    (sp_DerivationStatus spec); try discriminate.
  apply result_bind_Ok in H' as ([] & _ & ([] & _ & (x & -> & _)%result_bind_Ok)%result_bind_Ok). done.
Qed.

(** ** What an approval authorises *)
Definition utf8_spec (spec : Spec) : Prop := Forall (fun s => valid_utf8 s = true) (candidate_fields spec).

Lemma CandidateDigest_binds s s' d :
  utf8_spec s → utf8_spec s' → CandidateDigest s = Ok d → CandidateDigest s' = Ok d →
  candidate_fields s = candidate_fields s' ∨ collision (candidate_payload s) (candidate_payload s').
Proof.
  unfold CandidateDigest. intros Hs Hs' <-%Ok_inj E%Ok_inj.
  symmetry in E. apply sha256_digest_inj in E as [E|Hc]; [left|by right].
  by apply (json_object_inj candidate_names) in E.
Qed.

(** The content an approval of a specification covers. *)
Definition same_approved_content (s s' : Spec) : Prop :=
  normalizedCandidateVersion (sp_CandidateVersion s) = normalizedCandidateVersion (sp_CandidateVersion s') ∧
  (normalizedCandidateVersion (sp_CandidateVersion s) = Ok CandidateVersionV1 → candidate_fields s = candidate_fields s') ∧
  (normalizedCandidateVersion (sp_CandidateVersion s) = Ok CandidateVersionV2 →
     (∃ c c', candidateV2 s = Ok c ∧ candidateV2 s' = Ok c' ∧ same_candidate c c') ∧
     (∃ r r', reviewContextV2 s = Ok r ∧ reviewContextV2 s' = Ok r' ∧
        ProposalProvenance_normalize (rc_Provenance r) = ProposalProvenance_normalize (rc_Provenance r') ∧
        rc_Qualification r = rc_Qualification r' ∧ rc_DerivationStatus r = rc_DerivationStatus r')).

(** A collision between two encodings the two specifications are digested by. *)
Definition encoding_collision (s s' : Spec) : Prop :=
  collision (candidate_payload s) (candidate_payload s') ∨
  (∃ c c' m m', candidateV2 s = Ok c ∧ candidateV2 s' = Ok c' ∧
     CanonicalBytes c = Ok m ∧ CanonicalBytes c' = Ok m' ∧ collision m m') ∨
  (∃ r r' m m', reviewContextV2 s = Ok r ∧ reviewContextV2 s' = Ok r' ∧
     ReviewContextCanonicalBytesV2 r = Ok m ∧ ReviewContextCanonicalBytesV2 r' = Ok m' ∧ collision m m').

Lemma CandidateDigestV2_inj c c' d :
  CandidateDigestV2 c = Ok d → CandidateDigestV2 c' = Ok d →
  same_candidate c c' ∨ ∃ m m', CanonicalBytes c = Ok m ∧ CanonicalBytes c' = Ok m' ∧ collision m m'.
Proof.
  unfold CandidateDigestV2. intros (m & Hm & <-%Ok_inj)%result_bind_Ok (m' & Hm' & E%Ok_inj)%result_bind_Ok.
  symmetry in E. apply sha256_digest_inj in E as [->|Hc]; [left; by apply (CanonicalBytes_inj c c' m')|right; eauto].
Qed.

Lemma ValidateApprovedCandidate_state s st :
  ValidateApprovedCandidate (Some s) (Some st) = Ok () →
  st_ApprovalState st = ApprovalApproved ∧
  normalizedCandidateVersion (sp_CandidateVersion s) = Ok (st_ApprovalMechanismVersion st).
Proof.
  unfold ValidateApprovedCandidate. intros (v & Hv & H)%result_bind_Ok. rewrite Hv.
  case_bool_decide as E; unfold validateApprovedCandidateV2, validateApprovedCandidateV1 in H; inv_ok; bool_simpl;
    split; try done; [congruence|]. destruct (normalizedCandidateVersion_Ok _ _ Hv); congruence.
Qed.

Lemma validateApprovedV1_digest s st :
  validateApprovedCandidateV1 s (Some st) = Ok () → CandidateDigest s = Ok (st_ApprovedCandidateDigest st).
Proof. unfold validateApprovedCandidateV1. intros H. inv_ok. bool_simpl. congruence. Qed.

Lemma validateApprovedV2_digest s st :
  validateApprovedCandidateV2 s (Some st) = Ok () →
  ∃ c r, candidateV2 s = Ok c ∧ CandidateDigestV2 c = Ok (st_ApprovedCandidateDigest st) ∧
    reviewContextV2 s = Ok r ∧ ReviewContextDigestV2 r = Ok (st_ApprovedReviewContextDigest st).
Proof. unfold validateApprovedCandidateV2. intros H. inv_ok. bool_simpl. subst. eauto 10. Qed.

(** C22: one approval authorises one content. Two specifications that the same
    status approves have the same version and the same approved content, or
    they exhibit a SHA-256 collision between two of their canonical encodings:
    an approved proposal whose specification is overwritten with other content
    is refused. *)
Theorem ValidateApprovedCandidate_binds s s' st :
  utf8_spec s → utf8_spec s' →
  ValidateApprovedCandidate (Some s) (Some st) = Ok () →
  ValidateApprovedCandidate (Some s') (Some st) = Ok () →
  st_ApprovalState st = ApprovalApproved ∧ (same_approved_content s s' ∨ encoding_collision s s').
Proof.
  intros Hu Hu' H H'. destruct (ValidateApprovedCandidate_state _ _ H) as [Ha Hv].
  destruct (ValidateApprovedCandidate_state _ _ H') as [_ Hv']. split; [done|].
  unfold ValidateApprovedCandidate in H, H'. rewrite Hv in H. rewrite Hv' in H'. cbn [mbind result_bind] in H, H'.
  unfold same_approved_content. rewrite Hv, Hv'. case_bool_decide as E.
  - destruct (validateApprovedV2_digest _ _ H) as (c & r & Hc & Hd & Hr & Hrd).
    destruct (validateApprovedV2_digest _ _ H') as (c' & r' & Hc' & Hd' & Hr' & Hrd').
    destruct (CandidateDigestV2_inj _ _ _ Hd Hd') as [Hsame|(m & m' & Hm & Hm' & Hcol)];
      [|right; right; left; exists c, c', m, m'; done].
    unfold ReviewContextDigestV2 in Hrd, Hrd'.
    destruct (ReviewContextDigestV2_inj r r' (st_ApprovedReviewContextDigest st)) as [Hrs|(m & m' & Hm & Hm' & Hcol)];
      [done..| |right; right; right; exists r, r', m, m'; done].
    left. split; [done|]. split; [intros [= E1]; rewrite E in E1; done|].
    intros _. split; [by exists c, c'|by exists r, r'].
  - apply validateApprovedV1_digest in H, H'.
    destruct (CandidateDigest_binds _ _ _ Hu Hu' H H') as [Hf|Hc]; [|right; by left].
    left. split; [done|]. split; [done|]. intros [= E1]. done.
Qed.

Definition ex_approved (spec : Spec) : Status :=
  match candidateV2 spec, reviewContextV2 spec with
  | Ok c, Ok r =>
      match CandidateDigestV2 c, ReviewContextDigestV2 r with
      | Ok d, Ok e => mkStatus ApprovalApproved "" "bob" "" "" "" d e CandidateVersionV2 None []
      | _, _ => mkStatus "" "" "" "" "" "" "" "" "" None []
      end
  | _, _ => mkStatus "" "" "" "" "" "" "" "" "" None []
  end.

Lemma ValidateApprovedCandidate_binds_witness :
  let s := ex_spec_v2 ["CAP_KILL"] in let s' := ex_spec_v2 ["CAP_KILL"; "CAP_KILL"] in
  same_approved_content s s' ∨ encoding_collision s s'.
Proof.
  intros s s'. apply (ValidateApprovedCandidate_binds s s' (ex_approved s));
    [repeat constructor..|vm_compute; reflexivity|vm_compute; reflexivity].
Defined.

(** ** Provenance normalisation *)
Lemma adjacent_duplicate_NoDup l :
  StronglySorted (not_above string_ltb) l → adjacent_duplicate l = false ↔ NoDup l.
Proof.
  induction 1 as [|x l Hs IH Hall]; [split; [constructor|done]|].
  destruct l as [|y l]; [split; [intros _; apply NoDup_singleton|done]|].
  cbn [adjacent_duplicate]. rewrite orb_false_iff, bool_decide_eq_false, IH, (NoDup_cons x). split.
  - intros [Hne Hnd]. split; [|done]. intros [->|Hin]%elem_of_cons; [done|].
    inversion Hall as [|?? Hxy _]; subst. inversion Hs as [|?? _ Hy]; subst.
    rewrite Forall_forall in Hy. apply Hne. apply (less_total (less := string_ltb)); [exact Hxy|by apply Hy].
  - intros [Hni Hnd]. split; [|done]. intros ->. apply Hni. left.
Qed.

Lemma normalize_attribution_again e e' : normalize_attribution e = Ok e' → normalize_attribution e' = Ok e'.
Proof.
  unfold normalize_attribution. intros H. inv_ok. cbn [ca_Capability ca_State ca_ObservationIDs].
  rewrite (sort_by_idemp string_ltb), Heqb, Heqb0, Heqb1. done.
Qed.

(** Normalising a provenance gives a normal form: it is accepted again
    unchanged, lists each observation and each capability once, in order, and
    attributes capabilities only to listed observations. *)
Theorem ProposalProvenance_normalize_idemp p n :
  ProposalProvenance_normalize p = Ok n →
  ProposalProvenance_normalize n = Ok n ∧
  pp_ObservationIDs n ≡ₚ pp_ObservationIDs p ∧
  NoDup (pp_ObservationIDs n) ∧ NoDup (map ca_Capability (pp_CapabilityAttribution n)) ∧
  (∀ e id, e ∈ pp_CapabilityAttribution n → id ∈ ca_ObservationIDs e → id ∈ pp_ObservationIDs p).
Proof.
  unfold ProposalProvenance_normalize. intros H. inv_ok. cbn [pp_PopulationScope pp_ObservationIDs pp_CapabilityAttribution].
  rename x into entries. set (l := sort_by (less_on ca_Capability string_ltb) entries) in *.
  set (ids := sort_strings (pp_ObservationIDs p)) in *.
  assert (ids ≡ₚ pp_ObservationIDs p) as Hids by apply sort_by_perm.
  assert (result_mapM normalize_attribution l = Ok l) as Hl.
  { apply result_mapM_Ok. apply result_mapM_Ok in H0.
    assert (Forall (fun e => normalize_attribution e = Ok e) entries) as Hf.
    { clear -H0. induction H0; constructor; [by eapply normalize_attribution_again|done]. }
    assert (Forall (fun e => normalize_attribution e = Ok e) l) as Hf' by (unfold l; by rewrite sort_by_perm).
    clear -Hf'. by induction Hf'; constructor. }
  assert (length entries = length (pp_CapabilityAttribution p)) as Hlen.
  { apply result_mapM_Ok, Forall2_length in H0. done. }
  split.
  { assert (length ids = length (pp_ObservationIDs p)) as F1 by by rewrite Hids.
    assert (sort_strings ids = ids) as F2 by apply (sort_by_idemp string_ltb).
    assert (existsb empty ids = false) as F3 by by rewrite (existsb_perm empty _ _ Hids).
    assert (length l = length (pp_CapabilityAttribution p)) as F4 by (unfold l; by rewrite length_sort_by).
    assert (sort_by (less_on ca_Capability string_ltb) l = l) as F5 by apply (sort_by_idemp _).
    rewrite Heqb, F1, Heqb0, F3, F2, Heqb2, F4, Heqb3, Hl. cbn [mbind result_bind].
    rewrite F5, Heqb4, Heqb5. done. }
  split; [done|]. split; [|split].
  - apply adjacent_duplicate_NoDup; [apply sort_by_sorted, _|done].
  - apply adjacent_duplicate_NoDup; [|done]. apply sorted_by_key, sort_by_sorted, _.
  - intros e id He Hid. apply (existsb_false_elem _ _ e) in Heqb5; [cbn beta in Heqb5|done].
    apply (existsb_false_elem _ _ id) in Heqb5; [cbn beta in Heqb5|done]. bool_simpl. by rewrite <- Hids.
Qed.

Lemma ProposalProvenance_normalize_idemp_witness :
  ∃ n, ProposalProvenance_normalize (ex_provenance ["o2"; "o1"]) = Ok n ∧ ProposalProvenance_normalize n = Ok n.
Proof.
  eexists. split; [vm_compute; reflexivity|].
  refine (proj1 (ProposalProvenance_normalize_idemp (ex_provenance ["o2"; "o1"]) _ _)). vm_compute. reflexivity.
Defined.
