(* ===== verification/ApplyPlan.v ===== *)
(** * internal/applyproposal: the plan of an apply

    The pure part of apply.go and readiness.go: artifacts, the plan built from
    them, its checks and order, the enforcement requirements of the binding,
    and the custody snapshots.  YAML decoding is a parameter. *)
From S2P Require Import Prelude GoStd Identity Digest Json SpoBackend Target Kube Unstructured Proposal Attempt.
Import SpoBackend.

(** [NewYAMLOrJSONDecoder]: the nth document; the sentinel [EOF] past the last. *)
Class Yaml := { yaml_decode : string → nat → result json }.

Module ApplyPlan.

Definition podlock : string := "podlock".
Definition spo_seccompprofile : string := "spo-seccompprofile".
Definition patchedManifestSlug : string := "patched-manifest".
Definition podLockProfileLabel : string := "podlock.kubewarden.io/profile".
Definition knownArtifactSlugs : list string := [podlock; "networkpolicy"; patchedManifestSlug; spo_seccompprofile].

(** ** Options and artifacts *)
Fixpoint parse_skip (skip : list string) : result (list string) :=
  match skip with
  | [] => Ok []
  | raw :: skip =>
      let s := to_lower (trim_space raw) in
      fail_if negb (bool_decide (s ∈ knownArtifactSlugs)) with mkError "" "--skip: not a known artifact";
      rest ← parse_skip skip; Ok (s :: rest)
  end.
Definition parseSkipArtifacts (skip : list string) : result (gset string) :=
  l ← parse_skip skip; Ok (list_to_set l).

Record proposalArtifact := mkArtifact { a_name : string; a_slug : string; a_content : string; a_available : bool }.

Definition proposalArtifacts (spec : Spec) : list proposalArtifact :=
  [mkArtifact "PodLock" podlock (sp_PodLock spec) (negb (empty (sp_PodLock spec)));
   mkArtifact "NetworkPolicy" "networkpolicy" (sp_NetworkPolicy spec) (negb (empty (sp_NetworkPolicy spec)));
   mkArtifact "Patched Manifest" patchedManifestSlug (sp_PatchedManifest spec) (negb (empty (sp_PatchedManifest spec)));
   mkArtifact "SPO SeccompProfile" spo_seccompprofile (sp_SPOSeccompProfile spec)
     (negb (empty (sp_SPOSeccompProfile spec)))].

(** The artifacts to apply, skipped, and left out for want of --restart. *)
Definition select_artifact (skip : gset string) (restart : bool)
  (acc : list proposalArtifact * list proposalArtifact * list proposalArtifact) (artifact : proposalArtifact) :=
  let '(toApply, skipped, needsRestart) := acc in
  if negb (a_available artifact) then (toApply, skipped, needsRestart)
  else if bool_decide (a_slug artifact ∈ skip) then (toApply, skipped ++ [artifact], needsRestart)
  else if bool_decide (a_slug artifact = patchedManifestSlug) && negb restart
       then (toApply, skipped, needsRestart ++ [artifact])
       else (toApply ++ [artifact], skipped, needsRestart).
Definition select_artifacts (skip : gset string) (restart : bool) (artifacts : list proposalArtifact) :=
  foldl (select_artifact skip restart) ([], [], []) artifacts.

(** ** Planned artifacts *)
Record plannedArtifact := mkPlanned {
  p_slug : string; p_name : string; p_content : string; p_gvk : GVK; p_ns : string; p_nameStr : string; p_obj : json }.

Definition allowedGVKs : list GVK :=
  [mkGVK "podlock.kubewarden.io" "v1alpha1" "LandlockProfile"; mkGVK "networking.k8s.io" "v1" "NetworkPolicy";
   SeccompProfileGVK; mkGVK "" "v1" "Pod"; mkGVK "apps" "v1" "Deployment"; mkGVK "apps" "v1" "StatefulSet";
   mkGVK "apps" "v1" "DaemonSet"].
Definition isAllowedGVK (gvk : GVK) : bool := bool_decide (gvk ∈ allowedGVKs).

Section plan.
Context `{!Unstructured} `{!Yaml}.

Definition buildPlannedArtifact (a : proposalArtifact) (fallbackNamespace : string) : result plannedArtifact :=
  raw ← yaml_decode (a_content a) 0;
  _ ← match yaml_decode (a_content a) 1 with
      | Ok _ => failwith "multi-document YAML is not supported"
      | Err e => if bool_decide (err_is e = "EOF") then Ok () else Err e
      end;
  fail_if bool_decide (raw = JNull) || bool_decide (raw = JObj []) with mkError "" "empty manifest";
  let gvk := GroupVersionKind raw in
  fail_if empty (gvk_Kind gvk) with mkError "" "manifest missing kind/apiVersion";
  fail_if negb (isAllowedGVK gvk) with mkError "" "unrecognized resource kind";
  let name := GetName raw in
  fail_if empty name with mkError "" "manifest missing metadata.name";
  let ns := GetNamespace raw in
  if bool_decide (gvk = SeccompProfileGVK) && SeccompProfileClusterScoped then
    fail_if negb (empty ns) with mkError "" "cluster-scoped SeccompProfile must not carry metadata.namespace";
    Ok (mkPlanned (a_slug a) (a_name a) (a_content a) gvk "" name raw)
  else
    let '(ns, obj) := if empty ns then (fallbackNamespace, SetNamespace fallbackNamespace raw) else (ns, raw) in
    fail_if empty ns with mkError "" "effective namespace empty";
    Ok (mkPlanned (a_slug a) (a_name a) (a_content a) gvk ns name obj).

(** The walk of [removeSeccompBindings]: each field of a map is visited once, so
    deleting [seccompProfile] before or after visiting the child is the same. *)
Fixpoint removeSeccompBindings (m : json) : json :=
  match m with
  | JObj fields =>
      JObj (map (fun f =>
        (f.1, match f.2 with
              | JObj _ =>
                  match removeSeccompBindings f.2 with
                  | JObj child =>
                      JObj (if bool_decide (f.1 = "securityContext") then delete_field "seccompProfile" child else child)
                  | child => child
                  end
              | JArr l => JArr (map (fun item => match item with JObj _ => removeSeccompBindings item | _ => item end) l)
              | v => v
              end)) fields)
  | _ => m
  end.

Definition podLockLabelPaths : list (list string) :=
  [["metadata"; "labels"; podLockProfileLabel]; ["spec"; "template"; "metadata"; "labels"; podLockProfileLabel]].

Definition alignBindingWithArtifactPlan (skip : gset string) (p : plannedArtifact) : plannedArtifact :=
  if negb (bool_decide (p_slug p = patchedManifestSlug)) then p
  else
    let no_podlock := bool_decide (podlock ∈ skip) in
    let no_seccomp := bool_decide (spo_seccompprofile ∈ skip) in
    let obj := if no_podlock then foldl (fun o path => RemoveNestedField path o) (p_obj p) podLockLabelPaths
               else p_obj p in
    let obj := if no_seccomp then removeSeccompBindings obj else obj in
    if no_podlock || no_seccomp
    then mkPlanned (p_slug p) (p_name p) (marshal obj) (p_gvk p) (p_ns p) (p_nameStr p) obj
    else p.

Definition bindingArtifacts (artifacts : list proposalArtifact) (skip : gset string) : list proposalArtifact :=
  if negb (bool_decide (podlock ∈ skip)) then artifacts
  else List.filter (fun artifact => negb (bool_decide (a_slug artifact = podlock))) artifacts.

Definition validateCompositionCompatibility (plan : list plannedArtifact) : result unit :=
  if existsb (fun p => bool_decide (p_slug p = podlock)) plan &&
     existsb (fun p => bool_decide (p_slug p = spo_seccompprofile)) plan
  then failwith "PodLock + application-derived Seccomp composition is unsupported: runtime compatibility is unproven"
  else Ok ().

(** The target of an artifact, as the duplicate check names it. *)
Definition target_id (p : plannedArtifact) : string :=
  gvk_Group (p_gvk p) +:+ "/" +:+ gvk_Version (p_gvk p) +:+ "/" +:+ gvk_Kind (p_gvk p) +:+ "/" +:+
  p_ns p +:+ "/" +:+ p_nameStr p.

(** ** Order *)
Definition classEnforcement : nat := 0.
Definition classLivePolicy : nat := 1.
Definition classBinding : nat := 2.
Definition applyClassFor (slug : string) : nat :=
  if bool_decide (slug = spo_seccompprofile) || bool_decide (slug = podlock) then classEnforcement
  else if bool_decide (slug = patchedManifestSlug) then classBinding else classLivePolicy.
Definition less_class (p q : plannedArtifact) : bool := applyClassFor (p_slug p) <? applyClassFor (p_slug q).

(** ** Phases 1 and 2: the plan *)
Definition plan_of (skip : gset string) (namespace : string) (toApply : list proposalArtifact)
  : result (list plannedArtifact) :=
  result_mapM (fun artifact => pa ← buildPlannedArtifact artifact namespace; Ok (alignBindingWithArtifactPlan skip pa))
    toApply.

Definition build_plan (skip : gset string) (namespace : string) (certification : bool)
  (toApply : list proposalArtifact) : result (list plannedArtifact) :=
  plan ← plan_of skip namespace toApply;
  _ ← (if certification then Ok () else validateCompositionCompatibility plan);
  fail_if negb (bool_decide (NoDup (map target_id plan))) with mkError "" "duplicate target artifacts detected";
  Ok (sort_by less_class plan).

(** ** Enforcement requirements *)
Definition podSpecPaths : list (list string) := [["spec"]; ["spec"; "template"; "spec"]].

Definition container_profile (item : json) : list string :=
  match item with
  | JObj _ =>
      match found (NestedString ["securityContext"; "seccompProfile"; "localhostProfile"] item) with
      | Some profile => if empty profile then [] else [profile]
      | None => []
      end
  | _ => []
  end.

Definition referencedLocalhostProfiles (obj : json) : list string :=
  flat_map (fun base =>
    flat_map (fun field =>
      match found (NestedSlice (base ++ [field]) obj) with
      | Some items => flat_map container_profile items
      | None => []
      end) ["containers"; "initContainers"]) podSpecPaths.

(** The fields that decide what a profile enforces; [None] is the nil map. *)
Definition enforcementSpec (obj : json) : option json :=
  let out := flat_map (fun field => match found (NestedField ["spec"; field] obj) with
                                    | Some value => [(field, value)] | None => [] end)
               ["defaultAction"; "architectures"; "syscalls"] in
  if length out =? 0 then None else Some (obj_of out).

Record seccompRequirement := mkRequirement {
  r_name : string; r_localhostProfile : string; r_wantSpec : option json }.

Definition requirement_for (approved : option json) (profile : string) : seccompRequirement :=
  match ParseLocalhostProfilePath profile with
  | None => mkRequirement "" profile None
  | Some name =>
      mkRequirement name profile
        (match approved with
         | Some a => if bool_decide (GetName a = name) then enforcementSpec a else None
         | None => None
         end)
  end.

Definition binding_of (plan : list plannedArtifact) : option plannedArtifact :=
  List.find (fun p => bool_decide (p_slug p = patchedManifestSlug)) plan.

Definition enforcementRequirements (plan : list plannedArtifact) (approvedSeccomp : option json)
  : list seccompRequirement :=
  match binding_of plan with
  | None => []
  | Some binding => map (requirement_for approvedSeccomp) (dedup (referencedLocalhostProfiles (p_obj binding)))
  end.

Definition approvedSeccompProfile (artifacts : list proposalArtifact) (fallbackNamespace : string) : option json :=
  match List.find (fun artifact => bool_decide (a_slug artifact = spo_seccompprofile) && a_available artifact)
          artifacts with
  | None => None
  | Some artifact =>
      match buildPlannedArtifact artifact fallbackNamespace with Ok pa => Some (p_obj pa) | Err _ => None end
  end.

Definition hasClusterScopedArtifact (plan : list plannedArtifact) : bool :=
  existsb (fun p => bool_decide (p_gvk p = SeccompProfileGVK)) plan.

(** ** PodLock consistency *)
Definition podLockBindingName (obj : json) : option string :=
  match found (NestedString ["metadata"; "labels"; podLockProfileLabel] obj) with
  | Some value => Some value
  | None => found (NestedString ["spec"; "template"; "metadata"; "labels"; podLockProfileLabel] obj)
  end.

Definition podLockEnforcementSpec (obj : json) : option json :=
  match found (NestedField ["spec"; "profilesByContainer"] obj) with Some (JObj fs) => Some (JObj fs) | _ => None end.

(** ** Custody snapshots *)
Definition digestJSON (b : string) : string := sha256_digest b.

(** The fields of a container the project patches. *)
Definition controlled_container (raw : json) : list json :=
  match raw with
  | JObj container =>
      let controlled :=
        match lookup_field "securityContext" container with
        | Some (JObj sc) => flat_map (fun key => match lookup_field key sc with
                                                 | Some value => [(key, value)] | None => [] end)
                              ["capabilities"; "seccompProfile"]
        | _ => []
        end in
      [obj_of (("name", default JNull (lookup_field "name" container)) ::
         (if 0 <? length controlled then [("securityContext", obj_of controlled)] else []))]
  | _ => []
  end.

Definition workloadMutationSpec (obj : json) : json :=
  let labels :=
    match found (NestedStringMap ["spec"; "template"; "metadata"; "labels"] obj) with
    | Some fs => match lookup_field podLockProfileLabel fs with
                 | Some profile => [("metadata", obj_of [("labels", obj_of [(podLockProfileLabel, profile)])])]
                 | None => []
                 end
    | None => []
    end in
  let containers :=
    match found (NestedSlice ["spec"; "template"; "spec"; "containers"] obj) with
    | Some l => [("spec", obj_of [("containers", JArr (flat_map controlled_container l))])]
    | None => []
    end in
  match labels ++ containers with
  | [] => obj_of []
  | template => obj_of [("template", obj_of template)]
  end.

Definition is_workload (gvk : GVK) : bool := bool_decide (gvk_Kind gvk ∈ ["Deployment"; "StatefulSet"; "DaemonSet"]).

Definition mutationSnapshot (gvk : GVK) (obj : json) : string :=
  marshal (obj_of (
    [("apiVersion", JStr (GetAPIVersion obj)); ("kind", JStr (GetKind obj));
     ("metadata", obj_of [("name", JStr (GetName obj)); ("namespace", JStr (GetNamespace obj));
        ("uid", JStr (GetUID obj)); ("resourceVersion", JStr (GetResourceVersion obj))])] ++
    (if is_workload gvk then [("spec", workloadMutationSpec obj)]
     else match found (NestedField ["spec"] obj) with Some spec => [("spec", spec)] | None => [] end))).

Definition observedMutationValue (gvk : GVK) (obj : option json) : string * string :=
  match obj with
  | None => ("null", digestJSON "null")
  | Some obj => let b := mutationSnapshot gvk obj in (b, digestJSON b)
  end.

Definition mutationRecordFor (p : plannedArtifact) (before : option json) : Attempt.MutationRecord :=
  let intended := mutationSnapshot (p_gvk p) (p_obj p) in
  let '(beforeValue, beforeDigest) := observedMutationValue (p_gvk p) before in
  let '(uid, rv) := match before with Some o => (GetUID o, GetResourceVersion o) | None => ("", "") end in
  let operation :=
    match before with
    | None => "CREATE"
    | Some _ => if bool_decide (gvk_Kind (p_gvk p) = "Pod") then "DELETE_THEN_CREATE" else "UPDATE"
    end in
  Attempt.mkMutationRecord (p_slug p) (p_gvk p) (p_ns p) (p_nameStr p) uid rv operation beforeValue intended ""
    beforeDigest (digestJSON intended) "" "" "" Attempt.ResultUnknown "".

Definition hasSuccessfulMutation (records : list Attempt.MutationRecord) : bool :=
  existsb (fun record => bool_decide (Attempt.m_Result record = Attempt.ResultSucceeded)) records.
End plan.

End ApplyPlan.
