(* ===== verification/Derivation.v ===== *)
(** * internal/proposal/derive_container.go

    The derivation of a candidate-v2 proposal from a persisted population:
    evidence qualification, capability attribution and the assembled
    specification.  Loading the population and saving the result go through
    [History] and [ProposalStore]. *)
From S2P Require Import Prelude GoStd Policy Target History Proposal.
Import Profile History.

Definition ErrNoCandidate : string := "no candidate".
Definition derivationSupported : string := "SUPPORTED".
Definition derivationNotAvailable : string := "NOT_AVAILABLE".

(** [sort.SearchStrings]: the least index whose element is not below the
    target, by halving the interval [i, j). *)
Fixpoint search_strings (fuel : nat) (values : list string) (target : string) (i j : nat) : nat :=
  match fuel with
  | 0 => i
  | S k =>
      if i <? j then
        let h := (i + j) / 2 in
        match values !! h with
        | Some v => if string_ltb v target then search_strings k values target (h + 1) j
                    else search_strings k values target i h
        | None => i
        end
      else i
  end.

Definition containsSortedString (values : list string) (target : string) : bool :=
  let index := search_strings (length values) values target 0 (length values) in
  (index <? length values) && bool_decide (values !! index = Some target).

(** Compaction of a sorted list: neighbours compared. *)
Fixpoint unique_from (last : string) (l : list string) : list string :=
  match l with
  | [] => []
  | v :: l => if bool_decide (v = last) then unique_from last l else v :: unique_from v l
  end.
Definition uniqueStrings (values : list string) : list string :=
  match values with
  | [] => []
  | v :: l => v :: unique_from v l
  end.

Definition deriveCapabilityAttribution (population : Population) : list CapabilityAttribution :=
  let capabilities := uniqueStrings (sort_strings (map cr_Name (p_CapabilityAccesses population))) in
  let contributions := p_ObservationContributions population in
  let complete := (0 <? length contributions) && forallb oc_CapabilityFactsComplete contributions in
  map (fun capability =>
    let ids := map oc_ObservationID
      (List.filter (fun c => containsSortedString (oc_CapabilityFacts c) capability) contributions) in
    mkCapabilityAttribution capability
      (if negb complete || (length ids =? 0) then CapabilityAttributionUnknown else CapabilityAttributionKnown) ids)
  capabilities.

(** The loop over the source summaries; [None] before the first one. *)
Fixpoint qualification_loop (state : string) (found : bool) (l : list ObservationSourceContribution)
  : result (string * bool) :=
  match l with
  | [] => Ok (state, found)
  | summary :: l =>
      let e := os_EvidenceState summary in
      if bool_decide (e = "UNKNOWN") then qualification_loop "UNKNOWN" true l
      else if bool_decide (e = "AVAILABLE") && negb (bool_decide (state = "UNKNOWN"))
      then qualification_loop "AVAILABLE" true l
      else if negb (bool_decide (e = "EMPTY")) then failwith "invalid evidence state"
      else qualification_loop state true l
  end.

(** The summaries of one source, over all contributions in order. *)
Definition summaries (population : Population) (source : string) : list ObservationSourceContribution :=
  flat_map (fun c => List.filter (fun s => bool_decide (os_Source s = source)) (oc_Sources c))
    (p_ObservationContributions population).

Definition populationSourceQualification (population : Population) (source : string) (positiveFacts : nat)
  : result string :=
  '(state, found) ← qualification_loop "EMPTY" false (summaries population source);
  fail_if (0 <? positiveFacts) && found && bool_decide (state = "EMPTY")
    with mkError "" "evidence is EMPTY despite positive attributable facts";
  if negb found then Ok "EMPTY" else Ok state.

Definition countNetwork (population : Population) (direction : string) : nat :=
  length (List.filter (fun access => bool_decide (nr_Direction access = direction)) (p_NetworkAccesses population)).

Definition proposalQualificationFromPopulation (population : Population) : result ProposalQualification :=
  filesystem ← populationSourceQualification population "filesystem" (length (p_FilesystemAccesses population));
  connect ← populationSourceQualification population "networkConnect" (countNetwork population "egress");
  bind ← populationSourceQualification population "networkBind" (countNetwork population "ingress");
  exec ← populationSourceQualification population "exec" 0;
  Ok (mkProposalQualification filesystem exec connect bind "").

(** [capabilities] of the derivation: the first occurrences, sorted. *)
Definition derived_capabilities (population : Population) : list string :=
  sort_strings (dedup (map cr_Name (p_CapabilityAccesses population))).

Definition DeriveContainerCapabilityProposal (generatedAt : string) (population : Population) : result Spec :=
  identity ← Population_Identity population;
  fail_if negb (bool_decide (pi_Scope identity = ScopeContainer))
    with mkError "" "container capability derivation requires CONTAINER scope";
  _ ← ValidateObservationMetadata population;
  fail_if length (p_CapabilityAccesses population) =? 0
    with mkError ErrNoCandidate "no attributable capability facts; candidate not available";
  capabilityQualification ← populationSourceQualification population "capabilities"
    (length (p_CapabilityAccesses population));
  fail_if bool_decide (capabilityQualification = "EMPTY")
    with mkError "" "capability facts are inconsistent with EMPTY evidence";
  let observationIDs := sort_strings (map oc_ObservationID (p_ObservationContributions population)) in
  fail_if 256 <? length observationIDs with mkError "" "proposal provenance exceeds 256 observation IDs";
  q ← proposalQualificationFromPopulation population;
  let spec := mkSpec CandidateVersionV2 "" "" generatedAt true None "" "" "" ""
    (Some (mkSubjectV2 CandidateV2ScopeContainer (pi_Target identity) (pi_Container identity)
             (pi_ImageIdentity identity)))
    (Some (mkArtifactV2 CandidateV2ArtifactContainerCaps
             (mkContainerCapabilitiesV2 ["ALL"] (derived_capabilities population))))
    (Some (mkProposalProvenance CandidateV2ScopeContainer observationIDs (deriveCapabilityAttribution population)))
    (Some (mkProposalQualification (q_Filesystem q) (q_Exec q) (q_NetworkConnect q) (q_NetworkBind q)
             capabilityQualification))
    (Some (mkProposalDerivationStatus derivationSupported derivationNotAvailable derivationNotAvailable
             derivationNotAvailable)) in
  _ ← ValidateProposalSpec spec;
  Ok spec.

(** ** Binary search *)
Definition sorted_strings (l : list string) : Prop := StronglySorted (not_above string_ltb) l.

Lemma sorted_lookup l i j x y :
  sorted_strings l → i ≤ j → l !! i = Some x → l !! j = Some y → string_ltb y x = false.
Proof.
  intros Hs. revert i j. induction Hs as [|z l Hs IH Hall]; intros [|i] [|j] Hij Hi Hj; try done; cbn in *; try lia.
  - simplify_eq. apply string_ltb_irrefl.
  - simplify_eq. rewrite Forall_forall in Hall. apply Hall. by apply list_elem_of_lookup_2 with j.
  - apply (IH i j); [lia|done..].
Qed.

Lemma search_strings_spec l target fuel i j :
  sorted_strings l → j - i ≤ fuel → i ≤ j ≤ length l →
  (∀ k x, k < i → l !! k = Some x → string_ltb x target = true) →
  (∀ k x, j ≤ k → l !! k = Some x → string_ltb x target = false) →
  let r := search_strings fuel l target i j in
  (∀ k x, k < r → l !! k = Some x → string_ltb x target = true) ∧
  (∀ k x, r ≤ k → l !! k = Some x → string_ltb x target = false).
Proof.
  intros Hs. revert i j. induction fuel as [|fuel IH]; intros i j Hf Hij Hlo Hhi; cbn [search_strings]; cbv zeta.
  - assert (i = j) as -> by lia. done.
  - destruct (Nat.ltb_spec i j) as [Hlt|Hge]; [|assert (i = j) as -> by lia; by split].
    assert (i ≤ (i + j) / 2 < j) as Hh.
    { split; [apply Nat.div_le_lower_bound; lia|apply Nat.Div0.div_lt_upper_bound; lia]. }
    set (h := (i + j) / 2) in *. clearbody h.
    destruct (lookup_lt_is_Some_2 l h) as [v Hv]; [lia|]. rewrite Hv.
    destruct (string_ltb v target) eqn:E; apply IH; try lia; try done.
    + intros k x Hk Hx. destruct (string_ltb x target) eqn:E'; [done|].
      pose proof (sorted_lookup l k h x v Hs ltac:(lia) Hx Hv) as Hvx.
      pose proof (less_negtrans (less := string_ltb) v x target Hvx E'). congruence.
    + intros k x Hk Hx. pose proof (sorted_lookup l h k v x Hs Hk Hv Hx) as Hxv.
      by apply (less_negtrans (less := string_ltb) x v target).
Qed.

(** Membership in a sorted list. *)
Lemma containsSortedString_spec l target :
  sorted_strings l → containsSortedString l target = true ↔ target ∈ l.
Proof.
  intros Hs. unfold containsSortedString.
  destruct (search_strings_spec l target (length l) 0 (length l) Hs) as [Hlo Hhi]; [lia|lia| | |].
  { intros k x Hk. lia. }
  { intros k x Hk Hx%lookup_lt_Some. lia. }
  cbv zeta in Hlo, Hhi. set (r := search_strings _ _ _ _ _) in *. clearbody r.
  rewrite andb_true_iff, bool_decide_eq_true, Nat.ltb_lt. split.
  - intros [_ Hr]. by apply list_elem_of_lookup_2 with r.
  - intros (k & Hk)%list_elem_of_lookup_1.
    assert (r ≤ k) as Hrk.
    { destruct (decide (k < r)) as [Hkr|]; [|lia]. pose proof (Hlo k target Hkr Hk) as Hb.
      by rewrite string_ltb_irrefl in Hb. }
    pose proof (lookup_lt_Some _ _ _ Hk). split; [lia|].
    destruct (lookup_lt_is_Some_2 l r) as [v Hv]; [lia|]. rewrite Hv. f_equal.
    apply (less_total (less := string_ltb)); [by apply (Hhi r)|].
    by apply (sorted_lookup l r k v target Hs Hrk).
Qed.

Lemma unique_from_dedup p l :
  sorted_strings (p :: l) → unique_from p l = dedup_go [p] l.
Proof.
  assert (∀ seen q k, sorted_strings (q :: k) → q ∈ seen → (∀ x, x ∈ seen → string_ltb q x = false) →
    unique_from q k = dedup_go seen k) as Hgen.
  { intros seen q k. revert seen q. induction k as [|y k IH]; intros seen q Hs Hq Hle; cbn; [done|].
    inversion Hs as [|?? Hs' Hall]; subst. inversion Hall as [|?? Hqy _]; subst.
    destruct (decide (y = q)) as [->|Hne].
    - rewrite !bool_decide_eq_true_2 by done. by apply IH.
    - rewrite bool_decide_eq_false_2 by done. rewrite bool_decide_eq_false_2.
      + f_equal. apply IH; [done|left|].
        intros x [->|Hx]%elem_of_cons; [apply string_ltb_irrefl|].
        apply (less_negtrans (less := string_ltb) y q x); [done|by apply Hle].
      + intros Hy. apply Hne. apply (less_total (less := string_ltb)); [exact Hqy|by apply Hle]. }
  intros Hs. apply Hgen; [done|left|]. intros x ->%list_elem_of_singleton. apply string_ltb_irrefl.
Qed.

(** Compacting the sorted names is sorting the distinct names. *)
Lemma uniqueStrings_sort l : uniqueStrings (sort_strings l) = sort_strings (dedup l).
Proof.
  assert (sorted_strings (sort_strings l)) as Hs by apply sort_by_sorted, _.
  assert (uniqueStrings (sort_strings l) = dedup (sort_strings l)) as ->.
  { destruct (sort_strings l) as [|v k]; [done|]. cbn. unfold dedup. cbn.
    rewrite bool_decide_eq_false_2 by apply not_elem_of_nil. by rewrite unique_from_dedup. }
  apply sorted_strings_unique; [|apply sort_by_sorted, _|].
  - clear -Hs. unfold dedup. generalize (@nil string). induction Hs as [|x k Hs IH Hall]; intros seen; cbn; [constructor|].
    case_bool_decide; [apply IH|]. constructor; [apply IH|].
    apply Forall_forall. intros y [Hy _]%elem_of_dedup_go. rewrite Forall_forall in Hall. by apply Hall.
  - apply NoDup_same_perm; [apply NoDup_dedup|apply NoDup_sort_by, NoDup_dedup|].
    intros x. rewrite elem_of_dedup, !elem_of_sort_by, elem_of_dedup. done.
Qed.

(** ** Attribution *)
Lemma canonical_facts_sorted prev l :
  canonical_facts prev l = true →
  sorted_strings l ∧ (∀ p x, prev = Some p → x ∈ l → string_ltb p x = true).
Proof.
  revert prev. induction l as [|c l IH]; intros prev; cbn.
  - intros _. split; [constructor|]. intros p x _ Hx. by apply elem_of_nil in Hx.
  - intros [[_ Hp]%andb_true_iff Hl]%andb_true_iff. destruct (IH (Some c) Hl) as [Hs Hlt]. split.
    + constructor; [done|]. apply Forall_forall. intros x Hx. unfold not_above.
      apply (less_asym (less := string_ltb)). by apply (Hlt c).
    + intros p x -> [->|Hx]%elem_of_cons; [done|]. specialize (Hlt c x eq_refl Hx).
      destruct (string_ltb p x) eqn:E; [done|].
      pose proof (less_asym (less := string_ltb) _ _ Hlt) as Hxc.
      by rewrite (less_negtrans (less := string_ltb) p x c E Hxc) in Hp.
Qed.

Lemma valid_facts_sorted p c :
  ValidateObservationMetadata p = Ok () → c ∈ p_ObservationContributions p → sorted_strings (oc_CapabilityFacts c).
Proof.
  unfold ValidateObservationMetadata. intros H Hc. inv_ok.
  match goal with H : validate_contributions _ _ = Ok _ |- _ => apply validate_contributions_Ok in H as Hv end.
  rewrite Forall_forall in Hv. specialize (Hv c Hc). unfold ObservationContribution_Validate in Hv. inv_ok.
  match goal with H : negb (canonical_facts _ _) = false |- _ => apply negb_false_iff in H; by apply canonical_facts_sorted in H as [? _] end.
Qed.

(** Attribution is exact.  For a population with valid metadata there is one
    entry per distinct capability, in order; an entry lists exactly the
    observations whose facts contain the capability (found by binary search);
    it claims ATTRIBUTED only when every contribution is complete and at least
    one contains it. *)
Theorem deriveCapabilityAttribution_exact p :
  ValidateObservationMetadata p = Ok () →
  map Proposal.ca_Capability (deriveCapabilityAttribution p) = derived_capabilities p ∧
  ∀ e, e ∈ deriveCapabilityAttribution p →
    (∀ id, id ∈ ca_ObservationIDs e ↔
       ∃ c, c ∈ p_ObservationContributions p ∧ oc_ObservationID c = id ∧ ca_Capability e ∈ oc_CapabilityFacts c) ∧
    (ca_State e = CapabilityAttributionKnown ↔
       (∀ c, c ∈ p_ObservationContributions p → oc_CapabilityFactsComplete c = true) ∧
       ∃ c, c ∈ p_ObservationContributions p ∧ ca_Capability e ∈ oc_CapabilityFacts c).
Proof.
  intros Hv. unfold deriveCapabilityAttribution. cbv zeta. split.
  { rewrite map_map. cbn. rewrite map_id. apply uniqueStrings_sort. }
  intros e (cap & -> & _)%list_elem_of_fmap. cbn [Proposal.ca_Capability ca_State ca_ObservationIDs].
  set (ids := map oc_ObservationID _).
  assert (∀ id, id ∈ ids ↔ ∃ c, c ∈ p_ObservationContributions p ∧ oc_ObservationID c = id ∧ cap ∈ oc_CapabilityFacts c)
    as Hids.
  { intros id. unfold ids. rewrite list_elem_of_fmap. setoid_rewrite list_elem_of_In.
    setoid_rewrite filter_In. setoid_rewrite <- list_elem_of_In. split.
    - intros (c & -> & Hc & Hin). exists c. split; [done|]. split; [done|].
      by apply containsSortedString_spec in Hin; [|by apply (valid_facts_sorted p)].
    - intros (c & Hc & <- & Hin). exists c. split; [done|]. split; [done|].
      apply containsSortedString_spec; [by apply (valid_facts_sorted p)|done]. }
  split; [done|]. clearbody ids.
  assert (length ids = 0 ↔ ¬ ∃ c, c ∈ p_ObservationContributions p ∧ cap ∈ oc_CapabilityFacts c) as Hlen.
  { split.
    - intros ->%nil_length_inv (c & Hc & Hin). apply (elem_of_nil (oc_ObservationID c)). apply Hids. eauto.
    - intros Hn. destruct ids as [|id ids]; [done|]. exfalso. apply Hn.
      destruct (proj1 (Hids id)) as (c & Hc & _ & Hin); [left|]. eauto. }
  assert (forallb oc_CapabilityFactsComplete (p_ObservationContributions p) = true ↔
    ∀ c, c ∈ p_ObservationContributions p → oc_CapabilityFactsComplete c = true) as Hall.
  { rewrite forallb_forall. by setoid_rewrite list_elem_of_In. }
  destruct (Nat.eqb_spec (length ids) 0) as [E|E].
  - rewrite orb_true_r. split; [done|]. intros [_ Hex]. by apply Hlen in E.
  - rewrite orb_false_r.
    assert (∃ c, c ∈ p_ObservationContributions p ∧ cap ∈ oc_CapabilityFacts c) as Hex.
    { destruct ids as [|id ids]; [done|]. destruct (proj1 (Hids id)) as (c & Hc & _ & Hin); [left|]. eauto. }
    assert ((0 <? length (p_ObservationContributions p)) = true) as ->.
    { destruct Hex as (c & Hc & _). destruct (p_ObservationContributions p); [by apply elem_of_nil in Hc|done]. }
    rewrite andb_true_l. destruct (forallb _ _) eqn:Ef; cbn [negb].
    + split; [intros _; split; [by apply Hall|done]|done].
    + split; [done|]. intros [Hc _]. apply Hall in Hc. congruence.
Qed.

Definition ex_summary (source evidence : string) : ObservationSourceContribution :=
  mkObservationSourceContribution source evidence "COMPLETED" true true true 2 0 1.
Definition ex_contribution (id evidence : string) (caps : list string) : ObservationContribution :=
  mkObservationContribution id [ex_summary "capabilities" evidence] caps false.
Definition ex_population (first second : string) : Population :=
  mkPopulation true ScopeContainer None "Deployment/web" "app" "sha256:00" "" 2 [] [] [] []
    [mkCapabilityAccessRecord "CAP_KILL" 2]
    [ex_contribution "o1" first ["CAP_KILL"]; ex_contribution "o2" second ["CAP_KILL"]] [].

Lemma deriveCapabilityAttribution_exact_witness :
  map Proposal.ca_Capability (deriveCapabilityAttribution (ex_population "AVAILABLE" "UNKNOWN")) = ["CAP_KILL"].
Proof.
  assert (derived_capabilities (ex_population "AVAILABLE" "UNKNOWN") = ["CAP_KILL"]) as <- by (vm_compute; reflexivity).
  apply (deriveCapabilityAttribution_exact (ex_population "AVAILABLE" "UNKNOWN")). vm_compute. reflexivity.
Defined.

(** ** Evidence qualification *)
Lemma qualification_loop_spec l state found :
  Forall (fun s => validEvidence (os_EvidenceState s) = true) l →
  state = "EMPTY" ∨ state = "AVAILABLE" ∨ state = "UNKNOWN" →
  let states := map os_EvidenceState l in
  match qualification_loop state found l with
  | Ok (state', found') =>
      (state = "UNKNOWN" → "AVAILABLE" ∉ states) ∧
      (∀ l1 l2, states = l1 ++ "UNKNOWN" :: l2 → "AVAILABLE" ∉ l2) ∧
      found' = found || negb (length l =? 0) ∧
      state' = if bool_decide (state = "UNKNOWN" ∨ "UNKNOWN" ∈ states) then "UNKNOWN"
               else if bool_decide (state = "AVAILABLE" ∨ "AVAILABLE" ∈ states) then "AVAILABLE" else "EMPTY"
  | Err _ =>
      (state = "UNKNOWN" ∧ "AVAILABLE" ∈ states) ∨
      ∃ l1 l2, states = l1 ++ "UNKNOWN" :: l2 ∧ "AVAILABLE" ∈ l2
  end.
Proof.
  intros Hv. revert state found. induction Hv as [|s l Hs Hv IH]; intros state found Hst; cbn [qualification_loop map].
  - cbv zeta. split; [intros _; apply not_elem_of_nil|]. split; [by intros [|??] ?|].
    split; [by rewrite orb_false_r|].
    destruct Hst as [->|[->| ->]]; repeat case_bool_decide; try done; exfalso;
      repeat match goal with H : _ ∨ _ |- _ => destruct H end; try discriminate;
      match goal with H : _ ∈ [] |- _ => by apply elem_of_nil in H | H : ¬ _ |- _ => apply H; by left end.
  - cbv zeta. unfold validEvidence in Hs. apply bool_decide_eq_true in Hs. set (e := os_EvidenceState s) in *. clearbody e.
    assert (∀ x (k : list string), e ≠ x → x ∈ e :: k ↔ x ∈ k) as Hskip by (intros; rewrite elem_of_cons; naive_solver).
    assert (∀ l1 l2, e ≠ "UNKNOWN" → e :: map os_EvidenceState l = l1 ++ "UNKNOWN" :: l2 →
      ∃ l1', map os_EvidenceState l = l1' ++ "UNKNOWN" :: l2) as Hcons.
    { intros [|y l1] l2 Hne [= -> E]; [done|]. by exists l1. }
    destruct (decide (e = "UNKNOWN")) as [->|HU].
    { rewrite bool_decide_eq_true_2 by done. specialize (IH "UNKNOWN" true (or_intror (or_intror eq_refl))). cbv zeta in IH.
      destruct (qualification_loop _ _ l) as [[st' f']|].
      - destruct IH as (I1 & I2 & I3 & I4). split; [|split; [|split]].
        + intros _. rewrite Hskip by done. by apply I1.
        + intros [|y l1] l2 E; [injection E as <-; by apply I1|injection E as _ E; by apply (I2 l1)].
        + rewrite I3. by destruct found.
        + rewrite I4. rewrite (bool_decide_eq_true_2 ("UNKNOWN" = "UNKNOWN" ∨ _)) by by left.
          by rewrite bool_decide_eq_true_2 by (right; left).
      - right. destruct IH as [[_ Ha]|(l1 & l2 & -> & Ha)]; [by exists [], (map os_EvidenceState l)|].
        by exists ("UNKNOWN" :: l1), l2. }
    rewrite bool_decide_eq_false_2 by done.
    destruct (decide (e = "AVAILABLE")) as [->|HA].
    { rewrite (bool_decide_eq_true_2 ("AVAILABLE" = "AVAILABLE")) by done. cbn [andb].
      destruct (decide (state = "UNKNOWN")) as [->|Hne].
      { rewrite bool_decide_eq_true_2 by done. cbn. left. split; [done|left]. }
      rewrite bool_decide_eq_false_2 by done. cbn [negb].
      specialize (IH "AVAILABLE" true (or_intror (or_introl eq_refl))). cbv zeta in IH.
      destruct (qualification_loop _ _ l) as [[st' f']|].
      - destruct IH as (I1 & I2 & I3 & I4). split; [done|]. split; [|split].
        + intros l1 l2 E. destruct (Hcons _ _ HU E) as (l1' & E'). by apply (I2 l1').
        + rewrite I3. by destruct found.
        + rewrite I4. rewrite (bool_decide_ext ("AVAILABLE" = "UNKNOWN" ∨ _)
            (state = "UNKNOWN" ∨ "UNKNOWN" ∈ "AVAILABLE" :: map os_EvidenceState l)) by (rewrite Hskip by done; naive_solver).
          rewrite (bool_decide_eq_true_2 ("AVAILABLE" = "AVAILABLE" ∨ _)) by by left.
          by rewrite (bool_decide_eq_true_2 (state = "AVAILABLE" ∨ _)) by (right; left).
      - right. destruct IH as [[? _]|(l1 & l2 & -> & Ha)]; [done|]. by exists ("AVAILABLE" :: l1), l2. }
    rewrite bool_decide_eq_false_2 by done. cbn [andb].
    assert (e = "EMPTY") as -> by (rewrite !elem_of_cons, elem_of_nil in Hs; naive_solver).
    rewrite bool_decide_eq_true_2 by done. cbn [negb].
    specialize (IH state true Hst). cbv zeta in IH. destruct (qualification_loop _ _ l) as [[st' f']|].
    + destruct IH as (I1 & I2 & I3 & I4). split; [|split; [|split]].
      * intros E. rewrite Hskip by done. by apply I1.
      * intros l1 l2 E. destruct (Hcons _ _ HU E) as (l1' & E'). by apply (I2 l1').
      * rewrite I3. by destruct found.
      * rewrite I4. rewrite (bool_decide_ext (state = "UNKNOWN" ∨ "UNKNOWN" ∈ "EMPTY" :: _)
          (state = "UNKNOWN" ∨ "UNKNOWN" ∈ map os_EvidenceState l)) by (by rewrite Hskip).
        rewrite (bool_decide_ext (state = "AVAILABLE" ∨ "AVAILABLE" ∈ "EMPTY" :: _)
          (state = "AVAILABLE" ∨ "AVAILABLE" ∈ map os_EvidenceState l)) by (by rewrite Hskip). done.
    + destruct IH as [[? Ha]|(l1 & l2 & -> & Ha)]; [left; split; [done|by right]|right; by exists ("EMPTY" :: l1), l2].
Qed.

Lemma validate_summaries_Ok seen l :
  validate_summaries seen l = Ok () → Forall (fun s => ObservationSourceContribution_Validate s = Ok ()) l.
Proof.
  revert seen. induction l as [|s l IH]; intros seen; cbn; [constructor|].
  intros H. inv_ok. constructor; [by destruct x|by eapply IH].
Qed.

Lemma summaries_valid p source :
  ValidateObservationMetadata p = Ok () →
  Forall (fun s => validEvidence (os_EvidenceState s) = true) (summaries p source).
Proof.
  unfold ValidateObservationMetadata. intros H. inv_ok.
  match goal with H : validate_contributions _ _ = Ok _ |- _ => apply validate_contributions_Ok in H as Hv end.
  apply Forall_forall. intros s Hs. unfold summaries in Hs. rewrite list_elem_of_In, in_flat_map in Hs.
  destruct Hs as (c & Hc & Hin). apply list_elem_of_In in Hc. apply filter_In in Hin as [Hin _].
  apply list_elem_of_In in Hin.
  rewrite Forall_forall in Hv. specialize (Hv c Hc). unfold ObservationContribution_Validate in Hv.
  apply result_guard_Ok in Hv as [_ Hv]. apply result_bind_Ok in Hv as ([] & Hv & _).
  apply validate_summaries_Ok in Hv. rewrite Forall_forall in Hv. specialize (Hv s Hin).
  unfold ObservationSourceContribution_Validate in Hv. inv_ok. bool_simpl. done.
Qed.

(** The evidence qualification of a source over valid metadata is the
    weakest evidence any observation left (UNKNOWN, else AVAILABLE, else EMPTY),
    but only when no AVAILABLE summary follows an UNKNOWN one in observation
    order: in that order the derivation fails, as it does for facts without
    evidence. *)
Theorem populationSourceQualification_spec p source n :
  ValidateObservationMetadata p = Ok () →
  let states := map os_EvidenceState (summaries p source) in
  match populationSourceQualification p source n with
  | Ok state =>
      (∀ l1 l2, states = l1 ++ "UNKNOWN" :: l2 → "AVAILABLE" ∉ l2) ∧
      state = if bool_decide ("UNKNOWN" ∈ states) then "UNKNOWN"
              else if bool_decide ("AVAILABLE" ∈ states) then "AVAILABLE" else "EMPTY"
  | Err _ =>
      (∃ l1 l2, states = l1 ++ "UNKNOWN" :: l2 ∧ "AVAILABLE" ∈ l2) ∨
      (0 < n ∧ states ≠ [] ∧ ∀ s, s ∈ states → s = "EMPTY")
  end.
Proof.
  intros Hv states. pose proof (summaries_valid p source Hv) as Hs.
  pose proof (qualification_loop_spec _ "EMPTY" false Hs (or_introl eq_refl)) as H. cbv zeta in H.
  unfold populationSourceQualification. fold states in H.
  destruct (qualification_loop _ _ _) as [[state found]|]; cbn [mbind result_bind].
  2: { destruct H as [[? _]|H]; [done|by left]. }
  destruct H as (_ & Hord & -> & ->). cbn [orb].
  rewrite (bool_decide_ext ("EMPTY" = "UNKNOWN" ∨ _) ("UNKNOWN" ∈ states)) by naive_solver.
  rewrite (bool_decide_ext ("EMPTY" = "AVAILABLE" ∨ _) ("AVAILABLE" ∈ states)) by naive_solver.
  assert (length (summaries p source) = length states) as -> by (unfold states; by rewrite length_map).
  assert (∀ s, s ∈ states → s = "EMPTY" ∨ s = "AVAILABLE" ∨ s = "UNKNOWN") as Hst.
  { intros s (x & -> & Hx)%list_elem_of_fmap. rewrite Forall_forall in Hs. specialize (Hs x Hx).
    apply bool_decide_eq_true in Hs. rewrite !elem_of_cons, elem_of_nil in Hs.
    destruct Hs as [?|[?|[?|[]]]]; tauto. }
  clearbody states. destruct states as [|s0 states].
  { rewrite andb_false_r. cbn [length Nat.eqb negb]. split; [done|].
    rewrite !bool_decide_eq_false_2 by apply not_elem_of_nil. done. }
  cbn [length Nat.eqb negb]. rewrite andb_true_r.
  destruct (Nat.ltb_spec 0 n) as [Hn|Hn]; cbn [andb]; [|done].
  case_bool_decide as E; [right|done]. split; [done|]. split; [done|]. intros s Hin.
  case_bool_decide as EU; [done|]. case_bool_decide as EA; [done|].
  destruct (Hst s Hin) as [?|[->| ->]]; done.
Qed.

Lemma populationSourceQualification_spec_witness :
  populationSourceQualification (ex_population "AVAILABLE" "UNKNOWN") "capabilities" 1 = Ok "UNKNOWN" ∧
  (∀ l1 l2, ["AVAILABLE"; "UNKNOWN"] = l1 ++ "UNKNOWN" :: l2 → "AVAILABLE" ∉ l2).
Proof.
  split; [vm_compute; reflexivity|].
  refine (proj1 (populationSourceQualification_spec (ex_population "AVAILABLE" "UNKNOWN") "capabilities" 1 _)).
  vm_compute. reflexivity.
Defined.

(** The same two observations, in the two orders. *)
Example qualification_depends_on_order :
  populationSourceQualification (ex_population "AVAILABLE" "UNKNOWN") "capabilities" 1 = Ok "UNKNOWN" ∧
  populationSourceQualification (ex_population "UNKNOWN" "AVAILABLE") "capabilities" 1 = failwith "invalid evidence state" ∧
  ValidateObservationMetadata (ex_population "UNKNOWN" "AVAILABLE") = Ok ().
Proof. vm_compute. done. Qed.

(** A derived proposal is a valid candidate-v2 specification for exactly the
    population: its subject, all and only its capabilities once each in order,
    all and only its observations, and the qualification of each source. *)
Theorem DeriveContainerCapabilityProposal_sound t p spec :
  DeriveContainerCapabilityProposal t p = Ok spec →
  ValidateProposalSpec spec = Ok () ∧ p_Scope p = ScopeContainer ∧
  sp_Subject spec = Some (mkSubjectV2 CandidateV2ScopeContainer (p_Target p) (p_Container p) (p_ImageIdentity p)) ∧
  ∃ artifact provenance q,
    sp_CapabilityArtifact spec = Some artifact ∧ sp_Provenance spec = Some provenance ∧ sp_Qualification spec = Some q ∧
    StronglySorted (not_above string_ltb) (cc_Add (art_ContainerCapabilities artifact)) ∧
    NoDup (cc_Add (art_ContainerCapabilities artifact)) ∧
    (∀ name, name ∈ cc_Add (art_ContainerCapabilities artifact) ↔ name ∈ map cr_Name (p_CapabilityAccesses p)) ∧
    pp_ObservationIDs provenance ≡ₚ map oc_ObservationID (p_ObservationContributions p) ∧
    map Proposal.ca_Capability (pp_CapabilityAttribution provenance) = cc_Add (art_ContainerCapabilities artifact) ∧
    populationSourceQualification p "capabilities" (length (p_CapabilityAccesses p)) = Ok (q_Capabilities q) ∧
    q_Capabilities q ≠ "EMPTY" ∧
    populationSourceQualification p "filesystem" (length (p_FilesystemAccesses p)) = Ok (q_Filesystem q).
Proof.
  unfold DeriveContainerCapabilityProposal. intros H.
  apply result_bind_Ok in H as (identity & Hi & H). apply result_guard_Ok in H as [Hsc H].
  apply result_bind_Ok in H as ([] & Hv & H). apply result_guard_Ok in H as [_ H].
  apply result_bind_Ok in H as (cq & Hcq & H). apply result_guard_Ok in H as [Hce H].
  apply result_guard_Ok in H as [_ H]. apply result_bind_Ok in H as (q & Hq & H). cbv zeta in H.
  apply result_bind_Ok in H as ([] & Hspec & <-%Ok_inj).
  unfold Population_Identity in Hi. apply result_bind_Ok in Hi as (_ & _ & <-%Ok_inj). bool_simpl. cbn in Hsc.
  split; [exact Hspec|]. split; [done|]. split; [done|]. eexists _, _, _. do 3 (split; [reflexivity|]).
  cbn [cc_Add art_ContainerCapabilities pp_ObservationIDs pp_CapabilityAttribution q_Capabilities q_Filesystem].
  split; [apply sort_by_sorted, _|]. split; [apply NoDup_sort_by, NoDup_dedup|].
  split; [intros name; unfold derived_capabilities; by rewrite elem_of_sort_by, elem_of_dedup|].
  split; [apply sort_by_perm|]. split.
  { unfold deriveCapabilityAttribution. cbv zeta. rewrite map_map. cbn. rewrite map_id. apply uniqueStrings_sort. }
  split; [done|]. split; [done|].
  unfold proposalQualificationFromPopulation in Hq. apply result_bind_Ok in Hq as (f & Hf & Hq). rewrite Hf.
  inv_ok. done.
Qed.

Lemma DeriveContainerCapabilityProposal_sound_witness :
  p_Scope (ex_population "AVAILABLE" "UNKNOWN") = ScopeContainer.
Proof.
  destruct (DeriveContainerCapabilityProposal "2024-01-01T00:00:00Z" (ex_population "AVAILABLE" "UNKNOWN")) as [spec|] eqn:E;
    [|vm_compute in E; discriminate].
  exact (proj1 (proj2 (DeriveContainerCapabilityProposal_sound "2024-01-01T00:00:00Z" (ex_population "AVAILABLE" "UNKNOWN") spec E))).
Defined.
