(* ===== verification/ProposalStore.v ===== *)
(** * internal/proposal/store.go

    The proposal store over the API server interface of [Kube]: publication
    with convergence after a write race, the review and approval transitions,
    and the verification history. *)
From S2P Require Import Prelude GoStd Digest Kube Target Proposal.

Definition ErrProposalPersistenceConflict : string := "proposal persistence conflict".

Definition no_status : Status := mkStatus "" "" "" "" "" "" "" "" "" None [].
Definition draft_status : Status := mkStatus ApprovalDraft "" "" "" "" "" "" "" "" None [].

(** The [SecurityProfileProposal] object. *)
Abbreviation Proposal := (KObject Spec Status).

Definition statusFromObject (obj : Proposal) : result Status :=
  match o_Status obj with
  | None => Ok draft_status
  | Some s =>
      _ ← ApprovalSnapshot_Validate (st_LastApprovalSnapshot s);
      if empty (st_ApprovalState s) then
        Ok (mkStatus ApprovalDraft (st_ReviewedBy s) (st_ApprovedBy s) (st_RejectedBy s) (st_Reason s)
              (st_UpdatedAt s) (st_ApprovedCandidateDigest s) (st_ApprovedReviewContextDigest s)
              (st_ApprovalMechanismVersion s) (st_LastApprovalSnapshot s) (st_BehavioralVerifications s))
      else Ok s
  end.

Definition proposalSpecFromObject (obj : option Proposal) : result Spec :=
  match obj with
  | None => failwith "SecurityProfileProposal is nil"
  | Some obj =>
      match o_Spec obj with
      | None => failwith "SecurityProfileProposal has no spec"
      | Some spec => _ ← ValidateProposalSpec spec; Ok spec
      end
  end.

(** The persisted map with the version normalised and [generatedAt] deleted. *)
Definition comparable (spec : Spec) : result Spec :=
  version ← normalizedCandidateVersion (sp_CandidateVersion spec);
  Ok (mkSpec version (sp_Container spec) (sp_Binary spec) "" (sp_HistoryUsed spec) (sp_TargetBinding spec)
        (sp_PodLock spec) (sp_NetworkPolicy spec) (sp_PatchedManifest spec) (sp_SPOSeccompProfile spec)
        (sp_Subject spec) (sp_CapabilityArtifact spec) (sp_Provenance spec) (sp_Qualification spec)
        (sp_DerivationStatus spec)).

Definition proposalSpecsEquivalent (left right : Spec) : result bool :=
  l ← comparable left; r ← comparable right; Ok (bool_decide (l = r)).

(** [time.RFC3339]: whole seconds. *)
Definition format_rfc3339 (t : time) : string := format_rfc3339nano (t - t mod 1000000000)%Z.

Definition stamped (status : Status) (now : time) : Status :=
  mkStatus (st_ApprovalState status) (st_ReviewedBy status) (st_ApprovedBy status) (st_RejectedBy status)
    (st_Reason status) (format_rfc3339 now) (st_ApprovedCandidateDigest status)
    (st_ApprovedReviewContextDigest status) (st_ApprovalMechanismVersion status)
    (st_LastApprovalSnapshot status) (st_BehavioralVerifications status).

Section store.
Context {W : Type} `{!Api W Spec Status}.

Definition setStatus (obj : Proposal) (status : Status) : M W unit :=
  now <- api_now ;!
  do api_update_status (mkObject (o_Name obj) (o_UID obj) (o_ResourceVersion obj) (o_Spec obj)
                          (Some (stamped status now))) ;!
  m_ret ().

Definition convergeAfterProposalWriteRace (name : string) (desired : Spec) (cause : error) : M W unit :=
  fresh <- api_get name ;!
  actual <- m_lift (proposalSpecFromObject (Some fresh)) ;!
  equivalent <- m_lift (proposalSpecsEquivalent desired actual) ;!
  if equivalent then m_ret () else m_err (mkError ErrProposalPersistenceConflict (err_msg cause)).

Definition validTargetBinding (spec : Spec) : result unit :=
  match sp_TargetBinding spec with
  | Some b => _ ← CanonicalTargetBinding_GovernedTarget b (sp_Container spec); Ok ()
  | None => Ok ()
  end.

Definition Save (name : string) (spec : Spec) : M W unit :=
  do m_lift (ValidateProposalSpec spec) ;!
  do m_lift (validTargetBinding spec) ;!
  m_try (api_get name) (fun existing =>
    match existing with
    | Err e =>
        if IsNotFound e then
          m_try (api_create (mkObject name "" "" (Some spec) None)) (fun created =>
            match created with
            | Err e => if IsAlreadyExists e then convergeAfterProposalWriteRace name spec e else m_err e
            | Ok created => setStatus created draft_status
            end)
        else m_err e
    | Ok existing =>
        m_try (api_update (mkObject name (o_UID existing) (o_ResourceVersion existing) (Some spec)
                             (o_Status existing))) (fun updated =>
          match updated with
          | Err e => if IsConflict e then convergeAfterProposalWriteRace name spec e else m_err e
          | Ok _ => m_ret ()
          end)
    end).

Definition Get (name : string) : M W (option Spec) :=
  m_try (api_get name) (fun obj =>
    match obj with
    | Err e => if IsNotFound e then m_ret None else m_err e
    | Ok obj =>
        match o_Spec obj with
        | None => m_ret (Some (mkSpec "" "" "" "" false None "" "" "" "" None None None None None))
        | Some spec => do m_lift (ValidateProposalSpec spec) ;! m_ret (Some spec)
        end
    end).

Definition GetStatusWithResourceVersion (name : string) : M W (option Status * string) :=
  m_try (api_get name) (fun obj =>
    match obj with
    | Err e => if IsNotFound e then m_ret (None, "") else m_err e
    | Ok obj => status <- m_lift (statusFromObject obj) ;! m_ret (Some status, o_ResourceVersion obj)
    end).

(** Spec, UID and resource version; absent when there is no object. *)
Definition GetWithIdentityAndResourceVersion (name : string) : M W (option Spec * string * string) :=
  m_try (api_get name) (fun obj =>
    match obj with
    | Err e => if IsNotFound e then m_ret (None, "", "") else m_err e
    | Ok obj =>
        match o_Spec obj with
        | None => m_err (mkError "" "securityprofileproposal has no spec")
        | Some spec => do m_lift (ValidateProposalSpec spec) ;! m_ret (Some spec, o_UID obj, o_ResourceVersion obj)
        end
    end).

Definition AppendSeccompVerification (ValidateForPersistence : Fact → result unit)
  (namespace name expectedResourceVersion : string) (fact : Fact) : M W unit :=
  guard empty expectedResourceVersion || empty namespace || empty name
    with mkError "" "incomplete verification persistence request" ;!
  do m_lift (ValidateForPersistence fact) ;!
  obj <- api_get name ;!
  guard negb (bool_decide (o_ResourceVersion obj = expectedResourceVersion))
    with mkError ErrProposalPersistenceConflict "" ;!
  match o_Spec obj with
  | None => m_err (mkError "" "proposal spec unavailable")
  | Some spec =>
      status <- m_lift (statusFromObject obj) ;!
      guard negb (bool_decide (st_ApprovalState status = ApprovalApproved)) ||
            negb (bool_decide (st_ApprovedCandidateDigest status = f_CandidateDigest fact)) ||
            negb (bool_decide (o_UID obj = f_ProposalUID fact)) ||
            negb (bool_decide (f_Namespace fact = namespace))
        with mkError "" "proposal approval or identity changed during verification" ;!
      do m_lift (ValidateApprovedCandidate (Some spec) (Some status)) ;!
      guard existsb (fun existing => bool_decide (f_AttemptID existing = f_AttemptID fact))
              (st_BehavioralVerifications status)
        with mkError "" "verification attempt already persisted" ;!
      guard 256 <=? length (st_BehavioralVerifications status)
        with mkError "" "verification history capacity reached; preserving existing evidence" ;!
      setStatus obj (mkStatus (st_ApprovalState status) (st_ReviewedBy status) (st_ApprovedBy status)
        (st_RejectedBy status) (st_Reason status) (st_UpdatedAt status) (st_ApprovedCandidateDigest status)
        (st_ApprovedReviewContextDigest status) (st_ApprovalMechanismVersion status)
        (st_LastApprovalSnapshot status) (st_BehavioralVerifications status ++ [fact]))
  end.

Definition markReviewedAttempt (name actor expectedResourceVersion : string) : M W unit :=
  obj <- api_get name ;!
  guard negb (empty expectedResourceVersion) && negb (bool_decide (o_ResourceVersion obj = expectedResourceVersion))
    with mkError ErrProposalPersistenceConflict "expected resourceVersion" ;!
  current <- m_lift (statusFromObject obj) ;!
  if negb (bool_decide (st_ApprovalState current = ApprovalDraft)) then m_ret ()
  else setStatus obj (mkStatus ApprovalReviewed actor (st_ApprovedBy current) (st_RejectedBy current)
                        "" "" "" "" "" None []).

Definition MarkReviewedByVersion (name actor expectedResourceVersion : string) : M W unit :=
  api_retry (markReviewedAttempt name actor expectedResourceVersion).

(** The digests a decision recomputes over the current specification: the
    candidate digest and, for v2, the review context digest. *)
Definition computedDigests (spec : Spec) : result (string * string * string) :=
  version ← normalizedCandidateVersion (sp_CandidateVersion spec);
  if bool_decide (version = CandidateVersionV2) then
    candidate ← candidateV2 spec;
    computed ← CandidateDigestV2 candidate;
    reviewContext ← reviewContextV2 spec;
    reviewDigest ← ReviewContextDigestV2 reviewContext;
    Ok (version, computed, reviewDigest)
  else computed ← CandidateDigest spec; Ok (version, computed, "").

Definition setApprovalAttempt (name : string) (state : ApprovalState) (reason expectedCandidateDigest actor
  expectedResourceVersion : string) : M W unit :=
  m_try (api_get name) (fun got =>
  match got with
  | Err e => if IsNotFound e then m_err (mkError "" "securityprofileproposal not found") else m_err e
  | Ok obj =>
  guard negb (empty expectedResourceVersion) && negb (bool_decide (o_ResourceVersion obj = expectedResourceVersion))
    with mkError ErrProposalPersistenceConflict "expected resourceVersion" ;!
  currentStatus <- m_lift (statusFromObject obj) ;!
  if bool_decide (state = ApprovalApproved) then
    guard empty expectedCandidateDigest with mkError "" "approving requires expectedCandidateDigest" ;!
    match o_Spec obj with
    | None => m_err (mkError "" "securityprofileproposal has no spec")
    | Some spec =>
        digests <- m_lift (computedDigests spec) ;!
        let '(version, computed, reviewDigest) := digests in
        do m_lift (ValidateCandidateDigest expectedCandidateDigest) ;!
        guard negb (bool_decide (expectedCandidateDigest = computed))
          with mkError "" "expected candidate digest mismatch" ;!
        guard bool_decide (version = CandidateVersionV2) && empty (o_UID obj)
          with mkError "" "candidate-v2 approval requires Proposal UID-bound custody" ;!
        now <- api_now ;!
        let snapshot := if empty (o_UID obj) then None
          else Some (mkApprovalSnapshot (o_UID obj) version computed reviewDigest (format_rfc3339nano now)) in
        setStatus obj (mkStatus state (st_ReviewedBy currentStatus) actor (st_RejectedBy currentStatus) reason ""
          computed reviewDigest version snapshot [])
    end
  else
    setStatus obj (mkStatus state (st_ReviewedBy currentStatus) (st_ApprovedBy currentStatus) actor reason ""
      "" "" "" (st_LastApprovalSnapshot currentStatus) [])
  end).

Definition SetApprovalStateByVersion (name : string) (state : ApprovalState) (reason expectedCandidateDigest actor
  expectedResourceVersion : string) : M W unit :=
  api_retry (setApprovalAttempt name state reason expectedCandidateDigest actor expectedResourceVersion).
End store.

(** ** Transitions *)
Section laws.
Context {W : Type} `{!Api W Spec Status, !ApiLaws W Spec Status}.

(** The status of [obj] was replaced on the very content that was read. *)
Definition committed (obj : Proposal) (status : Status) (w' : W) : Prop :=
  ∃ r now, look w' (o_Name obj) = Some r ∧ o_UID r = o_UID obj ∧ o_Spec r = o_Spec obj ∧
    o_Status r = Some (stamped status now).

(** The write itself: the object as it was read is the one the server holds
    when the status lands. *)
Lemma setStatus_over obj status w w' :
  seen w obj → o_ResourceVersion obj ≠ "" → setStatus obj status w = (Ok (), w') →
  ∃ w1 now r, look w1 (o_Name obj) = Some obj ∧
    api_update_status (mkObject (o_Name obj) (o_UID obj) (o_ResourceVersion obj) (o_Spec obj)
                         (Some (stamped status now))) w1 = (Ok r, w') ∧
    look w' (o_Name obj) = Some r ∧ o_UID r = o_UID obj ∧ o_Spec r = o_Spec obj ∧
    o_Status r = Some (stamped status now).
Proof.
  unfold setStatus. intros Hs Hrv H. inv_run.
  match goal with H : api_now _ = _ |- _ => apply (now_keeps _ _ _ obj) in H; [rename H into Hs'|done] end.
  match goal with H : api_update_status _ _ = _ |- _ =>
    pose proof H as Hw; apply update_status_commits in H as (cur & Hl & Hv & Hl' & Hu & Hsp & Hst); [|done] end. cbn in *.
  pose proof (seen_version _ _ _ Hs' Hl Hv) as ->. eexists _, _, _. eauto 10.
Qed.

Lemma setStatus_commits obj status w w' :
  seen w obj → o_ResourceVersion obj ≠ "" → setStatus obj status w = (Ok (), w') → committed obj status w'.
Proof.
  intros Hs Hrv H. apply setStatus_over in H as (w1 & now & r & _ & _ & H); [|done..]. by exists r, now.
Qed.

Lemma get_then {A} name (f : Proposal → M W A) w a w' :
  m_bind (api_get name) f w = (Ok a, w') →
  ∃ obj w1, seen w1 obj ∧ o_Name obj = name ∧ o_ResourceVersion obj ≠ "" ∧ f obj w1 = (Ok a, w').
Proof. intros (obj & w1 & Hg & Hf)%m_bind_Ok. destruct (get_seen _ _ _ _ Hg) as (? & ? & ?). eauto 10. Qed.

(** Review only advances a draft.  A successful call read an object [obj]
    and either left it alone because a decision or review was already recorded,
    or committed [Reviewed] with the reviewer on exactly that object. *)
Theorem MarkReviewed_from_draft name actor rv w w' :
  MarkReviewedByVersion name actor rv w = (Ok (), w') →
  ∃ obj current, o_Name obj = name ∧ statusFromObject obj = Ok current ∧
    (rv = "" ∨ o_ResourceVersion obj = rv) ∧
    ((st_ApprovalState current ≠ ApprovalDraft ∧ seen w' obj) ∨
     (st_ApprovalState current = ApprovalDraft ∧
      ∃ status, committed obj status w' ∧ st_ApprovalState status = ApprovalReviewed ∧ st_ReviewedBy status = actor)).
Proof.
  intros (w0 & H)%retry_runs. unfold markReviewedAttempt in H.
  apply get_then in H as (obj & w1 & Hs & Hn & Hrv & H). inv_run.
  exists obj, x. split; [done|]. split; [done|]. split.
  { apply andb_false_iff in Heqb as [Hb|Hb]; bool_simpl; [left; by apply bool_decide_eq_true in Hb|by right]. }
  destruct (bool_decide (st_ApprovalState x = ApprovalDraft)) eqn:E; cbn in H; bool_simpl.
  - right. split; [done|]. eexists. split; [by eapply setStatus_commits|done].
  - left. inv_run. done.
Qed.

Lemma computedDigests_approved spec version computed review status :
  computedDigests spec = Ok (version, computed, review) →
  ValidateCandidateDigest computed = Ok () →
  st_ApprovalState status = ApprovalApproved → st_ApprovedCandidateDigest status = computed →
  st_ApprovedReviewContextDigest status = review → st_ApprovalMechanismVersion status = version →
  ValidateApprovedCandidate (Some spec) (Some status) = Ok ().
Proof.
  intros H Hd Hst Hc Hr Hv. unfold computedDigests in H. apply result_bind_Ok in H as (v & Hn & H).
  unfold ValidateApprovedCandidate. rewrite Hn. cbn [mbind result_bind].
  assert (computed ≠ "") as Hne by (intros ->; vm_compute in Hd; discriminate).
  case_bool_decide as E.
  - apply result_bind_Ok in H as (c & Hcand & (d & Hdig & (r & Hrev & (e & Hrd & Heq)%result_bind_Ok)%result_bind_Ok)%result_bind_Ok).
    injection Heq as -> -> ->. unfold validateApprovedCandidateV2.
    rewrite Hst, Hv, Hc, Hr, Hcand. cbn [mbind result_bind]. rewrite Hdig. cbn [mbind result_bind].
    rewrite Hrev. cbn [mbind result_bind]. rewrite Hrd. cbn [mbind result_bind].
    unfold ReviewContextDigestV2 in Hrd. apply result_bind_Ok in Hrd as (m & _ & [= <-]).
    rewrite !bool_decide_eq_true_2 by done. cbn [negb].
    unfold empty. by rewrite !bool_decide_eq_false_2.
  - apply result_bind_Ok in H as (d & Hdig & Heq). injection Heq as -> -> <-.
    destruct (normalizedCandidateVersion_Ok _ _ Hn) as [->| ->]; [|done].
    unfold validateApprovedCandidateV1. rewrite Hst, Hv, Hc, Hd, Hdig. cbn [mbind result_bind].
    rewrite !bool_decide_eq_true_2 by done. cbn [negb]. unfold empty. by rewrite !bool_decide_eq_false_2.
Qed.

(** C29: approving is bound to what the reviewer saw.  A successful approval
    ended in one status write over the object [obj] the server then held: its
    resource version is the one the caller expected (when it gave one), its
    specification is the one decided on, and the status written passes the
    apply-time check for that specification, with the digest the caller
    supplied: a specification changed in between is never approved. *)
Theorem approve_binds_reviewed_candidate name reason digest actor rv w w' :
  SetApprovalStateByVersion name ApprovalApproved reason digest actor rv w = (Ok (), w') →
  ∃ w1 obj spec status r, look w1 name = Some obj ∧ (rv = "" ∨ o_ResourceVersion obj = rv) ∧
    api_update_status (mkObject name (o_UID obj) (o_ResourceVersion obj) (Some spec) (Some status)) w1 = (Ok r, w') ∧
    o_Spec obj = Some spec ∧ look w' name = Some r ∧ o_Spec r = Some spec ∧ o_Status r = Some status ∧
    ValidateApprovedCandidate (Some spec) (Some status) = Ok () ∧
    st_ApprovedCandidateDigest status = digest ∧ st_ApprovedBy status = actor ∧
    (∀ s, st_LastApprovalSnapshot status = Some s →
       as_ProposalUID s = o_UID r ∧ as_ApprovedCandidateDigest s = digest).
Proof.
  intros (w0 & H)%retry_runs. unfold setApprovalAttempt, m_try in H.
  destruct (api_get name w0) as [[obj|e] w1] eqn:Hg; [|by destruct (IsNotFound e)].
  destruct (get_seen _ _ _ _ Hg) as (Hs & Hn & Hrv). inv_run.
  assert (rv = "" ∨ o_ResourceVersion obj = rv) as Hver.
  { apply andb_false_iff in Heqb as [Hb|Hb]; bool_simpl; [left; by apply bool_decide_eq_true in Hb|by right]. }
  rewrite bool_decide_eq_true_2 in H by done. inv_run.
  destruct (o_Spec obj) as [spec|] eqn:Esp; [|done]. inv_run.
  destruct x0 as [[version computed] review]. inv_run. bool_simpl. subst computed.
  match goal with u : unit |- _ => destruct u end.
  match goal with H : api_now _ = _ |- _ => apply (now_keeps _ _ _ obj) in H; [|done]; rename H into Hs' end.
  apply setStatus_over in H as (w2 & t & r & Hl & Hw & Hl' & Hu & Hsp & Hst); [|done..].
  rewrite Hn in *. rewrite Esp in *. eexists w2, obj, spec, _, r.
  split; [done|]. split; [done|]. split; [exact Hw|]. split; [done|]. split; [done|]. split; [done|]. split; [exact Hst|].
  split; [by eapply computedDigests_approved|].
  split; [done|]. split; [done|]. cbn. destruct (empty (o_UID obj)); [done|]. intros s [= <-]. by rewrite Hu.
Qed.

Lemma not_approved_refused spec status :
  st_ApprovalState status ≠ ApprovalApproved → is_ok (ValidateApprovedCandidate (Some spec) (Some status)) = false.
Proof.
  intros Hne. destruct (ValidateApprovedCandidate (Some spec) (Some status)) as [[]|] eqn:E; [|done].
  by apply ValidateApprovedCandidate_state in E as [E _].
Qed.

(** Any other decision withdraws the authorisation: the committed status
    carries no digest, the apply-time check refuses it for every
    specification, and the last approval snapshot is kept as history. *)
Theorem reject_withdraws name state reason digest actor rv w w' :
  state ≠ ApprovalApproved →
  SetApprovalStateByVersion name state reason digest actor rv w = (Ok (), w') →
  ∃ obj current r status, o_Name obj = name ∧ statusFromObject obj = Ok current ∧
    look w' name = Some r ∧ o_Spec r = o_Spec obj ∧ o_UID r = o_UID obj ∧ o_Status r = Some status ∧
    st_ApprovalState status = state ∧ st_RejectedBy status = actor ∧
    st_ApprovedCandidateDigest status = "" ∧
    st_LastApprovalSnapshot status = st_LastApprovalSnapshot current ∧
    ∀ spec, is_ok (ValidateApprovedCandidate (Some spec) (Some status)) = false.
Proof.
  intros Hne (w0 & H)%retry_runs. unfold setApprovalAttempt, m_try in H.
  destruct (api_get name w0) as [[obj|e] w1] eqn:Hg; [|by destruct (IsNotFound e)].
  destruct (get_seen _ _ _ _ Hg) as (Hs & Hn & Hrv). inv_run.
  rewrite bool_decide_eq_false_2 in H by done.
  apply setStatus_commits in H as (r & t & Hl & Hu & Hsp & Hst); [|done..].
  exists obj, x, r. eexists. rewrite <- Hn. repeat (split; [done|]). intros spec. by apply not_approved_refused.
Qed.

(** Verification facts are only added to a live approval of exactly the
    candidate they verified: the stored specification passes the apply-time
    check, the history gains the fact at its end, stays within 256 entries and
    keeps its attempts distinct. *)
Theorem AppendSeccompVerification_appends valid namespace name rv fact w w' :
  AppendSeccompVerification valid namespace name rv fact w = (Ok (), w') →
  ∃ obj current r status spec, o_ResourceVersion obj = rv ∧ o_Spec obj = Some spec ∧
    statusFromObject obj = Ok current ∧
    ValidateApprovedCandidate (Some spec) (Some current) = Ok () ∧
    st_ApprovedCandidateDigest current = f_CandidateDigest fact ∧
    look w' name = Some r ∧ o_Spec r = Some spec ∧ o_UID r = f_ProposalUID fact ∧ o_Status r = Some status ∧
    st_BehavioralVerifications status = st_BehavioralVerifications current ++ [fact] ∧
    length (st_BehavioralVerifications status) ≤ 256 ∧
    (NoDup (map f_AttemptID (st_BehavioralVerifications current)) →
     NoDup (map f_AttemptID (st_BehavioralVerifications status))) ∧
    ValidateApprovedCandidate (Some spec) (Some status) = ValidateApprovedCandidate (Some spec) (Some current).
Proof.
  unfold AppendSeccompVerification. intros H. inv_run.
  match goal with H : api_get _ _ = (Ok ?o, _) |- _ => rename o into obj; apply get_seen in H as (Hs & Hn & Hrv) end.
  destruct (o_Spec obj) as [spec|] eqn:Esp; [|done]. inv_run. bool_simpl.
  match goal with H : statusFromObject obj = Ok ?s |- _ => rename s into current end.
  match goal with H : (256 <=? _) = false |- _ => apply Nat.leb_gt in H end.
  apply setStatus_commits in H as (r & t & Hl & Hu & Hsp & Hst); [|done..].
  repeat match goal with u : unit |- _ => destruct u end.
  eexists obj, current, r, _, spec. rewrite <- Hn. repeat (split; [done|]). split; [congruence|]. split; [congruence|].
  split; [exact Hst|]. split; [done|]. split; [cbn; rewrite length_app; cbn; lia|]. split; [|done].
  cbn. intros Hnd. change (map f_AttemptID ?l) with (f_AttemptID <$> l) in *. rewrite fmap_app.
  apply NoDup_app. split; [done|]. split; [|apply NoDup_singleton].
  intros i (g & Hi & Hg)%list_elem_of_fmap Hf%list_elem_of_singleton.
  match goal with H : existsb _ _ = false |- _ => apply (existsb_false_elem _ _ g) in H; [cbn beta in H|done] end.
  bool_simpl. congruence.
Qed.
(** Publishing never disturbs a decision.  A successful [Save] stored a
    valid specification in one of three ways: a new object with a Draft status;
    the specification replaced on the version that was read, UID and status
    unchanged; or a concurrent writer's object found to hold the same content. *)
Theorem Save_outcome name spec w w' :
  Save name spec w = (Ok (), w') →
  ValidateProposalSpec spec = Ok () ∧ validTargetBinding spec = Ok () ∧
  ((∃ (r : Proposal) now, look w' name = Some r ∧ o_Spec r = Some spec ∧ o_Status r = Some (stamped draft_status now)) ∨
   (∃ existing r : Proposal, o_Name existing = name ∧ look w' name = Some r ∧ o_UID r = o_UID existing ∧
      o_Spec r = Some spec ∧ o_Status r = o_Status existing) ∨
   (∃ (obj : Proposal) actual, o_Name obj = name ∧ seen w' obj ∧ o_Spec obj = Some actual ∧
      proposalSpecsEquivalent spec actual = Ok true)).
Proof.
  assert (∀ cause w w', convergeAfterProposalWriteRace name spec cause w = (Ok (), w') →
    ∃ (obj : Proposal) actual, o_Name obj = name ∧ seen w' obj ∧ o_Spec obj = Some actual ∧
      proposalSpecsEquivalent spec actual = Ok true) as Hconv.
  { clear w w'. intros cause w w' H. unfold convergeAfterProposalWriteRace in H.
    apply get_then in H as (obj & w1 & Hs & Hn & _ & H). inv_run.
    match goal with b : bool |- _ => destruct b; [|done] end. inv_run.
    match goal with H : proposalSpecFromObject _ = Ok ?a |- _ => rename H into Ha; rename a into actual end.
    cbn in Ha. destruct (o_Spec obj) as [sp|] eqn:E; [|done]. apply result_bind_Ok in Ha as (? & _ & [= <-]).
    exists obj, sp. by rewrite E. }
  unfold Save. intros H. inv_run. unfold m_try in H.
  repeat match goal with u : unit |- _ => destruct u end. split; [done|]. split; [done|].
  destruct (api_get name w) as [[existing|e] w1] eqn:Hg.
  - destruct (get_seen _ _ _ _ Hg) as (Hs & Hn & Hrv).
    destruct (api_update _ w1) as [[r|e] w2] eqn:Hu; [|destruct (IsConflict e); [right; right; eauto|done]].
    apply update_commits in Hu as (cur & Hl & Hv & Hl' & Huid & Hsp & Hst); [|done]. cbn in *.
    rewrite <- Hn in Hl. pose proof (seen_version _ _ _ Hs Hl Hv) as ->. inv_run.
    right. left. by exists existing, r.
  - destruct (IsNotFound e); [|done].
    destruct (api_create _ w1) as [[created|e'] w2] eqn:Hc; [|destruct (IsAlreadyExists e'); [right; right; eauto|done]].
    apply create_commits in Hc as (_ & _ & Hs & Hn & Hrv & Hsp). cbn in *.
    apply setStatus_commits in H as (r & t & Hl & Hu & Hsp' & Hst); [|done..].
    left. exists r, t. rewrite <- Hn. split; [done|]. split; [congruence|done].
Qed.
End laws.

(** ** A run on the concrete server *)
Definition ex_world : cluster Spec Status := mkCluster ∅ 1 (unix 1709210096 0).
Definition ex_v1 (podlock : string) : Spec :=
  mkSpec "" "app" "/bin/app" "2024-01-01T00:00:00Z" true None podlock "" "" "" None None None None None.
Definition ex_digest : string := Eval vm_compute in sha256_digest (candidate_payload (ex_v1 "allow")).

(** Run a call and keep the world. *)
Definition after {W A} (m : M W A) (w : W) : W := snd (m w).

Definition ex_saved : cluster Spec Status := Eval vm_compute in after (Save "web" (ex_v1 "allow")) ex_world.
Definition ex_approve : M (cluster Spec Status) unit :=
  SetApprovalStateByVersion "web" ApprovalApproved "ok" ex_digest "bob" "".
Definition ex_approved_world : cluster Spec Status := Eval vm_compute in after ex_approve ex_saved.
Definition ex_fact : Fact := mkFact "a1" ex_digest "uid-1" "default".
Definition ex_append : M (cluster Spec Status) unit :=
  AppendSeccompVerification (fun _ => Ok ()) "default" "web" "v3" ex_fact.

Lemma Save_outcome_witness : validTargetBinding (ex_v1 "allow") = Ok ().
Proof.
  refine (proj1 (proj2 (Save_outcome "web" (ex_v1 "allow") ex_world (after (Save "web" (ex_v1 "allow")) ex_world) _))).
  vm_compute. reflexivity.
Defined.

Lemma MarkReviewed_from_draft_witness : ∃ obj : Proposal, o_Name obj = "web".
Proof.
  destruct (MarkReviewed_from_draft "web" "alice" "" ex_saved (after (MarkReviewedByVersion "web" "alice" "") ex_saved))
    as (obj & current & Hn & _); [vm_compute; reflexivity|].
  exists obj. exact Hn.
Defined.

Definition ex_saved_version : string :=
  Eval vm_compute in match look ex_saved "web" with Some o => o_ResourceVersion (o : Proposal) | None => "" end.
Definition ex_approve_seen : M (cluster Spec Status) unit :=
  SetApprovalStateByVersion "web" ApprovalApproved "ok" ex_digest "bob" ex_saved_version.

Lemma approve_binds_reviewed_candidate_witness :
  negb (empty ex_saved_version) = true ∧
  ∃ r : Proposal, look (after ex_approve_seen ex_saved) "web" = Some r.
Proof.
  split; [vm_compute; reflexivity|].
  destruct (approve_binds_reviewed_candidate "web" "ok" ex_digest "bob" ex_saved_version ex_saved
    (after ex_approve_seen ex_saved)) as (w1 & obj & spec & status & r & _ & _ & _ & _ & Hl & _);
    [vm_compute; reflexivity|].
  exists r. exact Hl.
Defined.

Definition ex_reject : M (cluster Spec Status) unit :=
  SetApprovalStateByVersion "web" ApprovalRejected "no" "" "carol" "".

Lemma reject_withdraws_witness :
  ∃ r : Proposal, look (after ex_reject ex_approved_world) "web" = Some r.
Proof.
  destruct (reject_withdraws "web" ApprovalRejected "no" "" "carol" "" ex_approved_world (after ex_reject ex_approved_world))
    as (obj & current & r & status & _ & _ & Hl & _); [discriminate|vm_compute; reflexivity|].
  exists r. exact Hl.
Defined.

Lemma AppendSeccompVerification_appends_witness :
  ∃ r : Proposal, look (after ex_append ex_approved_world) "web" = Some r.
Proof.
  destruct (AppendSeccompVerification_appends (fun _ => Ok ()) "default" "web" "v3" ex_fact ex_approved_world
    (after ex_append ex_approved_world)) as (obj & current & r & status & spec & _ & _ & _ & _ & _ & Hl & _);
    [vm_compute; reflexivity|].
  exists r. exact Hl.
Defined.

(** The verification history does not survive a decision: approving again (or
    rejecting) writes a status with an empty history. *)
Example decision_drops_verifications :
  let w := after ex_append ex_approved_world in
  match cl_look w "web", cl_look (after ex_approve w) "web" with
  | Some before, Some again =>
      option_map st_BehavioralVerifications (o_Status before) = Some [ex_fact] ∧
      option_map st_BehavioralVerifications (o_Status again) = Some []
  | _, _ => False
  end.
Proof. vm_compute. split; reflexivity. Qed.

(** Overwriting the approved specification keeps the approval in the status,
    and the apply-time check refuses it. *)
Example overwrite_refused :
  let w := after (Save "web" (ex_v1 "allow more")) ex_approved_world in
  match cl_look w "web" with
  | Some o => option_map st_ApprovalState (o_Status o) = Some ApprovalApproved ∧
      ValidateApprovedCandidate (o_Spec o) (o_Status o) = failwith "approved candidate digest mismatch"
  | None => False
  end.
Proof. vm_compute. split; reflexivity. Qed.
