(* ===== verification/Apply.v ===== *)
(** * internal/applyproposal: the governed apply

    [Run] of apply.go with the readiness gate of readiness.go, over the injected
    dependencies and the API server; every call that reads or changes the
    cluster is an operation of a journalled world, so the custody theorems are
    about the order of the calls. *)
From S2P Require Import Prelude GoStd Identity Digest SpoBackend Target.
From S2P Require Import Kube Unstructured K8sApply Attempt Proposal ApplyPlan ProposalStore.
Import SpoBackend ApplyPlan.

(** The injected clients: the caller's own, and the one for cluster-scoped
    profiles. *)
Inductive Client := DynamicClient | ClusterScopedClient.
#[export] Instance Client_eq_dec : EqDecision Client.
Proof. solve_decision. Defined.

(** Reads of the enforcement backends, and the poll of the readiness wait:
    [poll_expired] is the select between the deadline and the timer. *)
Class Backends (W : Type) := {
  get_seccomp_profile : Client → string → M W json;
  get_podlock : string → string → M W json;
  poll_expired : M W bool;
  (** The name in the status details of an API error, empty without details;
      [None] when the error is no API status. *)
  status_details : error → option string }.

Record Dependencies (W : Type) := mkDependencies {
  NewDynamicClient : M W unit;
  SaveAttemptStatus : Attempt.Object → Attempt.Status → M W Attempt.Object;
  CreateAttempt : Attempt.Spec → M W (string * Attempt.Object);
  ReadApplyResource : Client → string → json → M W (option json);
  ApplyManifestObserved : Client → string → string → ApplyGuard → M W MutationObservation;
  AfterPlanBuilt : option (M W unit);
  AfterEnforcementReady : option (M W unit);
  Confirm : option (M W bool);
  (** The optional constructor yields no client when it returns nil. *)
  NewClusterScopedClient : option (M W bool);
  AuthorizeClusterScopedArtifact : option (string → string → GovernedTarget → json → M W unit) }.
Arguments NewDynamicClient {W}.
Arguments SaveAttemptStatus {W}.
Arguments CreateAttempt {W}.
Arguments ReadApplyResource {W}.
Arguments ApplyManifestObserved {W}.
Arguments AfterPlanBuilt {W}.
Arguments AfterEnforcementReady {W}.
Arguments Confirm {W}.
Arguments NewClusterScopedClient {W}.
Arguments AuthorizeClusterScopedArtifact {W}.

Record Options := mkOptions {
  Namespace : string; Yes : bool; OperatorIdentity : string; ExpectedResourceVersion : string;
  Skip : list string; Restart : bool; ReadinessTimeout : Z }.

Module Apply.
Section run.
Context {W : Type} `{!Api W Spec Status} `{!Environment W} `{!Backends W} `{!Unstructured} `{!Yaml}.

Definition fail_msg {A} (msg : string) : M W A := m_err (mkError "" msg).
Definition optional (hook : option (M W unit)) : M W unit := default (m_ret ()) hook.

(** ** Readiness *)
Definition readinessPollInterval : Z := 2000000000.

Inductive Readiness := Ready | NotReady (reason : string) | Fatal (e : error).

Definition seccompProfileReady (obj : json) (req : seccompRequirement) : Readiness :=
  if match r_wantSpec req with
     | Some want => negb (bool_decide (Some want = enforcementSpec obj))
     | None => false
     end
  then Fatal (mkError "" "SeccompProfile no longer carries the approved enforcement content")
  else match NestedString ["status"; "localhostProfile"] obj with
  | Err _ => NotReady "reading status.localhostProfile"
  | Ok None => NotReady "status.localhostProfile not populated yet"
  | Ok (Some installed) =>
      if empty installed then NotReady "status.localhostProfile not populated yet"
      else if negb (bool_decide (installed = r_localhostProfile req))
      then Fatal (mkError "" "SeccompProfile materialized at another path than the workload references")
      else Ready
  end.

Definition seccompAPIUnavailable (e : error) : bool :=
  IsNotFound e && match status_details e with Some name => empty name | None => false end.
Definition fatalAPIError (e : error) : bool :=
  bool_decide (err_is e ∈ ["Unauthorized"; "Forbidden"; "Invalid"; "BadRequest"; "MethodNotAllowed"]).

(** The poll loop.  The deadline comes after [timeout]; each round waits
    [readinessPollInterval], so [timeout / readinessPollInterval + 2] rounds
    reach it. *)
Fixpoint poll_profile (fuel : nat) (client : Client) (req : seccompRequirement) : M W unit :=
  match fuel with
  | 0 => fail_msg "timed out waiting for SeccompProfile to become ready"
  | S k =>
      let again : M W unit :=
        expired <- poll_expired ;!
        if expired then fail_msg "timed out waiting for SeccompProfile to become ready"
        else poll_profile k client req in
      m_try (get_seccomp_profile client (r_name req)) (fun got =>
        match got with
        | Ok obj => match seccompProfileReady obj req with
                    | Ready => m_ret ()
                    | Fatal e => m_err e
                    | NotReady _ => again
                    end
        | Err e =>
            if seccompAPIUnavailable e then m_err e
            else if IsNotFound e then again
            else if fatalAPIError e then m_err e
            else again
        end)
  end.

Definition waitForSeccompProfileReady (client : Client) (req : seccompRequirement) (timeout : Z) : M W unit :=
  poll_profile (Z.to_nat (timeout / readinessPollInterval) + 2) client req.

Fixpoint waitForEnforcementReady (client : Client) (reqs : list seccompRequirement) (timeout : Z) : M W unit :=
  match reqs with
  | [] => m_ret ()
  | req :: reqs =>
      if empty (r_name req) then fail_msg "the workload references a seccomp profile this tool cannot resolve"
      else do waitForSeccompProfileReady client req timeout ;! waitForEnforcementReady client reqs timeout
  end.

Definition validatePodLockBeforeBinding (artifacts : list proposalArtifact) (binding : json)
  (container binary fallbackNamespace : string) : M W unit :=
  let bindingName := podLockBindingName binding in
  let unbound := match bindingName with Some n => empty n | None => true end in
  match List.find (fun a => bool_decide (a_slug a = podlock) && a_available a) artifacts with
  | None =>
      if negb unbound then fail_msg "workload binding references a PodLock the approved proposal does not have"
      else m_ret ()
  | Some artifact =>
      approved <- m_lift (buildPlannedArtifact artifact fallbackNamespace) ;!
      guard empty container || empty binary
        with mkError "" "PodLock approved artifact has no unambiguous container/binary target" ;!
      match found (NestedMap ["spec"; "profilesByContainer"] (p_obj approved)) with
      | None => fail_msg "PodLock approved artifact has no profilesByContainer"
      | Some profiles =>
          match lookup_field container profiles with
          | Some (JObj containerProfiles) =>
              guard match lookup_field binary containerProfiles with Some _ => false | None => true end
                with mkError "" "PodLock approved artifact has no profile for the binary" ;!
              guard unbound with mkError "" "workload binding has no PodLock profile reference" ;!
              guard negb (bool_decide (bindingName = Some (p_nameStr approved)))
                with mkError "" "workload binding references another PodLock than the approved one" ;!
              live <- get_podlock (p_ns approved) (p_nameStr approved) ;!
              guard negb (bool_decide (podLockEnforcementSpec (p_obj approved) = podLockEnforcementSpec live))
                with mkError "" "live PodLock no longer carries the approved enforcement content" ;!
              m_ret ()
          | _ => fail_msg "PodLock approved artifact has no profile for the container"
          end
      end
  end.

(** ** Fresh authority *)
Definition GetStatus (name : string) : M W (option Status) :=
  r <- GetStatusWithResourceVersion name ;! m_ret r.1.
Definition GetWithIdentity (name : string) : M W (option Spec * string) :=
  r <- GetWithIdentityAndResourceVersion name ;! m_ret (r.1.1, r.1.2).

(** The target a v1 specification is bound to. *)
Definition target_of (spec : Spec) : option GovernedTarget :=
  match sp_TargetBinding spec with
  | None => None
  | Some b => match CanonicalTargetBinding_GovernedTarget b (sp_Container spec) with
              | Ok t => Some t | Err _ => None end
  end.

Definition revalidateBeforeBinding (proposalName plannedDigest : string) : M W unit :=
  currentSpec <- Get proposalName ;!
  match currentSpec with
  | None => fail_msg "securityprofileproposal disappeared before workload binding"
  | Some currentSpec =>
      currentStatus <- GetStatus proposalName ;!
      do m_lift (ValidateApprovedCandidate (Some currentSpec) currentStatus) ;!
      currentDigest <- m_lift (CandidateDigest currentSpec) ;!
      guard negb (bool_decide (currentDigest = plannedDigest))
        with mkError "" "candidate changed during enforcement readiness wait; workload binding not applied" ;!
      m_ret ()
  end.

Definition revalidateAttemptBeforeMutation (name uid : string) (target : GovernedTarget)
  (digest expectedResourceVersion : string) : M W unit :=
  read <- GetWithIdentityAndResourceVersion name ;!
  let '(spec, currentUID, currentResourceVersion) := read in
  match spec with
  | None => fail_msg "proposal UID changed before mutation"
  | Some spec =>
      guard negb (bool_decide (currentUID = uid)) with mkError "" "proposal UID changed before mutation" ;!
      guard negb (empty expectedResourceVersion) &&
            negb (bool_decide (currentResourceVersion = expectedResourceVersion))
        with mkError "" "proposal resourceVersion changed before mutation" ;!
      status <- GetStatus name ;!
      do m_lift (ValidateApprovedCandidate (Some spec) status) ;!
      currentDigest <- m_lift (CandidateDigest spec) ;!
      guard negb (bool_decide (currentDigest = digest))
        with mkError "" "candidate digest changed before mutation" ;!
      guard is_nil (sp_TargetBinding spec)
        with mkError "" "canonical target binding disappeared before mutation" ;!
      guard negb (bool_decide (target_of spec = Some target))
        with mkError "" "canonical target binding changed before mutation" ;!
      m_ret ()
  end.

(** ** Phase 3: the plan, one artifact at a time *)
Section execute.
Variable deps : Dependencies W.

(** What [Run] has fixed when it starts mutating. *)
Record Context := mkContext {
  x_namespace : string; x_name : string; x_uid : string; x_target : GovernedTarget; x_digest : string;
  x_expectedRV : string; x_scoped : bool; x_reqs : list seccompRequirement; x_timeout : Z;
  x_bindingArtifacts : list proposalArtifact; x_container : string; x_binary : string }.
Variable x : Context.

Abbreviation custody := (Attempt.Object * Attempt.Status)%type.

Definition with_state (st : Attempt.Status) (state failure : string) : Attempt.Status :=
  Attempt.mkStatus state (Attempt.st_UpdatedAt st) (Attempt.st_CompletedAt st) failure (Attempt.st_Mutations st).
Definition with_mutations (st : Attempt.Status) (l : list Attempt.MutationRecord) : Attempt.Status :=
  Attempt.mkStatus (Attempt.st_State st) (Attempt.st_UpdatedAt st) (Attempt.st_CompletedAt st)
    (Attempt.st_Failure st) l.
(** [Mutations[len(Mutations)-1] = record]. *)
Definition with_last (st : Attempt.Status) (record : Attempt.MutationRecord) : Attempt.Status :=
  with_mutations st (removelast (Attempt.st_Mutations st) ++ [record]).

Definition with_result (record : Attempt.MutationRecord) (observed observedDigest attributable result error : string)
  : Attempt.MutationRecord :=
  Attempt.mkMutationRecord (Attempt.m_ID record) (Attempt.m_GVK record) (Attempt.m_Namespace record)
    (Attempt.m_Name record) (Attempt.m_UID record) (Attempt.m_ResourceVersion record) (Attempt.m_Operation record)
    (Attempt.m_Before record) (Attempt.m_IntendedAfter record) observed (Attempt.m_BeforeDigest record)
    (Attempt.m_IntendedAfterDigest record) observedDigest attributable (Attempt.m_SourceMutationID record)
    result error.

(** Save what is known and fail whatever the save says. *)
Definition save_then_fail {A} (obj : Attempt.Object) (st : Attempt.Status) (e : error) : M W A :=
  m_try (SaveAttemptStatus deps obj st) (fun _ => m_err e).

Definition failure_state (st : Attempt.Status) (state : string) : string :=
  if hasSuccessfulMutation (Attempt.st_Mutations st) && bool_decide (state = Attempt.StateFailed)
  then Attempt.StatePartiallyApplied else state.

Definition markFailure {A} (obj : Attempt.Object) (st : Attempt.Status) (state reason : string) : M W A :=
  m_try (SaveAttemptStatus deps obj (with_state st (failure_state st state) reason)) (fun saved =>
    match saved with Err e => m_err e | Ok _ => fail_msg reason end).

(** The gate of a binding artifact.  The first two checks return their error
    as it is. *)
Definition bindingGate (obj : Attempt.Object) (st : Attempt.Status) (p : plannedArtifact) : M W unit :=
  if applyClassFor (p_slug p) =? classBinding then
    do waitForEnforcementReady (if x_scoped x then ClusterScopedClient else DynamicClient) (x_reqs x) (x_timeout x) ;!
    do validatePodLockBeforeBinding (x_bindingArtifacts x) (p_obj p) (x_container x) (x_binary x) (x_namespace x) ;!
    do optional (AfterEnforcementReady deps) ;!
    m_try (revalidateBeforeBinding (x_name x) (x_digest x)) (fun r =>
      match r with Err e => markFailure obj st Attempt.StateFailed (err_msg e) | Ok _ => m_ret () end)
  else m_ret ().

(** Revalidation, and for a cluster-scoped profile its authorisation; the
    client to mutate with. *)
Definition authorize (obj : Attempt.Object) (st : Attempt.Status) (p : plannedArtifact) : M W Client :=
  m_try (revalidateAttemptBeforeMutation (x_name x) (x_uid x) (x_target x) (x_digest x) (x_expectedRV x)) (fun r =>
  match r with
  | Err e => markFailure obj st Attempt.StateFailed (err_msg e)
  | Ok _ =>
      if bool_decide (p_gvk p = SeccompProfileGVK) && x_scoped x then
        match AuthorizeClusterScopedArtifact deps with
        | None => fail_msg "nil pointer dereference"
        | Some auth => m_try (auth (x_name x) (x_digest x) (x_target x) (p_obj p)) (fun r =>
            match r with
            | Err e => markFailure obj st Attempt.StateFailed (err_msg e)
            | Ok _ => m_ret ClusterScopedClient
            end)
        end
      else m_ret DynamicClient
  end).

(** The write-ahead record: the live object is read and the mutation recorded
    with an unknown outcome before anything happens. *)
Definition writeAhead (obj : Attempt.Object) (st : Attempt.Status) (p : plannedArtifact) (client : Client)
  : M W (option json * custody) :=
  m_try (ReadApplyResource deps client (p_ns p) (p_obj p)) (fun r =>
  match r with
  | Err e => markFailure obj st Attempt.StateFailed (err_msg e)
  | Ok before =>
      let st1 := with_mutations st (Attempt.st_Mutations st ++ [mutationRecordFor p before]) in
      m_try (SaveAttemptStatus deps obj st1) (fun saved =>
      match saved with
      | Err e =>
          let state := if hasSuccessfulMutation (Attempt.st_Mutations st)
                       then Attempt.StatePartiallyApplied else Attempt.StateFailed in
          save_then_fail obj (with_state st state (err_msg e)) (mkError "" (err_msg e))
      | Ok obj => m_ret (before, (obj, st1))
      end)
  end).

Definition guard_of (before : option json) : ApplyGuard :=
  match before with
  | None => mkGuard false "" ""
  | Some o => mkGuard true (GetUID o) (GetResourceVersion o)
  end.

(** The mutation failed: what the live object now shows. *)
Definition afterFailure (obj : Attempt.Object) (st : Attempt.Status) (p : plannedArtifact) (client : Client)
  (record : Attempt.MutationRecord) (e : error) : M W custody :=
  m_try (ReadApplyResource deps client (p_ns p) (p_obj p)) (fun r =>
  match r with
  | Err _ =>
      save_then_fail obj (with_state (with_last st (with_result record "" "" "" Attempt.ResultUnknown (err_msg e)))
        Attempt.StateOutcomeUnknown (Attempt.st_Failure st)) e
  | Ok after =>
      let '(observed, observedDigest) := observedMutationValue (p_gvk p) after in
      let result := if bool_decide (Attempt.m_Before record = observed)
                    then Attempt.ResultFailed else Attempt.ResultUnknown in
      let st := with_last st (with_result record observed observedDigest "" result (err_msg e)) in
      m_try (SaveAttemptStatus deps obj st) (fun saved =>
      match saved with
      | Err e => save_then_fail obj (with_state st Attempt.StateOutcomeUnknown (err_msg e)) e
      | Ok obj =>
          if bool_decide (result = Attempt.ResultUnknown)
          then save_then_fail obj (with_state st Attempt.StateOutcomeUnknown (Attempt.st_Failure st)) e
          else markFailure obj st Attempt.StateFailed (err_msg e)
      end)
  end).

(** The mutation succeeded: its observed outcome. *)
Definition afterSuccess (obj : Attempt.Object) (st : Attempt.Status) (p : plannedArtifact) (client : Client)
  (record : Attempt.MutationRecord) (observation : MutationObservation) : M W custody :=
  let unknown (msg : string) (e : error) : M W custody :=
    save_then_fail obj (with_state (with_last st (with_result record "" "" "" Attempt.ResultUnknown msg))
      Attempt.StateOutcomeUnknown (Attempt.st_Failure st)) e in
  m_try (ReadApplyResource deps client (p_ns p) (p_obj p)) (fun r =>
  match r with
  | Err e => unknown (err_msg e) e
  | Ok None => unknown "live object was not found after a successful mutation response"
                 (mkError "" "applied but live outcome is unknown")
  | Ok (Some after) =>
      let '(observed, observedDigest) := observedMutationValue (p_gvk p) (Some after) in
      let attributable :=
        if negb (empty (mo_UID observation)) && bool_decide (mo_UID observation = GetUID after) &&
           negb (empty (mo_ResourceVersion observation)) &&
           bool_decide (mo_ResourceVersion observation = GetResourceVersion after)
        then mo_ResourceVersion observation else "" in
      let st := with_last st (with_result record observed observedDigest attributable Attempt.ResultSucceeded "") in
      m_try (SaveAttemptStatus deps obj st) (fun saved =>
      match saved with
      | Err e => save_then_fail obj (with_state st Attempt.StateOutcomeUnknown (err_msg e)) e
      | Ok obj => m_ret (obj, st)
      end)
  end).

Definition applyArtifact (c : custody) (p : plannedArtifact) : M W custody :=
  let '(obj, st) := c in
  do bindingGate obj st p ;!
  client <- authorize obj st p ;!
  ahead <- writeAhead obj st p client ;!
  let '(before, (obj, st)) := ahead in
  let record := mutationRecordFor p before in
  m_try (ApplyManifestObserved deps client (p_ns p) (p_content p) (guard_of before)) (fun r =>
    match r with
    | Err e => afterFailure obj st p client record e
    | Ok observation => afterSuccess obj st p client record observation
    end).

Fixpoint applyPlan (c : custody) (plan : list plannedArtifact) : M W custody :=
  match plan with
  | [] => m_ret c
  | p :: plan => c <- applyArtifact c p ;! applyPlan c plan
  end.

(** The attempt from its creation to its final state. *)
Definition attempt (spec : Attempt.Spec) (plan : list plannedArtifact) : M W unit :=
  created <- CreateAttempt deps spec ;!
  let st := Attempt.mkStatus Attempt.StateInProgress "" "" "" [] in
  obj <- SaveAttemptStatus deps created.2 st ;!
  c <- applyPlan (obj, st) plan ;!
  now <- api_now ;!
  do SaveAttemptStatus deps c.1 (Attempt.mkStatus Attempt.StateApplied (Attempt.st_UpdatedAt c.2)
       (format_rfc3339nano now) (Attempt.st_Failure c.2) (Attempt.st_Mutations c.2)) ;!
  m_ret ().
End execute.

(** ** Run *)
Section run_all.
Variable deps : Dependencies W.

(** The reads and checks before a plan exists: the specification, its UID and
    target, and the approval. *)
Definition preflight (opts : Options) (name : string) : M W (Spec * string * GovernedTarget) :=
  read <- GetWithIdentityAndResourceVersion name ;!
  let '(spec, proposalUID, initialResourceVersion) := read in
  match spec with
  | None => fail_msg "securityprofileproposal not found"
  | Some spec =>
      guard empty proposalUID with mkError "" "no Kubernetes UID; apply custody cannot be established" ;!
      guard negb (empty (ExpectedResourceVersion opts)) &&
            negb (bool_decide (initialResourceVersion = ExpectedResourceVersion opts))
        with mkError "" "proposal resourceVersion changed before apply" ;!
      match sp_TargetBinding spec with
      | None => fail_msg "no canonical target binding; apply custody cannot be established"
      | Some b =>
          target <- m_lift (CanonicalTargetBinding_GovernedTarget b (sp_Container spec)) ;!
          status <- GetStatus name ;!
          do m_lift (ValidateApprovedCandidate (Some spec) status) ;!
          m_ret (spec, proposalUID, target)
      end
  end.

(** Whether the cluster-scoped client is used, every profile of the plan being
    authorised first. *)
Definition clusterScoped (name digest : string) (target : GovernedTarget) (plan : list plannedArtifact)
  (reqs : list seccompRequirement) : M W bool :=
  match NewClusterScopedClient deps with
  | Some open =>
      if hasClusterScopedArtifact plan || negb (length reqs =? 0) then
        client <- open ;!
        match client, AuthorizeClusterScopedArtifact deps with
        | true, Some auth =>
            do foldr (fun p k =>
                 if bool_decide (p_gvk p = SeccompProfileGVK)
                 then do auth name digest target (p_obj p) ;! k else k) (m_ret ()) plan ;!
            m_ret true
        | _, _ => fail_msg "controlled cluster-scoped profile service is not configured"
        end
      else m_ret false
  | None => m_ret false
  end.

(** The last check before the attempt is created; the approved digest that
    goes into its custody. *)
Definition revalidateBeforeAttempt (name uid : string) (target : GovernedTarget) (digest : string) : M W string :=
  read <- GetWithIdentity name ;!
  let '(currentSpec, currentUID) := read in
  currentStatus <- GetStatus name ;!
  do m_lift (ValidateApprovedCandidate currentSpec currentStatus) ;!
  guard negb (bool_decide (currentUID = uid)) with mkError "" "proposal identity changed before apply" ;!
  match currentSpec, currentStatus with
  | Some spec, Some status =>
      guard is_nil (sp_TargetBinding spec) with mkError "" "canonical target binding disappeared before apply" ;!
      guard negb (bool_decide (target_of spec = Some target))
        with mkError "" "canonical target binding changed before apply" ;!
      currentDigest <- m_lift (CandidateDigest spec) ;!
      guard negb (bool_decide (currentDigest = digest))
        with mkError "" "candidate changed since plan creation; aborting" ;!
      m_ret (st_ApprovedCandidateDigest status)
  | _, _ => fail_msg "nil pointer dereference"
  end.

Definition confirmed (opts : Options) : M W bool :=
  if Yes opts then m_ret true else default (m_ret false) (Confirm deps).

Definition Run (opts : Options) (name : string) (certification : bool) : M W unit :=
  skip <- m_lift (parseSkipArtifacts (Skip opts)) ;!
  do NewDynamicClient deps ;!
  pre <- preflight opts name ;!
  let '(spec, uid, target) := pre in
  let artifacts := proposalArtifacts spec in
  let '(toApply, _, _) := select_artifacts skip (Restart opts) artifacts in
  if length toApply =? 0 then m_ret ()
  else
    initialDigest <- m_lift (CandidateDigest spec) ;!
    plan <- m_lift (build_plan skip (Namespace opts) certification toApply) ;!
    let reqs := enforcementRequirements plan (approvedSeccompProfile artifacts (Namespace opts)) in
    scoped <- clusterScoped name initialDigest target plan reqs ;!
    do optional (AfterPlanBuilt deps) ;!
    go <- confirmed opts ;!
    if negb go then m_ret ()
    else
      approved <- revalidateBeforeAttempt name uid target initialDigest ;!
      now <- api_now ;!
      epoch <- Attempt.CurrentCustodyEpoch ;!
      attempt deps
        (mkContext (Namespace opts) name uid target initialDigest (ExpectedResourceVersion opts) scoped reqs
           (ReadinessTimeout opts) (bindingArtifacts artifacts skip) (sp_Container spec) (sp_Binary spec))
        (Attempt.mkSpec (Namespace opts) name uid approved target (format_rfc3339nano now) (OperatorIdentity opts) epoch)
        plan.
End run_all.
End run.
End Apply.
