(* ===== verification/ApplyCustody.v ===== *)
(** * Custody of the governed apply

    The order of the calls of [Apply.Run], whatever the cluster answers: every
    mutation is preceded, immediately, by a fresh check of the approval and by a
    durable record of what is about to change; the plan is applied in order up
    to the first failure; and the attempt is recorded as applied exactly when
    everything was. *)
From S2P Require Import Prelude GoStd Identity Digest SpoBackend Target Kube.
From S2P Require Import Journal Unstructured K8sApply Attempt Proposal ApplyPlan ProposalStore Apply.
Import SpoBackend ApplyPlan Apply.

(** ** The journal of an apply *)
Inductive event :=
| EvRead (name : string) (r : result (KObject Spec Status))
| EvCreate (spec : Attempt.Spec) (r : result (string * Attempt.Object))
| EvSave (status : Attempt.Status) (r : result Attempt.Object)
| EvObserve (client : Client) (desired : json) (r : result (option json))
| EvAuthorize (name digest : string) (target : GovernedTarget) (desired : json) (r : result unit)
| EvMutate (client : Client) (namespace content : string) (g : ApplyGuard) (r : result MutationObservation).

(** A world that keeps the journal of the calls of a run: each dependency adds
    its event, every other call adds nothing. *)
Class Journalled (W : Type) `{!Api W Spec Status} `{!Environment W} `{!Backends W} (deps : Dependencies W) := {
  journal : W → list event;
  journal_read : ∀ n, traced journal (api_get n) (fun evs r => evs = [EvRead n r]);
  journal_create : ∀ s, traced journal (CreateAttempt deps s) (fun evs r => evs = [EvCreate s r]);
  journal_save : ∀ o s, traced journal (SaveAttemptStatus deps o s) (fun evs r => evs = [EvSave s r]);
  journal_observe : ∀ c ns o, traced journal (ReadApplyResource deps c ns o) (fun evs r => evs = [EvObserve c o r]);
  journal_authorize : ∀ auth, AuthorizeClusterScopedArtifact deps = Some auth →
    ∀ n d t o, traced journal (auth n d t o) (fun evs r => evs = [EvAuthorize n d t o r]);
  journal_mutate : ∀ c ns content g,
    traced journal (ApplyManifestObserved deps c ns content g) (fun evs r => evs = [EvMutate c ns content g r]);
  journal_now : quiet journal api_now;
  journal_crd : quiet journal get_crd;
  journal_profile : ∀ c n, quiet journal (get_seccomp_profile c n);
  journal_podlock : ∀ ns n, quiet journal (get_podlock ns n);
  journal_poll : quiet journal poll_expired;
  journal_dynamic : quiet journal (NewDynamicClient deps);
  journal_open : ∀ m, NewClusterScopedClient deps = Some m → quiet journal m;
  journal_confirm : ∀ m, Confirm deps = Some m → quiet journal m;
  journal_planned : ∀ m, AfterPlanBuilt deps = Some m → quiet journal m;
  journal_ready : ∀ m, AfterEnforcementReady deps = Some m → quiet journal m }.

(** No mutation, no attempt, and no claim of success. *)
Definition calm_event (e : event) : Prop :=
  match e with
  | EvMutate _ _ _ _ _ | EvCreate _ _ => False
  | EvSave st _ => Attempt.st_State st ≠ Attempt.StateApplied
  | _ => True
  end.
Definition calm (evs : list event) : Prop := Forall calm_event evs.

(** The content of a mutation call and whether it succeeded. *)
Definition mutation_of (e : event) : option (string * string * bool) :=
  match e with EvMutate _ ns content _ r => Some (ns, content, is_ok r) | _ => None end.
Definition mutations (evs : list event) : list (string * string * bool) := omap mutation_of evs.

Lemma calm_mutations evs : calm evs → mutations evs = [].
Proof. induction 1 as [|e evs He _ IH]; [done|]. unfold mutations in *. by destruct e; cbn in *. Qed.

Lemma mutations_app l k : mutations (l ++ k) = mutations l ++ mutations k.
Proof. apply omap_app. Qed.

Section custody.
Context {W : Type} `{!Api W Spec Status} `{!Environment W} `{!Backends W} `{!Unstructured} `{!Yaml}.
Context (deps : Dependencies W) `{!Journalled W deps}.

Abbreviation calmly := (all_calls journal calm_event).

Lemma calmly_read n : calmly (api_get n).
Proof. eapply all_call; [apply journal_read|done]. Qed.

Lemma calmly_save o st : Attempt.st_State st ≠ Attempt.StateApplied → calmly (SaveAttemptStatus deps o st).
Proof. intros Hx. eapply all_call; [apply journal_save|done]. Qed.

Lemma calmly_observe c ns o : calmly (ReadApplyResource deps c ns o).
Proof. eapply all_call; [apply journal_observe|done]. Qed.

Lemma calmly_hook (h : option (M W unit)) : (∀ m, h = Some m → quiet journal m) → calmly (optional h).
Proof. intros Hx. destruct h; cbn; [by apply all_quiet, Hx|apply all_ret]. Qed.

(** Calm runs, call by call. *)
Ltac calm_step :=
  first
  [ apply all_bind; [|intros ?] | apply all_try; [|intros ?] | apply all_if
  | apply all_ret | apply all_err | apply all_lift | apply calmly_read
  | apply all_quiet; first [apply journal_now|apply journal_crd|apply journal_profile|apply journal_podlock
      |apply journal_poll|apply journal_dynamic]
  | match goal with
    | |- calmly (match ?x with _ => _ end) => destruct x
    | |- calmly (let '(_, _) := ?x in _) => destruct x
    end ].
Ltac calm := unfold fail_msg; repeat calm_step.

Lemma calmly_poll fuel c req : calmly (poll_profile fuel c req).
Proof. induction fuel as [|k IH]; cbn; calm; apply IH. Qed.

Lemma calmly_wait c reqs t : calmly (waitForEnforcementReady c reqs t).
Proof. induction reqs as [|req reqs IH]; cbn; calm; [apply calmly_poll|apply IH]. Qed.

Lemma calmly_status n : calmly (GetStatusWithResourceVersion n).
Proof. unfold GetStatusWithResourceVersion. calm. Qed.

Lemma calmly_identity n : calmly (GetWithIdentityAndResourceVersion n).
Proof. unfold GetWithIdentityAndResourceVersion. calm. Qed.

Lemma calmly_podlock l o c b ns : calmly (validatePodLockBeforeBinding l o c b ns).
Proof. unfold validatePodLockBeforeBinding. calm. Qed.

Lemma calmly_before_binding n d : calmly (revalidateBeforeBinding n d).
Proof. unfold revalidateBeforeBinding, Get, GetStatus. calm; apply calmly_status. Qed.

(** ** One artifact *)

(** The two reads that authorise a mutation: the proposal is the one [Run]
    started from, approved as it is, with the planned candidate and target. *)
Definition authorised (uid digest : string) (target : GovernedTarget) (o1 o2 : KObject Spec Status) : Prop :=
  ∃ spec status, o_UID o1 = uid ∧ o_Spec o1 = Some spec ∧ statusFromObject o2 = Ok status ∧
    ValidateApprovedCandidate (Some spec) (Some status) = Ok () ∧ CandidateDigest spec = Ok digest ∧
    target_of spec = Some target.

Definition fresh (name uid digest : string) (target : GovernedTarget) (evs : list event) : Prop :=
  ∃ o1 o2, authorised uid digest target o1 o2 ∧ evs = [EvRead name (Ok o1); EvRead name (Ok o2)].

(** Under a cluster-scoped client a profile is mutated with it, under its own
    authorisation; everything else with the client of the operator. *)
Definition authorisation (scoped : bool) (name digest : string) (target : GovernedTarget) (p : plannedArtifact) : Client * list event :=
  if bool_decide (p_gvk p = SeccompProfileGVK) && scoped
  then (ClusterScopedClient, [EvAuthorize name digest target (p_obj p) (Ok ())]) else (DynamicClient, []).

(** The calls of an artifact before its mutation. *)
Definition ahead (name uid digest : string) (target : GovernedTarget) (scoped : bool) (st : Attempt.Status) (p : plannedArtifact)
  (client : Client) (before : option json) (evs : list event) : Prop :=
  ∃ reads auth obj, fresh name uid digest target reads ∧
    authorisation scoped name digest target p = (client, auth) ∧
    evs = reads ++ auth ++ [EvObserve client (p_obj p) (Ok before);
      EvSave (with_mutations st (Attempt.st_Mutations st ++ [mutationRecordFor p before])) (Ok obj)].

Lemma ValidateApprovedCandidate_None s : is_ok (ValidateApprovedCandidate s None) = false.
Proof.
  destruct s as [s|]; [|done]. cbn. destruct (normalizedCandidateVersion _) as [v|e]; [|done]. cbn.
  by destruct (bool_decide _).
Qed.

Lemma read_identity_traced name :
  traced journal (GetWithIdentityAndResourceVersion name) (fun evs r =>
    match r with
    | Ok (Some spec, uid, _) => ∃ o, evs = [EvRead name (Ok o)] ∧ o_UID o = uid ∧ o_Spec o = Some spec ∧
        ValidateProposalSpec spec = Ok ()
    | _ => calm evs
    end).
Proof.
  eapply traced_try; [apply journal_read|]. cbn. intros r evs ->. destruct r as [o|e].
  - destruct (o_Spec o) as [s|] eqn:E; [|by apply traced_err; repeat constructor].
    apply traced_lift_bind; [|by repeat constructor]. intros [] Ev. apply traced_ret. by exists o.
  - destruct (IsNotFound e); [apply traced_ret|apply traced_err]; by repeat constructor.
Qed.

Lemma read_status_traced name :
  traced journal (GetStatus name) (fun evs r =>
    match r with
    | Ok (Some status) => ∃ o, evs = [EvRead name (Ok o)] ∧ statusFromObject o = Ok status
    | _ => calm evs
    end).
Proof.
  unfold GetStatus, GetStatusWithResourceVersion.
  eapply (traced_bind _ _ _ (fun evs r => match r with
    | Ok (Some status, _) => ∃ o, evs = [EvRead name (Ok o)] ∧ statusFromObject o = Ok status
    | _ => calm evs end)).
  - eapply traced_try; [apply journal_read|]. cbn. intros r evs ->. destruct r as [o|e].
    + apply traced_lift_bind; [|by repeat constructor]. intros s E. apply traced_ret. by exists o.
    + destruct (IsNotFound e); [apply traced_ret|apply traced_err]; by repeat constructor.
  - intros [[s|] rv] evs Hx; apply traced_ret; rewrite app_nil_r; exact Hx.
  - intros e evs Hx. exact Hx.
Qed.

Lemma calm_read name r : calm [EvRead name r].
Proof. by repeat constructor. Qed.

Lemma calm_fresh name uid digest target evs : fresh name uid digest target evs → calm evs.
Proof. intros (o1 & o2 & _ & ->). by repeat constructor. Qed.

Lemma calm_authorisation scoped name digest target p client auth :
  authorisation scoped name digest target p = (client, auth) → calm auth.
Proof. unfold authorisation. destruct (_ && _); intros [= <- <-]; by repeat constructor. Qed.

(** Close a branch that fails. *)
Ltac fails := unfold fail_msg; first [apply traced_err | idtac]; intros; rewrite ?app_nil_r; try done.

Lemma revalidate_traced name uid target digest rv :
  traced journal (revalidateAttemptBeforeMutation name uid target digest rv) (fun evs r =>
    match r with Ok _ => fresh name uid digest target evs | Err _ => calm evs end).
Proof.
  unfold revalidateAttemptBeforeMutation.
  eapply traced_bind; [apply read_identity_traced| |by auto]. intros [[[spec|] uid'] rv'] evs Hx; [|by fails].
  destruct Hx as (o1 & -> & Hu & Hs & _).
  destruct (negb (bool_decide (uid' = uid))) eqn:Eu; [by fails; apply calm_read|].
  destruct (_ && _); [by fails; apply calm_read|].
  eapply traced_bind; [apply read_status_traced| |intros e evs Hx; by constructor].
  intros [status|] evs Hx; last first.
  { apply traced_lift_bind; [|intros; rewrite app_nil_r; by constructor].
    intros [] E. pose proof (ValidateApprovedCandidate_None (Some spec)) as Hn. by rewrite E in Hn. }
  destruct Hx as (o2 & -> & Hst).
  assert (Hc : calm [EvRead name (Ok o1); EvRead name (Ok o2)]) by (by repeat constructor).
  apply traced_lift_bind; [|by fails]. intros [] Ev.
  apply traced_lift_bind; [|by fails]. intros d Ed.
  destruct (negb (bool_decide (d = digest))) eqn:E1; [by fails|].
  destruct (is_nil (sp_TargetBinding spec)); [by fails|].
  destruct (negb (bool_decide (target_of spec = _))) eqn:E2; [by fails|].
  apply traced_ret. exists o1, o2. split; [|done]. exists spec, status.
  rewrite negb_false_iff, bool_decide_eq_true in Eu, E1, E2. subst. done.
Qed.

Lemma calmly_fail {A} obj st e : Attempt.st_State st ≠ Attempt.StateApplied →
  calmly (save_then_fail (A := A) deps obj st e).
Proof. intros Hx. apply all_try; [by apply calmly_save|]. intros r. apply all_err. Qed.

Lemma failure_state_not_applied st state :
  state ≠ Attempt.StateApplied → failure_state st state ≠ Attempt.StateApplied.
Proof. intros Hx. unfold failure_state. by destruct (_ && _). Qed.

Lemma calmly_markFailure {A} obj st state reason : state ≠ Attempt.StateApplied →
  calmly (markFailure (A := A) deps obj st state reason).
Proof.
  intros Hx. apply all_try; [by apply calmly_save, failure_state_not_applied|].
  intros [o|e]; apply all_err.
Qed.

(** [markFailure] and [save_then_fail] never return. *)
Lemma markFailure_fails {A} obj st state reason T :
  (∀ evs e, calm evs → T evs (Err e)) → state ≠ Attempt.StateApplied →
  traced journal (markFailure (A := A) deps obj st state reason) T.
Proof.
  intros HT Hx. eapply traced_try; [apply journal_save|]. cbn. intros r evs ->.
  destruct r as [o|e]; fails; apply HT; repeat constructor; by apply failure_state_not_applied.
Qed.

Lemma save_then_fail_fails {A} obj st e T :
  (∀ evs e, calm evs → T evs (Err e)) → Attempt.st_State st ≠ Attempt.StateApplied →
  traced journal (save_then_fail (A := A) deps obj st e) T.
Proof.
  intros HT Hx. eapply traced_try; [apply journal_save|]. cbn. intros r evs ->. fails. apply HT. by repeat constructor.
Qed.

Section artifact.
Variable x : Context.

Lemma calmly_bindingGate obj st p : calmly (bindingGate deps x obj st p).
Proof.
  unfold bindingGate. destruct (_ =? _); [|apply all_ret].
  apply all_bind; [apply calmly_wait|intros _]. apply all_bind; [apply calmly_podlock|intros _].
  apply all_bind; [apply calmly_hook, journal_ready|intros _].
  apply all_try; [apply calmly_before_binding|]. intros [[]|e]; [apply all_ret|by apply calmly_markFailure].
Qed.

Lemma authorize_traced obj st p :
  traced journal (authorize deps x obj st p) (fun evs r =>
    match r with
    | Ok client => ∃ reads auth, fresh (x_name x) (x_uid x) (x_digest x) (x_target x) reads ∧
        authorisation (x_scoped x) (x_name x) (x_digest x) (x_target x) p = (client, auth) ∧
        evs = reads ++ auth
    | Err _ => calm evs
    end).
Proof.
  eapply traced_try; [apply revalidate_traced|]. intros [[]|e] evs Hx; last first.
  { apply markFailure_fails; [|done]. intros evs' e' Hy. by apply Forall_app. }
  unfold authorisation. destruct (_ && _).
  - destruct (AuthorizeClusterScopedArtifact deps) as [auth|] eqn:Ea; last first.
    { fails. by eapply calm_fresh. }
    eapply traced_try; [by apply journal_authorize|]. cbn. intros r' evs' ->. destruct r' as [[]|e].
    + apply traced_ret. eexists evs, _. rewrite app_nil_r. auto.
    + apply markFailure_fails; [|done]. intros evs' e' Hy. apply Forall_app. split; [by eapply calm_fresh|].
      by constructor.
  - apply traced_ret. exists evs, []. auto.
Qed.

Lemma writeAhead_traced obj st p client :
  Attempt.st_State st = Attempt.StateInProgress →
  traced journal (writeAhead deps obj st p client) (fun evs r =>
    match r with
    | Ok (before, (obj', st')) =>
        st' = with_mutations st (Attempt.st_Mutations st ++ [mutationRecordFor p before]) ∧
        evs = [EvObserve client (p_obj p) (Ok before); EvSave st' (Ok obj')]
    | Err _ => calm evs
    end).
Proof.
  intros Hip. eapply traced_try; [apply journal_observe|]. cbn. intros r evs ->. destruct r as [before|e]; last first.
  { apply markFailure_fails; [|done]. intros evs' e' Hy. by constructor. }
  assert (Hs : Attempt.st_State (with_mutations st (Attempt.st_Mutations st ++ [mutationRecordFor p before]))
    ≠ Attempt.StateApplied) by (cbn; by rewrite Hip).
  eapply traced_try; [apply journal_save|]. cbn. intros r evs ->. destruct r as [obj'|e].
  - apply traced_ret. done.
  - apply save_then_fail_fails; [|cbn; by destruct (hasSuccessfulMutation _)].
    intros evs' e' Hy. by repeat constructor.
Qed.

Lemma afterFailure_traced obj st p client record e :
  Attempt.st_State st = Attempt.StateInProgress →
  traced journal (afterFailure deps obj st p client record e) (fun evs r => calm evs ∧ is_ok r = false).
Proof.
  intros Hip. eapply traced_try; [apply journal_observe|]. cbn. intros r evs ->. destruct r as [after|e']; last first.
  { apply save_then_fail_fails; [|done]. intros evs' e'' Hy. split; [by constructor|done]. }
  destruct (observedMutationValue _ _) as [observed observedDigest].
  assert (Hs : ∀ l, Attempt.st_State (with_last st l) ≠ Attempt.StateApplied) by (intros l; cbn; by rewrite Hip).
  eapply traced_try; [apply journal_save|]. cbn beta. intros r evs ->. destruct r as [obj'|e'].
  - destruct (bool_decide (_ = Attempt.ResultUnknown)).
    + apply save_then_fail_fails; [|done]. intros evs' e'' Hy. split; [|done]. repeat constructor; [apply Hs|done].
    + apply markFailure_fails; [|done]. intros evs' e'' Hy. split; [|done]. repeat constructor; [apply Hs|done].
  - apply save_then_fail_fails; [|done]. intros evs' e'' Hy. split; [|done]. repeat constructor; [apply Hs|done].
Qed.

(** The final record of an applied artifact. *)
Definition applied_record (p : plannedArtifact) (m : Attempt.MutationRecord) : Prop :=
  Attempt.m_GVK m = p_gvk p ∧ Attempt.m_Namespace m = p_ns p ∧ Attempt.m_Name m = p_nameStr p ∧
  Attempt.m_IntendedAfter m = mutationSnapshot (p_gvk p) (p_obj p) ∧ Attempt.m_Result m = Attempt.ResultSucceeded.

Lemma applied_record_for p before observed observedDigest attributable :
  applied_record p (with_result (mutationRecordFor p before) observed observedDigest attributable
    Attempt.ResultSucceeded "").
Proof.
  unfold mutationRecordFor. destruct (observedMutationValue _ _) as [bv bd].
  destruct before as [o|]; cbn; by repeat split.
Qed.

Lemma afterSuccess_traced obj st p client before observation :
  Attempt.st_State st = Attempt.StateInProgress →
  traced journal (afterSuccess deps obj st p client (mutationRecordFor p before) observation) (fun evs r =>
    calm evs ∧
    match r with
    | Ok (obj', st') => ∃ pre m, applied_record p m ∧ st' = with_last st m ∧ evs = pre ++ [EvSave st' (Ok obj')]
    | Err _ => True
    end).
Proof.
  intros Hip. eapply traced_try; [apply journal_observe|]. intros r evs Hx; cbn beta in *; subst.
  destruct r as [[after|]|e]; [|by apply save_then_fail_fails; [|done]; intros evs' e'' Hy; split; [by constructor|]..].
  destruct (observedMutationValue _ _) as [observed observedDigest] eqn:Eo.
  eapply traced_try; [apply journal_save|]. cbn beta. intros r evs ->. destruct r as [obj'|e'].
  - apply traced_ret. split; [repeat constructor; cbn; by rewrite Hip|]. rewrite app_nil_r. eexists [_], _. split; [apply applied_record_for|done].
  - apply save_then_fail_fails; [|done]. intros evs' e'' Hy. split; [|done]. repeat constructor; [cbn; by rewrite Hip|done].
Qed.

(** What one artifact adds to the journal: nothing of note, or one mutation
    with the calls that must precede it and, on success, its final record. *)
Definition artifact_trace (st : Attempt.Status) (p : plannedArtifact) (evs : list event)
  (r : result (Attempt.Object * Attempt.Status)) : Prop :=
  (is_ok r = false ∧ calm evs) ∨
  ∃ pre a client before res post, calm pre ∧
    ahead (x_name x) (x_uid x) (x_digest x) (x_target x) (x_scoped x) st p client before a ∧ calm post ∧
    evs = pre ++ a ++ EvMutate client (p_ns p) (p_content p) (guard_of before) res :: post ∧
    match r with
    | Ok (obj', st') => is_ok res = true ∧ ∃ post' m, applied_record p m ∧
        st' = with_mutations st (Attempt.st_Mutations st ++ [m]) ∧ post = post' ++ [EvSave st' (Ok obj')]
    | Err _ => True
    end.

Lemma applyArtifact_traced obj st p :
  Attempt.st_State st = Attempt.StateInProgress →
  traced journal (applyArtifact deps x (obj, st) p) (artifact_trace st p).
Proof.
  intros Hip. eapply traced_bind; [apply calmly_bindingGate| |by left]. intros [] pre Hpre. cbv beta.
  eapply traced_bind; [apply authorize_traced| |intros e evs Hx; left; split; [done|by apply Forall_app]].
  intros client evs1 (reads & auth & Hf & Hau & ->).
  assert (Hc1 : calm (reads ++ auth)).
  { apply Forall_app. split; [by eapply calm_fresh|by eapply calm_authorisation]. }
  eapply traced_bind; [by apply writeAhead_traced| |intros e evs Hx; left; split; [done|unfold calm in *; rewrite !Forall_app in *; tauto]].
  intros (before & obj' & st') evs2 [Hst ->].
  set (a := reads ++ auth ++ [EvObserve client (p_obj p) (Ok before); EvSave st' (Ok obj')]).
  assert (Ha : ahead (x_name x) (x_uid x) (x_digest x) (x_target x) (x_scoped x) st p client before a).
  { exists reads, auth, obj'. split; [done|]. split; [done|]. unfold a. by subst st'. }
  assert (Hip' : Attempt.st_State st' = Attempt.StateInProgress) by (by subst st').
  eapply traced_try; [apply journal_mutate|]. cbv beta. intros res evs3 ->.
  assert (Hshape : ∀ e post, pre ++ (reads ++ auth) ++ [EvObserve client (p_obj p) (Ok before); EvSave st' (Ok obj')] ++
    [e] ++ post = pre ++ a ++ e :: post) by (intros e post; unfold a; by rewrite <-!app_assoc).
  destruct res as [ob|e].
  - eapply traced_mono; [by apply afterSuccess_traced|]. intros post r [Hpost Hr]. right.
    exists pre, a, client, before, (Ok ob), post. repeat split; [done..|by apply Hshape|].
    destruct r as [[obj'' st'']|e]; [|done]. split; [done|]. destruct Hr as (post' & m & Hm & -> & ->).
    exists post', m. split; [done|]. split; [|done]. subst st'. unfold with_last. cbn. by rewrite removelast_last.
  - eapply traced_mono; [by apply afterFailure_traced|]. intros post r [Hpost Hr]. right.
    exists pre, a, client, before, (Err e), post. repeat split; [done..|by apply Hshape|]. by destruct r.
Qed.

(** ** The plan *)
Definition no_claim (e : event) : Prop :=
  match e with EvSave st _ => Attempt.st_State st ≠ Attempt.StateApplied | _ => True end.

Lemma calm_no_claim evs : calm evs → Forall no_claim evs.
Proof. intros Hx. eapply Forall_impl; [exact Hx|]. by intros []. Qed.

Definition attempted (b : bool) (p : plannedArtifact) : string * string * bool := (p_ns p, p_content p, b).
Definition succeeded (m : Attempt.MutationRecord) : Prop := Attempt.m_Result m = Attempt.ResultSucceeded.

(** What stands immediately before a mutation. *)
Definition preceded (plan : list plannedArtifact) (before_it : list event)
  (client : Client) (ns content : string) (g : ApplyGuard) : Prop :=
  ∃ l0 a p st before, before_it = l0 ++ a ∧ p ∈ plan ∧ ns = p_ns p ∧ content = p_content p ∧ g = guard_of before ∧
    Attempt.st_State st = Attempt.StateInProgress ∧ Forall succeeded (Attempt.st_Mutations st) ∧
    ahead (x_name x) (x_uid x) (x_digest x) (x_target x) (x_scoped x) st p client before a.

Definition write_ahead (plan : list plannedArtifact) (evs : list event) : Prop :=
  ∀ l k client ns content g r, evs = l ++ EvMutate client ns content g r :: k → preceded plan l client ns content g.

(** The mutations of a run that stopped at an artifact. *)
Definition stopped (plan : list plannedArtifact) (ms : list (string * string * bool)) : Prop :=
  ∃ applied rest, plan = applied ++ rest ∧
    (ms = map (attempted true) applied ∨
     ∃ p rest' b, rest = p :: rest' ∧ ms = map (attempted true) applied ++ [attempted b p]).

Lemma preceded_mono plan plan' l1 l2 client ns content g :
  (∀ p, p ∈ plan → p ∈ plan') → preceded plan l2 client ns content g → preceded plan' (l1 ++ l2) client ns content g.
Proof.
  intros Hp (l0 & a & p & st & before & -> & Hin & Hx). exists (l1 ++ l0), a, p, st, before.
  rewrite app_assoc. auto.
Qed.

Lemma write_ahead_mono plan plan' evs :
  (∀ p, p ∈ plan → p ∈ plan') → write_ahead plan evs → write_ahead plan' evs.
Proof. intros Hp Hx l k client ns content g r E. apply (preceded_mono plan plan' []); [done|by eapply Hx]. Qed.

Lemma write_ahead_app plan l1 l2 : write_ahead plan l1 → write_ahead plan l2 → write_ahead plan (l1 ++ l2).
Proof.
  intros H1 H2 l k client ns content g r E. apply app_eq_inv in E as [(t & Ht & E)|(t & -> & E)].
  - destruct t as [|e t]; cbn in E.
    + rewrite app_nil_r in Ht. subst l1. rewrite <-(app_nil_r l). apply (preceded_mono plan plan l []); [done|].
      by eapply (H2 []).
    + injection E as <- _. by eapply H1.
  - apply (preceded_mono plan); [done|]. by eapply H2.
Qed.

Lemma calm_write_ahead plan evs : calm evs → write_ahead plan evs.
Proof.
  intros Hc l k client ns content g r ->. apply Forall_app in Hc as [_ Hc]. by apply Forall_cons in Hc as [[] _].
Qed.

Lemma calm_split pre e l k e' : calm pre → ¬ calm_event e' → pre ++ [e] = l ++ e' :: k → pre = l ∧ e = e'.
Proof.
  intros Hc He E. destruct k as [|k0 k _] using rev_ind.
  - apply app_inj_tail in E as [-> ->]. done.
  - change (l ++ e' :: k ++ [k0]) with (l ++ (e' :: k) ++ [k0]) in E. rewrite app_assoc in E.
    apply app_inj_tail in E as [-> _]. apply Forall_app in Hc as [_ Hc]. by apply Forall_cons in Hc as [? _].
Qed.

Lemma calm_ahead name uid digest target scoped st p client before a :
  Attempt.st_State st = Attempt.StateInProgress → ahead name uid digest target scoped st p client before a → calm a.
Proof.
  intros Hip (reads & auth & obj & Hf & Hau & ->). apply Forall_app. split; [by eapply calm_fresh|].
  apply Forall_app. split; [by eapply calm_authorisation|]. repeat constructor; cbn; by rewrite Hip.
Qed.

Lemma artifact_write_ahead st p evs r :
  Attempt.st_State st = Attempt.StateInProgress → Forall succeeded (Attempt.st_Mutations st) →
  artifact_trace st p evs r → write_ahead [p] evs.
Proof.
  intros Hip Hs [[_ Hc]|(pre & a & client & before & res & post & Hpre & Ha & Hpost & -> & _)];
    [by apply calm_write_ahead|].
  apply write_ahead_app; [by apply calm_write_ahead|].
  change (a ++ ?e :: post) with (a ++ [e] ++ post). rewrite app_assoc.
  apply write_ahead_app; [|by apply calm_write_ahead].
  intros l k client' ns content g r' E. apply calm_split in E as [<- [= <- <- <- <- <-]];
    [|by eapply calm_ahead|by intros []].
  exists [], a, p, st, before. repeat split; [set_solver|done..].
Qed.

Lemma artifact_no_claim st p evs r :
  Attempt.st_State st = Attempt.StateInProgress → artifact_trace st p evs r → Forall no_claim evs.
Proof.
  intros Hip [[_ Hc]|(pre & a & client & before & res & post & Hpre & Ha & Hpost & -> & _)];
    [by apply calm_no_claim|].
  apply calm_ahead in Ha; [|done]. rewrite !Forall_app, Forall_cons. by repeat split; try apply calm_no_claim.
Qed.

Lemma artifact_mutations st p evs r :
  Attempt.st_State st = Attempt.StateInProgress → artifact_trace st p evs r →
  match r with
  | Ok _ => mutations evs = [attempted true p]
  | Err _ => mutations evs = [] ∨ ∃ b, mutations evs = [attempted b p]
  end.
Proof.
  intros Hip [[Hr Hc]|(pre & a & client & before & res & post & Hpre & Ha & Hpost & -> & Hr)].
  { destruct r; [done|]. left. by apply calm_mutations. }
  apply calm_ahead in Ha; [|done].
  assert (Hm : mutations (pre ++ a ++ EvMutate client (p_ns p) (p_content p) (guard_of before) res :: post) =
    [attempted (is_ok res) p]).
  { change (EvMutate ?c ?n ?t ?g ?q :: post) with ([EvMutate c n t g q] ++ post).
    rewrite !mutations_app, (calm_mutations pre), (calm_mutations a), (calm_mutations post) by done. done. }
  destruct r as [[obj' st']|e]; [destruct Hr as [Hr _]; by rewrite Hr in Hm|eauto].
Qed.

(** What the plan adds to the journal, from custody [st]. *)
Definition plan_trace (st : Attempt.Status) (plan : list plannedArtifact) (evs : list event)
  (r : result (Attempt.Object * Attempt.Status)) : Prop :=
  write_ahead plan evs ∧ Forall no_claim evs ∧
  match r with
  | Ok (_, st') => mutations evs = map (attempted true) plan ∧
      ∃ ms, Forall2 applied_record plan ms ∧ st' = with_mutations st (Attempt.st_Mutations st ++ ms)
  | Err _ => stopped plan (mutations evs)
  end.

Lemma applied_succeeded p m : applied_record p m → succeeded m.
Proof. by intros (_ & _ & _ & _ & Hx). Qed.

Lemma stopped_cons p plan ms : stopped plan ms → stopped (p :: plan) (attempted true p :: ms).
Proof.
  intros (applied & rest & -> & [->|(q & rest' & b & -> & ->)]).
  - exists (p :: applied), rest. auto.
  - exists (p :: applied), (q :: rest'). split; [done|]. right. by exists q, rest', b.
Qed.

Lemma artifact_stopped st p plan evs e : Attempt.st_State st = Attempt.StateInProgress →
  artifact_trace st p evs (Err e) → stopped (p :: plan) (mutations evs).
Proof.
  intros Hip Hx. exists [], (p :: plan). split; [done|].
  destruct (artifact_mutations _ _ _ _ Hip Hx) as [->|[b ->]]; [by left|]. right. by exists p, plan, b.
Qed.

Lemma applyPlan_traced plan obj st :
  Attempt.st_State st = Attempt.StateInProgress → Forall succeeded (Attempt.st_Mutations st) →
  traced journal (applyPlan deps x (obj, st) plan) (plan_trace st plan).
Proof.
  revert obj st. induction plan as [|p plan IH]; intros obj st Hip Hs.
  { apply traced_ret. split; [apply calm_write_ahead; by constructor|]. split; [by constructor|]. split; [done|].
    exists []. split; [constructor|].
    rewrite app_nil_r. by destruct st. }
  eapply traced_bind; [by apply applyArtifact_traced| |].
  - intros [obj1 st1] evs Hx. pose proof (artifact_mutations _ _ _ _ Hip Hx) as Hm.
    pose proof (artifact_write_ahead _ _ _ _ Hip Hs Hx) as Hw. pose proof (artifact_no_claim _ _ _ _ Hip Hx) as Hn.
    destruct Hx as [[? _]|(pre & a & client & before & res & post & _ & _ & _ & _ & _ & post' & m & Ha & -> & _)];
      [done|].
    eapply traced_mono; [apply IH; [done|]|].
    { cbn. apply Forall_app. split; [done|]. repeat constructor. by eapply applied_succeeded. }
    intros evs' r (Hw' & Hn' & Hr). split; [|split].
    + apply write_ahead_app; [eapply write_ahead_mono; [|exact Hw]|eapply write_ahead_mono; [|exact Hw']];
        intros q Hq; [apply list_elem_of_singleton in Hq as ->|]; by constructor.
    + by apply Forall_app.
    + rewrite mutations_app, Hm. destruct r as [[obj2 st2]|e]; [|by apply stopped_cons].
      destruct Hr as (-> & ms & Hms & ->). split; [done|]. exists (m :: ms). split; [by constructor|].
      unfold with_mutations. cbn. by rewrite <-app_assoc.
  - intros e evs Hx. split; [|split].
    + eapply write_ahead_mono; [|by eapply artifact_write_ahead]. intros q Hq.
      apply list_elem_of_singleton in Hq as ->. by constructor.
    + by eapply artifact_no_claim.
    + by eapply artifact_stopped.
Qed.

(** ** The attempt *)

(** The claim of success, made durable. *)
Definition claimed (e : event) : Prop :=
  match e with EvSave st (Ok _) => Attempt.st_State st = Attempt.StateApplied | _ => False end.

Definition attempt_trace (spec : Attempt.Spec) (plan : list plannedArtifact) (evs : list event) (r : result unit)
  : Prop :=
  ∃ created evs', evs = EvCreate spec created :: evs' ∧ (is_ok created = false → evs' = []) ∧ write_ahead plan evs ∧
  match r with
  | Ok _ => is_ok created = true ∧ mutations evs = map (attempted true) plan ∧ ∃ pre st o,
      evs' = pre ++ [EvSave st (Ok o)] ∧ Forall no_claim pre ∧
      Attempt.st_State st = Attempt.StateApplied ∧ Forall2 applied_record plan (Attempt.st_Mutations st)
  | Err _ => stopped plan (mutations evs) ∧ Forall (fun e => ¬ claimed e) evs
  end.

Lemma no_claim_not_claimed evs : Forall no_claim evs → Forall (fun e => ¬ claimed e) evs.
Proof. intros Hx. eapply Forall_impl; [exact Hx|]. intros [] He Hc; try done.
  cbn in *. by destruct r.
Qed.

Lemma write_ahead_cons plan e evs :
  mutation_of e = None → write_ahead plan evs → write_ahead plan (e :: evs).
Proof.
  intros He Hw. apply (write_ahead_app plan [e]); [|done]. intros l k client ns content g r E.
  destruct l as [|? [|]]; cbn in E; by simplify_eq.
Qed.

Lemma stopped_nil plan : stopped plan [].
Proof. exists [], plan. split; [done|]. by left. Qed.

Lemma not_claimed_err st e : ¬ claimed (EvSave st (Err e)).
Proof. by intros []. Qed.

(** The plan and the final save, from an attempt in progress. *)
Definition tail_trace (plan : list plannedArtifact) (evs : list event) (r : result unit) : Prop :=
  write_ahead plan evs ∧
  match r with
  | Ok _ => mutations evs = map (attempted true) plan ∧ ∃ pre st o,
      evs = pre ++ [EvSave st (Ok o)] ∧ Forall no_claim pre ∧
      Attempt.st_State st = Attempt.StateApplied ∧ Forall2 applied_record plan (Attempt.st_Mutations st)
  | Err _ => stopped plan (mutations evs) ∧ Forall (fun e => ¬ claimed e) evs
  end.

Lemma stopped_all plan : stopped plan (map (attempted true) plan).
Proof. exists plan, []. rewrite app_nil_r. split; [done|]. by left. Qed.

Lemma tail_traced plan obj st :
  Attempt.st_State st = Attempt.StateInProgress → Attempt.st_Mutations st = [] →
  traced journal (c <- applyPlan deps x (obj, st) plan ;!
    now <- api_now ;!
    do SaveAttemptStatus deps c.1 (Attempt.mkStatus Attempt.StateApplied (Attempt.st_UpdatedAt c.2)
       (format_rfc3339nano now) (Attempt.st_Failure c.2) (Attempt.st_Mutations c.2)) ;!
    m_ret ()) (tail_trace plan).
Proof.
  intros Hip Hnil. eapply traced_bind; [apply applyPlan_traced; [done|by rewrite Hnil]| |].
  - intros [obj' st'] evs (Hw & Hn & Hm & ms & Hms & ->). rewrite Hnil in *.
    apply traced_quiet_bind; [apply journal_now| |].
    + intros now. cbn [fst snd]. set (final := Attempt.mkStatus _ _ _ _ _).
      assert (Hfin : ∀ q, write_ahead plan (evs ++ [EvSave final q])).
      { intros q. apply write_ahead_app; [done|]. apply write_ahead_cons; [done|]. by apply calm_write_ahead; constructor. }
      assert (Hmut : ∀ q, mutations (evs ++ [EvSave final q]) = map (attempted true) plan)
        by (intros q; by rewrite mutations_app, Hm, app_nil_r).
      eapply traced_bind; [apply journal_save| |]; cbv beta.
      * intros o evs' ->. apply traced_ret. rewrite app_nil_r. split; [done|]. split; [done|].
        exists evs, final, o. done.
      * intros e evs' ->. split; [done|]. rewrite Hmut. split; [apply stopped_all|]. apply Forall_app.
        split; [by apply no_claim_not_claimed|]. repeat constructor. by apply not_claimed_err.
    + intros e. rewrite app_nil_r. split; [done|]. rewrite Hm. split; [apply stopped_all|by apply no_claim_not_claimed].
  - intros e evs (Hw & Hn & Hs). split; [done|]. split; [done|by apply no_claim_not_claimed].
Qed.

Lemma attempt_traced spec plan : traced journal (attempt deps x spec plan) (attempt_trace spec plan).
Proof.
  assert (Hnil : write_ahead plan []) by (apply calm_write_ahead; constructor).
  eapply traced_bind; [apply journal_create| |]; cbv beta; last first.
  { intros e evs ->. exists (Err e), []. split; [done|]. split; [done|]. split; [by apply write_ahead_cons|].
    split; [apply stopped_nil|]. by repeat constructor; intros []. }
  intros created evs ->. cbv zeta. set (st := Attempt.mkStatus _ _ _ _ _).
  eapply traced_bind; [apply journal_save| |]; cbv beta; last first.
  { intros e evs ->. exists (Ok created), [EvSave st (Err e)]. split; [done|]. split; [done|].
    split; [by repeat apply write_ahead_cons|]. split; [apply stopped_nil|].
    constructor; [by intros []|]. constructor; [apply not_claimed_err|constructor]. }
  intros obj evs ->. eapply traced_mono; [by apply tail_traced|]. intros evs r [Hw Hr].
  exists (Ok created), (EvSave st (Ok obj) :: evs). split; [done|]. split; [done|]. split; [by repeat apply write_ahead_cons|].
  destruct r as [[]|e].
  - destruct Hr as (Hm & pre & st' & o & -> & Hpre & Ha & Hms). split; [done|]. split; [done|].
    exists (EvSave st (Ok obj) :: pre), st', o. split; [done|]. split; [|done]. constructor; [discriminate|done].
  - destruct Hr as [Hs Hc]. split; [done|].
    constructor; [by intros []|]. by constructor; [intros Hx; discriminate Hx|].
Qed.
End artifact.

(** ** Run *)

(** The plan [Run] makes of a specification. *)
Definition planned (opts : Options) (certification : bool) (spec : Spec) : result (list plannedArtifact) :=
  skip ← parseSkipArtifacts (Skip opts);
  let '(toApply, _, _) := select_artifacts skip (Restart opts) (proposalArtifacts spec) in
  build_plan skip (Namespace opts) certification toApply.

(** With a plan that has a profile, the run is cluster-scoped exactly when the
    caller supplies the client for it. *)
Definition scoped_as_configured (x : Context) (plan : list plannedArtifact) : Prop :=
  ∀ p, p ∈ plan → p_gvk p = SeccompProfileGVK → x_scoped x = bool_decide (is_Some (NewClusterScopedClient deps)).

(** [Run] stopped before anything was created, or read an approved proposal
    first, planned it and went through the attempt. *)
Definition run_trace (opts : Options) (name : string) (certification : bool) (evs : list event) (r : result unit)
  : Prop :=
  calm evs ∨
  ∃ o spec status x aspec plan pre evs',
    evs = EvRead name (Ok o) :: pre ++ evs' ∧ calm pre ∧ o_Spec o = Some spec ∧
    ValidateApprovedCandidate (Some spec) (Some status) = Ok () ∧
    planned opts certification spec = Ok plan ∧
    x_name x = name ∧ x_uid x = o_UID o ∧ CandidateDigest spec = Ok (x_digest x) ∧ target_of spec = Some (x_target x) ∧
    Attempt.ProposalName aspec = name ∧ Attempt.ProposalUID aspec = o_UID o ∧ Attempt.Target aspec = x_target x ∧
    Attempt.ApprovedCandidateDigest aspec = x_digest x ∧ scoped_as_configured x plan ∧
    attempt_trace x aspec plan evs' r.

Lemma preflight_traced opts name :
  traced journal (preflight opts name) (fun evs r =>
    match r with
    | Ok (spec, uid, target) => ∃ o status pre, evs = EvRead name (Ok o) :: pre ∧ calm pre ∧
        o_Spec o = Some spec ∧ o_UID o = uid ∧ target_of spec = Some target ∧
        ValidateApprovedCandidate (Some spec) (Some status) = Ok ()
    | Err _ => calm evs
    end).
Proof.
  unfold preflight. eapply traced_bind; [apply read_identity_traced| |by auto].
  intros [[[spec|] uid] rv] evs Hx; [|by fails].
  destruct Hx as (o & -> & Hu & Hs & _).
  destruct (empty uid); [by fails; apply calm_read|]. destruct (_ && _); [by fails; apply calm_read|].
  destruct (sp_TargetBinding spec) as [b|] eqn:Eb; [|by fails; apply calm_read].
  apply traced_lift_bind; [|by intros; rewrite app_nil_r; apply calm_read]. intros target Et.
  eapply traced_bind; [apply read_status_traced| |intros e evs Hx; by constructor].
  intros [status|] evs Hx; last first.
  { apply traced_lift_bind; [|intros; rewrite app_nil_r; by constructor].
    intros [] E. pose proof (ValidateApprovedCandidate_None (Some spec)) as Hn. by rewrite E in Hn. }
  destruct Hx as (o2 & -> & Hst). apply traced_lift_bind; [|by intros; rewrite app_nil_r; repeat constructor].
  intros [] Ev. apply traced_ret. exists o, status, [EvRead name (Ok o2)].
  split; [done|]. split; [by repeat constructor|].
  split; [exact Hs|]. split; [exact Hu|]. split; [|exact Ev].
  unfold target_of. by rewrite Eb, Et.
Qed.

Lemma calmly_status_only n : calmly (GetStatus n).
Proof. apply all_bind; [apply calmly_status|intros ?; apply all_ret]. Qed.

(** A candidate-v2 specification has no target binding. *)
Lemma target_of_v1 spec target status :
  ValidateProposalSpec spec = Ok () → target_of spec = Some target →
  ValidateApprovedCandidate (Some spec) (Some status) = Ok () →
  CandidateDigest spec = Ok (st_ApprovedCandidateDigest status).
Proof.
  unfold ValidateProposalSpec, ValidateApprovedCandidate, target_of. intros Hs Ht Hva.
  apply result_bind_Ok in Hs as (v & Hv & Hs). rewrite Hv in Hva. cbn [mbind result_bind] in Hva.
  destruct (normalizedCandidateVersion_Ok _ _ Hv) as [E|E]; subst v; cbn in Hs, Hva; [by apply validateApprovedV1_digest|].
  destruct (sp_TargetBinding spec); [|done]. cbn in Hs. rewrite !orb_true_r in Hs. done.
Qed.

Lemma revalidateBeforeAttempt_traced name uid target digest :
  traced journal (revalidateBeforeAttempt name uid target digest) (fun evs r =>
    calm evs ∧ match r with Ok approved => approved = digest | Err _ => True end).
Proof.
  unfold revalidateBeforeAttempt, GetWithIdentity.
  eapply (traced_bind _ _ _ (fun evs r => calm evs ∧ match r with
    | Ok (Some spec, _) => ValidateProposalSpec spec = Ok () | _ => True end)).
  { eapply traced_bind; [apply read_identity_traced| |auto].
    intros [[[spec|] uid'] rv] evs Hx; apply traced_ret; rewrite app_nil_r; [|by split].
    destruct Hx as (o & -> & _ & _ & Hv). split; [apply calm_read|done]. }
  2: { auto. }
  intros [cur uid'] evs [Hc Hv].
  assert (Hcat : ∀ evs', calm evs' → calm (evs ++ evs')) by (intros; by apply Forall_app).
  eapply traced_bind; [apply (calmly_status_only name)| |intros e evs' Hx; auto].
  intros status evs' Hc'. specialize (Hcat _ Hc').
  apply traced_lift_bind; [|by fails]. intros [] Ha.
  destruct (negb (bool_decide (uid' = uid))); [by fails|]. destruct cur as [spec|]; [|by fails]. destruct status as [status|]; [|by fails].
  destruct (is_nil _); [by fails|]. destruct (negb (bool_decide (target_of spec = _))) eqn:Et; [by fails|].
  apply traced_lift_bind; [|by fails]. intros d Ed. destruct (negb (bool_decide (d = digest))) eqn:E; [by fails|].
  apply traced_ret. rewrite app_nil_r. split; [done|]. rewrite negb_false_iff, bool_decide_eq_true in Et, E. subst d.
  apply (target_of_v1 _ _ _ Hv Et) in Ha. congruence.
Qed.

Lemma calmly_clusterScoped name digest target plan reqs : calmly (clusterScoped deps name digest target plan reqs).
Proof.
  unfold clusterScoped. destruct (NewClusterScopedClient deps) as [open|] eqn:Eo; [|apply all_ret].
  apply all_if; [|apply all_ret].
  apply all_bind; [by apply all_quiet, (journal_open open)|]. intros [|]; [|apply all_err].
  destruct (AuthorizeClusterScopedArtifact deps) as [auth|] eqn:Ea; [|apply all_err].
  apply all_bind; [|intros; apply all_ret]. induction plan as [|p plan IH]; cbn; [apply all_ret|].
  apply all_if; [|exact IH]. apply all_bind; [|intros; exact IH].
  eapply traced_mono; [by apply journal_authorize|]. cbn. intros evs r ->. by repeat constructor.
Qed.

Lemma clusterScoped_traced name digest target plan reqs :
  traced journal (clusterScoped deps name digest target plan reqs) (fun evs r => calm evs ∧
    match r with
    | Ok scoped => ∀ p, p ∈ plan → p_gvk p = SeccompProfileGVK → scoped = bool_decide (is_Some (NewClusterScopedClient deps))
    | Err _ => True
    end).
Proof.
  intros w r w' E. destruct (calmly_clusterScoped _ _ _ _ _ _ _ _ E) as (evs & Hj & Hc). exists evs. split; [done|]. split; [done|].
  destruct r as [scoped|]; [|done]. intros p Hp Hg. unfold clusterScoped in E.
  destruct (NewClusterScopedClient deps) as [open|]; [|by unfold m_ret in E; simplify_eq].
  rewrite bool_decide_eq_true_2 by done.
  assert (hasClusterScopedArtifact plan = true) as Hs.
  { unfold hasClusterScopedArtifact. apply existsb_exists. exists p. split; [by apply list_elem_of_In|by apply bool_decide_eq_true]. }
  rewrite Hs in E. cbn [orb] in E. apply m_bind_Ok in E as ([] & w1 & _ & E); [|done].
  destruct (AuthorizeClusterScopedArtifact deps); [|done]. apply m_bind_Ok in E as ([] & w2 & _ & E). unfold m_ret in E. by simplify_eq.
Qed.

Lemma calmly_confirmed opts : calmly (confirmed deps opts).
Proof.
  unfold confirmed. apply all_if; [apply all_ret|]. destruct (Confirm deps) as [m|] eqn:E; [|apply all_ret].
  by apply all_quiet, (journal_confirm m).
Qed.

Lemma calmly_epoch : calmly (Attempt.CurrentCustodyEpoch (W := W)).
Proof. unfold Attempt.CurrentCustodyEpoch. calm. Qed.

(** A calm call inside a run that may go on to the attempt. *)
Lemma calmly_then {A B} (m : M W A) (f : A → M W B) (V : list event → result B → Prop) pre :
  calmly m → calm pre → (∀ evs e, calm evs → V evs (Err e)) →
  (∀ a evs, calm (pre ++ evs) → traced journal (f a) (fun evs' r => V ((pre ++ evs) ++ evs') r)) →
  traced journal (m_bind m f) (fun evs r => V (pre ++ evs) r).
Proof.
  intros Hm Hpre HV Hf. eapply traced_bind; [exact Hm| |]; cbv beta.
  - intros a evs Hx. eapply traced_mono; [apply (Hf a evs); by apply Forall_app|]. intros evs' r. by rewrite app_assoc.
  - intros e evs Hx. apply HV. by apply Forall_app.
Qed.

Lemma Run_traced opts name certification :
  traced journal (Run deps opts name certification) (run_trace opts name certification).
Proof.
  unfold Run.
  apply traced_lift_bind; [|intros; left; constructor]. intros skip Eskip.
  apply traced_quiet_bind; [apply journal_dynamic| |intros; left; constructor]. intros _.
  eapply traced_bind; [apply preflight_traced| |intros e evs Hx; by left].
  intros [[spec uid] target] evs (o & status & pre & -> & Hpre & Hs & Hu & Ht & Hv).
  assert (Hc : calm (EvRead name (Ok o) :: pre)) by (by constructor).
  destruct (select_artifacts skip (Restart opts) (proposalArtifacts spec)) as [[toApply skipped] restart] eqn:Esel.
  destruct (length toApply =? 0); [apply traced_ret; left; by rewrite app_nil_r|].
  apply traced_lift_bind; [|intros; left; by rewrite app_nil_r]. intros digest Ed.
  apply traced_lift_bind; [|intros; left; by rewrite app_nil_r]. intros plan Ep.
  assert (Epl : planned opts certification spec = Ok plan)
    by (unfold planned; rewrite Eskip; cbn [mbind result_bind]; by rewrite Esel).
  cbv zeta. set (reqs := enforcementRequirements _ _). clearbody reqs.
  change (EvRead name (Ok o) :: pre) with ([EvRead name (Ok o)] ++ pre) in *.
  eapply traced_bind; [apply clusterScoped_traced| |intros e evs [Hx _]; left; by apply Forall_app].
  intros scoped evs1 [Hc1' Hscoped]. cbv beta. assert (Hc1 : calm (([EvRead name (Ok o)] ++ pre) ++ evs1)) by (by apply Forall_app).
  eapply (traced_mono _ _ (fun evs' r => run_trace opts name certification ((([EvRead name (Ok o)] ++ pre) ++ evs1) ++ evs') r)); [|intros evs' r; by rewrite <-app_assoc].
  apply calmly_then; [apply calmly_hook, journal_planned|done|by left|]. intros _ evs2 Hc2.
  apply calmly_then; [apply calmly_confirmed|done|by left|]. intros go evs3 Hc3.
  destruct go; cbn [negb]; [|apply traced_ret; left; by rewrite app_nil_r].
  eapply traced_bind; [apply revalidateBeforeAttempt_traced| |intros e evs [Hx _]; left; by apply Forall_app].
  intros approved evs4 [Hc4 ->].
  apply traced_quiet_bind; [apply journal_now| |intros; left; rewrite app_nil_r; by apply Forall_app]. intros now.
  eapply traced_bind; [apply calmly_epoch| |intros e evs Hx; left; unfold calm in *; rewrite !Forall_app in *; tauto].
  intros epoch evs5 Hc5.
  eapply traced_mono; [apply attempt_traced|]. intros evs6 r Hr. right.
  match type of Hr with attempt_trace ?x ?aspec _ _ _ => exists o, spec, status, x, aspec end.
  exists plan, (pre ++ evs1 ++ evs2 ++ evs3 ++ evs4 ++ evs5), evs6.
  split; [cbn; by rewrite <-!app_assoc|]. split; [unfold calm in *; rewrite !Forall_app in *; tauto|].
  subst uid. repeat (split; [done|]). exact Hr.
Qed.

(** ** The custody theorems *)

(** What the journal holds when a mutation is sent: the first read of the
    proposal with its approval and its plan, the attempt created for it, and
    immediately before, what [preceded] says. *)
Definition custody_before (opts : Options) (name : string) (certification : bool) (l : list event)
  (client : Client) (ns content : string) (g : ApplyGuard) : Prop :=
  ∃ o spec status x plan aspec created,
    EvRead name (Ok o) ∈ l ∧ o_Spec o = Some spec ∧ ValidateApprovedCandidate (Some spec) (Some status) = Ok () ∧
    planned opts certification spec = Ok plan ∧ x_name x = name ∧ x_uid x = o_UID o ∧
    CandidateDigest spec = Ok (x_digest x) ∧ target_of spec = Some (x_target x) ∧
    EvCreate aspec (Ok created) ∈ l ∧ Attempt.ProposalName aspec = name ∧ Attempt.ProposalUID aspec = o_UID o ∧
    Attempt.Target aspec = x_target x ∧ Attempt.ApprovedCandidateDigest aspec = x_digest x ∧
    scoped_as_configured x plan ∧ preceded x plan l client ns content g.

(** C1: no mutation without authority, custody and a write-ahead record.
    Whatever the API server answers, every mutation [Run] sends is of an
    artifact of the plan of the approved proposal it first read, is sent after
    an attempt naming that proposal, target and digest was created, and is
    immediately preceded by a fresh check that the same proposal is still
    approved with the same candidate and target, for a profile under a
    cluster-scoped client by the authorisation of exactly that profile for that
    proposal, digest and target, by the read of the live object the mutation is
    guarded with, and by the durable record of the mutation with an unknown
    outcome, every earlier mutation of the attempt having succeeded. *)
Theorem Run_write_ahead opts name certification w r w' :
  Run deps opts name certification w = (r, w') →
  ∃ evs, journal w' = journal w ++ evs ∧
    ∀ l k client ns content g res, evs = l ++ EvMutate client ns content g res :: k →
      custody_before opts name certification l client ns content g.
Proof.
  intros Hrun. destruct (Run_traced _ _ _ _ _ _ Hrun) as (evs & Hj & Ht). exists evs. split; [done|].
  intros l k client ns content g res ->. destruct Ht as [Hc|Ht].
  { apply Forall_app in Hc as [_ Hc]. by apply Forall_cons in Hc as [[] _]. }
  destruct Ht as (o & spec & status & x & aspec & plan & pre & evs' & E & Hpre & Hs & Hv & Hp & Hn & Hu & Hd & Ht &
    Han & Hau & Hat & Had & Hsc & created & evs'' & -> & Hcr & Hw & _).
  change (EvRead name (Ok o) :: pre ++ EvCreate aspec created :: evs'')
    with ((EvRead name (Ok o) :: pre) ++ EvCreate aspec created :: evs'') in E.
  symmetry in E. apply app_eq_inv in E as [(t & Ht' & E)|(t & -> & E)].
  - destruct t as [|e t]; cbn in E; [discriminate E|]. injection E as <- _.
    assert (Hc : calm (EvRead name (Ok o) :: pre)) by (by constructor).
    rewrite Ht' in Hc. apply Forall_app in Hc as [_ Hc]. by apply Forall_cons in Hc as [[] _].
  - destruct t as [|e t]; cbn in E; [discriminate E|]. injection E as <- E.
    destruct created as [created|e]; [|specialize (Hcr eq_refl); subst evs''; by destruct t].
    exists o, spec, status, x, plan, aspec, created. split; [apply elem_of_app; left; constructor|].
    do 7 (split; [done|]). split; [apply elem_of_app; right; constructor|]. do 5 (split; [done|]).
    apply (preceded_mono x plan plan); [done|]. eapply (Hw (EvCreate aspec (Ok created) :: t)). cbn. f_equal. exact E.
Qed.

(** C2: the outcome of a run is what happened. A run that succeeds either
    changed nothing and created no attempt, or applied every artifact of its
    plan, in order, and ended by recording the attempt as applied with a
    succeeded record for each of them; a run that fails stopped at the first
    artifact that could not be applied, and never made the claim durable. *)
Theorem Run_outcome opts name certification w r w' :
  Run deps opts name certification w = (r, w') →
  ∃ evs, journal w' = journal w ++ evs ∧
    match r with
    | Ok _ => calm evs ∨ ∃ spec plan pre st o, planned opts certification spec = Ok plan ∧
        mutations evs = map (attempted true) plan ∧ evs = pre ++ [EvSave st (Ok o)] ∧
        Attempt.st_State st = Attempt.StateApplied ∧ Forall2 applied_record plan (Attempt.st_Mutations st)
    | Err _ => Forall (fun e => ¬ claimed e) evs ∧
        (calm evs ∨ ∃ spec plan, planned opts certification spec = Ok plan ∧ stopped plan (mutations evs))
    end.
Proof.
  intros Hrun. destruct (Run_traced _ _ _ _ _ _ Hrun) as (evs & Hj & Ht). exists evs. split; [done|].
  destruct Ht as [Hc|(o & spec & status & x & aspec & plan & pre & evs' & -> & Hpre & _ & _ & Hp & _ & _ & _ & _ &
    _ & _ & _ & _ & _ & created & evs'' & -> & Hcr & Hw & Hr)].
  { destruct r; [by left|]. split; [by apply no_claim_not_claimed, calm_no_claim|by left]. }
  assert (Hc : calm (EvRead name (Ok o) :: pre)) by (by constructor).
  assert (Hm : mutations (EvRead name (Ok o) :: pre ++ EvCreate aspec created :: evs'') =
    mutations (EvCreate aspec created :: evs'')).
  { change (EvRead name (Ok o) :: pre ++ ?t) with ((EvRead name (Ok o) :: pre) ++ t).
    by rewrite mutations_app, calm_mutations by done. }
  rewrite Hm. destruct r as [[]|e].
  - right. destruct Hr as (_ & Hms & pre' & st & o' & -> & _ & Ha & Hall).
    exists spec, plan, (EvRead name (Ok o) :: pre ++ EvCreate aspec created :: pre'), st, o'.
    split; [done|]. split; [done|]. split; [cbn; by rewrite <-app_assoc|]. done.
  - destruct Hr as [Hst Hcl]. split; [|right; by exists spec, plan].
    change (EvRead name (Ok o) :: pre ++ ?t) with ((EvRead name (Ok o) :: pre) ++ t).
    apply Forall_app. split; [by apply no_claim_not_claimed, calm_no_claim|done].
Qed.
End custody.

(** ** A concrete journalled world

    The concrete server of [Kube] with a map of live objects and the journal;
    manifests are decoded by a script. *)
Module Sim.

Record sim := mkSim { s_cluster : cluster Spec Status; s_live : gmap string json; s_next : nat; s_log : list event }.

Definition on_cluster {A} (m : M (cluster Spec Status) A) : M sim A := fun w =>
  let '(r, c) := m (s_cluster w) in (r, mkSim c (s_live w) (s_next w) (s_log w)).
Definition logging {A} (ev : result A → event) (m : M sim A) : M sim A := fun w =>
  let '(r, w') := m w in (r, mkSim (s_cluster w') (s_live w') (s_next w') (s_log w ++ [ev r])).
Definition answer {A} (f : sim → result A) : M sim A := fun w => (f w, w).

#[export] Instance sim_api : Api sim Spec Status :=
  {| api_get := fun n => logging (EvRead n) (on_cluster (api_get n)); api_create := fun o => on_cluster (api_create o);
     api_update := fun o => on_cluster (api_update o); api_update_status := fun o => on_cluster (api_update_status o);
     api_now := on_cluster api_now; api_retry := fun m => m |}.
#[export] Instance sim_environment : Environment sim :=
  {| random_bytes := fun n => m_ret (repeat 0%Z n); get_crd := m_err (mkError "NotFound" "");
     patch_crd := fun j => m_ret j |}.
#[export] Instance sim_backends : Backends sim :=
  {| get_seccomp_profile := fun _ _ => m_err (mkError "NotFound" "");
     get_podlock := fun _ _ => m_err (mkError "NotFound" "");
     poll_expired := m_ret true; status_details := fun _ => Some "x" |}.

(** The manifests: the content is the name of a network policy. *)
Definition policy (name : string) : json :=
  obj_of [("apiVersion", JStr "networking.k8s.io/v1"); ("kind", JStr "NetworkPolicy");
    ("metadata", obj_of [("name", JStr name); ("namespace", JStr "default")]);
    ("spec", obj_of [("podSelector", obj_of [])])].
#[export] Instance sim_yaml : Yaml :=
  {| yaml_decode := fun content n => match n with 0 => Ok (policy content) | _ => Err (mkError "EOF" "") end |}.

Definition live (o : json) (w : sim) : option json := s_live w !! GetName o.
(** The write sets the UID and the version. *)
Definition put (content : string) : M sim MutationObservation := fun w =>
  let v := "v" +:+ itoa (Z.of_nat (s_next w)) in
  let o := std_set ["metadata"; "uid"] (JStr "live-1") (SetResourceVersion v (policy content)) in
  (Ok (mkObservation "live-1" v), mkSim (s_cluster w) (<[content := o]> (s_live w)) (s_next w + 1) (s_log w)).

(** [refuse] makes every mutation fail. *)
Definition deps (refuse : bool) : Dependencies sim :=
  mkDependencies sim (m_ret ())
    (fun o st => logging (EvSave st) (do m_lift (Attempt.Validate st) ;! m_ret o))
    (fun spec => logging (EvCreate spec) (m_ret ("apply-1", mkObject "apply-1" "uid-9" "v1" (Some spec) None)))
    (fun c _ o => logging (EvObserve c o) (answer (fun w => Ok (live o w))))
    (fun c ns content g => logging (EvMutate c ns content g)
       (if refuse then m_err (mkError "Forbidden" "refused") else put content))
    None None None None None.

Lemma logged {A} (ev : result A → event) (m : M sim A) : traced s_log (logging ev m) (fun evs r => evs = [ev r]).
Proof. intros w r w' E. unfold logging in E. destruct (m w) as [a w1]. injection E as <- <-. by eexists. Qed.
Lemma quiet_cluster {A} (m : M (cluster Spec Status) A) : quiet s_log (on_cluster m).
Proof.
  intros w r w' E. unfold on_cluster in E. destruct (m (s_cluster w)) as [a c]. injection E as <- <-.
  exists []. by rewrite app_nil_r.
Qed.

#[export] Instance sim_journalled b : Journalled sim (deps b).
Proof.
  refine {| journal := s_log |}; cbn; intros;
    first [apply logged|apply quiet_cluster|apply quiet_ret|apply quiet_err|discriminate].
Defined.

(** An approved proposal with two manifests. *)
Definition spec : Spec :=
  mkSpec "" "app" "/bin/app" "" false (Some (mkCanonicalTargetBinding "default" "apps" "Deployment" "web"))
    "" "allow-web" "" "" None None None None None.
Definition approved : Status :=
  mkStatus ApprovalApproved "" "bob" "" "" "" (sha256_digest (candidate_payload spec)) "" CandidateVersionV1 None [].
Definition start : sim :=
  mkSim (mkCluster {[ "web" := mkCell 1 1 (Some spec) (Some approved) ]} 2 (unix 1709210096 0)) ∅ 1 [].
Definition opts : Options := mkOptions "default" true "alice" "" [] false 0.
Definition run (refuse : bool) : result unit * sim := Run (deps refuse) opts "web" false start.

Lemma run_eq b : Run (deps b) opts "web" false start = ((run b).1, (run b).2).
Proof. apply surjective_pairing. Qed.
(** The journal of the class, over [deps b]. *)
Abbreviation log b := (@journal sim sim_api sim_environment sim_backends (deps b) (sim_journalled b)).

Lemma Run_write_ahead_witness :
  (run false).1 = Ok () ∧ mutations (s_log (run false).2) = [("default", "allow-web", true)] ∧
  ∃ evs, log false (run false).2 = log false start ++ evs ∧
    ∀ l k client ns content g res, evs = l ++ EvMutate client ns content g res :: k →
      custody_before (deps false) opts "web" false l client ns content g.
Proof.
  split; [vm_compute; reflexivity|]. split; [vm_compute; reflexivity|].
  exact (Run_write_ahead (deps false) opts "web" false start _ _ (run_eq false)).
Defined.

Lemma Run_outcome_witness :
  is_ok (run true).1 = false ∧ mutations (s_log (run true).2) = [("default", "allow-web", false)] ∧
  ∃ evs, log true (run true).2 = log true start ++ evs ∧
    match (run true).1 with
    | Ok _ => calm evs ∨ ∃ spec plan pre st o, planned opts false spec = Ok plan ∧
        mutations evs = map (attempted true) plan ∧ evs = pre ++ [EvSave st (Ok o)] ∧
        Attempt.st_State st = Attempt.StateApplied ∧ Forall2 applied_record plan (Attempt.st_Mutations st)
    | Err _ => Forall (fun e => ¬ claimed e) evs ∧
        (calm evs ∨ ∃ spec plan, planned opts false spec = Ok plan ∧ stopped plan (mutations evs))
    end.
Proof.
  split; [vm_compute; reflexivity|]. split; [vm_compute; reflexivity|].
  exact (Run_outcome (deps true) opts "web" false start _ _ (run_eq true)).
Defined.

(** A run that passes records APPLIED with its one succeeded mutation. *)
Example run_applies :
  match last (s_log (run false).2) with
  | Some (EvSave st (Ok _)) =>
      Attempt.st_State st = Attempt.StateApplied ∧ map Attempt.m_Result (Attempt.st_Mutations st) = ["SUCCEEDED"]
  | _ => False
  end.
Proof. vm_compute. done. Qed.
End Sim.
