(* ===== verification/Rollback.v ===== *)
(** * internal/rollback: the inverse of a governed apply

    rollback.go: the inverse of one recorded mutation, its guards (UID, resource
    version and controlled state of the object the apply left behind), the
    restoration of the controlled fields, the history of earlier rollbacks and
    [Run] over its injected dependencies. *)
From S2P Require Import Prelude GoStd Identity Digest Json SpoBackend Target.
From S2P Require Import Kube Unstructured JsonParse K8sApply Attempt RollbackAttempt Proposal ApplyPlan Apply.
Import SpoBackend ApplyPlan K8sApply.

Module Rollback.
Import RollbackAttempt.

(** ** Snapshots and controlled state *)
Section pure.
Context `{!Unstructured}.

Definition podLockProfileLabel : string := "podlock.kubewarden.io/profile".

(** The error of an inverse carries the result it is recorded with. *)
Definition preDispatchFailure (e : error) : error := mkError ("inverse " +:+ Attempt.ResultFailed) (err_msg e).
Definition postDispatchFailure (e : error) : error := mkError ("inverse " +:+ Attempt.ResultUnknown) (err_msg e).
Definition inverseFailureResult (e : error) : string :=
  if bool_decide (err_is e = "inverse " +:+ Attempt.ResultFailed) then Attempt.ResultFailed else Attempt.ResultUnknown.

Definition rollbackGVR (gvk : GVK) : option (GVR * bool) :=
  if bool_decide (gvk = mkGVK "podlock.kubewarden.io" "v1alpha1" "LandlockProfile")
  then Some (mkGVR (gvk_Group gvk) (gvk_Version gvk) "landlockprofiles", false)
  else if bool_decide (gvk = mkGVK "networking.k8s.io" "v1" "NetworkPolicy")
  then Some (mkGVR (gvk_Group gvk) (gvk_Version gvk) "networkpolicies", false)
  else if bool_decide (gvk = SeccompProfileGVK) then Some (SeccompProfileGVR, true)
  else if bool_decide (gvk = mkGVK "apps" "v1" "Deployment") then Some (mkGVR "apps" "v1" "deployments", false)
  else if bool_decide (gvk = mkGVK "apps" "v1" "StatefulSet") then Some (mkGVR "apps" "v1" "statefulsets", false)
  else if bool_decide (gvk = mkGVK "apps" "v1" "DaemonSet") then Some (mkGVR "apps" "v1" "daemonsets", false)
  else None.

(** The namespace of the requests about a record. *)
Definition scope_of (cluster : bool) (namespace : string) : string := if cluster then "" else namespace.

Definition inverseOperation (source : Attempt.MutationRecord) : string :=
  if bool_decide (Attempt.m_Operation source = "CREATE") then "DELETE" else "UPDATE".

Definition snapshotFromRecord (raw : string) : result (list (string * json)) := UnmarshalMap raw.

(** The UID of the object a mutation left: recorded, or in its snapshot. *)
Definition recordUID (record : Attempt.MutationRecord) : string :=
  if negb (empty (Attempt.m_UID record)) then Attempt.m_UID record
  else match UnmarshalMap (Attempt.m_ObservedAfter record) with
       | Ok snap =>
           match lookup_field "metadata" snap with
           | Some (JObj m) => match lookup_field "uid" m with Some (JStr uid) => uid | _ => "" end
           | _ => ""
           end
       | Err _ => ""
       end.

(** The snapshots agree outside their metadata. *)
Definition controlledMatches (record : Attempt.MutationRecord) (current : json) : bool :=
  match UnmarshalMap (Attempt.m_ObservedAfter record),
        UnmarshalMap (mutationSnapshot (Attempt.m_GVK record) current) with
  | Ok observed, Ok currentSnap =>
      bool_decide (delete_field "metadata" observed = delete_field "metadata" currentSnap)
  | _, _ => false
  end.

Definition isPolicyKind (kind : string) : bool :=
  bool_decide (kind ∈ ["LandlockProfile"; "NetworkPolicy"; "SeccompProfile"]).
Definition isWorkloadKind (kind : string) : bool :=
  bool_decide (kind = "Deployment" ∨ kind = "StatefulSet" ∨ kind = "DaemonSet").

(** The labels of the pod template, else those of the object. *)
Definition template_labels (obj : json) : list (string * json) :=
  match found (NestedStringMap ["spec"; "template"; "metadata"; "labels"] obj) with
  | Some labels => labels
  | None => default [] (found (NestedStringMap ["metadata"; "labels"] obj))
  end.
Definition string_at (key : string) (fs : list (string * json)) : string :=
  match lookup_field key fs with Some (JStr s) => s | _ => "" end.

Definition podLockReferenceName (obj : json) : string := string_at podLockProfileLabel (template_labels obj).
Definition hasPodLockReference (obj : json) : bool := negb (empty (podLockReferenceName obj)).

(** [m[key].(map[string]interface{})]. *)
Definition map_at (key : string) (fs : list (string * json)) : option (list (string * json)) :=
  match lookup_field key fs with Some (JObj m) => Some m | _ => None end.

Definition hasSeccompReference (obj : json) : bool :=
  let containers := match found (NestedSlice ["spec"; "template"; "spec"; "containers"] obj) with
                    | Some l => l
                    | None => default [] (found (NestedSlice ["spec"; "containers"] obj)) end in
  existsb (fun raw => match raw with
    | JObj c => match map_at "securityContext" c with
                | Some sc => match lookup_field "seccompProfile" sc with Some _ => true | None => false end
                | None => false
                end
    | _ => false
    end) containers.

(** The profiles a workload references; [None] when that cannot be told. *)
Fixpoint reference_names (containers : list json) : option (list string) :=
  match containers with
  | [] => Some []
  | JObj container :: rest =>
      match map_at "securityContext" container with
      | None => reference_names rest
      | Some sc =>
          match map_at "seccompProfile" sc with
          | None => reference_names rest
          | Some profile =>
              match lookup_field "localhostProfile" profile with
              | Some (JStr localhost) =>
                  match ParseLocalhostProfilePath localhost, reference_names rest with
                  | Some name, Some names => Some (name :: names)
                  | _, _ => None
                  end
              | _ => None
              end
          end
      end
  | _ :: _ => None
  end.

Definition seccompReferenceNames (obj : json) : option (list string) :=
  let containers := match NestedSlice ["spec"; "template"; "spec"; "containers"] obj with
                    | Ok (Some l) => Ok (Some l)
                    | _ => NestedSlice ["spec"; "containers"] obj
                    end in
  match containers with
  | Err _ => None
  | Ok None => Some []
  | Ok (Some l) => reference_names l
  end.

Definition nestedStringMapFromJSON (raw : string) (path : list string) : result (option (list (string * json))) :=
  object ← UnmarshalMap raw; NestedStringMap path (JObj object).

(** [nestedMap] and [nestedSlice]: plain traversals. *)
Fixpoint nested_value (path : list string) (v : json) : option json :=
  match path with
  | [] => Some v
  | key :: path => match v with
                   | JObj fs => match lookup_field key fs with Some v => nested_value path v | None => None end
                   | _ => None
                   end
  end.
Definition nestedMap (m : list (string * json)) (path : list string) : option (list (string * json)) :=
  match nested_value path (JObj m) with Some (JObj fs) => Some fs | _ => None end.
Definition nestedSlice (m : list (string * json)) (path : list string) : option (list json) :=
  match nested_value path (JObj m) with Some (JArr l) => Some l | _ => None end.
End pure.

(** ** Restoring the controlled fields *)
Section restore.
Context `{!Unstructured}.

(** A setter whose error is dropped. *)
Definition set_ignored (path : list string) (v : json) (j : json) : json :=
  match SetNestedField path v j with Ok j => j | Err _ => j end.

Definition restore_labels (template : list (string * json)) (curTemplate : json) : json :=
  match nestedMap template ["metadata"; "labels"] with
  | Some labels =>
      let curLabels := default [] (found (NestedStringMap ["metadata"; "labels"] curTemplate)) in
      let merged := foldl (fun acc l => match l.2 with JStr s => set_field l.1 (JStr s) acc | _ => acc end) curLabels labels in
      set_ignored ["metadata"; "labels"] (JObj merged) curTemplate
  | None =>
      match found (NestedStringMap ["metadata"; "labels"] curTemplate) with
      | None => curTemplate
      | Some labels =>
          match delete_field podLockProfileLabel labels with
          | [] =>
              match curTemplate with
              | JObj t => match map_at "metadata" t with
                          | Some metadata => JObj (set_field "metadata" (JObj (delete_field "labels" metadata)) t)
                          | None => curTemplate
                          end
              | _ => curTemplate
              end
          | labels => set_ignored ["metadata"; "labels"] (JObj labels) curTemplate
          end
      end
  end.

(** One of the two fields of the security context the project patches. *)
Definition restore_key (saved : list (string * json)) (current : list (string * json)) (key : string) :=
  match lookup_field key saved with
  | Some value => set_field key value current
  | None => delete_field key current
  end.
Definition controlled_keys : list string := ["capabilities"; "seccompProfile"].

(** An empty security context is dropped. *)
Definition put_context (sc : list (string * json)) (container : list (string * json)) : list (string * json) :=
  match sc with [] => delete_field "securityContext" container | _ => set_field "securityContext" (JObj sc) container end.

Definition restore_container (saved current : list (string * json)) : list (string * json) :=
  match map_at "securityContext" saved with
  | Some savedSC =>
      put_context (foldl (restore_key savedSC) (default [] (map_at "securityContext" current)) controlled_keys) current
  | None =>
      match map_at "securityContext" current with
      | Some currentSC => put_context (foldl (restore_key []) currentSC controlled_keys) current
      | None => current
      end
  end.

(** The container is matched by its name, a string. *)
Definition restore_matching (saved : json) (current : json) : json :=
  match saved, current with
  | JObj savedContainer, JObj currentContainer =>
      if bool_decide (lookup_field "name" currentContainer = Some (JStr (string_at "name" savedContainer)))
      then JObj (restore_container savedContainer currentContainer) else current
  | _, _ => current
  end.

Definition restore_containers (saved current : list json) : list json :=
  foldl (fun current s => map (restore_matching s) current) current saved.

Definition mergeWorkloadBefore (object : json) (raw : json) : result json :=
  match raw with
  | JObj before =>
      match map_at "template" before with
      | None => Ok object
      | Some template =>
          let curTemplate := restore_labels template
            (JObj (default [] (found (NestedMap ["spec"; "template"] object)))) in
          let curTemplate :=
            match map_at "spec" template with
            | Some spec =>
                match lookup_field "containers" spec with
                | Some (JArr saved) =>
                    set_ignored ["spec"; "containers"]
                      (match found (NestedSlice ["spec"; "containers"] curTemplate) with
                       | Some current => JArr (restore_containers saved current)
                       | None => JNull
                       end) curTemplate
                | _ => curTemplate
                end
            | None => curTemplate
            end in
          SetNestedField ["spec"; "template"] curTemplate object
      end
  | _ => failwith "invalid workload Before"
  end.

Definition restoreControlledState (current : json) (before : list (string * json)) : result json :=
  match lookup_field "spec" before with
  | None => failwith "rollback Before has no controlled spec"
  | Some spec =>
      if isWorkloadKind (GetKind current) then mergeWorkloadBefore current spec
      else match current with JObj fs => Ok (JObj (set_field "spec" spec fs)) | _ => Ok current end
  end.
End restore.

(** ** The inverse of one mutation *)
Section inverse.
Context {W : Type} `{!Dynamic W} `{!Unstructured}.

Definition unsupported {A} : M W A := m_err (mkError "" "unsupported rollback kind").

(** The object is the one the mutation left, in the controlled state it left. *)
Definition guard_error (record : Attempt.MutationRecord) (current : json) : option error :=
  if negb (bool_decide (GetUID current = recordUID record)) ||
     negb (bool_decide (GetResourceVersion current = Attempt.m_AttributableAfterRV record))
  then Some (mkError "" "strict UID/resourceVersion guard refused inverse")
  else if negb (controlledMatches record current)
  then Some (mkError "" "controlled state drift refused inverse")
  else None.

Definition prepared_record (source : Attempt.MutationRecord) (current : json) : Attempt.MutationRecord :=
  let before := mutationSnapshot (Attempt.m_GVK source) current in
  let intended := Attempt.m_Before source in
  Attempt.mkMutationRecord (Attempt.m_ID source +:+ "-inverse") (Attempt.m_GVK source) (Attempt.m_Namespace source)
    (Attempt.m_Name source) (GetUID current) (GetResourceVersion current) (inverseOperation source)
    before intended "" (digestJSON before) (digestJSON intended) "" "" (Attempt.m_ID source)
    Attempt.ResultUnknown "".

Definition prepareInverse (source : Attempt.MutationRecord) : M W Attempt.MutationRecord :=
  match rollbackGVR (Attempt.m_GVK source) with
  | None => unsupported
  | Some (gvr, cluster) =>
      current <- dyn_get gvr (scope_of cluster (Attempt.m_Namespace source)) (Attempt.m_Name source) ;!
      match guard_error source current with
      | Some e => m_err e
      | None => m_ret (prepared_record source current)
      end
  end.

Definition targetReferencesPolicy (record : Attempt.MutationRecord) (target : GovernedTarget) : M W bool :=
  let workload := Workload target in
  match rollbackGVR (mkGVK (w_Group workload) "v1" (w_Kind workload)) with
  | None => m_ret true
  | Some (gvr, cluster) =>
      m_try (dyn_get gvr (scope_of cluster (K8s.Namespace target)) (w_Name workload)) (fun r =>
      match r with
      | Err _ => m_ret true
      | Ok workload =>
          let kind := gvk_Kind (Attempt.m_GVK record) in
          m_ret (
            if bool_decide (kind = "LandlockProfile") then bool_decide (podLockReferenceName workload = Attempt.m_Name record)
            else if bool_decide (kind = "SeccompProfile") then
              match seccompReferenceNames workload with
              | None => true
              | Some names => bool_decide (Attempt.m_Name record ∈ names)
              end
            else if bool_decide (kind = "NetworkPolicy") then
              match nestedStringMapFromJSON (Attempt.m_ObservedAfter record) ["spec"; "podSelector"; "matchLabels"] with
              | Ok (Some selector) =>
                  let label key :=
                    match found (NestedStringMap ["spec"; "template"; "metadata"; "labels"] workload) with
                    | Some labels => string_at key labels
                    | None => default "" (GetLabels workload !! key)
                    end in
                  forallb (fun s => bool_decide (label s.1 = string_at s.1 selector)) selector
              | _ => true
              end
            else true)
      end)
  end.

(** The profiles the restored workload references must be installed. *)
Fixpoint verify_containers (containers : list json) : M W unit :=
  match containers with
  | [] => m_ret ()
  | raw :: rest =>
      let localhost :=
        match raw with
        | JObj container =>
            match map_at "securityContext" container with
            | Some sc => match map_at "seccompProfile" sc with
                         | Some profile => string_at "localhostProfile" profile
                         | None => ""
                         end
            | None => ""
            end
        | _ => ""
        end in
      if empty localhost then verify_containers rest
      else match ParseLocalhostProfilePath localhost with
      | None => m_err (mkError "" "refusing workload restore: cannot establish SeccompProfile identity")
      | Some name =>
          obj <- dyn_get SeccompProfileGVR "" name ;!
          guard negb (bool_decide (found (NestedString ["status"; "localhostProfile"] obj) = Some localhost))
            with mkError "" "refusing workload restore: SeccompProfile readiness is not established" ;!
          verify_containers rest
      end
  end.

Definition verifyRestoredReferencesReady (before : list (string * json)) : M W unit :=
  match nestedMap before ["spec"; "template"] with
  | None => m_ret ()
  | Some template =>
      match nestedSlice template ["spec"; "containers"] with
      | None => m_ret ()
      | Some containers => verify_containers containers
      end
  end.

Definition ValidateCompositionCompatibilityForSlugs (slugs : list string) : result unit :=
  if existsb (fun s => bool_decide (s = podlock)) slugs && existsb (fun s => bool_decide (s = spo_seccompprofile)) slugs
  then failwith "PodLock + application-derived Seccomp composition is unsupported: runtime compatibility is unproven"
  else Ok ().

(** What an inverse leaves in the record it was given, and its error. *)
Definition inverse_outcome : Type := Attempt.MutationRecord * option error.

(** Run a step before the dispatch, or after it. *)
Definition before_dispatch {A} (record : Attempt.MutationRecord) (m : M W A) (k : A → M W inverse_outcome)
  : M W inverse_outcome :=
  m_try m (fun r => match r with Ok a => k a | Err e => m_ret (record, Some (preDispatchFailure e)) end).
Definition refused (record : Attempt.MutationRecord) (msg : string) : M W inverse_outcome :=
  m_ret (record, Some (preDispatchFailure (mkError "" msg))).
Definition unknown (record : Attempt.MutationRecord) (msg : string) : M W inverse_outcome :=
  m_ret (record, Some (postDispatchFailure (mkError "" msg))).

Definition with_outcome (record : Attempt.MutationRecord) (outcome observed observedDigest : string)
  : Attempt.MutationRecord :=
  Apply.with_result record observed observedDigest (Attempt.m_AttributableAfterRV record) outcome (Attempt.m_Error record).
Definition succeeded (record : Attempt.MutationRecord) : Attempt.MutationRecord :=
  with_outcome record Attempt.ResultSucceeded (Attempt.m_ObservedAfter record) (Attempt.m_ObservedAfterDigest record).

(** Fifty reads, a tenth of a second apart. *)
Fixpoint confirm_deleted (rounds : nat) (gvr : GVR) (ns : string) (record : Attempt.MutationRecord) : M W inverse_outcome :=
  match rounds with
  | 0 => unknown (with_outcome record Attempt.ResultUnknown (Attempt.m_ObservedAfter record)
           (Attempt.m_ObservedAfterDigest record)) "delete outcome unknown: object was not confirmed absent"
  | S rounds =>
      m_try (dyn_get gvr ns (Attempt.m_Name record)) (fun r =>
      match r with
      | Ok _ => confirm_deleted rounds gvr ns record
      | Err e => if IsNotFound e then m_ret (succeeded record, None)
                 else unknown record "delete outcome unknown"
      end)
  end.
Definition deletion_rounds : nat := 50.

Definition dispatch_delete (gvr : GVR) (ns : string) (record : Attempt.MutationRecord) (current : json) : M W inverse_outcome :=
  m_try (dyn_delete gvr ns (Attempt.m_Name record) (Some (GetUID current)) (Some (GetResourceVersion current))) (fun r =>
  match r with
  | Err e => if IsConflict e then refused record "delete CAS conflict" else unknown record (err_msg e)
  | Ok _ => confirm_deleted deletion_rounds gvr ns record
  end).

Definition dispatch_update (gvr : GVR) (ns : string) (record : Attempt.MutationRecord) (desired : json) : M W inverse_outcome :=
  m_try (dyn_update gvr ns desired) (fun r =>
  match r with
  | Err e => if IsConflict e then refused record "update CAS conflict" else unknown record (err_msg e)
  | Ok updated =>
      m_try (dyn_get gvr ns (Attempt.m_Name record)) (fun r =>
      match r with
      | Err _ => unknown record "rollback outcome unknown"
      | Ok after =>
          if negb (bool_decide (GetUID updated = GetUID after)) ||
             negb (bool_decide (GetResourceVersion updated = GetResourceVersion after))
          then unknown record "rollback outcome unknown: response and reread differ"
          else
            let observed := mutationSnapshot (Attempt.m_GVK record) after in
            m_ret (with_outcome record Attempt.ResultSucceeded observed (digestJSON observed), None)
      end)
  end).

Definition executeInverse (record : Attempt.MutationRecord) (target : GovernedTarget) : M W inverse_outcome :=
  match rollbackGVR (Attempt.m_GVK record) with
  | None => refused record "unsupported rollback kind"
  | Some (gvr, cluster) =>
      let ns := scope_of cluster (Attempt.m_Namespace record) in
      before_dispatch record (dyn_get gvr ns (Attempt.m_Name record)) (fun current =>
      match guard_error record current with
      | Some e => m_ret (record, Some (preDispatchFailure e))
      | None =>
          if bool_decide (Attempt.m_Operation record = "CREATE") then
            referenced <- (if isPolicyKind (gvk_Kind (Attempt.m_GVK record))
                           then targetReferencesPolicy record target else m_ret false) ;!
            if referenced then refused record "policy is still referenced by the governed workload"
            else dispatch_delete gvr ns record current
          else
            before_dispatch record (m_lift (snapshotFromRecord (Attempt.m_Before record))) (fun before =>
            before_dispatch record (m_lift (restoreControlledState current before)) (fun restored =>
            if isWorkloadKind (GetKind restored) then
              before_dispatch record (verifyRestoredReferencesReady before) (fun _ =>
              let slugs := (if hasPodLockReference restored then [podlock] else []) ++
                           (if hasSeccompReference restored then [spo_seccompprofile] else []) in
              before_dispatch record (m_lift (ValidateCompositionCompatibilityForSlugs slugs)) (fun _ =>
              dispatch_update gvr ns record restored))
            else dispatch_update gvr ns record restored))
      end)
  end.
End inverse.

(** ** Run *)
Record Options := mkOptions {
  Namespace : string; Yes : bool; OperatorIdentity : string; ExpectedResourceVersion : string }.

Record Dependencies (W : Type) := mkDependencies {
  NewDynamicClient : M W unit;
  CreateRollbackAttempt : RollbackSpec → M W (string * Object);
  SaveRollbackAttemptStatus : Object → Attempt.Status → M W Object;
  (** The record is passed by reference. *)
  ExecuteInverse : Client → Attempt.MutationRecord → GovernedTarget → M W inverse_outcome;
  (** The optional constructor yields no client when it returns nil. *)
  OpenClusterScopedClient : option (M W bool);
  AuthorizeClusterScopedInverse : option (Attempt.MutationRecord → GovernedTarget → M W unit);
  InverseFailureResult : option (error → string);
  Confirm : option (M W bool) }.
Arguments NewDynamicClient {W}.
Arguments CreateRollbackAttempt {W}.
Arguments SaveRollbackAttemptStatus {W}.
Arguments ExecuteInverse {W}.
Arguments OpenClusterScopedClient {W}.
Arguments AuthorizeClusterScopedInverse {W}.
Arguments InverseFailureResult {W}.
Arguments Confirm {W}.

(** The dynamic client under each of the two identities, and the list call. *)
Class Clients (W : Type) := {
  client_dynamic :: Client → Dynamic W;
  list_rollbacks : string → M W (list json) }.

Definition ApplyAttemptGVR : GVR := mkGVR "landlockgenprof.io" "v1alpha1" "applyattempts".

Section history.
Context `{!Unstructured}.

(** What the earlier rollbacks of a source say: the source mutations one of
    them inverted, those whose inversion is unknown, and the last of them. *)
Record history := mkHistory {
  h_completed : gset string; h_unknown : gset string; h_previous : option json }.

Definition sources_with (outcome : string) (records : list Attempt.MutationRecord) : gset string :=
  list_to_set (map Attempt.m_SourceMutationID (List.filter (fun record =>
    bool_decide (Attempt.m_Result record = outcome) && negb (empty (Attempt.m_SourceMutationID record))) records)).

Definition history_step (sourceUID : string) (h : history) (item : json) : history :=
  match into_RollbackSpec zero_RollbackSpec (field_value "spec" item) with
  | Err _ => h
  | Ok spec =>
      if negb (bool_decide (SourceUID spec = sourceUID)) then h
      else
        let previous :=
          match h_previous h with
          | None => item
          | Some p => if (GetCreationTimestamp p <? GetCreationTimestamp item)%Z then item else p
          end in
        match into_Status zero_Status (field_value "status" item) with
        | Err _ => mkHistory (h_completed h) (h_unknown h) (Some previous)
        | Ok status =>
            mkHistory (h_completed h ∪ sources_with Attempt.ResultSucceeded (Attempt.st_Mutations status))
              (h_unknown h ∪ sources_with Attempt.ResultUnknown (Attempt.st_Mutations status)) (Some previous)
        end
  end.

Definition history_of (sourceUID : string) (items : list json) : history :=
  foldl (history_step sourceUID) (mkHistory ∅ ∅ None) items.

(** The mutations to invert, in the order they were applied. *)
Fixpoint eligible (h : history) (records : list Attempt.MutationRecord) : result (list Attempt.MutationRecord) :=
  match records with
  | [] => Ok []
  | record :: records =>
      fail_if bool_decide (gvk_Kind (Attempt.m_GVK record) = "Pod") &&
              bool_decide (Attempt.m_Operation record = "DELETE_THEN_CREATE")
        with mkError "" "REFUSE_UNSUPPORTED_BARE_POD";
      if negb (bool_decide (Attempt.m_Result record = Attempt.ResultSucceeded)) then eligible h records
      else if bool_decide (Attempt.m_ID record ∈ h_completed h) then eligible h records
      else
        fail_if bool_decide (Attempt.m_ID record ∈ h_unknown h) with mkError "" "REFUSE_UNKNOWN_ROLLBACK_OUTCOME";
        if empty (Attempt.m_AttributableAfterRV record) || empty (Attempt.m_ObservedAfter record)
        then eligible h records
        else rest ← eligible h records; Ok (record :: rest)
  end.
End history.

Section run.
Context {W : Type} `{!Api W RollbackSpec Attempt.Status} `{!Environment W} `{!Clients W} `{!Unstructured}.
Variable deps : Dependencies W.

Definition fail_msg {A} (msg : string) : M W A := m_err (mkError "" msg).
Definition client_get (client : Client) : GVR → string → string → M W json := @dyn_get W (client_dynamic client).

Definition rollbackHistory (namespace sourceUID : string) : M W history :=
  m_try (list_rollbacks namespace) (fun r =>
  match r with
  | Ok items => m_ret (history_of sourceUID items)
  | Err e => if IsNotFound e then fail_msg "nil pointer dereference" else m_err e
  end).

Abbreviation custody := (Object * Attempt.Status)%type.

(** The record of an inverse that is not attempted. *)
Definition refused_record (source : Attempt.MutationRecord) (msg : string) : Attempt.MutationRecord :=
  Attempt.mkMutationRecord (Attempt.m_ID source +:+ "-inverse") (Attempt.m_GVK source) (Attempt.m_Namespace source)
    (Attempt.m_Name source) (Attempt.m_UID source) (Attempt.m_ResourceVersion source) (inverseOperation source)
    (Attempt.m_Before source) (Attempt.m_IntendedAfter source) (Attempt.m_ObservedAfter source)
    (Attempt.m_BeforeDigest source) (Attempt.m_IntendedAfterDigest source) (Attempt.m_ObservedAfterDigest source)
    (Attempt.m_AttributableAfterRV source) (Attempt.m_ID source) Attempt.ResultFailed msg.

Definition append_record (st : Attempt.Status) (record : Attempt.MutationRecord) : Attempt.Status :=
  Apply.with_mutations st (Attempt.st_Mutations st ++ [record]).
Definition in_state (st : Attempt.Status) (state : string) : Attempt.Status :=
  Apply.with_state st state (Attempt.st_Failure st).

Definition save_then_fail {A} (obj : Object) (st : Attempt.Status) (e : error) : M W A :=
  m_try (SaveRollbackAttemptStatus deps obj st) (fun _ => m_err e).
Definition refuse {A} (c : custody) (source : Attempt.MutationRecord) (e : error) : M W A :=
  save_then_fail c.1 (append_record c.2 (refused_record source (err_msg e))) e.

(** The client of the inverse: the cluster-scoped one, authorised, for a
    cluster-scoped profile when one is configured. *)
Definition inverse_client (c : custody) (source : Attempt.MutationRecord) (target : GovernedTarget) : M W Client :=
  match rollbackGVR (Attempt.m_GVK source), OpenClusterScopedClient deps with
  | Some (_, true), Some open =>
      m_try open (fun opened =>
      match opened with
      | Err e => refuse c source e
      | Ok false => refuse c source (mkError "" "controlled cluster-scoped rollback service unavailable")
      | Ok true =>
          match AuthorizeClusterScopedInverse deps with
          | None => fail_msg "controlled cluster-scoped authorization is not configured"
          | Some authorize => do authorize source target ;! m_ret ClusterScopedClient
          end
      end)
  | _, _ => m_ret DynamicClient
  end.

(** The write-ahead record of the inverse. *)
Definition prepare (c : custody) (source : Attempt.MutationRecord) (client : Client) : M W (custody * Attempt.MutationRecord) :=
  m_try (@prepareInverse W (client_dynamic client) _ source) (fun r =>
  match r with
  | Err e => refuse c source e
  | Ok prepared =>
      let st := append_record c.2 prepared in
      obj <- SaveRollbackAttemptStatus deps c.1 st ;! m_ret ((obj, st), prepared)
  end).

Definition failureResult : error → string := default inverseFailureResult (InverseFailureResult deps).

Definition with_inverse (prepared record : Attempt.MutationRecord) (outcome error : string) : Attempt.MutationRecord :=
  Apply.with_result prepared (Attempt.m_ObservedAfter record) (Attempt.m_ObservedAfterDigest record)
    (Attempt.m_AttributableAfterRV prepared) outcome error.

(** The state after a failed inverse. *)
Definition failed_state (outcome : string) (records : list Attempt.MutationRecord) : string :=
  if bool_decide (outcome = Attempt.ResultUnknown) then Attempt.StateOutcomeUnknown
  else if hasSuccessfulMutation records then Attempt.StatePartiallyApplied else Attempt.StateFailed.

Definition record_outcome (c : custody) (prepared : Attempt.MutationRecord) (outcome : inverse_outcome) : M W custody :=
  let '(obj, st) := c in
  let '(record, failure) := outcome in
  match failure with
  | Some e =>
      let st := Apply.with_last st (with_inverse prepared record (failureResult e) (err_msg e)) in
      save_then_fail obj (in_state st (failed_state (failureResult e) (Attempt.st_Mutations st))) e
  | None =>
      let st := Apply.with_last st (with_inverse prepared record (Attempt.m_Result record) (Attempt.m_Error prepared)) in
      m_try (SaveRollbackAttemptStatus deps obj st) (fun saved =>
      match saved with
      | Err e => save_then_fail obj (in_state st Attempt.StateOutcomeUnknown) e
      | Ok obj => m_ret (obj, st)
      end)
  end.

Definition invert (c : custody) (source : Attempt.MutationRecord) (target : GovernedTarget) : M W custody :=
  client <- inverse_client c source target ;!
  ahead <- prepare c source client ;!
  outcome <- ExecuteInverse deps client source target ;!
  record_outcome ahead.1 ahead.2 outcome.

Fixpoint invert_all (c : custody) (sources : list Attempt.MutationRecord) (target : GovernedTarget) : M W custody :=
  match sources with
  | [] => m_ret c
  | source :: sources => c <- invert c source target ;! invert_all c sources target
  end.

Definition initial_status : Attempt.Status := Attempt.mkStatus Attempt.StateInProgress "" "" "" [].

(** The attempt, from its creation to its final state. *)
Definition rollback (spec : RollbackSpec) (sources : list Attempt.MutationRecord) (target : GovernedTarget) : M W unit :=
  created <- CreateRollbackAttempt deps spec ;!
  obj <- SaveRollbackAttemptStatus deps created.2 initial_status ;!
  c <- invert_all (obj, initial_status) (rev sources) target ;!
  now <- api_now ;!
  let st := in_state c.2 Attempt.StateApplied in
  do SaveRollbackAttemptStatus deps c.1 (Attempt.mkStatus (Attempt.st_State st) (Attempt.st_UpdatedAt st)
       (format_rfc3339nano now) (Attempt.st_Failure st) (Attempt.st_Mutations st)) ;!
  m_ret ().

Definition rollback_spec (opts : Options) (name epoch startedAt : string) (source : json) (spec : Attempt.Spec)
  (previous : option json) : RollbackSpec :=
  let '(ns, prev, uid) := match previous with
    | Some p => (Namespace opts, GetName p, GetUID p) | None => ("", "", "") end in
  mkRollbackSpec (Namespace opts) name (GetUID source) (Attempt.ProposalNamespace spec) (Attempt.ProposalName spec)
    (Attempt.ProposalUID spec) (Attempt.ApprovedCandidateDigest spec) (Attempt.Target spec) epoch ns prev uid
    startedAt (OperatorIdentity opts).

(** The checks before anything is confirmed: the source, its custody and the
    epoch. *)
Definition qualified_source (opts : Options) (name : string) : M W (json * Attempt.Spec * Attempt.Status * string) :=
  do NewDynamicClient deps ;!
  source <- client_get DynamicClient ApplyAttemptGVR (Namespace opts) name ;!
  spec <- m_lift (into_Spec zero_Spec (field_value "spec" source)) ;!
  status <- m_lift (into_Status zero_Status (field_value "status" source)) ;!
  guard empty (GetUID source) with mkError "" "REFUSE_SOURCE_NOT_ROLLBACK_QUALIFIED" ;!
  guard negb (empty (ExpectedResourceVersion opts)) &&
        negb (bool_decide (GetResourceVersion source = ExpectedResourceVersion opts))
    with mkError "" "source ApplyAttempt resourceVersion changed before rollback" ;!
  custody <- Attempt.CustodyEpochAndHardening ;!
  let '(epoch, hardened) := custody in
  guard negb hardened || empty epoch || empty (Attempt.CustodyEpoch spec) ||
        negb (bool_decide (Attempt.CustodyEpoch spec = epoch)) with mkError "" "REFUSE_SOURCE_EPOCH_MISMATCH" ;!
  guard bool_decide (Attempt.st_State status = Attempt.StateInProgress) with mkError "" "REFUSE_SOURCE_NOT_ELIGIBLE" ;!
  m_ret (source, spec, status, epoch).

Definition confirmed (opts : Options) : M W bool :=
  if Yes opts then m_ret true else match Confirm deps with None => m_ret false | Some confirm => confirm end.

Definition Run (opts : Options) (name : string) : M W unit :=
  read <- qualified_source opts name ;!
  let '(source, spec, status, epoch) := read in
  h <- rollbackHistory (Namespace opts) (GetUID source) ;!
  sources <- m_lift (eligible h (Attempt.st_Mutations status)) ;!
  match sources with
  | [] => fail_msg (match h_previous h with Some _ => "REFUSE_ALREADY_ROLLED_BACK"
                    | None => "REFUSE_NO_ROLLBACK_ELIGIBLE_MUTATIONS" end)
  | _ =>
      yes <- confirmed opts ;!
      if negb yes then m_ret ()
      else
        currentSource <- client_get DynamicClient ApplyAttemptGVR (Namespace opts) name ;!
        guard negb (bool_decide (GetUID currentSource = GetUID source)) ||
              negb (bool_decide (GetResourceVersion currentSource = GetResourceVersion source))
          with mkError "" "source ApplyAttempt changed before rollback custody" ;!
        now <- api_now ;!
        rollback (rollback_spec opts name epoch (format_rfc3339nano now) source spec (h_previous h)) sources
          (Attempt.Target spec)
  end.
End run.
End Rollback.
