(* ===== verification/RollbackCustody.v ===== *)
(** * Custody of a rollback

    An inverse is dispatched at most once, on exactly the object the apply left
    behind, and a failure recorded as FAILED changed nothing; a rollback writes
    a record before each inverse, works backwards, stops at the first failure,
    and claims to be applied only when every eligible mutation was inverted. *)
From S2P Require Import Prelude GoStd Identity Digest Json SpoBackend Target.
From S2P Require Import Kube Journal Unstructured JsonParse K8sApply Attempt RollbackAttempt Proposal ApplyPlan Apply Rollback.
Import SpoBackend ApplyPlan K8sApply Rollback RollbackAttempt.

(** ** One inverse *)
Definition is_mutation (c : call) : bool := match c with CGet _ _ _ _ => false | _ => true end.
Definition sent (cs : list call) : list call := List.filter is_mutation cs.

Definition call_succeeded (c : call) : Prop :=
  match c with
  | CGet _ _ _ r | CCreate _ _ _ r | CUpdate _ _ _ r => is_ok r = true
  | CDelete _ _ _ _ _ r => is_ok r = true
  end.
Definition call_conflict (c : call) : Prop :=
  match c with
  | CGet _ _ _ r | CCreate _ _ _ r | CUpdate _ _ _ r => ∃ e, r = Err e ∧ IsConflict e = true
  | CDelete _ _ _ _ _ r => ∃ e, r = Err e ∧ IsConflict e = true
  end.

Lemma sent_app l k : sent (l ++ k) = sent l ++ sent k.
Proof. apply List.filter_app. Qed.

Section inverse.
Context {W : Type} `{!Dynamic W} `{!DynamicJournal W} `{!Unstructured}.
Variables (record : Attempt.MutationRecord) (target : GovernedTarget).

(** The run began by reading [current], the object the mutation left, and has
    mutated nothing. *)
Definition guarded (gvr : GVR) (ns : string) (current : json) (before : list call) : Prop :=
  ∃ cluster reads, rollbackGVR (Attempt.m_GVK record) = Some (gvr, cluster) ∧
    ns = scope_of cluster (Attempt.m_Namespace record) ∧
    before = CGet gvr ns (Attempt.m_Name record) (Ok current) :: reads ∧ sent reads = [] ∧
    guard_error record current = None.

Definition guarded_call (before : list call) (c : call) : Prop :=
  match c with
  | CGet _ _ _ _ => True
  | CCreate _ _ _ _ => False
  | CDelete gvr ns name uid rv _ =>
      ∃ current, guarded gvr ns current before ∧ Attempt.m_Operation record = "CREATE" ∧
        name = Attempt.m_Name record ∧ uid = Some (recordUID record) ∧ rv = Some (Attempt.m_AttributableAfterRV record)
  | CUpdate gvr ns obj _ =>
      ∃ current saved, guarded gvr ns current before ∧ Attempt.m_Operation record ≠ "CREATE" ∧
        snapshotFromRecord (Attempt.m_Before record) = Ok saved ∧ restoreControlledState current saved = Ok obj
  end.

(** What the outcome says about the calls. *)
Definition accounted (cs : list call) (r : result inverse_outcome) : Prop :=
  match r with
  | Err _ => False
  | Ok (record', None) =>
      Attempt.m_Result record' = Attempt.ResultSucceeded ∧ ∃ c, sent cs = [c] ∧ call_succeeded c
  | Ok (_, Some e) =>
      inverseFailureResult e = Attempt.ResultFailed →
      sent cs = [] ∨ ∃ c, sent cs = [c] ∧ call_conflict c
  end.
Abbreviation safely := (safe calls guarded_call).

Lemma pre_failed e : inverseFailureResult (preDispatchFailure e) = Attempt.ResultFailed.
Proof. reflexivity. Qed.
Lemma post_unknown e : inverseFailureResult (postDispatchFailure e) = Attempt.ResultUnknown.
Proof. reflexivity. Qed.

Lemma refused_safe pre e : sent pre = [] →
  safely pre (m_ret (record, Some (preDispatchFailure e))) accounted.
Proof. intros Hp. apply safe_ret. cbn. by left. Qed.

Lemma unknown_safe pre r msg : safely pre (unknown r msg) accounted.
Proof. apply safe_ret. cbn. discriminate. Qed.

Lemma before_dispatch_safe {A} pre (m : M W A) k (Q : list call → result A → Prop) :
  safely pre m Q → (∀ a pre', Q pre' (Ok a) → safely pre' (k a) accounted) →
  (∀ e pre', Q pre' (Err e) → sent pre' = []) → safely pre (before_dispatch record m k) accounted.
Proof.
  intros Hm Hk He. eapply safe_try; [exact Hm|]. intros [a|e] pre' HQ; [by apply Hk|].
  by eapply refused_safe, He.
Qed.

(** Reads leave the guard as it is. *)
Lemma guarded_read gvr ns current pre c : guarded gvr ns current pre → is_mutation c = false →
  guarded gvr ns current (pre ++ [c]).
Proof.
  intros (cluster & reads & Hg & Hn & -> & Hr & He) Hc. exists cluster, (reads ++ [c]).
  split; [done|]. split; [done|]. split; [done|]. split; [|done].
  rewrite sent_app, Hr. cbn. by rewrite Hc.
Qed.

Lemma guarded_sent gvr ns current pre : guarded gvr ns current pre → sent pre = [].
Proof. intros (cluster & reads & _ & _ & -> & Hr & _). exact Hr. Qed.

Lemma guard_error_None current : guard_error record current = None →
  GetUID current = recordUID record ∧ GetResourceVersion current = Attempt.m_AttributableAfterRV record ∧
  controlledMatches record current = true.
Proof.
  unfold guard_error. intros Hx. repeat case_match; try done. bool_simpl.
  by destruct (controlledMatches record current).
Qed.

Lemma confirm_deleted_safe rounds gvr ns : ∀ pre c, sent pre = [c] → call_succeeded c →
  safely pre (confirm_deleted rounds gvr ns record) accounted.
Proof.
  induction rounds as [|k IH]; intros pre c Hm Hc; cbn [confirm_deleted]; [apply unknown_safe|].
  eapply safe_try_call; [apply calls_get|done|]. intros [o|e].
  - apply (IH _ c); [|done]. by rewrite sent_app, Hm.
  - destruct (IsNotFound e); [|apply unknown_safe]. apply safe_ret. split; [done|].
    exists c. by rewrite sent_app, Hm.
Qed.

Lemma dispatch_delete_safe gvr ns current pre : guarded gvr ns current pre → Attempt.m_Operation record = "CREATE" →
  safely pre (dispatch_delete gvr ns record current) accounted.
Proof.
  intros Hg Ho. pose proof (guarded_sent _ _ _ _ Hg) as Hm.
  assert (guard_error record current = None) as (Hu & Hv & _)%guard_error_None by by destruct Hg as (?&?&?&?&?&?&?).
  eapply safe_try_call; [apply calls_delete| |].
  { intros r. exists current. rewrite Hu, Hv. done. }
  intros [[]|e].
  - eapply confirm_deleted_safe; [by rewrite sent_app, Hm|done].
  - destruct (IsConflict e) eqn:He; [|apply unknown_safe]. apply safe_ret. cbn. intros _. right.
    eexists. rewrite sent_app, Hm. split; [done|]. cbn. eauto.
Qed.

Lemma dispatch_update_safe gvr ns current saved desired pre :
  guarded gvr ns current pre → Attempt.m_Operation record ≠ "CREATE" →
  snapshotFromRecord (Attempt.m_Before record) = Ok saved → restoreControlledState current saved = Ok desired →
  safely pre (dispatch_update gvr ns record desired) accounted.
Proof.
  intros Hg Ho Hs Hr. pose proof (guarded_sent _ _ _ _ Hg) as Hm.
  eapply safe_try_call; [apply calls_update| |].
  { intros r. by exists current, saved. }
  intros [updated|e].
  - eapply safe_try_call; [apply calls_get|done|]. intros [after|e]; [|apply unknown_safe].
    destruct (_ || _); [apply unknown_safe|]. apply safe_ret. split; [done|].
    eexists. rewrite !sent_app, Hm. by split.
  - destruct (IsConflict e) eqn:He; [|apply unknown_safe]. apply safe_ret. cbn. intros _. right.
    eexists. rewrite sent_app, Hm. split; [done|]. cbn. eauto.
Qed.

Lemma targetReferencesPolicy_safe gvr ns current pre : guarded gvr ns current pre →
  safely pre (targetReferencesPolicy record target) (fun cs r => guarded gvr ns current cs ∧ is_ok r = true).
Proof.
  intros Hg. unfold targetReferencesPolicy. destruct (rollbackGVR _) as [[gvr' cluster]|]; [|by apply safe_ret].
  eapply safe_try_call; [apply calls_get|done|]. intros [o|e]; apply safe_ret; (split; [|done]); by apply guarded_read.
Qed.

Lemma verify_containers_safe gvr ns current l : ∀ pre, guarded gvr ns current pre →
  safely pre (verify_containers l) (fun cs _ => guarded gvr ns current cs).
Proof.
  induction l as [|raw l IH]; intros pre Hg; cbn [verify_containers]; [by apply safe_ret|].
  destruct (empty _); [by apply IH|]. destruct (ParseLocalhostProfilePath _); [|by apply safe_err].
  eapply safe_bind_call; [apply calls_get|done| |intros e; by apply guarded_read]. intros o.
  destruct (negb _); [by apply safe_err, guarded_read|]. by apply IH, guarded_read.
Qed.

Lemma verifyRestored_safe gvr ns current saved pre : guarded gvr ns current pre →
  safely pre (verifyRestoredReferencesReady saved) (fun cs _ => guarded gvr ns current cs).
Proof.
  intros Hg. unfold verifyRestoredReferencesReady. repeat case_match; try (by apply safe_ret).
  by apply verify_containers_safe.
Qed.

Lemma executeInverse_safe : safely [] (executeInverse record target) accounted.
Proof.
  unfold executeInverse. destruct (rollbackGVR _) as [[gvr cluster]|] eqn:Eg; [|by apply refused_safe].
  set (ns := scope_of _ _).
  eapply (before_dispatch_safe [] _ _ (fun cs r => cs = [CGet gvr ns (Attempt.m_Name record) r]));
    [|intros current pre' ->|by intros e pre' ->].
  { eapply safe_call; [apply calls_get|done|done]. }
  destruct (guard_error record current) as [e|] eqn:Hg; [by apply refused_safe|].
  assert (guarded gvr ns current [CGet gvr ns (Attempt.m_Name record) (Ok current)]) as Hgd by by exists cluster, [].
  case_bool_decide as Ho.
  - eapply safe_bind with (Q := fun cs r => guarded gvr ns current cs ∧ is_ok r = true); [| |by intros e pre' [_ Hf]].
    + destruct (isPolicyKind _); [by apply targetReferencesPolicy_safe|by apply safe_ret].
    + intros referenced pre' [Hp _]. destruct referenced; [by eapply refused_safe, guarded_sent|].
      by apply dispatch_delete_safe.
  - eapply (before_dispatch_safe _ _ _ (fun cs r => guarded gvr ns current cs ∧ r = snapshotFromRecord (Attempt.m_Before record)));
      [by apply safe_lift| |by intros e pre' [?%guarded_sent _]]. intros saved pre1 [Hp1 Hs].
    eapply (before_dispatch_safe _ _ _ (fun cs r => guarded gvr ns current cs ∧ r = restoreControlledState current saved));
      [by apply safe_lift| |by intros e pre' [?%guarded_sent _]]. intros desired pre2 [Hp2 Hr].
    destruct (isWorkloadKind _); [|by eapply dispatch_update_safe].
    eapply (before_dispatch_safe _ _ _ (fun cs _ => guarded gvr ns current cs));
      [by apply verifyRestored_safe| |by intros e pre' ?%guarded_sent]. intros [] pre3 Hp3.
    eapply (before_dispatch_safe _ _ _ (fun cs _ => guarded gvr ns current cs));
      [by apply safe_lift| |by intros e pre' ?%guarded_sent]. intros [] pre4 Hp4.
    by eapply dispatch_update_safe.
Qed.

(** C5: the inverse of a mutation is guarded and accounted for. Whatever the API
    server answers, the only object it deletes or updates is the one read
    first, which has the UID, the resource version and the controlled state the
    mutation left; a deletion inverts a creation and carries both as
    preconditions, an update writes the restored state; at most one mutation
    is sent; success means that it succeeded, and an outcome recorded as FAILED
    that nothing was changed. *)
Theorem executeInverse_accounted w r w' :
  executeInverse record target w = (r, w') →
  ∃ cs, calls w' = calls w ++ cs ∧ accounted cs r ∧ ∀ l c k, cs = l ++ c :: k → guarded_call l c.
Proof. intros Hrun. destruct (executeInverse_safe _ _ _ Hrun) as (cs & Hc & Hj & Ha). by exists cs. Qed.
End inverse.

(** ** The journal of a rollback *)
Inductive event :=
| EvGet (client : Client) (gvr : GVR) (ns name : string) (r : result json)
| EvList (r : result (list json))
| EvCreate (spec : RollbackSpec) (r : result (string * Object))
| EvSave (status : Attempt.Status) (r : result Object)
| EvAuthorize (source : Attempt.MutationRecord) (r : result unit)
| EvInvert (client : Client) (source : Attempt.MutationRecord) (r : result inverse_outcome).

Class RollbackJournal (W : Type) `{!Api W RollbackSpec Attempt.Status} `{!Environment W} `{!Clients W}
  (deps : Dependencies W) := {
  journal : W → list event;
  journal_get : ∀ c gvr ns n, traced journal (client_get c gvr ns n) (fun evs r => evs = [EvGet c gvr ns n r]);
  journal_list : ∀ ns, traced journal (list_rollbacks ns) (fun evs r => evs = [EvList r]);
  journal_create : ∀ s, traced journal (CreateRollbackAttempt deps s) (fun evs r => evs = [EvCreate s r]);
  journal_save : ∀ o s, traced journal (SaveRollbackAttemptStatus deps o s) (fun evs r => evs = [EvSave s r]);
  journal_authorize : ∀ auth, AuthorizeClusterScopedInverse deps = Some auth →
    ∀ source t, traced journal (auth source t) (fun evs r => evs = [EvAuthorize source r]);
  journal_invert : ∀ c source t,
    traced journal (ExecuteInverse deps c source t) (fun evs r => evs = [EvInvert c source r]);
  journal_now : quiet journal api_now;
  journal_crd : quiet journal get_crd;
  journal_dynamic : quiet journal (NewDynamicClient deps);
  journal_open : ∀ m, OpenClusterScopedClient deps = Some m → quiet journal m;
  journal_confirm : ∀ m, Confirm deps = Some m → quiet journal m }.

(** The inverses that were dispatched, and whether they succeeded. *)
Definition inverted_ok (r : result inverse_outcome) : bool := match r with Ok (_, None) => true | _ => false end.
Definition inversion_of (e : event) : option (Attempt.MutationRecord * bool) :=
  match e with EvInvert _ source r => Some (source, inverted_ok r) | _ => None end.
Definition inversions (evs : list event) : list (Attempt.MutationRecord * bool) := omap inversion_of evs.

(** No inverse, no attempt, no claim of success. *)
Definition calm_event (e : event) : Prop :=
  match e with
  | EvInvert _ _ _ | EvCreate _ _ => False
  | EvSave st _ => Attempt.st_State st ≠ Attempt.StateApplied
  | _ => True
  end.
Definition no_claim (evs : list event) : Prop :=
  Forall (fun e => match e with EvSave st _ => Attempt.st_State st ≠ Attempt.StateApplied | _ => True end) evs.

Section run.
Context {W : Type} `{!Api W RollbackSpec Attempt.Status} `{!Environment W} `{!Clients W} `{!Unstructured}.
Context (deps : Dependencies W) `{!RollbackJournal W deps}.

(** What stands before an inverse: the attempt was created; immediately before,
    the object was read and is the one the mutation left, and a record of the
    inverse with an unknown outcome was made durable; a cluster-scoped one is
    sent through the controlled client when there is one, after its
    authorisation. *)
Definition written_ahead (before : list event) (e : event) : Prop :=
  match e with
  | EvInvert client source _ => ∃ l gvr cluster current st obj earlier,
      before = l ++ [EvGet client gvr (scope_of cluster (Attempt.m_Namespace source)) (Attempt.m_Name source) (Ok current);
                     EvSave st (Ok obj)] ∧
      rollbackGVR (Attempt.m_GVK source) = Some (gvr, cluster) ∧ guard_error source current = None ∧
      Attempt.st_Mutations st = earlier ++ [prepared_record source current] ∧
      (∃ spec created, EvCreate spec (Ok created) ∈ l) ∧
      (if cluster && bool_decide (is_Some (OpenClusterScopedClient deps))
       then client = ClusterScopedClient ∧ ∃ l', l = l' ++ [EvAuthorize source (Ok ())]
       else client = DynamicClient)
  | _ => True
  end.
Abbreviation safely := (safe journal written_ahead).
Definition created (evs : list event) : Prop := ∃ spec c, EvCreate spec (Ok c) ∈ evs.

Lemma created_app evs evs' : created evs → created (evs ++ evs').
Proof. intros (s & c & Hin). exists s, c. apply elem_of_app. by left. Qed.
#[local] Hint Resolve created_app : core.

Lemma save_then_fail_safe {A} pre obj st e (R : list event → result A → Prop) :
  (∀ r, R (pre ++ [EvSave st r]) (Err e)) → safely pre (save_then_fail deps obj st e) R.
Proof.
  intros HR. eapply safe_try_call; [apply journal_save|done|]. intros r. apply safe_err, HR.
Qed.

Lemma refuse_safe {A} pre c source e : created pre → safely pre (@refuse W deps A c source e) (fun evs _ => created evs).
Proof. intros Hc. apply save_then_fail_safe. auto. Qed.

Definition chosen (source : Attempt.MutationRecord) (evs : list event) (client : Client) : Prop :=
  created evs ∧
  (if match rollbackGVR (Attempt.m_GVK source) with Some (_, cluster) => cluster | None => false end &&
      bool_decide (is_Some (OpenClusterScopedClient deps))
   then client = ClusterScopedClient ∧ ∃ l', evs = l' ++ [EvAuthorize source (Ok ())]
   else client = DynamicClient).

Lemma inverse_client_safe pre c source target : created pre →
  safely pre (inverse_client deps c source target) (fun evs r => created evs ∧ ∀ client, r = Ok client → chosen source evs client).
Proof.
  intros Hc. unfold inverse_client, chosen. destruct (rollbackGVR _) as [[gvr []]|]; try (by apply safe_ret; split; [|intros ? [= <-]]).
  destruct (OpenClusterScopedClient deps) as [open|] eqn:Eo; [|by apply safe_ret; split; [|intros ? [= <-]]].
  eapply safe_try; [apply (safe_quiet journal written_ahead pre open (fun evs _ => evs = pre)); [by eapply journal_open|done]|].
  assert (∀ e, safely pre (@refuse W deps Client c source e) (fun evs r => created evs ∧ ∀ client, r = Ok client →
    created evs ∧ client = ClusterScopedClient ∧ ∃ l', evs = l' ++ [EvAuthorize source (Ok ())])) as Hr.
  { intros e. eapply save_then_fail_safe. intros r. split; [by auto|done]. }
  intros [[]|e] pre' ->; [|apply Hr|apply Hr].
  destruct (AuthorizeClusterScopedInverse deps) as [auth|] eqn:Ea; [|by apply safe_err].
  eapply safe_bind_call; [by eapply journal_authorize|done| |].
  - intros []. apply safe_ret. split; [by auto|]. intros client [= <-]. split; [by auto|]. split; [done|]. by exists pre.
  - intros e. split; [by auto|done].
Qed.

Definition prepared_for (source : Attempt.MutationRecord) (client : Client) (evs : list event)
  (a : Object * Attempt.Status * Attempt.MutationRecord) : Prop :=
  ∀ r, written_ahead evs (EvInvert client source r).

Lemma prepare_safe pre c source client : chosen source pre client →
  safely pre (prepare deps c source client) (fun evs r => created evs ∧ ∀ a, r = Ok a → prepared_for source client evs a).
Proof.
  intros [Hc Hch]. unfold prepare, prepareInverse.
  destruct (rollbackGVR (Attempt.m_GVK source)) as [[gvr cluster]|] eqn:Eg; cbn in Hch.
  2:{ eapply safe_try with (Q := fun evs r => evs = pre ∧ is_ok r = false); [by apply safe_err|].
      intros [a|e] pre' [-> Hf]; [done|]. apply save_then_fail_safe. intros r. split; [by auto|done]. }
  set (ns := scope_of _ _).
  eapply safe_try with (Q := fun evs r => ∃ got, evs = pre ++ [EvGet client gvr ns (Attempt.m_Name source) got] ∧
    ∀ prepared, r = Ok prepared → ∃ current, got = Ok current ∧ guard_error source current = None ∧
      prepared = prepared_record source current).
  { eapply safe_bind_call; [apply journal_get|done| |].
    - intros current. destruct (guard_error source current) as [e|] eqn:Hg; [by apply safe_err; eexists|].
      apply safe_ret. eexists. split; [done|]. intros p [= <-]. by exists current.
    - intros e. by eexists. }
  intros [prepared|e] pre' (got & -> & Hp).
  2:{ apply save_then_fail_safe. intros r. split; [rewrite <-app_assoc; by auto|done]. }
  destruct (Hp prepared eq_refl) as (current & -> & Hg & ->).
  eapply safe_bind_call; [apply journal_save|done| |].
  - intros obj. apply safe_ret. rewrite <-app_assoc. split; [by auto|]. intros a _ r.
    exists pre, gvr, cluster, current. do 2 eexists. exists (Attempt.st_Mutations c.2). by repeat (split; [done|]).
  - intros e. rewrite <-app_assoc. split; [by auto|done].
Qed.

Lemma record_outcome_safe pre c prepared outcome : created pre →
  safely pre (record_outcome deps c prepared outcome) (fun evs _ => created evs).
Proof.
  intros Hc. unfold record_outcome. destruct c as [obj st], outcome as [record [e|]].
  - apply save_then_fail_safe. auto.
  - eapply safe_try_call; [apply journal_save|done|]. intros [obj'|e]; [apply safe_ret; auto|].
    apply save_then_fail_safe. intros r. rewrite <-app_assoc. auto.
Qed.

Lemma invert_safe pre c source target : created pre →
  safely pre (invert deps c source target) (fun evs _ => created evs).
Proof.
  intros Hc. unfold invert.
  eapply safe_bind; [by apply inverse_client_safe| |by intros e pre' [? _]]. intros client pre1 [_ H1].
  eapply safe_bind; [by apply prepare_safe, H1| |by intros e pre' [? _]]. intros ahead pre2 [Hc2 H2].
  eapply safe_bind_call; [apply journal_invert|exact (H2 _ eq_refl)| |intros e; auto].
  intros outcome. apply record_outcome_safe. auto.
Qed.

Lemma invert_all_safe sources target : ∀ pre c, created pre →
  safely pre (invert_all deps c sources target) (fun evs _ => created evs).
Proof.
  induction sources as [|source sources IH]; intros pre c Hc; cbn [invert_all]; [by apply safe_ret|].
  eapply safe_bind; [by apply invert_safe| |done]. intros c' pre' Hc'. by apply IH.
Qed.

Lemma rollback_safe pre spec sources target : safely pre (rollback deps spec sources target) (fun _ _ => True).
Proof.
  unfold rollback. eapply safe_bind_call; [apply journal_create|done| |done]. intros c.
  eapply safe_bind_call; [apply journal_save|done| |done]. intros obj.
  eapply safe_bind; [apply invert_all_safe| |done].
  { exists spec, c. rewrite !elem_of_app. left. right. left. }
  intros c' pre' _. apply safe_quiet_bind; [apply journal_now| |done]. intros now.
  eapply safe_bind_call; [apply journal_save|done| |done]. intros o. by apply safe_ret.
Qed.

(** *** The checks before the attempt *)
Abbreviation calmly := (all_calls journal calm_event).

Lemma calmly_get c gvr ns n : calmly (client_get c gvr ns n).
Proof. eapply all_call; [apply journal_get|done]. Qed.

Ltac calm_step :=
  first
  [ apply all_bind; [|intros ?] | apply all_try; [|intros ?] | apply all_if
  | apply all_ret | apply all_err | apply all_lift | apply calmly_get
  | apply all_quiet; first [apply journal_now|apply journal_crd|apply journal_dynamic]
  | match goal with
    | |- all_calls _ _ (match ?x with _ => _ end) => destruct x
    | |- all_calls _ _ (let '(_, _) := ?x in _) => destruct x
    end ].
Ltac calm := unfold fail_msg; repeat calm_step.

Lemma calmly_source opts name : calmly (qualified_source deps opts name).
Proof. unfold qualified_source, Attempt.CustodyEpochAndHardening. calm. Qed.

Lemma rollback_calmly_confirmed opts : calmly (confirmed deps opts).
Proof.
  unfold confirmed. apply all_if; [apply all_ret|]. destruct (Confirm deps) as [m|] eqn:E; [|apply all_ret].
  by apply all_quiet, (journal_confirm m).
Qed.

Lemma calm_safe {A} pre (m : M W A) : calmly m → safely pre m (fun _ _ => True).
Proof.
  intros Hm. eapply traced_mono; [exact Hm|]. cbn. intros evs r Hc. split; [|done].
  intros l e k ->. apply Forall_app in Hc as [_ Hc]. inversion Hc as [|?? He]; subst. by destruct e.
Qed.

Lemma Run_safe opts name : safely [] (Run deps opts name) (fun _ _ => True).
Proof.
  unfold Run. eapply safe_bind; [apply calm_safe, calmly_source| |done]. intros [[[source spec] status] epoch] pre _.
  eapply safe_bind with (Q := fun _ _ => True); [apply calm_safe; unfold rollbackHistory; calm; eapply all_call; [apply journal_list|done]| |done].
  intros h pre1 _. apply safe_lift_bind; [|done]. intros [|s sources] _; [by apply safe_err|].
  eapply safe_bind; [apply calm_safe, rollback_calmly_confirmed| |done]. intros [] pre2 _; cbn; [|by apply safe_ret].
  eapply safe_bind; [apply calm_safe, calmly_get| |done]. intros current pre3 _.
  destruct (_ || _); [by apply safe_err|]. apply safe_quiet_bind; [apply journal_now| |done]. intros now.
  eapply safe_mono; [apply rollback_safe|done].
Qed.

(** C3: every inverse a rollback dispatches is written ahead. Whatever the cluster
    answers: the rollback attempt exists, the object was read immediately
    before and is still exactly what the mutation left (UID, resource version,
    controlled state), the last record of the status that was just made durable
    is the inverse of that object with an unknown outcome, and a cluster-scoped
    profile goes through the controlled client when one is configured, after
    its authorisation. *)
Theorem Run_rollback_write_ahead opts name w r w' :
  Run deps opts name w = (r, w') →
  ∃ evs, journal w' = journal w ++ evs ∧
    ∀ l e k, evs = l ++ e :: k → written_ahead l e.
Proof. intros Hrun. destruct (Run_safe _ _ _ _ _ Hrun) as (evs & Hj & Hs & _). by exists evs. Qed.

(** ** The outcome of a rollback *)
Lemma inversions_app l k : inversions (l ++ k) = inversions l ++ inversions k.
Proof. apply omap_app. Qed.

Lemma calm_inversions evs : Forall calm_event evs → inversions evs = [].
Proof. induction 1 as [|e evs He _ IH]; [done|]. unfold inversions in *. by destruct e; cbn in *. Qed.
Lemma rollback_calm_no_claim evs : Forall calm_event evs → no_claim evs.
Proof. intros He. eapply Forall_impl; [exact He|]. by intros []. Qed.

Lemma no_claim_app l k : no_claim l → no_claim k → no_claim (l ++ k).
Proof. intros Hl Hk. by apply Forall_app. Qed.
#[local] Hint Resolve rollback_calm_no_claim no_claim_app : core.

(** A step of the rollback over a status that is in progress: what it sends and
    what it claims. *)
Definition step_outcome (source : Attempt.MutationRecord) (evs : list event) (r : result (Object * Attempt.Status)) : Prop :=
  no_claim evs ∧
  match r with
  | Ok c => inversions evs = [(source, true)] ∧ Attempt.st_State c.2 = Attempt.StateInProgress
  | Err _ => inversions evs = [] ∨ ∃ b, inversions evs = [(source, b)]
  end.

Lemma failed_state_not_applied o l : failed_state o l ≠ Attempt.StateApplied.
Proof. unfold failed_state. by repeat case_match. Qed.

Lemma fail_traced {A} obj st e : Attempt.st_State st ≠ Attempt.StateApplied →
  traced journal (@save_then_fail W deps A obj st e) (fun evs r => Forall calm_event evs ∧ is_ok r = false).
Proof.
  intros Hs. eapply traced_try; [apply journal_save|]. cbn. intros r evs ->. apply traced_err.
  split; [|done]. by repeat constructor.
Qed.
Lemma rollback_calmly_fail {A} obj st e : Attempt.st_State st ≠ Attempt.StateApplied → calmly (@save_then_fail W deps A obj st e).
Proof. intros Hs. eapply traced_mono; [by apply fail_traced|]. by intros evs r [? _]. Qed.

Lemma calmly_client c source target : Attempt.st_State c.2 = Attempt.StateInProgress →
  calmly (inverse_client deps c source target).
Proof.
  intros Hs. unfold inverse_client, refuse.
  assert (∀ A r e, calmly (@save_then_fail W deps A c.1 (append_record c.2 r) e)) as Hf
    by (intros; apply rollback_calmly_fail; cbn; by rewrite Hs).
  destruct (rollbackGVR _) as [[gvr []]|]; try apply all_ret.
  destruct (OpenClusterScopedClient deps) as [open|] eqn:Eo; [|apply all_ret].
  apply all_try; [by eapply all_quiet, journal_open|]. intros [[]|e]; try apply Hf.
  destruct (AuthorizeClusterScopedInverse deps) as [auth|] eqn:Ea; [|apply all_err].
  apply all_bind; [|intros; apply all_ret]. by eapply all_call; [by eapply journal_authorize|].
Qed.

Definition in_progress (evs : list event) (r : result (Object * Attempt.Status * Attempt.MutationRecord)) : Prop :=
  Forall calm_event evs ∧ ∀ a, r = Ok a → Attempt.st_State a.1.2 = Attempt.StateInProgress.

Lemma prepare_traced c source client : Attempt.st_State c.2 = Attempt.StateInProgress →
  traced journal (prepare deps c source client) in_progress.
Proof.
  intros Hs. unfold prepare, prepareInverse.
  eapply traced_try with (T := fun evs _ => Forall calm_event evs).
  { change (calmly (match rollbackGVR (Attempt.m_GVK source) with
      | Some (gvr, cluster) => current <- client_get client gvr (scope_of cluster (Attempt.m_Namespace source)) (Attempt.m_Name source) ;!
          match guard_error source current with Some e => m_err e | None => m_ret (prepared_record source current) end
      | None => unsupported end)). unfold unsupported. calm. }
  intros [prepared|e] evs He.
  - eapply traced_bind; [apply journal_save| |].
    + cbn. intros obj evs' ->. apply traced_ret. rewrite app_nil_r. split.
      * apply Forall_app. split; [done|]. repeat constructor. cbn. by rewrite Hs.
      * intros a [= <-]. exact Hs.
    + cbn. intros e evs' ->. split; [|done]. apply Forall_app. split; [done|]. repeat constructor. cbn. by rewrite Hs.
  - eapply traced_mono; [apply (fail_traced c.1); cbn; by rewrite Hs|]. cbn. intros evs' r [He' Hr].
    split; [by apply Forall_app|]. by intros a ->.
Qed.

Lemma with_last_state st r : Attempt.st_State (Apply.with_last st r) = Attempt.st_State st.
Proof. done. Qed.

Lemma record_outcome_traced c prepared outcome : Attempt.st_State c.2 = Attempt.StateInProgress →
  traced journal (record_outcome deps c prepared outcome) (fun evs r => Forall calm_event evs ∧
    match r with Ok c' => outcome.2 = None ∧ Attempt.st_State c'.2 = Attempt.StateInProgress | Err _ => True end).
Proof.
  destruct c as [obj st]. cbn [snd]. intros Hs. unfold record_outcome. destruct outcome as [record [e|]].
  - eapply traced_mono; [apply fail_traced, failed_state_not_applied|]. intros evs [c'|e'] [He Hr]; done.
  - eapply traced_try; [apply journal_save|]. cbn. intros [obj'|e] evs ->.
    + apply traced_ret. split; [|done]. repeat constructor. cbn. by rewrite Hs.
    + eapply traced_mono; [by apply fail_traced|]. intros evs [c'|e'] [He Hr]; [done|]. split; [|done].
      constructor; [|done]. cbn. by rewrite Hs.
Qed.

Lemma invert_traced c source target : Attempt.st_State c.2 = Attempt.StateInProgress →
  traced journal (invert deps c source target) (step_outcome source).
Proof.
  intros Hs. unfold invert.
  assert (∀ evs e, Forall calm_event evs → step_outcome source evs (Err e)) as Hcalm.
  { intros evs e He. split; [by apply rollback_calm_no_claim|]. left. by apply calm_inversions. }
  eapply traced_bind; [by apply calmly_client| |auto]. intros client evs1 H1. cbv beta in H1.
  eapply traced_bind; [by apply prepare_traced| |]; cbv beta.
  2:{ intros e evs2 [H2 _]. apply Hcalm. by apply Forall_app. }
  intros ahead evs2 [H2 Hst]. specialize (Hst ahead eq_refl).
  eapply traced_bind; [apply journal_invert| |]; cbv beta.
  2:{ intros e evs3 ->. split.
      - do 2 (apply no_claim_app; [by auto|]). by repeat constructor.
      - right. exists false. by rewrite !inversions_app, (calm_inversions evs1), (calm_inversions evs2). }
  intros outcome evs3 ->. eapply traced_mono; [by apply record_outcome_traced|]. cbv beta.
  intros evs4 r [H4 Hr]. split.
  - do 2 (apply no_claim_app; [by auto|]). apply no_claim_app; [by repeat constructor|by auto].
  - rewrite !inversions_app, (calm_inversions evs1), (calm_inversions evs2), (calm_inversions evs4) by done.
    destruct r as [c'|e]; cbn.
    + destruct Hr as [Ho Hc']. split; [|done]. unfold inverted_ok. destruct outcome as [record' f]. cbn in Ho. by subst f.
    + right. eauto.
Qed.

(** What a run over [sources] sends: all of them, each once and in order, or a
    successful prefix followed by at most one more. *)
Definition stopped (sources : list Attempt.MutationRecord) (sent : list (Attempt.MutationRecord * bool)) : Prop :=
  ∃ done rest, sources = done ++ rest ∧
    (sent = map (fun s => (s, true)) done ∨ ∃ s b, head rest = Some s ∧ sent = map (fun s => (s, true)) done ++ [(s, b)]).

Lemma stopped_more source sources sent : stopped sources sent → stopped (source :: sources) ((source, true) :: sent).
Proof.
  intros (ok & rest & -> & Hx). exists (source :: ok), rest. split; [done|].
  destruct Hx as [->|(s & b & Hh & ->)]; [by left|]. right. by exists s, b.
Qed.

Lemma invert_all_traced sources target : ∀ c, Attempt.st_State c.2 = Attempt.StateInProgress →
  traced journal (invert_all deps c sources target) (fun evs r => no_claim evs ∧
    match r with
    | Ok c' => inversions evs = map (fun s => (s, true)) sources
    | Err _ => stopped sources (inversions evs)
    end).
Proof.
  induction sources as [|source sources IH]; intros c Hs; cbn [invert_all].
  { apply traced_ret. split; [constructor|done]. }
  eapply traced_bind; [by apply invert_traced| |]; cbv beta.
  - intros c' evs1 [Hn [Hi Hs']]. eapply traced_mono; [by apply IH|]. cbv beta. intros evs2 r [Hn2 Hr].
    split; [by apply Forall_app|]. rewrite inversions_app, Hi. destruct r as [c2|e]; cbn; [by rewrite Hr|].
    by apply stopped_more.
  - intros e evs1 [Hn Hi]. split; [done|]. exists [], (source :: sources). split; [done|].
    destruct Hi as [->|[b ->]]; [by left|]. right. by exists source, b.
Qed.

(** A durable claim that the rollback was applied. *)
Definition claimed (evs : list event) : Prop :=
  ∃ st obj, EvSave st (Ok obj) ∈ evs ∧ Attempt.st_State st = Attempt.StateApplied.

Lemma rollback_no_claim_not_claimed evs : no_claim evs → ¬ claimed evs.
Proof. intros Hn (st & obj & Hin & Hs). unfold no_claim in Hn. rewrite Forall_forall in Hn. by apply (Hn _ Hin). Qed.

Lemma claimed_app evs evs' : no_claim evs → claimed (evs ++ evs') → claimed evs'.
Proof.
  intros Hn (st & obj & [Hin|Hin]%elem_of_app & Hs); [|by exists st, obj].
  destruct (rollback_no_claim_not_claimed evs Hn). by exists st, obj.
Qed.

Definition rolled_back (sources : list Attempt.MutationRecord) (evs : list event) (r : result unit) : Prop :=
  match r with
  | Ok _ => inversions evs = map (fun s => (s, true)) (rev sources) ∧ claimed evs
  | Err _ => stopped (rev sources) (inversions evs) ∧ ¬ claimed evs
  end.

Lemma rollback_traced spec sources target : traced journal (rollback deps spec sources target) (rolled_back sources).
Proof.
  unfold rollback. assert (stopped (rev sources) []) as Hnil by (exists [], (rev sources); split; [done|by left]).
  eapply traced_bind; [apply journal_create| |]; cbv beta.
  2:{ intros e evs ->. split; [done|]. apply rollback_no_claim_not_claimed. by repeat constructor. }
  intros c evs ->. eapply traced_bind; [apply journal_save| |]; cbv beta.
  2:{ intros e evs ->. split; [done|]. apply rollback_no_claim_not_claimed. by repeat constructor. }
  intros obj evs ->. eapply traced_bind; [by apply invert_all_traced| |]; cbv beta.
  2:{ intros e evs [Hn Hi]. split; [exact Hi|]. apply rollback_no_claim_not_claimed.
      repeat (constructor; [done|]). exact Hn. }
  intros c' evs [Hn Hi]. apply traced_quiet_bind; [apply journal_now| |].
  2:{ intros e. rewrite app_nil_r. cbn [app]. split.
      - change (stopped (rev sources) (inversions evs)). rewrite Hi. exists (rev sources), []. by rewrite app_nil_r; split; [|left].
      - apply rollback_no_claim_not_claimed. repeat (constructor; [done|]). exact Hn. }
  intros now. eapply traced_bind; [apply journal_save| |]; cbv beta.
  - intros o evs' ->. apply traced_ret. rewrite app_nil_r. split.
    + rewrite !inversions_app, Hi. cbn. by rewrite app_nil_r.
    + do 2 eexists. split; [rewrite !elem_of_app; do 3 right; left|done].
  - intros e evs' ->. split.
    + rewrite !inversions_app, Hi. cbn. rewrite app_nil_r. exists (rev sources), []. by rewrite app_nil_r; split; [|left].
    + intros Hc. apply claimed_app in Hc; [|by repeat constructor]. apply claimed_app in Hc; [|by repeat constructor].
      apply claimed_app in Hc; [|done]. destruct Hc as (st & o & Hin%list_elem_of_singleton & _). done.
Qed.

Lemma source_traced opts name : traced journal (qualified_source deps opts name) (fun evs r =>
  Forall calm_event evs ∧ ∀ source spec status epoch, r = Ok (source, spec, status, epoch) →
    EvGet DynamicClient ApplyAttemptGVR (Namespace opts) name (Ok source) ∈ evs ∧
    into_Status zero_Status (field_value "status" source) = Ok status ∧
    Attempt.st_State status ≠ Attempt.StateInProgress).
Proof.
  intros w r w' Hrun. destruct (calmly_source opts name w r w' Hrun) as (evs & Hj & Hc).
  exists evs. split; [done|]. split; [done|]. intros source spec status epoch ->.
  revert w evs w' Hrun Hj Hc.
  assert (traced journal (qualified_source deps opts name) (fun evs r => match r with
    | Ok (source, spec, status, epoch) => EvGet DynamicClient ApplyAttemptGVR (Namespace opts) name (Ok source) ∈ evs ∧
        into_Status zero_Status (field_value "status" source) = Ok status ∧ Attempt.st_State status ≠ Attempt.StateInProgress
    | Err _ => True end)) as Ht.
  { unfold qualified_source. apply traced_quiet_bind; [apply journal_dynamic| |done]. intros _.
    eapply traced_bind; [apply journal_get| |done]. cbn. intros s evs ->.
    apply traced_lift_bind; [|done]. intros sp _. apply traced_lift_bind; [|done]. intros st Hst.
    destruct (empty _); [by apply traced_err|]. destruct (_ && _); [by apply traced_err|].
    apply traced_quiet_bind; [| |done].
    { unfold Attempt.CustodyEpochAndHardening. apply quiet_try; [apply journal_crd|]. intros [crd|e]; [|by destruct (IsNotFound e); auto with genprof].
      apply quiet_bind; [apply quiet_lift|]. intros [[|[] ?]|]; auto with genprof. }
    intros [ep hard]. destruct (_ || _); [by apply traced_err|]. case_bool_decide as Hp; [by apply traced_err|].
    apply traced_ret. split; [left|]. done. }
  intros w evs w' Hrun Hj _. destruct (Ht _ _ _ Hrun) as (evs' & Hj' & Hx). cbn in Hx.
  rewrite Hj in Hj'. apply app_inv_head in Hj' as <-. exact Hx.
Qed.

Lemma history_traced ns uid : traced journal (rollbackHistory ns uid) (fun evs r =>
  Forall calm_event evs ∧ ∀ h, r = Ok h → ∃ items, EvList (Ok items) ∈ evs ∧ h = history_of uid items).
Proof.
  unfold rollbackHistory. eapply traced_try; [apply journal_list|]. cbn. intros [items|e] evs ->.
  - apply traced_ret. split; [by repeat constructor|]. intros h [= <-]. exists items. split; [left|done].
  - destruct (IsNotFound e); apply traced_err; (split; [by repeat constructor|done]).
Qed.

(** What a rollback did, over the events of the whole run. *)
Definition outcome_of (opts : Options) (name : string) (evs : list event) (r : result unit) : Prop :=
  Forall calm_event evs ∨
  ∃ source status items sources,
    EvGet DynamicClient ApplyAttemptGVR (Namespace opts) name (Ok source) ∈ evs ∧
    into_Status zero_Status (field_value "status" source) = Ok status ∧
    Attempt.st_State status ≠ Attempt.StateInProgress ∧ EvList (Ok items) ∈ evs ∧
    eligible (history_of (GetUID source) items) (Attempt.st_Mutations status) = Ok sources ∧
    rolled_back sources evs r.

Lemma calm_claimed evs evs' : Forall calm_event evs → claimed (evs ++ evs') ↔ claimed evs'.
Proof.
  intros Hc. split; [apply claimed_app; by auto|]. intros (st & o & Hin & Hs). exists st, o.
  split; [apply elem_of_app; by right|done].
Qed.

Lemma rolled_back_after sources pre evs r : Forall calm_event pre → rolled_back sources evs r → rolled_back sources (pre ++ evs) r.
Proof.
  intros Hc Hr. unfold rolled_back in *. destruct r; rewrite inversions_app, (calm_inversions pre) by done;
    by rewrite calm_claimed.
Qed.

Lemma Run_rollback_traced opts name : traced journal (Run deps opts name) (outcome_of opts name).
Proof.
  unfold Run. eapply traced_bind; [apply source_traced| |by intros e evs [Hc _]; left].
  intros [[[source spec] status] epoch] evs1 [H1 Hs]. destruct (Hs _ _ _ _ eq_refl) as (Hg & Hst & Hp). cbv beta iota.
  eapply traced_bind; [apply history_traced| |intros e evs [Hc _]; left; by apply Forall_app].
  intros h evs2 [H2 Hh]. destruct (Hh _ eq_refl) as (items & Hl & ->). cbv beta.
  apply traced_lift_bind; [|intros e _; left; rewrite app_nil_r; by apply Forall_app].
  intros sources He. assert (Forall calm_event (evs1 ++ evs2)) as H12 by by apply Forall_app.
  destruct sources as [|s rest]; [apply traced_err; left; by rewrite app_nil_r|]. remember (s :: rest) as sources.
  eapply traced_bind; [apply rollback_calmly_confirmed| |]; cbv beta; [|intros e evs3 H3; left; rewrite app_assoc; by apply Forall_app].
  intros yes evs3 H3. assert (Forall calm_event (evs1 ++ evs2 ++ evs3)) as H123 by (rewrite app_assoc; by apply Forall_app).
  destruct yes; cbn [negb]; [|apply traced_ret; left; by rewrite app_nil_r].
  eapply traced_bind; [apply calmly_get| |]; cbv beta; [|intros e evs4 H4; left; rewrite !app_assoc in *; by apply Forall_app].
  intros current evs4 H4. destruct (_ || _); [apply traced_err; left; rewrite app_nil_r, !app_assoc in *; by apply Forall_app|].
  apply traced_quiet_bind; [apply journal_now| |intros e; left; rewrite app_nil_r, !app_assoc in *; by apply Forall_app].
  intros now. eapply traced_mono; [apply rollback_traced|]. intros evs5 r Hr. right.
  exists source, status, items, sources. repeat (split; [rewrite ?elem_of_app; by auto|]).
  replace (evs1 ++ evs2 ++ evs3 ++ evs4 ++ evs5) with ((evs1 ++ evs2 ++ evs3 ++ evs4) ++ evs5) by by rewrite <-!app_assoc.
  apply rolled_back_after; [|done]. rewrite !app_assoc in *. by apply Forall_app.
Qed.

(** C4: A rollback works backwards, stops at the first failure and claims no more
    than it did. Whatever the cluster answers: either nothing was attempted, or
    the inverses dispatched are of the eligible mutations of the stored attempt,
    which is not in progress, in reverse order: all of them succeeded when the
    run succeeds, and the claim to be applied is durable; when it fails, all
    but the last did, and no such claim is durable. *)
Theorem Run_rollback_outcome opts name w r w' :
  Run deps opts name w = (r, w') → ∃ evs, journal w' = journal w ++ evs ∧ outcome_of opts name evs r.
Proof. apply Run_rollback_traced. Qed.
End run.

(** ** Which mutations are eligible *)

(** A mutation is inverted only when it succeeded with an attributable version
    and a snapshot, and no earlier rollback of the same source inverted it or
    may have. *)
Lemma eligible_spec h records sources : eligible h records = Ok sources →
  sources = List.filter (fun r => bool_decide (Attempt.m_Result r = Attempt.ResultSucceeded) &&
    negb (bool_decide (Attempt.m_ID r ∈ h_completed h)) &&
    negb (empty (Attempt.m_AttributableAfterRV r) || empty (Attempt.m_ObservedAfter r))) records ∧
  ∀ r, r ∈ sources → Attempt.m_ID r ∉ h_completed h ∧ Attempt.m_ID r ∉ h_unknown h.
Proof.
  revert sources. induction records as [|r records IH]; intros sources; cbn [eligible List.filter]; [intros [= <-]; split; [done|set_solver]|].
  destruct (_ && _); [done|].
  case_bool_decide as Hs; cbn [negb andb]; [|by apply IH].
  case_bool_decide as Hc; cbn [negb andb]; [by apply IH|].
  case_bool_decide as Hu; [done|].
  destruct (_ || _); cbn [negb]; [by apply IH|].
  destruct (eligible h records) as [rest|]; cbn; [|done]. intros [= <-]. destruct (IH rest eq_refl) as [-> Hin].
  split; [done|]. intros r' [->|Hr']%elem_of_cons; [done|]. by apply Hin.
Qed.

Section once.
Context `{!Unstructured}.

Definition extends (h h' : history) : Prop := h_completed h ⊆ h_completed h' ∧ h_unknown h ⊆ h_unknown h'.

Lemma history_step_extends uid h item : extends h (history_step uid h item).
Proof.
  unfold history_step, extends. destruct (into_RollbackSpec zero_RollbackSpec (field_value "spec" item)); [|done].
  destruct (negb _); [done|]. destruct (into_Status zero_Status (field_value "status" item)); [|done].
  cbn. set_solver.
Qed.

Lemma history_extends uid l : ∀ h, extends h (foldl (history_step uid) h l).
Proof.
  induction l as [|i l IH]; intros h; cbn [foldl]; [done|].
  destruct (history_step_extends uid h i), (IH (history_step uid h i)). split; by etrans.
Qed.

(** The history holds what every stored rollback of the source recorded. *)
Lemma history_holds uid items item spec status :
  item ∈ items → into_RollbackSpec zero_RollbackSpec (field_value "spec" item) = Ok spec → SourceUID spec = uid →
  into_Status zero_Status (field_value "status" item) = Ok status →
  sources_with Attempt.ResultSucceeded (Attempt.st_Mutations status) ⊆ h_completed (history_of uid items) ∧
  sources_with Attempt.ResultUnknown (Attempt.st_Mutations status) ⊆ h_unknown (history_of uid items).
Proof.
  intros (l1 & l2 & ->)%list_elem_of_split Hspec Huid Hstatus. unfold history_of. rewrite foldl_app. cbn [foldl].
  set (h := foldl _ _ l1). destruct (history_extends uid l2 (history_step uid h item)) as [H1 H2].
  assert (sources_with Attempt.ResultSucceeded (Attempt.st_Mutations status) ⊆ h_completed (history_step uid h item) ∧
    sources_with Attempt.ResultUnknown (Attempt.st_Mutations status) ⊆ h_unknown (history_step uid h item)) as [H3 H4];
    [|by split; etrans].
  unfold history_step. rewrite Hspec, bool_decide_eq_true_2 by done. cbn [negb]. rewrite Hstatus. cbn. set_solver.
Qed.

Lemma elem_of_sources outcome records inverse : inverse ∈ records → Attempt.m_Result inverse = outcome →
  Attempt.m_SourceMutationID inverse ≠ "" → Attempt.m_SourceMutationID inverse ∈ sources_with outcome records.
Proof.
  intros Hin Ho Hne. unfold sources_with. apply elem_of_list_to_set, list_elem_of_fmap_2.
  apply list_elem_of_In, filter_In. split; [by apply list_elem_of_In|].
  unfold empty. by rewrite bool_decide_eq_true_2, bool_decide_eq_false_2.
Qed.

(** C7: no mutation is inverted twice: an eligible mutation succeeded, and no stored
    rollback of the same source holds a record of its inverse that succeeded
    or whose outcome is unknown, as the write-ahead record of an interrupted
    rollback is. *)
Theorem eligible_once uid items records sources r item spec status inverse :
  eligible (history_of uid items) records = Ok sources → r ∈ sources →
  item ∈ items → into_RollbackSpec zero_RollbackSpec (field_value "spec" item) = Ok spec → SourceUID spec = uid →
  into_Status zero_Status (field_value "status" item) = Ok status → inverse ∈ Attempt.st_Mutations status →
  Attempt.m_SourceMutationID inverse = Attempt.m_ID r → Attempt.m_ID r ≠ "" →
  r ∈ records ∧ Attempt.m_Result r = Attempt.ResultSucceeded ∧
  Attempt.m_Result inverse ≠ Attempt.ResultSucceeded ∧ Attempt.m_Result inverse ≠ Attempt.ResultUnknown.
Proof.
  intros He Hr Hitem Hspec Huid Hstatus Hin Hid Hne.
  destruct (history_holds uid items item spec status Hitem Hspec Huid Hstatus) as [Hc Hu].
  destruct (eligible_spec _ _ _ He) as [Hs Hfresh]. destruct (Hfresh r Hr) as [Hn1 Hn2]. subst sources.
  apply list_elem_of_In, filter_In in Hr as [Hr Hp]. apply list_elem_of_In in Hr. bool_simpl. rewrite <-Hid in *.
  split; [done|]. split; [tauto|].
  split; intros Ho; pose proof (elem_of_sources _ _ _ Hin Ho Hne); [by apply Hn1, Hc|by apply Hn2, Hu].
Qed.
End once.

(** ** A concrete rollback *)
Module Sim.
Import K8sApply.Sim.

(** The policy an apply created, and the record of the creation. *)
Definition created_policy : json := stamp 1 "uid-1" (policy "new").
Definition observed_snapshot : string := mutationSnapshot NetworkPolicyGVK created_policy.
Definition source_record : Attempt.MutationRecord :=
  Attempt.mkMutationRecord "networkpolicy" NetworkPolicyGVK "default" "allow" "uid-1" "" "CREATE" "null" "" observed_snapshot
    "" "" "" "v1" "" Attempt.ResultSucceeded "".
Definition cluster_store : store := mkStore {[ slot := created_policy ]} 2 [] [].
Definition target : GovernedTarget := mkGovernedTarget "default" (mkWorkloadRef "apps" "Deployment" "web") "app".
Definition labelled_target : json :=
  obj_of [("spec", obj_of [("template", obj_of [("metadata", obj_of [("labels", obj_of [("app", JStr "web")])])])])].

(** The policy selects nothing the workload carries, so it is deleted. *)
Definition unselected (o : json) : store :=
  mkStore (<[ key (mkGVR "apps" "v1" "deployments") "default" "web" := labelled_target ]> {[ slot := o ]}) 2 [] [].
Definition selecting (label : string) : json :=
  obj_of [("apiVersion", JStr "networking.k8s.io/v1"); ("kind", JStr "NetworkPolicy");
    ("metadata", obj_of [("name", JStr "allow"); ("namespace", JStr "default"); ("resourceVersion", JStr "v1"); ("uid", JStr "uid-1")]);
    ("spec", obj_of [("podSelector", obj_of [("matchLabels", obj_of [("app", JStr label)])])])].
Definition record_of (o : json) : Attempt.MutationRecord :=
  Attempt.mkMutationRecord "networkpolicy" NetworkPolicyGVK "default" "allow" "uid-1" "" "CREATE" "null" ""
    (mutationSnapshot NetworkPolicyGVK o) "" "" "" "v1" "" Attempt.ResultSucceeded "".
Definition inverse (label : string) : result inverse_outcome * store :=
  executeInverse (record_of (selecting label)) target (unselected (selecting label)).

Lemma executeInverse_accounted_witness :
  inverse "db" = ((inverse "db").1, (inverse "db").2) ∧ d_live (inverse "db").2 !! slot = None ∧
  ∃ cs, @calls store dynamic journal (inverse "db").2 = @calls store dynamic journal (unselected (selecting "db")) ++ cs ∧
    accounted cs (inverse "db").1 ∧
    ∀ l c k, cs = l ++ c :: k → guarded_call (record_of (selecting "db")) l c.
Proof.
  split; [apply surjective_pairing|]. split; [vm_compute; reflexivity|].
  exact (executeInverse_accounted (record_of (selecting "db")) target (unselected (selecting "db")) _ _ (surjective_pairing _)).
Defined.

(** A policy that still selects the workload is kept. *)
Example referenced_policy_kept :
  is_Some (d_live (inverse "web").2 !! slot) ∧
  option_map (fun o => inverseFailureResult o) (match (inverse "web").1 with Ok o => o.2 | Err _ => None end) = Some "FAILED".
Proof. vm_compute. split; [by eexists|reflexivity]. Qed.

(** *** A whole run *)
Record world := mkWorld { w_store : store; w_rollbacks : list json; w_log : list event }.
Definition on_store {A} (m : M store A) : M world A := fun w =>
  let '(r, s) := m (w_store w) in (r, mkWorld s (w_rollbacks w) (w_log w)).
Definition logging {A} (ev : result A → event) (m : M world A) : M world A := fun w =>
  let '(r, w') := m w in (r, mkWorld (w_store w') (w_rollbacks w') (w_log w ++ [ev r])).

#[export] Instance world_api : Api world RollbackSpec Attempt.Status :=
  {| api_get := fun _ => m_err (mkError "NotFound" ""); api_create := fun o => m_ret o; api_update := fun o => m_ret o;
     api_update_status := fun o => m_ret o; api_now := m_ret 0%Z; api_retry := fun m => m |}.

(** The CRD carries the epoch and the validation rules of a hardened schema. *)
Definition rules : json := obj_of [("x-kubernetes-validations", JArr [JNull])].
Definition crd : json :=
  obj_of [("metadata", obj_of [("annotations", obj_of [(Attempt.CustodyEpochAnnotation, JStr "epoch-1")])]);
    ("spec", obj_of [("versions", JArr [obj_of [("schema", obj_of [("openAPIV3Schema",
       obj_of [("properties", obj_of [("spec", rules); ("status", rules)])])])]])])].
#[export] Instance world_environment : Environment world :=
  {| random_bytes := fun n => m_ret (repeat 0%Z n); get_crd := m_ret crd; patch_crd := fun j => m_ret j |}.
#[export] Instance world_clients : Clients world :=
  {| client_dynamic := fun c =>
       {| dyn_get := fun gvr ns n => logging (EvGet c gvr ns n) (on_store (dyn_get gvr ns n));
          dyn_create := fun gvr ns o => on_store (dyn_create gvr ns o);
          dyn_update := fun gvr ns o => on_store (dyn_update gvr ns o);
          dyn_delete := fun gvr ns n u v => on_store (dyn_delete gvr ns n u v);
          dyn_patch := fun _ _ _ o => m_ret o; dyn_expired := m_ret true; dyn_manifest := fun _ => failwith "" |};
     list_rollbacks := fun _ => logging EvList (fun w => (Ok (w_rollbacks w), w)) |}.

Definition deps : Dependencies world :=
  mkDependencies world (m_ret ())
    (fun spec => logging (EvCreate spec) (m_ret ("rollback-1", mkObject "rollback-1" "uid-9" "v1" (Some spec) None)))
    (fun o st => logging (EvSave st) (do m_lift (Attempt.Validate st) ;! m_ret o))
    (fun c source t => logging (EvInvert c source) (on_store (executeInverse source t)))
    None None None None.

Lemma logged_event {A} (ev : result A → event) (m : M world A) : traced w_log (logging ev m) (fun evs r => evs = [ev r]).
Proof. intros w r w' E. unfold logging in E. destruct (m w) as [a w1]. injection E as <- <-. by eexists. Qed.
#[export] Instance world_journal : RollbackJournal world deps.
Proof.
  refine {| RollbackCustody.journal := w_log |}; cbn; intros;
    first [apply logged_event|apply quiet_ret|apply quiet_err|discriminate].
Defined.

(** The stored attempt: one successful creation. *)
Definition attempt_json (state : string) : json :=
  obj_of [("metadata", obj_of [("name", JStr "apply-1"); ("uid", JStr "uid-7"); ("resourceVersion", JStr "v7")]);
    ("spec", obj_of [("custodyEpoch", JStr "epoch-1"); ("target", obj_of [("namespace", JStr "default");
       ("workload", obj_of [("group", JStr "apps"); ("kind", JStr "Deployment"); ("name", JStr "web")]); ("container", JStr "app")])]);
    ("status", obj_of [("state", JStr state); ("mutations", JArr [record_json (record_of (selecting "db"))])])].
Definition begin (state : string) : world :=
  mkWorld (mkStore (<[ key ApplyAttemptGVR "default" "apply-1" := attempt_json state ]> (d_live (unselected (selecting "db")))) 2 [] []) [] [].
Definition opts : Options := mkOptions "default" true "alice" "".
Definition run (state : string) : result unit * world := Run deps opts "apply-1" (begin state).

Example run_rolls_back :
  (run "APPLIED").1 = Ok () ∧ d_live (w_store (run "APPLIED").2) !! slot = None ∧
  inversions (w_log (run "APPLIED").2) = [(record_of (selecting "db"), true)] ∧
  is_ok (run "IN_PROGRESS").1 = false ∧ w_log (run "IN_PROGRESS").2 =
    [EvGet DynamicClient ApplyAttemptGVR "default" "apply-1" (Ok (attempt_json "IN_PROGRESS"))].
Proof. vm_compute. repeat split. Qed.

Abbreviation log := (@RollbackCustody.journal world world_api world_environment world_clients deps world_journal).

Lemma Run_rollback_write_ahead_witness :
  Run deps opts "apply-1" (begin "APPLIED") = ((run "APPLIED").1, (run "APPLIED").2) ∧
  ∃ evs, log (run "APPLIED").2 = log (begin "APPLIED") ++ evs ∧
    ∀ l e k, evs = l ++ e :: k → written_ahead deps l e.
Proof.
  split; [apply surjective_pairing|].
  exact (Run_rollback_write_ahead deps opts "apply-1" (begin "APPLIED") _ _ (surjective_pairing _)).
Defined.

Lemma Run_rollback_outcome_witness :
  Run deps opts "apply-1" (begin "APPLIED") = ((run "APPLIED").1, (run "APPLIED").2) ∧
  ∃ evs, log (run "APPLIED").2 = log (begin "APPLIED") ++ evs ∧ outcome_of opts "apply-1" evs (run "APPLIED").1.
Proof.
  split; [apply surjective_pairing|].
  exact (Run_rollback_outcome deps opts "apply-1" (begin "APPLIED") _ _ (surjective_pairing _)).
Defined.

(** An earlier rollback that failed before it changed anything does not stand
    in the way. *)
Definition earlier (outcome : string) : json :=
  obj_of [("spec", obj_of [("sourceUID", JStr "uid-7")]);
    ("status", obj_of [("state", JStr "FAILED"); ("mutations", JArr [obj_of [("id", JStr "networkpolicy-inverse");
       ("sourceMutationID", JStr "networkpolicy"); ("result", JStr outcome)]])])].
Definition earlier_status (outcome : string) : Attempt.Status :=
  Attempt.mkStatus "FAILED" "" "" "" [Attempt.mkMutationRecord "networkpolicy-inverse" (mkGVK "" "" "") "" "" "" "" "" "" "" ""
    "" "" "" "" "networkpolicy" outcome ""].

Lemma eligible_once_witness :
  is_ok (eligible (history_of "uid-7" [earlier "OUTCOME_UNKNOWN"]) [source_record]) = false ∧
  eligible (history_of "uid-7" [earlier "SUCCEEDED"]) [source_record] = Ok [] ∧
  eligible (history_of "uid-7" [earlier "FAILED"]) [source_record] = Ok [source_record] ∧
  source_record ∈ [source_record] ∧ Attempt.m_Result source_record = Attempt.ResultSucceeded ∧
  "FAILED" ≠ Attempt.ResultSucceeded ∧ "FAILED" ≠ Attempt.ResultUnknown.
Proof.
  split; [vm_compute; reflexivity|]. split; [vm_compute; reflexivity|]. split; [vm_compute; reflexivity|].
  eapply (eligible_once "uid-7" [earlier "FAILED"] [source_record] [source_record] source_record (earlier "FAILED")
    _ (earlier_status "FAILED") (Attempt.mkMutationRecord "networkpolicy-inverse" (mkGVK "" "" "") "" "" "" "" "" "" "" ""
    "" "" "" "" "networkpolicy" "FAILED" ""));
    [vm_compute; reflexivity|left|left|vm_compute; reflexivity|reflexivity|vm_compute; reflexivity|left|reflexivity|discriminate].
Defined.
End Sim.
