(* ===== verification/RollbackRestore.v ===== *)
(** * The restored state is the state before the apply

    What [restoreControlledState] writes: the controlled fields of the object
    (the PodLock label of the pod template, the capabilities and the seccomp
    profile of each container; the whole spec of a policy) are those of the
    snapshot taken before the apply, and nothing else changes. *)
From S2P Require Import Prelude GoStd Identity Digest Json SpoBackend Target.
From S2P Require Import Kube Unstructured JsonParse K8sApply Attempt RollbackAttempt Proposal ApplyPlan Apply Rollback.
Import SpoBackend ApplyPlan Rollback.

(** ** Reading what was set *)
Section access.
Context `{!Unstructured, !UnstructuredLaws}.

Lemma nested_one key fs : NestedField [key] (JObj fs) = Ok (lookup_field key fs).
Proof. rewrite nested_fields. by destruct (lookup_field key fs). Qed.

Lemma nested_two key key' path fs :
  NestedField (key :: key' :: path) (JObj fs) =
    match lookup_field key fs with Some v => NestedField (key' :: path) v | None => Ok None end.
Proof. by rewrite nested_fields. Qed.

(** A path that was set reads back, below it too. *)
Lemma set_then_read path key v fs r rest :
  SetNestedField (key :: path) v (JObj fs) = Ok r → 
  NestedField (key :: path ++ rest) r = match rest with [] => Ok (Some v) | _ => NestedField rest v end.
Proof.
  revert key fs r. induction path as [|key' path IH]; intros key fs r Hs; cbn [app].
  - rewrite set_nested_last in Hs. injection Hs as <-. rewrite nested_fields, lookup_set, bool_decide_eq_true_2 by done.
    by destruct rest.
  - rewrite set_nested_step in Hs.
    destruct (lookup_field key fs) as [[| | | | |inner]|]; try done;
      destruct (SetNestedField (key' :: path) v _) as [j|] eqn:E; cbn [mbind result_bind] in Hs; try done; injection Hs as <-;
      rewrite nested_two, lookup_set, bool_decide_eq_true_2 by done; by eapply IH.
Qed.

(** Setting keeps a map a map. *)
Lemma set_is_map path v fs r : path ≠ [] → SetNestedField path v (JObj fs) = Ok r → ∃ fs', r = JObj fs'.
Proof.
  destruct path as [|key [|key' path]]; [done| |]; intros _ Hs.
  - rewrite set_nested_last in Hs. injection Hs as <-. eauto.
  - rewrite set_nested_step in Hs.
    destruct (lookup_field key fs) as [[| | | | |inner]|]; try done;
      destruct (SetNestedField (key' :: path) v _) as [j|]; cbn [mbind result_bind] in Hs; try done; injection Hs as <-; eauto.
Qed.

(** Setting one field of a map leaves the paths through another. *)
Lemma set_read_other key path v fs r key' rest :
  key ≠ key' → SetNestedField (key :: path) v (JObj fs) = Ok r →
  NestedField (key' :: rest) r = NestedField (key' :: rest) (JObj fs).
Proof.
  intros Hk Hs. assert (∃ inner, r = JObj (set_field key inner fs)) as [inner ->].
  { destruct path as [|key2 path].
    - rewrite set_nested_last in Hs. injection Hs as <-. eauto.
    - rewrite set_nested_step in Hs.
      destruct (lookup_field key fs) as [[| | | | |inner]|]; try done;
        destruct (SetNestedField (key2 :: path) v _) as [j|]; cbn [mbind result_bind] in Hs; try done; injection Hs as <-; eauto. }
  rewrite !nested_fields, lookup_set, bool_decide_eq_false_2 by done. done.
Qed.

(** ** One container *)
Definition pick (sc : list (string * json)) (key : string) : list (string * json) :=
  match lookup_field key sc with Some value => [(key, value)] | None => [] end.

Lemma controlled_container_map c :
  controlled_container (JObj c) =
    let controlled := match map_at "securityContext" c with Some sc => flat_map (pick sc) controlled_keys | None => [] end in
    [obj_of (("name", default JNull (lookup_field "name" c)) ::
      (if 0 <? length controlled then [("securityContext", obj_of controlled)] else []))].
Proof. unfold controlled_container, map_at, pick. by destruct (lookup_field "securityContext" c) as [[]|]. Qed.

Lemma lookup_pick sc : ∀ key, key ∈ controlled_keys →
  lookup_field key (flat_map (pick sc) controlled_keys) = lookup_field key sc.
Proof.
  intros key [->|[->|[]%not_elem_of_nil]%elem_of_cons]%elem_of_cons; cbn [controlled_keys flat_map]; unfold pick;
    by destruct (lookup_field "capabilities" sc), (lookup_field "seccompProfile" sc).
Qed.

Lemma pick_ext sc sc' : (∀ key, key ∈ controlled_keys → lookup_field key sc = lookup_field key sc') →
  flat_map (pick sc) controlled_keys = flat_map (pick sc') controlled_keys.
Proof.
  intros Hk. cbn [controlled_keys flat_map]. unfold pick. rewrite !Hk; [done|set_solver..].
Qed.

(** The controlled keys are taken from the saved context. *)
Lemma restore_keys saved current key : key ∈ controlled_keys →
  lookup_field key (foldl (restore_key saved) current controlled_keys) = lookup_field key saved.
Proof.
  intros Hk. cbn [controlled_keys foldl]. unfold restore_key.
  apply elem_of_cons in Hk as [->|[->|[]%not_elem_of_nil]%elem_of_cons];
    destruct (lookup_field "seccompProfile" saved) eqn:E2, (lookup_field "capabilities" saved) eqn:E1;
    rewrite ?lookup_set, ?lookup_delete, ?bool_decide_eq_true_2 by done; try done;
    rewrite ?lookup_set, ?lookup_delete, ?bool_decide_eq_false_2 by done;
    rewrite ?lookup_set, ?lookup_delete, ?bool_decide_eq_true_2 by done; done.
Qed.

Lemma map_at_set key fs' fs : map_at key (set_field key (JObj fs') fs) = Some fs'.
Proof. unfold map_at. by rewrite lookup_set, bool_decide_eq_true_2. Qed.
Lemma map_at_delete key fs : map_at key (delete_field key fs) = None.
Proof. unfold map_at. by rewrite lookup_delete, bool_decide_eq_true_2. Qed.

Lemma put_context_read sc c :
  map_at "securityContext" (put_context sc c) = match sc with [] => None | _ => Some sc end ∧
  ∀ key, key ≠ "securityContext" → lookup_field key (put_context sc c) = lookup_field key c.
Proof.
  unfold put_context. destruct sc as [|f sc].
  - split; [apply map_at_delete|]. intros key Hk. by rewrite lookup_delete, bool_decide_eq_false_2.
  - split; [apply map_at_set|]. intros key Hk. by rewrite lookup_set, bool_decide_eq_false_2.
Qed.

Lemma pick_nil : flat_map (pick []) controlled_keys = [].
Proof. done. Qed.

(** The controlled context a container ends with is the saved one, whatever it
    was. *)
Lemma put_context_controlled saved current c :
  match map_at "securityContext" (put_context (foldl (restore_key saved) current controlled_keys) c) with
  | Some sc => flat_map (pick sc) controlled_keys | None => [] end = flat_map (pick saved) controlled_keys.
Proof.
  rewrite (proj1 (put_context_read _ _)).
  assert (flat_map (pick (foldl (restore_key saved) current controlled_keys)) controlled_keys =
    flat_map (pick saved) controlled_keys) as <- by (apply pick_ext; intros; by apply restore_keys).
  by destruct (foldl (restore_key saved) current controlled_keys).
Qed.

Lemma obj_inj a b : [JObj a] = [JObj b] → a = b.
Proof. congruence. Qed.

(** Restoring the container a snapshot was taken of. *)
Lemma restore_container_controlled c0 s c :
  controlled_container (JObj c0) = [JObj s] → lookup_field "name" c = Some (default JNull (lookup_field "name" c0)) →
  controlled_container (JObj (restore_container s c)) = [JObj s] ∧
  lookup_field "name" (restore_container s c) = lookup_field "name" c.
Proof.
  rewrite controlled_container_map. cbv zeta. unfold obj_of at 1. intros Hs%obj_inj Hn.
  set (controlled := match map_at "securityContext" c0 with Some sc => flat_map (pick sc) controlled_keys | None => [] end) in *.
  assert (∃ saved, flat_map (pick saved) controlled_keys = controlled ∧
    map_at "securityContext" s = (if 0 <? length controlled then Some saved else None) ∧
    (controlled = [] → saved = [])) as (saved & Hsv & Hm & Hz).
  { subst s. unfold map_at. rewrite lookup_sort. cbn [lookup_field fst].
    rewrite bool_decide_eq_false_2 by done. destruct controlled as [|f l] eqn:Ec; [by exists []|]. rewrite <-Ec in *.
    exists (sort_by (less_on fst string_ltb) controlled). split.
    - assert (∃ sc, controlled = flat_map (pick sc) controlled_keys) as [sc Hsc].
      { unfold controlled in *. destruct (map_at "securityContext" c0) as [sc|]; [by exists sc|done]. }
      rewrite Hsc. apply pick_ext. intros key Hk. rewrite lookup_sort. by apply lookup_pick.
    - rewrite Ec. cbn. done. }
  assert (Hc : ∀ current, (map_at "securityContext" c = None → current = []) →
    let c' := put_context (foldl (restore_key saved) current controlled_keys) c in
    controlled_container (JObj c') = [JObj s] ∧ lookup_field "name" c' = lookup_field "name" c).
  { intros current _ c'. pose proof (proj2 (put_context_read (foldl (restore_key saved) current controlled_keys) c) "name") as Hname.
    fold c' in Hname. rewrite Hname by done. split; [|done].
    rewrite controlled_container_map. cbv zeta. unfold c' at 1 2 3. rewrite put_context_controlled, Hsv.
    fold c'. rewrite Hname, Hn by done. cbn [default]. by rewrite <-Hs. }
  unfold restore_container. rewrite Hm. destruct (0 <? length controlled) eqn:El.
  - apply Hc. by intros ->.
  - assert (controlled = []) as E0 by (destruct controlled; [done|discriminate]).
    rewrite (Hz E0) in *. destruct (map_at "securityContext" c) as [sc|] eqn:Ec; [by apply Hc|].
    split; [|done]. rewrite controlled_container_map. cbv zeta. rewrite Ec, Hn, <-Hs. reflexivity.
Qed.

(** ** All containers *)
Definition named (n : string) (c : json) : Prop := ∃ fs, c = JObj fs ∧ lookup_field "name" fs = Some (JStr n).

Lemma controlled_named n c : named n c →
  ∃ fs s, c = JObj fs ∧ controlled_container c = [JObj s] ∧ string_at "name" s = n.
Proof.
  intros (fs & -> & Hn). rewrite controlled_container_map. cbv zeta. eexists fs, _. split; [done|].
  split; [reflexivity|]. unfold string_at. rewrite lookup_sort. cbn [lookup_field fst snd].
  rewrite bool_decide_eq_true_2 by done. by rewrite Hn.
Qed.

Lemma restore_matching_other s n c : named n c → string_at "name" s ≠ n → restore_matching (JObj s) c = c.
Proof.
  intros (fs & -> & Hn) Hs. cbn [restore_matching]. rewrite Hn, bool_decide_eq_false_2 by congruence. done.
Qed.

Lemma restore_skip ss n x : named n x → ∀ l, Forall (fun s => ∃ fs, s = JObj fs ∧ string_at "name" fs ≠ n) ss →
  restore_containers ss (x :: l) = x :: restore_containers ss l.
Proof.
  intros Hx l Hs. unfold restore_containers. revert l. induction Hs as [|s ss (fs & -> & Hn) _ IH]; intros l; [done|].
  cbn [foldl map]. rewrite (restore_matching_other _ n) by done. apply IH.
Qed.

Lemma restore_all ns : NoDup ns → ∀ l0 l, Forall2 named ns l0 → Forall2 named ns l →
  flat_map controlled_container (restore_containers (flat_map controlled_container l0) l) =
    flat_map controlled_container l0.
Proof.
  induction 1 as [|n ns Hn Hns IH]; intros l0 l Hl0 Hl; inversion Hl0 as [|?? c0 l0' Hc0 Hl0']; subst;
    inversion Hl as [|?? c l' Hc Hl']; subst; [done|].
  destruct (controlled_named _ _ Hc0) as (fs0 & s & -> & Es & Hsn). cbn [flat_map]. rewrite Es. cbn [app].
  destruct Hc as (fs & -> & Hname).
  assert (lookup_field "name" fs0 = Some (JStr n)) as Hname0.
  { destruct Hc0 as (fs0' & [= <-] & ?). done. }
  assert (lookup_field "name" fs = Some (default JNull (lookup_field "name" fs0))) as Hsame by by rewrite Hname0.
  destruct (restore_container_controlled fs0 s fs Es Hsame) as [Hr Hrn].
  assert (Forall (fun c => ∃ m, named m c ∧ m ≠ n) l') as Hother.
  { clear -Hl' Hn. induction Hl' as [|m c ns l' Hm _ IH]; constructor.
    - exists m. split; [done|]. intros ->. apply Hn. left.
    - apply IH. intros Hin. apply Hn. by right. }
  assert (map (restore_matching (JObj s)) l' = l') as Hmap.
  { clear -Hother Hsn. induction Hother as [|c l' (m & Hm & Hne) _ IH]; [done|]. cbn [map]. rewrite IH.
    by rewrite (restore_matching_other s m) by congruence. }
  change (restore_containers (JObj s :: flat_map controlled_container l0') (JObj fs :: l')) with
    (restore_containers (flat_map controlled_container l0') (restore_matching (JObj s) (JObj fs) :: map (restore_matching (JObj s)) l')).
  rewrite Hmap. cbn [restore_matching]. rewrite Hname, Hsn, bool_decide_eq_true_2 by done.
  rewrite (restore_skip _ n).
  - cbn [flat_map]. rewrite Hr. cbn [app]. f_equal. by apply IH.
  - eexists. split; [done|]. by rewrite Hrn.
  - clear -Hl0' Hn. induction Hl0' as [|m c ns l0' Hm _ IH]; [constructor|].
    destruct (controlled_named _ _ Hm) as (fs & s & -> & Es & Hsn). cbn [flat_map]. rewrite Es. constructor.
    + exists s. split; [done|]. intros E. apply Hn. rewrite <-E, Hsn. left.
    + apply IH. intros Hin. apply Hn. by right.
Qed.

(** *** What a restored container keeps *)
Definition context_of (c : list (string * json)) : list (string * json) := default [] (map_at "securityContext" c).

(** Every field but the security context, and in it every key but the two the
    project patches. *)
Definition container_kept (c c' : json) : Prop :=
  ∃ fs fs', c = JObj fs ∧ c' = JObj fs' ∧
    (∀ key, key ≠ "securityContext" → lookup_field key fs' = lookup_field key fs) ∧
    (∀ key, key ∉ controlled_keys → lookup_field key (context_of fs') = lookup_field key (context_of fs)).

Lemma container_kept_refl fs : container_kept (JObj fs) (JObj fs).
Proof. by exists fs, fs. Qed.
Lemma container_kept_trans c1 c2 c3 : container_kept c1 c2 → container_kept c2 c3 → container_kept c1 c3.
Proof.
  intros (f1 & f2 & -> & -> & A1 & A2) (f2' & f3 & [= <-] & -> & B1 & B2). exists f1, f3. split_and!; [done..| |].
  - intros key Hk. by rewrite B1, A1.
  - intros key Hk. by rewrite B2, A2.
Qed.

Lemma restore_keys_other saved current key : key ∉ controlled_keys →
  lookup_field key (foldl (restore_key saved) current controlled_keys) = lookup_field key current.
Proof.
  intros Hk. assert ("capabilities" ≠ key ∧ "seccompProfile" ≠ key) as [H1 H2]
    by (split; intros <-; apply Hk; [left|right; left]).
  cbn [controlled_keys foldl]. unfold restore_key.
  destruct (lookup_field "capabilities" saved), (lookup_field "seccompProfile" saved);
    rewrite ?lookup_set, ?lookup_delete, ?bool_decide_eq_false_2 by done;
    rewrite ?lookup_set, ?lookup_delete, ?bool_decide_eq_false_2 by done; done.
Qed.

Lemma put_context_kept saved c :
  container_kept (JObj c) (JObj (put_context (foldl (restore_key saved) (context_of c) controlled_keys) c)).
Proof.
  exists c, (put_context (foldl (restore_key saved) (context_of c) controlled_keys) c). split; [done|]. split; [done|].
  pose proof (put_context_read (foldl (restore_key saved) (context_of c) controlled_keys) c) as [Hsc Hother]. split; [exact Hother|].
  intros key Hk. rewrite <-(restore_keys_other saved (context_of c) key Hk). unfold context_of at 1. rewrite Hsc.
  by destruct (foldl (restore_key saved) (context_of c) controlled_keys).
Qed.
Lemma restore_container_kept s c : container_kept (JObj c) (JObj (restore_container s c)).
Proof.
  unfold restore_container. destruct (map_at "securityContext" s) as [savedSC|]; [apply put_context_kept|].
  destruct (map_at "securityContext" c) as [sc|] eqn:E; [|apply container_kept_refl].
  pose proof (put_context_kept [] c) as Hk. unfold context_of in Hk. by rewrite E in Hk.
Qed.

Lemma restore_containers_kept saved l : Forall (fun c => ∃ fs, c = JObj fs) l → Forall2 container_kept l (restore_containers saved l).
Proof.
  revert l. induction saved as [|s saved IH]; intros l Hl.
  { cbn. induction Hl as [|c l [fs ->] _ IH]; constructor; [apply container_kept_refl|done]. }
  change (restore_containers (s :: saved) l) with (restore_containers saved (map (restore_matching s) l)).
  assert (Forall2 container_kept l (map (restore_matching s) l)) as Hs.
  { induction Hl as [|c l [fs ->] _ IH']; constructor; [|done]. unfold restore_matching.
    destruct s; try apply container_kept_refl. case_bool_decide; [apply restore_container_kept|apply container_kept_refl]. }
  assert (Forall (fun c => ∃ fs, c = JObj fs) (map (restore_matching s) l)) as Hl'.
  { clear -Hs. induction Hs as [|c c' l l' (f & f' & -> & -> & _) _ IH]; constructor; [by exists f'|done]. }
  specialize (IH _ Hl'). clear Hl Hl'. revert IH. generalize (restore_containers saved (map (restore_matching s) l)).
  induction Hs as [|c c' l l' Hc _ IH']; intros k Hk; inversion Hk; subst; constructor; [by eapply container_kept_trans|by apply IH'].
Qed.

(** ** The pod template *)
Definition label_at (key : string) (template : json) : option json :=
  match found (NestedStringMap ["metadata"; "labels"] template) with
  | Some labels => lookup_field key labels
  | None => None
  end.

Lemma NestedStringMap_strings path j fs : found (NestedStringMap path j) = Some fs →
  forallb (fun f => is_string f.2) fs = true ∧ NestedField path j = Ok (Some (JObj fs)).
Proof.
  unfold NestedStringMap, typed, found. destruct (NestedField path j) as [[v|]|]; cbn; try done.
  destruct v as [| | | | |fs']; cbn; try done. destruct (forallb _ fs') eqn:E; cbn; [|done]. by intros [= <-].
Qed.

Lemma found_string_map path j fs : NestedField path j = Ok (Some (JObj fs)) →
  forallb (fun f => is_string f.2) fs = true → found (NestedStringMap path j) = Some fs.
Proof. intros Hj Hs. unfold NestedStringMap, typed. rewrite Hj. cbn. by rewrite Hs. Qed.

Lemma found_absent path j : NestedField path j = Ok None → found (NestedStringMap path j) = None.
Proof. intros Hj. unfold NestedStringMap, typed. by rewrite Hj. Qed.

Lemma forallb_set (P : string * json → bool) key v fs :
  P (key, v) = true → forallb P fs = true → forallb P (set_field key v fs) = true.
Proof.
  intros Hv Hfs. apply forallb_forall. intros x Hx. apply list_elem_of_In in Hx. unfold set_field in Hx.
  rewrite sort_by_perm in Hx. apply elem_of_cons in Hx as [->|Hx]; [done|].
  apply list_elem_of_In in Hx. unfold delete_field in Hx. apply filter_In in Hx as [Hx _].
  rewrite forallb_forall in Hfs. by apply Hfs.
Qed.
Lemma forallb_delete (P : string * json → bool) key fs : forallb P fs = true → forallb P (delete_field key fs) = true.
Proof.
  intros Hfs. apply forallb_forall. intros x Hx. unfold delete_field in Hx. apply filter_In in Hx as [Hx _].
  rewrite forallb_forall in Hfs. by apply Hfs.
Qed.

Lemma label_at_absent key t : NestedField ["metadata"; "labels"] (JObj t) = Ok None → label_at key (JObj t) = None.
Proof. intros Hf. unfold label_at. by rewrite found_absent. Qed.

(** The labels of a template whose metadata is a map or absent, replaced. *)
Lemma set_labels labels t :
  (∃ m, lookup_field "metadata" t = Some (JObj m)) ∨ lookup_field "metadata" t = None →
  forallb (fun f => is_string f.2) labels = true →
  ∃ t', set_ignored ["metadata"; "labels"] (JObj labels) (JObj t) = JObj t' ∧
    (∀ key, label_at key (JObj t') = lookup_field key labels) ∧
    (∀ key rest, key ≠ "metadata" → NestedField (key :: rest) (JObj t') = NestedField (key :: rest) (JObj t)) ∧
    (∀ key rest, key ≠ "labels" → NestedField ("metadata" :: key :: rest) (JObj t') = NestedField ("metadata" :: key :: rest) (JObj t)).
Proof.
  intros Hmeta Hl. set (m := default [] (map_at "metadata" t)).
  assert (SetNestedField ["metadata"; "labels"] (JObj labels) (JObj t) =
    Ok (JObj (set_field "metadata" (JObj (set_field "labels" (JObj labels) m)) t))) as E.
  { rewrite set_nested_step. unfold m, map_at. by destruct Hmeta as [[m' ->]| ->]; rewrite set_nested_last. }
  unfold set_ignored. rewrite E. eexists. split; [reflexivity|]. split; [|split].
  - intros key. unfold label_at. erewrite found_string_map; [done| |exact Hl].
    by rewrite nested_two, lookup_set, bool_decide_eq_true_2, nested_one, lookup_set, bool_decide_eq_true_2 by done.
  - intros key rest Hk. by rewrite !nested_fields, lookup_set, bool_decide_eq_false_2.
  - intros key rest Hk. rewrite !nested_two, lookup_set, bool_decide_eq_true_2 by done.
    rewrite nested_fields, lookup_set, bool_decide_eq_false_2 by done. unfold m, map_at.
    destruct Hmeta as [[m' ->]| ->]; [by rewrite nested_fields|done].
Qed.

(** The PodLock label is the saved one, or gone; nothing else changes. *)
Lemma restore_labels_read template t (lab : option string) :
  nestedMap template ["metadata"; "labels"] = option_map (fun p => [(podLockProfileLabel, JStr p)]) lab →
  is_ok (NestedMap ["metadata"] (JObj t)) = true →
  ∃ t', restore_labels template (JObj t) = JObj t' ∧
    (∀ key, label_at key (JObj t') = if bool_decide (podLockProfileLabel = key) then option_map JStr lab else label_at key (JObj t)) ∧
    (∀ key rest, key ≠ "metadata" → NestedField (key :: rest) (JObj t') = NestedField (key :: rest) (JObj t)) ∧
    (∀ key rest, key ≠ "labels" → NestedField ("metadata" :: key :: rest) (JObj t') = NestedField ("metadata" :: key :: rest) (JObj t)).
Proof.
  intros Hn Hm. unfold restore_labels. rewrite Hn.
  assert ((∃ m, lookup_field "metadata" t = Some (JObj m)) ∨ lookup_field "metadata" t = None) as Hmeta.
  { unfold NestedMap, typed in Hm. rewrite nested_one in Hm. cbn in Hm.
    destruct (lookup_field "metadata" t) as [[]|]; cbn in Hm; try done; eauto. }
  destruct lab as [p|]; cbn [option_map].
  - cbn [foldl fst snd]. destruct (set_labels (set_field podLockProfileLabel (JStr p)
      (default [] (found (NestedStringMap ["metadata"; "labels"] (JObj t))))) t Hmeta) as (t' & -> & Hp & Ho).
    { apply forallb_set; [done|]. destruct (found _) as [fs|] eqn:Ef; [|done]. by apply NestedStringMap_strings in Ef as [? _]. }
    exists t'. split; [done|]. split; [|done]. intros key. rewrite Hp, lookup_set. unfold label_at. by destruct (found _).
  - destruct (found (NestedStringMap ["metadata"; "labels"] (JObj t))) as [labels|] eqn:Ef.
    2:{ exists t. split; [done|]. split; [|done]. intros key. unfold label_at. rewrite Ef. by case_bool_decide. }
    assert (∀ key, label_at key (JObj t) = lookup_field key labels) as Hlab by (intros key; unfold label_at; by rewrite Ef).
    apply NestedStringMap_strings in Ef as [Hs Hf].
    pose proof (forallb_delete (fun f => is_string f.2) podLockProfileLabel labels Hs) as Hd.
    assert (∀ key, lookup_field key (delete_field podLockProfileLabel labels) =
      if bool_decide (podLockProfileLabel = key) then None else label_at key (JObj t)) as Hl
      by (intros key; by rewrite lookup_delete, Hlab).
    destruct (delete_field podLockProfileLabel labels) as [|f rest] eqn:Ed.
    + rewrite nested_two in Hf. destruct Hmeta as [[m Hmeta]|Hmeta]; rewrite Hmeta in Hf; [|done].
      unfold map_at. rewrite Hmeta. eexists. split; [done|]. split; [|split].
      * intros key. rewrite <-Hl. apply label_at_absent.
        by rewrite nested_two, lookup_set, bool_decide_eq_true_2, nested_one, lookup_delete, bool_decide_eq_true_2 by done.
      * intros key rest Hk. by rewrite !nested_fields, lookup_set, bool_decide_eq_false_2.
      * intros key rest Hk. rewrite !nested_two, lookup_set, bool_decide_eq_true_2, Hmeta by done.
        by rewrite !nested_fields, lookup_delete, bool_decide_eq_false_2.
    + destruct (set_labels (f :: rest) t Hmeta Hd) as (t' & Et & Hp & Ho). exists t'. split; [done|]. split; [|done].
      intros key. rewrite Hp. apply Hl.
Qed.

(** ** A workload *)
Definition template_containers (obj : json) : option (list json) :=
  found (NestedSlice ["spec"; "template"; "spec"; "containers"] obj).
Definition template_label_at (key : string) (obj : json) : option json :=
  match found (NestedStringMap ["spec"; "template"; "metadata"; "labels"] obj) with
  | Some labels => lookup_field key labels
  | None => None
  end.
Definition template_label : json → option json := template_label_at podLockProfileLabel.

(** Everything of a workload that the project does not control. *)
Record uncontrolled_kept (cur r : json) : Prop := {
  kept_top : ∀ key rest, key ≠ "spec" → NestedField (key :: rest) r = NestedField (key :: rest) cur;
  kept_spec : ∀ key rest, key ≠ "template" → NestedField ("spec" :: key :: rest) r = NestedField ("spec" :: key :: rest) cur;
  kept_template : ∀ key rest, key ≠ "metadata" → key ≠ "spec" →
    NestedField ("spec" :: "template" :: key :: rest) r = NestedField ("spec" :: "template" :: key :: rest) cur;
  kept_metadata : ∀ key rest, key ≠ "labels" →
    NestedField ("spec" :: "template" :: "metadata" :: key :: rest) r = NestedField ("spec" :: "template" :: "metadata" :: key :: rest) cur;
  kept_labels : ∀ key, key ≠ podLockProfileLabel → template_label_at key r = template_label_at key cur;
  kept_pod : ∀ key rest, key ≠ "containers" →
    NestedField ("spec" :: "template" :: "spec" :: key :: rest) r = NestedField ("spec" :: "template" :: "spec" :: key :: rest) cur;
  kept_containers : ∃ l l', template_containers cur = Some l ∧ template_containers r = Some l' ∧ Forall2 container_kept l l' }.

(** The controlled spec, from the label and the controlled containers. *)
Definition controlled_template (lab : option json) (containers : list json) : list (string * json) :=
  match lab with
  | Some p => [("metadata", JObj [("labels", JObj [(podLockProfileLabel, p)])])]
  | None => []
  end ++ [("spec", JObj [("containers", JArr containers)])].

Lemma workloadMutationSpec_eq obj l : template_containers obj = Some l →
  workloadMutationSpec obj =
    JObj [("template", JObj (controlled_template (template_label obj) (flat_map controlled_container l)))].
Proof.
  unfold template_containers, workloadMutationSpec, template_label, template_label_at, controlled_template. intros ->.
  destruct (found (NestedStringMap _ obj)) as [labels|]; [|reflexivity].
  change ApplyPlan.podLockProfileLabel with Rollback.podLockProfileLabel.
  by destruct (lookup_field podLockProfileLabel labels).
Qed.

Lemma lookup_forallb (P : json → bool) key v fs : forallb (fun f => P f.2) fs = true → lookup_field key fs = Some v → P v = true.
Proof.
  induction fs as [|f fs IH]; [done|]. cbn. intros [Hf Hfs]%andb_prop. case_bool_decide; [by intros [= <-]|by apply IH].
Qed.

Lemma template_label_string obj : ∃ lab, template_label obj = option_map JStr lab.
Proof.
  unfold template_label, template_label_at. destruct (found (NestedStringMap _ obj)) as [labels|] eqn:E; [|by exists None].
  apply NestedStringMap_strings in E as [Hs _].
  destruct (lookup_field podLockProfileLabel labels) as [v|] eqn:El; [|by exists None].
  pose proof (lookup_forallb is_string _ _ _ Hs El) as Hv. destruct v as [| | |s| |]; try done. by exists (Some s).
Qed.

Lemma NestedSlice_found path j l : found (NestedSlice path j) = Some l ↔ NestedField path j = Ok (Some (JArr l)).
Proof.
  unfold NestedSlice, typed, found. destruct (NestedField path j) as [[v|]|]; cbn; [|done..].
  destruct v; cbn; try done; split; congruence.
Qed.

Lemma nested_map key path v j : NestedField (key :: path) v = Ok (Some j) → ∃ fs, v = JObj fs.
Proof.
  intros Hv. assert (v ≠ JNull) as Hn by (intros ->; by rewrite nested_null in Hv).
  destruct v as [| | | | |fs]; [| | | | |by exists fs];
    (exfalso; assert (is_ok (NestedField (key :: path) _) = false) as Hx by (apply nested_other; [exact Hn|done]);
     by rewrite Hv in Hx).
Qed.

(** The template of a workload that has containers is a map. *)
Lemma template_map fs l : template_containers (JObj fs) = Some l →
  ∃ spec t, lookup_field "spec" fs = Some (JObj spec) ∧ lookup_field "template" spec = Some (JObj t) ∧
    NestedField ["spec"; "containers"] (JObj t) = Ok (Some (JArr l)).
Proof.
  unfold template_containers. rewrite NestedSlice_found, nested_two.
  destruct (lookup_field "spec" fs) as [v|]; [|done]. intros Hv.
  destruct (nested_map _ _ _ _ Hv) as [spec ->].
  rewrite nested_two in Hv. destruct (lookup_field "template" spec) as [v|] eqn:Et; [|done].
  destruct (nested_map _ _ _ _ Hv) as [t ->].
  by exists spec, t.
Qed.

Lemma lookup_literal key v : lookup_field key [(key, v)] = Some v.
Proof. cbn. by rewrite bool_decide_eq_true_2. Qed.

(** Merging the controlled spec of [obj0] into a workload with the same
    containers. *)
Lemma merge_workload obj0 fs ns l0 l :
  template_containers obj0 = Some l0 → template_containers (JObj fs) = Some l →
  NoDup ns → Forall2 named ns l0 → Forall2 named ns l →
  is_ok (NestedMap ["spec"; "template"; "metadata"] (JObj fs)) = true →
  ∃ r, mergeWorkloadBefore (JObj fs) (workloadMutationSpec obj0) = Ok r ∧
    workloadMutationSpec r = workloadMutationSpec obj0 ∧ uncontrolled_kept (JObj fs) r.
Proof.
  intros Hl0 Hl Hns Hn0 Hnl Hm.
  destruct (template_map fs l Hl) as (spec & t & Hspec & Ht & Hc).
  destruct (template_label_string obj0) as [lab Hlab].
  rewrite (workloadMutationSpec_eq obj0 l0 Hl0), Hlab.
  set (saved := flat_map controlled_container l0).
  assert (found (NestedMap ["spec"; "template"] (JObj fs)) = Some t) as Hcur.
  { unfold NestedMap, typed. rewrite nested_two, Hspec, nested_one, Ht. done. }
  assert (is_ok (NestedMap ["metadata"] (JObj t)) = true) as Hmt.
  { unfold NestedMap, typed in *. by rewrite nested_two, Hspec, nested_two, Ht in Hm. }
  destruct (restore_labels_read (controlled_template (option_map JStr lab) saved) t lab) as (t1 & E1 & Hp & Ho & Hom);
    [by destruct lab|done|].
  assert (NestedField ["spec"; "containers"] (JObj t1) = Ok (Some (JArr l))) as Hc1 by by rewrite Ho.
  assert (∃ s1, lookup_field "spec" t1 = Some (JObj s1)) as [s1 Es].
  { rewrite nested_two in Hc1. destruct (lookup_field "spec" t1) as [v|] eqn:Es; [|done].
    destruct (nested_map _ _ _ _ Hc1) as [s1 ->]. by exists s1. }
  set (t2 := set_field "spec" (JObj (set_field "containers" (JArr (restore_containers saved l)) s1)) t1).
  assert (SetNestedField ["spec"; "containers"] (JArr (restore_containers saved l)) (JObj t1) = Ok (JObj t2)) as E2
    by (by rewrite set_nested_step, Es, set_nested_last).
  set (r := JObj (set_field "spec" (JObj (set_field "template" (JObj t2) spec)) fs)).
  assert (SetNestedField ["spec"; "template"] (JObj t2) (JObj fs) = Ok r) as E3
    by (by rewrite set_nested_step, Hspec, set_nested_last).
  assert (Hr2 : ∀ rest, rest ≠ [] → NestedField ("spec" :: "template" :: rest) r = NestedField rest (JObj t2)).
  { intros [|k rest] Hk; [done|]. exact (set_then_read ["template"] "spec" _ _ _ (k :: rest) E3). }
  assert (Hmeta : ∀ rest, NestedField ("metadata" :: rest) (JObj t2) = NestedField ("metadata" :: rest) (JObj t1)).
  { intros rest. exact (set_read_other "spec" _ _ _ _ "metadata" rest ltac:(done) E2). }
  assert (Hcurrent : ∀ key rest, NestedField ("spec" :: "template" :: key :: rest) (JObj fs) = NestedField (key :: rest) (JObj t))
    by (intros; by rewrite !nested_two, Hspec, nested_two, Ht).
  assert (Hlabels : ∀ key, template_label_at key r = label_at key (JObj t1))
    by (intros key; unfold template_label_at, label_at, NestedStringMap; by rewrite Hr2, Hmeta).
  assert (Hcontainers : template_containers r = Some (restore_containers saved l)).
  { apply NestedSlice_found. rewrite Hr2 by done. exact (set_then_read ["containers"] "spec" _ _ _ [] E2). }
  exists r. split; [|split].
  - cbn [mergeWorkloadBefore]. unfold map_at at 1. rewrite lookup_literal, Hcur. cbn [default id]. unfold id. rewrite E1.
    assert (map_at "spec" (controlled_template (option_map JStr lab) saved) = Some [("containers", JArr saved)]) as ->
      by by destruct lab.
    rewrite lookup_literal. unfold set_ignored.
    rewrite (proj2 (NestedSlice_found _ _ _) Hc1), E2. exact E3.
  - rewrite (workloadMutationSpec_eq r (restore_containers saved l)) by done.
    unfold saved. rewrite (restore_all ns) by done. unfold template_label. by rewrite Hlabels, Hp, bool_decide_eq_true_2.
  - split.
    + intros key rest Hk. exact (set_read_other "spec" _ _ _ _ key rest (not_eq_sym Hk) E3).
    + intros key rest Hk. unfold r. rewrite !nested_two, Hspec, lookup_set, bool_decide_eq_true_2 by done.
      by rewrite !nested_fields, lookup_set, bool_decide_eq_false_2.
    + intros key rest Hk Hk'. rewrite Hr2, Hcurrent by done. rewrite (set_read_other _ _ _ _ _ key rest (not_eq_sym Hk') E2). by apply Ho.
    + intros key rest Hk. rewrite Hr2, Hcurrent, Hmeta by done. by apply Hom.
    + intros key Hk. rewrite Hlabels, Hp, bool_decide_eq_false_2 by done.
      unfold template_label_at, label_at, NestedStringMap. by rewrite Hcurrent.
    + intros key rest Hk. rewrite Hr2, Hcurrent by done. unfold t2.
      rewrite <-(Ho "spec" (key :: rest)), !nested_two, Es, lookup_set, bool_decide_eq_true_2 by done.
      by rewrite !nested_fields, lookup_set, bool_decide_eq_false_2.
    + exists l, (restore_containers saved l). split_and!; [done..|]. apply restore_containers_kept.
      clear -Hnl. induction Hnl as [|n c ns l (fs & -> & _) _ IH]; constructor; [by exists fs|done].
Qed.

(** ** The snapshot of a mutation, inverted

    The snapshot before it is marshalled. *)
Definition snapshot (gvk : GVK) (obj : json) : json :=
  obj_of ([("apiVersion", JStr (GetAPIVersion obj)); ("kind", JStr (GetKind obj));
     ("metadata", obj_of [("name", JStr (GetName obj)); ("namespace", JStr (GetNamespace obj));
        ("uid", JStr (GetUID obj)); ("resourceVersion", JStr (GetResourceVersion obj))])] ++
    (if is_workload gvk then [("spec", workloadMutationSpec obj)]
     else match found (NestedField ["spec"] obj) with Some spec => [("spec", spec)] | None => [] end)).

Lemma snapshot_read gvk obj : canonical (snapshot gvk obj) = true → (Z.of_nat (depth (snapshot gvk obj)) <= 10000)%Z →
  ∃ before, snapshotFromRecord (mutationSnapshot gvk obj) = Ok before ∧
    lookup_field "spec" before = if is_workload gvk then Some (workloadMutationSpec obj) else found (NestedField ["spec"] obj).
Proof.
  intros Hc Hd. eexists. unfold snapshotFromRecord, UnmarshalMap.
  change (mutationSnapshot gvk obj) with (marshal (snapshot gvk obj)). rewrite Unmarshal_marshal by done.
  cbn [mbind result_bind]. split; [reflexivity|]. rewrite lookup_sort. cbn [app lookup_field fst snd].
  rewrite !bool_decide_eq_false_2 by done. destruct (is_workload gvk); [by rewrite lookup_literal|].
  destruct (found _); [by rewrite lookup_literal|done].
Qed.

(** C6: A rollback restores exactly what the apply recorded. For a workload: the
    snapshot written before the apply is read back from its JSON text, merging
    it into the live object cannot fail, gives the PodLock label and the
    capabilities and seccomp profile of every container the values they had,
    and keeps everything else: every other field of the workload, of the
    template, of its metadata and of the pod spec, every other label, the
    containers in their order, and of each container every other field and every
    other key of its security context. *)
Theorem restoreControlledState_workload gvk obj0 fs ns l0 l :
  canonical (snapshot gvk obj0) = true → (Z.of_nat (depth (snapshot gvk obj0)) <= 10000)%Z →
  is_workload gvk = true → isWorkloadKind (GetKind (JObj fs)) = true →
  template_containers obj0 = Some l0 → template_containers (JObj fs) = Some l →
  NoDup ns → Forall2 named ns l0 → Forall2 named ns l →
  is_ok (NestedMap ["spec"; "template"; "metadata"] (JObj fs)) = true →
  ∃ before r, snapshotFromRecord (mutationSnapshot gvk obj0) = Ok before ∧
    restoreControlledState (JObj fs) before = Ok r ∧
    workloadMutationSpec r = workloadMutationSpec obj0 ∧ uncontrolled_kept (JObj fs) r.
Proof.
  intros Hc Hd Hw Hk Hl0 Hl Hns Hn0 Hn Hm.
  destruct (snapshot_read gvk obj0 Hc Hd) as (before & Hb & Hs). rewrite Hw in Hs.
  destruct (merge_workload obj0 fs ns l0 l Hl0 Hl Hns Hn0 Hn Hm) as (r & Hr & Hrest).
  exists before, r. split; [done|]. split; [|done]. unfold restoreControlledState. by rewrite Hs, Hk.
Qed.

(** The whole spec of a policy is restored, and nothing else. *)
Theorem restoreControlledState_policy gvk obj0 fs spec :
  canonical (snapshot gvk obj0) = true → (Z.of_nat (depth (snapshot gvk obj0)) <= 10000)%Z →
  is_workload gvk = false → isWorkloadKind (GetKind (JObj fs)) = false → NestedField ["spec"] obj0 = Ok (Some spec) →
  ∃ before, snapshotFromRecord (mutationSnapshot gvk obj0) = Ok before ∧
    restoreControlledState (JObj fs) before = Ok (JObj (set_field "spec" spec fs)).
Proof.
  intros Hc Hd Hw Hk Hs. destruct (snapshot_read gvk obj0 Hc Hd) as (before & Hb & Hl). rewrite Hw, Hs in Hl.
  exists before. split; [done|]. unfold restoreControlledState. by rewrite Hl, Hk.
Qed.
End access.

(** ** A concrete workload *)
Module Sim.
Definition container (context : list (string * json)) : json :=
  obj_of ([("name", JStr "app"); ("image", JStr "web:1")] ++
    match context with [] => [] | _ => [("securityContext", obj_of context)] end).
Definition deployment (labels : list (string * json)) (context : list (string * json)) : json :=
  obj_of [("apiVersion", JStr "apps/v1"); ("kind", JStr "Deployment");
    ("metadata", obj_of [("name", JStr "web"); ("namespace", JStr "default")]);
    ("spec", obj_of [("replicas", JNum "3"); ("template", obj_of [("metadata", obj_of [("labels", obj_of labels)]);
       ("spec", obj_of [("containers", JArr [container context])])])])].
Definition Deployment : GVK := mkGVK "apps" "v1" "Deployment".

(** Before: no profile; after: a PodLock label, dropped capabilities, a seccomp
    profile. *)
Definition before : json := deployment [("app", JStr "web")] [("runAsNonRoot", JBool true)].
Definition context : list (string * json) :=
  [("runAsNonRoot", JBool true); ("capabilities", obj_of [("drop", JArr [JStr "ALL"])]);
   ("seccompProfile", obj_of [("type", JStr "Localhost")])].
Definition after : json := deployment [("app", JStr "web"); (Rollback.podLockProfileLabel, JStr "web-profile")] context.
Definition fields (j : json) : list (string * json) := match j with JObj fs => fs | _ => [] end.

Lemma restoreControlledState_workload_witness :
  ∃ saved r, snapshotFromRecord (mutationSnapshot Deployment before) = Ok saved ∧
    restoreControlledState (JObj (fields after)) saved = Ok r ∧
    workloadMutationSpec r = workloadMutationSpec before ∧ uncontrolled_kept (JObj (fields after)) r.
Proof.
  apply (restoreControlledState_workload Deployment before (fields after) ["app"]
    [container [("runAsNonRoot", JBool true)]] [container context]);
    [vm_compute; reflexivity|vm_compute; discriminate|reflexivity|reflexivity|vm_compute; reflexivity|vm_compute; reflexivity
    |apply NoDup_singleton| | |vm_compute; reflexivity];
    (constructor; [eexists; split; [vm_compute; reflexivity|vm_compute; reflexivity]|constructor]).
Defined.

(** The restored workload is the one before the apply. *)
Example restored_exactly :
  match snapshotFromRecord (mutationSnapshot Deployment before) with
  | Ok saved => restoreControlledState after saved
  | Err e => Err e
  end = Ok before.
Proof. vm_compute. reflexivity. Qed.
End Sim.
