(* ===== verification/AuthorityDomain.v ===== *)
(** * internal/authority: the values of the authority domain

    states.go, refs.go, context.go, authority.go, predicate_domain.go and the
    verifier identity of resolution.go: closed vocabularies, exact references,
    scopes, validity intervals, provenance and the records built from them,
    each with its constructor and its [Valid] predicate. A slice that the source
    copies defensively is a value; a time is an instant in UTC. *)
From S2P Require Import Prelude GoStd Identity Digest.

Definition invalid {A} (msg : string) : result A := failwith msg.

(** ** states.go: closed vocabularies *)

(** The [uint8] of an enumeration. *)
Class Enum (A : Type) := ord : A → Z.
Definition in_range {A} `{!Enum A} (lo hi : A) (x : A) : bool := ((ord lo <=? ord x) && (ord x <=? ord hi))%Z.

Inductive Presence := PresenceInvalid | PresenceAbsent | PresenceEmpty | PresencePresent.
#[export] Instance Presence_eq_dec : EqDecision Presence.
Proof. solve_decision. Defined.

Inductive RevocationStatus := RevocationInvalid | RevocationUnknown | RevocationNotRevoked | RevocationRevoked.
#[export] Instance RevocationStatus_eq_dec : EqDecision RevocationStatus.
Proof. solve_decision. Defined.
#[export] Instance RevocationStatus_enum : Enum RevocationStatus := fun s =>
  match s with RevocationInvalid => 0 | RevocationUnknown => 1 | RevocationNotRevoked => 2 | RevocationRevoked => 3 end%Z.
Definition RevocationStatus_Valid (s : RevocationStatus) : bool := in_range RevocationUnknown RevocationRevoked s.

Inductive EligibilityResult := EligibilityInvalid | EligibilityUnknown | EligibilityIneligible | EligibilityEligible.
#[export] Instance EligibilityResult_eq_dec : EqDecision EligibilityResult.
Proof. solve_decision. Defined.
#[export] Instance EligibilityResult_enum : Enum EligibilityResult := fun s =>
  match s with EligibilityInvalid => 0 | EligibilityUnknown => 1 | EligibilityIneligible => 2 | EligibilityEligible => 3 end%Z.
Definition EligibilityResult_Valid (s : EligibilityResult) : bool := in_range EligibilityUnknown EligibilityEligible s.

Inductive ReviewState := ReviewInvalid | ReviewDraft | ReviewReviewed | ReviewApproved | ReviewRejected.
#[export] Instance ReviewState_enum : Enum ReviewState := fun s =>
  match s with ReviewInvalid => 0 | ReviewDraft => 1 | ReviewReviewed => 2 | ReviewApproved => 3 | ReviewRejected => 4 end%Z.
Definition ReviewState_Valid (s : ReviewState) : bool := in_range ReviewDraft ReviewRejected s.

Inductive AuthorizationState := AuthorizationInvalid | AuthorizationUnknown | AuthorizationNotAuthorized | AuthorizationAuthorized.
#[export] Instance AuthorizationState_enum : Enum AuthorizationState := fun s =>
  match s with AuthorizationInvalid => 0 | AuthorizationUnknown => 1 | AuthorizationNotAuthorized => 2 | AuthorizationAuthorized => 3 end%Z.
Definition AuthorizationState_Valid (s : AuthorizationState) : bool := in_range AuthorizationUnknown AuthorizationAuthorized s.

Inductive MaterializationState :=
  MaterializationInvalid | MaterializationUnknown | MaterializationNotMaterialized | MaterializationMaterialized.
#[export] Instance MaterializationState_enum : Enum MaterializationState := fun s =>
  match s with MaterializationInvalid => 0 | MaterializationUnknown => 1 | MaterializationNotMaterialized => 2
  | MaterializationMaterialized => 3 end%Z.
Definition MaterializationState_Valid (s : MaterializationState) : bool :=
  in_range MaterializationUnknown MaterializationMaterialized s.

Inductive RuntimeAuthorityState := RuntimeInvalid | RuntimeNotActive | RuntimeActive | RuntimeActiveUnauthorized | RuntimeSuspendedUnknown.
#[export] Instance RuntimeAuthorityState_enum : Enum RuntimeAuthorityState := fun s =>
  match s with RuntimeInvalid => 0 | RuntimeNotActive => 1 | RuntimeActive => 2 | RuntimeActiveUnauthorized => 3
  | RuntimeSuspendedUnknown => 4 end%Z.
Definition RuntimeAuthorityState_Valid (s : RuntimeAuthorityState) : bool := in_range RuntimeNotActive RuntimeSuspendedUnknown s.

Inductive BehavioralVerificationState := BehavioralInvalid | BehavioralNotVerified | BehavioralVerified | BehavioralUnknown.
#[export] Instance BehavioralVerificationState_enum : Enum BehavioralVerificationState := fun s =>
  match s with BehavioralInvalid => 0 | BehavioralNotVerified => 1 | BehavioralVerified => 2 | BehavioralUnknown => 3 end%Z.
Definition BehavioralVerificationState_Valid (s : BehavioralVerificationState) : bool :=
  in_range BehavioralNotVerified BehavioralUnknown s.

(** ** refs.go *)
Abbreviation AuthorityDigest := string.
Definition Digest_Valid (d : AuthorityDigest) : bool := sha256_hex false d.
Definition NewDigest (value : string) : result AuthorityDigest :=
  fail_if negb (Digest_Valid value) with mkError "" "invalid digest lexical form"; Ok value.

Record referenceData := mkReference { ref_id : string; ref_version : string; ref_digest : AuthorityDigest }.
#[export] Instance referenceData_eq_dec : EqDecision referenceData.
Proof. solve_decision. Defined.
Definition newReference (id version : string) (digest : AuthorityDigest) : result referenceData :=
  fail_if negb (nonempty id) || negb (nonempty version) || negb (Digest_Valid digest)
    with mkError "" "reference requires non-empty id, version, and valid digest";
  Ok (mkReference id version digest).

Record AuthorityRuleRef := mkAuthorityRuleRef { rule_data : referenceData }.
Record TrustPolicyRef := mkTrustPolicyRef { policy_data : referenceData }.
Record BaselineRef := mkBaselineRef { baseline_data : referenceData }.
Record RegistryRef := mkRegistryRef { registry_data : referenceData }.
Record EvidenceRef := mkEvidenceRef { evidence_data : referenceData }.
Record VerifierRef := mkVerifierRef { verifier_data : referenceData }.
Record CertificationRef := mkCertificationRef { certification_data : referenceData }.
Record CompatibilityRuleRef := mkCompatibilityRuleRef { compatibility_data : referenceData }.
Record CompositionOperatorRef := mkCompositionOperatorRef { composition_data : referenceData }.

Definition newTyped {T} (id version : string) (digest : AuthorityDigest) (makeRef : referenceData → T) : result T :=
  d ← newReference id version digest; Ok (makeRef d).
Definition NewAuthorityRuleRef id version digest := newTyped id version digest mkAuthorityRuleRef.
Definition NewTrustPolicyRef id version digest := newTyped id version digest mkTrustPolicyRef.
Definition NewBaselineRef id version digest := newTyped id version digest mkBaselineRef.
Definition NewRegistryRef id version digest := newTyped id version digest mkRegistryRef.
Definition NewEvidenceRef id version digest := newTyped id version digest mkEvidenceRef.
Definition NewVerifierRef id version digest := newTyped id version digest mkVerifierRef.
Definition NewCertificationRef id version digest := newTyped id version digest mkCertificationRef.
Definition NewCompatibilityRuleRef id version digest := newTyped id version digest mkCompatibilityRuleRef.
Definition NewCompositionOperatorRef id version digest := newTyped id version digest mkCompositionOperatorRef.

Record RegistryBinding := mkRegistryBinding { Registry : RegistryRef }.
Definition NewRegistryBinding (registry : RegistryRef) : result RegistryBinding :=
  fail_if negb (Digest_Valid (ref_digest (registry_data registry))) with mkError "" "invalid registry binding";
  Ok (mkRegistryBinding registry).

(** ** context.go *)
Record SecurityContextIdentity := mkContext {
  ImageIdentity : string; Architecture : string; ABI : string; KernelRuntimeClass : string; LibcIdentity : string;
  PrivilegeContext : string; NamespaceSecurity : string; ConfigurationID : string; EnvironmentID : string;
  FeatureSetID : string; PersistentStateID : string; WorkloadIdentity : string; ExecutableIdentity : string }.
#[export] Instance SecurityContextIdentity_eq_dec : EqDecision SecurityContextIdentity.
Proof. solve_decision. Defined.
Definition zero_context : SecurityContextIdentity := mkContext "" "" "" "" "" "" "" "" "" "" "" "" "".

Definition NewSecurityContextIdentity (v : SecurityContextIdentity) : result SecurityContextIdentity :=
  fail_if negb (nonempty (ImageIdentity v)) || negb (nonempty (Architecture v)) || negb (nonempty (ABI v)) ||
          negb (nonempty (KernelRuntimeClass v)) || negb (nonempty (WorkloadIdentity v)) ||
          negb (nonempty (ExecutableIdentity v))
    with mkError "" "security context requires image, architecture, ABI, runtime, workload, and executable identities";
  Ok v.
Definition validContext (c : SecurityContextIdentity) : bool := is_ok (NewSecurityContextIdentity c).

(** ** authority.go: validity *)

(** A time behind a pointer: the address is what tells two copies of an interval
    apart when a fact is printed. *)
Record time_pointer := mkPointer { address : Z; pointee : time }.
#[export] Instance time_pointer_eq_dec : EqDecision time_pointer.
Proof. solve_decision. Defined.

Record Validity := mkValidity { ObservedAt : time; validUntil : option time_pointer; MaxAge : Z }.
#[export] Instance Validity_eq_dec : EqDecision Validity.
Proof. solve_decision. Defined.
Definition ValidUntil (v : Validity) : option time := pointee <$> validUntil v.

(** [fresh] is the address of the copy. *)
Definition NewValidity (fresh : Z) (observedAt : time) (until : option time) (maxAge : Z) : result Validity :=
  fail_if time_is_zero observedAt || (maxAge <? 0)%Z ||
          match until with Some t => time_is_zero t | None => false end with mkError "" "invalid validity values";
  Ok (mkValidity observedAt (mkPointer fresh <$> until) maxAge).

Definition validPredicateValidity (v : Validity) : bool :=
  if time_is_zero (ObservedAt v) then false
  else match ValidUntil v with Some until => negb (until <? ObservedAt v)%Z | None => true end.

Definition validRevocation (s : RevocationStatus) : bool :=
  bool_decide (s = RevocationUnknown ∨ s = RevocationNotRevoked ∨ s = RevocationRevoked).

(** ** resolution.go: verifier identity *)
Record VerifierSemanticIdentity := mkVerifier {
  v_id : string; v_version : string; v_digest : AuthorityDigest; v_class : string; v_inputSchema : string;
  v_outputSchema : string; v_property : string; v_procedure : string; v_constraints : list string }.
#[export] Instance VerifierSemanticIdentity_eq_dec : EqDecision VerifierSemanticIdentity.
Proof. solve_decision. Defined.
Definition zero_verifier : VerifierSemanticIdentity := mkVerifier "" "" "" "" "" "" "" "" [].

Definition NewVerifierSemanticIdentity (v : VerifierSemanticIdentity) : result VerifierSemanticIdentity :=
  fail_if negb (nonempty (v_id v)) || negb (nonempty (v_version v)) || negb (Digest_Valid (v_digest v)) ||
          negb (nonempty (v_class v)) || negb (nonempty (v_inputSchema v)) || negb (nonempty (v_outputSchema v)) ||
          negb (nonempty (v_property v)) || negb (nonempty (v_procedure v))
    with mkError "" "invalid verifier semantic identity";
  Ok v.
Definition validVerifier (v : VerifierSemanticIdentity) : bool := is_ok (NewVerifierSemanticIdentity v).

Definition NewSeccompRuntimeVerifier (version : string) (digest : AuthorityDigest) : result VerifierSemanticIdentity :=
  NewVerifierSemanticIdentity (mkVerifier "landlock-genprof-seccomp-probe" version digest "bounded-runtime-experiment"
    "linux-seccomp-getpriority-v1" "syscall-result-errno-v1" "getpriority returns EPERM under selected SeccompProfile"
    "/seccomp-verifier-probe getpriority in Localhost twin Pod; compare RuntimeDefault control" []).

(** ** predicate_domain.go: scopes *)
Abbreviation ScopeDimension := string.
Definition ScopeTemporal : ScopeDimension := "temporal".
Definition ScopeStartup : ScopeDimension := "startup-lifecycle".
Definition ScopeProcessTree : ScopeDimension := "process-tree".
Definition ScopeExecutableSet : ScopeDimension := "executable-set".
Definition ScopeWorkload : ScopeDimension := "workload-container".
Definition ScopeWorkloadState : ScopeDimension := "workload-state".
Definition ScopeRunHistory : ScopeDimension := "run-history".
Definition ScopeArchitectureABI : ScopeDimension := "architecture-abi".
Definition ScopeImageContext : ScopeDimension := "image-context".
Definition validScopeDimensions : list ScopeDimension :=
  [ScopeTemporal; ScopeStartup; ScopeProcessTree; ScopeExecutableSet; ScopeWorkload; ScopeWorkloadState;
   ScopeRunHistory; ScopeArchitectureABI; ScopeImageContext].
Definition ParsePredicateScopeDimension (s : string) : result ScopeDimension :=
  fail_if negb (bool_decide (s ∈ validScopeDimensions)) with mkError "" "invalid scope dimension"; Ok s.

Inductive ScopeCoverageState := ScopeCoverageInvalid | ScopeCovers | ScopeDoesNotCover | ScopeCoverageUnknown.
#[export] Instance ScopeCoverageState_eq_dec : EqDecision ScopeCoverageState.
Proof. solve_decision. Defined.
#[export] Instance ScopeCoverageState_enum : Enum ScopeCoverageState := fun s =>
  match s with ScopeCoverageInvalid => 0 | ScopeCovers => 1 | ScopeDoesNotCover => 2 | ScopeCoverageUnknown => 3 end%Z.
Definition ScopeCoverageState_Valid (s : ScopeCoverageState) : bool :=
  bool_decide (s = ScopeCovers ∨ s = ScopeDoesNotCover ∨ s = ScopeCoverageUnknown).

Record ScopeDimensionResult := mkDimension { Dimension : ScopeDimension; State : ScopeCoverageState }.
#[export] Instance ScopeDimensionResult_eq_dec : EqDecision ScopeDimensionResult.
Proof. solve_decision. Defined.
Record Scope := mkScope { Dimensions : list ScopeDimensionResult; Target : string; Context : string }.
#[export] Instance Scope_eq_dec : EqDecision Scope.
Proof. solve_decision. Defined.
Definition zero_scope : Scope := mkScope [] "" "".

(** The loop over the dimensions, with the ones already seen. *)
Fixpoint dimensions_valid (seen : list ScopeDimension) (dimensions : list ScopeDimensionResult) : bool :=
  match dimensions with
  | [] => true
  | d :: dimensions =>
      is_ok (ParsePredicateScopeDimension (Dimension d)) && ScopeCoverageState_Valid (State d) &&
      negb (bool_decide (Dimension d ∈ seen)) && dimensions_valid (Dimension d :: seen) dimensions
  end.
Definition NewScope (dimensions : list ScopeDimensionResult) (target context : string) : result Scope :=
  fail_if (length dimensions =? 0) || negb (nonempty target) || negb (nonempty context) with mkError "" "invalid scope";
  fail_if negb (dimensions_valid [] dimensions) with mkError "" "invalid scope dimension";
  Ok (mkScope dimensions target context).
Definition Scope_Valid (s : Scope) : bool := (0 <? length (Dimensions s)) && nonempty (Target s) && nonempty (Context s).

(** ** Classes of evidence *)
Inductive CoverageClass := CoverageInvalid | CoverageMeasured | CoverageAssumed | CoverageExternallyCertified | CoverageUnknown.
#[export] Instance CoverageClass_eq_dec : EqDecision CoverageClass.
Proof. solve_decision. Defined.
Definition CoverageClass_Valid (c : CoverageClass) : bool :=
  bool_decide (c = CoverageMeasured ∨ c = CoverageAssumed ∨ c = CoverageExternallyCertified ∨ c = CoverageUnknown).

Record CoverageRecord := mkCoverageRecord {
  cr_evidence : list EvidenceRef; cr_evidenceScope : Scope; cr_targetScope : Scope; cr_class : CoverageClass;
  cr_method : string; cr_assumptions : string }.
Definition NewCoverageRecord (e : list EvidenceRef) (es ts : Scope) (class : CoverageClass) (method assumptions : string)
  : result CoverageRecord :=
  fail_if (length e =? 0) || negb (Scope_Valid es) || negb (Scope_Valid ts) || negb (CoverageClass_Valid class) ||
          negb (nonempty method) with mkError "" "invalid coverage record";
  Ok (mkCoverageRecord e es ts class method assumptions).

Inductive CompletenessClass :=
  CompletenessInvalid | EmpiricalCompleteness | StructuralCompleteness | DeclaredCompleteness | ExternallyCertifiedCompleteness.
#[export] Instance CompletenessClass_eq_dec : EqDecision CompletenessClass.
Proof. solve_decision. Defined.
#[export] Instance CompletenessClass_enum : Enum CompletenessClass := fun c =>
  match c with CompletenessInvalid => 0 | EmpiricalCompleteness => 1 | StructuralCompleteness => 2 | DeclaredCompleteness => 3
  | ExternallyCertifiedCompleteness => 4 end%Z.
Definition CompletenessClass_Valid (c : CompletenessClass) : bool :=
  bool_decide (c = EmpiricalCompleteness ∨ c = StructuralCompleteness ∨ c = DeclaredCompleteness ∨ c = ExternallyCertifiedCompleteness).

Record CompletenessRecord := mkCompletenessRecord {
  cm_class : CompletenessClass; cm_scope : Scope; cm_issuer : string; cm_identity : string; cm_assumptions : string;
  cm_validity : Validity; cm_revocation : RevocationStatus }.
Definition NewCompletenessRecord (class : CompletenessClass) (scope : Scope) (issuer identity assumptions : string)
  (validity : Validity) (revocation : RevocationStatus) : result CompletenessRecord :=
  fail_if negb (CompletenessClass_Valid class) || negb (nonempty issuer) || negb (nonempty identity) ||
          negb (Scope_Valid scope) || negb (validPredicateValidity validity) || negb (validRevocation revocation)
    with mkError "" "invalid completeness";
  Ok (mkCompletenessRecord class scope issuer identity assumptions validity revocation).

Inductive AdequacyClass :=
  AdequacyInvalid | StructuralBaseline | ExternalCertification | BackendFormalInvariant | BoundedBehavioral
| TrustedBaselineObservedDelta.
#[export] Instance AdequacyClass_eq_dec : EqDecision AdequacyClass.
Proof. solve_decision. Defined.
#[export] Instance AdequacyClass_enum : Enum AdequacyClass := fun c =>
  match c with AdequacyInvalid => 0 | StructuralBaseline => 1 | ExternalCertification => 2 | BackendFormalInvariant => 3
  | BoundedBehavioral => 4 | TrustedBaselineObservedDelta => 5 end%Z.
Definition AdequacyClass_Valid (a : AdequacyClass) : bool :=
  bool_decide (a = StructuralBaseline ∨ a = ExternalCertification ∨ a = BackendFormalInvariant ∨ a = BoundedBehavioral ∨
               a = TrustedBaselineObservedDelta).

Inductive CertificationProperty :=
  CertificationPropertyInvalid | CertificationScopeCoverage | CertificationBaselineCompatibility
| CertificationPolicyAdequacyBounded | CertificationProvenanceValidity.
#[export] Instance CertificationProperty_eq_dec : EqDecision CertificationProperty.
Proof. solve_decision. Defined.
#[export] Instance CertificationProperty_enum : Enum CertificationProperty := fun p =>
  match p with CertificationPropertyInvalid => 0 | CertificationScopeCoverage => 1 | CertificationBaselineCompatibility => 2
  | CertificationPolicyAdequacyBounded => 3 | CertificationProvenanceValidity => 4 end%Z.
Definition CertificationProperty_Valid (p : CertificationProperty) : bool :=
  bool_decide (p = CertificationScopeCoverage ∨ p = CertificationBaselineCompatibility ∨
               p = CertificationPolicyAdequacyBounded ∨ p = CertificationProvenanceValidity).

(** ** Provenance *)
Record ProvenanceRecord := mkProvenance {
  p_producer : string; p_mechanism : string; p_version : string; p_run : string; p_scope : Scope;
  p_validity : Validity; p_revocation : RevocationStatus; p_verification : VerifierSemanticIdentity }.
#[export] Instance ProvenanceRecord_eq_dec : EqDecision ProvenanceRecord.
Proof. solve_decision. Defined.
Definition ProvenanceRecord_Valid (p : ProvenanceRecord) : bool :=
  nonempty (p_producer p) && nonempty (p_mechanism p) && nonempty (p_version p) && nonempty (p_run p) &&
  Scope_Valid (p_scope p) && validPredicateValidity (p_validity p) && validRevocation (p_revocation p) &&
  validVerifier (p_verification p).
Definition NewProvenanceRecord (producer mechanism version run : string) (scope : Scope) (validity : Validity)
  (revocation : RevocationStatus) (verification : VerifierSemanticIdentity) : result ProvenanceRecord :=
  fail_if negb (nonempty producer) || negb (nonempty mechanism) || negb (nonempty version) || negb (nonempty run) ||
          negb (Scope_Valid scope) || negb (validPredicateValidity validity) || negb (validRevocation revocation) ||
          negb (validVerifier verification) with mkError "" "invalid provenance";
  Ok (mkProvenance producer mechanism version run scope validity revocation verification).

(** ** Records of evidence *)
Record AdequacyEvidence := mkAdequacyEvidence {
  ae_class : AdequacyClass; ae_identity : string; ae_issuer : string; ae_backend : string; ae_scope : Scope;
  ae_context : SecurityContextIdentity; ae_verifier : VerifierSemanticIdentity; ae_validity : Validity;
  ae_revocation : RevocationStatus; ae_provenance : ProvenanceRecord }.
Definition NewAdequacyEvidence (class : AdequacyClass) (identity issuer backend : string) (scope : Scope)
  (context : SecurityContextIdentity) (verifier : VerifierSemanticIdentity) (validity : Validity)
  (revocation : RevocationStatus) (provenance : ProvenanceRecord) : result AdequacyEvidence :=
  fail_if negb (AdequacyClass_Valid class) || negb (nonempty identity) || negb (nonempty issuer) || negb (nonempty backend) ||
          negb (Scope_Valid scope) || negb (validContext context) || negb (validVerifier verifier) ||
          negb (validPredicateValidity validity) || negb (validRevocation revocation) ||
          negb (ProvenanceRecord_Valid provenance) with mkError "" "invalid adequacy evidence";
  Ok (mkAdequacyEvidence class identity issuer backend scope context verifier validity revocation provenance).

Record Certification := mkCertification {
  ce_identity : string; ce_version : string; ce_digest : AuthorityDigest; ce_issuer : string;
  ce_property : CertificationProperty; ce_backend : string; ce_scope : Scope; ce_context : SecurityContextIdentity;
  ce_verifier : VerifierSemanticIdentity; ce_validity : Validity; ce_revocation : RevocationStatus }.
Definition NewCertification (identity version : string) (digest : AuthorityDigest) (issuer : string)
  (p : CertificationProperty) (backend : string) (scope : Scope) (context : SecurityContextIdentity)
  (verifier : VerifierSemanticIdentity) (validity : Validity) (revocation : RevocationStatus) : result Certification :=
  fail_if negb (nonempty identity) || negb (nonempty version) || negb (Digest_Valid digest) || negb (nonempty issuer) ||
          negb (CertificationProperty_Valid p) || negb (nonempty backend) || negb (Scope_Valid scope) ||
          negb (validContext context) || negb (validVerifier verifier) || negb (validPredicateValidity validity) ||
          negb (validRevocation revocation) with mkError "" "invalid certification";
  Ok (mkCertification identity version digest issuer p backend scope context verifier validity revocation).

Inductive VerificationResult := VerificationInvalid | VerificationVerified | VerificationFailed | VerificationUnknown.
#[export] Instance VerificationResult_eq_dec : EqDecision VerificationResult.
Proof. solve_decision. Defined.
Definition VerificationResult_Valid (r : VerificationResult) : bool :=
  bool_decide (r = VerificationVerified ∨ r = VerificationFailed ∨ r = VerificationUnknown).

Record VerificationFact := mkVerificationFact {
  vf_verifier : VerifierSemanticIdentity; vf_property : string; vf_subject : string; vf_backend : string;
  vf_inputIdentity : string; vf_provenance : string; vf_scope : Scope; vf_context : SecurityContextIdentity;
  vf_result : VerificationResult; vf_validity : Validity; vf_revocation : RevocationStatus }.
Definition NewVerificationFact (v : VerifierSemanticIdentity) (property subject backend input provenance : string)
  (scope : Scope) (context : SecurityContextIdentity) (outcome : VerificationResult) (validity : Validity)
  (revocation : RevocationStatus) : result VerificationFact :=
  fail_if negb (nonempty property) || negb (nonempty subject) || negb (nonempty backend) || negb (nonempty input) ||
          negb (nonempty provenance) || negb (VerificationResult_Valid outcome) || negb (Scope_Valid scope) ||
          negb (validContext context) || negb (validVerifier v) || negb (validPredicateValidity validity) ||
          negb (validRevocation revocation) with mkError "" "invalid verification fact";
  Ok (mkVerificationFact v property subject backend input provenance scope context outcome validity revocation).

Record Baseline := mkBaseline {
  bl_reference : BaselineRef; bl_owner : string; bl_backend : string; bl_scope : Scope;
  bl_compatibility : CompatibilityRuleRef; bl_validity : Validity; bl_revocation : RevocationStatus }.
Definition NewBaseline (ref : BaselineRef) (owner backend : string) (scope : Scope) (compat : CompatibilityRuleRef)
  (validity : Validity) (revocation : RevocationStatus) : result Baseline :=
  fail_if negb (nonempty owner) || negb (nonempty backend) || negb (Digest_Valid (ref_digest (baseline_data ref))) ||
          negb (Scope_Valid scope) || negb (Digest_Valid (ref_digest (compatibility_data compat))) ||
          negb (validPredicateValidity validity) || negb (validRevocation revocation) with mkError "" "invalid baseline";
  Ok (mkBaseline ref owner backend scope compat validity revocation).

Inductive CompositionOperation :=
  CompositionInvalid | RequireEqual | SetUnionIfIdenticalAction | SetIntersection | RejectOnConflict | PreserveBaseline.
#[export] Instance CompositionOperation_eq_dec : EqDecision CompositionOperation.
Proof. solve_decision. Defined.
Definition CompositionOperation_Valid (o : CompositionOperation) : bool :=
  bool_decide (o = RequireEqual ∨ o = SetUnionIfIdenticalAction ∨ o = SetIntersection ∨ o = RejectOnConflict ∨
               o = PreserveBaseline).
Record Composition := mkComposition {
  co_operator : CompositionOperatorRef; co_operation : CompositionOperation; co_inputs : list AuthorityDigest }.
Definition NewComposition (op : CompositionOperatorRef) (operation : CompositionOperation) (inputs : list AuthorityDigest)
  : result Composition :=
  fail_if negb (Digest_Valid (ref_digest (composition_data op))) || negb (CompositionOperation_Valid operation) ||
          (length inputs =? 0) with mkError "" "invalid composition";
  fail_if existsb (fun d => negb (Digest_Valid d)) inputs with mkError "" "invalid composition input";
  Ok (mkComposition op operation inputs).

Inductive TrustState := TrustStateInvalid | Trusted | Untrusted | TrustUnknown.
#[export] Instance TrustState_eq_dec : EqDecision TrustState.
Proof. solve_decision. Defined.
Definition TrustState_Valid (s : TrustState) : bool := bool_decide (s = Trusted ∨ s = Untrusted ∨ s = TrustUnknown).

Record TrustAuthorization := mkTrustAuthorization {
  ta_issuer : string; ta_artifactClass : string; ta_backend : string; ta_properties : list string; ta_scope : Scope;
  ta_context : SecurityContextIdentity; ta_validity : Validity; ta_revocation : RevocationStatus; ta_state : TrustState }.
Definition newTrustAuthorization (issuer artifactClass backend : string) (properties : list string) (scope : Scope)
  (context : SecurityContextIdentity) (validity : Validity) (revocation : RevocationStatus) (state : TrustState)
  : result TrustAuthorization :=
  fail_if negb (nonempty issuer) || negb (nonempty artifactClass) || negb (nonempty backend) || (length properties =? 0) ||
          negb (Scope_Valid scope) || negb (validContext context) || negb (validPredicateValidity validity) ||
          negb (validRevocation revocation) || negb (TrustState_Valid state) with mkError "" "invalid trust authorization";
  Ok (mkTrustAuthorization issuer artifactClass backend properties scope context validity revocation state).
Definition NewTrustAuthorization (issuer artifactClass backend : string) (properties : list string) (scope : Scope)
  (context : SecurityContextIdentity) (validity : Validity) (revocation : RevocationStatus) (state : TrustState)
  : result TrustAuthorization :=
  fail_if bool_decide (state = Trusted) with mkError "" "trusted state requires controlled authority source";
  newTrustAuthorization issuer artifactClass backend properties scope context validity revocation state.

Inductive CompatibilityPredicate :=
  CompatibilityInvalid | CompatibilityExactEquality | CompatibilitySetMembership | CompatibilityExactVersion
| CompatibilityVersionRange | CompatibilityArchitectureABI | CompatibilityDigestEquality | CompatibilitySetContains
| CompatibilityMapContains.
#[export] Instance CompatibilityPredicate_eq_dec : EqDecision CompatibilityPredicate.
Proof. solve_decision. Defined.
#[export] Instance CompatibilityPredicate_enum : Enum CompatibilityPredicate := fun p =>
  match p with CompatibilityInvalid => 0 | CompatibilityExactEquality => 1 | CompatibilitySetMembership => 2
  | CompatibilityExactVersion => 3 | CompatibilityVersionRange => 4 | CompatibilityArchitectureABI => 5
  | CompatibilityDigestEquality => 6 | CompatibilitySetContains => 7 | CompatibilityMapContains => 8 end%Z.
Definition CompatibilityPredicate_Valid (p : CompatibilityPredicate) : bool :=
  in_range CompatibilityExactEquality CompatibilityMapContains p.

(** The two containment predicates, which take no expected operand. *)
Definition containment (p : CompatibilityPredicate) : bool :=
  bool_decide (p = CompatibilitySetContains ∨ p = CompatibilityMapContains).
Record CompatibilityRule := mkCompatibilityRule {
  cp_reference : CompatibilityRuleRef; cp_predicate : CompatibilityPredicate; cp_field : string; cp_expected : string }.
Definition NewCompatibilityRule (ref : CompatibilityRuleRef) (p : CompatibilityPredicate) (field expected : string)
  : result CompatibilityRule :=
  fail_if negb (Digest_Valid (ref_digest (compatibility_data ref))) || negb (CompatibilityPredicate_Valid p) ||
          negb (nonempty field) || (negb (containment p) && negb (nonempty expected)) ||
          (containment p && nonempty expected) with mkError "" "invalid compatibility rule";
  Ok (mkCompatibilityRule ref p field expected).

Record TemporalValidity := mkTemporalValidity { tv_validity : Validity; tv_state : Presence }.
Definition NewTemporalValidity (v : Validity) (state : Presence) : result TemporalValidity :=
  fail_if bool_decide (state = PresenceInvalid) ||
          (negb (bool_decide (state = PresenceAbsent)) && negb (validPredicateValidity v))
    with mkError "" "invalid temporal validity";
  Ok (mkTemporalValidity v state).

Record RevocationFact := mkRevocationFact {
  rf_subject : string; rf_source : string; rf_epoch : string; rf_status : RevocationStatus; rf_observedAt : time }.
Definition NewRevocationFact (subject source epoch : string) (status : RevocationStatus) (observedAt : time)
  : result RevocationFact :=
  fail_if negb (nonempty subject) || negb (nonempty source) || negb (nonempty epoch) ||
          negb (RevocationStatus_Valid status) || time_is_zero observedAt with mkError "" "invalid revocation fact";
  Ok (mkRevocationFact subject source epoch status observedAt).

(** ** authority.go: the interpretation snapshot of a candidate *)
Record AuthorityMetadata := mkMetadata {
  am_authorityRule : AuthorityRuleRef; am_trustPolicy : TrustPolicyRef; am_baseline : BaselineRef;
  am_registries : list RegistryBinding; am_evidence : list EvidenceRef; am_verifiers : list VerifierRef;
  am_certifications : list CertificationRef; am_compatibility : CompatibilityRuleRef;
  am_composition : CompositionOperatorRef; am_context : SecurityContextIdentity }.

Definition nul : string := String "000"%char "".
Definition registry_key (r : RegistryBinding) : string :=
  let rr := registry_data (Registry r) in ref_id rr +:+ nul +:+ ref_version rr +:+ nul +:+ ref_digest rr.
(** The loop over the registries, with the keys already seen. *)
Fixpoint registries_distinct (seen : list string) (registries : list RegistryBinding) : bool :=
  match registries with
  | [] => true
  | r :: registries => negb (bool_decide (registry_key r ∈ seen)) && registries_distinct (registry_key r :: seen) registries
  end.

Definition NewAuthorityMetadata (v : AuthorityMetadata) : result AuthorityMetadata :=
  fail_if negb (Digest_Valid (ref_digest (rule_data (am_authorityRule v)))) ||
          negb (Digest_Valid (ref_digest (policy_data (am_trustPolicy v)))) ||
          negb (Digest_Valid (ref_digest (baseline_data (am_baseline v)))) ||
          negb (Digest_Valid (ref_digest (compatibility_data (am_compatibility v)))) ||
          negb (Digest_Valid (ref_digest (composition_data (am_composition v))))
    with mkError "" "authority metadata has invalid mandatory reference";
  ctx ← NewSecurityContextIdentity (am_context v);
  fail_if length (am_registries v) =? 0 with mkError "" "authority metadata requires a registry";
  fail_if existsb (fun r => negb (Digest_Valid (ref_digest (registry_data (Registry r))))) (am_registries v)
    with mkError "" "invalid registry binding";
  fail_if negb (registries_distinct [] (am_registries v)) with mkError "" "duplicate registry identity";
  Ok (mkMetadata (am_authorityRule v) (am_trustPolicy v) (am_baseline v) (am_registries v) (am_evidence v)
        (am_verifiers v) (am_certifications v) (am_compatibility v) (am_composition v) ctx).

Record EligibilityRecord := mkEligibilityRecord {
  er_candidate : AuthorityDigest; er_metadata : AuthorityMetadata; er_result : EligibilityResult; er_validity : Validity;
  er_revocation : RevocationStatus; er_evaluationEpoch : Z }.
Definition NewEligibilityRecord (v : EligibilityRecord) : result EligibilityRecord :=
  fail_if negb (Digest_Valid (er_candidate v)) || negb (EligibilityResult_Valid (er_result v)) ||
          negb (RevocationStatus_Valid (er_revocation v)) || (er_evaluationEpoch v =? 0)%Z
    with mkError "" "invalid eligibility record foundation";
  Ok v.

(** ** evaluator.go: the security envelope of a backend *)
Inductive EnvelopeDimension :=
  StartupBootstrap | ContainerLifetime | ProcessTree | ExecutableSet | WorkloadState | EnvelopeArchitectureABI
| EnvelopeImageIdentity | KernelRuntimeCompatibility.
#[export] Instance EnvelopeDimension_eq_dec : EqDecision EnvelopeDimension.
Proof. solve_decision. Defined.
Inductive EnvelopeState := EnvelopeInvalid | EnvelopeSatisfied | EnvelopeUnsatisfied | EnvelopeUnknown.
#[export] Instance EnvelopeState_eq_dec : EqDecision EnvelopeState.
Proof. solve_decision. Defined.
#[export] Instance EnvelopeState_enum : Enum EnvelopeState := fun s =>
  match s with EnvelopeInvalid => 0 | EnvelopeSatisfied => 1 | EnvelopeUnsatisfied => 2 | EnvelopeUnknown => 3 end%Z.
Record EnvelopeDimensionResult := mkEnvelopeDimension { ed_Dimension : EnvelopeDimension; ed_State : EnvelopeState }.
Record BackendSecurityEnvelope := mkEnvelope { en_dimensions : list EnvelopeDimensionResult }.

Fixpoint envelope_valid (seen : list EnvelopeDimension) (dimensions : list EnvelopeDimensionResult) : bool :=
  match dimensions with
  | [] => true
  | d :: dimensions => in_range EnvelopeSatisfied EnvelopeUnknown (ed_State d) && negb (bool_decide (ed_Dimension d ∈ seen)) &&
                       envelope_valid (ed_Dimension d :: seen) dimensions
  end.
Definition NewBackendSecurityEnvelope (dimensions : list EnvelopeDimensionResult) : result BackendSecurityEnvelope :=
  fail_if negb (length dimensions =? 8) with mkError "" "invalid backend security envelope";
  fail_if negb (envelope_valid [] dimensions) with mkError "" "invalid backend security envelope";
  Ok (mkEnvelope dimensions).

Fixpoint envelope_scan (unknown : bool) (dimensions : list EnvelopeDimensionResult) : option bool :=
  match dimensions with
  | [] => Some unknown
  | d :: dimensions =>
      if bool_decide (ed_State d = EnvelopeUnsatisfied) then None
      else envelope_scan (negb (bool_decide (ed_State d = EnvelopeSatisfied)) || unknown) dimensions
  end.
Definition BackendSecurityEnvelope_Evaluate (e : BackendSecurityEnvelope) : EnvelopeState :=
  match envelope_scan false (en_dimensions e) with
  | None => EnvelopeUnsatisfied
  | Some unknown => if unknown || negb (length (en_dimensions e) =? 8) then EnvelopeUnknown else EnvelopeSatisfied
  end.
