(* ===== verification/AuthorityFacts.v ===== *)
(** * internal/authority/facts.go and source_results.go

    The facts an evaluation reads, one record per family; the source results
    they are derived from and the conditions of that derivation; and the
    snapshot that holds the facts of one resolution attempt, each family without
    duplicates. *)
From S2P Require Import Prelude GoStd Identity Digest AuthorityDomain.

(** [fmt.Sprintf] with the verb of Go syntax, of a value of the type. *)
Class GoSyntax (A : Type) := sharp : A → string.

Abbreviation ResolutionAttemptIdentity := string.
Definition NewResolutionAttemptIdentity (v : string) : result ResolutionAttemptIdentity :=
  fail_if negb (nonempty v) with mkError "" "empty resolution attempt identity"; Ok v.
Definition Attempt_Valid (i : ResolutionAttemptIdentity) : bool := nonempty i.

(** ** Facts *)
Record CurrentRevocationFact := mkRevocation {
  rv_attempt : ResolutionAttemptIdentity; rv_subject : string; rv_source : string; rv_state : RevocationStatus;
  rv_provenance : ProvenanceRecord; rv_validUntil : Validity }.
#[export] Instance CurrentRevocationFact_eq_dec : EqDecision CurrentRevocationFact.
Proof. solve_decision. Defined.
Definition CurrentRevocationFact_Valid (f : CurrentRevocationFact) : bool :=
  Attempt_Valid (rv_attempt f) && nonempty (rv_subject f) && nonempty (rv_source f) && validRevocation (rv_state f) &&
  ProvenanceRecord_Valid (rv_provenance f) && validPredicateValidity (rv_validUntil f).

Record TrustFact := mkTrustFact {
  tf_attempt : ResolutionAttemptIdentity; tf_subject : string; tf_policy : string; tf_root : string; tf_scope : Scope;
  tf_context : SecurityContextIdentity; tf_validity : Validity; tf_revocation : CurrentRevocationFact;
  tf_provenance : ProvenanceRecord; tf_state : TrustState }.
Definition TrustFact_Valid (f : TrustFact) : bool :=
  Attempt_Valid (tf_attempt f) && nonempty (tf_subject f) && nonempty (tf_policy f) && nonempty (tf_root f) &&
  Scope_Valid (tf_scope f) && validContext (tf_context f) && validPredicateValidity (tf_validity f) &&
  CurrentRevocationFact_Valid (tf_revocation f) && ProvenanceRecord_Valid (tf_provenance f) && TrustState_Valid (tf_state f).

Inductive VerificationFactState := VerificationFactInvalid | VerificationFactVerified | VerificationFactFailed | VerificationFactUnknown.
#[export] Instance VerificationFactState_eq_dec : EqDecision VerificationFactState.
Proof. solve_decision. Defined.
#[export] Instance VerificationFactState_enum : Enum VerificationFactState := fun s =>
  match s with VerificationFactInvalid => 0 | VerificationFactVerified => 1 | VerificationFactFailed => 2
  | VerificationFactUnknown => 3 end%Z.
Definition VerificationFactState_Valid (s : VerificationFactState) : bool := in_range VerificationFactVerified VerificationFactUnknown s.

Record ResolvedVerificationFact := mkVerification {
  vr_attempt : ResolutionAttemptIdentity; vr_subject : string; vr_verifier : string; vr_property : string;
  vr_scope : Scope; vr_context : SecurityContextIdentity; vr_validity : Validity; vr_revocation : CurrentRevocationFact;
  vr_provenance : ProvenanceRecord; vr_state : VerificationFactState }.
Definition ResolvedVerificationFact_Valid (f : ResolvedVerificationFact) : bool :=
  Attempt_Valid (vr_attempt f) && nonempty (vr_subject f) && nonempty (vr_verifier f) && nonempty (vr_property f) &&
  Scope_Valid (vr_scope f) && validContext (vr_context f) && validPredicateValidity (vr_validity f) &&
  CurrentRevocationFact_Valid (vr_revocation f) && ProvenanceRecord_Valid (vr_provenance f) &&
  VerificationFactState_Valid (vr_state f).

Inductive CompatibilityFactState := CompatibilityFactInvalid | CompatibilityCompatible | CompatibilityIncompatible | CompatibilityUnknown.
#[export] Instance CompatibilityFactState_eq_dec : EqDecision CompatibilityFactState.
Proof. solve_decision. Defined.
#[export] Instance CompatibilityFactState_enum : Enum CompatibilityFactState := fun s =>
  match s with CompatibilityFactInvalid => 0 | CompatibilityCompatible => 1 | CompatibilityIncompatible => 2
  | CompatibilityUnknown => 3 end%Z.
Definition CompatibilityFactState_Valid (s : CompatibilityFactState) : bool := in_range CompatibilityCompatible CompatibilityUnknown s.

Record CompatibilityFact := mkCompatibility {
  cf_attempt : ResolutionAttemptIdentity; cf_schema : string; cf_predicate : string; cf_field : string;
  cf_candidate : string; cf_baseline : string; cf_requirement : string; cf_authority : string; cf_subject : string;
  cf_backend : string; cf_context : string; cf_scope : Scope; cf_validity : Validity;
  cf_revocation : CurrentRevocationFact; cf_provenance : ProvenanceRecord; cf_state : CompatibilityFactState }.
Definition CompatibilityFact_Valid (f : CompatibilityFact) : bool :=
  Attempt_Valid (cf_attempt f) && nonempty (cf_schema f) && nonempty (cf_predicate f) && nonempty (cf_field f) &&
  nonempty (cf_candidate f) && nonempty (cf_baseline f) && nonempty (cf_requirement f) && nonempty (cf_authority f) &&
  nonempty (cf_subject f) && nonempty (cf_backend f) && nonempty (cf_context f) && Scope_Valid (cf_scope f) &&
  validPredicateValidity (cf_validity f) && CurrentRevocationFact_Valid (cf_revocation f) &&
  ProvenanceRecord_Valid (cf_provenance f) && CompatibilityFactState_Valid (cf_state f).

Record CoverageFact := mkCoverage {
  cv_attempt : ResolutionAttemptIdentity; cv_subject : string; cv_backend : string; cv_source : string;
  cv_scope : Scope; cv_context : SecurityContextIdentity; cv_validity : Validity; cv_revocation : CurrentRevocationFact;
  cv_state : ScopeCoverageState; cv_provenance : ProvenanceRecord }.
Definition CoverageFact_Valid (f : CoverageFact) : bool :=
  Attempt_Valid (cv_attempt f) && nonempty (cv_subject f) && nonempty (cv_backend f) && nonempty (cv_source f) &&
  Scope_Valid (cv_scope f) && validContext (cv_context f) && validPredicateValidity (cv_validity f) &&
  CurrentRevocationFact_Valid (cv_revocation f) && ScopeCoverageState_Valid (cv_state f) &&
  ProvenanceRecord_Valid (cv_provenance f).

Record CompletenessFact := mkCompleteness {
  cl_attempt : ResolutionAttemptIdentity; cl_subject : string; cl_class : CompletenessClass; cl_scope : Scope;
  cl_provenance : ProvenanceRecord; cl_validity : Validity; cl_revocation : CurrentRevocationFact }.
Definition CompletenessFact_Valid (f : CompletenessFact) : bool :=
  Attempt_Valid (cl_attempt f) && nonempty (cl_subject f) && CompletenessClass_Valid (cl_class f) &&
  Scope_Valid (cl_scope f) && ProvenanceRecord_Valid (cl_provenance f) && validPredicateValidity (cl_validity f) &&
  CurrentRevocationFact_Valid (cl_revocation f).

Record AdequacyFact := mkAdequacy {
  ad_attempt : ResolutionAttemptIdentity; ad_subject : string; ad_class : AdequacyClass; ad_scope : Scope;
  ad_context : SecurityContextIdentity; ad_verifier : VerifierSemanticIdentity; ad_provenance : ProvenanceRecord;
  ad_validity : Validity; ad_revocation : CurrentRevocationFact }.
Definition AdequacyFact_Valid (f : AdequacyFact) : bool :=
  Attempt_Valid (ad_attempt f) && nonempty (ad_subject f) && AdequacyClass_Valid (ad_class f) &&
  Scope_Valid (ad_scope f) && validContext (ad_context f) && validVerifier (ad_verifier f) &&
  ProvenanceRecord_Valid (ad_provenance f) && validPredicateValidity (ad_validity f) &&
  CurrentRevocationFact_Valid (ad_revocation f).

(** Unlike the other families, the validity of a certification fact says nothing
    of its revocation. *)
Record CertificationFact := mkCertificationFact {
  ct_attempt : ResolutionAttemptIdentity; ct_subject : string; ct_identity : string; ct_property : string;
  ct_scope : Scope; ct_context : SecurityContextIdentity; ct_verifier : VerifierSemanticIdentity;
  ct_provenance : ProvenanceRecord; ct_validity : Validity; ct_revocation : CurrentRevocationFact }.
Definition CertificationFact_Valid (f : CertificationFact) : bool :=
  Attempt_Valid (ct_attempt f) && nonempty (ct_subject f) && nonempty (ct_identity f) && nonempty (ct_property f) &&
  Scope_Valid (ct_scope f) && validContext (ct_context f) && validVerifier (ct_verifier f) &&
  ProvenanceRecord_Valid (ct_provenance f) && validPredicateValidity (ct_validity f).

Inductive RequirementMatchOutcome := MatchInvalid | MatchSatisfied | MatchRefuted | MatchUnknown | MatchNonMatching.
#[export] Instance RequirementMatchOutcome_eq_dec : EqDecision RequirementMatchOutcome.
Proof. solve_decision. Defined.
#[export] Instance RequirementMatchOutcome_enum : Enum RequirementMatchOutcome := fun o =>
  match o with MatchInvalid => 0 | MatchSatisfied => 1 | MatchRefuted => 2 | MatchUnknown => 3 | MatchNonMatching => 4 end%Z.
Definition RequirementMatchOutcome_Valid (o : RequirementMatchOutcome) : bool := in_range MatchSatisfied MatchNonMatching o.
Record RequirementMatch := mkMatch {
  rm_attempt : ResolutionAttemptIdentity; rm_authority : string; rm_requirement : string; rm_subject : string;
  rm_backend : string; rm_context : string; rm_scope : Scope; rm_outcome : RequirementMatchOutcome }.
Definition RequirementMatch_Valid (m : RequirementMatch) : bool :=
  Attempt_Valid (rm_attempt m) && nonempty (rm_authority m) && nonempty (rm_requirement m) && nonempty (rm_subject m) &&
  nonempty (rm_backend m) && nonempty (rm_context m) && Scope_Valid (rm_scope m) && RequirementMatchOutcome_Valid (rm_outcome m).

(** ** source_results.go: temporal applicability *)
Inductive TemporalApplicability := TemporalInvalid | TemporalApplicable | TemporalNotYetValid | TemporalExpired | TemporalUnknown.
#[export] Instance TemporalApplicability_eq_dec : EqDecision TemporalApplicability.
Proof. solve_decision. Defined.

Definition CheckValidityAt (v : Validity) (at_ : time) : TemporalApplicability :=
  if time_is_zero at_ || negb (validPredicateValidity v) then TemporalInvalid
  else if (at_ <? ObservedAt v)%Z then TemporalNotYetValid
  else if match ValidUntil v with Some u => (u <? at_)%Z | None => false end then TemporalExpired
  else if ((0 <? MaxAge v) && (ObservedAt v + MaxAge v <? at_))%Z then TemporalExpired
  else TemporalApplicable.

(** ** Source results and the facts derived from them *)
Record CurrentRevocationResult := mkRevocationResult {
  rr_attempt : ResolutionAttemptIdentity; rr_subject : string; rr_source : string; rr_state : RevocationStatus;
  rr_provenance : ProvenanceRecord; rr_validity : Validity }.
Definition CurrentRevocationResult_Valid (r : CurrentRevocationResult) : bool :=
  Attempt_Valid (rr_attempt r) && nonempty (rr_subject r) && nonempty (rr_source r) && validRevocation (rr_state r) &&
  ProvenanceRecord_Valid (rr_provenance r) && validPredicateValidity (rr_validity r).
Definition newCurrentRevocationResult a s src state p v : result CurrentRevocationResult :=
  fail_if negb (CurrentRevocationResult_Valid (mkRevocationResult a s src state p v))
    with mkError "" "invalid revocation source result";
  Ok (mkRevocationResult a s src state p v).
Definition DeriveCurrentRevocationFact (r : CurrentRevocationResult) : result CurrentRevocationFact :=
  fail_if negb (CurrentRevocationResult_Valid r) with mkError "" "invalid revocation source result";
  Ok (mkRevocation (rr_attempt r) (rr_subject r) (rr_source r) (rr_state r) (rr_provenance r) (rr_validity r)).
Definition DeriveCurrentRevocationFactAt (r : CurrentRevocationResult) (at_ : time) : result CurrentRevocationFact :=
  fail_if negb (bool_decide (CheckValidityAt (rr_validity r) at_ = TemporalApplicable))
    with mkError "" "revocation result not current";
  DeriveCurrentRevocationFact r.

(** The revocation of a source result is of the same attempt. *)
Definition revocation_of (attempt : ResolutionAttemptIdentity) (r : CurrentRevocationFact) : bool :=
  CurrentRevocationFact_Valid r && bool_decide (rv_attempt r = attempt).

Record TrustResolutionResult := mkTrustResult {
  tr_attempt : ResolutionAttemptIdentity; tr_subject : string; tr_policy : string; tr_root : string; tr_scope : Scope;
  tr_context : SecurityContextIdentity; tr_validity : Validity; tr_revocation : CurrentRevocationFact;
  tr_provenance : ProvenanceRecord; tr_state : TrustState }.
Definition TrustResolutionResult_Valid (r : TrustResolutionResult) : bool :=
  Attempt_Valid (tr_attempt r) && nonempty (tr_subject r) && nonempty (tr_policy r) && nonempty (tr_root r) &&
  Scope_Valid (tr_scope r) && validContext (tr_context r) && validPredicateValidity (tr_validity r) &&
  revocation_of (tr_attempt r) (tr_revocation r) && ProvenanceRecord_Valid (tr_provenance r) && TrustState_Valid (tr_state r).
Definition newTrustResolutionResult a subject policy root scope ctx v r p state : result TrustResolutionResult :=
  fail_if negb (TrustResolutionResult_Valid (mkTrustResult a subject policy root scope ctx v r p state))
    with mkError "" "invalid trust source result";
  Ok (mkTrustResult a subject policy root scope ctx v r p state).
Definition DeriveTrustFact (r : TrustResolutionResult) : result TrustFact :=
  fail_if negb (TrustResolutionResult_Valid r) with mkError "" "invalid trust source result";
  Ok (mkTrustFact (tr_attempt r) (tr_subject r) (tr_policy r) (tr_root r) (tr_scope r) (tr_context r) (tr_validity r)
        (tr_revocation r) (tr_provenance r) (tr_state r)).
Definition DeriveTrustFactAt (r : TrustResolutionResult) (at_ : time) : result TrustFact :=
  fail_if negb (bool_decide (CheckValidityAt (tr_validity r) at_ = TemporalApplicable))
    with mkError "" "trust result not applicable";
  fail_if negb (bool_decide (rv_state (tr_revocation r) = RevocationNotRevoked))
    with mkError "" "revocation not admissible";
  DeriveTrustFact r.

Record VerificationExecutionResult := mkExecutionResult {
  xr_attempt : ResolutionAttemptIdentity; xr_subject : string; xr_verifier : string; xr_property : string;
  xr_scope : Scope; xr_context : SecurityContextIdentity; xr_validity : Validity; xr_revocation : CurrentRevocationFact;
  xr_provenance : ProvenanceRecord; xr_state : VerificationFactState }.
Definition VerificationExecutionResult_Valid (r : VerificationExecutionResult) : bool :=
  Attempt_Valid (xr_attempt r) && nonempty (xr_subject r) && nonempty (xr_verifier r) && nonempty (xr_property r) &&
  Scope_Valid (xr_scope r) && validContext (xr_context r) && validPredicateValidity (xr_validity r) &&
  revocation_of (xr_attempt r) (xr_revocation r) && ProvenanceRecord_Valid (xr_provenance r) &&
  VerificationFactState_Valid (xr_state r).
Definition newVerificationExecutionResult a s v p sc c iv r pr state : result VerificationExecutionResult :=
  fail_if negb (VerificationExecutionResult_Valid (mkExecutionResult a s v p sc c iv r pr state))
    with mkError "" "invalid verification source result";
  Ok (mkExecutionResult a s v p sc c iv r pr state).
Definition DeriveVerificationFact (r : VerificationExecutionResult) : result ResolvedVerificationFact :=
  fail_if negb (VerificationExecutionResult_Valid r) with mkError "" "invalid verification source result";
  Ok (mkVerification (xr_attempt r) (xr_subject r) (xr_verifier r) (xr_property r) (xr_scope r) (xr_context r)
        (xr_validity r) (xr_revocation r) (xr_provenance r) (xr_state r)).
Definition DeriveVerificationFactAt (r : VerificationExecutionResult) (at_ : time) : result ResolvedVerificationFact :=
  fail_if negb (bool_decide (CheckValidityAt (xr_validity r) at_ = TemporalApplicable)) ||
          negb (bool_decide (rv_state (xr_revocation r) = RevocationNotRevoked))
    with mkError "" "verification result not applicable";
  DeriveVerificationFact r.

Record CoverageObservationResult := mkCoverageResult {
  or_attempt : ResolutionAttemptIdentity; or_subject : string; or_backend : string; or_source : string; or_scope : Scope;
  or_context : SecurityContextIdentity; or_validity : Validity; or_revocation : CurrentRevocationFact;
  or_state : ScopeCoverageState; or_provenance : ProvenanceRecord }.
Definition CoverageObservationResult_Valid (r : CoverageObservationResult) : bool :=
  Attempt_Valid (or_attempt r) && nonempty (or_subject r) && nonempty (or_backend r) && nonempty (or_source r) &&
  Scope_Valid (or_scope r) && validContext (or_context r) && validPredicateValidity (or_validity r) &&
  revocation_of (or_attempt r) (or_revocation r) && ScopeCoverageState_Valid (or_state r) &&
  ProvenanceRecord_Valid (or_provenance r).
Definition newCoverageObservationResult a s backend source sc ctx v r state p : result CoverageObservationResult :=
  fail_if negb (CoverageObservationResult_Valid (mkCoverageResult a s backend source sc ctx v r state p))
    with mkError "" "invalid coverage source result";
  Ok (mkCoverageResult a s backend source sc ctx v r state p).
Definition DeriveCoverageFact (r : CoverageObservationResult) : result CoverageFact :=
  fail_if negb (CoverageObservationResult_Valid r) with mkError "" "invalid coverage source result";
  Ok (mkCoverage (or_attempt r) (or_subject r) (or_backend r) (or_source r) (or_scope r) (or_context r) (or_validity r)
        (or_revocation r) (or_state r) (or_provenance r)).

Record CompletenessEvidenceResult := mkCompletenessResult {
  mr_attempt : ResolutionAttemptIdentity; mr_subject : string; mr_class : CompletenessClass; mr_scope : Scope;
  mr_provenance : ProvenanceRecord; mr_validity : Validity; mr_revocation : CurrentRevocationFact }.
Definition CompletenessEvidenceResult_Valid (r : CompletenessEvidenceResult) : bool :=
  Attempt_Valid (mr_attempt r) && nonempty (mr_subject r) && CompletenessClass_Valid (mr_class r) &&
  Scope_Valid (mr_scope r) && ProvenanceRecord_Valid (mr_provenance r) && validPredicateValidity (mr_validity r) &&
  revocation_of (mr_attempt r) (mr_revocation r).
Definition newCompletenessEvidenceResult a s c sc p v r : result CompletenessEvidenceResult :=
  fail_if negb (CompletenessEvidenceResult_Valid (mkCompletenessResult a s c sc p v r))
    with mkError "" "invalid completeness source result";
  Ok (mkCompletenessResult a s c sc p v r).
Definition DeriveCompletenessFact (r : CompletenessEvidenceResult) : result CompletenessFact :=
  fail_if negb (CompletenessEvidenceResult_Valid r) with mkError "" "invalid completeness source result";
  Ok (mkCompleteness (mr_attempt r) (mr_subject r) (mr_class r) (mr_scope r) (mr_provenance r) (mr_validity r) (mr_revocation r)).

Record AdequacyEvidenceResult := mkAdequacyResult {
  ar_attempt : ResolutionAttemptIdentity; ar_subject : string; ar_class : AdequacyClass; ar_scope : Scope;
  ar_context : SecurityContextIdentity; ar_verifier : VerifierSemanticIdentity; ar_provenance : ProvenanceRecord;
  ar_validity : Validity; ar_revocation : CurrentRevocationFact }.
Definition AdequacyEvidenceResult_Valid (r : AdequacyEvidenceResult) : bool :=
  Attempt_Valid (ar_attempt r) && nonempty (ar_subject r) && AdequacyClass_Valid (ar_class r) && Scope_Valid (ar_scope r) &&
  validContext (ar_context r) && validVerifier (ar_verifier r) && ProvenanceRecord_Valid (ar_provenance r) &&
  validPredicateValidity (ar_validity r) && revocation_of (ar_attempt r) (ar_revocation r).
Definition newAdequacyEvidenceResult a s c sc ctx vf p v r : result AdequacyEvidenceResult :=
  fail_if negb (AdequacyEvidenceResult_Valid (mkAdequacyResult a s c sc ctx vf p v r))
    with mkError "" "invalid adequacy source result";
  Ok (mkAdequacyResult a s c sc ctx vf p v r).
Definition DeriveAdequacyFact (r : AdequacyEvidenceResult) : result AdequacyFact :=
  fail_if negb (AdequacyEvidenceResult_Valid r) with mkError "" "invalid adequacy source result";
  Ok (mkAdequacy (ar_attempt r) (ar_subject r) (ar_class r) (ar_scope r) (ar_context r) (ar_verifier r) (ar_provenance r)
        (ar_validity r) (ar_revocation r)).

Record CertificationResolutionResult := mkCertificationResult {
  sr_attempt : ResolutionAttemptIdentity; sr_subject : string; sr_identity : string; sr_property : string;
  sr_scope : Scope; sr_context : SecurityContextIdentity; sr_verifier : VerifierSemanticIdentity;
  sr_provenance : ProvenanceRecord; sr_validity : Validity; sr_revocation : CurrentRevocationFact }.
Definition CertificationResolutionResult_Valid (r : CertificationResolutionResult) : bool :=
  Attempt_Valid (sr_attempt r) && nonempty (sr_subject r) && nonempty (sr_identity r) && nonempty (sr_property r) &&
  Scope_Valid (sr_scope r) && validContext (sr_context r) && validVerifier (sr_verifier r) &&
  ProvenanceRecord_Valid (sr_provenance r) && validPredicateValidity (sr_validity r) &&
  revocation_of (sr_attempt r) (sr_revocation r).
Definition newCertificationResolutionResult a s id prop sc ctx vf p v r : result CertificationResolutionResult :=
  fail_if negb (CertificationResolutionResult_Valid (mkCertificationResult a s id prop sc ctx vf p v r))
    with mkError "" "invalid certification source result";
  Ok (mkCertificationResult a s id prop sc ctx vf p v r).
Definition DeriveCertificationFact (r : CertificationResolutionResult) : result CertificationFact :=
  fail_if negb (CertificationResolutionResult_Valid r) with mkError "" "invalid certification source result";
  Ok (mkCertificationFact (sr_attempt r) (sr_subject r) (sr_identity r) (sr_property r) (sr_scope r) (sr_context r)
        (sr_verifier r) (sr_provenance r) (sr_validity r) (sr_revocation r)).

(** ** Identity of a fact within its family *)
Definition scopeIdentity (s : Scope) : string :=
  let xs := sort_strings (map (fun x => Dimension x +:+ "=" +:+ itoa (ord (State x))) (Dimensions s)) in
  join "|" (xs ++ [Target s; Context s]).

(** A [uint8] below sixteen in Go syntax. *)
Definition sharp_uint8 (n : Z) : string := "0x" +:+ String (hex_digit n) "".
#[export] Instance CompletenessClass_syntax : GoSyntax CompletenessClass := fun c => sharp_uint8 (ord c).
#[export] Instance AdequacyClass_syntax : GoSyntax AdequacyClass := fun c => sharp_uint8 (ord c).

(** The first fact of each key, in order; a later one that conflicts with it is
    an error. *)
Fixpoint dedup_facts {F} (key : F → string) (conflict : F → F → bool) (msg : string) (seen : gmap string F) (facts : list F)
  : result (list F) :=
  match facts with
  | [] => Ok []
  | f :: facts =>
      match seen !! key f with
      | Some o => fail_if conflict o f with mkError "" msg; dedup_facts key conflict msg seen facts
      | None => out ← dedup_facts key conflict msg (<[key f := f]> seen) facts; Ok (f :: out)
      end
  end.

Section snapshot.
Context `{!GoSyntax SecurityContextIdentity, !GoSyntax Validity, !GoSyntax CurrentRevocationFact, !GoSyntax ProvenanceRecord,
          !GoSyntax VerifierSemanticIdentity, !GoSyntax CompatibilityFact, !GoSyntax CertificationFact}.

Definition trust_key (f : TrustFact) : string :=
  join nul [tf_attempt f; tf_subject f; tf_policy f; tf_root f; scopeIdentity (tf_scope f); sharp (tf_context f);
            sharp (tf_validity f); sharp (tf_revocation f); sharp (tf_provenance f)].
Definition dedupTrustFacts : list TrustFact → result (list TrustFact) :=
  dedup_facts trust_key (fun o f => negb (bool_decide (tf_state o = tf_state f))) "conflicting trust facts" ∅.

Definition revocation_key (f : CurrentRevocationFact) : string :=
  join nul [rv_attempt f; rv_subject f; rv_source f; sharp (rv_validUntil f); sharp (rv_provenance f)].
Definition dedupRevocationFacts : list CurrentRevocationFact → result (list CurrentRevocationFact) :=
  dedup_facts revocation_key (fun o f => negb (bool_decide (rv_state o = rv_state f))) "conflicting revocation facts" ∅.

Definition verification_key (f : ResolvedVerificationFact) : string :=
  join nul [vr_attempt f; vr_subject f; vr_verifier f; vr_property f; scopeIdentity (vr_scope f); sharp (vr_context f);
            sharp (vr_validity f); sharp (vr_revocation f); sharp (vr_provenance f)].
Definition dedupVerificationFacts : list ResolvedVerificationFact → result (list ResolvedVerificationFact) :=
  dedup_facts verification_key (fun o f => negb (bool_decide (vr_state o = vr_state f))) "conflicting verification facts" ∅.

(** The provenance is not part of the identity of a coverage fact. *)
Definition coverage_key (f : CoverageFact) : string :=
  join nul [cv_attempt f; cv_subject f; cv_backend f; cv_source f; scopeIdentity (cv_scope f); sharp (cv_context f);
            sharp (cv_validity f); sharp (cv_revocation f)].
Definition dedupCoverageFacts : list CoverageFact → result (list CoverageFact) :=
  dedup_facts coverage_key (fun o f => negb (bool_decide (cv_state o = cv_state f))) "conflicting coverage facts" ∅.

Definition completeness_key (f : CompletenessFact) : string :=
  join nul [cl_attempt f; cl_subject f; sharp (cl_class f); scopeIdentity (cl_scope f); sharp (cl_validity f);
            sharp (cl_revocation f); sharp (cl_provenance f)].
Definition dedupCompletenessFacts : list CompletenessFact → result (list CompletenessFact) :=
  dedup_facts completeness_key (fun o f => negb (bool_decide (cl_class o = cl_class f))) "conflicting completeness facts" ∅.

Definition adequacy_key (f : AdequacyFact) : string :=
  join nul [ad_attempt f; ad_subject f; sharp (ad_class f); scopeIdentity (ad_scope f); sharp (ad_context f);
            sharp (ad_verifier f); sharp (ad_validity f); sharp (ad_revocation f); sharp (ad_provenance f)].
Definition dedupAdequacyFacts : list AdequacyFact → result (list AdequacyFact) :=
  dedup_facts adequacy_key (fun o f => negb (bool_decide (ad_class o = ad_class f))) "conflicting adequacy facts" ∅.

Definition certification_key (f : CertificationFact) : string :=
  join nul [ct_attempt f; ct_subject f; ct_identity f; ct_property f; scopeIdentity (ct_scope f); sharp (ct_context f);
            sharp (ct_verifier f); sharp (ct_validity f); sharp (ct_revocation f); sharp (ct_provenance f)].
Definition dedupCertificationFacts : list CertificationFact → result (list CertificationFact) :=
  dedup_facts certification_key (fun o f => negb (bool_decide (sharp o = sharp f))) "conflicting certification facts" ∅.

Definition compatibilityIdentity (f : CompatibilityFact) : string :=
  join nul [cf_attempt f; cf_schema f; cf_predicate f; cf_field f; cf_candidate f; cf_baseline f; cf_requirement f;
            cf_authority f; cf_subject f; cf_backend f; scopeIdentity (cf_scope f); cf_context f; sharp (cf_validity f);
            sharp (cf_provenance f); sharp (cf_revocation f)].
Definition dedupCompatibilityFacts : list CompatibilityFact → result (list CompatibilityFact) :=
  dedup_facts compatibilityIdentity
    (fun o f => negb (bool_decide (cf_state o = cf_state f)) || negb (bool_decide (sharp o = sharp f)))
    "conflicting compatibility facts" ∅.

(** ** The snapshot *)
Record EvaluationFactSnapshot := mkSnapshot {
  sn_attempt : ResolutionAttemptIdentity; sn_trusts : list TrustFact; sn_revocations : list CurrentRevocationFact;
  sn_verifications : list ResolvedVerificationFact; sn_compatibilities : list CompatibilityFact;
  sn_coverages : list CoverageFact; sn_completeness : list CompletenessFact; sn_adequacies : list AdequacyFact;
  sn_certifications : list CertificationFact }.
Definition EvaluationFactSnapshot_Valid (s : EvaluationFactSnapshot) : bool := Attempt_Valid (sn_attempt s).

(** The facts of a family are valid and of the attempt. *)
Definition admissible {F} (valid : F → bool) (attempt_of : F → ResolutionAttemptIdentity) (a : ResolutionAttemptIdentity)
  (facts : list F) : bool :=
  forallb (fun x => valid x && bool_decide (attempt_of x = a)) facts.

Definition NewEvaluationFactSnapshotAll (a : ResolutionAttemptIdentity) (t : list TrustFact) (r : list CurrentRevocationFact)
  (v : list ResolvedVerificationFact) (c : list CompatibilityFact) (k : list CoverageFact) (cm : list CompletenessFact)
  (ad : list AdequacyFact) (ce : list CertificationFact) : result EvaluationFactSnapshot :=
  fail_if negb (Attempt_Valid a) with mkError "" "invalid snapshot identity";
  fail_if negb (admissible TrustFact_Valid tf_attempt a t) with mkError "" "invalid trust snapshot";
  fail_if negb (admissible CurrentRevocationFact_Valid rv_attempt a r) with mkError "" "invalid revocation snapshot";
  fail_if negb (admissible ResolvedVerificationFact_Valid vr_attempt a v) with mkError "" "invalid verification snapshot";
  fail_if negb (admissible CompatibilityFact_Valid cf_attempt a c) with mkError "" "invalid compatibility snapshot";
  fail_if negb (admissible CoverageFact_Valid cv_attempt a k) with mkError "" "invalid coverage snapshot";
  fail_if negb (admissible CompletenessFact_Valid cl_attempt a cm) with mkError "" "invalid completeness snapshot";
  fail_if negb (admissible AdequacyFact_Valid ad_attempt a ad) with mkError "" "invalid adequacy snapshot";
  fail_if negb (admissible CertificationFact_Valid ct_attempt a ce) with mkError "" "invalid certification snapshot";
  c ← dedupCompatibilityFacts c;
  t ← dedupTrustFacts t;
  r ← dedupRevocationFacts r;
  v ← dedupVerificationFacts v;
  k ← dedupCoverageFacts k;
  cm ← dedupCompletenessFacts cm;
  ad ← dedupAdequacyFacts ad;
  ce ← dedupCertificationFacts ce;
  Ok (mkSnapshot a t r v c k cm ad ce).
Definition NewEvaluationFactSnapshot a t r v c := NewEvaluationFactSnapshotAll a t r v c [] [] [] [].
End snapshot.

(** ** resolution.go: the fact of the bounded runtime experiment *)
Record SeccompRuntimeEvidence := mkRuntimeEvidence {
  re_AttemptID : string; re_Version : string; re_Digest : string; re_Subject : string; re_ImageIdentity : string;
  re_WorkloadIdentity : string; re_Runtime : string; re_ObservedAt : time; re_ValidUntil : time;
  re_Result : VerificationFactState }.

Definition NewSeccompRuntimeEvidenceFact (fresh : Z) (in_ : SeccompRuntimeEvidence) : result ResolvedVerificationFact :=
  attempt ← NewResolutionAttemptIdentity (re_AttemptID in_);
  digest ← NewDigest (re_Digest in_);
  validity ← NewValidity fresh (re_ObservedAt in_) (Some (re_ValidUntil in_)) 0;
  scope ← NewScope [mkDimension ScopeWorkload ScopeCovers; mkDimension ScopeImageContext ScopeCovers;
                    mkDimension ScopeArchitectureABI ScopeCoverageUnknown] (re_WorkloadIdentity in_) (re_Runtime in_);
  context ← NewSecurityContextIdentity (mkContext (re_ImageIdentity in_) "unknown" "unknown" (re_Runtime in_) "" "" "" "" "" "" ""
               (re_WorkloadIdentity in_) "/seccomp-verifier-probe#linux-seccomp-getpriority-v1");
  verifier ← NewSeccompRuntimeVerifier (re_Version in_) digest;
  provenance ← NewProvenanceRecord "landlock-genprof" "fixed-twin-pod-getpriority" (re_Version in_) (re_AttemptID in_) scope
                 validity RevocationUnknown verifier;
  revocationResult ← newCurrentRevocationResult attempt (re_Subject in_) "no-revocation-source" RevocationUnknown provenance validity;
  revocation ← DeriveCurrentRevocationFact revocationResult;
  execution ← newVerificationExecutionResult attempt (re_Subject in_) (v_id verifier) "seccomp.getpriority.eperm-in-twin-pod"
                scope context validity revocation provenance (re_Result in_);
  DeriveVerificationFact execution.

(** ** What deduplication keeps *)

(** [out] is a part of [facts], in order, without two facts of one identity, and
    every fact given has a representative of its identity that does not conflict
    with it. *)
Record represents {F} (key : F → string) (conflict : F → F → bool) (facts out : list F) : Prop := mkRepresents {
  represents_sub : out `sublist_of` facts;
  represents_once : NoDup (key <$> out);
  represents_all : ∀ f, f ∈ facts → f ∈ out ∨ ∃ o, o ∈ out ∧ key o = key f ∧ conflict o f = false }.

Lemma dedup_facts_aux {F} (key : F → string) conflict msg facts : ∀ seen out,
  (∀ k o, seen !! k = Some o → key o = k) → dedup_facts key conflict msg seen facts = Ok out →
  out `sublist_of` facts ∧ NoDup (key <$> out) ∧ (∀ o, o ∈ out → seen !! key o = None) ∧
  ∀ f, f ∈ facts → f ∈ out ∨ ∃ o, (o ∈ out ∨ seen !! key o = Some o) ∧ key o = key f ∧ conflict o f = false.
Proof.
  induction facts as [|f facts IH]; intros seen out Hseen; cbn [dedup_facts].
  { intros [= <-]. split_and!; [constructor|constructor|by intros ? []%elem_of_nil|by intros ? []%elem_of_nil]. }
  destruct (seen !! key f) as [o|] eqn:Es; intros H.
  - apply result_guard_Ok in H as [Hc H]. destruct (IH _ _ Hseen H) as (Hsub & Hnd & Hout & Hall).
    split_and!; [by constructor|done..|]. intros g [->|Hg]%elem_of_cons; [|by apply Hall].
    right. exists o. pose proof (Hseen _ _ Es) as Hk. split_and!; [right; congruence|done..].
  - apply result_bind_Ok in H as (rest & H & [= <-]).
    assert (∀ k o, <[key f:=f]> seen !! k = Some o → key o = k) as Hseen'.
    { intros k o [[<- <-]|[_ Hk]]%lookup_insert_Some; [done|by apply Hseen]. }
    destruct (IH _ _ Hseen' H) as (Hsub & Hnd & Hout & Hall).
    assert (∀ o, o ∈ rest → key f ≠ key o ∧ seen !! key o = None) as Hnew.
    { intros o Ho. specialize (Hout o Ho). by apply lookup_insert_None in Hout as [??]. }
    split_and!; [by constructor| | |].
    + rewrite fmap_cons. constructor; [|done]. intros (o & Heq & Ho)%list_elem_of_fmap_1. by destruct (Hnew o Ho).
    + intros o [->|Ho]%elem_of_cons; [done|by apply Hnew].
    + intros g [->|Hg]%elem_of_cons; [by left; left|].
      destruct (Hall g Hg) as [?|(o & Ho & Hk & Hc)]; [left; by right|].
      right. exists o. split_and!; [|done..]. destruct Ho as [?|[[_ <-]|[_ ?]]%lookup_insert_Some];
        [left; by right|left; left|by right].
Qed.

Lemma dedup_facts_represents {F} (key : F → string) conflict msg facts out :
  dedup_facts key conflict msg ∅ facts = Ok out → represents key conflict facts out.
Proof.
  intros H. apply dedup_facts_aux in H as (Hsub & Hnd & _ & Hall); [|by intros k o; rewrite lookup_empty].
  split; [done..|]. intros f Hf. destruct (Hall f Hf) as [?|(o & [Ho|Ho] & ?)]; [by left|right; by exists o|].
  by rewrite lookup_empty in Ho.
Qed.

(** Facts without a common identity are all kept. *)
Lemma dedup_facts_distinct {F} (key : F → string) conflict msg facts : ∀ seen,
  NoDup (key <$> facts) → (∀ f, f ∈ facts → seen !! key f = None) → dedup_facts key conflict msg seen facts = Ok facts.
Proof.
  induction facts as [|f facts IH]; intros seen Hnd Hseen; cbn [dedup_facts]; [done|].
  rewrite (Hseen f (list_elem_of_here _ _)). apply NoDup_cons in Hnd as [Hf Hnd].
  rewrite IH; [done|done|]. intros g Hg. rewrite lookup_insert_ne; [by apply Hseen; right|].
  intros Heq. apply Hf. rewrite Heq. by apply list_elem_of_fmap_2.
Qed.

(** A family of the snapshot, built from the facts given for it. *)
Record family_ok {F} (valid : F → bool) (attempt_of : F → ResolutionAttemptIdentity) (key : F → string) (conflict : F → F → bool)
  (a : ResolutionAttemptIdentity) (facts out : list F) : Prop := mkFamily {
  family_given : Forall (fun f => valid f = true ∧ attempt_of f = a) facts;
  family_held : Forall (fun f => valid f = true ∧ attempt_of f = a) out;
  family_represents : represents key conflict facts out;
  family_stable : dedup_facts key conflict "" ∅ out = Ok out }.

Lemma family_intro {F} valid attempt_of key (conflict : F → F → bool) msg a facts out :
  admissible valid attempt_of a facts = true → dedup_facts key conflict msg ∅ facts = Ok out →
  family_ok valid attempt_of key conflict a facts out.
Proof.
  intros Ha Hd%dedup_facts_represents.
  assert (Forall (fun f => valid f = true ∧ attempt_of f = a) facts) as Hall.
  { apply Forall_forall. intros f Hf%list_elem_of_In. unfold admissible in Ha. rewrite forallb_forall in Ha.
    specialize (Ha f Hf). apply andb_prop in Ha as [? ?%bool_decide_eq_true_1]. done. }
  split; [done| |done|].
  - eapply Forall_forall. intros f Hf. rewrite Forall_forall in Hall. apply Hall.
    eapply elem_of_submseteq; [done|by apply sublist_submseteq, (represents_sub _ _ _ _ Hd)].
  - apply dedup_facts_distinct; [by apply (represents_once _ _ _ _ Hd)|]. intros f _. apply lookup_empty.
Qed.

Section snapshot_theorem.
Context `{!GoSyntax SecurityContextIdentity, !GoSyntax Validity, !GoSyntax CurrentRevocationFact, !GoSyntax ProvenanceRecord,
          !GoSyntax VerifierSemanticIdentity, !GoSyntax CompatibilityFact, !GoSyntax CertificationFact}.

Definition differ {F S : Type} `{!EqDecision S} (state : F → S) (o f : F) : bool := negb (bool_decide (state o = state f)).

(** C26: A snapshot is well formed: of the attempt it is built for, and in each
    family every fact is valid and of that attempt, no identity occurs twice,
    and every fact given is represented by one of its identity that agrees with
    it, so that nothing is lost and nothing is invented; deduplicating again
    changes nothing. *)
Theorem NewEvaluationFactSnapshotAll_well_formed a t r v c k cm ad ce s :
  NewEvaluationFactSnapshotAll a t r v c k cm ad ce = Ok s →
  EvaluationFactSnapshot_Valid s = true ∧ sn_attempt s = a ∧
  family_ok TrustFact_Valid tf_attempt trust_key (differ tf_state) a t (sn_trusts s) ∧
  family_ok CurrentRevocationFact_Valid rv_attempt revocation_key (differ rv_state) a r (sn_revocations s) ∧
  family_ok ResolvedVerificationFact_Valid vr_attempt verification_key (differ vr_state) a v (sn_verifications s) ∧
  family_ok CompatibilityFact_Valid cf_attempt compatibilityIdentity
    (fun o f => differ cf_state o f || differ sharp o f) a c (sn_compatibilities s) ∧
  family_ok CoverageFact_Valid cv_attempt coverage_key (differ cv_state) a k (sn_coverages s) ∧
  family_ok CompletenessFact_Valid cl_attempt completeness_key (differ cl_class) a cm (sn_completeness s) ∧
  family_ok AdequacyFact_Valid ad_attempt adequacy_key (differ ad_class) a ad (sn_adequacies s) ∧
  family_ok CertificationFact_Valid ct_attempt certification_key (differ sharp) a ce (sn_certifications s).
Proof.
  unfold NewEvaluationFactSnapshotAll. intros H.
  do 9 (apply result_guard_Ok in H as [?Hg%negb_false_iff H]).
  do 8 (apply result_bind_Ok in H as (? & ?Hd & H)). injection H as <-.
  split_and!; [done|done|..]; (eapply family_intro; [done|eassumption]).
Qed.
End snapshot_theorem.

Module Sim.
#[local] Instance any_syntax {A} : GoSyntax A := fun _ => "".

Definition validity : Validity := mkValidity 1 None 0.
Definition scope : Scope := mkScope [mkDimension ScopeWorkload ScopeCovers] "t" "c".
Definition context : SecurityContextIdentity := mkContext "i" "amd64" "sysv" "runc" "" "" "" "" "" "" "" "w" "x".
Definition verifier : VerifierSemanticIdentity := mkVerifier "v" "1" ("sha256:" +:+ join "" (replicate 64 "a")) "c" "i" "o" "p" "x" [].
Definition provenance : ProvenanceRecord := mkProvenance "o" "c" "1" "r" scope validity RevocationNotRevoked verifier.
Definition revocation : CurrentRevocationFact := mkRevocation "a" "s" "crl" RevocationNotRevoked provenance validity.
Definition fact (state : TrustState) : TrustFact := mkTrustFact "a" "s" "p" "root" scope context validity revocation provenance state.

Lemma NewEvaluationFactSnapshotAll_well_formed_witness :
  sn_trusts <$> (match NewEvaluationFactSnapshotAll "a" [fact Trusted; fact Trusted] [revocation] [] [] [] [] [] [] with
                 | Ok s => Some s | Err _ => None end) = Some [fact Trusted] ∧
  ∃ s, family_ok TrustFact_Valid tf_attempt trust_key (differ tf_state) "a" [fact Trusted; fact Trusted] (sn_trusts s).
Proof.
  split; [vm_compute; reflexivity|]. eexists.
  apply (NewEvaluationFactSnapshotAll_well_formed "a" [fact Trusted; fact Trusted] [revocation] [] [] [] [] [] []).
  vm_compute. reflexivity.
Defined.

Example conflicting_facts :
  is_ok (NewEvaluationFactSnapshotAll "a" [fact Trusted; fact TrustUnknown] [] [] [] [] [] [] []) = false.
Proof. vm_compute. reflexivity. Qed.
End Sim.
