(* ===== verification/Decimal.v ===== *)
(** * Decimal integers

    What [strconv] writes and reads, related: the digits of a number have its
    value and no leading zero, and are the only such digits. *)
From S2P Require Import Prelude GoStd Json.

(** The value of decimal digits, after those read so far. *)
Fixpoint decimal_value (acc : Z) (s : string) : option Z :=
  match s with
  | EmptyString => Some acc
  | String a s => if byte_in 48 57 a then decimal_value (acc * 10 + (byte_of a - 48)) s else None
  end.

Definition leading_zero (s : string) : bool :=
  match s with String "0" (String _ _) => true | _ => false end.

Lemma digit_byte a : byte_in 48 57 a = true → (0 <= byte_of a - 48 < 10)%Z ∧ digit (byte_of a - 48) = a.
Proof. destruct a as [[] [] [] [] [] [] [] []]; vm_compute; intros H; try discriminate H; repeat split; discriminate. Qed.
Lemma byte_digit d : (0 <= d < 10)%Z → byte_in 48 57 (digit d) = true ∧ (byte_of (digit d) - 48)%Z = d.
Proof.
  intros Hd. assert (d = 0 ∨ d = 1 ∨ d = 2 ∨ d = 3 ∨ d = 4 ∨ d = 5 ∨ d = 6 ∨ d = 7 ∨ d = 8 ∨ d = 9)%Z as Hc by lia.
  by repeat destruct Hc as [-> | Hc]; [..|subst].
Qed.

Lemma decimal_value_app s : ∀ acc t, decimal_value acc (s +:+ t) =
  match decimal_value acc s with Some v => decimal_value v t | None => None end.
Proof. induction s as [|a s IH]; intros acc t; [done|]. str_simpl. cbn [decimal_value]. destruct (byte_in 48 57 a); [apply IH|done]. Qed.

Definition pow10 (s : string) : Z := 10 ^ Z.of_nat (String.length s).
Lemma pow10_cons a s : pow10 (String a s) = (10 * pow10 s)%Z.
Proof. unfold pow10. cbn [String.length]. rewrite Nat2Z.inj_succ, Z.pow_succ_r by lia. done. Qed.
Lemma pow10_pos s : (0 < pow10 s)%Z.
Proof. unfold pow10. apply Z.pow_pos_nonneg; lia. Qed.

Lemma decimal_value_bounds s : ∀ acc v, decimal_value acc s = Some v → (acc * pow10 s <= v < (acc + 1) * pow10 s)%Z.
Proof.
  induction s as [|a s IH]; intros acc v; cbn [decimal_value].
  { intros [= ->]. change (pow10 "") with 1%Z. lia. }
  destruct (byte_in 48 57 a) eqn:Ea; [|done]. intros Hv%IH. apply digit_byte in Ea as [Ha _].
  rewrite pow10_cons. pose proof (pow10_pos s). nia.
Qed.

Lemma decimal_value_inj s : ∀ t acc v, String.length s = String.length t →
  decimal_value acc s = Some v → decimal_value acc t = Some v → s = t.
Proof.
  induction s as [|a s IH]; intros [|b t] acc v Hl; try done. injection Hl as Hl. cbn [decimal_value].
  destruct (byte_in 48 57 a) eqn:Ea; [|done]. destruct (byte_in 48 57 b) eqn:Eb; [|done]. intros Hs Ht.
  apply digit_byte in Ea as [Ha Ea], Eb as [Hb Eb].
  pose proof (decimal_value_bounds _ _ _ Hs) as Bs. pose proof (decimal_value_bounds _ _ _ Ht) as Bt.
  assert (pow10 t = pow10 s) as Hp by (unfold pow10; by rewrite Hl). rewrite Hp in Bt. pose proof (pow10_pos s).
  assert (byte_of a - 48 = byte_of b - 48)%Z as E by nia. rewrite <-Ea, <-Eb, E. f_equal.
  eapply IH; [done|exact Hs|]. by rewrite E.
Qed.

(** Digits without a leading zero are determined by their value. *)
Lemma decimal_shorter s t v : s ≠ "" → leading_zero t = false → decimal_value 0 s = Some v → decimal_value 0 t = Some v →
  ¬ String.length s < String.length t.
Proof.
  intros Hs Ht Vs Vt Hl. apply decimal_value_bounds in Vs. destruct t as [|b t]; [cbn in Hl; lia|].
  assert (t ≠ "") as Ht' by (intros ->; destruct s; cbn in Hl; [done|lia]).
  cbn [decimal_value] in Vt. destruct (byte_in 48 57 b) eqn:Eb; [|done]. apply digit_byte in Eb as [Hb Eb].
  apply decimal_value_bounds in Vt.
  assert (byte_of b - 48 ≠ 0)%Z as Hz.
  { intros E. rewrite E in Eb. subst b. destruct t; [done|]. cbn in Ht. done. }
  assert (pow10 s <= pow10 t)%Z.
  { unfold pow10. apply Z.pow_le_mono_r; [lia|]. cbn in Hl. lia. }
  pose proof (pow10_pos t). nia.
Qed.
Lemma decimal_unique s t v : s ≠ "" → t ≠ "" → leading_zero s = false → leading_zero t = false →
  decimal_value 0 s = Some v → decimal_value 0 t = Some v → s = t.
Proof.
  intros. assert (¬ String.length s < String.length t) by by eapply decimal_shorter.
  assert (¬ String.length t < String.length s) by by eapply decimal_shorter. eapply decimal_value_inj; [lia|done..].
Qed.

(** ** itoa *)
Lemma decimal_go_spec k : ∀ n acc, (0 <= n < 10 ^ Z.of_nat k)%Z → 0 < k →
  ∃ d, decimal_go k n acc = d +:+ acc ∧ d ≠ "" ∧ leading_zero (d +:+ acc) = bool_decide (n = 0 ∧ acc ≠ "")%Z ∧ decimal_value 0 d = Some n.
Proof.
  induction k as [|k IH]; intros n acc Hn Hk; [lia|]. cbn [decimal_go].
  assert (0 <= n mod 10 < 10)%Z as Hm by (apply Z.mod_pos_bound; lia). destruct (byte_digit _ Hm) as [Hb Hd].
  destruct (Z.ltb_spec n 10) as [Hlt|Hge].
  - exists (String (digit (n mod 10)) ""). split; [done|]. split; [done|]. rewrite Z.mod_small in * by lia. split.
    + assert (n = 0 ∨ n = 1 ∨ n = 2 ∨ n = 3 ∨ n = 4 ∨ n = 5 ∨ n = 6 ∨ n = 7 ∨ n = 8 ∨ n = 9)%Z as Hc by lia.
      destruct acc; repeat destruct Hc as [-> | Hc]; subst; case_bool_decide; naive_solver.
    + cbn [decimal_value]. rewrite Hb. f_equal. lia.
  - rewrite Nat2Z.inj_succ, Z.pow_succ_r in Hn by lia.
    assert (0 <= n / 10 < 10 ^ Z.of_nat k)%Z as Hq by (split; [apply Z.div_pos; lia|apply Z.div_lt_upper_bound; lia]).
    assert (0 < k) as Hk' by (destruct k; [cbn in Hq; assert (1 <= n / 10)%Z by (apply Z.div_le_lower_bound; lia); lia|lia]).
    destruct (IH (n / 10)%Z (String (digit (n mod 10)) acc) Hq Hk') as (d & -> & Hne & Hz & Hv).
    exists (d +:+ String (digit (n mod 10)) ""). rewrite str_app_assoc. str_simpl. split; [done|]. split; [by destruct d|]. split.
    + rewrite Hz. assert (1 <= n / 10)%Z by (apply Z.div_le_lower_bound; lia). rewrite !bool_decide_eq_false_2; [done|naive_solver lia|naive_solver lia].
    + rewrite decimal_value_app, Hv. cbn [decimal_value]. rewrite Hb, Hd. f_equal. pose proof (Z.div_mod n 10). lia.
Qed.

(** The digits of a number are not empty, have no leading zero and its value. *)
Lemma itoa_spec n : (0 <= n)%Z → itoa n ≠ "" ∧ leading_zero (itoa n) = false ∧ decimal_value 0 (itoa n) = Some n.
Proof.
  intros Hn. unfold itoa. destruct (Z.ltb_spec n 0); [lia|]. rewrite Z.abs_eq by done.
  set (k := S (Z.to_nat (Z.log2 n + 1))).
  assert (n < 10 ^ Z.of_nat k)%Z as Hk.
  { pose proof (Z.log2_nonneg n). destruct (Z.eq_dec n 0) as [->|Hne]; [apply Z.pow_pos_nonneg; lia|].
    pose proof (Z.log2_spec n ltac:(lia)) as [_ Hlog].
    assert (2 ^ Z.succ (Z.log2 n) <= 10 ^ Z.succ (Z.log2 n))%Z by (apply Z.pow_le_mono_l; lia).
    assert (10 ^ Z.succ (Z.log2 n) <= 10 ^ Z.of_nat k)%Z by (apply Z.pow_le_mono_r; lia). lia. }
  destruct (decimal_go_spec k n "" ltac:(lia) ltac:(lia)) as (d & E & Hne & Hz & Hv). rewrite E, str_app_nil_r in *.
  split; [done|]. split; [|done]. rewrite Hz. apply bool_decide_eq_false_2. by intros [_ ?].
Qed.
Lemma itoa_of_value s n : s ≠ "" → leading_zero s = false → decimal_value 0 s = Some n → itoa n = s.
Proof.
  intros Hs Hz Hv. assert (0 <= n)%Z by (apply decimal_value_bounds in Hv; lia).
  destruct (itoa_spec n) as (? & ? & ?); [done|]. by eapply decimal_unique.
Qed.
Lemma itoa_inj n m : (0 <= n)%Z → (0 <= m)%Z → itoa n = itoa m → n = m.
Proof. intros Hn%itoa_spec Hm%itoa_spec E. rewrite E in Hn. destruct Hn as (_ & _ & Hn), Hm as (_ & _ & Hm). congruence. Qed.

(** Digits have no other byte. *)
Lemma decimal_plain c s : byte_in 48 57 c = false → ∀ acc v, decimal_value acc s = Some v → has_byte c s = false.
Proof.
  intros Hc. induction s as [|a s IH]; intros acc v; cbn; [done|]. destruct (byte_in 48 57 a) eqn:Ea; [|done].
  intros Hv. rewrite (IH _ _ Hv). rewrite bool_decide_eq_false_2; [done|congruence].
Qed.
