(* ===== verification/Compatibility.v ===== *)
(** * internal/authority/compatibility.go

    The compatibility predicates over scalar, set and map operands, version
    comparison included, and the fact derived from an evaluation. A Go map is
    traversed in an order the runtime chooses: the traversal of [evalMapContains]
    is an argument. *)
From S2P Require Import Prelude GoStd Identity Digest Json AuthorityDomain AuthorityFacts Decimal.

Abbreviation CompatibilitySchema := string.
Definition CompatibilityRuleV1 : CompatibilitySchema := "compatibility-rule.v1".
Definition CompatibilityRuleV2 : CompatibilitySchema := "compatibility-rule.v2".

Inductive CompatibilityOutcome :=
  CompatibilityResultInvalid | CompatibilityResultCompatible | CompatibilityResultIncompatible | CompatibilityResultUnknown
| CompatibilityResultNotApplicable.
#[export] Instance CompatibilityOutcome_eq_dec : EqDecision CompatibilityOutcome.
Proof. solve_decision. Defined.

(** ** Operands *)
Record TypedSet := mkTypedSet { ts_values : gset string; ts_unknown : bool; ts_valid : bool }.
Fixpoint set_members (seen : gset string) (values : list string) : result (gset string) :=
  match values with
  | [] => Ok seen
  | v :: values =>
      fail_if negb (nonempty v) with mkError "" "invalid set member";
      fail_if bool_decide (v ∈ seen) with mkError "" "duplicate set member";
      set_members ({[ v ]} ∪ seen) values
  end.
Definition NewTypedSet (values : list string) (unknown : bool) : result TypedSet :=
  m ← set_members ∅ values; Ok (mkTypedSet m unknown true).

Record TypedMapValue := mkMapValue { mv_Value : string; mv_Unknown : bool }.
#[export] Instance TypedMapValue_eq_dec : EqDecision TypedMapValue.
Proof. solve_decision. Defined.
Record TypedMap := mkTypedMap { tm_values : gmap string TypedMapValue; tm_unknown : bool; tm_valid : bool }.
Record RawMapEntry := mkRawEntry { me_Key : string; me_Value : TypedMapValue }.

Definition letter (a : ascii) : bool := byte_in 65 90 a || byte_in 97 122 a || bool_decide (a = "_"%char).
Definition validMapKey (k : string) : bool :=
  match k with
  | EmptyString => false
  | String a k => letter a && all_bytes (fun b => letter b || byte_in 48 57 b) k
  end.
Definition stringsIndexNUL (s : string) : bool := has_byte "000" s.
Definition map_entry_ok (kv : string * TypedMapValue) : bool :=
  validMapKey kv.1 && valid_utf8 (mv_Value kv.2) && negb (stringsIndexNUL (mv_Value kv.2)).
Definition NewTypedMap (values : gmap string TypedMapValue) (unknown : bool) : result TypedMap :=
  fail_if negb (forallb map_entry_ok (map_to_list values)) with mkError "" "invalid map entry";
  Ok (mkTypedMap values unknown true).
Fixpoint raw_entries (m : gmap string TypedMapValue) (entries : list RawMapEntry) : result (gmap string TypedMapValue) :=
  match entries with
  | [] => Ok m
  | e :: entries =>
      fail_if bool_decide (is_Some (m !! me_Key e)) with mkError "" "duplicate raw map key";
      raw_entries (<[me_Key e := me_Value e]> m) entries
  end.
Definition NewTypedMapEntries (entries : list RawMapEntry) (unknown : bool) : result TypedMap :=
  m ← raw_entries ∅ entries; NewTypedMap m unknown.

Record CompatibilityOperands := mkOperands { Scalar : string; ScalarKnown : bool; OpSet : TypedSet; OpMap : TypedMap }.

(** ** Versions *)
Definition dot : ascii := ".".
Definition version_byte (a : ascii) : bool := bool_decide (a = dot) || byte_in 48 57 a.
Definition validVersion (s : string) : bool :=
  nonempty s && negb (has_prefix "." s) && negb (has_suffix "." s) && all_bytes version_byte s &&
  forallb (fun p => negb ((1 <? String.length p) && has_prefix "0" p)) (split_on dot s).

(** Trailing zero components are dropped, down to one component. *)
Fixpoint drop_zeros_rev (p : list string) : list string :=
  match p with
  | [] => []
  | x :: rest => match rest with [] => p | _ => if bool_decide (x = "0") then drop_zeros_rev rest else p end
  end.
Definition normalizeVersion (s : string) : string := join "." (rev (drop_zeros_rev (rev (split_on dot s)))).

(** [strconv.Atoi], its error ignored: zero for what is not a number, the
    nearest bound for what does not fit in 64 bits. *)
Definition int64_max : Z := 9223372036854775807.
Definition atoi (s : string) : Z :=
  let '(negative, digits) := match s with
    | String "-" s => (true, s) | String "+" s => (false, s) | _ => (false, s) end in
  if bool_decide (digits = "") then 0
  else match decimal_value 0 digits with
       | None => 0
       | Some n => if negative then Z.max (- n) (- int64_max - 1) else Z.min n int64_max
       end.

(** The components from the [i]-th on, a missing one being zero. *)
Fixpoint cmp_from (n i : nat) (pa pb : list Z) : Z :=
  match n with
  | 0 => 0
  | S n =>
      let x := default 0%Z (pa !! i) in
      let y := default 0%Z (pb !! i) in
      if (x <? y)%Z then -1 else if (y <? x)%Z then 1 else cmp_from n (S i) pa pb
  end.
Definition components (s : string) : list Z := map atoi (split_on dot (normalizeVersion s)).
Definition versionCmp (a b : string) : Z :=
  let pa := components a in
  let pb := components b in
  cmp_from (length pa `max` length pb) 0 pa pb.
Definition inRange (v lo hi : string) (incLo incHi : bool) : bool :=
  let cl := versionCmp v lo in
  let ch := versionCmp v hi in
  (((0 <? cl) || (incLo && (cl =? 0))) && ((ch <? 0) || (incHi && (ch =? 0))))%Z.

(** [r[0]], [r[1:len(r)-1]] and [r[len(r)-1]]. *)
Definition range_parts (r : string) : option (ascii * string * ascii) :=
  match r with
  | String open rest => match str_rev rest with String close inner => Some (open, str_rev inner, close) | EmptyString => None end
  | EmptyString => None
  end.
Definition evalVersionRange (a b r : string) : result CompatibilityOutcome :=
  if String.length r <? 5 then failwith "invalid version range"
  else match range_parts r with
  | None => failwith "invalid version range"
  | Some (open, inner, close) =>
      fail_if (negb (bool_decide (open = "["%char)) && negb (bool_decide (open = "("%char))) ||
              (negb (bool_decide (close = "]"%char)) && negb (bool_decide (close = ")"%char)))
        with mkError "" "invalid version range";
      match split_on "," inner with
      | [lo; hi] =>
          fail_if negb (validVersion lo) || negb (validVersion hi) with mkError "" "invalid version range";
          let incLo := bool_decide (open = "["%char) in
          let incHi := bool_decide (close = "]"%char) in
          if negb (inRange a lo hi incLo incHi) || negb (inRange b lo hi incLo incHi)
          then Ok CompatibilityResultIncompatible else Ok CompatibilityResultCompatible
      | _ => failwith "invalid version range"
      end
  end.

(** ** Containment *)
Definition evalSetContains (a b : TypedSet) : result CompatibilityOutcome :=
  fail_if negb (ts_valid a) || negb (ts_valid b) with mkError "" "invalid set operand";
  if ts_unknown a || ts_unknown b then Ok CompatibilityResultUnknown
  else if bool_decide (ts_values a ⊆ ts_values b) then Ok CompatibilityResultCompatible
  else Ok CompatibilityResultIncompatible.

(** The loop over the entries of the candidate, in the order of the traversal. *)
Fixpoint contains_entries (entries : list (string * TypedMapValue)) (b : gmap string TypedMapValue) : CompatibilityOutcome :=
  match entries with
  | [] => CompatibilityResultCompatible
  | (k, v) :: entries =>
      match b !! k with
      | None => CompatibilityResultIncompatible
      | Some tv =>
          if mv_Unknown v || mv_Unknown tv then CompatibilityResultUnknown
          else if negb (bool_decide (mv_Value v = mv_Value tv)) then CompatibilityResultIncompatible
          else contains_entries entries b
      end
  end.

(** A traversal of a map: its entries, each once. *)
Definition traversal : Type := gmap string TypedMapValue → list (string * TypedMapValue).
Definition traverses (order : traversal) : Prop := ∀ m, order m ≡ₚ map_to_list m.

Definition evalMapContains (order : traversal) (a b : TypedMap) : result CompatibilityOutcome :=
  fail_if negb (tm_valid a) || negb (tm_valid b) with mkError "" "invalid map operand";
  if tm_unknown a || tm_unknown b then Ok CompatibilityResultUnknown
  else Ok (contains_entries (order (tm_values a)) (tm_values b)).

(** ** Evaluation *)
Definition all_known (candidate baseline expected : CompatibilityOperands) : bool :=
  ScalarKnown candidate && ScalarKnown baseline && ScalarKnown expected.
Definition both_equal (candidate baseline expected : string) : CompatibilityOutcome :=
  if bool_decide (candidate = baseline) && bool_decide (candidate = expected)
  then CompatibilityResultCompatible else CompatibilityResultIncompatible.

(** The switch on the predicate. *)
Definition predicate_outcome (order : traversal) (predicate : CompatibilityPredicate)
  (candidate baseline expected : CompatibilityOperands) : result CompatibilityOutcome :=
  match predicate with
  | CompatibilitySetContains => evalSetContains (OpSet candidate) (OpSet baseline)
  | CompatibilityMapContains => evalMapContains order (OpMap candidate) (OpMap baseline)
  | CompatibilitySetMembership =>
      if negb (ScalarKnown candidate) then Ok CompatibilityResultUnknown
      else
        fail_if negb (ts_valid (OpSet expected)) with mkError "" "invalid membership set";
        if bool_decide (Scalar candidate ∈ ts_values (OpSet expected)) then Ok CompatibilityResultCompatible
        else Ok CompatibilityResultIncompatible
  | CompatibilityExactEquality | CompatibilityArchitectureABI | CompatibilityDigestEquality =>
      if negb (all_known candidate baseline expected) then Ok CompatibilityResultUnknown
      else Ok (both_equal (Scalar candidate) (Scalar baseline) (Scalar expected))
  | CompatibilityExactVersion =>
      if negb (all_known candidate baseline expected) then Ok CompatibilityResultUnknown
      else
        fail_if negb (validVersion (Scalar candidate)) || negb (validVersion (Scalar baseline)) ||
                negb (validVersion (Scalar expected)) with mkError "" "invalid version";
        Ok (both_equal (normalizeVersion (Scalar candidate)) (normalizeVersion (Scalar baseline))
              (normalizeVersion (Scalar expected)))
  | CompatibilityVersionRange =>
      if negb (all_known candidate baseline expected) then Ok CompatibilityResultUnknown
      else evalVersionRange (Scalar candidate) (Scalar baseline) (Scalar expected)
  | CompatibilityInvalid => failwith "predicate requires domain-specific evaluator"
  end.

Definition EvaluateCompatibility (order : traversal) (schema : CompatibilitySchema) (predicate : CompatibilityPredicate)
  (candidate baseline expected : CompatibilityOperands) : result CompatibilityOutcome :=
  fail_if negb (bool_decide (schema = CompatibilityRuleV1)) && negb (bool_decide (schema = CompatibilityRuleV2))
    with mkError "" "unsupported compatibility schema";
  fail_if negb (CompatibilityPredicate_Valid predicate) with mkError "" "unknown compatibility predicate";
  fail_if bool_decide (schema = CompatibilityRuleV1) && containment predicate with mkError "" "containment is V2-only";
  fail_if containment predicate && (ScalarKnown expected || ts_valid (OpSet expected) || tm_valid (OpMap expected))
    with mkError "" "containment has no expected operand";
  predicate_outcome order predicate candidate baseline expected.

(** ** The fact of an evaluation *)
Record CompatibilityEvaluationResult := mkEvaluation {
  ev_attempt : ResolutionAttemptIdentity; ev_schema : string; ev_predicate : string; ev_field : string;
  ev_candidate : string; ev_baseline : string; ev_requirement : string; ev_authority : string; ev_subject : string;
  ev_backend : string; ev_context : string; ev_scope : Scope; ev_validity : Validity;
  ev_revocation : CurrentRevocationFact; ev_provenance : ProvenanceRecord; ev_outcome : CompatibilityOutcome }.
Definition CompatibilityEvaluationResult_Valid (r : CompatibilityEvaluationResult) : bool :=
  Attempt_Valid (ev_attempt r) && nonempty (ev_schema r) && nonempty (ev_predicate r) && nonempty (ev_field r) &&
  nonempty (ev_candidate r) && nonempty (ev_baseline r) && nonempty (ev_requirement r) && nonempty (ev_authority r) &&
  nonempty (ev_subject r) && nonempty (ev_backend r) && nonempty (ev_context r) && Scope_Valid (ev_scope r) &&
  validPredicateValidity (ev_validity r) && revocation_of (ev_attempt r) (ev_revocation r) &&
  ProvenanceRecord_Valid (ev_provenance r).
Definition DeriveCompatibilityFact (r : CompatibilityEvaluationResult) : result CompatibilityFact :=
  fail_if negb (CompatibilityEvaluationResult_Valid r) || bool_decide (ev_outcome r = CompatibilityResultInvalid)
    with mkError "" "invalid compatibility evaluation result";
  state ← match ev_outcome r with
          | CompatibilityResultCompatible => Ok CompatibilityCompatible
          | CompatibilityResultIncompatible => Ok CompatibilityIncompatible
          | CompatibilityResultUnknown => Ok CompatibilityUnknown
          | _ => failwith "non-applicable compatibility result"
          end;
  Ok (mkCompatibility (ev_attempt r) (ev_schema r) (ev_predicate r) (ev_field r) (ev_candidate r) (ev_baseline r)
        (ev_requirement r) (ev_authority r) (ev_subject r) (ev_backend r) (ev_context r) (ev_scope r) (ev_validity r)
        (ev_revocation r) (ev_provenance r) state).

(** ** Versions are compared as sequences of numbers *)
Definition numbers (s : string) : list Z := map atoi (split_on dot s).
Definition number_at (s : string) (i : nat) : Z := default 0%Z (numbers s !! i).

(** The first difference decides; a missing component is zero. *)
Definition version_lt (a b : string) : Prop :=
  ∃ i, (∀ j, j < i → number_at a j = number_at b j) ∧ (number_at a i < number_at b i)%Z.
Definition version_eq (a b : string) : Prop := ∀ i, number_at a i = number_at b i.

Lemma drop_zeros_split l : ∃ zs, Forall (eq "0") zs ∧ l = zs ++ drop_zeros_rev l.
Proof.
  induction l as [|x l (zs & Hz & IH)]; [by exists []|]. cbn [drop_zeros_rev]. destruct l as [|y l]; [by exists []|].
  case_bool_decide as E; [|by exists []]. exists ("0" :: zs). split; [by constructor|]. subst. cbn [app]. by rewrite <-IH.
Qed.

Lemma drop_zeros_nonempty l : l ≠ [] → drop_zeros_rev l ≠ [].
Proof.
  induction l as [|x l IH]; [done|]. intros _. cbn [drop_zeros_rev]. destruct l as [|y l]; [done|].
  case_bool_decide; [by apply IH|done].
Qed.

Lemma rev_nonempty {A} (l : list A) : l ≠ [] → rev l ≠ [].
Proof. intros Hl E. apply Hl. apply length_zero_iff_nil. by rewrite <-length_rev, E. Qed.

(** Normalisation only drops components "0". *)
Lemma normalized_parts s : ∃ zs, Forall (eq "0") zs ∧ split_on dot s = split_on dot (normalizeVersion s) ++ zs.
Proof.
  destruct (drop_zeros_split (rev (split_on dot s))) as (zs & Hz & E). exists (rev zs). split; [by apply Forall_rev|].
  assert (split_on dot s = rev (drop_zeros_rev (rev (split_on dot s))) ++ rev zs) as Hs.
  { rewrite <-(rev_involutive (split_on dot s)) at 1. rewrite E at 1. by rewrite rev_app_distr. }
  unfold normalizeVersion. change "." with (String dot ""). rewrite split_on_join; [done| |].
  - apply rev_nonempty, drop_zeros_nonempty, rev_nonempty, split_on_nonnil.
  - pose proof (split_on_parts dot s) as Hp. rewrite Hs in Hp. by apply Forall_app in Hp as [Hp _].
Qed.

Lemma components_at s i : default 0%Z (components s !! i) = number_at s i.
Proof.
  unfold number_at, numbers, components. destruct (normalized_parts s) as (zs & Hz & ->). rewrite map_app.
  destruct (decide (i < length (split_on dot (normalizeVersion s)))) as [Hi|Hi].
  - rewrite lookup_app_l; [done|by rewrite length_map].
  - rewrite lookup_ge_None_2 by (rewrite length_map; lia). rewrite lookup_app_r by (rewrite length_map; lia).
    cbn [default]. destruct (map atoi zs !! _) as [z|] eqn:E; [|done]. apply list_elem_of_lookup_2, list_elem_of_In, in_map_iff in E as (p & <- & Hp).
    apply list_elem_of_In in Hp. rewrite Forall_forall in Hz. by rewrite <-(Hz p Hp).
Qed.

Lemma cmp_from_spec n i pa pb :
  let at_ l j := default 0%Z (l !! j) in
  (cmp_from n i pa pb = 0%Z ∧ ∀ j, i ≤ j < i + n → at_ pa j = at_ pb j) ∨
  (∃ k, i ≤ k ∧ (∀ j, i ≤ j < k → at_ pa j = at_ pb j) ∧
    ((cmp_from n i pa pb = (-1)%Z ∧ (at_ pa k < at_ pb k)%Z) ∨ (cmp_from n i pa pb = 1%Z ∧ (at_ pb k < at_ pa k)%Z))).
Proof.
  intros at_. revert i. induction n as [|n IH]; intros i; cbn [cmp_from]; [left; split; [done|lia]|]. fold (at_ pa i) (at_ pb i).
  destruct (Z.ltb_spec (at_ pa i) (at_ pb i)); [right; exists i; repeat split; [lia|lia|by left]|].
  destruct (Z.ltb_spec (at_ pb i) (at_ pa i)); [right; exists i; repeat split; [lia|lia|by right]|].
  assert (at_ pa i = at_ pb i) as Ei by lia.
  assert (∀ j k, (∀ j, S i ≤ j < k → at_ pa j = at_ pb j) → i ≤ j < k → at_ pa j = at_ pb j) as Hext.
  { intros j k Hk Hj. destruct (decide (j = i)) as [->|]; [done|apply Hk; lia]. }
  destruct (IH (S i)) as [[Hc He]|(k & Hk & He & Hc)]; [left|right].
  - split; [done|]. intros j Hj. apply (Hext j (S i + n)); [done|lia].
  - exists k. split; [lia|]. split; [|done]. intros j Hj. by apply (Hext j k).
Qed.

Lemma versionCmp_cases a b :
  (versionCmp a b = 0%Z ∧ version_eq a b) ∨ (versionCmp a b = (-1)%Z ∧ version_lt a b) ∨
  (versionCmp a b = 1%Z ∧ version_lt b a).
Proof.
  unfold versionCmp. destruct (cmp_from_spec (length (components a) `max` length (components b)) 0 (components a) (components b))
    as [[-> He]|(k & _ & He & Hc)].
  - left. split; [done|]. intros i. rewrite <-!components_at.
    destruct (decide (i < length (components a) `max` length (components b))) as [Hi|Hi]; [apply He; lia|].
    by rewrite !lookup_ge_None_2 by lia.
  - right. destruct Hc as [[-> Hc]|[-> Hc]]; [left|right]; (split; [done|]); exists k; rewrite <-!components_at;
      (split; [|done]); intros j Hj; rewrite <-!components_at; [|symmetry]; apply He; lia.
Qed.

Lemma version_lt_irrefl a b : version_lt a b → version_eq a b → False.
Proof. intros (i & _ & Hi) E. specialize (E i). lia. Qed.
Lemma version_lt_asym a b : version_lt a b → version_lt b a → False.
Proof.
  intros (i & Hi & Li) (j & Hj & Lj). destruct (decide (i < j)) as [H|H]; [specialize (Hj i H); lia|].
  destruct (decide (j < i)) as [H'|H']; [specialize (Hi j H'); lia|]. assert (i = j) as -> by lia. lia.
Qed.
Lemma version_eq_sym a b : version_eq a b → version_eq b a.
Proof. intros E i. by rewrite E. Qed.

Lemma versionCmp_lt a b : (versionCmp a b < 0)%Z ↔ version_lt a b.
Proof.
  destruct (versionCmp_cases a b) as [[-> E]|[[-> E]|[-> E]]]; (split; [try lia|]); try done.
  - intros H. by apply version_lt_irrefl in H.
  - intros H. by destruct (version_lt_asym a b).
Qed.
Lemma versionCmp_gt a b : (0 < versionCmp a b)%Z ↔ version_lt b a.
Proof.
  destruct (versionCmp_cases a b) as [[-> E]|[[-> E]|[-> E]]]; (split; [try lia|]); try done.
  - intros H. by apply version_lt_irrefl in H; [|apply version_eq_sym].
  - intros H. by destruct (version_lt_asym a b).
Qed.
Lemma versionCmp_eq a b : versionCmp a b = 0%Z ↔ version_eq a b.
Proof.
  destruct (versionCmp_cases a b) as [[-> E]|[[-> E]|[-> E]]]; (split; [try lia|]); try done.
  - intros H. by apply version_lt_irrefl in E.
  - intros H. by apply version_lt_irrefl in E; [|apply version_eq_sym].
Qed.

(** A version is in a range when it is between its bounds, a bound counting when
    it is included. *)
Definition within (v lo hi : string) (incLo incHi : bool) : Prop :=
  (version_lt lo v ∨ (incLo = true ∧ version_eq v lo)) ∧ (version_lt v hi ∨ (incHi = true ∧ version_eq v hi)).

Lemma inRange_spec v lo hi incLo incHi : inRange v lo hi incLo incHi = true ↔ within v lo hi incLo incHi.
Proof.
  unfold inRange, within. rewrite andb_true_iff, !orb_true_iff, !andb_true_iff, !Z.ltb_lt, !Z.eqb_eq.
  by rewrite versionCmp_gt, versionCmp_lt, !versionCmp_eq.
Qed.

(** ** What compatible means *)
Definition range_text (lo hi : string) (incLo incHi : bool) : string :=
  (if incLo then "[" else "(") +:+ lo +:+ "," +:+ hi +:+ (if incHi then "]" else ")").

Definition compatible (predicate : CompatibilityPredicate) (candidate baseline expected : CompatibilityOperands) : Prop :=
  match predicate with
  | CompatibilitySetContains =>
      ts_valid (OpSet candidate) = true ∧ ts_valid (OpSet baseline) = true ∧ ts_unknown (OpSet candidate) = false ∧
      ts_unknown (OpSet baseline) = false ∧ ts_values (OpSet candidate) ⊆ ts_values (OpSet baseline)
  | CompatibilityMapContains =>
      tm_valid (OpMap candidate) = true ∧ tm_valid (OpMap baseline) = true ∧ tm_unknown (OpMap candidate) = false ∧
      tm_unknown (OpMap baseline) = false ∧
      ∀ k v, tm_values (OpMap candidate) !! k = Some v →
        ∃ tv, tm_values (OpMap baseline) !! k = Some tv ∧ mv_Unknown v = false ∧ mv_Unknown tv = false ∧ mv_Value v = mv_Value tv
  | CompatibilitySetMembership =>
      ScalarKnown candidate = true ∧ ts_valid (OpSet expected) = true ∧ Scalar candidate ∈ ts_values (OpSet expected)
  | CompatibilityExactEquality | CompatibilityArchitectureABI | CompatibilityDigestEquality =>
      all_known candidate baseline expected = true ∧ Scalar candidate = Scalar baseline ∧ Scalar candidate = Scalar expected
  | CompatibilityExactVersion =>
      all_known candidate baseline expected = true ∧ validVersion (Scalar candidate) = true ∧
      validVersion (Scalar baseline) = true ∧ validVersion (Scalar expected) = true ∧
      normalizeVersion (Scalar candidate) = normalizeVersion (Scalar baseline) ∧
      normalizeVersion (Scalar candidate) = normalizeVersion (Scalar expected)
  | CompatibilityVersionRange =>
      all_known candidate baseline expected = true ∧ ∃ lo hi incLo incHi,
        Scalar expected = range_text lo hi incLo incHi ∧ validVersion lo = true ∧ validVersion hi = true ∧
        within (Scalar candidate) lo hi incLo incHi ∧ within (Scalar baseline) lo hi incLo incHi
  | CompatibilityInvalid => False
  end.

(** The schema admits the predicate and its operands. *)
Definition admitted (schema : CompatibilitySchema) (predicate : CompatibilityPredicate) (expected : CompatibilityOperands) : Prop :=
  (schema = CompatibilityRuleV2 ∨ (schema = CompatibilityRuleV1 ∧ containment predicate = false)) ∧
  (containment predicate = true →
   ScalarKnown expected = false ∧ ts_valid (OpSet expected) = false ∧ tm_valid (OpMap expected) = false).

Lemma range_parts_spec r open inner close :
  range_parts r = Some (open, inner, close) ↔ r = String open (inner +:+ String close "").
Proof.
  unfold range_parts. destruct r as [|o rest]; [done|]. split.
  - destruct (str_rev rest) as [|c i] eqn:E; [done|]. intros [= <- <- <-].
    rewrite <-(str_rev_involutive rest), E. by rewrite str_rev_cons.
  - intros [= -> ->]. rewrite str_rev_append. change (str_rev (String close "")) with (String close ""). str_simpl.
    by rewrite str_rev_involutive.
Qed.

Lemma contains_entries_compatible entries b :
  contains_entries entries b = CompatibilityResultCompatible ↔
  ∀ k v, (k, v) ∈ entries → ∃ tv, b !! k = Some tv ∧ mv_Unknown v = false ∧ mv_Unknown tv = false ∧ mv_Value v = mv_Value tv.
Proof.
  induction entries as [|[k v] entries IH]; cbn [contains_entries].
  { split; [|done]. intros _ k v Hin. by apply not_elem_of_nil in Hin. }
  destruct (b !! k) as [tv|] eqn:Eb.
  2:{ split; [done|]. intros H. destruct (H k v) as (? & ? & _); [left|]. congruence. }
  destruct (mv_Unknown v || mv_Unknown tv) eqn:Eu.
  { split; [done|]. intros H. destruct (H k v) as (tv' & Et & Hv & Ht & _); [left|]. assert (tv' = tv) as -> by congruence.
    by rewrite Hv, Ht in Eu. }
  apply orb_false_iff in Eu as [Eu Et]. case_bool_decide as Ev; cbn [negb].
  - rewrite IH. split.
    + intros H k' v' [[= -> ->]|Hin]%elem_of_cons; [by exists tv|by apply H].
    + intros H k' v' Hin. apply H. by right.
  - split; [done|]. intros H. destruct (H k v) as (tv' & Et' & _ & _ & Hv); [left|]. congruence.
Qed.

Lemma traversal_elem order (m : gmap string TypedMapValue) k v : traverses order → (k, v) ∈ order m ↔ m !! k = Some v.
Proof. intros Ho. rewrite (Ho m). apply elem_of_map_to_list. Qed.

Lemma valid_version_text s : validVersion s = true → 0 < String.length s ∧ has_byte "," s = false.
Proof.
  unfold validVersion. rewrite !andb_true_iff. intros ((((Hn & _) & _) & Hb) & _). split.
  - unfold nonempty in Hn. destruct s; [done|cbn; lia].
  - clear Hn. induction s as [|a s IH]; [done|]. cbn in Hb |- *. apply andb_prop in Hb as [Ha Hb]. rewrite (IH Hb), orb_false_r.
    apply bool_decide_eq_false. intros ->. done.
Qed.

(** Comparisons of literal bytes, computed. *)
Ltac decide_bytes := repeat match goal with
  | |- context [bool_decide (?x = ?y :> ascii)] => let b := eval vm_compute in (bool_decide (x = y)) in change (bool_decide (x = y)) with b
  end.

Lemma evalVersionRange_spec a b r :
  evalVersionRange a b r = Ok CompatibilityResultCompatible ↔
  ∃ lo hi incLo incHi, r = range_text lo hi incLo incHi ∧ validVersion lo = true ∧ validVersion hi = true ∧
    within a lo hi incLo incHi ∧ within b lo hi incLo incHi.
Proof.
  unfold evalVersionRange. split.
  - destruct (String.length r <? 5); [done|]. destruct (range_parts r) as [[[open inner] close]|] eqn:Er; [|done].
    apply range_parts_spec in Er. intros [Hb H]%result_guard_Ok. apply orb_false_iff in Hb as [Ho Hc].
    destruct (split_on "," inner) as [|lo [|hi [|]]] eqn:Es; try done.
    apply result_guard_Ok in H as [Hv H]. apply orb_false_iff in Hv as [Hlo Hhi]. apply negb_false_iff in Hlo, Hhi.
    match type of H with (if ?c then _ else _) = _ => destruct c eqn:Ein; [done|] end.
    apply orb_false_iff in Ein as [Ha Hb']. apply negb_false_iff in Ha, Hb'. apply inRange_spec in Ha, Hb'.
    eexists lo, hi, _, _. split; [|done]. subst r. unfold range_text.
    rewrite <-(join_split "," inner), Es. change (join "," [lo; hi]) with (lo +:+ "," +:+ hi).
    repeat case_bool_decide; subst; try done; cbn; by rewrite !str_app_assoc.
  - intros (lo & hi & incLo & incHi & -> & Hlo & Hhi & Ha & Hb).
    destruct (valid_version_text lo Hlo) as [Llo Clo], (valid_version_text hi Hhi) as [Lhi Chi].
    assert (String.length (range_text lo hi incLo incHi) <? 5 = false) as ->.
    { apply Nat.ltb_ge. unfold range_text. rewrite !str_length_app. destruct incLo, incHi; cbn; lia. }
    assert (range_parts (range_text lo hi incLo incHi) =
      Some (if incLo then "["%char else "("%char, lo +:+ "," +:+ hi, if incHi then "]"%char else ")"%char)) as ->.
    { apply range_parts_spec. unfold range_text. destruct incLo, incHi; str_simpl; by rewrite !str_app_assoc. }
    change ("," +:+ hi) with (String "," hi). rewrite split_on_app, split_on_plain by done. rewrite Hlo, Hhi.
    apply inRange_spec in Ha, Hb. destruct incLo, incHi; decide_bytes; cbn [negb andb orb]; by rewrite Ha, Hb.
Qed.

Lemma both_equal_compatible a b c : both_equal a b c = CompatibilityResultCompatible ↔ a = b ∧ a = c.
Proof. unfold both_equal. by repeat case_bool_decide; naive_solver. Qed.

Lemma evalSetContains_compatible a b :
  evalSetContains a b = Ok CompatibilityResultCompatible ↔
  ts_valid a = true ∧ ts_valid b = true ∧ ts_unknown a = false ∧ ts_unknown b = false ∧ ts_values a ⊆ ts_values b.
Proof.
  unfold evalSetContains. rewrite result_guard_Ok, orb_false_iff, !negb_false_iff.
  destruct (ts_unknown a), (ts_unknown b); cbn [orb]; try naive_solver. case_bool_decide; naive_solver.
Qed.

Lemma evalMapContains_compatible order a b : traverses order →
  evalMapContains order a b = Ok CompatibilityResultCompatible ↔
  tm_valid a = true ∧ tm_valid b = true ∧ tm_unknown a = false ∧ tm_unknown b = false ∧
  ∀ k v, tm_values a !! k = Some v →
    ∃ tv, tm_values b !! k = Some tv ∧ mv_Unknown v = false ∧ mv_Unknown tv = false ∧ mv_Value v = mv_Value tv.
Proof.
  intros Ho. unfold evalMapContains. rewrite result_guard_Ok, orb_false_iff, !negb_false_iff.
  destruct (tm_unknown a), (tm_unknown b); cbn [orb]; try naive_solver.
  assert (∀ o, Ok o = Ok CompatibilityResultCompatible ↔ o = CompatibilityResultCompatible) as -> by naive_solver.
  rewrite contains_entries_compatible. setoid_rewrite (traversal_elem order (tm_values a)); [|done]. naive_solver.
Qed.

Lemma predicate_outcome_compatible order predicate candidate baseline expected : traverses order →
  predicate_outcome order predicate candidate baseline expected = Ok CompatibilityResultCompatible ↔
  compatible predicate candidate baseline expected.
Proof.
  intros Ho. assert (∀ o, Ok o = Ok CompatibilityResultCompatible ↔ o = CompatibilityResultCompatible) as HOk by naive_solver.
  destruct predicate; cbn [predicate_outcome compatible].
  - done.
  - destruct (all_known candidate baseline expected); cbn [negb]; rewrite HOk, ?both_equal_compatible; naive_solver.
  - destruct (ScalarKnown candidate); cbn [negb]; [|naive_solver]. rewrite result_guard_Ok, negb_false_iff.
    case_bool_decide; naive_solver.
  - destruct (all_known candidate baseline expected); cbn [negb]; [|naive_solver].
    rewrite result_guard_Ok, !orb_false_iff, !negb_false_iff, HOk, both_equal_compatible. naive_solver.
  - destruct (all_known candidate baseline expected); cbn [negb]; [|naive_solver]. rewrite evalVersionRange_spec. naive_solver.
  - destruct (all_known candidate baseline expected); cbn [negb]; rewrite HOk, ?both_equal_compatible; naive_solver.
  - destruct (all_known candidate baseline expected); cbn [negb]; rewrite HOk, ?both_equal_compatible; naive_solver.
  - apply evalSetContains_compatible.
  - by apply evalMapContains_compatible.
Qed.

(** An evaluation finds compatible exactly what is: for a schema that admits
    the predicate, whatever order a map is traversed in, the operands are known,
    well formed and satisfy the relation of the predicate; every other outcome,
    errors included, is given otherwise. *)
Theorem EvaluateCompatibility_compatible order schema predicate candidate baseline expected :
  traverses order →
  EvaluateCompatibility order schema predicate candidate baseline expected = Ok CompatibilityResultCompatible ↔
  admitted schema predicate expected ∧ compatible predicate candidate baseline expected.
Proof.
  intros Ho. unfold EvaluateCompatibility, admitted. rewrite !result_guard_Ok, predicate_outcome_compatible by done.
  rewrite !andb_false_iff, !orb_false_iff, !negb_false_iff, !bool_decide_eq_true, !bool_decide_eq_false.
  assert (schema = CompatibilityRuleV1 → schema ≠ CompatibilityRuleV2) as Hne by by intros ->.
  assert (compatible predicate candidate baseline expected → CompatibilityPredicate_Valid predicate = true) as Hp by by destruct predicate.
  destruct (containment predicate); naive_solver.
Qed.

(** ** Concrete evaluations *)
Module Sim.
Definition no_set : TypedSet := mkTypedSet ∅ false false.
Definition no_map : TypedMap := mkTypedMap ∅ false false.
Definition scalar (s : string) : CompatibilityOperands := mkOperands s true no_set no_map.
Definition mapping (entries : list (string * TypedMapValue)) : CompatibilityOperands :=
  mkOperands "" false no_set (mkTypedMap (list_to_map entries) false true).
Definition unset : CompatibilityOperands := mkOperands "" false no_set no_map.
Definition in_order : traversal := map_to_list.
Definition backwards : traversal := fun m => rev (map_to_list m).

Lemma EvaluateCompatibility_compatible_witness :
  traverses in_order ∧
  (EvaluateCompatibility in_order CompatibilityRuleV1 CompatibilityVersionRange (scalar "1.10.0") (scalar "1.9") (scalar "[1.2,2)")
     = Ok CompatibilityResultCompatible ↔
   admitted CompatibilityRuleV1 CompatibilityVersionRange (scalar "[1.2,2)") ∧
   compatible CompatibilityVersionRange (scalar "1.10.0") (scalar "1.9") (scalar "[1.2,2)")) ∧
  EvaluateCompatibility in_order CompatibilityRuleV1 CompatibilityVersionRange (scalar "1.10.0") (scalar "1.9") (scalar "[1.2,2)")
    = Ok CompatibilityResultCompatible.
Proof.
  assert (traverses in_order) as H by (intros m; reflexivity).
  split; [done|]. split; [exact (EvaluateCompatibility_compatible in_order _ _ _ _ _ H)|]. vm_compute. reflexivity.
Defined.

Example ranges :
  map (fun r => EvaluateCompatibility in_order CompatibilityRuleV1 CompatibilityVersionRange (scalar "2.0") (scalar "1.9") (scalar r))
    ["[1.2,2)"; "[1.2,2]"; "(1.9,3]"; "[1,2"; "[01,2]"] =
  [Ok CompatibilityResultIncompatible; Ok CompatibilityResultCompatible; Ok CompatibilityResultIncompatible;
   failwith "invalid version range"; failwith "invalid version range"].
Proof. vm_compute. reflexivity. Qed.

(** Two entries, one of unknown value and one that differs: the outcome depends
    on which is met first. *)
Definition value (s : string) : TypedMapValue := mkMapValue s false.
Definition unknown_value : TypedMapValue := mkMapValue "" true.
Definition one_differs : CompatibilityOperands := mapping [("a", unknown_value); ("b", value "1")].
Definition other : CompatibilityOperands := mapping [("a", value "0"); ("b", value "2")].
Definition outcome (order : traversal) : result CompatibilityOutcome :=
  EvaluateCompatibility order CompatibilityRuleV2 CompatibilityMapContains one_differs other unset.

Lemma map_containment_depends_on_order :
  traverses in_order ∧ traverses backwards ∧ outcome in_order ≠ outcome backwards ∧
  outcome in_order ∈ [Ok CompatibilityResultUnknown; Ok CompatibilityResultIncompatible] ∧
  outcome backwards ∈ [Ok CompatibilityResultUnknown; Ok CompatibilityResultIncompatible].
Proof.
  split; [intros m; reflexivity|]. split; [intros m; unfold backwards; by rewrite <-Permutation_rev|].
  split; [by vm_compute|]. split; apply (bool_decide_unpack _); vm_compute; exact I.
Qed.

(** The candidate of a range is not checked to be a version: text counts as
    zero. *)
Example not_a_version :
  EvaluateCompatibility in_order CompatibilityRuleV1 CompatibilityVersionRange (scalar "latest") (scalar "x.y") (scalar "[0,2)")
  = Ok CompatibilityResultCompatible.
Proof. vm_compute. reflexivity. Qed.
End Sim.
