(* ===== verification/AuthorityMatching.v ===== *)
(** * internal/authority/matching.go

    The match of one requirement against the facts of a snapshot, family by
    family, and the aggregation of compatibility outcomes. *)
From S2P Require Import Prelude GoStd Identity AuthorityDomain AuthorityFacts.
From S2P Require Import Compatibility.

Record CompatibilityRequirement := mkRequirement {
  q_Authority : string; q_Requirement : string; q_Field : string; q_Schema : CompatibilitySchema;
  q_Predicate : CompatibilityPredicate }.

Inductive FactFamily :=
  FamilyInvalid | FamilyTrust | FamilyVerification | FamilyRevocation | FamilyCompatibility | FamilyCoverage
| FamilyCompleteness | FamilyAdequacy | FamilyCertification.
#[export] Instance FactFamily_eq_dec : EqDecision FactFamily.
Proof. solve_decision. Defined.
#[export] Instance FactFamily_enum : Enum FactFamily := fun f =>
  match f with FamilyInvalid => 0 | FamilyTrust => 1 | FamilyVerification => 2 | FamilyRevocation => 3
  | FamilyCompatibility => 4 | FamilyCoverage => 5 | FamilyCompleteness => 6 | FamilyAdequacy => 7
  | FamilyCertification => 8 end%Z.

Record MatchRequest := mkMatchRequest {
  mq_Family : FactFamily; mq_Attempt : ResolutionAttemptIdentity; mq_Authority : string; mq_Requirement : string;
  mq_Subject : string; mq_Backend : string; mq_Context : string; mq_TypedContext : SecurityContextIdentity;
  mq_Scope : Scope; mq_At : time; mq_Policy : string; mq_Root : string; mq_Property : string; mq_Producer : string;
  mq_Source : string; mq_Candidate : string; mq_Baseline : string; mq_Schema : string; mq_Predicate : string;
  mq_Field : string; mq_RequiredCompletenessClass : CompletenessClass; mq_RequiredAdequacyClass : AdequacyClass;
  mq_CompatibilityRequirementRef : string; mq_Verifier : VerifierSemanticIdentity }.

(** ** The state a matching fact gives *)
Definition applicable (v : Validity) (at_ : time) : bool := bool_decide (CheckValidityAt v at_ = TemporalApplicable).
Definition not_revoked (r : CurrentRevocationFact) : bool := bool_decide (rv_state r = RevocationNotRevoked).

Definition trustMatchState (f : TrustFact) (at_ : time) : RequirementMatchOutcome :=
  if negb (applicable (tf_validity f) at_) then MatchUnknown
  else if negb (not_revoked (tf_revocation f)) then MatchUnknown
  else match tf_state f with Trusted => MatchSatisfied | Untrusted => MatchRefuted | _ => MatchUnknown end.
Definition verificationMatchState (f : ResolvedVerificationFact) (at_ : time) : RequirementMatchOutcome :=
  if negb (applicable (vr_validity f) at_) || negb (not_revoked (vr_revocation f)) then MatchUnknown
  else match vr_state f with
       | VerificationFactVerified => MatchSatisfied | VerificationFactFailed => MatchRefuted | _ => MatchUnknown end.
Definition revocationMatchState (f : CurrentRevocationFact) (at_ : time) : RequirementMatchOutcome :=
  if negb (applicable (rv_validUntil f) at_) then MatchUnknown
  else match rv_state f with
       | RevocationNotRevoked => MatchSatisfied | RevocationRevoked => MatchRefuted | _ => MatchUnknown end.
Definition applicableState (v : Validity) (r : CurrentRevocationFact) (at_ : time) (negative : bool) : RequirementMatchOutcome :=
  if negb (applicable v at_) || negb (not_revoked r) then MatchUnknown
  else if negative then MatchRefuted else MatchSatisfied.
Definition coverageMatchState (f : CoverageFact) (at_ : time) : RequirementMatchOutcome :=
  if applicable (cv_validity f) at_ && not_revoked (cv_revocation f) && bool_decide (cv_state f = ScopeCovers)
  then MatchSatisfied
  else if bool_decide (cv_state f = ScopeCoverageUnknown) then MatchUnknown else MatchRefuted.

(** ** Which facts match a request *)
Section request.
Variable req : MatchRequest.

Definition trust_matches (f : TrustFact) : bool :=
  bool_decide (tf_attempt f = mq_Attempt req) && bool_decide (tf_subject f = mq_Subject req) &&
  bool_decide (tf_policy f = mq_Policy req) && bool_decide (tf_root f = mq_Root req) &&
  bool_decide (tf_context f = mq_TypedContext req) && bool_decide (tf_scope f = mq_Scope req).
Definition verification_matches (f : ResolvedVerificationFact) : bool :=
  bool_decide (vr_attempt f = mq_Attempt req) && bool_decide (vr_subject f = mq_Subject req) &&
  bool_decide (vr_verifier f = mq_Producer req) && bool_decide (vr_property f = mq_Property req) &&
  bool_decide (vr_context f = mq_TypedContext req) && bool_decide (vr_scope f = mq_Scope req).
Definition revocation_matches (f : CurrentRevocationFact) : bool :=
  bool_decide (rv_attempt f = mq_Attempt req) && bool_decide (rv_subject f = mq_Subject req) &&
  bool_decide (rv_source f = mq_Source req).
Definition coverage_matches (f : CoverageFact) : bool :=
  bool_decide (cv_attempt f = mq_Attempt req) && bool_decide (cv_subject f = mq_Subject req) &&
  (negb (nonempty (mq_Backend req)) || bool_decide (cv_backend f = mq_Backend req)) &&
  (negb (nonempty (mq_Source req)) || bool_decide (cv_source f = mq_Source req)) &&
  validContext (mq_TypedContext req) && bool_decide (cv_context f = mq_TypedContext req) &&
  bool_decide (cv_scope f = mq_Scope req).
Definition completeness_matches (f : CompletenessFact) : bool :=
  bool_decide (cl_attempt f = mq_Attempt req) && bool_decide (cl_subject f = mq_Subject req) &&
  bool_decide (cl_class f = mq_RequiredCompletenessClass req) && bool_decide (cl_scope f = mq_Scope req).
Definition adequacy_matches (f : AdequacyFact) : bool :=
  bool_decide (ad_attempt f = mq_Attempt req) && bool_decide (ad_subject f = mq_Subject req) &&
  bool_decide (ad_class f = mq_RequiredAdequacyClass req) && bool_decide (ad_context f = mq_TypedContext req) &&
  bool_decide (ad_verifier f = mq_Verifier req) && bool_decide (ad_scope f = mq_Scope req).
Definition certification_matches (f : CertificationFact) : bool :=
  bool_decide (ct_attempt f = mq_Attempt req) && bool_decide (ct_subject f = mq_Subject req) &&
  bool_decide (ct_identity f = mq_Source req) && bool_decide (ct_property f = mq_Property req) &&
  bool_decide (ct_context f = mq_TypedContext req) && bool_decide (ct_verifier f = mq_Verifier req) &&
  bool_decide (ct_scope f = mq_Scope req).
(** The reference falls back on the requirement itself. *)
Definition requirement_ref : string :=
  if nonempty (mq_CompatibilityRequirementRef req) then mq_CompatibilityRequirementRef req else mq_Requirement req.
Definition compatibility_matches (f : CompatibilityFact) : bool :=
  bool_decide (cf_authority f = mq_Authority req) && bool_decide (cf_requirement f = requirement_ref) &&
  bool_decide (cf_subject f = mq_Subject req) && bool_decide (cf_schema f = mq_Schema req) &&
  bool_decide (cf_predicate f = mq_Predicate req) && bool_decide (cf_field f = mq_Field req) &&
  bool_decide (cf_candidate f = mq_Candidate req) && bool_decide (cf_baseline f = mq_Baseline req) &&
  bool_decide (cf_context f = mq_Context req) && bool_decide (cf_backend f = mq_Backend req) &&
  bool_decide (cf_scope f = mq_Scope req).

Definition match_of (outcome : RequirementMatchOutcome) : RequirementMatch :=
  mkMatch (mq_Attempt req) (mq_Authority req) (mq_Requirement req) (mq_Subject req) (mq_Backend req) (mq_Context req)
    (mq_Scope req) outcome.

(** ** MatchCompatibility *)

(** The loop over the facts, with the flags for an unknown and a positive one. *)
Fixpoint compatibility_scan (unknown positive : bool) (facts : list CompatibilityFact) : result RequirementMatchOutcome :=
  match facts with
  | [] => Ok (if unknown then MatchUnknown else if positive then MatchSatisfied else MatchNonMatching)
  | f :: facts =>
      fail_if negb (CompatibilityFact_Valid f) || negb (bool_decide (cf_attempt f = mq_Attempt req))
        with mkError "" "invalid or mixed fact";
      if negb (compatibility_matches f) then compatibility_scan unknown positive facts
      else if negb (applicable (cf_validity f) (mq_At req)) || negb (not_revoked (cf_revocation f))
      then compatibility_scan true positive facts
      else match cf_state f with
           | CompatibilityCompatible => compatibility_scan unknown true facts
           | CompatibilityIncompatible => Ok MatchRefuted
           | CompatibilityUnknown => compatibility_scan true positive facts
           | CompatibilityFactInvalid => compatibility_scan unknown positive facts
           end
  end.
Definition MatchCompatibility (facts : list CompatibilityFact) : result RequirementMatch :=
  fail_if negb (bool_decide (mq_Family req = FamilyCompatibility)) || time_is_zero (mq_At req)
    with mkError "" "evaluation time required";
  fail_if negb (Attempt_Valid (mq_Attempt req)) || negb (nonempty (mq_Authority req)) ||
          negb (nonempty (mq_Requirement req)) || negb (nonempty (mq_Subject req)) || negb (nonempty (mq_Backend req)) ||
          negb (nonempty (mq_Context req)) || negb (nonempty (mq_Schema req)) || negb (nonempty (mq_Predicate req)) ||
          negb (nonempty (mq_Field req)) || negb (nonempty (mq_Candidate req)) || negb (nonempty (mq_Baseline req)) ||
          negb (Scope_Valid (mq_Scope req)) with mkError "" "invalid matching input";
  outcome ← compatibility_scan false false facts;
  Ok (match_of outcome).

(** ** MatchSnapshot *)

(** The state of the first matching fact. *)
Definition first_match {F} (matches : F → bool) (state : F → RequirementMatchOutcome) (facts : list F) : RequirementMatchOutcome :=
  match List.find matches facts with Some f => state f | None => MatchNonMatching end.

Definition MatchSnapshot (snap : EvaluationFactSnapshot) : result RequirementMatch :=
  fail_if negb (in_range FamilyTrust FamilyCertification (mq_Family req)) || negb (Attempt_Valid (mq_Attempt req)) ||
          negb (bool_decide (mq_Attempt req = sn_attempt snap)) || negb (nonempty (mq_Authority req)) ||
          negb (nonempty (mq_Requirement req)) || negb (nonempty (mq_Subject req)) ||
          (negb (bool_decide (mq_Family req = FamilyRevocation)) && negb (Scope_Valid (mq_Scope req)))
    with mkError "" "invalid match request";
  fail_if time_is_zero (mq_At req) with mkError "" "evaluation time required";
  match mq_Family req with
  | FamilyTrust => Ok (match_of (first_match trust_matches (fun f => trustMatchState f (mq_At req)) (sn_trusts snap)))
  | FamilyVerification =>
      Ok (match_of (first_match verification_matches (fun f => verificationMatchState f (mq_At req)) (sn_verifications snap)))
  | FamilyRevocation =>
      Ok (match_of (first_match revocation_matches (fun f => revocationMatchState f (mq_At req)) (sn_revocations snap)))
  | FamilyCompatibility => MatchCompatibility (sn_compatibilities snap)
  | FamilyCoverage => Ok (match_of (first_match coverage_matches (fun f => coverageMatchState f (mq_At req)) (sn_coverages snap)))
  | FamilyCompleteness =>
      fail_if negb (CompletenessClass_Valid (mq_RequiredCompletenessClass req)) with mkError "" "completeness class required";
      Ok (match_of (first_match completeness_matches (fun f =>
        applicableState (cl_validity f) (cl_revocation f) (mq_At req) (bool_decide (cl_class f = CompletenessInvalid)))
        (sn_completeness snap)))
  | FamilyAdequacy =>
      fail_if negb (AdequacyClass_Valid (mq_RequiredAdequacyClass req)) with mkError "" "adequacy class required";
      Ok (match_of (first_match adequacy_matches (fun f =>
        applicableState (ad_validity f) (ad_revocation f) (mq_At req) (bool_decide (ad_class f = AdequacyInvalid)))
        (sn_adequacies snap)))
  | FamilyCertification =>
      Ok (match_of (first_match certification_matches (fun f =>
        applicableState (ct_validity f) (ct_revocation f) (mq_At req) false) (sn_certifications snap)))
  | FamilyInvalid => Ok (match_of MatchNonMatching)
  end.
End request.

(** ** AggregateCompatibility *)
Definition rank (o : CompatibilityOutcome) : Z :=
  match o with
  | CompatibilityResultInvalid => 4 | CompatibilityResultIncompatible => 3 | CompatibilityResultUnknown => 2
  | CompatibilityResultCompatible => 1 | CompatibilityResultNotApplicable => 4
  end.
Definition requirement_key (r : CompatibilityRequirement) : string := q_Authority r +:+ nul +:+ q_Requirement r.
Definition CompatibilityRequirement_ok (r : CompatibilityRequirement) : bool :=
  nonempty (q_Authority r) && nonempty (q_Requirement r) && nonempty (q_Field r) && nonempty (q_Schema r) &&
  CompatibilityPredicate_Valid (q_Predicate r).

Fixpoint aggregate (seen : gmap string CompatibilityOutcome) (worst : CompatibilityOutcome)
  (pairs : list (CompatibilityRequirement * CompatibilityOutcome)) : result CompatibilityOutcome :=
  match pairs with
  | [] => Ok worst
  | (r, o) :: pairs =>
      fail_if negb (CompatibilityRequirement_ok r) with mkError "" "invalid compatibility requirement";
      match seen !! requirement_key r with
      | Some old => fail_if negb (bool_decide (old = o)) with mkError "" "conflicting compatibility requirement";
                    aggregate seen worst pairs
      | None => aggregate (<[requirement_key r := o]> seen) (if (rank worst <? rank o)%Z then o else worst) pairs
      end
  end.

(** A nil slice is not an empty one. *)
Definition AggregateCompatibility (requirements : option (list CompatibilityRequirement))
  (outcomes : option (list CompatibilityOutcome)) : result CompatibilityOutcome :=
  match requirements, outcomes with
  | None, None => Ok CompatibilityResultNotApplicable
  | _, _ =>
      let rs := default [] requirements in
      let os := default [] outcomes in
      fail_if (length rs =? 0) || negb (length rs =? length os)
        with mkError "" "invalid compatibility requirement collection";
      aggregate ∅ CompatibilityResultCompatible (zip rs os)
  end.

(** ** When an interval is in force *)
Definition in_force (v : Validity) (t : time) : Prop :=
  (t ≠ 0 ∧ ObservedAt v ≠ 0 ∧ ObservedAt v <= t)%Z ∧
  (∀ u, ValidUntil v = Some u → (ObservedAt v <= u ∧ t <= u)%Z) ∧ ((0 < MaxAge v → t <= ObservedAt v + MaxAge v)%Z).

Lemma applicable_spec v t : applicable v t = true ↔ in_force v t.
Proof.
  unfold applicable, in_force, CheckValidityAt, validPredicateValidity, time_is_zero. rewrite bool_decide_eq_true.
  destruct (Z.eqb_spec t 0); cbn [orb]; [split; [done|naive_solver]|].
  destruct (Z.eqb_spec (ObservedAt v) 0); cbn [negb]; [split; [done|naive_solver]|].
  destruct (ValidUntil v) as [u|]; cbn [negb];
    repeat match goal with |- context [(?x <? ?y)%Z] => destruct (Z.ltb_spec x y); cbn [negb andb] end;
    (split; [intros ?; try done; split_and!; try done; intros; simplify_eq; lia
            |intros (? & Hu & ?); try destruct (Hu _ eq_refl); try done; lia]).
Qed.

Lemma not_revoked_spec r : not_revoked r = true ↔ rv_state r = RevocationNotRevoked.
Proof. apply bool_decide_eq_true. Qed.

(** ** What grounds a satisfied requirement *)

(** A fact of the snapshot that agrees with every operand of the request, in
    force at the time of the evaluation, not revoked, and positive. *)
Inductive grounded (req : MatchRequest) (snap : EvaluationFactSnapshot) : Prop :=
| grounded_trust f : mq_Family req = FamilyTrust → f ∈ sn_trusts snap → trust_matches req f = true →
    in_force (tf_validity f) (mq_At req) → rv_state (tf_revocation f) = RevocationNotRevoked → tf_state f = Trusted →
    grounded req snap
| grounded_verification f : mq_Family req = FamilyVerification → f ∈ sn_verifications snap → verification_matches req f = true →
    in_force (vr_validity f) (mq_At req) → rv_state (vr_revocation f) = RevocationNotRevoked →
    vr_state f = VerificationFactVerified → grounded req snap
| grounded_revocation f : mq_Family req = FamilyRevocation → f ∈ sn_revocations snap → revocation_matches req f = true →
    in_force (rv_validUntil f) (mq_At req) → rv_state f = RevocationNotRevoked → grounded req snap
| grounded_compatibility f : mq_Family req = FamilyCompatibility → f ∈ sn_compatibilities snap →
    compatibility_matches req f = true → (∀ g, g ∈ sn_compatibilities snap → cf_attempt g = mq_Attempt req) →
    (** No matching fact says otherwise, is out of force or revoked. *)
    (∀ g, g ∈ sn_compatibilities snap → compatibility_matches req g = true →
      in_force (cf_validity g) (mq_At req) ∧ rv_state (cf_revocation g) = RevocationNotRevoked ∧
      cf_state g = CompatibilityCompatible) → grounded req snap
| grounded_coverage f : mq_Family req = FamilyCoverage → f ∈ sn_coverages snap → coverage_matches req f = true →
    in_force (cv_validity f) (mq_At req) → rv_state (cv_revocation f) = RevocationNotRevoked → cv_state f = ScopeCovers →
    grounded req snap
| grounded_completeness f : mq_Family req = FamilyCompleteness → f ∈ sn_completeness snap → completeness_matches req f = true →
    CompletenessClass_Valid (cl_class f) = true → in_force (cl_validity f) (mq_At req) →
    rv_state (cl_revocation f) = RevocationNotRevoked → grounded req snap
| grounded_adequacy f : mq_Family req = FamilyAdequacy → f ∈ sn_adequacies snap → adequacy_matches req f = true →
    AdequacyClass_Valid (ad_class f) = true → in_force (ad_validity f) (mq_At req) →
    rv_state (ad_revocation f) = RevocationNotRevoked → grounded req snap
| grounded_certification f : mq_Family req = FamilyCertification → f ∈ sn_certifications snap →
    certification_matches req f = true → in_force (ct_validity f) (mq_At req) →
    rv_state (ct_revocation f) = RevocationNotRevoked → grounded req snap.

Lemma first_match_satisfied {F} (matches : F → bool) state facts :
  first_match matches state facts = MatchSatisfied → ∃ f, f ∈ facts ∧ matches f = true ∧ state f = MatchSatisfied.
Proof.
  unfold first_match. destruct (List.find matches facts) as [f|] eqn:E; [|done].
  apply List.find_some in E as [Hin Hm]. intros Hs. exists f. by rewrite list_elem_of_In.
Qed.

Lemma negb_orb_satisfied (a b : bool) (o : RequirementMatchOutcome) :
  (if negb a || negb b then MatchUnknown else o) = MatchSatisfied ↔ a = true ∧ b = true ∧ o = MatchSatisfied.
Proof. destruct a, b; naive_solver. Qed.

Lemma trust_satisfied f t : trustMatchState f t = MatchSatisfied ↔
  in_force (tf_validity f) t ∧ rv_state (tf_revocation f) = RevocationNotRevoked ∧ tf_state f = Trusted.
Proof.
  unfold trustMatchState. rewrite <-applicable_spec, <-not_revoked_spec.
  destruct (applicable _ _), (not_revoked _), (tf_state f); naive_solver.
Qed.
Lemma verification_satisfied f t : verificationMatchState f t = MatchSatisfied ↔
  in_force (vr_validity f) t ∧ rv_state (vr_revocation f) = RevocationNotRevoked ∧ vr_state f = VerificationFactVerified.
Proof.
  unfold verificationMatchState. rewrite negb_orb_satisfied, applicable_spec, not_revoked_spec. destruct (vr_state f); naive_solver.
Qed.
Lemma revocation_satisfied f t : revocationMatchState f t = MatchSatisfied ↔
  in_force (rv_validUntil f) t ∧ rv_state f = RevocationNotRevoked.
Proof. unfold revocationMatchState. rewrite <-applicable_spec. destruct (applicable _ _), (rv_state f); naive_solver. Qed.
Lemma coverage_satisfied f t : coverageMatchState f t = MatchSatisfied ↔
  in_force (cv_validity f) t ∧ rv_state (cv_revocation f) = RevocationNotRevoked ∧ cv_state f = ScopeCovers.
Proof.
  unfold coverageMatchState. rewrite <-applicable_spec, <-not_revoked_spec.
  destruct (applicable _ _), (not_revoked _); repeat case_bool_decide; naive_solver.
Qed.
Lemma applicableState_satisfied v r t negative : applicableState v r t negative = MatchSatisfied ↔
  in_force v t ∧ rv_state r = RevocationNotRevoked ∧ negative = false.
Proof. unfold applicableState. rewrite negb_orb_satisfied, applicable_spec, not_revoked_spec. destruct negative; naive_solver. Qed.

Lemma compatibility_scan_satisfied req facts unknown positive :
  compatibility_scan req unknown positive facts = Ok MatchSatisfied →
  unknown = false ∧ (positive = true ∨ ∃ f, f ∈ facts ∧ compatibility_matches req f = true) ∧
  (∀ g, g ∈ facts → cf_attempt g = mq_Attempt req) ∧
  ∀ g, g ∈ facts → compatibility_matches req g = true →
    in_force (cf_validity g) (mq_At req) ∧ rv_state (cf_revocation g) = RevocationNotRevoked ∧
    cf_state g = CompatibilityCompatible.
Proof.
  revert unknown positive. induction facts as [|f facts IH]; intros unknown positive; cbn [compatibility_scan].
  { destruct unknown, positive; try done. intros _. split; [done|]. split; [by left|].
    split; intros g Hg; by apply elem_of_nil in Hg. }
  intros [Hv H]%result_guard_Ok. apply orb_false_iff in Hv as [Hv Hat]. apply negb_false_iff in Hv, Hat.
  apply bool_decide_eq_true in Hat.
  assert (∀ g, (∀ g, g ∈ facts → cf_attempt g = mq_Attempt req) → g ∈ f :: facts → cf_attempt g = mq_Attempt req) as Hall.
  { intros g Hg [->|Hin]%elem_of_cons; [done|by apply Hg]. }
  destruct (compatibility_matches req f) eqn:Em; cbn [negb] in H.
  2:{ destruct (IH _ _ H) as (Hu & Hp & Ha & Hg). split; [done|]. split.
      - destruct Hp as [?|(g & Hin & Hm)]; [by left|right; exists g; split; [by right|done]].
      - split; [by intros; apply Hall|]. intros g [->|Hin]%elem_of_cons Hm; [congruence|by apply Hg]. }
  destruct (applicable _ _) eqn:Ea, (not_revoked _) eqn:Er; cbn [negb orb] in H; try by destruct (IH _ _ H).
  apply applicable_spec in Ea. apply not_revoked_spec in Er.
  destruct (cf_state f) eqn:Es; try done; try by destruct (IH _ _ H).
  - by (unfold CompatibilityFact_Valid in Hv; rewrite Es in Hv; rewrite andb_false_r in Hv).
  - destruct (IH _ _ H) as (Hu & _ & Ha & Hg). split; [done|]. split; [right; exists f; split; [left|done]|].
    split; [by intros; apply Hall|]. intros g [->|Hin]%elem_of_cons Hm; [done|by apply Hg].
Qed.

(** What a satisfied match rests on. *)
Lemma match_grounded req snap m :
  MatchSnapshot req snap = Ok m → rm_outcome m = MatchSatisfied → grounded req snap.
Proof.
  unfold MatchSnapshot. intros [_ [_ H]%result_guard_Ok]%result_guard_Ok Ho.
  destruct (mq_Family req) eqn:Ef.
  - by injection H as <-.
  - injection H as <-. apply first_match_satisfied in Ho as (f & Hin & Hm & (? & ? & ?)%trust_satisfied). by apply (grounded_trust _ _ f).
  - injection H as <-. apply first_match_satisfied in Ho as (f & Hin & Hm & (? & ? & ?)%verification_satisfied).
    by apply (grounded_verification _ _ f).
  - injection H as <-. apply first_match_satisfied in Ho as (f & Hin & Hm & (? & ?)%revocation_satisfied).
    by apply (grounded_revocation _ _ f).
  - unfold MatchCompatibility in H. apply result_guard_Ok in H as [_ [_ H]%result_guard_Ok].
    apply result_bind_Ok in H as (o & Hs & [= <-]). cbn in Ho. subst o.
    apply compatibility_scan_satisfied in Hs as (_ & [?|(f & Hin & Hm)] & Ha & Hg); [done|].
    by apply (grounded_compatibility _ _ f).
  - injection H as <-. apply first_match_satisfied in Ho as (f & Hin & Hm & (? & ? & ?)%coverage_satisfied).
    by apply (grounded_coverage _ _ f).
  - apply result_guard_Ok in H as [Hc [= <-]]. apply negb_false_iff in Hc.
    apply first_match_satisfied in Ho as (f & Hin & Hm & (? & ? & ?)%applicableState_satisfied).
    apply (grounded_completeness _ _ f); try done. unfold completeness_matches in Hm.
    by repeat (apply andb_prop in Hm as [Hm ?]); bool_simpl; congruence.
  - apply result_guard_Ok in H as [Hc [= <-]]. apply negb_false_iff in Hc.
    apply first_match_satisfied in Ho as (f & Hin & Hm & (? & ? & ?)%applicableState_satisfied).
    apply (grounded_adequacy _ _ f); try done. unfold adequacy_matches in Hm.
    by repeat (apply andb_prop in Hm as [Hm ?]); bool_simpl; congruence.
  - injection H as <-. apply first_match_satisfied in Ho as (f & Hin & Hm & (? & ? & ?)%applicableState_satisfied).
    by apply (grounded_certification _ _ f).
Qed.

(** A requirement is satisfied only on grounds: whatever else the snapshot
    holds, it has a fact of the requested family that agrees with every operand
    of the request, is in force at the time of the evaluation, is not revoked
    and is positive; for compatibility, every matching fact is. *)
Theorem MatchSnapshot_grounded req snap m :
  MatchSnapshot req snap = Ok m → rm_outcome m = MatchSatisfied → grounded req snap.
Proof.
  apply match_grounded.
Qed.

(** The fact of the bounded runtime experiment preserves what was observed and
    is well formed, but the experiment has no revocation source: at no time does
    the fact satisfy or refute a requirement. *)
Theorem NewSeccompRuntimeEvidenceFact_bounded fresh in_ f at_ :
  NewSeccompRuntimeEvidenceFact fresh in_ = Ok f →
  ResolvedVerificationFact_Valid f = true ∧ vr_state f = re_Result in_ ∧ vr_subject f = re_Subject in_ ∧
  ValidUntil (vr_validity f) = Some (re_ValidUntil in_) ∧ verificationMatchState f at_ = MatchUnknown.
Proof.
  unfold NewSeccompRuntimeEvidenceFact, NewResolutionAttemptIdentity, NewDigest, NewValidity. intros H.
  apply result_bind_Ok in H as (attempt & [_ [= <-]]%result_guard_Ok & H).
  apply result_bind_Ok in H as (digest & [_ [= <-]]%result_guard_Ok & H).
  apply result_bind_Ok in H as (validity & [_ [= <-]]%result_guard_Ok & H).
  do 4 (apply result_bind_Ok in H as (? & ?Hs & H)).
  apply result_bind_Ok in H as (revocationResult & [_ [= <-]]%result_guard_Ok & H).
  apply result_bind_Ok in H as (revocation & [_ [= <-]]%result_guard_Ok & H).
  apply result_bind_Ok in H as (execution & [Hv%negb_false_iff [= <-]]%result_guard_Ok & H).
  apply result_guard_Ok in H as [_ [= <-]].
  split_and!; [|done|done|done|].
  - unfold VerificationExecutionResult_Valid, ResolvedVerificationFact_Valid, revocation_of in *. cbn in *.
    repeat rewrite andb_true_iff in *. intuition.
  - unfold verificationMatchState, not_revoked. cbn. by rewrite orb_true_r.
Qed.

(** ** Aggregation *)
Lemma aggregate_spec pairs : ∀ seen worst o,
  (∀ k o', seen !! k = Some o' → rank o' <= rank worst)%Z → aggregate seen worst pairs = Ok o →
  (rank worst <= rank o)%Z ∧ (o = worst ∨ ∃ r, (r, o) ∈ pairs) ∧
  ∀ r o', (r, o') ∈ pairs → (rank o' <= rank o)%Z ∧ CompatibilityRequirement_ok r = true.
Proof.
  induction pairs as [|[r p] pairs IH]; intros seen worst o Hseen; cbn [aggregate].
  { intros [= <-]. split; [lia|]. split; [by left|]. intros ?? Hin. by apply elem_of_nil in Hin. }
  intros [Hok H]%result_guard_Ok. apply negb_false_iff in Hok.
  assert (∃ seen' worst', aggregate seen' worst' pairs = Ok o ∧ (∀ k o', seen' !! k = Some o' → rank o' <= rank worst')%Z ∧
    (rank worst <= rank worst' ∧ rank p <= rank worst')%Z ∧ (worst' = worst ∨ worst' = p))
    as (seen' & worst' & Ha & Hs & [Hw Hp] & Hc).
  { destruct (seen !! requirement_key r) as [old|] eqn:Es.
    - apply result_guard_Ok in H as [Hold H]. bool_simpl. subst old. exists seen, worst.
      split_and!; [done|done|lia|by eapply Hseen|by left].
    - eexists _, _. split; [exact H|]. destruct (Z.ltb_spec (rank worst) (rank p)); (split; [|split; [lia|by auto]]);
        intros k o' [[_ <-]|[_ Hk]]%lookup_insert_Some; try lia; specialize (Hseen _ _ Hk); lia. }
  destruct (IH seen' worst' o Hs Ha) as (Hwo & Ho & Hall). split; [lia|]. split.
  - destruct Ho as [->|(r' & Hr')]; [|right; exists r'; by right].
    destruct Hc as [-> | ->]; [by left|right; exists r; left].
  - intros r' o' [[= -> ->]|Hin]%elem_of_cons; [split; [lia|done]|by apply Hall].
Qed.

Lemma zip_elem {A B} (l : list A) (k : list B) : length l = length k →
  (∀ x, x ∈ l → ∃ y, (x, y) ∈ zip l k) ∧ (∀ y, y ∈ k → ∃ x, (x, y) ∈ zip l k).
Proof.
  revert k. induction l as [|x l IH]; intros [|y k]; try done; cbn; [intros _; split; intros ? []%elem_of_nil|].
  intros [= Hl]. destruct (IH k Hl) as [Hx Hy]. split; intros z [->|Hz]%elem_of_cons.
  - exists y. left.
  - destruct (Hx z Hz) as [w Hw]. exists w. by right.
  - exists x. left.
  - destruct (Hy z Hz) as [w Hw]. exists w. by right.
Qed.

Lemma rank_compatible o : (rank o <= 1)%Z ↔ o = CompatibilityResultCompatible.
Proof. destruct o; cbn; split; (done || lia). Qed.

(** The aggregate of the compatibility requirements of a rule is the worst of
    their outcomes: it is the outcome of one of them and none of them is worse,
    so it is compatible exactly when all of them are; every requirement is well
    formed and has its outcome. *)
Theorem AggregateCompatibility_worst rs os o :
  AggregateCompatibility (Some rs) (Some os) = Ok o →
  length rs = length os ∧ Forall (fun r => CompatibilityRequirement_ok r = true) rs ∧
  o ∈ os ∧ (∀ o', o' ∈ os → (rank o' <= rank o)%Z) ∧
  (o = CompatibilityResultCompatible ↔ Forall (eq CompatibilityResultCompatible) os).
Proof.
  unfold AggregateCompatibility. change (default [] (Some rs)) with rs. change (default [] (Some os)) with os.
  intros [[Hne Hl%negb_false_iff%Nat.eqb_eq]%orb_false_iff H]%result_guard_Ok. apply Nat.eqb_neq in Hne.
  apply aggregate_spec in H as (Hw & Ho & Hall); [|by intros k o'; rewrite lookup_empty].
  destruct (zip_elem rs os Hl) as [Hrs Hos].
  assert (∀ o', o' ∈ os → (rank o' <= rank o)%Z) as Hrank by (intros o' (r & Hr)%Hos; by apply (Hall r)).
  assert (o ∈ os) as Hin.
  { destruct Ho as [->|(r & Hr)]; [|by eapply elem_of_zip_r].
    destruct os as [|p os]; [cbn in Hl; lia|].
    specialize (Hrank p (list_elem_of_here _ _)). apply rank_compatible in Hrank as ->. left. }
  split_and!; [done| |done|done|].
  - apply Forall_forall. intros r (p & Hp)%Hrs. by apply (Hall r p).
  - split; [intros -> ; apply Forall_forall; intros p Hp; symmetry; by apply rank_compatible, Hrank|].
    intros Hc. rewrite Forall_forall in Hc. symmetry. by apply Hc.
Qed.

(** ** Concrete matches *)
Module Sim.
Definition digest : string := "sha256:" +:+ join "" (replicate 64 "a").
Definition instant : time := 100.
Definition validity : Validity := mkValidity instant (Some (mkPointer 1 200)) 0.
Definition scope : Scope := mkScope [mkDimension ScopeWorkload ScopeCovers] "default/web" "kind".
Definition context : SecurityContextIdentity := mkContext "sha256:img" "amd64" "linux" "runc" "" "" "" "" "" "" "" "web" "/bin/web".
Definition verifier : VerifierSemanticIdentity := mkVerifier "v" "1" digest "c" "i" "o" "p" "r" [].
Definition provenance : ProvenanceRecord := mkProvenance "producer" "mechanism" "1" "run" scope validity RevocationNotRevoked verifier.
Definition revocation (state : RevocationStatus) : CurrentRevocationFact :=
  mkRevocation "attempt" "subject" "source" state provenance validity.
Definition trust (state : TrustState) (revoked : RevocationStatus) : TrustFact :=
  mkTrustFact "attempt" "subject" "policy" "root" scope context validity (revocation revoked) provenance state.
Definition snapshot (facts : list TrustFact) : EvaluationFactSnapshot := mkSnapshot "attempt" facts [] [] [] [] [] [] [].
Definition trust_request (at_ : time) : MatchRequest :=
  mkMatchRequest FamilyTrust "attempt" "authority" "requirement" "subject" "" "kind" context scope at_ "policy" "root"
    "" "" "" "" "" "" "" "" CompletenessInvalid AdequacyInvalid "" zero_verifier.
Definition outcome_at (t : time) (facts : list TrustFact) : option RequirementMatchOutcome :=
  match MatchSnapshot (trust_request t) (snapshot facts) with Ok m => Some (rm_outcome m) | Err _ => None end.

Lemma MatchSnapshot_grounded_witness :
  ∃ m, MatchSnapshot (trust_request 150) (snapshot [trust Trusted RevocationNotRevoked]) = Ok m ∧
    rm_outcome m = MatchSatisfied ∧ grounded (trust_request 150) (snapshot [trust Trusted RevocationNotRevoked]).
Proof.
  eexists. split; [vm_compute; reflexivity|]. split; [reflexivity|].
  eapply MatchSnapshot_grounded; [vm_compute; reflexivity|reflexivity].
Defined.

(** Expired, revoked, unknown and untrusted facts satisfy nothing. *)
Example trust_outcomes :
  map (fun c => outcome_at c.1 [c.2])
    [(150%Z, trust Trusted RevocationNotRevoked); (250%Z, trust Trusted RevocationNotRevoked);
     (150%Z, trust Trusted RevocationRevoked); (150%Z, trust Untrusted RevocationNotRevoked)] =
  [Some MatchSatisfied; Some MatchUnknown; Some MatchUnknown; Some MatchRefuted].
Proof. vm_compute. reflexivity. Qed.

(** The first matching fact decides: the order of a snapshot matters. *)
Example first_fact_decides :
  outcome_at 150 [trust Trusted RevocationNotRevoked; trust Untrusted RevocationNotRevoked] = Some MatchSatisfied ∧
  outcome_at 150 [trust Untrusted RevocationNotRevoked; trust Trusted RevocationNotRevoked] = Some MatchRefuted.
Proof. by vm_compute. Qed.

Definition requirement (name : string) : CompatibilityRequirement :=
  mkRequirement "authority" name "field" CompatibilityRuleV1 CompatibilityExactEquality.
Lemma AggregateCompatibility_worst_witness :
  AggregateCompatibility (Some [requirement "a"; requirement "b"]) (Some [CompatibilityResultCompatible; CompatibilityResultUnknown])
    = Ok CompatibilityResultUnknown ∧
  (CompatibilityResultUnknown = CompatibilityResultCompatible ↔
   Forall (eq CompatibilityResultCompatible) [CompatibilityResultCompatible; CompatibilityResultUnknown]).
Proof.
  split; [reflexivity|].
  apply (AggregateCompatibility_worst [requirement "a"; requirement "b"] [CompatibilityResultCompatible; CompatibilityResultUnknown]).
  reflexivity.
Defined.

Definition evidence : SeccompRuntimeEvidence :=
  mkRuntimeEvidence "attempt" "1" digest "subject" "sha256:img" "web" "runc" 100 200 VerificationFactVerified.
Lemma NewSeccompRuntimeEvidenceFact_bounded_witness :
  ∃ f, NewSeccompRuntimeEvidenceFact 7 evidence = Ok f ∧ vr_state f = VerificationFactVerified ∧
    verificationMatchState f 150 = MatchUnknown.
Proof.
  eexists. split; [vm_compute; reflexivity|].
  edestruct (NewSeccompRuntimeEvidenceFact_bounded 7 evidence) as (_ & Hs & _ & _ & Hm); [vm_compute; reflexivity|].
  split; [exact Hs|exact (Hm)].
Defined.
End Sim.
