(* ===== verification/AuthorityResolution.v ===== *)
(** * internal/authority/resolution.go: resolving a reference

    The exact references that are resolved, the configured sources, what they
    were observed to answer, and [AggregateObservations], which turns the
    answers into one verdict; the configuration of root trust, the freshness of
    facts and the bundle of what was resolved. A slice that the source copies is
    a value; where the source sorts with [sort.Slice] and two elements compare
    equal, the order among them is the one they came in. *)
From S2P Require Import Prelude GoStd Identity Digest AuthorityDomain.

Inductive ResolutionState :=
  ResolutionInvalid | ResolutionResolved | ResolutionNotFound | ResolutionUnavailable | ResolutionMalformed
| ResolutionDigestMismatch | ResolutionAmbiguous | ResolutionTypeMismatch | ResolutionVersionMismatch.
#[export] Instance ResolutionState_eq_dec : EqDecision ResolutionState.
Proof. solve_decision. Defined.

Abbreviation ReferenceKind := string.
Definition KindAuthorityRule : ReferenceKind := "AuthorityRule".
Definition KindTrustPolicy : ReferenceKind := "TrustPolicy".
Definition KindBaseline : ReferenceKind := "Baseline".
Definition KindRegistry : ReferenceKind := "Registry".
Definition KindEvidence : ReferenceKind := "Evidence".
Definition KindVerifier : ReferenceKind := "Verifier".
Definition KindCertification : ReferenceKind := "Certification".
Definition KindCompatibilityRule : ReferenceKind := "CompatibilityRule".
Definition KindCompositionOperator : ReferenceKind := "CompositionOperator".

Record ResolutionReference := mkResolutionReference {
  kr_kind : ReferenceKind; kr_id : string; kr_version : string; kr_digest : AuthorityDigest }.
#[export] Instance ResolutionReference_eq_dec : EqDecision ResolutionReference.
Proof. solve_decision. Defined.
Definition NewResolutionReference (kind : ReferenceKind) (id version : string) (digest : AuthorityDigest)
  : result ResolutionReference :=
  fail_if negb (nonempty kind) || negb (nonempty id) || negb (nonempty version) || negb (Digest_Valid digest)
    with mkError "" "malformed exact resolution reference";
  Ok (mkResolutionReference kind id version digest).

(** ** Sources *)
Inductive SourceMode := SourceModeInvalid | SourceAuthoritative | SourceMirror | SourceFallback.
#[export] Instance SourceMode_eq_dec : EqDecision SourceMode.
Proof. solve_decision. Defined.

Record AuthoritySource := mkSource {
  as_id : string; as_kind : string; as_objectKinds : list ReferenceKind; as_priority : Z;
  as_configDigest : AuthorityDigest; as_enabled : bool; as_mode : SourceMode }.
Definition NewAuthoritySource (id kind : string) (objectKinds : list ReferenceKind) (priority : Z)
  (configDigest : AuthorityDigest) (enabled : bool) (mode : SourceMode) : result AuthoritySource :=
  fail_if negb (nonempty id) || negb (nonempty kind) || (length objectKinds =? 0) || (priority <? 0)%Z ||
          negb (Digest_Valid configDigest) || bool_decide (mode = SourceModeInvalid)
    with mkError "" "invalid authority source";
  Ok (mkSource id kind objectKinds priority configDigest enabled mode).
Definition Supports (s : AuthoritySource) (k : ReferenceKind) : bool :=
  existsb (fun x => bool_decide (x = k)) (as_objectKinds s).

Record SourceConfiguration := mkConfiguration { sc_sources : list AuthoritySource; sc_digest : AuthorityDigest }.
Fixpoint duplicate_source (seen : list string) (sources : list AuthoritySource) : bool :=
  match sources with
  | [] => false
  | s :: sources => bool_decide (as_id s ∈ seen) || duplicate_source (as_id s :: seen) sources
  end.
Definition NewSourceConfiguration (sources : list AuthoritySource) (digest : AuthorityDigest) : result SourceConfiguration :=
  fail_if (length sources =? 0) || negb (Digest_Valid digest) with mkError "" "invalid source configuration";
  fail_if duplicate_source [] sources with mkError "" "duplicate authority source";
  Ok (mkConfiguration sources digest).

(** ** Objects and observations *)
Record ResolvedObject := mkObject {
  ob_reference : ResolutionReference; ob_contentDigest : AuthorityDigest; ob_content : string }.
#[export] Instance ResolvedObject_eq_dec : EqDecision ResolvedObject.
Proof. solve_decision. Defined.
Definition NewResolvedObject (ref : ResolutionReference) (contentDigest : AuthorityDigest) (content : string)
  : result ResolvedObject :=
  fail_if negb (bool_decide (contentDigest = kr_digest ref)) || (String.length content =? 0)
    with mkError "" "invalid resolved object";
  Ok (mkObject ref contentDigest content).

Record SourceObservation := mkSourceObservation {
  so_Source : AuthoritySource; so_State : ResolutionState; so_Object : ResolvedObject }.

Record ResolutionProvenance := mkResolutionProvenance {
  rp_sourceID : string; rp_mode : SourceMode; rp_priority : Z; rp_configurationDigest : AuthorityDigest;
  rp_state : ResolutionState }.
Record ResolutionResult := mkResolution {
  rs_state : ResolutionState; rs_object : option ResolvedObject; rs_provenance : list ResolutionProvenance }.

(** ** AggregateObservations *)
Definition sameSourceDescriptor (a b : AuthoritySource) : bool :=
  bool_decide (as_id a = as_id b) && bool_decide (as_kind a = as_kind b) && bool_decide (as_mode a = as_mode b) &&
  bool_decide (as_priority a = as_priority b) && bool_decide (as_configDigest a = as_configDigest b) &&
  Bool.eqb (as_enabled a) (as_enabled b).

Definition configured_sources (cfg : SourceConfiguration) : gmap string AuthoritySource :=
  foldl (fun m s => <[as_id s := s]> m) ∅ (sc_sources cfg).
Definition authoritative_configured (ref : ResolutionReference) (cfg : SourceConfiguration) : bool :=
  existsb (fun s => as_enabled s && Supports s (kr_kind ref) && bool_decide (as_mode s = SourceAuthoritative)) (sc_sources cfg).

(** The variables of the loop. *)
Record aggregation := mkAggregation {
  g_prov : list ResolutionProvenance; g_exact : list ResolvedObject; g_conflict : bool; g_unavailable : bool;
  g_found : bool; g_notFound : bool; g_soleNegative : ResolutionState }.
Definition no_observation : aggregation := mkAggregation [] [] false false false false ResolutionInvalid.

Definition authoritative (o : SourceObservation) : bool := bool_decide (as_mode (so_Source o) = SourceAuthoritative).
Definition mirror (o : SourceObservation) : bool := bool_decide (as_mode (so_Source o) = SourceMirror).

(** The three tests that skip an observation before it is recorded. *)
Definition admitted (ref : ResolutionReference) (cfg : SourceConfiguration) (o : SourceObservation) : bool :=
  match configured_sources cfg !! as_id (so_Source o) with
  | None => false
  | Some c => sameSourceDescriptor c (so_Source o) && as_enabled c && Supports c (kr_kind ref)
  end &&
  negb (authoritative_configured ref cfg && bool_decide (as_mode (so_Source o) = SourceFallback)) &&
  negb (negb (authoritative_configured ref cfg) && mirror o).

(** A negative answer given as such: a second one conflicts when it differs. *)
Definition negative_state (s : ResolutionState) (g : aggregation) : aggregation :=
  if bool_decide (g_soleNegative g = ResolutionInvalid)
  then mkAggregation (g_prov g) (g_exact g) (g_conflict g) (g_unavailable g) (g_found g) (g_notFound g) s
  else if negb (bool_decide (g_soleNegative g = s))
  then mkAggregation (g_prov g) (g_exact g) true (g_unavailable g) (g_found g) (g_notFound g) (g_soleNegative g)
  else g.
(** An object that is not the requested one, from an authoritative source: a
    second negative always conflicts. *)
Definition wrong_object (s : ResolutionState) (o : SourceObservation) (g : aggregation) : aggregation :=
  if negb (authoritative o) then g
  else if bool_decide (g_soleNegative g = ResolutionInvalid)
  then mkAggregation (g_prov g) (g_exact g) (g_conflict g) (g_unavailable g) (g_found g) (g_notFound g) s
  else mkAggregation (g_prov g) (g_exact g) true (g_unavailable g) (g_found g) (g_notFound g) (g_soleNegative g).
Definition provenance_of (o : SourceObservation) : ResolutionProvenance :=
  mkResolutionProvenance (as_id (so_Source o)) (as_mode (so_Source o)) (as_priority (so_Source o))
    (as_configDigest (so_Source o)) (so_State o).

Definition observe (ref : ResolutionReference) (cfg : SourceConfiguration) (g : aggregation) (o : SourceObservation)
  : aggregation :=
  if negb (admitted ref cfg o) then g else
  let g := mkAggregation (g_prov g ++ [provenance_of o]) (g_exact g) (g_conflict g) (g_unavailable g) (g_found g) (g_notFound g)
             (g_soleNegative g) in
  if bool_decide (so_State o = ResolutionUnavailable) then
    if authoritative o
    then mkAggregation (g_prov g) (g_exact g) (g_conflict g) true (g_found g) (g_notFound g) (g_soleNegative g) else g
  else if bool_decide (so_State o = ResolutionNotFound) then
    if authoritative o
    then mkAggregation (g_prov g) (g_exact g) (g_conflict g) (g_unavailable g) (g_found g) true (g_soleNegative g) else g
  else if negb (bool_decide (so_State o = ResolutionResolved)) then
    if mirror o then g else negative_state (so_State o) g
  else if mirror o then g
  else
    let r := ob_reference (so_Object o) in
    if negb (bool_decide (kr_kind r = kr_kind ref)) || negb (bool_decide (kr_id r = kr_id ref))
    then wrong_object ResolutionTypeMismatch o g
    else if negb (bool_decide (kr_version r = kr_version ref)) then wrong_object ResolutionVersionMismatch o g
    else if negb (bool_decide (ob_contentDigest (so_Object o) = kr_digest ref)) then wrong_object ResolutionDigestMismatch o g
    else mkAggregation (g_prov g) (g_exact g ++ [so_Object o]) (g_conflict g) (g_unavailable g) true (g_notFound g)
           (g_soleNegative g).

Definition less_provenance : ResolutionProvenance → ResolutionProvenance → bool :=
  less_lex (less_on rp_sourceID string_ltb) (fun p q => (rp_priority p <? rp_priority q)%Z).

(** What is decided after the loop. *)
Definition verdict (g : aggregation) : ResolutionResult :=
  let prov := sort_by less_provenance (g_prov g) in
  let exact := sort_by (less_on ob_content string_ltb) (g_exact g) in
  if g_conflict g then mkResolution ResolutionAmbiguous None prov
  else if g_unavailable g then mkResolution ResolutionUnavailable None prov
  else if g_notFound g && g_found g then mkResolution ResolutionUnavailable None prov
  else if negb (bool_decide (g_soleNegative g = ResolutionInvalid)) && negb (g_found g)
  then mkResolution (g_soleNegative g) None prov
  else if g_found g then
    match exact with
    | [] => mkResolution ResolutionAmbiguous None prov
    | first :: rest =>
        if existsb (fun x => negb (bool_decide (ob_content first = ob_content x))) rest
        then mkResolution ResolutionAmbiguous None prov
        else mkResolution ResolutionResolved (Some first) prov
    end
  else mkResolution ResolutionNotFound None prov.
Definition AggregateObservations (ref : ResolutionReference) (cfg : SourceConfiguration)
  (observations : list SourceObservation) : ResolutionResult :=
  verdict (foldl (observe ref cfg) no_observation observations).

(** ** Root trust, freshness and the bundle *)
Record RootTrustConfiguration := mkRootTrust {
  rt_id : string; rt_version : string; rt_digest : AuthorityDigest; rt_anchorIdentities : list string;
  rt_applicableClasses : list string; rt_provenance : string }.
Definition NewRootTrustConfiguration (v : RootTrustConfiguration) : result RootTrustConfiguration :=
  fail_if negb (nonempty (rt_id v)) || negb (nonempty (rt_version v)) || negb (Digest_Valid (rt_digest v)) ||
          (length (rt_anchorIdentities v) =? 0) with mkError "" "invalid root trust configuration";
  Ok v.

Inductive VerifierBindingResult := VerifierBindingInvalid | VerifierBound | VerifierMismatch | VerifierUnknown.

Record FactFreshness := mkFreshness {
  fr_validUntil : option time; fr_maxAge : Z; fr_sourceEpoch : string; fr_nonExpiring : bool }.
Definition NewFactFreshness (validUntil : option time) (maxAge : Z) (epoch : string) (nonExpiring : bool)
  : result FactFreshness :=
  fail_if (maxAge <? 0)%Z || match validUntil with Some t => time_is_zero t | None => false end ||
          (nonExpiring && (bool_decide (is_Some validUntil) || negb (maxAge =? 0)%Z))
    with mkError "" "invalid fact freshness";
  Ok (mkFreshness validUntil maxAge epoch nonExpiring).

Record CurrentAuthorityFact := mkCurrentFact {
  ca_factKind : string; ca_subject : string; ca_source : string; ca_result : string; ca_observedAt : time;
  ca_freshness : FactFreshness; ca_verificationStatus : string; ca_sourceEpoch : string }.
Definition NewCurrentAuthorityFact (v : CurrentAuthorityFact) : result CurrentAuthorityFact :=
  fail_if negb (nonempty (ca_factKind v)) || negb (nonempty (ca_subject v)) || negb (nonempty (ca_source v)) ||
          negb (nonempty (ca_result v)) || time_is_zero (ca_observedAt v) || negb (nonempty (ca_verificationStatus v))
    with mkError "" "invalid current authority fact";
  Ok v.

Record ResolvedAuthorityBundle := mkBundle {
  bu_objects : list ResolvedObject; bu_provenance : list ResolutionProvenance;
  bu_sourceConfigurationDigest : AuthorityDigest; bu_rootTrust : RootTrustConfiguration }.
Definition NewResolvedAuthorityBundle (objects : list ResolvedObject) (prov : list ResolutionProvenance)
  (sourceDigest : AuthorityDigest) (root : RootTrustConfiguration) : result ResolvedAuthorityBundle :=
  fail_if negb (Digest_Valid sourceDigest) with mkError "" "invalid bundle source configuration";
  r ← NewRootTrustConfiguration root;
  Ok (mkBundle objects prov sourceDigest r).

(** ** The verdict, from the variables of the loop *)
Lemma existsb_content_false first rest :
  existsb (fun x => negb (bool_decide (ob_content first = ob_content x))) rest = false ↔
  ∀ x, x ∈ rest → ob_content x = ob_content first.
Proof.
  split.
  - intros H x Hx. apply (existsb_false_elem _ _ _ H), negb_false_iff, bool_decide_eq_true_1 in Hx. done.
  - intros H. apply not_true_iff_false. intros (x & Hin%list_elem_of_In & Hx)%existsb_exists.
    apply negb_true_iff, bool_decide_eq_false_1 in Hx. by rewrite (H x Hin) in Hx.
Qed.


Lemma verdict_provenance g : rs_provenance (verdict g) ≡ₚ g_prov g.
Proof.
  transitivity (sort_by less_provenance (g_prov g)); [|apply sort_by_perm]. unfold verdict. repeat case_match; done.
Qed.
Lemma verdict_object g ob : rs_object (verdict g) = Some ob → rs_state (verdict g) = ResolutionResolved.
Proof. unfold verdict. repeat case_match; done. Qed.

Lemma verdict_resolved g : g_soleNegative g ≠ ResolutionResolved → rs_state (verdict g) = ResolutionResolved →
  ∃ ob, rs_object (verdict g) = Some ob ∧ ob ∈ g_exact g ∧ (∀ x, x ∈ g_exact g → ob_content x = ob_content ob) ∧
    g_unavailable g = false ∧ g_notFound g = false.
Proof.
  unfold verdict. intros Hs. destruct (g_conflict g), (g_unavailable g); try done.
  destruct (g_notFound g && g_found g) eqn:En; [done|]. case_match; [done|]. destruct (g_found g); [|done].
  rewrite andb_true_r in En.
  destruct (sort_by _ (g_exact g)) as [|first rest] eqn:E; [done|].
  destruct (existsb _ rest) eqn:Ed; [done|]. intros _. exists first. split; [done|].
  assert (∀ x, x ∈ g_exact g ↔ x ∈ first :: rest) as Hin by (intros x; by rewrite <-E, elem_of_sort_by).
  split; [apply Hin; left|]. split; [|done]. intros x Hx%Hin. apply elem_of_cons in Hx as [->|Hx]; [done|]. by eapply existsb_content_false.
Qed.

Lemma verdict_agreed g ob : g_conflict g = false → g_soleNegative g = ResolutionInvalid → g_unavailable g = false →
  g_notFound g = false → g_found g = true → ob ∈ g_exact g → (∀ x, x ∈ g_exact g → ob_content x = ob_content ob) →
  rs_state (verdict g) = ResolutionResolved.
Proof.
  unfold verdict. intros -> -> -> -> -> Hob Hall. cbn [andb negb]. rewrite bool_decide_eq_true_2 by done. cbn [andb negb].
  assert (∀ x, x ∈ sort_by (less_on ob_content string_ltb) (g_exact g) → ob_content x = ob_content ob) as Hs
    by (intros x; rewrite elem_of_sort_by; apply Hall).
  assert (ob ∈ sort_by (less_on ob_content string_ltb) (g_exact g)) as Hin by by rewrite elem_of_sort_by.
  destruct (sort_by _ (g_exact g)) as [|first rest]; [by apply elem_of_nil in Hin|].
  rewrite (proj2 (existsb_content_false first rest)); [done|]. intros x Hx.
  rewrite (Hs x) by by right. by rewrite (Hs first) by left.
Qed.

(** ** What the verdict means *)

(** The object is the one the reference names. *)
Definition names_object (ref : ResolutionReference) (ob : ResolvedObject) : bool :=
  bool_decide (kr_kind (ob_reference ob) = kr_kind ref) && bool_decide (kr_id (ob_reference ob) = kr_id ref) &&
  bool_decide (kr_version (ob_reference ob) = kr_version ref) && bool_decide (ob_contentDigest ob = kr_digest ref).

Section aggregate.
Variables (ref : ResolutionReference) (cfg : SourceConfiguration).

(** The answers by what they count as. *)
Definition exact_answer (o : SourceObservation) : bool :=
  admitted ref cfg o && bool_decide (so_State o = ResolutionResolved) && negb (mirror o) && names_object ref (so_Object o).
Definition said (s : ResolutionState) (o : SourceObservation) : bool :=
  admitted ref cfg o && authoritative o && bool_decide (so_State o = s).
Definition negative (o : SourceObservation) : bool :=
  admitted ref cfg o && negb (mirror o) &&
  match so_State o with
  | ResolutionUnavailable | ResolutionNotFound => false
  | ResolutionResolved => authoritative o && negb (names_object ref (so_Object o))
  | _ => true
  end.

Record observed (obs : list SourceObservation) (g : aggregation) : Prop := mkObserved {
  observed_prov : g_prov g = map provenance_of (List.filter (admitted ref cfg) obs);
  observed_exact : g_exact g = map so_Object (List.filter exact_answer obs);
  observed_found : g_found g = existsb exact_answer obs;
  observed_unavailable : g_unavailable g = existsb (said ResolutionUnavailable) obs;
  observed_notFound : g_notFound g = existsb (said ResolutionNotFound) obs;
  observed_sole : g_soleNegative g ≠ ResolutionResolved;
  observed_negative : existsb negative obs = false → g_conflict g = false ∧ g_soleNegative g = ResolutionInvalid }.

Lemma wrong_spec s o g p : s ≠ ResolutionResolved →
  let g0 := mkAggregation (g_prov g ++ p) (g_exact g) (g_conflict g) (g_unavailable g) (g_found g) (g_notFound g) (g_soleNegative g) in
  let g' := wrong_object s o g0 in
  g_prov g' = g_prov g ++ p ∧ g_exact g' = g_exact g ∧ g_found g' = g_found g ∧ g_unavailable g' = g_unavailable g ∧
  g_notFound g' = g_notFound g ∧ (g_soleNegative g ≠ ResolutionResolved → g_soleNegative g' ≠ ResolutionResolved) ∧
  (authoritative o = false → g_conflict g' = g_conflict g ∧ g_soleNegative g' = g_soleNegative g).
Proof. unfold wrong_object. destruct (authoritative o); cbn; [case_bool_decide|]; done. Qed.

(** One observation adds to each variable what its class says. *)
Lemma observe_spec g o :
  let g' := observe ref cfg g o in
  g_prov g' = g_prov g ++ (if admitted ref cfg o then [provenance_of o] else []) ∧
  g_exact g' = g_exact g ++ (if exact_answer o then [so_Object o] else []) ∧
  g_found g' = g_found g || exact_answer o ∧
  g_unavailable g' = g_unavailable g || said ResolutionUnavailable o ∧
  g_notFound g' = g_notFound g || said ResolutionNotFound o ∧
  (g_soleNegative g ≠ ResolutionResolved → g_soleNegative g' ≠ ResolutionResolved) ∧
  (negative o = false → g_conflict g' = g_conflict g ∧ g_soleNegative g' = g_soleNegative g).
Proof.
  cbv zeta. unfold observe, exact_answer, said, negative.
  destruct (admitted ref cfg o); cbn [negb andb]; [|by rewrite !app_nil_r, !orb_false_r].
  destruct (bool_decide (so_State o = ResolutionResolved)) eqn:Er.
  - apply bool_decide_eq_true in Er. rewrite Er. cbn [bool_decide negb andb].
    repeat rewrite (bool_decide_eq_false_2 (ResolutionResolved = _)) by done. cbn [negb]. rewrite !andb_false_r, !orb_false_r.
    destruct (mirror o); cbn [negb andb]; [by rewrite app_nil_r, orb_false_r|]. unfold names_object.
    repeat (case_bool_decide; cbn [negb orb andb]);
      first [by rewrite !orb_true_r, ?andb_false_r|rewrite ?app_nil_r, ?orb_false_r, ?andb_true_r; by apply wrong_spec].
  - apply bool_decide_eq_false in Er.
    destruct (so_State o); try done; cbn; unfold negative_state; destruct (authoritative o), (mirror o); cbn;
      repeat case_bool_decide; cbn; by rewrite ?app_nil_r, ?orb_false_r, ?orb_true_r.
Qed.

Lemma observed_all obs : observed obs (foldl (observe ref cfg) no_observation obs).
Proof.
  induction obs as [|o obs IH] using rev_ind; [by split|].
  rewrite foldl_app. cbn [foldl]. destruct IH as [Hp He Hf Hu Hn Hs Hneg].
  destruct (observe_spec (foldl (observe ref cfg) no_observation obs) o) as (Hp' & He' & Hf' & Hu' & Hn' & Hs' & Hneg').
  split.
  - rewrite Hp', Hp, List.filter_app, map_app. cbn. by destruct (admitted ref cfg o).
  - rewrite He', He, List.filter_app, map_app. cbn. by destruct (exact_answer o).
  - by rewrite Hf', Hf, existsb_app; cbn; rewrite orb_false_r.
  - by rewrite Hu', Hu, existsb_app; cbn; rewrite orb_false_r.
  - by rewrite Hn', Hn, existsb_app; cbn; rewrite orb_false_r.
  - by apply Hs'.
  - rewrite existsb_app. intros [Hl Hr]%orb_false_iff. cbn in Hr. rewrite orb_false_r in Hr.
    destruct (Hneg Hl) as [Hc Hi], (Hneg' Hr) as [Hc' Hi']. by rewrite Hc', Hi'.
Qed.

(** Exactly the requested object: some source that may answer gave it, all the
    sources that gave it gave the same content, and no authoritative source was
    unavailable or without it. *)
Record resolvable (obs : list SourceObservation) (ob : ResolvedObject) : Prop := mkResolvable {
  resolvable_given : ∃ o, o ∈ obs ∧ exact_answer o = true ∧ so_Object o = ob;
  resolvable_agreed : ∀ o, o ∈ obs → exact_answer o = true → ob_content (so_Object o) = ob_content ob;
  resolvable_available : ∀ o, o ∈ obs → admitted ref cfg o = true → authoritative o = true →
    so_State o ≠ ResolutionUnavailable ∧ so_State o ≠ ResolutionNotFound }.

Lemma said_none s obs : existsb (said s) obs = false ↔
  ∀ o, o ∈ obs → admitted ref cfg o = true → authoritative o = true → so_State o ≠ s.
Proof.
  split.
  - intros H o Hin Ha Hau Hs. apply (existsb_false_elem _ _ _ H) in Hin. unfold said in Hin.
    rewrite Ha, Hau, bool_decide_eq_true_2 in Hin; done.
  - intros H. apply not_true_iff_false. intros (o & Hin & Ho)%existsb_exists. apply list_elem_of_In in Hin.
    unfold said in Ho. apply andb_prop in Ho as [[Ha Hau]%andb_prop Hs%bool_decide_eq_true_1]. by eapply H.
Qed.

Lemma elem_of_exact obs x : x ∈ map so_Object (List.filter exact_answer obs) ↔
  ∃ o, o ∈ obs ∧ exact_answer o = true ∧ so_Object o = x.
Proof.
  rewrite list_elem_of_In, in_map_iff. setoid_rewrite filter_In. setoid_rewrite <-list_elem_of_In. naive_solver.
Qed.

(** A reference is resolved only to the object it names, and every answer of a
    participating source is accounted for in the provenance.  Without a negative
    answer the sources' agreement is also enough. *)
Theorem AggregateObservations_resolved obs :
  let r := AggregateObservations ref cfg obs in
  rs_provenance r ≡ₚ map provenance_of (List.filter (admitted ref cfg) obs) ∧
  (∀ ob, rs_object r = Some ob → rs_state r = ResolutionResolved) ∧
  (rs_state r = ResolutionResolved → ∃ ob, rs_object r = Some ob ∧ names_object ref ob = true ∧ resolvable obs ob) ∧
  ((∃ ob, resolvable obs ob) → existsb negative obs = false → rs_state r = ResolutionResolved).
Proof.
  cbv zeta. destruct (observed_all obs) as [Hp He Hf Hu Hn Hs Hneg]. unfold AggregateObservations.
  split; [by rewrite verdict_provenance, Hp|]. split; [apply verdict_object|]. split.
  - intros (ob & Hob & Hin & Hall & Hav & Hnf)%verdict_resolved; [|done]. exists ob. split; [done|].
    rewrite He in Hin. apply elem_of_exact in Hin as (o & Ho & Hex & <-). rewrite Hu in Hav. rewrite Hn in Hnf.
    split; [unfold exact_answer in Hex; by apply andb_prop in Hex as [_ ?]|]. split; [by exists o| |].
    + intros o' Ho' Hex'. apply Hall. rewrite He. apply elem_of_exact. by exists o'.
    + intros o' Ho' Ha Hau. split; by eapply said_none.
  - intros [ob [(o & Ho & Hex & Hob) Hag Hav]] [Hc Hi]%Hneg. apply (verdict_agreed _ ob); try done.
    + rewrite Hu. apply said_none. intros. by apply Hav.
    + rewrite Hn. apply said_none. intros. by apply Hav.
    + rewrite Hf. apply existsb_exists. exists o. by rewrite <-list_elem_of_In.
    + rewrite He. apply elem_of_exact. by exists o.
    + intros x. rewrite He. intros (o' & Ho' & Hex' & <-)%elem_of_exact. by apply Hag.
Qed.
End aggregate.

Module Sim.
Definition digest : string := "sha256:" +:+ join "" (replicate 64 "a").
Definition other_digest : string := "sha256:" +:+ join "" (replicate 64 "b").
Definition ref : ResolutionReference := mkResolutionReference KindAuthorityRule "r" "v1" digest.
Definition source (id : string) (mode : SourceMode) : AuthoritySource := mkSource id "memory" [KindAuthorityRule] 1 digest true mode.
Definition a : AuthoritySource := source "a" SourceAuthoritative.
Definition b : AuthoritySource := source "b" SourceAuthoritative.
Definition m : AuthoritySource := source "m" SourceMirror.
Definition cfg : SourceConfiguration := mkConfiguration [a; b; m] digest.
Definition object (digest content : string) : ResolvedObject :=
  mkObject (mkResolutionReference KindAuthorityRule "r" "v1" digest) digest content.
Definition answers (s : AuthoritySource) (ob : ResolvedObject) : SourceObservation := mkSourceObservation s ResolutionResolved ob.
Definition says (s : AuthoritySource) (state : ResolutionState) : SourceObservation :=
  mkSourceObservation s state (mkObject (mkResolutionReference "" "" "" "") "" "").
Definition exact : ResolvedObject := object digest "same".
Definition state (obs : list SourceObservation) : ResolutionState := rs_state (AggregateObservations ref cfg obs).

(** The rows of the table of ADR-0012 that the code agrees with. *)
Example aggregation_examples :
  map state [[answers a exact; answers b exact]; [answers a exact; answers b (object digest "other")];
             [answers a exact; says b ResolutionNotFound]; [answers a exact; says b ResolutionUnavailable];
             [says a ResolutionNotFound; says b ResolutionNotFound]; [says a ResolutionNotFound; says b ResolutionUnavailable];
             [answers a exact; answers m (object digest "other")]; [says a ResolutionDigestMismatch]] =
  [ResolutionResolved; ResolutionAmbiguous; ResolutionUnavailable; ResolutionUnavailable; ResolutionNotFound;
   ResolutionUnavailable; ResolutionResolved; ResolutionDigestMismatch].
Proof. vm_compute. reflexivity. Qed.

(** The rows it does not agree with: a digest mismatch, or an object of another
    digest, at one authoritative source beside the exact object at another is to
    be AMBIGUOUS and never RESOLVED. *)
Lemma mismatch_beside_exact_resolves :
  state [says a ResolutionDigestMismatch; answers b exact] = ResolutionResolved ∧
  state [answers a exact; answers b (object other_digest "other")] = ResolutionResolved.
Proof. by vm_compute. Qed.

(** The verdict depends on the order of the observations. *)
Definition old_version : ResolvedObject := mkObject (mkResolutionReference KindAuthorityRule "r" "v0" digest) digest "old".
Lemma verdict_depends_on_order :
  state [says a ResolutionVersionMismatch; answers b old_version] = ResolutionAmbiguous ∧
  state [answers b old_version; says a ResolutionVersionMismatch] = ResolutionVersionMismatch.
Proof. by vm_compute. Qed.
End Sim.
