(* ===== verification/AuthorityCanonical.v ===== *)
(** * internal/authority/binding.go: canonical bytes and digests

    The canonical JSON of the authority domain, [writeCanonical]: keys in byte
    order, no HTML escapes, no invalid UTF-8 and no NUL byte in any string. A Go
    map is an object with its keys in byte order. When several parts of a value
    are refused, which of them the error names is not modelled. On top of it,
    the digests that bind an artifact and its authority metadata. *)
From S2P Require Import Prelude GoStd Identity Digest Json Unstructured JsonParse AuthorityDomain.

Definition containsNUL (s : string) : bool := has_byte "000" s.
Definition text_ok (s : string) : bool := valid_utf8 s && negb (containsNUL s).
Definition writeString (s : string) : string := json_string_of false s.

Fixpoint writeCanonical (v : json) : result string :=
  match v with
  | JObj fields =>
      fail_if existsb (fun f => negb (text_ok f.1)) fields with mkError "" "invalid object key";
      parts ← result_mapM (fun f => t ← writeCanonical f.2; Ok (f.1, t)) fields;
      Ok ("{" +:+ join "," (map (fun p => writeString p.1 +:+ ":" +:+ p.2) (sort_by (less_on fst string_ltb) parts)) +:+ "}")
  | JArr items => parts ← result_mapM writeCanonical items; Ok ("[" +:+ join "," parts +:+ "]")
  | JStr x => fail_if negb (text_ok x) with mkError "" "invalid string"; Ok (writeString x)
  | JBool b => Ok (if b then "true" else "false")
  | JNum t => Ok t
  | JNull => Ok "null"
  end.
Definition canonical_bytes (v : json) : result string := writeCanonical v.

(** ** The canonical form is the marshalled one *)

(** A Go value: object keys in byte order, integers as numbers. *)
Fixpoint shaped (v : json) : bool :=
  match v with
  | JObj fields => keys_ascending (map fst fields) && forallb (fun f => shaped f.2) fields
  | JArr items => forallb shaped items
  | JNum t => valid_number t
  | _ => true
  end.
(** Every string of it can be written. *)
Fixpoint clean (v : json) : bool :=
  match v with
  | JObj fields => forallb (fun f => text_ok f.1 && clean f.2) fields
  | JArr items => forallb clean items
  | JStr x => text_ok x
  | _ => true
  end.

Lemma Forall2_written {A B} (f : A → result B) (g : A → B) (c : A → bool) l k :
  Forall (fun x => ∀ y, f x = Ok y ↔ c x = true ∧ y = g x) l →
  result_mapM f l = Ok k ↔ forallb c l = true ∧ k = map g l.
Proof.
  rewrite result_mapM_Ok. intros H. revert k. induction H as [|x l Hx _ IH]; intros k; cbn.
  - split; [inversion 1; done|intros [_ ->]; constructor].
  - rewrite andb_true_iff. split.
    + inversion 1 as [|? y ? k' Hy Hk]; subst. apply Hx in Hy as [-> ->]. by apply IH in Hk as [-> ->].
    + intros [[Hc Hl] ->]. constructor; [by apply Hx|by apply IH].
Qed.

Lemma forallb_andb {A} (p q : A → bool) l : forallb (fun x => p x && q x) l = forallb p l && forallb q l.
Proof. induction l as [|x l IH]; cbn; [done|]. rewrite IH. destruct (p x), (q x), (forallb p l); done. Qed.
Lemma existsb_negb {A} (p : A → bool) l : existsb (fun x => negb (p x)) l = negb (forallb p l).
Proof. induction l as [|x l IH]; cbn; [done|]. rewrite IH. by destruct (p x). Qed.

(** The writer accepts exactly the values whose strings are UTF-8 without a NUL
    byte, and writes what [json.Marshal] without HTML escapes would. *)
Lemma writeCanonical_spec v : shaped v = true → ∀ b, writeCanonical v = Ok b ↔ clean v = true ∧ b = marshal_of false v.
Proof.
  induction v as [|x|t|x|l IH|fs IH] using json_nested_ind; intros Hc b; cbn [writeCanonical clean marshal_of shaped] in *;
    try (split; [by intros [= <-]|by intros [_ ->]]).
  - rewrite result_guard_Ok, negb_false_iff. naive_solver.
  - rewrite result_bind_Ok. setoid_rewrite (Forall2_written writeCanonical (marshal_of false) clean); [naive_solver|].
    rewrite forallb_forall in Hc. rewrite Forall_forall in IH |- *. intros x Hx. apply IH; [done|by apply Hc, list_elem_of_In].
  - apply andb_prop in Hc as [Hs Hv]. rewrite result_guard_Ok, existsb_negb, negb_false_iff, result_bind_Ok, forallb_andb.
    setoid_rewrite (Forall2_written _ (fun f => (f.1, marshal_of false f.2)) (fun f => clean f.2)).
    2:{ rewrite forallb_forall in Hv. rewrite Forall_forall in IH |- *. intros f Hf y. rewrite result_bind_Ok.
        assert (shaped f.2 = true) as Hcf by (by apply Hv, list_elem_of_In). specialize (IH f Hf Hcf). split.
        - intros (t & Ht & [= <-]). apply IH in Ht as [-> ->]. done.
        - intros [Hn ->]. eexists. split; [by apply IH|done]. }
    assert (sort_by (less_on fst string_ltb) (map (fun f : string * json => (f.1, marshal_of false f.2)) fs) =
      map (fun f => (f.1, marshal_of false f.2)) fs) as Hsort.
    { apply sort_by_id. apply keys_ascending_spec in Hs. clear -Hs. induction fs as [|f fs IH]; [constructor|]. cbn [map] in *.
      inversion Hs as [|?? Hs' Hall]; subst. constructor; [by apply IH|]. apply List.Forall_map. apply List.Forall_map in Hall.
      eapply Forall_impl; [exact Hall|]. intros g Hg. unfold not_above, less_on. cbn in *. by apply less_asym. }
    rewrite andb_true_iff. split.
    + intros [Hn (parts & [Hf ->] & [= <-])]. rewrite Hsort, List.map_map. done.
    + intros [[Hn Hf] ->]. split; [done|]. exists (map (fun f => (f.1, marshal_of false f.2)) fs).
      split; [done|]. rewrite Hsort, List.map_map. done.
Qed.

Lemma clean_canonical v : shaped v = true → clean v = true → canonical v = true.
Proof.
  induction v as [|x|t|x|l IH|fs IH] using json_nested_ind; intros Hs Hc; cbn [shaped clean canonical] in *; try done.
  - by apply andb_prop in Hc as [? _].
  - rewrite forallb_forall in Hs, Hc |- *. rewrite Forall_forall in IH. intros x Hx.
    apply IH; [by apply list_elem_of_In|by apply Hs|by apply Hc].
  - apply andb_prop in Hs as [-> Hs]. cbn [andb]. rewrite forallb_forall in Hs, Hc |- *. rewrite Forall_forall in IH. intros f Hf.
    specialize (Hc f Hf). apply andb_prop in Hc as [[Hu _]%andb_prop Hc]. rewrite Hu. cbn [andb].
    apply IH; [by apply list_elem_of_In|by apply Hs|done].
Qed.

Lemma canonical_bytes_inj v w b :
  shaped v = true → shaped w = true → canonical_bytes v = Ok b → canonical_bytes w = Ok b → v = w.
Proof.
  intros Hv Hw [Cv ->]%writeCanonical_spec [Cw E]%writeCanonical_spec; [|done..].
  eapply marshal_inj; [..|exact E]; by apply clean_canonical.
Qed.

(** ** Map literals *)
Lemma shaped_obj_of fs : NoDup fs.*1 → Forall (fun f => shaped f.2 = true) fs → shaped (obj_of fs) = true.
Proof.
  intros Hnd Hall. unfold obj_of. cbn [shaped]. apply andb_true_iff. split.
  - apply keys_ascending_spec.
    assert (NoDup (sort_by (less_on fst string_ltb) fs).*1) as Hn by (by rewrite sort_by_perm).
    pose proof (sort_by_sorted (less_on fst string_ltb) fs) as Hs. revert Hs Hn. generalize (sort_by (less_on fst string_ltb) fs).
    clear. induction 1 as [|f l _ IH Hf]; [constructor|]. rewrite fmap_cons. intros [Hin Hn]%NoDup_cons. cbn [map].
    constructor; [by apply IH|]. apply List.Forall_map. rewrite Forall_forall in Hf |- *. intros g Hg.
    specialize (Hf g Hg). unfold not_above, less_on in Hf. destruct (string_ltb f.1 g.1) eqn:E; [done|].
    destruct Hin. assert (f.1 = g.1) as -> by (by apply less_total). by apply list_elem_of_fmap_2.
  - apply forallb_forall. intros f Hf%list_elem_of_In. rewrite elem_of_sort_by in Hf. rewrite Forall_forall in Hall.
    by apply Hall.
Qed.

Lemma NoDup_zip_inj {A B} (ks : list A) (vs vs' : list B) : NoDup ks → length vs = length ks → length vs' = length ks →
  zip ks vs ≡ₚ zip ks vs' → vs = vs'.
Proof.
  revert vs vs'. induction ks as [|k ks IH]; intros [|v vs] [|v' vs'] Hnd Hl Hl' Hp; try done; cbn in *.
  apply NoDup_cons in Hnd as [Hk Hnd]. assert (v = v') as <-.
  { assert ((k, v) ∈ (k, v') :: zip ks vs') as [[= ->]|Hin]%elem_of_cons by (rewrite <-Hp; left); [done|].
    by apply elem_of_zip_l in Hin. }
  f_equal. apply IH; [done|lia|lia|]. by apply Permutation_cons_inv in Hp.
Qed.

(** Literals over the same keys are equal only when their values are. *)
Lemma obj_of_inj ks vs vs' : bool_decide (NoDup ks) = true → length vs = length ks → length vs' = length ks →
  obj_of (zip ks vs) = obj_of (zip ks vs') → vs = vs'.
Proof.
  intros Hnd%bool_decide_eq_true_1 Hl Hl' [= E]. apply (NoDup_zip_inj ks); [done..|].
  by rewrite <-(sort_by_perm (less_on fst string_ltb) (zip ks vs)), E, sort_by_perm.
Qed.

(** ** Digests *)
Definition hashDomain (domain payload : string) : string := sha256_digest (domain +:+ nul +:+ payload).
Definition validDigest (s : string) : bool := sha256_hex true s.
(** [s[7:]], which panics on a shorter string. *)
Fixpoint drop_bytes (n : nat) (s : string) : result string :=
  match n, s with
  | 0, _ => Ok s
  | S n, String _ s => drop_bytes n s
  | S _, EmptyString => Err (mkError "" "slice bounds out of range")
  end.
Definition slice7 : string → result string := drop_bytes 7.

Definition BindingMechanism : string := "landlock-genprof/bound-candidate/v1".
Record ArtifactProjection := mkProjection {
  ap_Container : string; ap_Binary : string; ap_PodLock : string; ap_NetworkPolicy : string; ap_PatchedManifest : string;
  ap_SPOSeccompProfile : string }.
Definition artifact_keys : list string :=
  ["artifactSchema"; "Binary"; "Container"; "NetworkPolicy"; "PatchedManifest"; "PodLock"; "SPOSeccompProfile"].
Definition artifact_value (a : ArtifactProjection) : json :=
  obj_of (zip artifact_keys [JStr "1"; JStr (ap_Binary a); JStr (ap_Container a); JStr (ap_NetworkPolicy a);
                             JStr (ap_PatchedManifest a); JStr (ap_PodLock a); JStr (ap_SPOSeccompProfile a)]).
Definition CanonicalArtifactBytes (a : ArtifactProjection) : result string := canonical_bytes (artifact_value a).
Definition ArtifactDigestOf (a : ArtifactProjection) : result (string * string) :=
  b ← CanonicalArtifactBytes a; Ok (hashDomain "landlock-genprof/artifact/v1" b, b).

Definition digest_keys : list string := ["algorithm"; "hex"].
Definition digest_value (hex : string) : json := obj_of (zip digest_keys [JStr "sha256"; JStr hex]).
Definition reference_keys : list string := ["digest"; "id"; "kind"; "version"].
Definition refValue (kind : string) (r : referenceData) : result json :=
  hex ← slice7 (ref_digest r);
  Ok (obj_of (zip reference_keys [digest_value hex; JStr (ref_id r); JStr kind; JStr (ref_version r)])).

Definition bytes_or_nil (v : json) : string := match canonical_bytes v with Ok b => b | Err _ => "" end.
Definition sortedRefs {T} (data : T → referenceData) (kind : string) (refs : list T) : result json :=
  vals ← result_mapM (fun r => refValue kind (data r)) refs;
  Ok (JArr (sort_by (less_on bytes_or_nil string_ltb) vals)).

Definition metadata_keys : list string :=
  ["authoritySchema"; "authorityRule"; "baseline"; "certifications"; "compatibility"; "composition"; "context"; "evidence";
   "registries"; "trustPolicy"; "verifiers"].
Definition context_keys : list string :=
  ["abi"; "architecture"; "configuration"; "environment"; "executable"; "featureSet"; "image"; "kernelRuntime"; "libc";
   "namespaceSecurity"; "persistentState"; "privilege"; "workload"].
Definition context_value (c : SecurityContextIdentity) : json :=
  obj_of (zip context_keys (map JStr [ABI c; Architecture c; ConfigurationID c; EnvironmentID c; ExecutableIdentity c;
    FeatureSetID c; ImageIdentity c; KernelRuntimeClass c; LibcIdentity c; NamespaceSecurity c; PersistentStateID c;
    PrivilegeContext c; WorkloadIdentity c])).
Definition metadata_value (m : AuthorityMetadata) : result json :=
  registries ← sortedRefs (fun r => registry_data (Registry r)) "RegistryRef" (am_registries m);
  evidence ← sortedRefs evidence_data "EvidenceRef" (am_evidence m);
  verifiers ← sortedRefs verifier_data "VerifierRef" (am_verifiers m);
  certifications ← sortedRefs certification_data "CertificationRef" (am_certifications m);
  rule ← refValue "AuthorityRuleRef" (rule_data (am_authorityRule m));
  baseline ← refValue "BaselineRef" (baseline_data (am_baseline m));
  compatibility ← refValue "CompatibilityRuleRef" (compatibility_data (am_compatibility m));
  composition ← refValue "CompositionOperatorRef" (composition_data (am_composition m));
  policy ← refValue "TrustPolicyRef" (policy_data (am_trustPolicy m));
  Ok (obj_of (zip metadata_keys [JStr "1"; rule; baseline; certifications; compatibility; composition;
    context_value (am_context m); evidence; registries; policy; verifiers])).
Definition CanonicalAuthorityBytes (m : AuthorityMetadata) : result string :=
  m ← NewAuthorityMetadata m; root ← metadata_value m; canonical_bytes root.
Definition AuthorityMetadataDigestOf (m : AuthorityMetadata) : result (string * string) :=
  b ← CanonicalAuthorityBytes m; Ok (hashDomain "landlock-genprof/authority-metadata/v1" b, b).

Definition candidate_keys : list string := ["artifactDigest"; "authorityMetadataDigest"; "bindingMechanism"; "hashAlgorithm"].
Definition CanonicalBoundCandidateBytes (a m : string) : result string :=
  fail_if negb (validDigest a) || negb (validDigest m) with mkError "" "invalid modern digest";
  ha ← slice7 a; hm ← slice7 m;
  canonical_bytes (obj_of (zip candidate_keys [digest_value ha; digest_value hm;
    obj_of [("id", JStr "landlock-genprof/bound-candidate"); ("version", JStr "1")]; JStr "sha256"])).
Definition BoundCandidateDigestOf (a m : string) : result (string * string) :=
  b ← CanonicalBoundCandidateBytes a m; Ok (hashDomain BindingMechanism b, b).

(** ** What the digests bind *)
Lemma shaped_literal ks vs : bool_decide (NoDup ks) = true → length vs = length ks → Forall (fun v => shaped v = true) vs →
  shaped (obj_of (zip ks vs)) = true.
Proof.
  intros Hnd%bool_decide_eq_true_1 Hl Hvs. apply shaped_obj_of.
  - change (NoDup (fst <$> zip ks vs)). by rewrite fst_zip by lia.
  - rewrite Forall_forall in Hvs. apply Forall_forall. intros [k v] Hin. apply Hvs. by eapply elem_of_zip_r.
Qed.

Lemma clean_literal ks vs : forallb text_ok ks = true → Forall (fun v => clean v = true) vs → clean (obj_of (zip ks vs)) = true.
Proof.
  intros Hks Hvs. unfold obj_of. cbn [clean]. apply forallb_forall. intros [k v] Hin%list_elem_of_In.
  rewrite elem_of_sort_by in Hin. rewrite forallb_forall in Hks. rewrite Forall_forall in Hvs. apply andb_true_iff. split.
  - apply Hks, list_elem_of_In. by eapply elem_of_zip_l.
  - apply Hvs. by eapply elem_of_zip_r.
Qed.

Lemma drop_prefix_Some p s r : drop_prefix p s = Some r → s = p +:+ r.
Proof.
  revert s. induction p as [|a p IH]; intros s; cbn; [by intros [= ->]|].
  destruct s as [|b s]; [done|]. case_bool_decide; [subst|done]. by intros ->%IH.
Qed.
Lemma slice7_valid u d : sha256_hex u d = true → ∃ h, slice7 d = Ok h ∧ d = "sha256:" +:+ h.
Proof.
  unfold sha256_hex. destruct (drop_prefix "sha256:" d) as [h|] eqn:E; [|done]. intros _.
  apply drop_prefix_Some in E as ->. by exists h.
Qed.
Lemma slice7_inj u d d' h : sha256_hex u d = true → sha256_hex u d' = true → slice7 d = Ok h → slice7 d' = Ok h → d = d'.
Proof. intros (k & Hk & ->)%slice7_valid (k' & Hk' & ->)%slice7_valid. congruence. Qed.

Lemma digest_value_inj h h' : digest_value h = digest_value h' → h = h'.
Proof. unfold digest_value. intros E%obj_of_inj; [|done..]. by injection E. Qed.
Lemma digest_value_shaped h : shaped (digest_value h) = true.
Proof. apply shaped_literal; [done|done|]. by repeat constructor. Qed.

Lemma refValue_inj kind r r' v : Digest_Valid (ref_digest r) = true → Digest_Valid (ref_digest r') = true →
  refValue kind r = Ok v → refValue kind r' = Ok v → r = r'.
Proof.
  unfold refValue. intros Hd Hd' (h & Hh & <-%Ok_inj)%result_bind_Ok (h' & Hh' & E%Ok_inj)%result_bind_Ok.
  apply obj_of_inj in E; [|done..]. injection E as Eh Hid Hv. subst h'.
  destruct r, r'; cbn in *. f_equal; [done|done|]. by eapply slice7_inj.
Qed.
Lemma refValue_shaped kind r v : refValue kind r = Ok v → shaped v = true.
Proof.
  unfold refValue. intros (h & _ & <-%Ok_inj)%result_bind_Ok. apply shaped_literal; [done|done|].
  by repeat constructor.
Qed.

Lemma sortedRefs_shaped {T} (data : T → referenceData) kind refs v : sortedRefs data kind refs = Ok v → shaped v = true.
Proof.
  unfold sortedRefs. intros (vals & Hvals & [= <-])%result_bind_Ok. apply result_mapM_Ok in Hvals. cbn [shaped].
  apply forallb_forall. intros v Hv%list_elem_of_In. rewrite elem_of_sort_by in Hv.
  apply list_elem_of_lookup_1 in Hv as [i Hi]. destruct (Forall2_lookup_r _ _ _ _ _ Hvals Hi) as (r & _ & Hr).
  by eapply refValue_shaped.
Qed.
Lemma sortedRefs_perm {T} (data : T → referenceData) kind refs refs' v : Inj eq eq data →
  Forall (fun r => Digest_Valid (ref_digest (data r)) = true) refs →
  Forall (fun r => Digest_Valid (ref_digest (data r)) = true) refs' →
  sortedRefs data kind refs = Ok v → sortedRefs data kind refs' = Ok v → refs ≡ₚ refs'.
Proof.
  unfold sortedRefs. intros Hinj Hr Hr' (vals & Hv & [= <-])%result_bind_Ok (vals' & Hv' & [= E])%result_bind_Ok.
  apply result_mapM_Ok in Hv, Hv'.
  assert (vals ≡ₚ vals') as Hp by (by rewrite <-(sort_by_perm (less_on bytes_or_nil string_ltb) vals), <-E, sort_by_perm).
  apply Forall2_flip in Hv. destruct (Permutation_Forall2 Hp Hv) as (refs2 & Hp2 & H2). rewrite Hp2.
  rewrite Hp2 in Hr. apply Forall2_flip in H2. enough (refs2 = refs') as -> by done. clear -Hinj Hr Hr' H2 Hv'.
  revert refs' Hr' Hv'. induction H2 as [|r v refs2 vals' Hx _ IH]; intros refs' Hr' Hv'; inversion Hv'; subst; [done|].
  inversion Hr; inversion Hr'; subst. f_equal; [|by apply IH]. apply Hinj. by eapply refValue_inj.
Qed.

(** The same metadata, up to the order of its reference lists. *)
Record same_metadata (m m' : AuthorityMetadata) : Prop := mkSameMetadata {
  same_rule : am_authorityRule m = am_authorityRule m';
  same_policy : am_trustPolicy m = am_trustPolicy m';
  same_baseline : am_baseline m = am_baseline m';
  same_compatibility : am_compatibility m = am_compatibility m';
  same_composition : am_composition m = am_composition m';
  same_context : am_context m = am_context m';
  same_registries : am_registries m ≡ₚ am_registries m';
  same_evidence : am_evidence m ≡ₚ am_evidence m';
  same_verifiers : am_verifiers m ≡ₚ am_verifiers m';
  same_certifications : am_certifications m ≡ₚ am_certifications m' }.

(** The optional references of the metadata come from their constructors. *)
Definition references_ok (m : AuthorityMetadata) : bool :=
  forallb (fun r => Digest_Valid (ref_digest (evidence_data r))) (am_evidence m) &&
  forallb (fun r => Digest_Valid (ref_digest (verifier_data r))) (am_verifiers m) &&
  forallb (fun r => Digest_Valid (ref_digest (certification_data r))) (am_certifications m).

Lemma NewAuthorityMetadata_Ok v m : NewAuthorityMetadata v = Ok m → m = v ∧
  Digest_Valid (ref_digest (rule_data (am_authorityRule v))) = true ∧
  Digest_Valid (ref_digest (policy_data (am_trustPolicy v))) = true ∧
  Digest_Valid (ref_digest (baseline_data (am_baseline v))) = true ∧
  Digest_Valid (ref_digest (compatibility_data (am_compatibility v))) = true ∧
  Digest_Valid (ref_digest (composition_data (am_composition v))) = true ∧
  Forall (fun r => Digest_Valid (ref_digest (registry_data (Registry r))) = true) (am_registries v).
Proof.
  unfold NewAuthorityMetadata. intros [Hd H]%result_guard_Ok. rewrite !orb_false_iff, !negb_false_iff in Hd.
  destruct Hd as [[[[Hr Hp] Hb] Hc] Ho].
  apply result_bind_Ok in H as (ctx & [_ [= <-]]%result_guard_Ok & H).
  apply result_guard_Ok in H as [_ [Hreg [_ [= <-]]%result_guard_Ok]%result_guard_Ok]. split; [by destruct v|].
  split_and!; [done..|]. apply Forall_forall. intros r Hin. by apply (existsb_false_elem _ _ _ Hreg), negb_false_iff in Hin.
Qed.

Lemma context_value_inj c c' : context_value c = context_value c' → c = c'.
Proof. destruct c, c'. intros E%obj_of_inj; [|done..]. cbn in E. by injection E; intros; subst. Qed.
Lemma context_value_shaped c : shaped (context_value c) = true.
Proof. apply shaped_literal; [done|done|]. by repeat constructor. Qed.

Lemma metadata_value_shaped m v : metadata_value m = Ok v → shaped v = true.
Proof.
  unfold metadata_value. intros H. repeat (apply result_bind_Ok in H as (? & ?Hs & H)). apply Ok_inj in H as <-.
  apply shaped_literal; [done|done|].
  repeat match goal with H : sortedRefs _ _ _ = Ok _ |- _ => apply sortedRefs_shaped in H
         | H : refValue _ _ = Ok _ |- _ => apply refValue_shaped in H end.
  repeat (constructor; [first [done|apply context_value_shaped]|]). constructor.
Qed.

Lemma cons_eq {A} (x y : A) l k : x :: l = y :: k → x = y ∧ l = k.
Proof. by intros [= -> ->]. Qed.
Ltac split_list H := repeat (apply cons_eq in H as [?Heq H]).

Lemma forallb_Forall_true {A} (p : A → bool) l : forallb p l = true → Forall (fun x => p x = true) l.
Proof. rewrite forallb_forall. intros H. apply Forall_forall. intros x Hx. by apply H, list_elem_of_In. Qed.

(** Two references, or two reference lists, of the same canonical value. *)
Ltac same_reference :=
  match goal with
  | H : refValue ?k (?d ?a) = Ok ?v, H' : refValue ?k (?d ?b) = Ok ?v |- ?a = ?b =>
      let E := fresh in
      assert (d a = d b) as E by (apply (refValue_inj k _ _ v); assumption); destruct a, b; cbn in E; by subst
  end.
Ltac same_references :=
  match goal with
  | H : sortedRefs ?d ?k ?a = Ok ?v, H' : sortedRefs ?d ?k ?b = Ok ?v |- ?a ≡ₚ ?b =>
      apply (sortedRefs_perm d k a b v);
        [|first [assumption|by apply forallb_Forall_true]|first [assumption|by apply forallb_Forall_true]|exact H|exact H']
  end.

Lemma metadata_value_inj m m' v : NewAuthorityMetadata m = Ok m → NewAuthorityMetadata m' = Ok m' →
  references_ok m = true → references_ok m' = true → metadata_value m = Ok v → metadata_value m' = Ok v → same_metadata m m'.
Proof.
  intros (_ & Hr & Hp & Hb & Hc & Ho & Hreg)%NewAuthorityMetadata_Ok (_ & Hr' & Hp' & Hb' & Hc' & Ho' & Hreg')%NewAuthorityMetadata_Ok
    Hok Hok'. unfold metadata_value. intros H H'.
  repeat (apply result_bind_Ok in H as (? & ?Hs & H)). repeat (apply result_bind_Ok in H' as (? & ?Hs' & H')).
  apply Ok_inj in H as <-. apply Ok_inj, obj_of_inj in H'; [|done..]. split_list H'. clear H'.
  apply andb_prop in Hok as [[He Hv]%andb_prop Hce], Hok' as [[He' Hv']%andb_prop Hce']. subst.
  split; try same_reference; try same_references; try (by apply context_value_inj).
  all: intros [d] [d'] E; cbn in E; subst; try done. by destruct d, d'; cbn in E; subst.
Qed.

(** What a hash is taken of. *)
Definition hashed (domain payload : string) : string := domain +:+ nul +:+ payload.
Lemma hashDomain_inj domain p p' : hashDomain domain p = hashDomain domain p' → p = p' ∨ collision (hashed domain p) (hashed domain p').
Proof.
  intros [E|?]%sha256_digest_inj; [left|by right]. by apply str_app_inj_l, str_app_inj_l in E.
Qed.
Lemma collision_sym m m' : collision m m' → collision m' m.
Proof. intros [Hne E]. by split. Qed.

Lemma digest_of_Ok (r : result string) domain x y :
  (b ← r; Ok (hashDomain domain b, b)) = Ok (x, y) ↔ r = Ok y ∧ x = hashDomain domain y.
Proof.
  rewrite result_bind_Ok. split.
  - intros (b & -> & E%Ok_inj). by apply pair_equal_spec in E as [<- <-].
  - intros [-> ->]. by exists y.
Qed.

(** The digest a candidate is bound by, from its artifact and its metadata. *)
Definition bound_digest (a : ArtifactProjection) (m : AuthorityMetadata) : result string :=
  ad ← ArtifactDigestOf a; md ← AuthorityMetadataDigestOf m; fst <$> BoundCandidateDigestOf ad.1 md.1.

(** Two of the encodings collide under SHA-256. *)
Inductive bound_collision (a a' : ArtifactProjection) (m m' : AuthorityMetadata) : Prop :=
| artifact_collision b b' : CanonicalArtifactBytes a = Ok b → CanonicalArtifactBytes a' = Ok b' →
    collision (hashed "landlock-genprof/artifact/v1" b) (hashed "landlock-genprof/artifact/v1" b') → bound_collision a a' m m'
| metadata_collision b b' : CanonicalAuthorityBytes m = Ok b → CanonicalAuthorityBytes m' = Ok b' →
    collision (hashed "landlock-genprof/authority-metadata/v1" b) (hashed "landlock-genprof/authority-metadata/v1" b') →
    bound_collision a a' m m'
| candidate_collision ad ba md bm ad' ba' md' bm' b b' : ArtifactDigestOf a = Ok (ad, ba) → AuthorityMetadataDigestOf m = Ok (md, bm) →
    ArtifactDigestOf a' = Ok (ad', ba') → AuthorityMetadataDigestOf m' = Ok (md', bm') →
    CanonicalBoundCandidateBytes ad md = Ok b → CanonicalBoundCandidateBytes ad' md' = Ok b' →
    collision (hashed BindingMechanism b) (hashed BindingMechanism b') → bound_collision a a' m m'.

Lemma artifact_bytes_inj a a' b : CanonicalArtifactBytes a = Ok b → CanonicalArtifactBytes a' = Ok b → a = a'.
Proof.
  intros H H'. assert (artifact_value a = artifact_value a') as E.
  { eapply canonical_bytes_inj; [..|exact H|exact H']; (apply shaped_literal; [done|done|by repeat constructor]). }
  apply obj_of_inj in E; [|done..]. destruct a, a'. cbn in E. by injection E; intros; subst.
Qed.
Lemma metadata_bytes_inj m m' b : references_ok m = true → references_ok m' = true →
  CanonicalAuthorityBytes m = Ok b → CanonicalAuthorityBytes m' = Ok b → same_metadata m m'.
Proof.
  intros Hr Hr' (n & Hn & (v & Hv & Hb)%result_bind_Ok)%result_bind_Ok (n' & Hn' & (v' & Hv' & Hb')%result_bind_Ok)%result_bind_Ok.
  pose proof (NewAuthorityMetadata_Ok _ _ Hn) as (-> & _). pose proof (NewAuthorityMetadata_Ok _ _ Hn') as (-> & _).
  assert (v = v') as <- by (eapply canonical_bytes_inj; [..|exact Hb|exact Hb']; by eapply metadata_value_shaped).
  by eapply metadata_value_inj.
Qed.
Lemma candidate_bytes_inj ad md ad' md' b : CanonicalBoundCandidateBytes ad md = Ok b → CanonicalBoundCandidateBytes ad' md' = Ok b →
  ad = ad' ∧ md = md'.
Proof.
  unfold CanonicalBoundCandidateBytes.
  intros [[Ha Hm]%orb_false_iff (h & Hh & (k & Hk & Hb)%result_bind_Ok)%result_bind_Ok]%result_guard_Ok
    [[Ha' Hm']%orb_false_iff (h' & Hh' & (k' & Hk' & Hb')%result_bind_Ok)%result_bind_Ok]%result_guard_Ok.
  apply negb_false_iff in Ha, Hm, Ha', Hm'.
  eapply canonical_bytes_inj in Hb; [|..|exact Hb']; [|apply shaped_literal; [done|done|by repeat constructor]..].
  apply obj_of_inj in Hb; [|done..]. split_list Hb.
  apply digest_value_inj in Heq, Heq0. subst h' k'. split; by eapply slice7_inj.
Qed.

(** One digest binds one candidate: two candidates of the same bound digest have
    the same artifact and the same authority metadata, up to the order of its
    reference lists, or they exhibit a collision of SHA-256 between two of
    their canonical encodings. *)
Theorem BoundCandidateDigestOf_binds a m a' m' d : references_ok m = true → references_ok m' = true →
  bound_digest a m = Ok d → bound_digest a' m' = Ok d → (a = a' ∧ same_metadata m m') ∨ bound_collision a a' m m'.
Proof.
  intros Hr Hr'. unfold bound_digest.
  intros ([ad ba] & Ha & ([md bm] & Hm & Hd)%result_bind_Ok)%result_bind_Ok
    ([ad' ba'] & Ha' & ([md' bm'] & Hm' & Hd')%result_bind_Ok)%result_bind_Ok. cbn [fst] in Hd, Hd'.
  destruct (BoundCandidateDigestOf ad md) as [[x b]|] eqn:Hb; [|done]. injection Hd as ->.
  destruct (BoundCandidateDigestOf ad' md') as [[x' b']|] eqn:Hb'; [|done]. injection Hd' as ->.
  apply digest_of_Ok in Hb as [Hc Hx], Hb' as [Hc' E]. rewrite Hx in E. clear Hx d.
  apply hashDomain_inj in E as [<-|E]; [|right; by eapply candidate_collision].
  destruct (candidate_bytes_inj _ _ _ _ _ Hc Hc') as [<- <-].
  apply digest_of_Ok in Ha as [Ha Hx], Ha' as [Ha' E]. rewrite Hx in E. clear Hx.
  apply digest_of_Ok in Hm as [Hm Hy], Hm' as [Hm' E']. rewrite Hy in E'. clear Hy.
  apply hashDomain_inj in E as [<-|E]; [|right; by eapply artifact_collision].
  apply hashDomain_inj in E' as [<-|E']; [|right; by eapply metadata_collision].
  left. split; [by eapply artifact_bytes_inj|by eapply metadata_bytes_inj].
Qed.

(** ** Every candidate with canonical bytes has a digest *)
Lemma hex_byte u a : is_hex u a = true → ascii7 a = true ∧ a ≠ "000"%char.
Proof. destruct u, a as [[] [] [] [] [] [] [] []]; vm_compute; by intros. Qed.
Lemma hex_text_ok u h : all_bytes (is_hex u) h = true → text_ok h = true.
Proof.
  unfold text_ok, containsNUL. intros H. apply andb_true_iff. rewrite negb_true_iff.
  induction h as [|a h IH]; [done|]. cbn [all_bytes] in H. apply andb_prop in H as [Ha H].
  destruct (hex_byte u a Ha) as [H7 Hn]. destruct (IH H) as [Hu Hb]. cbn [valid_utf8 has_byte].
  rewrite H7, Hb. by rewrite bool_decide_eq_false_2.
Qed.
Lemma hashDomain_digest domain p : validDigest (hashDomain domain p) = true ∧
  ∃ h, slice7 (hashDomain domain p) = Ok h ∧ text_ok h = true.
Proof.
  pose proof (sha256_digest_shape (hashed domain p)) as H. change (sha256_digest (hashed domain p)) with (hashDomain domain p) in H.
  assert (∀ a, is_hex false a = true → is_hex true a = true) as Hup.
  { intros a. destruct a as [[] [] [] [] [] [] [] []]; vm_compute; by intros. }
  destruct (slice7_valid false _ H) as (h & Hh & E). rewrite E in H |- *. unfold validDigest, sha256_hex in *.
  rewrite drop_prefix_app in *. apply andb_prop in H as [-> H]. split; [|exists h; split; [done|by eapply hex_text_ok]].
  cbn [andb]. clear Hh E. induction h as [|a h IH]; [done|]. cbn [all_bytes] in *. apply andb_prop in H as [Ha H].
  rewrite (Hup a Ha). by apply IH.
Qed.

Lemma bound_digest_bytes b bm : ∃ d, ∀ a m, CanonicalArtifactBytes a = Ok b → CanonicalAuthorityBytes m = Ok bm →
  bound_digest a m = Ok d.
Proof.
  destruct (hashDomain_digest "landlock-genprof/artifact/v1" b) as (Va & ha & Ha & Ta).
  destruct (hashDomain_digest "landlock-genprof/authority-metadata/v1" bm) as (Vm & hm & Hm & Tm).
  set (v := obj_of (zip candidate_keys [digest_value ha; digest_value hm;
    obj_of [("id", JStr "landlock-genprof/bound-candidate"); ("version", JStr "1")]; JStr "sha256"])).
  assert (shaped v = true) as Hv by (apply shaped_literal; [done|done|by repeat constructor]).
  eexists. intros a m Ea Em. unfold bound_digest, ArtifactDigestOf, AuthorityMetadataDigestOf. rewrite Ea, Em.
  cbn [mbind result_bind fst]. unfold BoundCandidateDigestOf, CanonicalBoundCandidateBytes. rewrite Va, Vm. cbn [negb orb].
  rewrite Ha, Hm. cbn [mbind result_bind]. fold v.
  replace (canonical_bytes v) with (Ok (marshal_of false v) : result string); [cbn; reflexivity|].
  symmetry. apply writeCanonical_spec; [done|]. split; [|done].
  apply clean_literal; [done|]. repeat constructor; by apply (clean_literal digest_keys); [|repeat constructor].
Qed.

Module Sim.
Definition digest (a : string) : string := "sha256:" +:+ join "" (replicate 64 a).
Definition reference (id : string) : referenceData := mkReference id "1" (digest "a").
Definition context : SecurityContextIdentity := mkContext "i" "amd64" "sysv" "runc" "" "" "" "" "" "" "" "w" "x".
Definition metadata (evidence : list string) : AuthorityMetadata :=
  mkMetadata (mkAuthorityRuleRef (reference "rule")) (mkTrustPolicyRef (reference "policy")) (mkBaselineRef (reference "baseline"))
    [mkRegistryBinding (mkRegistryRef (reference "registry"))] (map (fun id => mkEvidenceRef (reference id)) evidence)
    [] [] (mkCompatibilityRuleRef (reference "compatibility")) (mkCompositionOperatorRef (reference "composition")) context.
Definition artifact : ArtifactProjection := mkProjection "web" "/bin/web" "" "" "" "spec".

(** Evidence in another order has the same canonical bytes. *)
Example order_of_evidence :
  is_ok (CanonicalAuthorityBytes (metadata ["e1"; "e2"])) = true ∧
  CanonicalAuthorityBytes (metadata ["e1"; "e2"]) = CanonicalAuthorityBytes (metadata ["e2"; "e1"]).
Proof. split; vm_compute; reflexivity. Qed.

Lemma BoundCandidateDigestOf_binds_witness :
  ∃ d, bound_digest artifact (metadata ["e1"; "e2"]) = Ok d ∧ bound_digest artifact (metadata ["e2"; "e1"]) = Ok d ∧
    ((artifact = artifact ∧ same_metadata (metadata ["e1"; "e2"]) (metadata ["e2"; "e1"])) ∨
     bound_collision artifact artifact (metadata ["e1"; "e2"]) (metadata ["e2"; "e1"])).
Proof.
  destruct (CanonicalArtifactBytes artifact) as [b|] eqn:Eb; [|vm_compute in Eb; discriminate Eb].
  destruct (CanonicalAuthorityBytes (metadata ["e1"; "e2"])) as [bm|] eqn:Em; [|vm_compute in Em; discriminate Em].
  destruct (bound_digest_bytes b bm) as [d Hd]. exists d.
  assert (bound_digest artifact (metadata ["e1"; "e2"]) = Ok d) as H1 by exact (Hd _ _ Eb Em).
  assert (bound_digest artifact (metadata ["e2"; "e1"]) = Ok d) as H2
    by exact (Hd _ _ Eb (eq_trans (eq_sym (proj2 order_of_evidence)) Em)).
  split; [exact H1|]. split; [exact H2|].
  apply (BoundCandidateDigestOf_binds _ _ _ _ d); [reflexivity|reflexivity|exact H1|exact H2].
Defined.
End Sim.
