(* ===== verification/Timestamp.v ===== *)
(** * Timestamps

    [time.Parse] for the layout [time.RFC3339Nano], as the instant it denotes,
    and its agreement with the formatting of GoStd: an instant of the years 1 to
    9999 is read back from the text it is written as. *)
From S2P Require Import Prelude GoStd Identity Digest.

(** ** [time.Parse(time.RFC3339Nano, s)]: the instant *)
Definition days_from_civil (y m d : Z) : Z :=
  let y := (if m <=? 2 then y - 1 else y)%Z in
  let era := (y / 400)%Z in
  let yoe := (y mod 400)%Z in
  let doy := ((153 * (if m <=? 2 then m + 9 else m - 3) + 2) / 5 + d - 1)%Z in
  (era * 146097 + (yoe * 365 + yoe / 4 - yoe / 100 + doy) - 306)%Z.
(** The first nine digits of a fraction, as nanoseconds, and what follows it. *)
Fixpoint fraction_nanos (width : Z) (s : string) : Z * string :=
  match s with
  | String a r =>
      match digit_val a with
      | Some d => let '(n, rest) := fraction_nanos (width / 10)%Z r in ((d * width + n)%Z, rest)
      | None => (0%Z, s)
      end
  | EmptyString => (0%Z, s)
  end.
Definition read_fraction (s : string) : Z * string :=
  match s with
  | String p (String a r) =>
      if bool_decide (p = "."%char ∨ p = ","%char) && bool_decide (is_Some (digit_val a))
      then fraction_nanos 100000000 (String a r) else (0%Z, s)
  | _ => (0%Z, s)
  end.
(** Seconds east of UTC. *)
Definition read_zone (s : string) : option Z :=
  match s with
  | "Z" => Some 0%Z
  | String g r =>
      if bool_decide (g = "+"%char ∨ g = "-"%char) then
        '(h, r) ← get_in true 0 24 r; r ← drop_prefix ":" r; '(m, r) ← get_in true 0 60 r;
        if bool_decide (r = "") then Some ((if bool_decide (g = "-"%char) then -1 else 1) * (h * 3600 + m * 60))%Z else None
      else None
  | EmptyString => None
  end.
Definition parse_rfc3339 (s : string) : result time :=
  match
    '(y1, r) ← getnum true s; '(y2, r) ← getnum true r; r ← drop_prefix "-" r;
    '(m, r) ← get_in true 1 12 r; r ← drop_prefix "-" r;
    '(d, r) ← getnum true r; r ← drop_prefix "T" r;
    '(hh, r) ← get_in false 0 23 r; r ← drop_prefix ":" r;
    '(mm, r) ← get_in true 0 59 r; r ← drop_prefix ":" r;
    '(ss, r) ← get_in true 0 59 r;
    let '(nanos, r) := read_fraction r in
    offset ← read_zone r;
    let y := (100 * y1 + y2)%Z in
    if ((1 <=? d)%Z && (d <=? days_in m y)%Z)
    then Some ((days_from_civil y m d * 86400 + hh * 3600 + mm * 60 + ss - offset) * 1000000000 + nanos)%Z else None
  with Some t => Ok t | None => Err (mkError "" "parsing time") end.

Example parse_rfc3339_ex :
  map parse_rfc3339 ["2024-02-29T12:34:56.12Z"; "1970-01-01T01:00:00+01:00"; "0001-01-01T00:00:00Z"; "2024-02-29T12:34:56.1234567899Z"] =
  [Ok (unix 1709210096 120000000); Ok (unix 0 0); Ok 0%Z; Ok (unix 1709210096 123456789)].
Proof. vm_compute. reflexivity. Qed.
Example parse_format :
  forallb (fun t => bool_decide (parse_rfc3339 (format_rfc3339nano t) = Ok t))
    [0; unix 0 0; unix 1709210096 120000000; unix 1709164800 5; unix 951782400 0; unix (-2208988800) 1]%Z = true.
Proof. vm_compute. reflexivity. Qed.

(** ** The calendar *)

(** The year of an era's day, from the quotients its formula takes: it is in the
    era, its days start on March 1, and the 366th is the leap day. *)
Lemma era_year doe q1 q2 q3 yoe l4 l100 : (0 <= doe < 146097 →
  1460 * q1 <= doe < 1460 * q1 + 1460 → 36524 * q2 <= doe < 36524 * q2 + 36524 → 146096 * q3 <= doe < 146096 * q3 + 146096 →
  365 * yoe <= doe - q1 + q2 - q3 < 365 * yoe + 365 → 4 * l4 <= yoe < 4 * l4 + 4 → 100 * l100 <= yoe < 100 * l100 + 100 →
  let doy := doe - (365 * yoe + l4 - l100) in
  (0 <= yoe < 400 ∧ 0 <= doy <= 365) ∧ (doy = 365 → yoe + 1 = 4 * l4 + 4 ∧ (yoe + 1 = 100 * l100 + 100 → yoe + 1 = 400)))%Z.
Proof.
  intros H1 H2 H3 H4 H5 H6 H7 doy. subst doy.
  assert (q2 = 0 ∨ q2 = 1 ∨ q2 = 2 ∨ q2 = 3 ∨ q2 = 4)%Z as F by lia.
  assert (q3 = 0 ∨ q3 = 1)%Z as G by lia.
  assert (0 <= yoe < 400)%Z by lia.
  assert (l100 = 0 ∨ l100 = 1 ∨ l100 = 2 ∨ l100 = 3)%Z as D by lia.
  destruct D as [->|[->|[->| ->]]], F as [->|[->|[->|[->| ->]]]], G as [->| ->]; try lia;
    (split; [split; [assumption|lia]|intros; split; [lia|intros; lia]]).
Qed.

(** The month and day of a day of the year that starts on March 1. *)
Definition month_of (doy : Z) : Z := let mp := ((5 * doy + 2) / 153)%Z in (if mp <? 10 then mp + 3 else mp - 9)%Z.
Definition day_of (doy : Z) : Z := (doy - (153 * ((5 * doy + 2) / 153) + 2) / 5 + 1)%Z.
Definition month_day_ok (doy : Z) : bool :=
  let m := month_of doy in
  let d := day_of doy in
  ((1 <=? m) && (m <=? 12) && (1 <=? d) && ((d <=? days_in m 1) || ((doy =? 365) && (m =? 2) && (d =? 29))) &&
   ((153 * (if m <=? 2 then m + 9 else m - 3) + 2) / 5 + d - 1 =? doy) && Bool.eqb (m <=? 2) (306 <=? doy))%Z.
Fixpoint all_from (p : Z → bool) (z : Z) (n : nat) : bool :=
  match n with 0 => true | S n => p z && all_from p (z + 1)%Z n end.
Lemma all_from_spec p n : ∀ z, all_from p z n = true → ∀ x, (z <= x < z + Z.of_nat n)%Z → p x = true.
Proof.
  induction n as [|n IH]; intros z Ha x Hx; [lia|]. cbn [all_from] in Ha. apply andb_prop in Ha as [Hz Ha].
  destruct (Z.eq_dec x z) as [->|Hne]; [done|]. apply (IH (z + 1)%Z Ha). lia.
Qed.
Lemma month_day doy : (0 <= doy <= 365)%Z → month_day_ok doy = true.
Proof. intros. apply (all_from_spec month_day_ok 366 0); [vm_compute; reflexivity|lia]. Qed.

Lemma days_in_least m y : (days_in m 1 <= days_in m y)%Z.
Proof. unfold days_in. destruct (m =? 2)%Z; [|lia]. change (if _ : bool then 29 else 28)%Z with 28%Z at 1. destruct (_ && _); lia. Qed.

Lemma div_bounds x d : (0 < d)%Z → (d * (x / d) <= x < d * (x / d) + d)%Z.
Proof. intros. pose proof (Z.div_mod x d ltac:(lia)). pose proof (Z.mod_pos_bound x d ltac:(lia)). lia. Qed.

(** The date of a day is one of the calendar, and the day is that of the date. *)
Lemma civil_spec n y m d : civil_from_days n = (y, m, d) →
  (1 <= m <= 12 ∧ 1 <= d <= days_in m y ∧ days_from_civil y m d = n ∧ (0 <= n < 3652059 → 1 <= y <= 9999))%Z.
Proof.
  unfold civil_from_days. cbv zeta. set (z := (n + 306)%Z). set (era := (z / 146097)%Z). set (doe := (z mod 146097)%Z).
  set (yoe := ((doe - doe / 1460 + doe / 36524 - doe / 146096) / 365)%Z).
  set (doy := (doe - (365 * yoe + yoe / 4 - yoe / 100))%Z).
  change (if (5 * doy + 2) / 153 <? 10 then (5 * doy + 2) / 153 + 3 else (5 * doy + 2) / 153 - 9)%Z with (month_of doy).
  change (doy - (153 * ((5 * doy + 2) / 153) + 2) / 5 + 1)%Z with (day_of doy).
  assert (n + 306 = 146097 * era + doe ∧ 0 <= doe < 146097)%Z as [Hn Hdoe].
  { unfold era, doe, z. pose proof (Z.div_mod (n + 306) 146097 ltac:(lia)). pose proof (Z.mod_pos_bound (n + 306) 146097 ltac:(lia)). lia. }
  destruct (era_year doe (doe / 1460) (doe / 36524) (doe / 146096) yoe (yoe / 4) (yoe / 100) Hdoe) as [[Hyoe Hdoy] Hleap];
    [apply div_bounds; lia..|]. fold doy in Hdoy, Hleap.
  pose proof (month_day doy Hdoy) as Hmd. unfold month_day_ok in Hmd. rewrite !andb_true_iff, orb_true_iff, !andb_true_iff in Hmd.
  set (mm := month_of doy) in *. set (dd := day_of doy) in *. intros [= <- <- <-].
  destruct Hmd as [[[[[H1 H2] H3] H4] H5] H6]. apply eqb_prop in H6. rewrite !Z.leb_le, !Z.eqb_eq in *.
  pose proof (div_bounds yoe 4 ltac:(lia)) as B4. pose proof (div_bounds yoe 100 ltac:(lia)) as B100.
  split; [done|]. split; [|split].
  - split; [done|]. destruct H4 as [H4|[[Hd Hm] ->]]; [etrans; [exact H4|apply days_in_least]|].
    destruct (Hleap Hd) as [L4 L100]. rewrite Hm. cbn [Z.leb]. unfold days_in. cbn [Z.eqb Z.leb Z.compare Pos.compare Pos.compare_cont Pos.eqb].
    set (yy := (yoe + era * 400 + 1)%Z).
    assert (yy mod 4 = 0)%Z as E4 by (unfold yy; replace (yoe + era * 400 + 1)%Z with ((yoe / 4 + 1 + era * 100) * 4)%Z by lia; apply Z.mod_mul; lia).
    rewrite E4. cbn [Z.eqb andb]. destruct (Z.eqb_spec (yy mod 100) 0) as [E100|?]; [|done]. cbn [negb orb].
    assert (yoe + 1 = 400)%Z as E.
    { apply L100. pose proof (Z.div_mod yy 100 ltac:(lia)). unfold yy in *. lia. }
    assert (yy mod 400 = 0)%Z as ->; [|done].
    unfold yy. replace (yoe + era * 400 + 1)%Z with ((1 + era) * 400)%Z by lia. apply Z.mod_mul; lia.
  - unfold days_from_civil. cbv zeta.
    replace (if mm <=? 2 then yoe + era * 400 + (if mm <=? 2 then 1 else 0) - 1 else yoe + era * 400 + (if mm <=? 2 then 1 else 0))%Z
      with (yoe + era * 400)%Z by (destruct (mm <=? 2)%Z; lia).
    rewrite Z.div_add, Z.mod_add, Z.div_small, Z.mod_small by lia.
    replace ((153 * (if mm <=? 2 then mm + 9 else mm - 3) + 2) / 5 + dd - 1)%Z with doy by lia. unfold doy. lia.
  - intros Hr. assert (0 <= era < 25)%Z by (unfold era, z; split; [apply Z.div_pos; lia|apply Z.div_lt_upper_bound; lia]).
    destruct (Z.leb_spec 306 doy), (Z.leb_spec mm 2); try done; unfold doy in *; lia.
Qed.

(** ** The text *)
Definition is_digit_byte (a : ascii) : bool := bool_decide (is_Some (digit_val a)).

Lemma digit_val_digit d : (0 <= d < 10)%Z → digit_val (digit d) = Some d.
Proof.
  intros Hd. assert (d = 0 ∨ d = 1 ∨ d = 2 ∨ d = 3 ∨ d = 4 ∨ d = 5 ∨ d = 6 ∨ d = 7 ∨ d = 8 ∨ d = 9)%Z as Hc by lia.
  by repeat destruct Hc as [-> | Hc]; [..|subst].
Qed.

Lemma pad_digits_app k : ∀ n acc, pad_digits k n acc = pad_digits k n "" +:+ acc.
Proof.
  induction k as [|k IH]; intros n acc; [done|]. cbn [pad_digits]. rewrite IH, (IH _ (String _ "")), str_app_assoc. done.
Qed.
(** The most significant digit first. *)
Lemma pad_digits_S k n acc : (0 <= n)%Z →
  pad_digits (S k) n acc = String (digit (n / 10 ^ Z.of_nat k mod 10)) (pad_digits k n acc).
Proof.
  revert n acc. induction k as [|k IH]; intros n acc Hn.
  { cbn [pad_digits]. change (10 ^ Z.of_nat 0)%Z with 1%Z. by rewrite Z.div_1_r. }
  change (pad_digits (S (S k)) n acc) with (pad_digits (S k) (n / 10) (String (digit (n mod 10)) acc)).
  rewrite IH by (apply Z.div_pos; lia). cbn [pad_digits]. do 2 f_equal.
  rewrite Nat2Z.inj_succ, Z.pow_succ_r, Z.div_div by lia. done.
Qed.

(** Two digits are read as the number they pad. *)
Lemma getnum_pad2 fixed n r : (0 <= n < 100)%Z → getnum fixed (pad_digits 2 n "" +:+ r) = Some (n, r).
Proof.
  intros Hn. rewrite !pad_digits_S by lia. cbn [pad_digits]. str_simpl. unfold getnum.
  pose proof (Z.div_mod n 10 ltac:(lia)). pose proof (Z.mod_pos_bound n 10 ltac:(lia)).
  change (10 ^ Z.of_nat 1)%Z with 10%Z. change (10 ^ Z.of_nat 0)%Z with 1%Z. rewrite Z.div_1_r.
  rewrite (Z.mod_small (n / 10)) by lia. rewrite !digit_val_digit by lia. do 2 f_equal. lia.
Qed.
Lemma get_in_pad2 fixed lo hi n r : (0 <= n < 100)%Z → (lo <= n <= hi)%Z →
  get_in fixed lo hi (pad_digits 2 n "" +:+ r) = Some (n, r).
Proof.
  intros Hn Hb. unfold get_in. rewrite getnum_pad2 by done. cbn [mbind option_bind].
  destruct (Z.leb_spec lo n), (Z.leb_spec n hi); try lia. done.
Qed.
Lemma pad4_pairs n : (0 <= n < 10000)%Z → pad_digits 4 n "" = pad_digits 2 (n / 100) "" +:+ pad_digits 2 (n mod 100) "".
Proof.
  intros Hn. rewrite <-pad_digits_app, !pad_digits_S by (lia || (apply Z.div_pos; lia) || (apply Z.mod_pos_bound; lia)).
  cbn [pad_digits]. change (10 ^ Z.of_nat 3)%Z with 1000%Z. change (10 ^ Z.of_nat 2)%Z with 100%Z.
  change (10 ^ Z.of_nat 1)%Z with 10%Z. change (10 ^ Z.of_nat 0)%Z with 1%Z.
  replace (n / 100 / 10 mod 10)%Z with (n / 1000 mod 10)%Z by (Z.div_mod_to_equations; lia).
  replace (n / 100 / 1 mod 10)%Z with (n / 100 mod 10)%Z by (Z.div_mod_to_equations; lia).
  replace (n mod 100 / 10 mod 10)%Z with (n / 10 mod 10)%Z by (Z.div_mod_to_equations; lia).
  replace (n mod 100 / 1 mod 10)%Z with (n / 1 mod 10)%Z by (Z.div_mod_to_equations; lia).
  done.
Qed.

(** ** The fraction *)
Definition not_digit (t : string) : Prop := match t with String a _ => digit_val a = None | EmptyString => True end.
Lemma fraction_end w t : not_digit t → fraction_nanos w t = (0%Z, t).
Proof. destruct t as [|a t]; [done|]. cbn. by intros ->. Qed.
Lemma fraction_pad k : ∀ n t, (0 <= n)%Z → not_digit t →
  fraction_nanos (10 ^ Z.of_nat k / 10) (pad_digits k n "" +:+ t) = ((n mod 10 ^ Z.of_nat k)%Z, t).
Proof.
  induction k as [|k IH]; intros n t Hn Ht; [rewrite str_app_nil_l, fraction_end by done; by rewrite Z.mod_1_r|].
  rewrite pad_digits_S by done. str_simpl. cbn [fraction_nanos].
  assert (0 <= n / 10 ^ Z.of_nat k mod 10 < 10)%Z as Hd by (apply Z.mod_pos_bound; lia). rewrite digit_val_digit by done.
  rewrite Nat2Z.inj_succ, Z.pow_succ_r, (Z.mul_comm 10), Z.div_mul by lia. rewrite IH by done. f_equal.
  rewrite Z.rem_mul_r by lia. lia.
Qed.
Lemma fraction_zero d t : all_bytes is_digit_byte d = true → not_digit t →
  ∀ w, fraction_nanos w (d +:+ String "0" t) = fraction_nanos w (d +:+ t).
Proof.
  intros Hd Ht. induction d as [|a d IH]; intros w.
  - rewrite !str_app_nil_l, (fraction_end w t) by done. cbn. rewrite fraction_end by done. f_equal; lia.
  - cbn [all_bytes] in Hd. apply andb_prop in Hd as [[x Hx]%bool_decide_eq_true_1 Hd]. str_simpl.
    cbn [fraction_nanos]. rewrite Hx. by rewrite IH.
Qed.
(** Trailing zeros do not count. *)
Lemma fraction_trimmed s t : all_bytes is_digit_byte s = true → not_digit t →
  ∀ w, fraction_nanos w (str_rev (drop_trailing_zeros_rev s) +:+ t) = fraction_nanos w (str_rev s +:+ t).
Proof.
  intros Hs Ht w. induction s as [|a s IH]; [done|]. cbn [all_bytes] in Hs. apply andb_prop in Hs as [_ Hs].
  destruct (decide (a = "0"%char)) as [->|Hne].
  - cbn [drop_trailing_zeros_rev]. rewrite IH, str_rev_cons, str_app_assoc by done. str_simpl. rewrite ?str_app_nil_l.
    symmetry. apply fraction_zero; [by rewrite all_bytes_rev|done].
  - f_equal. destruct a as [[] [] [] [] [] [] [] []]; try done; by destruct Hne.
Qed.
Lemma pad_digits_bytes k : ∀ n acc, all_bytes is_digit_byte acc = true → all_bytes is_digit_byte (pad_digits k n acc) = true.
Proof.
  induction k as [|k IH]; intros n acc Ha; [done|]. cbn [pad_digits]. apply IH. cbn [all_bytes]. rewrite Ha, andb_true_r.
  apply bool_decide_eq_true_2. rewrite digit_val_digit by (apply Z.mod_pos_bound; lia). by eexists.
Qed.

(** The fraction that is written is read back. *)
Lemma read_fraction_written nanos t : (0 <= nanos < 1000000000)%Z → not_digit t →
  match t with String a _ => a ≠ "."%char ∧ a ≠ ","%char | EmptyString => True end →
  let frac := str_rev (drop_trailing_zeros_rev (str_rev (pad_digits 9 nanos ""))) in
  read_fraction ((if bool_decide (frac = "") then "" else "." +:+ frac) +:+ t) = (nanos, t).
Proof.
  intros Hn Ht Hp frac.
  assert (fraction_nanos 100000000 (frac +:+ t) = (nanos, t)) as Hf.
  { unfold frac. rewrite fraction_trimmed; [|by rewrite all_bytes_rev; apply pad_digits_bytes|done].
    rewrite str_rev_involutive. change 100000000%Z with (10 ^ Z.of_nat 9 / 10)%Z. rewrite fraction_pad by (done || lia).
    by rewrite Z.mod_small. }
  case_bool_decide as He.
  - rewrite He, str_app_nil_l, fraction_end in Hf by done. rewrite str_app_nil_l. injection Hf as <-.
    destruct t as [|a [|b t]]; try done. cbn [read_fraction]. rewrite bool_decide_eq_false_2 by naive_solver. done.
  - rewrite str_app_assoc. assert (all_bytes is_digit_byte frac = true) as Hd.
    { unfold frac. rewrite all_bytes_rev. assert (all_bytes is_digit_byte (str_rev (pad_digits 9 nanos "")) = true) as Hall
        by (rewrite all_bytes_rev; by apply pad_digits_bytes). revert Hall. generalize (str_rev (pad_digits 9 nanos "")).
      clear. induction s as [|a s IH]; [done|]. cbn [all_bytes]. intros [Ha Hs]%andb_prop.
      destruct (decide (a = "0"%char)) as [->|Hne]; [by apply IH|].
      replace (drop_trailing_zeros_rev (String a s)) with (String a s); [by cbn; rewrite Ha|].
      destruct a as [[] [] [] [] [] [] [] []]; try done; by destruct Hne. }
    destruct frac as [|a f]; [done|]. cbn [all_bytes] in Hd. apply andb_prop in Hd as [Ha _].
    revert Hf. str_simpl. rewrite ?str_app_nil_l. cbn [read_fraction]. unfold is_digit_byte in Ha. rewrite Ha.
    rewrite bool_decide_eq_true_2 by auto. by cbn [andb].
Qed.

(** The first instant that is not of the years 1 to 9999. *)
Definition instant_end : time := (3652059 * 86400 * 1000000000)%Z.

(** An instant of the years 1 to 9999 is read back from its text. *)
Lemma parse_format_rfc3339 t : (0 <= t < instant_end)%Z → parse_rfc3339 (format_rfc3339nano t) = Ok t.
Proof.
  intros Ht. unfold format_rfc3339nano. cbv zeta. set (secs := (t / 1000000000)%Z). set (nanos := (t mod 1000000000)%Z).
  assert (t = 1000000000 * secs + nanos ∧ 0 <= nanos < 1000000000)%Z as [Et Hn].
  { unfold secs, nanos. pose proof (Z.div_mod t 1000000000 ltac:(lia)). pose proof (Z.mod_pos_bound t 1000000000 ltac:(lia)). lia. }
  set (day := (secs / 86400)%Z). set (sod := (secs mod 86400)%Z).
  assert (secs = 86400 * day + sod ∧ 0 <= sod < 86400)%Z as [Es Hs].
  { unfold sod, day. pose proof (Z.div_mod secs 86400 ltac:(lia)). pose proof (Z.mod_pos_bound secs 86400 ltac:(lia)). lia. }
  destruct (civil_from_days day) as [[y m] d] eqn:Ec. apply civil_spec in Ec as (Hm & Hd & Hday & Hy).
  unfold instant_end in Ht. specialize (Hy ltac:(lia)).
  assert (d <= 31)%Z as Hd31 by (unfold days_in in Hd; repeat case_match; lia).
  assert (0 <= sod / 3600 <= 23 ∧ 0 <= sod / 60 mod 60 <= 59 ∧ 0 <= sod mod 60 <= 59 ∧
    sod / 3600 * 3600 + sod / 60 mod 60 * 60 + sod mod 60 = sod)%Z as (Hh & Hmi & Hse & Esod) by (Z.div_mod_to_equations; lia).
  unfold parse_rfc3339. rewrite pad4_pairs, !str_app_assoc by lia.
  rewrite getnum_pad2 by (Z.div_mod_to_equations; lia). cbn [mbind option_bind].
  rewrite getnum_pad2 by (apply Z.mod_pos_bound; lia). cbn [mbind option_bind].
  rewrite drop_prefix_app. cbn [mbind option_bind]. rewrite get_in_pad2 by lia. cbn [mbind option_bind].
  rewrite drop_prefix_app. cbn [mbind option_bind]. rewrite getnum_pad2 by lia. cbn [mbind option_bind].
  rewrite drop_prefix_app. cbn [mbind option_bind]. rewrite get_in_pad2 by lia. cbn [mbind option_bind].
  rewrite drop_prefix_app. cbn [mbind option_bind]. rewrite get_in_pad2 by lia. cbn [mbind option_bind].
  rewrite drop_prefix_app. cbn [mbind option_bind]. rewrite get_in_pad2 by lia. cbn [mbind option_bind].
  rewrite (read_fraction_written nanos "Z") by done. cbn [read_zone mbind option_bind].
  replace (100 * (y / 100) + y mod 100)%Z with y by (pose proof (Z.div_mod y 100 ltac:(lia)); lia).
  rewrite (proj2 (Z.leb_le 1 d)), (proj2 (Z.leb_le d _)) by lia. cbn [andb]. f_equal. rewrite Hday. lia.
Qed.
