(* ===== verification/AuthoritySemantic.v ===== *)
(** * internal/authority: typed references, versions and the authority rule

    semantic_types.go, the version of semantic_wire.go, semantic_rule.go and
    semantic_identity.go: the closed vocabularies of RFC-0004, exact references,
    four-component versions, the authority rule as it is built from the fields
    of its object, its canonical bytes and digest, and the binding of a rule to
    the reference it was resolved by. A [json.RawMessage] is the value it
    spells; the text that [StrictObject] reads is in AuthorityWire. *)
From S2P Require Import Prelude GoStd Identity Digest Json Unstructured JsonParse Decimal Timestamp AuthorityDomain AuthorityCanonical.

(** ** Versions *)
Record SemanticVersion := mkVersion { sv_1 : Z; sv_2 : Z; sv_3 : Z; sv_4 : Z }.
#[export] Instance SemanticVersion_eq_dec : EqDecision SemanticVersion.
Proof. solve_decision. Defined.
Definition parts (v : SemanticVersion) : list Z := [sv_1 v; sv_2 v; sv_3 v; sv_4 v].
Definition zero_version : SemanticVersion := mkVersion 0 0 0 0.

(** [strconv.ParseUint(s, 10, bits)]. *)
Definition ParseUint (bits : Z) (s : string) : result Z :=
  fail_if negb (nonempty s) with mkError "" "invalid syntax";
  match decimal_value 0 s with
  | None => Err (mkError "" "invalid syntax")
  | Some n => fail_if (2 ^ bits <=? n)%Z with mkError "" "value out of range"; Ok n
  end.

Definition dot : ascii := ".".
Definition version_error : error := mkError "" "invalid semantic version".
Fixpoint version_parts (read : list Z) (components : list string) : result (list Z) :=
  match components with
  | [] => Ok read
  | c :: components =>
      fail_if negb (nonempty c) || leading_zero c with version_error;
      match ParseUint 32 c with
      | Err _ => Err version_error
      | Ok n => fail_if 4 <=? length read with version_error; version_parts (read ++ [n]) components
      end
  end.
Definition ParseSemanticVersion (s : string) : result SemanticVersion :=
  ns ← version_parts [] (split_on dot s);
  match ns with [a; b; c; d] => Ok (mkVersion a b c d) | _ => Err version_error end.

Fixpoint compare_parts (p q : list Z) : Z :=
  match p, q with
  | a :: p, b :: q => if (a <? b)%Z then -1 else if (b <? a)%Z then 1 else compare_parts p q
  | _, _ => 0
  end.
Definition SemanticVersion_Compare (v other : SemanticVersion) : Z := compare_parts (parts v) (parts other).
Definition SemanticVersion_String (v : SemanticVersion) : string := join "." (map itoa (parts v)).

Record VersionRange := mkVersionRange { vr_lower : SemanticVersion; vr_upper : SemanticVersion }.
Definition NewVersionRange (lower upper : SemanticVersion) : result VersionRange :=
  fail_if (0 <? SemanticVersion_Compare lower upper)%Z with mkError "" "invalid version range"; Ok (mkVersionRange lower upper).
Definition VersionRange_Matches (r : VersionRange) (v : SemanticVersion) : bool :=
  ((SemanticVersion_Compare (vr_lower r) v <=? 0) && (SemanticVersion_Compare v (vr_upper r) <=? 0))%Z.

(** ** Vocabularies *)
Abbreviation ObjectKind := string.
Definition BackendSeccomp : string := "SECCOMP".
Definition ObjectKindAuthorityRule : ObjectKind := "AUTHORITY_RULE".
Definition ObjectKindTrustPolicy : ObjectKind := "TRUST_POLICY".
Definition ObjectKindRegistry : ObjectKind := "SECURITY_FIELD_REGISTRY".
Definition ObjectKindCertificationPropertyRegistry : ObjectKind := "CERTIFICATION_PROPERTY_REGISTRY".
Definition ObjectKindArchitectureABIRegistry : ObjectKind := "ARCHITECTURE_ABI_REGISTRY".
Definition ObjectKindBackendEnvelopeRegistry : ObjectKind := "BACKEND_ENVELOPE_REGISTRY".
Definition ObjectKindEvidence : ObjectKind := "EVIDENCE".
Definition ObjectKindCertification : ObjectKind := "CERTIFICATION".
Definition ObjectKindBaseline : ObjectKind := "BASELINE".
Definition ObjectKindCompatibilityRule : ObjectKind := "COMPATIBILITY_RULE".
Definition ObjectKindCompositionOperator : ObjectKind := "COMPOSITION_OPERATOR".
Definition ObjectKindProvenance : ObjectKind := "PROVENANCE".
Definition ObjectKindVerifier : ObjectKind := "VERIFIER_SEMANTIC".
Definition ObjectKindRevocation : ObjectKind := "REVOCATION".
Definition objectKinds : list ObjectKind :=
  [ObjectKindAuthorityRule; ObjectKindTrustPolicy; ObjectKindRegistry; ObjectKindCertificationPropertyRegistry;
   ObjectKindArchitectureABIRegistry; ObjectKindBackendEnvelopeRegistry; ObjectKindEvidence; ObjectKindCertification;
   ObjectKindBaseline; ObjectKindCompatibilityRule; ObjectKindCompositionOperator; ObjectKindProvenance; ObjectKindVerifier;
   ObjectKindRevocation].
Definition ObjectKind_Valid (k : ObjectKind) : bool := bool_decide (k ∈ objectKinds).
Definition ParseObjectKind (s : string) : result ObjectKind :=
  fail_if negb (ObjectKind_Valid s) with mkError "" "invalid object kind"; Ok s.

(** A token of a closed list. *)
Definition parse_token (tokens : list string) (msg s : string) : result string :=
  fail_if negb (bool_decide (s ∈ tokens)) with mkError "" msg; Ok s.

Definition targetScopeClasses : list string :=
  ["BINARY"; "PROCESS"; "PROCESS_TREE"; "CONTAINER"; "WORKLOAD"; "CONTAINER_LIFETIME"].
Definition rfcScopeDimensions : list ScopeDimension :=
  ["STARTUP_BOOTSTRAP"; "CONTAINER_LIFETIME"; "PROCESS_TREE"; "EXECUTABLE_SET"; "WORKLOAD_STATE"; "ARCHITECTURE_ABI";
   "IMAGE_IDENTITY"; "KERNEL_RUNTIME_COMPATIBILITY"; "TEMPORAL"; "STARTUP_LIFECYCLE"; "WORKLOAD_CONTAINER"; "RUN_HISTORY";
   "IMAGE_CONTEXT"].
Definition ValidRFC (d : ScopeDimension) : bool := bool_decide (d ∈ rfcScopeDimensions).
Definition ParseScopeDimension (s : string) : result ScopeDimension := parse_token rfcScopeDimensions "invalid scope dimension" s.

Inductive EvidenceClass :=
  EvidenceInvalid | EvidenceObservation | EvidenceCoverageRecord | EvidenceCompletenessRecord | EvidenceCertificationRecord
| EvidenceVerificationRecord | EvidenceProvenanceRecord | EvidenceBackendRealization.
#[export] Instance EvidenceClass_eq_dec : EqDecision EvidenceClass.
Proof. solve_decision. Defined.
Definition EvidenceClassFromToken (s : string) : EvidenceClass :=
  if bool_decide (s = "OBSERVATION") then EvidenceObservation
  else if bool_decide (s = "COVERAGE_RECORD") then EvidenceCoverageRecord
  else if bool_decide (s = "COMPLETENESS_RECORD") then EvidenceCompletenessRecord
  else if bool_decide (s = "CERTIFICATION_RECORD") then EvidenceCertificationRecord
  else if bool_decide (s = "VERIFICATION_RECORD") then EvidenceVerificationRecord
  else if bool_decide (s = "PROVENANCE_RECORD") then EvidenceProvenanceRecord
  else if bool_decide (s = "BACKEND_REALIZATION") then EvidenceBackendRealization
  else EvidenceInvalid.
Definition ParseEvidenceClass (s : string) : result EvidenceClass :=
  let v := EvidenceClassFromToken s in
  fail_if bool_decide (v = EvidenceInvalid) with mkError "" "invalid evidence class"; Ok v.
Definition EvidenceClass_Token (e : EvidenceClass) : string :=
  match e with
  | EvidenceObservation => "OBSERVATION" | EvidenceCoverageRecord => "COVERAGE_RECORD"
  | EvidenceCompletenessRecord => "COMPLETENESS_RECORD" | EvidenceCertificationRecord => "CERTIFICATION_RECORD"
  | EvidenceVerificationRecord => "VERIFICATION_RECORD" | EvidenceProvenanceRecord => "PROVENANCE_RECORD"
  | EvidenceBackendRealization => "BACKEND_REALIZATION" | EvidenceInvalid => ""
  end.

Definition ParseCompletenessClass (s : string) : result CompletenessClass :=
  if bool_decide (s = "EMPIRICAL_COMPLETENESS") then Ok EmpiricalCompleteness
  else if bool_decide (s = "STRUCTURAL_COMPLETENESS") then Ok StructuralCompleteness
  else if bool_decide (s = "DECLARED_COMPLETENESS") then Ok DeclaredCompleteness
  else if bool_decide (s = "EXTERNALLY_CERTIFIED_COMPLETENESS") then Ok ExternallyCertifiedCompleteness
  else Err (mkError "" "invalid completeness class").
Definition CompletenessClass_Token (c : CompletenessClass) : string :=
  match c with
  | EmpiricalCompleteness => "EMPIRICAL_COMPLETENESS" | StructuralCompleteness => "STRUCTURAL_COMPLETENESS"
  | DeclaredCompleteness => "DECLARED_COMPLETENESS" | ExternallyCertifiedCompleteness => "EXTERNALLY_CERTIFIED_COMPLETENESS"
  | CompletenessInvalid => ""
  end.
Definition ParseAdequacyClass (s : string) : result AdequacyClass :=
  if bool_decide (s = "STRUCTURAL_BASELINE") then Ok StructuralBaseline
  else if bool_decide (s = "EXTERNAL_CERTIFICATION") then Ok ExternalCertification
  else if bool_decide (s = "BACKEND_FORMAL_INVARIANT") then Ok BackendFormalInvariant
  else if bool_decide (s = "BOUNDED_BEHAVIORAL") then Ok BoundedBehavioral
  else if bool_decide (s = "TRUSTED_BASELINE_OBSERVED_DELTA") then Ok TrustedBaselineObservedDelta
  else Err (mkError "" "invalid adequacy class").
Definition AdequacyClass_Token (a : AdequacyClass) : string :=
  match a with
  | StructuralBaseline => "STRUCTURAL_BASELINE" | ExternalCertification => "EXTERNAL_CERTIFICATION"
  | BackendFormalInvariant => "BACKEND_FORMAL_INVARIANT" | BoundedBehavioral => "BOUNDED_BEHAVIORAL"
  | TrustedBaselineObservedDelta => "TRUSTED_BASELINE_OBSERVED_DELTA" | AdequacyInvalid => ""
  end.

Abbreviation ProvenanceRequirement := string.
Definition provenance_requirements : list ProvenanceRequirement :=
  ["SOURCE_IDENTITY"; "MECHANISM_IDENTITY"; "RUN_IDENTITY"; "SCOPE_BOUND"; "CONTEXT_BOUND"; "VERIFIER_BOUND";
   "CERTIFICATION_BOUND"; "CURRENT_VALIDITY"].
Definition ParseProvenanceRequirement (s : string) : result ProvenanceRequirement :=
  parse_token provenance_requirements "invalid provenance requirement" s.
Abbreviation CertificationPropertyToken := string.
Definition certification_properties : list CertificationPropertyToken :=
  ["SCOPE_COVERAGE"; "BASELINE_COMPATIBILITY"; "POLICY_ADEQUACY_BOUNDED"; "PROVENANCE_VALIDITY"].
Definition ParseCertificationPropertyToken (s : string) : result CertificationPropertyToken :=
  parse_token certification_properties "invalid certification property" s.

(** ** References, scopes, validity *)
Record SemanticReference := mkSemanticReference {
  sr_kind : ObjectKind; sr_id : string; sr_version : SemanticVersion; sr_digest : AuthorityDigest }.
#[export] Instance SemanticReference_eq_dec : EqDecision SemanticReference.
Proof. solve_decision. Defined.
Definition zero_reference : SemanticReference := mkSemanticReference "" "" zero_version "".
Definition SemanticReference_Valid (r : SemanticReference) : bool :=
  ObjectKind_Valid (sr_kind r) && nonempty (sr_id r) && Digest_Valid (sr_digest r).
Definition NewSemanticReference (kind : ObjectKind) (id : string) (version : SemanticVersion) (digest : AuthorityDigest)
  : result SemanticReference :=
  fail_if negb (ObjectKind_Valid kind) || negb (nonempty id) || negb (Digest_Valid digest)
    with mkError "" "invalid semantic reference";
  Ok (mkSemanticReference kind id version digest).
Definition ValidateKind (r : SemanticReference) (expected : ObjectKind) : result () :=
  fail_if negb (SemanticReference_Valid r) || negb (bool_decide (sr_kind r = expected))
    with mkError "" "reference kind mismatch";
  Ok ().

Record RuleTargetScope := mkTargetScope { ts_class : string; ts_dimensions : list ScopeDimension }.
Fixpoint rule_dimensions_ok (seen dimensions : list ScopeDimension) : bool :=
  match dimensions with
  | [] => true
  | d :: dimensions => ValidRFC d && negb (bool_decide (d ∈ seen)) && rule_dimensions_ok (d :: seen) dimensions
  end.
Definition NewRuleTargetScope (class : string) (dimensions : list ScopeDimension) : result RuleTargetScope :=
  fail_if negb (bool_decide (class ∈ targetScopeClasses)) || (length dimensions =? 0) with mkError "" "invalid target scope";
  fail_if negb (rule_dimensions_ok [] dimensions) with mkError "" "invalid scope dimension";
  Ok (mkTargetScope class (sort_strings dimensions)).
Definition RuleTargetScope_Valid (s : RuleTargetScope) : bool :=
  bool_decide (ts_class s ∈ targetScopeClasses) && (0 <? length (ts_dimensions s)).

Record SemanticValidity := mkSemanticValidity { sv_notBefore : time; sv_notAfter : time }.
Definition NewSemanticValidity (notBefore notAfter : time) : result SemanticValidity :=
  fail_if time_is_zero notBefore || time_is_zero notAfter || (notAfter <? notBefore)%Z
    with mkError "" "invalid validity interval";
  Ok (mkSemanticValidity notBefore notAfter).
Definition SemanticValidity_Valid (v : SemanticValidity) : bool :=
  negb (time_is_zero (sv_notBefore v)) && negb (time_is_zero (sv_notAfter v)) && negb (sv_notAfter v <? sv_notBefore v)%Z.

Record RevocationReference := mkRevocationReference { rev_reference : SemanticReference }.
Definition NewRevocationReference (r : SemanticReference) : result RevocationReference :=
  fail_if negb (SemanticReference_Valid r) || negb (bool_decide (sr_kind r = ObjectKindRevocation))
    with mkError "" "invalid revocation reference";
  Ok (mkRevocationReference r).
Definition RevocationReference_Valid (r : RevocationReference) : bool := SemanticReference_Valid (rev_reference r).

(** ** The authority rule *)
Record AuthorityRule := mkRule {
  ru_schemaID : string; ru_schemaVersion : string; ru_id : string; ru_issuer : string; ru_version : SemanticVersion;
  ru_backend : string; ru_envelopeRef : SemanticReference; ru_baselineRef : SemanticReference;
  ru_compatibilityRef : SemanticReference; ru_trustPolicyRef : SemanticReference; ru_compositionRef : SemanticReference;
  ru_registryRefs : list SemanticReference; ru_targetScope : RuleTargetScope; ru_mandatoryDimensions : list ScopeDimension;
  ru_evidenceClasses : list EvidenceClass; ru_completenessClasses : list CompletenessClass;
  ru_adequacyRequirements : list AdequacyClass; ru_provenanceRequirements : list ProvenanceRequirement;
  ru_certificationProperties : list CertificationPropertyToken; ru_validity : SemanticValidity;
  ru_revocationRef : RevocationReference }.

Definition authorityRuleSchemaID : string := "authority-rule.v1".
Definition authorityRuleKind : string := "AUTHORITY_RULE".
Definition authorityRuleDomain : string := "landlock-genprof/rfc0004/authority-rule/v1".
Definition seccompMandatoryDimensions : list ScopeDimension :=
  ["STARTUP_BOOTSTRAP"; "CONTAINER_LIFETIME"; "PROCESS_TREE"; "EXECUTABLE_SET"; "WORKLOAD_STATE"; "ARCHITECTURE_ABI";
   "IMAGE_IDENTITY"; "KERNEL_RUNTIME_COMPATIBILITY"].

(** The fields of a decoded object, each the value its raw message spells. *)
Abbreviation fields := (list (string * json)).
(** [json.Unmarshal] of a raw message into a string and into a slice of
    strings: null leaves the variable as it is. *)
Definition into_text (v : option json) : result string :=
  match v with Some (JStr s) => Ok s | Some JNull => Ok "" | _ => Err (mkError "" "cannot unmarshal into string") end.
Definition into_texts (v : option json) : result (list string) :=
  match v with
  | Some (JArr items) => result_mapM (fun x => into_text (Some x)) items
  | Some JNull => Ok []
  | _ => Err (mkError "" "cannot unmarshal into []string")
  end.
(** [StrictObject] of a raw message that was itself decoded: it is an object. *)
Definition object_of (v : option json) : result fields :=
  match v with Some (JObj fs) => Ok fs | _ => Err (mkError "" "object required") end.
Definition or_msg {A} (r : result A) (msg : string) : result A := match r with Ok a => Ok a | Err _ => Err (mkError "" msg) end.
Definition only_fields (allowed : list string) (f : fields) (msg : string) : result () :=
  fail_if existsb (fun x => negb (bool_decide (x.1 ∈ allowed))) f with mkError "" msg; Ok ().

Definition ps (m : fields) (k : string) : result string :=
  match lookup_field k m with
  | None => Err (mkError "" ("missing " +:+ k))
  | Some p => s ← or_msg (into_text (Some p)) ("invalid " +:+ k);
              fail_if negb (nonempty s) with mkError "" ("invalid " +:+ k); Ok s
  end.
Definition pref (p : option json) : result SemanticReference :=
  f ← object_of p;
  _ ← only_fields ["kind"; "id"; "version"; "digest"] f "unknown reference field";
  k ← ps f "kind"; id ← ps f "id"; vs ← ps f "version"; v ← ParseSemanticVersion vs;
  ds ← ps f "digest"; d ← NewDigest ds; ok ← ParseObjectKind k;
  NewSemanticReference ok id v d.
Definition preq (m : fields) (k : string) (kind : ObjectKind) : result SemanticReference :=
  match lookup_field k m with
  | None => Err (mkError "" ("missing " +:+ k))
  | Some p => r ← or_msg (pref (Some p)) ("invalid " +:+ k); _ ← or_msg (ValidateKind r kind) ("invalid " +:+ k); Ok r
  end.
(** An optional reference: absent, it stays the zero reference. *)
Definition popt (m : fields) (k : string) (kind : ObjectKind) (msg : string) : result SemanticReference :=
  match lookup_field k m with
  | None => Ok zero_reference
  | Some p => r ← or_msg (pref (Some p)) msg; _ ← or_msg (ValidateKind r kind) msg; Ok r
  end.

Fixpoint reference_set (k : ObjectKind) (seen : list string) (items : list json) : result (list SemanticReference) :=
  match items with
  | [] => Ok []
  | x :: items =>
      r ← or_msg (pref (Some x)) "invalid ref"; _ ← or_msg (ValidateKind r k) "invalid ref";
      let q := sr_id r +:+ SemanticVersion_String (sr_version r) in
      fail_if bool_decide (q ∈ seen) with mkError "" "duplicate ref";
      rs ← reference_set k (q :: seen) items; Ok (r :: rs)
  end.
Definition rset (p : option json) (k : ObjectKind) : result (list SemanticReference) :=
  match p with
  | Some (JArr (x :: items)) => o ← reference_set k [] (x :: items); Ok (sort_by (less_on sr_id string_ltb) o)
  | _ => Err (mkError "" "invalid refs")
  end.

Fixpoint mandatory_dimensions (seen : list string) (a : list string) : result (list string) :=
  match a with
  | [] => Ok seen
  | x :: a =>
      fail_if negb (bool_decide (x ∈ seccompMandatoryDimensions)) || bool_decide (x ∈ seen) with mkError "" "invalid dimension";
      mandatory_dimensions (x :: seen) a
  end.
Definition dims (p : option json) : result (list ScopeDimension) :=
  a ← or_msg (into_texts p) "invalid dimensions";
  fail_if length a =? 0 with mkError "" "invalid dimensions";
  s ← mandatory_dimensions [] a;
  fail_if existsb (fun x => negb (bool_decide (x ∈ s))) seccompMandatoryDimensions with mkError "" "missing dimension";
  Ok (sort_strings a).

Definition tscope (p : option json) : result RuleTargetScope :=
  f ← object_of p;
  _ ← only_fields ["class"; "dimensions"] f "unknown scope field";
  c ← ps f "class";
  a ← or_msg (into_texts (lookup_field "dimensions" f)) "invalid scope";
  d ← result_mapM ParseScopeDimension a;
  NewRuleTargetScope c d.

(** The loop of [evset], [coset], [adset], [prset] and [cpset]. *)
Fixpoint closed_set {A} `{!EqDecision A} (parse : string → result A) (msg : string) (seen : list A) (a : list string) : result (list A) :=
  match a with
  | [] => Ok []
  | x :: a =>
      v ← or_msg (parse x) msg;
      fail_if bool_decide (v ∈ seen) with mkError "" msg;
      o ← closed_set parse msg (v :: seen) a; Ok (v :: o)
  end.
Definition token_set {A} `{!EqDecision A} (parse : string → result A) (msg : string) (p : option json) : result (list A) :=
  a ← or_msg (into_texts p) msg; closed_set parse msg [] a.
Definition evset : option json → result (list EvidenceClass) := token_set ParseEvidenceClass "invalid evidence".
Definition coset : option json → result (list CompletenessClass) := token_set ParseCompletenessClass "invalid completeness".
Definition adset : option json → result (list AdequacyClass) := token_set ParseAdequacyClass "invalid adequacy".
Definition prset : option json → result (list ProvenanceRequirement) := token_set ParseProvenanceRequirement "invalid provenance".
Definition cpset : option json → result (list CertificationPropertyToken) :=
  token_set ParseCertificationPropertyToken "invalid certification".

Definition validity (p : option json) : result SemanticValidity :=
  f ← object_of p;
  _ ← only_fields ["notBefore"; "notAfter"] f "unknown validity field";
  a ← ps f "notBefore"; b ← ps f "notAfter";
  x ← parse_rfc3339 a; y ← parse_rfc3339 b;
  NewSemanticValidity x y.
Definition revref (p : option json) : result RevocationReference := r ← pref p; NewRevocationReference r.

Definition ValidateV1Envelope (f : fields) : result () :=
  (fix go (ks : list string) : result () :=
     match ks with
     | [] => Ok ()
     | k :: ks =>
         match lookup_field k f with
         | None => Err (mkError "" ("missing envelope field " +:+ k))
         | Some raw => match into_text (Some raw) with
                       | Ok s => fail_if negb (nonempty s) with mkError "" ("invalid envelope field " +:+ k); go ks
                       | Err _ => Err (mkError "" ("invalid envelope field " +:+ k))
                       end
         end
     end) ["schemaId"; "schemaVersion"; "kind"; "id"; "version"].

Definition rule_fields : list string :=
  ["schemaId"; "schemaVersion"; "kind"; "id"; "version"; "issuer"; "backend"; "envelopeRef"; "targetScope";
   "mandatoryCoverageDimensions"; "acceptedEvidenceClasses"; "acceptedCompletenessClasses"; "adequacyRequirements"; "baselineRef";
   "compatibilityRuleRef"; "trustPolicyRef"; "provenanceRequirements"; "certificationProperties"; "validity"; "revocationRef";
   "registryRefs"; "compositionRef"].
Definition ok_or {A} (d : A) (r : result A) : A := match r with Ok a => a | Err _ => d end.

Definition NewAuthorityRule (f : fields) : result AuthorityRule :=
  _ ← only_fields rule_fields f "unknown field";
  _ ← ValidateV1Envelope f;
  let schema := ok_or "" (ps f "schemaId") in
  let kind := ok_or "" (ps f "kind") in
  fail_if negb (bool_decide (schema = authorityRuleSchemaID)) || negb (bool_decide (kind = authorityRuleKind))
    with mkError "" "invalid identity";
  let sv := ok_or "" (ps f "schemaVersion") in
  id ← ps f "id"; issuer ← ps f "issuer"; ver ← ps f "version"; v ← ParseSemanticVersion ver;
  be ← or_msg (ps f "backend") "invalid backend";
  fail_if negb (bool_decide (be = BackendSeccomp)) with mkError "" "invalid backend";
  env ← preq f "envelopeRef" ObjectKindBackendEnvelopeRegistry;
  base ← preq f "baselineRef" ObjectKindBaseline;
  comp ← preq f "compatibilityRuleRef" ObjectKindCompatibilityRule;
  regs ← rset (lookup_field "registryRefs" f) ObjectKindRegistry;
  tr ← popt f "trustPolicyRef" ObjectKindTrustPolicy "invalid trust reference";
  op ← popt f "compositionRef" ObjectKindCompositionOperator "invalid composition reference";
  scope ← tscope (lookup_field "targetScope" f);
  ds ← dims (lookup_field "mandatoryCoverageDimensions" f);
  ev ← evset (lookup_field "acceptedEvidenceClasses" f);
  co ← coset (lookup_field "acceptedCompletenessClasses" f);
  ad ← adset (lookup_field "adequacyRequirements" f);
  pr ← prset (lookup_field "provenanceRequirements" f);
  cp ← cpset (lookup_field "certificationProperties" f);
  va ← validity (lookup_field "validity" f);
  rr ← revref (lookup_field "revocationRef" f);
  Ok (mkRule schema sv id issuer v be env base comp tr op regs scope ds ev co ad pr cp va rr).

Definition AuthorityRule_Valid (r : AuthorityRule) : bool :=
  bool_decide (ru_schemaID r = authorityRuleSchemaID) && nonempty (ru_id r) && bool_decide (ru_backend r = BackendSeccomp) &&
  RuleTargetScope_Valid (ru_targetScope r) && SemanticValidity_Valid (ru_validity r) &&
  RevocationReference_Valid (ru_revocationRef r).

(** The short digest of semantic_rule.go: five fields, by [json.Marshal]. *)
Definition AuthorityRule_CanonicalBytes (r : AuthorityRule) : string :=
  marshal (obj_of [("schemaId", JStr (ru_schemaID r)); ("schemaVersion", JStr (ru_schemaVersion r)); ("kind", JStr authorityRuleKind);
                   ("id", JStr (ru_id r)); ("version", JStr (SemanticVersion_String (ru_version r)))]).
Definition AuthorityRule_Digest (r : AuthorityRule) : result AuthorityDigest :=
  NewDigest (hashDomain authorityRuleDomain (AuthorityRule_CanonicalBytes r)).

(** ** semantic_identity.go *)
Definition referenceJSON (r : SemanticReference) : json :=
  obj_of (zip ["kind"; "id"; "version"; "digest"]
    [JStr (sr_kind r); JStr (sr_id r); JStr (SemanticVersion_String (sr_version r)); JStr (sr_digest r)]).
Definition sort_canonical (l : list json) : list json := sort_by (less_on bytes_or_nil string_ltb) l.
Definition sorted_tokens {A} (token : A → string) (l : list A) : json := JArr (sort_canonical (map (fun x => JStr (token x)) l)).
Definition scopeTokens (v : list ScopeDimension) : json := JArr (map JStr v).
Definition evidenceTokens : list EvidenceClass → json := sorted_tokens EvidenceClass_Token.
Definition completenessTokens : list CompletenessClass → json := sorted_tokens CompletenessClass_Token.
Definition adequacyTokens : list AdequacyClass → json := sorted_tokens AdequacyClass_Token.
Definition provenanceTokens : list ProvenanceRequirement → json := sorted_tokens id.
Definition certificationTokens : list CertificationPropertyToken → json := sorted_tokens id.
Definition referencesJSON (v : list SemanticReference) : json := JArr (sort_canonical (map referenceJSON v)).

Definition rule_literal (r : AuthorityRule) : fields :=
  ([("schemaId", JStr (ru_schemaID r)); ("schemaVersion", JStr (ru_schemaVersion r)); ("kind", JStr authorityRuleKind);
    ("id", JStr (ru_id r)); ("version", JStr (SemanticVersion_String (ru_version r))); ("issuer", JStr (ru_issuer r));
    ("backend", JStr (ru_backend r)); ("envelopeRef", referenceJSON (ru_envelopeRef r));
    ("targetScope", obj_of (zip ["class"; "dimensions"]
        [JStr (ts_class (ru_targetScope r)); scopeTokens (ts_dimensions (ru_targetScope r))]));
    ("mandatoryCoverageDimensions", scopeTokens (ru_mandatoryDimensions r));
    ("acceptedEvidenceClasses", evidenceTokens (ru_evidenceClasses r));
    ("acceptedCompletenessClasses", completenessTokens (ru_completenessClasses r));
    ("adequacyRequirements", adequacyTokens (ru_adequacyRequirements r));
    ("baselineRef", referenceJSON (ru_baselineRef r)); ("compatibilityRuleRef", referenceJSON (ru_compatibilityRef r));
    ("provenanceRequirements", provenanceTokens (ru_provenanceRequirements r));
    ("certificationProperties", certificationTokens (ru_certificationProperties r));
    ("validity", obj_of (zip ["notBefore"; "notAfter"]
        [JStr (format_rfc3339nano (sv_notBefore (ru_validity r))); JStr (format_rfc3339nano (sv_notAfter (ru_validity r)))]));
    ("revocationRef", referenceJSON (rev_reference (ru_revocationRef r)));
    ("registryRefs", referencesJSON (ru_registryRefs r))] ++
    (if SemanticReference_Valid (ru_trustPolicyRef r) then [("trustPolicyRef", referenceJSON (ru_trustPolicyRef r))] else []) ++
    (if SemanticReference_Valid (ru_compositionRef r) then [("compositionRef", referenceJSON (ru_compositionRef r))] else [])).
Definition rule_value (r : AuthorityRule) : json := obj_of (rule_literal r).
Definition CanonicalAuthorityRuleBytes (r : AuthorityRule) : result string :=
  fail_if negb (AuthorityRule_Valid r) with mkError "" "invalid authority rule"; canonical_bytes (rule_value r).

Abbreviation AuthorityRuleDigest := string.
Definition AuthorityRuleDigestOf (r : AuthorityRule) : result AuthorityRuleDigest :=
  b ← CanonicalAuthorityRuleBytes r;
  let d := hashDomain authorityRuleDomain b in
  fail_if negb (Digest_Valid d) with mkError "" "invalid authority rule digest"; Ok d.

Record TypedResolvedAuthorityRule := mkTypedRule {
  ty_reference : SemanticReference; ty_rule : AuthorityRule; ty_digest : AuthorityRuleDigest }.
Definition TypedResolvedAuthorityRule_Valid (r : TypedResolvedAuthorityRule) : bool :=
  if negb (SemanticReference_Valid (ty_reference r)) || negb (bool_decide (sr_kind (ty_reference r) = ObjectKindAuthorityRule)) ||
     negb (Digest_Valid (ty_digest r)) || negb (AuthorityRule_Valid (ty_rule r)) then false
  else match AuthorityRuleDigestOf (ty_rule r) with
       | Err _ => false
       | Ok d => bool_decide (d = ty_digest r) && bool_decide (sr_id (ty_reference r) = ru_id (ty_rule r)) &&
                 (SemanticVersion_Compare (sr_version (ty_reference r)) (ru_version (ty_rule r)) =? 0)%Z &&
                 bool_decide (sr_digest (ty_reference r) = ty_digest r)
       end.

(** After the object of the rule is decoded. *)
Definition BindAuthorityRule (ref : SemanticReference) (f : fields) : result TypedResolvedAuthorityRule :=
  r ← NewAuthorityRule f;
  d ← AuthorityRuleDigestOf r;
  fail_if negb (bool_decide (sr_id ref = ru_id r)) || negb (SemanticVersion_Compare (sr_version ref) (ru_version r) =? 0)%Z ||
          negb (bool_decide (sr_digest ref = d)) with mkError "" "authority rule binding mismatch";
  Ok (mkTypedRule ref r d).

(** ** Versions: text and order *)
Definition component_ok (n : Z) : Prop := (0 <= n < 2 ^ 32)%Z.
Definition version_ok (v : SemanticVersion) : Prop := Forall component_ok (parts v).

Lemma component_parse c n : (fail_if negb (nonempty c) || leading_zero c with version_error; ParseUint 32 c) = Ok n ↔
  component_ok n ∧ c = itoa n.
Proof.
  unfold ParseUint, component_ok. rewrite result_guard_Ok, orb_false_iff, negb_false_iff. split.
  - intros [[Hne Hz] [_ Hv]%result_guard_Ok]. unfold nonempty in Hne. apply negb_true_iff, bool_decide_eq_false_1 in Hne.
    destruct (decimal_value 0 c) as [m|] eqn:E; [|done]. apply result_guard_Ok in Hv as [Hm%Z.leb_gt [= <-]].
    pose proof (decimal_value_bounds _ _ _ E) as [Hb _]. split; [lia|]. symmetry. by apply itoa_of_value.
  - intros [[Hn Hm] ->]. destruct (itoa_spec n Hn) as (Hne & Hz & Hv). rewrite Hz, Hv. split.
    + split; [|done]. unfold nonempty. by apply negb_true_iff, bool_decide_eq_false_2.
    + apply result_guard_Ok. split; [unfold nonempty; by rewrite bool_decide_eq_false_2|].
      apply result_guard_Ok. split; [by apply Z.leb_gt|done].
Qed.

Lemma version_parts_spec cs : ∀ read ns, version_parts read cs = Ok ns ↔
  ∃ ms, cs = map itoa ms ∧ Forall component_ok ms ∧ ns = read ++ ms ∧ (ms = [] ∨ length read + length ms <= 4).
Proof.
  induction cs as [|c cs IH]; intros read ns; cbn [version_parts].
  - split; [intros [= <-]; exists []; rewrite app_nil_r; naive_solver|].
    intros ([|m ms] & Hc & _ & -> & _); [by rewrite app_nil_r|done].
  - pose proof (component_parse c) as Hp.
    destruct (negb (nonempty c) || leading_zero c) eqn:Eg.
    { split; [done|]. intros ([|m ms] & [= -> ->] & [Hm _]%Forall_cons & _).
      pose proof (proj2 (Hp m) (conj Hm eq_refl)) as Hx. done. }
    destruct (ParseUint 32 c) as [n|] eqn:Eu.
    2:{ split; [done|]. intros ([|m ms] & [= -> ->] & [Hm _]%Forall_cons & _).
        pose proof (proj2 (Hp m) (conj Hm eq_refl)) as Hx. done. }
    destruct (proj1 (Hp n) eq_refl) as [Hn ->]. rewrite result_guard_Ok, Nat.leb_gt, IH. split.
    + intros [Hl (ms & -> & Hms & -> & Hlen)]. exists (n :: ms). rewrite length_app in Hlen. cbn in *.
      rewrite <-app_assoc. split_and!; [done|by constructor|done|right; destruct Hlen as [-> |]; cbn; lia].
    + intros ([|m ms] & [= E ->] & [Hm Hms]%Forall_cons & -> & Hlen); cbn in Hlen. destruct Hlen as [?|Hlen]; [done|].
      assert (m = n) as -> by (destruct Hm, Hn; by apply itoa_inj).
      split; [lia|]. exists ms. rewrite <-app_assoc, length_app. cbn. split_and!; [done..|right; lia].
Qed.

Lemma itoa_no_dot n : (0 <= n)%Z → has_byte dot (itoa n) = false.
Proof. intros (_ & _ & Hv)%itoa_spec. by eapply decimal_plain. Qed.

(** A version is exactly its canonical text: four decimal components of 32 bits
    without leading zeros. *)
Lemma version_text s v :
  ParseSemanticVersion s = Ok v ↔ version_ok v ∧ s = SemanticVersion_String v.
Proof.
  unfold ParseSemanticVersion, SemanticVersion_String, version_ok. split.
  - intros (ns & (ms & Hs & Hok & -> & _)%version_parts_spec & H)%result_bind_Ok. cbn [app] in H.
    destruct ms as [|a [|b [|c [|d [|? ?]]]]]; try done. injection H as <-. split; [done|].
    rewrite <-(join_split dot s), Hs. done.
  - intros [Hok ->]. apply result_bind_Ok. exists (parts v). split; [|by destruct v].
    apply version_parts_spec. exists (parts v). change "." with (String dot "").
    rewrite split_on_join; [split_and!; [done|done|done|right; cbn; lia]|done|].
    apply List.Forall_map. eapply Forall_impl; [exact Hok|]. intros n [Hn _]. by apply itoa_no_dot.
Qed.

(** The order is that of the first component that differs. *)
Lemma compare_parts_eq p : ∀ q, length p = length q → compare_parts p q = 0%Z ↔ p = q.
Proof.
  induction p as [|a p IH]; intros [|b q] Hl; try done. injection Hl as Hl. cbn [compare_parts].
  destruct (Z.ltb_spec a b); [split; [lia|intros [= -> _]; lia]|].
  destruct (Z.ltb_spec b a); [split; [lia|intros [= -> _]; lia]|]. assert (a = b) as -> by lia. rewrite IH by done. naive_solver.
Qed.
Lemma Compare_eq v w : SemanticVersion_Compare v w = 0%Z ↔ v = w.
Proof.
  unfold SemanticVersion_Compare. rewrite compare_parts_eq by done. destruct v, w; cbn. naive_solver.
Qed.

(** ** One reference, one rule *)

(** Equal literals have equal fields. *)
Lemma lookup_field_In k v (fs : fields) : NoDup fs.*1 → (k, v) ∈ fs → lookup_field k fs = Some v.
Proof.
  induction fs as [|[k' v'] fs IH]; [by intros _ ?%elem_of_nil|]. cbn [lookup_field fst snd]. rewrite fmap_cons.
  intros [Hk Hnd]%NoDup_cons [[= -> ->]|Hin]%elem_of_cons; [by rewrite bool_decide_eq_true_2|].
  rewrite bool_decide_eq_false_2; [by apply IH|]. intros <-. apply Hk. by apply (list_elem_of_fmap_2 fst _ (k', v)).
Qed.
Lemma lookup_field_None k (fs : fields) : lookup_field k fs = None ↔ k ∉ fs.*1.
Proof.
  induction fs as [|[k' v'] fs IH]; cbn [lookup_field fst snd]; [split; [by intros _ ?%elem_of_nil|done]|].
  rewrite fmap_cons, not_elem_of_cons, <-IH. cbn. case_bool_decide; naive_solver.
Qed.
Lemma lookup_field_elem k v (fs : fields) : lookup_field k fs = Some v → (k, v) ∈ fs.
Proof.
  induction fs as [|[k' v'] fs IH]; cbn [lookup_field fst snd]; [done|]. case_bool_decide as E.
  - intros [= ->]. subst. left.
  - intros H%IH. by right.
Qed.
Lemma obj_of_lookup (fs fs' : fields) : NoDup fs.*1 → NoDup fs'.*1 → obj_of fs = obj_of fs' →
  ∀ k, lookup_field k fs = lookup_field k fs'.
Proof.
  intros Hnd Hnd' [= E] k.
  assert (fs ≡ₚ fs') as Hp by (by rewrite <-(sort_by_perm (less_on fst string_ltb) fs), E, sort_by_perm).
  destruct (lookup_field k fs) as [v|] eqn:El.
  - symmetry. apply lookup_field_In; [done|]. rewrite <-Hp. by apply lookup_field_elem.
  - symmetry. apply lookup_field_None. rewrite <-Hp. by apply lookup_field_None.
Qed.

(** The versions of a reference are of the type [uint32]. *)
Definition reference_ok (r : SemanticReference) : Prop := version_ok (sr_version r).
Lemma SemanticVersion_String_inj v w : version_ok v → version_ok w → SemanticVersion_String v = SemanticVersion_String w → v = w.
Proof.
  intros Hv Hw E. apply Ok_inj. rewrite <-(proj2 (version_text _ v) (conj Hv eq_refl)), E.
  by apply version_text.
Qed.
Lemma referenceJSON_inj r r' : reference_ok r → reference_ok r' → referenceJSON r = referenceJSON r' → r = r'.
Proof.
  intros Hr Hr' E. apply obj_of_inj in E; [|done..]. injection E as Ek Ei Ev Ed.
  apply SemanticVersion_String_inj in Ev; [|done..]. by destruct r, r'; cbn in *; subst.
Qed.
Lemma referenceJSON_shaped r : shaped (referenceJSON r) = true.
Proof. apply shaped_literal; [done|done|by repeat constructor]. Qed.

Lemma sort_canonical_perm {A} (f : A → json) (l l' : list A) : (∀ x y, x ∈ l → y ∈ l' → f x = f y → x = y) →
  sort_canonical (map f l) = sort_canonical (map f l') → l ≡ₚ l'.
Proof.
  intros Hinj E.
  assert (f <$> l ≡ₚ f <$> l') as Hp.
  { transitivity (sort_canonical (map f l)); [symmetry; apply sort_by_perm|]. rewrite E. apply sort_by_perm. }
  clear E. revert l' Hinj Hp. induction l as [|x l IH]; intros l' Hinj Hp.
  { cbn in Hp. apply Permutation_nil in Hp. by destruct l'. }
  assert (f x ∈ f <$> l') as (y & Hy & Hin)%list_elem_of_fmap_1 by (rewrite <-Hp; left).
  assert (x = y) as <- by (apply Hinj; [left|done|done]).
  apply elem_of_Permutation in Hin as [k Hk]. rewrite Hk. constructor. apply IH.
  - intros a b Ha Hb. apply Hinj; [by right|]. rewrite Hk. by right.
  - rewrite Hk, fmap_cons in Hp. by apply Permutation_cons_inv in Hp.
Qed.

Definition valid_ref (r : SemanticReference) : option SemanticReference := if SemanticReference_Valid r then Some r else None.

(** The same rule, up to the order of its sets; an optional reference that is
    not valid is absent. *)
Record same_rule (r r' : AuthorityRule) : Prop := mkSameRule {
  same_schemaVersion : ru_schemaVersion r = ru_schemaVersion r';
  same_id : ru_id r = ru_id r';
  same_version : ru_version r = ru_version r';
  same_issuer : ru_issuer r = ru_issuer r';
  same_envelope : ru_envelopeRef r = ru_envelopeRef r';
  same_rule_baseline : ru_baselineRef r = ru_baselineRef r';
  same_rule_compatibility : ru_compatibilityRef r = ru_compatibilityRef r';
  same_trust : valid_ref (ru_trustPolicyRef r) = valid_ref (ru_trustPolicyRef r');
  same_rule_composition : valid_ref (ru_compositionRef r) = valid_ref (ru_compositionRef r');
  same_rule_registries : ru_registryRefs r ≡ₚ ru_registryRefs r';
  same_target : ru_targetScope r = ru_targetScope r';
  same_dimensions : ru_mandatoryDimensions r = ru_mandatoryDimensions r';
  same_rule_evidence : ru_evidenceClasses r ≡ₚ ru_evidenceClasses r';
  same_completeness : ru_completenessClasses r ≡ₚ ru_completenessClasses r';
  same_adequacy : ru_adequacyRequirements r ≡ₚ ru_adequacyRequirements r';
  same_provenance : ru_provenanceRequirements r ≡ₚ ru_provenanceRequirements r';
  same_certification : ru_certificationProperties r ≡ₚ ru_certificationProperties r';
  same_validity : ru_validity r = ru_validity r';
  same_revocation : ru_revocationRef r = ru_revocationRef r' }.

(** Versions of the type [uint32], instants of the years 1 to 9999. *)
Record rule_ranges (r : AuthorityRule) : Prop := mkRuleRanges {
  range_version : version_ok (ru_version r);
  range_envelope : reference_ok (ru_envelopeRef r);
  range_baseline : reference_ok (ru_baselineRef r);
  range_compatibility : reference_ok (ru_compatibilityRef r);
  range_trust : reference_ok (ru_trustPolicyRef r);
  range_composition : reference_ok (ru_compositionRef r);
  range_registries : Forall reference_ok (ru_registryRefs r);
  range_revocation : reference_ok (rev_reference (ru_revocationRef r));
  range_before : (0 <= sv_notBefore (ru_validity r) < instant_end)%Z;
  range_after : (0 <= sv_notAfter (ru_validity r) < instant_end)%Z }.

Lemma format_rfc3339_inj t u : (0 <= t < instant_end)%Z → (0 <= u < instant_end)%Z →
  format_rfc3339nano t = format_rfc3339nano u → t = u.
Proof. intros Ht Hu E. apply Ok_inj. by rewrite <-(parse_format_rfc3339 t), <-(parse_format_rfc3339 u), E. Qed.
Lemma JArr_inj l k : JArr l = JArr k → l = k.
Proof. by intros [= ->]. Qed.
Lemma JStr_inj s t : JStr s = JStr t → s = t.
Proof. by intros [= ->]. Qed.


Lemma rule_literal_keys r : NoDup (rule_literal r).*1.
Proof.
  unfold rule_literal. destruct (SemanticReference_Valid (ru_trustPolicyRef r)), (SemanticReference_Valid (ru_compositionRef r));
    cbn; apply (bool_decide_unpack _); vm_compute; exact I.
Qed.
Lemma tokens_shaped {A} (token : A → string) l : shaped (sorted_tokens token l) = true.
Proof.
  unfold sorted_tokens. cbn [shaped]. apply forallb_forall. intros v Hv%list_elem_of_In. unfold sort_canonical in Hv. rewrite elem_of_sort_by in Hv.
  by apply list_elem_of_In, in_map_iff in Hv as (x & <- & _).
Qed.
Lemma rule_value_shaped r : shaped (rule_value r) = true.
Proof.
  apply shaped_obj_of; [apply rule_literal_keys|].
  assert (shaped (referencesJSON (ru_registryRefs r)) = true) as Hregs.
  { cbn [referencesJSON shaped]. apply forallb_forall. intros v Hv%list_elem_of_In. unfold sort_canonical in Hv. rewrite elem_of_sort_by in Hv.
    apply list_elem_of_In, in_map_iff in Hv as (x & <- & _). apply referenceJSON_shaped. }
  assert (∀ l, shaped (scopeTokens l) = true) as Hscope.
  { intros l. cbn [scopeTokens shaped]. apply forallb_forall. by intros v (x & <- & _)%in_map_iff. }
  unfold rule_literal. repeat (apply Forall_app; split).
  - repeat (apply Forall_cons; split; cbn [snd]); try done; try apply referenceJSON_shaped; try apply tokens_shaped; try apply Hscope.
    apply shaped_literal; [done|done|]. repeat constructor. apply Hscope.
  - case_match; by repeat constructor.
  - case_match; by repeat constructor.
Qed.

Lemma completeness_token_inj c c' : CompletenessClass_Token c = CompletenessClass_Token c' → c = c'.
Proof. by destruct c, c'. Qed.
Lemma adequacy_token_inj c c' : AdequacyClass_Token c = AdequacyClass_Token c' → c = c'.
Proof. by destruct c, c'. Qed.
Lemma evidence_token_inj c c' : EvidenceClass_Token c = EvidenceClass_Token c' → c = c'.
Proof. by destruct c, c'. Qed.
Lemma tokens_perm {A} (token : A → string) l l' : (∀ x y, token x = token y → x = y) →
  sorted_tokens token l = sorted_tokens token l' → l ≡ₚ l'.
Proof.
  intros Hinj E%JArr_inj. eapply sort_canonical_perm; [|exact E]. intros x y _ _ Exy. by apply Hinj, JStr_inj.
Qed.
Lemma scopeTokens_inj l l' : scopeTokens l = scopeTokens l' → l = l'.
Proof.
  intros E%JArr_inj. revert l' E. induction l as [|x l IH]; intros [|y l']; try done. cbn. intros [= -> E].
  by rewrite (IH l' E).
Qed.
Lemma optional_inj r r' : reference_ok r → reference_ok r' →
  (if SemanticReference_Valid r then Some (referenceJSON r) else None) =
  (if SemanticReference_Valid r' then Some (referenceJSON r') else None) → valid_ref r = valid_ref r'.
Proof.
  unfold valid_ref. intros Hr Hr'. destruct (SemanticReference_Valid r), (SemanticReference_Valid r'); try done.
  intros E%(inj Some). apply referenceJSON_inj in E; [by subst|done..].
Qed.

Lemma rule_optional_lookup r :
  lookup_field "trustPolicyRef" (rule_literal r) =
    (if SemanticReference_Valid (ru_trustPolicyRef r) then Some (referenceJSON (ru_trustPolicyRef r)) else None) ∧
  lookup_field "compositionRef" (rule_literal r) =
    (if SemanticReference_Valid (ru_compositionRef r) then Some (referenceJSON (ru_compositionRef r)) else None).
Proof.
  unfold rule_literal. destruct (SemanticReference_Valid (ru_trustPolicyRef r)), (SemanticReference_Valid (ru_compositionRef r));
    split; reflexivity.
Qed.

(** The canonical value of a rule determines it. *)
Lemma rule_value_inj r r' : rule_ranges r → rule_ranges r' → rule_value r = rule_value r' → same_rule r r'.
Proof.
  intros [Rv Re Rb Rc Rt Ro Rr Rx R1 R2] [Rv' Re' Rb' Rc' Rt' Ro' Rr' Rx' R1' R2'] E.
  pose proof (obj_of_lookup _ _ (rule_literal_keys r) (rule_literal_keys r') E) as L. clear E.
  destruct (rule_optional_lookup r) as [Lt Lo], (rule_optional_lookup r') as [Lt' Lo'].
  assert (∀ k (v v' : json), lookup_field k (rule_literal r) = Some v → lookup_field k (rule_literal r') = Some v' → v = v') as F.
  { intros k v v' Hv Hv'. specialize (L k). congruence. }
  split.
  - apply JStr_inj. exact (F "schemaVersion" _ _ eq_refl eq_refl).
  - apply JStr_inj. exact (F "id" _ _ eq_refl eq_refl).
  - apply SemanticVersion_String_inj; [done|done|]. apply JStr_inj. exact (F "version" _ _ eq_refl eq_refl).
  - apply JStr_inj. exact (F "issuer" _ _ eq_refl eq_refl).
  - apply referenceJSON_inj; [done|done|]. exact (F "envelopeRef" _ _ eq_refl eq_refl).
  - apply referenceJSON_inj; [done|done|]. exact (F "baselineRef" _ _ eq_refl eq_refl).
  - apply referenceJSON_inj; [done|done|]. exact (F "compatibilityRuleRef" _ _ eq_refl eq_refl).
  - apply optional_inj; [done|done|]. by rewrite <-Lt, <-Lt'.
  - apply optional_inj; [done|done|]. by rewrite <-Lo, <-Lo'.
  - pose proof (JArr_inj _ _ (F "registryRefs" _ _ eq_refl eq_refl)) as E. eapply sort_canonical_perm; [|exact E].
    rewrite Forall_forall in Rr, Rr'. intros x y Hx Hy. apply referenceJSON_inj; [by apply Rr|by apply Rr'].
  - pose proof (F "targetScope" _ _ eq_refl eq_refl) as E. apply obj_of_inj in E; [|done..]. split_list E.
    apply JStr_inj in Heq. apply scopeTokens_inj in Heq0. destruct (ru_targetScope r), (ru_targetScope r'). cbn in *. by subst.
  - apply scopeTokens_inj. exact (F "mandatoryCoverageDimensions" _ _ eq_refl eq_refl).
  - apply (tokens_perm EvidenceClass_Token); [apply evidence_token_inj|]. exact (F "acceptedEvidenceClasses" _ _ eq_refl eq_refl).
  - apply (tokens_perm CompletenessClass_Token); [apply completeness_token_inj|].
    exact (F "acceptedCompletenessClasses" _ _ eq_refl eq_refl).
  - apply (tokens_perm AdequacyClass_Token); [apply adequacy_token_inj|]. exact (F "adequacyRequirements" _ _ eq_refl eq_refl).
  - apply (tokens_perm id); [done|]. exact (F "provenanceRequirements" _ _ eq_refl eq_refl).
  - apply (tokens_perm id); [done|]. exact (F "certificationProperties" _ _ eq_refl eq_refl).
  - pose proof (F "validity" _ _ eq_refl eq_refl) as E. apply obj_of_inj in E; [|done..]. split_list E.
    apply JStr_inj, format_rfc3339_inj in Heq, Heq0; [|done..]. destruct (ru_validity r), (ru_validity r'). cbn in *. by subst.
  - pose proof (F "revocationRef" _ _ eq_refl eq_refl) as E. apply referenceJSON_inj in E; [|done..].
    destruct (ru_revocationRef r), (ru_revocationRef r'). cbn in *. by subst.
Qed.

Lemma hashDomain_Digest domain b : Digest_Valid (hashDomain domain b) = true.
Proof. apply sha256_digest_shape. Qed.
Lemma AuthorityRuleDigestOf_Ok r d : AuthorityRuleDigestOf r = Ok d ↔
  ∃ b, CanonicalAuthorityRuleBytes r = Ok b ∧ d = hashDomain authorityRuleDomain b.
Proof.
  unfold AuthorityRuleDigestOf. rewrite result_bind_Ok. split.
  - intros (b & Hb & [_ H]%result_guard_Ok). apply Ok_inj in H. by exists b.
  - intros (b & Hb & ->). exists b. split; [done|]. rewrite hashDomain_Digest. done.
Qed.

(** What makes a typed rule valid. *)
Lemma TypedResolvedAuthorityRule_spec t : TypedResolvedAuthorityRule_Valid t = true ↔
  SemanticReference_Valid (ty_reference t) = true ∧ sr_kind (ty_reference t) = ObjectKindAuthorityRule ∧
  sr_id (ty_reference t) = ru_id (ty_rule t) ∧ sr_version (ty_reference t) = ru_version (ty_rule t) ∧
  sr_digest (ty_reference t) = ty_digest t ∧ AuthorityRuleDigestOf (ty_rule t) = Ok (ty_digest t).
Proof.
  unfold TypedResolvedAuthorityRule_Valid.
  destruct (SemanticReference_Valid (ty_reference t)); cbn [negb orb]; [|naive_solver].
  destruct (decide (sr_kind (ty_reference t) = ObjectKindAuthorityRule)) as [Hk|Hk];
    [rewrite bool_decide_eq_true_2 by done|rewrite bool_decide_eq_false_2 by done; cbn [negb orb]; naive_solver]. cbn [negb orb].
  destruct (AuthorityRuleDigestOf (ty_rule t)) as [d|] eqn:Ed.
  2:{ destruct (negb (Digest_Valid (ty_digest t)) || negb (AuthorityRule_Valid (ty_rule t))); naive_solver. }
  pose proof (proj1 (AuthorityRuleDigestOf_Ok _ _) Ed) as (b & Hb & Eb).
  assert (AuthorityRule_Valid (ty_rule t) = true) as Hv.
  { unfold CanonicalAuthorityRuleBytes in Hb. by apply result_guard_Ok in Hb as [?%negb_false_iff _]. }
  rewrite Hv, !orb_false_r. destruct (Digest_Valid (ty_digest t)) eqn:Edv; cbn [negb].
  - rewrite !andb_true_iff, !bool_decide_eq_true, Z.eqb_eq, Compare_eq. split.
    + intros [[[-> ?] ?] ?]. done.
    + intros (_ & _ & ? & ? & ? & E%Ok_inj). done.
  - split; [done|]. intros (_ & _ & _ & _ & _ & E%Ok_inj). rewrite <-E, Eb in Edv. by rewrite hashDomain_Digest in Edv.
Qed.

(** A rule that is decoded and bound is valid and is the one its reference
    names. *)
Lemma BindAuthorityRule_valid ref f t : ValidateKind ref ObjectKindAuthorityRule = Ok () → BindAuthorityRule ref f = Ok t →
  TypedResolvedAuthorityRule_Valid t = true ∧ ty_reference t = ref.
Proof.
  unfold ValidateKind, BindAuthorityRule. intros [[Hv Hk]%orb_false_iff _]%result_guard_Ok (r & Hr & (d & Hd & H)%result_bind_Ok)%result_bind_Ok.
  apply result_guard_Ok in H as [Hb H]. apply Ok_inj in H as <-. split; [|done].
  rewrite !orb_false_iff, !negb_false_iff, !bool_decide_eq_true, Z.eqb_eq, Compare_eq in *.
  apply TypedResolvedAuthorityRule_spec. cbn. naive_solver.
Qed.

(** One reference resolves to one rule: two valid typed rules with the same
    reference have the same rule, up to the order of its sets, or exhibit a
    collision of SHA-256 between their canonical encodings. *)
Theorem TypedResolvedAuthorityRule_determined t t' : TypedResolvedAuthorityRule_Valid t = true →
  TypedResolvedAuthorityRule_Valid t' = true → rule_ranges (ty_rule t) → rule_ranges (ty_rule t') →
  ty_reference t = ty_reference t' →
  same_rule (ty_rule t) (ty_rule t') ∨
  ∃ b b', CanonicalAuthorityRuleBytes (ty_rule t) = Ok b ∧ CanonicalAuthorityRuleBytes (ty_rule t') = Ok b' ∧
    collision (hashed authorityRuleDomain b) (hashed authorityRuleDomain b').
Proof.
  intros (_ & _ & _ & _ & Ed & Hd)%TypedResolvedAuthorityRule_spec (_ & _ & _ & _ & Ed' & Hd')%TypedResolvedAuthorityRule_spec
    Hr Hr' E. rewrite <-E, Ed in Ed'. apply AuthorityRuleDigestOf_Ok in Hd as (b & Hb & Hd), Hd' as (b' & Hb' & Hd').
  rewrite Hd, Hd' in Ed'. apply hashDomain_inj in Ed' as [<-|?]; [left|right; by exists b, b'].
  apply rule_value_inj; [done|done|]. unfold CanonicalAuthorityRuleBytes in *.
  apply result_guard_Ok in Hb as [_ Hb], Hb' as [_ Hb'].
  eapply canonical_bytes_inj; [..|exact Hb|exact Hb']; apply rule_value_shaped.
Qed.

(** The reference of a rule. *)
Definition reference_of (r : AuthorityRule) (b : string) : SemanticReference :=
  mkSemanticReference ObjectKindAuthorityRule (ru_id r) (ru_version r) (hashDomain authorityRuleDomain b).
Definition typed (r : AuthorityRule) (b : string) : TypedResolvedAuthorityRule :=
  mkTypedRule (reference_of r b) r (hashDomain authorityRuleDomain b).
Lemma typed_valid r b : CanonicalAuthorityRuleBytes r = Ok b → TypedResolvedAuthorityRule_Valid (typed r b) = true.
Proof.
  intros Hb. pose proof Hb as [Hv%negb_false_iff _]%result_guard_Ok.
  assert (nonempty (ru_id r) = true) as Hid by (unfold AuthorityRule_Valid in Hv; by rewrite !andb_true_iff in Hv; destruct Hv as [[[[[_ ?] _] _] _] _]).
  apply TypedResolvedAuthorityRule_spec. unfold typed, reference_of. cbn [ty_reference ty_rule ty_digest sr_kind sr_id sr_version sr_digest].
  split_and!; try done.
  - unfold SemanticReference_Valid. cbn [sr_kind sr_id sr_digest]. by rewrite Hid, hashDomain_Digest.
  - apply AuthorityRuleDigestOf_Ok. by exists b.
Qed.

Module Sim.
Definition digest : string := "sha256:" +:+ join "" (replicate 64 "a").
Definition text (kind id : string) : json :=
  JObj [("digest", JStr digest); ("id", JStr id); ("kind", JStr kind); ("version", JStr "1.0.0.0")].
Definition texts (l : list string) : json := JArr (map JStr l).
Definition object (evidence : list string) : fields :=
  [("schemaId", JStr "authority-rule.v1"); ("schemaVersion", JStr "1"); ("kind", JStr "AUTHORITY_RULE"); ("id", JStr "rule");
   ("version", JStr "1.0.0.0"); ("issuer", JStr "issuer"); ("backend", JStr "SECCOMP");
   ("envelopeRef", text "BACKEND_ENVELOPE_REGISTRY" "e"); ("baselineRef", text "BASELINE" "b");
   ("compatibilityRuleRef", text "COMPATIBILITY_RULE" "c"); ("registryRefs", JArr [text "SECURITY_FIELD_REGISTRY" "r"]);
   ("targetScope", JObj [("class", JStr "WORKLOAD"); ("dimensions", texts ["TEMPORAL"; "PROCESS_TREE"])]);
   ("mandatoryCoverageDimensions", texts seccompMandatoryDimensions); ("acceptedEvidenceClasses", texts evidence);
   ("acceptedCompletenessClasses", texts ["EMPIRICAL_COMPLETENESS"]); ("adequacyRequirements", texts ["BOUNDED_BEHAVIORAL"]);
   ("provenanceRequirements", texts ["RUN_IDENTITY"]); ("certificationProperties", texts []);
   ("validity", JObj [("notBefore", JStr "2024-01-01T00:00:00Z"); ("notAfter", JStr "2025-01-01T00:00:00+01:00")]);
   ("revocationRef", text "REVOCATION" "rev")].
Definition rule_result (evidence : list string) : result AuthorityRule := NewAuthorityRule (object evidence).

Example rules : is_ok (rule_result ["OBSERVATION"; "COVERAGE_RECORD"]) = true ∧ is_ok (rule_result ["OBSERVATION"; "OBSERVATION"]) = false.
Proof. vm_compute. done. Qed.

(** Registries with distinct identities that are refused as duplicates. *)
Definition registry (id version : string) : json :=
  JObj [("digest", JStr digest); ("id", JStr id); ("kind", JStr "SECURITY_FIELD_REGISTRY"); ("version", JStr version)].
Lemma distinct_registries_refused :
  rset (Some (JArr [registry "a" "11.0.0.0"; registry "a1" "1.0.0.0"])) ObjectKindRegistry = Err (mkError "" "duplicate ref") ∧
  is_ok (rset (Some (JArr [registry "a" "11.0.0.0"; registry "b" "1.0.0.0"])) ObjectKindRegistry) = true.
Proof. vm_compute. done. Qed.

Definition reference (kind id : string) : SemanticReference := mkSemanticReference kind id (mkVersion 1 0 0 0) digest.
Definition rule (evidence : list EvidenceClass) : AuthorityRule :=
  mkRule "authority-rule.v1" "1" "rule" "issuer" (mkVersion 1 0 0 0) "SECCOMP" (reference "BACKEND_ENVELOPE_REGISTRY" "e")
    (reference "BASELINE" "b") (reference "COMPATIBILITY_RULE" "c") zero_reference zero_reference
    [reference "SECURITY_FIELD_REGISTRY" "r"] (mkTargetScope "WORKLOAD" ["PROCESS_TREE"; "TEMPORAL"])
    (sort_strings seccompMandatoryDimensions) evidence [EmpiricalCompleteness] [BoundedBehavioral] ["RUN_IDENTITY"] []
    (mkSemanticValidity (unix 1704067200 0) (unix 1735686000 0)) (mkRevocationReference (reference "REVOCATION" "rev")).
Example rule_decoded :
  rule_result ["COVERAGE_RECORD"; "OBSERVATION"] = Ok (rule [EvidenceCoverageRecord; EvidenceObservation]).
Proof. vm_compute. reflexivity. Qed.

Lemma rule_ranges_ok evidence : rule_ranges (rule evidence).
Proof. split; unfold reference_ok, version_ok; cbn; repeat constructor; vm_compute; done. Qed.
Lemma evidence_order : CanonicalAuthorityRuleBytes (rule [EvidenceObservation; EvidenceCoverageRecord]) =
  CanonicalAuthorityRuleBytes (rule [EvidenceCoverageRecord; EvidenceObservation]).
Proof. vm_compute. reflexivity. Qed.

(** The same evidence in another order. *)
Lemma TypedResolvedAuthorityRule_determined_witness :
  ∃ b, CanonicalAuthorityRuleBytes (rule [EvidenceObservation; EvidenceCoverageRecord]) = Ok b ∧
    let t := typed (rule [EvidenceObservation; EvidenceCoverageRecord]) b in
    let t' := typed (rule [EvidenceCoverageRecord; EvidenceObservation]) b in
    same_rule (ty_rule t) (ty_rule t') ∨
    ∃ b b', CanonicalAuthorityRuleBytes (ty_rule t) = Ok b ∧ CanonicalAuthorityRuleBytes (ty_rule t') = Ok b' ∧
      collision (hashed authorityRuleDomain b) (hashed authorityRuleDomain b').
Proof.
  destruct (CanonicalAuthorityRuleBytes (rule [EvidenceObservation; EvidenceCoverageRecord])) as [b|] eqn:E;
    [|vm_compute in E; discriminate E].
  exists b. split; [reflexivity|]. apply TypedResolvedAuthorityRule_determined.
  - apply typed_valid. exact E.
  - apply typed_valid. exact (eq_trans (eq_sym evidence_order) E).
  - apply rule_ranges_ok.
  - apply rule_ranges_ok.
  - reflexivity.
Defined.
End Sim.
