(* ===== verification/AuthorityRequirements.v ===== *)
(** * internal/authority: mandatory requirements and eligibility

    requirements.go and the evaluator of evaluator.go: the closed union of
    mandatory requirements, the identity of a member, the resolved set of an
    authority rule, the match request of a member, and [EvaluateEligibility],
    which decides a set against a snapshot of facts. A dereference of a nil
    pointer is an error of the class [panic]. *)
From S2P Require Import Prelude GoStd Identity Digest Json Unstructured JsonParse Decimal Timestamp AuthorityDomain AuthorityFacts Compatibility.
From S2P Require Import AuthorityMatching AuthorityCanonical AuthoritySemantic.

Definition nil_dereference {A} : result A := Err (mkError "panic" "nil pointer dereference").
Definition deref {A} (p : option A) : result A := match p with Some a => Ok a | None => nil_dereference end.

(** ** Requirements *)
Abbreviation MandatoryRequirementFamily := string.
Definition RequirementTrust : MandatoryRequirementFamily := "trust".
Definition RequirementVerification : MandatoryRequirementFamily := "verification".
Definition RequirementRevocation : MandatoryRequirementFamily := "revocation".
Definition RequirementCompatibility : MandatoryRequirementFamily := "compatibility".
Definition RequirementCoverage : MandatoryRequirementFamily := "coverage".
Definition RequirementCompleteness : MandatoryRequirementFamily := "completeness".
Definition RequirementAdequacy : MandatoryRequirementFamily := "adequacy".
Definition RequirementCertification : MandatoryRequirementFamily := "certification".
Definition mandatoryRequirementVersion : string := "1".

Record TrustRequirement := mkTrustReq {
  qt_Subject : string; qt_PolicyRef : string; qt_RootRef : string; qt_Scope : Scope; qt_Context : SecurityContextIdentity }.
Record VerificationRequirement := mkVerificationReq {
  qv_Subject : string; qv_Verifier : string; qv_Property : string; qv_Scope : Scope; qv_Context : SecurityContextIdentity }.
Record RevocationStatusRequirement := mkRevocationReq { qr_Subject : string; qr_SourceRef : string }.
Record MandatoryCompatibilityRequirement := mkCompatibilityReq {
  qc_Schema : string; qc_Predicate : string; qc_Field : string; qc_Candidate : string; qc_Baseline : string;
  qc_RequirementRef : string; qc_Backend : string; qc_Subject : string; qc_Scope : Scope; qc_Context : SecurityContextIdentity }.
Record CoverageRequirement := mkCoverageReq {
  qo_Subject : string; qo_Backend : string; qo_SourceRef : string; qo_Scope : Scope; qo_Context : SecurityContextIdentity }.
Record CompletenessRequirement := mkCompletenessReq {
  ql_Subject : string; ql_RequiredClass : CompletenessClass; ql_Scope : Scope }.
Record AdequacyRequirement := mkAdequacyReq {
  qa_Subject : string; qa_RequiredClass : AdequacyClass; qa_Scope : Scope; qa_Context : SecurityContextIdentity;
  qa_Verifier : VerifierSemanticIdentity }.
Record CertificationRequirement := mkCertificationReq {
  qe_Subject : string; qe_CertificateRef : string; qe_Property : CertificationProperty; qe_Scope : Scope;
  qe_Context : SecurityContextIdentity; qe_Verifier : VerifierSemanticIdentity }.

(** The tagged union: a family, and one pointer for each. *)
Record MandatoryRequirement := mkMandatory {
  mr_Family : MandatoryRequirementFamily; mr_Version : string; mr_Trust : option TrustRequirement;
  mr_Verification : option VerificationRequirement; mr_RevocationStatus : option RevocationStatusRequirement;
  mr_Compatibility : option MandatoryCompatibilityRequirement; mr_Coverage : option CoverageRequirement;
  mr_Completeness : option CompletenessRequirement; mr_Adequacy : option AdequacyRequirement;
  mr_Certification : option CertificationRequirement }.

Definition NewTrustRequirement s p r sc c : MandatoryRequirement :=
  mkMandatory RequirementTrust mandatoryRequirementVersion (Some (mkTrustReq s p r sc c)) None None None None None None None.
Definition NewVerificationRequirement s v p sc c : MandatoryRequirement :=
  mkMandatory RequirementVerification mandatoryRequirementVersion None (Some (mkVerificationReq s v p sc c)) None None None None None None.
Definition NewRevocationStatusRequirement s src : MandatoryRequirement :=
  mkMandatory RequirementRevocation mandatoryRequirementVersion None None (Some (mkRevocationReq s src)) None None None None None.
Definition NewMandatoryCompatibilityRequirement schema predicate field candidate baseline ref backend s sc c : MandatoryRequirement :=
  mkMandatory RequirementCompatibility mandatoryRequirementVersion None None None
    (Some (mkCompatibilityReq schema predicate field candidate baseline ref backend s sc c)) None None None None.
Definition NewCoverageRequirement s backend src sc c : MandatoryRequirement :=
  mkMandatory RequirementCoverage mandatoryRequirementVersion None None None None (Some (mkCoverageReq s backend src sc c)) None None None.
Definition NewCompletenessRequirement s class sc : MandatoryRequirement :=
  mkMandatory RequirementCompleteness mandatoryRequirementVersion None None None None None (Some (mkCompletenessReq s class sc)) None None.
Definition NewAdequacyRequirement s class sc c v : MandatoryRequirement :=
  mkMandatory RequirementAdequacy mandatoryRequirementVersion None None None None None None (Some (mkAdequacyReq s class sc c v)) None.
Definition NewCertificationRequirement s cert p sc c v : MandatoryRequirement :=
  mkMandatory RequirementCertification mandatoryRequirementVersion None None None None None None None
    (Some (mkCertificationReq s cert p sc c v)).

Definition set {A} (p : option A) : nat := match p with Some _ => 1 | None => 0 end.
Definition validShape (r : MandatoryRequirement) : bool :=
  bool_decide (mr_Version r = mandatoryRequirementVersion) &&
  (set (mr_Trust r) + set (mr_Verification r) + set (mr_RevocationStatus r) + set (mr_Compatibility r) + set (mr_Coverage r) +
   set (mr_Completeness r) + set (mr_Adequacy r) + set (mr_Certification r) =? 1).

(** [Valid] dereferences the pointer of its family, which [validShape] does not
    require to be the one that is set. *)
Definition MandatoryRequirement_Valid (r : MandatoryRequirement) : result bool :=
  if negb (validShape r) then Ok false
  else if bool_decide (mr_Family r = RequirementTrust) then
    q ← deref (mr_Trust r);
    Ok (nonempty (qt_Subject q) && nonempty (qt_PolicyRef q) && nonempty (qt_RootRef q) && Scope_Valid (qt_Scope q) &&
        validContext (qt_Context q))
  else if bool_decide (mr_Family r = RequirementVerification) then
    q ← deref (mr_Verification r);
    Ok (nonempty (qv_Subject q) && nonempty (qv_Verifier q) && nonempty (qv_Property q) && Scope_Valid (qv_Scope q) &&
        validContext (qv_Context q))
  else if bool_decide (mr_Family r = RequirementRevocation) then
    q ← deref (mr_RevocationStatus r); Ok (nonempty (qr_Subject q) && nonempty (qr_SourceRef q))
  else if bool_decide (mr_Family r = RequirementCompatibility) then
    q ← deref (mr_Compatibility r);
    Ok (nonempty (qc_Schema q) && nonempty (qc_Predicate q) && nonempty (qc_Field q) && nonempty (qc_Candidate q) &&
        nonempty (qc_Baseline q) && nonempty (qc_RequirementRef q) && nonempty (qc_Backend q) && nonempty (qc_Subject q) &&
        Scope_Valid (qc_Scope q) && validContext (qc_Context q))
  else if bool_decide (mr_Family r = RequirementCoverage) then
    q ← deref (mr_Coverage r);
    Ok (nonempty (qo_Subject q) && nonempty (qo_Backend q) && nonempty (qo_SourceRef q) && Scope_Valid (qo_Scope q) &&
        validContext (qo_Context q))
  else if bool_decide (mr_Family r = RequirementCompleteness) then
    q ← deref (mr_Completeness r);
    Ok (nonempty (ql_Subject q) && CompletenessClass_Valid (ql_RequiredClass q) && Scope_Valid (ql_Scope q))
  else if bool_decide (mr_Family r = RequirementAdequacy) then
    q ← deref (mr_Adequacy r);
    Ok (nonempty (qa_Subject q) && AdequacyClass_Valid (qa_RequiredClass q) && Scope_Valid (qa_Scope q) &&
        validContext (qa_Context q) && validVerifier (qa_Verifier q))
  else if bool_decide (mr_Family r = RequirementCertification) then
    q ← deref (mr_Certification r);
    Ok (nonempty (qe_Subject q) && nonempty (qe_CertificateRef q) && CertificationProperty_Valid (qe_Property q) &&
        Scope_Valid (qe_Scope q) && validContext (qe_Context q) && validVerifier (qe_Verifier q))
  else Ok false.

(** ** Identity *)
Definition number (n : Z) : json := JNum (itoa n).
Definition scopeTokensResult (v : list ScopeDimensionResult) : json :=
  JArr (map (fun d => obj_of (zip ["dimension"; "state"] [JStr (Dimension d); number (ord (State d))])) v).
Definition mandatoryScopeIdentity (s : Scope) : json :=
  obj_of (zip ["dimensions"; "target"; "context"] [scopeTokensResult (Dimensions s); JStr (Target s); JStr (Context s)]).
Definition context_names : list string :=
  ["image"; "architecture"; "abi"; "kernel"; "workload"; "executable"; "libc"; "privilege"; "namespace"; "configuration";
   "environment"; "features"; "persistent"].
Definition contextIdentity (c : SecurityContextIdentity) : json :=
  obj_of (zip context_names (map JStr [ImageIdentity c; Architecture c; ABI c; KernelRuntimeClass c; WorkloadIdentity c;
    ExecutableIdentity c; LibcIdentity c; PrivilegeContext c; NamespaceSecurity c; ConfigurationID c; EnvironmentID c;
    FeatureSetID c; PersistentStateID c])).
Definition verifier_names : list string :=
  ["id"; "version"; "digest"; "class"; "inputSchema"; "outputSchema"; "property"; "procedure"; "constraints"].
Definition verifierIdentity (v : VerifierSemanticIdentity) : json :=
  obj_of (zip verifier_names [JStr (v_id v); JStr (v_version v); JStr (v_digest v); JStr (v_class v); JStr (v_inputSchema v);
    JStr (v_outputSchema v); JStr (v_property v); JStr (v_procedure v); JArr (map JStr (v_constraints v))]).

(** The fields of the family, after the two common ones. *)
Definition family_fields (r : MandatoryRequirement) : result fields :=
  if bool_decide (mr_Family r = RequirementTrust) then
    q ← deref (mr_Trust r);
    Ok (zip ["subject"; "policyRef"; "rootRef"; "scope"; "context"]
         [JStr (qt_Subject q); JStr (qt_PolicyRef q); JStr (qt_RootRef q); mandatoryScopeIdentity (qt_Scope q);
          contextIdentity (qt_Context q)])
  else if bool_decide (mr_Family r = RequirementVerification) then
    q ← deref (mr_Verification r);
    Ok (zip ["subject"; "verifier"; "property"; "scope"; "context"]
         [JStr (qv_Subject q); JStr (qv_Verifier q); JStr (qv_Property q); mandatoryScopeIdentity (qv_Scope q);
          contextIdentity (qv_Context q)])
  else if bool_decide (mr_Family r = RequirementRevocation) then
    q ← deref (mr_RevocationStatus r); Ok (zip ["subject"; "sourceRef"] [JStr (qr_Subject q); JStr (qr_SourceRef q)])
  else if bool_decide (mr_Family r = RequirementCompatibility) then
    q ← deref (mr_Compatibility r);
    Ok (zip ["schema"; "predicate"; "field"; "candidate"; "baseline"; "requirementRef"; "backend"; "subject"; "scope"; "context"]
         [JStr (qc_Schema q); JStr (qc_Predicate q); JStr (qc_Field q); JStr (qc_Candidate q); JStr (qc_Baseline q);
          JStr (qc_RequirementRef q); JStr (qc_Backend q); JStr (qc_Subject q); mandatoryScopeIdentity (qc_Scope q);
          contextIdentity (qc_Context q)])
  else if bool_decide (mr_Family r = RequirementCoverage) then
    q ← deref (mr_Coverage r);
    Ok (zip ["subject"; "backend"; "sourceRef"; "scope"; "context"]
         [JStr (qo_Subject q); JStr (qo_Backend q); JStr (qo_SourceRef q); mandatoryScopeIdentity (qo_Scope q);
          contextIdentity (qo_Context q)])
  else if bool_decide (mr_Family r = RequirementCompleteness) then
    q ← deref (mr_Completeness r);
    Ok (zip ["subject"; "requiredClass"; "scope"]
         [JStr (ql_Subject q); number (ord (ql_RequiredClass q)); mandatoryScopeIdentity (ql_Scope q)])
  else if bool_decide (mr_Family r = RequirementAdequacy) then
    q ← deref (mr_Adequacy r);
    Ok (zip ["subject"; "requiredClass"; "scope"; "context"; "verifier"]
         [JStr (qa_Subject q); number (ord (qa_RequiredClass q)); mandatoryScopeIdentity (qa_Scope q);
          contextIdentity (qa_Context q); verifierIdentity (qa_Verifier q)])
  else if bool_decide (mr_Family r = RequirementCertification) then
    q ← deref (mr_Certification r);
    Ok (zip ["subject"; "certificateRef"; "property"; "scope"; "context"; "verifier"]
         [JStr (qe_Subject q); JStr (qe_CertificateRef q); number (ord (qe_Property q)); mandatoryScopeIdentity (qe_Scope q);
          contextIdentity (qe_Context q); verifierIdentity (qe_Verifier q)])
  else Ok [].
Definition identityObject (r : MandatoryRequirement) : result json :=
  fs ← family_fields r; Ok (obj_of ([("family", JStr (mr_Family r)); ("schemaVersion", JStr (mr_Version r))] ++ fs)).

Definition MemberIdentity (r : MandatoryRequirement) : result string :=
  ok ← MandatoryRequirement_Valid r;
  fail_if negb ok with mkError "" "invalid mandatory requirement";
  v ← identityObject r; canonical_bytes v.
Definition canonicalIdentityString (v : json) : result string := canonical_bytes v.

(** ** The resolved set of a rule *)
Record ResolvedMandatoryRequirementSet := mkRequirementSet {
  rq_schemaVersion : string; rq_id : string; rq_rule : TypedResolvedAuthorityRule; rq_ruleRef : SemanticReference;
  rq_attempt : ResolutionAttemptIdentity; rq_requirements : list MandatoryRequirement }.

(** The loop that keeps the first requirement of each identity. *)
Fixpoint distinct_members (seen : list string) (requirements : list MandatoryRequirement) : result (list MandatoryRequirement) :=
  match requirements with
  | [] => Ok []
  | r :: requirements =>
      k ← MemberIdentity r;
      if bool_decide (k ∈ seen) then distinct_members seen requirements
      else rs ← distinct_members (k :: seen) requirements; Ok (r :: rs)
  end.
(** The insertion sort by identity: the sorted prefix, last first, into which
    the next requirement is moved down past the larger ones. *)
Definition identity_or_nil (r : MandatoryRequirement) : string := match MemberIdentity r with Ok b => b | Err _ => "" end.
Fixpoint move_down (r : MandatoryRequirement) (prefix : list MandatoryRequirement) : list MandatoryRequirement :=
  match prefix with
  | [] => [r]
  | p :: rest => if negb (string_ltb (identity_or_nil r) (identity_or_nil p)) then r :: p :: rest else p :: move_down r rest
  end.
Definition insertion_sort (requirements : list MandatoryRequirement) : list MandatoryRequirement :=
  rev (foldl (fun prefix r => move_down r prefix) [] requirements).

Definition set_names : list string := ["schemaVersion"; "ruleRef"; "resolutionAttempt"; "requirements"].
Definition set_value (schemaVersion : string) (ruleRef : SemanticReference) (attempt : ResolutionAttemptIdentity)
  (requirements : list MandatoryRequirement) : result json :=
  reqs ← result_mapM identityObject requirements;
  Ok (obj_of (zip set_names [JStr schemaVersion; referenceJSON ruleRef; JStr attempt; JArr reqs])).
Definition set_domain : string := "landlock-genprof/rfc0004/resolved-mandatory-requirement-set/v1".

Definition NewResolvedMandatoryRequirementSet (rule : TypedResolvedAuthorityRule) (attempt : ResolutionAttemptIdentity)
  (requirements : list MandatoryRequirement) : result ResolvedMandatoryRequirementSet :=
  fail_if negb (TypedResolvedAuthorityRule_Valid rule) || negb (Attempt_Valid attempt) || (length requirements =? 0)
    with mkError "" "invalid resolved mandatory requirement set";
  distinct ← distinct_members [] requirements;
  let normalized := insertion_sort distinct in
  payload ← set_value "1" (ty_reference rule) attempt normalized;
  raw ← canonical_bytes payload;
  Ok (mkRequirementSet "1" (hashDomain set_domain raw) rule (ty_reference rule) attempt normalized).

Fixpoint all_valid (requirements : list MandatoryRequirement) : result bool :=
  match requirements with
  | [] => Ok true
  | r :: requirements => ok ← MandatoryRequirement_Valid r; if ok : bool then all_valid requirements else Ok false
  end.
Definition ResolvedMandatoryRequirementSet_Valid (s : ResolvedMandatoryRequirementSet) : result bool :=
  if bool_decide (rq_schemaVersion s = "1") && nonempty (rq_id s) && TypedResolvedAuthorityRule_Valid (rq_rule s) &&
     bool_decide (ty_reference (rq_rule s) = rq_ruleRef s) && SemanticReference_Valid (rq_ruleRef s) &&
     bool_decide (sr_kind (rq_ruleRef s) = ObjectKindAuthorityRule) && Attempt_Valid (rq_attempt s) &&
     (0 <? length (rq_requirements s))
  then all_valid (rq_requirements s) else Ok false.
Definition ResolvedMandatoryRequirementSet_CanonicalBytes (s : ResolvedMandatoryRequirementSet) : result string :=
  ok ← ResolvedMandatoryRequirementSet_Valid s;
  fail_if negb ok with mkError "" "invalid resolved mandatory requirement set";
  v ← set_value (rq_schemaVersion s) (rq_ruleRef s) (rq_attempt s) (rq_requirements s);
  canonical_bytes v.

(** ** The match request of a member *)

(** The request the operands common to all families make. *)
Record operands := mkOperands {
  op_Family : FactFamily; op_Subject : string; op_Scope : Scope; op_Context : string; op_TypedContext : SecurityContextIdentity }.
Section match_request.
Variables (s : ResolvedMandatoryRequirementSet) (at_ : time) (authorityID memberID : string).

(** [setContext] with a context: its canonical text and the context itself. *)
Definition typed_context (c : SecurityContextIdentity) : result string := canonicalIdentityString (contextIdentity c).

Definition request (o : operands) (backend policy root property producer source candidate baseline schema predicate field : string)
  (completeness : CompletenessClass) (adequacy : AdequacyClass) (ref : string) (verifier : VerifierSemanticIdentity) : MatchRequest :=
  mkMatchRequest (op_Family o) (rq_attempt s) authorityID memberID (op_Subject o) backend (op_Context o) (op_TypedContext o)
    (op_Scope o) at_ policy root property producer source candidate baseline schema predicate field completeness adequacy ref verifier.

Definition family_request (r : MandatoryRequirement) : result MatchRequest :=
  let backend := ru_backend (ty_rule (rq_rule s)) in
  let plain o := request o backend in
  if bool_decide (mr_Family r = RequirementTrust) then
    q ← deref (mr_Trust r); c ← typed_context (qt_Context q);
    Ok (plain (mkOperands FamilyTrust (qt_Subject q) (qt_Scope q) c (qt_Context q)) (qt_PolicyRef q) (qt_RootRef q) "" "" "" "" "" "" "" ""
          CompletenessInvalid AdequacyInvalid "" zero_verifier)
  else if bool_decide (mr_Family r = RequirementVerification) then
    q ← deref (mr_Verification r); c ← typed_context (qv_Context q);
    Ok (plain (mkOperands FamilyVerification (qv_Subject q) (qv_Scope q) c (qv_Context q)) "" "" (qv_Property q) (qv_Verifier q) "" "" "" "" "" ""
          CompletenessInvalid AdequacyInvalid "" zero_verifier)
  else if bool_decide (mr_Family r = RequirementRevocation) then
    q ← deref (mr_RevocationStatus r);
    Ok (plain (mkOperands FamilyRevocation (qr_Subject q) zero_scope "" zero_context) "" "" "" "" (qr_SourceRef q) "" "" "" "" ""
          CompletenessInvalid AdequacyInvalid "" zero_verifier)
  else if bool_decide (mr_Family r = RequirementCompatibility) then
    q ← deref (mr_Compatibility r); c ← typed_context (qc_Context q);
    Ok (request (mkOperands FamilyCompatibility (qc_Subject q) (qc_Scope q) c (qc_Context q)) (qc_Backend q) "" "" "" "" "" (qc_Candidate q)
          (qc_Baseline q) (qc_Schema q) (qc_Predicate q) (qc_Field q) CompletenessInvalid AdequacyInvalid (qc_RequirementRef q) zero_verifier)
  else if bool_decide (mr_Family r = RequirementCoverage) then
    q ← deref (mr_Coverage r); c ← typed_context (qo_Context q);
    Ok (request (mkOperands FamilyCoverage (qo_Subject q) (qo_Scope q) c (qo_Context q)) (qo_Backend q) "" "" "" "" (qo_SourceRef q) "" "" "" "" ""
          CompletenessInvalid AdequacyInvalid "" zero_verifier)
  else if bool_decide (mr_Family r = RequirementCertification) then
    q ← deref (mr_Certification r); c ← typed_context (qe_Context q);
    Ok (plain (mkOperands FamilyCertification (qe_Subject q) (qe_Scope q) c (qe_Context q)) "" "" (itoa (ord (qe_Property q)))
          (v_id (qe_Verifier q)) (qe_CertificateRef q) "" "" "" "" "" CompletenessInvalid AdequacyInvalid "" (qe_Verifier q))
  else if bool_decide (mr_Family r = RequirementCompleteness) then
    q ← deref (mr_Completeness r);
    Ok (plain (mkOperands FamilyCompleteness (ql_Subject q) (ql_Scope q) (Context (ql_Scope q)) zero_context) "" "" "" "" "" "" "" "" "" ""
          (ql_RequiredClass q) AdequacyInvalid "" zero_verifier)
  else if bool_decide (mr_Family r = RequirementAdequacy) then
    q ← deref (mr_Adequacy r); c ← typed_context (qa_Context q);
    Ok (plain (mkOperands FamilyAdequacy (qa_Subject q) (qa_Scope q) c (qa_Context q)) "" "" "" (v_id (qa_Verifier q)) "" "" "" "" "" ""
          CompletenessInvalid (qa_RequiredClass q) "" (qa_Verifier q))
  else Err (mkError "" "match adapter not implemented for family").
End match_request.

Definition MatchRequestOf (s : ResolvedMandatoryRequirementSet) (r : MandatoryRequirement) (at_ : time) : result MatchRequest :=
  set_ok ← ResolvedMandatoryRequirementSet_Valid s;
  req_ok ← (if set_ok : bool then MandatoryRequirement_Valid r else Ok false);
  fail_if negb set_ok || negb req_ok || time_is_zero at_ with mkError "" "invalid requirement match inputs";
  memberID ← MemberIdentity r;
  fail_if negb (existsb (fun member => bool_decide (identity_or_nil member = memberID)) (rq_requirements s))
    with mkError "" "requirement is not a member of resolved set";
  authorityID ← canonicalIdentityString (referenceJSON (rq_ruleRef s));
  family_request s at_ authorityID memberID r.

(** ** EvaluateEligibility *)
Record EligibilityEvaluation := mkEvaluation {
  ee_Rule : TypedResolvedAuthorityRule; ee_Requirements : ResolvedMandatoryRequirementSet;
  ee_Snapshot : EvaluationFactSnapshot; ee_EvaluationAt : time }.
Record EligibilityDecision := mkDecision {
  ed_id : string; ed_result : EligibilityResult; ed_ruleRef : SemanticReference; ed_requirementSetID : string;
  ed_attempt : ResolutionAttemptIdentity; ed_evaluationAt : time }.

Definition decision_names : list string := ["result"; "ruleRef"; "requirementSetId"; "resolutionAttempt"; "evaluationAt"].
Definition decision_domain : string := "landlock-genprof/rfc0004/eligibility-decision/v1".
Definition eligibilityDecisionIdentity (outcome : EligibilityResult) (ruleRef : SemanticReference) (setID : string)
  (attempt : ResolutionAttemptIdentity) (at_ : time) : result string :=
  fail_if negb (EligibilityResult_Valid outcome) || negb (SemanticReference_Valid ruleRef) || negb (nonempty setID) ||
          negb (Attempt_Valid attempt) || time_is_zero at_ with mkError "" "invalid eligibility decision identity";
  raw ← canonical_bytes (obj_of (zip decision_names [number (ord outcome); referenceJSON ruleRef; JStr setID; JStr attempt;
          JStr (format_rfc3339nano at_)]));
  Ok (hashDomain decision_domain raw).
Definition EligibilityDecision_Valid (d : EligibilityDecision) : bool :=
  match eligibilityDecisionIdentity (ed_result d) (ed_ruleRef d) (ed_requirementSetID d) (ed_attempt d) (ed_evaluationAt d) with
  | Ok id => bool_decide (id = ed_id d)
  | Err _ => false
  end.

(** The loop over the requirements, with whether one was refuted or unresolved. *)
Fixpoint evaluate (s : ResolvedMandatoryRequirementSet) (snapshot : EvaluationFactSnapshot) (at_ : time)
  (refuted unresolved : bool) (required : list MandatoryRequirement) : result (bool * bool) :=
  match required with
  | [] => Ok (refuted, unresolved)
  | r :: required =>
      q ← MatchRequestOf s r at_;
      m ← MatchSnapshot q snapshot;
      match rm_outcome m with
      | MatchSatisfied => evaluate s snapshot at_ refuted unresolved required
      | MatchRefuted => evaluate s snapshot at_ true unresolved required
      | MatchUnknown | MatchNonMatching => evaluate s snapshot at_ refuted true required
      | MatchInvalid => Err (mkError "" "invalid requirement match")
      end
  end.

Definition EvaluateEligibility (in_ : EligibilityEvaluation) : result EligibilityDecision :=
  let s := ee_Requirements in_ in
  set_ok ← (if TypedResolvedAuthorityRule_Valid (ee_Rule in_) then ResolvedMandatoryRequirementSet_Valid s else Ok false);
  fail_if negb set_ok || negb (EvaluationFactSnapshot_Valid (ee_Snapshot in_)) || time_is_zero (ee_EvaluationAt in_)
    with mkError "" "invalid eligibility evaluation";
  fail_if negb (bool_decide (rq_ruleRef s = ty_reference (ee_Rule in_))) ||
          negb (bool_decide (rq_attempt s = sn_attempt (ee_Snapshot in_))) with mkError "" "incoherent eligibility evaluation";
  fail_if match ResolvedMandatoryRequirementSet_CanonicalBytes s with
          | Ok b => negb (bool_decide (hashDomain set_domain b = rq_id s)) | Err _ => true end
    with mkError "" "invalid requirement-set identity";
  fail_if length (rq_requirements s) =? 0 with mkError "" "empty mandatory requirement set";
  flags ← evaluate s (ee_Snapshot in_) (ee_EvaluationAt in_) false false (rq_requirements s);
  let outcome := if flags.1 : bool then EligibilityIneligible else if flags.2 : bool then EligibilityUnknown else EligibilityEligible in
  id ← eligibilityDecisionIdentity outcome (ty_reference (ee_Rule in_)) (rq_id s) (rq_attempt s) (ee_EvaluationAt in_);
  Ok (mkDecision id outcome (ty_reference (ee_Rule in_)) (rq_id s) (rq_attempt s) (ee_EvaluationAt in_)).

(** ** The outcome of an evaluation *)

(** The outcome of one requirement against the snapshot. *)
Definition outcome_of (s : ResolvedMandatoryRequirementSet) (snapshot : EvaluationFactSnapshot) (at_ : time)
  (r : MandatoryRequirement) : result RequirementMatchOutcome :=
  q ← MatchRequestOf s r at_; m ← MatchSnapshot q snapshot; Ok (rm_outcome m).
(** The requirement has the outcome, which is a proper one. *)
Definition has_outcome (s : ResolvedMandatoryRequirementSet) (snapshot : EvaluationFactSnapshot) (at_ : time)
  (r : MandatoryRequirement) (o : RequirementMatchOutcome) : Prop := outcome_of s snapshot at_ r = Ok o ∧ o ≠ MatchInvalid.
Definition refutes (o : RequirementMatchOutcome) : bool := bool_decide (o = MatchRefuted).
Definition leaves_open (o : RequirementMatchOutcome) : bool := bool_decide (o = MatchUnknown ∨ o = MatchNonMatching).

Lemma evaluate_cons s snapshot at_ refuted unresolved r rs :
  evaluate s snapshot at_ refuted unresolved (r :: rs) =
  (o ← outcome_of s snapshot at_ r;
   fail_if bool_decide (o = MatchInvalid) with mkError "" "invalid requirement match";
   evaluate s snapshot at_ (refuted || refutes o) (unresolved || leaves_open o) rs).
Proof.
  unfold outcome_of. cbn [evaluate]. destruct (MatchRequestOf s r at_) as [q|e]; [|done]. cbn.
  destruct (MatchSnapshot q snapshot) as [m|e]; [|done]. cbn. destruct (rm_outcome m); cbn; by rewrite ?orb_true_r, ?orb_false_r.
Qed.

Lemma evaluate_spec s snapshot at_ rs : ∀ refuted unresolved flags,
  evaluate s snapshot at_ refuted unresolved rs = Ok flags ↔
  ∃ os, Forall2 (has_outcome s snapshot at_) rs os ∧ flags = (refuted || existsb refutes os, unresolved || existsb leaves_open os).
Proof.
  induction rs as [|r rs IH]; intros refuted unresolved flags.
  { split; [intros <-%Ok_inj; exists []; cbn; by rewrite !orb_false_r|]. intros (os & Hos & ->). inversion Hos; subst.
    cbn. by rewrite !orb_false_r. }
  rewrite evaluate_cons, result_bind_Ok. setoid_rewrite result_guard_Ok. setoid_rewrite IH. split.
  - intros (o & Ho & Hi%bool_decide_eq_false_1 & os & Hos & ->). exists (o :: os). cbn [existsb]. rewrite !orb_assoc.
    by split; [constructor|].
  - intros (os & Hos & ->). inversion Hos as [|? o ? os' [Ho Hi] Hos']; subst. exists o. cbn [existsb]. rewrite !orb_assoc.
    split; [done|]. split; [by apply bool_decide_eq_false_2|]. by exists os'.
Qed.

Lemma outcomes_proper s snapshot at_ rs os : Forall2 (has_outcome s snapshot at_) rs os → Forall (λ o, o ≠ MatchInvalid) os.
Proof. induction 1 as [|r o rs os [_ Ho] _ IH]; by constructor. Qed.

(** Three-valued conjunction: refuted by one, else left open by one, else
    satisfied by all. *)
Definition conjunction (os : list RequirementMatchOutcome) : EligibilityResult :=
  if existsb refutes os then EligibilityIneligible
  else if existsb leaves_open os then EligibilityUnknown else EligibilityEligible.

Lemma conjunction_eligible os : Forall (λ o, o ≠ MatchInvalid) os →
  conjunction os = EligibilityEligible ↔ Forall (eq MatchSatisfied) os.
Proof.
  unfold conjunction. induction 1 as [|o os Ho _ IH]; cbn [existsb]; [split; [constructor|done]|].
  rewrite Forall_cons, <-IH. destruct o; cbn; try (split; [|intros [? _]]; done); [tauto|..].
  all: destruct (existsb refutes os); naive_solver.
Qed.
Lemma conjunction_ineligible os : conjunction os = EligibilityIneligible ↔ MatchRefuted ∈ os.
Proof.
  unfold conjunction. destruct (existsb refutes os) eqn:E.
  - split; [|done]. intros _. apply existsb_exists in E as (o & Ho%list_elem_of_In & ->%bool_decide_eq_true_1). done.
  - split; [by destruct (existsb leaves_open os)|]. intros Hin. pose proof (existsb_false_elem _ _ _ E Hin) as Hx. done.
Qed.

(** What a decision is made of. *)
Lemma EvaluateEligibility_Ok in_ d : EvaluateEligibility in_ = Ok d ↔
  (TypedResolvedAuthorityRule_Valid (ee_Rule in_) = true ∧
   ResolvedMandatoryRequirementSet_Valid (ee_Requirements in_) = Ok true ∧ EvaluationFactSnapshot_Valid (ee_Snapshot in_) = true ∧
   time_is_zero (ee_EvaluationAt in_) = false) ∧
  (rq_ruleRef (ee_Requirements in_) = ty_reference (ee_Rule in_) ∧ rq_attempt (ee_Requirements in_) = sn_attempt (ee_Snapshot in_)) ∧
  (∃ b, ResolvedMandatoryRequirementSet_CanonicalBytes (ee_Requirements in_) = Ok b ∧
        rq_id (ee_Requirements in_) = hashDomain set_domain b) ∧
  0 < length (rq_requirements (ee_Requirements in_)) ∧
  ∃ os, Forall2 (has_outcome (ee_Requirements in_) (ee_Snapshot in_) (ee_EvaluationAt in_)) (rq_requirements (ee_Requirements in_)) os ∧
  ed_result d = conjunction os ∧
  eligibilityDecisionIdentity (conjunction os) (ty_reference (ee_Rule in_)) (rq_id (ee_Requirements in_)) (rq_attempt (ee_Requirements in_))
    (ee_EvaluationAt in_) = Ok (ed_id d) ∧
  ed_ruleRef d = ty_reference (ee_Rule in_) ∧ ed_requirementSetID d = rq_id (ee_Requirements in_) ∧
  ed_attempt d = rq_attempt (ee_Requirements in_) ∧ ed_evaluationAt d = ee_EvaluationAt in_.
Proof.
  unfold EvaluateEligibility. rewrite result_bind_Ok. split.
  - intros (ok & Hok & [Hg H]%result_guard_Ok). rewrite !orb_false_iff, !negb_false_iff in Hg. destruct Hg as [[-> Hs] Hz].
    destruct (TypedResolvedAuthorityRule_Valid (ee_Rule in_)) eqn:Ht; [|done].
    apply result_guard_Ok in H as [Hc H]. rewrite orb_false_iff, !negb_false_iff, !bool_decide_eq_true in Hc. destruct Hc as [Hr Ha].
    apply result_guard_Ok in H as [Hid H]. apply result_guard_Ok in H as [Hn%Nat.eqb_neq H].
    destruct (ResolvedMandatoryRequirementSet_CanonicalBytes (ee_Requirements in_)) as [b|] eqn:Eb; [|done].
    apply negb_false_iff, bool_decide_eq_true in Hid.
    apply result_bind_Ok in H as (flags & (os & Hos & ->)%evaluate_spec & H). cbn [fst snd orb] in H.
    fold (conjunction os) in H. apply result_bind_Ok in H as (id & Hi & <-%Ok_inj).
    split_and!; [done..| |lia|]; [by exists b|]. exists os. cbn. by split_and!.
  - intros ((Ht & Hs & Hf & Hz) & (Hr & Ha) & (b & Hb & Hid) & Hn & os & Hos & Hres & Hi & H1 & H2 & H3 & H4).
    exists true. rewrite Ht, Hs, Hf, Hz. split; [done|]. cbn [negb orb].
    rewrite (bool_decide_eq_true_2 _ Hr), (bool_decide_eq_true_2 _ Ha), Hb. cbn [negb orb].
    rewrite (bool_decide_eq_true_2 (hashDomain set_domain b = rq_id (ee_Requirements in_))) by done. cbn [negb].
    apply result_guard_Ok. split; [by apply Nat.eqb_neq; lia|]. apply result_bind_Ok. eexists. split; [by apply evaluate_spec; exists os|].
    cbn [fst snd orb]. fold (conjunction os). rewrite Hi. cbn. destruct d; cbn in *. by subst.
Qed.

Lemma decision_identity_valid d : eligibilityDecisionIdentity (ed_result d) (ed_ruleRef d) (ed_requirementSetID d) (ed_attempt d)
  (ed_evaluationAt d) = Ok (ed_id d) → EligibilityDecision_Valid d = true.
Proof. unfold EligibilityDecision_Valid. intros ->. by apply bool_decide_eq_true. Qed.

(** ** The identity of a member determines it *)
Lemma number_ord_inj {A} `{!Enum A} (x y : A) : (0 <= ord x)%Z → (0 <= ord y)%Z → number (ord x) = number (ord y) → ord x = ord y.
Proof. unfold number. intros Hx Hy E. apply itoa_inj; [done..|]. by injection E. Qed.
Lemma number_shaped {A} `{!Enum A} (x : A) : (0 <= ord x <= 5)%Z → shaped (number (ord x)) = true.
Proof.
  intros H. assert (ord x = 0 ∨ ord x = 1 ∨ ord x = 2 ∨ ord x = 3 ∨ ord x = 4 ∨ ord x = 5)%Z as Hc by lia.
  by repeat destruct Hc as [-> | Hc]; [..|rewrite Hc].
Qed.
(** Enumerations of at most six members whose numbers tell them apart. *)
Class SmallEnum (A : Type) `{Enum A} := {
  ord_range (x : A) : (0 <= ord x <= 5)%Z;
  ord_inj (x y : A) : ord x = ord y → x = y }.
#[export] Instance ScopeCoverageState_small : SmallEnum ScopeCoverageState.
Proof. split; [by intros []|by intros [] []]. Qed.
#[export] Instance CompletenessClass_small : SmallEnum CompletenessClass.
Proof. split; [by intros []|by intros [] []]. Qed.
#[export] Instance AdequacyClass_small : SmallEnum AdequacyClass.
Proof. split; [by intros []|by intros [] []]. Qed.
#[export] Instance CertificationProperty_small : SmallEnum CertificationProperty.
Proof. split; [by intros []|by intros [] []]. Qed.
#[export] Instance EligibilityResult_small : SmallEnum EligibilityResult.
Proof. split; [by intros []|by intros [] []]. Qed.

Lemma number_inj {A} `{SmallEnum A} (x y : A) : number (ord x) = number (ord y) → x = y.
Proof. intros E. apply ord_inj, number_ord_inj; [apply ord_range..|done]. Qed.
Lemma number_small {A} `{SmallEnum A} (x : A) : shaped (number (ord x)) = true.
Proof. apply number_shaped, ord_range. Qed.

Lemma texts_inj l l' : map JStr l = map JStr l' → l = l'.
Proof. revert l'. induction l as [|x l IH]; intros [|y l']; try done. cbn. intros [E%JStr_inj Hl]%cons_eq. by rewrite E, (IH l'). Qed.
Lemma texts_shaped l : Forall (fun v => shaped v = true) (map JStr l).
Proof. apply List.Forall_map. by apply Forall_forall. Qed.

Lemma scopeTokensResult_inj l l' : scopeTokensResult l = scopeTokensResult l' → l = l'.
Proof.
  intros E%JArr_inj. revert l' E. induction l as [|[d st] l IH]; intros [|[d' st'] l']; try done.
  cbn [map Dimension State]. intros [E Hl]%cons_eq. rewrite (IH l' Hl). apply obj_of_inj in E; [|done..].
  split_list E. apply JStr_inj in Heq. apply number_inj in Heq0. by subst.
Qed.
Lemma mandatoryScopeIdentity_inj c c' : mandatoryScopeIdentity c = mandatoryScopeIdentity c' → c = c'.
Proof.
  destruct c as [d t x], c' as [d' t' x']. intros E%obj_of_inj; [|done..]. cbn [Dimensions Target Context] in E. split_list E.
  apply scopeTokensResult_inj in Heq. apply JStr_inj in Heq0, Heq1. by subst.
Qed.
Lemma mandatoryScopeIdentity_shaped c : shaped (mandatoryScopeIdentity c) = true.
Proof.
  apply shaped_literal; [done|done|]. repeat constructor. cbn [scopeTokensResult shaped]. apply forallb_forall.
  intros v (d & <- & _)%in_map_iff. apply shaped_literal; [done|done|]. repeat constructor. apply number_small.
Qed.
Lemma contextIdentity_inj c c' : contextIdentity c = contextIdentity c' → c = c'.
Proof. destruct c, c'. intros E%obj_of_inj; [|done..]. apply texts_inj in E. cbn in E. by injection E; intros; subst. Qed.
Lemma contextIdentity_shaped c : shaped (contextIdentity c) = true.
Proof. apply shaped_literal; [done|done|apply texts_shaped]. Qed.
Lemma verifierIdentity_inj v v' : verifierIdentity v = verifierIdentity v' → v = v'.
Proof.
  destruct v, v'. intros E%obj_of_inj; [|done..].
  split_list E. apply JArr_inj, texts_inj in Heq7. repeat match goal with H : JStr _ = JStr _ |- _ => apply JStr_inj in H end.
  cbn in *. by subst.
Qed.
Lemma verifierIdentity_shaped v : shaped (verifierIdentity v) = true.
Proof. apply shaped_literal; [done|done|]. repeat constructor. cbn [shaped]. apply forallb_forall. by intros x (y & <- & _)%in_map_iff. Qed.

(** The requirements the constructors build. *)
Inductive member :=
| TrustMember (q : TrustRequirement) | VerificationMember (q : VerificationRequirement) | RevocationMember (q : RevocationStatusRequirement)
| CompatibilityMember (q : MandatoryCompatibilityRequirement) | CoverageMember (q : CoverageRequirement)
| CompletenessMember (q : CompletenessRequirement) | AdequacyMember (q : AdequacyRequirement) | CertificationMember (q : CertificationRequirement).
Definition of_member (m : member) : MandatoryRequirement :=
  let make family t v r c o l a e := mkMandatory family mandatoryRequirementVersion t v r c o l a e in
  match m with
  | TrustMember q => make RequirementTrust (Some q) None None None None None None None
  | VerificationMember q => make RequirementVerification None (Some q) None None None None None None
  | RevocationMember q => make RequirementRevocation None None (Some q) None None None None None
  | CompatibilityMember q => make RequirementCompatibility None None None (Some q) None None None None
  | CoverageMember q => make RequirementCoverage None None None None (Some q) None None None
  | CompletenessMember q => make RequirementCompleteness None None None None None (Some q) None None
  | AdequacyMember q => make RequirementAdequacy None None None None None None (Some q) None
  | CertificationMember q => make RequirementCertification None None None None None None None (Some q)
  end.
Lemma set_None {A} (p : option A) : set p = 0 → p = None.
Proof. by destruct p. Qed.
Ltac the_pointer H :=
  cbn [result_bind mbind deref set Nat.add] in *;
  repeat match goal with E : context [set ?p] |- _ => is_var p; let S := fresh in assert (set p = 0) as S by lia; apply set_None in S; subst p; cbn [set Nat.add] in * end.

Lemma validShape_pointers r : validShape r = true →
  mr_Version r = mandatoryRequirementVersion ∧
  set (mr_Trust r) + set (mr_Verification r) + set (mr_RevocationStatus r) + set (mr_Compatibility r) + set (mr_Coverage r) +
   set (mr_Completeness r) + set (mr_Adequacy r) + set (mr_Certification r) = 1.
Proof. unfold validShape. by rewrite andb_true_iff, bool_decide_eq_true, Nat.eqb_eq. Qed.

(** Only they are valid. *)
Lemma valid_member r : MandatoryRequirement_Valid r = Ok true → ∃ m, r = of_member m.
Proof.
  unfold MandatoryRequirement_Valid. destruct (validShape r) eqn:Es; [|done]. cbn [negb].
  apply validShape_pointers in Es as [Ev Es]. destruct r as [family version t v rs c o l a e]. cbn in Ev, Es |- *. subst version.
  repeat case_bool_decide; try subst family; [..|done].
  1: destruct t as [q|]; [|done]; the_pointer Es; by exists (TrustMember q).
  1: destruct v as [q|]; [|done]; the_pointer Es; by exists (VerificationMember q).
  1: destruct rs as [q|]; [|done]; the_pointer Es; by exists (RevocationMember q).
  1: destruct c as [q|]; [|done]; the_pointer Es; by exists (CompatibilityMember q).
  1: destruct o as [q|]; [|done]; the_pointer Es; by exists (CoverageMember q).
  1: destruct l as [q|]; [|done]; the_pointer Es; by exists (CompletenessMember q).
  1: destruct a as [q|]; [|done]; the_pointer Es; by exists (AdequacyMember q).
  destruct e as [q|]; [|done]; the_pointer Es; by exists (CertificationMember q).
Qed.

(** The object a member is identified by. *)
Definition member_literal (m : member) : list string * list json :=
  match m with
  | TrustMember q => (["subject"; "policyRef"; "rootRef"; "scope"; "context"],
      [JStr (qt_Subject q); JStr (qt_PolicyRef q); JStr (qt_RootRef q); mandatoryScopeIdentity (qt_Scope q); contextIdentity (qt_Context q)])
  | VerificationMember q => (["subject"; "verifier"; "property"; "scope"; "context"],
      [JStr (qv_Subject q); JStr (qv_Verifier q); JStr (qv_Property q); mandatoryScopeIdentity (qv_Scope q); contextIdentity (qv_Context q)])
  | RevocationMember q => (["subject"; "sourceRef"], [JStr (qr_Subject q); JStr (qr_SourceRef q)])
  | CompatibilityMember q =>
      (["schema"; "predicate"; "field"; "candidate"; "baseline"; "requirementRef"; "backend"; "subject"; "scope"; "context"],
       [JStr (qc_Schema q); JStr (qc_Predicate q); JStr (qc_Field q); JStr (qc_Candidate q); JStr (qc_Baseline q);
        JStr (qc_RequirementRef q); JStr (qc_Backend q); JStr (qc_Subject q); mandatoryScopeIdentity (qc_Scope q); contextIdentity (qc_Context q)])
  | CoverageMember q => (["subject"; "backend"; "sourceRef"; "scope"; "context"],
      [JStr (qo_Subject q); JStr (qo_Backend q); JStr (qo_SourceRef q); mandatoryScopeIdentity (qo_Scope q); contextIdentity (qo_Context q)])
  | CompletenessMember q => (["subject"; "requiredClass"; "scope"],
      [JStr (ql_Subject q); number (ord (ql_RequiredClass q)); mandatoryScopeIdentity (ql_Scope q)])
  | AdequacyMember q => (["subject"; "requiredClass"; "scope"; "context"; "verifier"],
      [JStr (qa_Subject q); number (ord (qa_RequiredClass q)); mandatoryScopeIdentity (qa_Scope q); contextIdentity (qa_Context q);
       verifierIdentity (qa_Verifier q)])
  | CertificationMember q => (["subject"; "certificateRef"; "property"; "scope"; "context"; "verifier"],
      [JStr (qe_Subject q); JStr (qe_CertificateRef q); number (ord (qe_Property q)); mandatoryScopeIdentity (qe_Scope q);
       contextIdentity (qe_Context q); verifierIdentity (qe_Verifier q)])
  end.
Definition member_keys (m : member) : list string := "family" :: "schemaVersion" :: (member_literal m).1.
Definition member_values (m : member) : list json :=
  JStr (mr_Family (of_member m)) :: JStr mandatoryRequirementVersion :: (member_literal m).2.
Lemma identity_of_member m : identityObject (of_member m) = Ok (obj_of (zip (member_keys m) (member_values m))).
Proof. by destruct m. Qed.
Lemma member_keys_ok m : bool_decide (NoDup (member_keys m)) = true ∧ length (member_values m) = length (member_keys m).
Proof. by destruct m. Qed.
Ltac shape :=
  match goal with
  | |- shaped (mandatoryScopeIdentity _) = true => apply mandatoryScopeIdentity_shaped
  | |- shaped (contextIdentity _) = true => apply contextIdentity_shaped
  | |- shaped (verifierIdentity _) = true => apply verifierIdentity_shaped
  | |- shaped (number _) = true => apply number_small
  | |- shaped (JStr _) = true => exact eq_refl
  end.
Lemma member_values_shaped m : Forall (fun v => shaped v = true) (member_values m).
Proof.
  destruct m; unfold member_values; cbn [member_literal snd]; repeat (apply Forall_cons; split; [shape|]); constructor.
Qed.
Lemma identityObject_shaped r v : MandatoryRequirement_Valid r = Ok true → identityObject r = Ok v → shaped v = true.
Proof.
  intros (m & ->)%valid_member. rewrite identity_of_member. intros <-%Ok_inj. destruct (member_keys_ok m).
  apply shaped_literal; [done..|apply member_values_shaped].
Qed.

Lemma obj_of_inj' ks ks' vs vs' : ks = ks' → bool_decide (NoDup ks) = true → length vs = length ks → length vs' = length ks' →
  obj_of (zip ks vs) = obj_of (zip ks' vs') → vs = vs'.
Proof. intros <-. apply obj_of_inj. Qed.

Ltac same_values E :=
  split_list E;
  repeat match goal with
  | H : JStr _ = JStr _ |- _ => apply JStr_inj in H
  | H : number _ = number _ |- _ => apply number_inj in H
  | H : mandatoryScopeIdentity _ = _ |- _ => apply mandatoryScopeIdentity_inj in H
  | H : contextIdentity _ = _ |- _ => apply contextIdentity_inj in H
  | H : verifierIdentity _ = _ |- _ => apply verifierIdentity_inj in H
  end; cbn in *; by subst.
(** Members with the same object are the same. *)
Lemma member_object_inj m m' : obj_of (zip (member_keys m) (member_values m)) = obj_of (zip (member_keys m') (member_values m')) → m = m'.
Proof.
  intros E. assert (mr_Family (of_member m) = mr_Family (of_member m')) as Ef.
  { destruct (member_keys_ok m) as [Hn%bool_decide_eq_true_1 Hl], (member_keys_ok m') as [Hn'%bool_decide_eq_true_1 Hl'].
    pose proof (obj_of_lookup (zip (member_keys m) (member_values m)) (zip (member_keys m') (member_values m'))) as L.
    rewrite !fst_zip in L by lia. specialize (L Hn Hn' E "family"). apply JStr_inj, (inj Some). exact L. }
  assert (member_keys m = member_keys m') as Ek by (destruct m, m'; first [reflexivity|discriminate Ef]).
  apply (obj_of_inj' _ _ _ _ Ek) in E; [|apply member_keys_ok..].
  destruct m as [q|q|q|q|q|q|q|q], m' as [q'|q'|q'|q'|q'|q'|q'|q']; try discriminate Ef; clear Ef Ek;
    destruct q, q'; unfold member_values in E; cbn [member_literal snd] in E; same_values E.
Qed.

Lemma identityObject_inj r r' v : MandatoryRequirement_Valid r = Ok true → MandatoryRequirement_Valid r' = Ok true →
  identityObject r = Ok v → identityObject r' = Ok v → r = r'.
Proof.
  intros (m & ->)%valid_member (m' & ->)%valid_member. rewrite !identity_of_member. intros <-%Ok_inj E%Ok_inj.
  by apply member_object_inj in E as ->.
Qed.
Lemma MemberIdentity_Ok r b : MemberIdentity r = Ok b ↔
  MandatoryRequirement_Valid r = Ok true ∧ ∃ v, identityObject r = Ok v ∧ canonical_bytes v = Ok b.
Proof.
  unfold MemberIdentity. split.
  - intros (ok & Hok & [->%negb_false_iff (v & Hv & Hb)%result_bind_Ok]%result_guard_Ok)%result_bind_Ok. split; [done|by exists v].
  - intros [Hok (v & Hv & Hb)]. rewrite Hok. cbn. by rewrite Hv.
Qed.

(** The identity of a member is a faithful name. *)
Lemma member_identity_inj r r' b : MemberIdentity r = Ok b → MemberIdentity r' = Ok b → r = r'.
Proof.
  rewrite !MemberIdentity_Ok. intros (Hr & v & Hv & Hb) (Hr' & v' & Hv' & Hb').
  assert (v = v') as <- by (eapply canonical_bytes_inj; [exact (identityObject_shaped r v Hr Hv)|exact (identityObject_shaped r' v' Hr' Hv')|exact Hb|exact Hb']).
  by eapply identityObject_inj.
Qed.

(** ** The set is one of members, whatever the order and the repetitions *)
Definition named (r : MandatoryRequirement) : Prop := MemberIdentity r = Ok (identity_or_nil r).
Lemma named_Ok r b : MemberIdentity r = Ok b → named r ∧ identity_or_nil r = b.
Proof. unfold named, identity_or_nil. by intros ->. Qed.
Lemma named_inj r r' : named r → named r' → identity_or_nil r = identity_or_nil r' → r = r'.
Proof. unfold named. intros Hr Hr' E. rewrite E in Hr. by eapply member_identity_inj. Qed.

Lemma distinct_members_spec rs : ∀ seen ds, distinct_members seen rs = Ok ds →
  Forall named rs ∧ Forall named ds ∧ NoDup ds ∧ (∀ d, d ∈ ds ↔ d ∈ rs ∧ identity_or_nil d ∉ seen).
Proof.
  induction rs as [|r rs IH]; intros seen ds; cbn [distinct_members].
  { intros <-%Ok_inj. split_and!; try constructor; [intros ?%elem_of_nil; done|intros [?%elem_of_nil _]; done]. }
  intros (k & [Hn <-]%named_Ok & H)%result_bind_Ok. case_bool_decide as Hk.
  - destruct (IH _ _ H) as (Hrs & Hds & Hnd & Hin). split_and!; [by constructor|done|done|].
    intros d. rewrite Hin, elem_of_cons. split; [tauto|]. intros [[->|?] ?]; [done|tauto].
  - apply result_bind_Ok in H as (ds' & H & <-%Ok_inj). destruct (IH _ _ H) as (Hrs & Hds & Hnd & Hin).
    split_and!; [by constructor|by constructor| |].
    + constructor; [|done]. rewrite Hin. intros [_ Hx]. apply Hx. left.
    + intros d. rewrite !elem_of_cons, Hin, not_elem_of_cons. split; [naive_solver|].
      intros [[->|Hd] Hs]; [by left|]. destruct (decide (identity_or_nil d = identity_or_nil r)) as [E|E]; [left|right; tauto].
      rewrite Forall_forall in Hrs. by apply named_inj; [apply Hrs| |].
Qed.

Lemma distinct_members_total rs : Forall named rs → ∀ seen, ∃ ds, distinct_members seen rs = Ok ds.
Proof.
  induction 1 as [|r rs Hr _ IH]; intros seen; cbn [distinct_members]; [by eexists|]. rewrite Hr. cbn.
  case_bool_decide; [apply IH|]. destruct (IH (identity_or_nil r :: seen)) as [ds ->]. by eexists.
Qed.

(** The prefix is kept in descending order of identity. *)
Definition descending (r r' : MandatoryRequirement) : Prop := not_above string_ltb (identity_or_nil r') (identity_or_nil r).
Lemma move_down_perm r prefix : move_down r prefix ≡ₚ r :: prefix.
Proof. induction prefix as [|p prefix IH]; cbn; [done|]. destruct (negb _); [done|]. rewrite IH. apply Permutation_swap. Qed.
Lemma move_down_sorted r prefix : StronglySorted descending prefix → StronglySorted descending (move_down r prefix).
Proof.
  induction 1 as [|p prefix Hs IH Hall]; cbn; [repeat constructor|]. destruct (string_ltb (identity_or_nil r) (identity_or_nil p)) eqn:E; cbn.
  - constructor; [done|]. rewrite move_down_perm. constructor; [|done]. unfold descending, not_above. by apply less_asym.
  - constructor; [by constructor|]. constructor; [done|]. eapply Forall_impl; [exact Hall|]. intros q Hq.
    unfold descending, not_above in *. by apply (less_negtrans _ (identity_or_nil p)).
Qed.
Lemma insertion_sort_go rs : ∀ prefix, StronglySorted descending prefix →
  StronglySorted descending (foldl (fun prefix r => move_down r prefix) prefix rs) ∧
  foldl (fun prefix r => move_down r prefix) prefix rs ≡ₚ rs ++ prefix.
Proof.
  induction rs as [|r rs IH]; intros prefix Hs; cbn [foldl app]; [done|].
  destruct (IH (move_down r prefix)) as [Hs' Hp]; [by apply move_down_sorted|]. split; [done|].
  rewrite Hp, move_down_perm. by rewrite <-Permutation_middle.
Qed.
Lemma insertion_sort_perm rs : insertion_sort rs ≡ₚ rs.
Proof. unfold insertion_sort. rewrite <-Permutation_rev. rewrite (proj2 (insertion_sort_go rs [] ltac:(constructor))). by rewrite app_nil_r. Qed.

(** Sorting by distinct identities forgets the order it started from. *)
Lemma insertion_sort_unique ds ds' : Forall named ds → ds ≡ₚ ds' → insertion_sort ds = insertion_sort ds'.
Proof.
  intros Hn Hp. unfold insertion_sort. f_equal.
  destruct (insertion_sort_go ds [] ltac:(constructor)) as [Hs Hq], (insertion_sort_go ds' [] ltac:(constructor)) as [Hs' Hq'].
  rewrite app_nil_r in Hq, Hq'. apply (StronglySorted_unique_strong descending); [|done|done|by rewrite Hq, Hq'].
  intros x y Hx Hy Hxy Hyx. rewrite Hq in Hx. rewrite Hq', <-Hp in Hy. rewrite Forall_forall in Hn.
  apply named_inj; [by apply Hn|by apply Hn|]. by apply less_total.
Qed.

Lemma NewSet_Ok rule attempt rs s : NewResolvedMandatoryRequirementSet rule attempt rs = Ok s ↔
  (TypedResolvedAuthorityRule_Valid rule = true ∧ Attempt_Valid attempt = true ∧ 0 < length rs) ∧
  ∃ ds payload raw, distinct_members [] rs = Ok ds ∧ set_value "1" (ty_reference rule) attempt (insertion_sort ds) = Ok payload ∧
    canonical_bytes payload = Ok raw ∧
    s = mkRequirementSet "1" (hashDomain set_domain raw) rule (ty_reference rule) attempt (insertion_sort ds).
Proof.
  unfold NewResolvedMandatoryRequirementSet. rewrite result_guard_Ok, !orb_false_iff, !negb_false_iff, Nat.eqb_neq. split.
  - intros [[[Hr Ha] Hn] (ds & Hd & (payload & Hp & (raw & Hraw & <-%Ok_inj)%result_bind_Ok)%result_bind_Ok)%result_bind_Ok].
    split; [split_and!; [done|done|lia]|]. by exists ds, payload, raw.
  - intros [(Hr & Ha & Hn) (ds & payload & raw & Hd & Hp & Hraw & ->)]. split; [split_and!; [done|done|lia]|].
    rewrite Hd. cbn. rewrite Hp. cbn. by rewrite Hraw.
Qed.

Lemma all_valid_spec rs : Forall (λ r, MandatoryRequirement_Valid r = Ok true) rs → all_valid rs = Ok true.
Proof. induction 1 as [|r rs Hr _ IH]; cbn; [done|]. by rewrite Hr. Qed.
Lemma named_valid r : named r → MandatoryRequirement_Valid r = Ok true.
Proof. by intros [? _]%MemberIdentity_Ok. Qed.

Lemma digest_nonempty domain p : nonempty (hashDomain domain p) = true.
Proof.
  unfold nonempty. apply negb_true_iff, bool_decide_eq_false_2. intros E. pose proof (hashDomain_Digest domain p) as Hx.
  by rewrite E in Hx.
Qed.

(** A set that was constructed is well formed and has the identity the
    evaluator recomputes. *)
Lemma NewSet_valid rule attempt rs s : NewResolvedMandatoryRequirementSet rule attempt rs = Ok s →
  ResolvedMandatoryRequirementSet_Valid s = Ok true ∧
  (∃ b, ResolvedMandatoryRequirementSet_CanonicalBytes s = Ok b ∧ rq_id s = hashDomain set_domain b) ∧
  rq_rule s = rule ∧ rq_attempt s = attempt ∧ NoDup (rq_requirements s) ∧ ∀ r, r ∈ rq_requirements s ↔ r ∈ rs.
Proof.
  intros [(Hr & Ha & Hn) (ds & payload & raw & Hd & Hp & Hraw & ->)]%NewSet_Ok.
  apply distinct_members_spec in Hd as (Hrs & Hds & Hnd & Hin).
  assert (Forall named (insertion_sort ds)) as Hsorted by (by rewrite insertion_sort_perm).
  assert (∀ r, r ∈ insertion_sort ds ↔ r ∈ rs) as Hmem.
  { intros r. rewrite insertion_sort_perm, Hin. split; [by intros [? _]|]. intros ?. split; [done|by intros ?%elem_of_nil]. }
  pose proof Hr as (Hv & Hk & _)%TypedResolvedAuthorityRule_spec.
  assert (0 < length (insertion_sort ds)) as Hlen.
  { destruct rs as [|r rs]; [cbn in Hn; lia|]. destruct (insertion_sort ds); [|cbn; lia].
    pose proof (proj2 (Hmem r) (list_elem_of_here _ _)) as Hx. by apply elem_of_nil in Hx. }
  set (s := mkRequirementSet _ _ _ _ _ _).
  assert (ResolvedMandatoryRequirementSet_Valid s = Ok true) as Hvalid.
  { unfold ResolvedMandatoryRequirementSet_Valid. cbn [s rq_schemaVersion rq_id rq_rule rq_ruleRef rq_attempt rq_requirements].
    rewrite Hr, Hv, Ha, !bool_decide_eq_true_2 by done. rewrite (proj2 (Nat.ltb_lt _ _) Hlen).
    rewrite digest_nonempty.
    apply all_valid_spec. eapply Forall_impl; [exact Hsorted|apply named_valid]. }
  split; [done|]. split; [|split_and!; [done|done|by cbn; rewrite insertion_sort_perm|done]].
  exists raw. split; [|done]. unfold ResolvedMandatoryRequirementSet_CanonicalBytes. rewrite Hvalid. cbn [s mbind result_bind negb rq_schemaVersion rq_ruleRef rq_attempt rq_requirements].
  by rewrite Hp.
Qed.

Lemma NewSet_extensional rule attempt rs rs' s : (∀ r, r ∈ rs ↔ r ∈ rs') →
  NewResolvedMandatoryRequirementSet rule attempt rs = Ok s → NewResolvedMandatoryRequirementSet rule attempt rs' = Ok s.
Proof.
  intros Hsame H. apply NewSet_Ok in H as [(Hr & Ha & Hn) (ds & payload & raw & Hd & Hp & Hraw & ->)]. apply NewSet_Ok.
  split; [split_and!; [done|done|]|].
  { destruct rs as [|r rs]; [cbn in Hn; lia|]. destruct rs' as [|r' rs']; [|cbn; lia].
    pose proof (proj1 (Hsame r) (list_elem_of_here _ _)) as Hx. by apply elem_of_nil in Hx. }
  pose proof (distinct_members_spec _ _ _ Hd) as (Hrs & Hds & Hdnd & Hdin).
  assert (∃ ds', distinct_members [] rs' = Ok ds') as [ds' Hd'].
  { apply distinct_members_total. rewrite Forall_forall in Hrs |- *. intros r Hr'. by apply Hrs, Hsame. }
  pose proof (distinct_members_spec _ _ _ Hd') as (_ & _ & Hdnd' & Hdin').
  assert (insertion_sort ds = insertion_sort ds') as Esort.
  { apply insertion_sort_unique; [done|]. apply NoDup_Permutation; [done..|]. intros d. rewrite Hdin, Hdin', Hsame. done. }
  exists ds', payload, raw. by rewrite <-Esort.
Qed.

(** C25: the constructor of a set looks only at which requirements it is given:
    neither their order nor their repetition changes the set or its identity;
    the set is well formed, its members are the given requirements once each,
    and its identity is the one the evaluator recomputes. *)
Theorem NewResolvedMandatoryRequirementSet_extensional rule attempt rs rs' s : (∀ r, r ∈ rs ↔ r ∈ rs') →
  NewResolvedMandatoryRequirementSet rule attempt rs = Ok s →
  NewResolvedMandatoryRequirementSet rule attempt rs' = Ok s ∧ ResolvedMandatoryRequirementSet_Valid s = Ok true ∧
  NoDup (rq_requirements s) ∧ (∀ r, r ∈ rq_requirements s ↔ r ∈ rs) ∧
  ∃ b, ResolvedMandatoryRequirementSet_CanonicalBytes s = Ok b ∧ rq_id s = hashDomain set_domain b.
Proof.
  intros Hsame H. pose proof (NewSet_valid _ _ _ _ H) as (Hv & Hid & _ & _ & Hnd & Hmem). split; [|done].
  by apply (NewSet_extensional _ _ _ _ _ Hsame).
Qed.

(** *** What supports a requirement

    Operand by operand: a fact of the snapshot for the attempt of the set that
    has the subject, the scope, the context and every other operand of the
    requirement itself, is in force at the time, is not revoked and is
    positive. *)
Definition compatibility_about (s : ResolvedMandatoryRequirementSet) (q : MandatoryCompatibilityRequirement)
  (f : CompatibilityFact) : Prop :=
  canonical_bytes (referenceJSON (rq_ruleRef s)) = Ok (cf_authority f) ∧
  canonical_bytes (contextIdentity (qc_Context q)) = Ok (cf_context f) ∧
  cf_requirement f = qc_RequirementRef q ∧ cf_subject f = qc_Subject q ∧ cf_schema f = qc_Schema q ∧
  cf_predicate f = qc_Predicate q ∧ cf_field f = qc_Field q ∧ cf_candidate f = qc_Candidate q ∧
  cf_baseline f = qc_Baseline q ∧ cf_backend f = qc_Backend q ∧ cf_scope f = qc_Scope q.

Inductive supported (s : ResolvedMandatoryRequirementSet) (snap : EvaluationFactSnapshot) (at_ : time)
  (r : MandatoryRequirement) : Prop :=
| supported_trust q f : mr_Family r = "trust" → mr_Trust r = Some q → f ∈ sn_trusts snap →
    tf_attempt f = rq_attempt s → tf_subject f = qt_Subject q → tf_policy f = qt_PolicyRef q →
    tf_root f = qt_RootRef q → tf_scope f = qt_Scope q → tf_context f = qt_Context q →
    in_force (tf_validity f) at_ → rv_state (tf_revocation f) = RevocationNotRevoked → tf_state f = Trusted →
    supported s snap at_ r
| supported_verification q f : mr_Family r = "verification" → mr_Verification r = Some q → f ∈ sn_verifications snap →
    vr_attempt f = rq_attempt s → vr_subject f = qv_Subject q → vr_verifier f = qv_Verifier q →
    vr_property f = qv_Property q → vr_scope f = qv_Scope q → vr_context f = qv_Context q →
    in_force (vr_validity f) at_ → rv_state (vr_revocation f) = RevocationNotRevoked →
    vr_state f = VerificationFactVerified → supported s snap at_ r
| supported_revocation q f : mr_Family r = "revocation" → mr_RevocationStatus r = Some q → f ∈ sn_revocations snap →
    rv_attempt f = rq_attempt s → rv_subject f = qr_Subject q → rv_source f = qr_SourceRef q →
    in_force (rv_validUntil f) at_ → rv_state f = RevocationNotRevoked → supported s snap at_ r
| supported_compatibility q f : mr_Family r = "compatibility" → mr_Compatibility r = Some q → f ∈ sn_compatibilities snap →
    compatibility_about s q f → (∀ g, g ∈ sn_compatibilities snap → cf_attempt g = rq_attempt s) →
    (∀ g, g ∈ sn_compatibilities snap → compatibility_about s q g →
       in_force (cf_validity g) at_ ∧ rv_state (cf_revocation g) = RevocationNotRevoked ∧
       cf_state g = CompatibilityCompatible) → supported s snap at_ r
| supported_coverage q f : mr_Family r = "coverage" → mr_Coverage r = Some q → f ∈ sn_coverages snap →
    cv_attempt f = rq_attempt s → cv_subject f = qo_Subject q → cv_backend f = qo_Backend q →
    cv_source f = qo_SourceRef q → cv_scope f = qo_Scope q → cv_context f = qo_Context q →
    in_force (cv_validity f) at_ → rv_state (cv_revocation f) = RevocationNotRevoked → cv_state f = ScopeCovers →
    supported s snap at_ r
| supported_completeness q f : mr_Family r = "completeness" → mr_Completeness r = Some q → f ∈ sn_completeness snap →
    cl_attempt f = rq_attempt s → cl_subject f = ql_Subject q → cl_class f = ql_RequiredClass q →
    cl_scope f = ql_Scope q → cl_class f ≠ CompletenessInvalid →
    in_force (cl_validity f) at_ → rv_state (cl_revocation f) = RevocationNotRevoked → supported s snap at_ r
| supported_adequacy q f : mr_Family r = "adequacy" → mr_Adequacy r = Some q → f ∈ sn_adequacies snap →
    ad_attempt f = rq_attempt s → ad_subject f = qa_Subject q → ad_class f = qa_RequiredClass q →
    ad_scope f = qa_Scope q → ad_context f = qa_Context q → ad_verifier f = qa_Verifier q → ad_class f ≠ AdequacyInvalid →
    in_force (ad_validity f) at_ → rv_state (ad_revocation f) = RevocationNotRevoked → supported s snap at_ r
| supported_certification q f : mr_Family r = "certification" → mr_Certification r = Some q → f ∈ sn_certifications snap →
    ct_attempt f = rq_attempt s → ct_subject f = qe_Subject q → ct_identity f = qe_CertificateRef q →
    ct_property f = itoa (ord (qe_Property q)) → ct_scope f = qe_Scope q → ct_context f = qe_Context q →
    ct_verifier f = qe_Verifier q → in_force (ct_validity f) at_ → rv_state (ct_revocation f) = RevocationNotRevoked →
    supported s snap at_ r.

Lemma MatchRequestOf_Ok s r at_ q : MatchRequestOf s r at_ = Ok q → MandatoryRequirement_Valid r = Ok true ∧
  ∃ memberID authorityID, canonical_bytes (referenceJSON (rq_ruleRef s)) = Ok authorityID ∧
    family_request s at_ authorityID memberID r = Ok q.
Proof.
  unfold MatchRequestOf. intros (set_ok & _ & (req_ok & Hreq & [Hg H]%result_guard_Ok)%result_bind_Ok)%result_bind_Ok.
  apply orb_false_iff in Hg as [Hg _]. apply orb_false_iff in Hg as [Hs Hr]. apply negb_false_iff in Hs as ->, Hr as ->.
  split; [done|]. apply result_bind_Ok in H as (memberID & _ & [_ H]%result_guard_Ok).
  apply result_bind_Ok in H as (authorityID & Ha & H). by exists memberID, authorityID.
Qed.

Lemma deref_Ok {A} (p : option A) a : deref p = Ok a → p = Some a.
Proof. by destruct p; intros [= <-]. Qed.

Ltac operands :=
  bool_simpl; repeat match goal with H : _ && _ = true |- _ => apply andb_prop in H as [? ?] end; bool_simpl.
Lemma nonempty_true t : nonempty t = true → t ≠ "".
Proof. by intros H ->. Qed.

Lemma grounded_supported s r at_ q snap : MatchRequestOf s r at_ = Ok q → grounded q snap → supported s snap at_ r.
Proof.
  intros (Hv & memberID & authorityID & Ha & H)%MatchRequestOf_Ok Hg. unfold family_request in H.
  unfold MandatoryRequirement_Valid in Hv. destruct (negb (validShape r)); [done|].
  repeat case_bool_decide; try discriminate H; try contradiction;
    try (exfalso; match goal with H : mr_Family r = _, H' : mr_Family r = _ |- _ => rewrite H in H'; discriminate H' end);
    apply result_bind_Ok in H as (o & Ho%deref_Ok & H); rewrite Ho in Hv; cbn [mbind result_bind deref] in Hv;
    try (apply result_bind_Ok in H as (c & Hc & H)); apply Ok_inj in H as <-; apply Ok_inj in Hv;
    destruct Hg as [f Hf Hin Hm|f Hf Hin Hm|f Hf Hin Hm|f Hf Hin Hm Hat Hg|f Hf Hin Hm|f Hf Hin Hm|f Hf Hin Hm|f Hf Hin Hm];
    try discriminate Hf.
  - unfold trust_matches in Hm. operands. by eapply supported_trust.
  - unfold verification_matches in Hm. operands. by eapply supported_verification.
  - unfold revocation_matches in Hm. operands. by eapply supported_revocation.
  - assert (∀ g, compatibility_about s o g ↔ compatibility_matches (request s at_ authorityID memberID
      (mkOperands FamilyCompatibility (qc_Subject o) (qc_Scope o) c (qc_Context o)) (qc_Backend o) "" "" "" "" "" (qc_Candidate o)
      (qc_Baseline o) (qc_Schema o) (qc_Predicate o) (qc_Field o) CompletenessInvalid AdequacyInvalid (qc_RequirementRef o) zero_verifier) g = true)
      as Habout.
    { intros g. unfold compatibility_about, compatibility_matches, requirement_ref.
      operands. unfold typed_context, canonicalIdentityString in Hc. rewrite Ha, Hc. cbn.
      match goal with H : nonempty (qc_RequirementRef o) = true |- _ => rewrite H end.
      rewrite !andb_true_iff, !bool_decide_eq_true. naive_solver. }
    eapply supported_compatibility; [done|done|done|by apply Habout|exact Hat|]. intros g Hing Hgm. apply Hg; [done|by apply Habout].
  - unfold coverage_matches in Hm. cbn in Hm. operands.
    repeat match goal with H : nonempty ?t = true, H' : negb (nonempty ?t) || _ = true |- _ => rewrite H in H'; cbn [negb orb] in H' end.
    operands. by eapply supported_coverage.
  - unfold certification_matches in Hm. operands. by eapply supported_certification.
  - unfold completeness_matches in Hm. operands. eapply supported_completeness; try done. by intros E; rewrite E in *.
  - unfold adequacy_matches in Hm. operands. eapply supported_adequacy; try done. by intros E; rewrite E in *.
Qed.

(** C23: eligibility is earned: a decision that says ELIGIBLE is made under a valid
    rule, for the requirement set of that rule and the snapshot of the same
    resolution attempt, and every requirement of the set is supported: a fact of
    its family in the snapshot, for that attempt, has the operands the
    requirement names (subject, policy, root, verifier, property, source,
    class, backend, schema, predicate, field, candidate, baseline, scope and
    context), is in force at the time of the evaluation, is not revoked and is
    positive; for compatibility, every fact about the requirement is. *)
Theorem EvaluateEligibility_grounded in_ d : EvaluateEligibility in_ = Ok d → ed_result d = EligibilityEligible →
  TypedResolvedAuthorityRule_Valid (ee_Rule in_) = true ∧ rq_ruleRef (ee_Requirements in_) = ty_reference (ee_Rule in_) ∧
  rq_attempt (ee_Requirements in_) = sn_attempt (ee_Snapshot in_) ∧ rq_requirements (ee_Requirements in_) ≠ [] ∧
  ∀ r, r ∈ rq_requirements (ee_Requirements in_) →
    supported (ee_Requirements in_) (ee_Snapshot in_) (ee_EvaluationAt in_) r.
Proof.
  intros ((Ht & _) & (Hr & Ha) & _ & Hn & os & Hos & -> & _)%EvaluateEligibility_Ok He. split_and!; [done..| |].
  { intros E. rewrite E in Hn. cbn in Hn. lia. }
  apply conjunction_eligible in He; [|by eapply outcomes_proper].
  intros r Hin. apply list_elem_of_lookup_1 in Hin as [i Hi]. destruct (Forall2_lookup_l _ _ _ _ _ Hos Hi) as (o & Ho & [Hout _]).
  rewrite Forall_lookup in He. rewrite <-(He i o Ho) in Hout. unfold outcome_of in Hout.
  apply result_bind_Ok in Hout as (q & Hq & (m & Hm & E%Ok_inj)%result_bind_Ok). eapply grounded_supported; [done|by eapply match_grounded].
Qed.

Lemma decision_is_valid in_ d : EvaluateEligibility in_ = Ok d →
  EligibilityDecision_Valid d = true ∧ ed_ruleRef d = ty_reference (ee_Rule in_) ∧ ed_evaluationAt d = ee_EvaluationAt in_.
Proof.
  intros (_ & _ & _ & _ & os & _ & Hres & Hid & Hr & Hs & Hat & Ht)%EvaluateEligibility_Ok. split; [|done].
  apply decision_identity_valid. by rewrite Hres, Hr, Hs, Hat, Ht.
Qed.

(** The decision is the three-valued conjunction of the outcomes of the
    requirements: ineligible when one is refuted, whatever the others are; else
    unknown when one has no decisive fact; eligible when all are satisfied. It is
    a valid decision, bound to the rule, the set, the attempt and the time it
    was made for. *)
Theorem EvaluateEligibility_conjunction in_ d : EvaluateEligibility in_ = Ok d →
  (∃ os, Forall2 (has_outcome (ee_Requirements in_) (ee_Snapshot in_) (ee_EvaluationAt in_)) (rq_requirements (ee_Requirements in_)) os ∧
    (ed_result d = EligibilityIneligible ↔ MatchRefuted ∈ os) ∧
    (ed_result d = EligibilityEligible ↔ Forall (eq MatchSatisfied) os) ∧
    (ed_result d = EligibilityUnknown ↔ MatchRefuted ∉ os ∧ ¬ Forall (eq MatchSatisfied) os)) ∧
  EligibilityDecision_Valid d = true ∧ ed_ruleRef d = ty_reference (ee_Rule in_) ∧
  ed_requirementSetID d = rq_id (ee_Requirements in_) ∧ ed_attempt d = sn_attempt (ee_Snapshot in_) ∧
  ed_evaluationAt d = ee_EvaluationAt in_.
Proof.
  intros (_ & (_ & Ha) & _ & _ & os & Hos & Hres & Hid & Hr & Hs & Hat & Ht)%EvaluateEligibility_Ok. split.
  - exists os. split; [done|]. rewrite Hres.
    pose proof (outcomes_proper _ _ _ _ _ Hos) as Hproper.
    split; [apply conjunction_ineligible|]. split; [by apply conjunction_eligible|].
    rewrite <-conjunction_ineligible, <-(conjunction_eligible os Hproper). unfold conjunction.
    destruct (existsb refutes os), (existsb leaves_open os); naive_solver.
  - split; [|by rewrite Hat, <-Ha]. apply decision_identity_valid. by rewrite Hres, Hr, Hs, Hat, Ht.
Qed.

Definition decision_value (outcome : EligibilityResult) (r : SemanticReference) (setID : string) (attempt : ResolutionAttemptIdentity)
  (at_ : time) : json :=
  obj_of (zip decision_names [number (ord outcome); referenceJSON r; JStr setID; JStr attempt; JStr (format_rfc3339nano at_)]).
Lemma decision_value_shaped outcome r setID attempt at_ : shaped (decision_value outcome r setID attempt at_) = true.
Proof.
  apply shaped_literal; [done|done|].
  constructor; [apply number_small|]. constructor; [apply referenceJSON_shaped|]. repeat constructor.
Qed.
Lemma decision_Valid_Ok d : EligibilityDecision_Valid d = true →
  ∃ b, canonical_bytes (decision_value (ed_result d) (ed_ruleRef d) (ed_requirementSetID d) (ed_attempt d) (ed_evaluationAt d)) = Ok b ∧
    ed_id d = hashDomain decision_domain b.
Proof.
  unfold EligibilityDecision_Valid. destruct (eligibilityDecisionIdentity _ _ _ _ _) as [i|] eqn:Ei; [|done].
  intros <-%bool_decide_eq_true. apply result_guard_Ok in Ei as [_ (b & Hb & <-%Ok_inj)%result_bind_Ok]. by exists b.
Qed.

(** The ranges of the Go types: versions of [uint32], times of the years 1 to
    9999. *)
Definition decision_ranges (d : EligibilityDecision) : Prop :=
  reference_ok (ed_ruleRef d) ∧ (0 <= ed_evaluationAt d < instant_end)%Z.

(** The identity of a decision binds everything it says: two valid decisions
    with one identity are the same decision, or exhibit a collision of SHA-256. *)
Theorem EligibilityDecision_binds d d' : EligibilityDecision_Valid d = true → EligibilityDecision_Valid d' = true →
  decision_ranges d → decision_ranges d' → ed_id d = ed_id d' →
  d = d' ∨ ∃ b b', collision (hashed decision_domain b) (hashed decision_domain b').
Proof.
  intros (b & Hb & Hi)%decision_Valid_Ok (b' & Hb' & Hi')%decision_Valid_Ok [Hr Ht] [Hr' Ht'] E.
  pose proof E as Eh. rewrite Hi, Hi' in Eh. apply hashDomain_inj in Eh as [<-|?]; [left|right; by exists b, b'].
  eapply canonical_bytes_inj in Hb'; [|apply decision_value_shaped..|exact Hb].
  apply obj_of_inj in Hb'; [|done..]. split_list Hb'.
  apply number_inj in Heq. apply referenceJSON_inj in Heq0; [|done..]. apply JStr_inj in Heq1, Heq2, Heq3.
  apply format_rfc3339_inj in Heq3; [|done..].
  clear -E Heq Heq0 Heq1 Heq2 Heq3. destruct d, d'. cbn in *. by subst.
Qed.

(** ** The identity of a set binds its requirements *)
Lemma set_value_Ok v r attempt rs payload : set_value v r attempt rs = Ok payload ↔
  ∃ reqs, Forall2 (fun q x => identityObject q = Ok x) rs reqs ∧
    payload = obj_of (zip set_names [JStr v; referenceJSON r; JStr attempt; JArr reqs]).
Proof.
  unfold set_value. rewrite result_bind_Ok. setoid_rewrite result_mapM_Ok. split.
  - intros (reqs & Hq & <-%Ok_inj). by exists reqs.
  - intros (reqs & Hq & ->). by exists reqs.
Qed.
Lemma identities_shaped rs reqs : Forall named rs → Forall2 (fun q x => identityObject q = Ok x) rs reqs →
  Forall (fun v => shaped v = true) reqs.
Proof.
  intros Hn. induction 1 as [|q x rs reqs Hq _ IH]; [constructor|]. inversion Hn as [|?? Hnq Hnrs]; subst.
  constructor; [eapply identityObject_shaped; [by apply named_valid|done]|by apply IH].
Qed.
Lemma identities_inj rs rs' reqs : Forall named rs → Forall named rs' →
  Forall2 (fun q x => identityObject q = Ok x) rs reqs → Forall2 (fun q x => identityObject q = Ok x) rs' reqs → rs = rs'.
Proof.
  intros Hn Hn' H. revert rs' Hn'. induction H as [|q x rs reqs Hq _ IH]; intros rs' Hn' H'; inversion H' as [|q' ? rs'' ? Hq']; subst; [done|].
  inversion Hn as [|?? Hnq Hnrs]; inversion Hn' as [|?? Hnq' Hnrs']; subst. f_equal; [|by apply IH].
  by eapply identityObject_inj; [apply named_valid|apply named_valid|..].
Qed.

(** Sets with one identity are of the same rule reference, the same attempt and
    the same requirements, or exhibit a collision of SHA-256. *)
Theorem ResolvedMandatoryRequirementSet_binds rule rule' attempt attempt' rs rs' s s' :
  NewResolvedMandatoryRequirementSet rule attempt rs = Ok s → NewResolvedMandatoryRequirementSet rule' attempt' rs' = Ok s' →
  reference_ok (ty_reference rule) → reference_ok (ty_reference rule') → rq_id s = rq_id s' →
  (ty_reference rule = ty_reference rule' ∧ attempt = attempt' ∧ ∀ r, r ∈ rs ↔ r ∈ rs') ∨
  ∃ b b', collision (hashed set_domain b) (hashed set_domain b').
Proof.
  intros [_ (ds & payload & raw & Hd & Hp & Hraw & ->)]%NewSet_Ok [_ (ds' & payload' & raw' & Hd' & Hp' & Hraw' & ->)]%NewSet_Ok Hr Hr' E.
  cbn [rq_id] in E. apply hashDomain_inj in E as [<-|?]; [left|right; by exists raw, raw'].
  apply set_value_Ok in Hp as (reqs & Hq & ->), Hp' as (reqs' & Hq' & ->).
  apply distinct_members_spec in Hd as (_ & Hn & _ & Hin), Hd' as (_ & Hn' & _ & Hin').
  rewrite <-(insertion_sort_perm ds) in Hn. rewrite <-(insertion_sort_perm ds') in Hn'.
  assert (∀ ref a l, Forall (fun v => shaped v = true) l →
    shaped (obj_of (zip set_names [JStr "1"; referenceJSON ref; JStr a; JArr l])) = true) as Hsh.
  { intros ref a l Hl. apply shaped_literal; [done|done|]. constructor; [done|]. constructor; [apply referenceJSON_shaped|].
    repeat constructor. cbn [shaped]. apply forallb_forall. intros x Hx%list_elem_of_In. rewrite Forall_forall in Hl. by apply Hl. }
  pose proof (canonical_bytes_inj _ _ _ (Hsh _ _ _ (identities_shaped _ _ Hn Hq)) (Hsh _ _ _ (identities_shaped _ _ Hn' Hq')) Hraw Hraw') as Ev.
  apply obj_of_inj in Ev; [|done..]. split_list Ev. apply referenceJSON_inj in Heq0; [|done..].
  apply JStr_inj in Heq1. apply JArr_inj in Heq2. subst reqs'.
  pose proof (identities_inj _ _ _ Hn Hn' Hq Hq') as Es. split_and!; [done..|].
  intros r. pose proof (Hin r) as H1. pose proof (Hin' r) as H2. rewrite <-insertion_sort_perm in H1, H2. rewrite Es in H1.
  assert (identity_or_nil r ∉ []) as Hnil by (by intros ?%elem_of_nil). tauto.
Qed.

(** ** Which sets and decisions exist *)
Lemma canonical_bytes_total v : shaped v = true → clean v = true → canonical_bytes v = Ok (marshal_of false v).
Proof. intros Hs Hc. by apply writeCanonical_spec. Qed.
Lemma hashDomain_text domain p : text_ok (hashDomain domain p) = true.
Proof.
  destruct (slice7_valid false (hashDomain domain p) (hashDomain_Digest domain p)) as (h & Hh & E).
  destruct (hashDomain_digest domain p) as (_ & h' & Hh' & Ht). rewrite Hh in Hh'. apply Ok_inj in Hh' as <-. by rewrite E.
Qed.
Lemma identities_total rs : Forall named rs →
  ∃ reqs, Forall2 (fun q x => identityObject q = Ok x) rs reqs ∧ Forall (fun v => shaped v = true ∧ clean v = true) reqs.
Proof.
  induction 1 as [|r rs Hr _ (reqs & Hq & Hc)]; [by exists []|].
  apply MemberIdentity_Ok in Hr as (Hv & v & Hid & Hb). exists (v :: reqs). split; [by constructor|].
  pose proof (identityObject_shaped r v Hv Hid) as Hs. constructor; [|done]. split; [done|].
  by apply (writeCanonical_spec v Hs) in Hb as [Hb _].
Qed.
(** Every non-empty list of members has a set under a valid rule. *)
Lemma NewSet_total rule attempt rs : TypedResolvedAuthorityRule_Valid rule = true → Attempt_Valid attempt = true →
  text_ok attempt = true → clean (referenceJSON (ty_reference rule)) = true → 0 < length rs → Forall named rs →
  ∃ s, NewResolvedMandatoryRequirementSet rule attempt rs = Ok s.
Proof.
  intros Hr Ha Hta Hcr Hn Hrs. destruct (distinct_members_total rs Hrs []) as [ds Hd].
  pose proof (distinct_members_spec _ _ _ Hd) as (_ & Hds & _).
  destruct (identities_total (insertion_sort ds)) as (reqs & Hq & Hc); [by rewrite insertion_sort_perm|].
  eexists. apply NewSet_Ok. split; [done|]. exists ds. eexists. eexists. split; [done|].
  split; [by apply set_value_Ok; exists reqs|]. split; [|done]. apply canonical_bytes_total.
  - apply shaped_literal; [done|done|]. constructor; [done|]. constructor; [apply referenceJSON_shaped|]. repeat constructor.
    cbn [shaped]. apply forallb_forall. intros x Hx%list_elem_of_In. rewrite Forall_forall in Hc. by apply Hc.
  - apply clean_literal; [done|]. constructor; [done|]. constructor; [done|]. repeat constructor; [done|].
    cbn [clean]. apply forallb_forall. intros x Hx%list_elem_of_In. rewrite Forall_forall in Hc. by apply Hc.
Qed.
Lemma decision_identity_total outcome r setID attempt at_ : EligibilityResult_Valid outcome = true → SemanticReference_Valid r = true →
  nonempty setID = true → Attempt_Valid attempt = true → time_is_zero at_ = false → clean (referenceJSON r) = true →
  text_ok setID = true → text_ok attempt = true → text_ok (format_rfc3339nano at_) = true →
  ∃ id, eligibilityDecisionIdentity outcome r setID attempt at_ = Ok id.
Proof.
  intros Ho Hr Hs Ha Ht Hcr Hts Hta Htt. unfold eligibilityDecisionIdentity. rewrite Ho, Hr, Hs, Ha, Ht. cbn [negb orb].
  fold (decision_value outcome r setID attempt at_). rewrite canonical_bytes_total; [by eexists|apply decision_value_shaped|].
  apply clean_literal; [done|]. constructor; [done|]. constructor; [done|]. by repeat constructor.
Qed.

(** ** A concrete evaluation *)
Module Sim.
Definition scope : Scope := AuthorityMatching.Sim.scope.
Definition context : SecurityContextIdentity := AuthorityMatching.Sim.context.
Definition rule : AuthorityRule := AuthoritySemantic.Sim.rule [EvidenceObservation].
Definition required : MandatoryRequirement := NewTrustRequirement "subject" "policy" "root" scope context.
Definition revocation_required : MandatoryRequirement := NewRevocationStatusRequirement "subject" "source".
Definition facts (state : TrustState) : EvaluationFactSnapshot :=
  AuthorityMatching.Sim.snapshot [AuthorityMatching.Sim.trust state RevocationNotRevoked].

Lemma required_named : named required ∧ named revocation_required.
Proof. by vm_compute. Qed.

Lemma typed_clean b : clean (referenceJSON (ty_reference (typed rule b))) = true.
Proof.
  apply clean_literal; [reflexivity|]. repeat (constructor; [reflexivity|]). constructor; [|constructor].
  exact (hashDomain_text _ _).
Qed.
Lemma bytes_of_rule : ∃ b, CanonicalAuthorityRuleBytes rule = Ok b.
Proof. destruct (CanonicalAuthorityRuleBytes rule) as [b|] eqn:E; [by exists b|vm_compute in E; discriminate E]. Qed.
Lemma a_set b rs : CanonicalAuthorityRuleBytes rule = Ok b → 0 < length rs → Forall named rs →
  ∃ s, NewResolvedMandatoryRequirementSet (typed rule b) "attempt" rs = Ok s.
Proof. intros Hb Hn Hrs. apply NewSet_total; [by apply typed_valid|done|done|apply typed_clean|done|done]. Qed.

Lemma ready {b} : CanonicalAuthorityRuleBytes rule = Ok b →
  ∃ s, NewResolvedMandatoryRequirementSet (typed rule b) "attempt" [required] = Ok s ∧ rq_requirements s = [required] ∧
    rq_ruleRef s = ty_reference (typed rule b) ∧ rq_rule s = typed rule b ∧ rq_attempt s = "attempt".
Proof.
  intros Hb. destruct (a_set b [required] Hb) as [s Hs]; [cbn; lia|constructor; [apply required_named|constructor]|].
  exists s. split; [done|]. apply NewSet_Ok in Hs as [_ (ds & payload & raw & Hd & _ & _ & ->)].
  cbn [rq_requirements rq_ruleRef rq_rule rq_attempt]. split; [|exact (conj eq_refl (conj eq_refl eq_refl))].
  assert (distinct_members [] [required] = Ok [required]) as Hd' by (vm_compute; reflexivity).
  rewrite Hd' in Hd. apply Ok_inj in Hd as <-. reflexivity.
Qed.

(** The outcome of the requirement of trust. *)
Lemma outcome_required b s state : NewResolvedMandatoryRequirementSet (typed rule b) "attempt" [required] = Ok s →
  rq_requirements s = [required] → rq_ruleRef s = ty_reference (typed rule b) → rq_attempt s = "attempt" →
  outcome_of s (facts state) 150 required = Ok (trustMatchState (AuthorityMatching.Sim.trust state RevocationNotRevoked) 150).
Proof.
  intros (Hv & _)%NewSet_valid Hq Hr Ha. unfold outcome_of, MatchRequestOf. rewrite Hv. cbn [mbind result_bind].
  assert (MandatoryRequirement_Valid required = Ok true) as -> by (vm_compute; reflexivity). cbn [mbind result_bind negb orb].
  change (time_is_zero 150) with false. cbn [mbind result_bind negb orb].
  rewrite (proj1 required_named). cbn [mbind result_bind]. rewrite Hq. cbn [existsb]. rewrite bool_decide_eq_true_2 by done. cbn [orb negb].
  rewrite Hr. unfold canonicalIdentityString. rewrite (canonical_bytes_total _ (referenceJSON_shaped _) (typed_clean b)).
  cbn [mbind result_bind]. assert (nonempty (marshal_of false (referenceJSON (ty_reference (typed rule b)))) = true) as Hne by reflexivity.
  revert Hne. generalize (marshal_of false (referenceJSON (ty_reference (typed rule b)))). clear -Ha.
  destruct s as [v id ty ref attempt rs]. cbn in Ha. subst attempt. intros [|a text] Hne; [discriminate Hne|].
  destruct state; vm_compute; reflexivity.
Qed.

Lemma rule_reference_ok b : reference_ok (ty_reference (typed rule b)).
Proof. unfold reference_ok, version_ok. repeat constructor; vm_compute; done. Qed.

(** The evaluation of the requirement of trust at an instant. *)
Definition evaluation (b : string) (s : ResolvedMandatoryRequirementSet) (state : TrustState) : EligibilityEvaluation :=
  mkEvaluation (typed rule b) s (facts state) 150.
Definition verdict_of (state : TrustState) : EligibilityResult :=
  conjunction [trustMatchState (AuthorityMatching.Sim.trust state RevocationNotRevoked) 150].
Lemma evaluated b s state : CanonicalAuthorityRuleBytes rule = Ok b →
  NewResolvedMandatoryRequirementSet (typed rule b) "attempt" [required] = Ok s → rq_requirements s = [required] →
  rq_ruleRef s = ty_reference (typed rule b) → rq_attempt s = "attempt" →
  ∃ d, EvaluateEligibility (evaluation b s state) = Ok d ∧ ed_result d = verdict_of state.
Proof.
  intros Hb Hs Hq Hr Ha. pose proof (outcome_required b s state Hs Hq Hr Ha) as Ho.
  pose proof (NewSet_valid _ _ _ _ Hs) as (Hv & (raw & Hraw & Hid) & _).
  pose proof (typed_valid _ _ Hb) as Ht. pose proof Ht as (Hrv & _)%TypedResolvedAuthorityRule_spec.
  destruct (decision_identity_total (verdict_of state) (ty_reference (typed rule b)) (rq_id s) "attempt" 150) as [id Hi].
  - destruct state; reflexivity.
  - exact Hrv.
  - rewrite Hid. apply digest_nonempty.
  - reflexivity.
  - reflexivity.
  - apply typed_clean.
  - rewrite Hid. apply hashDomain_text.
  - reflexivity.
  - vm_compute. reflexivity.
  - exists (mkDecision id (verdict_of state) (ty_reference (typed rule b)) (rq_id s) (rq_attempt s) 150).
    split; [|reflexivity]. apply EvaluateEligibility_Ok. unfold evaluation.
    cbn [ee_Rule ee_Requirements ee_Snapshot ee_EvaluationAt ed_result ed_ruleRef ed_requirementSetID ed_attempt ed_evaluationAt ed_id].
    split; [split; [exact Ht|split; [exact Hv|split; reflexivity]]|].
    split; [split; [exact Hr|exact Ha]|]. split; [exists raw; split; [exact Hraw|exact Hid]|].
    split; [rewrite Hq; cbn; lia|]. exists [trustMatchState (AuthorityMatching.Sim.trust state RevocationNotRevoked) 150].
    rewrite Hq, Ha. split; [|split; [reflexivity|split; [exact Hi|exact (conj eq_refl (conj eq_refl (conj eq_refl eq_refl)))]]].
    constructor; [|constructor]. split; [exact Ho|]. destruct state; vm_compute; discriminate.
Qed.

Lemma EvaluateEligibility_grounded_witness : ∃ in_ d, EvaluateEligibility in_ = Ok d ∧ ed_result d = EligibilityEligible ∧
  ∃ r, r ∈ rq_requirements (ee_Requirements in_) ∧ supported (ee_Requirements in_) (ee_Snapshot in_) (ee_EvaluationAt in_) r.
Proof.
  destruct bytes_of_rule as [b Hb]. destruct (ready Hb) as (s & Hs & Hq & Hr & _ & Ha).
  destruct (evaluated b s Trusted Hb Hs Hq Hr Ha) as (d & Hd & Hres).
  exists (evaluation b s Trusted), d. split; [exact Hd|]. split; [exact Hres|].
  destruct (EvaluateEligibility_grounded _ _ Hd Hres) as (_ & _ & _ & _ & Hall).
  assert (required ∈ rq_requirements (ee_Requirements (evaluation b s Trusted))) as Hin
    by (cbn [evaluation ee_Requirements]; rewrite Hq; left).
  exists required. split; [exact Hin|]. exact (Hall required Hin).
Defined.

Lemma EvaluateEligibility_conjunction_witness : ∃ in_ d, EvaluateEligibility in_ = Ok d ∧ ed_result d = EligibilityIneligible ∧
  EligibilityDecision_Valid d = true ∧
  ∃ os, Forall2 (has_outcome (ee_Requirements in_) (ee_Snapshot in_) (ee_EvaluationAt in_)) (rq_requirements (ee_Requirements in_)) os ∧
    MatchRefuted ∈ os.
Proof.
  destruct bytes_of_rule as [b Hb]. destruct (ready Hb) as (s & Hs & Hq & Hr & _ & Ha).
  destruct (evaluated b s Untrusted Hb Hs Hq Hr Ha) as (d & Hd & Hres).
  exists (evaluation b s Untrusted), d. split; [exact Hd|]. split; [exact Hres|].
  destruct (EvaluateEligibility_conjunction _ _ Hd) as ((os & Hos & Hin & _ & _) & Hv & _). split; [exact Hv|].
  exists os. split; [exact Hos|]. exact (proj1 Hin Hres).
Defined.

Lemma EligibilityDecision_binds_witness : ∃ d, EligibilityDecision_Valid d = true ∧
  (d = d ∨ ∃ b b', collision (hashed decision_domain b) (hashed decision_domain b')).
Proof.
  destruct bytes_of_rule as [b Hb]. destruct (ready Hb) as (s & Hs & Hq & Hr & _ & Ha).
  destruct (evaluated b s Trusted Hb Hs Hq Hr Ha) as (d & Hd & _).
  pose proof (decision_is_valid _ _ Hd) as (Hv & Href & Ht). exists d. split; [exact Hv|].
  assert (decision_ranges d) as Hrange.
  { unfold decision_ranges. rewrite Href, Ht. split; [exact (rule_reference_ok b)|]. split; vm_compute; [discriminate|reflexivity]. }
  apply EligibilityDecision_binds; [exact Hv|exact Hv|exact Hrange|exact Hrange|reflexivity].
Defined.

(** The same two requirements in another order, one of them twice. *)
Lemma NewResolvedMandatoryRequirementSet_extensional_witness : ∃ b s,
  NewResolvedMandatoryRequirementSet (typed rule b) "attempt" [required; revocation_required] = Ok s ∧
  NewResolvedMandatoryRequirementSet (typed rule b) "attempt" [revocation_required; required; revocation_required] = Ok s.
Proof.
  destruct bytes_of_rule as [b Hb]. exists b.
  destruct (a_set b [required; revocation_required] Hb) as [s Hs]; [cbn; lia|repeat constructor; apply required_named|].
  exists s. split; [exact Hs|].
  apply (NewResolvedMandatoryRequirementSet_extensional (typed rule b) "attempt" [required; revocation_required]); [|exact Hs].
  intros r. rewrite !elem_of_cons. tauto.
Defined.

Lemma ResolvedMandatoryRequirementSet_binds_witness : ∃ b s s',
  NewResolvedMandatoryRequirementSet (typed rule b) "attempt" [required; revocation_required] = Ok s ∧
  NewResolvedMandatoryRequirementSet (typed rule b) "attempt" [revocation_required; required] = Ok s' ∧
  ((ty_reference (typed rule b) = ty_reference (typed rule b) ∧ "attempt" = "attempt" ∧
    ∀ r, r ∈ [required; revocation_required] ↔ r ∈ [revocation_required; required]) ∨
   ∃ b b', collision (hashed set_domain b) (hashed set_domain b')).
Proof.
  destruct bytes_of_rule as [b Hb]. exists b.
  destruct (a_set b [required; revocation_required] Hb) as [s Hs]; [cbn; lia|repeat constructor; apply required_named|].
  assert (NewResolvedMandatoryRequirementSet (typed rule b) "attempt" [revocation_required; required] = Ok s) as Hs'.
  { apply (NewSet_extensional (typed rule b) "attempt" [required; revocation_required]); [|exact Hs].
    intros r. rewrite !elem_of_cons. tauto. }
  exists s, s. split; [exact Hs|]. split; [exact Hs'|].
  apply (ResolvedMandatoryRequirementSet_binds _ _ _ _ _ _ s s Hs Hs'); [exact (rule_reference_ok b)|exact (rule_reference_ok b)|reflexivity].
Defined.

(** A family whose pointer is not the one that is set: the shape is accepted and
    [Valid] dereferences nil. *)
Definition mismatched : MandatoryRequirement :=
  mkMandatory RequirementVerification mandatoryRequirementVersion (mr_Trust required) None None None None None None None.
Lemma mismatched_family_panics : validShape mismatched = true ∧ MandatoryRequirement_Valid mismatched = nil_dereference ∧
  distinct_members [] [mismatched] = nil_dereference.
Proof. by vm_compute. Qed.
End Sim.
