(* ===== verification/AuthorityWire.v ===== *)
(** * internal/authority/requirements_wire.go: the requirement set on the wire

    The fixed envelope of RFC-0004: what [EncodeResolvedMandatoryRequirementSet]
    writes and what [DecodeResolvedMandatoryRequirementSet] accepts. A
    [json.RawMessage] is the value it spells; when several parts of a document
    are refused, the error names the first of them in the order of the fields
    here, where the source follows the order of a Go map. *)
From S2P Require Import Prelude GoStd Identity Digest Json Unstructured JsonParse Decimal Timestamp AuthorityDomain AuthorityFacts.
From S2P Require Import AuthorityCanonical AuthoritySemantic AuthorityRequirements.

Definition resolvedRequirementSetSchemaID : string := "landlock-genprof/rfc0004/resolved-mandatory-requirement-set/v1".
Definition resolvedRequirementSetKind : string := "RESOLVED_MANDATORY_REQUIREMENT_SET".

Definition envelope_names : list string :=
  ["schemaId"; "schemaVersion"; "kind"; "id"; "version"; "ruleRef"; "resolutionAttempt"; "requirements"].
Definition envelope_values (s : ResolvedMandatoryRequirementSet) (reqs : list json) : list json :=
  [JStr resolvedRequirementSetSchemaID; JStr "1"; JStr resolvedRequirementSetKind; JStr (rq_id s); JStr "1";
   referenceJSON (rq_ruleRef s); JStr (rq_attempt s); JArr reqs].
Definition EncodeResolvedMandatoryRequirementSet (s : ResolvedMandatoryRequirementSet) : result string :=
  ok ← ResolvedMandatoryRequirementSet_Valid s;
  fail_if negb ok with mkError "" "invalid resolved requirement set";
  reqs ← result_mapM identityObject (rq_requirements s);
  canonical_bytes (obj_of (zip envelope_names (envelope_values s reqs))).

(** ** Decoding the parts *)
Definition exactKeys (m : fields) (keys : list string) : result () :=
  fail_if negb (length m =? length keys) with mkError "" "unexpected object fields";
  fail_if existsb (fun k => negb (bool_decide (is_Some (lookup_field k m)))) keys with mkError "" "missing object field";
  Ok ().
(** [v.(string)], with the zero value when it is not one. *)
Definition text_or_zero (v : option json) : string := match v with Some (JStr s) => s | _ => "" end.
Definition as_text (v : option json) (msg : string) : result string :=
  match v with Some (JStr s) => Ok s | _ => Err (mkError "" msg) end.
Definition as_object (v : option json) (msg : string) : result fields :=
  match v with Some (JObj m) => Ok m | _ => Err (mkError "" msg) end.
Definition as_array (v : option json) (msg : string) : result (list json) :=
  match v with Some (JArr a) => Ok a | _ => Err (mkError "" msg) end.

(** [s[0] == '-'] on a text that is not empty. *)
Definition begins_with_minus (s : string) : bool := match s with String a _ => bool_decide (a = "-"%char) | EmptyString => false end.
Definition exactUnsigned (v : option json) (bits : Z) : result Z :=
  match v with
  | Some (JNum s) =>
      fail_if negb (nonempty s) || begins_with_minus s || leading_zero s with mkError "" "canonical unsigned integer required";
      or_msg (ParseUint bits s) "canonical unsigned integer required"
  | _ => Err (mkError "" "integer required")
  end.

Definition str (m : fields) (k : string) : result string :=
  match lookup_field k m with
  | Some (JStr v) => fail_if negb (nonempty v) with mkError "" ("invalid " +:+ k); Ok v
  | _ => Err (mkError "" ("invalid " +:+ k))
  end.
(** [x, _ := str(m, k)]. *)
Definition str_or_zero (m : fields) (k : string) : string := ok_or "" (str m k).

(** Conversions of a [uint8] to an enumeration; numbers without a name are as
    invalid as zero. *)
Definition ScopeCoverageState_of (n : Z) : ScopeCoverageState :=
  if (n =? 1)%Z then ScopeCovers else if (n =? 2)%Z then ScopeDoesNotCover else if (n =? 3)%Z then ScopeCoverageUnknown
  else ScopeCoverageInvalid.
Definition CompletenessClass_of (n : Z) : CompletenessClass :=
  if (n =? 1)%Z then EmpiricalCompleteness else if (n =? 2)%Z then StructuralCompleteness
  else if (n =? 3)%Z then DeclaredCompleteness else if (n =? 4)%Z then ExternallyCertifiedCompleteness else CompletenessInvalid.
Definition AdequacyClass_of (n : Z) : AdequacyClass :=
  if (n =? 1)%Z then StructuralBaseline else if (n =? 2)%Z then ExternalCertification
  else if (n =? 3)%Z then BackendFormalInvariant else if (n =? 4)%Z then BoundedBehavioral
  else if (n =? 5)%Z then TrustedBaselineObservedDelta else AdequacyInvalid.
Definition CertificationProperty_of (n : Z) : CertificationProperty :=
  if (n =? 1)%Z then CertificationScopeCoverage else if (n =? 2)%Z then CertificationBaselineCompatibility
  else if (n =? 3)%Z then CertificationPolicyAdequacyBounded else if (n =? 4)%Z then CertificationProvenanceValidity
  else CertificationPropertyInvalid.

Definition decodeDimension (x : json) : result ScopeDimensionResult :=
  z ← as_object (Some x) "invalid scope";
  _ ← exactKeys z ["dimension"; "state"];
  d ← as_text (lookup_field "dimension" z) "invalid scope";
  n ← or_msg (exactUnsigned (lookup_field "state" z) 8) "invalid scope";
  Ok (mkDimension d (ScopeCoverageState_of n)).
Definition decodeScope (v : option json) : result Scope :=
  m ← as_object v "invalid scope";
  _ ← exactKeys m ["dimensions"; "target"; "context"];
  t ← as_text (lookup_field "target" m) "invalid scope";
  c ← as_text (lookup_field "context" m) "invalid scope";
  arr ← as_array (lookup_field "dimensions" m) "invalid scope";
  ds ← result_mapM decodeDimension arr;
  NewScope ds t c.
Definition decodeContext (v : option json) : result SecurityContextIdentity :=
  m ← as_object v "invalid context";
  _ ← exactKeys m context_names;
  let get k := text_or_zero (lookup_field k m) in
  NewSecurityContextIdentity (mkContext (get "image") (get "architecture") (get "abi") (get "kernel") (get "libc") (get "privilege")
    (get "namespace") (get "configuration") (get "environment") (get "features") (get "persistent") (get "workload") (get "executable")).
Definition decodeCompletenessClass (v : option json) : result CompletenessClass :=
  n ← or_msg (exactUnsigned v 8) "invalid completeness class";
  fail_if negb (CompletenessClass_Valid (CompletenessClass_of n)) with mkError "" "invalid completeness class";
  Ok (CompletenessClass_of n).
Definition decodeAdequacyClass (v : option json) : result AdequacyClass :=
  n ← or_msg (exactUnsigned v 8) "invalid adequacy class";
  fail_if negb (AdequacyClass_Valid (AdequacyClass_of n)) with mkError "" "invalid adequacy class"; Ok (AdequacyClass_of n).
Definition decodeCertificationProperty (v : option json) : result CertificationProperty :=
  n ← or_msg (exactUnsigned v 8) "invalid certification property";
  fail_if negb (CertificationProperty_Valid (CertificationProperty_of n)) with mkError "" "invalid certification property";
  Ok (CertificationProperty_of n).
Definition decodeVerifier (v : option json) : result VerifierSemanticIdentity :=
  m ← as_object v "invalid verifier";
  _ ← exactKeys m verifier_names;
  let get k := text_or_zero (lookup_field k m) in
  d ← NewDigest (get "digest");
  raw ← as_array (lookup_field "constraints" m) "invalid verifier constraints";
  constraints ← result_mapM (fun x => as_text (Some x) "invalid verifier constraint") raw;
  NewVerifierSemanticIdentity (mkVerifier (get "id") (get "version") d (get "class") (get "inputSchema") (get "outputSchema")
    (get "property") (get "procedure") constraints).

(** ** Decoding a member *)
Definition member_header : list string := ["family"; "schemaVersion"].
Definition decodeMandatoryMember (m : fields) : result MandatoryRequirement :=
  f ← str m "family";
  v ← or_msg (str m "schemaVersion") "unsupported member version";
  fail_if negb (bool_decide (v = "1")) with mkError "" "unsupported member version";
  let get := str_or_zero m in
  let scope := decodeScope (lookup_field "scope" m) in
  let context := decodeContext (lookup_field "context" m) in
  if bool_decide (f = RequirementTrust) then
    _ ← exactKeys m (member_header ++ ["subject"; "policyRef"; "rootRef"; "scope"; "context"]);
    sc ← scope; c ← context; Ok (NewTrustRequirement (get "subject") (get "policyRef") (get "rootRef") sc c)
  else if bool_decide (f = RequirementVerification) then
    _ ← exactKeys m (member_header ++ ["subject"; "verifier"; "property"; "scope"; "context"]);
    sc ← scope; c ← context; Ok (NewVerificationRequirement (get "subject") (get "verifier") (get "property") sc c)
  else if bool_decide (f = RequirementRevocation) then
    _ ← exactKeys m (member_header ++ ["subject"; "sourceRef"]);
    s ← str m "subject"; x ← str m "sourceRef"; Ok (NewRevocationStatusRequirement s x)
  else if bool_decide (f = RequirementCompatibility) then
    _ ← exactKeys m (member_header ++ ["schema"; "predicate"; "field"; "candidate"; "baseline"; "requirementRef"; "backend"; "subject";
                                       "scope"; "context"]);
    sc ← scope; c ← context;
    Ok (NewMandatoryCompatibilityRequirement (get "schema") (get "predicate") (get "field") (get "candidate") (get "baseline")
          (get "requirementRef") (get "backend") (get "subject") sc c)
  else if bool_decide (f = RequirementCoverage) then
    _ ← exactKeys m (member_header ++ ["subject"; "backend"; "sourceRef"; "scope"; "context"]);
    sc ← scope; c ← context; Ok (NewCoverageRequirement (get "subject") (get "backend") (get "sourceRef") sc c)
  else if bool_decide (f = RequirementCompleteness) then
    _ ← exactKeys m (member_header ++ ["subject"; "requiredClass"; "scope"]);
    class ← decodeCompletenessClass (lookup_field "requiredClass" m);
    sc ← scope; Ok (NewCompletenessRequirement (get "subject") class sc)
  else if bool_decide (f = RequirementAdequacy) then
    _ ← exactKeys m (member_header ++ ["subject"; "requiredClass"; "scope"; "context"; "verifier"]);
    class ← decodeAdequacyClass (lookup_field "requiredClass" m);
    sc ← scope; c ← context; v ← decodeVerifier (lookup_field "verifier" m);
    Ok (NewAdequacyRequirement (get "subject") class sc c v)
  else if bool_decide (f = RequirementCertification) then
    _ ← exactKeys m (member_header ++ ["subject"; "certificateRef"; "property"; "scope"; "context"; "verifier"]);
    p ← decodeCertificationProperty (lookup_field "property" m);
    sc ← scope; c ← context; v ← decodeVerifier (lookup_field "verifier" m);
    Ok (NewCertificationRequirement (get "subject") (get "certificateRef") p sc c v)
  else Err (mkError "" "unknown member family").

(** ** Decoding the envelope *)

(** A value decoded into a map: null leaves the map nil. *)
Definition into_map (v : json) (msg : string) : result fields :=
  match v with JObj m => Ok m | JNull => Ok [] | _ => Err (mkError "" msg) end.
Definition into_slice (v : option json) (msg : string) : result (list json) :=
  match v with Some (JArr a) => Ok a | Some JNull => Ok [] | _ => Err (mkError "" msg) end.
Definition envelope_text (raw : fields) (k : string) : result string := or_msg (into_text (lookup_field k raw)) ("invalid " +:+ k).
(** [rr[k] != s] for a value of an interface type. *)
Definition is_text (rr : fields) (k s : string) : bool := bool_decide (lookup_field k rr = Some (JStr s)).

Definition decodeMember (item : json) : result MandatoryRequirement := m ← into_map item "malformed member"; decodeMandatoryMember m.

Definition DecodeResolvedMandatoryRequirementSet (data : string) (authorities : list TypedResolvedAuthorityRule)
  : result ResolvedMandatoryRequirementSet :=
  document ← Unmarshal data;
  raw ← into_map document "cannot unmarshal";
  _ ← only_fields envelope_names raw "unknown envelope field";
  fail_if existsb (fun k => negb (bool_decide (is_Some (lookup_field k raw)))) envelope_names with mkError "" "missing envelope field";
  schema ← envelope_text raw "schemaId"; sv ← envelope_text raw "schemaVersion"; kind ← envelope_text raw "kind";
  id ← envelope_text raw "id"; ver ← envelope_text raw "version"; attempt ← envelope_text raw "resolutionAttempt";
  fail_if negb (bool_decide (schema = resolvedRequirementSetSchemaID)) || negb (bool_decide (sv = "1")) ||
          negb (bool_decide (kind = resolvedRequirementSetKind)) || negb (bool_decide (ver = "1"))
    with mkError "" "unsupported requirement-set envelope";
  fail_if negb (nonempty id) with mkError "" "empty set id";
  members ← into_slice (lookup_field "requirements" raw) "invalid requirements";
  fail_if length members =? 0 with mkError "" "invalid requirements";
  fail_if negb (nonempty attempt) with mkError "" "invalid resolution attempt";
  match authorities with
  | [authority] =>
      fail_if negb (TypedResolvedAuthorityRule_Valid authority) with mkError "" "authoritative rule binding required";
      rr ← or_msg (into_map (default JNull (lookup_field "ruleRef" raw)) "invalid ruleRef") "invalid ruleRef";
      _ ← or_msg (exactKeys rr ["kind"; "id"; "version"; "digest"]) "invalid ruleRef";
      let auth := ty_reference authority in
      fail_if negb (is_text rr "kind" (sr_kind auth)) || negb (is_text rr "id" (sr_id auth)) ||
              negb (is_text rr "version" (SemanticVersion_String (sr_version auth))) || negb (is_text rr "digest" (sr_digest auth))
        with mkError "" "rule reference mismatch";
      decoded ← result_mapM decodeMember members;
      at_ ← NewResolutionAttemptIdentity attempt;
      s ← NewResolvedMandatoryRequirementSet authority at_ decoded;
      fail_if negb (bool_decide (rq_id s = id)) with mkError "" "set identity mismatch";
      Ok s
  | _ => Err (mkError "" "authoritative rule binding required")
  end.

(** ** Reading a literal back *)

(** The fields of a map literal, as they are decoded. *)
Definition literal_fields (ks : list string) (vs : list json) : fields := sort_by (less_on fst string_ltb) (zip ks vs).
Lemma lookup_of_literal ks vs k : bool_decide (NoDup ks) = true → length vs = length ks →
  lookup_field k (literal_fields ks vs) = lookup_field k (zip ks vs).
Proof.
  intros Hnd%bool_decide_eq_true_1 Hl.
  assert (NoDup (zip ks vs).*1) as Hz by (by rewrite fst_zip by lia).
  assert (NoDup (literal_fields ks vs).*1) as Hs by (unfold literal_fields; by rewrite sort_by_perm).
  destruct (lookup_field k (zip ks vs)) as [v|] eqn:E.
  - apply lookup_field_In; [done|]. unfold literal_fields. rewrite elem_of_sort_by. by apply lookup_field_elem.
  - apply lookup_field_None. unfold literal_fields. rewrite sort_by_perm. by apply lookup_field_None.
Qed.
Lemma exactKeys_literal ks vs : bool_decide (NoDup ks) = true → length vs = length ks → exactKeys (literal_fields ks vs) ks = Ok ().
Proof.
  intros Hnd Hl. unfold exactKeys. apply result_guard_Ok. split.
  { unfold literal_fields. rewrite length_sort_by, length_zip_with, Hl, Nat.min_id, Nat.eqb_refl. done. }
  apply result_guard_Ok. split; [|done]. apply not_true_iff_false. intros (k & Hin%list_elem_of_In & Hk)%existsb_exists.
  apply negb_true_iff, bool_decide_eq_false_1 in Hk. apply Hk. rewrite lookup_of_literal by done.
  destruct (lookup_field k (zip ks vs)) eqn:E; [by eexists|]. apply lookup_field_None in E.
  rewrite fst_zip in E by lia. done.
Qed.

Lemma lookup_zip k k' v ks vs :
  lookup_field k (zip (k' :: ks) (v :: vs)) = if String.eqb k k' then Some v else lookup_field k (zip ks vs).
Proof.
  cbn [zip zip_with lookup_field fst snd]. destruct (String.eqb_spec k k') as [->|Hk].
  - by rewrite bool_decide_eq_true_2.
  - by rewrite bool_decide_eq_false_2.
Qed.
(** Reads the fields of a literal. *)
Ltac read_literal := rewrite ?exactKeys_literal by done; rewrite ?lookup_of_literal by done; rewrite ?lookup_zip; cbn [String.eqb Ascii.eqb Bool.eqb].
Ltac open_literal := change (obj_of (zip ?k ?v)) with (JObj (literal_fields k v)); cbn [as_object mbind result_bind].

(** Numbers and enumerations. *)
Lemma exactUnsigned_number n : (0 <= n < 2 ^ 8)%Z → exactUnsigned (Some (number n)) 8 = Ok n.
Proof.
  intros Hn. destruct (itoa_spec n) as (Hne & Hz & Hv); [lia|]. unfold exactUnsigned, number.
  assert (nonempty (itoa n) = true) as Hnon by (unfold nonempty; by rewrite bool_decide_eq_false_2).
  assert (begins_with_minus (itoa n) = false) as Hminus.
  { destruct (itoa n) as [|a s] eqn:E; [done|]. cbn in Hv |- *. apply bool_decide_eq_false_2. intros ->. done. }
  unfold ParseUint. rewrite Hnon, Hminus, Hz, Hv. cbn [negb orb].
  assert ((2 ^ 8 <=? n)%Z = false) as -> by (apply Z.leb_gt; lia). done.
Qed.
Lemma enum_number {A} `{SmallEnum A} (x : A) : exactUnsigned (Some (number (ord x))) 8 = Ok (ord x).
Proof. apply exactUnsigned_number. pose proof (ord_range x). cbn. lia. Qed.

Lemma decodeDimension_literal d : decodeDimension (obj_of (zip ["dimension"; "state"] [JStr (Dimension d); number (ord (State d))])) = Ok d.
Proof. unfold decodeDimension. open_literal. read_literal. cbn [as_text mbind result_bind]. rewrite enum_number. by destruct d as [? []]. Qed.
Lemma mapM_literal {A} (decode : json → result A) (encode : A → json) l : (∀ x, decode (encode x) = Ok x) →
  result_mapM decode (map encode l) = Ok l.
Proof. intros H. apply result_mapM_Ok. induction l; cbn; by constructor. Qed.

(** A scope its constructor accepts: the invariant of the type. *)
Definition scope_constructed (c : Scope) : Prop := NewScope (Dimensions c) (Target c) (Context c) = Ok c.
Lemma decodeScope_literal c : scope_constructed c → decodeScope (Some (mandatoryScopeIdentity c)) = Ok c.
Proof.
  intros Hc. unfold decodeScope, mandatoryScopeIdentity. open_literal. read_literal.
  cbn [as_text as_array mbind result_bind scopeTokensResult]. rewrite mapM_literal by apply decodeDimension_literal. exact Hc.
Qed.
Lemma NewContext_valid c : validContext c = true → NewSecurityContextIdentity c = Ok c.
Proof.
  unfold validContext. destruct (NewSecurityContextIdentity c) as [c'|] eqn:E; [|done]. intros _.
  unfold NewSecurityContextIdentity in E. by apply result_guard_Ok in E as [_ ->].
Qed.
Lemma NewVerifier_valid v : validVerifier v = true → NewVerifierSemanticIdentity v = Ok v ∧ NewDigest (v_digest v) = Ok (v_digest v).
Proof.
  unfold validVerifier. destruct (NewVerifierSemanticIdentity v) as [v'|] eqn:E; [|done]. intros _.
  unfold NewVerifierSemanticIdentity in E. apply result_guard_Ok in E as [Hg E]. split; [by rewrite <-E|].
  rewrite !orb_false_iff in Hg. unfold NewDigest. by destruct Hg as [[[[[[_ ->] _] _] _] _] _].
Qed.
Lemma context_names_ok : bool_decide (NoDup context_names) = true.
Proof. reflexivity. Qed.
Lemma decodeContext_literal c : validContext c = true → decodeContext (Some (contextIdentity c)) = Ok c.
Proof.
  intros Hc%NewContext_valid. unfold decodeContext, contextIdentity. open_literal.
  rewrite exactKeys_literal, !lookup_of_literal by (exact context_names_ok || exact eq_refl).
  rewrite <-Hc. cbn [mbind result_bind]. f_equal. by destruct c.
Qed.
Lemma decodeVerifier_literal v : validVerifier v = true → decodeVerifier (Some (verifierIdentity v)) = Ok v.
Proof.
  intros [Hv Hd]%NewVerifier_valid. unfold decodeVerifier, verifierIdentity, verifier_names. open_literal. read_literal.
  cbn [text_or_zero as_array mbind result_bind]. rewrite Hd. cbn [mbind result_bind]. rewrite mapM_literal by done.
  cbn [mbind result_bind]. by destruct v.
Qed.

(** What a member must satisfy for its identity object to be read back: it is
    valid, and its scope is one the constructor of scopes accepts. *)
Definition member_scope (m : member) : option Scope :=
  match m with
  | TrustMember q => Some (qt_Scope q) | VerificationMember q => Some (qv_Scope q) | RevocationMember _ => None
  | CompatibilityMember q => Some (qc_Scope q) | CoverageMember q => Some (qo_Scope q) | CompletenessMember q => Some (ql_Scope q)
  | AdequacyMember q => Some (qa_Scope q) | CertificationMember q => Some (qe_Scope q)
  end.

Lemma str_nonempty (k v : string) (m : fields) : lookup_field k m = Some (JStr v) → nonempty v = true → str m k = Ok v.
Proof. unfold str. by intros -> ->. Qed.
Lemma str_or_zero_text (k v : string) (m : fields) : lookup_field k m = Some (JStr v) → str_or_zero m k = v.
Proof. unfold str_or_zero, str. intros ->. unfold nonempty. by destruct v. Qed.

Lemma class_literals : (∀ c, CompletenessClass_Valid c = true → decodeCompletenessClass (Some (number (ord c))) = Ok c) ∧
  (∀ a, AdequacyClass_Valid a = true → decodeAdequacyClass (Some (number (ord a))) = Ok a) ∧
  (∀ p, CertificationProperty_Valid p = true → decodeCertificationProperty (Some (number (ord p))) = Ok p).
Proof.
  unfold decodeCompletenessClass, decodeAdequacyClass, decodeCertificationProperty.
  split_and!; intros x; rewrite enum_number; by destruct x.
Qed.

Section read_member.
Variables (m : member).
Let raw : fields := literal_fields (member_keys m) (member_values m).
Lemma member_lookup k : lookup_field k raw = lookup_field k (zip (member_keys m) (member_values m)).
Proof. apply lookup_of_literal; apply member_keys_ok. Qed.
Lemma member_exact : exactKeys raw (member_keys m) = Ok ().
Proof. apply exactKeys_literal; apply member_keys_ok. Qed.
End read_member.


(** The fields of the object of a member. *)
Definition member_raw (m : member) : fields := literal_fields (member_keys m) (member_values m).
Lemma member_field m k v : lookup_field k (zip (member_keys m) (member_values m)) = Some v → lookup_field k (member_raw m) = Some v.
Proof. unfold member_raw. by rewrite member_lookup. Qed.
Lemma member_text m k v : lookup_field k (zip (member_keys m) (member_values m)) = Some (JStr v) → str_or_zero (member_raw m) k = v.
Proof. intros H. by apply str_or_zero_text, member_field. Qed.

(** One field of the member, by computation. *)
Ltac field k := rewrite (member_field _ k _ eq_refl).
Ltac text k := rewrite (member_text _ k _ eq_refl).
Ltac texts := repeat match goal with |- context [str_or_zero (member_raw ?m) ?k] => rewrite (member_text m k _ eq_refl) end.

Ltac dispatch :=
  repeat match goal with
  | |- context [bool_decide (?x = ?y)] => let b := eval vm_compute in (bool_decide (x = y)) in change (bool_decide (x = y)) with b
  end; cbn [negb].

(** The guards of a member of a family. *)
Definition member_ok (m : member) : bool :=
  match m with
  | TrustMember q => nonempty (qt_Subject q) && nonempty (qt_PolicyRef q) && nonempty (qt_RootRef q) && Scope_Valid (qt_Scope q) &&
      validContext (qt_Context q)
  | VerificationMember q => nonempty (qv_Subject q) && nonempty (qv_Verifier q) && nonempty (qv_Property q) && Scope_Valid (qv_Scope q) &&
      validContext (qv_Context q)
  | RevocationMember q => nonempty (qr_Subject q) && nonempty (qr_SourceRef q)
  | CompatibilityMember q => nonempty (qc_Schema q) && nonempty (qc_Predicate q) && nonempty (qc_Field q) && nonempty (qc_Candidate q) &&
      nonempty (qc_Baseline q) && nonempty (qc_RequirementRef q) && nonempty (qc_Backend q) && nonempty (qc_Subject q) &&
      Scope_Valid (qc_Scope q) && validContext (qc_Context q)
  | CoverageMember q => nonempty (qo_Subject q) && nonempty (qo_Backend q) && nonempty (qo_SourceRef q) && Scope_Valid (qo_Scope q) &&
      validContext (qo_Context q)
  | CompletenessMember q => nonempty (ql_Subject q) && CompletenessClass_Valid (ql_RequiredClass q) && Scope_Valid (ql_Scope q)
  | AdequacyMember q => nonempty (qa_Subject q) && AdequacyClass_Valid (qa_RequiredClass q) && Scope_Valid (qa_Scope q) &&
      validContext (qa_Context q) && validVerifier (qa_Verifier q)
  | CertificationMember q => nonempty (qe_Subject q) && nonempty (qe_CertificateRef q) && CertificationProperty_Valid (qe_Property q) &&
      Scope_Valid (qe_Scope q) && validContext (qe_Context q) && validVerifier (qe_Verifier q)
  end.
Lemma member_valid m : MandatoryRequirement_Valid (of_member m) = Ok (member_ok m).
Proof. by destruct m. Qed.

Ltac same_keys Hex :=
  match type of Hex with exactKeys ?r ?mk = _ =>
    match goal with |- context [exactKeys r ?ks] => change (exactKeys r ks) with (exactKeys r mk) end end; rewrite Hex; clear Hex.
Ltac read_fields :=
  repeat match goal with |- context [lookup_field ?k (member_raw ?m)] => rewrite (member_field m k _ eq_refl) end.
Ltac bool_split := repeat match goal with H : _ && _ = true |- _ => apply andb_prop in H as [? ?] end.

Lemma decodeMember_literal m : MandatoryRequirement_Valid (of_member m) = Ok true →
  match member_scope m with Some c => scope_constructed c | None => True end →
  decodeMandatoryMember (member_raw m) = Ok (of_member m).
Proof.
  intros Hv Hc. unfold decodeMandatoryMember. pose proof class_literals as (Hcl & Had & Hpr).
  rewrite (str_nonempty "family" (mr_Family (of_member m))) by (exact (member_field m "family" _ eq_refl) || by destruct m).
  rewrite (str_nonempty "schemaVersion" mandatoryRequirementVersion) by (exact (member_field m "schemaVersion" _ eq_refl) || exact eq_refl).
  cbn [mbind result_bind or_msg]. rewrite bool_decide_eq_true_2 by done. cbn [negb].
  pose proof (member_exact m) as Hex. fold (member_raw m) in Hex.
  rewrite member_valid in Hv. apply Ok_inj in Hv.
  destruct m as [q|q|q|q|q|q|q|q]; cbn [of_member mr_Family member_scope member_ok] in Hc, Hv |- *; dispatch;
    same_keys Hex; bool_split; read_fields; cbn [snd mbind result_bind];
    rewrite ?(decodeScope_literal _ Hc), ?decodeContext_literal, ?decodeVerifier_literal, ?Hcl, ?Had, ?Hpr by done;
    cbn [mbind result_bind].
  3: rewrite (str_nonempty "subject" (qr_Subject q)), (str_nonempty "sourceRef" (qr_SourceRef q)) by (done || exact (member_field (RevocationMember q) _ _ eq_refl)).
  all: texts; cbn [mbind result_bind]; by destruct q.
Qed.

(** ** The envelope *)

(** How deep the documents nest. *)
Lemma depth_literal n ks vs : Forall (fun v => depth v <= n) vs → depth (obj_of (zip ks vs)) <= S n.
Proof.
  intros Hvs. unfold obj_of. cbn [depth]. apply le_n_S, list_max_le, List.Forall_map, Forall_forall. intros [k v] Hin.
  rewrite elem_of_sort_by in Hin. rewrite Forall_forall in Hvs. apply Hvs. by eapply elem_of_zip_r.
Qed.
Lemma depth_array n l : Forall (fun v => depth v <= n) l → depth (JArr l) <= S n.
Proof. intros Hl. cbn [depth]. by apply le_n_S, list_max_le, List.Forall_map. Qed.
Lemma depth_texts l : Forall (fun v => depth v <= 1) (map JStr l).
Proof. apply List.Forall_map, Forall_forall. intros x _. cbn. lia. Qed.
Lemma depth_scope c : depth (mandatoryScopeIdentity c) <= 4.
Proof.
  apply depth_literal. repeat (apply Forall_cons; split); [|cbn; lia..|constructor]. apply depth_array, List.Forall_map, Forall_forall.
  intros d _. apply depth_literal. repeat (apply Forall_cons; split); [cbn; lia..|constructor].
Qed.
Lemma depth_context c : depth (contextIdentity c) <= 4.
Proof. transitivity 2; [|lia]. apply depth_literal, depth_texts. Qed.
Lemma depth_verifier v : depth (verifierIdentity v) <= 4.
Proof.
  transitivity 3; [|lia]. apply depth_literal. repeat (apply Forall_cons; split); [cbn; lia..| |constructor]. apply depth_array, depth_texts.
Qed.
Lemma depth_reference r : depth (referenceJSON r) <= 5.
Proof. transitivity 2; [|lia]. apply depth_literal. repeat (apply Forall_cons; split); [cbn; lia..|constructor]. Qed.
Ltac shallow :=
  match goal with
  | |- depth (mandatoryScopeIdentity _) <= 4 => apply depth_scope
  | |- depth (contextIdentity _) <= 4 => apply depth_context
  | |- depth (verifierIdentity _) <= 4 => apply depth_verifier
  | |- depth (number _) <= _ => unfold number; cbn; lia
  | |- depth (JStr _) <= _ => cbn; lia
  end.
Lemma depth_member m : depth (obj_of (zip (member_keys m) (member_values m))) <= 5.
Proof.
  apply depth_literal. destruct m; unfold member_values; cbn [member_literal snd]; repeat (apply Forall_cons; split; [shallow|]); constructor.
Qed.

Definition first_some {A} (l : list (option A)) : option A := foldr (fun o r => match o with Some _ => o | None => r end) None l.
(** The scopes of a requirement are the ones [NewScope] returns. *)
Definition requirement_scope (r : MandatoryRequirement) : option Scope :=
  first_some [qt_Scope <$> mr_Trust r; qv_Scope <$> mr_Verification r; qc_Scope <$> mr_Compatibility r; qo_Scope <$> mr_Coverage r;
              ql_Scope <$> mr_Completeness r; qa_Scope <$> mr_Adequacy r; qe_Scope <$> mr_Certification r].
Definition scope_ok (r : MandatoryRequirement) : Prop := from_option scope_constructed True (requirement_scope r).
Lemma scope_of_member m : requirement_scope (of_member m) = member_scope m.
Proof. by destruct m. Qed.

Lemma members_read rs reqs : Forall named rs → Forall scope_ok rs → Forall2 (fun r v => identityObject r = Ok v) rs reqs →
  result_mapM decodeMember reqs = Ok rs ∧ Forall (fun v => shaped v = true ∧ depth v <= 5) reqs.
Proof.
  intros Hn Hs H. induction H as [|r v rs reqs Hv _ IH]; [split; [done|constructor]|].
  inversion Hn as [|?? Hr Hn']; inversion Hs as [|?? Hsc Hs']; subst. destruct (IH Hn' Hs') as [Hm Hd].
  apply named_valid in Hr. split.
  - apply result_mapM_Ok. apply result_mapM_Ok in Hm. constructor; [|done].
    destruct (valid_member r Hr) as [m ->]. rewrite identity_of_member in Hv. apply Ok_inj in Hv as <-.
    change (decodeMember _) with (decodeMandatoryMember (member_raw m)). apply decodeMember_literal; [done|].
    unfold scope_ok in Hsc. rewrite scope_of_member in Hsc. by destruct (member_scope m).
  - constructor; [|done]. split; [by eapply identityObject_shaped|].
    destruct (valid_member r Hr) as [m ->]. rewrite identity_of_member in Hv. apply Ok_inj in Hv as <-. apply depth_member.
Qed.

Lemma clean_values ks vs : length vs = length ks → clean (obj_of (zip ks vs)) = true → Forall (fun v => clean v = true) vs.
Proof.
  intros Hl. unfold obj_of. cbn [clean]. rewrite forallb_forall. intros H. apply Forall_forall. intros v [i Hi]%list_elem_of_lookup_1.
  destruct (lookup_lt_is_Some_2 ks i) as [k Hk]; [rewrite <-Hl; by eapply lookup_lt_Some|].
  specialize (H (k, v)). cbn in H. rewrite andb_true_iff in H. apply H, list_elem_of_In. rewrite elem_of_sort_by.
  apply (list_elem_of_lookup_2 _ i). apply lookup_zip_with_Some. by exists k, v.
Qed.
Lemma only_literal allowed ks vs msg : length vs = length ks → Forall (fun k => k ∈ allowed) ks →
  only_fields allowed (literal_fields ks vs) msg = Ok ().
Proof.
  intros Hl Hks. unfold only_fields. apply result_guard_Ok. split; [|done]. apply not_true_iff_false.
  intros ((k & v) & Hin%list_elem_of_In & Hk)%existsb_exists. unfold literal_fields in Hin. rewrite elem_of_sort_by in Hin.
  apply elem_of_zip_l in Hin. rewrite Forall_forall in Hks. cbn in Hk. by rewrite bool_decide_eq_true_2 in Hk by (by apply Hks).
Qed.

(** The document of a set. *)
Definition envelope (s : ResolvedMandatoryRequirementSet) (reqs : list json) : fields := literal_fields envelope_names (envelope_values s reqs).
Lemma envelope_names_ok : bool_decide (NoDup envelope_names) = true.
Proof. reflexivity. Qed.
Lemma envelope_field s reqs k v : lookup_field k (zip envelope_names (envelope_values s reqs)) = Some v →
  lookup_field k (envelope s reqs) = Some v.
Proof. unfold envelope. by rewrite lookup_of_literal by (exact envelope_names_ok || done). Qed.
Lemma envelope_complete s reqs :
  existsb (fun k => negb (bool_decide (is_Some (lookup_field k (envelope s reqs))))) envelope_names = false.
Proof.
  pose proof (exactKeys_literal envelope_names (envelope_values s reqs) envelope_names_ok eq_refl) as H.
  unfold exactKeys in H. by apply result_guard_Ok in H as [_ [? _]%result_guard_Ok].
Qed.
Definition reference_names : list string := ["kind"; "id"; "version"; "digest"].
Definition reference_fields (r : SemanticReference) : fields :=
  literal_fields reference_names [JStr (sr_kind r); JStr (sr_id r); JStr (SemanticVersion_String (sr_version r)); JStr (sr_digest r)].
Lemma reference_text r : exactKeys (reference_fields r) reference_names = Ok () ∧
  is_text (reference_fields r) "kind" (sr_kind r) = true ∧ is_text (reference_fields r) "id" (sr_id r) = true ∧
  is_text (reference_fields r) "version" (SemanticVersion_String (sr_version r)) = true ∧
  is_text (reference_fields r) "digest" (sr_digest r) = true.
Proof.
  split; [by apply exactKeys_literal|]. unfold is_text, reference_fields, reference_names. rewrite !lookup_of_literal by done.
  rewrite !lookup_zip. cbn [String.eqb Ascii.eqb Bool.eqb]. split_and!; by apply bool_decide_eq_true_2.
Qed.

Lemma envelope_decoded s reqs rule : shaped (JObj (envelope s reqs)) = true → clean (JObj (envelope s reqs)) = true →
  depth (JObj (envelope s reqs)) <= 7 → TypedResolvedAuthorityRule_Valid rule = true → rq_ruleRef s = ty_reference rule →
  Attempt_Valid (rq_attempt s) = true → nonempty (rq_id s) = true → 0 < length reqs →
  DecodeResolvedMandatoryRequirementSet (marshal_of false (JObj (envelope s reqs))) [rule] =
  (decoded ← result_mapM decodeMember reqs;
   s' ← NewResolvedMandatoryRequirementSet rule (rq_attempt s) decoded;
   fail_if negb (bool_decide (rq_id s' = rq_id s)) with mkError "" "set identity mismatch"; Ok s').
Proof.
  intros Hs Hc Hd Hr Href Ha Hid Hn. unfold DecodeResolvedMandatoryRequirementSet.
  rewrite Unmarshal_marshal by (by apply clean_canonical || lia). cbn [into_map mbind result_bind].
  assert (only_fields envelope_names (envelope s reqs) "unknown envelope field" = Ok ()) as -> by (by apply only_literal; [|apply Forall_forall]).
  cbn [mbind result_bind].
  rewrite envelope_complete. unfold envelope_text.
  rewrite (envelope_field s reqs "schemaId" _ eq_refl), (envelope_field s reqs "schemaVersion" _ eq_refl),
    (envelope_field s reqs "kind" _ eq_refl), (envelope_field s reqs "id" _ eq_refl), (envelope_field s reqs "version" _ eq_refl),
    (envelope_field s reqs "resolutionAttempt" _ eq_refl), (envelope_field s reqs "requirements" _ eq_refl),
    (envelope_field s reqs "ruleRef" _ eq_refl).
  cbn [snd into_text or_msg into_slice mbind result_bind from_option id]. rewrite !bool_decide_eq_true_2 by done. cbn [negb orb].
  rewrite Hid. rewrite (proj2 (Nat.eqb_neq (length reqs) 0)) by lia. unfold Attempt_Valid in Ha. rewrite Ha, Hr. cbn [negb].
  rewrite Href. change (referenceJSON (ty_reference rule)) with (JObj (reference_fields (ty_reference rule))).
  pose proof (reference_text (ty_reference rule)) as (Hex & H1 & H2 & H3 & H4). unfold reference_names in Hex.
  cbn [into_map or_msg mbind result_bind]. rewrite Hex. cbn [or_msg mbind result_bind]. rewrite H1, H2, H3, H4. cbn [negb orb].
  unfold NewResolutionAttemptIdentity. by rewrite Ha.
Qed.

(** The document of a constructed set is decoded to it. *)
Lemma decodable rule attempt rs s : NewResolvedMandatoryRequirementSet rule attempt rs = Ok s → Forall scope_ok rs →
  ∃ b, EncodeResolvedMandatoryRequirementSet s = Ok b ∧ DecodeResolvedMandatoryRequirementSet b [rule] = Ok s.
Proof.
  intros H Hsc. pose proof (NewSet_valid _ _ _ _ H) as (Hv & (raw' & _ & Hid) & _ & Hatt & Hnd & Hmem).
  pose proof H as [(Hr & Ha & Hn) (ds & payload & raw & Hd & Hp & Hraw & Es)]%NewSet_Ok.
  pose proof (distinct_members_spec _ _ _ Hd) as (Hrs & Hds & _).
  assert (rq_requirements s = insertion_sort ds ∧ rq_ruleRef s = ty_reference rule) as [Ereq Eref] by (by subst s).
  apply set_value_Ok in Hp as (reqs & Hq & ->).
  assert (Forall named (insertion_sort ds)) as Hsorted by (by rewrite insertion_sort_perm).
  assert (Forall scope_ok (rq_requirements s)) as Hsc'.
  { rewrite Forall_forall in Hsc |- *. intros r Hin. by apply Hsc, Hmem. }
  rewrite Ereq in Hsc'. destruct (members_read _ _ Hsorted Hsc' Hq) as [Hm Hreqs].
  assert (Forall (fun v => shaped v = true) reqs) as Hshr by (eapply Forall_impl; [exact Hreqs|by intros ? [? _]]).
  assert (Forall (fun v => depth v <= 5) reqs) as Hdr by (eapply Forall_impl; [exact Hreqs|by intros ? [_ ?]]).
  assert (shaped (JArr reqs) = true) as Hsa.
  { cbn [shaped]. apply forallb_forall. intros v Hin%list_elem_of_In. rewrite Forall_forall in Hshr. by apply Hshr. }
  assert (Forall (fun v => clean v = true) [JStr "1"; referenceJSON (ty_reference rule); JStr attempt; JArr reqs]) as Hclean.
  { apply (clean_values set_names); [done|]. apply writeCanonical_spec in Hraw as [? _]; [done|].
    apply shaped_literal; [done|done|]. repeat (apply Forall_cons; split); [done|apply referenceJSON_shaped|done|exact Hsa|constructor]. }
  rewrite !Forall_cons in Hclean. destruct Hclean as (_ & Hcref & Hcatt & Hcreqs & _).
  assert (shaped (JObj (envelope s reqs)) = true) as Hse.
  { apply shaped_literal; [exact envelope_names_ok|done|]. unfold envelope_values. rewrite Eref.
    repeat (apply Forall_cons; split); [done..|apply referenceJSON_shaped|done|exact Hsa|constructor]. }
  assert (clean (JObj (envelope s reqs)) = true) as Hce.
  { apply clean_literal; [done|]. unfold envelope_values. rewrite Eref, Hatt, Hid.
    repeat (apply Forall_cons; split); [done|done|done|apply hashDomain_text|done|done|done|done|constructor]. }
  assert (depth (JObj (envelope s reqs)) <= 7) as Hde.
  { apply (depth_literal 6). unfold envelope_values.
    repeat (apply Forall_cons; split); [cbn; lia..|transitivity 5; [apply depth_reference|lia]|cbn; lia|by apply depth_array|constructor]. }
  exists (marshal_of false (JObj (envelope s reqs))). split.
  - unfold EncodeResolvedMandatoryRequirementSet. rewrite Hv, Ereq. cbn [mbind result_bind negb].
    rewrite (proj2 (result_mapM_Ok identityObject _ reqs) Hq). cbn [mbind result_bind].
    change (obj_of _) with (JObj (envelope s reqs)). by apply canonical_bytes_total.
  - assert (0 < length reqs) as Hlen.
    { rewrite <-(Forall2_length _ _ _ Hq), <-Ereq. destruct rs as [|r rs]; [cbn in Hn; lia|].
      destruct (rq_requirements s) eqn:E; [|cbn; lia]. pose proof (proj2 (Hmem r) (list_elem_of_here _ _)) as Hx. by apply elem_of_nil in Hx. }
    rewrite envelope_decoded; [|done|done|done|done|done|by rewrite Hatt|by rewrite Hid; apply digest_nonempty|done].
    rewrite Hm, Hatt. cbn [mbind result_bind]. rewrite (NewSet_extensional rule attempt rs _ s); [|by intros r; rewrite <-Hmem, Ereq|done].
    cbn [mbind result_bind]. by rewrite bool_decide_eq_true_2.
Qed.

(** C24: what was encoded is decoded to the same set: the document of a set that was
    constructed under a rule exists, and decoding it against that rule gives the
    set back, its identity recomputed from the decoded members. *)
Theorem wire_round_trip rule attempt rs s : NewResolvedMandatoryRequirementSet rule attempt rs = Ok s → Forall scope_ok rs →
  ∃ b, EncodeResolvedMandatoryRequirementSet s = Ok b ∧ DecodeResolvedMandatoryRequirementSet b [rule] = Ok s.
Proof. apply decodable. Qed.

(** ** What a decoded set is *)
Lemma NewScope_constructed ds t c sc : NewScope ds t c = Ok sc → scope_constructed sc.
Proof.
  unfold NewScope, scope_constructed. intros H. pose proof H as [_ [_ <-%Ok_inj]%result_guard_Ok]%result_guard_Ok. exact H.
Qed.
Lemma decodeScope_constructed v sc : decodeScope v = Ok sc → scope_constructed sc.
Proof.
  unfold decodeScope. intros H. do 6 (apply result_bind_Ok in H as (? & _ & H)). by eapply NewScope_constructed.
Qed.
Lemma decodeMember_scope x r : decodeMember x = Ok r → scope_ok r.
Proof.
  unfold decodeMember, decodeMandatoryMember. intros (m & _ & (f & _ & (v & _ & H)%result_bind_Ok)%result_bind_Ok)%result_bind_Ok.
  apply result_guard_Ok in H as [_ H].
  repeat (case_match; [|]); try done;
    repeat match goal with
    | H : result_bind _ _ _ _ = Ok _ |- _ => apply result_bind_Ok in H as (? & ?Hd & H)
    | H : mbind _ _ = Ok _ |- _ => apply result_bind_Ok in H as (? & ?Hd & H)
    end; apply Ok_inj in H as <-; try exact I;
    match goal with H : decodeScope _ = Ok ?c |- _ => exact (decodeScope_constructed _ _ H) end.
Qed.

(** *** The keys of an accepted document

    An object has exactly the keys [keys], each once. *)
Definition has_keys (m : fields) (keys : list string) : Prop := map fst m ≡ₚ keys.
Definition keyed (keys : list string) (v : option json) : Prop := ∃ m, v = Some (JObj m) ∧ has_keys m keys.

Lemma exactKeys_exact m keys u : bool_decide (NoDup keys) = true → exactKeys m keys = Ok u → has_keys m keys.
Proof.
  intros Hnd%bool_decide_eq_true_1. unfold exactKeys. intros [Hl [Hk _]%result_guard_Ok]%result_guard_Ok.
  unfold has_keys. apply negb_false_iff, Nat.eqb_eq in Hl. symmetry. apply submseteq_length_Permutation; [|by rewrite length_map, Hl].
  apply NoDup_submseteq; [done|]. intros k Hin. pose proof (existsb_false_elem _ _ _ Hk Hin) as Hx. cbn beta in Hx.
  apply negb_false_iff, bool_decide_eq_true_1 in Hx as [v Hv]. apply lookup_field_elem in Hv.
  by apply (list_elem_of_fmap_2 fst) in Hv.
Qed.

(** The keys of a member, by its family. *)
Definition member_keys (family : string) : list string :=
  ["family"; "schemaVersion"] ++
  if bool_decide (family = "trust") then ["subject"; "policyRef"; "rootRef"; "scope"; "context"]
  else if bool_decide (family = "verification") then ["subject"; "verifier"; "property"; "scope"; "context"]
  else if bool_decide (family = "revocation") then ["subject"; "sourceRef"]
  else if bool_decide (family = "compatibility")
  then ["schema"; "predicate"; "field"; "candidate"; "baseline"; "requirementRef"; "backend"; "subject"; "scope"; "context"]
  else if bool_decide (family = "coverage") then ["subject"; "backend"; "sourceRef"; "scope"; "context"]
  else if bool_decide (family = "completeness") then ["subject"; "requiredClass"; "scope"]
  else if bool_decide (family = "adequacy") then ["subject"; "requiredClass"; "scope"; "context"; "verifier"]
  else ["subject"; "certificateRef"; "property"; "scope"; "context"; "verifier"].

Definition scope_keyed (v : option json) : Prop :=
  ∃ m ds, v = Some (JObj m) ∧ has_keys m ["dimensions"; "target"; "context"] ∧ lookup_field "dimensions" m = Some (JArr ds) ∧
    Forall (λ d, keyed ["dimension"; "state"] (Some d)) ds.

(** The member [m] has the keys of the family of [r], and so have the structures
    in it. *)
Definition member_keyed (m : fields) (r : MandatoryRequirement) : Prop :=
  lookup_field "family" m = Some (JStr (mr_Family r)) ∧ lookup_field "schemaVersion" m = Some (JStr "1") ∧
  has_keys m (member_keys (mr_Family r)) ∧
  (mr_Family r ≠ "revocation" → scope_keyed (lookup_field "scope" m)) ∧
  (mr_Family r ≠ "revocation" → mr_Family r ≠ "completeness" → keyed context_names (lookup_field "context" m)) ∧
  (mr_Family r = "adequacy" ∨ mr_Family r = "certification" → keyed verifier_names (lookup_field "verifier" m)).

Lemma as_object_Ok v msg m : as_object v msg = Ok m → v = Some (JObj m).
Proof. unfold as_object. destruct v as [[]|]; congruence. Qed.

Ltac keys := match goal with H : exactKeys _ _ = Ok _ |- has_keys _ _ => eapply exactKeys_exact in H; [exact H|vm_compute; reflexivity] end.
Lemma decodeScope_keyed v sc : decodeScope v = Ok sc → scope_keyed v.
Proof.
  unfold decodeScope. intros (m & ->%as_object_Ok & (? & Hk & (? & _ & (? & _ & (ds & Hds & (? & Hd & _)
    %result_bind_Ok)%result_bind_Ok)%result_bind_Ok)%result_bind_Ok)%result_bind_Ok)%result_bind_Ok.
  exists m, ds. split; [done|]. split; [keys|].
  assert (lookup_field "dimensions" m = Some (JArr ds)) as ->.
  { unfold as_array in Hds. destruct (lookup_field "dimensions" m) as [[]|]; congruence. }
  split; [done|]. apply result_mapM_Ok in Hd. clear -Hd. induction Hd as [|d y ds ys Hd _ IH]; constructor; [|done].
  unfold decodeDimension in Hd. apply result_bind_Ok in Hd as (z & Hz%as_object_Ok & (? & Hk & _)%result_bind_Ok).
  exists z. split; [done|keys].
Qed.
Lemma decodeContext_keyed v c : decodeContext v = Ok c → keyed context_names v.
Proof.
  unfold decodeContext. intros (m & ->%as_object_Ok & (? & Hk & _)%result_bind_Ok)%result_bind_Ok.
  exists m. split; [done|keys].
Qed.
Lemma decodeVerifier_keyed v c : decodeVerifier v = Ok c → keyed verifier_names v.
Proof.
  unfold decodeVerifier. intros (m & ->%as_object_Ok & (? & Hk & _)%result_bind_Ok)%result_bind_Ok.
  exists m. split; [done|keys].
Qed.

Lemma str_Ok m k v : str m k = Ok v → lookup_field k m = Some (JStr v).
Proof.
  unfold str. destruct (lookup_field k m) as [[| | |t| |]|]; try done. intros [_ [= <-]]%result_guard_Ok. done.
Qed.

Lemma decodeMember_keyed m r : decodeMandatoryMember m = Ok r → member_keyed m r.
Proof.
  unfold decodeMandatoryMember. intros (f & Hf%str_Ok & (v & Hv & [Hver H]%result_guard_Ok)%result_bind_Ok)%result_bind_Ok.
  apply negb_false_iff, bool_decide_eq_true_1 in Hver. subst v.
  assert (lookup_field "schemaVersion" m = Some (JStr "1")) as Hver.
  { apply str_Ok. unfold or_msg in Hv. destruct (str m "schemaVersion"); congruence. }
  repeat (case_bool_decide; [|]); try done; subst f;
    repeat match goal with
    | H : result_bind _ _ _ _ = Ok _ |- _ => apply result_bind_Ok in H as (? & ?Hd & H)
    | H : mbind _ _ = Ok _ |- _ => apply result_bind_Ok in H as (? & ?Hd & H)
    end; apply Ok_inj in H as <-; unfold member_keyed; cbn [mr_Family NewTrustRequirement NewVerificationRequirement
      NewRevocationStatusRequirement NewMandatoryCompatibilityRequirement NewCoverageRequirement NewCompletenessRequirement
      NewAdequacyRequirement NewCertificationRequirement];
    (split; [exact Hf|]; split; [exact Hver|]; split; [keys|]; split; [|split]); intros;
    try (exfalso; match goal with H : _ ≠ _ |- _ => apply H; reflexivity end);
    try (exfalso; by match goal with H : _ ∨ _ |- _ => destruct H as [H|H]; discriminate H end);
    first [by eapply decodeScope_keyed|by eapply decodeContext_keyed|by eapply decodeVerifier_keyed|done].
Qed.

Lemma into_map_Ok v msg m : into_map v msg = Ok m → v = JObj m ∨ (v = JNull ∧ m = []).
Proof. destruct v; try done; intros [= <-]; auto. Qed.

(** The envelope [m] of the set [s]: exactly the eight fields, the constants of
    the format, and the identity, the attempt and the rule reference of [s]. *)
Definition envelope_of (m : fields) (s : ResolvedMandatoryRequirementSet) : Prop :=
  (∀ k, k ∈ map fst m ↔ k ∈ envelope_names) ∧
  lookup_field "schemaId" m = Some (JStr "landlock-genprof/rfc0004/resolved-mandatory-requirement-set/v1") ∧
  lookup_field "schemaVersion" m = Some (JStr "1") ∧
  lookup_field "kind" m = Some (JStr "RESOLVED_MANDATORY_REQUIREMENT_SET") ∧ lookup_field "version" m = Some (JStr "1") ∧
  lookup_field "id" m = Some (JStr (rq_id s)) ∧ lookup_field "resolutionAttempt" m = Some (JStr (rq_attempt s)) ∧
  ∃ rr, lookup_field "ruleRef" m = Some (JObj rr) ∧ has_keys rr ["kind"; "id"; "version"; "digest"] ∧
    lookup_field "kind" rr = Some (JStr (sr_kind (rq_ruleRef s))) ∧ lookup_field "id" rr = Some (JStr (sr_id (rq_ruleRef s))) ∧
    lookup_field "version" rr = Some (JStr (SemanticVersion_String (sr_version (rq_ruleRef s)))) ∧
    lookup_field "digest" rr = Some (JStr (sr_digest (rq_ruleRef s))).

Lemma envelope_text_Ok m k t : envelope_text m k = Ok t → nonempty t = true → lookup_field k m = Some (JStr t).
Proof.
  unfold envelope_text, or_msg, into_text. intros H Hn. destruct (lookup_field k m) as [[| | |u| |]|]; try done.
  - injection H as <-. done.
  - by injection H as <-.
Qed.

Lemma envelope_keys m u msg : only_fields envelope_names m msg = Ok u →
  existsb (fun k => negb (bool_decide (is_Some (lookup_field k m)))) envelope_names = false →
  ∀ k, k ∈ map fst m ↔ k ∈ envelope_names.
Proof.
  unfold only_fields. intros [Ho _]%result_guard_Ok Hm k. split.
  - intros (x & -> & Hx)%list_elem_of_fmap. pose proof (existsb_false_elem _ _ _ Ho Hx) as E. cbn beta in E.
    by apply negb_false_iff, bool_decide_eq_true_1 in E.
  - intros Hin. pose proof (existsb_false_elem _ _ _ Hm Hin) as E. cbn beta in E.
    apply negb_false_iff, bool_decide_eq_true_1 in E as [v Hv]. apply lookup_field_elem in Hv.
    by apply (list_elem_of_fmap_2 fst) in Hv.
Qed.

Lemma is_text_Ok rr k t : is_text rr k t = true → lookup_field k rr = Some (JStr t).
Proof. apply bool_decide_eq_true_1. Qed.

Lemma ruleRef_Ok v rr u (r : SemanticReference) :
  or_msg (into_map (default JNull v) "invalid ruleRef") "invalid ruleRef" = Ok rr →
  or_msg (exactKeys rr ["kind"; "id"; "version"; "digest"]) "invalid ruleRef" = Ok u →
  v = Some (JObj rr) ∧ has_keys rr ["kind"; "id"; "version"; "digest"].
Proof.
  unfold or_msg. destruct (into_map _ _) as [rr'|] eqn:E; [|done]. intros [= ->] Hk.
  destruct (exactKeys _ _) as [u'|] eqn:Ek; [|done].
  assert (has_keys rr ["kind"; "id"; "version"; "digest"]) as He by keys.
  split; [|done]. destruct (into_map_Ok _ _ _ E) as [Hv|[_ ->]].
  - destruct v as [v|]; cbn in Hv; [by subst|done].
  - apply Permutation_length in He. discriminate He.
Qed.

Lemma Decode_Ok data authorities s : DecodeResolvedMandatoryRequirementSet data authorities = Ok s →
  ∃ m members rule decoded, Unmarshal data = Ok (JObj m) ∧ authorities = [rule] ∧
    lookup_field "requirements" m = Some (JArr members) ∧ Forall2 (λ x r, decodeMember x = Ok r) members decoded ∧
    NewResolvedMandatoryRequirementSet rule (rq_attempt s) decoded = Ok s ∧ envelope_of m s.
Proof.
  unfold DecodeResolvedMandatoryRequirementSet. intros H.
  apply result_bind_Ok in H as (document & Hd & H). apply result_bind_Ok in H as (m & Hm & H).
  apply result_bind_Ok in H as (? & Ho & H). apply result_guard_Ok in H as [Hk H].
  pose proof (envelope_keys _ _ _ Ho Hk) as Hkeys.
  do 6 (apply result_bind_Ok in H as (? & ?Ht & H)). apply result_guard_Ok in H as [Hc H]. apply result_guard_Ok in H as [Hid H].
  apply result_bind_Ok in H as (members & Hmem & H). apply result_guard_Ok in H as [Hlen H]. apply result_guard_Ok in H as [Hat H].
  destruct authorities as [|rule [|]]; [done| |done]. apply result_guard_Ok in H as [_ H].
  apply result_bind_Ok in H as (rr & Hrr & H). apply result_bind_Ok in H as (? & Hrk & H). apply result_guard_Ok in H as [Hmis H].
  apply result_bind_Ok in H as (decoded & Hdec%result_mapM_Ok & H). apply result_bind_Ok in H as (attempt & Hattempt & H).
  apply result_bind_Ok in H as (s' & Hs & H). apply result_guard_Ok in H as [Hsid <-%Ok_inj].
  bool_simpl. subst.
  assert (document = JObj m) as ->.
  { destruct (into_map_Ok _ _ _ Hm) as [?|[_ ->]]; [done|]. pose proof (proj2 (Hkeys "id")) as Hx. cbn in Hx.
    exfalso. eapply elem_of_nil, Hx. unfold envelope_names. set_solver. }
  destruct (ruleRef_Ok _ _ _ (ty_reference rule) Hrr Hrk) as [Href Hexact].
  pose proof Hs as [_ (ds & payload & raw & _ & _ & _ & Es)]%NewSet_Ok.
  assert (attempt = rq_attempt s' ∧ rq_ruleRef s' = ty_reference rule) as [Eat Eref] by by rewrite Es.
  exists m, members, rule, decoded. split; [done|]. split; [done|]. split.
  { unfold into_slice in Hmem. destruct (lookup_field "requirements" m) as [[]|]; try done; injection Hmem as <-; done. }
  split; [done|]. split; [by rewrite <-Eat|]. unfold envelope_of. rewrite Eref.
  assert (∀ t, NewResolutionAttemptIdentity t = Ok (rq_attempt s') → t = rq_attempt s') as Hnew.
  { intros t [_ [= ->]]%result_guard_Ok. done. }
  rewrite Eat in Hattempt. apply Hnew in Hattempt as ->.
  repeat match goal with H : is_text _ _ _ = true |- _ => apply is_text_Ok in H end.
  split; [done|]. do 6 (split; [by apply envelope_text_Ok|]). by exists rr.
Qed.

(** C27: whatever the document, a set that is decoded is the one the document names, bound to the
    one rule the caller supplied.  The document is one object with exactly the
    eight fields of the envelope, the constants of the format, the identity and
    the attempt of the set and the reference of its rule; its members have
    exactly the keys of their families, and decode to the requirements of the
    set; the rule is valid, the set is well formed, its requirements are
    distinct and have scopes of the type's constructor, and the identity the
    document carries is that of the contents. *)
Theorem Decode_sound data authorities s : DecodeResolvedMandatoryRequirementSet data authorities = Ok s →
  ∃ m members rule, Unmarshal data = Ok (JObj m) ∧ envelope_of m s ∧
    lookup_field "requirements" m = Some (JArr members) ∧ members ≠ [] ∧
    Forall (λ x, ∃ fs r, x = JObj fs ∧ decodeMandatoryMember fs = Ok r ∧ member_keyed fs r ∧ r ∈ rq_requirements s) members ∧
    (∀ r, r ∈ rq_requirements s → ∃ fs, JObj fs ∈ members ∧ decodeMandatoryMember fs = Ok r) ∧
    authorities = [rule] ∧ TypedResolvedAuthorityRule_Valid rule = true ∧ rq_rule s = rule ∧ rq_ruleRef s = ty_reference rule ∧
    ResolvedMandatoryRequirementSet_Valid s = Ok true ∧ NoDup (rq_requirements s) ∧ Forall scope_ok (rq_requirements s) ∧
    ∃ b, ResolvedMandatoryRequirementSet_CanonicalBytes s = Ok b ∧ rq_id s = hashDomain set_domain b.
Proof.
  intros (m & members & rule & decoded & Hd & -> & Hmem & Hdec & Hs & Henv)%Decode_Ok. exists m, members, rule.
  pose proof (NewSet_valid _ _ _ _ Hs) as (Hv & Hid & Hr & _ & Hnd & Hin).
  pose proof Hs as [(Ht & _ & Hlen) (ds & payload & raw & _ & _ & _ & Es)]%NewSet_Ok.
  assert (∀ x r, decodeMember x = Ok r → ∃ fs, x = JObj fs ∧ decodeMandatoryMember fs = Ok r) as Hobj.
  { intros x r (fs & [->|[-> ->]]%into_map_Ok & H)%result_bind_Ok; [by exists fs|]. by vm_compute in H. }
  split_and!; try done.
  - intros ->. inversion Hdec; subst. cbn in Hlen. lia.
  - apply Forall_forall. intros x Hx. apply list_elem_of_lookup_1 in Hx as [i Hi].
    destruct (Forall2_lookup_l _ _ _ _ _ Hdec Hi) as (r & Hr' & Hx). destruct (Hobj x r Hx) as (fs & -> & Hfs).
    exists fs, r. split; [done|]. split; [done|]. split; [by apply decodeMember_keyed|]. apply Hin. by eapply list_elem_of_lookup_2.
  - intros r Hr'%Hin. apply list_elem_of_lookup_1 in Hr' as [i Hi].
    destruct (Forall2_lookup_r _ _ _ _ _ Hdec Hi) as (x & Hx' & Hx). destruct (Hobj x r Hx) as (fs & -> & Hfs).
    exists fs. split; [by eapply list_elem_of_lookup_2|done].
  - by rewrite Es.
  - apply Forall_forall. intros r Hr'%Hin. apply list_elem_of_lookup_1 in Hr' as [i Hi].
    destruct (Forall2_lookup_r _ _ _ _ _ Hdec Hi) as (x & _ & Hx). by eapply decodeMember_scope.
Qed.

Module Sim.
Definition rule : AuthorityRule := AuthorityRequirements.Sim.rule.
Definition members : list MandatoryRequirement := [AuthorityRequirements.Sim.required; AuthorityRequirements.Sim.revocation_required].
Lemma members_scoped : Forall scope_ok members.
Proof. repeat constructor. Qed.

Lemma wire_round_trip_witness : ∃ b s text, NewResolvedMandatoryRequirementSet (typed rule b) "attempt" members = Ok s ∧
  EncodeResolvedMandatoryRequirementSet s = Ok text ∧ DecodeResolvedMandatoryRequirementSet text [typed rule b] = Ok s.
Proof.
  destruct AuthorityRequirements.Sim.bytes_of_rule as [b Hb]. exists b.
  destruct (AuthorityRequirements.Sim.a_set b members Hb) as [s Hs];
    [cbn; lia|repeat constructor; apply AuthorityRequirements.Sim.required_named|].
  destruct (wire_round_trip _ _ _ _ Hs members_scoped) as (text & He & Hd).
  exists s, text. split; [exact Hs|]. split; [exact He|exact Hd].
Defined.

Lemma Decode_sound_witness : ∃ b s text, DecodeResolvedMandatoryRequirementSet text [typed rule b] = Ok s ∧
  rq_rule s = typed rule b ∧ ResolvedMandatoryRequirementSet_Valid s = Ok true ∧ ∃ m, envelope_of m s.
Proof.
  destruct AuthorityRequirements.Sim.bytes_of_rule as [b Hb]. exists b.
  destruct (AuthorityRequirements.Sim.a_set b members Hb) as [s Hs];
    [cbn; lia|repeat constructor; apply AuthorityRequirements.Sim.required_named|].
  destruct (decodable _ _ _ _ Hs members_scoped) as (text & _ & Hd).
  exists s, text. split; [exact Hd|].
  destruct (Decode_sound _ _ _ Hd) as (m & members & r & _ & Henv & _ & _ & _ & _ & Er & _ & Hrule & _ & Hv & _).
  split; [|split; [exact Hv|exists m; exact Henv]]. rewrite Hrule. apply cons_eq in Er as [E _]. symmetry. exact E.
Defined.

(** What the decoder refuses. *)
Definition decodes (members : list json) (extra : fields) : result ResolvedMandatoryRequirementSet :=
  DecodeResolvedMandatoryRequirementSet (marshal_of false (obj_of (zip envelope_names
    [JStr resolvedRequirementSetSchemaID; JStr "1"; JStr resolvedRequirementSetKind; JStr "id"; JStr "1"; JNull; JStr "attempt";
     JArr members] ++ extra))) [].
Example refusals :
  (decodes [JNull] [("note", JStr "x")] = Err (mkError "" "unknown envelope field") ∧
   decodes [] [] = Err (mkError "" "invalid requirements") ∧
   decodes [JNull] [] = Err (mkError "" "authoritative rule binding required")) ∧
  (exactUnsigned (Some (JNum "01")) 8 = Err (mkError "" "canonical unsigned integer required") ∧
   exactUnsigned (Some (JNum "1e2")) 8 = Err (mkError "" "canonical unsigned integer required") ∧
   exactUnsigned (Some (JNum "256")) 8 = Err (mkError "" "canonical unsigned integer required") ∧
   exactUnsigned (Some (JStr "1")) 8 = Err (mkError "" "integer required")).
Proof. vm_compute. done. Qed.
End Sim.
