(* ===== verification/SemanticSnapshot.v ===== *)
(** The value domain of the semantic graph: [src/internal/semantic/snapshot.go]
    and [structuralequal.go].  Snapshot values, their constructors, the deep
    copy, structural equality, and the canonical string the graph indexes by. *)
From S2P Require Import Prelude GoStd JsonParse.

(** An atomic reference to a recorded identity. *)
Record IdentityRef := NewIdentityRef { TypeName : string; Token : string }.

#[global] Instance IdentityRef_eq_dec : EqDecision IdentityRef.
Proof. solve_decision. Defined.

(** [Modality], [Quantification] and [ActKind] are Go integers. *)
Definition Actual : Z := 0.
Definition Dispositional : Z := 1.
Definition Deontic : Z := 2.
Definition QuantThisInstance : Z := 0.
Definition QuantAllInstances : Z := 1.

(** A half-open interval; [None] is an unbounded end. *)
Record ValidTime := NewValidTime { vt_Start : option time; vt_End : option time }.

#[global] Instance ValidTime_eq_dec : EqDecision ValidTime.
Proof. solve_decision. Defined.

(** A structured proposition over values of type [V]. *)
Record PropositionOf (V : Type) := NewProposition {
  phase : IdentityRef;
  modality : Z;
  term : IdentityRef;
  args : list V;
  validTime : ValidTime;
  quantification : Z
}.
Arguments NewProposition {V}.
Arguments phase {V}.
Arguments modality {V}.
Arguments term {V}.
Arguments args {V}.
Arguments validTime {V}.
Arguments quantification {V}.

(** The six implementations of the interface, and the nil interface.  The
    fields of a record are kept in the order of its [keys]. *)
Inductive SnapshotValue :=
| VNil
| VLiteral (kind value : string)
| VRef (r : IdentityRef)
| VTuple (elems : list SnapshotValue)
| VSet (members : list SnapshotValue)
| VRecord (fields : list (string * SnapshotValue))
| VProposition (p : PropositionOf SnapshotValue).

Abbreviation Proposition := (PropositionOf SnapshotValue).

(** ** Structural equality *)
Section comparing.
Context {A : Type} (eq : A → A → bool).

(** The index loop over two slices of one length. *)
Fixpoint pairwise (xs ys : list A) : bool :=
  match xs, ys with
  | x :: xs, y :: ys => eq x y && pairwise xs ys
  | _, _ => true
  end.

Definition same_elems (xs ys : list A) : bool :=
  Nat.eqb (length xs) (length ys) && pairwise xs ys.

(** The fields of two records, key by key. *)
Fixpoint pairwise_fields (xs ys : list (string * A)) : bool :=
  match xs, ys with
  | (k, x) :: xs, (k', y) :: ys => bool_decide (k = k') && eq x y && pairwise_fields xs ys
  | _, _ => true
  end.

(** The first member not yet matched that equals [m] is matched; [free] are
    the members not yet matched, in order. *)
Fixpoint claim (m : A) (free : list A) : option (list A) :=
  match free with
  | [] => None
  | n :: free => if eq m n then Some free else cons n <$> claim m free
  end.

Fixpoint claim_all (ms free : list A) : bool :=
  match ms with
  | [] => true
  | m :: ms => match claim m free with Some free => claim_all ms free | None => false end
  end.
End comparing.

(** Two optional instants: both absent, or both present and equal. *)
Definition same_instant (x y : option time) : bool :=
  match x, y with
  | None, None => true
  | Some s, Some t => (s =? t)%Z
  | _, _ => false
  end.

Definition ref_equal (a b : IdentityRef) : bool :=
  bool_decide (Token a = Token b) && bool_decide (TypeName a = TypeName b).

Fixpoint StructuralEqual (a b : SnapshotValue) {struct a} : bool :=
  match a, b with
  | VNil, VNil => true
  | VLiteral k v, VLiteral k' v' => bool_decide (k = k') && bool_decide (v = v')
  | VRef r, VRef r' => ref_equal r r'
  | VTuple xs, VTuple ys => Nat.eqb (length xs) (length ys) && pairwise StructuralEqual xs ys
  | VSet xs, VSet ys => Nat.eqb (length xs) (length ys) && claim_all StructuralEqual xs ys
  | VRecord xs, VRecord ys => Nat.eqb (length xs) (length ys) && pairwise_fields StructuralEqual xs ys
  | VProposition p, VProposition q =>
      ref_equal (phase p) (phase q) && (modality p =? modality q)%Z
      && ref_equal (term p) (term q) && (quantification p =? quantification q)%Z
      && same_instant (vt_Start (validTime p)) (vt_Start (validTime q))
      && same_instant (vt_End (validTime p)) (vt_End (validTime q))
      && (Nat.eqb (length (args p)) (length (args q)) && pairwise StructuralEqual (args p) (args q))
  | _, _ => false
  end.

(** ** Constructors *)

(** [NewSet]: the first of each class of structurally equal members. *)
Definition set_insert (normalized : list SnapshotValue) (m : SnapshotValue) : list SnapshotValue :=
  if existsb (StructuralEqual m) normalized then normalized else normalized ++ [m].
Definition NewSet (members : list SnapshotValue) : SnapshotValue :=
  VSet (foldl set_insert [] members).

(** One pass of the exchange sort: the running key against each later key. *)
Fixpoint exchange_pass (x : string) (l : list string) : string * list string :=
  match l with
  | [] => (x, [])
  | y :: l =>
      if string_ltb y x
      then let '(m, r) := exchange_pass y l in (m, x :: r)
      else let '(m, r) := exchange_pass x l in (m, y :: r)
  end.
Fixpoint exchange_sort (n : nat) (l : list string) : list string :=
  match n, l with
  | S n, x :: l => let '(m, r) := exchange_pass x l in m :: exchange_sort n r
  | _, _ => l
  end.

(** [NewRecord]: the keys of the map, sorted, and the field of each. *)
Definition NewRecord (m : gmap string SnapshotValue) : SnapshotValue :=
  let keys := (map_to_list m).*1 in
  VRecord (map (fun k => (k, default VNil (m !! k))) (exchange_sort (length keys) keys)).

(** ** The deep copy *)
Fixpoint CloneSnapshot (s : SnapshotValue) : SnapshotValue :=
  match s with
  | VNil => VNil
  | VLiteral k v => VLiteral k v
  | VRef r => VRef (NewIdentityRef (TypeName r) (Token r))
  | VTuple l => VTuple (map CloneSnapshot l)
  | VSet l => NewSet (map CloneSnapshot l)
  | VRecord fs => NewRecord (list_to_map (map (fun kv => (kv.1, CloneSnapshot kv.2)) fs))
  | VProposition p =>
      VProposition (NewProposition (phase p) (modality p) (term p) (map CloneSnapshot (args p))
        (NewValidTime (vt_Start (validTime p)) (vt_End (validTime p))) (quantification p))
  end.

Definition CloneProposition (p : Proposition) : Proposition :=
  NewProposition (phase p) (modality p) (term p) (map CloneSnapshot (args p))
    (NewValidTime (vt_Start (validTime p)) (vt_End (validTime p))) (quantification p).

(** ** The canonical string *)

(** [string(rune(v))] for an integer: a rune outside the scalar values is
    written as the replacement character. *)
Definition int32 (z : Z) : Z := ((z + 2147483648) mod 4294967296 - 2147483648)%Z.
Definition rune_of_int (v : Z) : string :=
  let r := int32 v in
  if ((0 <=? r) && (r <? 1114112) && negb ((55296 <=? r) && (r <? 57344)))%Z
  then rune_string r else replacement.

Definition format_instant (t : option time) : string :=
  match t with Some t => format_rfc3339nano t | None => "" end.

Fixpoint CanonicalString (s : SnapshotValue) : string :=
  match s with
  | VNil => "<nil>"
  | VLiteral k v => "L{" +:+ k +:+ "}" +:+ v
  | VRef r => "I{" +:+ TypeName r +:+ "}" +:+ Token r
  | VTuple l => "T(" +:+ join "," (map CanonicalString l) +:+ ")"
  | VSet l => "S{" +:+ join "," (sort_strings (map CanonicalString l)) +:+ "}"
  | VRecord fs => "R{" +:+ join "," (map (fun kv => kv.1 +:+ ":" +:+ CanonicalString kv.2) fs) +:+ "}"
  | VProposition p =>
      "P{" +:+ ("I{" +:+ TypeName (phase p) +:+ "}" +:+ Token (phase p))
      +:+ ";m=" +:+ rune_of_int (modality p + 48)
      +:+ ";t=" +:+ ("I{" +:+ TypeName (term p) +:+ "}" +:+ Token (term p))
      +:+ ";a=" +:+ join "," (map CanonicalString (args p)) +:+ ";"
      +:+ ("vt[" +:+ format_instant (vt_Start (validTime p)) +:+ ":"
           +:+ format_instant (vt_End (validTime p)) +:+ "]")
      +:+ ";q=" +:+ rune_of_int (quantification p + 48) +:+ "}"
  end.

Example canonical_set : CanonicalString (NewSet [VLiteral "s" "b"; VLiteral "s" "a"; VLiteral "s" "b"]) = "S{L{s}a,L{s}b}".
Proof. reflexivity. Qed.
Example clone_record : CloneSnapshot (VRecord [("a", VNil); ("b", VLiteral "s" "x")]) = VRecord [("a", VNil); ("b", VLiteral "s" "x")].
Proof. reflexivity. Qed.

(** ** Induction over values *)
Definition children (v : SnapshotValue) : list SnapshotValue :=
  match v with
  | VTuple l | VSet l => l
  | VRecord fs => map snd fs
  | VProposition p => args p
  | _ => []
  end.

Fixpoint vsize (v : SnapshotValue) : nat :=
  match v with
  | VTuple l | VSet l => S (list_sum (map vsize l))
  | VRecord fs => S (list_sum (map (fun kv => vsize kv.2) fs))
  | VProposition p => S (list_sum (map vsize (args p)))
  | _ => 1
  end.

Lemma list_sum_bound {A} (f : A → nat) l x : x ∈ l → f x <= list_sum (map f l).
Proof. induction 1 as [|x y l H IH]; cbn; [|fold (list_sum (map f l))]; lia. Qed.

Lemma children_smaller v x : x ∈ children v → vsize x < vsize v.
Proof.
  destruct v as [| | |l|l|fs|p]; cbn [children vsize]; try (by rewrite elem_of_nil); intros Hx.
  - by apply Nat.lt_succ_r, list_sum_bound.
  - by apply Nat.lt_succ_r, list_sum_bound.
  - apply Nat.lt_succ_r. apply (list_sum_bound vsize) in Hx. by rewrite List.map_map in Hx.
  - by apply Nat.lt_succ_r, list_sum_bound.
Qed.

Lemma value_induction (P : SnapshotValue → Prop) :
  (∀ v, (∀ x, x ∈ children v → P x) → P v) → ∀ v, P v.
Proof.
  intros H v. remember (vsize v) as n eqn:E. revert v E.
  induction n as [n IH] using lt_wf_ind. intros v ->. apply H. intros x Hx.
  eapply IH; [by apply children_smaller|done].
Qed.

(** ** Matching up to an equivalence *)
Section matching.
Context {A : Type} (eq : A → A → bool).
Abbreviation E := (fun x y => eq x y = true).

Lemma same_elems_Forall2 xs ys : Nat.eqb (length xs) (length ys) && pairwise eq xs ys = true ↔ Forall2 E xs ys.
Proof.
  revert ys. induction xs as [|x xs IH]; intros [|y ys]; cbn; [split; constructor|split; [done|inversion 1]..|].
  rewrite Forall2_cons, <- IH, !andb_true_iff. tauto.
Qed.

Lemma pairwise_fields_Forall2 xs ys : Nat.eqb (length xs) (length ys) && pairwise_fields eq xs ys = true ↔
  Forall2 (fun x y => x.1 = y.1 ∧ eq x.2 y.2 = true) xs ys.
Proof.
  revert ys. induction xs as [|[k x] xs IH]; intros [|[k' y] ys]; cbn; [split; constructor|split; [done|inversion 1]..|].
  rewrite Forall2_cons, <- IH, !andb_true_iff, bool_decide_eq_true. cbn. tauto.
Qed.

Lemma claim_Some m free r : claim eq m free = Some r → ∃ n, free ≡ₚ n :: r ∧ eq m n = true.
Proof.
  revert r. induction free as [|n free IH]; intros r; cbn; [done|].
  destruct (eq m n) eqn:En; [intros [= <-]; eauto|].
  intros (r' & Hr & ->)%fmap_Some. destruct (IH r' Hr) as (n' & Hp & Hn). exists n'. split; [|done].
  rewrite Hp. apply Permutation_swap.
Qed.

Lemma claim_exists m free n : n ∈ free → eq m n = true → ∃ r, claim eq m free = Some r.
Proof.
  induction 1 as [|n n' free H IH]; intros En; cbn.
  - rewrite En. eauto.
  - destruct (eq m n'); [eauto|]. destruct (IH En) as [r ->]. cbn. eauto.
Qed.

Lemma claim_all_sound ms free : claim_all eq ms free = true → ∃ zs r, free ≡ₚ zs ++ r ∧ Forall2 E ms zs.
Proof.
  revert free. induction ms as [|m ms IH]; intros free; cbn.
  - exists [], free. by split; [|constructor].
  - destruct (claim eq m free) as [r|] eqn:Er; [|done]. intros H.
    apply claim_Some in Er as (n & Hp & Hn). apply IH in H as (zs & r' & Hr & HF).
    exists (n :: zs), r'. split; [by rewrite Hp, Hr|by constructor].
Qed.

Context (D : A → Prop).
Context (Hrefl : ∀ x, D x → eq x x = true).
Context (Hsym : ∀ x y, D x → D y → eq x y = true → eq y x = true).
Context (Htrans : ∀ x y z, D x → D y → D z → eq x y = true → eq y z = true → eq x z = true).

Lemma Forall2_refl_on l : Forall D l → Forall2 E l l.
Proof. induction 1; constructor; eauto. Qed.

Lemma Forall2_sym_on l k : Forall D l → Forall D k → Forall2 E l k → Forall2 E k l.
Proof. intros Hl Hk H. induction H; inversion Hl; inversion Hk; subst; constructor; eauto. Qed.

Lemma Forall2_trans_on l k j : Forall D l → Forall D k → Forall D j →
  Forall2 E l k → Forall2 E k j → Forall2 E l j.
Proof.
  intros Hl Hk Hj H. revert j Hj. induction H as [|x y l k Hxy H IH]; intros j Hj H'; inversion H'; subst; [constructor|].
  inversion Hl; inversion Hk; inversion Hj; subst. constructor; eauto.
Qed.

(** Taking another member of the class of [z] away leaves the same up to [eq]. *)
Lemma exchange n z rest w : D n → D z → Forall D w → eq n z = true →
  n :: rest ≡ₚ z :: w → ∃ w', rest ≡ₚ w' ∧ Forall2 E w w'.
Proof.
  intros Hn Hz Hw Hnz Hp. assert (n ∈ z :: w) as Hin by (rewrite <- Hp; left).
  apply elem_of_cons in Hin as [->|Hin].
  - exists w. split; [by eapply Permutation_cons_inv|by apply Forall2_refl_on].
  - apply list_elem_of_split in Hin as (w1 & w2 & ->).
    exists (w1 ++ z :: w2). apply Forall_app in Hw as [Hw1 Hw2]. inversion Hw2; subst. split.
    + apply (Permutation_cons_inv (a := n)). rewrite Hp, <- !Permutation_middle. apply Permutation_swap.
    + apply Forall2_app; [by apply Forall2_refl_on|]. constructor; [done|by apply Forall2_refl_on].
Qed.

Lemma claim_all_complete ms free zs r : Forall D ms → Forall D free → free ≡ₚ zs ++ r → Forall2 E ms zs →
  claim_all eq ms free = true.
Proof.
  revert free zs r. induction ms as [|m ms IH]; intros free zs r Hms Hfree Hp HF; cbn; [done|].
  inversion HF as [|? z ? zs' Hmz HF']; subst. inversion Hms as [|?? Hm Hms']; subst.
  assert (z ∈ free) as Hz by (rewrite Hp; left).
  destruct (claim_exists m free z Hz Hmz) as [rest Er]. rewrite Er.
  apply claim_Some in Er as (n & Hpn & Hmn).
  assert (D z) as Dz by (eapply Forall_forall in Hfree; eauto).
  rewrite Hpn in Hfree. inversion Hfree as [|?? Dn Dr]; subst.
  assert (Forall D (zs' ++ r)) as Dw.
  { eapply Forall_cons_1 with (x := z). change (Forall D ((z :: zs') ++ r)). rewrite <- Hp, Hpn. by constructor. }
  destruct (exchange n z rest (zs' ++ r)) as (w' & Hw' & HFw); try done.
  { eapply Htrans with m; eauto. }
  { by rewrite <- Hpn, Hp. }
  apply Forall2_app_inv_l in HFw as (zs2 & r2 & H1 & H2 & ->).
  apply (IH rest zs2 r2); try done.
  apply Forall_app in Dw as [Dzs' _]. rewrite Hw' in Dr. apply Forall_app in Dr as [Dzs2 _].
  eapply Forall2_trans_on; eauto.
Qed.

(** Two lists agree as multisets up to [eq]. *)
Definition permuted (xs ys : list A) : Prop := ∃ zs, ys ≡ₚ zs ∧ Forall2 E xs zs.

Lemma claim_all_permuted xs ys : Forall D xs → Forall D ys →
  Nat.eqb (length xs) (length ys) && claim_all eq xs ys = true ↔ permuted xs ys.
Proof.
  intros Hx Hy. rewrite andb_true_iff, Nat.eqb_eq. split.
  - intros [Hl H]. apply claim_all_sound in H as (zs & r & Hp & HF). exists zs. split; [|done].
    assert (r = []) as ->; [|by rewrite app_nil_r in Hp].
    apply Forall2_length in HF. apply Permutation_length in Hp. rewrite length_app in Hp.
    destruct r; [done|]. cbn in Hp. lia.
  - intros (zs & Hp & HF). split.
    + by rewrite (Forall2_length _ _ _ HF), Hp.
    + eapply (claim_all_complete xs ys zs []); eauto. by rewrite app_nil_r.
Qed.

Lemma permuted_sym xs ys : Forall D xs → Forall D ys → permuted xs ys → permuted ys xs.
Proof.
  intros Hx Hy (zs & Hp & HF). rewrite Hp in Hy. apply Forall2_sym_on in HF; try done.
  symmetry in Hp. destruct (Permutation_Forall2 Hp HF) as (ws & Hw & HF'). by exists ws.
Qed.

Lemma permuted_trans xs ys zs : Forall D xs → Forall D ys → Forall D zs →
  permuted xs ys → permuted ys zs → permuted xs zs.
Proof.
  intros Hx Hy Hz (ys' & Hp & HF) (zs' & Hq & HG).
  destruct (Permutation_Forall2 Hp HG) as (zs2 & Hz2 & HG').
  exists zs2. split; [by rewrite Hq|]. rewrite Hp in Hy. rewrite Hq, Hz2 in Hz.
  exact (Forall2_trans_on xs ys' zs2 Hx Hy Hz HF HG').
Qed.
End matching.

(** ** Structural equality is an equivalence *)
Definition sized (n : nat) (v : SnapshotValue) : Prop := vsize v < n.

Lemma sized_children n v x : sized (S n) v → x ∈ children v → sized n x.
Proof. unfold sized. intros H Hx. apply children_smaller in Hx. lia. Qed.

Lemma sized_elems n v : sized (S n) v → Forall (sized n) (children v).
Proof. intros H. apply Forall_forall. intros x. by apply sized_children. Qed.

Lemma ref_equal_spec a b : ref_equal a b = true ↔ a = b.
Proof.
  unfold ref_equal. rewrite andb_true_iff, !bool_decide_eq_true. destruct a, b; cbn.
  split; [intros [-> ->]|intros [= -> ->]]; done.
Qed.

Lemma same_instant_spec x y : same_instant x y = true ↔ x = y.
Proof. destruct x, y; cbn; rewrite ?Z.eqb_eq; naive_solver. Qed.

(** The components a proposition carries besides its arguments. *)
Definition prop_head (p : Proposition) : IdentityRef * Z * IdentityRef * Z * ValidTime :=
  (phase p, modality p, term p, quantification p, validTime p).

Lemma proposition_equal p q : StructuralEqual (VProposition p) (VProposition q) = true ↔
  prop_head p = prop_head q ∧ Forall2 (fun x y => StructuralEqual x y = true) (args p) (args q).
Proof.
  cbn [StructuralEqual]. rewrite !andb_true_iff, <- same_elems_Forall2, andb_true_iff.
  rewrite !ref_equal_spec, !same_instant_spec, !Z.eqb_eq. unfold prop_head.
  destruct (validTime p), (validTime q); cbn. intuition congruence.
Qed.

(** What equality of two values of one shape says of their children. *)
Lemma field_values (eq : SnapshotValue → SnapshotValue → bool) (xs ys : list (string * SnapshotValue)) :
  Forall2 (fun x y => x.1 = y.1 ∧ eq x.2 y.2 = true) xs ys ↔
  map fst xs = map fst ys ∧ Forall2 (fun x y => eq x y = true) (map snd xs) (map snd ys).
Proof.
  revert ys. induction xs as [|x xs IH]; intros [|y ys]; cbn;
    [by split; [split|]; constructor|split; [intros H; inversion H|intros [H _]; discriminate H]..|].
  rewrite !Forall2_cons, IH. split; [intros [[-> ?] [-> ?]]|intros [[= -> ->] [? ?]]]; done.
Qed.

Definition same_shape (a b : SnapshotValue) (same bag : Prop) : Prop :=
  match a, b with
  | VNil, VNil => True
  | VLiteral k v, VLiteral k' v' => k = k' ∧ v = v'
  | VRef r, VRef r' => r = r'
  | VTuple _, VTuple _ => same
  | VSet _, VSet _ => bag
  | VRecord xs, VRecord ys => map fst xs = map fst ys ∧ same
  | VProposition p, VProposition q => prop_head p = prop_head q ∧ same
  | _, _ => False
  end.

Definition equal_on (n : nat) : Prop :=
  (∀ x, sized n x → StructuralEqual x x = true) ∧
  (∀ x y, sized n x → sized n y → StructuralEqual x y = true → StructuralEqual y x = true) ∧
  (∀ x y z, sized n x → sized n y → sized n z →
    StructuralEqual x y = true → StructuralEqual y z = true → StructuralEqual x z = true).

Lemma structural_shape n a b : equal_on n → sized (S n) a → sized (S n) b →
  StructuralEqual a b = true ↔
    same_shape a b (Forall2 (fun x y => StructuralEqual x y = true) (children a) (children b))
      (permuted StructuralEqual (children a) (children b)).
Proof.
  intros (Hr & Hs & Ht) Ha Hb. apply sized_elems in Ha, Hb.
  destruct a as [|k v|r|l|l|fs|p], b as [|k' v'|r'|l'|l'|fs'|p']; try done;
    try exact (proposition_equal _ _); cbn [StructuralEqual same_shape children] in *.
  - by rewrite andb_true_iff, !bool_decide_eq_true.
  - apply ref_equal_spec.
  - apply same_elems_Forall2.
  - by apply (claim_all_permuted StructuralEqual (sized n)).
  - by rewrite pairwise_fields_Forall2, field_values.
Qed.

Lemma equal_on_all n : equal_on n.
Proof.
  induction n as [|n IH]; [by repeat split; intros; exfalso; unfold sized in *; lia|].
  destruct IH as (Hr & Hs & Ht) eqn:EIH. clear EIH.
  assert (equal_on n) as IHn by done.
  split_and!.
  - intros x Hx. apply (structural_shape n); try done. apply sized_elems in Hx.
    assert (Forall2 (fun x y => StructuralEqual x y = true) (children x) (children x)) as HF
      by by apply (Forall2_refl_on StructuralEqual (sized n)).
    destruct x; cbn; try done. by eexists.
  - intros x y Hx Hy. rewrite !(structural_shape n) by done. apply sized_elems in Hx, Hy.
    pose proof (Forall2_sym_on StructuralEqual (sized n) Hs _ _ Hx Hy) as HF.
    pose proof (permuted_sym StructuralEqual (sized n) Hs _ _ Hx Hy) as HP.
    destruct x, y; cbn [same_shape] in *; intuition congruence.
  - intros x y z Hx Hy Hz. rewrite !(structural_shape n) by done. apply sized_elems in Hx, Hy, Hz.
    pose proof (Forall2_trans_on StructuralEqual (sized n) Ht _ _ _ Hx Hy Hz) as HF.
    pose proof (permuted_trans StructuralEqual (sized n) Ht _ _ _ Hx Hy Hz) as HP.
    destruct x, y; try done; destruct z; cbn [same_shape] in *; intuition congruence.
Qed.

Definition equal (a b : SnapshotValue) : Prop := StructuralEqual a b = true.

#[global] Instance equal_equivalence : Equivalence equal.
Proof.
  unfold equal. split.
  - intros x. destruct (equal_on_all (S (vsize x))) as (H & _ & _). apply H. unfold sized. lia.
  - intros x y. destruct (equal_on_all (S (vsize x + vsize y))) as (_ & H & _). apply H; unfold sized; lia.
  - intros x y z. destruct (equal_on_all (S (vsize x + vsize y + vsize z))) as (_ & _ & H).
    apply H; unfold sized; lia.
Qed.

(** Equality of values, by shape. *)
Lemma equal_shape a b : equal a b ↔
  same_shape a b (Forall2 equal (children a) (children b)) (permuted StructuralEqual (children a) (children b)).
Proof. apply (structural_shape (vsize a + vsize b) a b (equal_on_all _)); unfold sized; lia. Qed.

(** ** Equal values have one canonical string *)
Lemma map_equal {B} (f : SnapshotValue → B) l k :
  (∀ x, x ∈ l → ∀ y, equal x y → f x = f y) → Forall2 equal l k → map f l = map f k.
Proof.
  intros H HF. induction HF as [|x y l k Hxy HF IH]; cbn; [done|].
  f_equal; [apply H; [left|done]|]. apply IH. intros z Hz. apply H. by right.
Qed.

Lemma permuted_canonical {B} (f : SnapshotValue → B) l k :
  (∀ x, x ∈ l → ∀ y, equal x y → f x = f y) → permuted StructuralEqual l k → map f l ≡ₚ map f k.
Proof. intros H (zs & Hp & HF). rewrite Hp. by rewrite (map_equal f l zs H HF). Qed.

Lemma map_fields {B} (f : string → SnapshotValue → B) (fs fs' : list (string * SnapshotValue)) :
  (∀ x, x ∈ map snd fs → ∀ y, equal x y → ∀ k, f k x = f k y) →
  map fst fs = map fst fs' → Forall2 equal (map snd fs) (map snd fs') →
  map (fun kv => f kv.1 kv.2) fs = map (fun kv => f kv.1 kv.2) fs'.
Proof.
  revert fs'. induction fs as [|[k x] fs IH]; intros [|[k' y] fs']; cbn; try done.
  intros H [= -> Hk] HF. inversion HF; subst. f_equal; [apply H; [left|done]|].
  apply IH; try done. intros z Hz. apply H. by right.
Qed.

Lemma equal_canonical a b : equal a b → CanonicalString a = CanonicalString b.
Proof.
  revert b. induction a as [a IH] using value_induction. intros b. rewrite equal_shape.
  destruct a as [|k v|r|l|l|fs|p], b as [|k' v'|r'|l'|l'|fs'|p']; try done; cbn [same_shape children CanonicalString] in *.
  - by intros [-> ->].
  - by intros ->.
  - intros HF. by rewrite (map_equal CanonicalString l l' IH HF).
  - intros HP. by rewrite (sort_by_unique string_ltb _ _ (permuted_canonical CanonicalString l l' IH HP)).
  - intros [Hk HF].
    rewrite (map_fields (fun k v => k +:+ ":" +:+ CanonicalString v) fs fs'); try done.
    intros x Hx y Hxy k. by rewrite (IH x Hx y Hxy).
  - unfold prop_head. intros [[= -> -> -> -> ->] HF]. by rewrite (map_equal CanonicalString _ _ IH HF).
Qed.

#[global] Instance CanonicalString_proper : Proper (equal ==> (=)) CanonicalString.
Proof. intros a b. apply equal_canonical. Qed.

(** ** The exchange sort *)
Lemma exchange_pass_spec x l m r : exchange_pass x l = (m, r) →
  m :: r ≡ₚ x :: l ∧ Forall (not_above string_ltb m) r ∧ not_above string_ltb m x.
Proof.
  revert x m r. induction l as [|y l IH]; intros x m r; cbn.
  - intros [= <- <-]. repeat split; [done|constructor|]. apply less_irrefl, _.
  - destruct (string_ltb y x) eqn:E; destruct (exchange_pass _ l) as [m' r'] eqn:Ep; intros [= <- <-];
      destruct (IH _ _ _ Ep) as (Hp & Hall & Hm); (assert (not_above string_ltb m' x ∧ not_above string_ltb m' y) as [H1 H2]).
    + split; [|done]. apply (not_above_trans string_ltb m' y x); [done|]. by apply less_asym.
    + split_and!; [|by constructor|done]. by rewrite Permutation_swap, Hp.
    + split; [done|]. by apply (not_above_trans string_ltb m' x y).
    + split_and!; [|by constructor|done]. rewrite Permutation_swap, Hp. apply Permutation_swap.
Qed.

Lemma exchange_sort_perm n l : exchange_sort n l ≡ₚ l.
Proof.
  revert l. induction n as [|n IH]; intros [|x l]; cbn; try done.
  destruct (exchange_pass x l) as [m r] eqn:E. destruct (exchange_pass_spec _ _ _ _ E) as (Hp & _).
  by rewrite IH.
Qed.

Lemma exchange_sort_sorted n l : length l <= n → StronglySorted (not_above string_ltb) (exchange_sort n l).
Proof.
  revert l. induction n as [|n IH]; intros [|x l]; cbn; try (constructor; fail); [lia|]. intros Hn.
  destruct (exchange_pass x l) as [m r] eqn:E. destruct (exchange_pass_spec _ _ _ _ E) as (Hp & Hall & _).
  constructor; [|by rewrite exchange_sort_perm]. apply IH. apply Permutation_length in Hp. cbn in Hp. lia.
Qed.

(** The hand-written loop is [sort.Strings]. *)
Lemma exchange_sort_strings l : exchange_sort (length l) l = sort_strings l.
Proof.
  apply sorted_strings_unique; [by apply exchange_sort_sorted|apply sort_by_sorted, _|].
  by rewrite exchange_sort_perm, sort_by_perm.
Qed.

(** ** Well-formed values *)
Fixpoint distinct (l : list SnapshotValue) : Prop :=
  match l with
  | [] => True
  | x :: l => Forall (fun y => ¬ equal x y) l ∧ distinct l
  end.

Inductive wf_snapshot : SnapshotValue → Prop :=
| wf_nil : wf_snapshot VNil
| wf_literal k v : wf_snapshot (VLiteral k v)
| wf_ref r : wf_snapshot (VRef r)
| wf_tuple l : Forall wf_snapshot l → wf_snapshot (VTuple l)
| wf_set l : Forall wf_snapshot l → distinct l → wf_snapshot (VSet l)
| wf_record fs : Forall wf_snapshot (map snd fs) → NoDup (map fst fs) →
    StronglySorted (not_above string_ltb) (map fst fs) → wf_snapshot (VRecord fs)
| wf_proposition p : Forall wf_snapshot (args p) → wf_snapshot (VProposition p).

Lemma wf_children v : wf_snapshot v → Forall wf_snapshot (children v).
Proof. by destruct 1; cbn. Qed.

Lemma distinct_app l k : distinct (l ++ k) ↔
  distinct l ∧ distinct k ∧ Forall (fun x => Forall (fun y => ¬ equal x y) k) l.
Proof.
  induction l as [|x l IH]; cbn; [intuition constructor|].
  rewrite IH, Forall_app, Forall_cons. tauto.
Qed.

Lemma distinct_perm l k : l ≡ₚ k → distinct l → distinct k.
Proof.
  induction 1 as [|x l k Hp IH|x y l|l k j _ IH1 _ IH2]; cbn; [done|..|by auto].
  - intros [Hx Hl]. split; [by rewrite <- Hp|auto].
  - rewrite !Forall_cons. intros ([Hyx Hy] & Hx & Hl). repeat split; try done.
Qed.

Lemma set_insert_distinct acc m : distinct acc → distinct (set_insert acc m).
Proof.
  unfold set_insert. destruct (existsb _ acc) eqn:E; [done|]. intros H. apply distinct_app.
  split_and!; [done|by repeat constructor|]. apply Forall_forall. intros x Hx. constructor; [|constructor].
  intros Hm. assert (StructuralEqual m x = true) as Hmx by by symmetry in Hm.
  by rewrite (existsb_false_elem _ _ _ E Hx) in Hmx.
Qed.

Definition represented (l : list SnapshotValue) (x : SnapshotValue) : Prop := ∃ y, y ∈ l ∧ equal x y.

Lemma set_insert_represented acc m x : represented (set_insert acc m) x ↔ represented acc x ∨ equal x m.
Proof.
  unfold set_insert, represented. destruct (existsb _ acc) eqn:E.
  - split; [by left|intros [?|Hxm]; [done|]].
    apply existsb_exists in E as (y & Hy & Hmy). exists y. split; [by apply list_elem_of_In|].
    etrans; [exact Hxm|exact Hmy].
  - setoid_rewrite elem_of_app. setoid_rewrite list_elem_of_singleton. naive_solver.
Qed.

Lemma set_insert_from acc m x : x ∈ set_insert acc m → x ∈ acc ∨ x = m.
Proof. unfold set_insert. destruct (existsb _ acc); [by left|]. rewrite elem_of_app, list_elem_of_singleton. done. Qed.

Lemma fold_insert_spec l : ∀ acc, distinct acc →
  distinct (foldl set_insert acc l) ∧
  (∀ x, represented (foldl set_insert acc l) x ↔ represented acc x ∨ represented l x) ∧
  (∀ x, x ∈ foldl set_insert acc l → x ∈ acc ∨ x ∈ l).
Proof.
  induction l as [|m l IH]; intros acc Hd; cbn.
  - split_and!; [done| |by left]. intros x. split; [by left|intros [?|(y & Hy & _)]; [done|]].
    by apply elem_of_nil in Hy.
  - destruct (IH _ (set_insert_distinct acc m Hd)) as (H1 & H2 & H3). split_and!; [done|..].
    + intros x. rewrite H2, set_insert_represented. unfold represented. setoid_rewrite elem_of_cons. naive_solver.
    + intros x Hx. rewrite elem_of_cons. destruct (H3 x Hx) as [Hx'|]; [|tauto].
      apply set_insert_from in Hx'. tauto.
Qed.

Lemma fold_insert_distinct l : ∀ acc, distinct (acc ++ l) → foldl set_insert acc l = acc ++ l.
Proof.
  induction l as [|m l IH]; intros acc Hd; cbn; [by rewrite app_nil_r|].
  assert (set_insert acc m = acc ++ [m]) as ->.
  { unfold set_insert. destruct (existsb _ acc) eqn:E; [|done]. exfalso.
    apply existsb_exists in E as (y & Hy & Hmy). apply list_elem_of_In in Hy.
    apply distinct_app in Hd as (_ & _ & Hd). rewrite Forall_forall in Hd.
    specialize (Hd y Hy). inversion Hd as [|?? Hn _]; subst. apply Hn. by symmetry. }
  rewrite IH; by rewrite <- app_assoc.
Qed.

(** Sets are mathematical sets. *)
Lemma included_split l : ∀ k, distinct l → (∀ x, x ∈ l → represented k x) →
  ∃ zs r, k ≡ₚ zs ++ r ∧ Forall2 equal l zs.
Proof.
  induction l as [|x l IH]; intros k Hd Hin; [exists [], k; by split; [|constructor]|].
  destruct Hd as [Hx Hd]. destruct (Hin x) as (y & Hy & Hxy); [left|].
  apply list_elem_of_split in Hy as (k1 & k2 & ->).
  destruct (IH (k1 ++ k2) Hd) as (zs & r & Hp & HF).
  { intros x' Hx'. destruct (Hin x') as (y' & Hy' & Hxy'); [by right|]. exists y'. split; [|done].
    rewrite elem_of_app, elem_of_cons in Hy'. rewrite elem_of_app.
    destruct Hy' as [?|[->|?]]; [by left| |by right].
    exfalso. rewrite Forall_forall in Hx. apply (Hx x' Hx'). etrans; [exact Hxy|by symmetry]. }
  exists (y :: zs), r. split; [|by constructor]. by rewrite <- Permutation_middle, Hp.
Qed.

Lemma sets_equal l k : distinct l → distinct k →
  permuted StructuralEqual l k ↔ (∀ x, represented l x ↔ represented k x).
Proof.
  intros Hl Hk. split.
  - intros (zs & Hp & HF) x. unfold represented. setoid_rewrite Hp. clear Hp Hl Hk k.
    induction HF as [|y z l zs Hyz HF IH]; [done|]. setoid_rewrite elem_of_cons. split.
    + intros (w & [->|Hw] & Hxw); [exists z; split; [by left|by etrans]|].
      destruct (proj1 IH) as (w' & Hw' & Hxw'); [by exists w|]. exists w'. split; [by right|done].
    + intros (w & [->|Hw] & Hxw); [exists y; split; [by left|etrans; [exact Hxw|by symmetry]]|].
      destruct (proj2 IH) as (w' & Hw' & Hxw'); [by exists w|]. exists w'. split; [by right|done].
  - intros H. destruct (included_split l k Hl) as (zs & r & Hp & HF).
    { intros x Hx. apply H. by exists x. }
    exists zs. split; [|done]. destruct r as [|w r]; [by rewrite app_nil_r in Hp|]. exfalso.
    destruct (proj2 (H w)) as (x & Hx & Hwx); [exists w; split; [rewrite Hp, elem_of_app; right; left|done]|].
    apply list_elem_of_lookup_1 in Hx as [i Hi].
    destruct (Forall2_lookup_l _ _ _ _ _ HF Hi) as (z & Hz & Hxz). apply list_elem_of_lookup_2 in Hz.
    apply (distinct_perm _ _ Hp) in Hk. apply distinct_app in Hk as (_ & _ & Hk).
    rewrite Forall_forall in Hk. specialize (Hk z Hz). inversion Hk as [|?? Hn _]; subst. apply Hn.
    symmetry. by etrans.
Qed.

(** Two sets are equal exactly when each has, up to equality, the members given to the other. *)
Lemma NewSet_members l k : equal (NewSet l) (NewSet k) ↔ (∀ x, represented l x ↔ represented k x).
Proof.
  rewrite equal_shape. cbn [NewSet same_shape children].
  destruct (fold_insert_spec l [] I) as (Hl & Rl & _), (fold_insert_spec k [] I) as (Hk & Rk & _).
  unfold NewSet. cbn. rewrite sets_equal by done. setoid_rewrite Rl. setoid_rewrite Rk.
  assert (∀ x, ¬ represented [] x) as Hno by (intros x (y & Hy & _); by apply elem_of_nil in Hy).
  naive_solver.
Qed.

Lemma NewSet_wf l : Forall wf_snapshot l → wf_snapshot (NewSet l).
Proof.
  intros H. destruct (fold_insert_spec l [] I) as (Hd & _ & Hf). constructor; [|done].
  rewrite Forall_forall in *. intros x Hx. destruct (Hf x Hx) as [Hx'|]; [by apply elem_of_nil in Hx'|auto].
Qed.

Lemma map_to_list_keys (m : gmap string SnapshotValue) k : k ∈ (map_to_list m).*1 ↔ is_Some (m !! k).
Proof.
  rewrite list_elem_of_fmap. split.
  - intros ([k' v] & -> & H). apply elem_of_map_to_list in H. eauto.
  - intros [v Hv]. exists (k, v). by rewrite elem_of_map_to_list.
Qed.

Lemma NewRecord_keys (m : gmap string SnapshotValue) :
  NewRecord m = VRecord (map (fun k => (k, default VNil (m !! k))) (sorted_keys string_ltb m)).
Proof. unfold NewRecord, sorted_keys. by rewrite exchange_sort_strings. Qed.

Lemma NewRecord_wf (m : gmap string SnapshotValue) :
  (∀ k v, m !! k = Some v → wf_snapshot v) → wf_snapshot (NewRecord m).
Proof.
  intros H. rewrite NewRecord_keys. constructor; rewrite List.map_map; cbn.
  - apply List.Forall_map, Forall_forall. intros k Hk. apply elem_of_sorted_keys in Hk as [v Hv].
    rewrite Hv. by apply (H k).
  - rewrite map_id. apply NoDup_sorted_keys.
  - rewrite map_id. apply sorted_keys_sorted, _.
Qed.

(** The map of the fields of a well-formed record gives the record back. *)
Lemma NewRecord_fields fs : NoDup (map fst fs) → StronglySorted (not_above string_ltb) (map fst fs) →
  NewRecord (list_to_map fs) = VRecord fs.
Proof.
  intros Hn Hs. rewrite NewRecord_keys. unfold sorted_keys.
  assert (sort_strings (map_to_list (list_to_map fs : gmap string SnapshotValue)).*1 = map fst fs) as ->.
  { rewrite <- (sort_by_id string_ltb (map fst fs) Hs). apply sort_by_unique; [apply _|].
    by rewrite map_to_list_to_map. }
  f_equal. rewrite List.map_map. clear Hs.
  assert (∀ kv, kv ∈ fs → (list_to_map fs : gmap string SnapshotValue) !! kv.1 = Some kv.2) as Hl.
  { intros [k v] Hkv. by apply elem_of_list_to_map_1. }
  clear Hn. revert Hl. generalize (list_to_map fs : gmap string SnapshotValue). intros m Hl.
  induction fs as [|[k v] fs IH]; cbn; [done|]. pose proof (Hl (k, v)) as Hk. cbn in Hk. rewrite Hk by left. cbn. f_equal. apply IH.
  intros kv Hkv. apply Hl. by right.
Qed.

Lemma map_fixed {A} (f : A → A) l : (∀ x, x ∈ l → f x = x) → map f l = l.
Proof.
  induction l as [|x l IH]; cbn; [done|]. intros H. rewrite H by left. f_equal. apply IH.
  intros y Hy. apply H. by right.
Qed.

Lemma Forall_map_all {A B} (P : B → Prop) (f : A → B) l : (∀ x, x ∈ l → P (f x)) → Forall P (map f l).
Proof. intros H. apply List.Forall_map, Forall_forall. exact H. Qed.

(** A copy is well formed whatever it copies. *)
Lemma clone_wf v : wf_snapshot (CloneSnapshot v).
Proof.
  induction v as [v IH] using value_induction.
  destruct v as [| | |l|l|fs|p]; cbn [CloneSnapshot children] in *;
    [constructor..|constructor; by apply Forall_map_all|by apply NewSet_wf, Forall_map_all| |constructor; by apply Forall_map_all].
  apply NewRecord_wf. intros k v Hkv. apply elem_of_list_to_map_2 in Hkv.
  apply list_elem_of_In, in_map_iff in Hkv as ([k' w] & [= _ <-] & Hw). apply IH.
  apply list_elem_of_In, in_map_iff. by exists (k', w).
Qed.

(** A copy of a well-formed value is that value. *)
Lemma clone_id v : wf_snapshot v → CloneSnapshot v = v.
Proof.
  induction v as [v IH] using value_induction. intros Hwf.
  pose proof (wf_children v Hwf) as Hc. rewrite Forall_forall in Hc.
  destruct Hwf as [|k v|r|l _|l _ Hd|fs _ Hn Hs|p _]; cbn [CloneSnapshot children] in *; try done.
  - by destruct r.
  - by rewrite map_fixed by auto.
  - rewrite map_fixed by auto. unfold NewSet. by rewrite (fold_insert_distinct l []).
  - rewrite (map_fixed (fun kv => (kv.1, CloneSnapshot kv.2))); [by apply NewRecord_fields|].
    intros [k x] Hx. cbn. rewrite IH; [done|..].
    + apply list_elem_of_In, in_map_iff. by exists (k, x); rewrite <- list_elem_of_In.
    + apply Hc. apply list_elem_of_In, in_map_iff. by exists (k, x); rewrite <- list_elem_of_In.
  - rewrite map_fixed by auto. by destruct p as [? ? ? ? [? ?] ?].
Qed.

Lemma clone_proposition (p : Proposition) : CloneSnapshot (VProposition p) = VProposition (CloneProposition p).
Proof. done. Qed.

Lemma CloneProposition_id (p : Proposition) : Forall wf_snapshot (args p) → CloneProposition p = p.
Proof.
  intros H. assert (VProposition (CloneProposition p) = VProposition p) as [= ->]; [|done].
  rewrite <- clone_proposition. by apply clone_id; constructor.
Qed.

Lemma CloneProposition_wf (p : Proposition) : Forall wf_snapshot (args (CloneProposition p)).
Proof. apply (wf_children (VProposition (CloneProposition p))). rewrite <- clone_proposition. apply clone_wf. Qed.

Lemma CloneProposition_idemp (p : Proposition) : CloneProposition (CloneProposition p) = CloneProposition p.
Proof. apply CloneProposition_id, CloneProposition_wf. Qed.

(** C21: structural equality is an equivalence under which sets are mathematical
    sets, and equal values have the same canonical string, the key the graph
    indexes them under. *)
Theorem StructuralEqual_correct (a b : SnapshotValue) (l k : list SnapshotValue) :
  StructuralEqual a b = true →
  CanonicalString a = CanonicalString b ∧ StructuralEqual a a = true ∧ StructuralEqual b a = true ∧
  (∀ c, StructuralEqual b c = StructuralEqual a c) ∧
  (StructuralEqual (NewSet l) (NewSet k) = true ↔ ∀ x, represented l x ↔ represented k x).
Proof.
  intros H. assert (equal a b) as Hab by exact H. split_and!.
  - by apply equal_canonical.
  - change (equal a a). reflexivity.
  - change (equal b a). by symmetry.
  - intros c. apply eq_true_iff_eq. change (equal b c ↔ equal a c). by rewrite Hab.
  - apply NewSet_members.
Qed.

Lemma StructuralEqual_correct_witness :
  let a := NewSet [VLiteral "s" "x"; VTuple [VNil]] in
  let b := NewSet [VTuple [VNil]; VLiteral "s" "x"; VLiteral "s" "x"] in
  CanonicalString a = CanonicalString b.
Proof. intros a b. exact (proj1 (StructuralEqual_correct a b [] [] eq_refl)). Defined.

(** A copy is well formed, and copying a well-formed value, in particular
    every value the constructors build, changes nothing. *)
Theorem CloneSnapshot_exact (v : SnapshotValue) (l : list SnapshotValue) (m : gmap string SnapshotValue) :
  Forall wf_snapshot l → (∀ k x, m !! k = Some x → wf_snapshot x) →
  wf_snapshot (CloneSnapshot v) ∧ (wf_snapshot v → CloneSnapshot v = v) ∧
  wf_snapshot (NewSet l) ∧ wf_snapshot (NewRecord m).
Proof.
  intros Hl Hm. split_and!; [apply clone_wf|apply clone_id|by apply NewSet_wf|by apply NewRecord_wf].
Qed.

Lemma CloneSnapshot_exact_witness :
  wf_snapshot (NewSet [VNil; VNil; VLiteral "s" "x"]).
Proof.
  refine (proj1 (proj2 (proj2 (CloneSnapshot_exact VNil [VNil; VNil; VLiteral "s" "x"] ∅ _ _)))).
  - repeat constructor.
  - intros k x H. discriminate H.
Defined.
