(* ===== verification/SemanticEvents.v ===== *)
(** The records of the semantic graph: terms, acts and assertion events with
    their identities ([src/internal/semantic/identity.go], [act.go],
    [assertionevent.go]), and the relation propositions of [relations.go]. *)
From S2P Require Import Prelude GoStd SemanticSnapshot.

(** ** Terms *)
Record TermIdentity := mkTermIdentity {
  authority : string;
  arity : Z;
  argumentSorts : list string;
  grounding : SnapshotValue;
  consequence : SnapshotValue
}.

Definition ErrInvalidArity : error := mkError "invalid arity" "".
Definition ErrArityMismatch : error := mkError "arity does not match argument sorts length" "".

Definition NewTermIdentity (auth : string) (n : Z) (sorts : list string) (gr co : SnapshotValue) : result TermIdentity :=
  fail_if (n <? 0)%Z with ErrInvalidArity;
  fail_if negb (Z.of_nat (length sorts) =? n)%Z with ErrArityMismatch;
  Ok (mkTermIdentity auth n sorts (CloneSnapshot gr) (CloneSnapshot co)).

Definition TermIdentity_Equals (t o : TermIdentity) : bool :=
  bool_decide (authority t = authority o) && (arity t =? arity o)%Z
  && bool_decide (argumentSorts t = argumentSorts o)
  && StructuralEqual (grounding t) (grounding o) && StructuralEqual (consequence t) (consequence o).

(** ** Acts *)
Definition ActContact : Z := 0.
Definition ActInference : Z := 1.
Definition ActTestimony : Z := 2.
Definition ActAuthority : Z := 3.

(** [None] for the uses or the outputs is the slice that is not present. *)
Record Act := mkAct {
  act_source : string;
  act_kind : Z;
  act_interval : ValidTime;
  act_uses : option (list string);
  act_declaredOutputs : option (list string)
}.

Record ActIdentity := mkActIdentity {
  ai_Source : string;
  ai_Kind : Z;
  ai_Interval : ValidTime;
  ai_Uses : list string
}.

(** Duplicates dropped, lexical order. *)
Definition normalize_ids (ids : list string) : list string := sort_strings (dedup ids).

Definition NewAct (source : string) (kind : Z) (interval : ValidTime) (uses outputs : option (list string)) : Act :=
  mkAct source kind interval (normalize_ids <$> uses) (normalize_ids <$> outputs).

Definition Uses (a : Act) : list string := default [] (act_uses a).
Definition UsesPresent (a : Act) : bool := bool_decide (is_Some (act_uses a)).
Definition DeclaredOutputs (a : Act) : list string := default [] (act_declaredOutputs a).

Definition Act_Identity (a : Act) : ActIdentity :=
  mkActIdentity (act_source a) (act_kind a) (act_interval a) (Uses a).

Definition validTimeEqual (x y : ValidTime) : bool :=
  same_instant (vt_Start x) (vt_Start y) && same_instant (vt_End x) (vt_End y).

Definition ActIdentity_Equals (x y : ActIdentity) : bool :=
  bool_decide (ai_Source x = ai_Source y) && (ai_Kind x =? ai_Kind y)%Z
  && validTimeEqual (ai_Interval x) (ai_Interval y)
  && bool_decide (sort_strings (ai_Uses x) = sort_strings (ai_Uses y)).

Definition instant_or_nil (t : option time) : string :=
  match t with Some t => format_rfc3339nano t | None => "<nil>" end.

(** The parts the identity string and the act key share. *)
Definition key_parts (source : string) (kind : Z) (i : ValidTime) : list string :=
  [source; rune_of_int (kind + 48); instant_or_nil (vt_Start i); ":"; instant_or_nil (vt_End i)].

Definition IdentityString (x : ActIdentity) : string :=
  join "|" (key_parts (ai_Source x) (ai_Kind x) (ai_Interval x)
    ++ match ai_Uses x with
       | [] => ["|uses:<unreproducible>"]
       | us => "|uses:" :: sort_strings us
       end).

Definition actCanonicalKey (a : Act) : string :=
  join "|" (key_parts (act_source a) (act_kind a) (act_interval a)
    ++ match act_uses a with
       | Some us => "|uses:" :: sort_strings us
       | None => ["|uses:<unreproducible>"]
       end).

Definition Act_Equals (a b : Act) : bool :=
  bool_decide (act_source a = act_source b) && (act_kind a =? act_kind b)%Z
  && validTimeEqual (act_interval a) (act_interval b)
  && bool_decide (UsesPresent a = UsesPresent b)
  && (negb (UsesPresent a) || bool_decide (Uses a = Uses b)).

(** ** Assertion events *)
Record ProducerRef := mkProducerRef { pr_act : option ActIdentity; pr_opaque : option IdentityRef }.
Definition NewProducerRefFromAct (id : ActIdentity) : ProducerRef := mkProducerRef (Some id) None.
Definition NewProducerRefFromIdentityRef (id : IdentityRef) : ProducerRef := mkProducerRef None (Some id).

Record AssertionEvent := mkAssertionEvent {
  ev_producer : ProducerRef;
  ev_proposition : Proposition;
  ev_recordTime : time
}.

Definition ErrInvalidRecordTime : error := mkError "invalid record time" "".
Definition NewRecordTime (t : time) : result time :=
  fail_if time_is_zero t with ErrInvalidRecordTime; Ok t.

Definition NewAssertionEvent (producer : ProducerRef) (prop : Proposition) (rt : time) : result AssertionEvent :=
  fail_if bool_decide (Token (term prop) = "") || bool_decide (Token (phase prop) = "")
    with mkError "" "proposition missing term or phase identity";
  fail_if (modality prop <? Actual)%Z || (Deontic <? modality prop)%Z with mkError "" "invalid modality value";
  Ok (mkAssertionEvent producer (CloneProposition prop) rt).

(** The accessor: a copy of the proposition. *)
Definition Event_Proposition (e : AssertionEvent) : Proposition := CloneProposition (ev_proposition e).

Definition Event_Equals (a b : AssertionEvent) : bool :=
  match pr_act (ev_producer a), pr_act (ev_producer b) with
  | Some ai, Some bi =>
      ActIdentity_Equals ai bi && StructuralEqual (VProposition (ev_proposition a)) (VProposition (ev_proposition b))
  | _, _ =>
      match pr_opaque (ev_producer a), pr_opaque (ev_producer b) with
      | Some ai, Some bi =>
          StructuralEqual (VRef ai) (VRef bi)
          && StructuralEqual (VProposition (ev_proposition a)) (VProposition (ev_proposition b))
      | _, _ => false
      end
  end.

Definition assertionCanonicalKey (e : AssertionEvent) : string :=
  let prodPart :=
    match pr_act (ev_producer e), pr_opaque (ev_producer e) with
    | Some p, _ => "Act:" +:+ IdentityString p
    | None, Some o => TypeName o +:+ ":" +:+ Token o
    | None, None => "unknown"
    end in
  prodPart +:+ "|" +:+ CanonicalString (VProposition (Event_Proposition e)).

(** ** Relation propositions *)
Definition relation_proposition (token : string) (l : list SnapshotValue) (vt : ValidTime) : Proposition :=
  NewProposition (NewIdentityRef "Relation" token) Actual (NewIdentityRef "Relation" token) l vt QuantThisInstance.

Definition NewDefeatProposition (attacker target : string) (vt : ValidTime) : Proposition :=
  relation_proposition "Defeat" [VRef (NewIdentityRef "Assertion" attacker); VRef (NewIdentityRef "Assertion" target)] vt.
Definition NewRebuttalProposition (a b : Proposition) (vt : ValidTime) : Proposition :=
  relation_proposition "Rebuttal" [VProposition (CloneProposition a); VProposition (CloneProposition b)] vt.
Definition NewSubsumptionProposition (termA termB : IdentityRef) (vt : ValidTime) : Proposition :=
  relation_proposition "Subsumption" [VRef termA; VRef termB] vt.
Definition NewIncompatibilityProposition (termA termB : IdentityRef) (vt : ValidTime) : Proposition :=
  relation_proposition "Incompatibility" [VRef termA; VRef termB] vt.

Definition is_relation (token : string) (p : Proposition) : bool :=
  bool_decide (TypeName (phase p) = "Relation") && bool_decide (Token (phase p) = token).
Definition isDefeatProp (p : Proposition) : bool := is_relation "Defeat" p.
Definition isRebuttalProp (p : Proposition) : bool := is_relation "Rebuttal" p.
Definition isSubsumptionProp (p : Proposition) : bool := is_relation "Subsumption" p.
Definition isIncompatibilityProp (p : Proposition) : bool := is_relation "Incompatibility" p.

(** ** Identity of acts *)
Lemma validTimeEqual_spec x y : validTimeEqual x y = true ↔ x = y.
Proof.
  unfold validTimeEqual. rewrite andb_true_iff, !same_instant_spec. destruct x, y; cbn.
  split; [intros [-> ->]|intros [= -> ->]]; done.
Qed.

(** Two act identities are equal up to the order of their uses. *)
Lemma ActIdentity_Equals_spec x y : ActIdentity_Equals x y = true ↔
  ai_Source x = ai_Source y ∧ ai_Kind x = ai_Kind y ∧ ai_Interval x = ai_Interval y ∧ ai_Uses x ≡ₚ ai_Uses y.
Proof.
  unfold ActIdentity_Equals. rewrite !andb_true_iff, !bool_decide_eq_true, Z.eqb_eq, validTimeEqual_spec.
  assert (sort_strings (ai_Uses x) = sort_strings (ai_Uses y) ↔ ai_Uses x ≡ₚ ai_Uses y) as ->; [|tauto].
  split; [|apply sort_by_unique, _]. intros H. by rewrite <- (sort_by_perm string_ltb (ai_Uses x)), H, sort_by_perm.
Qed.

Definition same_act (x y : ActIdentity) : Prop := ActIdentity_Equals x y = true.

#[global] Instance ActIdentity_equivalence : Equivalence same_act.
Proof.
  unfold same_act. split.
  - intros x. by apply ActIdentity_Equals_spec.
  - intros x y. rewrite !ActIdentity_Equals_spec. intros (-> & -> & -> & ->). done.
  - intros x y z. rewrite !ActIdentity_Equals_spec. intros (-> & -> & -> & ->) (-> & -> & -> & ->). done.
Qed.

Lemma IdentityString_equal x y : ActIdentity_Equals x y = true → IdentityString x = IdentityString y.
Proof.
  rewrite ActIdentity_Equals_spec. intros (Hs & Hk & Hi & Hu). unfold IdentityString. rewrite Hs, Hk, Hi. do 2 f_equal.
  destruct (ai_Uses x) as [|u us] eqn:Ex, (ai_Uses y) as [|v vs] eqn:Ey; [done|..].
  - by apply Permutation_nil_cons in Hu.
  - symmetry in Hu. by apply Permutation_nil_cons in Hu.
  - f_equal. by apply sort_by_unique; [apply _|].
Qed.

Lemma Act_Equals_spec a b : Act_Equals a b = true ↔
  act_source a = act_source b ∧ act_kind a = act_kind b ∧ act_interval a = act_interval b ∧ act_uses a = act_uses b.
Proof.
  unfold Act_Equals, UsesPresent, Uses.
  rewrite !andb_true_iff, orb_true_iff, negb_true_iff, !bool_decide_eq_true, Z.eqb_eq, validTimeEqual_spec.
  destruct (act_uses a) as [u|], (act_uses b) as [v|]; cbn; intuition congruence.
Qed.

(** ** Identity of assertion events *)

(** What [NewAssertionEvent] and the two producer constructors ensure. *)
Record wf_event (e : AssertionEvent) : Prop := {
  we_args : Forall wf_snapshot (args (ev_proposition e));
  we_producer : is_Some (pr_act (ev_producer e)) → pr_opaque (ev_producer e) = None
}.

Lemma NewAssertionEvent_wf producer prop rt e : (is_Some (pr_act producer) → pr_opaque producer = None) →
  NewAssertionEvent producer prop rt = Ok e → wf_event e.
Proof. intros Hp. unfold NewAssertionEvent. intros H. inv_ok. split; [apply CloneProposition_wf|done]. Qed.

Lemma Event_Proposition_wf e : wf_event e → Event_Proposition e = ev_proposition e.
Proof. intros [H _]. by apply CloneProposition_id. Qed.

(** The identity of the producer of an event, when it has one. *)
Definition same_producer (a b : ProducerRef) : Prop :=
  (∃ x y, pr_act a = Some x ∧ pr_act b = Some y ∧ same_act x y) ∨
  (∃ r, pr_opaque a = Some r ∧ pr_opaque b = Some r).

Lemma Event_Equals_spec a b : wf_event a → wf_event b → Event_Equals a b = true ↔
  same_producer (ev_producer a) (ev_producer b) ∧
  equal (VProposition (ev_proposition a)) (VProposition (ev_proposition b)).
Proof.
  intros [_ Ha] [_ Hb]. unfold Event_Equals, same_producer, same_act, equal.
  destruct (ev_producer a) as [[x|] [r|]], (ev_producer b) as [[y|] [r'|]]; cbn [pr_act pr_opaque] in *;
    try (by specialize (Ha ltac:(eauto))); try (by specialize (Hb ltac:(eauto)));
    change (StructuralEqual (VRef ?a) (VRef ?b)) with (ref_equal a b);
    rewrite ?andb_true_iff, ?ref_equal_spec; generalize (StructuralEqual (VProposition (ev_proposition a)) (VProposition (ev_proposition b)));
    intros eqp; clear; naive_solver.
Qed.

Lemma same_producer_sym p q : same_producer p q → same_producer q p.
Proof.
  intros [(x & y & Hx & Hy & H)|(r & Hp & Hq)]; [left; exists y, x; split_and!; try done; by symmetry|right; eauto].
Qed.

Lemma same_producer_trans p q r : (is_Some (pr_act q) → pr_opaque q = None) →
  same_producer p q → same_producer q r → same_producer p r.
Proof.
  intros Hq [(x & y & Hx & Hy & H)|(s & Hp & Hs)] [(y' & z & Hy' & Hz & H')|(s' & Hs' & Hr)].
  - left. exists x, z. split_and!; try done. simplify_eq. by etrans.
  - rewrite Hq in Hs' by eauto. done.
  - rewrite Hq in Hs by eauto. done.
  - right. exists s. split; [done|]. congruence.
Qed.

Lemma Event_Equals_sym a b : wf_event a → wf_event b → Event_Equals a b = true → Event_Equals b a = true.
Proof.
  intros Ha Hb. rewrite !Event_Equals_spec by done. intros [Hp He].
  split; [by apply same_producer_sym|by symmetry].
Qed.

Lemma Event_Equals_trans a b c : wf_event a → wf_event b → wf_event c →
  Event_Equals a b = true → Event_Equals b c = true → Event_Equals a c = true.
Proof.
  intros Ha Hb Hc. rewrite !Event_Equals_spec by done. intros [Hp He] [Hp' He'].
  split; [|by etrans]. eapply same_producer_trans; [apply Hb|done..].
Qed.

(** Identical events have one index key. *)
Lemma assertionCanonicalKey_equal a b : wf_event a → wf_event b → Event_Equals a b = true →
  assertionCanonicalKey a = assertionCanonicalKey b.
Proof.
  intros Ha Hb. rewrite Event_Equals_spec by done. intros [Hp He]. unfold assertionCanonicalKey.
  rewrite !Event_Proposition_wf by done. rewrite (equal_canonical _ _ He). f_equal.
  destruct Hp as [(x & y & -> & -> & H)|(r & Hra & Hrb)]; [by rewrite (IdentityString_equal x y H)|].
  rewrite Hra, Hrb. destruct Ha as [_ Ha], Hb as [_ Hb].
  destruct (pr_act (ev_producer a)); [by rewrite Ha in Hra by eauto|].
  destruct (pr_act (ev_producer b)); [by rewrite Hb in Hrb by eauto|]. done.
Qed.
