(* ===== verification/SemanticGraph.v ===== *)
(** The in-memory append-only graph of acts and assertion events:
    [src/internal/semantic/graph.go] and the indexes of [relations.go].  Every
    method of the source holds the graph's lock for its whole run, so a method
    is one function of the graph. *)
From S2P Require Import Prelude GoStd Identity Digest Decimal SemanticSnapshot SemanticEvents.

Definition ErrIdentityConflict : error := mkError "identity conflict: same identity, different content" "".
Definition ErrProducedByMismatch : error := mkError "produced-by mismatch: event producer does not match Act identity" "".
Definition ErrTemporalViolation : error := mkError "temporal violation: uses must precede outputs by RecordTime" "".
Definition ErrRecordTimeConflict : error := mkError "record time conflict for same AssertionEvent identity" "".

(** A map from strings to slices of ids; a missing key reads as no ids. *)
Abbreviation buckets := (gmap string (list string)).
Definition bucket (m : buckets) (k : string) : list string := default [] (m !! k).
Definition append_to (k id : string) (m : buckets) : buckets := <[k := bucket m k ++ [id]]> m.

(** The derived relation indexes. *)
Record RelationIndexes := mkIndexes {
  defeatByTarget : buckets;
  defeatByAttacker : buckets;
  rebuttalByProp : buckets;
  subsumptionByTerm : buckets;
  incompatibilityByTerm : buckets
}.
Definition no_indexes : RelationIndexes := mkIndexes ∅ ∅ ∅ ∅ ∅.

Record Graph := mkGraph {
  assertions : gmap string AssertionEvent;
  acts : gmap string Act;
  assertionIndex : buckets;
  producerIndex : buckets;
  actOutputs : gmap string (gset string);
  actIdentityIndex : gmap string string;
  relations : RelationIndexes
}.
Definition NewGraph : Graph := mkGraph ∅ ∅ ∅ ∅ ∅ ∅ no_indexes.

(** ** Relation indexes *)
Definition updateRelationIndexes (id : string) (e : AssertionEvent) (r : RelationIndexes) : RelationIndexes :=
  let p := Event_Proposition e in
  if isDefeatProp p then
    match args p with
    | VRef aRef :: VRef tRef :: _ =>
        mkIndexes (append_to (Token tRef) id (defeatByTarget r)) (append_to (Token aRef) id (defeatByAttacker r))
          (rebuttalByProp r) (subsumptionByTerm r) (incompatibilityByTerm r)
    | _ => r
    end
  else if isRebuttalProp p then
    match args p with
    | VProposition pa :: VProposition pb :: _ =>
        let ka := CanonicalString (VProposition pa) in
        let kb := CanonicalString (VProposition pb) in
        mkIndexes (defeatByTarget r) (defeatByAttacker r)
          (append_to kb id (append_to ka id (rebuttalByProp r))) (subsumptionByTerm r) (incompatibilityByTerm r)
    | _ => r
    end
  else if isSubsumptionProp p then
    match args p with
    | VRef aRef :: VRef bRef :: _ =>
        mkIndexes (defeatByTarget r) (defeatByAttacker r) (rebuttalByProp r)
          (append_to (Token bRef) id (append_to (Token aRef) id (subsumptionByTerm r))) (incompatibilityByTerm r)
    | _ => r
    end
  else if isIncompatibilityProp p then
    match args p with
    | VRef aRef :: VRef bRef :: _ =>
        mkIndexes (defeatByTarget r) (defeatByAttacker r) (rebuttalByProp r) (subsumptionByTerm r)
          (append_to (Token bRef) id (append_to (Token aRef) id (incompatibilityByTerm r)))
    | _ => r
    end
  else r.

(** The rebuild folds over the stored events in the iteration order of the
    map; [order] lists its entries in that order. *)
Definition index_all (order : list (string * AssertionEvent)) : RelationIndexes :=
  foldl (fun r ie => updateRelationIndexes ie.1 ie.2 r) no_indexes order.
Definition RebuildRelationIndexes (order : list (string * AssertionEvent)) (g : Graph) : Graph :=
  mkGraph (assertions g) (acts g) (assertionIndex g) (producerIndex g) (actOutputs g) (actIdentityIndex g)
    (index_all order).

Definition DefeatAssertionsByTarget (g : Graph) (target : string) : list string := bucket (defeatByTarget (relations g)) target.
Definition DefeatAssertionsByAttacker (g : Graph) (attacker : string) : list string := bucket (defeatByAttacker (relations g)) attacker.
Definition RebuttalAssertionsByProposition (g : Graph) (p : Proposition) : list string :=
  bucket (rebuttalByProp (relations g)) (CanonicalString (VProposition p)).
Definition SubsumptionAssertionsByTerm (g : Graph) (t : IdentityRef) : list string := bucket (subsumptionByTerm (relations g)) (Token t).
Definition IncompatibilityAssertionsByTerm (g : Graph) (t : IdentityRef) : list string :=
  bucket (incompatibilityByTerm (relations g)) (Token t).

(** ** Appending an assertion event *)
Definition sha256Hex (s : string) : string := hex_encode (sha256 (string_bytes s)).

(** The zero event, which a lookup of a missing id reads. *)
Definition zero_event : AssertionEvent :=
  mkAssertionEvent (mkProducerRef None None)
    (NewProposition (NewIdentityRef "" "") 0 (NewIdentityRef "" "") [] (NewValidTime None None) 0) 0.
Definition event_at (g : Graph) (id : string) : AssertionEvent := default zero_event (assertions g !! id).

(** The scan of the bucket: the first structurally equal event decides. *)
Fixpoint find_identical (g : Graph) (e : AssertionEvent) (ids : list string) : option (result string) :=
  match ids with
  | [] => None
  | id :: ids =>
      if Event_Equals (event_at g id) e
      then Some (if negb (ev_recordTime (event_at g id) =? ev_recordTime e)%Z then Err ErrRecordTimeConflict else Ok id)
      else find_identical g e ids
  end.

(** The candidates for a public id, and the first that is not in use. *)
Definition id_candidate (base : string) (counter : nat) : string :=
  if Nat.eqb counter 0 then base else base +:+ "-" +:+ itoa (Z.of_nat counter).
Fixpoint fresh_from (g : Graph) (base : string) (counter fuel : nat) : string :=
  match fuel with
  | O => id_candidate base counter
  | S fuel =>
      if bool_decide (is_Some (assertions g !! id_candidate base counter))
      then fresh_from g base (S counter) fuel else id_candidate base counter
  end.
Definition fresh_id (g : Graph) (key : string) : string :=
  fresh_from g ("evt:" +:+ sha256Hex key) 0 (size (assertions g)).

(** Some locally present use of the act is not recorded before [t]. *)
Definition uses_not_before (g : Graph) (a : Act) (t : time) : bool :=
  existsb (fun u => match assertions g !! u with Some ue => negb (ev_recordTime ue <? t)%Z | None => false end) (Uses a).

(** The act a producer resolves to, with its key. *)
Definition typed_act (g : Graph) (aid : ActIdentity) : option string := actIdentityIndex g !! IdentityString aid.

Definition zero_act : Act := mkAct "" 0 (NewValidTime None None) None None.
Definition act_at (g : Graph) (key : string) : Act := default zero_act (acts g !! key).

Definition violates_uses (g : Graph) (e : AssertionEvent) : bool :=
  match pr_act (ev_producer e), pr_opaque (ev_producer e) with
  | Some aid, _ =>
      match typed_act g aid with Some key => uses_not_before g (act_at g key) (ev_recordTime e) | None => false end
  | None, Some oref =>
      match acts g !! Token oref with Some act => uses_not_before g act (ev_recordTime e) | None => false end
  | None, None => false
  end.

Definition add_output (key id : string) (m : gmap string (gset string)) : gmap string (gset string) :=
  <[key := {[id]} ∪ default ∅ (m !! key)]> m.

Definition register_output (g : Graph) (id : string) (e : AssertionEvent) : gmap string (gset string) :=
  match pr_act (ev_producer e), pr_opaque (ev_producer e) with
  | Some aid, _ => match typed_act g aid with Some key => add_output key id (actOutputs g) | None => actOutputs g end
  | None, Some oref => add_output (Token oref) id (actOutputs g)
  | None, None => actOutputs g
  end.

Definition store_event (g : Graph) (key id : string) (e : AssertionEvent) : Graph :=
  mkGraph (<[id := e]> (assertions g)) (acts g)
    (append_to key id (assertionIndex g))
    (match pr_opaque (ev_producer e) with
     | Some oref => append_to (Token oref) id (producerIndex g)
     | None => producerIndex g
     end)
    (register_output g id e) (actIdentityIndex g)
    (updateRelationIndexes id e (relations g)).

Definition appendAssertionEventWithKey (g : Graph) (e : AssertionEvent) (key : string) : result (Graph * string) :=
  match find_identical g e (bucket (assertionIndex g) key) with
  | Some (Ok id) => Ok (g, id)
  | Some (Err err) => Err err
  | None =>
      let id := fresh_id g key in
      fail_if violates_uses g e with ErrTemporalViolation;
      Ok (store_event g key id e, id)
  end.

Definition AppendAssertionEvent (g : Graph) (e : AssertionEvent) : result (Graph * string) :=
  appendAssertionEventWithKey g e (assertionCanonicalKey e).

Definition GetAssertionEvent (g : Graph) (id : string) : option AssertionEvent := assertions g !! id.
Definition HasAssertionByKey (g : Graph) (key : string) : bool := bool_decide (is_Some (assertionIndex g !! key)).

(** ** Appending an act *)

(** A declared output that is present was produced by another act. *)
Definition output_mismatch (g : Graph) (key outID : string) : bool :=
  match assertions g !! outID with
  | None => false
  | Some ev =>
      match pr_act (ev_producer ev), pr_opaque (ev_producer ev) with
      | Some aid, _ => negb (bool_decide (typed_act g aid = Some key))
      | None, Some oref => negb (bool_decide (Token oref = key))
      | None, None => true
      end
  end.

Definition act_precedes (g : Graph) (u o : string) : bool :=
  match assertions g !! u, assertions g !! o with
  | Some ue, Some oe => (ev_recordTime ue <? ev_recordTime oe)%Z
  | _, _ => true
  end.

Definition AppendAct (g : Graph) (a : Act) : result Graph :=
  let key := actCanonicalKey a in
  match acts g !! key with
  | Some existing => fail_if negb (Act_Equals existing a) with ErrIdentityConflict; Ok g
  | None =>
      fail_if existsb (output_mismatch g key) (DeclaredOutputs a) with ErrProducedByMismatch;
      let outputsSet := DeclaredOutputs a ++ bucket (producerIndex g) key in
      fail_if negb (forallb (fun u => forallb (act_precedes g u) outputsSet) (Uses a)) with ErrTemporalViolation;
      Ok (mkGraph (assertions g) (<[key := a]> (acts g)) (assertionIndex g) (producerIndex g)
        (<[key := list_to_set outputsSet ∪ default ∅ (actOutputs g !! key)]> (actOutputs g))
        (<[IdentityString (Act_Identity a) := key]> (actIdentityIndex g)) (relations g))
  end.

(** [order] is the iteration order of the map of acts. *)
Definition GetActs (order : list (string * Act)) : list Act := map snd order.
Definition GetActOutputs (g : Graph) (actKey : string) : list string :=
  sort_strings (elements (default ∅ (actOutputs g !! actKey))).

(** ** Runs *)
Inductive graph_step (g : Graph) : Graph → Prop :=
| step_event e g' id : wf_event e → AppendAssertionEvent g e = Ok (g', id) → graph_step g g'
| step_act source kind interval uses outputs g' :
    AppendAct g (NewAct source kind interval uses outputs) = Ok g' → graph_step g g'.

Definition graph_reachable (g : Graph) : Prop := rtc graph_step NewGraph g.

(** ** Fresh ids *)
Lemma id_candidate_inj base i j : id_candidate base i = id_candidate base j → i = j.
Proof.
  unfold id_candidate. destruct (Nat.eqb_spec i 0) as [->|Hi], (Nat.eqb_spec j 0) as [->|Hj]; try done.
  - intros H. apply (f_equal String.length) in H. rewrite !str_length_app in H. cbn in H. lia.
  - intros H. apply (f_equal String.length) in H. rewrite !str_length_app in H. cbn in H. lia.
  - intros H. apply str_app_inj_l, str_app_inj_l, itoa_inj in H; lia.
Qed.

Lemma fresh_from_spec g base f : ∀ c,
  assertions g !! fresh_from g base c f = None ∨
  (fresh_from g base c f = id_candidate base (c + f) ∧
   ∀ i, c <= i < c + f → is_Some (assertions g !! id_candidate base i)).
Proof.
  induction f as [|f IH]; intros c; cbn.
  - right. rewrite Nat.add_0_r. split; [done|lia].
  - case_bool_decide as Hc.
    + destruct (IH (S c)) as [|[E H]]; [by left|right]. rewrite E. split; [f_equal; lia|].
      intros i Hi. destruct (decide (i = c)) as [->|]; [done|]. apply H. lia.
    + left. by apply eq_None_not_Some.
Qed.

(** The counter loop always ends on an id that is not in use. *)
Lemma fresh_id_fresh g key : assertions g !! fresh_id g key = None.
Proof.
  unfold fresh_id. set (base := "evt:" +:+ sha256Hex key).
  destruct (fresh_from_spec g base (size (assertions g)) 0) as [|[E H]]; [done|]. rewrite E. cbn.
  apply eq_None_not_Some. intros Hlast.
  set (cs := map (id_candidate base) (seq 0 (S (size (assertions g))))).
  assert (NoDup cs) as Hnd.
  { apply NoDup_fmap_2; [|apply NoDup_seq]. intros i j. apply id_candidate_inj. }
  assert (∀ c, c ∈ cs → c ∈ elements (dom (assertions g))) as Hin.
  { intros c Hc. apply list_elem_of_In, in_map_iff in Hc as (i & <- & Hi). apply in_seq in Hi.
    apply elem_of_elements, elem_of_dom. destruct (decide (i = size (assertions g))) as [->|]; [done|].
    apply H. lia. }
  pose proof (submseteq_length _ _ (NoDup_submseteq _ _ Hnd Hin)) as Hle.
  unfold cs in Hle. rewrite length_map, length_seq in Hle.
  change (length (elements (dom (assertions g)))) with (size (dom (assertions g))) in Hle.
  rewrite size_dom in Hle. lia.
Qed.

Lemma hex_no_byte c s : is_hex false c = false → all_bytes (is_hex false) s = true → has_byte c s = false.
Proof.
  intros Hc. induction s as [|a s IH]; cbn; [done|]. rewrite andb_true_iff. intros [Ha Hs].
  rewrite IH by done. rewrite orb_false_r. apply bool_decide_eq_false. intros ->. congruence.
Qed.

(** A minted id holds no comma. *)
Definition comma : ascii := ",".

Lemma sha256Hex_no_comma s : has_byte comma (sha256Hex s) = false.
Proof. apply hex_no_byte; [done|]. apply hex_encode_hex, sha256_range. Qed.

Lemma candidate_no_comma key c : has_byte comma (id_candidate ("evt:" +:+ sha256Hex key) c) = false.
Proof.
  unfold id_candidate. assert (has_byte comma ("evt:" +:+ sha256Hex key) = false) as Hb
    by (rewrite has_byte_app, sha256Hex_no_comma; done).
  destruct (Nat.eqb c 0); [done|]. rewrite has_byte_app, Hb, has_byte_app. cbn.
  destruct (itoa_spec (Z.of_nat c)) as (_ & _ & Hv); [lia|]. eapply decimal_plain; [|exact Hv]. done.
Qed.

Lemma fresh_from_candidate g base f : ∀ c, ∃ i, fresh_from g base c f = id_candidate base i.
Proof. induction f as [|f IH]; intros c; cbn; [eauto|]. case_bool_decide; eauto. Qed.

Lemma fresh_id_no_comma g key : has_byte comma (fresh_id g key) = false.
Proof.
  unfold fresh_id. destruct (fresh_from_candidate g ("evt:" +:+ sha256Hex key) (size (assertions g)) 0) as [i ->].
  apply candidate_no_comma.
Qed.

(** ** The invariant *)
Record wf_graph (g : Graph) : Prop := {
  wg_events : ∀ id e, assertions g !! id = Some e → wf_event e ∧ has_byte comma id = false;
  wg_indexed : ∀ id e, assertions g !! id = Some e → id ∈ bucket (assertionIndex g) (assertionCanonicalKey e);
  wg_index : ∀ k id, id ∈ bucket (assertionIndex g) k → is_Some (assertions g !! id);
  wg_unique : ∀ i j e f, assertions g !! i = Some e → assertions g !! j = Some f → Event_Equals e f = true → i = j;
  wg_acts : ∀ k a, acts g !! k = Some a → actCanonicalKey a = k;
  wg_typed : ∀ s k, actIdentityIndex g !! s = Some k → ∃ a, acts g !! k = Some a ∧ IdentityString (Act_Identity a) = s
}.

(** Nothing stored is ever changed or removed. *)
Record extends (g g' : Graph) : Prop := {
  ex_assertions : assertions g ⊆ assertions g';
  ex_acts : acts g ⊆ acts g'
}.

#[global] Instance extends_preorder : PreOrder extends.
Proof. split; [done|]. intros g h k [? ?] [? ?]. split; by etrans. Qed.

Lemma wf_NewGraph : wf_graph NewGraph.
Proof. split; unfold NewGraph, bucket; cbn; set_solver by (rewrite ?lookup_empty in *; done). Qed.

Lemma bucket_append k id m k' : bucket (append_to k id m) k' = if decide (k' = k) then bucket m k ++ [id] else bucket m k'.
Proof.
  unfold append_to, bucket at 1. destruct (decide (k' = k)) as [->|Hne]; [by rewrite lookup_insert_eq|].
  by rewrite lookup_insert_ne by done.
Qed.

Lemma elem_of_bucket_append k id m k' x : x ∈ bucket (append_to k id m) k' ↔ x ∈ bucket m k' ∨ (x = id ∧ k' = k).
Proof.
  rewrite bucket_append. destruct (decide (k' = k)) as [->|]; [|naive_solver].
  rewrite elem_of_app, list_elem_of_singleton. naive_solver.
Qed.

(** The scan finds the identical stored event, whatever bucket holds it. *)
Lemma find_identical_Some g e ids r : find_identical g e ids = Some r →
  ∃ id, id ∈ ids ∧ Event_Equals (event_at g id) e = true ∧
    r = if (ev_recordTime (event_at g id) =? ev_recordTime e)%Z then Ok id else Err ErrRecordTimeConflict.
Proof.
  induction ids as [|id ids IH]; cbn; [done|]. destruct (Event_Equals _ e) eqn:E.
  - intros [= <-]. exists id. split_and!; [by left|done|]. by destruct (_ =? _)%Z.
  - intros H. destruct (IH H) as (i & Hi & ?). exists i. split; [by right|done].
Qed.

Lemma find_identical_None g e ids : find_identical g e ids = None ↔
  ∀ id, id ∈ ids → Event_Equals (event_at g id) e = false.
Proof.
  induction ids as [|id ids IH]; cbn.
  - split; [|done]. intros _ id Hid. by apply elem_of_nil in Hid.
  - setoid_rewrite elem_of_cons. destruct (Event_Equals _ e) eqn:E.
    + split; [done|]. intros H. by rewrite (H id) in E by (by left).
    + rewrite IH. naive_solver.
Qed.

Lemma event_at_Some g id e : assertions g !! id = Some e → event_at g id = e.
Proof. unfold event_at. by intros ->. Qed.

(** What an append finds: the stored event identical to it, if there is one. *)
Lemma find_stored g e i f : wf_graph g → wf_event e → assertions g !! i = Some f → Event_Equals f e = true →
  find_identical g e (bucket (assertionIndex g) (assertionCanonicalKey e)) =
    Some (if (ev_recordTime f =? ev_recordTime e)%Z then Ok i else Err ErrRecordTimeConflict).
Proof.
  intros W He Hi Hf. destruct (wg_events g W i f Hi) as [Hwf _].
  destruct (find_identical _ _ _) as [r|] eqn:Er.
  - apply find_identical_Some in Er as (j & Hj & Heq & ->).
    destruct (wg_index g W _ _ Hj) as [f' Hf']. rewrite (event_at_Some _ _ _ Hf') in *.
    destruct (wg_events g W j f' Hf') as [Hwf' _].
    assert (i = j) as ->; [|by simplify_eq].
    apply (wg_unique g W i j f f' Hi Hf').
    apply (Event_Equals_trans f e f'); try done. by apply Event_Equals_sym.
  - exfalso. rewrite find_identical_None in Er. specialize (Er i).
    rewrite (event_at_Some _ _ _ Hi), Hf in Er. discriminate Er.
    rewrite <- (assertionCanonicalKey_equal f e) by done. by apply (wg_indexed g W).
Qed.

Lemma find_none g e : wf_graph g → wf_event e →
  (∀ i f, assertions g !! i = Some f → Event_Equals f e = false) →
  find_identical g e (bucket (assertionIndex g) (assertionCanonicalKey e)) = None.
Proof.
  intros W He H. apply find_identical_None. intros i Hi. destruct (wg_index g W _ _ Hi) as [f Hf].
  rewrite (event_at_Some _ _ _ Hf). by apply (H i).
Qed.

(** ** What the two operations do *)

(** Appending an event, on a well-formed graph: the identical stored event
    decides when there is one; otherwise the event is refused or stored under
    a fresh id. *)
Lemma append_event_cases g e : wf_graph g → wf_event e →
  (∃ i f, assertions g !! i = Some f ∧ Event_Equals f e = true ∧
    AppendAssertionEvent g e = if (ev_recordTime f =? ev_recordTime e)%Z then Ok (g, i) else Err ErrRecordTimeConflict) ∨
  ((∀ i f, assertions g !! i = Some f → Event_Equals f e = false) ∧
    AppendAssertionEvent g e =
      if violates_uses g e then Err ErrTemporalViolation
      else Ok (store_event g (assertionCanonicalKey e) (fresh_id g (assertionCanonicalKey e)) e,
               fresh_id g (assertionCanonicalKey e))).
Proof.
  intros W He. unfold AppendAssertionEvent, appendAssertionEventWithKey.
  destruct (find_identical _ _ _) as [r|] eqn:Er.
  - left. pose proof Er as Er'. apply find_identical_Some in Er as (i & Hi & Heq & ->).
    destruct (wg_index g W _ _ Hi) as [f Hf]. rewrite (event_at_Some _ _ _ Hf) in *.
    exists i, f. split_and!; try done. by destruct (_ =? _)%Z.
  - right. split; [|done]. intros i f Hf. destruct (Event_Equals f e) eqn:E; [|done].
    rewrite (find_stored g e i f) in Er by done. done.
Qed.

Lemma store_event_wf g e : wf_graph g → wf_event e →
  (∀ i f, assertions g !! i = Some f → Event_Equals f e = false) →
  let key := assertionCanonicalKey e in wf_graph (store_event g key (fresh_id g key) e).
Proof.
  intros W He Hnew key. pose proof (fresh_id_fresh g key) as Hfresh. set (id := fresh_id g key) in *.
  split; cbn.
  - intros i f. rewrite lookup_insert_Some. intros [[<- <-]|[_ Hf]].
    + split; [done|]. apply fresh_id_no_comma.
    + by apply (wg_events g W).
  - intros i f. rewrite lookup_insert_Some, elem_of_bucket_append. intros [[<- <-]|[_ Hf]]; [by right|].
    left. by apply (wg_indexed g W).
  - intros k i. rewrite elem_of_bucket_append, lookup_insert_is_Some'. intros [Hi|[-> _]]; [right|by left].
    by apply (wg_index g W k).
  - intros i j f f'. rewrite !lookup_insert_Some. intros [[<- <-]|[_ Hf]] [[<- <-]|[_ Hf']] Heq; [done|..].
    + exfalso. destruct (wg_events g W j f' Hf') as [Hwf' _].
      apply Event_Equals_sym in Heq; [|done..]. by rewrite (Hnew j f' Hf') in Heq.
    + exfalso. by rewrite (Hnew i f Hf) in Heq.
    + by eapply (wg_unique g W).
  - apply (wg_acts g W).
  - apply (wg_typed g W).
Qed.

Lemma store_event_extends g key e : extends g (store_event g key (fresh_id g key) e).
Proof. split; cbn; [|done]. apply insert_subseteq, fresh_id_fresh. Qed.

Lemma append_event_wf g e g' id : wf_graph g → wf_event e → AppendAssertionEvent g e = Ok (g', id) →
  wf_graph g' ∧ extends g g' ∧ ∃ f, assertions g' !! id = Some f ∧ (f = e ∨ Event_Equals f e = true) ∧ ev_recordTime f = ev_recordTime e.
Proof.
  intros W He H. destruct (append_event_cases g e W He) as [(i & f & Hf & Heq & E)|[Hnew E]]; rewrite E in H.
  - destruct (Z.eqb_spec (ev_recordTime f) (ev_recordTime e)); [|done].
    apply Ok_inj in H as [= <- <-]. split_and!; [done..|]. exists f. eauto.
  - destruct (violates_uses g e); [done|]. apply Ok_inj in H as [= <- <-].
    split_and!; [by apply store_event_wf|apply store_event_extends|].
    exists e. cbn. rewrite lookup_insert_eq. eauto.
Qed.

Lemma append_act_wf g a g' : wf_graph g → AppendAct g a = Ok g' → wf_graph g' ∧ extends g g'.
Proof.
  intros W. unfold AppendAct. destruct (acts g !! actCanonicalKey a) as [b|] eqn:Eb; intros H; inv_ok; [done|].
  split; [|split; cbn [assertions acts]; [done|by apply insert_subseteq]].
  split; cbn [assertions acts assertionIndex actIdentityIndex]; try apply W.
  - intros k b. rewrite lookup_insert_Some. intros [[<- <-]|[_ Hb]]; [done|by apply (wg_acts g W)].
  - intros s k. rewrite lookup_insert_Some. intros [[<- <-]|[_ Hs]]; [exists a; by rewrite lookup_insert_eq|].
    destruct (wg_typed g W s k Hs) as (b & Hb & Hs'). exists b. split; [|done].
    rewrite lookup_insert_ne; [done|]. congruence.
Qed.

Lemma graph_step_wf g g' : wf_graph g → graph_step g g' → wf_graph g' ∧ extends g g'.
Proof.
  intros W [e g1 id He H|source kind interval uses outputs g1 H].
  - destruct (append_event_wf g e g1 id W He H) as (? & ? & _). done.
  - by eapply append_act_wf.
Qed.

Lemma graph_steps_wf g g' : wf_graph g → rtc graph_step g g' → wf_graph g' ∧ extends g g'.
Proof.
  intros W H. induction H as [g|g h k Hs H IH]; [done|].
  destruct (graph_step_wf g h W Hs) as [Wh Hgh]. destruct (IH Wh) as [Wk Hhk]. split; [done|]. by etrans.
Qed.

Lemma graph_reachable_wf g : graph_reachable g → wf_graph g.
Proof. intros H. by destruct (graph_steps_wf _ _ wf_NewGraph H). Qed.

(** ** The relation indexes are caches *)

(** The keys one event is filed under, index by index. *)
Definition ref_pair (p : Proposition) : option (IdentityRef * IdentityRef) :=
  match args p with VRef a :: VRef b :: _ => Some (a, b) | _ => None end.
Definition proposition_pair (p : Proposition) : option (Proposition * Proposition) :=
  match args p with VProposition a :: VProposition b :: _ => Some (a, b) | _ => None end.
Definition refs_of (rel : Proposition → bool) (p : Proposition) : list IdentityRef :=
  if rel p then match ref_pair p with Some (a, b) => [a; b] | None => [] end else [].
Definition defeat_refs (p : Proposition) : option (IdentityRef * IdentityRef) :=
  if isDefeatProp p then ref_pair p else None.

Definition target_keys (e : AssertionEvent) : list string :=
  match defeat_refs (Event_Proposition e) with Some (_, t) => [Token t] | None => [] end.
Definition attacker_keys (e : AssertionEvent) : list string :=
  match defeat_refs (Event_Proposition e) with Some (a, _) => [Token a] | None => [] end.
Definition rebuttal_keys (e : AssertionEvent) : list string :=
  let p := Event_Proposition e in
  if isRebuttalProp p then
    match proposition_pair p with
    | Some (a, b) => [CanonicalString (VProposition a); CanonicalString (VProposition b)]
    | None => []
    end
  else [].
Definition subsumption_keys (e : AssertionEvent) : list string := map Token (refs_of isSubsumptionProp (Event_Proposition e)).
Definition incompatibility_keys (e : AssertionEvent) : list string := map Token (refs_of isIncompatibilityProp (Event_Proposition e)).

Definition append_all (ks : list string) (id : string) (m : buckets) : buckets :=
  foldl (fun m k => append_to k id m) m ks.

Lemma is_relation_exclusive t t' p : t ≠ t' → is_relation t p = true → is_relation t' p = false.
Proof.
  unfold is_relation. intros Hne H. bool_simpl. apply andb_false_iff. right. apply bool_decide_eq_false. congruence.
Qed.

Lemma update_filed id e r : updateRelationIndexes id e r =
  mkIndexes (append_all (target_keys e) id (defeatByTarget r)) (append_all (attacker_keys e) id (defeatByAttacker r))
    (append_all (rebuttal_keys e) id (rebuttalByProp r)) (append_all (subsumption_keys e) id (subsumptionByTerm r))
    (append_all (incompatibility_keys e) id (incompatibilityByTerm r)).
Proof.
  unfold updateRelationIndexes, target_keys, attacker_keys, rebuttal_keys, subsumption_keys, incompatibility_keys,
    defeat_refs, refs_of, ref_pair, proposition_pair, isDefeatProp, isRebuttalProp, isSubsumptionProp, isIncompatibilityProp.
  generalize (Event_Proposition e). intros p.
  destruct (is_relation "Defeat" p) eqn:D.
  { rewrite !(is_relation_exclusive "Defeat" _ p) by done.
    destruct (args p) as [|[] [|[] ?]]; destruct r; done. }
  destruct (is_relation "Rebuttal" p) eqn:R.
  { rewrite !(is_relation_exclusive "Rebuttal" _ p) by done.
    destruct (args p) as [|[] [|[] ?]]; destruct r; done. }
  destruct (is_relation "Subsumption" p) eqn:S.
  { rewrite !(is_relation_exclusive "Subsumption" _ p) by done.
    destruct (args p) as [|[] [|[] ?]]; destruct r; done. }
  destruct (is_relation "Incompatibility" p) eqn:I; [|by destruct r].
  destruct (args p) as [|[] [|[] ?]]; destruct r; done.
Qed.

(** How often an event is listed under a key. *)
Definition filed (ks : list string) (k id : string) : list string := replicate (length (filter (.= k) ks)) id.

Lemma bucket_append_all ks id : ∀ m k, bucket (append_all ks id m) k = bucket m k ++ filed ks k id.
Proof.
  unfold filed. induction ks as [|k' ks IH]; intros m k; [by rewrite app_nil_r|].
  change (append_all (k' :: ks) id m) with (append_all ks id (append_to k' id m)). rewrite IH, bucket_append, filter_cons.
  destruct (decide (k = k')) as [->|Hne].
  - rewrite decide_True by done. cbn. by rewrite <- app_assoc.
  - by rewrite decide_False by done.
Qed.

Section one_index.
Context (proj : RelationIndexes → buckets) (keys : AssertionEvent → list string).
Context (Hproj : ∀ id e r, proj (updateRelationIndexes id e r) = append_all (keys e) id (proj r)).

Definition listing (k : string) (order : list (string * AssertionEvent)) : list string :=
  concat (map (fun ie => filed (keys ie.2) k ie.1) order).

Lemma fold_listing order : ∀ r k,
  bucket (proj (foldl (fun r ie => updateRelationIndexes ie.1 ie.2 r) r order)) k = bucket (proj r) k ++ listing k order.
Proof.
  unfold listing. induction order as [|[id e] order IH]; intros r k; cbn; [by rewrite app_nil_r|].
  by rewrite IH, Hproj, bucket_append_all, <- app_assoc.
Qed.

Lemma listing_perm k l l' : l ≡ₚ l' → listing k l ≡ₚ listing k l'.
Proof. intros H. unfold listing. by rewrite H. Qed.

Lemma elem_of_listing k order x : x ∈ listing k order ↔ ∃ e, (x, e) ∈ order ∧ k ∈ keys e.
Proof.
  unfold listing, filed. rewrite list_elem_of_In, in_concat. split.
  - intros (l & Hl & Hx). apply in_map_iff in Hl as ([i e] & <- & Hie). cbn in Hx.
    apply list_elem_of_In in Hx. pose proof (elem_of_replicate_inv _ _ _ Hx) as <-. exists e. split; [by apply list_elem_of_In|].
    destruct (filter (.= k) (keys e)) as [|k' ks] eqn:E; [by apply elem_of_nil in Hx|].
    assert (k' ∈ filter (.= k) (keys e)) as Hk by (rewrite E; left).
    apply list_elem_of_filter in Hk as [-> Hk]. done.
  - intros (e & Hie & Hk). eexists. split.
    + apply in_map_iff. exists (x, e). split; [reflexivity|by apply list_elem_of_In].
    + cbn. assert (k ∈ filter (.= k) (keys e)) as Hf by by apply list_elem_of_filter.
      destruct (filter (.= k) (keys e)); [by apply elem_of_nil in Hf|]. by left.
Qed.

(** The incremental index lists what a rebuild lists. *)
Definition current (g : Graph) : Prop :=
  ∀ k, bucket (proj (relations g)) k ≡ₚ listing k (map_to_list (assertions g)).

Lemma current_step g g' : wf_graph g → current g → graph_step g g' → current g'.
Proof using Hproj.
  intros W C [e g1 id He H|source kind interval uses outputs g1 H] k.
  - destruct (append_event_cases g e W He) as [(i & f & Hf & Heq & E)|[Hnew E]]; rewrite E in H.
    + destruct (_ =? _)%Z; [|done]. apply Ok_inj in H as [= <- <-]. apply C.
    + destruct (violates_uses g e); [done|]. apply Ok_inj in H as [= <- <-]. cbn.
      rewrite Hproj, bucket_append_all. etrans; [apply Permutation_app_tail, C|].
      rewrite (listing_perm k _ _ (map_to_list_insert _ _ e (fresh_id_fresh g (assertionCanonicalKey e)))).
      cbn. apply Permutation_app_comm.
  - unfold AppendAct in H. destruct (acts g !! _); inv_ok; apply C.
Qed.

Lemma current_steps g g' : wf_graph g → current g → rtc graph_step g g' → current g'.
Proof using Hproj.
  intros W C H. induction H as [g|g h k Hs H IH]; [done|].
  destruct (graph_step_wf g h W Hs) as [Wh _]. apply IH; [done|]. exact (current_step g h W C Hs).
Qed.

Lemma current_reachable g : proj no_indexes = ∅ → graph_reachable g → current g.
Proof using Hproj.
  intros H0 H. apply (current_steps NewGraph); [apply wf_NewGraph| |done]. intros k. cbn. by rewrite H0.
Qed.

Lemma rebuild_index g order k : proj no_indexes = ∅ → graph_reachable g → order ≡ₚ map_to_list (assertions g) →
  bucket (proj (relations (RebuildRelationIndexes order g))) k ≡ₚ bucket (proj (relations g)) k ∧
  (∀ x, x ∈ bucket (proj (relations g)) k ↔ ∃ e, assertions g !! x = Some e ∧ k ∈ keys e).
Proof using Hproj.
  intros H0 Hg Ho. pose proof (current_reachable g H0 Hg k) as C. split.
  - cbn. unfold index_all. rewrite fold_listing, H0. unfold bucket at 1. rewrite lookup_empty. cbn.
    rewrite (listing_perm k _ _ Ho). symmetry. exact C.
  - intros x. rewrite C, elem_of_listing. by setoid_rewrite elem_of_map_to_list.
Qed.
End one_index.

(** ** Properties *)

(** C20: the graph is append-only and identifies events: whatever is appended after
    any run, nothing stored changes, and no two stored events are identical. *)
Theorem graph_append_only (g g' : Graph) : graph_reachable g → rtc graph_step g g' →
  (∀ id e, assertions g !! id = Some e → assertions g' !! id = Some e) ∧
  (∀ k a, acts g !! k = Some a → acts g' !! k = Some a) ∧
  (∀ i j e f, assertions g' !! i = Some e → assertions g' !! j = Some f → Event_Equals e f = true → i = j).
Proof.
  intros Hg Hs. pose proof (graph_reachable_wf g Hg) as W. destruct (graph_steps_wf g g' W Hs) as [W' [Ha Hc]].
  split_and!; [..|apply (wg_unique g' W')]; intros ? ? ?; by eapply lookup_weaken.
Qed.

Definition sample_event (source token : string) (uses : option (list string)) (t : time) : AssertionEvent :=
  mkAssertionEvent (NewProducerRefFromAct (Act_Identity (NewAct source ActContact (NewValidTime None None) uses None)))
    (NewProposition (NewIdentityRef "Phase" "p") Actual (NewIdentityRef "Term" token) [] (NewValidTime None None) QuantThisInstance) t.

Lemma sample_wf source token uses t : wf_event (sample_event source token uses t).
Proof. split; cbn; [constructor|done]. Qed.

Definition sample_graph (e : AssertionEvent) : Graph :=
  store_event NewGraph (assertionCanonicalKey e) (fresh_id NewGraph (assertionCanonicalKey e)) e.

Lemma sample_step source token uses t : let e := sample_event source token uses t in
  AppendAssertionEvent NewGraph e = Ok (sample_graph e, fresh_id NewGraph (assertionCanonicalKey e)).
Proof.
  intros e. destruct (append_event_cases NewGraph e wf_NewGraph (sample_wf _ _ _ _)) as [(i & f & Hf & _)|[_ E]];
    [by cbn in Hf; rewrite lookup_empty in Hf|].
  rewrite E. replace (violates_uses NewGraph e) with false; [done|]. unfold violates_uses, typed_act. cbn.
  by rewrite lookup_empty.
Qed.

Lemma graph_append_only_witness : let e := sample_event "s" "T" None 1 in
  assertions (sample_graph e) !! fresh_id NewGraph (assertionCanonicalKey e) = Some e.
Proof.
  intros e. refine (proj1 (graph_append_only (sample_graph e) (sample_graph e) _ (rtc_refl _ _)) _ e _); [|apply lookup_insert_eq].
  apply rtc_once. exact (step_event NewGraph e _ _ (sample_wf _ _ _ _) (sample_step _ _ _ _)).
Defined.

(** The id an append returns is the id of the event for good: after any later
    appends, appending an identical event changes nothing and returns that id
    when it carries the same record time, and is a conflict otherwise. *)
Theorem AppendAssertionEvent_stable (g g' h : Graph) (e e' : AssertionEvent) (id : string) :
  graph_reachable g → wf_event e → wf_event e' →
  AppendAssertionEvent g e = Ok (g', id) → rtc graph_step g' h → Event_Equals e e' = true →
  AppendAssertionEvent h e' =
    if (ev_recordTime e =? ev_recordTime e')%Z then Ok (h, id) else Err ErrRecordTimeConflict.
Proof.
  intros Hg He He' H Hs Heq. pose proof (graph_reachable_wf g Hg) as W.
  destruct (append_event_wf g e g' id W He H) as (W' & _ & f & Hf & Hfe & Hrt).
  destruct (graph_steps_wf g' h W' Hs) as [Wh [Hext _]].
  destruct (wg_events g' W' id f Hf) as [Wf _].
  assert (Event_Equals f e' = true) as Hfe' by (destruct Hfe as [->|]; [done|by apply (Event_Equals_trans f e e')]).
  pose proof (lookup_weaken _ _ _ _ Hf Hext) as Hfh.
  unfold AppendAssertionEvent, appendAssertionEventWithKey.
  rewrite (find_stored h e' id f Wh He' Hfh Hfe'), Hrt. by destruct (_ =? _)%Z.
Qed.

Lemma AppendAssertionEvent_stable_witness : let e := sample_event "s" "T" None 1 in
  AppendAssertionEvent (sample_graph e) (sample_event "s" "T" None 2) = Err ErrRecordTimeConflict.
Proof.
  intros e. exact (AppendAssertionEvent_stable NewGraph (sample_graph e) (sample_graph e) e (sample_event "s" "T" None 2)
    _ (rtc_refl _ _) (sample_wf _ _ _ _) (sample_wf _ _ _ _) (sample_step _ _ _ _) (rtc_refl _ _) eq_refl).
Defined.

(** The relation indexes are caches of the stored events: a rebuild, in
    whatever order the map is read, lists under each key what the incremental
    index lists, and an index lists exactly the events filed under the key. *)
Theorem RebuildRelationIndexes_cache (g : Graph) (order : list (string * AssertionEvent)) (k : string) :
  graph_reachable g → order ≡ₚ map_to_list (assertions g) →
  let h := RebuildRelationIndexes order g in
  (bucket (defeatByTarget (relations h)) k ≡ₚ bucket (defeatByTarget (relations g)) k ∧
   ∀ x, x ∈ bucket (defeatByTarget (relations g)) k ↔ ∃ e, assertions g !! x = Some e ∧ k ∈ target_keys e) ∧
  (bucket (defeatByAttacker (relations h)) k ≡ₚ bucket (defeatByAttacker (relations g)) k ∧
   ∀ x, x ∈ bucket (defeatByAttacker (relations g)) k ↔ ∃ e, assertions g !! x = Some e ∧ k ∈ attacker_keys e) ∧
  (bucket (rebuttalByProp (relations h)) k ≡ₚ bucket (rebuttalByProp (relations g)) k ∧
   ∀ x, x ∈ bucket (rebuttalByProp (relations g)) k ↔ ∃ e, assertions g !! x = Some e ∧ k ∈ rebuttal_keys e) ∧
  (bucket (subsumptionByTerm (relations h)) k ≡ₚ bucket (subsumptionByTerm (relations g)) k ∧
   ∀ x, x ∈ bucket (subsumptionByTerm (relations g)) k ↔ ∃ e, assertions g !! x = Some e ∧ k ∈ subsumption_keys e) ∧
  (bucket (incompatibilityByTerm (relations h)) k ≡ₚ bucket (incompatibilityByTerm (relations g)) k ∧
   ∀ x, x ∈ bucket (incompatibilityByTerm (relations g)) k ↔ ∃ e, assertions g !! x = Some e ∧ k ∈ incompatibility_keys e).
Proof.
  intros Hg Ho h.
  split; [apply (rebuild_index defeatByTarget target_keys); try done; intros; by rewrite update_filed|].
  split; [apply (rebuild_index defeatByAttacker attacker_keys); try done; intros; by rewrite update_filed|].
  split; [apply (rebuild_index rebuttalByProp rebuttal_keys); try done; intros; by rewrite update_filed|].
  split; [apply (rebuild_index subsumptionByTerm subsumption_keys); try done; intros; by rewrite update_filed|].
  apply (rebuild_index incompatibilityByTerm incompatibility_keys); try done; intros; by rewrite update_filed.
Qed.

Lemma RebuildRelationIndexes_cache_witness :
  let g := sample_graph (sample_event "s" "T" None 1) in
  bucket (defeatByTarget (relations (RebuildRelationIndexes (map_to_list (assertions g)) g))) "k" ≡ₚ
  bucket (defeatByTarget (relations g)) "k".
Proof.
  intros g. refine (proj1 (proj1 (RebuildRelationIndexes_cache g _ "k" _ (reflexivity _)))).
  apply rtc_once. exact (step_event NewGraph _ _ _ (sample_wf _ _ _ _) (sample_step _ _ _ _)).
Defined.

(** A new act may not declare an output that is already stored with a typed
    producer, even when that producer is the act itself: the act is indexed
    only after the check. *)
Theorem declared_typed_output_refused (g : Graph) (a : Act) (o : string) (ev : AssertionEvent) (aid : ActIdentity) :
  graph_reachable g → acts g !! actCanonicalKey a = None →
  o ∈ DeclaredOutputs a → assertions g !! o = Some ev → pr_act (ev_producer ev) = Some aid →
  AppendAct g a = Err ErrProducedByMismatch.
Proof.
  intros Hg Hnew Ho Hev Haid. pose proof (graph_reachable_wf g Hg) as W. unfold AppendAct. rewrite Hnew.
  assert (existsb (output_mismatch g (actCanonicalKey a)) (DeclaredOutputs a) = true) as ->; [|done].
  apply existsb_exists. exists o. split; [by apply list_elem_of_In|].
  unfold output_mismatch. rewrite Hev, Haid. apply negb_true_iff, bool_decide_eq_false. intros Ht.
  destruct (wg_typed g W _ _ Ht) as (b & Hb & _). by rewrite Hb in Hnew.
Qed.

(** The order of appends decides whether the record times of uses and outputs
    are compared: an act appended last may use an event recorded after its
    output. *)
Definition late_use : AssertionEvent := sample_event "u" "U" None 10.
Definition late_use_id : string := fresh_id NewGraph (assertionCanonicalKey late_use).
Definition early_output : AssertionEvent := sample_event "s" "E" (Some [late_use_id]) 5.

Theorem temporal_order_evaded : ∃ g id e a, graph_reachable g ∧
  assertions g !! id = Some e ∧ (∃ aid key, pr_act (ev_producer e) = Some aid ∧ typed_act g aid = Some key ∧ acts g !! key = Some a) ∧
  ∃ u use, u ∈ Uses a ∧ assertions g !! u = Some use ∧ (ev_recordTime e < ev_recordTime use)%Z.
Proof.
  set (g1 := sample_graph late_use).
  assert (graph_reachable g1) as R1.
  { apply rtc_once. exact (step_event NewGraph _ _ _ (sample_wf _ _ _ _) (sample_step _ _ _ _)). }
  pose proof (graph_reachable_wf g1 R1) as W1.
  destruct (append_event_cases g1 early_output W1 (sample_wf _ _ _ _)) as [(i & f & Hf & Heq & _)|[Hnew E]].
  { unfold g1, sample_graph in Hf. cbn [store_event assertions] in Hf.
    apply lookup_insert_Some in Hf as [[_ <-]|[_ Hf]]; [|discriminate Hf].
    discriminate Heq. }
  assert (violates_uses g1 early_output = false) as V.
  { unfold violates_uses, typed_act, g1, sample_graph. cbn [store_event actIdentityIndex NewGraph].
    cbn [early_output sample_event ev_producer NewProducerRefFromAct pr_act]. by rewrite lookup_empty. }
  rewrite V in E. set (id := fresh_id g1 (assertionCanonicalKey early_output)) in *.
  set (g2 := store_event g1 (assertionCanonicalKey early_output) id early_output) in *.
  assert (graph_reachable g2) as R2 by (eapply rtc_r; [exact R1|exact (step_event g1 _ _ _ (sample_wf _ _ _ _) E)]).
  set (a := NewAct "s" ActContact (NewValidTime None None) (Some [late_use_id]) None).
  assert (∃ g3, AppendAct g2 a = Ok g3 ∧ assertions g3 = assertions g2 ∧ acts g3 !! actCanonicalKey a = Some a ∧
    actIdentityIndex g3 !! IdentityString (Act_Identity a) = Some (actCanonicalKey a)) as (g3 & E3 & Hass & Hact & Hidx).
  { unfold AppendAct. replace (acts g2 !! actCanonicalKey a) with (None : option Act) by (symmetry; apply lookup_empty).
    assert (DeclaredOutputs a = []) as -> by done.
    replace (bucket (producerIndex g2) (actCanonicalKey a)) with ([] : list string)
      by (unfold bucket, g2, g1, sample_graph; cbn [store_event producerIndex early_output late_use sample_event ev_producer NewProducerRefFromAct pr_opaque NewGraph]; by rewrite lookup_empty).
    rewrite (proj2 (forallb_forall (fun u => forallb (act_precedes g2 u) ([] ++ [])) (Uses a))) by done.
    cbn [negb existsb]. eexists. split; [reflexivity|]. cbn [assertions acts actIdentityIndex].
    split; [done|]. split; apply lookup_insert_eq. }
  exists g3, id, early_output, a. split_and!.
  - eapply rtc_r; [exact R2|exact (step_act g2 _ _ _ _ _ _ E3)].
  - rewrite Hass. apply lookup_insert_eq.
  - exists (Act_Identity a), (actCanonicalKey a). split; [reflexivity|]. split; [exact Hidx|exact Hact].
  - exists late_use_id, late_use. change (Uses a) with [late_use_id].
    split; [apply list_elem_of_here|]. split; [|reflexivity]. rewrite Hass. unfold g2. cbn [store_event assertions].
    rewrite lookup_insert_ne; [apply lookup_insert_eq|]. intros Hid.
    pose proof (fresh_id_fresh g1 (assertionCanonicalKey early_output)) as Hfr. fold id in Hfr. rewrite Hid in Hfr.
    unfold g1, sample_graph in Hfr. cbn [store_event assertions] in Hfr. by rewrite lookup_insert_eq in Hfr.
Qed.
