(* ===== verification/SemanticDerivation.v ===== *)
(** Attacks and candidate derivations of the semantic graph:
    [src/internal/semantic/derivation.go].  The functions take the entries of
    the map of assertions in the order the map is read. *)
From S2P Require Import Prelude GoStd SemanticSnapshot SemanticEvents.

Abbreviation entries := (list (string * AssertionEvent)).

(** ** Ground sets *)

(** [newGroundSetFromSlice] panics on no ids; every caller passes at least one,
    which the model takes apart from the others. *)
Abbreviation groundSet := (gset string).
Definition newGroundSetFromSlice (id : string) (ids : list string) : groundSet := {[id]} ∪ list_to_set ids.
Definition Members (g : groundSet) : list string := sort_strings (elements g).
Definition groundSet_equals (g o : groundSet) : bool :=
  Nat.eqb (size g) (size o) && forallb (fun id => bool_decide (id ∈ o)) (elements g).

Record candidateDerivation := mkDerivation { cd_left : IdentityRef; cd_right : IdentityRef; cd_grounds : groundSet }.
Record attack := mkAttack { attacker : string; target : string; grounds : groundSet }.

#[global] Instance candidateDerivation_eq_dec : EqDecision candidateDerivation.
Proof. solve_decision. Defined.
#[global] Instance attack_eq_dec : EqDecision attack.
Proof. solve_decision. Defined.

(** ** Defeat attacks *)
Fixpoint less_members (gi gj : list string) : bool :=
  match gi, gj with
  | x :: gi, y :: gj => if bool_decide (x = y) then less_members gi gj else string_ltb x y
  | [], _ :: _ => true
  | _, [] => false
  end.
Definition attack_less (a b : attack) : bool :=
  if negb (bool_decide (attacker a = attacker b)) then string_ltb (attacker a) (attacker b)
  else if negb (bool_decide (target a = target b)) then string_ltb (target a) (target b)
  else less_members (Members (grounds a)) (Members (grounds b)).

(** The two identity references a relation event of the kind [rel] names. *)
Definition relation_refs (rel : Proposition → bool) (ev : AssertionEvent) : option (IdentityRef * IdentityRef) :=
  let p := Event_Proposition ev in
  if negb (rel p) then None
  else match args p with VRef a :: VRef b :: _ => Some (a, b) | _ => None end.

Definition defeat_attack (ie : string * AssertionEvent) : option attack :=
  match relation_refs isDefeatProp ie.2 with
  | Some (aRef, tRef) => Some (mkAttack (Token aRef) (Token tRef) (newGroundSetFromSlice ie.1 []))
  | None => None
  end.
Definition EnumerateDefeatAttacks (es : entries) : list attack := sort_by attack_less (omap defeat_attack es).

(** ** Candidate incompatibility derivations *)
Record relation_event := mkRelationEvent { re_id : string; re_left : IdentityRef; re_right : IdentityRef }.

Definition relation_events (rel : Proposition → bool) (es : entries) : list relation_event :=
  omap (fun ie => match relation_refs rel ie.2 with
                  | Some (l, r) => Some (mkRelationEvent ie.1 l r)
                  | None => None
                  end) es.
Definition incompatEvents (es : entries) : list relation_event := relation_events isIncompatibilityProp es.
(** Subsumptions: [re_left] is the sub term, [re_right] the super term. *)
Definition subsumptions (es : entries) : list relation_event := relation_events isSubsumptionProp es.
Definition subsBySuper (subs : list relation_event) (super : string) : list relation_event :=
  filter (fun s => Token (re_right s) = super) subs.

Definition makeGroundKey (gs : groundSet) : string := join "," (Members gs).
Abbreviation resKey := (string * string * string)%type.
Definition derivation_key (d : candidateDerivation) : resKey :=
  (Token (cd_left d), Token (cd_right d), makeGroundKey (cd_grounds d)).

(** The states reached by one subsumption on the left, then on the right. *)
Definition expand_left (subs : list relation_event) (st : candidateDerivation) : list candidateDerivation :=
  map (fun s => mkDerivation (re_left s) (cd_right st) (newGroundSetFromSlice (re_id s) (elements (cd_grounds st))))
    (subsBySuper subs (Token (cd_left st))).
Definition expand_right (subs : list relation_event) (st : candidateDerivation) : list candidateDerivation :=
  map (fun s => mkDerivation (cd_left st) (re_left s) (newGroundSetFromSlice (re_id s) (elements (cd_grounds st))))
    (subsBySuper subs (Token (cd_right st))).
Definition expand (subs : list relation_event) (st : candidateDerivation) : list candidateDerivation :=
  expand_left subs st ++ expand_right subs st.

Record search := mkSearch {
  queue : list candidateDerivation;
  seen : gset resKey;
  results : list candidateDerivation
}.

(** One turn of the loop. *)
Definition search_step (subs : list relation_event) (c : search) : search :=
  match queue c with
  | [] => c
  | st :: rest =>
      if bool_decide (derivation_key st ∈ seen c) then mkSearch rest (seen c) (results c)
      else
        let seen' := {[derivation_key st]} ∪ seen c in
        mkSearch (rest ++ filter (fun st' => derivation_key st' ∉ seen') (expand subs st)) seen' (results c ++ [st])
  end.

(** Up to [p] turns, stopping when the queue is empty. *)
Fixpoint search_run (subs : list relation_event) (p : positive) (c : search) : search :=
  match queue c with
  | [] => c
  | _ =>
      match p with
      | xH => search_step subs c
      | xO p => search_run subs p (search_run subs p c)
      | xI p => search_run subs p (search_run subs p (search_step subs c))
      end
  end.

(** Enough turns for one search: every state is expanded at most once, there
    are no more states than pairs of terms and sets of grounds, and a state
    adds at most two states per subsumption to the queue. *)
Definition term_tokens (incs subs : list relation_event) : list string :=
  map (fun e => Token (re_left e)) incs ++ map (fun e => Token (re_right e)) incs ++ map (fun e => Token (re_left e)) subs.
Definition ground_ids (incs subs : list relation_event) : list string := map re_id incs ++ map re_id subs.
Definition state_bound (incs subs : list relation_event) : Z :=
  let t := Z.of_nat (length (term_tokens incs subs)) in
  (t * t * 2 ^ Z.of_nat (length (ground_ids incs subs)))%Z.
Definition search_fuel (incs subs : list relation_event) : positive :=
  Z.to_pos (state_bound incs subs * (2 * Z.of_nat (length subs) + 1) + 1).

Definition search_from (fuel : positive) (subs : list relation_event) (c : search) (inv : relation_event) : search :=
  search_run subs fuel
    (mkSearch [mkDerivation (re_left inv) (re_right inv) (newGroundSetFromSlice (re_id inv) [])] (seen c) (results c)).

Definition derivation_less (a b : candidateDerivation) : bool :=
  if negb (bool_decide (Token (cd_left a) = Token (cd_left b))) then string_ltb (Token (cd_left a)) (Token (cd_left b))
  else if negb (bool_decide (Token (cd_right a) = Token (cd_right b))) then string_ltb (Token (cd_right a)) (Token (cd_right b))
  else string_ltb (makeGroundKey (cd_grounds a)) (makeGroundKey (cd_grounds b)).

Definition search_all (incs subs : list relation_event) : search :=
  foldl (search_from (search_fuel incs subs) subs) (mkSearch [] ∅ []) incs.

Definition EnumerateCandidateIncompatibilityDerivations (es : entries) : list candidateDerivation :=
  sort_by derivation_less (results (search_all (incompatEvents es) (subsumptions es))).

(** ** The search runs to the end *)
Section searching.
Context (incs subs : list relation_event).

Lemma search_stop n c : queue c = [] → Nat.iter n (search_step subs) c = c.
Proof. intros Hc. induction n as [|n IH]; [done|]. rewrite Nat.iter_succ, IH. unfold search_step. by rewrite Hc. Qed.

Lemma search_run_iter p : ∀ c, search_run subs p c = Nat.iter (Pos.to_nat p) (search_step subs) c.
Proof.
  induction p as [p IH|p IH|]; intros c; cbn [search_run]; destruct (queue c) eqn:Ec; try by rewrite search_stop.
  - rewrite !IH. rewrite <- Nat.iter_add, <- Nat.iter_succ_r. f_equal. lia.
  - rewrite !IH, <- Nat.iter_add. f_equal. lia.
  - done.
Qed.

(** The keys a state may have. *)
Fixpoint sublists (l : list string) : list (list string) :=
  match l with
  | [] => [[]]
  | x :: l => map (cons x) (sublists l) ++ sublists l
  end.

Lemma length_sublists l : Z.of_nat (length (sublists l)) = (2 ^ Z.of_nat (length l))%Z.
Proof.
  induction l as [|x l IH]; cbn [sublists length]; [done|]. rewrite length_app, length_map, Nat2Z.inj_add, IH.
  rewrite Nat2Z.inj_succ, Z.pow_succ_r by lia. lia.
Qed.

Lemma filter_sublist (P : string → Prop) `{∀ x, Decision (P x)} l : filter P l ∈ sublists l.
Proof.
  induction l as [|x l IH]; [by left|]. cbn [sublists]. rewrite filter_cons, elem_of_app.
  destruct (decide (P x)); [left|by right]. apply list_elem_of_In, in_map, list_elem_of_In, IH.
Qed.

Definition ids : list string := ground_ids incs subs.
Definition tokens : list string := term_tokens incs subs.
Definition key_universe : list resKey :=
  list_prod (list_prod tokens tokens) (map (fun l => makeGroundKey (list_to_set l)) (sublists ids)).

Lemma length_universe : Z.of_nat (length key_universe) = state_bound incs subs.
Proof.
  unfold key_universe, state_bound. rewrite !length_prod, length_map, !Nat2Z.inj_mul, length_sublists. done.
Qed.

Definition state_ok (st : candidateDerivation) : Prop :=
  Token (cd_left st) ∈ tokens ∧ Token (cd_right st) ∈ tokens ∧ cd_grounds st ⊆ list_to_set ids.

Lemma state_key_universe st : state_ok st → derivation_key st ∈ key_universe.
Proof.
  intros (Hl & Hr & Hg). unfold derivation_key, key_universe.
  apply list_elem_of_In, in_prod; [apply in_prod; by apply list_elem_of_In|].
  apply in_map_iff. exists (filter (.∈ cd_grounds st) ids). split.
  - f_equal. apply set_eq. intros x. rewrite elem_of_list_to_set, list_elem_of_filter. set_solver.
  - apply list_elem_of_In, filter_sublist.
Qed.

Lemma elem_of_newGroundSet id l x : x ∈ newGroundSetFromSlice id l ↔ x = id ∨ x ∈ l.
Proof. unfold newGroundSetFromSlice. set_solver. Qed.

(** The states one subsumption away. *)
Lemma elem_of_expand st st' : st' ∈ expand subs st ↔ ∃ s, s ∈ subs ∧
  ((Token (re_right s) = Token (cd_left st) ∧ st' = mkDerivation (re_left s) (cd_right st) ({[re_id s]} ∪ cd_grounds st)) ∨
   (Token (re_right s) = Token (cd_right st) ∧ st' = mkDerivation (cd_left st) (re_left s) ({[re_id s]} ∪ cd_grounds st))).
Proof.
  assert (∀ s, newGroundSetFromSlice (re_id s) (elements (cd_grounds st)) = {[re_id s]} ∪ cd_grounds st) as Hg.
  { intros s. unfold newGroundSetFromSlice. by rewrite list_to_set_elements_L. }
  unfold expand, expand_left, expand_right, subsBySuper. rewrite elem_of_app, !list_elem_of_In, !in_map_iff. split.
  - intros [(s & <- & Hs)|(s & <- & Hs)]; apply list_elem_of_In, list_elem_of_filter in Hs as [Ht Hs];
      exists s; rewrite Hg; eauto.
  - intros (s & Hs & [[Ht ->]|[Ht ->]]); [left|right]; exists s; (split; [by rewrite Hg|]);
      by apply list_elem_of_In, list_elem_of_filter.
Qed.

Lemma length_expand st : length (expand subs st) <= 2 * length subs.
Proof.
  unfold expand, expand_left, expand_right, subsBySuper. rewrite length_app, !length_map.
  pose proof (length_filter (fun s => Token (re_right s) = Token (cd_left st)) subs).
  pose proof (length_filter (fun s => Token (re_right s) = Token (cd_right st)) subs). lia.
Qed.

Lemma expand_ok st st' : state_ok st → st' ∈ expand subs st → state_ok st'.
Proof.
  intros (Hl & Hr & Hg) (s & Hs & H)%elem_of_expand.
  assert (Token (re_left s) ∈ tokens) as Ht.
  { unfold tokens, term_tokens. rewrite !elem_of_app. right. right.
    apply list_elem_of_In, (in_map (fun e => Token (re_left e))), list_elem_of_In, Hs. }
  assert (re_id s ∈ ids) as Hid.
  { unfold ids, ground_ids. rewrite elem_of_app. right. apply list_elem_of_In, in_map, list_elem_of_In, Hs. }
  destruct H as [[_ ->]|[_ ->]]; unfold state_ok; cbn; (split_and!; [done..|]);
    (apply union_subseteq; split; [|done]; intros x Hx; apply elem_of_singleton in Hx as ->; by apply elem_of_list_to_set).
Qed.

Record search_ok (c : search) : Prop := {
  so_queue : Forall state_ok (queue c);
  so_results : Forall state_ok (results c);
  so_seen : ∀ k, k ∈ seen c ↔ ∃ st, st ∈ results c ∧ derivation_key st = k
}.

Lemma seen_bound c : search_ok c → (Z.of_nat (size (seen c)) <= state_bound incs subs)%Z.
Proof.
  intros [_ Hr Hs]. rewrite <- length_universe. apply Nat2Z.inj_le.
  change (size (seen c)) with (length (elements (seen c))). apply submseteq_length, NoDup_submseteq; [apply NoDup_elements|].
  intros k Hk. apply elem_of_elements, Hs in Hk as (st & Hst & <-). apply state_key_universe.
  rewrite Forall_forall in Hr. auto.
Qed.

Lemma search_step_ok c : search_ok c → search_ok (search_step subs c).
Proof.
  intros [Hq Hr Hs]. unfold search_step. destruct (queue c) as [|st rest] eqn:Eq; [by split; rewrite ?Eq|].
  inversion Hq as [|?? Hst Hrest]; subst. case_bool_decide; [by split|]. split; cbn.
  - apply Forall_app. split; [done|]. rewrite Forall_forall. intros st' Hst'.
    apply list_elem_of_filter in Hst' as [_ Hst']. by apply (expand_ok st).
  - apply Forall_app. split; [done|]. by constructor.
  - intros k. rewrite elem_of_union, elem_of_singleton, Hs. setoid_rewrite elem_of_app.
    setoid_rewrite list_elem_of_singleton. naive_solver.
Qed.

Definition measure (c : search) : Z :=
  ((state_bound incs subs - Z.of_nat (size (seen c))) * (2 * Z.of_nat (length subs) + 1) + Z.of_nat (length (queue c)))%Z.

Lemma search_step_measure c : search_ok c → queue c ≠ [] → (measure (search_step subs c) < measure c)%Z.
Proof.
  intros Hok Hne. pose proof (search_step_ok c Hok) as Hok'. apply seen_bound in Hok'. revert Hok'.
  unfold measure, search_step. destruct (queue c) as [|st rest] eqn:Eq; [done|]. cbn [length].
  case_bool_decide as Hseen; cbn [seen queue]; [lia|].
  rewrite size_union by set_solver. rewrite size_singleton, length_app. intros Hb.
  pose proof (length_filter (fun st' => derivation_key st' ∉ {[derivation_key st]} ∪ seen c) (expand subs st)).
  pose proof (length_expand st). nia.
Qed.

Lemma search_iter_ends n : ∀ c, search_ok c → (measure c <= Z.of_nat n)%Z →
  search_ok (Nat.iter n (search_step subs) c) ∧ queue (Nat.iter n (search_step subs) c) = [].
Proof.
  induction n as [|n IH]; intros c Hok Hm.
  - split; [done|]. cbn. destruct (queue c) as [|st rest] eqn:Eq; [done|]. exfalso.
    pose proof (seen_bound c Hok). unfold measure in Hm. rewrite Eq in Hm. cbn [length] in Hm. nia.
  - destruct (queue c) as [|st rest] eqn:Eq; [rewrite search_stop by done; done|].
    rewrite Nat.iter_succ_r. apply IH; [by apply search_step_ok|].
    pose proof (search_step_measure c Hok ltac:(by rewrite Eq)). lia.
Qed.

Lemma search_run_ends c : search_ok c → length (queue c) <= 1 →
  search_ok (search_run subs (search_fuel incs subs) c) ∧ queue (search_run subs (search_fuel incs subs) c) = [].
Proof.
  intros Hok Hq. rewrite search_run_iter. apply search_iter_ends; [done|].
  rewrite positive_nat_Z. unfold search_fuel, measure.
  assert (0 <= state_bound incs subs)%Z by (rewrite <- length_universe; lia).
  rewrite Z2Pos.id by nia. nia.
Qed.

(** ** What the search finds *)

(** A set of stored events from which an incompatibility of two terms follows:
    one incompatibility event, and the subsumption events that carry it down to
    the two terms. *)
Inductive derives : string → string → groundSet → Prop :=
| derives_base i : i ∈ incs → derives (Token (re_left i)) (Token (re_right i)) {[re_id i]}
| derives_left r gs s : s ∈ subs → derives (Token (re_right s)) r gs → derives (Token (re_left s)) r ({[re_id s]} ∪ gs)
| derives_right l gs s : s ∈ subs → derives l (Token (re_right s)) gs → derives l (Token (re_left s)) ({[re_id s]} ∪ gs).

Definition derived (st : candidateDerivation) : Prop :=
  derives (Token (cd_left st)) (Token (cd_right st)) (cd_grounds st).

Lemma expand_derived st st' : derived st → st' ∈ expand subs st → derived st'.
Proof.
  unfold derived. intros Hd (s & Hs & [[Ht ->]|[Ht ->]])%elem_of_expand; cbn; constructor; try done; by rewrite Ht.
Qed.

Definition pending (c : search) (st : candidateDerivation) : Prop := derivation_key st ∈ seen c ∨ st ∈ queue c.

Record search_inv (c : search) : Prop := {
  si_ok : search_ok c;
  si_queue : Forall derived (queue c);
  si_results : Forall derived (results c);
  si_closed : ∀ st st', st ∈ results c → st' ∈ expand subs st → pending c st'
}.

Lemma search_step_pending c st : pending c st → pending (search_step subs c) st.
Proof.
  unfold pending, search_step. destruct (queue c) as [|st0 rest] eqn:Eq; [by rewrite Eq|].
  case_bool_decide as Hs; cbn; rewrite ?elem_of_cons, ?elem_of_app; set_solver.
Qed.

Lemma search_step_inv c : search_inv c → search_inv (search_step subs c).
Proof.
  intros [Hok Hq Hr Hc]. split; [by apply search_step_ok|..].
  - unfold search_step. destruct (queue c) as [|st rest] eqn:Eq; [by rewrite Eq|].
    inversion Hq as [|?? Hst Hrest]; subst. case_bool_decide; [done|]. cbn. apply Forall_app. split; [done|].
    rewrite Forall_forall. intros st' Hst'. apply list_elem_of_filter in Hst' as [_ Hst']. by apply (expand_derived st).
  - unfold search_step. destruct (queue c) as [|st rest] eqn:Eq; [done|].
    inversion Hq as [|?? Hst Hrest]; subst. case_bool_decide; [done|]. cbn. apply Forall_app. split; [done|by constructor].
  - intros st st' Hst Hst'. destruct (queue c) as [|st0 rest] eqn:Eq.
    { apply search_step_pending. apply (Hc st); [|done]. revert Hst. unfold search_step. by rewrite Eq. }
    destruct (decide (st ∈ results c)) as [Hin|Hnew]; [by apply search_step_pending, (Hc st)|].
    revert Hst. unfold pending, search_step. rewrite Eq. case_bool_decide as Hs; cbn; [by intros ?|].
    rewrite elem_of_app, list_elem_of_singleton. intros [?| ->]; [done|].
    destruct (decide (derivation_key st' ∈ ({[derivation_key st0]} ∪ seen c : gset resKey))) as [|Hns]; [by left|right].
    rewrite elem_of_app. right. by apply list_elem_of_filter.
Qed.

Lemma search_iter_inv n c : search_inv c → search_inv (Nat.iter n (search_step subs) c) ∧
  (∀ st, pending c st → pending (Nat.iter n (search_step subs) c) st).
Proof.
  intros Hc. induction n as [|n [IH1 IH2]]; [done|]. rewrite Nat.iter_succ. split; [by apply search_step_inv|].
  intros st Hst. by apply search_step_pending, IH2.
Qed.

(** The state a search starts from. *)
Definition base_state (i : relation_event) : candidateDerivation :=
  mkDerivation (re_left i) (re_right i) (newGroundSetFromSlice (re_id i) []).

Lemma base_state_ok i : i ∈ incs → state_ok (base_state i) ∧ derived (base_state i).
Proof.
  intros Hi. apply list_elem_of_In in Hi as Hin. split; [split_and!|]; cbn.
  - unfold tokens, term_tokens. rewrite elem_of_app. left. apply list_elem_of_In. by apply (in_map (fun e => Token (re_left e))).
  - unfold tokens, term_tokens. rewrite !elem_of_app. right. left. apply list_elem_of_In. by apply (in_map (fun e => Token (re_right e))).
  - intros x Hx%elem_of_newGroundSet. apply elem_of_list_to_set. unfold ids, ground_ids. rewrite elem_of_app. left.
    destruct Hx as [->|Hx]; [|by apply elem_of_nil in Hx]. by apply list_elem_of_In, in_map.
  - unfold derived. cbn. unfold newGroundSetFromSlice. cbn. rewrite union_empty_r_L. by constructor.
Qed.

Lemma search_from_inv c i : i ∈ incs → search_inv c → queue c = [] →
  let c' := search_from (search_fuel incs subs) subs c i in
  search_inv c' ∧ queue c' = [] ∧ derivation_key (base_state i) ∈ seen c' ∧ (∀ k, k ∈ seen c → k ∈ seen c').
Proof.
  intros Hi [[_ Hro Hso] _ Hr Hc] Hq c'. destruct (base_state_ok i Hi) as [Hok Hd].
  set (c0 := mkSearch [base_state i] (seen c) (results c)).
  assert (search_inv c0) as Hinv.
  { split; cbn; [split; cbn; [by constructor|done..]|by constructor|done|].
    intros st st' Hst Hst'. destruct (Hc st st' Hst Hst') as [H|H]; [by left|]. rewrite Hq in H. by apply elem_of_nil in H. }
  destruct (search_run_ends c0 (si_ok _ Hinv)) as [_ Hend]; [cbn; lia|].
  change (search_run subs (search_fuel incs subs) c0) with c' in Hend.
  assert (c' = Nat.iter (Pos.to_nat (search_fuel incs subs)) (search_step subs) c0) as Ec by apply search_run_iter.
  destruct (search_iter_inv (Pos.to_nat (search_fuel incs subs)) c0 Hinv) as [Hinv' Hpend]. rewrite <- Ec in *.
  assert (∀ st, pending c' st → derivation_key st ∈ seen c') as Hdone.
  { intros st [H|H]; [done|]. rewrite Hend in H. by apply elem_of_nil in H. }
  split_and!; [done|done|apply Hdone, Hpend; right; by left|].
  intros k Hk. apply Hso in Hk as Hk'. destruct Hk' as (st & Hst & <-). apply Hdone, Hpend. by left.
Qed.

Lemma search_all_inv : search_inv (search_all incs subs) ∧ queue (search_all incs subs) = [] ∧
  (∀ i, i ∈ incs → derivation_key (base_state i) ∈ seen (search_all incs subs)).
Proof.
  unfold search_all.
  assert (∀ l c, (∀ i, i ∈ l → i ∈ incs) → search_inv c → queue c = [] →
    let c' := foldl (search_from (search_fuel incs subs) subs) c l in
    search_inv c' ∧ queue c' = [] ∧ (∀ i, i ∈ l → derivation_key (base_state i) ∈ seen c') ∧ (∀ k, k ∈ seen c → k ∈ seen c')) as H.
  { intros l. induction l as [|i l IH]; intros c Hl Hinv Hq; cbn.
    - split_and!; try done. intros i Hi. by apply elem_of_nil in Hi.
    - destruct (search_from_inv c i) as (H1 & H2 & H3 & H4); [apply Hl; by left|done..|].
      destruct (IH (search_from (search_fuel incs subs) subs c i)) as (H5 & H6 & H7 & H8); [intros; apply Hl; by right|done..|].
      split_and!; try done; [|auto]. intros j Hj. apply elem_of_cons in Hj as [->|Hj]; auto. }
  destruct (H incs (mkSearch [] ∅ [])) as (H1 & H2 & H3 & _); [done| |done|done].
  split; cbn; [split; cbn; [constructor..|]|constructor..|].
  - intros k. split; [set_solver|]. intros (st & Hst & _). by apply elem_of_nil in Hst.
  - intros st st' Hst. by apply elem_of_nil in Hst.
Qed.

(** Keys of sets of ids without commas are sets. *)
Definition key_comma : ascii := ",".
Lemma makeGroundKey_inj gs gs' : gs ≠ ∅ → gs' ≠ ∅ →
  (∀ x, x ∈ gs → has_byte key_comma x = false) → (∀ x, x ∈ gs' → has_byte key_comma x = false) →
  makeGroundKey gs = makeGroundKey gs' → gs = gs'.
Proof.
  intros Hne Hne' Hc Hc' H. unfold makeGroundKey in H.
  assert (∀ g : groundSet, g ≠ ∅ → (∀ x, x ∈ g → has_byte key_comma x = false) →
    split_on key_comma (join "," (Members g)) = Members g) as Hsplit.
  { intros g Hg Hx. apply split_on_join.
    - intros E. apply Hg, set_eq. intros x. rewrite <- elem_of_elements, <- (elem_of_sort_by string_ltb).
      unfold Members in E. rewrite E. set_solver.
    - apply Forall_forall. intros x Hm. apply Hx. unfold Members in Hm. rewrite elem_of_sort_by in Hm. by apply elem_of_elements. }
  apply (f_equal (split_on key_comma)) in H. rewrite (Hsplit gs Hne Hc), (Hsplit gs' Hne' Hc') in H.
  apply set_eq. intros x. rewrite <- (elem_of_elements gs), <- (elem_of_elements gs').
  rewrite <- (elem_of_sort_by string_ltb x (elements gs)), <- (elem_of_sort_by string_ltb x (elements gs')).
  unfold Members in H. by rewrite H.
Qed.

Lemma derives_grounds l r gs : derives l r gs → gs ≠ ∅ ∧ gs ⊆ list_to_set ids.
Proof.
  assert (∀ i, i ∈ incs → re_id i ∈ ids) as Hi.
  { intros i H. unfold ids, ground_ids. rewrite elem_of_app. left. by apply list_elem_of_In, in_map, list_elem_of_In. }
  assert (∀ s, s ∈ subs → re_id s ∈ ids) as Hs.
  { intros s H. unfold ids, ground_ids. rewrite elem_of_app. right. by apply list_elem_of_In, in_map, list_elem_of_In. }
  induction 1 as [i H|r gs s H _ [_ IH]|l gs s H _ [_ IH]]; (split; [set_solver|]);
    intros x; rewrite elem_of_list_to_set; rewrite ?elem_of_union, elem_of_singleton.
  - intros ->. auto.
  - intros [->|Hx]; [auto|]. by apply IH, elem_of_list_to_set in Hx.
  - intros [->|Hx]; [auto|]. by apply IH, elem_of_list_to_set in Hx.
Qed.

(** Every derivation is found, and nothing else. *)
Lemma search_finds : (∀ x, x ∈ ids → has_byte key_comma x = false) →
  ∀ l r gs, derives l r gs ↔
    ∃ d, d ∈ results (search_all incs subs) ∧ Token (cd_left d) = l ∧ Token (cd_right d) = r ∧ cd_grounds d = gs.
Proof.
  intros Hids l r gs. destruct search_all_inv as ([[_ Hro Hso] _ Hres Hclosed] & Hq & Hbase).
  assert (∀ l r gs, derives l r gs → ∀ x, x ∈ gs → has_byte key_comma x = false) as Hplain.
  { intros l' r' gs' Hd x Hx. apply Hids. apply derives_grounds in Hd as [_ Hd]. by apply Hd, elem_of_list_to_set in Hx. }
  assert (∀ st, derived st → derivation_key st ∈ seen (search_all incs subs) → ∃ d, d ∈ results (search_all incs subs) ∧
    Token (cd_left d) = Token (cd_left st) ∧ Token (cd_right d) = Token (cd_right st) ∧ cd_grounds d = cd_grounds st) as Hfound.
  { intros st Hst Hkey. apply Hso in Hkey as (d & Hd & Ek). exists d. unfold derivation_key in Ek.
    injection Ek as El Er Eg. split_and!; try done. rewrite Forall_forall in Hres. specialize (Hres d Hd).
    apply makeGroundKey_inj; try done; [by apply (derives_grounds _ _ _ Hres)|by apply (derives_grounds _ _ _ Hst)|..];
      intros x; by eapply Hplain. }
  split.
  - induction 1 as [i H|r gs s H Hd (d & Hdin & Hl & Hr & Hg)|l gs s H Hd (d & Hdin & Hl & Hr & Hg)].
    + destruct (Hfound (base_state i)) as (d & ? & ? & ? & Hg); [by apply base_state_ok|by apply Hbase|].
      exists d. split_and!; try done. rewrite Hg. cbn. unfold newGroundSetFromSlice. cbn. by rewrite union_empty_r_L.
    + destruct (Hfound (mkDerivation (re_left s) (cd_right d) ({[re_id s]} ∪ cd_grounds d))) as (d' & ? & ? & ? & ?).
      * unfold derived. cbn. rewrite Hr, Hg. by constructor.
      * destruct (Hclosed d (mkDerivation (re_left s) (cd_right d) ({[re_id s]} ∪ cd_grounds d)) Hdin) as [|Hp]; [|done|].
        { apply elem_of_expand. exists s. split; [done|]. left. by rewrite Hl. }
        rewrite Hq in Hp. by apply elem_of_nil in Hp.
      * exists d'. cbn in *. split_and!; congruence.
    + destruct (Hfound (mkDerivation (cd_left d) (re_left s) ({[re_id s]} ∪ cd_grounds d))) as (d' & ? & ? & ? & ?).
      * unfold derived. cbn. rewrite Hl, Hg. by constructor.
      * destruct (Hclosed d (mkDerivation (cd_left d) (re_left s) ({[re_id s]} ∪ cd_grounds d)) Hdin) as [|Hp]; [|done|].
        { apply elem_of_expand. exists s. split; [done|]. right. by rewrite Hr. }
        rewrite Hq in Hp. by apply elem_of_nil in Hp.
      * exists d'. cbn in *. split_and!; congruence.
  - intros (d & Hd & <- & <- & <-). rewrite Forall_forall in Hres. by apply Hres.
Qed.
End searching.

(** ** The order of attacks *)
Section by_string_first.
Context {A : Type} (f : A → string) (rest : A → A → bool) `{!StrictWeak rest}.
Definition string_first (a b : A) : bool :=
  if negb (bool_decide (f a = f b)) then string_ltb (f a) (f b) else rest a b.

#[global] Instance string_first_weak : StrictWeak string_first.
Proof.
  split; unfold string_first.
  - intros x y. destruct (bool_decide_reflect (f x = f y)) as [E|E]; cbn.
    + rewrite bool_decide_eq_true_2 by done. cbn. apply less_asym.
    + rewrite bool_decide_eq_false_2 by congruence. cbn. apply less_asym.
  - intros x y z. destruct (bool_decide_reflect (f x = f y)) as [E1|E1], (bool_decide_reflect (f y = f z)) as [E2|E2]; cbn.
    + rewrite bool_decide_eq_true_2 by congruence. apply less_negtrans.
    + rewrite bool_decide_eq_false_2 by congruence. cbn. by rewrite E1.
    + rewrite bool_decide_eq_false_2 by congruence. cbn. by rewrite E2.
    + intros H1 H2. pose proof (less_negtrans (f x) (f y) (f z) H1 H2) as H3.
      destruct (bool_decide_reflect (f x = f z)) as [E3|E3]; [|done]. cbn. exfalso. apply E1.
      rewrite <- E3 in H2. by apply less_total.
Qed.

Lemma string_first_eq x y : string_first x y = false → string_first y x = false →
  f x = f y ∧ rest x y = false ∧ rest y x = false.
Proof.
  unfold string_first. destruct (bool_decide_reflect (f x = f y)) as [E|E]; cbn.
  - by rewrite bool_decide_eq_true_2 by done.
  - rewrite bool_decide_eq_false_2 by congruence. cbn. intros H1 H2. by destruct E; apply less_total.
Qed.
End by_string_first.

#[global] Instance less_members_total : TotalLess less_members.
Proof.
  split; [split|].
  - intros x. induction x as [|a x IH]; intros [|b y]; cbn; try done.
    destruct (bool_decide_reflect (a = b)) as [->|E]; [rewrite bool_decide_eq_true_2 by done; apply IH|].
    rewrite bool_decide_eq_false_2 by congruence. apply less_asym.
  - intros x. induction x as [|a x IH]; intros [|b y] [|c z]; cbn; try done.
    destruct (bool_decide_reflect (a = b)) as [->|E1], (bool_decide_reflect (b = c)) as [->|E2].
    + apply IH.
    + by intros.
    + by rewrite bool_decide_eq_false_2 by done.
    + intros H1 H2. pose proof (less_negtrans a b c H1 H2) as H3.
      destruct (bool_decide_reflect (a = c)) as [->|E3]; [|done]. exfalso. apply E1. by apply less_total.
  - intros x. induction x as [|a x IH]; intros [|b y]; cbn; try done.
    destruct (bool_decide_reflect (a = b)) as [->|E].
    + rewrite bool_decide_eq_true_2 by done. intros. f_equal. auto.
    + rewrite bool_decide_eq_false_2 by congruence. intros H1 H2. by destruct E; apply less_total.
Qed.

Lemma attack_less_lex a b : attack_less a b =
  string_first attacker (string_first target (less_on (fun a => Members (grounds a)) less_members)) a b.
Proof. done. Qed.

#[global] Instance attack_less_total : TotalLess attack_less.
Proof.
  assert (StrictWeak (string_first attacker (string_first target (less_on (fun a => Members (grounds a)) less_members)))) as W
    by apply _.
  split; [exact W|]. intros a b Hab Hba. rewrite attack_less_lex in Hab, Hba.
  apply string_first_eq in Hab as (H1 & Hab1 & Hba1); [|done].
  apply string_first_eq in Hab1 as (H2 & Hab2 & Hba2); [|done].
  unfold less_on in Hab2, Hba2. pose proof (less_total _ _ Hab2 Hba2) as H3.
  destruct a as [x y g], b as [x' y' g']; cbn in *. subst. f_equal. apply set_eq. intros z.
  rewrite <- (elem_of_elements g), <- (elem_of_elements g').
  rewrite <- (elem_of_sort_by string_ltb z (elements g)), <- (elem_of_sort_by string_ltb z (elements g')).
  unfold Members in H3. by rewrite H3.
Qed.

Lemma elem_of_omap {A B} (f : A → option B) (l : list A) (y : B) : y ∈ omap f l ↔ ∃ x, x ∈ l ∧ f x = Some y.
Proof. apply list_elem_of_omap. Qed.

Lemma relation_refs_Some rel ev a b : relation_refs rel ev = Some (a, b) ↔
  rel (Event_Proposition ev) = true ∧ ∃ rest, args (Event_Proposition ev) = VRef a :: VRef b :: rest.
Proof.
  unfold relation_refs. generalize (Event_Proposition ev). intros p.
  destruct (rel p); cbn [negb]; [|split; [discriminate|intros [H _]; discriminate H]].
  destruct (args p) as [|[] [|[] ?]]; split.
  all: try (intros H; discriminate H).
  all: try (intros (_ & rest & H); discriminate H).
  - intros H. injection H as -> ->. split; [done|]. by eexists.
  - intros (_ & rest & H). congruence.
Qed.

Lemma elem_of_relation_events rel es x l r : mkRelationEvent x l r ∈ relation_events rel es ↔
  ∃ ev, (x, ev) ∈ es ∧ relation_refs rel ev = Some (l, r).
Proof.
  unfold relation_events. rewrite elem_of_omap. split.
  - intros ([y ev] & Hin & H). cbn in H. destruct (relation_refs rel ev) as [[l' r']|] eqn:E; [|done].
    injection H as -> -> ->. eauto.
  - intros (ev & Hin & H). exists (x, ev). cbn. by rewrite H.
Qed.

Lemma relation_event_stored rel es s : s ∈ relation_events rel es → ∃ ev, (re_id s, ev) ∈ es.
Proof. destruct s as [x l r]. intros (ev & H & _)%elem_of_relation_events. eauto. Qed.

Lemma ground_ids_stored es x : x ∈ ids (incompatEvents es) (subsumptions es) → ∃ ev, (x, ev) ∈ es.
Proof.
  unfold ids, ground_ids, incompatEvents, subsumptions. rewrite elem_of_app, !list_elem_of_In, !in_map_iff.
  intros [(s & <- & Hs)|(s & <- & Hs)]; apply list_elem_of_In in Hs; by eapply relation_event_stored.
Qed.

(** The derivations enumerated are exactly the sets of stored events from which
    an incompatibility follows. *)
Definition incompatibility_derivable (es : entries) : string → string → groundSet → Prop :=
  derives (incompatEvents es) (subsumptions es).

Lemma derivations_found es : (∀ x ev, (x, ev) ∈ es → has_byte key_comma x = false) → ∀ l r gs,
  incompatibility_derivable es l r gs ↔
    ∃ d, d ∈ EnumerateCandidateIncompatibilityDerivations es ∧ Token (cd_left d) = l ∧ Token (cd_right d) = r ∧ cd_grounds d = gs.
Proof.
  intros H l r gs. unfold incompatibility_derivable, EnumerateCandidateIncompatibilityDerivations.
  setoid_rewrite elem_of_sort_by. apply search_finds. intros x (ev & Hx)%ground_ids_stored. by eapply H.
Qed.

(** C19: the enumeration of candidate derivations ends with an empty queue, and finds
    exactly the derivations: one incompatibility event carried down by
    subsumption events, cycles of subsumptions included. *)
Theorem EnumerateCandidateIncompatibilityDerivations_exact (es : entries) :
  (∀ x ev, (x, ev) ∈ es → has_byte key_comma x = false) →
  queue (search_all (incompatEvents es) (subsumptions es)) = [] ∧
  (∀ l r gs, incompatibility_derivable es l r gs ↔
    ∃ d, d ∈ EnumerateCandidateIncompatibilityDerivations es ∧ Token (cd_left d) = l ∧ Token (cd_right d) = r ∧ cd_grounds d = gs).
Proof. intros H. split; [apply search_all_inv|by apply derivations_found]. Qed.

Definition sample_relation (p : Proposition) : AssertionEvent := mkAssertionEvent (mkProducerRef None None) p 1.
Definition sample_entries : entries :=
  [("i", sample_relation (NewIncompatibilityProposition (NewIdentityRef "Term" "A") (NewIdentityRef "Term" "B") (NewValidTime None None)));
   ("s", sample_relation (NewSubsumptionProposition (NewIdentityRef "Term" "C") (NewIdentityRef "Term" "A") (NewValidTime None None)));
   ("t", sample_relation (NewSubsumptionProposition (NewIdentityRef "Term" "A") (NewIdentityRef "Term" "C") (NewValidTime None None)))].

Example sample_derivations :
  map derivation_key (EnumerateCandidateIncompatibilityDerivations sample_entries) =
    [("A", "B", "i"); ("A", "B", "i,s,t"); ("C", "B", "i,s"); ("C", "B", "i,s,t")].
Proof. vm_compute. reflexivity. Qed.

Lemma EnumerateCandidateIncompatibilityDerivations_exact_witness :
  incompatibility_derivable sample_entries "C" "B" {["i"; "s"]} ↔
    ∃ d, d ∈ EnumerateCandidateIncompatibilityDerivations sample_entries ∧
      Token (cd_left d) = "C" ∧ Token (cd_right d) = "B" ∧ cd_grounds d = {["i"; "s"]}.
Proof.
  refine (proj2 (EnumerateCandidateIncompatibilityDerivations_exact sample_entries _) "C" "B" {["i"; "s"]}).
  intros x ev Hx. repeat (apply elem_of_cons in Hx as [[= -> _]|Hx]; [reflexivity|]). by apply elem_of_nil in Hx.
Defined.

(** The defeat attacks do not depend on the order in which the map of
    assertions is read. *)
Theorem EnumerateDefeatAttacks_deterministic (es es' : entries) : es ≡ₚ es' →
  EnumerateDefeatAttacks es = EnumerateDefeatAttacks es'.
Proof. intros H. unfold EnumerateDefeatAttacks. apply sort_by_unique; [apply _|]. by rewrite H. Qed.
