(* ===== verification/SemanticBelief.v ===== *)
(** Belief evaluation over the semantic graph: [src/internal/semantic/belief.go]
    and [least_fixed_point.go].  Candidate attacks, the operator phi on
    labellings, and the iteration to its least fixed point.  The entries of the
    map of assertions are read in the order of [map_to_list]; what the
    definitions read of the attacks does not depend on that order. *)
From S2P Require Import Prelude GoStd SemanticSnapshot SemanticEvents SemanticGraph SemanticDerivation.

(** ** Labellings *)
Inductive beliefStatus := beliefUndecided | beliefIn | beliefOut.

#[global] Instance beliefStatus_eq_dec : EqDecision beliefStatus.
Proof. solve_decision. Defined.

Definition status_String (b : beliefStatus) : string :=
  match b with beliefUndecided => "undecided" | beliefIn => "in" | beliefOut => "out" end.

Abbreviation Labelling := (gmap string beliefStatus).
Definition NewLabellingFromMap (src : Labelling) : Labelling := src.
Definition BottomLabelling : Labelling := ∅.
Definition Lookup (L : Labelling) (id : string) : beliefStatus := default beliefUndecided (L !! id).

Definition statusLessOrEqual (a b : beliefStatus) : bool :=
  bool_decide (a = b)
  || (bool_decide (a = beliefUndecided) && (bool_decide (b = beliefIn) || bool_decide (b = beliefOut))).

(** A nil universe stands for the keys of the two labellings. *)
Definition compared (L o : Labelling) (universe : option (list string)) : list string :=
  match universe with Some u => u | None => elements (dom L ∪ dom o) end.
Definition Labelling_Equals (L o : Labelling) (universe : option (list string)) : bool :=
  forallb (fun k => bool_decide (Lookup L k = Lookup o k)) (compared L o universe).
Definition LabellingLessOrEqual (L1 L2 : Labelling) (universe : option (list string)) : bool :=
  forallb (fun k => statusLessOrEqual (Lookup L1 k) (Lookup L2 k)) (compared L1 L2 universe).

Definition graph_entries (g : Graph) : entries := map_to_list (assertions g).
Definition evaluationUniverse (g : Graph) : list string := sort_strings (graph_entries g).*1.

(** ** Attacks *)

(** The ids filed under a canonical proposition, and those that state it. *)
Definition propMap (es : entries) (k : string) : list string :=
  map fst (filter (fun ie => CanonicalString (VProposition (Event_Proposition ie.2)) = k) es).
Definition stating (es : entries) (g : Graph) (p : Proposition) : list string :=
  List.filter (fun id => match assertions g !! id with
                         | Some ev => StructuralEqual (VProposition (Event_Proposition ev)) (VProposition p)
                         | None => false
                         end) (propMap es (CanonicalString (VProposition p))).

Definition derivMapLookup (derivs : list candidateDerivation) (key : string) : list candidateDerivation :=
  filter (fun d => Token (cd_left d) +:+ "|" +:+ Token (cd_right d) = key) derivs.

(** The attacks of one stored rebuttal. *)
Definition rebuttal_attacks (es : entries) (g : Graph) (derivs : list candidateDerivation) (ev : AssertionEvent) : list attack :=
  let p := Event_Proposition ev in
  if negb (isRebuttalProp p) then []
  else match args p with
       | VProposition pa :: VProposition pb :: _ =>
           let cds := derivMapLookup derivs (Token (term pa) +:+ "|" +:+ Token (term pb)) in
           flat_map (fun a => flat_map (fun t => map (fun cd => mkAttack a t (cd_grounds cd)) cds) (stating es g pb)) (stating es g pa)
       | _ => []
       end.

Definition CandidateAttacks (g : Graph) : list attack :=
  let es := graph_entries g in
  let derivs := EnumerateCandidateIncompatibilityDerivations es in
  sort_by attack_less (EnumerateDefeatAttacks es ++ flat_map (fun ie => rebuttal_attacks es g derivs ie.2) es).

Definition attackStatus (a : attack) (L : Labelling) : string :=
  if bool_decide (Lookup L (attacker a) = beliefOut) then "void"
  else if existsb (fun g => bool_decide (Lookup L g = beliefOut)) (Members (grounds a)) then "void"
  else if bool_decide (Lookup L (attacker a) = beliefIn)
    && forallb (fun g => bool_decide (Lookup L g = beliefIn)) (Members (grounds a)) then "active"
  else "potential".

(** The uses of the act that produced an event; none when it is unresolved. *)
Definition premises (g : Graph) (e : string) : list string :=
  match assertions g !! e with
  | None => []
  | Some ev =>
      match pr_act (ev_producer ev) with
      | None => []
      | Some aid =>
          match typed_act g aid with
          | None => []
          | Some actKey => match acts g !! actKey with Some act => Uses act | None => [] end
          end
      end
  end.

Definition OutCondition (g : Graph) (e : string) (L : Labelling) : bool :=
  existsb (fun A => bool_decide (target A = e) && bool_decide (attackStatus A L = "active")) (CandidateAttacks g)
  || existsb (fun p => bool_decide (Lookup L p = beliefOut)) (premises g e).
Definition InCondition (g : Graph) (e : string) (L : Labelling) : bool :=
  forallb (fun A => negb (bool_decide (target A = e)) || bool_decide (attackStatus A L = "void")) (CandidateAttacks g)
  && forallb (fun p => bool_decide (Lookup L p = beliefIn)) (premises g e).

(** ** Readiness *)
Definition unresolved (msg : string) : error := mkError "unresolved producer" msg.
Definition missing (msg : string) : error := mkError "missing referenced assertion event" msg.

(** The first error of a loop that returns on its first error. *)
Fixpoint first_error {A} (check : A → result unit) (l : list A) : result unit :=
  match l with
  | [] => Ok tt
  | x :: l => _ ← check x; first_error check l
  end.

Definition stored (g : Graph) (id : string) : bool := bool_decide (is_Some (assertions g !! id)).

Definition validate_event (g : Graph) (id : string) : result unit :=
  match GetAssertionEvent g id with
  | None => Err (missing "assertion missing from graph")
  | Some ev =>
      match pr_act (ev_producer ev), pr_opaque (ev_producer ev) with
      | Some aid, _ =>
          match typed_act g aid with
          | None => Err (unresolved "act not present for assertion")
          | Some actKey =>
              let act := act_at g actKey in
              if UsesPresent act
              then first_error (fun u => if stored g u then Ok tt else Err (missing "act references missing use")) (Uses act)
              else Ok tt
          end
      | None, Some _ => Err (unresolved "opaque producer for assertion")
      | None, None => Err (unresolved "producer unresolved for assertion")
      end
  end.

Definition validate_attack (g : Graph) (A : attack) : result unit :=
  fail_if negb (stored g (attacker A)) with missing "attack attacker missing";
  fail_if negb (stored g (target A)) with missing "attack target missing";
  first_error (fun gm => if stored g gm then Ok tt else Err (missing "attack ground missing")) (Members (grounds A)).

Definition validateEvaluationUniverse (g : Graph) : result unit :=
  _ ← first_error (validate_event g) (evaluationUniverse g);
  first_error (validate_attack g) (CandidateAttacks g).

(** ** The operator and its least fixed point *)
Definition phi_step (g : Graph) (L : Labelling) (res : Labelling) (e : string) : Labelling :=
  if OutCondition g e L then <[e := beliefOut]> res
  else if InCondition g e L then <[e := beliefIn]> res
  else res.

Definition phi (g : Graph) (L : Labelling) : result Labelling :=
  _ ← validateEvaluationUniverse g;
  Ok (NewLabellingFromMap (foldl (phi_step g L) ∅ (evaluationUniverse g))).

Definition non_monotone : error := mkError "" "internal invariant: non-monotone phi".
Definition not_converged : error := mkError "" "iteration did not converge within bound".

(** At most [n] applications of phi. *)
Fixpoint iterate_phi (g : Graph) (univ : list string) (n : nat) (current : Labelling) : result Labelling :=
  match n with
  | O => Err not_converged
  | S n =>
      next ← phi g current;
      fail_if negb (LabellingLessOrEqual current next (Some univ)) with non_monotone;
      if Labelling_Equals next current (Some univ) then Ok next else iterate_phi g univ n next
  end.

Definition leastFixedPoint (g : Graph) : result Labelling :=
  let univ := evaluationUniverse g in
  _ ← validateEvaluationUniverse g;
  iterate_phi g univ (S (length univ)) BottomLabelling.

Definition BeliefState (g : Graph) : result Labelling := leastFixedPoint g.

(** ** The information order *)
Definition status_le (a b : beliefStatus) : Prop := a = beliefUndecided ∨ a = b.
Definition below (L1 L2 : Labelling) : Prop := ∀ id, status_le (Lookup L1 id) (Lookup L2 id).

Lemma statusLessOrEqual_spec a b : statusLessOrEqual a b = true ↔ status_le a b.
Proof. unfold status_le. destruct a, b; cbn; split; intros; try done; (by left) || (by right) || naive_solver. Qed.

#[global] Instance below_preorder : PreOrder below.
Proof.
  split; [intros L id; by right|]. intros L1 L2 L3 H12 H23 id.
  destruct (H12 id) as [E|E]; [by left|]. rewrite E. apply H23.
Qed.

Lemma below_antisym L1 L2 : below L1 L2 → below L2 L1 → ∀ id, Lookup L1 id = Lookup L2 id.
Proof. intros H1 H2 id. destruct (H1 id) as [E1|E1], (H2 id) as [E2|E2]; congruence. Qed.

Lemma status_le_in b : status_le beliefIn b → b = beliefIn.
Proof. by intros [|<-]. Qed.
Lemma status_le_out b : status_le beliefOut b → b = beliefOut.
Proof. by intros [|<-]. Qed.

(** Decided statuses persist upwards. *)
Lemma below_decided L1 L2 id s : below L1 L2 → s ≠ beliefUndecided → Lookup L1 id = s → Lookup L2 id = s.
Proof. intros H Hs E. destruct (H id) as [E'|E']; congruence. Qed.

(** ** Attacks under a labelling *)
Lemma elem_of_Members x gs : x ∈ Members gs ↔ x ∈ gs.
Proof. unfold Members. rewrite elem_of_sort_by. apply elem_of_elements. Qed.

Definition void (A : attack) (L : Labelling) : Prop :=
  Lookup L (attacker A) = beliefOut ∨ ∃ x, x ∈ grounds A ∧ Lookup L x = beliefOut.
Definition active (A : attack) (L : Labelling) : Prop :=
  Lookup L (attacker A) = beliefIn ∧ ∀ x, x ∈ grounds A → Lookup L x = beliefIn.

Lemma existsb_spec {A} (f : A → bool) l : existsb f l = true ↔ ∃ x, x ∈ l ∧ f x = true.
Proof. rewrite existsb_exists. by setoid_rewrite list_elem_of_In. Qed.
Lemma forallb_spec {A} (f : A → bool) l : forallb f l = true ↔ ∀ x, x ∈ l → f x = true.
Proof. rewrite forallb_forall. by setoid_rewrite list_elem_of_In. Qed.

Lemma attackStatus_spec A L :
  (attackStatus A L = "void" ↔ void A L) ∧ (attackStatus A L = "active" ↔ active A L).
Proof.
  unfold attackStatus, void, active.
  destruct (bool_decide_reflect (Lookup L (attacker A) = beliefOut)) as [E|E].
  { split; split; try done; [by left|]. intros [E' _]. congruence. }
  destruct (existsb _ _) eqn:Ex.
  { apply existsb_spec in Ex as (x & Hx%elem_of_Members & Ho%bool_decide_eq_true).
    split; split; try done; [by eauto|]. intros [_ Hi]. rewrite Hi in Ho by done. done. }
  assert (¬ ∃ x, x ∈ grounds A ∧ Lookup L x = beliefOut) as Hno.
  { intros (x & Hx & Ho). assert (existsb (fun g => bool_decide (Lookup L g = beliefOut)) (Members (grounds A)) = true); [|congruence].
    apply existsb_spec. exists x. by rewrite elem_of_Members, bool_decide_eq_true. }
  destruct (bool_decide _ && forallb _ _) eqn:Ea.
  - apply andb_true_iff in Ea as [Ei Eg]. apply bool_decide_eq_true in Ei. rewrite forallb_spec in Eg.
    split; [split; [done|intros [?|?]; done]|]. split; [|done]. intros _. split; [done|].
    intros x Hx. by apply (bool_decide_eq_true _), Eg, elem_of_Members.
  - split; [split; [done|intros [?|?]; done]|]. split; [done|]. intros [Hi Hg]. exfalso.
    apply andb_false_iff in Ea as [Ea|Ea]; [by apply bool_decide_eq_false in Ea|].
    apply not_true_iff_false in Ea. apply Ea, forallb_spec. intros x Hx%elem_of_Members. by apply bool_decide_eq_true, Hg.
Qed.

Lemma void_below A L1 L2 : below L1 L2 → void A L1 → void A L2.
Proof. intros H [E|(x & Hx & E)]; [left|right; exists x; split; [done|]]; by apply (below_decided L1 L2). Qed.
Lemma active_below A L1 L2 : below L1 L2 → active A L1 → active A L2.
Proof. intros H [E Hg]. split; [|intros x Hx]; apply (below_decided L1 L2); auto. Qed.

Lemma void_not_active A L : void A L → ¬ active A L.
Proof. intros [E|(x & Hx & E)] [E' H]; [congruence|]. specialize (H x Hx). congruence. Qed.

(** ** The conditions *)
Section graph.
Context (g : Graph).

Lemma OutCondition_spec e L : OutCondition g e L = true ↔
  (∃ A, A ∈ CandidateAttacks g ∧ target A = e ∧ active A L) ∨ (∃ p, p ∈ premises g e ∧ Lookup L p = beliefOut).
Proof.
  unfold OutCondition. rewrite orb_true_iff, !existsb_spec.
  setoid_rewrite andb_true_iff. setoid_rewrite bool_decide_eq_true.
  setoid_rewrite (λ A L, proj2 (attackStatus_spec A L)). done.
Qed.

Lemma InCondition_spec e L : InCondition g e L = true ↔
  (∀ A, A ∈ CandidateAttacks g → target A = e → void A L) ∧ (∀ p, p ∈ premises g e → Lookup L p = beliefIn).
Proof.
  unfold InCondition. rewrite andb_true_iff, !forallb_spec.
  setoid_rewrite orb_true_iff. setoid_rewrite negb_true_iff. setoid_rewrite bool_decide_eq_true.
  setoid_rewrite bool_decide_eq_false. setoid_rewrite (λ A L, proj1 (attackStatus_spec A L)).
  split; intros [H1 H2]; (split; [|done]); intros A HA; [intros HT; by destruct (H1 A HA)|].
  destruct (decide (target A = e)); [right|by left]. by apply H1.
Qed.

Lemma OutCondition_below e L1 L2 : below L1 L2 → OutCondition g e L1 = true → OutCondition g e L2 = true.
Proof.
  intros H. rewrite !OutCondition_spec. intros [(A & HA & HT & Hact)|(p & Hp & E)]; [left|right].
  - exists A. split_and!; [done..|]. by apply (active_below A L1).
  - exists p. split; [done|]. by apply (below_decided L1 L2).
Qed.

Lemma InCondition_below e L1 L2 : below L1 L2 → InCondition g e L1 = true → InCondition g e L2 = true.
Proof.
  intros H. rewrite !InCondition_spec. intros [HA Hp]. split.
  - intros A HA' HT. apply (void_below A L1); auto.
  - intros p Hp'. apply (below_decided L1 L2); auto.
Qed.

Lemma InCondition_not_out e L : InCondition g e L = true → OutCondition g e L = false.
Proof.
  intros Hin. apply not_true_iff_false. rewrite OutCondition_spec. apply InCondition_spec in Hin as [Hv Hp].
  intros [(A & HA & HT & Hact)|(p & Hp' & E)]; [by apply (void_not_active A L); auto|].
  rewrite Hp in E by done. done.
Qed.

(** What phi decides of one event. *)
Definition verdict (L : Labelling) (e : string) : beliefStatus :=
  if OutCondition g e L then beliefOut else if InCondition g e L then beliefIn else beliefUndecided.

Lemma verdict_out L e : verdict L e = beliefOut ↔ OutCondition g e L = true.
Proof. unfold verdict. by destruct (OutCondition g e L), (InCondition g e L). Qed.
Lemma verdict_in L e : verdict L e = beliefIn ↔ InCondition g e L = true.
Proof.
  unfold verdict. destruct (InCondition g e L) eqn:Ei; [|by destruct (OutCondition g e L)].
  by rewrite (InCondition_not_out e L Ei).
Qed.

Lemma verdict_below e L1 L2 : below L1 L2 → status_le (verdict L1 e) (verdict L2 e).
Proof.
  intros H. destruct (verdict L1 e) eqn:E; [by left|right; symmetry..].
  - apply verdict_in in E. apply verdict_in. by apply (InCondition_below e L1).
  - apply verdict_out in E. apply verdict_out. by apply (OutCondition_below e L1).
Qed.

Lemma phi_fold L e l : ∀ res, foldl (phi_step g L) res l !! e =
  if bool_decide (e ∈ l) && negb (bool_decide (verdict L e = beliefUndecided)) then Some (verdict L e) else res !! e.
Proof.
  induction l as [|x l IH]; intros res; [done|]. cbn [foldl]. rewrite IH. clear IH.
  assert (phi_step g L res x !! e = if bool_decide (e = x) && negb (bool_decide (verdict L e = beliefUndecided)) then Some (verdict L e) else res !! e) as ->.
  { unfold phi_step, verdict. destruct (bool_decide_reflect (e = x)) as [->|Hne]; cbn.
    - destruct (OutCondition g x L); [by rewrite lookup_insert_eq|].
      destruct (InCondition g x L); [by rewrite lookup_insert_eq|done].
    - destruct (OutCondition g x L); [by rewrite lookup_insert_ne|].
      destruct (InCondition g x L); [by rewrite lookup_insert_ne|done]. }
  destruct (bool_decide_reflect (e ∈ l)) as [H|H], (bool_decide_reflect (e = x)) as [H'|H'];
    destruct (bool_decide_reflect (e ∈ x :: l)) as [H''|H'']; rewrite elem_of_cons in H''; try tauto;
    by destruct (bool_decide (verdict L e = beliefUndecided)).
Qed.

Definition universe : list string := evaluationUniverse g.
Definition apply_phi (L : Labelling) : Labelling := foldl (phi_step g L) ∅ universe.

Lemma apply_phi_lookup L e : Lookup (apply_phi L) e = if bool_decide (e ∈ universe) then verdict L e else beliefUndecided.
Proof.
  unfold Lookup, apply_phi. rewrite phi_fold, lookup_empty. destruct (bool_decide (e ∈ universe)); cbn; [|done].
  by destruct (bool_decide_reflect (verdict L e = beliefUndecided)) as [->|].
Qed.

Lemma apply_phi_below L1 L2 : below L1 L2 → below (apply_phi L1) (apply_phi L2).
Proof. intros H e. rewrite !apply_phi_lookup. destruct (bool_decide _); [by apply verdict_below|by left]. Qed.

Lemma apply_phi_ext L1 L2 : (∀ id, Lookup L1 id = Lookup L2 id) → apply_phi L1 = apply_phi L2.
Proof.
  intros H. apply map_eq. intros e. unfold apply_phi. rewrite !phi_fold.
  assert (verdict L1 e = verdict L2 e) as ->; [|done].
  assert (status_le (verdict L1 e) (verdict L2 e)) as [E1|E1] by (apply verdict_below; intros id; by right);
    assert (status_le (verdict L2 e) (verdict L1 e)) as [E2|E2] by (apply verdict_below; intros id; by right); congruence.
Qed.

Lemma phi_Ok L : validateEvaluationUniverse g = Ok tt → phi g L = Ok (apply_phi L).
Proof. unfold phi. by intros ->. Qed.

Lemma universe_outside L e : e ∉ universe → Lookup (apply_phi L) e = beliefUndecided.
Proof. intros H. by rewrite apply_phi_lookup, bool_decide_eq_false_2. Qed.

(** ** The iteration *)
Definition undecided (L : Labelling) : list string := filter (fun e => Lookup L e = beliefUndecided) universe.

Lemma LessOrEqual_below L1 L2 : LabellingLessOrEqual L1 L2 (Some universe) = true ↔
  ∀ e, e ∈ universe → status_le (Lookup L1 e) (Lookup L2 e).
Proof. unfold LabellingLessOrEqual. cbn. rewrite forallb_spec. by setoid_rewrite statusLessOrEqual_spec. Qed.

Lemma Equals_universe L1 L2 : Labelling_Equals L1 L2 (Some universe) = true ↔
  ∀ e, e ∈ universe → Lookup L1 e = Lookup L2 e.
Proof. unfold Labelling_Equals. cbn. rewrite forallb_spec. by setoid_rewrite bool_decide_eq_true. Qed.

(** A filter that keeps less, and one element less, is shorter. *)
Lemma filter_shorter {A} (P Q : A → Prop) `{∀ x, Decision (P x), ∀ x, Decision (Q x)} l :
  (∀ x, x ∈ l → Q x → P x) → length (filter Q l) <= length (filter P l) ∧
  ((∃ x, x ∈ l ∧ P x ∧ ¬ Q x) → length (filter Q l) < length (filter P l)).
Proof.
  induction l as [|y l IH]; intros HQP; [split; [done|intros (x & Hx & _); by apply elem_of_nil in Hx]|].
  destruct IH as [IH1 IH2]; [intros x Hx; apply HQP; by right|].
  rewrite !filter_cons. split.
  - destruct (decide (Q y)) as [Hq|Hq]; [rewrite decide_True by (apply HQP; [by left|done]); cbn; lia|].
    destruct (decide (P y)); cbn; lia.
  - intros (x & Hx & HP & HnQ). apply elem_of_cons in Hx as [->|Hx].
    + rewrite decide_False, decide_True by done. cbn. lia.
    + specialize (IH2 ltac:(eauto)). destruct (decide (Q y)) as [Hq|Hq]; [rewrite decide_True by (apply HQP; [by left|done]); cbn; lia|].
      destruct (decide (P y)); cbn; lia.
Qed.

(** Each application that changes something decides one more event. *)
Lemma undecided_shrinks L1 L2 : below L1 L2 → Labelling_Equals L2 L1 (Some universe) = false →
  length (undecided L2) < length (undecided L1).
Proof.
  intros H Hne. unfold undecided. apply filter_shorter.
  - intros e He E2. destruct (H e) as [E1|E1]; congruence.
  - destruct (decide (Exists (fun e => Lookup L2 e ≠ Lookup L1 e) universe)) as [Hex|Hall].
    + apply Exists_exists in Hex as (e & He & E). exists e. destruct (H e) as [E1|E1]; [|by destruct E].
      split_and!; try done. intros E2. congruence.
    + apply not_true_iff_false in Hne. destruct Hne. apply Equals_universe. intros e He.
      destruct (decide (Lookup L2 e = Lookup L1 e)); [done|]. destruct Hall. apply Exists_exists. eauto.
Qed.

Definition stays_inside (L : Labelling) : Prop := ∀ e, e ∉ universe → Lookup L e = beliefUndecided.

Lemma apply_phi_inside L : stays_inside (apply_phi L).
Proof. intros e. apply universe_outside. Qed.

Lemma iterate_phi_converges n : ∀ current, validateEvaluationUniverse g = Ok tt →
  stays_inside current → below current (apply_phi current) → length (undecided current) < n →
  ∃ L, iterate_phi g universe n current = Ok L ∧ apply_phi L = L ∧
    ∀ Z, below current Z → below (apply_phi Z) Z → below L Z.
Proof.
  induction n as [|n IH]; intros current Hv Hin Hb Hn; [lia|]. cbn [iterate_phi].
  rewrite phi_Ok by done. cbn [mbind result_bind].
  assert (LabellingLessOrEqual current (apply_phi current) (Some universe) = true) as ->
    by (apply LessOrEqual_below; intros; apply Hb). cbn [negb].
  destruct (Labelling_Equals _ _ _) eqn:Eq.
  - rewrite Equals_universe in Eq. eexists. split; [done|].
    assert (∀ e, Lookup (apply_phi current) e = Lookup current e) as Hfix.
    { intros e. destruct (decide (e ∈ universe)); [auto|]. by rewrite Hin, apply_phi_inside. }
    split; [by apply apply_phi_ext|]. intros Z HZ _ e. rewrite Hfix. apply HZ.
  - destruct (IH (apply_phi current)) as (L & HL & Hfix & Hleast); [done|apply apply_phi_inside|by apply apply_phi_below| |].
    + pose proof (undecided_shrinks _ _ Hb Eq). lia.
    + exists L. split_and!; [done..|]. intros Z HZ Hpre. apply Hleast; [|done].
      etrans; [by apply apply_phi_below|done].
Qed.

Lemma bottom_below L : below BottomLabelling L.
Proof. intros e. left. unfold Lookup, BottomLabelling. by rewrite lookup_empty. Qed.

Lemma leastFixedPoint_total : validateEvaluationUniverse g = Ok tt →
  ∃ L, leastFixedPoint g = Ok L ∧ apply_phi L = L ∧ ∀ Z, below (apply_phi Z) Z → below L Z.
Proof.
  intros Hv. destruct (iterate_phi_converges (S (length universe)) BottomLabelling Hv) as (L & HL & Hfix & Hleast).
  - intros e _. unfold Lookup, BottomLabelling. by rewrite lookup_empty.
  - apply bottom_below.
  - apply Nat.lt_succ_r. unfold undecided. apply length_filter.
  - exists L. split_and!; [|done|]; [unfold leastFixedPoint; by rewrite Hv|].
    intros Z HZ. apply Hleast; [apply bottom_below|done].
Qed.
End graph.

Lemma elem_of_universe g e : e ∈ universe g ↔ is_Some (assertions g !! e).
Proof.
  unfold universe, evaluationUniverse, graph_entries. change (sort_strings (map_to_list (assertions g)).*1) with (sorted_keys string_ltb (assertions g)).
  apply elem_of_sorted_keys.
Qed.

Lemma BeliefState_Ok g L : BeliefState g = Ok L →
  validateEvaluationUniverse g = Ok tt ∧ apply_phi g L = L ∧ ∀ Z, below (apply_phi g Z) Z → below L Z.
Proof.
  intros H. assert (validateEvaluationUniverse g = Ok tt) as Hv.
  { unfold BeliefState, leastFixedPoint in H. destruct (validateEvaluationUniverse g) as [[]|]; [done|discriminate H]. }
  destruct (leastFixedPoint_total g Hv) as (L' & HL & H'). unfold BeliefState in H. rewrite HL in H.
  by apply Ok_inj in H as <-.
Qed.

Lemma BeliefState_verdict g L e : BeliefState g = Ok L → is_Some (assertions g !! e) → Lookup L e = verdict g L e.
Proof.
  intros H He. destruct (BeliefState_Ok g L H) as (_ & Hfix & _). rewrite <- Hfix at 1.
  rewrite apply_phi_lookup, bool_decide_eq_true_2; [done|by apply elem_of_universe].
Qed.

(** *** The belief state is the least fixed point *)

(** C16: belief evaluation always ends within its bound: it fails exactly when the
    graph is not ready, with the error of the readiness check, and neither of
    its two internal errors is ever returned. *)
Theorem BeliefState_terminates (g : Graph) :
  (∀ e, BeliefState g = Err e ↔ validateEvaluationUniverse g = Err e) ∧
  ((∃ L, BeliefState g = Ok L) ↔ validateEvaluationUniverse g = Ok tt).
Proof.
  unfold BeliefState. destruct (validateEvaluationUniverse g) as [[]|err] eqn:Ev.
  - destruct (leastFixedPoint_total g Ev) as (L & -> & _). split; [by intros e; split|]. split; [done|eauto].
  - unfold leastFixedPoint. rewrite Ev. cbn. split; [intros e; split; intros [= ->]; done|]. split; [by intros [L [=]]|done].
Qed.

(** C15: the belief state is the least fixed point of phi in the information order:
    phi leaves it unchanged, and it is below every labelling phi does not
    raise. *)
Theorem BeliefState_least (g : Graph) (L : Labelling) : BeliefState g = Ok L →
  phi g L = Ok L ∧ (∀ Z Z', phi g Z = Ok Z' → below Z' Z → below L Z) ∧
  (∀ e, Lookup L e ≠ beliefUndecided → is_Some (assertions g !! e)).
Proof.
  intros H. destruct (BeliefState_Ok g L H) as (Hv & Hfix & Hleast). split_and!.
  - by rewrite phi_Ok, Hfix.
  - intros Z Z'. rewrite phi_Ok by done. intros HZ%Ok_inj. subst Z'. apply Hleast.
  - intros e He. rewrite <- Hfix in He. apply elem_of_universe. destruct (decide (e ∈ universe g)); [done|].
    by rewrite universe_outside in He.
Qed.

Lemma BeliefState_least_witness : phi NewGraph ∅ = Ok ∅.
Proof. exact (proj1 (BeliefState_least NewGraph ∅ eq_refl)). Defined.

(** ** What the candidate attacks are *)

(** The stored events that state a proposition. *)
Definition states (g : Graph) (id : string) (p : Proposition) : Prop :=
  ∃ ev, assertions g !! id = Some ev ∧ equal (VProposition (Event_Proposition ev)) (VProposition p).

Lemma elem_of_stating g id p : id ∈ stating (graph_entries g) g p ↔ states g id p.
Proof.
  unfold stating, states, propMap, graph_entries. rewrite list_elem_of_In, filter_In, in_map_iff. split.
  - intros [_ H]. destruct (assertions g !! id) as [ev|] eqn:E; [|done]. eauto.
  - intros (ev & Hev & Heq). rewrite Hev. split; [|done]. exists (id, ev). split; [done|].
    apply list_elem_of_In, list_elem_of_filter. split; [by apply equal_canonical|by apply elem_of_map_to_list].
Qed.

Inductive candidate (g : Graph) : attack → Prop :=
| candidate_defeat id ev aRef tRef : assertions g !! id = Some ev → relation_refs isDefeatProp ev = Some (aRef, tRef) →
    candidate g (mkAttack (Token aRef) (Token tRef) {[id]})
| candidate_rebuttal id ev pa pb rest a t l r gs : assertions g !! id = Some ev →
    isRebuttalProp (Event_Proposition ev) = true → args (Event_Proposition ev) = VProposition pa :: VProposition pb :: rest →
    states g a pa → states g t pb →
    incompatibility_derivable (graph_entries g) l r gs → l +:+ "|" +:+ r = Token (term pa) +:+ "|" +:+ Token (term pb) →
    candidate g (mkAttack a t gs).

Lemma reachable_no_comma g : graph_reachable g → ∀ x ev, (x, ev) ∈ graph_entries g → has_byte key_comma x = false.
Proof. intros H x ev Hx. apply elem_of_map_to_list in Hx. by apply (wg_events g (graph_reachable_wf g H)) in Hx as [_ ?]. Qed.

Lemma elem_of_rebuttal_attacks g derivs ev A : A ∈ rebuttal_attacks (graph_entries g) g derivs ev ↔
  isRebuttalProp (Event_Proposition ev) = true ∧ ∃ pa pb rest d, args (Event_Proposition ev) = VProposition pa :: VProposition pb :: rest ∧
    states g (attacker A) pa ∧ states g (target A) pb ∧ d ∈ derivs ∧
    Token (cd_left d) +:+ "|" +:+ Token (cd_right d) = Token (term pa) +:+ "|" +:+ Token (term pb) ∧ grounds A = cd_grounds d.
Proof.
  unfold rebuttal_attacks. generalize (Event_Proposition ev). intros p.
  destruct (isRebuttalProp p); cbn [negb]; [|split; [by intros ?%elem_of_nil|intros [[=] _]]].
  destruct (args p) as [|[| | | | | |pa] [|[| | | | | |pb] rest]]; cbn [negb];
    try (split; [by intros ?%elem_of_nil|intros (_ & ? & ? & ? & ? & H & _); discriminate H]).
  rewrite list_elem_of_In, in_flat_map. setoid_rewrite in_flat_map. setoid_rewrite in_map_iff.
  setoid_rewrite <- list_elem_of_In. unfold derivMapLookup. setoid_rewrite list_elem_of_filter.
  setoid_rewrite elem_of_stating. split.
  - intros (a & Ha & t & Ht & d & <- & Hk & Hd). split; [done|]. exists pa, pb, rest, d. done.
  - intros (_ & pa' & pb' & rest' & d & H & Ha & Ht & Hd & Hk & Hg). injection H as -> -> ->.
    exists (attacker A). split; [done|]. exists (target A). split; [done|]. exists d. split_and!; [|done..].
    destruct A; cbn in *. by subst.
Qed.

(** The candidate attacks of a graph are its defeat events and, for each
    rebuttal event, the pairs of events that state the two propositions on each
    derivation found under the key of their terms. *)
Lemma elem_of_CandidateAttacks g A : graph_reachable g → A ∈ CandidateAttacks g ↔ candidate g A.
Proof.
  intros Hg. unfold CandidateAttacks. rewrite elem_of_sort_by, elem_of_app. unfold EnumerateDefeatAttacks.
  rewrite elem_of_sort_by, elem_of_omap, (list_elem_of_In _ A), in_flat_map.
  pose proof (derivations_found (graph_entries g) (reachable_no_comma g Hg)) as Hder. split.
  - intros [([id ev] & Hin & H)|([id ev] & Hin & H)].
    + unfold defeat_attack in H. cbn [fst snd] in H. destruct (relation_refs isDefeatProp ev) as [[aRef tRef]|] eqn:E; [|done].
      injection H as <-. unfold newGroundSetFromSlice. cbn. rewrite union_empty_r_L.
      apply (candidate_defeat g id ev); [by apply elem_of_map_to_list|done].
    + apply list_elem_of_In, elem_of_map_to_list in Hin.
      apply list_elem_of_In, elem_of_rebuttal_attacks in H as (Hr & pa & pb & rest & d & Hargs & Ha & Ht & Hd & Hk & Hgr).
      destruct A as [a t gs]. cbn in *. subst gs.
      apply (candidate_rebuttal g id ev pa pb rest a t (Token (cd_left d)) (Token (cd_right d))); try done.
      apply Hder. by exists d.
  - intros [id ev aRef tRef Hev Hrefs|id ev pa pb rest a t l r gs Hev Hr Hargs Ha Ht Hd Hk].
    + left. exists (id, ev). split; [by apply elem_of_map_to_list|]. unfold defeat_attack. cbn [fst snd]. rewrite Hrefs.
      unfold newGroundSetFromSlice. cbn. by rewrite union_empty_r_L.
    + right. apply Hder in Hd as (d & Hd & <- & <- & <-). exists (id, ev). split; [by apply list_elem_of_In, elem_of_map_to_list|].
      apply list_elem_of_In, elem_of_rebuttal_attacks. split; [done|]. exists pa, pb, rest, d. done.
Qed.

(** C18: the belief state is a complete labelling of the attacks of the graph: an
    event is believed exactly when all attacks on it are void and all its
    premises believed, and disbelieved exactly when an attack on it is active or
    a premise disbelieved; so no believed event is attacked by a believed
    attacker on believed grounds. *)
Theorem BeliefState_complete (g : Graph) (L : Labelling) (e : string) :
  graph_reachable g → BeliefState g = Ok L → is_Some (assertions g !! e) →
  (Lookup L e = beliefIn ↔ (∀ A, candidate g A → target A = e → void A L) ∧ (∀ p, p ∈ premises g e → Lookup L p = beliefIn)) ∧
  (Lookup L e = beliefOut ↔ (∃ A, candidate g A ∧ target A = e ∧ active A L) ∨ (∃ p, p ∈ premises g e ∧ Lookup L p = beliefOut)) ∧
  (Lookup L e = beliefIn → ∀ A, candidate g A → target A = e → ¬ active A L).
Proof.
  intros Hg H He. setoid_rewrite <- (λ A, elem_of_CandidateAttacks g A Hg).
  assert (Lookup L e = verdict g L e) as E by by apply BeliefState_verdict.
  rewrite E. split; [by rewrite verdict_in, InCondition_spec|]. split; [by rewrite verdict_out, OutCondition_spec|].
  rewrite verdict_in, InCondition_spec. intros [Hv _] A HA HT. by apply void_not_active, Hv.
Qed.

(** Attacks are looked up by the two term names joined with a bar, so an
    incompatibility of one pair of terms is read as one of another pair. *)
Theorem term_pair_key_ambiguous : ∃ d (pa pb : Proposition),
  (Token (cd_left d) ≠ Token (term pa) ∧ Token (cd_right d) ≠ Token (term pb)) ∧
  d ∈ derivMapLookup [d] (Token (term pa) +:+ "|" +:+ Token (term pb)).
Proof.
  set (ref t := NewIdentityRef "Term" t). set (p t := NewProposition (V := SnapshotValue) (ref "P") Actual (ref t) [] (NewValidTime None None) QuantThisInstance).
  exists (mkDerivation (ref "a|b") (ref "c") {["i"]}), (p "a"), (p "b|c"). split; [split; discriminate|].
  apply list_elem_of_filter. split; [reflexivity|by left].
Qed.
