(* ===== verification/SemanticAdapter.v ===== *)
(** From runtime observations to the semantic graph:
    [src/internal/semantic/adapter].  The projectors of the four observation
    domains, and the construction of the graph of one acquisition act. *)
From S2P Require Import Prelude GoStd Policy SemanticSnapshot SemanticEvents SemanticGraph SemanticDerivation SemanticBelief.

Record RunMeta := mkRunMeta {
  rm_Source : string;
  rm_Start : option time;
  rm_End : option time;
  rm_RecordTime : time
}.
Record BuildResult := mkBuildResult {
  br_Graph : Graph;
  br_AssertionIDs : list string;
  br_EvidenceGroups : gmap string (list nat)
}.

Definition ErrAdapterRecordTime : error := mkError "invalid (zero) RecordTime" "".
Definition ErrInvalidEventTimestamp : error := mkError "invalid event timestamp: zero value present" "at index".
Definition ErrUnsupportedEvent (msg : string) : error := mkError "unsupported event for filesystem adapter" msg.
Definition ErrInvalidInterval (msg : string) : error := mkError "invalid interval: start after end" msg.

(** ** Projectors *)
Definition observed (termName : string) (record : gmap string SnapshotValue) : Proposition :=
  NewProposition (NewIdentityRef "Phase" "p") Actual (NewIdentityRef "Term" termName) [NewRecord record]
    (NewValidTime None None) QuantThisInstance.

Definition projectFilesystem (obs : Observation) : result Proposition :=
  fail_if bool_decide (ob_Path obs = "") with mkError "" "empty path";
  fail_if negb (bool_decide (ob_Mode obs ∈ ["read"; "write"; "read_write"; "exec"])) with mkError "" "unsupported mode";
  let r := ∅ : gmap string SnapshotValue in
  let r := if negb (bool_decide (ob_Path obs = "")) then <["path" := VLiteral "string" (ob_Path obs)]> r else r in
  let r := if negb (bool_decide (ob_Mode obs = "")) then <["mode" := VLiteral "string" (ob_Mode obs)]> r else r in
  let r := if ob_IsDir obs then <["isDir" := VLiteral "bool" "true"]> r else r in
  let r := if ob_Truncate obs then <["truncate" := VLiteral "bool" "true"]> r else r in
  Ok (observed "FileAccess" r).

Definition projectNetwork (obs : Observation) : result Proposition :=
  fail_if (ob_Port obs =? 0)%Z with mkError "" "missing port";
  let dirFromSyscall := if bool_decide (ob_Syscall obs = "bind") then "ingress"
                        else if bool_decide (ob_Syscall obs = "connect") then "egress" else "" in
  let dirFromMode := if bool_decide (ob_Mode obs = "ingress") then "ingress"
                     else if bool_decide (ob_Mode obs = "egress") then "egress" else "" in
  fail_if negb (bool_decide (dirFromSyscall = "")) && negb (bool_decide (dirFromMode = ""))
          && negb (bool_decide (dirFromSyscall = dirFromMode)) with mkError "" "conflicting syscall/mode";
  let direction := if negb (bool_decide (dirFromSyscall = "")) then dirFromSyscall
                   else if negb (bool_decide (dirFromMode = "")) then dirFromMode else "egress" in
  fail_if bool_decide (direction = "") with mkError "" "unsupported network mode/syscall";
  Ok (observed "NetworkAccess"
        (<["direction" := VLiteral "string" direction]> (<["port" := VLiteral "int" (itoa (ob_Port obs))]> ∅))).

Definition projectCapability (obs : Observation) : result Proposition :=
  fail_if negb (bool_decide (ob_Mode obs = "capability")) with mkError "" "expected mode=capability";
  let name := trim_space (ob_Syscall obs) in
  fail_if bool_decide (name = "") with mkError "" "empty capability name";
  Ok (observed "CapabilityCheckObserved" {["name" := VLiteral "string" name]}).

Definition projectSyscall (obs : Observation) : result Proposition :=
  fail_if negb (bool_decide (ob_Mode obs = "syscall")) with mkError "" "expected mode=syscall";
  let name := trim_space (ob_Syscall obs) in
  fail_if bool_decide (name = "") with mkError "" "empty syscall name";
  Ok (observed "SyscallProfileAllowed" {["name" := VLiteral "string" name]}).

(** The projector of a kind; the other kinds are ignored. *)
Definition project (obs : Observation) : option (result Proposition) :=
  match ob_Kind obs with
  | KindFilesystem => Some (projectFilesystem obs)
  | KindNetwork => Some (projectNetwork obs)
  | KindCapability => Some (projectCapability obs)
  | KindSyscall => Some (projectSyscall obs)
  | KindOther => None
  end.

(** ** The interval of the run *)
Definition is_syscall (obs : Observation) : bool := match ob_Kind obs with KindSyscall => true | _ => false end.

(** The least and the greatest time stamp, syscall profiles apart. *)
Fixpoint derived_bounds (events : list Observation) (found : option (time * time)) : result (option (time * time)) :=
  match events with
  | [] => Ok found
  | ev :: events =>
      if is_syscall ev then derived_bounds events found
      else
        fail_if time_is_zero (ob_Timestamp ev) with ErrInvalidEventTimestamp;
        let t := ob_Timestamp ev in
        derived_bounds events
          (match found with
           | None => Some (t, t)
           | Some (lo, hi) => Some ((if (t <? lo)%Z then t else lo), (if (hi <? t)%Z then t else hi))
           end)
  end.

Definition after (x y : option time) : bool :=
  match x, y with Some s, Some e => (e <? s)%Z | _, _ => false end.

Definition run_interval (meta : RunMeta) (found : option (time * time)) : result ValidTime :=
  let startPtr := match rm_Start meta, found with None, Some (lo, _) => Some lo | s, _ => s end in
  let endPtr := match rm_End meta, found with None, Some (_, hi) => Some hi | e, _ => e end in
  fail_if after startPtr endPtr with ErrInvalidInterval "start after end";
  fail_if after (rm_Start meta) (snd <$> found) with ErrInvalidInterval "explicit Start > derived End";
  fail_if after (fst <$> found) (rm_End meta) with ErrInvalidInterval "explicit End < derived Start";
  Ok (NewValidTime startPtr endPtr).

(** ** Grouping *)
Abbreviation groups := (list (Proposition * list nat)).

(** The first group that states the proposition takes the index. *)
Fixpoint add_to_group (prop : Proposition) (idx : nat) (gs : groups) : groups :=
  match gs with
  | [] => [(prop, [idx])]
  | (existing, evidence) :: gs =>
      if StructuralEqual (VProposition existing) (VProposition prop) then (existing, evidence ++ [idx]) :: gs
      else (existing, evidence) :: add_to_group prop idx gs
  end.

Fixpoint group_observations (events : list Observation) (idx : nat) (gs : groups) : result groups :=
  match events with
  | [] => Ok gs
  | ev :: events =>
      match project ev with
      | None => group_observations events (S idx) gs
      | Some (Err e) => Err (ErrUnsupportedEvent (err_msg e))
      | Some (Ok prop) => group_observations events (S idx) (add_to_group prop idx gs)
      end
  end.

(** ** Building the graph *)
Fixpoint append_groups (producer : ProducerRef) (rt : time) (gs : groups) (res : BuildResult) : result BuildResult :=
  match gs with
  | [] => Ok res
  | (prop, evidence) :: gs =>
      ev ← NewAssertionEvent producer prop rt;
      '(g, id) ← AppendAssertionEvent (br_Graph res) ev;
      append_groups producer rt gs
        (mkBuildResult g (br_AssertionIDs res ++ [id]) (<[id := evidence]> (br_EvidenceGroups res)))
  end.

Definition acquisition_act (meta : RunMeta) (interval : ValidTime) : Act :=
  NewAct (rm_Source meta) ActContact interval None None.

Definition BuildGraphFromObservations (meta : RunMeta) (events : list Observation) : result BuildResult :=
  fail_if time_is_zero (rm_RecordTime meta) with ErrAdapterRecordTime;
  match events with
  | [] => Ok (mkBuildResult NewGraph [] ∅)
  | _ =>
      found ← derived_bounds events None;
      interval ← run_interval meta found;
      let act := acquisition_act meta interval in
      g ← AppendAct NewGraph act;
      gs ← group_observations events 0 [];
      rt ← NewRecordTime (rm_RecordTime meta);
      append_groups (NewProducerRefFromAct (Act_Identity act)) rt gs (mkBuildResult g [] ∅)
  end.

(** ** What the projectors produce *)

(** A proposition of the adapter: well formed, acceptable to the event
    constructor, and not a relation. *)
Record plain_proposition (p : Proposition) : Prop := {
  pp_args : Forall wf_snapshot (args p);
  pp_term : Token (term p) ≠ "";
  pp_phase : phase p = NewIdentityRef "Phase" "p";
  pp_modality : modality p = Actual
}.

Lemma observed_plain termName record : termName ≠ "" → (∀ k v, record !! k = Some v → wf_snapshot v) →
  plain_proposition (observed termName record).
Proof. intros Ht Hr. split; cbn; try done. constructor; [by apply NewRecord_wf|constructor]. Qed.

Definition literal_record (r : gmap string SnapshotValue) : Prop := ∀ k v, r !! k = Some v → wf_snapshot v.

Lemma literal_empty : literal_record ∅.
Proof. intros k v H. by rewrite lookup_empty in H. Qed.
Lemma literal_insert k kind value r : literal_record r → literal_record (<[k := VLiteral kind value]> r).
Proof. intros H k' v [[_ <-]|[_ Hv]]%lookup_insert_Some; [constructor|by eapply H]. Qed.

Lemma project_plain ev p : project ev = Some (Ok p) → plain_proposition p.
Proof.
  unfold project, projectFilesystem, projectNetwork, projectCapability, projectSyscall.
  destruct (ob_Kind ev); try done; intros [= H]; repeat case_match; try done;
    apply Ok_inj in H as <-; apply observed_plain; try done;
    repeat first [apply literal_insert|apply literal_empty].
Qed.

(** ** Groups *)
Definition same_prop (p q : Proposition) : Prop := equal (VProposition p) (VProposition q).
Lemma same_prop_refl p : same_prop p p.
Proof. apply equal_equivalence. Qed.
Lemma same_prop_sym p q : same_prop p q → same_prop q p.
Proof. apply equal_equivalence. Qed.
Lemma same_prop_trans p q r : same_prop p q → same_prop q r → same_prop p r.
Proof. apply equal_equivalence. Qed.

Definition group_props (gs : groups) : list SnapshotValue := map (fun g => VProposition g.1) gs.

Lemma add_to_group_props prop idx gs : group_props (add_to_group prop idx gs) =
  if existsb (fun q => StructuralEqual q (VProposition prop)) (group_props gs) then group_props gs
  else group_props gs ++ [VProposition prop].
Proof.
  induction gs as [|[q e] gs IH]; [done|]. cbn [add_to_group]. unfold group_props in *. cbn [map fst existsb].
  destruct (StructuralEqual (VProposition q) (VProposition prop)); [done|]. cbn [map fst orb]. rewrite IH.
  by destruct (existsb _ _).
Qed.

Lemma add_to_group_distinct prop idx gs : distinct (group_props gs) → distinct (group_props (add_to_group prop idx gs)).
Proof.
  rewrite add_to_group_props. destruct (existsb _ _) eqn:E; [done|]. intros H. apply distinct_app.
  split_and!; [done|by repeat constructor|]. apply Forall_forall. intros x Hx. constructor; [|constructor].
  intros Hm. unfold equal in Hm. by rewrite (existsb_false_elem _ _ _ E Hx) in Hm.
Qed.

Lemma group_not_same gs q p e : Forall (fun y => ¬ equal (VProposition p) y) (group_props gs) → (q, e) ∈ gs → ¬ same_prop p q.
Proof.
  intros H Hq. rewrite Forall_forall in H. apply H. unfold group_props.
  apply list_elem_of_In, in_map_iff. exists (q, e). by rewrite <- list_elem_of_In.
Qed.

Lemma elem_of_add_to_group prop idx gs : distinct (group_props gs) → ∀ p evd', (p, evd') ∈ add_to_group prop idx gs ↔
  ((p, evd') ∈ gs ∧ ¬ same_prop p prop) ∨
  (∃ evd, (p, evd) ∈ gs ∧ same_prop p prop ∧ evd' = evd ++ [idx]) ∨
  (p = prop ∧ evd' = [idx] ∧ ∀ q e, (q, e) ∈ gs → ¬ same_prop q prop).
Proof.
  induction gs as [|[q e] gs IH]; intros Hd p evd'.
  - cbn. rewrite list_elem_of_singleton. setoid_rewrite elem_of_nil. naive_solver.
  - destruct Hd as [Hq Hd]. cbn [add_to_group]. destruct (StructuralEqual (VProposition q) (VProposition prop)) eqn:E.
    + assert (same_prop q prop) as Hs by done.
      assert (∀ q' e', (q', e') ∈ gs → ¬ same_prop q' prop) as Hno.
      { intros q' e' Hq' Hs'. apply (group_not_same gs q' q e' Hq Hq'). exact (same_prop_trans _ _ _ Hs (same_prop_sym _ _ Hs')). }
      setoid_rewrite elem_of_cons. split.
      * intros [[= -> ->]|Hp]; [right; left; exists e; naive_solver|left; split; [by right|by eapply Hno]].
      * intros [[[[= -> ->]|Hp] Hn]|[(evd & [[= -> ->]|Hp] & Hs' & ->)|(_ & _ & Hn)]];
          [done|by right|by left|by destruct (Hno _ _ Hp)|by destruct (Hn q e (or_introl eq_refl))].
    + assert (¬ same_prop q prop) as Hs by (unfold same_prop, equal; congruence).
      setoid_rewrite elem_of_cons. rewrite (IH Hd). split.
      * intros [[= -> ->]|[[Hp Hn]|[(evd & Hp & Hs' & ->)|(-> & -> & Hn)]]]; [left; naive_solver|left; naive_solver|right; left; naive_solver|].
        right. right. split_and!; try done. intros q' e' [[= -> ->]|Hq']; [done|by eapply Hn].
      * intros [[[[= -> ->]|Hp] Hn]|[(evd & [[= -> ->]|Hp] & Hs' & ->)|(-> & -> & Hn)]]; [by left|naive_solver|done|naive_solver|].
        right. right. right. split_and!; try done. intros q' e' Hq'. eapply Hn. by right.
Qed.

(** The observation at an index states a proposition. *)
Definition observed_at (events : list Observation) (i : nat) (p : Proposition) : Prop :=
  ∃ ev, events !! i = Some ev ∧ project ev = Some (Ok p).

(** The groups after the first [n] observations. *)
Record grouped (events : list Observation) (n : nat) (gs : groups) : Prop := {
  gr_distinct : distinct (group_props gs);
  gr_plain : ∀ p evd, (p, evd) ∈ gs → plain_proposition p;
  gr_evidence : ∀ p evd, (p, evd) ∈ gs → ∀ i, i ∈ evd ↔ i < n ∧ ∃ q, observed_at events i q ∧ same_prop p q;
  gr_covered : ∀ i q, i < n → observed_at events i q → ∃ p evd, (p, evd) ∈ gs ∧ same_prop p q
}.

Lemma observed_at_inj events i p q : observed_at events i p → observed_at events i q → p = q.
Proof. intros (ev & Hev & Hp) (ev' & Hev' & Hq). congruence. Qed.

Lemma grouped_add events n gs prop : grouped events n gs → observed_at events n prop →
  grouped events (S n) (add_to_group prop n gs).
Proof.
  intros [Hd Hp He Hc] Hprop. pose proof (elem_of_add_to_group prop n gs Hd) as Hadd. split.
  - by apply add_to_group_distinct.
  - intros p evd [[Hin _]|[(evd' & Hin & _)|(-> & _)]]%Hadd; [by eapply Hp..|].
    destruct Hprop as (ev & _ & Hev). by eapply project_plain.
  - intros p evd Hin i. apply Hadd in Hin as [[Hin Hn]|[(evd' & Hin & Hs & ->)|(-> & -> & Hn)]].
    + rewrite (He p evd Hin). split; [intros [Hi H]; split; [lia|done]|]. intros [Hi (q & Hq & Hpq)].
      split; [|by exists q]. destruct (decide (i = n)) as [->|]; [|lia]. destruct Hn.
      by rewrite (observed_at_inj events n prop q).
    + rewrite elem_of_app, list_elem_of_singleton, (He p evd' Hin). split.
      * intros [[Hi H]| ->]; [split; [lia|done]|split; [lia|by exists prop]].
      * intros [Hi H]. destruct (decide (i = n)) as [->|]; [by right|left; split; [lia|done]].
    + rewrite list_elem_of_singleton. split.
      * intros ->. split; [lia|]. exists prop. split; [done|apply same_prop_refl].
      * intros [Hi (q & Hq & Hpq)]. destruct (decide (i = n)) as [|]; [done|]. exfalso.
        destruct (Hc i q) as (p' & evd' & Hin' & Hp'q); [lia|done|]. apply (Hn p' evd' Hin').
        exact (same_prop_trans _ _ _ Hp'q (same_prop_sym _ _ Hpq)).
  - intros i q Hi Hq. destruct (decide (i = n)) as [->|].
    + rewrite <- (observed_at_inj events n prop q Hprop Hq).
      destruct (decide (Exists (fun g => StructuralEqual (VProposition g.1) (VProposition prop) = true) gs)) as [Hex|Hno].
      * apply Exists_exists in Hex as ([p evd] & Hin & Hs). exists p, (evd ++ [n]). split; [|exact Hs].
        apply Hadd. right. left. exists evd. done.
      * exists prop, [n]. split; [|apply same_prop_refl]. apply Hadd. right. right. split_and!; try done.
        intros q' e' Hq' Hs. apply Hno, Exists_exists. by exists (q', e').
    + destruct (Hc i q) as (p & evd & Hin & Hpq); [lia|done|].
      destruct (StructuralEqual (VProposition p) (VProposition prop)) eqn:E.
      * exists p, (evd ++ [n]). split; [|done]. apply Hadd. right. left. by exists evd.
      * exists p, evd. split; [|done]. apply Hadd. left. split; [done|]. unfold same_prop, equal. congruence.
Qed.

Lemma group_observations_spec events : ∀ rest done gs gs', events = done ++ rest →
  grouped events (length done) gs → group_observations rest (length done) gs = Ok gs' →
  grouped events (length events) gs'.
Proof.
  induction rest as [|ev rest IH]; intros dn gs gs' Hev Hg H.
  - cbn in H. apply Ok_inj in H as <-. rewrite app_nil_r in Hev. by subst.
  - assert (events !! length dn = Some ev) as Hat by (subst; by rewrite list_lookup_middle).
    assert (length (dn ++ [ev]) = S (length dn)) as Hlen by (rewrite length_app; cbn; lia).
    cbn [group_observations] in H. destruct (project ev) as [[prop|e]|] eqn:Ep; [| |].
    + apply (IH (dn ++ [ev]) (add_to_group prop (length dn) gs)); [by rewrite <- app_assoc| |by rewrite Hlen].
      rewrite Hlen. apply grouped_add; [done|]. by exists ev.
    + discriminate H.
    + apply (IH (dn ++ [ev]) gs); [by rewrite <- app_assoc| |by rewrite Hlen]. rewrite Hlen.
      destruct Hg as [Hd Hp He Hc].
      assert (∀ q, ¬ observed_at events (length dn) q) as Hno by (intros q (ev' & Hev' & Hq); congruence).
      split; try done.
      * intros p evd Hin i. rewrite (He p evd Hin). split; [intros [? ?]; split; [lia|done]|].
        intros [Hi (q & Hq & Hpq)]. destruct (decide (i = length dn)) as [->|]; [by destruct (Hno q)|split; [lia|eauto]].
      * intros i q Hi Hq. destruct (decide (i = length dn)) as [->|]; [by destruct (Hno q)|]. apply (Hc i); [lia|done].
Qed.

(** ** The run *)

(** The act of the run is in the graph and resolves. *)
Definition act_in (g : Graph) (act : Act) : Prop :=
  typed_act g (Act_Identity act) = Some (actCanonicalKey act) ∧ acts g !! actCanonicalKey act = Some act.

Lemma AppendAct_first act : Uses act = [] → DeclaredOutputs act = [] → ∃ g, AppendAct NewGraph act = Ok g ∧ act_in g act ∧ assertions g = ∅.
Proof.
  intros Hu Ho. unfold AppendAct.
  assert (∀ k, acts NewGraph !! k = None) as -> by (intros k; apply lookup_empty).
  rewrite Hu, Ho. cbn [existsb forallb negb]. eexists. split; [reflexivity|].
  unfold act_in, typed_act. cbn [assertions acts actIdentityIndex NewGraph]. by rewrite !lookup_insert_eq.
Qed.

Section building.
Context (act : Act) (rt : time).
Context (Hsample : ∃ s k i o, act = NewAct s k i None o).

Definition group_event (p : Proposition) : AssertionEvent :=
  mkAssertionEvent (NewProducerRefFromAct (Act_Identity act)) p rt.

Record built (res : BuildResult) (done : groups) : Prop := {
  bu_reachable : graph_reachable (br_Graph res);
  bu_act : act_in (br_Graph res) act;
  bu_nodup : NoDup (br_AssertionIDs res);
  bu_groups : Forall2 (fun id grp => assertions (br_Graph res) !! id = Some (group_event grp.1) ∧
    br_EvidenceGroups res !! id = Some grp.2) (br_AssertionIDs res) done;
  bu_only : ∀ id, is_Some (assertions (br_Graph res) !! id) ∨ is_Some (br_EvidenceGroups res !! id) → id ∈ br_AssertionIDs res
}.

Lemma group_event_wf p : plain_proposition p → wf_event (group_event p).
Proof. intros Hp. split; [apply (pp_args p Hp)|done]. Qed.

Lemma NewAssertionEvent_plain p : plain_proposition p →
  NewAssertionEvent (NewProducerRefFromAct (Act_Identity act)) p rt = Ok (group_event p).
Proof.
  intros [Ha Ht Hph Hm]. unfold NewAssertionEvent. rewrite Hph, Hm. cbn [Token].
  rewrite (bool_decide_eq_false_2 (Token (term p) = "")) by done. cbn. by rewrite CloneProposition_id.
Qed.

Lemma Forall2_stored {B} (P : string → B → Prop) ids done id : Forall2 P ids done → id ∈ ids → ∃ grp, grp ∈ done ∧ P id grp.
Proof.
  intros HF [i Hi]%list_elem_of_lookup_1. destruct (Forall2_lookup_l _ _ _ _ _ HF Hi) as (grp & Hg & HP).
  exists grp. split; [by eapply list_elem_of_lookup_2|done].
Qed.

Lemma Forall2_impl_left {A B} (P Q : A → B → Prop) l k :
  Forall2 P l k → (∀ x y, x ∈ l → P x y → Q x y) → Forall2 Q l k.
Proof.
  induction 1 as [|x y l k Hxy HF IH]; intros H; constructor; [apply H; [by left|done]|].
  apply IH. intros x' y' Hx. apply H. by right.
Qed.

Lemma built_step res dn p evd : built res dn → plain_proposition p →
  Forall (fun q => ¬ equal q (VProposition p)) (group_props dn) →
  ∃ g id, AppendAssertionEvent (br_Graph res) (group_event p) = Ok (g, id) ∧
    built (mkBuildResult g (br_AssertionIDs res ++ [id]) (<[id := evd]> (br_EvidenceGroups res))) (dn ++ [(p, evd)]).
Proof using Hsample.
  intros [Hr [Hty Hac] Hnd HF Honly] Hp Hnew.
  pose proof (graph_reachable_wf _ Hr) as W. pose proof (group_event_wf p Hp) as He.
  destruct (append_event_cases (br_Graph res) (group_event p) W He) as [(i & f & Hf & Heq & _)|[_ E]].
  { exfalso. destruct (Forall2_stored _ _ _ i HF (Honly i (or_introl (mk_is_Some _ _ Hf)))) as ([q e] & Hq & Hst & _).
    rewrite Hf in Hst. injection Hst as ->. destruct (wg_events _ W i _ Hf) as [Hwf _].
    apply (Event_Equals_spec _ _ Hwf He) in Heq as [_ Heq]. rewrite Forall_forall in Hnew.
    apply (Hnew (VProposition q)); [|exact Heq]. apply list_elem_of_In, in_map_iff. exists (q, e). by rewrite <- list_elem_of_In. }
  assert (violates_uses (br_Graph res) (group_event p) = false) as V.
  { unfold violates_uses. cbn [group_event ev_producer NewProducerRefFromAct pr_act]. rewrite Hty. unfold act_at. rewrite Hac.
    destruct Hsample as (s & k & iv & o & ->). reflexivity. }
  rewrite V in E. set (id := fresh_id (br_Graph res) (assertionCanonicalKey (group_event p))) in *.
  assert (assertions (br_Graph res) !! id = None) as Hfresh by apply fresh_id_fresh.
  assert (∀ j, j ∈ br_AssertionIDs res → j ≠ id) as Hne.
  { intros j Hj ->. destruct (Forall2_stored _ _ _ id HF Hj) as (grp & _ & Hst & _). by rewrite Hfresh in Hst. }
  eexists _, id. split; [exact E|]. split; cbn [br_Graph br_AssertionIDs br_EvidenceGroups].
  - eapply rtc_r; [exact Hr|exact (step_event _ _ _ _ He E)].
  - split; [exact Hty|exact Hac].
  - apply NoDup_app. split_and!; [done| |apply NoDup_singleton]. intros j Hj ->%list_elem_of_singleton. by apply (Hne id).
  - apply Forall2_app; [|constructor; [|constructor]].
    + eapply Forall2_impl_left; [exact HF|]. intros j grp Hj [H1 H2]. cbn [store_event assertions].
      rewrite !lookup_insert_ne by (by apply not_eq_sym, Hne). done.
    + cbn [store_event assertions fst snd]. by rewrite !lookup_insert_eq.
  - intros j. cbn [store_event assertions]. rewrite !lookup_insert_is_Some', elem_of_app, list_elem_of_singleton.
    intros [[->|Hj]|[->|Hj]]; auto.
Qed.

Lemma append_groups_spec gs : ∀ res dn, built res dn → Forall (fun grp => plain_proposition grp.1) gs →
  distinct (group_props (dn ++ gs)) →
  ∃ res', append_groups (NewProducerRefFromAct (Act_Identity act)) rt gs res = Ok res' ∧ built res' (dn ++ gs).
Proof using Hsample.
  induction gs as [|[p evd] gs IH]; intros res dn Hb Hpl Hd.
  - exists res. by rewrite app_nil_r.
  - inversion Hpl as [|?? Hp Hpl']; subst. cbn [append_groups]. cbn [fst] in Hp.
    rewrite NewAssertionEvent_plain by done. cbn [mbind result_bind].
    assert (Forall (fun q => ¬ equal q (VProposition p)) (group_props dn)) as Hnew.
    { unfold group_props in *. rewrite map_app in Hd. apply distinct_app in Hd as (_ & _ & Hd).
      eapply Forall_impl; [exact Hd|]. intros q Hq. by inversion Hq. }
    destruct (built_step res dn p evd Hb Hp Hnew) as (g & id & E & Hb'). rewrite E. cbn [mbind result_bind].
    destruct (IH _ (dn ++ [(p, evd)]) Hb' Hpl') as (res' & Hres & Hfin); [by rewrite <- app_assoc|].
    exists res'. split; [done|]. by rewrite <- app_assoc in Hfin.
Qed.
End building.

(** ** Belief in a graph without relations *)
Lemma first_error_Ok {A} (check : A → result unit) l : (∀ x, x ∈ l → check x = Ok tt) → first_error check l = Ok tt.
Proof.
  induction l as [|x l IH]; intros H; [done|]. cbn. rewrite H by left. cbn. apply IH. intros y Hy. apply H. by right.
Qed.

(** An event that is no relation, produced by a resolved act without uses. *)
Definition calm_event (g : Graph) (ev : AssertionEvent) : Prop :=
  TypeName (phase (ev_proposition ev)) ≠ "Relation" ∧
  ∃ aid act, pr_act (ev_producer ev) = Some aid ∧ typed_act g aid = Some (actCanonicalKey act) ∧
    acts g !! actCanonicalKey act = Some act ∧ act_uses act = None.

Lemma calm_not_relation tok ev : TypeName (phase (ev_proposition ev)) ≠ "Relation" → is_relation tok (Event_Proposition ev) = false.
Proof. intros H. unfold is_relation. apply andb_false_iff. left. apply bool_decide_eq_false. exact H. Qed.

Lemma calm_belief g : graph_reachable g → (∀ id ev, assertions g !! id = Some ev → calm_event g ev) →
  ∃ L, BeliefState g = Ok L ∧ ∀ id, is_Some (assertions g !! id) ↔ Lookup L id = beliefIn.
Proof.
  intros Hg Hcalm.
  assert (CandidateAttacks g = []) as Hatt.
  { destruct (CandidateAttacks g) as [|A l] eqn:E; [done|]. exfalso.
    assert (A ∈ CandidateAttacks g) as HA by (rewrite E; left). apply elem_of_CandidateAttacks in HA; [|done].
    destruct HA as [id ev aRef tRef Hev Hrefs|id ev pa pb rest a t l' r gs Hev Hr]; destruct (Hcalm id ev Hev) as [Hn _].
    - apply relation_refs_Some in Hrefs as [Hd _]. unfold isDefeatProp in Hd. by rewrite calm_not_relation in Hd.
    - unfold isRebuttalProp in Hr. by rewrite calm_not_relation in Hr. }
  assert (validateEvaluationUniverse g = Ok tt) as Hv.
  { unfold validateEvaluationUniverse. rewrite Hatt. rewrite (first_error_Ok (validate_event g)); [reflexivity|]. intros id Hid.
    apply elem_of_universe in Hid as [ev Hev]. destruct (Hcalm id ev Hev) as (_ & aid & act & Ha & Ht & Hact & Hu).
    unfold validate_event, GetAssertionEvent. rewrite Hev, Ha, Ht. unfold act_at. rewrite Hact. change (default zero_act (Some act)) with act.
    unfold UsesPresent. by rewrite Hu. }
  destruct (leastFixedPoint_total g Hv) as (L & HL & _). exists L. split; [exact HL|]. intros id. split.
  - intros Hid. rewrite (BeliefState_verdict g L id HL Hid). apply verdict_in, InCondition_spec. rewrite Hatt.
    split; [intros A HA; by apply elem_of_nil in HA|]. destruct Hid as [ev Hev].
    destruct (Hcalm id ev Hev) as (_ & aid & act & Ha & Ht & Hact & Hu).
    unfold premises. rewrite Hev, Ha, Ht, Hact. unfold Uses. rewrite Hu. intros p Hp. by apply elem_of_nil in Hp.
  - intros Hin. apply elem_of_universe. destruct (BeliefState_Ok g L HL) as (_ & Hfix & _).
    destruct (decide (id ∈ universe g)); [done|]. rewrite <- Hfix, universe_outside in Hin by done. discriminate Hin.
Qed.

(** What a run produces: the assertions are the distinct propositions the
    observations state, each with the observations that state it as evidence,
    and all of them are believed. *)
Definition run_result (events : list Observation) (res : BuildResult) : Prop :=
  graph_reachable (br_Graph res) ∧ NoDup (br_AssertionIDs res) ∧
  (∀ id, is_Some (assertions (br_Graph res) !! id) ↔ id ∈ br_AssertionIDs res) ∧
  (∀ i p, observed_at events i p → ∃ id, id ∈ br_AssertionIDs res ∧ states (br_Graph res) id p) ∧
  (∀ id, id ∈ br_AssertionIDs res → ∃ evidence, br_EvidenceGroups res !! id = Some evidence ∧
    ∀ i, i ∈ evidence ↔ ∃ p, observed_at events i p ∧ states (br_Graph res) id p) ∧
  ∃ L, BeliefState (br_Graph res) = Ok L ∧ ∀ id, id ∈ br_AssertionIDs res → Lookup L id = beliefIn.

Lemma states_event act rt g id p q : plain_proposition p → assertions g !! id = Some (group_event act rt p) →
  states g id q ↔ same_prop p q.
Proof.
  intros Hp Hid. unfold states. rewrite Hid. split.
  - intros (ev & [= <-] & H). rewrite Event_Proposition_wf in H by (by apply group_event_wf). exact H.
  - intros H. eexists. split; [done|]. rewrite Event_Proposition_wf by (by apply group_event_wf). exact H.
Qed.

Lemma built_run_result act rt events gs res : act_uses act = None → grouped events (length events) gs → built act rt res gs →
  run_result events res.
Proof.
  intros Hu [Hd Hpl Hev Hc] [Hr [Hty Hac] Hnd HF Honly].
  assert (∀ id, id ∈ br_AssertionIDs res → ∃ p evd, (p, evd) ∈ gs ∧ assertions (br_Graph res) !! id = Some (group_event act rt p) ∧
    br_EvidenceGroups res !! id = Some evd) as Hid.
  { intros id Hin. destruct (Forall2_stored _ _ _ id HF Hin) as ([p evd] & Hg & H1 & H2). eauto. }
  split; [exact Hr|]. split; [exact Hnd|]. split; [|split; [|split]].
  - intros id. split; [intros H; apply Honly; by left|]. intros H. destruct (Hid id H) as (p & evd & _ & Hst & _). eauto.
  - intros i p Hp. destruct Hp as (ev & Hat & Hproj). apply lookup_lt_Some in Hat as Hlt.
    destruct (Hc i p Hlt) as (q & evd & Hin & Hqp); [by exists ev|].
    apply list_elem_of_lookup_1 in Hin as [j Hj]. destruct (Forall2_lookup_r _ _ _ _ _ HF Hj) as (id & Hidj & H1 & _).
    exists id. split; [by eapply list_elem_of_lookup_2|]. apply (states_event act rt _ id q p); [|done|done].
    apply (Hpl q evd). by eapply list_elem_of_lookup_2.
  - intros id Hin. destruct (Hid id Hin) as (p & evd & Hg & Hst & He). exists evd. split; [exact He|]. intros i.
    pose proof (Hpl p evd Hg) as Hp. rewrite (Hev p evd Hg i). split.
    + intros [_ (q & Hq & Hpq)]. exists q. split; [exact Hq|]. by apply (states_event act rt _ id p q).
    + intros (q & Hq & Hs). apply (states_event act rt _ id p q) in Hs; [|done..]. split; [|by exists q].
      destruct Hq as (ev & Hat & _). by apply lookup_lt_Some in Hat.
  - destruct (calm_belief (br_Graph res) Hr) as (L & HL & HLin).
    + intros id ev Hst. destruct (Hid id) as (p & evd & Hg & Hst' & _); [apply Honly; left; eauto|].
      rewrite Hst in Hst'. injection Hst' as ->. pose proof (Hpl p evd Hg) as [_ _ Hph _]. split.
      * cbn. by rewrite Hph.
      * exists (Act_Identity act), act. done.
    + exists L. split; [exact HL|]. intros id Hin. apply HLin. destruct (Hid id Hin) as (p & evd & _ & Hst & _). eauto.
Qed.

Lemma build_from_groups meta events interval gs :
  group_observations events 0 [] = Ok gs → time_is_zero (rm_RecordTime meta) = false →
  ∃ g res, AppendAct NewGraph (acquisition_act meta interval) = Ok g ∧ NewRecordTime (rm_RecordTime meta) = Ok (rm_RecordTime meta) ∧
    append_groups (NewProducerRefFromAct (Act_Identity (acquisition_act meta interval))) (rm_RecordTime meta) gs (mkBuildResult g [] ∅) = Ok res ∧
    run_result events res.
Proof.
  intros Hgs Hz. destruct (AppendAct_first (acquisition_act meta interval) eq_refl eq_refl) as (g & Eg & Hact & Hass).
  assert (grouped events (length events) gs) as Hgr.
  { apply (group_observations_spec events events [] [] gs); [done| |done]. split; try done.
    - intros p evd H. by apply elem_of_nil in H.
    - intros p evd H. by apply elem_of_nil in H.
    - intros i q Hi. cbn in Hi. lia. }
  assert (built (acquisition_act meta interval) (rm_RecordTime meta) (mkBuildResult g [] ∅) []) as Hb0.
  { split; cbn [br_Graph br_AssertionIDs br_EvidenceGroups]; [|exact Hact|constructor|constructor|].
    - apply rtc_once. exact (step_act NewGraph _ _ _ _ _ _ Eg).
    - intros id. rewrite Hass, !lookup_empty. by intros [[? [=]]|[? [=]]]. }
  destruct (append_groups_spec (acquisition_act meta interval) (rm_RecordTime meta) ltac:(by eexists _, _, _, _) gs _ [] Hb0)
    as (res & Eres & Hres).
  - apply Forall_forall. intros [p evd] Hin. by apply (gr_plain _ _ _ Hgr p evd).
  - apply (gr_distinct _ _ _ Hgr).
  - exists g, res. split; [exact Eg|]. split; [by unfold NewRecordTime; rewrite Hz|]. split; [exact Eres|].
    by apply (built_run_result (acquisition_act meta interval) (rm_RecordTime meta) events gs).
Qed.

Lemma group_observations_total l : ∀ n gs, (∀ ev, ev ∈ l → ∀ e, project ev ≠ Some (Err e)) →
  ∃ gs', group_observations l n gs = Ok gs'.
Proof.
  induction l as [|ev l IH]; intros n gs Hl; cbn; [eauto|].
  destruct (project ev) as [[p|e]|] eqn:E; [|by destruct (Hl ev ltac:(by left) e)|];
    apply IH; intros ev' Hev'; apply Hl; by right.
Qed.

Lemma empty_run : run_result [] (mkBuildResult NewGraph [] ∅).
Proof.
  split; [apply rtc_refl|]. split; [constructor|]. split; [|split; [|split]].
  - intros id. cbn. rewrite lookup_empty. split; [by intros [? [=]]|]. intros H. by apply elem_of_nil in H.
  - intros i p (ev & Hat & _). by rewrite lookup_nil in Hat.
  - intros id H. by apply elem_of_nil in H.
  - exists ∅. split; [reflexivity|]. intros id H. by apply elem_of_nil in H.
Qed.

(** C17: A run is refused only by the validation of its input: a zero record time, a
    zero time stamp, an inconsistent interval or an observation that cannot be
    projected.  Otherwise it produces the graph described above: no step of the
    construction itself can fail. *)
Theorem BuildGraphFromObservations_correct (meta : RunMeta) (events : list Observation) :
  (∀ res, BuildGraphFromObservations meta events = Ok res → run_result events res) ∧
  (time_is_zero (rm_RecordTime meta) = false → events ≠ [] →
   ∀ found interval, derived_bounds events None = Ok found → run_interval meta found = Ok interval →
     (∀ ev, ev ∈ events → ∀ e, project ev ≠ Some (Err e)) →
     ∃ res, BuildGraphFromObservations meta events = Ok res).
Proof.
  split.
  - intros res H. unfold BuildGraphFromObservations in H. apply result_guard_Ok in H as [Hz H].
    destruct events as [|ev events'] eqn:Eev; [apply Ok_inj in H as <-; apply empty_run|]. rewrite <- Eev in *.
    apply result_bind_Ok in H as (found & _ & H). apply result_bind_Ok in H as (interval & _ & H).
    apply result_bind_Ok in H as (g & Eg & H). apply result_bind_Ok in H as (gs & Egs & H).
    apply result_bind_Ok in H as (rt & Ert & H).
    destruct (build_from_groups meta events interval gs Egs Hz) as (g' & res' & Eg' & Ert' & E & Hres).
    rewrite Eg in Eg'. apply Ok_inj in Eg' as <-. rewrite Ert in Ert'. apply Ok_inj in Ert' as ->.
    rewrite H in E. by apply Ok_inj in E as <-.
  - intros Hz Hne found interval Hf Hi Hproj. unfold BuildGraphFromObservations. rewrite Hz.
    destruct (group_observations_total events 0 [] Hproj) as [gs Egs].
    destruct (build_from_groups meta events interval gs Egs Hz) as (g & res & Eg & Ert & E & _). exists res.
    destruct events as [|ev events'] eqn:Eev; [done|]. rewrite <- Eev in *.
    by rewrite Hf; cbn [mbind result_bind]; rewrite Hi; cbn [mbind result_bind]; rewrite Eg; cbn [mbind result_bind];
      rewrite Egs; cbn [mbind result_bind]; rewrite Ert.
Qed.

Definition sample_observation : Observation := mkObservation KindFilesystem "/etc/hosts" "read" "" false false 0 5.
Definition sample_meta : RunMeta := mkRunMeta "pod" None None 9.

Lemma BuildGraphFromObservations_witness :
  ∃ res, BuildGraphFromObservations sample_meta [sample_observation; sample_observation] = Ok res.
Proof.
  refine (proj2 (BuildGraphFromObservations_correct sample_meta [sample_observation; sample_observation]) eq_refl _
    (Some (5, 5)%Z) (NewValidTime (Some 5%Z) (Some 5%Z)) eq_refl eq_refl _); [discriminate|].
  intros ev Hev e. assert (ev = sample_observation) as ->.
  { apply elem_of_cons in Hev as [->|Hev]; [reflexivity|]. apply elem_of_cons in Hev as [->|Hev]; [reflexivity|].
    by apply elem_of_nil in Hev. }
  discriminate.
Defined.

(** The graph of one event, produced by an act without uses. *)
Definition one_act : Act := NewAct "s" ActContact (NewValidTime None None) None None.
Definition one_event : AssertionEvent := group_event one_act 1 (observed "T" ∅).

Lemma one_event_graph : ∃ g e, graph_reachable g ∧ assertions g !! e = Some one_event ∧ act_in g one_act ∧
  (∀ id ev, assertions g !! id = Some ev → ev = one_event).
Proof.
  destruct (AppendAct_first one_act eq_refl eq_refl) as (g & Eg & Hact & Hass).
  assert (built one_act 1 (mkBuildResult g [] ∅) []) as Hb.
  { split; cbn [br_Graph br_AssertionIDs br_EvidenceGroups]; [|exact Hact|constructor|constructor|].
    - apply rtc_once. exact (step_act NewGraph _ _ _ _ _ _ Eg).
    - intros id. rewrite Hass, !lookup_empty. by intros [[? [=]]|[? [=]]]. }
  assert (plain_proposition (observed "T" ∅)) as Hp by (apply observed_plain; [done|apply literal_empty]).
  destruct (built_step one_act 1 ltac:(by eexists _, _, _, _) _ [] (observed "T" ∅) [0] Hb Hp ltac:(constructor))
    as (h & id & _ & [Hr Ha Hnd HF Honly]).
  cbn [br_Graph br_AssertionIDs br_EvidenceGroups app] in *. inversion HF as [|??? ? [Hst _] _]; subst.
  exists h, id. split_and!; try done. intros j ev Hj.
  assert (j ∈ [id]) as Hin by (apply Honly; left; eauto). apply list_elem_of_singleton in Hin as ->.
  rewrite Hst in Hj. by injection Hj as <-.
Qed.

Lemma BeliefState_complete_witness : ∃ g L e, Lookup L e = beliefIn ∧ BeliefState g = Ok L ∧
  ∀ A, candidate g A → target A = e → ¬ active A L.
Proof.
  destruct one_event_graph as (g & e & Hg & He & [Hty Hac] & Honly).
  destruct (calm_belief g Hg) as (L & HL & Hin).
  - intros id ev Hev. rewrite (Honly id ev Hev). split; [discriminate|].
    exists (Act_Identity one_act), one_act. split; [reflexivity|]. split; [exact Hty|]. split; [exact Hac|reflexivity].
  - exists g, L, e. pose proof (proj1 (Hin e) (mk_is_Some _ _ He)) as HLe. split; [exact HLe|]. split; [exact HL|].
    exact (proj2 (proj2 (BeliefState_complete g L e Hg HL (mk_is_Some _ _ He))) HLe).
Defined.
