(* ===== verification/Reconciliation.v ===== *)
(** * internal/reconciliation: policy selection and the verification axes

    reconciliation.go and verification.go: the governance projection of
    already-loaded proposals and attempts.  The result groups: which proposal
    is the current authority of a subject, what each of the five axes of
    [ProjectVerification] says about the stored objects, and that neither
    depends on the order the objects were listed in. *)
From S2P Require Import Prelude GoStd Identity Digest Json SpoBackend Target Timestamp History Proposal Attempt RollbackAttempt.
Import History.

(** ** Ordering by a sequence of strings

    [compareRefs] and [compareEnvironmentSubjects] run through pairs of strings
    and return at the first difference. *)
Fixpoint comparePairs (pairs : list (string * string)) : Z :=
  match pairs with
  | [] => 0
  | (a, b) :: pairs =>
      if string_ltb a b then -1 else if string_ltb b a then 1 else comparePairs pairs
  end.

(** ** Subjects *)
Abbreviation EnvironmentSubject := PopulationIdentity.

Definition EnvironmentSubjectFromPopulationFingerprint (fingerprint : PopulationFingerprint) : result EnvironmentSubject :=
  normalized fingerprint.

Definition subject_valid (s : EnvironmentSubject) : bool := is_ok (PopulationIdentity_Validate s).

Definition SubjectsEqual (left right : EnvironmentSubject) : bool :=
  if negb (subject_valid left) || negb (subject_valid right) then false
  else bool_decide (left = right).

(** ** Selection *)
Record ProposalRef := mkProposalRef { ref_Namespace : string; ref_Name : string; ref_UID : string }.
#[export] Instance ProposalRef_eq_dec : EqDecision ProposalRef.
Proof. solve_decision. Defined.

Record CandidateProposal := mkCandidateProposal { cp_Ref : ProposalRef; cp_Spec : Spec; cp_Status : Status }.

Inductive SelectionState := SelectionNone | SelectionSelected | SelectionAmbiguous.

Record SelectionRejection := mkSelectionRejection { rej_Ref : ProposalRef; rej_Reason : string }.

Record ApprovedPolicySelection := mkSelection {
  sel_State : SelectionState; sel_Proposal : option CandidateProposal;
  sel_AmbiguousRefs : list ProposalRef; sel_RejectedCandidates : list SelectionRejection }.

Definition compareRefs (left right : ProposalRef) : Z :=
  comparePairs [(ref_Namespace left, ref_Namespace right); (ref_Name left, ref_Name right); (ref_UID left, ref_UID right)].
Definition ref_less (left right : ProposalRef) : bool := (compareRefs left right <? 0)%Z.

Definition SubjectMatchesCandidateV2 (subject : EnvironmentSubject) (candidate : CandidateV2) : bool :=
  if negb (subject_valid subject) || negb (is_ok (CandidateV2_Validate candidate)) then false
  else if negb (bool_decide (pi_Scope subject = ScopeContainer)) || negb (bool_decide (pi_BinaryPath subject = "")) then false
  else bool_decide (sub_Scope (cand_Subject candidate) = CandidateV2ScopeContainer) &&
    bool_decide (sub_Target (cand_Subject candidate) = pi_Target subject) &&
    bool_decide (sub_Container (cand_Subject candidate) = pi_Container subject) &&
    bool_decide (sub_ImageIdentity (cand_Subject candidate) = pi_ImageIdentity subject).

Definition is_v2 (spec : Spec) : bool :=
  bool_decide (normalizedCandidateVersion (sp_CandidateVersion spec) = Ok CandidateVersionV2).

Definition rejection (ref : ProposalRef) (reason : string) : SelectionRejection := mkSelectionRejection ref reason.

(** One round of the loop of [SelectApprovedPolicy]: the reason to reject the
    candidate, if there is one.  An error contributes the constant part of its
    message. *)
Definition reject_reason (subject : EnvironmentSubject) (candidate : CandidateProposal) : option string :=
  if negb (is_v2 (cp_Spec candidate)) then Some "not candidate-v2"
  else match candidateV2 (cp_Spec candidate) with
  | Err err => Some (err_msg err)
  | Ok candidateValue =>
      if negb (SubjectMatchesCandidateV2 subject candidateValue) then Some "subject mismatch"
      else if negb (bool_decide (st_ApprovalState (cp_Status candidate) = ApprovalApproved))
      then Some "approval state is not Approved"
      else match ValidateApprovedCandidate (Some (cp_Spec candidate)) (Some (cp_Status candidate)) with
      | Err err => Some ("approval validation failed: " +:+ err_msg err)
      | Ok _ => None
      end
  end.

(** The loop: the rejections and the valid candidates, in input order. *)
Fixpoint select_loop (subject : EnvironmentSubject) (candidates : list CandidateProposal)
  : list SelectionRejection * list CandidateProposal :=
  match candidates with
  | [] => ([], [])
  | candidate :: candidates =>
      let '(rejected, valid) := select_loop subject candidates in
      match reject_reason subject candidate with
      | Some reason => (rejection (cp_Ref candidate) reason :: rejected, valid)
      | None => (rejected, candidate :: valid)
      end
  end.

Definition SelectApprovedPolicy (subject : EnvironmentSubject) (candidates : list CandidateProposal)
  : ApprovedPolicySelection :=
  if negb (subject_valid subject) then mkSelection SelectionNone None [] []
  else
    let '(rejected, valid) := select_loop subject candidates in
    let rejected := sort_by (less_on rej_Ref ref_less) rejected in
    match valid with
    | [] => mkSelection SelectionNone None [] rejected
    | [p] => mkSelection SelectionSelected (Some p) [] rejected
    | _ => mkSelection SelectionAmbiguous None (sort_by ref_less (map cp_Ref valid)) rejected
    end.

(** ** The axes *)
Inductive GovernanceState :=
| GovernanceNone | GovernanceDraft | GovernanceReviewed | GovernanceApproved | GovernanceRejected
| GovernanceStaleApproval | GovernanceAmbiguous.
#[export] Instance GovernanceState_eq_dec : EqDecision GovernanceState.
Proof. solve_decision. Defined.

Inductive DerivationState := DerivationNoProposal | DerivationStructurallyValid | DerivationInvalid.

Inductive ApplicationState :=
| ApplicationNoCurrentPolicy | ApplicationNotAttempted | ApplicationInProgress | ApplicationApplied
| ApplicationPartiallyApplied | ApplicationFailed | ApplicationOutcomeUnknown | ApplicationRolledBack
| ApplicationRollbackPartiallyApplied | ApplicationRollbackFailed | ApplicationRollbackOutcomeUnknown
| ApplicationRollbackInProgress | ApplicationNotProjectableAmbiguousPolicy.
#[export] Instance ApplicationState_eq_dec : EqDecision ApplicationState.
Proof. solve_decision. Defined.

Inductive StructuralKnowledge :=
| StructuralNone | StructuralNotConfirmed | StructuralConfirmedAtApplication | StructuralPartial | StructuralUnknown.
#[export] Instance StructuralKnowledge_eq_dec : EqDecision StructuralKnowledge.
Proof. solve_decision. Defined.

Inductive BehavioralVerification := BehavioralVerificationUnknown.

Record ApplyAttemptInput := mkApplyAttemptInput {
  aa_Namespace : string; aa_Name : string; aa_UID : string; aa_CreatedAt : time;
  aa_Spec : Attempt.Spec; aa_Status : Attempt.Status }.

Record RollbackAttemptInput := mkRollbackAttemptInput {
  ra_Namespace : string; ra_Name : string; ra_UID : string; ra_CreatedAt : time;
  ra_Spec : RollbackAttempt.RollbackSpec; ra_Status : Attempt.Status }.

Record AttemptRef := mkAttemptRef { at_Kind : string; at_Namespace : string; at_Name : string; at_UID : string }.

Record VerificationProjection := mkProjection {
  vp_Derivation : DerivationState; vp_Governance : GovernanceState; vp_Application : ApplicationState;
  vp_Structural : StructuralKnowledge; vp_Behavioral : BehavioralVerification;
  vp_Proposal : option CandidateProposal; vp_CurrentAttemptRefs : list AttemptRef;
  vp_CurrentAttemptsIgnored : Z }.

(** The [rank] table; a missing key reads as 0. *)
Definition governance_rank (g : GovernanceState) : Z :=
  match g with
  | GovernanceNone => 0 | GovernanceDraft => 1 | GovernanceReviewed => 2
  | GovernanceRejected => 3 | GovernanceStaleApproval => 4 | GovernanceApproved => 5
  | GovernanceAmbiguous => 0
  end.

Definition preferGovernance (current candidate : GovernanceState) : GovernanceState :=
  if (governance_rank current <? governance_rank candidate)%Z then candidate else current.

(** The governance state a compatible proposal contributes, if its approval
    state is one of the four known ones. *)
Definition candidate_governance (candidate : CandidateProposal) : option GovernanceState :=
  let state := st_ApprovalState (cp_Status candidate) in
  if bool_decide (state = ApprovalDraft) then Some GovernanceDraft
  else if bool_decide (state = ApprovalReviewed) then Some GovernanceReviewed
  else if bool_decide (state = ApprovalRejected) then Some GovernanceRejected
  else if bool_decide (state = ApprovalApproved) then
    if is_ok (ValidateApprovedCandidate (Some (cp_Spec candidate)) (Some (cp_Status candidate)))
    then Some GovernanceApproved else Some GovernanceStaleApproval
  else None.

(** The [continue] guards of [deriveProposalAxes] and [derivationBaseline]. *)
Definition compatible_v2 (subject : EnvironmentSubject) (spec : Spec) : bool :=
  is_v2 spec &&
  match candidateV2 spec with Ok candidate => SubjectMatchesCandidateV2 subject candidate | Err _ => false end.

Definition axes_step (subject : EnvironmentSubject) (acc : DerivationState * GovernanceState)
  (candidate : CandidateProposal) : DerivationState * GovernanceState :=
  if compatible_v2 subject (cp_Spec candidate) then
    (DerivationStructurallyValid,
     match candidate_governance candidate with
     | Some g => preferGovernance (snd acc) g
     | None => snd acc
     end)
  else acc.

Definition deriveProposalAxes (subject : EnvironmentSubject) (candidates : list CandidateProposal)
  : DerivationState * GovernanceState :=
  foldl (axes_step subject) (DerivationNoProposal, GovernanceNone) candidates.

(** ** Attempts *)
Inductive AttemptInput := InApply (a : ApplyAttemptInput) | InRollback (r : RollbackAttemptInput).

Record orderedAttempt := mkOrdered {
  oa_kind : string; oa_namespace : string; oa_name : string; oa_uid : string;
  oa_started : time; oa_created : time; oa_attempt : AttemptInput }.

Definition attemptBefore (left right : orderedAttempt) : bool :=
  if negb (oa_started left =? oa_started right)%Z then (oa_started right <? oa_started left)%Z
  else if negb (oa_created left =? oa_created right)%Z then (oa_created right <? oa_created left)%Z
  else if negb (bool_decide (oa_namespace left = oa_namespace right)) then string_ltb (oa_namespace left) (oa_namespace right)
  else if negb (bool_decide (oa_name left = oa_name right)) then string_ltb (oa_name left) (oa_name right)
  else if negb (bool_decide (oa_uid left = oa_uid right)) then string_ltb (oa_uid left) (oa_uid right)
  else string_ltb (oa_kind left) (oa_kind right).

(** One round of each loop of [projectAttempts]: the attempts ordered so far
    and the number ignored. *)
Definition order_apply (proposalUID : string) (acc : list orderedAttempt * Z) (a : ApplyAttemptInput)
  : list orderedAttempt * Z :=
  if negb (bool_decide (Attempt.ProposalUID (aa_Spec a) = proposalUID)) then (fst acc, (snd acc + 1)%Z)
  else match parse_rfc3339 (Attempt.StartedAt (aa_Spec a)) with
  | Err _ => acc
  | Ok started =>
      (fst acc ++ [mkOrdered "APPLY" (aa_Namespace a) (aa_Name a) (aa_UID a) started (aa_CreatedAt a) (InApply a)], snd acc)
  end.

Definition order_rollback (proposalUID : string) (acc : list orderedAttempt * Z) (r : RollbackAttemptInput)
  : list orderedAttempt * Z :=
  if negb (bool_decide (RollbackAttempt.ProposalUID (ra_Spec r) = proposalUID)) then (fst acc, (snd acc + 1)%Z)
  else match parse_rfc3339 (RollbackAttempt.StartedAt (ra_Spec r)) with
  | Err _ => acc
  | Ok started =>
      (fst acc ++ [mkOrdered "ROLLBACK" (ra_Namespace r) (ra_Name r) (ra_UID r) started (ra_CreatedAt r) (InRollback r)], snd acc)
  end.

Definition ordered_attempts (proposalUID : string) (applies : list ApplyAttemptInput)
  (rollbacks : list RollbackAttemptInput) : list orderedAttempt * Z :=
  foldl (order_rollback proposalUID) (foldl (order_apply proposalUID) ([], 0%Z) applies) rollbacks.

Definition applicationState (state : string) (rollback : bool) : ApplicationState :=
  if negb rollback then
    if bool_decide (state = Attempt.StateInProgress) then ApplicationInProgress
    else if bool_decide (state = Attempt.StateApplied) then ApplicationApplied
    else if bool_decide (state = Attempt.StatePartiallyApplied) then ApplicationPartiallyApplied
    else if bool_decide (state = Attempt.StateFailed) then ApplicationFailed
    else ApplicationOutcomeUnknown
  else
    if bool_decide (state = Attempt.StateInProgress) then ApplicationRollbackInProgress
    else if bool_decide (state = Attempt.StateApplied) then ApplicationRolledBack
    else if bool_decide (state = Attempt.StatePartiallyApplied) then ApplicationRollbackPartiallyApplied
    else if bool_decide (state = Attempt.StateFailed) then ApplicationRollbackFailed
    else ApplicationRollbackOutcomeUnknown.

(** A mutation whose read-back matches what was intended. *)
Definition mutation_confirmed (mutation : Attempt.MutationRecord) : bool :=
  bool_decide (Attempt.m_Result mutation = Attempt.ResultSucceeded) &&
  (negb (empty (Attempt.m_ObservedAfter mutation)) && negb (empty (Attempt.m_ObservedAfterDigest mutation)) &&
   negb (empty (Attempt.m_IntendedAfterDigest mutation)) &&
   bool_decide (Attempt.m_ObservedAfterDigest mutation = Attempt.m_IntendedAfterDigest mutation)).

Definition knowledge_step (acc : nat * bool) (mutation : Attempt.MutationRecord) : nat * bool :=
  if bool_decide (Attempt.m_Result mutation = Attempt.ResultUnknown) then (fst acc, true)
  else if mutation_confirmed mutation then (S (fst acc), snd acc) else acc.

Definition structuralKnowledge (status : Attempt.Status) : StructuralKnowledge :=
  if length (Attempt.st_Mutations status) =? 0 then StructuralNone
  else
    let '(confirmed, unknown) :=
      foldl knowledge_step (0, bool_decide (Attempt.st_State status = Attempt.StateOutcomeUnknown)) (Attempt.st_Mutations status) in
    if unknown then StructuralUnknown
    else if confirmed =? length (Attempt.st_Mutations status) then StructuralConfirmedAtApplication
    else if 0 <? confirmed then StructuralPartial
    else StructuralNotConfirmed.

Definition attempt_status (a : AttemptInput) : Attempt.Status :=
  match a with InApply a => aa_Status a | InRollback r => ra_Status r end.
Definition attempt_rollback (a : AttemptInput) : bool :=
  match a with InApply _ => false | InRollback _ => true end.
Definition attempt_ref (a : AttemptInput) : AttemptRef :=
  match a with
  | InApply a => mkAttemptRef "ApplyAttempt" (aa_Namespace a) (aa_Name a) (aa_UID a)
  | InRollback r => mkAttemptRef "RollbackAttempt" (ra_Namespace r) (ra_Name r) (ra_UID r)
  end.

Definition projectAttempts (projection : VerificationProjection) (proposalUID : string)
  (applies : list ApplyAttemptInput) (rollbacks : list RollbackAttemptInput) : VerificationProjection :=
  let '(ordered, ignored) := ordered_attempts proposalUID applies rollbacks in
  let ignored := (vp_CurrentAttemptsIgnored projection + ignored)%Z in
  match sort_by attemptBefore ordered with
  | [] => mkProjection (vp_Derivation projection) (vp_Governance projection) (vp_Application projection)
            (vp_Structural projection) (vp_Behavioral projection) (vp_Proposal projection)
            (vp_CurrentAttemptRefs projection) ignored
  | latest :: _ =>
      let a := oa_attempt latest in
      mkProjection (vp_Derivation projection) (vp_Governance projection)
        (applicationState (Attempt.st_State (attempt_status a)) (attempt_rollback a))
        (structuralKnowledge (attempt_status a)) (vp_Behavioral projection) (vp_Proposal projection)
        [attempt_ref a] ignored
  end.

Definition ProjectVerification (subject : EnvironmentSubject) (candidates : list CandidateProposal)
  (applies : list ApplyAttemptInput) (rollbacks : list RollbackAttemptInput) : result VerificationProjection :=
  _ ← or_error (PopulationIdentity_Validate subject) (mkError ErrInvalidPopulationIdentity "invalid verification subject");
  let '(derivation, governance) := deriveProposalAxes subject candidates in
  let selection := SelectApprovedPolicy subject candidates in
  match sel_State selection, sel_Proposal selection with
  | SelectionAmbiguous, _ =>
      Ok (mkProjection derivation GovernanceAmbiguous ApplicationNotProjectableAmbiguousPolicy StructuralNone
            BehavioralVerificationUnknown None [] 0)
  | SelectionSelected, Some p =>
      Ok (projectAttempts
            (mkProjection derivation governance ApplicationNotAttempted StructuralNone
               BehavioralVerificationUnknown (Some p) [] 0)
            (ref_UID (cp_Ref p)) applies rollbacks)
  | _, _ =>
      Ok (mkProjection derivation governance ApplicationNoCurrentPolicy StructuralNone
            BehavioralVerificationUnknown None [] 0)
  end.

(** ** The orders *)
Lemma comparePairs_flip xs ys : comparePairs (zip xs ys) = (- comparePairs (zip ys xs))%Z.
Proof.
  revert ys. induction xs as [|x xs IH]; intros [|y ys]; cbn; try done.
  destruct (string_ltb x y) eqn:E.
  - by rewrite (less_asym x y E).
  - by destruct (string_ltb y x).
Qed.

Lemma comparePairs_trans xs ys zs :
  length xs = length ys → length ys = length zs →
  (0 <= comparePairs (zip xs ys))%Z → (0 <= comparePairs (zip ys zs))%Z → (0 <= comparePairs (zip xs zs))%Z.
Proof.
  revert ys zs. induction xs as [|x xs IH]; intros [|y ys] [|z zs]; cbn; try done.
  intros [= H1] [= H2].
  destruct (string_ltb x y) eqn:Exy; [lia|]. destruct (string_ltb y z) eqn:Eyz; [lia|].
  rewrite (less_negtrans x y z Exy Eyz).
  destruct (string_ltb z x) eqn:Ezx; [lia|].
  assert (string_ltb z y = false) as Ezy by exact (less_negtrans z x y Ezx Exy).
  assert (string_ltb y x = false) as Eyx by exact (less_negtrans y z x Eyz Ezx).
  rewrite Ezy, Eyx. by apply IH.
Qed.

Lemma comparePairs_zero xs ys : length xs = length ys → comparePairs (zip xs ys) = 0%Z → xs = ys.
Proof.
  revert ys. induction xs as [|x xs IH]; intros [|y ys]; cbn; try done. intros [= H].
  destruct (string_ltb x y) eqn:E1; [lia|]. destruct (string_ltb y x) eqn:E2; [lia|].
  rewrite (less_total x y E1 E2). intros. f_equal. by apply IH.
Qed.

(** Ordering by a key of a fixed number of strings. *)
Definition pairs_less {A} (key : A → list string) (x y : A) : bool := (comparePairs (zip (key x) (key y)) <? 0)%Z.

Lemma pairs_less_weak {A} (key : A → list string) n : (∀ x, length (key x) = n) → StrictWeak (pairs_less key).
Proof.
  intros Hn. split; unfold pairs_less.
  - intros x y. rewrite (comparePairs_flip (key y)), Z.ltb_lt, Z.ltb_ge. lia.
  - intros x y z. rewrite !Z.ltb_ge. apply comparePairs_trans; by rewrite !Hn.
Qed.

Lemma pairs_less_key {A} (key : A → list string) n x y :
  (∀ x, length (key x) = n) → pairs_less key x y = false → pairs_less key y x = false → key x = key y.
Proof.
  intros Hn. unfold pairs_less. rewrite (comparePairs_flip (key y)), !Z.ltb_ge. intros.
  apply comparePairs_zero; [by rewrite !Hn|lia].
Qed.

#[export] Instance ref_less_total : TotalLess ref_less.
Proof.
  pose (key := fun r => [ref_Namespace r; ref_Name r; ref_UID r]). split.
  - exact (pairs_less_weak key 3 (fun _ => eq_refl)).
  - intros x y H1 H2. pose proof (pairs_less_key key 3 x y (fun _ => eq_refl) H1 H2) as E.
    destruct x, y. by injection E as -> -> ->.
Qed.

(** Later instants first. *)
Definition later {A} (f : A → Z) (x y : A) : bool := (f y <? f x)%Z.
#[export] Instance later_weak {A} (f : A → Z) : StrictWeak (later f).
Proof. split; unfold later; intros; lia. Qed.

Definition attempt_names (a : orderedAttempt) : list string := [oa_namespace a; oa_name a; oa_uid a; oa_kind a].
#[export] Instance attempt_names_weak : StrictWeak (pairs_less attempt_names).
Proof. exact (pairs_less_weak attempt_names 4 (fun _ => eq_refl)). Qed.

Lemma attemptBefore_lex l r :
  attemptBefore l r = less_lex (later oa_started) (less_lex (later oa_created) (pairs_less attempt_names)) l r.
Proof.
  assert (∀ a b rest, (comparePairs ((a, b) :: rest) <? 0)%Z =
    if negb (bool_decide (a = b)) then string_ltb a b else (comparePairs rest <? 0)%Z) as Hstep.
  { intros a b rest. cbn. destruct (string_ltb a b) eqn:E1.
    - case_bool_decide; [subst; by rewrite string_ltb_irrefl in E1|done].
    - destruct (string_ltb b a) eqn:E2; case_bool_decide; subst; try done.
      + by rewrite string_ltb_irrefl in E2.
      + by destruct (H (less_total _ _ E1 E2)). }
  unfold attemptBefore, less_lex, later, pairs_less, attempt_names. cbn [zip]. rewrite !Hstep.
  assert ((comparePairs [] <? 0)%Z = false) as -> by done.
  destruct (Z.eqb_spec (oa_started l) (oa_started r)) as [->|]; cbn [negb].
  - rewrite Z.ltb_irrefl. cbn [orb negb andb].
    destruct (Z.eqb_spec (oa_created l) (oa_created r)) as [->|]; cbn [negb].
    + rewrite Z.ltb_irrefl. cbn [orb negb andb]. repeat case_bool_decide; try done. cbn [negb]. subst.
      destruct (string_ltb _ _) eqn:E; [|done]. by rewrite H2, string_ltb_irrefl in E.
    + destruct (Z.ltb_spec (oa_created r) (oa_created l)), (Z.ltb_spec (oa_created l) (oa_created r)); try lia; done.
  - destruct (Z.ltb_spec (oa_started r) (oa_started l)), (Z.ltb_spec (oa_started l) (oa_started r)); try lia; done.
Qed.

#[export] Instance attemptBefore_weak : StrictWeak attemptBefore.
Proof.
  pose proof (less_lex_weak (later oa_started) (less_lex (later oa_created) (pairs_less attempt_names))) as W.
  split; intros x y; rewrite !attemptBefore_lex; [apply less_asym|]. intros z. rewrite !attemptBefore_lex.
  apply less_negtrans.
Qed.

Lemma attemptBefore_false l r : attemptBefore l r = false → attemptBefore r l = false → attempt_names l = attempt_names r.
Proof.
  rewrite !attemptBefore_lex. unfold less_lex. intros H1 H2.
  apply orb_false_iff in H1 as [H1 H1'], H2 as [H2 H2']. rewrite H1, H2 in *. cbn in H1', H2'.
  apply orb_false_iff in H1' as [H3 H3'], H2' as [H4 H4']. rewrite H3, H4 in *. cbn in H3', H4'.
  by apply (pairs_less_key attempt_names 4).
Qed.

(** Sorting elements whose keys are distinct depends only on the multiset. *)
Lemma sort_by_distinct {A K} (less : A → A → bool) `{!StrictWeak less} (key : A → K) l k :
  (∀ x y, less x y = false → less y x = false → key x = key y) →
  NoDup (map key l) → l ≡ₚ k → sort_by less l = sort_by less k.
Proof.
  intros Hkey Hnd Hp.
  apply (StronglySorted_unique_strong (not_above less)); [|apply sort_by_sorted, _..|by rewrite !sort_by_perm].
  intros x y Hx%elem_of_sort_by Hy%elem_of_sort_by Hxy Hyx.
  rewrite <- Hp in Hy. clear k Hp. specialize (Hkey x y Hyx Hxy).
  apply list_elem_of_lookup in Hx as [i Hi], Hy as [j Hj].
  assert (i = j) as <-; [|congruence].
  apply (NoDup_lookup (map key l) i j (key x)); [done|by rewrite list_lookup_fmap, Hi|].
  by rewrite list_lookup_fmap, Hj, Hkey.
Qed.

(** ** Selection *)

(** The proposals that authorise a policy for a subject: an approval that
    validates against the specification of a candidate-v2 about this subject. *)
Definition current_authority (subject : EnvironmentSubject) (c : CandidateProposal) : Prop :=
  pi_Scope subject = ScopeContainer ∧
  normalizedCandidateVersion (sp_CandidateVersion (cp_Spec c)) = Ok CandidateVersionV2 ∧
  (∃ candidate, candidateV2 (cp_Spec c) = Ok candidate ∧ CandidateV2_Validate candidate = Ok () ∧
     cand_Subject candidate =
       mkSubjectV2 CandidateV2ScopeContainer (pi_Target subject) (pi_Container subject) (pi_ImageIdentity subject)) ∧
  ValidateApprovedCandidate (Some (cp_Spec c)) (Some (cp_Status c)) = Ok ().

Lemma is_ok_unit (r : result unit) : is_ok r = true ↔ r = Ok ().
Proof. destruct r as [[]|]; cbn; split; congruence. Qed.

Lemma subject_valid_true s : subject_valid s = true ↔ PopulationIdentity_Validate s = Ok ().
Proof. apply is_ok_unit. Qed.

Lemma valid_container_binary s :
  subject_valid s = true → pi_Scope s = ScopeContainer → pi_BinaryPath s = "".
Proof.
  rewrite subject_valid_true. unfold PopulationIdentity_Validate. intros H E. rewrite E in H.
  apply result_guard_Ok in H as [_ H]. cbn in H. apply result_guard_Ok in H as [H _].
  apply negb_false_iff in H. unfold empty in H. by apply bool_decide_eq_true in H.
Qed.

Lemma SubjectMatchesCandidateV2_true subject candidate : subject_valid subject = true →
  SubjectMatchesCandidateV2 subject candidate = true ↔
    pi_Scope subject = ScopeContainer ∧ CandidateV2_Validate candidate = Ok () ∧
    cand_Subject candidate =
      mkSubjectV2 CandidateV2ScopeContainer (pi_Target subject) (pi_Container subject) (pi_ImageIdentity subject).
Proof.
  intros Hs. unfold SubjectMatchesCandidateV2. rewrite Hs. cbn [negb orb].
  destruct (is_ok (CandidateV2_Validate candidate)) eqn:Hv; cbn [negb].
  2:{ split; [done|]. intros (_ & H & _). by rewrite H in Hv. }
  apply is_ok_unit in Hv.
  destruct (bool_decide (pi_Scope subject = ScopeContainer)) eqn:Hc; cbn [negb orb].
  2:{ apply bool_decide_eq_false in Hc. naive_solver. }
  apply bool_decide_eq_true in Hc. rewrite (bool_decide_eq_true_2 (pi_BinaryPath subject = "")) by by apply valid_container_binary.
  cbn [negb]. rewrite !andb_true_iff, !bool_decide_eq_true. destruct (cand_Subject candidate) as [a b c d]; cbn.
  split; [intros [[[-> ->] ->] ->]; done|]. by intros (_ & _ & [= -> -> -> ->]).
Qed.

Lemma is_v2_true spec : is_v2 spec = true ↔ normalizedCandidateVersion (sp_CandidateVersion spec) = Ok CandidateVersionV2.
Proof. unfold is_v2. by rewrite bool_decide_eq_true. Qed.

Lemma reject_reason_None subject c : subject_valid subject = true →
  reject_reason subject c = None ↔ current_authority subject c.
Proof.
  intros Hs. unfold reject_reason, current_authority.
  destruct (is_v2 (cp_Spec c)) eqn:Hv; cbn [negb].
  2:{ split; [done|]. intros (_ & H & _). apply is_v2_true in H. congruence. }
  apply is_v2_true in Hv. destruct (candidateV2 (cp_Spec c)) as [cand|e] eqn:Hc.
  2:{ split; [done|]. intros (_ & _ & (? & ? & _) & _). congruence. }
  pose proof (SubjectMatchesCandidateV2_true subject cand Hs) as Hm.
  destruct (SubjectMatchesCandidateV2 subject cand); cbn [negb].
  2:{ split; [done|]. intros (H1 & _ & (c' & H2 & H3 & H4) & _). injection H2 as <-.
      by assert (false = true) by by apply Hm. }
  destruct Hm as [(H1 & H2 & H3) _]; [done|].
  case_bool_decide as Ha; cbn [negb].
  2:{ split; [done|]. intros (_ & _ & _ & H). by destruct (ValidateApprovedCandidate_state _ _ H). }
  destruct (ValidateApprovedCandidate _ _) as [[]|e]; [|split; [done|naive_solver]].
  split; [|done]. eauto 10.
Qed.

#[export] Instance current_authority_dec subject c : Decision (current_authority subject c).
Proof.
  destruct (decide (pi_Scope subject = ScopeContainer)) as [H1|H1]; [|right; by intros [? _]].
  destruct (decide (normalizedCandidateVersion (sp_CandidateVersion (cp_Spec c)) = Ok CandidateVersionV2)) as [H2|H2];
    [|right; by intros (_ & ? & _)].
  destruct (candidateV2 (cp_Spec c)) as [cand|] eqn:E; [|right; unfold current_authority; rewrite E; naive_solver].
  destruct (decide (CandidateV2_Validate cand = Ok () ∧ cand_Subject cand = mkSubjectV2 CandidateV2ScopeContainer
    (pi_Target subject) (pi_Container subject) (pi_ImageIdentity subject))) as [H3|H3];
    [|right; unfold current_authority; rewrite E; intros (_ & _ & (? & [= <-] & ?) & _); by apply H3].
  destruct (decide (ValidateApprovedCandidate (Some (cp_Spec c)) (Some (cp_Status c)) = Ok ())) as [H4|H4];
    [|right; by intros (_ & _ & _ & ?)].
  left. unfold current_authority. rewrite E. naive_solver.
Defined.

Lemma select_loop_spec subject l : subject_valid subject = true →
  snd (select_loop subject l) = filter (current_authority subject) l ∧
  map rej_Ref (fst (select_loop subject l)) = map cp_Ref (filter (λ c, ¬ current_authority subject c) l).
Proof.
  intros Hs. induction l as [|c l [IH1 IH2]]; [done|]. cbn [select_loop].
  destruct (select_loop subject l) as [rejected valid]. cbn [fst snd] in *.
  rewrite !filter_cons. pose proof (reject_reason_None subject c Hs) as Hr.
  destruct (reject_reason subject c) as [reason|].
  - assert (¬ current_authority subject c) as Hn by (intros H; by apply Hr in H).
    rewrite decide_False, decide_True by done. cbn. by rewrite IH1, IH2.
  - assert (current_authority subject c) as Hc by by apply Hr.
    rewrite decide_True, decide_False by tauto. cbn. by rewrite IH1, IH2.
Qed.

(** The selection as a function of the valid candidates. *)
Lemma SelectApprovedPolicy_unfold subject l : subject_valid subject = true →
  let s := SelectApprovedPolicy subject l in
  let valid := filter (current_authority subject) l in
  (sel_State s, sel_Proposal s, sel_AmbiguousRefs s) =
    match valid with
    | [] => (SelectionNone, None, [])
    | [p] => (SelectionSelected, Some p, [])
    | _ => (SelectionAmbiguous, None, sort_by ref_less (map cp_Ref valid))
    end ∧
  sel_RejectedCandidates s = sort_by (less_on rej_Ref ref_less) (fst (select_loop subject l)).
Proof.
  intros Hs. cbn zeta. unfold SelectApprovedPolicy. rewrite Hs. cbn [negb].
  destruct (select_loop_spec subject l Hs) as [<- _].
  destruct (select_loop subject l) as [rejected [|p [|q valid]]]; done.
Qed.

Lemma SelectApprovedPolicy_invalid subject l : subject_valid subject = false →
  SelectApprovedPolicy subject l = mkSelection SelectionNone None [] [].
Proof. unfold SelectApprovedPolicy. by intros ->. Qed.

Lemma authority_filter_invalid subject l : subject_valid subject = false →
  sel_State (SelectApprovedPolicy subject l) = SelectionNone.
Proof. intros H. by rewrite SelectApprovedPolicy_invalid. Qed.

(** A policy is selected exactly when one supplied proposal is a current
    authority for the subject, whatever its position, name or age; when several
    are, all of them are disclosed in order and none is chosen; every other
    proposal is reported with a reason, once. *)
Theorem SelectApprovedPolicy_exact subject l :
  PopulationIdentity_Validate subject = Ok () →
  let s := SelectApprovedPolicy subject l in
  let valid := filter (current_authority subject) l in
  (∀ p, sel_State s = SelectionSelected ∧ sel_Proposal s = Some p ↔ valid = [p]) ∧
  (sel_State s = SelectionAmbiguous ↔ 2 ≤ length valid) ∧
  (sel_State s ≠ SelectionSelected → sel_Proposal s = None) ∧
  (sel_State s = SelectionAmbiguous → sel_AmbiguousRefs s ≡ₚ map cp_Ref valid) ∧
  StronglySorted (not_above ref_less) (sel_AmbiguousRefs s) ∧
  map rej_Ref (sel_RejectedCandidates s) ≡ₚ map cp_Ref (filter (λ c, ¬ current_authority subject c) l) ∧
  StronglySorted (not_above ref_less) (map rej_Ref (sel_RejectedCandidates s)).
Proof.
  intros Hs%subject_valid_true. cbn zeta.
  destruct (SelectApprovedPolicy_unfold subject l Hs) as [E Er].
  destruct (select_loop_spec subject l Hs) as [_ E2]. rewrite Er, <- E2.
  assert (map rej_Ref (sort_by (less_on rej_Ref ref_less) (fst (select_loop subject l)))
    ≡ₚ map rej_Ref (fst (select_loop subject l))) as Hp by (apply Permutation_map, sort_by_perm).
  assert (StronglySorted (not_above ref_less)
    (map rej_Ref (sort_by (less_on rej_Ref ref_less) (fst (select_loop subject l))))) as Hsort
    by (apply sorted_by_key, sort_by_sorted, _).
  split; [|split; [|split; [|split; [|split; [|done]]]]];
    destruct (filter _ l) as [|p [|q v]]; injection E as E0 E1 E3; rewrite ?E0, ?E1, ?E3; try done.
  1-3: intros p'; split; [intros [? ?]|intros ?]; simplify_eq; done.
  1-3: cbn; split; (done || lia).
  - intros _. exact (sort_by_perm ref_less (map cp_Ref (p :: q :: v))).
  - constructor.
  - constructor.
  - exact (sort_by_sorted ref_less (map cp_Ref (p :: q :: v))).
Qed.

(** ** Independence of the listing order *)
Lemma perm_singleton {A} (p : A) l : [p] ≡ₚ l → l = [p].
Proof. intros H. symmetry in H. by apply Permutation_singleton_r in H. Qed.

Lemma SelectApprovedPolicy_perm subject l k : l ≡ₚ k →
  let s := SelectApprovedPolicy subject l in let t := SelectApprovedPolicy subject k in
  sel_State s = sel_State t ∧ sel_Proposal s = sel_Proposal t ∧ sel_AmbiguousRefs s = sel_AmbiguousRefs t.
Proof.
  intros Hp. cbn zeta. destruct (subject_valid subject) eqn:Hs.
  2:{ by rewrite !SelectApprovedPolicy_invalid. }
  destruct (SelectApprovedPolicy_unfold subject l Hs) as [E _], (SelectApprovedPolicy_unfold subject k Hs) as [E' _].
  assert (filter (current_authority subject) l ≡ₚ filter (current_authority subject) k) as Hf by by rewrite Hp.
  cut ((sel_State (SelectApprovedPolicy subject l), sel_Proposal (SelectApprovedPolicy subject l),
    sel_AmbiguousRefs (SelectApprovedPolicy subject l)) = (sel_State (SelectApprovedPolicy subject k),
    sel_Proposal (SelectApprovedPolicy subject k), sel_AmbiguousRefs (SelectApprovedPolicy subject k)));
    [intros H; by injection H|].
  rewrite E, E'. pose proof (Permutation_length Hf) as Hlen. clear E E'.
  destruct (filter _ l) as [|p [|q v]], (filter _ k) as [|p' [|q' v']]; try discriminate; try done.
  - apply perm_singleton in Hf. by injection Hf as ->.
  - f_equal. apply sort_by_unique; [apply _|]. by rewrite Hf.
Qed.

Lemma preferGovernance_comm g a b : governance_rank a ≠ governance_rank b ∨ a = b →
  preferGovernance (preferGovernance g a) b = preferGovernance (preferGovernance g b) a.
Proof.
  unfold preferGovernance. intros H.
  destruct (Z.ltb_spec (governance_rank g) (governance_rank a)), (Z.ltb_spec (governance_rank g) (governance_rank b));
    repeat match goal with |- context [Z.ltb ?x ?y] => destruct (Z.ltb_spec x y) end; try done; try lia;
    destruct H as [H| ->]; (done || lia).
Qed.

(** The rank separates the states a proposal contributes. *)
Lemma candidate_governance_rank c d g h : candidate_governance c = Some g → candidate_governance d = Some h →
  governance_rank g ≠ governance_rank h ∨ g = h.
Proof.
  assert (∀ c g, candidate_governance c = Some g → g ≠ GovernanceNone ∧ g ≠ GovernanceAmbiguous) as Hn.
  { clear. intros c g. unfold candidate_governance. repeat case_bool_decide; try case_match; naive_solver. }
  intros [H1 H2]%Hn [H3 H4]%Hn. destruct g, h; (by right) || (by left) || done.
Qed.

Lemma axes_step_comm subject acc c d :
  axes_step subject (axes_step subject acc c) d = axes_step subject (axes_step subject acc d) c.
Proof.
  unfold axes_step. destruct (compatible_v2 subject (cp_Spec c)), (compatible_v2 subject (cp_Spec d)); try done.
  cbn [snd]. destruct (candidate_governance c) as [g|] eqn:Eg, (candidate_governance d) as [h|] eqn:Eh; try done.
  f_equal. apply preferGovernance_comm. by apply (candidate_governance_rank c d).
Qed.

Lemma foldl_perm {A B} (f : B → A → B) b l k :
  (∀ b x y, f (f b x) y = f (f b y) x) → l ≡ₚ k → foldl f b l = foldl f b k.
Proof.
  intros Hc Hp. revert b. induction Hp as [|x l k Hp IH|x y l|l m k Hp1 IH1 Hp2 IH2]; intros b; cbn; try done.
  - by rewrite Hc.
  - by rewrite IH1, IH2.
Qed.

Lemma deriveProposalAxes_perm subject l k : l ≡ₚ k → deriveProposalAxes subject l = deriveProposalAxes subject k.
Proof. apply foldl_perm. intros. apply axes_step_comm. Qed.

(** *** The attempts of a proposal *)

(** The start of an attempt that [projectAttempts] takes into account. *)
Definition attempt_start (proposalUID : string) (a : AttemptInput) : option time :=
  let '(uid, started) := match a with
    | InApply a => (Attempt.ProposalUID (aa_Spec a), Attempt.StartedAt (aa_Spec a))
    | InRollback r => (RollbackAttempt.ProposalUID (ra_Spec r), RollbackAttempt.StartedAt (ra_Spec r)) end in
  if bool_decide (uid = proposalUID) then match parse_rfc3339 started with Ok t => Some t | Err _ => None end else None.
Definition attempt_created (a : AttemptInput) : time :=
  match a with InApply a => aa_CreatedAt a | InRollback r => ra_CreatedAt r end.
Definition attempts_of (applies : list ApplyAttemptInput) (rollbacks : list RollbackAttemptInput) : list AttemptInput :=
  map InApply applies ++ map InRollback rollbacks.
Definition input_names (a : AttemptInput) : list string :=
  match a with
  | InApply a => [aa_Namespace a; aa_Name a; aa_UID a; "APPLY"]
  | InRollback r => [ra_Namespace r; ra_Name r; ra_UID r; "ROLLBACK"]
  end.
Definition order_of (proposalUID : string) (a : AttemptInput) : option orderedAttempt :=
  t ← attempt_start proposalUID a;
  Some match a with
  | InApply b => mkOrdered "APPLY" (aa_Namespace b) (aa_Name b) (aa_UID b) t (aa_CreatedAt b) a
  | InRollback b => mkOrdered "ROLLBACK" (ra_Namespace b) (ra_Name b) (ra_UID b) t (ra_CreatedAt b) a
  end.
Definition foreign (proposalUID : string) (a : AttemptInput) : bool :=
  match a with
  | InApply a => negb (bool_decide (Attempt.ProposalUID (aa_Spec a) = proposalUID))
  | InRollback r => negb (bool_decide (RollbackAttempt.ProposalUID (ra_Spec r) = proposalUID))
  end.

Lemma order_of_fields uid a o : order_of uid a = Some o →
  attempt_start uid a = Some (oa_started o) ∧ oa_attempt o = a ∧ oa_created o = attempt_created a ∧
  attempt_names o = input_names a.
Proof. unfold order_of. destruct (attempt_start uid a) as [t|]; cbn; [|done]. intros [= <-]. by destruct a. Qed.

Lemma ordered_attempts_spec uid applies rollbacks :
  ordered_attempts uid applies rollbacks =
    (omap (order_of uid) (attempts_of applies rollbacks),
     Z.of_nat (length (List.filter (foreign uid) (attempts_of applies rollbacks)))).
Proof.
  unfold ordered_attempts, attempts_of. rewrite omap_app, List.filter_app, length_app, Nat2Z.inj_add.
  assert (∀ acc, foldl (order_apply uid) acc applies = (fst acc ++ omap (order_of uid) (map InApply applies),
    (snd acc + Z.of_nat (length (List.filter (foreign uid) (map InApply applies))))%Z)) as ->.
  { induction applies as [|a l IH]; intros [o n]; cbn; [by rewrite app_nil_r, Z.add_0_r|]. rewrite IH.
    unfold order_apply, order_of at 2, attempt_start. case_bool_decide; cbn.
    - destruct (parse_rfc3339 _); cbn; [by rewrite <- app_assoc|done].
    - f_equal. lia. }
  cbn [fst snd]. rewrite app_nil_l.
  generalize (omap (order_of uid) (map InApply applies)), (length (List.filter (foreign uid) (map InApply applies))).
  intros o n.
  assert (∀ acc, foldl (order_rollback uid) acc rollbacks = (fst acc ++ omap (order_of uid) (map InRollback rollbacks),
    (snd acc + Z.of_nat (length (List.filter (foreign uid) (map InRollback rollbacks))))%Z)) as ->; [|done].
  clear. induction rollbacks as [|a l IH]; intros [o n]; cbn; [by rewrite app_nil_r, Z.add_0_r|]. rewrite IH.
  unfold order_rollback, order_of at 2, attempt_start. case_bool_decide; cbn.
  - destruct (parse_rfc3339 _); cbn; [by rewrite <- app_assoc|done].
  - f_equal. lia.
Qed.

Lemma NoDup_omap_names uid l : NoDup (map input_names l) → NoDup (map attempt_names (omap (order_of uid) l)).
Proof.
  induction l as [|a l IH]; cbn; [constructor|]. intros [Ha Hl]%NoDup_cons.
  destruct (order_of uid a) as [o|] eqn:E; [|by apply IH]. cbn. apply NoDup_cons. split; [|by apply IH].
  destruct (order_of_fields _ _ _ E) as (_ & _ & _ & ->). intros Hin. apply Ha.
  apply list_elem_of_fmap in Hin as (o' & Ho' & Hin). apply list_elem_of_omap in Hin as (b & Hb & Eb).
  destruct (order_of_fields _ _ _ Eb) as (_ & _ & _ & E4). rewrite Ho', E4. by apply list_elem_of_fmap_2.
Qed.

Lemma attempts_of_perm l k l' k' : l ≡ₚ k → l' ≡ₚ k' → attempts_of l l' ≡ₚ attempts_of k k'.
Proof. intros H H'. unfold attempts_of. by rewrite H, H'. Qed.

Lemma filter_perm_length {A} (f : A → bool) l k : l ≡ₚ k → length (List.filter f l) = length (List.filter f k).
Proof. induction 1; cbn; try case_match; cbn; try case_match; cbn; congruence. Qed.

Lemma projectAttempts_perm v uid l k l' k' :
  NoDup (map input_names (attempts_of l l')) → l ≡ₚ k → l' ≡ₚ k' →
  projectAttempts v uid l l' = projectAttempts v uid k k'.
Proof.
  intros Hnd Hl Hl'. pose proof (attempts_of_perm _ _ _ _ Hl Hl') as Hp.
  unfold projectAttempts. rewrite !ordered_attempts_spec.
  rewrite (sort_by_distinct attemptBefore attempt_names _ (omap (order_of uid) (attempts_of k k')) attemptBefore_false
    (NoDup_omap_names uid _ Hnd)) by by rewrite Hp.
  by rewrite (filter_perm_length _ _ _ Hp).
Qed.

Lemma ProjectVerification_perm subject candidates candidates' applies applies' rollbacks rollbacks' :
  NoDup (map input_names (attempts_of applies rollbacks)) →
  candidates ≡ₚ candidates' → applies ≡ₚ applies' → rollbacks ≡ₚ rollbacks' →
  ProjectVerification subject candidates applies rollbacks = ProjectVerification subject candidates' applies' rollbacks'.
Proof.
  intros Hnd Hc Ha Hr. unfold ProjectVerification. rewrite (deriveProposalAxes_perm subject _ _ Hc).
  destruct (SelectApprovedPolicy_perm subject _ _ Hc) as (-> & -> & _).
  destruct (or_error _ _) as [[]|]; [|done]. cbn [mbind result_bind].
  destruct (deriveProposalAxes subject candidates') as [d g]. repeat case_match; try done.
  f_equal. by apply projectAttempts_perm.
Qed.

(** C37: the projection is a function of the objects, not of the order in which the
    API server listed them: permuting the proposals, the apply attempts and the
    rollback attempts changes none of the five axes, provided no two attempts
    of one kind share namespace, name and UID. *)
Theorem ProjectVerification_order_independent subject candidates candidates' applies applies' rollbacks rollbacks' :
  NoDup (map input_names (attempts_of applies rollbacks)) →
  candidates ≡ₚ candidates' → applies ≡ₚ applies' → rollbacks ≡ₚ rollbacks' →
  ProjectVerification subject candidates applies rollbacks = ProjectVerification subject candidates' applies' rollbacks'.
Proof. apply ProjectVerification_perm. Qed.

(** ** What the axes mean *)
Lemma sort_head {A} (less : A → A → bool) `{!StrictWeak less} l h t :
  sort_by less l = h :: t → h ∈ l ∧ ∀ x, x ∈ l → less x h = false.
Proof.
  intros E. pose proof (sort_by_sorted less l) as Hs. rewrite E in Hs. apply StronglySorted_inv in Hs as [_ Hh].
  split; [apply (elem_of_sort_by less); rewrite E; left|].
  intros x Hx%(elem_of_sort_by less). rewrite E in Hx. apply elem_of_cons in Hx as [->|Hx]; [by apply less_irrefl|].
  rewrite Forall_forall in Hh. exact (Hh x Hx).
Qed.

(** [a] is the attempt the projection reads: none of the same proposal started
    later, or started at the same instant and was created later. *)
Definition latest_attempt (uid : string) (l : list AttemptInput) (a : AttemptInput) : Prop :=
  ∃ t, a ∈ l ∧ attempt_start uid a = Some t ∧
    ∀ b t', b ∈ l → attempt_start uid b = Some t' →
      (t' < t ∨ t' = t ∧ attempt_created b <= attempt_created a)%Z.

Lemma ordered_latest uid l h t : sort_by attemptBefore (omap (order_of uid) l) = h :: t →
  latest_attempt uid l (oa_attempt h).
Proof.
  intros E. destruct (sort_head _ _ _ _ E) as [Hh Hmin].
  apply list_elem_of_omap in Hh as (a & Ha & Ea). destruct (order_of_fields _ _ _ Ea) as (Hs & -> & Hcr & _).
  exists (oa_started h). split; [done|]. split; [done|]. intros b t' Hb Hst.
  destruct (order_of uid b) as [o|] eqn:Eb; [|unfold order_of in Eb; by rewrite Hst in Eb].
  destruct (order_of_fields _ _ _ Eb) as (Hs' & _ & Hcr' & _). rewrite Hst in Hs'. injection Hs' as ->.
  assert (o ∈ omap (order_of uid) l) as Ho by (apply list_elem_of_omap; eauto).
  specialize (Hmin o Ho). rewrite attemptBefore_lex in Hmin. unfold less_lex, later in Hmin.
  apply orb_false_iff in Hmin as [H1 H2]. rewrite Z.ltb_ge in H1.
  destruct (Z.ltb_spec (oa_started o) (oa_started h)) as [|Hge]; [by left|right]. split; [lia|]. cbn in H2.
  apply orb_false_iff in H2 as [H2 _]. rewrite Z.ltb_ge in H2. congruence.
Qed.

Lemma omap_order_nil uid l : omap (order_of uid) l = [] ↔ ∀ a, a ∈ l → attempt_start uid a = None.
Proof.
  split.
  - intros E a Ha. destruct (attempt_start uid a) as [t|] eqn:Et; [|done].
    assert (∃ o, order_of uid a = Some o) as [o Ho] by (unfold order_of; rewrite Et; cbn; eauto).
    assert (o ∈ omap (order_of uid) l) as Hin by (apply list_elem_of_omap; eauto). rewrite E in Hin. by apply elem_of_nil in Hin.
  - intros H. destruct (omap _ l) as [|o k] eqn:E; [done|].
    assert (o ∈ omap (order_of uid) l) as Hin by (rewrite E; left). apply list_elem_of_omap in Hin as (a & Ha & Eo).
    destruct (order_of_fields _ _ _ Eo) as (Hs & _). by rewrite H in Hs.
Qed.

(** *** Governance *)
Lemma compatible_authority subject c : subject_valid subject = true →
  current_authority subject c →
  compatible_v2 subject (cp_Spec c) = true ∧ candidate_governance c = Some GovernanceApproved.
Proof.
  intros Hs (H1 & H2 & (cand & H3 & H4 & H5) & H6). split.
  - unfold compatible_v2. rewrite (proj2 (is_v2_true _) H2), H3. cbn. by apply SubjectMatchesCandidateV2_true.
  - unfold candidate_governance. destruct (ValidateApprovedCandidate_state _ _ H6) as [-> _]. by rewrite H6.
Qed.

Lemma authority_governance subject c : subject_valid subject = true →
  compatible_v2 subject (cp_Spec c) = true → candidate_governance c = Some GovernanceApproved →
  current_authority subject c.
Proof.
  intros Hs Hc Hg. unfold compatible_v2 in Hc. apply andb_true_iff in Hc as [Hv Hc].
  destruct (candidateV2 (cp_Spec c)) as [cand|] eqn:E; [|done].
  apply SubjectMatchesCandidateV2_true in Hc as (H1 & H2 & H3); [|done]. apply is_v2_true in Hv.
  unfold candidate_governance in Hg. repeat case_bool_decide; try discriminate.
  destruct (is_ok _) eqn:Ho; [|discriminate]. apply is_ok_unit in Ho. unfold current_authority. eauto 10.
Qed.

Lemma prefer_approved g h : preferGovernance g h = GovernanceApproved ↔ g = GovernanceApproved ∨ h = GovernanceApproved.
Proof. destruct g, h; cbn; split; intros H; (by destruct H) || (by left) || (by right) || done. Qed.

Lemma axes_approved_aux subject l acc : subject_valid subject = true →
  snd (foldl (axes_step subject) acc l) = GovernanceApproved ↔
    snd acc = GovernanceApproved ∨ ∃ c, c ∈ l ∧ current_authority subject c.
Proof.
  intros Hs. revert acc. induction l as [|c l IH]; intros acc; cbn [foldl].
  { split; [by left|]. intros [H|(c & H & _)]; [done|by apply elem_of_nil in H]. }
  rewrite IH. setoid_rewrite elem_of_cons.
  assert (snd (axes_step subject acc c) = GovernanceApproved ↔ snd acc = GovernanceApproved ∨ current_authority subject c) as ->.
  { unfold axes_step. destruct (compatible_v2 subject (cp_Spec c)) eqn:Hc.
    - cbn [snd]. destruct (candidate_governance c) as [g|] eqn:Hg.
      + rewrite prefer_approved. split; (intros [H|H]; [by left|right]).
        * subst. by apply authority_governance.
        * destruct (compatible_authority _ _ Hs H) as [_ E]. congruence.
      + split; [by left|]. intros [H|H]; [done|]. destruct (compatible_authority _ _ Hs H) as [_ E]. congruence.
    - split; [by left|]. intros [H|H]; [done|]. destruct (compatible_authority _ _ Hs H) as [E _]. congruence. }
  naive_solver.
Qed.

Lemma axes_approved subject l : subject_valid subject = true →
  snd (deriveProposalAxes subject l) = GovernanceApproved ↔ filter (current_authority subject) l ≠ [].
Proof.
  intros Hs. unfold deriveProposalAxes. rewrite axes_approved_aux by done. cbn [snd]. split.
  - intros [H|(c & Hc & Ha)]; [discriminate|]. intros E.
    assert (c ∈ filter (current_authority subject) l) as Hin by (apply list_elem_of_filter; done).
    rewrite E in Hin. by apply elem_of_nil in Hin.
  - intros H. right. destruct (filter _ l) as [|c k] eqn:E; [done|]. exists c.
    assert (c ∈ filter (current_authority subject) l) as Hin by (rewrite E; left).
    apply list_elem_of_filter in Hin. tauto.
Qed.

(** *** Structural knowledge *)
Definition confirmed_mutation (m : Attempt.MutationRecord) : Prop :=
  Attempt.m_Result m = Attempt.ResultSucceeded ∧ Attempt.m_ObservedAfter m ≠ "" ∧
  Attempt.m_ObservedAfterDigest m ≠ "" ∧ Attempt.m_ObservedAfterDigest m = Attempt.m_IntendedAfterDigest m.

Lemma mutation_confirmed_true m : mutation_confirmed m = true ↔ confirmed_mutation m.
Proof.
  unfold mutation_confirmed, confirmed_mutation, empty.
  rewrite !andb_true_iff, !negb_true_iff, !bool_decide_eq_true, !bool_decide_eq_false.
  split; [tauto|]. intros (H1 & H2 & H3 & H4). rewrite <- H4. tauto.
Qed.

Definition result_unknown (m : Attempt.MutationRecord) : bool :=
  bool_decide (Attempt.m_Result m = Attempt.ResultUnknown).

Lemma knowledge_step_spec n b m :
  knowledge_step (n, b) m = ((if mutation_confirmed m then S n else n), b || result_unknown m).
Proof.
  unfold knowledge_step, result_unknown. cbn [fst snd]. destruct (bool_decide _) eqn:E.
  - apply bool_decide_eq_true in E. assert (mutation_confirmed m = false) as ->; [|by rewrite orb_true_r].
    apply not_true_iff_false. intros [H _]%mutation_confirmed_true. rewrite E in H. discriminate.
  - rewrite orb_false_r. by destruct (mutation_confirmed m).
Qed.

Lemma knowledge_fold l n b :
  foldl knowledge_step (n, b) l = (n + length (List.filter mutation_confirmed l), b || existsb result_unknown l).
Proof.
  revert n b. induction l as [|m l IH]; intros n b; cbn [foldl]; [by rewrite Nat.add_0_r, orb_false_r|].
  rewrite knowledge_step_spec, IH. cbn. rewrite orb_assoc. destruct (mutation_confirmed m); cbn; f_equal; lia.
Qed.

Lemma filter_length_all {A} (f : A → bool) l :
  length (List.filter f l) ≤ length l ∧ (length (List.filter f l) = length l ↔ Forall (fun x => f x = true) l).
Proof.
  induction l as [|x l [IH1 IH2]]; cbn; [by split|]. rewrite Forall_cons, <- IH2.
  destruct (f x); cbn; split; try lia; split; (lia || by intros [? _]).
Qed.

(** What a read-back is taken to show: confirmation of every mutation, lack of
    knowledge, or nothing. *)
Lemma structuralKnowledge_exact s :
  (structuralKnowledge s = StructuralConfirmedAtApplication ↔
     Attempt.st_Mutations s ≠ [] ∧ Attempt.st_State s ≠ Attempt.StateOutcomeUnknown ∧
     Forall confirmed_mutation (Attempt.st_Mutations s)) ∧
  (structuralKnowledge s = StructuralUnknown ↔
     Attempt.st_Mutations s ≠ [] ∧ (Attempt.st_State s = Attempt.StateOutcomeUnknown ∨
       ∃ m, m ∈ Attempt.st_Mutations s ∧ Attempt.m_Result m = Attempt.ResultUnknown)) ∧
  (structuralKnowledge s = StructuralNone ↔ Attempt.st_Mutations s = []).
Proof.
  unfold structuralKnowledge. destruct (Attempt.st_Mutations s) as [|m0 l0] eqn:El; [cbn; naive_solver|].
  rewrite knowledge_fold, <- El. assert (Attempt.st_Mutations s ≠ []) as Hne by by rewrite El.
  assert ((length (Attempt.st_Mutations s) =? 0) = false) as -> by by rewrite El.
  clear m0 l0 El. generalize dependent (Attempt.st_Mutations s). intros l Hne.
  destruct (filter_length_all mutation_confirmed l) as [_ Hall]. cbn [Nat.add].
  assert (Forall (fun m => mutation_confirmed m = true) l ↔ Forall confirmed_mutation l) as HF.
  { apply Forall_iff. intros m. apply mutation_confirmed_true. }
  assert (existsb result_unknown l = true ↔ ∃ m, m ∈ l ∧ Attempt.m_Result m = Attempt.ResultUnknown) as Hex.
  { rewrite existsb_exists. unfold result_unknown. setoid_rewrite bool_decide_eq_true. by setoid_rewrite list_elem_of_In. }
  rewrite <- Hex, <- HF, <- Hall. case_bool_decide as Hs; cbn [orb].
  { naive_solver. }
  destruct (existsb result_unknown l) eqn:Eu.
  { split; [|naive_solver]. split; [done|]. intros (_ & _ & H). exfalso.
    destruct (proj1 Hex eq_refl) as (m & Hm & Em). rewrite Hall, HF, Forall_forall in H.
    destruct (H m Hm) as [E _]. rewrite Em in E. discriminate. }
  destruct (Nat.eqb_spec (length (List.filter mutation_confirmed l)) (length l)).
  { naive_solver. }
  destruct (0 <? _); naive_solver.
Qed.

(** *** The projection *)
Lemma ProjectVerification_Ok subject candidates applies rollbacks v :
  ProjectVerification subject candidates applies rollbacks = Ok v →
  subject_valid subject = true ∧
  let axes := deriveProposalAxes subject candidates in
  match filter (current_authority subject) candidates with
  | [] => v = mkProjection (fst axes) (snd axes) ApplicationNoCurrentPolicy StructuralNone
                BehavioralVerificationUnknown None [] 0
  | [p] => v = projectAttempts (mkProjection (fst axes) (snd axes) ApplicationNotAttempted StructuralNone
                BehavioralVerificationUnknown (Some p) [] 0) (ref_UID (cp_Ref p)) applies rollbacks
  | _ => v = mkProjection (fst axes) GovernanceAmbiguous ApplicationNotProjectableAmbiguousPolicy StructuralNone
                BehavioralVerificationUnknown None [] 0
  end.
Proof.
  unfold ProjectVerification. intros ([] & Hs%or_error_Ok & H)%result_bind_Ok. apply subject_valid_true in Hs.
  split; [done|]. cbn zeta. destruct (deriveProposalAxes subject candidates) as [d g]. cbn [fst snd].
  destruct (SelectApprovedPolicy_unfold subject candidates Hs) as [E _].
  destruct (filter _ candidates) as [|p [|q k]]; injection E as E1 E2 E3; rewrite E1, ?E2 in H; by injection H as <-.
Qed.

(** What each axis says.  Without a current authority no policy is projected
    and Governance is not APPROVED.  With several, Governance is AMBIGUOUS and
    the application is not projectable.  With one, Governance is APPROVED and
    the application and structural axes are those of the latest attempt made
    for that very proposal object, if there is one.  Behavioral verification is
    never claimed. *)
Theorem ProjectVerification_exact subject candidates applies rollbacks v :
  ProjectVerification subject candidates applies rollbacks = Ok v →
  vp_Behavioral v = BehavioralVerificationUnknown ∧
  match filter (current_authority subject) candidates with
  | [] => vp_Proposal v = None ∧ vp_Application v = ApplicationNoCurrentPolicy ∧ vp_Structural v = StructuralNone ∧
          vp_Governance v ≠ GovernanceApproved ∧ vp_CurrentAttemptRefs v = []
  | [p] =>
      let uid := ref_UID (cp_Ref p) in let l := attempts_of applies rollbacks in
      vp_Proposal v = Some p ∧ vp_Governance v = GovernanceApproved ∧
      vp_CurrentAttemptsIgnored v = Z.of_nat (length (List.filter (foreign uid) l)) ∧
      ((∀ a, a ∈ l → attempt_start uid a = None) ∧ vp_Application v = ApplicationNotAttempted ∧
         vp_Structural v = StructuralNone ∧ vp_CurrentAttemptRefs v = [] ∨
       ∃ a, latest_attempt uid l a ∧
         vp_Application v = applicationState (Attempt.st_State (attempt_status a)) (attempt_rollback a) ∧
         vp_Structural v = structuralKnowledge (attempt_status a) ∧ vp_CurrentAttemptRefs v = [attempt_ref a])
  | _ => vp_Proposal v = None ∧ vp_Governance v = GovernanceAmbiguous ∧ vp_CurrentAttemptRefs v = [] ∧
         vp_Application v = ApplicationNotProjectableAmbiguousPolicy ∧ vp_Structural v = StructuralNone
  end.
Proof.
  intros H. destruct (ProjectVerification_Ok _ _ _ _ _ H) as [Hs Hv]. cbn zeta in Hv.
  pose proof (axes_approved subject candidates Hs) as Hg.
  destruct (filter _ candidates) as [|p [|q k]]; [subst v; cbn|cbn zeta|by subst v].
  { repeat split; try done. intros E. by apply Hg in E. }
  assert (snd (deriveProposalAxes subject candidates) = GovernanceApproved) as Ha by by apply Hg.
  unfold projectAttempts in Hv. rewrite ordered_attempts_spec in Hv.
  destruct (sort_by attemptBefore _) as [|h t] eqn:Eo; subst v; cbn; rewrite ?Ha.
  - split_and!; try done. left. split; [|done]. apply omap_order_nil.
    apply Permutation_nil_r. by rewrite <- (sort_by_perm attemptBefore), Eo.
  - split_and!; try done. right. exists (oa_attempt h). split; [by apply (ordered_latest _ _ _ t)|done].
Qed.

Lemma applied_apply_state s r : applicationState s r = ApplicationApplied → r = false ∧ s = Attempt.StateApplied.
Proof. destruct r; cbn; repeat case_bool_decide; done. Qed.

(** C14: APPLIED and CONFIRMED_AT_APPLICATION are claimed only on the record of an
    apply attempt: exactly one current authority exists, the attempt names its
    UID and ended APPLIED, no later attempt of that proposal was started, and
    every one of its mutations succeeded and was read back with the digest it
    was meant to have. *)
Theorem confirmed_application_justified subject candidates applies rollbacks v :
  ProjectVerification subject candidates applies rollbacks = Ok v →
  vp_Application v = ApplicationApplied → vp_Structural v = StructuralConfirmedAtApplication →
  ∃ p a, filter (current_authority subject) candidates = [p] ∧ a ∈ applies ∧
    Attempt.ProposalUID (aa_Spec a) = ref_UID (cp_Ref p) ∧
    Attempt.st_State (aa_Status a) = Attempt.StateApplied ∧
    latest_attempt (ref_UID (cp_Ref p)) (attempts_of applies rollbacks) (InApply a) ∧
    Attempt.st_Mutations (aa_Status a) ≠ [] ∧ Forall confirmed_mutation (Attempt.st_Mutations (aa_Status a)) ∧
    vp_CurrentAttemptRefs v = [mkAttemptRef "ApplyAttempt" (aa_Namespace a) (aa_Name a) (aa_UID a)].
Proof.
  intros H Happ Hstr. destruct (ProjectVerification_Ok _ _ _ _ _ H) as [Hs Hv]. cbn zeta in Hv.
  destruct (filter _ candidates) as [|p [|q k]]; [by subst v| |by subst v].
  unfold projectAttempts in Hv. rewrite ordered_attempts_spec in Hv.
  destruct (sort_by attemptBefore _) as [|h t] eqn:Eo; subst v; [done|]. cbn in Happ, Hstr.
  pose proof (ordered_latest _ _ _ _ Eo) as Hl. destruct (applied_apply_state _ _ Happ) as [Hr Hst].
  destruct (oa_attempt h) as [a|] eqn:Ea; [|done]. exists p, a. split; [done|].
  pose proof Hl as (t0 & Hin & Hst0 & _). split.
  { apply elem_of_app in Hin as [Hin|Hin]; apply list_elem_of_fmap in Hin as (b & Hb & Hin); by simplify_eq. }
  split. { unfold attempt_start in Hst0. by case_bool_decide. }
  split; [done|]. split; [done|]. destruct (structuralKnowledge_exact (aa_Status a)) as [[H1 _] _].
  destruct (H1 Hstr) as (? & _ & ?). done.
Qed.

(** ** Examples *)
Definition ex_subject : EnvironmentSubject := mkPopulationIdentity ScopeContainer "Deployment/web" "app" "sha256:00" "".
Lemma ex_subject_valid : subject_valid ex_subject = true.
Proof. reflexivity. Qed.
Definition ex_proposal (name uid : string) : CandidateProposal :=
  mkCandidateProposal (mkProposalRef "default" name uid) (ex_spec_v2 ["CAP_KILL"]) (ex_approved (ex_spec_v2 ["CAP_KILL"])).
Definition ex_draft : CandidateProposal :=
  mkCandidateProposal (mkProposalRef "default" "draft" "u9") (ex_spec_v2 ["CAP_KILL"])
    (mkStatus ApprovalDraft "" "" "" "" "" "" "" "" None []).
Definition ex_mutation (result digest : string) : Attempt.MutationRecord :=
  Attempt.mkMutationRecord "m0" (SpoBackend.mkGVK "apps" "v1" "Deployment") "default" "web" "uw" "7" "patch" "{}" "{1}" "{1}"
    "b" "d" digest "8" "" result "".
Definition ex_apply (name started state : string) (mutations : list Attempt.MutationRecord) : ApplyAttemptInput :=
  mkApplyAttemptInput "default" name ("uid-" +:+ name) 0
    (Attempt.mkSpec "default" "web" "u1" "d" (mkGovernedTarget "default" (mkWorkloadRef "apps" "Deployment" "web") "app")
       started "alice" "e1")
    (Attempt.mkStatus state "" "" "" mutations).

Lemma ex_proposal_approved : ValidateApprovedCandidate (Some (ex_spec_v2 ["CAP_KILL"]))
  (Some (ex_approved (ex_spec_v2 ["CAP_KILL"]))) = Ok ().
Proof. vm_compute. reflexivity. Qed.

Lemma ex_proposal_authority name uid : current_authority ex_subject (ex_proposal name uid).
Proof.
  split; [done|]. split; [done|]. split; [|exact ex_proposal_approved].
  eexists. split; [vm_compute; reflexivity|]. split; vm_compute; reflexivity.
Qed.
Lemma ex_draft_not_authority : ¬ current_authority ex_subject ex_draft.
Proof. intros (_ & _ & _ & H). by destruct (ValidateApprovedCandidate_state _ _ H). Qed.

Lemma ex_authorities name uid :
  filter (current_authority ex_subject) [ex_draft; ex_proposal name uid] = [ex_proposal name uid].
Proof.
  rewrite filter_cons, decide_False by exact ex_draft_not_authority.
  by rewrite filter_cons, decide_True by apply ex_proposal_authority.
Qed.

(** A valid subject with one authority is always projected. *)
Lemma ProjectVerification_single subject candidates applies rollbacks p :
  subject_valid subject = true → filter (current_authority subject) candidates = [p] →
  ProjectVerification subject candidates applies rollbacks =
    Ok (projectAttempts (mkProjection (fst (deriveProposalAxes subject candidates)) (snd (deriveProposalAxes subject candidates))
      ApplicationNotAttempted StructuralNone BehavioralVerificationUnknown (Some p) [] 0) (ref_UID (cp_Ref p)) applies rollbacks).
Proof.
  intros Hs Hf. unfold ProjectVerification. pose proof Hs as Hs'. apply subject_valid_true in Hs' as ->. cbn [or_error mbind result_bind].
  destruct (deriveProposalAxes subject candidates) as [d g]. cbn [fst snd].
  destruct (SelectApprovedPolicy_unfold subject candidates Hs) as [E _]. rewrite Hf in E. injection E as E1 E2 _.
  by rewrite E1, E2.
Qed.

Definition ex_applies : list ApplyAttemptInput :=
  [ex_apply "first" "2026-01-01T00:00:00Z" Attempt.StateFailed [];
   ex_apply "second" "2026-01-02T00:00:00Z" Attempt.StateApplied [ex_mutation Attempt.ResultSucceeded "d"]].

Lemma SelectApprovedPolicy_exact_witness :
  sel_State (SelectApprovedPolicy ex_subject [ex_draft; ex_proposal "web" "u1"]) = SelectionSelected.
Proof.
  destruct (SelectApprovedPolicy_exact ex_subject [ex_draft; ex_proposal "web" "u1"]) as (H & _);
    [vm_compute; reflexivity|].
  apply (H (ex_proposal "web" "u1")). apply ex_authorities.
Defined.

Lemma ProjectVerification_order_independent_witness :
  ProjectVerification ex_subject [ex_draft; ex_proposal "web" "u1"] ex_applies [] =
  ProjectVerification ex_subject [ex_proposal "web" "u1"; ex_draft] (rev ex_applies) [].
Proof.
  apply ProjectVerification_order_independent; [|apply Permutation_swap|apply Permutation_swap|done].
  apply (bool_decide_unpack _). vm_compute. exact I.
Defined.

Lemma ex_projected : ∃ v, ProjectVerification ex_subject [ex_draft; ex_proposal "web" "u1"] ex_applies [] = Ok v ∧
  vp_Application v = ApplicationApplied ∧ vp_Structural v = StructuralConfirmedAtApplication.
Proof.
  rewrite (ProjectVerification_single _ _ _ _ _ ex_subject_valid (ex_authorities "web" "u1")).
  generalize (fst (deriveProposalAxes ex_subject [ex_draft; ex_proposal "web" "u1"])),
    (snd (deriveProposalAxes ex_subject [ex_draft; ex_proposal "web" "u1"])).
  intros d g. change (ref_UID (cp_Ref (ex_proposal "web" "u1"))) with "u1". generalize (Some (ex_proposal "web" "u1")).
  intros p. eexists. split; [reflexivity|]. unfold projectAttempts. rewrite ordered_attempts_spec.
  split; vm_compute; reflexivity.
Qed.

Lemma ProjectVerification_exact_witness :
  ∃ v, ProjectVerification ex_subject [ex_draft; ex_proposal "web" "u1"] ex_applies [] = Ok v ∧
    vp_Behavioral v = BehavioralVerificationUnknown.
Proof.
  destruct ex_projected as (v & Hv & _). exists v. split; [exact Hv|].
  destruct (ProjectVerification_exact _ _ _ _ v Hv) as [H _]. exact H.
Defined.

Lemma confirmed_application_justified_witness :
  ∃ p a, filter (current_authority ex_subject) [ex_draft; ex_proposal "web" "u1"] = [p] ∧ a ∈ ex_applies ∧
    Attempt.st_State (aa_Status a) = Attempt.StateApplied.
Proof.
  destruct ex_projected as (v & Hv & H1 & H2).
  destruct (confirmed_application_justified _ _ _ _ v Hv H1 H2) as (p & a & H3 & H4 & _ & H5 & _).
  exists p, a. exact (conj H3 (conj H4 H5)).
Defined.
