(* ===== verification/ReconciliationAttention.v ===== *)
(** * internal/reconciliation/attention.go: what needs an operator

    The attention reasons of one environment subject: which predicate holds of
    the loaded population, proposals, attempts and failed observations, and the
    derivation of an environment subject from an observation.  The result
    groups: when each category is raised and with which references, that the
    result depends only on the objects and not on their order, and the
    disclosure of several workload UIDs behind one subject. *)
From S2P Require Import Prelude GoStd Identity ObservationDomain Digest Json Target History Proposal Attempt RollbackAttempt Reconciliation.
Import History.

Inductive AttentionCategory :=
| AttentionCapabilityOutsideApprovedPolicy | AttentionApprovedNotApplied | AttentionApplicationStateUnknown
| AttentionNewContributionSinceCandidate | AttentionObservationFailed | AttentionMultipleValidApprovedProposals.
#[export] Instance AttentionCategory_eq_dec : EqDecision AttentionCategory.
Proof. solve_decision. Defined.

(** The string constants. *)
Definition category_code (c : AttentionCategory) : string :=
  match c with
  | AttentionCapabilityOutsideApprovedPolicy => "CAPABILITY_OUTSIDE_APPROVED_POLICY"
  | AttentionApprovedNotApplied => "APPROVED_NOT_APPLIED"
  | AttentionApplicationStateUnknown => "APPLICATION_STATE_UNKNOWN"
  | AttentionNewContributionSinceCandidate => "NEW_CONTRIBUTION_SINCE_CANDIDATE"
  | AttentionObservationFailed => "OBSERVATION_FAILED"
  | AttentionMultipleValidApprovedProposals => "MULTIPLE_VALID_APPROVED_PROPOSALS"
  end.

Record AttentionReason := mkReason {
  ar_Category : AttentionCategory; ar_Subject : option EnvironmentSubject; ar_EvidenceRefs : list string;
  ar_ObservationRefs : list string; ar_ProposalRefs : list ProposalRef; ar_GovernanceRefs : list ProposalRef;
  ar_ApplicationRefs : list AttemptRef; ar_ExplanationCode : string }.

Record AttentionResult := mkAttentionResult { Reasons : list AttentionReason }.

Record ProposalInput := mkProposalInput { pi_Candidate : CandidateProposal; pi_CreatedAt : time }.

Record AttentionInput := mkAttentionInput {
  ai_Subject : EnvironmentSubject; ai_Population : Population; ai_Proposals : list ProposalInput;
  ai_ApplyAttempts : list ApplyAttemptInput; ai_RollbackAttempts : list RollbackAttemptInput;
  ai_FailedObservations : list Observation }.

(** ** The environment subject of an observation *)

(** The loop over the image revisions; [None] is an early [return false]. *)
Fixpoint revision_image (slot : ContainerSlot) (image : string) (revisions : list ContainerImageRevision) : option string :=
  match revisions with
  | [] => Some image
  | revision :: revisions =>
      if negb (bool_decide (ir_Slot revision = slot)) then revision_image slot image revisions
      else if negb (is_ok (NewContainerImageRevision (ir_Slot revision) (ir_ImageDigest revision))) then None
      else if negb (bool_decide (image = "")) && negb (bool_decide (image = ir_ImageDigest revision)) then None
      else revision_image slot (ir_ImageDigest revision) revisions
  end.

(** The check of the resolved instance's own revision. *)
Definition instance_image (slot : ContainerSlot) (image : string) (revision : option ContainerImageRevision) : option string :=
  match revision with
  | None => Some image
  | Some revision =>
      if negb (bool_decide (ir_Slot revision = slot)) then None
      else if negb (is_ok (NewContainerImageRevision (ir_Slot revision) (ir_ImageDigest revision))) then None
      else if negb (bool_decide (image = "")) && negb (bool_decide (image = ir_ImageDigest revision)) then None
      else Some (ir_ImageDigest revision)
  end.

Definition slot_target (slot : ContainerSlot) : GovernedTarget :=
  mkGovernedTarget (Identity.w_Namespace (s_Workload slot))
    (mkWorkloadRef (gk_Group (w_GroupKind (s_Workload slot))) (gk_Kind (w_GroupKind (s_Workload slot)))
       (Identity.w_Name (s_Workload slot)))
    (s_Container slot).

Definition observationEnvironmentSubject (observation : Observation) : option EnvironmentSubject :=
  let binding := o_binding observation in
  match rts_items (ob_ResolvedTargets binding) with
  | [target] =>
      if negb (RuntimeContainerInstance_Valid target) ||
         negb (bool_decide (ri_Slot target = rt_Slot (os_Target (o_spec observation)))) then None
      else
        let slot := ri_Slot target in
        image ← revision_image slot "" (ob_ImageRevisions binding);
        image ← instance_image slot image (ri_ImageRevision target);
        if bool_decide (image = "") then None
        else
          let identity := mkPopulationIdentity ScopeContainer (LegacyString (slot_target slot)) (s_Container slot) image "" in
          if subject_valid identity then Some identity else None
  | _ => None
  end.

Definition ObservationEnvironmentSubject (observation : Observation) : option EnvironmentSubject :=
  observationEnvironmentSubject observation.

(** ** Several workload UIDs behind one subject *)
Definition hasCompatibleCandidateV2 (subject : EnvironmentSubject) (proposals : list CandidateProposal) : bool :=
  existsb (fun candidate => compatible_v2 subject (cp_Spec candidate)) proposals.

(** The loop over the observations, with the UIDs seen per cluster. *)
Fixpoint uids_loop (subject : EnvironmentSubject) (uidsByCluster : gmap string (gset string))
  (observations : list Observation) : bool :=
  match observations with
  | [] => false
  | observation :: observations =>
      match observationEnvironmentSubject observation, rts_items (ob_ResolvedTargets (o_binding observation)) with
      | Some derived, [target] =>
          if negb (SubjectsEqual subject derived) then uids_loop subject uidsByCluster observations
          else
            let workload := s_Workload (ri_Slot target) in
            let cluster := NamespaceUID (w_Cluster workload) in
            if bool_decide (Identity.w_UID workload = "") || bool_decide (cluster = "")
            then uids_loop subject uidsByCluster observations
            else
              let uids := {[Identity.w_UID workload]} ∪ default ∅ (uidsByCluster !! cluster) in
              if 2 <=? size uids then true
              else uids_loop subject (<[cluster := uids]> uidsByCluster) observations
      | _, _ => uids_loop subject uidsByCluster observations
      end
  end.

Definition ProposalSubjectMatchedMultipleWorkloadUIDs (subject : EnvironmentSubject) (proposals : list CandidateProposal)
  (observations : list Observation) : bool :=
  if negb (subject_valid subject) || negb (bool_decide (pi_Scope subject = ScopeContainer)) ||
     negb (bool_decide (pi_BinaryPath subject = "")) || negb (hasCompatibleCandidateV2 subject proposals)
  then false
  else uids_loop subject ∅ observations.

(** ** The predicates *)
Fixpoint unique_from (last : string) (values : list string) : list string :=
  match values with
  | [] => []
  | value :: values => if bool_decide (value = last) then unique_from last values else value :: unique_from value values
  end.
Definition uniqueStrings (values : list string) : list string :=
  match values with [] => [] | v :: values => v :: unique_from v values end.

Definition compare_inputs : ProposalInput → ProposalInput → bool :=
  less_lex (later pi_CreatedAt) (less_on (fun p => cp_Ref (pi_Candidate p)) ref_less).

(** The newest compatible proposal. *)
Definition derivationBaseline (subject : EnvironmentSubject) (proposals : list ProposalInput) : option ProposalInput :=
  let compatible := List.filter (fun input => compatible_v2 subject (cp_Spec (pi_Candidate input))) proposals in
  match sort_by compare_inputs compatible with
  | [] => None
  | baseline :: _ => Some baseline
  end.

Definition population_matches (input : AttentionInput) : bool :=
  let p := ai_Population input in
  let identity := mkPopulationIdentity (p_Scope p) (p_Target p) (p_Container p) (p_ImageIdentity p) (p_BinaryPath p) in
  subject_valid identity && SubjectsEqual (ai_Subject input) identity.

(** The observed capabilities that [add] does not allow. *)
Definition outside_capabilities (population : Population) (add : list string) : list string :=
  uniqueStrings (sort_strings (List.filter (fun name => negb (bool_decide (name = "")) && negb (bool_decide (name ∈ add)))
    (map cr_Name (p_CapabilityAccesses population)))).

Definition capability_reasons (input : AttentionInput) (selection : ApprovedPolicySelection) : list AttentionReason :=
  match sel_State selection, sel_Proposal selection with
  | SelectionSelected, Some p =>
      if negb (population_matches input) then []
      else match candidateV2 (cp_Spec p) with
      | Err _ => []
      | Ok candidate =>
          let outside := outside_capabilities (ai_Population input)
            (cc_Add (art_ContainerCapabilities (cand_Artifact candidate))) in
          if 0 <? length outside then
            [mkReason AttentionCapabilityOutsideApprovedPolicy (Some (ai_Subject input)) outside [] [] [cp_Ref p] []
               (category_code AttentionCapabilityOutsideApprovedPolicy)]
          else []
      end
  | _, _ => []
  end.

(** The category the application axis raises under a selected policy. *)
Definition application_category (a : ApplicationState) : option AttentionCategory :=
  match a with
  | ApplicationNotAttempted | ApplicationFailed | ApplicationPartiallyApplied | ApplicationRolledBack
  | ApplicationRollbackFailed => Some AttentionApprovedNotApplied
  | ApplicationOutcomeUnknown | ApplicationRollbackOutcomeUnknown => Some AttentionApplicationStateUnknown
  | _ => None
  end.

Definition application_reasons (input : AttentionInput) (selection : ApprovedPolicySelection)
  (verification : VerificationProjection) : list AttentionReason :=
  match sel_State selection, sel_Proposal selection, application_category (vp_Application verification) with
  | SelectionSelected, Some p, Some category =>
      [mkReason category (Some (ai_Subject input)) [] [] [] [cp_Ref p] (vp_CurrentAttemptRefs verification) (category_code category)]
  | _, _, _ => []
  end.

(** The contributions of the population the baseline was not derived from.  A
    compatible baseline has a provenance, see [baseline_provenance]. *)
Definition contribution_delta (population : Population) (baseline : ProposalInput) : list string :=
  let baselineIDs := match sp_Provenance (cp_Spec (pi_Candidate baseline)) with
    | Some provenance => pp_ObservationIDs provenance | None => [] end in
  sort_strings (List.filter (fun id => negb (bool_decide (id ∈ baselineIDs)))
    (dedup (List.filter (fun id => negb (bool_decide (id = ""))) (map oc_ObservationID (p_ObservationContributions population))))).

Definition baseline_reasons (input : AttentionInput) : list AttentionReason :=
  match derivationBaseline (ai_Subject input) (ai_Proposals input) with
  | None => []
  | Some baseline =>
      let delta := contribution_delta (ai_Population input) baseline in
      if 0 <? length delta then
        [mkReason AttentionNewContributionSinceCandidate (Some (ai_Subject input)) [] delta [cp_Ref (pi_Candidate baseline)] [] []
           (category_code AttentionNewContributionSinceCandidate)]
      else []
  end.

Definition observation_reason (observation : Observation) : list AttentionReason :=
  if negb (bool_decide (ex_State (o_execution observation) = ExecutionFailed)) then []
  else
    let subject := observationEnvironmentSubject observation in
    [mkReason AttentionObservationFailed subject [o_id observation] [o_id observation] [] [] []
       (match subject with Some _ => "OBSERVATION_FAILED_BOUND" | None => "OBSERVATION_FAILED_UNBOUND" end)].

Definition ambiguity_reasons (input : AttentionInput) (selection : ApprovedPolicySelection) : list AttentionReason :=
  match sel_State selection with
  | SelectionAmbiguous =>
      [mkReason AttentionMultipleValidApprovedProposals (Some (ai_Subject input)) [] [] [] (sel_AmbiguousRefs selection) []
         (category_code AttentionMultipleValidApprovedProposals)]
  | _ => []
  end.

(** ** The evaluation *)
Definition category_rank (c : AttentionCategory) : Z :=
  match c with
  | AttentionCapabilityOutsideApprovedPolicy => 0 | AttentionApprovedNotApplied => 1
  | AttentionApplicationStateUnknown => 2 | AttentionNewContributionSinceCandidate => 3
  | AttentionObservationFailed => 4 | AttentionMultipleValidApprovedProposals => 5
  end.
Definition first_observation (r : AttentionReason) : string :=
  match ar_ObservationRefs r with ref :: _ => ref | [] => "" end.

Definition attention_less (left right : AttentionReason) : bool :=
  if negb (category_rank (ar_Category left) =? category_rank (ar_Category right))%Z
  then (category_rank (ar_Category left) <? category_rank (ar_Category right))%Z
  else if negb (bool_decide (ar_ExplanationCode left = ar_ExplanationCode right))
  then string_ltb (ar_ExplanationCode left) (ar_ExplanationCode right)
  else string_ltb (first_observation left) (first_observation right).

Definition sortAttentionReasons (reasons : list AttentionReason) : list AttentionReason := sort_by attention_less reasons.

Definition EvaluateAttention (input : AttentionInput) : result AttentionResult :=
  _ ← or_error (PopulationIdentity_Validate (ai_Subject input)) (mkError ErrInvalidPopulationIdentity "invalid attention subject");
  let candidates := map pi_Candidate (ai_Proposals input) in
  let selection := SelectApprovedPolicy (ai_Subject input) candidates in
  verification ← ProjectVerification (ai_Subject input) candidates (ai_ApplyAttempts input) (ai_RollbackAttempts input);
  Ok (mkAttentionResult (sortAttentionReasons
    (capability_reasons input selection ++ application_reasons input selection verification ++
     baseline_reasons input ++ flat_map observation_reason (ai_FailedObservations input) ++
     ambiguity_reasons input selection))).

(** ** The environment subject of an observation *)
Lemma revision_image_Some slot image l i : revision_image slot image l = Some i →
  (image ≠ "" → i = image) ∧
  (∀ r, r ∈ l → ir_Slot r = slot → ir_ImageDigest r = i ∧ digestPattern i = true) ∧
  (i ≠ image → ∃ r, r ∈ l ∧ ir_Slot r = slot ∧ ir_ImageDigest r = i).
Proof.
  revert image. induction l as [|r l IH]; intros image; cbn [revision_image].
  { intros [= <-]. split; [done|]. split; [intros r H; by apply elem_of_nil in H|done]. }
  case_bool_decide as Hs; cbn [negb].
  2:{ intros (H1 & H2 & H3)%IH. split; [done|]. split.
      - intros r' [->|Hr]%elem_of_cons ?; [done|by apply H2].
      - intros Hi. destruct (H3 Hi) as (r' & ? & ?). exists r'. split; [by right|done]. }
  destruct (NewContainerImageRevision _ _) as [rev|] eqn:En; [|done]. cbn [is_ok negb].
  assert (digestPattern (ir_ImageDigest r) = true ∧ ir_ImageDigest r ≠ "") as [Hd Hne].
  { unfold NewContainerImageRevision in En. apply result_guard_Ok in En as [_ En].
    apply result_guard_Ok in En as [En _]. apply negb_false_iff in En. split; [done|]. intros E. by rewrite E in En. }
  destruct (bool_decide (image = "")) eqn:E1; cbn [negb andb];
    [|destruct (bool_decide (image = ir_ImageDigest r)) eqn:E2; cbn [negb]; [|done]];
    bool_simpl; intros (H1 & H2 & H3)%IH; specialize (H1 Hne) as ->.
  - split; [done|]. split.
    + intros r' [->|Hr]%elem_of_cons ?; [done|by apply H2].
    + intros _. exists r. split; [left|done].
  - split; [by subst|]. split; [|by subst].
    intros r' [->|Hr]%elem_of_cons ?; [done|by apply H2].
Qed.

Lemma instance_image_Some slot image rev i : instance_image slot image rev = Some i →
  (image ≠ "" → i = image) ∧
  (∀ r, rev = Some r → ir_Slot r = slot ∧ ir_ImageDigest r = i ∧ digestPattern i = true) ∧ (rev = None → i = image).
Proof.
  unfold instance_image. destruct rev as [r|]; [|naive_solver].
  case_bool_decide as Hs; [|done]. cbn [negb].
  destruct (NewContainerImageRevision _ _) as [rev|] eqn:En; [|done]. cbn [is_ok negb].
  unfold NewContainerImageRevision in En. apply result_guard_Ok in En as [_ En].
  apply result_guard_Ok in En as [En _]. apply negb_false_iff in En.
  destruct (bool_decide (image = "")) eqn:E1; cbn [negb andb];
    [|destruct (bool_decide (image = ir_ImageDigest r)) eqn:E2; cbn [negb]; [|done]];
    bool_simpl; intros [= <-]; (split; [done|]); (split; [|done]); intros r' [= <-]; done.
Qed.

(** The slot a bound observation ran in. *)
Definition observed_slot (o : Observation) (slot : ContainerSlot) : Prop :=
  ∃ target, rts_items (ob_ResolvedTargets (o_binding o)) = [target] ∧ ri_Slot target = slot ∧
    RuntimeContainerInstance_Valid target = true ∧ rt_Slot (os_Target (o_spec o)) = slot.

(** A subject is only derived from an observation that ran in exactly the one
    requested container slot, and its image is an immutable digest on which
    every revision recorded for that slot agrees: nothing is filled in. *)
Lemma observationEnvironmentSubject_sound o s : observationEnvironmentSubject o = Some s →
  ∃ slot, observed_slot o slot ∧
    s = mkPopulationIdentity ScopeContainer (LegacyString (slot_target slot)) (s_Container slot) (pi_ImageIdentity s) "" ∧
    digestPattern (pi_ImageIdentity s) = true ∧ PopulationIdentity_Validate s = Ok () ∧
    (∀ r, r ∈ ob_ImageRevisions (o_binding o) → ir_Slot r = slot → ir_ImageDigest r = pi_ImageIdentity s).
Proof.
  unfold observationEnvironmentSubject.
  destruct (rts_items (ob_ResolvedTargets (o_binding o))) as [|target [|? ?]] eqn:Et; try done.
  destruct (RuntimeContainerInstance_Valid target) eqn:Hv; cbn [negb orb]; [|done].
  destruct (bool_decide (ri_Slot target = _)) eqn:Hb; cbn [negb]; [|done]. bool_simpl.
  intros (image & Hi & H)%bind_Some. apply bind_Some in H as (i & Hr & H).
  case_bool_decide as Hne; [done|]. destruct (subject_valid _) eqn:Hs; [|done]. apply subject_valid_true in Hs.
  injection H as <-. exists (ri_Slot target).
  apply revision_image_Some in Hi as (_ & Hall & Hex). apply instance_image_Some in Hr as (Hsame & Hrev & Hnone).
  cbn [pi_ImageIdentity]. split; [by exists target|]. split; [done|].
  destruct (decide (image = "")) as [->|Hne'].
  - split; [|split; [done|]].
    + destruct (ri_ImageRevision target) as [r|]; [by destruct (Hrev r eq_refl) as (_ & _ & ?)|by rewrite Hnone in Hne].
    + intros r Hr Hsl. destruct (Hall r Hr Hsl) as [_ Hd]. by vm_compute in Hd.
  - specialize (Hsame Hne') as ->. destruct (Hex Hne') as (r & Hr & Hsl & Hd).
    split; [by destruct (Hall r Hr Hsl)|]. split; [done|]. intros r' Hr' Hsl'. by destruct (Hall r' Hr' Hsl').
Qed.

(** *** Several workload UIDs *)
Definition subject_workload (subject : EnvironmentSubject) (o : Observation) (cluster uid : string) : Prop :=
  ∃ slot, observed_slot o slot ∧ observationEnvironmentSubject o = Some subject ∧
    cluster = NamespaceUID (w_Cluster (s_Workload slot)) ∧ uid = Identity.w_UID (s_Workload slot).

Lemma SubjectsEqual_true s t : SubjectsEqual s t = true ↔ subject_valid s = true ∧ s = t.
Proof.
  unfold SubjectsEqual. destruct (subject_valid s) eqn:E1; cbn; [|naive_solver].
  destruct (subject_valid t) eqn:E2; cbn; [rewrite bool_decide_eq_true; naive_solver|].
  split; [done|]. intros [_ ->]. congruence.
Qed.

(** A workload an observation of the subject contributes is identified. *)
Lemma subject_workload_nonempty subject o cluster uid : subject_workload subject o cluster uid → cluster ≠ "" ∧ uid ≠ "".
Proof.
  intros (slot & (target & _ & <- & Hv & _) & _ & -> & ->).
  unfold RuntimeContainerInstance_Valid, ContainerSlot_Valid, WorkloadIdentity_Valid, nonempty in Hv. by bool_simpl.
Qed.

Lemma subject_workload_det subject o c u c' u' :
  subject_workload subject o c u → subject_workload subject o c' u' → c = c' ∧ u = u'.
Proof.
  intros (slot & (t & Ht & <- & _) & _ & -> & ->) (slot' & (t' & Ht' & <- & _) & _ & -> & ->).
  rewrite Ht in Ht'. by injection Ht' as <-.
Qed.

(** The UIDs the loop has recorded so far: at most one per cluster. *)
Definition uids_wf (m : gmap string (gset string)) : Prop := ∀ c s, m !! c = Some s → size s = 1.

Lemma uids_loop_cons subject m o l : subject_valid subject = true →
  (∃ c u, subject_workload subject o c u ∧ let s := {[u]} ∪ default ∅ (m !! c) in
    uids_loop subject m (o :: l) = if 2 <=? size s then true else uids_loop subject (<[c := s]> m) l) ∨
  ((∀ c u, ¬ subject_workload subject o c u) ∧ uids_loop subject m (o :: l) = uids_loop subject m l).
Proof.
  intros Hs. cbn [uids_loop]. destruct (observationEnvironmentSubject o) as [d|] eqn:Ed.
  2:{ right. split; [|done]. intros c u (? & _ & E & _). congruence. }
  pose proof (observationEnvironmentSubject_sound o d Ed) as (slot & Hslot & _).
  pose proof Hslot as (target & Et & Esl & Hv & _). rewrite Et.
  destruct (SubjectsEqual subject d) eqn:Eq; cbn [negb].
  2:{ right. split; [|done]. intros c u (? & _ & E & _). rewrite Ed in E. injection E as ->.
      assert (SubjectsEqual subject subject = true) by by apply SubjectsEqual_true. congruence. }
  apply SubjectsEqual_true in Eq as [_ <-]. rewrite Esl.
  assert (subject_workload subject o (NamespaceUID (w_Cluster (s_Workload slot))) (Identity.w_UID (s_Workload slot))) as Hw
    by by exists slot.
  destruct (subject_workload_nonempty _ _ _ _ Hw) as [H1 H2].
  rewrite !bool_decide_eq_false_2 by done. cbn [orb]. left. eauto.
Qed.

Definition uid_seen (subject : EnvironmentSubject) (m : gmap string (gset string)) (l : list Observation) (c u : string) : Prop :=
  (∃ s, m !! c = Some s ∧ u ∈ s) ∨ ∃ o, o ∈ l ∧ subject_workload subject o c u.

Lemma uid_seen_skip subject m o l c u : (∀ c u, ¬ subject_workload subject o c u) →
  uid_seen subject m (o :: l) c u ↔ uid_seen subject m l c u.
Proof. intros Hn. unfold uid_seen. setoid_rewrite elem_of_cons. naive_solver. Qed.

Lemma uid_seen_insert subject m o l c u c' v : subject_workload subject o c u →
  {[u]} ∪ default ∅ (m !! c) = ({[u]} : gset string) →
  uid_seen subject m (o :: l) c' v ↔ uid_seen subject (<[c := {[u]}]> m) l c' v.
Proof.
  intros Hw Hs. unfold uid_seen. setoid_rewrite elem_of_cons. split.
  - intros [(s & Hl & Hv)|(o' & [->|Ho] & Hw')]; [|destruct (subject_workload_det _ _ _ _ _ _ Hw Hw') as [-> ->]|by right; eauto].
    + left. destruct (decide (c' = c)) as [->|Hne]; [|exists s; by rewrite lookup_insert_ne].
      exists {[u]}. rewrite lookup_insert_eq. split; [done|]. rewrite <- Hs, Hl. cbn. set_solver.
    + left. exists {[v]}. rewrite lookup_insert_eq. split; [done|set_solver].
  - intros [(s & Hl & Hv)|(o' & Ho & Hw')]; [|by right; eauto].
    destruct (decide (c' = c)) as [->|Hne]; [|rewrite lookup_insert_ne in Hl by done; by left; eauto].
    rewrite lookup_insert_eq in Hl. injection Hl as <-. apply elem_of_singleton in Hv as ->. right. eauto.
Qed.

Lemma union_one (u : string) (t : gset string) : size ({[u]} ∪ t) < 2 → {[u]} ∪ t = {[u]}.
Proof.
  intros Hsz. symmetry. apply set_subseteq_size_eq; [set_solver|]. rewrite size_singleton. lia.
Qed.

Lemma union_two (u : string) (t : gset string) : 2 ≤ size ({[u]} ∪ t) → ∃ x, x ∈ t ∧ u ≠ x.
Proof.
  intros Hsz. destruct (set_choose_or_empty (t ∖ {[u]})) as [[x Hx]|He]; [exists x; set_solver|].
  assert ({[u]} ∪ t = {[u]}) as E.
  { apply set_eq. intros x. destruct (decide (x = u)) as [->|]; set_solver. }
  rewrite E, size_singleton in Hsz. lia.
Qed.

Lemma size_one_eq (t : gset string) u v : size t = 1 → u ∈ t → v ∈ t → u = v.
Proof. intros [x ->%leibniz_equiv]%size_1_elem_of. set_solver. Qed.

Lemma uids_loop_true subject m l : subject_valid subject = true → uids_wf m →
  uids_loop subject m l = true ↔
    ∃ c u u', u ≠ u' ∧ uid_seen subject m l c u ∧ uid_seen subject m l c u'.
Proof.
  intros Hs. revert m. induction l as [|o l IH]; intros m Hwf.
  { cbn. split; [done|]. intros (c & u & u' & Hne & [(s & H1 & H2)|(? & H & _)] & [(s' & H1' & H2')|(? & H' & _)]);
      try (by apply elem_of_nil in H); try (by apply elem_of_nil in H').
    rewrite H1 in H1'. injection H1' as <-. destruct Hne. apply (size_one_eq s); [by apply (Hwf c)|done..]. }
  destruct (uids_loop_cons subject m o l Hs) as [(c & u & Hw & ->)|[Hn ->]].
  2:{ rewrite IH by done. setoid_rewrite uid_seen_skip; done. }
  cbn zeta. destruct (Nat.leb_spec 2 (size ({[u]} ∪ default ∅ (m !! c)))) as [Hsz|Hsz].
  - split; [intros _|done]. apply union_two in Hsz as (x & Hx & Hne). exists c, u, x. split; [done|].
    split; [right; exists o; split; [left|done]|]. left. destruct (m !! c) as [t|]; [by exists t|set_solver].
  - apply union_one in Hsz. rewrite Hsz, IH; [by setoid_rewrite uid_seen_insert|].
    intros c' s' [[<- <-]|[_ H]]%lookup_insert_Some; [by rewrite size_singleton|by apply (Hwf c')].
Qed.

(** The disclosure is positive proof: it is made exactly when a compatible
    candidate exists and two of the supplied observations, bound to this very
    subject in one cluster, ran in workloads with different UIDs. *)
Theorem ProposalSubjectMatchedMultipleWorkloadUIDs_exact subject proposals l :
  PopulationIdentity_Validate subject = Ok () →
  ProposalSubjectMatchedMultipleWorkloadUIDs subject proposals l = true ↔
    pi_Scope subject = ScopeContainer ∧ (∃ p, p ∈ proposals ∧ compatible_v2 subject (cp_Spec p) = true) ∧
    ∃ o o' cluster uid uid', o ∈ l ∧ o' ∈ l ∧ uid ≠ uid' ∧
      subject_workload subject o cluster uid ∧ subject_workload subject o' cluster uid'.
Proof.
  intros Hs%subject_valid_true. unfold ProposalSubjectMatchedMultipleWorkloadUIDs. rewrite Hs. cbn [negb orb].
  assert (hasCompatibleCandidateV2 subject proposals = true ↔ ∃ p, p ∈ proposals ∧ compatible_v2 subject (cp_Spec p) = true) as <-.
  { unfold hasCompatibleCandidateV2. rewrite existsb_exists. by setoid_rewrite list_elem_of_In. }
  case_bool_decide as Hsc; cbn [negb orb]; [|split; [done|by intros [? _]]].
  rewrite (bool_decide_eq_true_2 (pi_BinaryPath subject = "")) by by apply valid_container_binary.
  destruct (hasCompatibleCandidateV2 _ _); cbn [negb orb]; [|split; [done|by intros (_ & ? & _)]].
  rewrite uids_loop_true by done. unfold uid_seen. setoid_rewrite lookup_empty. split.
  - intros (c & u & u' & Hne & [(? & ? & _)|(o & Ho & Hw)] & [(? & ? & _)|(o' & Ho' & Hw')]); try done.
    split; [done|]. split; [done|]. exists o, o', c, u, u'. done.
  - intros (_ & _ & o & o' & c & u & u' & Ho & Ho' & Hne & Hw & Hw'). exists c, u, u'. eauto 10.
Qed.

(** ** The reasons *)
Lemma elem_of_uniqueStrings x l : x ∈ uniqueStrings l ↔ x ∈ l.
Proof.
  assert (∀ l last, x ∈ unique_from last l ∨ x = last ↔ x ∈ l ∨ x = last) as H.
  { clear. induction l as [|v l IH]; intros last; cbn; [done|]. case_bool_decide as E.
    - subst. rewrite IH, elem_of_cons. naive_solver.
    - rewrite !elem_of_cons. pose proof (IH v). naive_solver. }
  destruct l as [|v l]; [done|]. cbn [uniqueStrings]. rewrite !elem_of_cons. pose proof (H l v). naive_solver.
Qed.

Lemma nonempty_iff {A} (l : list A) : (0 <? length l) = true ↔ ∃ x, x ∈ l.
Proof.
  destruct l as [|x l]; cbn; split; try done; [intros [x Hx]; by apply elem_of_nil in Hx|].
  intros _. exists x. left.
Qed.

(** The population the input carries is the subject's own. *)
Definition population_of (input : AttentionInput) : Prop :=
  let p := ai_Population input in
  ai_Subject input = mkPopulationIdentity (p_Scope p) (p_Target p) (p_Container p) (p_ImageIdentity p) (p_BinaryPath p).

(** A capability observed for the subject that its one current policy does not add. *)
Definition outside_policy (input : AttentionInput) (p : CandidateProposal) (name : string) : Prop :=
  population_of input ∧ name ≠ "" ∧ name ∈ map cr_Name (p_CapabilityAccesses (ai_Population input)) ∧
  ∃ candidate, candidateV2 (cp_Spec p) = Ok candidate ∧
    name ∉ cc_Add (art_ContainerCapabilities (cand_Artifact candidate)).

Definition new_contribution (input : AttentionInput) (b : ProposalInput) (id : string) : Prop :=
  id ≠ "" ∧ id ∈ map oc_ObservationID (p_ObservationContributions (ai_Population input)) ∧
  ∃ provenance, sp_Provenance (cp_Spec (pi_Candidate b)) = Some provenance ∧ id ∉ pp_ObservationIDs provenance.

Lemma elem_of_filter_bool {A} (f : A → bool) l x : x ∈ List.filter f l ↔ x ∈ l ∧ f x = true.
Proof. rewrite !list_elem_of_In. apply filter_In. Qed.

Lemma elem_of_outside population add name :
  name ∈ outside_capabilities population add ↔
    name ≠ "" ∧ name ∈ map cr_Name (p_CapabilityAccesses population) ∧ name ∉ add.
Proof.
  unfold outside_capabilities. rewrite elem_of_uniqueStrings, elem_of_sort_by, elem_of_filter_bool, andb_true_iff,
    !negb_true_iff, !bool_decide_eq_false. tauto.
Qed.

Lemma population_matches_true input : subject_valid (ai_Subject input) = true →
  population_matches input = true ↔ population_of input.
Proof.
  intros Hs. unfold population_matches, population_of. cbn zeta. rewrite andb_true_iff, SubjectsEqual_true.
  split; [tauto|]. intros E. rewrite <- E. done.
Qed.

(** The dereference of the baseline's provenance is safe: a compatible
    specification passed the v2 validation, which requires one. *)
Lemma baseline_provenance subject spec : compatible_v2 subject spec = true → is_Some (sp_Provenance spec).
Proof.
  unfold compatible_v2. intros [Hv%is_v2_true H]%andb_true_iff. destruct (candidateV2 spec) as [c|] eqn:E; [|done].
  unfold candidateV2 in E. apply result_bind_Ok in E as ([] & E & _).
  destruct (candidateV2_v2 _ Hv E) as [_ Hr]. unfold reviewContextV2 in Hr. rewrite E in Hr. cbn in Hr.
  by destruct (sp_Provenance spec).
Qed.

Lemma derivationBaseline_Some subject l b : derivationBaseline subject l = Some b →
  b ∈ l ∧ compatible_v2 subject (cp_Spec (pi_Candidate b)) = true ∧
  ∀ c, c ∈ l → compatible_v2 subject (cp_Spec (pi_Candidate c)) = true → (pi_CreatedAt c <= pi_CreatedAt b)%Z.
Proof.
  unfold derivationBaseline. destruct (sort_by compare_inputs _) as [|h t] eqn:E; [done|]. intros [= <-].
  destruct (sort_head compare_inputs _ _ _ E) as [Hh Hmin]. apply elem_of_filter_bool in Hh as [H1 H2].
  split; [done|]. split; [done|]. intros c Hc Hcc.
  assert (compare_inputs c h = false) as Hl by (apply Hmin, elem_of_filter_bool; done).
  apply orb_false_iff in Hl as [Hl _]. unfold later in Hl. lia.
Qed.

Lemma elem_of_delta population b id provenance : sp_Provenance (cp_Spec (pi_Candidate b)) = Some provenance →
  id ∈ contribution_delta population b ↔
    id ≠ "" ∧ id ∈ map oc_ObservationID (p_ObservationContributions population) ∧ id ∉ pp_ObservationIDs provenance.
Proof.
  intros E. unfold contribution_delta. rewrite E. cbn zeta.
  rewrite elem_of_sort_by, elem_of_filter_bool, elem_of_dedup, elem_of_filter_bool,
    !negb_true_iff, !bool_decide_eq_false. tauto.
Qed.

(** *** The order of the reasons *)
Definition reason_key (r : AttentionReason) : Z * string * string :=
  (category_rank (ar_Category r), ar_ExplanationCode r, first_observation r).

Lemma attention_less_lex l r : attention_less l r =
  less_lex (less_on (fun r => category_rank (ar_Category r)) Z.ltb)
    (less_lex (less_on ar_ExplanationCode string_ltb) (less_on first_observation string_ltb)) l r.
Proof.
  unfold attention_less, less_lex, less_on.
  destruct (Z.eqb_spec (category_rank (ar_Category l)) (category_rank (ar_Category r))) as [->|]; cbn [negb].
  - rewrite Z.ltb_irrefl. cbn [orb negb andb]. case_bool_decide as E; cbn [negb].
    + by rewrite E, string_ltb_irrefl.
    + destruct (string_ltb (ar_ExplanationCode l) _) eqn:E1; [done|].
      destruct (string_ltb (ar_ExplanationCode r) _) eqn:E2; [done|]. by destruct E; apply less_total.
  - destruct (Z.ltb_spec (category_rank (ar_Category l)) (category_rank (ar_Category r))),
      (Z.ltb_spec (category_rank (ar_Category r)) (category_rank (ar_Category l))); try lia; done.
Qed.

#[export] Instance attention_less_weak : StrictWeak attention_less.
Proof.
  pose proof (less_lex_weak (less_on (fun r => category_rank (ar_Category r)) Z.ltb)
    (less_lex (less_on ar_ExplanationCode string_ltb) (less_on first_observation string_ltb))) as W.
  split; intros x y; rewrite !attention_less_lex; [apply less_asym|]. intros z. rewrite !attention_less_lex.
  apply less_negtrans.
Qed.

Lemma attention_less_key l r : attention_less l r = false → attention_less r l = false → reason_key l = reason_key r.
Proof.
  rewrite !attention_less_lex. unfold less_lex, less_on. intros H1 H2.
  apply orb_false_iff in H1 as [H1 H1'], H2 as [H2 H2']. rewrite H1, H2 in *. cbn in H1', H2'.
  apply orb_false_iff in H1' as [H3 H3'], H2' as [H4 H4']. rewrite H3, H4 in *. cbn in H3', H4'.
  unfold reason_key. f_equal; [f_equal|by apply less_total]; [lia|by apply less_total].
Qed.

(** *** Reading the result *)
Definition reasons_of (input : AttentionInput) (v : VerificationProjection) : list AttentionReason :=
  let selection := SelectApprovedPolicy (ai_Subject input) (map pi_Candidate (ai_Proposals input)) in
  capability_reasons input selection ++ application_reasons input selection v ++
  baseline_reasons input ++ flat_map observation_reason (ai_FailedObservations input) ++ ambiguity_reasons input selection.

Lemma EvaluateAttention_Ok input res : EvaluateAttention input = Ok res →
  subject_valid (ai_Subject input) = true ∧ ∃ v,
    ProjectVerification (ai_Subject input) (map pi_Candidate (ai_Proposals input)) (ai_ApplyAttempts input)
      (ai_RollbackAttempts input) = Ok v ∧ Reasons res = sort_by attention_less (reasons_of input v).
Proof.
  unfold EvaluateAttention. intros ([] & Hs%or_error_Ok & H)%result_bind_Ok. apply result_bind_Ok in H as (v & Hv & H).
  split; [by apply subject_valid_true|]. exists v. split; [done|]. by apply Ok_inj in H as <-.
Qed.

Definition authorities (input : AttentionInput) : list CandidateProposal :=
  filter (current_authority (ai_Subject input)) (map pi_Candidate (ai_Proposals input)).

Lemma observation_segment l r : r ∈ flat_map observation_reason l ↔
  ∃ o, o ∈ l ∧ ex_State (o_execution o) = ExecutionFailed ∧ r =
    mkReason AttentionObservationFailed (observationEnvironmentSubject o) [o_id o] [o_id o] [] [] []
      (match observationEnvironmentSubject o with Some _ => "OBSERVATION_FAILED_BOUND" | None => "OBSERVATION_FAILED_UNBOUND" end).
Proof.
  rewrite list_elem_of_In, in_flat_map. setoid_rewrite <- list_elem_of_In. unfold observation_reason.
  split; intros (o & Ho & H); exists o.
  - split; [done|]. case_bool_decide; cbn [negb] in H; [|by apply elem_of_nil in H]. by apply list_elem_of_singleton in H.
  - split; [done|]. destruct H as [H ->]. rewrite bool_decide_eq_true_2 by done. left.
Qed.

Section segments.
Context (input : AttentionInput) (v : VerificationProjection).
Context (Hs : subject_valid (ai_Subject input) = true).
Local Abbreviation selection := (SelectApprovedPolicy (ai_Subject input) (map pi_Candidate (ai_Proposals input))).

Lemma selection_cases :
  (∃ p, authorities input = [p] ∧ sel_State selection = SelectionSelected ∧ sel_Proposal selection = Some p) ∨
  (authorities input = [] ∧ sel_State selection = SelectionNone) ∨
  (2 ≤ length (authorities input) ∧ sel_State selection = SelectionAmbiguous ∧
   sel_AmbiguousRefs selection = sort_by ref_less (map cp_Ref (authorities input))).
Proof.
  destruct (SelectApprovedPolicy_unfold (ai_Subject input) (map pi_Candidate (ai_Proposals input)) Hs) as [E _].
  unfold authorities. destruct (filter _ _) as [|p [|q k]].
  - injection E as E1 _ _. right; left. done.
  - injection E as E1 E2 _. left. by exists p.
  - apply (f_equal fst) in E as E1. apply (f_equal snd) in E as E3. apply (f_equal fst) in E1. cbn [fst snd] in E1, E3.
    right; right. split; [cbn; lia|done].
Qed.

Lemma capability_segment r : r ∈ capability_reasons input selection →
  ar_Category r = AttentionCapabilityOutsideApprovedPolicy ∧
  ∃ p, authorities input = [p] ∧ ar_GovernanceRefs r = [cp_Ref p] ∧
    ∀ name, name ∈ ar_EvidenceRefs r ↔ outside_policy input p name.
Proof.
  unfold capability_reasons. destruct selection_cases as [(p & Hp & -> & ->)|[(_ & ->)|(_ & -> & _)]];
    [|by intros H%elem_of_nil..].
  destruct (population_matches input) eqn:Hm; cbn [negb]; [|by intros H%elem_of_nil].
  apply population_matches_true in Hm; [|done].
  destruct (candidateV2 (cp_Spec p)) as [cand|] eqn:Ec; [|by intros H%elem_of_nil].
  destruct (0 <? _); [|by intros H%elem_of_nil]. intros ->%list_elem_of_singleton. split; [done|].
  exists p. split; [done|]. split; [done|]. intros name. cbn [ar_EvidenceRefs]. rewrite elem_of_outside.
  unfold outside_policy. rewrite Ec. naive_solver.
Qed.

Lemma application_segment r : r ∈ application_reasons input selection v →
  ∃ p, authorities input = [p] ∧ application_category (vp_Application v) = Some (ar_Category r) ∧
    ar_GovernanceRefs r = [cp_Ref p] ∧ ar_ApplicationRefs r = vp_CurrentAttemptRefs v ∧
    ar_ExplanationCode r = category_code (ar_Category r) ∧ ar_ObservationRefs r = [].
Proof.
  unfold application_reasons. destruct selection_cases as [(p & Hp & -> & ->)|[(_ & ->)|(_ & -> & _)]];
    [|by intros H%elem_of_nil..].
  destruct (application_category _) as [c|] eqn:Ec; [|by intros H%elem_of_nil].
  intros ->%list_elem_of_singleton. by exists p.
Qed.

Lemma application_category_cases a c : application_category a = Some c →
  c = AttentionApprovedNotApplied ∨ c = AttentionApplicationStateUnknown.
Proof. destruct a; cbn; intros [= <-]; auto. Qed.

Lemma baseline_segment r : r ∈ baseline_reasons input →
  ar_Category r = AttentionNewContributionSinceCandidate ∧
  ∃ b, derivationBaseline (ai_Subject input) (ai_Proposals input) = Some b ∧ ar_ProposalRefs r = [cp_Ref (pi_Candidate b)] ∧
    ∀ id, id ∈ ar_ObservationRefs r ↔ new_contribution input b id.
Proof.
  unfold baseline_reasons. destruct (derivationBaseline _ _) as [b|] eqn:Eb; [|by intros H%elem_of_nil].
  destruct (0 <? _); [|by intros H%elem_of_nil]. intros ->%list_elem_of_singleton. split; [done|]. exists b.
  split; [done|]. split; [done|]. intros id. destruct (derivationBaseline_Some _ _ _ Eb) as (_ & Hc & _).
  destruct (baseline_provenance _ _ Hc) as [pr Hpr]. cbn [ar_ObservationRefs]. rewrite (elem_of_delta _ _ _ pr Hpr).
  unfold new_contribution. rewrite Hpr. naive_solver.
Qed.

Lemma ambiguity_segment r : r ∈ ambiguity_reasons input selection ↔
  2 ≤ length (authorities input) ∧ r =
    mkReason AttentionMultipleValidApprovedProposals (Some (ai_Subject input)) [] [] []
      (sort_by ref_less (map cp_Ref (authorities input))) [] (category_code AttentionMultipleValidApprovedProposals).
Proof.
  unfold ambiguity_reasons. destruct selection_cases as [(p & Hp & -> & _)|[(Hp & ->)|(Hp & -> & ->)]].
  - rewrite Hp. split; [by intros H%elem_of_nil|]. intros [H _]. cbn in H; lia.
  - rewrite Hp. split; [by intros H%elem_of_nil|]. intros [H _]. cbn in H; lia.
  - rewrite list_elem_of_singleton. naive_solver.
Qed.
(** The reasons of one category. *)
Definition segment (c : AttentionCategory) : list AttentionReason :=
  match c with
  | AttentionCapabilityOutsideApprovedPolicy => capability_reasons input selection
  | AttentionApprovedNotApplied | AttentionApplicationStateUnknown => application_reasons input selection v
  | AttentionNewContributionSinceCandidate => baseline_reasons input
  | AttentionObservationFailed => flat_map observation_reason (ai_FailedObservations input)
  | AttentionMultipleValidApprovedProposals => ambiguity_reasons input selection
  end.

Lemma reasons_segment r : r ∈ reasons_of input v ↔ r ∈ segment (ar_Category r).
Proof.
  unfold reasons_of. rewrite !elem_of_app. split.
  - intros [H|[H|[H|[H|H]]]].
    + destruct (capability_segment r H) as [E _]. by rewrite E.
    + destruct (application_segment r H) as (p & _ & E & _). by destruct (application_category_cases _ _ E) as [-> | ->].
    + destruct (baseline_segment r H) as [E _]. by rewrite E.
    + pose proof H as (o & _ & _ & E)%observation_segment. by rewrite E at 2.
    + pose proof H as (_ & E)%ambiguity_segment. by rewrite E at 2.
  - destruct (ar_Category r); cbn [segment]; tauto.
Qed.

End segments.

(** ** What a reason says, category by category *)

(** A list of distinct names in ascending order with exactly the names of which
    [P] holds. *)
Definition exactly (P : string → Prop) (names : list string) : Prop :=
  StronglySorted (not_above string_ltb) names ∧ NoDup names ∧ ∀ name, name ∈ names ↔ P name.

Lemma exactly_unique P l k : exactly P l → exactly P k → l = k.
Proof.
  intros (Hl & Nl & El) (Hk & Nk & Ek). apply sorted_strings_unique; [done..|].
  apply NoDup_Permutation; [done..|]. intros x. by rewrite El, Ek.
Qed.

Lemma unique_from_ascending last l : StronglySorted (not_above string_ltb) (last :: l) →
  StronglySorted (λ x y, string_ltb x y = true) (last :: unique_from last l).
Proof.
  revert last. induction l as [|v l IH]; intros last Hl; cbn [unique_from]; [by repeat constructor|].
  apply StronglySorted_inv in Hl as [Hvl Hlast]. pose proof Hlast as Hv%Forall_cons_1. destruct Hv as [Hv Hlast'].
  case_bool_decide as E.
  - subst v. by apply IH.
  - pose proof (IH v Hvl) as Hu. constructor; [done|].
    assert (string_ltb last v = true) as Hlt.
    { destruct (string_ltb last v) eqn:Elt; [done|]. exfalso. apply E, (less_total (less:=string_ltb)); [exact Hv|exact Elt]. }
    apply StronglySorted_inv in Hu as [_ Hall]. constructor; [done|].
    eapply Forall_impl; [exact Hall|]. intros y Hy. unfold string_ltb, String.ltb in *.
    destruct (String.compare last v) eqn:E1, (String.compare v y) eqn:E2; try done.
    by rewrite (string_compare_lt_trans last v y E1 E2).
Qed.

Lemma ascending_exactly l : StronglySorted (λ x y, string_ltb x y = true) l → exactly (.∈ l) l.
Proof.
  intros Hl. split; [|split; [|done]].
  - induction Hl as [|x l Hs IH Hx]; [constructor|]. constructor; [done|]. eapply Forall_impl; [exact Hx|].
    intros y Hy. unfold not_above. by erewrite less_asym by eassumption.
  - induction Hl as [|x l Hs IH Hx]; [constructor|]. constructor; [|done]. intros Hin.
    rewrite Forall_forall in Hx. apply Hx in Hin. by rewrite string_ltb_irrefl in Hin.
Qed.

Lemma exactly_iff P Q l : (∀ x, P x ↔ Q x) → exactly P l → exactly Q l.
Proof. intros H (? & ? & E). split; [done|]. split; [done|]. intros x. by rewrite E. Qed.

Lemma outside_exactly population add :
  exactly (λ name, name ≠ "" ∧ name ∈ map cr_Name (p_CapabilityAccesses population) ∧ name ∉ add)
    (outside_capabilities population add).
Proof.
  eapply exactly_iff; [intros x; apply elem_of_outside|]. apply ascending_exactly. unfold outside_capabilities.
  generalize (sort_by_sorted string_ltb (List.filter (fun name => negb (bool_decide (name = "")) &&
    negb (bool_decide (name ∈ add))) (map cr_Name (p_CapabilityAccesses population)))).
  generalize (sort_strings (List.filter (fun name => negb (bool_decide (name = "")) && negb (bool_decide (name ∈ add)))
    (map cr_Name (p_CapabilityAccesses population)))). intros l Hl. destruct l as [|v l]; [constructor|].
  by apply unique_from_ascending.
Qed.

Lemma delta_exactly population b provenance : sp_Provenance (cp_Spec (pi_Candidate b)) = Some provenance →
  exactly (λ id, id ≠ "" ∧ id ∈ map oc_ObservationID (p_ObservationContributions population) ∧ id ∉ pp_ObservationIDs provenance)
    (contribution_delta population b).
Proof.
  intros E. split; [apply sort_by_sorted, _|]. split; [|intros x; by apply elem_of_delta].
  apply NoDup_sort_by, NoDup_ListNoDup, List.NoDup_filter, NoDup_ListNoDup, NoDup_dedup.
Qed.

(** The states of the application axis under which an approved policy is not in
    force, and those of which nothing is known. *)
Definition not_in_force : list ApplicationState :=
  [ApplicationNotAttempted; ApplicationFailed; ApplicationPartiallyApplied; ApplicationRolledBack; ApplicationRollbackFailed].
Definition outcome_unknown : list ApplicationState := [ApplicationOutcomeUnknown; ApplicationRollbackOutcomeUnknown].

Inductive justified (input : AttentionInput) (v : VerificationProjection) : AttentionReason → Prop :=
| justified_outside p names :
    authorities input = [p] → names ≠ [] → exactly (outside_policy input p) names →
    justified input v (mkReason AttentionCapabilityOutsideApprovedPolicy (Some (ai_Subject input)) names [] [] [cp_Ref p] []
      "CAPABILITY_OUTSIDE_APPROVED_POLICY")
| justified_not_applied p :
    authorities input = [p] → vp_Application v ∈ not_in_force →
    justified input v (mkReason AttentionApprovedNotApplied (Some (ai_Subject input)) [] [] [] [cp_Ref p]
      (vp_CurrentAttemptRefs v) "APPROVED_NOT_APPLIED")
| justified_unknown p :
    authorities input = [p] → vp_Application v ∈ outcome_unknown →
    justified input v (mkReason AttentionApplicationStateUnknown (Some (ai_Subject input)) [] [] [] [cp_Ref p]
      (vp_CurrentAttemptRefs v) "APPLICATION_STATE_UNKNOWN")
| justified_new b ids :
    derivationBaseline (ai_Subject input) (ai_Proposals input) = Some b → ids ≠ [] → exactly (new_contribution input b) ids →
    justified input v (mkReason AttentionNewContributionSinceCandidate (Some (ai_Subject input)) [] ids
      [cp_Ref (pi_Candidate b)] [] [] "NEW_CONTRIBUTION_SINCE_CANDIDATE")
| justified_failed o :
    o ∈ ai_FailedObservations input → ex_State (o_execution o) = ExecutionFailed →
    justified input v (mkReason AttentionObservationFailed (observationEnvironmentSubject o) [o_id o] [o_id o] [] [] []
      (match observationEnvironmentSubject o with Some _ => "OBSERVATION_FAILED_BOUND" | None => "OBSERVATION_FAILED_UNBOUND" end))
| justified_ambiguous :
    2 ≤ length (authorities input) →
    justified input v (mkReason AttentionMultipleValidApprovedProposals (Some (ai_Subject input)) [] [] []
      (sort_by ref_less (map cp_Ref (authorities input))) [] "MULTIPLE_VALID_APPROVED_PROPOSALS").

Section justified.
Context (input : AttentionInput) (v : VerificationProjection).
Context (Hs : subject_valid (ai_Subject input) = true).
Local Abbreviation selection := (SelectApprovedPolicy (ai_Subject input) (map pi_Candidate (ai_Proposals input))).

Lemma nonempty_ltb {A} (l : list A) : (0 <? length l) = true ↔ l ≠ [].
Proof. by destruct l. Qed.

Lemma policy_exactly p cand : population_of input → candidateV2 (cp_Spec p) = Ok cand →
  exactly (outside_policy input p)
    (outside_capabilities (ai_Population input) (cc_Add (art_ContainerCapabilities (cand_Artifact cand)))).
Proof.
  intros Hpop Hc. eapply exactly_iff; [|apply outside_exactly]. intros x. unfold outside_policy. rewrite Hc. naive_solver.
Qed.

Lemma baseline_exactly b : derivationBaseline (ai_Subject input) (ai_Proposals input) = Some b →
  exactly (new_contribution input b) (contribution_delta (ai_Population input) b).
Proof.
  intros Eb. destruct (derivationBaseline_Some _ _ _ Eb) as (_ & Hc & _). destruct (baseline_provenance _ _ Hc) as [pr Hpr].
  eapply exactly_iff; [|by apply (delta_exactly _ _ pr)]. intros x. unfold new_contribution. rewrite Hpr. naive_solver.
Qed.

Lemma capability_justified r : r ∈ capability_reasons input selection → justified input v r.
Proof.
  unfold capability_reasons. destruct (selection_cases input Hs) as [(p & Hp & -> & ->)|[(_ & ->)|(_ & -> & _)]];
    [|by intros H%elem_of_nil..].
  destruct (population_matches input) eqn:Hm; cbn [negb]; [|by intros H%elem_of_nil].
  apply population_matches_true in Hm; [|done].
  destruct (candidateV2 (cp_Spec p)) as [cand|] eqn:Ec; [|by intros H%elem_of_nil].
  destruct (0 <? _) eqn:En; [|by intros H%elem_of_nil]. intros ->%list_elem_of_singleton.
  apply nonempty_ltb in En. apply justified_outside; [done..|]. by apply policy_exactly.
Qed.

Lemma application_justified r : r ∈ application_reasons input selection v → justified input v r.
Proof.
  unfold application_reasons. destruct (selection_cases input Hs) as [(p & Hp & -> & ->)|[(_ & ->)|(_ & -> & _)]];
    [|by intros H%elem_of_nil..].
  destruct (application_category (vp_Application v)) as [c|] eqn:Ec; [|by intros H%elem_of_nil].
  intros ->%list_elem_of_singleton.
  destruct (vp_Application v) eqn:Ea; cbn in Ec; try done; injection Ec as <-;
    (apply justified_not_applied || apply justified_unknown); try done; rewrite Ea; repeat constructor.
Qed.

Lemma baseline_justified r : r ∈ baseline_reasons input → justified input v r.
Proof.
  unfold baseline_reasons. destruct (derivationBaseline _ _) as [b|] eqn:Eb; [|by intros H%elem_of_nil].
  destruct (0 <? _) eqn:En; [|by intros H%elem_of_nil]. intros ->%list_elem_of_singleton.
  apply nonempty_ltb in En. apply justified_new; [done..|]. by apply baseline_exactly.
Qed.

Lemma justified_raised r : justified input v r → r ∈ reasons_of input v.
Proof.
  unfold reasons_of. rewrite !elem_of_app. destruct 1 as [p names Hp Hne He|p Hp Ha|p Hp Ha|b ids Hb Hne He|o Ho Hst|Hl].
  - left. unfold capability_reasons.
    destruct (selection_cases input Hs) as [(q & Hq & -> & ->)|[(H & _)|(H & _)]]; [|rewrite Hp in H; done || (cbn in H; lia)..].
    rewrite Hp in Hq. injection Hq as <-. destruct names as [|n names]; [done|].
    assert (outside_policy input p n) as (Hpop & _ & _ & cand & Hc & _) by (apply He; left).
    rewrite (proj2 (population_matches_true input Hs) Hpop). cbn [negb]. rewrite Hc.
    rewrite (exactly_unique _ _ _ (policy_exactly p cand Hpop Hc) He). left.
  - right; left. unfold application_reasons.
    destruct (selection_cases input Hs) as [(q & Hq & -> & ->)|[(H & _)|(H & _)]]; [|rewrite Hp in H; done || (cbn in H; lia)..].
    rewrite Hp in Hq. injection Hq as <-.
    assert (application_category (vp_Application v) = Some AttentionApprovedNotApplied) as ->; [|left].
    unfold not_in_force in Ha. rewrite !elem_of_cons in Ha. by destruct Ha as [-> |[-> |[-> |[-> |[-> |Ha%elem_of_nil]]]]].
  - right; left. unfold application_reasons.
    destruct (selection_cases input Hs) as [(q & Hq & -> & ->)|[(H & _)|(H & _)]]; [|rewrite Hp in H; done || (cbn in H; lia)..].
    rewrite Hp in Hq. injection Hq as <-.
    assert (application_category (vp_Application v) = Some AttentionApplicationStateUnknown) as ->; [|left].
    unfold outcome_unknown in Ha. rewrite !elem_of_cons in Ha. by destruct Ha as [-> |[-> |Ha%elem_of_nil]].
  - do 2 right; left. unfold baseline_reasons. rewrite Hb.
    rewrite (exactly_unique _ _ _ (baseline_exactly b Hb) He).
    rewrite (proj2 (nonempty_ltb ids) Hne). left.
  - do 3 right; left. apply observation_segment. eauto.
  - do 4 right. by apply ambiguity_segment.
Qed.

Lemma reasons_justified r : r ∈ reasons_of input v ↔ justified input v r.
Proof.
  split; [|apply justified_raised]. unfold reasons_of. rewrite !elem_of_app. intros [H|[H|[H|[H|H]]]].
  - by apply capability_justified.
  - by apply application_justified.
  - by apply baseline_justified.
  - apply observation_segment in H as (o & Ho & Hst & ->). by apply justified_failed.
  - apply ambiguity_segment in H as [Hl ->]; [|done]. by apply justified_ambiguous.
Qed.
End justified.

(** C34: the reasons of an evaluation are exactly the justified ones.  A reason
    is raised if and only if the predicate of its category holds of the loaded
    objects, and it names exactly the objects that make it hold: the observed
    capabilities the one current policy does not add, of which there is at
    least one; the policy and the current attempts when the policy is not in
    force, or nothing is known of it; the contributions, at least one, that the
    baseline was not derived from, and the baseline, which no compatible
    proposal is newer than; each failed observation; and all the authorities
    when there are several.  The reasons come in their order. *)
Theorem EvaluateAttention_exact input res v :
  EvaluateAttention input = Ok res →
  ProjectVerification (ai_Subject input) (map pi_Candidate (ai_Proposals input)) (ai_ApplyAttempts input)
    (ai_RollbackAttempts input) = Ok v →
  (∀ r, r ∈ Reasons res ↔ justified input v r) ∧
  (∀ b, derivationBaseline (ai_Subject input) (ai_Proposals input) = Some b →
     b ∈ ai_Proposals input ∧ compatible_v2 (ai_Subject input) (cp_Spec (pi_Candidate b)) = true ∧
     ∀ c, c ∈ ai_Proposals input → compatible_v2 (ai_Subject input) (cp_Spec (pi_Candidate c)) = true →
       (pi_CreatedAt c <= pi_CreatedAt b)%Z) ∧
  StronglySorted (not_above attention_less) (Reasons res).
Proof.
  intros (Hs & w & Hw & Hres)%EvaluateAttention_Ok Hv. rewrite Hw in Hv. apply Ok_inj in Hv as ->.
  split; [|split; [intros b; apply derivationBaseline_Some|rewrite Hres; apply sort_by_sorted, _]].
  intros r. rewrite Hres, elem_of_sort_by. by apply reasons_justified.
Qed.

(** ** Independence of the listing order *)
Lemma short_NoDup {A B} (f : A → B) l : length l ≤ 1 → NoDup (map f l).
Proof. destruct l as [|x [|y l]]; cbn; [constructor|intros _; apply NoDup_singleton|lia]. Qed.

Lemma segments_short input v c : c ≠ AttentionObservationFailed → length (segment input v c) ≤ 1.
Proof.
  intros Hc. destruct c; try done; cbn [segment];
    unfold capability_reasons, application_reasons, baseline_reasons, ambiguity_reasons; repeat case_match; cbn; lia.
Qed.

Lemma failed_ids_NoDup l : NoDup (map o_id l) → NoDup (map reason_key (flat_map observation_reason l)).
Proof.
  induction l as [|o l IH]; cbn; [constructor|]. intros [Ho Hl]%NoDup_cons. rewrite map_app.
  apply NoDup_app. split; [|split; [|by apply IH]].
  - apply short_NoDup. unfold observation_reason. case_match; cbn; lia.
  - intros k Hk Hk'. apply list_elem_of_fmap in Hk as (r & -> & Hr), Hk' as (r' & Hkey & Hr').
    apply observation_segment in Hr' as (o' & Ho' & _ & ->).
    assert (r ∈ flat_map observation_reason [o]) as Hr1 by (cbn [flat_map]; by rewrite app_nil_r).
    apply observation_segment in Hr1 as (o1 & ->%list_elem_of_singleton & _ & ->).
    injection Hkey as _ Hid. unfold first_observation in Hid. cbn in Hid. apply Ho. rewrite Hid.
    by apply list_elem_of_fmap_2.
Qed.

(** The two categories of the application axis share a segment. *)
Definition band (c : AttentionCategory) : Z :=
  match c with
  | AttentionCapabilityOutsideApprovedPolicy => 0 | AttentionApprovedNotApplied => 1 | AttentionApplicationStateUnknown => 1
  | AttentionNewContributionSinceCandidate => 3 | AttentionObservationFailed => 4 | AttentionMultipleValidApprovedProposals => 5
  end.

Lemma segment_band input v c r : subject_valid (ai_Subject input) = true → r ∈ segment input v c →
  band (ar_Category r) = band c.
Proof.
  intros Hs Hr. destruct c; cbn [segment] in Hr.
  - by destruct (capability_segment input Hs r Hr) as [-> _].
  - destruct (application_segment input v Hs r Hr) as (p & _ & E & _). by destruct (application_category_cases _ _ E) as [-> | ->].
  - destruct (application_segment input v Hs r Hr) as (p & _ & E & _). by destruct (application_category_cases _ _ E) as [-> | ->].
  - by destruct (baseline_segment input r Hr) as [-> _].
  - by apply observation_segment in Hr as (o & _ & _ & ->).
  - by apply ambiguity_segment in Hr as (_ & ->).
Qed.

Lemma segments_disjoint input v c l k : subject_valid (ai_Subject input) = true →
  (∀ r, r ∈ l → band (ar_Category r) ≠ band c) →
  k ∈ map reason_key (segment input v c) → k ∉ map reason_key l.
Proof.
  intros Hs Hl Hk Hk'. apply list_elem_of_fmap in Hk as (r & -> & Hr), Hk' as (r' & Hkey & Hr').
  apply Hl in Hr'. apply segment_band in Hr; [|done]. rewrite <- Hr in Hr'.
  injection Hkey as Hrank _ _. destruct (ar_Category r), (ar_Category r'); done.
Qed.

Lemma reasons_NoDup input v : subject_valid (ai_Subject input) = true →
  NoDup (map o_id (ai_FailedObservations input)) → NoDup (map reason_key (reasons_of input v)).
Proof.
  intros Hs Hnd. unfold reasons_of. rewrite !map_app.
  pose proof (segments_short input v) as Hshort. pose proof (segment_band input v) as Hband.
  apply NoDup_app. split; [by apply short_NoDup, (Hshort AttentionCapabilityOutsideApprovedPolicy)|].
  rewrite <- !map_app. split.
  { intros k. apply (segments_disjoint input v AttentionCapabilityOutsideApprovedPolicy); [done|].
    intros r. rewrite !elem_of_app. intros [H|[H|[H|H]]];
      [apply (Hband AttentionApprovedNotApplied) in H|apply (Hband AttentionNewContributionSinceCandidate) in H
      |apply (Hband AttentionObservationFailed) in H|apply (Hband AttentionMultipleValidApprovedProposals) in H];
      by rewrite ?H. }
  rewrite map_app. apply NoDup_app. split; [by apply short_NoDup, (Hshort AttentionApprovedNotApplied)|]. split.
  { intros k. apply (segments_disjoint input v AttentionApprovedNotApplied); [done|].
    intros r. rewrite !elem_of_app. intros [H|[H|H]];
      [apply (Hband AttentionNewContributionSinceCandidate) in H
      |apply (Hband AttentionObservationFailed) in H|apply (Hband AttentionMultipleValidApprovedProposals) in H];
      by rewrite ?H. }
  rewrite map_app. apply NoDup_app. split; [by apply short_NoDup, (Hshort AttentionNewContributionSinceCandidate)|]. split.
  { intros k. apply (segments_disjoint input v AttentionNewContributionSinceCandidate); [done|].
    intros r. rewrite !elem_of_app. intros [H|H];
      [apply (Hband AttentionObservationFailed) in H|apply (Hband AttentionMultipleValidApprovedProposals) in H];
      by rewrite ?H. }
  rewrite map_app. apply NoDup_app. split; [by apply failed_ids_NoDup|].
  split; [|by apply short_NoDup, (Hshort AttentionMultipleValidApprovedProposals)].
  intros k. apply (segments_disjoint input v AttentionObservationFailed); [done|].
  intros r H. apply (Hband AttentionMultipleValidApprovedProposals) in H; by rewrite ?H.
Qed.

Lemma flat_map_perm {A B} (f : A → list B) l k : l ≡ₚ k → flat_map f l ≡ₚ flat_map f k.
Proof.
  induction 1 as [|x l k Hp IH|x y l|l m k Hp1 IH1 Hp2 IH2]; cbn; [done|by rewrite IH| |by rewrite IH1].
  rewrite !app_assoc. apply Permutation_app_tail, Permutation_app_comm.
Qed.

Lemma filter_bool_perm {A} (f : A → bool) l k : l ≡ₚ k → List.filter f l ≡ₚ List.filter f k.
Proof.
  induction 1 as [|x l k Hp IH|x y l|l m k Hp1 IH1 Hp2 IH2]; cbn; [done| | |by rewrite IH1].
  - by destruct (f x); rewrite IH.
  - destruct (f x), (f y); try done. apply Permutation_swap.
Qed.

Lemma NoDup_filter_bool {A B} (g : A → B) (f : A → bool) l : NoDup (map g l) → NoDup (map g (List.filter f l)).
Proof.
  induction l as [|x l IH]; cbn; [done|]. intros [Hx Hl]%NoDup_cons. destruct (f x); [|by apply IH].
  cbn. apply NoDup_cons. split; [|by apply IH]. intros (y & E & Hy)%list_elem_of_fmap. apply elem_of_filter_bool in Hy as [Hy _].
  apply Hx. rewrite E. by apply list_elem_of_fmap_2.
Qed.

Lemma derivationBaseline_perm subject l k : NoDup (map (fun p => cp_Ref (pi_Candidate p)) l) → l ≡ₚ k →
  derivationBaseline subject l = derivationBaseline subject k.
Proof.
  intros Hnd Hp. unfold derivationBaseline.
  rewrite (sort_by_distinct compare_inputs (fun p => cp_Ref (pi_Candidate p)) _
    (List.filter (fun input => compatible_v2 subject (cp_Spec (pi_Candidate input))) k)); [done| |by apply NoDup_filter_bool|by apply filter_bool_perm].
  intros x y Hxy Hyx. unfold compare_inputs, less_lex in *.
  apply orb_false_iff in Hxy as [H1 H1'], Hyx as [H2 H2']. rewrite H1, H2 in *. by apply less_total.
Qed.

(** The attention of a subject is a function of the loaded objects: the order
    of the proposals, of the attempts and of the failed observations does not
    change which reasons are given nor the order they are given in. *)
Theorem EvaluateAttention_order_independent subject population ps ps' aa aa' rr rr' oo oo' :
  NoDup (map (fun p => cp_Ref (pi_Candidate p)) ps) → NoDup (map input_names (attempts_of aa rr)) → NoDup (map o_id oo) →
  ps ≡ₚ ps' → aa ≡ₚ aa' → rr ≡ₚ rr' → oo ≡ₚ oo' →
  EvaluateAttention (mkAttentionInput subject population ps aa rr oo) =
  EvaluateAttention (mkAttentionInput subject population ps' aa' rr' oo').
Proof.
  intros Hps Hat Hoo Pp Pa Pr Po. unfold EvaluateAttention.
  cbn [ai_Subject ai_Proposals ai_ApplyAttempts ai_RollbackAttempts ai_FailedObservations].
  destruct (PopulationIdentity_Validate subject) as [[]|] eqn:Hv; [|done]. cbn [or_error mbind result_bind].
  assert (map pi_Candidate ps ≡ₚ map pi_Candidate ps') as Pc by by rewrite Pp.
  rewrite (ProjectVerification_perm subject _ _ _ _ _ _ Hat Pc Pa Pr).
  destruct (ProjectVerification _ _ aa' rr') as [v|]; [|done]. cbn [mbind result_bind]. do 2 f_equal.
  destruct (SelectApprovedPolicy_perm subject _ _ Pc) as (E1 & E2 & E3).
  pose proof (reasons_NoDup (mkAttentionInput subject population ps aa rr oo) v (proj2 (subject_valid_true _) Hv) Hoo) as Hnd.
  unfold sortAttentionReasons. apply (sort_by_distinct attention_less reason_key); [exact attention_less_key|exact Hnd|].
  unfold capability_reasons, application_reasons, ambiguity_reasons, baseline_reasons.
  cbn [ai_Subject ai_Population ai_Proposals]. rewrite E1, E2, E3, (derivationBaseline_perm subject _ _ Hps Pp).
  do 3 apply Permutation_app_head. apply Permutation_app_tail. by apply flat_map_perm.
Qed.

(** ** Examples *)
Definition ex_digest : string := "sha256:0000000000000000000000000000000000000000000000000000000000000000".
Definition ex_image_subject : EnvironmentSubject := mkPopulationIdentity ScopeContainer "Deployment/web" "app" ex_digest "".
Definition ex_image_proposal : CandidateProposal :=
  let s := ex_spec_v2 ["CAP_KILL"] in
  mkCandidateProposal (mkProposalRef "default" "web" "u1")
    (mkSpec CandidateVersionV2 "" "" "" true None "" "" "" ""
      (Some (mkSubjectV2 CandidateV2ScopeContainer "Deployment/web" "app" ex_digest)) (sp_CapabilityArtifact s)
      (sp_Provenance s) (sp_Qualification s) (sp_DerivationStatus s))
    (mkStatus ApprovalDraft "" "" "" "" "" "" "" "" None []).
Definition ex_web_slot (uid : string) : ContainerSlot :=
  mkContainerSlot (mkWorkloadIdentity (mkClusterIdentity "cluster") "default" (mkGroupKind "apps" "Deployment") "web" uid) "app".
Definition ex_observation (id uid state : string) : Observation :=
  let slot := ex_web_slot uid in
  mkObservation id (mkObservationSpec (mkRequestedTarget slot) ["exec"] 60 "" "")
    (mkObservationBinding (mkResolvedTargetSet [mkRuntimeContainerInstance slot "pod" "cid" (Some (mkContainerImageRevision slot ex_digest))])
       no_backend [] [])
    (mkObservationExecution state "done" 0 0 None None) (mkObservationResult []) no_provenance true true.

Lemma ProposalSubjectMatchedMultipleWorkloadUIDs_exact_witness :
  ∃ o o' cluster uid uid', o ∈ [ex_observation "o1" "w1" ExecutionCompleted; ex_observation "o2" "w2" ExecutionCompleted] ∧
    o' ∈ [ex_observation "o1" "w1" ExecutionCompleted; ex_observation "o2" "w2" ExecutionCompleted] ∧ uid ≠ uid' ∧
    subject_workload ex_image_subject o cluster uid ∧ subject_workload ex_image_subject o' cluster uid'.
Proof.
  pose proof (ProposalSubjectMatchedMultipleWorkloadUIDs_exact ex_image_subject [ex_image_proposal]
    [ex_observation "o1" "w1" ExecutionCompleted; ex_observation "o2" "w2" ExecutionCompleted]) as H.
  destruct H as [H _]; [vm_compute; reflexivity|]. destruct H as (_ & _ & H); [vm_compute; reflexivity|]. exact H.
Defined.

Definition ex_population : Population :=
  mkPopulation true ScopeContainer None "Deployment/web" "app" "sha256:00" "" 1 [] [] [] []
    [mkCapabilityAccessRecord "CAP_KILL" 1; mkCapabilityAccessRecord "CAP_CHOWN" 1]
    [mkObservationContribution "o3" [] [] true] [].
Definition ex_input : AttentionInput :=
  mkAttentionInput ex_subject ex_population [mkProposalInput ex_draft 2; mkProposalInput (ex_proposal "web" "u1") 1]
    ex_applies [] [ex_observation "o9" "w1" ExecutionFailed; ex_observation "o8" "w1" ExecutionFailed].

Lemma EvaluateAttention_run input v : subject_valid (ai_Subject input) = true →
  ProjectVerification (ai_Subject input) (map pi_Candidate (ai_Proposals input)) (ai_ApplyAttempts input)
    (ai_RollbackAttempts input) = Ok v →
  EvaluateAttention input = Ok (mkAttentionResult (sortAttentionReasons (reasons_of input v))).
Proof.
  intros Hs Hv. unfold EvaluateAttention. apply subject_valid_true in Hs as ->. cbn [or_error mbind result_bind].
  rewrite Hv. done.
Qed.

Lemma EvaluateAttention_exact_witness :
  ∃ res, EvaluateAttention ex_input = Ok res ∧
    ∃ r, r ∈ Reasons res ∧ ar_Category r = AttentionObservationFailed ∧ ar_ObservationRefs r = ["o8"].
Proof.
  destruct ex_projected as (v & Hv & _).
  pose proof (EvaluateAttention_run ex_input v ex_subject_valid Hv) as Hr. eexists. split; [exact Hr|].
  destruct (EvaluateAttention_exact ex_input _ v Hr Hv) as [H _].
  eexists. split; [|split]; [apply H; apply (justified_failed ex_input v (ex_observation "o8" "w1" ExecutionFailed))|..];
    [right; left|reflexivity..].
Defined.

Lemma EvaluateAttention_order_independent_witness :
  EvaluateAttention ex_input =
  EvaluateAttention (mkAttentionInput ex_subject ex_population [mkProposalInput (ex_proposal "web" "u1") 1; mkProposalInput ex_draft 2]
    (rev ex_applies) [] [ex_observation "o8" "w1" ExecutionFailed; ex_observation "o9" "w1" ExecutionFailed]).
Proof.
  apply EvaluateAttention_order_independent;
    [apply (bool_decide_unpack _); vm_compute; exact I..|apply Permutation_swap|apply Permutation_swap|reflexivity|apply Permutation_swap].
Defined.
