(* ===== verification/ReconciliationEnvironment.v ===== *)
(** * internal/reconciliation/environment.go: one row per environment subject

    The environment projection groups the loaded populations and observations
    by subject and projects every group.  A nil dereference of the source is the
    outcome [Panicked].  The result groups: when the projection panics, which
    rows it has and what they are computed from, and its bound. *)
From S2P Require Import Prelude GoStd Identity ObservationDomain Digest Json Target History Proposal Attempt RollbackAttempt.
From S2P Require Import Reconciliation ReconciliationAttention.
Import History.

(** What a call does: return, with a value or an error, or panic. *)
Inductive outcome (A : Type) := Done (r : result A) | Panicked.
Arguments Done {A} r.
Arguments Panicked {A}.

Definition outcome_bind {A B} (o : outcome A) (f : A → outcome B) : outcome B :=
  match o with Done (Ok a) => f a | Done (Err e) => Done (Err e) | Panicked => Panicked end.

(** [(s Spec) CandidateV2()]: after validation, both pointers are dereferenced. *)
Definition Spec_CandidateV2 (s : Spec) : outcome CandidateV2 :=
  match ValidateProposalSpec s with
  | Err e => Done (Err e)
  | Ok _ =>
      match sp_Subject s, sp_CapabilityArtifact s with
      | Some subject, Some artifact => Done (Ok (mkCandidateV2 CandidateV2Version subject artifact))
      | _, _ => Panicked
      end
  end.

Inductive PopulationPresence := PopulationPresent | PopulationNotFound.

Record EvidenceSummary := mkEvidenceSummary {
  ev_ObservationID : string; ev_Source : string; ev_EvidenceState : string; ev_AttributionState : string }.

Record EnvironmentEntry := mkEntry {
  en_Subject : EnvironmentSubject; en_PopulationPresence : PopulationPresence; en_PopulationRuns : Z;
  en_PopulationCapabilities : list string; en_ObservationRefs : list string; en_ObservationEvidence : list EvidenceSummary;
  en_Derivation : DerivationState; en_Governance : GovernanceState; en_Application : ApplicationState;
  en_Structural : StructuralKnowledge; en_Behavioral : BehavioralVerification; en_Attention : list AttentionReason;
  en_MultipleWorkloadUIDs : bool }.

Record EnvironmentProjection := mkEnvironmentProjection {
  Entries : list EnvironmentEntry; TotalCount : Z; Truncated : bool; UnattributedFailedObservationCount : Z }.

Record EnvironmentInputs := mkEnvironmentInputs {
  ei_Populations : list Population; ei_Observations : list Observation; ei_Proposals : list ProposalInput;
  ei_ApplyAttempts : list ApplyAttemptInput; ei_RollbackAttempts : list RollbackAttemptInput; ei_Limit : Z }.

Definition environmentKey : Type := string * string * string * string * string.

Record environmentAccumulator := mkAccumulator {
  ac_subject : EnvironmentSubject; ac_population : option Population; ac_observations : gmap string Observation }.

Definition key_of (s : EnvironmentSubject) : environmentKey :=
  (pi_Scope s, pi_Target s, pi_Container s, pi_ImageIdentity s, pi_BinaryPath s).

(** The group of a subject, created empty if there is none. *)
Definition ensureEnvironmentGroup (groups : gmap environmentKey environmentAccumulator) (subject : EnvironmentSubject)
  : environmentAccumulator :=
  default (mkAccumulator subject None ∅) (groups !! key_of subject).

(** The loop over the populations: the first one of a subject is kept. *)
Fixpoint group_populations (groups : gmap environmentKey environmentAccumulator) (l : list Population)
  : result (gmap environmentKey environmentAccumulator) :=
  match l with
  | [] => Ok groups
  | p :: l =>
      population ← or_error (NormalizeLegacyScope p) (mkError ErrInvalidPopulationIdentity "population has invalid identity");
      subject ← or_error (Population_Identity population) (mkError ErrInvalidPopulationIdentity "population identity");
      let group := ensureEnvironmentGroup groups subject in
      let kept := match ac_population group with None => population | Some q => q end in
      group_populations (<[key_of subject := mkAccumulator (ac_subject group) (Some kept) (ac_observations group)]> groups) l
  end.

(** The loop over the observations: the last one of an ID is kept; failed
    observations without a subject are counted. *)
Definition group_observation (acc : gmap environmentKey environmentAccumulator * Z) (o : Observation)
  : gmap environmentKey environmentAccumulator * Z :=
  match ObservationEnvironmentSubject o with
  | None => if bool_decide (ex_State (o_execution o) = ExecutionFailed) then (fst acc, (snd acc + 1)%Z) else acc
  | Some subject =>
      let group := ensureEnvironmentGroup (fst acc) subject in
      (<[key_of subject := mkAccumulator (ac_subject group) (ac_population group) (<[o_id o := o]> (ac_observations group))]> (fst acc),
       snd acc)
  end.

(** The loop that keeps the proposals compatible with the subject. *)
Fixpoint compatible_loop (subject : EnvironmentSubject) (l : list ProposalInput) : outcome (list ProposalInput) :=
  match l with
  | [] => Done (Ok [])
  | p :: l =>
      match Spec_CandidateV2 (cp_Spec (pi_Candidate p)) with
      | Panicked => Panicked
      | Done (Ok candidate) =>
          if SubjectMatchesCandidateV2 subject candidate
          then outcome_bind (compatible_loop subject l) (fun rest => Done (Ok (p :: rest)))
          else compatible_loop subject l
      | Done (Err _) => compatible_loop subject l
      end
  end.

Definition mapObservationValues (values : gmap string Observation) : list Observation := map snd (map_to_list values).

Definition evidence_less : EvidenceSummary → EvidenceSummary → bool :=
  less_lex (less_on ev_ObservationID string_ltb) (less_on ev_Source string_ltb).

Definition observation_evidence (entry : string * Observation) : list EvidenceSummary :=
  map (fun source => mkEvidenceSummary (fst entry) (es_Name (sr_Source source)) (sr_Evidence source)
         (Attribution (sr_Qualification source)))
    (ObservationDomain.sources (o_result (snd entry))).

Definition zero_population : Population := mkPopulation false "" None "" "" "" "" 0 [] [] [] [] [] [] [].

Definition attention_input (group : environmentAccumulator) (input : EnvironmentInputs) (compatible : list ProposalInput)
  : AttentionInput :=
  mkAttentionInput (ac_subject group) (default zero_population (ac_population group)) compatible
    (ei_ApplyAttempts input) (ei_RollbackAttempts input)
    (List.filter (fun o => bool_decide (ex_State (o_execution o) = ExecutionFailed)) (mapObservationValues (ac_observations group))).

Definition projectEnvironmentEntry (group : environmentAccumulator) (input : EnvironmentInputs) : outcome EnvironmentEntry :=
  outcome_bind (compatible_loop (ac_subject group) (ei_Proposals input)) (fun compatible =>
  let candidates := map pi_Candidate compatible in
  outcome_bind (Done (EvaluateAttention (attention_input group input compatible))) (fun attention =>
  outcome_bind (Done (ProjectVerification (ac_subject group) candidates (ei_ApplyAttempts input) (ei_RollbackAttempts input)))
  (fun verification =>
  Done (Ok (mkEntry (ac_subject group)
    (match ac_population group with Some _ => PopulationPresent | None => PopulationNotFound end)
    (match ac_population group with Some p => p_RunsRecorded p | None => 0%Z end)
    (match ac_population group with
     | Some p => uniqueStrings (sort_strings (List.filter (fun name => negb (bool_decide (name = ""))) (map cr_Name (p_CapabilityAccesses p))))
     | None => []
     end)
    (sort_strings (map fst (map_to_list (ac_observations group))))
    (sort_by evidence_less (flat_map observation_evidence (map_to_list (ac_observations group))))
    (vp_Derivation verification) (vp_Governance verification) (vp_Application verification)
    (vp_Structural verification) (vp_Behavioral verification) (Reasons attention)
    (ProposalSubjectMatchedMultipleWorkloadUIDs (ac_subject group) candidates
       (mapObservationValues (ac_observations group)))))))).

Definition compareEnvironmentSubjects (left right : EnvironmentSubject) : Z :=
  comparePairs [(pi_Scope left, pi_Scope right); (pi_Target left, pi_Target right);
    (pi_Container left, pi_Container right); (pi_ImageIdentity left, pi_ImageIdentity right);
    (pi_BinaryPath left, pi_BinaryPath right)].
Definition subject_less (left right : EnvironmentSubject) : bool := (compareEnvironmentSubjects left right <? 0)%Z.

Fixpoint project_entries (input : EnvironmentInputs) (l : list environmentAccumulator) : outcome (list EnvironmentEntry) :=
  match l with
  | [] => Done (Ok [])
  | group :: l =>
      outcome_bind (projectEnvironmentEntry group input) (fun entry =>
      outcome_bind (project_entries input l) (fun rest => Done (Ok (entry :: rest))))
  end.

Definition ProjectEnvironment (input : EnvironmentInputs) : outcome EnvironmentProjection :=
  outcome_bind (Done (group_populations ∅ (ei_Populations input))) (fun groups =>
  let '(groups, failedUnbound) := foldl group_observation (groups, 0%Z) (ei_Observations input) in
  outcome_bind (project_entries input (map snd (map_to_list groups))) (fun entries =>
  let entries := sort_by (less_on en_Subject subject_less) entries in
  let total := Z.of_nat (length entries) in
  if (0 <? ei_Limit input)%Z && (ei_Limit input <? total)%Z
  then Done (Ok (mkEnvironmentProjection (take (Z.to_nat (ei_Limit input)) entries) total true failedUnbound))
  else Done (Ok (mkEnvironmentProjection entries total false failedUnbound)))).

(** ** Panics *)

(** A valid candidate-v1 proposal. *)
Definition valid_v1 (spec : Spec) : Prop :=
  ValidateProposalSpec spec = Ok () ∧ normalizedCandidateVersion (sp_CandidateVersion spec) = Ok CandidateVersionV1.

Lemma version_cases spec : ValidateProposalSpec spec = Ok () →
  normalizedCandidateVersion (sp_CandidateVersion spec) = Ok CandidateVersionV1 ∨
  normalizedCandidateVersion (sp_CandidateVersion spec) = Ok CandidateVersionV2.
Proof.
  intros (v & Hv & _)%result_bind_Ok. rewrite Hv.
  destruct (normalizedCandidateVersion_Ok _ _ Hv) as [-> | ->]; [by left|by right].
Qed.

Lemma Spec_CandidateV2_cases spec :
  (valid_v1 spec ∧ Spec_CandidateV2 spec = Panicked) ∨
  (¬ valid_v1 spec ∧ Spec_CandidateV2 spec = Done (candidateV2 spec) ∧
   is_v2 spec && is_ok (candidateV2 spec) = is_ok (candidateV2 spec)).
Proof.
  unfold valid_v1, Spec_CandidateV2. destruct (ValidateProposalSpec spec) as [[]|e] eqn:Hv.
  2:{ right. split; [by intros [? _]|]. unfold candidateV2. rewrite Hv. cbn. by rewrite andb_false_r. }
  destruct (version_cases spec Hv) as [H|H].
  - left. split; [done|]. pose proof Hv as H'. unfold ValidateProposalSpec in H'. rewrite H in H'.
    cbn [mbind result_bind] in H'. rewrite bool_decide_eq_true_2 in H' by done. apply result_guard_Ok in H' as [H' _].
    bool_simpl. by destruct (sp_Subject spec).
  - right. split; [rewrite H; by intros [_ [=]]|]. destruct (candidateV2_v2 spec H Hv) as [Hc _].
    unfold candidateV2 in *. rewrite Hv in *. cbn [mbind result_bind] in *.
    rewrite (proj2 (is_v2_true spec) H). by destruct (sp_Subject spec), (sp_CapabilityArtifact spec).
Qed.

Definition input_compatible (subject : EnvironmentSubject) (p : ProposalInput) : bool :=
  compatible_v2 subject (cp_Spec (pi_Candidate p)).
Definition any_v1 (l : list ProposalInput) : Prop := ∃ p, p ∈ l ∧ valid_v1 (cp_Spec (pi_Candidate p)).

(** The filter of the projector calls [CandidateV2] without the version check
    the other callers make first; without a valid candidate-v1 proposal it
    keeps the same proposals, with one it panics. *)
Lemma compatible_loop_spec subject l :
  (any_v1 l ∧ compatible_loop subject l = Panicked) ∨
  (¬ any_v1 l ∧ compatible_loop subject l = Done (Ok (List.filter (input_compatible subject) l))).
Proof.
  unfold any_v1. induction l as [|p l IH]; cbn [compatible_loop List.filter].
  { right. split; [|done]. intros (p & Hp & _). by apply elem_of_nil in Hp. }
  setoid_rewrite elem_of_cons.
  destruct (Spec_CandidateV2_cases (cp_Spec (pi_Candidate p))) as [[H1 ->]|(H1 & -> & H2)]; [left; eauto|].
  unfold input_compatible at 1. unfold compatible_v2.
  destruct (candidateV2 (cp_Spec (pi_Candidate p))) as [c|]; cbn [is_ok] in H2; rewrite ?andb_true_r, ?andb_false_r in *;
    [rewrite H2; cbn [andb]; destruct (SubjectMatchesCandidateV2 subject c)|];
    destruct IH as [[H3 ->]|[H3 ->]]; cbn [outcome_bind]; naive_solver.
Qed.

Lemma authority_compatible subject c : subject_valid subject = true → current_authority subject c →
  compatible_v2 subject (cp_Spec c) = true.
Proof. intros Hs H. by destruct (compatible_authority subject c Hs H). Qed.

Lemma filter_authority_compatible subject l : subject_valid subject = true →
  filter (current_authority subject) (map pi_Candidate (List.filter (input_compatible subject) l)) =
  filter (current_authority subject) (map pi_Candidate l).
Proof.
  intros Hs. induction l as [|p l IH]; [done|]. cbn [List.filter map].
  destruct (input_compatible subject p) eqn:E; cbn [map]; rewrite !filter_cons, IH; [done|].
  rewrite (decide_False (P := current_authority subject (pi_Candidate p))); [done|]. intros H%authority_compatible; [|done].
  unfold input_compatible in E. congruence.
Qed.

Lemma axes_compatible subject l acc :
  foldl (axes_step subject) acc (map pi_Candidate (List.filter (input_compatible subject) l)) =
  foldl (axes_step subject) acc (map pi_Candidate l).
Proof.
  revert acc. induction l as [|p l IH]; intros acc; [done|]. cbn [List.filter map foldl].
  destruct (input_compatible subject p) eqn:E; cbn [map foldl]; [by rewrite IH|]. rewrite IH. f_equal.
  unfold axes_step. unfold input_compatible in E. by rewrite E.
Qed.

(** Projecting only the compatible proposals is projecting all of them. *)
Lemma ProjectVerification_compatible subject l applies rollbacks :
  ProjectVerification subject (map pi_Candidate (List.filter (input_compatible subject) l)) applies rollbacks =
  ProjectVerification subject (map pi_Candidate l) applies rollbacks.
Proof.
  unfold ProjectVerification. destruct (PopulationIdentity_Validate subject) as [[]|] eqn:Hv; [|done].
  apply subject_valid_true in Hv. cbn [or_error mbind result_bind]. unfold deriveProposalAxes. rewrite axes_compatible.
  destruct (foldl _ _ _) as [d g].
  destruct (SelectApprovedPolicy_unfold subject (map pi_Candidate (List.filter (input_compatible subject) l)) Hv) as [E1 _],
    (SelectApprovedPolicy_unfold subject (map pi_Candidate l) Hv) as [E2 _].
  rewrite filter_authority_compatible in E1 by done. rewrite <- E2 in E1. by injection E1 as -> -> _.
Qed.

Lemma ProjectVerification_total subject candidates applies rollbacks : subject_valid subject = true →
  ∃ v, ProjectVerification subject candidates applies rollbacks = Ok v.
Proof.
  intros Hs. unfold ProjectVerification. apply subject_valid_true in Hs as ->. cbn [or_error mbind result_bind].
  destruct (deriveProposalAxes subject candidates) as [d g]. repeat case_match; eauto.
Qed.

(** The projection of one group. *)
Definition group_entry (group : environmentAccumulator) (input : EnvironmentInputs) (v : VerificationProjection)
  (reasons : list AttentionReason) : EnvironmentEntry :=
  mkEntry (ac_subject group)
    (match ac_population group with Some _ => PopulationPresent | None => PopulationNotFound end)
    (match ac_population group with Some p => p_RunsRecorded p | None => 0%Z end)
    (match ac_population group with
     | Some p => uniqueStrings (sort_strings (List.filter (fun name => negb (bool_decide (name = ""))) (map cr_Name (p_CapabilityAccesses p))))
     | None => []
     end)
    (sort_strings (map fst (map_to_list (ac_observations group))))
    (sort_by evidence_less (flat_map observation_evidence (map_to_list (ac_observations group))))
    (vp_Derivation v) (vp_Governance v) (vp_Application v) (vp_Structural v) (vp_Behavioral v) reasons
    (ProposalSubjectMatchedMultipleWorkloadUIDs (ac_subject group)
       (map pi_Candidate (List.filter (input_compatible (ac_subject group)) (ei_Proposals input)))
       (mapObservationValues (ac_observations group))).

Lemma projectEnvironmentEntry_spec group input : subject_valid (ac_subject group) = true →
  (any_v1 (ei_Proposals input) ∧ projectEnvironmentEntry group input = Panicked) ∨
  (¬ any_v1 (ei_Proposals input) ∧ ∃ v res,
     ProjectVerification (ac_subject group) (map pi_Candidate (ei_Proposals input)) (ei_ApplyAttempts input)
       (ei_RollbackAttempts input) = Ok v ∧
     EvaluateAttention (attention_input group input (List.filter (input_compatible (ac_subject group)) (ei_Proposals input))) = Ok res ∧
     projectEnvironmentEntry group input = Done (Ok (group_entry group input v (Reasons res)))).
Proof.
  intros Hs. unfold projectEnvironmentEntry.
  destruct (compatible_loop_spec (ac_subject group) (ei_Proposals input)) as [[H ->]|[H ->]]; [by left|right].
  split; [done|]. destruct (ProjectVerification_total (ac_subject group) (map pi_Candidate (ei_Proposals input))
    (ei_ApplyAttempts input) (ei_RollbackAttempts input) Hs) as [v Hv].
  pose proof Hv as Hv'. rewrite <- ProjectVerification_compatible in Hv'.
  pose proof (EvaluateAttention_run (attention_input group input (List.filter (input_compatible (ac_subject group)) (ei_Proposals input))) v Hs Hv') as Ha.
  exists v. eexists. split; [done|]. split; [exact Ha|]. cbn [outcome_bind]. rewrite Ha. cbn [outcome_bind].
  rewrite Hv'. done.
Qed.

(** ** Grouping *)
Definition population_subject (p : Population) : option EnvironmentSubject :=
  match NormalizeLegacyScope p with
  | Ok q => match Population_Identity q with Ok s => Some s | Err _ => None end
  | Err _ => None
  end.

Definition subject_row (ps : list Population) (os : list Observation) (s : EnvironmentSubject) : Prop :=
  (∃ p, p ∈ ps ∧ population_subject p = Some s) ∨ (∃ o, o ∈ os ∧ ObservationEnvironmentSubject o = Some s).

#[export] Instance key_of_inj : Inj (=) (=) key_of.
Proof. intros [] []. by intros [= -> -> -> -> ->]. Qed.

Lemma population_subject_valid p s : population_subject p = Some s → subject_valid s = true.
Proof.
  unfold population_subject. destruct (NormalizeLegacyScope p) as [q|]; [|done].
  destruct (Population_Identity q) as [t|] eqn:E; [|done]. intros [= <-]. apply subject_valid_true.
  unfold Population_Identity in E. apply result_bind_Ok in E as ([] & E & E'). by apply Ok_inj in E' as <-.
Qed.

Lemma observation_subject_valid o s : ObservationEnvironmentSubject o = Some s → subject_valid s = true.
Proof.
  intros H. apply observationEnvironmentSubject_sound in H as (slot & _ & _ & _ & H & _). by apply subject_valid_true.
Qed.

Lemma subject_row_valid ps os s : subject_row ps os s → subject_valid s = true.
Proof. intros [(p & _ & H)|(o & _ & H)]; [by apply population_subject_valid in H|by apply observation_subject_valid in H]. Qed.

(** What one group holds after the populations [ps] and the observations [os]. *)
Record group_inv (ps : list Population) (os : list Observation) (s : EnvironmentSubject) (g : environmentAccumulator) : Prop := {
  gi_subject : ac_subject g = s;
  gi_row : subject_row ps os s;
  gi_present : is_Some (ac_population g) ↔ ∃ p, p ∈ ps ∧ population_subject p = Some s;
  gi_population : ∀ q, ac_population g = Some q → ∃ p, p ∈ ps ∧ NormalizeLegacyScope p = Ok q ∧ population_subject p = Some s;
  gi_observation : ∀ id o, ac_observations g !! id = Some o → o ∈ os ∧ o_id o = id ∧ ObservationEnvironmentSubject o = Some s;
  gi_complete : ∀ o, o ∈ os → ObservationEnvironmentSubject o = Some s → is_Some (ac_observations g !! o_id o) }.

Definition groups_inv (ps : list Population) (os : list Observation) (m : gmap environmentKey environmentAccumulator) : Prop :=
  (∀ k g, m !! k = Some g → ∃ s, k = key_of s ∧ group_inv ps os s g) ∧ ∀ s, subject_row ps os s → is_Some (m !! key_of s).

Lemma groups_inv_lookup ps os m s g : groups_inv ps os m → m !! key_of s = Some g → group_inv ps os s g.
Proof. intros [H _] Hl. destruct (H _ _ Hl) as (t & E & Hg). by apply (inj key_of) in E as <-. Qed.

Lemma group_inv_grow ps os ps' os' s g : group_inv ps os s g →
  (∀ p, p ∈ ps' → population_subject p ≠ Some s) → (∀ o, o ∈ os' → ObservationEnvironmentSubject o ≠ Some s) →
  group_inv (ps ++ ps') (os ++ os') s g.
Proof.
  intros [H1 H2 H3 H4 H5 H6] Hp Ho. split; [done| | | | |].
  - destruct H2 as [(p & Hin & E)|(o & Hin & E)]; [left; exists p|right; exists o]; (split; [|done]); apply elem_of_app; by left.
  - rewrite H3. setoid_rewrite elem_of_app. split; [naive_solver|]. intros (p & [Hin|Hin] & E); [eauto|by destruct (Hp p Hin)].
  - intros q Hq. destruct (H4 q Hq) as (p & Hin & ?). exists p. rewrite elem_of_app. eauto.
  - intros id o Hl. destruct (H5 id o Hl) as (Hin & ?). rewrite elem_of_app. eauto.
  - intros o [Hin|Hin]%elem_of_app E; [by apply H6|by destruct (Ho o Hin)].
Qed.

(** The group of a subject before its next element is added. *)
Lemma ensure_spec ps os m s : groups_inv ps os m →
  let g := ensureEnvironmentGroup m s in
  ac_subject g = s ∧ (group_inv ps os s g ∨ ¬ subject_row ps os s ∧ g = mkAccumulator s None ∅).
Proof.
  intros Hinv. cbn zeta. unfold ensureEnvironmentGroup. destruct (m !! key_of s) as [g|] eqn:E; cbn [default from_option id].
  - pose proof (groups_inv_lookup _ _ _ _ _ Hinv E) as Hg. split; [by apply (gi_subject _ _ _ _ Hg)|by left].
  - split; [done|]. right. split; [|done]. intros Hr. destruct Hinv as [_ H]. destruct (H s Hr) as [g Hg]. congruence.
Qed.

Lemma groups_inv_insert ps os ps' os' m s g : groups_inv ps os m → group_inv (ps ++ ps') (os ++ os') s g →
  (∀ p, p ∈ ps' → population_subject p = Some s) → (∀ o, o ∈ os' → ObservationEnvironmentSubject o = Some s) →
  groups_inv (ps ++ ps') (os ++ os') (<[key_of s := g]> m).
Proof.
  intros Hinv Hg Hp Ho. split.
  - intros k h [[<- <-]|[Hne Hl]]%lookup_insert_Some; [by exists s|]. destruct Hinv as [Hinv _].
    destruct (Hinv k h Hl) as (t & -> & Ht). exists t. split; [done|]. apply group_inv_grow; [done|..].
    + intros p Hin E. rewrite (Hp p Hin) in E. by injection E as ->.
    + intros o Hin E. rewrite (Ho o Hin) in E. by injection E as ->.
  - intros t Hr. destruct (decide (t = s)) as [->|Hne]; [by rewrite lookup_insert_eq|].
    rewrite lookup_insert_ne by (intros E; by apply (inj key_of) in E). destruct Hinv as [_ Hinv]. apply Hinv.
    destruct Hr as [(p & [Hin|Hin]%elem_of_app & E)|(o & [Hin|Hin]%elem_of_app & E)]; [left; eauto| |right; eauto|].
    + rewrite (Hp p Hin) in E. congruence.
    + rewrite (Ho o Hin) in E. congruence.
Qed.

Lemma group_populations_inv l ps m m' : groups_inv ps [] m → group_populations m l = Ok m' →
  groups_inv (ps ++ l) [] m' ∧ Forall (fun p => is_Some (population_subject p)) l.
Proof.
  revert ps m. induction l as [|p l IH]; intros ps m Hinv; cbn [group_populations].
  { intros H%Ok_inj. subst. rewrite app_nil_r. done. }
  intros (q & Hq%or_error_Ok & H)%result_bind_Ok. apply result_bind_Ok in H as (s & Hs%or_error_Ok & H).
  assert (population_subject p = Some s) as Ep by by (unfold population_subject; rewrite Hq, Hs).
  apply (IH (ps ++ [p])) in H as [H1 H2].
  { rewrite <- app_assoc in H1. split; [done|]. constructor; [by rewrite Ep|done]. }
  destruct (ensure_spec _ _ _ s Hinv) as [Esub Hens]. apply (groups_inv_insert ps [] [p] []); [done| |by intros ? ->%list_elem_of_singleton|by intros ? ?%elem_of_nil].
  assert (∃ p0, p0 ∈ ps ++ [p] ∧ population_subject p0 = Some s) as Hex by (exists p; split; [set_solver|done]).
  split; cbn [ac_subject ac_population ac_observations]; [done|by left|split; [done|eauto]| | |].
  - intros q' [= <-]. destruct Hens as [Hg|[_ Eg]].
    + destruct (ac_population _) as [q0|] eqn:Eq0; [|exists p; split; [set_solver|done]].
      destruct (gi_population _ _ _ _ Hg q0 Eq0) as (p0 & ? & ?). exists p0. split; [set_solver|done].
    + rewrite Eg. cbn. exists p. split; [set_solver|done].
  - intros id o Hl. destruct Hens as [Hg|[_ Eg]]; [by apply (gi_observation _ _ _ _ Hg)|rewrite Eg in Hl; cbn in Hl; by apply lookup_empty_Some in Hl].
  - by intros o ?%elem_of_nil.
Qed.

Lemma group_observation_inv ps os m n o : groups_inv ps os m →
  groups_inv ps (os ++ [o]) (fst (group_observation (m, n) o)).
Proof.
  intros Hinv. unfold group_observation. destruct (ObservationEnvironmentSubject o) as [s|] eqn:Eo; cbn [fst snd].
  2:{ assert (groups_inv ps (os ++ [o]) m) as Hm; [|by case_match].
      destruct Hinv as [H1 H2]. split.
      - intros k g Hl. destruct (H1 k g Hl) as (s & -> & Hg). exists s. split; [done|].
        rewrite <- (app_nil_r ps). apply group_inv_grow; [done|by intros ? ?%elem_of_nil|].
        intros o' ->%list_elem_of_singleton. by rewrite Eo.
      - intros s [Hp|(o' & [Ho|Ho]%elem_of_app & E)]; [by apply H2; left|by apply H2; right; eauto|].
        apply list_elem_of_singleton in Ho as ->. congruence. }
  destruct (ensure_spec _ _ _ s Hinv) as [Esub Hens]. rewrite <- (app_nil_r ps).
  apply (groups_inv_insert ps os [] [o]); [done| |by intros ? ?%elem_of_nil|by intros ? ->%list_elem_of_singleton].
  rewrite app_nil_r. split; cbn [ac_subject ac_population ac_observations]; [done|right; exists o; split; [set_solver|done]| | | |].
  - destruct Hens as [Hg|[Hn Eg]]; [by apply (gi_present _ _ _ _ Hg)|]. rewrite Eg. cbn. split; [by intros [? [=]]|].
    intros (p & Hp & E). destruct Hn. left. eauto.
  - intros q Hq. destruct Hens as [Hg|[Hn Eg]]; [by apply (gi_population _ _ _ _ Hg)|]. by rewrite Eg in Hq.
  - intros id o' [[<- <-]|[Hne Hl]]%lookup_insert_Some; [split; [set_solver|done]|].
    destruct Hens as [Hg|[Hn Eg]]; [|rewrite Eg in Hl; cbn in Hl; by apply lookup_empty_Some in Hl].
    destruct (gi_observation _ _ _ _ Hg id o' Hl) as (? & ? & ?). split; [set_solver|done].
  - intros o' [Ho|Ho]%elem_of_app E'; [|apply list_elem_of_singleton in Ho as ->; by rewrite lookup_insert_eq].
    destruct (decide (o_id o' = o_id o)) as [->|Hne]; [by rewrite lookup_insert_eq|]. rewrite lookup_insert_ne by done.
    destruct Hens as [Hg|[Hn Eg]]; [by apply (gi_complete _ _ _ _ Hg)|]. destruct Hn. right. eauto.
Qed.

Definition failed_unbound (o : Observation) : bool :=
  match ObservationEnvironmentSubject o with
  | None => bool_decide (ex_State (o_execution o) = ExecutionFailed)
  | Some _ => false
  end.

Lemma group_observations_inv l ps os m n : groups_inv ps os m →
  let st := foldl group_observation (m, n) l in
  groups_inv ps (os ++ l) (fst st) ∧ snd st = (n + Z.of_nat (length (List.filter failed_unbound l)))%Z.
Proof.
  revert os m n. induction l as [|o l IH]; intros os m n Hinv; cbn [foldl List.filter].
  { rewrite app_nil_r. cbn. split; [done|lia]. }
  pose proof (group_observation_inv ps os m n o Hinv) as Hinv'.
  assert (snd (group_observation (m, n) o) = (n + if failed_unbound o then 1 else 0)%Z) as Hn.
  { unfold group_observation, failed_unbound. destruct (ObservationEnvironmentSubject o); cbn; [lia|].
    case_bool_decide; cbn; lia. }
  destruct (group_observation (m, n) o) as [m' n']. cbn [fst snd] in *.
  destruct (IH (os ++ [o]) m' n' Hinv') as [H1 H2]. rewrite <- app_assoc in H1. split; [done|].
  rewrite H2, Hn. destruct (failed_unbound o); cbn; lia.
Qed.

Lemma groups_inv_empty : groups_inv [] [] ∅.
Proof.
  split; [by intros k g H%lookup_empty_Some|]. intros s [(p & Hp & _)|(o & Ho & _)]; [by apply elem_of_nil in Hp|by apply elem_of_nil in Ho].
Qed.

(** The groups of an input whose populations all have an identity. *)
Definition all_identified (input : EnvironmentInputs) : Prop := Forall (fun p => is_Some (population_subject p)) (ei_Populations input).

Lemma group_populations_total l m : Forall (fun p => is_Some (population_subject p)) l → ∃ m', group_populations m l = Ok m'.
Proof.
  intros H. revert m. induction H as [|p l [s Hs] H IH]; intros m; cbn [group_populations]; [eauto|].
  unfold population_subject in Hs. destruct (NormalizeLegacyScope p) as [q|]; [|done]. cbn [or_error mbind result_bind].
  destruct (Population_Identity q); [|done]. cbn [or_error mbind result_bind]. apply IH.
Qed.

(** The rows before sorting: one group per subject, with its projection. *)
Lemma project_entries_spec input l : Forall (fun g => subject_valid (ac_subject g) = true) l →
  (any_v1 (ei_Proposals input) ∧ l ≠ [] ∧ project_entries input l = Panicked) ∨
  ((¬ any_v1 (ei_Proposals input) ∨ l = []) ∧ ∃ entries, project_entries input l = Done (Ok entries) ∧
     Forall2 (fun g e => ∃ v res,
       ProjectVerification (ac_subject g) (map pi_Candidate (ei_Proposals input)) (ei_ApplyAttempts input)
         (ei_RollbackAttempts input) = Ok v ∧
       EvaluateAttention (attention_input g input (List.filter (input_compatible (ac_subject g)) (ei_Proposals input))) = Ok res ∧
       e = group_entry g input v (Reasons res)) l entries).
Proof.
  induction 1 as [|g l Hg Hl IH]; cbn [project_entries]; [right; split; [by right|]; exists []; by split|].
  destruct (projectEnvironmentEntry_spec g input Hg) as [[H1 ->]|(H1 & v & res & H2 & H3 & ->)]; [by left|right].
  split; [by left|]. cbn [outcome_bind]. destruct IH as [(H & _)|(_ & entries & -> & Hf)]; [done|].
  eexists. split; [done|]. constructor; [eauto|done].
Qed.

(** The groups the projector builds. *)
Lemma ProjectEnvironment_groups input : all_identified input → ∃ m,
  groups_inv (ei_Populations input) (ei_Observations input) m ∧
  Forall (fun g => subject_valid (ac_subject g) = true) (map snd (map_to_list m)) ∧
  ProjectEnvironment input = outcome_bind (project_entries input (map snd (map_to_list m))) (fun entries =>
    let entries := sort_by (less_on en_Subject subject_less) entries in
    let total := Z.of_nat (length entries) in
    let unbound := Z.of_nat (length (List.filter failed_unbound (ei_Observations input))) in
    if (0 <? ei_Limit input)%Z && (ei_Limit input <? total)%Z
    then Done (Ok (mkEnvironmentProjection (take (Z.to_nat (ei_Limit input)) entries) total true unbound))
    else Done (Ok (mkEnvironmentProjection entries total false unbound))).
Proof.
  intros Hid. destruct (group_populations_total _ ∅ Hid) as [m0 H0].
  pose proof (group_populations_inv _ [] ∅ m0 groups_inv_empty H0) as [Hinv0 _]. cbn [app] in Hinv0.
  pose proof (group_observations_inv (ei_Observations input) _ _ _ 0%Z Hinv0) as [Hinv Hn]. cbn [app] in Hinv.
  exists (fst (foldl group_observation (m0, 0%Z) (ei_Observations input))). split; [done|]. split.
  - apply Forall_forall. intros g Hg. apply list_elem_of_fmap in Hg as ([k g'] & -> & Hg). apply elem_of_map_to_list in Hg.
    destruct Hinv as [Hinv _]. destruct (Hinv _ _ Hg) as (s & _ & Hgi). cbn [snd]. rewrite (gi_subject _ _ _ _ Hgi).
    exact (subject_row_valid _ _ _ (gi_row _ _ _ _ Hgi)).
  - unfold ProjectEnvironment. rewrite H0. cbn [outcome_bind].
    destruct (foldl group_observation (m0, 0%Z) (ei_Observations input)) as [m n]. cbn [fst snd] in *. by rewrite Hn, Z.add_0_l.
Qed.

Lemma unidentified_population input : ¬ all_identified input → ∃ e, ProjectEnvironment input = Done (Err e).
Proof.
  intros Hn. unfold ProjectEnvironment. destruct (group_populations ∅ (ei_Populations input)) as [m|e] eqn:E; [|by exists e].
  destruct Hn. by destruct (group_populations_inv _ [] ∅ m groups_inv_empty E).
Qed.

(** The projection panics exactly when a stored proposal is a valid
    candidate-v1 one and there is a row to project: a population or a bound
    observation.  It returns an error exactly when a population has no identity. *)
Theorem ProjectEnvironment_panics input :
  (ProjectEnvironment input = Panicked ↔
     all_identified input ∧ any_v1 (ei_Proposals input) ∧
     ∃ s, subject_row (ei_Populations input) (ei_Observations input) s) ∧
  ((∃ e, ProjectEnvironment input = Done (Err e)) ↔ ¬ all_identified input).
Proof.
  assert (all_identified input ∨ ¬ all_identified input) as [Hid|Hn].
  { unfold all_identified. destruct (decide (Forall (fun p => is_Some (population_subject p)) (ei_Populations input))); auto. }
  2:{ destruct (unidentified_population input Hn) as [e He]. rewrite He. split; [split; [done|by intros [? _]]|].
      split; [done|]. intros _. by exists e. }
  destruct (ProjectEnvironment_groups input Hid) as (m & Hinv & Hval & ->).
  assert (map snd (map_to_list m) ≠ [] ↔ ∃ s, subject_row (ei_Populations input) (ei_Observations input) s) as Hrows.
  { destruct Hinv as [H1 H2]. split.
    - intros Hne. destruct (map_to_list m) as [|[k g] l] eqn:El; [done|].
      assert (m !! k = Some g) as Hl by (apply elem_of_map_to_list; rewrite El; left).
      destruct (H1 k g Hl) as (s & _ & Hg). exists s. exact (gi_row _ _ _ _ Hg).
    - intros (s & Hs) E. destruct (H2 s Hs) as [g Hg]. apply elem_of_map_to_list in Hg.
      apply map_eq_nil in E. rewrite E in Hg. by apply elem_of_nil in Hg. }
  rewrite <- Hrows. destruct (project_entries_spec input _ Hval) as [(H1 & H2 & ->)|(H1 & entries & -> & _)]; cbn [outcome_bind].
  - split; [done|]. split; [by intros [? [=]]|done].
  - cbn zeta. split; [|split; [|done]].
    + split; [by case_match|]. intros (_ & Hv & Hne). destruct H1 as [H1|H1]; done.
    + intros [e He]. by case_match.
Qed.

(** ** Rows *)
#[export] Instance subject_less_total : TotalLess subject_less.
Proof.
  pose (key := fun s => [pi_Scope s; pi_Target s; pi_Container s; pi_ImageIdentity s; pi_BinaryPath s]). split.
  - exact (pairs_less_weak key 5 (fun _ => eq_refl)).
  - intros x y H1 H2. pose proof (pairs_less_key key 5 x y (fun _ => eq_refl) H1 H2) as E.
    destruct x, y. by injection E as -> -> -> -> ->.
Qed.

Lemma groups_subjects ps os m : groups_inv ps os m →
  NoDup (map ac_subject (map snd (map_to_list m))) ∧
  ∀ s, s ∈ map ac_subject (map snd (map_to_list m)) ↔ subject_row ps os s.
Proof.
  intros Hinv. pose proof Hinv as [H1 H2]. split.
  - apply (NoDup_fmap_1 key_of).
    assert (key_of <$> map ac_subject (map snd (map_to_list m)) = (map_to_list m).*1) as ->; [|apply NoDup_fst_map_to_list].
    rewrite <- !list_fmap_compose. apply list_fmap_ext.
    intros i [k g] Hl. cbn. apply list_elem_of_lookup_2, elem_of_map_to_list in Hl.
    destruct (H1 k g Hl) as (s & -> & Hg). by rewrite (gi_subject _ _ _ _ Hg).
  - intros s. rewrite map_map. split.
    + intros ([k g] & -> & Hl)%list_elem_of_fmap. apply elem_of_map_to_list in Hl.
      destruct (H1 k g Hl) as (s & -> & Hg). cbn [snd]. rewrite (gi_subject _ _ _ _ Hg). exact (gi_row _ _ _ _ Hg).
    + intros Hs. destruct (H2 s Hs) as [g Hg]. apply list_elem_of_fmap. exists (key_of s, g). cbn [snd].
      split; [symmetry; exact (gi_subject _ _ _ _ (groups_inv_lookup _ _ _ _ _ Hinv Hg))|by apply elem_of_map_to_list].
Qed.

(** A row says of its subject what the loaded objects say: the five axes of
    [ProjectVerification] over all the proposals, whether a population is
    stored, and exactly the observations bound to it. *)
Definition row_of (input : EnvironmentInputs) (e : EnvironmentEntry) : Prop :=
  let s := en_Subject e in
  (∃ v, ProjectVerification s (map pi_Candidate (ei_Proposals input)) (ei_ApplyAttempts input) (ei_RollbackAttempts input) = Ok v ∧
     en_Derivation e = vp_Derivation v ∧ en_Governance e = vp_Governance v ∧ en_Application e = vp_Application v ∧
     en_Structural e = vp_Structural v ∧ en_Behavioral e = vp_Behavioral v) ∧
  (en_PopulationPresence e = PopulationPresent ↔ ∃ p, p ∈ ei_Populations input ∧ population_subject p = Some s) ∧
  (∀ id, id ∈ en_ObservationRefs e ↔
     ∃ o, o ∈ ei_Observations input ∧ o_id o = id ∧ ObservationEnvironmentSubject o = Some s).

Lemma group_entry_row input g v reasons :
  group_inv (ei_Populations input) (ei_Observations input) (ac_subject g) g →
  ProjectVerification (ac_subject g) (map pi_Candidate (ei_Proposals input)) (ei_ApplyAttempts input)
    (ei_RollbackAttempts input) = Ok v →
  row_of input (group_entry g input v reasons).
Proof.
  intros Hg Hv. split; [|split]; cbn [group_entry en_Subject en_PopulationPresence en_ObservationRefs].
  - exists v. done.
  - rewrite <- (gi_present _ _ _ _ Hg). destruct (ac_population g); by split.
  - intros id. rewrite elem_of_sort_by. split.
    + intros ([i o] & -> & Ho)%list_elem_of_fmap. apply elem_of_map_to_list in Ho. exists o.
      by apply (gi_observation _ _ _ _ Hg).
    + intros (o & Ho & <- & Hb). destruct (gi_complete _ _ _ _ Hg o Ho Hb) as [o' Ho'].
      apply list_elem_of_fmap. exists (o_id o, o'). split; [done|by apply elem_of_map_to_list].
Qed.

(** C35: the projection has one row per subject a population or a bound observation
    names, in the order of the subjects and without duplicates; every row is
    right about its subject; the limit keeps a prefix and says so; failed
    observations without a subject are counted. *)
Theorem ProjectEnvironment_rows input proj :
  ProjectEnvironment input = Done (Ok proj) →
  ∃ rows, NoDup (map en_Subject rows) ∧ StronglySorted (not_above subject_less) (map en_Subject rows) ∧
    (∀ s, s ∈ map en_Subject rows ↔ subject_row (ei_Populations input) (ei_Observations input) s) ∧
    Forall (row_of input) rows ∧
    TotalCount proj = Z.of_nat (length rows) ∧
    (Truncated proj = true ↔ (0 < ei_Limit input < TotalCount proj)%Z) ∧
    Entries proj = (if Truncated proj then take (Z.to_nat (ei_Limit input)) rows else rows) ∧
    UnattributedFailedObservationCount proj = Z.of_nat (length (List.filter failed_unbound (ei_Observations input))).
Proof.
  intros H. assert (all_identified input) as Hid.
  { unfold all_identified. destruct (decide (Forall (fun p => is_Some (population_subject p)) (ei_Populations input))) as [|Hn]; [done|].
    destruct (unidentified_population input Hn) as [e He]. congruence. }
  destruct (ProjectEnvironment_groups input Hid) as (m & Hinv & Hval & E). rewrite E in H. clear E.
  destruct (project_entries_spec input _ Hval) as [(_ & _ & E)|(_ & entries & E & Hf)]; rewrite E in H; [done|].
  cbn [outcome_bind] in H. cbn zeta in H.
  destruct (groups_subjects _ _ _ Hinv) as [Hnd Hel].
  assert (map en_Subject entries = map ac_subject (map snd (map_to_list m))) as Esub.
  { clear - Hf. induction Hf as [|g e gs es (v & res & _ & _ & ->) Hf IH]; cbn; [done|by rewrite IH]. }
  assert (Forall (row_of input) entries) as Hrow.
  { apply Forall_forall. intros e He. apply list_elem_of_lookup in He as [i Hi].
    destruct (Forall2_lookup_r _ _ _ _ _ Hf Hi) as (g & Hg & v & res & Hv & _ & ->). apply group_entry_row; [|done].
    apply list_elem_of_lookup_2, list_elem_of_fmap in Hg as ([k g'] & -> & Hg). apply elem_of_map_to_list in Hg.
    destruct Hinv as [Hinv _]. destruct (Hinv k g' Hg) as (s & _ & Hgi). cbn [snd]. by rewrite (gi_subject _ _ _ _ Hgi). }
  set (rows := sort_by (less_on en_Subject subject_less) entries) in *.
  assert (rows ≡ₚ entries) as Hp by apply sort_by_perm.
  exists rows. split; [by rewrite Hp, Esub|]. split; [apply sorted_by_key, sort_by_sorted, _|].
  split; [intros s; by rewrite Hp, Esub|]. split; [by rewrite Hp|].
  destruct (Z.ltb_spec 0 (ei_Limit input)), (Z.ltb_spec (ei_Limit input) (Z.of_nat (length rows)));
    cbn [andb] in H; injection H as <-; cbn; split_and!; try done; split; intros; try done; lia.
Qed.

(** ** Examples *)
Definition ex_v1_proposal : ProposalInput :=
  mkProposalInput (mkCandidateProposal (mkProposalRef "default" "legacy" "u7")
    (mkSpec "" "app" "/bin/web" "" true None "policy" "" "" "" None None None None None)
    (mkStatus ApprovalDraft "" "" "" "" "" "" "" "" None [])) 0.
Definition ex_environment (proposals : list ProposalInput) : EnvironmentInputs :=
  mkEnvironmentInputs [ex_population] [ex_observation "o1" "w1" ExecutionCompleted; ex_observation "o2" "w1" ExecutionFailed]
    proposals [] [] 1.

(** One legacy proposal in the namespace makes the projection of an environment
    panic. *)
Example legacy_proposal_panics : ProjectEnvironment (ex_environment [ex_v1_proposal]) = Panicked.
Proof. vm_compute. reflexivity. Qed.

Lemma ProjectEnvironment_rows_witness :
  ∃ proj (rows : list EnvironmentEntry), ProjectEnvironment (ex_environment [mkProposalInput ex_draft 2]) = Done (Ok proj) ∧
    TotalCount proj = Z.of_nat (length rows) ∧ length rows = 2 ∧ length (Entries proj) = 1.
Proof.
  destruct (ProjectEnvironment (ex_environment [mkProposalInput ex_draft 2])) as [[proj|e]|] eqn:E; [|vm_compute in E; discriminate..].
  destruct (ProjectEnvironment_rows (ex_environment [mkProposalInput ex_draft 2]) proj E) as (rows & _ & _ & _ & _ & H1 & _).
  exists proj, rows. split; [reflexivity|]. split; [exact H1|].
  vm_compute in E. injection E as <-. split; [|reflexivity]. cbn in H1. lia.
Defined.
