(* ===== verification/ReconciliationHistory.v ===== *)
(** * internal/reconciliation/history.go: the history projection

    Timestamped events and untimestamped facts about the loaded objects, sorted
    and bounded.  The projection under construction is threaded through the
    loops.  The result groups: where the events come from, the order and bound
    of the result, and which attempts it leaves out. *)
From S2P Require Import Prelude GoStd Identity ObservationDomain Digest Json Target Timestamp History Proposal Attempt RollbackAttempt.
From S2P Require Import Reconciliation ReconciliationAttention.
Import History.

Inductive HistoryEventKind :=
| HistoryObservationCreated | HistoryObservationStarted | HistoryObservationCompleted | HistoryObservationFailed
| HistoryContributionPresent | HistoryProposalGenerated | HistoryProposalGovernance | HistoryProposalApprovalSnapshot
| HistoryProposalApprovalStale | HistoryApplyStarted | HistoryApplyCompleted | HistoryRollbackStarted
| HistoryRollbackCompleted | HistoryMutationRecorded | HistoryFact.

Definition kind_code (k : HistoryEventKind) : string :=
  match k with
  | HistoryObservationCreated => "OBSERVATION_CREATED" | HistoryObservationStarted => "OBSERVATION_STARTED"
  | HistoryObservationCompleted => "OBSERVATION_COMPLETED" | HistoryObservationFailed => "OBSERVATION_FAILED"
  | HistoryContributionPresent => "CONTRIBUTION_PRESENT" | HistoryProposalGenerated => "PROPOSAL_GENERATED"
  | HistoryProposalGovernance => "PROPOSAL_CURRENT_GOVERNANCE_STATE"
  | HistoryProposalApprovalSnapshot => "PROPOSAL_LAST_APPROVAL_SNAPSHOT"
  | HistoryProposalApprovalStale => "PROPOSAL_CURRENT_APPROVAL_STALE"
  | HistoryApplyStarted => "APPLY_ATTEMPT_STARTED" | HistoryApplyCompleted => "APPLY_ATTEMPT_COMPLETED"
  | HistoryRollbackStarted => "ROLLBACK_ATTEMPT_STARTED" | HistoryRollbackCompleted => "ROLLBACK_ATTEMPT_COMPLETED"
  | HistoryMutationRecorded => "MUTATION_RECORDED" | HistoryFact => "HISTORY_FACT"
  end.

Inductive HistoryTemporalClass := HistoryTimestamped | HistoryUntimestamped.
Inductive HistoryClaimTier :=
| HistoryEmpiricallyObserved | HistoryStructurallyDerived | HistoryGovernanceRecorded | HistoryApplicationRecorded
| HistoryBookkeeping.

Definition HistoryLimitApprovalIncomplete : string := "APPROVAL_HISTORY_INCOMPLETE_BY_SCHEMA".
Definition HistoryLimitContributionTime : string := "CONTRIBUTION_TIME_NOT_RECORDED".
Definition HistoryLimitDanglingReference : string := "DANGLING_REFERENCE_PRESENT".
Definition HistoryLimitNonTransactional : string := "MULTI_OBJECT_READ_NOT_TRANSACTIONAL".
Definition HistoryLimitTruncated : string := "TRUNCATED".

Record HistorySourceRef := mkSourceRef { sr_Kind : string; sr_Namespace : string; sr_Name_ : string; sr_UID : string }.

Record HistoryEvent := mkEvent {
  he_Kind : HistoryEventKind; he_SourceRef : HistorySourceRef; he_RelatedRef : option HistorySourceRef;
  he_Timestamp : option time; he_TemporalClass : HistoryTemporalClass; he_ClaimTier : HistoryClaimTier;
  he_DetailCode : string }.

Record HistoryProjection := mkHistory {
  TimestampedEvents : list HistoryEvent; UntimestampedFacts : list HistoryEvent; Limitations : list string;
  hp_TotalCount : Z; hp_Truncated : bool }.

Record HistoryObservationInput := mkHistoryObservation {
  ho_Observation : Observation; ho_Namespace : string; ho_Name : string; ho_UID : string; ho_CreatedAt : time }.
Record HistoryPopulationInput := mkHistoryPopulation {
  hq_Population : Population; hq_Namespace : string; hq_Name : string; hq_UID : string }.

Record HistoryInputs := mkHistoryInputs {
  hi_Populations : list HistoryPopulationInput; hi_Observations : list HistoryObservationInput;
  hi_Proposals : list ProposalInput; hi_ApplyAttempts : list ApplyAttemptInput;
  hi_RollbackAttempts : list RollbackAttemptInput; hi_Limit : Z }.

Definition populationRef (i : HistoryPopulationInput) : HistorySourceRef := mkSourceRef "TrainingHistory" (hq_Namespace i) (hq_Name i) (hq_UID i).
Definition observationRef (i : HistoryObservationInput) : HistorySourceRef := mkSourceRef "Observation" (ho_Namespace i) (ho_Name i) (ho_UID i).
Definition proposalRef (r : ProposalRef) : HistorySourceRef := mkSourceRef "SecurityProfileProposal" (ref_Namespace r) (ref_Name r) (ref_UID r).
Definition applyRef (a : ApplyAttemptInput) : HistorySourceRef := mkSourceRef "ApplyAttempt" (aa_Namespace a) (aa_Name a) (aa_UID a).
Definition rollbackRef (a : RollbackAttemptInput) : HistorySourceRef := mkSourceRef "RollbackAttempt" (ra_Namespace a) (ra_Name a) (ra_UID a).
(** [applyRef] of the source attempt a rollback names. *)
Definition sourceRef (r : RollbackAttemptInput) : HistorySourceRef :=
  mkSourceRef "ApplyAttempt" (RollbackAttempt.SourceNamespace (ra_Spec r)) (RollbackAttempt.SourceName (ra_Spec r))
    (RollbackAttempt.SourceUID (ra_Spec r)).

(** ** Appending *)
Definition event (kind : HistoryEventKind) (source : HistorySourceRef) (timestamp : time) (tier : HistoryClaimTier)
  (detail : string) : HistoryEvent := mkEvent kind source None (Some timestamp) HistoryTimestamped tier detail.
Definition fact (kind : HistoryEventKind) (source : HistorySourceRef) (tier : HistoryClaimTier) (detail : string)
  : HistoryEvent := mkEvent kind source None None HistoryUntimestamped tier detail.
Definition with_related (e : HistoryEvent) (r : HistorySourceRef) : HistoryEvent :=
  mkEvent (he_Kind e) (he_SourceRef e) (Some r) (he_Timestamp e) (he_TemporalClass e) (he_ClaimTier e) (he_DetailCode e).

Definition appendUnique (values : list string) (value : string) : list string :=
  if bool_decide (value ∈ values) then values else sort_strings (values ++ [value]).

Definition add_event (out : HistoryProjection) (e : HistoryEvent) : HistoryProjection :=
  mkHistory (TimestampedEvents out ++ [e]) (UntimestampedFacts out) (Limitations out) (hp_TotalCount out) (hp_Truncated out).
Definition add_fact (out : HistoryProjection) (f : HistoryEvent) : HistoryProjection :=
  mkHistory (TimestampedEvents out) (UntimestampedFacts out ++ [f]) (Limitations out) (hp_TotalCount out) (hp_Truncated out).
Definition add_limitation (out : HistoryProjection) (l : string) : HistoryProjection :=
  mkHistory (TimestampedEvents out) (UntimestampedFacts out) (appendUnique (Limitations out) l) (hp_TotalCount out) (hp_Truncated out).

Definition no_history : HistoryProjection := mkHistory [] [] [] 0 false.

(** ** The loops *)
Definition add_contribution (present : list string) (ref : HistorySourceRef) (out : HistoryProjection) (c : ObservationContribution)
  : HistoryProjection :=
  let out := add_fact out (fact HistoryContributionPresent ref HistoryBookkeeping "CONTRIBUTION_MEMBERSHIP") in
  let out := add_limitation out HistoryLimitContributionTime in
  if bool_decide (oc_ObservationID c ∈ present) then out
  else add_limitation
    (add_fact out (fact HistoryFact ref HistoryBookkeeping ("REFERENCED_OBSERVATION_NOT_FOUND:" +:+ oc_ObservationID c)))
    HistoryLimitDanglingReference.

Definition add_population (present : list string) (out : HistoryProjection) (p : HistoryPopulationInput) : HistoryProjection :=
  foldl (add_contribution present (populationRef p)) out (p_ObservationContributions (hq_Population p)).

Definition population_identity (p : Population) : PopulationIdentity :=
  mkPopulationIdentity (p_Scope p) (p_Target p) (p_Container p) (p_ImageIdentity p) (p_BinaryPath p).

Definition population_selected (subject : option EnvironmentSubject) (p : HistoryPopulationInput) : bool :=
  match subject with None => true | Some s => SubjectsEqual s (population_identity (hq_Population p)) end.

Definition observation_selected (subject : option EnvironmentSubject) (o : HistoryObservationInput) : bool :=
  match subject with
  | None => true
  | Some s => match ObservationEnvironmentSubject (ho_Observation o) with Some derived => SubjectsEqual s derived | None => false end
  end.

Definition add_observation (out : HistoryProjection) (o : HistoryObservationInput) : HistoryProjection :=
  let ref := observationRef o in
  let out := if negb (time_is_zero (ho_CreatedAt o))
    then add_event out (event HistoryObservationCreated ref (ho_CreatedAt o) HistoryStructurallyDerived "OBSERVATION_CREATED") else out in
  let exec := o_execution (ho_Observation o) in
  let out := if negb (time_is_zero (ex_StartedAt exec))
    then add_event out (event HistoryObservationStarted ref (ex_StartedAt exec) HistoryEmpiricallyObserved "EXECUTION_STARTED") else out in
  if negb (time_is_zero (ex_CompletedAt exec)) &&
     (bool_decide (ex_State exec = ExecutionCompleted) || bool_decide (ex_State exec = ExecutionFailed))
  then
    if bool_decide (ex_State exec = ExecutionFailed)
    then add_event out (event HistoryObservationFailed ref (ex_CompletedAt exec) HistoryEmpiricallyObserved "EXECUTION_FAILED")
    else add_event out (event HistoryObservationCompleted ref (ex_CompletedAt exec) HistoryEmpiricallyObserved "EXECUTION_COMPLETED")
  else out.

Definition proposalSelected (p : ProposalInput) (ref : option ProposalRef) : bool :=
  match ref with None => true | Some r => bool_decide (cp_Ref (pi_Candidate p) = r) end.

Definition add_missing_observation (present : list string) (ref : HistorySourceRef) (out : HistoryProjection) (id : string)
  : HistoryProjection :=
  if bool_decide (id ∈ present) then out
  else add_limitation (add_fact out (fact HistoryFact ref HistoryBookkeeping ("REFERENCED_OBSERVATION_NOT_FOUND:" +:+ id)))
         HistoryLimitDanglingReference.

Definition add_snapshot (ref : HistorySourceRef) (out : HistoryProjection) (s : ApprovalSnapshot) : HistoryProjection :=
  match parse_rfc3339 (as_ApprovedAt s) with
  | Ok t => add_event out (event HistoryProposalApprovalSnapshot ref t HistoryGovernanceRecorded "LAST_APPROVAL_SNAPSHOT")
  | Err _ => add_fact out (fact HistoryProposalApprovalSnapshot ref HistoryGovernanceRecorded "LAST_APPROVAL_SNAPSHOT")
  end.

Definition add_governance (present : list string) (ref : HistorySourceRef) (out : HistoryProjection) (p : CandidateProposal)
  : HistoryProjection :=
  let out := add_fact out (fact HistoryProposalGovernance ref HistoryGovernanceRecorded (Proposal.st_ApprovalState (cp_Status p))) in
  let out := add_limitation out HistoryLimitApprovalIncomplete in
  let out := match st_LastApprovalSnapshot (cp_Status p) with Some s => add_snapshot ref out s | None => out end in
  let out := if bool_decide (Proposal.st_ApprovalState (cp_Status p) = ApprovalApproved) &&
      negb (is_ok (ValidateApprovedCandidate (Some (cp_Spec p)) (Some (cp_Status p))))
    then add_fact out (fact HistoryProposalApprovalStale ref HistoryGovernanceRecorded "CURRENT_APPROVAL_STALE") else out in
  match sp_Provenance (cp_Spec p) with
  | Some provenance => foldl (add_missing_observation present ref) out (pp_ObservationIDs provenance)
  | None => out
  end.

Definition add_proposal (present : list string) (proposalSubject : option ProposalRef) (out : HistoryProjection) (p : ProposalInput)
  : HistoryProjection :=
  if negb (proposalSelected p proposalSubject) then out
  else
    let ref := proposalRef (cp_Ref (pi_Candidate p)) in
    let out := if negb (time_is_zero (pi_CreatedAt p))
      then add_event out (event HistoryProposalGenerated ref (pi_CreatedAt p) HistoryStructurallyDerived "PROPOSAL_GENERATED") else out in
    if is_v2 (cp_Spec (pi_Candidate p)) || negb (is_nil proposalSubject)
    then add_governance present ref out (pi_Candidate p) else out.

Definition parseAttemptTime (value : string) : option time :=
  if empty value then None else match parse_rfc3339 value with Ok t => Some t | Err _ => None end.

Definition add_mutations (ref : HistorySourceRef) (out : HistoryProjection) (l : list Attempt.MutationRecord) : HistoryProjection :=
  foldl (fun out m => add_fact out (fact HistoryMutationRecorded ref HistoryApplicationRecorded (Attempt.m_Result m))) out l.

Definition addApplyHistory (out : HistoryProjection) (a : ApplyAttemptInput) : HistoryProjection :=
  let ref := applyRef a in
  let out := match parseAttemptTime (Attempt.StartedAt (aa_Spec a)) with
    | Some t => add_event out (event HistoryApplyStarted ref t HistoryApplicationRecorded "ATTEMPT_STARTED")
    | None => add_fact out (fact HistoryApplyStarted ref HistoryApplicationRecorded "ATTEMPT_PRESENT") end in
  let out := match parseAttemptTime (Attempt.st_CompletedAt (aa_Status a)) with
    | Some t => add_event out (event HistoryApplyCompleted ref t HistoryApplicationRecorded (Attempt.st_State (aa_Status a)))
    | None => add_fact out (fact HistoryApplyCompleted ref HistoryApplicationRecorded (Attempt.st_State (aa_Status a))) end in
  add_mutations ref out (Attempt.st_Mutations (aa_Status a)).

Definition addRollbackHistory (out : HistoryProjection) (r : RollbackAttemptInput) : HistoryProjection :=
  let ref := rollbackRef r in
  let related := sourceRef r in
  let out := match parseAttemptTime (RollbackAttempt.StartedAt (ra_Spec r)) with
    | Some t => add_event out (with_related (event HistoryRollbackStarted ref t HistoryApplicationRecorded "ATTEMPT_STARTED") related)
    | None => add_fact out (fact HistoryRollbackStarted ref HistoryApplicationRecorded "ATTEMPT_PRESENT") end in
  let out := match parseAttemptTime (Attempt.st_CompletedAt (ra_Status r)) with
    | Some t => add_event out (with_related (event HistoryRollbackCompleted ref t HistoryApplicationRecorded (Attempt.st_State (ra_Status r))) related)
    | None => add_fact out (fact HistoryRollbackCompleted ref HistoryApplicationRecorded (Attempt.st_State (ra_Status r))) end in
  add_mutations ref out (Attempt.st_Mutations (ra_Status r)).

Definition anyProposalUID (ps : list ProposalInput) (uid : string) : bool :=
  existsb (fun p => bool_decide (ref_UID (cp_Ref (pi_Candidate p)) = uid)) ps.
Definition attemptForHistory (uid : string) (proposals : list ProposalInput) (ref : option ProposalRef) : bool :=
  match ref with
  | Some r => bool_decide (uid = ref_UID r)
  | None => (length proposals =? 0) || anyProposalUID proposals uid
  end.

Definition add_dangling (out : HistoryProjection) (ref : HistorySourceRef) (detail : string) : HistoryProjection :=
  add_limitation (add_fact out (fact HistoryFact ref HistoryBookkeeping detail)) HistoryLimitDanglingReference.

(** The keys of [proposalPresent]. *)
Definition proposal_keys (ps : list ProposalInput) : list string :=
  flat_map (fun p => let r := cp_Ref (pi_Candidate p) in [ref_UID r; ref_Namespace r +:+ "/" +:+ ref_Name r]) ps.

Definition add_apply (proposals : list ProposalInput) (proposalSubject : option ProposalRef) (out : HistoryProjection)
  (a : ApplyAttemptInput) : HistoryProjection :=
  let spec := aa_Spec a in
  if negb (attemptForHistory (Attempt.ProposalUID spec) proposals proposalSubject) then out
  else
    let out := addApplyHistory out a in
    if negb (bool_decide (Attempt.ProposalUID spec ∈ proposal_keys proposals)) &&
       negb (bool_decide (Attempt.ProposalNamespace spec +:+ "/" +:+ Attempt.ProposalName spec ∈ proposal_keys proposals))
    then add_dangling out (applyRef a) "REFERENCED_PROPOSAL_NOT_FOUND" else out.

Definition add_rollback (proposals : list ProposalInput) (applyPresent : list string) (proposalSubject : option ProposalRef)
  (out : HistoryProjection) (r : RollbackAttemptInput) : HistoryProjection :=
  let spec := ra_Spec r in
  if negb (attemptForHistory (RollbackAttempt.ProposalUID spec) proposals proposalSubject) then out
  else
    let out := addRollbackHistory out r in
    let out :=
      if negb (bool_decide (RollbackAttempt.ProposalUID spec ∈ proposal_keys proposals)) &&
         negb (bool_decide (RollbackAttempt.ProposalNamespace spec +:+ "/" +:+ RollbackAttempt.ProposalName spec ∈ proposal_keys proposals))
      then add_dangling out (rollbackRef r) "REFERENCED_PROPOSAL_NOT_FOUND" else out in
    if negb (empty (RollbackAttempt.SourceUID spec)) && negb (bool_decide (RollbackAttempt.SourceUID spec ∈ applyPresent))
    then add_dangling out (rollbackRef r) "SOURCE_ATTEMPT_NOT_FOUND" else out.

(** ** Order and bound *)
Definition historyEventKey (e : HistoryEvent) : string :=
  let r := he_SourceRef e in
  kind_code (he_Kind e) +:+ "|" +:+ sr_Kind r +:+ "|" +:+ sr_Namespace r +:+ "|" +:+ sr_Name_ r +:+ "|" +:+ sr_UID r
  +:+ "|" +:+ he_DetailCode e.

(** Timestamped events carry a timestamp; see [add_event]. *)
Definition event_time (e : HistoryEvent) : time := default 0%Z (he_Timestamp e).
Definition event_less : HistoryEvent → HistoryEvent → bool :=
  less_lex (later event_time) (less_on historyEventKey string_ltb).

Definition sortHistory (out : HistoryProjection) : HistoryProjection :=
  let events := sort_by event_less (TimestampedEvents out) in
  let facts := sort_by (less_on historyEventKey string_ltb) (UntimestampedFacts out) in
  mkHistory events facts (Limitations out) (Z.of_nat (length events) + Z.of_nat (length facts))%Z (hp_Truncated out).

Definition applyHistoryLimit (out : HistoryProjection) (limit : Z) : HistoryProjection :=
  if (limit <=? 0)%Z || (hp_TotalCount out <=? limit)%Z then out
  else
    let keep := Z.to_nat limit in
    let limitations := appendUnique (Limitations out) HistoryLimitTruncated in
    if keep <? length (TimestampedEvents out)
    then mkHistory (take keep (TimestampedEvents out)) [] limitations (hp_TotalCount out) true
    else mkHistory (TimestampedEvents out) (take (keep - length (TimestampedEvents out)) (UntimestampedFacts out))
           limitations (hp_TotalCount out) true.

(** Everything before sorting. *)
Definition collectHistory (subject : option EnvironmentSubject) (proposalSubject : option ProposalRef) (input : HistoryInputs)
  : HistoryProjection :=
  let observationPresent := map (fun o => o_id (ho_Observation o)) (hi_Observations input) in
  let applyPresent := map aa_UID (hi_ApplyAttempts input) in
  let out := foldl (add_population observationPresent) no_history (List.filter (population_selected subject) (hi_Populations input)) in
  let out := foldl add_observation out (List.filter (observation_selected subject) (hi_Observations input)) in
  let out := foldl (add_proposal observationPresent proposalSubject) out (hi_Proposals input) in
  let out := foldl (add_apply (hi_Proposals input) proposalSubject) out (hi_ApplyAttempts input) in
  let out := foldl (add_rollback (hi_Proposals input) applyPresent proposalSubject) out (hi_RollbackAttempts input) in
  if 0 <? length (TimestampedEvents out) + length (UntimestampedFacts out)
  then add_limitation out HistoryLimitNonTransactional else out.

Definition projectHistory (subject : option EnvironmentSubject) (proposalSubject : option ProposalRef) (input : HistoryInputs)
  : result HistoryProjection :=
  _ ← match subject with Some s => PopulationIdentity_Validate s | None => Ok () end;
  fail_if match proposalSubject with Some r => empty (ref_UID r) && empty (ref_Name r) | None => false end
    with mkError "" "proposal history requires a proposal reference";
  Ok (applyHistoryLimit (sortHistory (collectHistory subject proposalSubject input)) (hi_Limit input)).

Definition ProjectPopulationHistory (subject : EnvironmentSubject) (input : HistoryInputs) : result HistoryProjection :=
  projectHistory (Some subject) None input.
Definition ProjectProposalHistory (ref : ProposalRef) (input : HistoryInputs) : result HistoryProjection :=
  projectHistory None (Some ref) input.
Definition ProjectHistory (input : HistoryInputs) : result HistoryProjection := projectHistory None None input.

(** ** What the projection collects *)

(** An instant recorded in the loaded object a reference names. *)
Definition recorded_instant (input : HistoryInputs) (ref : HistorySourceRef) (t : time) : Prop :=
  (∃ o, o ∈ hi_Observations input ∧ ref = observationRef o ∧ t ≠ 0%Z ∧
     (t = ho_CreatedAt o ∨ t = ex_StartedAt (o_execution (ho_Observation o)) ∨ t = ex_CompletedAt (o_execution (ho_Observation o)))) ∨
  (∃ p, p ∈ hi_Proposals input ∧ ref = proposalRef (cp_Ref (pi_Candidate p)) ∧
     (t = pi_CreatedAt p ∧ t ≠ 0%Z ∨
      ∃ s, st_LastApprovalSnapshot (cp_Status (pi_Candidate p)) = Some s ∧ parse_rfc3339 (as_ApprovedAt s) = Ok t)) ∨
  (∃ a, a ∈ hi_ApplyAttempts input ∧ ref = applyRef a ∧
     (parse_rfc3339 (Attempt.StartedAt (aa_Spec a)) = Ok t ∨ parse_rfc3339 (Attempt.st_CompletedAt (aa_Status a)) = Ok t)) ∨
  (∃ r, r ∈ hi_RollbackAttempts input ∧ ref = rollbackRef r ∧
     (parse_rfc3339 (RollbackAttempt.StartedAt (ra_Spec r)) = Ok t ∨ parse_rfc3339 (Attempt.st_CompletedAt (ra_Status r)) = Ok t)).

Definition dated (input : HistoryInputs) (e : HistoryEvent) : Prop :=
  he_TemporalClass e = HistoryTimestamped ∧ ∃ t, he_Timestamp e = Some t ∧ recorded_instant input (he_SourceRef e) t.
Definition undated (e : HistoryEvent) : Prop := he_TemporalClass e = HistoryUntimestamped ∧ he_Timestamp e = None.

Record collected (input : HistoryInputs) (out : HistoryProjection) : Prop := {
  co_events : Forall (dated input) (TimestampedEvents out);
  co_facts : Forall undated (UntimestampedFacts out);
  co_nodup : NoDup (Limitations out);
  co_sorted : StronglySorted (not_above string_ltb) (Limitations out);
  co_open : HistoryLimitTruncated ∉ Limitations out ∧ hp_Truncated out = false;
  co_dangling : HistoryLimitDanglingReference ∈ Limitations out ↔
    ∃ f, f ∈ UntimestampedFacts out ∧ he_Kind f = HistoryFact }.

Lemma elem_of_appendUnique x values v : x ∈ appendUnique values v ↔ x = v ∨ x ∈ values.
Proof.
  unfold appendUnique. case_bool_decide; [split; [by right|by intros [->|?]]|].
  rewrite elem_of_sort_by, elem_of_app, list_elem_of_singleton. tauto.
Qed.

Lemma appendUnique_wf values v : NoDup values → StronglySorted (not_above string_ltb) values →
  NoDup (appendUnique values v) ∧ StronglySorted (not_above string_ltb) (appendUnique values v).
Proof.
  intros Hn Hs. unfold appendUnique. case_bool_decide as Hin; [done|]. split; [|apply sort_by_sorted, _].
  apply NoDup_sort_by, NoDup_app. split; [done|]. split; [|apply NoDup_singleton].
  intros x Hx ->%list_elem_of_singleton. done.
Qed.

(** Unfold the accumulator and nothing else. *)
Ltac history_cbn := cbn [TimestampedEvents UntimestampedFacts Limitations hp_Truncated hp_TotalCount add_event add_fact
  add_limitation add_dangling he_Kind fact].

Section collect.
Context (input : HistoryInputs).

Lemma collected_event out e : dated input e → collected input out → collected input (add_event out e).
Proof. intros He [H1 H2 H3 H4 H5 H6]. split; history_cbn; try done. apply Forall_app. split; [done|by constructor]. Qed.

Lemma collected_fact out f : undated f → he_Kind f ≠ HistoryFact → collected input out → collected input (add_fact out f).
Proof.
  intros Hf Hk [H1 H2 H3 H4 H5 H6]. split; history_cbn; try done.
  - apply Forall_app. split; [done|by constructor].
  - rewrite H6. setoid_rewrite elem_of_app. setoid_rewrite list_elem_of_singleton. naive_solver.
Qed.

Lemma collected_limitation out l : l ≠ HistoryLimitTruncated → l ≠ HistoryLimitDanglingReference →
  collected input out → collected input (add_limitation out l).
Proof.
  intros Ht Hd [H1 H2 H3 H4 H5 H6]. destruct (appendUnique_wf _ l H3 H4) as [H7 H8].
  split; history_cbn; try done; rewrite elem_of_appendUnique; [|naive_solver].
  split; [|by apply H5]. intros [H|H]; [by destruct Ht|by apply H5].
Qed.

Lemma collected_dangling out ref detail : collected input out → collected input (add_dangling out ref detail).
Proof.
  intros [H1 H2 H3 H4 H5 H6]. destruct (appendUnique_wf _ HistoryLimitDanglingReference H3 H4) as [H7 H8].
  split; history_cbn; try done.
  - apply Forall_app. split; [done|by constructor].
  - rewrite elem_of_appendUnique. split; [|by apply H5]. intros [H|H]; [done|by apply H5].
  - rewrite elem_of_appendUnique. setoid_rewrite elem_of_app. setoid_rewrite list_elem_of_singleton. split; [|by left].
    intros _. eexists. split; [by right|done].
Qed.

Lemma collected_foldl {A} (f : HistoryProjection → A → HistoryProjection) l out :
  (∀ out x, x ∈ l → collected input out → collected input (f out x)) → collected input out → collected input (foldl f out l).
Proof.
  revert out. induction l as [|x l IH]; intros out Hf Ho; [done|]. cbn. apply IH; [|apply Hf; [left|done]].
  intros out' y Hy. apply Hf. by right.
Qed.

Lemma collected_population present out p : collected input out → collected input (add_population present out p).
Proof.
  apply collected_foldl. intros out' c _ Ho. unfold add_contribution.
  assert (collected input (add_limitation (add_fact out' (fact HistoryContributionPresent (populationRef p) HistoryBookkeeping
    "CONTRIBUTION_MEMBERSHIP")) HistoryLimitContributionTime)) as H.
  { apply collected_limitation; [done..|]. by apply collected_fact. }
  case_bool_decide; [done|]. by apply collected_dangling.
Qed.

Lemma time_nonzero t : negb (time_is_zero t) = true → t ≠ 0%Z.
Proof. unfold time_is_zero. rewrite negb_true_iff, Z.eqb_neq. done. Qed.

Lemma collected_observation out o : o ∈ hi_Observations input → collected input out → collected input (add_observation out o).
Proof.
  intros Ho Hout.
  assert (∀ kind t tier detail, t ≠ 0%Z → (t = ho_CreatedAt o ∨ t = ex_StartedAt (o_execution (ho_Observation o)) ∨
    t = ex_CompletedAt (o_execution (ho_Observation o))) → dated input (event kind (observationRef o) t tier detail)) as Hd.
  { intros kind t tier detail Hne Ht. split; [done|]. exists t. split; [done|]. left. exists o. done. }
  unfold add_observation.
  assert (collected input (if negb (time_is_zero (ho_CreatedAt o))
    then add_event out (event HistoryObservationCreated (observationRef o) (ho_CreatedAt o) HistoryStructurallyDerived "OBSERVATION_CREATED")
    else out)) as H1.
  { destruct (negb _) eqn:E; [|done]. apply collected_event; [|done]. apply Hd; [by apply time_nonzero|auto]. }
  cbn zeta. revert H1. generalize (if negb (time_is_zero (ho_CreatedAt o))
    then add_event out (event HistoryObservationCreated (observationRef o) (ho_CreatedAt o) HistoryStructurallyDerived "OBSERVATION_CREATED")
    else out). clear out Hout. intros out Hout.
  assert (collected input (if negb (time_is_zero (ex_StartedAt (o_execution (ho_Observation o))))
    then add_event out (event HistoryObservationStarted (observationRef o) (ex_StartedAt (o_execution (ho_Observation o))) HistoryEmpiricallyObserved "EXECUTION_STARTED")
    else out)) as H2.
  { destruct (negb _) eqn:E; [|done]. apply collected_event; [|done]. apply Hd; [by apply time_nonzero|auto]. }
  destruct (negb (time_is_zero (ex_CompletedAt _))) eqn:E; [|done]. cbn [andb]. apply time_nonzero in E.
  destruct (_ || _); [|done]. case_bool_decide; apply collected_event; try done; apply Hd; auto.
Qed.

Lemma collected_missing present ref l out : collected input out →
  collected input (foldl (add_missing_observation present ref) out l).
Proof.
  apply collected_foldl. intros out' id _ Ho. unfold add_missing_observation. case_bool_decide; [done|].
  by apply collected_dangling.
Qed.

Lemma collected_governance present out p : p ∈ hi_Proposals input → collected input out →
  collected input (add_governance present (proposalRef (cp_Ref (pi_Candidate p))) out (pi_Candidate p)).
Proof.
  intros Hp Ho. unfold add_governance.
  set (ref := proposalRef _). cbn zeta.
  assert (collected input (add_limitation (add_fact out (fact HistoryProposalGovernance ref HistoryGovernanceRecorded
    (Proposal.st_ApprovalState (cp_Status (pi_Candidate p))))) HistoryLimitApprovalIncomplete)) as H1.
  { apply collected_limitation; [done..|]. by apply collected_fact. }
  revert H1. generalize (add_limitation (add_fact out (fact HistoryProposalGovernance ref HistoryGovernanceRecorded
    (Proposal.st_ApprovalState (cp_Status (pi_Candidate p))))) HistoryLimitApprovalIncomplete). clear out Ho. intros out Ho.
  assert (collected input (match st_LastApprovalSnapshot (cp_Status (pi_Candidate p)) with
    Some s => add_snapshot ref out s | None => out end)) as H2.
  { destruct (st_LastApprovalSnapshot _) as [s|] eqn:Es; [|done]. unfold add_snapshot.
    destruct (parse_rfc3339 _) as [t|] eqn:Et; [|by apply collected_fact]. apply collected_event; [|done].
    split; [done|]. exists t. split; [done|]. right; left. exists p. eauto 10. }
  revert H2. generalize (match st_LastApprovalSnapshot (cp_Status (pi_Candidate p)) with
    Some s => add_snapshot ref out s | None => out end). clear out Ho. intros out Ho.
  destruct (sp_Provenance _); [apply collected_missing|]; (destruct (_ && _); [by apply collected_fact|done]).
Qed.

Lemma collected_proposal present sub out p : p ∈ hi_Proposals input → collected input out →
  collected input (add_proposal present sub out p).
Proof.
  intros Hp Ho. unfold add_proposal. destruct (negb (proposalSelected p sub)); [done|]. cbn zeta.
  assert (collected input (if negb (time_is_zero (pi_CreatedAt p))
    then add_event out (event HistoryProposalGenerated (proposalRef (cp_Ref (pi_Candidate p))) (pi_CreatedAt p) HistoryStructurallyDerived "PROPOSAL_GENERATED")
    else out)) as H1.
  { destruct (negb _) eqn:E; [|done]. apply time_nonzero in E. apply collected_event; [|done]. split; [done|].
    eexists. split; [done|]. right; left. exists p. eauto. }
  destruct (_ || _); [by apply collected_governance|done].
Qed.

Lemma parseAttemptTime_Some s t : parseAttemptTime s = Some t → parse_rfc3339 s = Ok t.
Proof. unfold parseAttemptTime. destruct (empty s); [done|]. destruct (parse_rfc3339 s); naive_solver. Qed.

(** The start, the completion and the mutations of an attempt. *)
Lemma collected_custody ref related started completed state (kind1 kind2 : HistoryEventKind) mutations out :
  (∀ t, parse_rfc3339 started = Ok t ∨ parse_rfc3339 completed = Ok t → recorded_instant input ref t) →
  kind1 ≠ HistoryFact → kind2 ≠ HistoryFact → collected input out →
  collected input (add_mutations ref
    (let out := match parseAttemptTime started with
       | Some t => add_event out (mkEvent kind1 ref related (Some t) HistoryTimestamped HistoryApplicationRecorded "ATTEMPT_STARTED")
       | None => add_fact out (fact kind1 ref HistoryApplicationRecorded "ATTEMPT_PRESENT") end in
     match parseAttemptTime completed with
     | Some t => add_event out (mkEvent kind2 ref related (Some t) HistoryTimestamped HistoryApplicationRecorded state)
     | None => add_fact out (fact kind2 ref HistoryApplicationRecorded state) end) mutations).
Proof.
  intros Hr Hk1 Hk2 Ho. apply collected_foldl; [intros; by apply collected_fact|]. cbn zeta.
  destruct (parseAttemptTime completed) as [t2|] eqn:E2; [apply collected_event|apply collected_fact]; try done.
  1: { split; [done|]. exists t2. split; [done|]. apply Hr. right. by apply parseAttemptTime_Some. }
  all: destruct (parseAttemptTime started) as [t1|] eqn:E1; [apply collected_event|apply collected_fact]; try done;
    (split; [done|]); exists t1; (split; [done|]); apply Hr; left; by apply parseAttemptTime_Some.
Qed.

Lemma collected_apply proposals sub out a : a ∈ hi_ApplyAttempts input → collected input out →
  collected input (add_apply proposals sub out a).
Proof.
  intros Ha Ho. unfold add_apply. cbn zeta. destruct (negb (attemptForHistory _ _ _)); [done|].
  assert (collected input (addApplyHistory out a)) as H.
  { apply (collected_custody (applyRef a) None (Attempt.StartedAt (aa_Spec a)) (Attempt.st_CompletedAt (aa_Status a))
      (Attempt.st_State (aa_Status a)) HistoryApplyStarted HistoryApplyCompleted (Attempt.st_Mutations (aa_Status a)) out); try done. intros t Ht. right; right; left. eauto. }
  destruct (_ && _); [by apply collected_dangling|done].
Qed.

Lemma collected_rollback proposals present sub out r : r ∈ hi_RollbackAttempts input → collected input out →
  collected input (add_rollback proposals present sub out r).
Proof.
  intros Hr Ho. unfold add_rollback. cbn zeta. destruct (negb (attemptForHistory _ _ _)); [done|].
  assert (collected input (addRollbackHistory out r)) as H.
  { apply (collected_custody (rollbackRef r) (Some (sourceRef r)) (RollbackAttempt.StartedAt (ra_Spec r))
      (Attempt.st_CompletedAt (ra_Status r)) (Attempt.st_State (ra_Status r)) HistoryRollbackStarted HistoryRollbackCompleted
      (Attempt.st_Mutations (ra_Status r)) out); try done. intros t Ht. right; right; right. eauto. }
  destruct (negb (empty _) && _); [apply collected_dangling|]; (destruct (_ && _); [by apply collected_dangling|done]).
Qed.

Lemma collected_none : collected input no_history.
Proof.
  split; [constructor..| |]; [split; [by intros ?%elem_of_nil|done]|]. split; [by intros ?%elem_of_nil|].
  intros (f & Hf & _). by apply elem_of_nil in Hf.
Qed.

Lemma collectHistory_collected subject proposalSubject : collected input (collectHistory subject proposalSubject input).
Proof.
  unfold collectHistory. cbn zeta.
  assert (∀ out, collected input out → collected input
    (if 0 <? length (TimestampedEvents out) + length (UntimestampedFacts out) then add_limitation out HistoryLimitNonTransactional else out)) as Hlast.
  { intros out Ho. destruct (0 <? _); [by apply collected_limitation|done]. }
  apply Hlast. clear Hlast.
  apply collected_foldl; [intros; by apply collected_rollback|]. apply collected_foldl; [intros; by apply collected_apply|].
  apply collected_foldl; [intros; by apply collected_proposal|].
  apply collected_foldl; [intros out o [Hin _]%elem_of_filter_bool; by apply collected_observation|].
  apply collected_foldl; [intros; by apply collected_population|]. exact collected_none.
Qed.
End collect.

(** ** The result *)
#[export] Instance event_less_weak : StrictWeak event_less.
Proof. apply _. Qed.

Definition newest_first (x y : HistoryEvent) : Prop := (event_time y <= event_time x)%Z.

Lemma event_less_newest l : StronglySorted (not_above event_less) l → StronglySorted newest_first l.
Proof.
  induction 1 as [|x l Hs IH Hall]; constructor; [done|]. eapply Forall_impl; [exact Hall|]. intros y Hy.
  unfold not_above, event_less, less_lex, later in Hy. apply orb_false_iff in Hy as [Hy _]. unfold newest_first. lia.
Qed.

Lemma StronglySorted_take {A} (R : A → A → Prop) n l : StronglySorted R l → StronglySorted R (take n l).
Proof.
  intros H. revert n. induction H as [|x l Hs IH Hall]; intros [|n]; cbn; constructor; [apply IH|by apply Forall_take].
Qed.

(** C36: the history of any request is bounded, ordered and honest about both: it
    reports the number of events and facts there are, keeps the newest events
    and only then facts, never more than the limit, and says TRUNCATED exactly
    when it dropped some.  Every timestamped event carries an instant recorded
    in the very object it names; no fact carries one; a dangling reference is
    declared exactly when a fact reports one (before truncation). *)
Theorem projectHistory_bounded subject proposalSubject input out :
  projectHistory subject proposalSubject input = Ok out →
  let full := sortHistory (collectHistory subject proposalSubject input) in
  let kept := (Z.of_nat (length (TimestampedEvents out)) + Z.of_nat (length (UntimestampedFacts out)))%Z in
  hp_TotalCount out = (Z.of_nat (length (TimestampedEvents full)) + Z.of_nat (length (UntimestampedFacts full)))%Z ∧
  (hp_Truncated out = true ↔ (0 < hi_Limit input < hp_TotalCount out)%Z) ∧
  (hp_Truncated out = true ↔ HistoryLimitTruncated ∈ Limitations out) ∧
  kept = (if hp_Truncated out then hi_Limit input else hp_TotalCount out) ∧
  (∃ n, TimestampedEvents out = take n (TimestampedEvents full)) ∧
  (∃ n, UntimestampedFacts out = take n (UntimestampedFacts full)) ∧
  (UntimestampedFacts out ≠ [] → TimestampedEvents out = TimestampedEvents full) ∧
  StronglySorted newest_first (TimestampedEvents out) ∧
  Forall (dated input) (TimestampedEvents out) ∧ Forall undated (UntimestampedFacts out) ∧
  (HistoryLimitDanglingReference ∈ Limitations out ↔ ∃ f, f ∈ UntimestampedFacts full ∧ he_Kind f = HistoryFact).
Proof.
  intros H. cbn zeta. unfold projectHistory in H. apply result_bind_Ok in H as (_ & _ & H).
  apply result_guard_Ok in H as [_ H]. apply Ok_inj in H as <-.
  destruct (collectHistory_collected input subject proposalSubject) as [H1 H2 H3 H4 [H5 H6] H7].
  set (c := collectHistory subject proposalSubject input) in *. unfold sortHistory. cbn zeta.
  set (es := sort_by event_less (TimestampedEvents c)). set (fs := sort_by (less_on historyEventKey string_ltb) (UntimestampedFacts c)).
  assert (StronglySorted newest_first es) as Hes by (apply event_less_newest, sort_by_sorted, _).
  assert (Forall (dated input) es) as Hde by (unfold es; by rewrite sort_by_perm).
  assert (Forall undated fs) as Hdf by (unfold fs; by rewrite sort_by_perm).
  assert (HistoryLimitDanglingReference ∈ Limitations c ↔ ∃ f, f ∈ fs ∧ he_Kind f = HistoryFact) as Hd.
  { rewrite H7. unfold fs. by setoid_rewrite elem_of_sort_by. }
  assert (∀ l, HistoryLimitDanglingReference ∈ appendUnique l HistoryLimitTruncated ↔ HistoryLimitDanglingReference ∈ l) as Hda.
  { intros l. rewrite elem_of_appendUnique. split; [by intros [?|?]|by right]. }
  assert (∀ l, HistoryLimitTruncated ∈ appendUnique l HistoryLimitTruncated) as Hta.
  { intros l. rewrite elem_of_appendUnique. by left. }
  unfold applyHistoryLimit. cbn [hp_TotalCount TimestampedEvents UntimestampedFacts Limitations hp_Truncated]. rewrite H6.
  destruct (Z.leb_spec (hi_Limit input) 0) as [Hl|Hl]; cbn [orb];
    [|destruct (Z.leb_spec (Z.of_nat (length es) + Z.of_nat (length fs)) (hi_Limit input)) as [Ht|Ht]].
  1-2: cbn [hp_TotalCount TimestampedEvents UntimestampedFacts Limitations hp_Truncated];
    split_and!; try done; try (split; [done|lia]);
    [by exists (length es); rewrite take_ge by lia|by exists (length fs); rewrite take_ge by lia].
  destruct (Nat.ltb_spec (Z.to_nat (hi_Limit input)) (length es)) as [Hk|Hk];
    cbn [hp_TotalCount TimestampedEvents UntimestampedFacts Limitations hp_Truncated];
    (split_and!; try done; try (by rewrite Hda); try (by exists (Z.to_nat (hi_Limit input))); try (by exists 0);
      try (by exists (length es); rewrite take_ge by lia); try (by eexists); try (by apply Forall_take);
      try (by apply StronglySorted_take); try (rewrite ?length_take; cbn [length]; lia)).
Qed.

(** ** What the history leaves out *)

(** An apply attempt whose proposal was deleted disappears from the history as
    soon as any other proposal exists: adding it to the loaded objects changes
    nothing, so the fact REFERENCED_PROPOSAL_NOT_FOUND is never reported for it. *)
Theorem deleted_proposal_attempt_hidden subject input a :
  hi_Proposals input ≠ [] →
  (∀ p, p ∈ hi_Proposals input → ref_UID (cp_Ref (pi_Candidate p)) ≠ Attempt.ProposalUID (aa_Spec a)) →
  (∀ r, r ∈ hi_RollbackAttempts input → RollbackAttempt.SourceUID (ra_Spec r) ≠ aa_UID a) →
  projectHistory subject None
    (mkHistoryInputs (hi_Populations input) (hi_Observations input) (hi_Proposals input) (hi_ApplyAttempts input ++ [a])
       (hi_RollbackAttempts input) (hi_Limit input)) =
  projectHistory subject None input.
Proof.
  intros Hne Hp Hr. unfold projectHistory. cbn [hi_Limit].
  assert (collectHistory subject None (mkHistoryInputs (hi_Populations input) (hi_Observations input) (hi_Proposals input)
    (hi_ApplyAttempts input ++ [a]) (hi_RollbackAttempts input) (hi_Limit input)) = collectHistory subject None input) as ->; [|done].
  unfold collectHistory. cbn [hi_Populations hi_Observations hi_Proposals hi_ApplyAttempts hi_RollbackAttempts]. cbn zeta.
  rewrite foldl_app. cbn [foldl]. generalize (foldl (add_apply (hi_Proposals input) None)
    (foldl (add_proposal (map (λ o, o_id (ho_Observation o)) (hi_Observations input)) None)
      (foldl add_observation
        (foldl (add_population (map (λ o, o_id (ho_Observation o)) (hi_Observations input))) no_history
          (List.filter (population_selected subject) (hi_Populations input)))
        (List.filter (observation_selected subject) (hi_Observations input))) (hi_Proposals input)) (hi_ApplyAttempts input)).
  intros out.
  assert (add_apply (hi_Proposals input) None out a = out) as ->.
  { unfold add_apply, attemptForHistory. destruct (Nat.eqb_spec (length (hi_Proposals input)) 0) as [E|_].
    { apply length_zero_iff_nil in E. done. }
    assert (anyProposalUID (hi_Proposals input) (Attempt.ProposalUID (aa_Spec a)) = false) as ->; [|done].
    apply not_true_iff_false. unfold anyProposalUID. rewrite existsb_exists. intros (p & Hin & E). bool_simpl.
    apply (Hp p); [by apply list_elem_of_In|done]. }
  assert (∀ l out, (∀ r, r ∈ l → RollbackAttempt.SourceUID (ra_Spec r) ≠ aa_UID a) →
    foldl (add_rollback (hi_Proposals input) (map aa_UID (hi_ApplyAttempts input ++ [a])) None) out l =
    foldl (add_rollback (hi_Proposals input) (map aa_UID (hi_ApplyAttempts input)) None) out l) as ->; [|done|done].
  clear Hr out. induction l as [|r l IH]; intros out Hr; [done|]. cbn [foldl]. rewrite IH by (intros; apply Hr; by right).
  f_equal. unfold add_rollback. cbn zeta. rewrite map_app.
  assert (bool_decide (RollbackAttempt.SourceUID (ra_Spec r) ∈ map aa_UID (hi_ApplyAttempts input) ++ map aa_UID [a]) =
    bool_decide (RollbackAttempt.SourceUID (ra_Spec r) ∈ map aa_UID (hi_ApplyAttempts input))) as ->; [|done].
  apply bool_decide_ext. rewrite elem_of_app. cbn. rewrite list_elem_of_singleton. split; [|by left].
  intros [H|H]; [done|]. by destruct (Hr r (list_elem_of_here _ _)).
Qed.

(** The history of a subject is not confined to it: every loaded proposal of
    version 2 contributes its governance state whatever subject it is about. *)
Lemma subject_history_unconfined : ∃ subject p,
  compatible_v2 subject (cp_Spec (pi_Candidate p)) = false ∧
  match ProjectPopulationHistory subject (mkHistoryInputs [] [] [p] [] [] 0) with
  | Ok out => existsb (fun f => bool_decide (sr_Name_ (he_SourceRef f) = "draft")) (UntimestampedFacts out)
  | Err _ => false
  end = true.
Proof.
  exists (mkPopulationIdentity ScopeContainer "Deployment/other" "app" "sha256:00" ""), (mkProposalInput ex_draft 2).
  split; vm_compute; reflexivity.
Qed.

(** ** Examples *)
Definition ex_history : HistoryInputs :=
  mkHistoryInputs [mkHistoryPopulation ex_population "default" "web" "uh"]
    [mkHistoryObservation (ex_observation "o1" "w1" ExecutionCompleted) "default" "o1" "uo" 7]
    [mkProposalInput ex_draft 2] [ex_apply "first" "2026-01-01T00:00:00Z" Attempt.StateFailed []] [] 1.

Lemma projectHistory_bounded_witness :
  ∃ out, projectHistory None None ex_history = Ok out ∧ hp_Truncated out = true ∧
    Forall (dated ex_history) (TimestampedEvents out).
Proof.
  destruct (projectHistory None None ex_history) as [out|e] eqn:E; [|vm_compute in E; discriminate].
  destruct (projectHistory_bounded None None ex_history out E) as (_ & _ & _ & _ & _ & _ & _ & _ & H & _).
  exists out. split; [reflexivity|]. split; [|exact H]. vm_compute in E. injection E as <-. reflexivity.
Defined.

Lemma deleted_proposal_attempt_hidden_witness :
  projectHistory None None (mkHistoryInputs (hi_Populations ex_history) (hi_Observations ex_history) (hi_Proposals ex_history)
    (hi_ApplyAttempts ex_history ++ [ex_apply "second" "2026-01-02T00:00:00Z" Attempt.StateApplied []]) [] 1) =
  projectHistory None None ex_history.
Proof.
  apply (deleted_proposal_attempt_hidden None ex_history); [discriminate| |intros r H; inversion H].
  intros p ->%list_elem_of_singleton. cbn. discriminate.
Defined.
