(* ===== verification/HistoryPersisted.v ===== *)
(** * internal/history: the stored form of a population

    A population of a record of training history is stored through
    [runtime.DefaultUnstructuredConverter] of k8s.io/apimachinery, by the JSON
    tags of record.go, provenance.go and internal/k8s/target.go.  The converter
    is a parameter, of which only the treatment of one struct is assumed: a
    struct becomes a map in which the value of a field is found again under
    the name of its tag, and an omitted field is absent.  The tags, the nested
    structs, the slices and the values are those of the source. *)
From S2P Require Import Prelude GoStd Identity Digest Json Decimal Policy Target Unstructured K8sApply History RollbackAttempt.
Import Profile History.
Import RollbackAttempt.RollbackAttempt(field, required, omitempty, stored, struct_json, names_distinct, names_distinct_dec,
  stored_names, sublist_map, into_field_stored).

(** ** The converter *)
Class StructConverter := {
  (** [ToUnstructured]: the tagged fields of a struct, in order. *)
  to_struct : list field → result json;
  (** [FromUnstructured]: what a field is read from, when there is anything. *)
  from_field : string → json → result (option json) }.

Class StructConverterLaws `{StructConverter} := {
  to_struct_map : ∀ fields j, to_struct fields = Ok j → ∃ fs, j = JObj fs;
  from_to_struct : ∀ fields j name v omitted,
    to_struct fields = Ok j → names_distinct (map (fun f : field => f.1.1) fields) → (name, v, omitted) ∈ fields →
    from_field name j = Ok (if omitted : bool then None else Some v) }.

(** By the tags, with the fields in key order. *)
#[export] Instance tag_converter : StructConverter :=
  {| to_struct fields := Ok (struct_json fields);
     from_field name j := match j with JObj fs => Ok (lookup_field name fs) | _ => failwith "cannot restore struct" end |}.

Lemma lookup_stored name v omitted fields :
  names_distinct (map (fun f : field => f.1.1) fields) → (name, v, omitted) ∈ fields →
  lookup_field name (stored fields) = if omitted : bool then None else Some v.
Proof.
  intros Hn Hin. unfold names_distinct in Hn.
  assert (NoDup (map (fun f : field => f.1.1) fields)) as Hd by (by eapply (NoDup_fmap_1 to_lower)). clear Hn.
  assert (∀ l, name ∉ map (fun f : field => f.1.1) l → lookup_field name (stored l) = None) as Habsent.
  { induction l as [|[[m w] o] l IH]; [done|]. cbn. rewrite not_elem_of_cons. intros [Hm Hl]. destruct o; [by apply IH|].
    cbn. rewrite bool_decide_eq_false_2 by done. by apply IH. }
  induction fields as [|[[m w] o] fields IH]; [by apply elem_of_nil in Hin|]. cbn in Hd. apply NoDup_cons in Hd as [Hm Hd].
  apply elem_of_cons in Hin as [[= <- <- <-]|Hin].
  - cbn. destruct omitted; [by apply Habsent|]. cbn. by rewrite bool_decide_eq_true_2.
  - assert (m ≠ name) as Hne. { intros ->. apply Hm. apply list_elem_of_fmap. by exists (name, v, omitted). }
    cbn. destruct o; [by apply IH|]. cbn. rewrite bool_decide_eq_false_2 by done. by apply IH.
Qed.

#[export] Instance tag_converter_laws : @StructConverterLaws tag_converter.
Proof.
  split.
  - intros fields j [= <-]. unfold struct_json, obj_of. by eexists.
  - intros fields j name v omitted [= <-] Hn Hin. unfold struct_json, obj_of. cbn [from_field tag_converter].
    by rewrite lookup_sort, (lookup_stored name v omitted).
Qed.

(** ** Values *)
Definition number (n : Z) : json := JNum (itoa n).

Definition as_string (j : json) : result string :=
  match j with JStr s => Ok s | _ => failwith "cannot restore string" end.
Definition as_bool (j : json) : result bool :=
  match j with JBool b => Ok b | _ => failwith "cannot restore bool" end.
Definition as_int (j : json) : result Z :=
  match j with
  | JNum t => match K8sApply.int_literal t with Some n => Ok n | None => failwith "cannot restore int" end
  | _ => failwith "cannot restore int"
  end.
(** A null element is the zero value. *)
Definition as_slice {A} (zero : A) (into : json → result A) (j : json) : result (list A) :=
  match j with
  | JArr l => result_mapM (fun x => match x with JNull => Ok zero | x => into x end) l
  | _ => failwith "cannot restore slice"
  end.

Definition to_slice {A} (write : A → result json) (l : list A) : result json := js ← result_mapM write l; Ok (JArr js).

Lemma digit_val_in a : digit_val a = if byte_in 48 57 a then Some (byte_of a - 48)%Z else None.
Proof.
  unfold digit_val, byte_in, byte_of. cbv zeta.
  destruct (Z.leb_spec 48 (Z.of_nat (nat_of_ascii a))), (Z.leb_spec (Z.of_nat (nat_of_ascii a)) 57),
    (Nat.leb_spec 48 (nat_of_ascii a)), (Nat.leb_spec (nat_of_ascii a) 57); cbn [andb]; done || lia.
Qed.

Lemma digits_value_decimal s : ∀ acc, K8sApply.digits_value acc s = decimal_value acc s.
Proof.
  induction s as [|a s IH]; intros acc; cbn [K8sApply.digits_value decimal_value]; [done|].
  rewrite digit_val_in. destruct (byte_in 48 57 a); [apply IH|done].
Qed.

(** A decimal text is an integer literal with its value. *)
Lemma int_literal_itoa n : K8sApply.int_literal (itoa n) = Some n.
Proof.
  assert (∀ m, (0 <= m)%Z → itoa m ≠ "" ∧ K8sApply.digits_value 0 (itoa m) = Some m ∧
    ∃ a s, itoa m = String a s ∧ a ≠ "-"%char) as Hpos.
  { intros m Hm. destruct (itoa_spec m Hm) as (Hne & _ & Hv). split; [done|]. split; [by rewrite digits_value_decimal|].
    destruct (itoa m) as [|a s]; [done|]. exists a, s. split; [done|]. intros ->. done. }
  destruct (Z.ltb_spec n 0) as [Hn|Hn].
  - assert (itoa n = String "-" (itoa (- n))) as ->.
    { unfold itoa. rewrite Z.abs_opp. destruct (Z.ltb_spec n 0), (Z.ltb_spec (- n) 0); done || lia. }
    destruct (Hpos (- n)%Z) as (Hne & Hv & _); [lia|]. cbn [K8sApply.int_literal]. rewrite bool_decide_eq_true_2 by done.
    unfold K8s.empty. rewrite bool_decide_eq_false_2 by done. rewrite Hv. f_equal. lia.
  - destruct (Hpos n Hn) as (Hne & Hv & a & s & E & Ha). rewrite E in *. cbn [K8sApply.int_literal].
    by rewrite bool_decide_eq_false_2 by done.
Qed.

Section population.
Context `{!StructConverter}.

(** A field that is absent or null is the zero value. *)
Definition read_field {A} (zero : A) (into : json → result A) (name : string) (j : json) : result A :=
  found ← from_field name j;
  match found with None | Some JNull => Ok zero | Some v => into v end.

(** ** The structs, by their tags *)
Definition boolean (name : string) (b : bool) : field := (name, JBool b, false).
Definition integer_field (name : string) (n : Z) : field := (name, number n, false).
(** A slice with [omitempty]. *)
Definition slice_omitempty {A} (name : string) (l : list A) (v : json) : field := (name, v, bool_decide (length l = 0)).

Definition Binding_to (b : CanonicalTargetBinding) : result json :=
  to_struct [required "namespace" (tb_Namespace b); omitempty "group" (tb_Group b); required "kind" (tb_Kind b);
             required "name" (tb_Name b)].
Definition Binding_from (j : json) : result CanonicalTargetBinding :=
  namespace ← read_field "" as_string "namespace" j; group ← read_field "" as_string "group" j;
  kind ← read_field "" as_string "kind" j; name ← read_field "" as_string "name" j;
  Ok (mkCanonicalTargetBinding namespace group kind name).

Definition FileAccessRecord_to (r : FileAccessRecord) : result json :=
  to_struct [required "path" (fr_Path r); ("permissions", JArr (map JStr (fr_Permissions r)), false);
             integer_field "seenInRuns" (fr_SeenInRuns r)].
Definition FileAccessRecord_from (j : json) : result FileAccessRecord :=
  path ← read_field "" as_string "path" j; permissions ← read_field [] (as_slice "" as_string) "permissions" j;
  seenInRuns ← read_field 0%Z as_int "seenInRuns" j;
  Ok (mkFileAccessRecord path permissions seenInRuns).

Definition NetworkAccessRecord_to (r : NetworkAccessRecord) : result json :=
  to_struct [integer_field "port" (nr_Port r); required "direction" (nr_Direction r);
             integer_field "seenInRuns" (nr_SeenInRuns r)].
Definition NetworkAccessRecord_from (j : json) : result NetworkAccessRecord :=
  port ← read_field 0%Z as_int "port" j; direction ← read_field "" as_string "direction" j;
  seenInRuns ← read_field 0%Z as_int "seenInRuns" j;
  Ok (mkNetworkAccessRecord port direction seenInRuns).

Definition SyscallAccessRecord_to (r : SyscallAccessRecord) : result json :=
  to_struct [required "name" (sr_Name r); integer_field "seenInRuns" (sr_SeenInRuns r)].
Definition SyscallAccessRecord_from (j : json) : result SyscallAccessRecord :=
  name ← read_field "" as_string "name" j; seenInRuns ← read_field 0%Z as_int "seenInRuns" j;
  Ok (mkSyscallAccessRecord name seenInRuns).

Definition CapabilityAccessRecord_to (r : CapabilityAccessRecord) : result json :=
  to_struct [required "name" (cr_Name r); integer_field "seenInRuns" (cr_SeenInRuns r)].
Definition CapabilityAccessRecord_from (j : json) : result CapabilityAccessRecord :=
  name ← read_field "" as_string "name" j; seenInRuns ← read_field 0%Z as_int "seenInRuns" j;
  Ok (mkCapabilityAccessRecord name seenInRuns).

Definition SourceContribution_to (s : ObservationSourceContribution) : result json :=
  to_struct [required "source" (os_Source s); required "evidenceState" (os_EvidenceState s);
    required "attributionState" (os_AttributionState s); boolean "backendHealthy" (os_BackendHealthy s);
    boolean "attachedForWindow" (os_AttachedForWindow s); boolean "flushConfirmed" (os_FlushConfirmed s);
    integer_field "attributedCount" (os_AttributedCount s); integer_field "excludedCount" (os_ExcludedCount s);
    integer_field "normalizedFactCount" (os_NormalizedFactCount s)].
Definition SourceContribution_from (j : json) : result ObservationSourceContribution :=
  source ← read_field "" as_string "source" j; evidence ← read_field "" as_string "evidenceState" j;
  attribution ← read_field "" as_string "attributionState" j; healthy ← read_field false as_bool "backendHealthy" j;
  attached ← read_field false as_bool "attachedForWindow" j; flushed ← read_field false as_bool "flushConfirmed" j;
  attributed ← read_field 0%Z as_int "attributedCount" j; excluded ← read_field 0%Z as_int "excludedCount" j;
  facts ← read_field 0%Z as_int "normalizedFactCount" j;
  Ok (mkObservationSourceContribution source evidence attribution healthy attached flushed attributed excluded facts).

Definition zero_source : ObservationSourceContribution := mkObservationSourceContribution "" "" "" false false false 0 0 0.
Definition Contribution_to (c : ObservationContribution) : result json :=
  sources ← to_slice SourceContribution_to (oc_Sources c);
  to_struct [required "observationID" (oc_ObservationID c); ("sources", sources, false);
    slice_omitempty "capabilityFacts" (oc_CapabilityFacts c) (JArr (map JStr (oc_CapabilityFacts c)));
    ("capabilityFactsComplete", JBool (oc_CapabilityFactsComplete c), negb (oc_CapabilityFactsComplete c))].
Definition Contribution_from (j : json) : result ObservationContribution :=
  id ← read_field "" as_string "observationID" j;
  sources ← read_field [] (as_slice zero_source SourceContribution_from) "sources" j;
  facts ← read_field [] (as_slice "" as_string) "capabilityFacts" j;
  complete ← read_field false as_bool "capabilityFactsComplete" j;
  Ok (mkObservationContribution id sources facts complete).

Definition Fingerprint_to (f : PopulationFingerprint) : result json :=
  to_struct [omitempty "scope" (pi_Scope f); required "target" (pi_Target f); required "container" (pi_Container f);
    required "imageIdentity" (pi_ImageIdentity f); required "binaryPath" (pi_BinaryPath f)].
Definition Fingerprint_from (j : json) : result PopulationFingerprint :=
  scope ← read_field "" as_string "scope" j; target ← read_field "" as_string "target" j;
  container ← read_field "" as_string "container" j; image ← read_field "" as_string "imageIdentity" j;
  binary ← read_field "" as_string "binaryPath" j;
  Ok (mkPopulationIdentity scope target container image binary).

Definition zero_fingerprint : PopulationFingerprint := mkPopulationIdentity "" "" "" "" "".
Definition Marker_to (m : ContributionMarker) : result json :=
  population ← Fingerprint_to (cm_Population m);
  to_struct [required "observationID" (cm_ObservationID m); ("population", population, false);
    required "keyDigest" (cm_KeyDigest m)].
Definition Marker_from (j : json) : result ContributionMarker :=
  id ← read_field "" as_string "observationID" j; population ← read_field zero_fingerprint Fingerprint_from "population" j;
  digest ← read_field "" as_string "keyDigest" j;
  Ok (mkContributionMarker id population digest).

Definition no_record_file : FileAccessRecord := mkFileAccessRecord "" [] 0.
Definition no_record_network : NetworkAccessRecord := mkNetworkAccessRecord 0 "" 0.
Definition no_record_syscall : SyscallAccessRecord := mkSyscallAccessRecord "" 0.
Definition no_record_capability : CapabilityAccessRecord := mkCapabilityAccessRecord "" 0.
Definition no_contribution : ObservationContribution := mkObservationContribution "" [] [] false.
Definition no_marker : ContributionMarker := mkContributionMarker "" zero_fingerprint "".

(** A nil pointer is omitted. *)
Definition binding_field (b : option CanonicalTargetBinding) : result field :=
  match b with
  | Some b => j ← Binding_to b; Ok ("targetBinding", j, false)
  | None => Ok ("targetBinding", JNull, true)
  end.

Definition Population_to (p : Population) : result json :=
  binding ← binding_field (p_TargetBinding p);
  files ← to_slice FileAccessRecord_to (p_FilesystemAccesses p);
  networks ← to_slice NetworkAccessRecord_to (p_NetworkAccesses p);
  syscalls ← to_slice SyscallAccessRecord_to (p_SyscallAccesses p);
  capabilities ← to_slice CapabilityAccessRecord_to (p_CapabilityAccesses p);
  contributions ← to_slice Contribution_to (p_ObservationContributions p);
  markers ← to_slice Marker_to (p_PendingContributionMarkers p);
  to_struct [boolean "qualified" (p_Qualified p); omitempty "scope" (p_Scope p); binding;
    required "target" (p_Target p); required "container" (p_Container p); required "imageIdentity" (p_ImageIdentity p);
    required "binaryPath" (p_BinaryPath p); integer_field "runsRecorded" (p_RunsRecorded p);
    slice_omitempty "contributors" (p_Contributors p) (JArr (map JStr (p_Contributors p)));
    slice_omitempty "filesystemAccesses" (p_FilesystemAccesses p) files;
    slice_omitempty "networkAccesses" (p_NetworkAccesses p) networks;
    slice_omitempty "syscallAccesses" (p_SyscallAccesses p) syscalls;
    slice_omitempty "capabilityAccesses" (p_CapabilityAccesses p) capabilities;
    slice_omitempty "observationContributions" (p_ObservationContributions p) contributions;
    slice_omitempty "pendingContributionMarkers" (p_PendingContributionMarkers p) markers].

Definition Population_from (j : json) : result Population :=
  qualified ← read_field false as_bool "qualified" j; scope ← read_field "" as_string "scope" j;
  binding ← read_field None (fun v => b ← Binding_from v; Ok (Some b)) "targetBinding" j;
  target ← read_field "" as_string "target" j; container ← read_field "" as_string "container" j;
  image ← read_field "" as_string "imageIdentity" j; binary ← read_field "" as_string "binaryPath" j;
  runs ← read_field 0%Z as_int "runsRecorded" j; contributors ← read_field [] (as_slice "" as_string) "contributors" j;
  files ← read_field [] (as_slice no_record_file FileAccessRecord_from) "filesystemAccesses" j;
  networks ← read_field [] (as_slice no_record_network NetworkAccessRecord_from) "networkAccesses" j;
  syscalls ← read_field [] (as_slice no_record_syscall SyscallAccessRecord_from) "syscallAccesses" j;
  capabilities ← read_field [] (as_slice no_record_capability CapabilityAccessRecord_from) "capabilityAccesses" j;
  contributions ← read_field [] (as_slice no_contribution Contribution_from) "observationContributions" j;
  markers ← read_field [] (as_slice no_marker Marker_from) "pendingContributionMarkers" j;
  Ok (mkPopulation qualified scope binding target container image binary runs contributors files networks syscalls
        capabilities contributions markers).

(** ** What is written is read *)
Section read_back.
Context `{!StructConverterLaws}.

(** A writer of a struct and its reader: what is written is no null, and is read
    back. *)
Definition inverse {A} (write : A → result json) (read : json → result A) : Prop :=
  ∀ a j, write a = Ok j → (∃ fs, j = JObj fs) ∧ read j = Ok a.

Lemma read_stored {A} (zero : A) into fields j name v omitted a :
  to_struct fields = Ok j → names_distinct (map (fun f : field => f.1.1) fields) → (name, v, omitted) ∈ fields →
  (if omitted : bool then a = zero else v ≠ JNull ∧ into v = Ok a) → read_field zero into name j = Ok a.
Proof.
  intros Hj Hn Hin Hv. unfold read_field. rewrite (from_to_struct _ _ _ _ _ Hj Hn Hin). cbn [mbind result_bind].
  destruct omitted; [by subst|]. destruct Hv as [Hnull Hv]. by destruct v.
Qed.

Lemma as_int_number n : as_int (number n) = Ok n.
Proof. unfold as_int, number. by rewrite int_literal_itoa. Qed.

Lemma strings_inverse l : as_slice "" as_string (JArr (map JStr l)) = Ok l.
Proof. cbn [as_slice]. induction l as [|s l IH]; [done|]. cbn. by rewrite IH. Qed.

Lemma slice_inverse {A} (zero : A) write read l j : inverse write read → to_slice write l = Ok j → as_slice zero read j = Ok l.
Proof.
  intros Hi (js & Hjs & [= <-])%result_bind_Ok. cbn [as_slice]. revert js Hjs.
  induction l as [|a l IH]; intros js Hjs; cbn in Hjs; [by injection Hjs as <-|].
  apply result_bind_Ok in Hjs as (j & Hj & (k & Hk & HR)%result_bind_Ok). injection HR as <-.
  destruct (Hi a j Hj) as [[fs ->] Hr]. cbn. rewrite Hr. cbn. by rewrite (IH k Hk).
Qed.

Lemma slice_value {A} write (l : list A) j : to_slice write l = Ok j → j ≠ JNull.
Proof. by intros (js & _ & [= <-])%result_bind_Ok. Qed.

Section fields.
Context (fields : list field) (j : json).
Hypothesis Hj : to_struct fields = Ok j.
Hypothesis Hn : names_distinct (map (fun f : field => f.1.1) fields).

Lemma read_required name s : required name s ∈ fields → read_field "" as_string name j = Ok s.
Proof. intros Hin. by apply (read_stored _ _ _ _ _ (JStr s) false _ Hj Hn Hin). Qed.

Lemma read_omitempty name s : omitempty name s ∈ fields → read_field "" as_string name j = Ok s.
Proof.
  intros Hin. apply (read_stored _ _ _ _ _ (JStr s) (empty s) _ Hj Hn Hin). unfold empty. by case_bool_decide.
Qed.

Lemma read_boolean name b : boolean name b ∈ fields → read_field false as_bool name j = Ok b.
Proof. intros Hin. by apply (read_stored _ _ _ _ _ (JBool b) false _ Hj Hn Hin). Qed.

Lemma read_flag name b : (name, JBool b, negb b) ∈ fields → read_field false as_bool name j = Ok b.
Proof. intros Hin. apply (read_stored _ _ _ _ _ (JBool b) (negb b) _ Hj Hn Hin). by destruct b. Qed.

Lemma read_integer name n : integer_field name n ∈ fields → read_field 0%Z as_int name j = Ok n.
Proof. intros Hin. apply (read_stored _ _ _ _ _ (number n) false _ Hj Hn Hin). split; [done|apply as_int_number]. Qed.

Lemma read_strings_required name l : (name, JArr (map JStr l), false) ∈ fields → read_field [] (as_slice "" as_string) name j = Ok l.
Proof. intros Hin. apply (read_stored _ _ _ _ _ _ false _ Hj Hn Hin). split; [done|apply strings_inverse]. Qed.

Lemma read_strings_omitempty name l :
  slice_omitempty name l (JArr (map JStr l)) ∈ fields → read_field [] (as_slice "" as_string) name j = Ok l.
Proof.
  intros Hin. apply (read_stored _ _ _ _ _ _ _ _ Hj Hn Hin). case_bool_decide as E; [by apply length_zero_iff_nil|].
  split; [done|apply strings_inverse].
Qed.

Lemma read_slice_required {A} (zero : A) write read name l v :
  inverse write read → to_slice write l = Ok v → (name, v, false) ∈ fields →
  read_field [] (as_slice zero read) name j = Ok l.
Proof.
  intros Hi Hl Hin. apply (read_stored _ _ _ _ _ _ false _ Hj Hn Hin). split; [by eapply slice_value|by eapply slice_inverse].
Qed.

Lemma read_slice_omitempty {A} (zero : A) write read name l v :
  inverse write read → to_slice write l = Ok v → slice_omitempty name l v ∈ fields →
  read_field [] (as_slice zero read) name j = Ok l.
Proof.
  intros Hi Hl Hin. apply (read_stored _ _ _ _ _ _ _ _ Hj Hn Hin). case_bool_decide as E; [by apply length_zero_iff_nil|].
  split; [by eapply slice_value|by eapply slice_inverse].
Qed.

Lemma read_struct {A} (zero : A) write read name a v :
  inverse write read → write a = Ok v → (name, v, false) ∈ fields → read_field zero read name j = Ok a.
Proof.
  intros Hi Ha Hin. destruct (Hi a v Ha) as [[fs ->] Hr]. by apply (read_stored _ _ _ _ _ _ false _ Hj Hn Hin).
Qed.
End fields.

(** The fields of a struct that was written, one by one. *)
Ltac in_fields := first [apply list_elem_of_here | apply list_elem_of_further; in_fields].
Ltac names := apply (bool_decide_unpack _); vm_compute; exact I.
Ltac read_all :=
  repeat (first [ erewrite read_required; [|eassumption|names|in_fields]
                | erewrite read_omitempty; [|eassumption|names|in_fields]
                | erewrite read_boolean; [|eassumption|names|in_fields]
                | erewrite read_flag; [|eassumption|names|in_fields]
                | erewrite read_integer; [|eassumption|names|in_fields]
                | erewrite read_strings_required; [|eassumption|names|in_fields]
                | erewrite read_strings_omitempty; [|eassumption|names|in_fields]
                | erewrite read_slice_required; [|eassumption|names|eassumption|eassumption|in_fields]
                | erewrite read_slice_omitempty; [|eassumption|names|eassumption|eassumption|in_fields]
                | erewrite read_struct; [|eassumption|names|eassumption|eassumption|in_fields] ];
          cbn [mbind result_bind]).
Ltac struct_inverse reader :=
  intros [] ? Hj; split; [by eapply to_struct_map|unfold reader; read_all; reflexivity].

Lemma Binding_inverse : inverse Binding_to Binding_from.
Proof. struct_inverse Binding_from. Qed.
Lemma FileAccessRecord_inverse : inverse FileAccessRecord_to FileAccessRecord_from.
Proof. struct_inverse FileAccessRecord_from. Qed.
Lemma NetworkAccessRecord_inverse : inverse NetworkAccessRecord_to NetworkAccessRecord_from.
Proof. struct_inverse NetworkAccessRecord_from. Qed.
Lemma SyscallAccessRecord_inverse : inverse SyscallAccessRecord_to SyscallAccessRecord_from.
Proof. struct_inverse SyscallAccessRecord_from. Qed.
Lemma CapabilityAccessRecord_inverse : inverse CapabilityAccessRecord_to CapabilityAccessRecord_from.
Proof. struct_inverse CapabilityAccessRecord_from. Qed.
Lemma SourceContribution_inverse : inverse SourceContribution_to SourceContribution_from.
Proof. struct_inverse SourceContribution_from. Qed.
Lemma Fingerprint_inverse : inverse Fingerprint_to Fingerprint_from.
Proof. struct_inverse Fingerprint_from. Qed.

Lemma Contribution_inverse : inverse Contribution_to Contribution_from.
Proof.
  pose proof SourceContribution_inverse as Hi. intros c j (sources & Hs & Hj)%result_bind_Ok.
  split; [by eapply to_struct_map|]. unfold Contribution_from. read_all. by destruct c.
Qed.

Lemma Marker_inverse : inverse Marker_to Marker_from.
Proof.
  pose proof Fingerprint_inverse as Hi. intros m j (population & Hp & Hj)%result_bind_Ok.
  split; [by eapply to_struct_map|]. unfold Marker_from. read_all. by destruct m.
Qed.

Lemma read_binding fields j b f : to_struct fields = Ok j → names_distinct (map (fun f : field => f.1.1) fields) →
  binding_field b = Ok f → f ∈ fields →
  read_field None (fun v => b ← Binding_from v; Ok (Some b)) "targetBinding" j = Ok b.
Proof.
  intros Hj Hn Hf Hin. destruct b as [b|]; cbn in Hf.
  - apply result_bind_Ok in Hf as (v & Hb & [= <-]). destruct (Binding_inverse b v Hb) as [[fs ->] Hr].
    apply (read_stored _ _ _ _ _ _ _ _ Hj Hn Hin). split; [done|]. by rewrite Hr.
  - injection Hf as <-. by apply (read_stored _ _ _ _ _ _ _ _ Hj Hn Hin).
Qed.

Lemma binding_field_name b f : binding_field b = Ok f → f.1.1 = "targetBinding".
Proof. destruct b; cbn; [intros (j & _ & [= <-])%result_bind_Ok; done|by intros [= <-]]. Qed.

(** A population that is stored is read back. *)
Theorem Population_inverse : inverse Population_to Population_from.
Proof.
  pose proof FileAccessRecord_inverse as Hfi. pose proof NetworkAccessRecord_inverse as Hni.
  pose proof SyscallAccessRecord_inverse as Hsi. pose proof CapabilityAccessRecord_inverse as Hci.
  pose proof Contribution_inverse as Hoi. pose proof Marker_inverse as Hmi.
  intros p j (b & Hb & (fs & Hfs & (ns & Hns & (ss & Hss & (cs & Hcs & (os & Hos & (ms & Hms & Hj)
    %result_bind_Ok)%result_bind_Ok)%result_bind_Ok)%result_bind_Ok)%result_bind_Ok)%result_bind_Ok)%result_bind_Ok.
  split; [by eapply to_struct_map|]. unfold Population_from.
  pose proof (binding_field_name _ _ Hb) as En.
  destruct b as [[name v] omitted]. cbn in En. subst name.
  read_all. erewrite read_binding; [|eassumption|names|eassumption|in_fields]. cbn [mbind result_bind]. read_all.
  by destruct p.
Qed.
End read_back.
End population.
