(* ===== verification/HistoryStore.v ===== *)
(** * internal/history/store.go

    The persistence of training history: the names of the records, the maps a
    record is stored as and read from, and the operations that read, merge and
    save it over the API server interface of [Kube].  The stored form of a
    population is in [HistoryPersisted]. *)
From S2P Require Import Prelude GoStd Identity Digest Json Decimal Policy Target Unstructured K8sApply Kube History HistoryPersisted.
Import Profile History.

(** ** Names *)

(** [path.Base]. *)
Fixpoint base_rev (s acc : string) : string :=
  match s with
  | "" => acc
  | String c s => if bool_decide (c = slash) then acc else base_rev s (String c acc)
  end.
Definition path_base (p : string) : string :=
  if bool_decide (p = "") then "."
  else let stripped := trim_left_byte slash (str_rev p) in
       if bool_decide (stripped = "") then "/" else base_rev stripped "".

Example path_base_ex : map path_base [""; "/"; "///"; "app"; "/bin/app"; "/bin/app//"] = ["."; "/"; "/"; "app"; "app"; "app"].
Proof. reflexivity. Qed.

Definition RecordNameLegacy (container binary : string) : string := container +:+ "-" +:+ path_base binary.

Definition RecordNameV2 (container binary : string) : string :=
  let short := String.substring 0 8 (hex_encode (sha256 (string_bytes binary))) in
  container +:+ "-" +:+ path_base binary +:+ "-" +:+ short.

Definition RecordName : string → string → string := RecordNameLegacy.

Definition RecordNameContainerV2 (identity : PopulationIdentity) : result string :=
  fail_if negb (bool_decide (pi_Scope identity = ScopeContainer))
    with mkError ErrInvalidPopulationIdentity "container record name requires CONTAINER scope";
  fingerprint ← ContainerPopulationFingerprint identity;
  Ok ("container-v2-" +:+ trim_prefix "sha256:" fingerprint).

Definition RecordNameForPopulation (identity : PopulationIdentity) : result string :=
  _ ← PopulationIdentity_Validate identity;
  if bool_decide (pi_Scope identity = ScopeBinary)
  then Ok (RecordNameV2 (pi_Container identity) (pi_BinaryPath identity))
  else RecordNameContainerV2 identity.

(** ** The order of the observation metadata *)

(** [slices.Compact]. *)
Fixpoint compact (l : list string) : list string :=
  match l with
  | x :: ((y :: _) as l') => if bool_decide (x = y) then compact l' else x :: compact l'
  | l => l
  end.

Definition sort_contribution (c : ObservationContribution) : ObservationContribution :=
  mkObservationContribution (oc_ObservationID c) (sort_by (less_on os_Source string_ltb) (oc_Sources c))
    (compact (sort_strings (oc_CapabilityFacts c))) (oc_CapabilityFactsComplete c).

Definition with_metadata (p : Population) (cs : list ObservationContribution) (ms : list ContributionMarker) : Population :=
  mkPopulation (p_Qualified p) (p_Scope p) (p_TargetBinding p) (p_Target p) (p_Container p) (p_ImageIdentity p)
    (p_BinaryPath p) (p_RunsRecorded p) (p_Contributors p) (p_FilesystemAccesses p) (p_NetworkAccesses p)
    (p_SyscallAccesses p) (p_CapabilityAccesses p) cs ms.

Definition sortObservationMetadata (p : Population) : Population :=
  with_metadata p
    (map sort_contribution (sort_by (less_on oc_ObservationID string_ltb) (p_ObservationContributions p)))
    (sort_by (less_on cm_KeyDigest string_ltb) (p_PendingContributionMarkers p)).

#[export] Instance FileAccessRecord_eq_dec : EqDecision FileAccessRecord.
Proof. solve_decision. Defined.
#[export] Instance NetworkAccessRecord_eq_dec : EqDecision NetworkAccessRecord.
Proof. solve_decision. Defined.
#[export] Instance SyscallAccessRecord_eq_dec : EqDecision SyscallAccessRecord.
Proof. solve_decision. Defined.
#[export] Instance CapabilityAccessRecord_eq_dec : EqDecision CapabilityAccessRecord.
Proof. solve_decision. Defined.
#[export] Instance ObservationSourceContribution_eq_dec : EqDecision ObservationSourceContribution.
Proof. solve_decision. Defined.
#[export] Instance ObservationContribution_eq_dec : EqDecision ObservationContribution.
Proof. solve_decision. Defined.
#[export] Instance ContributionMarker_eq_dec : EqDecision ContributionMarker.
Proof. solve_decision. Defined.
#[export] Instance Population_eq_dec : EqDecision Population.
Proof. solve_decision. Defined.

(** ** The stored form *)

Definition file_json (a : FileAccessRecord) : json :=
  obj_of [("path", JStr (fr_Path a)); ("permissions", JArr (map JStr (fr_Permissions a)));
          ("seenInRuns", number (fr_SeenInRuns a))].
Definition network_json (a : NetworkAccessRecord) : json :=
  obj_of [("port", number (nr_Port a)); ("direction", JStr (nr_Direction a)); ("seenInRuns", number (nr_SeenInRuns a))].
Definition syscall_json (a : SyscallAccessRecord) : json :=
  obj_of [("name", JStr (sr_Name a)); ("seenInRuns", number (sr_SeenInRuns a))].
Definition capability_json (a : CapabilityAccessRecord) : json :=
  obj_of [("name", JStr (cr_Name a)); ("seenInRuns", number (cr_SeenInRuns a))].

Definition panic {A} (msg : string) : result A := Err (mkError "panic" msg).

Section stored.
Context `{!StructConverter, !Unstructured}.

Definition population_json (p : Population) : result json :=
  match ValidateObservationMetadata p with
  | Err _ => panic "invalid history observation metadata"
  | Ok _ =>
      match Population_to (sortObservationMetadata p) with
      | Err _ => panic "serializing history population"
      | Ok j => Ok j
      end
  end.

(** The [spec] of [toUnstructured]; a panic is an error of the class [panic]. *)
Definition toUnstructured (record : Record_) : result json :=
  populations ← result_mapM population_json (rec_Populations record);
  Ok (obj_of
    ([("container", JStr (rec_Container record)); ("binary", JStr (rec_Binary record));
      ("runsRecorded", number (rec_RunsRecorded record));
      ("filesystemAccesses", JArr (map file_json (rec_FilesystemAccesses record)));
      ("networkAccesses", JArr (map network_json (rec_NetworkAccesses record)));
      ("syscallAccesses", JArr (map syscall_json (rec_SyscallAccesses record)));
      ("capabilityAccesses", JArr (map capability_json (rec_CapabilityAccesses record)))] ++
     (if 0 <? length populations then [("populations", JArr populations)] else []))).

(** The getters whose error is ignored: the zero value. *)
Definition text (key : string) (j : json) : string := default "" (found (NestedString [key] j)).
Definition integer (key : string) (j : json) : Z := default 0%Z (found (K8sApply.NestedInt64 [key] j)).
Definition items (key : string) (j : json) : list json := default [] (found (NestedSlice [key] j)).
(** [NestedStringSlice]: nothing unless every element is a string. *)
Definition texts (key : string) (j : json) : list string :=
  let l := items key j in
  if forallb is_string l then omap (fun v => match v with JStr s => Some s | _ => None end) l else [].

(** Items that are no maps are skipped. *)
Definition maps_of {A} (read : json → A) (l : list json) : list A :=
  omap (fun item => match item with JObj fs => Some (read (JObj fs)) | _ => None end) l.

Definition file_of (m : json) : FileAccessRecord :=
  mkFileAccessRecord (text "path" m) (texts "permissions" m) (integer "seenInRuns" m).
Definition network_of (m : json) : NetworkAccessRecord :=
  mkNetworkAccessRecord (integer "port" m) (text "direction" m) (integer "seenInRuns" m).
Definition syscall_of (m : json) : SyscallAccessRecord := mkSyscallAccessRecord (text "name" m) (integer "seenInRuns" m).
Definition capability_of (m : json) : CapabilityAccessRecord :=
  mkCapabilityAccessRecord (text "name" m) (integer "seenInRuns" m).

Definition population_of (m : list (string * json)) : result Population :=
  match Population_from (JObj m) with
  | Err e => Err (mkError (err_is e) "decoding TrainingHistory population")
  | Ok p =>
      p ← NormalizeLegacyScope p;
      _ ← ValidateObservationMetadata p;
      Ok (sortObservationMetadata p)
  end.

Fixpoint populations_of (l : list json) : result (list Population) :=
  match l with
  | [] => Ok []
  | JObj m :: l => p ← population_of m; ps ← populations_of l; Ok (p :: ps)
  | _ :: l => populations_of l
  end.

Definition fromUnstructured (spec : json) : result Record_ :=
  populations ← populations_of (items "populations" spec);
  _ ← result_mapM ValidateObservationMetadata populations;
  Ok (mkRecord (text "container" spec) (text "binary" spec) (integer "runsRecorded" spec)
    (maps_of file_of (items "filesystemAccesses" spec)) (maps_of network_of (items "networkAccesses" spec))
    (maps_of syscall_of (items "syscallAccesses" spec)) (maps_of capability_of (items "capabilityAccesses" spec))
    populations).

(** The [TrainingHistory] object; an object without a spec reads as an empty one. *)
Definition TrainingHistory : Type := KObject json unit.
Definition record_of (obj : TrainingHistory) : result Record_ := fromUnstructured (default JNull (o_Spec obj)).
End stored.

(** ** The operations *)

(** [retry.RetryOnConflict] around a body that yields a record. *)
Class Retry (W : Type) := { retry_on_conflict : M W Record_ → M W Record_ }.
Class RetryLaws (W : Type) `{!Retry W} :=
  retry_on_conflict_runs : ∀ f w r w', retry_on_conflict f w = (r, w') → ∃ w1, f w1 = (r, w').

(** [fmt.Errorf] with the verb w keeps what the error is. *)
Definition wrapped (msg : string) (e : error) : error := mkError (err_is e) msg.

Section operations.
Context {W : Type} `{!Api W json unit, !Retry W, !StructConverter, !Unstructured}.

Definition Get (name : string) : M W (option Record_) :=
  m_try (api_get name) (fun obj =>
    match obj with
    | Err e => if IsNotFound e then m_ret None else m_err (wrapped "fetching TrainingHistory" e)
    | Ok obj => record <- m_lift (record_of obj) ;! m_ret (Some record)
    end).

Definition wanted_population (identity : PopulationIdentity) : Population :=
  mkPopulation false (pi_Scope identity) None (pi_Target identity) (pi_Container identity) (pi_ImageIdentity identity)
    (pi_BinaryPath identity) 0 [] [] [] [] [] [] [].

Definition GetPopulation (identity : PopulationIdentity) : M W (option Record_) :=
  name <- m_lift (RecordNameForPopulation identity) ;!
  found <- Get name ;!
  match found with
  | None => m_ret None
  | Some record =>
      if existsb (fun population => PopulationIdentityEqual population (wanted_population identity)) (rec_Populations record)
      then m_ret (Some record)
      else m_err (mkError ErrInvalidPopulationIdentity "TrainingHistory does not contain requested population")
  end.

(** The stored object of the first name that has one. *)
Definition find_history (v2Name legacyName : string) (refused : error → error) : M W (option (string * TrainingHistory)) :=
  m_try (api_get v2Name) (fun objV2 =>
    match objV2 with
    | Ok obj => m_ret (Some (v2Name, obj))
    | Err e =>
        if IsNotFound e then
          m_try (api_get legacyName) (fun objLegacy =>
            match objLegacy with
            | Ok obj => m_ret (Some (legacyName, obj))
            | Err e => if IsNotFound e then m_ret None else m_err (refused e)
            end)
        else m_err (refused e)
    end).

(** The write of a merged record: a creation that lost a race is a conflict, so
    that the whole cycle is run again. *)
Definition write_history (v2Name : string) (existing : option (string * TrainingHistory)) (record : Record_) : M W Record_ :=
  spec <- m_lift (toUnstructured record) ;!
  match existing with
  | None =>
      m_try (api_create (mkObject v2Name "" "" (Some spec) None)) (fun created =>
        match created with
        | Err e => if IsAlreadyExists e then m_err (mkError "Conflict" (err_msg e))
                   else m_err (wrapped "creating TrainingHistory" e)
        | Ok created => m_lift (record_of created)
        end)
  | Some (name, obj) =>
      m_try (api_update (mkObject name "" (o_ResourceVersion obj) (Some spec) None)) (fun updated =>
        match updated with
        | Err e => m_err (wrapped "updating TrainingHistory" e)
        | Ok updated => m_lift (record_of updated)
        end)
  end.

(** One cycle: read, merge into what was read, write. *)
Definition merge_cycle (v2Name legacyName : string) (refused : error → error) (merge : option Record_ → Record_) : M W Record_ :=
  existing <- find_history v2Name legacyName refused ;!
  match existing with
  | None => write_history v2Name None (merge None)
  | Some (name, obj) => old <- m_lift (record_of obj) ;! write_history v2Name existing (merge (Some old))
  end.

Definition SaveWithMerge (name container binary : string) (behavior : BehaviorProfile) : M W Record_ :=
  retry_on_conflict (merge_cycle (RecordNameV2 container binary) (RecordNameLegacy container binary)
    (wrapped "fetching TrainingHistory before update") (fun existing => Merge existing container binary behavior)).

Definition saveWithPopulationMerge (fingerprint : PopulationFingerprint) (subject : string) (behavior : BehaviorProfile)
  (target : option CanonicalTargetBinding) : M W Record_ :=
  retry_on_conflict (merge_cycle (RecordNameV2 (pi_Container fingerprint) (pi_BinaryPath fingerprint))
    (RecordNameLegacy (pi_Container fingerprint) (pi_BinaryPath fingerprint)) (fun e => e)
    (fun existing =>
      match target with
      | None => MergePopulation existing fingerprint subject behavior
      | Some target => MergePopulationWithTarget existing fingerprint subject behavior target
      end)).

Definition SaveWithPopulationMerge (fingerprint : PopulationFingerprint) (subject : string) (behavior : BehaviorProfile)
  : M W Record_ := saveWithPopulationMerge fingerprint subject behavior None.

Definition SaveWithPopulationMergeAndTarget (fingerprint : PopulationFingerprint) (subject : string)
  (behavior : BehaviorProfile) (target : CanonicalTargetBinding) : M W Record_ :=
  match CanonicalTargetBinding_GovernedTarget target (pi_Container fingerprint) with
  | Err e => m_err (wrapped "invalid canonical target binding" e)
  | Ok _ => saveWithPopulationMerge fingerprint subject behavior (Some target)
  end.

(** The snapshot save: the record as given replaces what is stored. *)
Definition Save (name : string) (record : Record_) : M W unit :=
  spec <- m_lift (toUnstructured record) ;!
  m_try (api_get name) (fun existing =>
    match existing with
    | Err e =>
        if IsNotFound e then
          m_try (api_create (mkObject name "" "" (Some spec) None)) (fun r =>
            match r with Ok _ => m_ret () | Err e => m_err (wrapped "creating TrainingHistory" e) end)
        else m_err (wrapped "fetching TrainingHistory before update" e)
    | Ok existing =>
        m_try (api_update (mkObject name "" (o_ResourceVersion existing) (Some spec) None)) (fun r =>
          match r with Ok _ => m_ret () | Err e => m_err (wrapped "updating TrainingHistory" e) end)
    end).

(** The populations up to the wanted one are normalised; it is added when it is
    not there. *)
Fixpoint snapshot_populations (wanted : Population) (l : list Population) : result (list Population) :=
  match l with
  | [] => Ok [wanted]
  | p :: l =>
      p ← NormalizeLegacyScope p;
      if PopulationIdentityEqual p wanted then Ok (p :: l)
      else ps ← snapshot_populations wanted l; Ok (p :: ps)
  end.

Definition with_populations (r : Record_) (ps : list Population) : Record_ :=
  mkRecord (rec_Container r) (rec_Binary r) (rec_RunsRecorded r) (rec_FilesystemAccesses r) (rec_NetworkAccesses r)
    (rec_SyscallAccesses r) (rec_CapabilityAccesses r) ps.

Definition SavePopulationSnapshot (identity : PopulationIdentity) (record : option Record_) : M W unit :=
  do m_lift (PopulationIdentity_Validate identity) ;!
  recordName <- m_lift (RecordNameForPopulation identity) ;!
  match record with
  | None => m_err (mkError ErrInvalidPopulationIdentity "nil TrainingHistory record")
  | Some record =>
      ps <- m_lift (snapshot_populations (wanted_population identity) (rec_Populations record)) ;!
      Save recordName (with_populations record ps)
  end.
End operations.

(** ** What is stored is read back *)
Section round_trip.
Context `{!StructConverter, !StructConverterLaws, !Unstructured, !UnstructuredLaws}.

Lemma nested_obj key fs : NestedField [key] (obj_of fs) = Ok (lookup_field key fs).
Proof. unfold obj_of. rewrite nested_fields, lookup_sort. by destruct (lookup_field key fs). Qed.

Lemma text_obj key fs s : lookup_field key fs = Some (JStr s) → text key (obj_of fs) = s.
Proof. intros E. unfold text, NestedString, typed. by rewrite nested_obj, E. Qed.

Lemma items_obj key fs l : lookup_field key fs = Some (JArr l) → items key (obj_of fs) = l.
Proof. intros E. unfold items, NestedSlice, typed. by rewrite nested_obj, E. Qed.

Lemma items_absent key fs : lookup_field key fs = None → items key (obj_of fs) = [].
Proof. intros E. unfold items, NestedSlice, typed. by rewrite nested_obj, E. Qed.

Lemma integer_obj key fs n : lookup_field key fs = Some (number n) → integer key (obj_of fs) = n.
Proof. intros E. unfold integer, K8sApply.NestedInt64, typed, number in *. rewrite nested_obj, E. cbn. by rewrite int_literal_itoa. Qed.

Lemma texts_obj key fs l : lookup_field key fs = Some (JArr (map JStr l)) → texts key (obj_of fs) = l.
Proof.
  intros E. unfold texts. rewrite (items_obj _ _ _ E). clear E.
  assert (forallb is_string (map JStr l) = true) as -> by (by apply forallb_forall; intros x (y & <- & _)%in_map_iff).
  induction l as [|x l IH]; cbn; [done|]. by f_equal.
Qed.

Lemma file_of_json a : file_of (file_json a) = a.
Proof.
  destruct a as [p perms n]. unfold file_of, file_json. cbn [fr_Path fr_Permissions fr_SeenInRuns].
  by rewrite (text_obj _ _ p), (texts_obj _ _ perms), (integer_obj _ _ n).
Qed.
Lemma network_of_json a : network_of (network_json a) = a.
Proof.
  destruct a as [p d n]. unfold network_of, network_json. cbn [nr_Port nr_Direction nr_SeenInRuns].
  by rewrite (integer_obj _ _ p), (text_obj _ _ d), (integer_obj _ _ n).
Qed.
Lemma syscall_of_json a : syscall_of (syscall_json a) = a.
Proof.
  destruct a as [s n]. unfold syscall_of, syscall_json. cbn [sr_Name sr_SeenInRuns].
  by rewrite (text_obj _ _ s), (integer_obj _ _ n).
Qed.
Lemma capability_of_json a : capability_of (capability_json a) = a.
Proof.
  destruct a as [s n]. unfold capability_of, capability_json. cbn [cr_Name cr_SeenInRuns].
  by rewrite (text_obj _ _ s), (integer_obj _ _ n).
Qed.

Lemma maps_of_json {A} (read : json → A) (write : A → list (string * json)) l :
  (∀ a, read (obj_of (write a)) = a) → maps_of read (map (fun a => obj_of (write a)) l) = l.
Proof. intros Hr. induction l as [|a l IH]; cbn; [done|]. unfold maps_of in IH. rewrite IH. f_equal. apply Hr. Qed.
End round_trip.

(** *** Valid metadata is in canonical order *)
Lemma sort_ascending {A} (f : A → string) l : ascending (map f l) = true → sort_by (less_on f string_ltb) l = l.
Proof.
  intros H. induction l as [|x l IH]; [done|]. cbn [map ascending] in H. destruct l as [|y l]; [done|].
  cbn [map] in H. apply andb_prop in H as [Hxy H]. specialize (IH H). cbn [sort_by] in IH |- *. rewrite IH.
  cbn [insert_by]. unfold less_on at 1. by apply negb_true_iff in Hxy as ->.
Qed.

Lemma canonical_facts_fixed prev l : canonical_facts prev l = true → compact (sort_strings l) = l.
Proof.
  intros Hc. assert (sort_strings l = l) as ->.
  { revert prev Hc. induction l as [|x l IH]; intros prev Hc; [done|]. cbn [canonical_facts] in Hc. bool_simpl.
    cbn [sort_by]. rewrite (IH (Some x)) by done. destruct l as [|y l]; [done|]. cbn [insert_by].
    match goal with H : canonical_facts (Some x) _ = true |- _ => cbn [canonical_facts] in H end. bool_simpl.
    by erewrite less_asym by eassumption. }
  revert prev Hc. induction l as [|x l IH]; intros prev Hc; [done|]. cbn [canonical_facts] in Hc. bool_simpl.
  match goal with H : canonical_facts (Some x) _ = true |- _ => pose proof (IH _ H) as E end.
  destruct l as [|y l]; [done|]. cbn [compact] in E |- *. rewrite E.
  match goal with H : canonical_facts (Some x) _ = true |- _ => cbn [canonical_facts] in H end. bool_simpl.
  rewrite bool_decide_eq_false_2; [done|]. intros ->.
  match goal with H : string_ltb y y = true |- _ => by rewrite string_ltb_irrefl in H end.
Qed.

Lemma valid_metadata_sorted p : ValidateObservationMetadata p = Ok () → sortObservationMetadata p = p.
Proof.
  unfold ValidateObservationMetadata. intros H. apply result_guard_Ok in H as [_ (seen & Hc & H)%result_bind_Ok].
  apply result_bind_Ok in H as (_ & _ & H). apply result_guard_Ok in H as [Ha H]. apply result_guard_Ok in H as [Hs H].
  apply result_guard_Ok in H as [Hm _]. apply negb_false_iff in Ha, Hm.
  unfold sortObservationMetadata. rewrite !sort_ascending by done.
  assert (map sort_contribution (p_ObservationContributions p) = p_ObservationContributions p) as ->;
    [|by destruct p].
  apply validate_contributions_Ok in Hc. clear Ha Hm.
  induction Hc as [|c l Hc Hl IH]; cbn [map]; [done|]. cbn [existsb] in Hs. apply orb_false_iff in Hs as [Hs1 Hs].
  rewrite IH by done. f_equal. unfold ObservationContribution_Validate in Hc.
  apply result_guard_Ok in Hc as [_ (_ & _ & Hc)%result_bind_Ok]. apply result_guard_Ok in Hc as [Hf _].
  unfold sort_contribution. apply negb_false_iff in Hs1, Hf.
  rewrite sort_ascending by done. rewrite (canonical_facts_fixed None) by done. by destruct c.
Qed.

Definition identified (p : Population) : Prop := is_ok (Population_Identity p) = true.

Lemma identified_normal p : identified p → NormalizeLegacyScope p = Ok p.
Proof.
  unfold identified, NormalizeLegacyScope. intros Hi.
  assert (K8s.empty (p_Scope p) = false) as E.
  { apply bool_decide_eq_false_2. intros E. unfold Population_Identity, PopulationIdentity_Validate in Hi.
    cbn in Hi. rewrite E in Hi. by destruct (K8s.empty (p_Target p) || _ || _). }
  rewrite E. cbn [andb]. by destruct (Population_Identity p).
Qed.

Lemma normal_identified p q : NormalizeLegacyScope p = Ok q → identified q.
Proof.
  unfold NormalizeLegacyScope, identified. intros H. apply result_guard_Ok in H as [_ H]. cbv zeta in H.
  apply result_bind_Ok in H as (i & Hi & H). injection H as <-. by rewrite Hi.
Qed.

Section record_round_trip.
Context `{!StructConverter, !Unstructured}.

Lemma population_of_valid m p : population_of m = Ok p → identified p ∧ ValidateObservationMetadata p = Ok ().
Proof.
  unfold population_of. destruct (Population_from (JObj m)) as [q|]; [|done].
  intros (n & Hn & (u & Hv & HR)%result_bind_Ok)%result_bind_Ok. destruct u. injection HR as <-.
  rewrite (valid_metadata_sorted n Hv). split; [by eapply normal_identified|done].
Qed.

Lemma populations_of_valid l ps :
  populations_of l = Ok ps → Forall (fun p => identified p ∧ ValidateObservationMetadata p = Ok ()) ps.
Proof.
  revert ps. induction l as [|x l IH]; intros ps HR; cbn in HR; [injection HR as <-; constructor|].
  destruct x; try by apply IH. apply result_bind_Ok in HR as (p & Hp & (qs & Hqs & HR)%result_bind_Ok).
  injection HR as <-. constructor; [by eapply population_of_valid|by apply IH].
Qed.

Lemma read_populations spec r : fromUnstructured spec = Ok r →
  Forall (fun p => identified p ∧ ValidateObservationMetadata p = Ok ()) (rec_Populations r).
Proof.
  unfold fromUnstructured. intros (ps & Hps & (u & _ & HR)%result_bind_Ok)%result_bind_Ok. injection HR as <-.
  by eapply populations_of_valid.
Qed.

Context `{!StructConverterLaws, !UnstructuredLaws}.

Lemma population_json_of p j : identified p → population_json p = Ok j → ∃ m, j = JObj m ∧ population_of m = Ok p.
Proof.
  unfold population_json. intros Hi HR. destruct (ValidateObservationMetadata p) as [[]|] eqn:Ev; [|done].
  rewrite valid_metadata_sorted in HR by done. destruct (Population_to p) as [j'|] eqn:E; [|done]. injection HR as <-.
  destruct (Population_inverse _ _ E) as [[m ->] Hm]. exists m. split; [done|]. unfold population_of. rewrite Hm.
  rewrite (identified_normal p) by done. cbn. rewrite Ev. cbn. by rewrite valid_metadata_sorted.
Qed.

Lemma populations_of_json ps js :
  Forall identified ps → result_mapM population_json ps = Ok js →
  populations_of js = Ok ps ∧ result_mapM ValidateObservationMetadata ps = Ok (map (fun _ => ()) ps).
Proof.
  intros Hi. revert js. induction Hi as [|p ps Hp Hi IH]; intros js HR; cbn in HR; [by injection HR as <-|].
  apply result_bind_Ok in HR as (j & Hj & (k & Hk & HR)%result_bind_Ok). injection HR as <-.
  destruct (population_json_of _ _ Hp Hj) as (m & -> & Hm), (IH k Hk) as [E1 E2]. cbn. rewrite Hm, E1. cbn.
  split; [done|]. apply population_of_valid in Hm as [_ ->]. cbn. by rewrite E2.
Qed.

Lemma record_round_trip record j :
  Forall identified (rec_Populations record) → toUnstructured record = Ok j → fromUnstructured j = Ok record.
Proof.
  intros Hi (js & Hjs & HR)%result_bind_Ok. injection HR as <-.
  destruct (populations_of_json _ _ Hi Hjs) as [E1 E2].
  destruct record as [c b n fs ns ss cs ps]. cbn [rec_Container rec_Binary rec_RunsRecorded rec_FilesystemAccesses
    rec_NetworkAccesses rec_SyscallAccesses rec_CapabilityAccesses rec_Populations] in *.
  unfold fromUnstructured.
  match goal with |- context [items "populations" ?o] => assert (items "populations" o = js) as -> end.
  { destruct js as [|j js]; [by apply items_absent|by apply items_obj]. }
  rewrite E1. cbn [mbind result_bind]. rewrite E2. cbn [mbind result_bind].
  rewrite (text_obj _ _ c), (text_obj _ _ b), (integer_obj _ _ n), (items_obj _ _ (map file_json fs)),
    (items_obj _ _ (map network_json ns)), (items_obj _ _ (map syscall_json ss)),
    (items_obj _ _ (map capability_json cs)) by reflexivity.
  do 2 f_equal; unfold file_json, network_json, syscall_json, capability_json; apply maps_of_json;
    [apply file_of_json|apply network_of_json|apply syscall_of_json|apply capability_of_json].
Qed.
End record_round_trip.

(** C33: A record of training history that is stored is read back unchanged: names,
    counts, the accesses of every kind with their permissions, and the
    populations, field by field, with their binding, contributions and markers,
    provided each population has a valid identity.  Of the libraries only the
    treatment of one map or struct is assumed ([UnstructuredLaws],
    [StructConverterLaws]). *)
Theorem history_round_trip `{!StructConverter, !StructConverterLaws, !Unstructured, !UnstructuredLaws} record j :
  Forall identified (rec_Populations record) → toUnstructured record = Ok j → fromUnstructured j = Ok record.
Proof. apply record_round_trip. Qed.

(** *** A record, stored and read *)
Definition ex_summary : ObservationSourceContribution :=
  mkObservationSourceContribution "capabilities" "AVAILABLE" "COMPLETED" true true true 1 0 1.
Definition ex_stored_population : Population :=
  mkPopulation true ScopeContainer (Some (mkCanonicalTargetBinding "default" "apps" "Deployment" "web"))
    "Deployment/web" "app" "sha256:00" "" 0 ["Pod/web-0"]
    [mkFileAccessRecord "/etc" [PermissionRead] 2] [mkNetworkAccessRecord 443 DirectionEgress 0] []
    [mkCapabilityAccessRecord "CAP_KILL" 0]
    [mkObservationContribution "obs-1" [ex_summary] ["CAP_KILL"] true] [].

Definition ex_stored_record : Record_ :=
  mkRecord "app" "/bin/app" 3 [mkFileAccessRecord "/var" [PermissionRead; PermissionWrite] 3] []
    [mkSyscallAccessRecord "read" 3] [] [ex_stored_population].

Lemma history_round_trip_witness :
  ∃ j, toUnstructured ex_stored_record = Ok j ∧ fromUnstructured j = Ok ex_stored_record.
Proof.
  destruct (toUnstructured ex_stored_record) as [j|] eqn:E; [|vm_compute in E; discriminate].
  exists j. split; [reflexivity|].
  apply (@history_round_trip _ tag_converter_laws _ std_unstructured_laws ex_stored_record j); [|exact E].
  repeat constructor.
Defined.

(** ** A merge is committed against what is stored *)
Lemma Merge_populations existing container binary behavior :
  rec_Populations (Merge existing container binary behavior) = match existing with Some r => rec_Populations r | None => [] end.
Proof. by destruct existing. Qed.

Section atomic.
Context {W : Type} `{!Api W json unit, !ApiLaws W json unit, !Retry W, !RetryLaws W, !StructConverter, !Unstructured}.

(** The record [rec] was decoded from an object that a creation wrote for
    [merge None], or that an update wrote for [merge (Some old)] over the object
    whose content is [old] in the very world of the update. *)
Definition committed_merge (v2 legacy : string) (merge : option Record_ → Record_) (rec : Record_) (w' : W) : Prop :=
  ∃ w0 old spec stored, toUnstructured (merge old) = Ok spec ∧ o_Spec stored = Some spec ∧ record_of stored = Ok rec ∧
    match old with
    | None => o_Name stored = v2 ∧ api_create (mkObject v2 "" "" (Some spec) None) w0 = (Ok stored, w')
    | Some r => ∃ cur, (o_Name cur = v2 ∨ o_Name cur = legacy) ∧ look w0 (o_Name cur) = Some cur ∧ record_of cur = Ok r ∧
        look w' (o_Name cur) = Some stored ∧ o_UID stored = o_UID cur
    end.

Lemma find_history_seen v2 legacy refused w n obj w' :
  find_history v2 legacy refused w = (Ok (Some (n, obj)), w') →
  seen w' obj ∧ o_Name obj = n ∧ o_ResourceVersion obj ≠ "" ∧ (n = v2 ∨ n = legacy).
Proof.
  unfold find_history, m_try. destruct (api_get v2 w) as [[o|e] w1] eqn:E1.
  - intros [= <- <- <-]. apply get_seen in E1 as (? & ? & ?). auto.
  - destruct (IsNotFound e); [|done]. destruct (api_get legacy w1) as [[o|e'] w2] eqn:E2.
    + intros [= <- <- <-]. apply get_seen in E2 as (? & ? & ?). auto.
    + by destruct (IsNotFound e').
Qed.

Lemma write_created v2 record w rec w' :
  write_history v2 None record w = (Ok rec, w') →
  ∃ spec stored, toUnstructured record = Ok spec ∧ o_Spec stored = Some spec ∧ record_of stored = Ok rec ∧
    o_Name stored = v2 ∧ api_create (mkObject v2 "" "" (Some spec) None) w = (Ok stored, w').
Proof.
  unfold write_history. intros (spec & w1 & [Hs ->]%m_lift_Ok & HC)%m_bind_Ok. unfold m_try in HC.
  destruct (api_create _ w) as [[o|e] w2] eqn:E; [|by destruct (IsAlreadyExists e)].
  apply m_lift_Ok in HC as [Hr ->]. pose proof (create_commits _ _ _ _ E) as (_ & _ & _ & Hn & _ & Hspec). eauto 10.
Qed.

Lemma write_updated v2 n obj record w rec w' :
  seen w obj → o_Name obj = n → o_ResourceVersion obj ≠ "" →
  write_history v2 (Some (n, obj)) record w = (Ok rec, w') →
  ∃ spec stored, toUnstructured record = Ok spec ∧ o_Spec stored = Some spec ∧ record_of stored = Ok rec ∧
    look w n = Some obj ∧ look w' n = Some stored ∧ o_UID stored = o_UID obj.
Proof.
  intros Hseen Hn Hrv. unfold write_history. intros (spec & w1 & [Hs ->]%m_lift_Ok & HC)%m_bind_Ok. unfold m_try in HC.
  destruct (api_update _ w) as [[o|e] w2] eqn:E; [|done].
  apply m_lift_Ok in HC as [Hr ->]. apply update_commits in E as (cur & Hl & Hv & Hl' & Hu & Hspec & _); [|done]. cbn in *.
  assert (cur = obj) as -> by (eapply seen_version; [exact Hseen|by rewrite Hn|done]). eauto 10.
Qed.

Lemma merge_cycle_commits v2 legacy refused merge w rec w' :
  merge_cycle v2 legacy refused merge w = (Ok rec, w') → committed_merge v2 legacy merge rec w'.
Proof.
  unfold merge_cycle. intros (existing & w1 & Hf & HC)%m_bind_Ok. destruct existing as [[n obj]|].
  - apply m_bind_Ok in HC as (old & w2 & [Hold ->]%m_lift_Ok & HC).
    apply find_history_seen in Hf as (Hseen & Hn & Hrv & Hname).
    apply write_updated in HC as (spec & stored & Hs & Hsp & Hr & Hl & Hl' & Hu); [|done..].
    exists w1, (Some old), spec, stored. split; [done|]. split; [done|]. split; [done|]. exists obj. by rewrite Hn.
  - apply write_created in HC as (spec & stored & Hs & Hsp & Hr & Hn & Hc).
    exists w1, None, spec, stored. done.
Qed.

Context `{!StructConverterLaws, !UnstructuredLaws}.

End atomic.

(** *** A concrete retry, of five rounds *)
Fixpoint retry_rounds {W} (n : nat) (f : M W Record_) : M W Record_ := fun w =>
  match n with
  | 0 => f w
  | S k => match f w with (Err e, w') => if IsConflict e then retry_rounds k f w' else (Err e, w') | r => r end
  end.
#[export] Instance five_rounds W : Retry W := {| retry_on_conflict := retry_rounds 4 |}.
#[export] Instance five_rounds_laws W : RetryLaws W.
Proof.
  intros f w r w' HR. change (retry_rounds 4 f w = (r, w')) in HR. revert w HR. generalize 4.
  induction n as [|n IH]; intros w; cbn; [by exists w|].
  destruct (f w) as [[u|e] w1] eqn:E; [intros [= <- <-]; by exists w|].
  destruct (IsConflict e); [by apply IH|]. intros [= <- <-]. by exists w.
Qed.

(** The first run creates the record, the second one updates it. *)
Definition ex_first : result Record_ * cluster json unit :=
  Eval vm_compute in SaveWithMerge "h" "app" "/bin/app" (ex_run ["/etc"]) (mkCluster ∅ 1 0).

