(* ===== verification/Contribution.v ===== *)
(** * internal/history: contributions of observations

    contribution.go and observation_contribution.go without their calls: the
    normal form of a contribution, its digest, its effect on the facts of a
    population, and the contribution an Observation makes.  The protocol that
    applies one is in [ContributionStore]. *)
From S2P Require Import Prelude GoStd Identity Digest Json Decimal Policy Target Kube ObservationDomain History HistoryPersisted HistoryStore Reconciliation ReconciliationAttention.
Import Profile History.

Definition maxContributionFacts : nat := 256.
Definition ErrContributionContentMismatch : string := "contribution content mismatch".
Definition ErrAuditProvenanceCapacity : string := "audit provenance capacity exceeded".
Definition ErrContributionMarkerCapacity : string := "contribution marker capacity exceeded".

Record Contribution := mkContribution {
  c_ObservationID : string; c_Population : PopulationFingerprint;
  c_Filesystem : list FileAccess; c_NetworkConnect : list NetworkAccess; c_NetworkBind : list NetworkAccess;
  c_Capabilities : list CapabilityAccess; c_Sources : list ObservationSourceContribution }.

(** ** The normal form *)

(** The map by key of the loop, listed in the order of the keys: where the
    source iterates over a Go map before it sorts, the keys are distinct. *)
Definition dedup_facts {A K} `{Countable K} (key : A → K) (join : A → A → A) (less : A → A → bool) (values : list A) : list A :=
  let byKey := foldl (fun m value => <[key value := match m !! key value with Some old => join old value | None => value end]> m)
                 (∅ : gmap K A) values in
  sort_by less (map snd (map_to_list byKey)).

Definition with_permissions (a : FileAccess) (ps : list FilePermission) : FileAccess :=
  mkFileAccess (fa_Path a) ps (fa_Confidence a) (fa_SeenCount a).

Definition dedupFileFacts : list FileAccess → list FileAccess :=
  dedup_facts fa_Path (fun old value => with_permissions old (mergePermissions (fa_Permissions old) (fa_Permissions value)))
    (less_on fa_Path string_ltb).

Definition less_network (a b : NetworkAccess) : bool :=
  if negb (na_Port a =? na_Port b)%Z then (na_Port a <? na_Port b)%Z else string_ltb (na_Direction a) (na_Direction b).
Definition dedupNetworkFacts : list NetworkAccess → list NetworkAccess :=
  dedup_facts net_key (fun _ value => value) less_network.

Definition dedupCapabilityFacts : list CapabilityAccess → list CapabilityAccess :=
  dedup_facts ca_Name (fun _ value => value) (less_on ca_Name string_ltb).

Definition bare_file (a : FileAccess) : FileAccess := mkFileAccess (fa_Path a) (fa_Permissions a) "" 0.
Definition bare_network (a : NetworkAccess) : NetworkAccess := mkNetworkAccess (na_Port a) (na_Direction a) "" 0.
Definition bare_capability (a : CapabilityAccess) : CapabilityAccess := mkCapabilityAccess (ca_Name a) "" 0.

Definition fact_count (c : Contribution) : nat :=
  length (c_Filesystem c) + length (c_NetworkConnect c) + length (c_NetworkBind c) + length (c_Capabilities c).

Fixpoint validate_sources (l : list ObservationSourceContribution) : result unit :=
  match l with
  | [] => Ok ()
  | source :: l => _ ← ObservationSourceContribution_Validate source; validate_sources l
  end.

Fixpoint has_duplicate (seen : list string) (l : list ObservationSourceContribution) : bool :=
  match l with
  | [] => false
  | source :: l => bool_decide (os_Source source ∈ seen) || has_duplicate (os_Source source :: seen) l
  end.

(** [normalize]: the result has the deduplicated lists in the place of the
    embedded ones, which they shadow. *)
Definition normalize (c : Contribution) : result Contribution :=
  fail_if empty (c_ObservationID c) || (maxObservationID <? String.length (c_ObservationID c)) ||
          negb (is_ok (normalized (c_Population c)))
    with mkError ErrInvalidContribution "invalid contribution identity";
  population ← normalized (c_Population c);
  fail_if maxContributionFacts <? fact_count c with mkError ErrInvalidContribution "fact bound exceeded";
  _ ← validate_sources (c_Sources c);
  fail_if (length (c_Sources c) =? 0) || (maxContributionSourceSummaries <? length (c_Sources c))
    with mkError ErrInvalidContribution "source bound exceeded";
  fail_if has_duplicate [] (c_Sources c) with mkError ErrInvalidContribution "duplicate source summary";
  fail_if existsb (fun a => negb (bool_decide (na_Direction a = DirectionEgress))) (c_NetworkConnect c)
    with mkError ErrInvalidContribution "network connect direction";
  fail_if existsb (fun a => negb (bool_decide (na_Direction a = DirectionIngress))) (c_NetworkBind c)
    with mkError ErrInvalidContribution "network bind direction";
  let n := mkContribution (c_ObservationID c) population
    (dedupFileFacts (map bare_file (c_Filesystem c))) (dedupNetworkFacts (map bare_network (c_NetworkConnect c)))
    (dedupNetworkFacts (map bare_network (c_NetworkBind c))) (dedupCapabilityFacts (map bare_capability (c_Capabilities c)))
    (sort_by (less_on os_Source string_ltb) (c_Sources c)) in
  fail_if maxContributionFacts <? fact_count n with mkError ErrInvalidContribution "fact bound exceeded";
  Ok n.

(** ** The content digest *)
Definition print_bool (b : bool) : string := if b then "true" else "false".

Definition file_fields (a : FileAccess) : list string := fa_Path a :: mergePermissions [] (fa_Permissions a).
Definition network_fields (a : NetworkAccess) : list string := [itoa (na_Port a); na_Direction a].
Definition source_fields (s : ObservationSourceContribution) : list string :=
  [os_Source s; os_EvidenceState s; os_AttributionState s; print_bool (os_BackendHealthy s);
   print_bool (os_AttachedForWindow s); print_bool (os_FlushConfirmed s); itoa (os_AttributedCount s);
   itoa (os_ExcludedCount s); itoa (os_NormalizedFactCount s)].

Definition fact_fields (c : Contribution) : list string :=
  ["filesystem"] ++ flat_map file_fields (c_Filesystem c) ++
  ["networkConnect"] ++ flat_map network_fields (c_NetworkConnect c) ++
  ["networkBind"] ++ flat_map network_fields (c_NetworkBind c) ++
  ["capabilities"] ++ map ca_Name (c_Capabilities c) ++ flat_map source_fields (c_Sources c).

Definition content_fields (c : Contribution) : list string :=
  key_fields (c_ObservationID c) (c_Population c) ++ fact_fields c.

Definition contentDigest (c : Contribution) : result string :=
  body ← put_all put_string (content_fields c);
  Ok (hex_encode (sha256 (string_bytes ("observation-contribution-v1" +:+ body)))).

Definition ContributionDigest (c : Contribution) : result string := n ← normalize c; contentDigest n.

(** ** The effect on the facts of a population *)

(** The search loops: the first record of the key is changed, or one is added. *)
Fixpoint upsert {A R K} `{EqDecision K} (key_of : A → K) (key : R → K) (bump : A → R → R) (fresh : A → R) (a : A) (l : list R) : list R :=
  match l with
  | [] => [fresh a]
  | r :: l => if bool_decide (key r = key_of a) then bump a r :: l else r :: upsert key_of key bump fresh a l
  end.

Definition addFileFact : FileAccess → list FileAccessRecord → list FileAccessRecord :=
  upsert fa_Path fr_Path
    (fun value r => mkFileAccessRecord (fr_Path r) (mergePermissions (fr_Permissions r) (fa_Permissions value)) (fr_SeenInRuns r))
    (fun value => mkFileAccessRecord (fa_Path value) (mergePermissions [] (fa_Permissions value)) 0).
Definition addNetworkFact : NetworkAccess → list NetworkAccessRecord → list NetworkAccessRecord :=
  upsert net_key net_record_key (fun _ r => r) (fun value => mkNetworkAccessRecord (na_Port value) (na_Direction value) 0).
Definition addCapabilityFact : CapabilityAccess → list CapabilityAccessRecord → list CapabilityAccessRecord :=
  upsert ca_Name cr_Name (fun _ r => r) (fun value => mkCapabilityAccessRecord (ca_Name value) 0).

Definition add_all {A R} (add : A → list R → list R) (values : list A) (l : list R) : list R :=
  foldl (fun l value => add value l) l values.

Definition addContributionFacts (pop : Population) (c : Contribution) : Population :=
  mkPopulation (p_Qualified pop) (p_Scope pop) (p_TargetBinding pop) (p_Target pop) (p_Container pop)
    (p_ImageIdentity pop) (p_BinaryPath pop) (p_RunsRecorded pop) (p_Contributors pop)
    (sort_by (less_on fr_Path string_ltb) (add_all addFileFact (c_Filesystem c) (p_FilesystemAccesses pop)))
    (sort_by less_net_record
       (add_all addNetworkFact (c_NetworkBind c) (add_all addNetworkFact (c_NetworkConnect c) (p_NetworkAccesses pop))))
    (p_SyscallAccesses pop)
    (sort_by (less_on cr_Name string_ltb) (add_all addCapabilityFact (c_Capabilities c) (p_CapabilityAccesses pop)))
    (p_ObservationContributions pop) (p_PendingContributionMarkers pop).

(** ** The contribution of an Observation *)
Definition ErrObservationNotEligible : string := "observation is not eligible for contribution".
Definition not_eligible {A} (msg : string) : result A := Err (mkError ErrObservationNotEligible msg).
Definition eligible {A} (o : option A) (msg : string) : result A := match o with Some a => Ok a | None => not_eligible msg end.

(** The loops over the image revisions are those of the environment subject of
    an observation, with an error in the place of the negative answer. *)
Definition containerPopulationFromObservation (observation : Observation) : result PopulationIdentity :=
  let binding := o_binding observation in
  match rts_items (ob_ResolvedTargets binding) with
  | [target] =>
      fail_if negb (RuntimeContainerInstance_Valid target)
        with mkError ErrObservationNotEligible "Observation must have exactly one valid bound runtime target";
      let slot := ri_Slot target in
      fail_if negb (bool_decide (slot = rt_Slot (os_Target (o_spec observation))))
        with mkError ErrObservationNotEligible "resolved target differs from requested target";
      let governed := slot_target slot in
      fail_if empty (LegacyString governed)
        with mkError ErrObservationNotEligible "bound target has no canonical identity";
      image ← eligible (revision_image slot "" (ob_ImageRevisions binding)) "invalid or conflicting bound image identity";
      image ← eligible (instance_image slot image (ri_ImageRevision target)) "runtime and binding image identities differ";
      fail_if empty image with mkError ErrObservationNotEligible "immutable bound image identity is missing";
      let identity := mkPopulationIdentity ScopeContainer (LegacyString governed) (s_Container slot) image "" in
      _ ← PopulationIdentity_Validate identity; Ok identity
  | _ => not_eligible "Observation must have exactly one valid bound runtime target"
  end.

Definition maxInt64Count : Z := 9223372036854775807.
Definition checkedInt64Count (value : Z) : result Z :=
  fail_if (maxInt64Count <? value)%Z with mkError "" "count exceeds int64"; Ok value.

Definition validObservationContributionSource : string → bool := validSource.

Definition source_contribution (source : SourceResult) : result ObservationSourceContribution :=
  fail_if negb (validObservationContributionSource (es_Name (sr_Source source)))
    with mkError ErrObservationNotEligible "unsupported Observation source";
  let q := sr_Qualification source in
  match checkedInt64Count (AttributedCount q) with
  | Err _ => not_eligible "attributed count exceeds persisted range"
  | Ok attributed =>
      match checkedInt64Count (ExcludedCount q) with
      | Err _ => not_eligible "excluded count exceeds persisted range"
      | Ok excluded =>
          Ok (mkObservationSourceContribution (es_Name (sr_Source source)) (sr_Evidence source) (Attribution q)
                (BackendHealthConfirmed q) (SourceAttachedForBoundWindow q) (FlushConfirmed q) attributed excluded
                (Z.of_nat (Count (sr_Facts source))))
      end
  end.

Definition network_access (f : NetworkFact) : NetworkAccess := mkNetworkAccess (nf_Port f) (nf_Direction f) "" 0.

(** The round of the loop over the sources: exec facts are provenance only. *)
Definition add_source (c : Contribution) (source : SourceResult) : result Contribution :=
  summary ← source_contribution source;
  let facts := sr_Facts source in
  let name := es_Name (sr_Source source) in
  Ok (mkContribution (c_ObservationID c) (c_Population c)
    (c_Filesystem c ++ (if bool_decide (name = "filesystem")
       then map (fun f => mkFileAccess (ff_Path f) (ff_Permissions f) "" 0) (f_Filesystem facts) else []))
    (c_NetworkConnect c ++ (if bool_decide (name = "networkConnect") then map network_access (f_NetworkConnect facts) else []))
    (c_NetworkBind c ++ (if bool_decide (name = "networkBind") then map network_access (f_NetworkBind facts) else []))
    (c_Capabilities c ++ (if bool_decide (name = "capabilities")
       then map (fun f => mkCapabilityAccess (cf_Name f) "" 0) (f_Capabilities facts) else []))
    (c_Sources c ++ [summary])).

Fixpoint add_sources (c : Contribution) (l : list SourceResult) : result Contribution :=
  match l with
  | [] => Ok c
  | source :: l => c ← add_source c source; add_sources c l
  end.

Definition ContributionFromObservation (observation : Observation) : result Contribution :=
  fail_if negb (o_frozen observation) || negb (bool_decide (ex_State (o_execution observation) = ExecutionCompleted)) ||
          empty (ex_Completion (o_execution observation))
    with mkError ErrObservationNotEligible "observation must be frozen and COMPLETED";
  population ← containerPopulationFromObservation observation;
  let results := ObservationDomain.sources (o_result observation) in
  fail_if length results =? 0 with mkError ErrObservationNotEligible "completed observation has no source results";
  c ← add_sources (mkContribution (o_id observation)
        (mkPopulationIdentity (pi_Scope population) (pi_Target population) (pi_Container population)
           (pi_ImageIdentity population) "") [] [] [] [] []) results;
  let c := mkContribution (c_ObservationID c) (c_Population c) (c_Filesystem c) (c_NetworkConnect c) (c_NetworkBind c)
    (c_Capabilities c) (sort_by (less_on os_Source string_ltb) (c_Sources c)) in
  _ ← normalize c;
  Ok c.

(** ** Deduplication *)
Section dedup.
Context {A K : Type} `{Countable K} (key : A → K) (join : A → A → A).
Hypothesis key_join : ∀ a b, key a = key b → key (join a b) = key b.

Definition dedup_step (m : gmap K A) (value : A) : gmap K A :=
  <[key value := match m !! key value with Some old => join old value | None => value end]> m.

Definition keyed (m : gmap K A) : Prop := ∀ k a, m !! k = Some a → key a = k.

Lemma dedup_step_keyed m value : keyed m → keyed (dedup_step m value).
Proof.
  intros Hm k a. unfold dedup_step. destruct (decide (key value = k)) as [<-|Hk].
  - rewrite lookup_insert_eq. intros [= <-]. destruct (m !! key value) as [old|] eqn:E; [|done].
    apply key_join. by apply Hm.
  - rewrite lookup_insert_ne by done. apply Hm.
Qed.

Lemma dedup_fold_keyed l : ∀ m, keyed m → keyed (foldl dedup_step m l).
Proof. induction l as [|a l IH]; intros m Hm; [done|]. by apply IH, dedup_step_keyed. Qed.

Lemma keyed_values m : keyed m → map key (map snd (map_to_list m)) = map fst (map_to_list m).
Proof.
  intros Hm. rewrite map_map. apply map_ext_in. intros [k a] Hin%list_elem_of_In. apply elem_of_map_to_list in Hin. by apply Hm.
Qed.

Lemma elem_of_values m a : keyed m → a ∈ map snd (map_to_list m) ↔ m !! key a = Some a.
Proof.
  intros Hm. rewrite list_elem_of_fmap. split.
  - intros ([k b] & -> & Hin%elem_of_map_to_list). cbn. by rewrite (Hm k b Hin).
  - intros Hl. exists (key a, a). split; [done|]. by apply elem_of_map_to_list.
Qed.

Lemma dedup_facts_values less l a :
  a ∈ dedup_facts key join less l ↔ foldl dedup_step ∅ l !! key a = Some a.
Proof. unfold dedup_facts. rewrite elem_of_sort_by. apply elem_of_values. by apply dedup_fold_keyed. Qed.

Lemma dedup_facts_NoDup less l : NoDup (map key (dedup_facts key join less l)).
Proof.
  unfold dedup_facts. change (map ?f ?x) with (f <$> x). rewrite (sort_by_perm less). change (?f <$> ?x) with (map f x).
  rewrite keyed_values by by apply dedup_fold_keyed. apply NoDup_fst_map_to_list.
Qed.

(** The value of a key joins the facts that have it, in order. *)
Lemma dedup_fold_lookup l : ∀ m k,
  foldl dedup_step m l !! k =
    foldl (fun o a => match o with Some old => Some (join old a) | None => Some a end) (m !! k)
      (List.filter (fun a => bool_decide (key a = k)) l).
Proof.
  induction l as [|a l IH]; intros m k; cbn; [done|]. rewrite IH. unfold dedup_step. case_bool_decide as E; cbn.
  - subst k. rewrite lookup_insert_eq. by destruct (m !! key a).
  - by rewrite lookup_insert_ne.
Qed.

Lemma dedup_facts_keys less l k : (∃ a, a ∈ dedup_facts key join less l ∧ key a = k) ↔ k ∈ map key l.
Proof.
  assert (∀ o (xs : list A), is_Some (foldl (fun o a => match o with Some old => Some (join old a) | None => Some a end) o xs)
    ↔ is_Some o ∨ xs ≠ []) as Hsome.
  { intros o xs. revert o. induction xs as [|x xs IH]; intros o; cbn.
    - split; [by left|]. by intros [?|?].
    - rewrite IH. split; [by right|]. intros _. left. by destruct o. }
  assert (is_Some (foldl dedup_step ∅ l !! k) ↔ k ∈ map key l) as <-.
  { rewrite dedup_fold_lookup, Hsome, lookup_empty, list_elem_of_fmap. split.
    - intros [[? ?]|Hne]; [done|]. destruct (List.filter _ l) as [|a xs] eqn:E; [done|].
      assert (a ∈ List.filter (fun a => bool_decide (key a = k)) l) as Ha by (rewrite E; left).
      apply list_elem_of_In, filter_In in Ha as [Ha Hk]. apply bool_decide_eq_true in Hk. exists a. split; [done|].
      by apply list_elem_of_In.
    - intros (a & -> & Ha). right. intros E. assert (a ∈ List.filter (fun b => bool_decide (key b = key a)) l) as Hin.
      { apply list_elem_of_In, filter_In. split; [by apply list_elem_of_In|by apply bool_decide_eq_true]. }
      rewrite E in Hin. by apply elem_of_nil in Hin. }
  split.
  - intros (a & Ha & <-). apply dedup_facts_values in Ha. by exists a.
  - intros [a Ha]. pose proof (dedup_fold_keyed l ∅ ltac:(intros ? ? ?%lookup_empty_Some; done) k a Ha) as Hk. exists a.
    split; [|done]. apply dedup_facts_values. by rewrite Hk.
Qed.

End dedup.

Lemma map_sort_by {A B} (f : A → B) (less : A → A → bool) (less' : B → B → bool) l :
  (∀ x y, less' (f x) (f y) = less x y) → map f (sort_by less l) = sort_by less' (map f l).
Proof.
  intros Hf. assert (∀ x k, map f (insert_by less x k) = insert_by less' (f x) (map f k)) as Hi.
  { intros x k. induction k as [|y k IH]; cbn; [done|]. rewrite Hf. destruct (less y x); cbn; congruence. }
  induction l as [|x l IH]; cbn [sort_by map]; [done|]. by rewrite Hi, IH.
Qed.

Lemma mergePermissions_ext ps qs ps' qs' :
  (∀ p, known_permission p → (p ∈ ps ∨ p ∈ qs) ↔ (p ∈ ps' ∨ p ∈ qs')) → mergePermissions ps qs = mergePermissions ps' qs'.
Proof.
  intros He. unfold mergePermissions. apply filter_ext_in. intros p Hp%list_elem_of_In.
  apply eq_bool_prop_intro. rewrite !Is_true_true, !orb_true_iff, !bool_decide_eq_true. apply He.
  unfold known_permission. exact Hp.
Qed.

(** *** The canonical files *)
Definition file_content (a : FileAccess) : string * list FilePermission := (fa_Path a, mergePermissions [] (fa_Permissions a)).

Definition join_files (old value : FileAccess) : FileAccess :=
  with_permissions old (mergePermissions (fa_Permissions old) (fa_Permissions value)).

Definition grants (l : list FileAccess) (path : string) (p : FilePermission) : Prop :=
  ∃ a, a ∈ l ∧ fa_Path a = path ∧ p ∈ fa_Permissions a.

Lemma join_files_perms xs : ∀ o a p, known_permission p →
  foldl (fun o a => match o with Some old => Some (join_files old a) | None => Some a end) o xs = Some a →
  p ∈ fa_Permissions a ↔ (∃ b, o = Some b ∧ p ∈ fa_Permissions b) ∨ ∃ x, x ∈ xs ∧ p ∈ fa_Permissions x.
Proof.
  induction xs as [|x xs IH]; intros o a p Hp; cbn.
  - intros ->. split; [by left; eauto|]. intros [(b & [= <-] & Hb)|(x & Hx & _)]; [done|by apply elem_of_nil in Hx].
  - intros E. rewrite (IH _ _ p Hp E). destruct o as [old|].
    + split.
      * intros [(b & [= <-] & Hb)|(y & Hy & Hq)].
        -- cbn in Hb. apply elem_of_mergePermissions in Hb as [Hb|Hb]; [left; eauto|right; exists x; split; [left|done]|done].
        -- right. exists y. split; [by right|done].
      * intros [(b & [= <-] & Hb)|(y & [->|Hy]%elem_of_cons & Hq)].
        -- left. eexists. split; [done|]. cbn. apply elem_of_mergePermissions; auto.
        -- left. eexists. split; [done|]. cbn. apply elem_of_mergePermissions; auto.
        -- right. eauto.
    + split.
      * intros [(b & [= <-] & Hb)|(y & Hy & Hq)]; right; [exists x; split; [left|done]|exists y; split; [by right|done]].
      * intros [(b & ? & _)|(y & [->|Hy]%elem_of_cons & Hq)]; [done|left; eauto|right; eauto].
Qed.

Lemma dedup_files_elem l k ps :
  (k, ps) ∈ map file_content (dedupFileFacts l) ↔
  k ∈ map fa_Path l ∧ ps = List.filter (fun p => existsb (fun a => bool_decide (fa_Path a = k) && bool_decide (p ∈ fa_Permissions a)) l)
                             [PermissionRead; PermissionWrite; PermissionExecute].
Proof.
  assert (∀ a, a ∈ dedupFileFacts l → mergePermissions [] (fa_Permissions a) =
    List.filter (fun p => existsb (fun b => bool_decide (fa_Path b = fa_Path a) && bool_decide (p ∈ fa_Permissions b)) l)
      [PermissionRead; PermissionWrite; PermissionExecute]) as Hperms.
  { intros a Ha. apply dedup_facts_values in Ha; [|done]. rewrite dedup_fold_lookup, lookup_empty in Ha.
    apply filter_ext_in. intros p Hp%list_elem_of_In. apply eq_bool_prop_intro.
    rewrite !Is_true_true, orb_true_iff, !bool_decide_eq_true, existsb_exists.
    rewrite (join_files_perms _ _ _ p Hp Ha). split.
    - intros [Hn|[(b & ? & _)|(x & Hx & Hq)]]; [by apply elem_of_nil in Hn|done|].
      apply list_elem_of_In, filter_In in Hx as [Hx Hk]. apply bool_decide_eq_true in Hk. exists x. split; [done|].
      by rewrite !bool_decide_eq_true_2.
    - intros (x & Hx & [Hk Hq]%andb_prop). apply bool_decide_eq_true in Hk, Hq. right. right. exists x. split; [|done].
      apply list_elem_of_In, filter_In. split; [done|by apply bool_decide_eq_true]. }
  rewrite list_elem_of_fmap. split.
  - intros (a & [= -> ->] & Ha). split; [|by apply Hperms].
    eapply (dedup_facts_keys fa_Path join_files); [done|]. exists a. split; [exact Ha|done].
  - intros [Hk ->]. eapply (dedup_facts_keys fa_Path join_files) in Hk as (a & Ha & <-); [|done].
    exists a. split; [|exact Ha]. unfold file_content. by rewrite Hperms.
Qed.

Lemma grants_existsb l k p :
  existsb (fun a => bool_decide (fa_Path a = k) && bool_decide (p ∈ fa_Permissions a)) l = true ↔ grants l k p.
Proof.
  rewrite existsb_exists. unfold grants. split; intros (a & Ha & Hb); exists a.
  - apply andb_prop in Hb as [H1 H2]. apply bool_decide_eq_true in H1, H2. by rewrite list_elem_of_In.
  - destruct Hb. rewrite <- list_elem_of_In. by rewrite !bool_decide_eq_true_2.
Qed.

(** The canonical files are determined by the paths and what is granted on them. *)
Lemma dedup_files_ext l l' :
  (∀ k, k ∈ map fa_Path l ↔ k ∈ map fa_Path l') → (∀ k p, known_permission p → grants l k p ↔ grants l' k p) →
  map file_content (dedupFileFacts l) = map file_content (dedupFileFacts l').
Proof.
  intros Hk Hg.
  assert (∀ l, map file_content (dedupFileFacts l) =
    sort_by (less_on fst string_ltb) (map file_content (dedupFileFacts l))) as Hs.
  { intros k. unfold dedupFileFacts, dedup_facts. rewrite <- (map_sort_by file_content (less_on fa_Path string_ltb)) by done.
    by rewrite sort_by_idemp by apply _. }
  assert (∀ l, NoDup (map fst (map file_content (dedupFileFacts l)))) as Hnd.
  { intros k. rewrite map_map. by apply (dedup_facts_NoDup fa_Path join_files). }
  rewrite (Hs l), (Hs l').
  apply (sort_by_distinct _ fst); [|apply Hnd|].
  - intros x y Hxy Hyx. by apply (less_total (less := string_ltb)).
  - apply NoDup_same_perm; [by eapply NoDup_fmap_1, Hnd|by eapply NoDup_fmap_1, Hnd|].
    intros [k ps]. rewrite !dedup_files_elem, Hk. split; intros [? ->]; (split; [done|]); apply filter_ext_in;
      intros p Hp%list_elem_of_In; apply eq_bool_prop_intro; rewrite !Is_true_true, !grants_existsb;
      first [by apply Hg | by symmetry; apply Hg].
Qed.

(** Facts that their key determines are kept as they are. *)
Lemma dedup_bare_elem {A K} `{Countable K} (key : A → K) less l a :
  (∀ x y, x ∈ l → y ∈ l → key x = key y → x = y) → a ∈ dedup_facts key (fun _ v => v) less l ↔ a ∈ l.
Proof.
  intros Hinj. assert (∀ (xs : list A) (o : option A), foldl (fun o b => match o with Some _ => Some b | None => Some b end) o xs = o ∨
    ∃ b, b ∈ xs ∧ foldl (fun o b => match o with Some _ => Some b | None => Some b end) o xs = Some b) as Hlast.
  { induction xs as [|x xs IH]; intros o; cbn; [by left|]. right.
    destruct (IH (match o with Some _ => Some x | None => Some x end)) as [->|(b & Hb & ->)];
      [exists x; split; [left|by destruct o]|exists b; split; [by right|done]]. }
  assert (∀ b, b ∈ dedup_facts key (fun _ v => v) less l → b ∈ l) as Hsub.
  { intros b Hb. apply dedup_facts_values in Hb; [|done]. rewrite dedup_fold_lookup, lookup_empty in Hb.
    destruct (Hlast (List.filter (fun a => bool_decide (key a = key b)) l) None) as [E|(c & Hc & E)]; rewrite E in Hb; [done|].
    injection Hb as <-. apply list_elem_of_In, filter_In in Hc as [Hc _]. by apply list_elem_of_In. }
  split; [apply Hsub|]. intros Ha.
  assert (key a ∈ map key l) as Hk by by apply (list_elem_of_fmap_2 key).
  eapply (dedup_facts_keys key (fun _ v => v)) in Hk as (b & Hb & E); [|done].
  assert (a = b) as -> by (apply Hinj; [done|eapply Hsub, Hb|by symmetry]). exact Hb.
Qed.

(** *** Normal forms *)
Lemma normalize_Ok c n : normalize c = Ok n →
  normalized (c_Population c) = Ok (c_Population n) ∧ c_ObservationID n = c_ObservationID c ∧
  c_Filesystem n = dedupFileFacts (map bare_file (c_Filesystem c)) ∧
  c_NetworkConnect n = dedupNetworkFacts (map bare_network (c_NetworkConnect c)) ∧
  c_NetworkBind n = dedupNetworkFacts (map bare_network (c_NetworkBind c)) ∧
  c_Capabilities n = dedupCapabilityFacts (map bare_capability (c_Capabilities c)) ∧
  c_Sources n = sort_by (less_on os_Source string_ltb) (c_Sources c) ∧
  validate_sources (c_Sources c) = Ok () ∧ has_duplicate [] (c_Sources c) = false ∧ fact_count n ≤ maxContributionFacts ∧
  0 < length (c_Sources c) ≤ maxContributionSourceSummaries ∧
  empty (c_ObservationID c) = false ∧ String.length (c_ObservationID c) ≤ maxObservationID.
Proof.
  unfold normalize. intros Hn.
  apply result_guard_Ok in Hn as [[[H1 H1']%orb_false_iff _]%orb_false_iff (population & Hp & Hn)%result_bind_Ok].
  apply result_guard_Ok in Hn as [_ (u & Hs & Hn)%result_bind_Ok]. apply result_guard_Ok in Hn as [[H2 H2']%orb_false_iff Hn].
  apply result_guard_Ok in Hn as [Hd Hn]. apply result_guard_Ok in Hn as [_ Hn]. apply result_guard_Ok in Hn as [_ Hn].
  cbv zeta in Hn. apply result_guard_Ok in Hn as [Hc Hn%Ok_inj]. apply Nat.ltb_ge in Hc, H1', H2'. apply Nat.eqb_neq in H2.
  destruct u. subst n. cbn [c_Population c_ObservationID c_Filesystem c_NetworkConnect c_NetworkBind c_Capabilities c_Sources].
  repeat split; try done. lia.
Qed.

Lemma has_duplicate_NoDup seen l :
  has_duplicate seen l = false → NoDup (map os_Source l) ∧ ∀ s, s ∈ map os_Source l → s ∉ seen.
Proof.
  revert seen. induction l as [|x l IH]; intros seen Hd; cbn in Hd.
  - split; [constructor|]. by intros s Hs%elem_of_nil.
  - apply orb_false_iff in Hd as [Hx%bool_decide_eq_false Hd]. apply IH in Hd as [Hnd Hs]. cbn. split.
    + constructor; [|done]. intros Hin. apply (Hs _ Hin). left.
    + intros s [->|Hin]%elem_of_cons; [done|]. intros Hse. apply (Hs _ Hin). by right.
Qed.

(** The content of a contribution: what it says, without order or repetition. *)
Record same_content (c c' : Contribution) : Prop := {
  sc_id : c_ObservationID c = c_ObservationID c';
  sc_population : c_Population c = c_Population c';
  sc_paths : ∀ k, k ∈ map fa_Path (c_Filesystem c) ↔ k ∈ map fa_Path (c_Filesystem c');
  sc_grants : ∀ k p, known_permission p → grants (c_Filesystem c) k p ↔ grants (c_Filesystem c') k p;
  sc_connect : ∀ k, k ∈ map net_key (c_NetworkConnect c) ↔ k ∈ map net_key (c_NetworkConnect c');
  sc_bind : ∀ k, k ∈ map net_key (c_NetworkBind c) ↔ k ∈ map net_key (c_NetworkBind c');
  sc_capabilities : ∀ k, k ∈ map ca_Name (c_Capabilities c) ↔ k ∈ map ca_Name (c_Capabilities c');
  sc_sources : c_Sources c ≡ₚ c_Sources c' }.

Lemma less_network_lex a b : less_network a b = less_lex (less_on na_Port Z.ltb) (less_on na_Direction string_ltb) a b.
Proof.
  unfold less_network, less_lex, less_on.
  destruct (Z.eqb_spec (na_Port a) (na_Port b)), (Z.ltb_spec (na_Port a) (na_Port b)), (Z.ltb_spec (na_Port b) (na_Port a));
    cbn; done || lia.
Qed.

#[export] Instance Z_ltb_weak : StrictWeak Z.ltb.
Proof. split; intros *; repeat destruct (Z.ltb_spec _ _); done || lia. Qed.

#[export] Instance less_network_weak : StrictWeak less_network.
Proof.
  pose proof (less_lex_weak (less_on na_Port Z.ltb) (less_on na_Direction string_ltb)) as Hw.
  split; intros x y; rewrite !less_network_lex; [apply less_asym|]. intros z. rewrite !less_network_lex. apply less_negtrans.
Qed.

Lemma less_network_key x y : less_network x y = false → less_network y x = false → net_key x = net_key y.
Proof.
  unfold less_network, net_key. destruct (Z.eqb_spec (na_Port x) (na_Port y)) as [E|E], (Z.eqb_spec (na_Port y) (na_Port x)); cbn.
  - intros Hx Hy. rewrite E. f_equal. by apply (less_total (less := string_ltb)).
  - lia.
  - lia.
  - destruct (Z.ltb_spec (na_Port x) (na_Port y)), (Z.ltb_spec (na_Port y) (na_Port x)); done || lia.
Qed.

(** Deduplicated bare facts depend on the set of keys. *)
Lemma dedup_bare_ext {A K} `{Countable K} (key : A → K) (bare : A → A) (less : A → A → bool) `{!StrictWeak less} l l' :
  (∀ a, key (bare a) = key a) → (∀ a b, key a = key b → bare a = bare b) →
  (∀ x y, less x y = false → less y x = false → key x = key y) →
  (∀ k, k ∈ map key l ↔ k ∈ map key l') →
  dedup_facts key (fun _ v => v) less (map bare l) = dedup_facts key (fun _ v => v) less (map bare l').
Proof.
  intros Hkb Hbk Hless Hk.
  assert (∀ k, dedup_facts key (fun _ v => v) less (map bare k) = sort_by less (dedup_facts key (fun _ v => v) less (map bare k))) as Hs.
  { intros k. unfold dedup_facts. by rewrite sort_by_idemp. }
  assert (∀ k, NoDup (map key (dedup_facts key (fun _ v => v) less (map bare k)))) as Hnd.
  { intros k. by apply dedup_facts_NoDup. }
  assert (∀ k x y, x ∈ map bare k → y ∈ map bare k → key x = key y → x = y) as Hinj.
  { intros k x y (a & -> & _)%list_elem_of_fmap (b & -> & _)%list_elem_of_fmap. rewrite !Hkb. apply Hbk. }
  assert (∀ k a, a ∈ map bare k ↔ a = bare a ∧ key a ∈ map key k) as Hin.
  { intros k a. rewrite !list_elem_of_fmap. split.
    - intros (b & -> & Hb). split; [apply Hbk; by rewrite Hkb|]. exists b. by rewrite Hkb.
    - intros [E (b & Eb & Hb)]. exists b. split; [|done]. rewrite E. by apply Hbk. }
  rewrite (Hs l), (Hs l'). apply (sort_by_distinct _ key); [done|apply Hnd|].
  apply NoDup_same_perm; [by eapply NoDup_fmap_1, Hnd|by eapply NoDup_fmap_1, Hnd|].
  intros a. rewrite !dedup_bare_elem by apply Hinj. by rewrite !Hin, Hk.
Qed.

(** *** The canonical part of a normal form *)
Definition canonical (n : Contribution) : string * PopulationFingerprint * list (string * list FilePermission) *
    list NetworkAccess * list NetworkAccess * list CapabilityAccess * list ObservationSourceContribution :=
  (c_ObservationID n, c_Population n, map file_content (c_Filesystem n), c_NetworkConnect n, c_NetworkBind n,
   c_Capabilities n, c_Sources n).

Lemma same_content_canonical c c' n n' :
  normalize c = Ok n → normalize c' = Ok n' → same_content c c' → canonical n = canonical n'.
Proof.
  intros (Hp & Hi & Hf & Hnc & Hnb & Hca & Hs & _ & Hd & _)%normalize_Ok (Hp' & Hi' & Hf' & Hnc' & Hnb' & Hca' & Hs' & _)%normalize_Ok.
  intros [Sid Spop Spaths Sgrants Sconn Sbind Scaps Ssrc]. unfold canonical.
  assert (c_Population n = c_Population n') as -> by congruence.
  rewrite Hi, Hi', Sid, Hf, Hf', Hnc, Hnc', Hnb, Hnb', Hca, Hca', Hs, Hs'.
  assert (∀ l, map fa_Path (map bare_file l) = map fa_Path l) as Ep by (intros l; by rewrite map_map).
  assert (∀ l k p, grants (map bare_file l) k p ↔ grants l k p) as Eg.
  { intros l k p. unfold grants. split.
    - intros (a & (b & -> & Hb)%list_elem_of_fmap & E & Hq). exists b. done.
    - intros (b & Hb & E & Hq). exists (bare_file b). split; [by apply (list_elem_of_fmap_2 bare_file)|done]. }
  rewrite (dedup_files_ext (map bare_file (c_Filesystem c)) (map bare_file (c_Filesystem c'))).
  2: { intros k. by rewrite !Ep. } 2: { intros k p Hkp. rewrite !Eg. by apply Sgrants. }
  assert (∀ a b, net_key a = net_key b → bare_network a = bare_network b) as Hnk.
  { intros [p d cf sc] [p' d' cf' sc']. unfold net_key, bare_network. cbn. by intros [= -> ->]. }
  unfold dedupNetworkFacts, dedupCapabilityFacts.
  rewrite (dedup_bare_ext net_key bare_network less_network (c_NetworkConnect c) (c_NetworkConnect c'))
    by (done || apply less_network_key).
  rewrite (dedup_bare_ext net_key bare_network less_network (c_NetworkBind c) (c_NetworkBind c'))
    by (done || apply less_network_key).
  rewrite (dedup_bare_ext ca_Name bare_capability (less_on ca_Name string_ltb) (c_Capabilities c) (c_Capabilities c')).
  - f_equal. apply (sort_by_distinct _ os_Source); [|by apply (has_duplicate_NoDup [])|done].
    intros x y Hx Hy. by apply (less_total (less := string_ltb)).
  - done.
  - intros a b E. unfold bare_capability. by rewrite E.
  - intros x y Hx Hy. by apply (less_total (less := string_ltb)).
  - done.
Qed.

Lemma flat_map_map {A B C} (f : A → B) (g : B → list C) l : flat_map (fun x => g (f x)) l = flat_map g (map f l).
Proof. induction l as [|x l IH]; cbn; congruence. Qed.

Definition content_block (p : string * list FilePermission) : list string := p.1 :: p.2.

Lemma file_fields_content l : flat_map file_fields l = flat_map content_block (map file_content l).
Proof. apply (flat_map_map file_content content_block). Qed.

Lemma contentDigest_canonical n n' : canonical n = canonical n' → contentDigest n = contentDigest n'.
Proof.
  unfold canonical. intros [= Ei Ep Ef Enc Enb Eca Es]. unfold contentDigest, content_fields, fact_fields.
  by rewrite !file_fields_content, Ei, Ep, Ef, Enc, Enb, Eca, Es.
Qed.

Lemma mergePermissions_nil_r ps qs : mergePermissions ps (mergePermissions [] qs) = mergePermissions ps qs.
Proof.
  apply mergePermissions_ext. intros p Hp. rewrite elem_of_mergePermissions by done.
  split; [intros [?|[Hn|?]]; [auto|by apply elem_of_nil in Hn|auto]|intros [?|?]; auto].
Qed.

Definition addFileContent (p : string * list FilePermission) : list FileAccessRecord → list FileAccessRecord :=
  addFileFact (mkFileAccess p.1 p.2 "" 0).

Lemma addFileFact_content a l : addFileFact a l = addFileContent (file_content a) l.
Proof.
  unfold addFileContent, addFileFact. unfold file_content.
  induction l as [|r l IH]; cbn [upsert fa_Path fa_Permissions fst snd].
  - by rewrite mergePermissions_nil_r.
  - case_bool_decide; [|by rewrite IH]. by rewrite mergePermissions_nil_r.
Qed.

Lemma add_all_content values : ∀ l, add_all addFileFact values l = add_all addFileContent (map file_content values) l.
Proof. unfold add_all. induction values as [|a values IH]; intros l; cbn; [done|]. by rewrite addFileFact_content, IH. Qed.

Lemma addContributionFacts_canonical pop n n' :
  canonical n = canonical n' → addContributionFacts pop n = addContributionFacts pop n'.
Proof.
  unfold canonical. intros [= _ _ Ef Enc Enb Eca _]. unfold addContributionFacts.
  by rewrite !add_all_content, Ef, Enc, Enb, Eca.
Qed.

(** C31: A contribution is a set of facts: two accepted contributions with the same
    identity, the same paths and permissions, ports and capabilities, in
    whatever order and repeated or not, and the same source summaries have one
    content digest and one effect on every population. *)
Theorem contribution_is_a_set c c' n n' :
  normalize c = Ok n → normalize c' = Ok n' → same_content c c' →
  contentDigest n = contentDigest n' ∧ ∀ pop, addContributionFacts pop n = addContributionFacts pop n'.
Proof.
  intros Hn Hn' Hs. pose proof (same_content_canonical c c' n n' Hn Hn' Hs) as E. split.
  - by apply contentDigest_canonical.
  - intros pop. by apply addContributionFacts_canonical.
Qed.

Definition ex_fact (path : string) (ps : list FilePermission) : FileAccess := mkFileAccess path ps ConfidenceLow 1.
Definition ex_contribution (files : list FileAccess) : Contribution :=
  mkContribution "obs-1" (mkPopulationIdentity ScopeContainer "Deployment/web" "app" "sha256:00" "") files
    [mkNetworkAccess 443 DirectionEgress "" 0] [] [mkCapabilityAccess "CAP_KILL" "" 0] [ex_summary].

Lemma contribution_is_a_set_witness :
  let c := ex_contribution [ex_fact "/b" [PermissionWrite]; ex_fact "/a" [PermissionRead]; ex_fact "/b" [PermissionRead]] in
  let c' := ex_contribution [ex_fact "/a" [PermissionRead]; ex_fact "/b" [PermissionRead; PermissionWrite]] in
  ∃ n n', normalize c = Ok n ∧ normalize c' = Ok n' ∧ contentDigest n = contentDigest n'.
Proof.
  intros c c'. destruct (normalize c) as [n|] eqn:En; [|vm_compute in En; discriminate].
  destruct (normalize c') as [n'|] eqn:En'; [|vm_compute in En'; discriminate].
  exists n, n'. split; [reflexivity|]. split; [reflexivity|].
  apply (contribution_is_a_set c c' n n' En En'). split; try reflexivity.
  - intros k. cbn. rewrite !elem_of_cons. tauto.
  - intros k p _. unfold grants. split.
    + intros (a & Ha & E & Hp). cbn in Ha. rewrite !elem_of_cons in Ha. destruct Ha as [->|[->|[->|Ha]]].
      * exists (ex_fact "/b" [PermissionRead; PermissionWrite]). split; [right; left|]. split; [exact E|right; exact Hp].
      * exists (ex_fact "/a" [PermissionRead]). split; [left|]. split; [exact E|exact Hp].
      * exists (ex_fact "/b" [PermissionRead; PermissionWrite]). split; [right; left|]. split; [exact E|].
        apply list_elem_of_singleton in Hp as ->. left.
      * exfalso; exact (proj1 (elem_of_nil _) Ha).
    + intros (a & Ha & E & Hp). cbn in Ha. rewrite !elem_of_cons in Ha. destruct Ha as [->|[->|Ha]].
      * exists (ex_fact "/a" [PermissionRead]). split; [right; left|]. split; [exact E|exact Hp].
      * cbn in Hp. rewrite !elem_of_cons in Hp. destruct Hp as [->|[->|Hp]].
        -- exists (ex_fact "/b" [PermissionRead]). split; [right; right; left|]. split; [exact E|left].
        -- exists (ex_fact "/b" [PermissionWrite]). split; [left|]. split; [exact E|left].
        -- exfalso; exact (proj1 (elem_of_nil _) Hp).
      * exfalso; exact (proj1 (elem_of_nil _) Ha).
Defined.

(** ** What the content digest binds *)
Lemma put_string_length s p : put_string s = Ok p → String.length p = 4 + String.length s.
Proof.
  unfold put_string. intros (len & Hl & Hp)%result_bind_Ok. injection Hp as <-. apply put_count_Ok in Hl as [-> _].
  by rewrite str_length_app, be32_length.
Qed.

(** A stream of strings determines them. *)
Lemma put_strings_inj l : ∀ k p, put_all put_string l = Ok p → put_all put_string k = Ok p → l = k.
Proof.
  induction l as [|x l IH]; intros [|y k] p Hl Hk; cbn in Hl, Hk; [done| | |].
  - injection Hl as <-. apply result_bind_Ok in Hk as (a & Ha & (b & _ & E)%result_bind_Ok). apply Ok_inj in E.
    apply put_string_length in Ha. by destruct a.
  - injection Hk as <-. apply result_bind_Ok in Hl as (a & Ha & (b & _ & E)%result_bind_Ok). apply Ok_inj in E.
    apply put_string_length in Ha. by destruct a.
  - apply result_bind_Ok in Hl as (a & Ha & (b & Hb & <-%Ok_inj)%result_bind_Ok).
    apply result_bind_Ok in Hk as (a' & Ha' & (b' & Hb' & E%Ok_inj)%result_bind_Ok).
    destruct (prefix_code_string _ _ _ _ _ _ Ha Ha' (eq_sym E)) as [-> ->]. f_equal. by eapply IH.
Qed.

Lemma itoa_injective n m : itoa n = itoa m → n = m.
Proof. intros E. assert (Some n = Some m) as [=]; [|done]. by rewrite <- !int_literal_itoa, E. Qed.

Lemma itoa_not_word s n : K8sApply.K8sApply.int_literal s = None → itoa n ≠ s.
Proof. intros Hs E. by rewrite <- E, int_literal_itoa in Hs. Qed.

(** The parts of the stream, one after the other. *)
Lemma permission_runs ps : ∀ qs x y t u, ps ⊆ [PermissionRead; PermissionWrite; PermissionExecute] →
  qs ⊆ [PermissionRead; PermissionWrite; PermissionExecute] → ¬ known_permission x → ¬ known_permission y →
  ps ++ x :: t = qs ++ y :: u → ps = qs ∧ x :: t = y :: u.
Proof.
  induction ps as [|p ps IH]; intros [|q qs] x y t u Hps Hqs Hx Hy E; cbn in E; [done| | |].
  - injection E as -> _. destruct Hx. apply Hqs. left.
  - injection E as -> _. destruct Hy. apply Hps. left.
  - injection E as -> E. destruct (IH qs x y t u) as [-> E']; [|by intros ? ?; apply Hqs; right|done..|done].
    by intros ? ?; apply Hps; right.
Qed.

Definition absolute (path : string) : Prop := ∃ s, path = String slash s.

Lemma absolute_not_permission path : absolute path → ¬ known_permission path.
Proof. intros [s ->] Hp. unfold known_permission in Hp. rewrite !elem_of_cons, elem_of_nil in Hp. by destruct Hp as [?|[?|[?|?]]]. Qed.

Lemma file_blocks l : ∀ l' t t', Forall (fun p => absolute p.1 ∧ p.2 ⊆ [PermissionRead; PermissionWrite; PermissionExecute]) l →
  Forall (fun p => absolute p.1 ∧ p.2 ⊆ [PermissionRead; PermissionWrite; PermissionExecute]) l' →
  flat_map content_block l ++ "networkConnect" :: t = flat_map content_block l' ++ "networkConnect" :: t' →
  l = l' ∧ t = t'.
Proof.
  assert (¬ known_permission "networkConnect") as Hnk.
  { intros Hp. unfold known_permission in Hp. rewrite !elem_of_cons, elem_of_nil in Hp. by destruct Hp as [?|[?|[?|?]]]. }
  assert (∀ k t, Forall (fun p : string * list FilePermission => absolute p.1 ∧ p.2 ⊆ [PermissionRead; PermissionWrite; PermissionExecute]) k →
    ∃ x u, flat_map content_block k ++ "networkConnect" :: t = x :: u ∧ ¬ known_permission x) as Hhead.
  { intros k t Hk. destruct Hk as [|[path ps] k [Ha _] _]; [eauto|]. eexists _, _. split; [reflexivity|].
    by apply absolute_not_permission. }
  induction l as [|[path ps] l IH]; intros [|[path' ps'] l'] t t' Hl Hl' E; cbn in E.
  - by injection E as ->.
  - injection E as <- _. apply Forall_cons_1 in Hl' as [[[s ?] _] _]. done.
  - injection E as -> _. apply Forall_cons_1 in Hl as [[[s ?] _] _]. done.
  - injection E as -> E. apply Forall_cons_1 in Hl as [[_ Hps] Hl], Hl' as [[_ Hps'] Hl'].
    rewrite <- !app_assoc in E. destruct (Hhead l t Hl) as (x & u & Ex & Hx), (Hhead l' t' Hl') as (y & v & Ey & Hy).
    rewrite Ex, Ey in E. destruct (permission_runs ps ps' x y u v Hps Hps' Hx Hy E) as [-> E'].
    rewrite <- Ex, <- Ey in E'. by destruct (IH l' t t' Hl Hl' E') as [-> ->].
Qed.

(** Blocks of one length, whose first field is never the word that ends them. *)
Lemma fixed_blocks {A} (f : A → list string) n stop l : ∀ l' t t',
  (∀ a, length (f a) = n) → (∀ a t, hd_error (f a ++ t) ≠ Some stop) →
  flat_map f l ++ stop :: t = flat_map f l' ++ stop :: t' → map f l = map f l' ∧ t = t'.
Proof.
  induction l as [|a l IH]; intros [|b l'] t t' Hn Hf E; cbn in E.
  - by injection E as ->.
  - exfalso. rewrite <- app_assoc in E. eapply (Hf b). by rewrite <- E.
  - exfalso. rewrite <- app_assoc in E. eapply (Hf a). by rewrite E.
  - rewrite <- !app_assoc in E. apply app_inj_1 in E as [E1 E2]; [|by rewrite !Hn]. cbn. rewrite E1.
    by destruct (IH l' t t' Hn Hf E2) as [-> ->].
Qed.

Lemma network_blocks stop l l' t t' :
  K8sApply.K8sApply.int_literal stop = None → Forall (fun a => a = bare_network a) l → Forall (fun a => a = bare_network a) l' →
  flat_map network_fields l ++ stop :: t = flat_map network_fields l' ++ stop :: t' → l = l' ∧ t = t'.
Proof.
  intros Hstop Hl Hl' E. destruct (fixed_blocks network_fields 2 stop l l' t t') as [Em ->]; [done| |done|].
  { intros a u Ea. cbn in Ea. injection Ea as Ea. by apply (itoa_not_word stop (na_Port a)). }
  split; [|done]. clear E. revert l' Em Hl'. induction Hl as [|a l Ha Hl IH]; intros [|b l'] Em Hl'; try done.
  injection Em as Ep Ed Em. apply Forall_cons_1 in Hl' as [Hb Hl']. f_equal; [|by apply IH].
  rewrite Ha, Hb. unfold bare_network. by rewrite (itoa_injective _ _ Ep), Ed.
Qed.

Lemma print_bool_inj a b : print_bool a = print_bool b → a = b.
Proof. by destruct a, b. Qed.

Lemma source_fields_inj a b : source_fields a = source_fields b → a = b.
Proof.
  destruct a, b. unfold source_fields. cbn. intros [= -> -> -> E1%print_bool_inj E2%print_bool_inj E3%print_bool_inj
    E4%itoa_injective E5%itoa_injective E6%itoa_injective]. congruence.
Qed.

Lemma source_blocks l : ∀ l', flat_map source_fields l = flat_map source_fields l' → l = l'.
Proof.
  induction l as [|a l IH]; intros [|b l'] E; try done.
  change (flat_map source_fields (?x :: ?k)) with (source_fields x ++ flat_map source_fields k) in E.
  apply app_inj_1 in E as [E1%source_fields_inj E2]; [|done]. by rewrite E1, (IH l' E2).
Qed.

Lemma capability_blocks l : ∀ l' s s', Forall (fun a => ca_Name a ∉ History.sources) l → Forall (fun a => ca_Name a ∉ History.sources) l' →
  Forall (fun x => os_Source x ∈ History.sources) s → Forall (fun x => os_Source x ∈ History.sources) s' →
  map ca_Name l ++ flat_map source_fields s = map ca_Name l' ++ flat_map source_fields s' →
  map ca_Name l = map ca_Name l' ∧ s = s'.
Proof.
  assert (∀ s name t, Forall (fun x => os_Source x ∈ History.sources) s → name ∉ History.sources → flat_map source_fields s ≠ name :: t) as Hhead.
  { intros s name t Hs Hn E. destruct Hs as [|x s Hx _]; [done|]. cbn in E. injection E as E _. congruence. }
  induction l as [|a l IH]; intros [|b l'] s s' Hl Hl' Hs Hs' E; cbn [map app] in E.
  - split; [done|]. by apply source_blocks.
  - exfalso. apply Forall_cons_1 in Hl' as [Hb _]. exact (Hhead _ _ _ Hs Hb E).
  - exfalso. apply Forall_cons_1 in Hl as [Ha _]. exact (Hhead _ _ _ Hs' Ha (eq_sym E)).
  - injection E as E1 E2. apply Forall_cons_1 in Hl as [_ Hl], Hl' as [_ Hl']. cbn. rewrite E1.
    by destruct (IH l' s s' Hl Hl' Hs Hs' E2) as [-> ->].
Qed.

(** *** Plain contents *)
Definition plain (n : Contribution) : Prop :=
  pi_Scope (c_Population n) = ScopeContainer ∧ Forall (fun a => absolute (fa_Path a)) (c_Filesystem n) ∧
  Forall (fun a => ca_Name a ∉ History.sources) (c_Capabilities n).

Lemma dedup_bare_all {A K} `{Countable K} (key : A → K) (bare : A → A) less l :
  (∀ a, bare (bare a) = bare a) → (∀ a b, key a = key b → bare a = bare b) →
  Forall (fun a => a = bare a) (dedup_facts key (fun _ v => v) less (map bare l)).
Proof.
  intros Hi Hk. apply Forall_forall. intros a Ha. apply dedup_bare_elem in Ha.
  - apply list_elem_of_fmap in Ha as (b & -> & _). by rewrite Hi.
  - intros x y (b & -> & _)%list_elem_of_fmap (c & -> & _)%list_elem_of_fmap E. apply Hk in E. by rewrite !Hi in E.
Qed.

Lemma net_key_bare a b : net_key a = net_key b → bare_network a = bare_network b.
Proof. destruct a, b. unfold net_key, bare_network. cbn. by intros [= -> ->]. Qed.

Lemma validate_sources_known l : validate_sources l = Ok () → Forall (fun s => os_Source s ∈ History.sources) l.
Proof.
  induction l as [|s l IH]; intros Hv; [constructor|]. cbn in Hv. apply result_bind_Ok in Hv as (u & Hs & Hv).
  constructor; [|by apply IH]. unfold ObservationSourceContribution_Validate in Hs. apply result_guard_Ok in Hs as [Hs _].
  repeat (apply orb_false_iff in Hs as [Hs _]). apply negb_false_iff in Hs. by apply bool_decide_eq_true in Hs.
Qed.

Lemma normal_parts c n : normalize c = Ok n →
  Forall (fun a => a = bare_network a) (c_NetworkConnect n) ∧ Forall (fun a => a = bare_network a) (c_NetworkBind n) ∧
  Forall (fun a => a = bare_capability a) (c_Capabilities n) ∧ Forall (fun s => os_Source s ∈ History.sources) (c_Sources n).
Proof.
  intros (_ & _ & _ & -> & -> & -> & -> & Hv & _)%normalize_Ok.
  split; [apply dedup_bare_all; [done|apply net_key_bare]|]. split; [apply dedup_bare_all; [done|apply net_key_bare]|].
  split; [apply dedup_bare_all; [done|]|].
  - intros a b E. unfold bare_capability. by rewrite E.
  - apply validate_sources_known in Hv. apply Forall_forall. intros s Hs%elem_of_sort_by. rewrite Forall_forall in Hv. by apply Hv.
Qed.

Lemma plain_files l : Forall (fun a => absolute (fa_Path a)) l →
  Forall (fun p => absolute p.1 ∧ p.2 ⊆ [PermissionRead; PermissionWrite; PermissionExecute]) (map file_content l).
Proof.
  induction 1 as [|a l Ha Hl IH]; cbn [map]; constructor; [|done]. split; [done|].
  intros p Hp. unfold file_content, mergePermissions in Hp. cbn [snd] in Hp.
  apply list_elem_of_In, filter_In in Hp as [Hp _]. by apply list_elem_of_In.
Qed.

Lemma content_fields_inj c c' n n' : normalize c = Ok n → normalize c' = Ok n' → plain n → plain n' →
  content_fields n = content_fields n' → canonical n = canonical n'.
Proof.
  intros Hn Hn' (Hs & Hf & Hc) (Hs' & Hf' & Hc') E.
  pose proof (normalize_Ok _ _ Hn) as (Hp & _). pose proof (normalize_Ok _ _ Hn') as (Hp' & _).
  apply normal_parts in Hn as (Hnc & Hnb & Hca & Hso), Hn' as (Hnc' & Hnb' & Hca' & Hso').
  unfold content_fields, key_fields in E. rewrite Hs, Hs' in E.
  change (bool_decide (ScopeContainer = ScopeContainer)) with true in E.
  change (bool_decide (ScopeContainer = ScopeBinary)) with false in E. cbn [app] in E.
  injection E as Ei Et Eco Eim E. unfold fact_fields in E. cbn [app] in E.
  rewrite !file_fields_content in E. apply file_blocks in E as [Ef E]; [|by apply plain_files..].
  apply network_blocks in E as [Ec E]; [|done..]. apply network_blocks in E as [Eb E]; [|done..].
  apply capability_blocks in E as [Ecap Esrc]; [|done..].
  assert (c_Capabilities n = c_Capabilities n') as Ecaps.
  { clear - Ecap Hca Hca'. revert Ecap Hca'. generalize (c_Capabilities n'). induction Hca as [|a l Ha _ IH]; intros [|b l'] E Hb; try done.
    injection E as E1 E2. apply Forall_cons_1 in Hb as [Hb Hl]. f_equal; [|by apply IH].
    rewrite Ha, Hb. unfold bare_capability. by rewrite E1. }
  assert (c_Population n = c_Population n') as Epop.
  { assert (ScopeBinary ≠ ScopeContainer) as Hne by done.
    apply normalized_scope in Hp as [[? _]|[_ Hx]]; [congruence|].
    apply normalized_scope in Hp' as [[? _]|[_ Hx']]; [congruence|].
    destruct (c_Population n), (c_Population n'). cbn in *. congruence. }
  unfold canonical. by rewrite Ei, Epop, Ef, Ec, Eb, Ecaps, Esrc.
Qed.

(** C30: the content digest binds the content, for the contributions of
    container populations all of whose paths are absolute and none of whose
    capabilities is named like an evidence source ([plain]): two of them that
    are accepted and have one digest have the same identity, population, paths
    with their permissions, ports, capabilities and source summaries, or the
    two byte strings the digests were computed from are different and have one
    SHA-256. *)
Theorem contentDigest_binds c c' n n' d :
  normalize c = Ok n → normalize c' = Ok n' → plain n → plain n' →
  contentDigest n = Ok d → contentDigest n' = Ok d →
  canonical n = canonical n' ∨
  ∃ b b', put_all put_string (content_fields n) = Ok b ∧ put_all put_string (content_fields n') = Ok b' ∧
    collision ("observation-contribution-v1" +:+ b) ("observation-contribution-v1" +:+ b').
Proof.
  intros Hn Hn' Hp Hp' Hd Hd'. unfold contentDigest in Hd, Hd'.
  apply result_bind_Ok in Hd as (b & Hb & Hd%Ok_inj), Hd' as (b' & Hb' & Hd'%Ok_inj). subst d.
  apply hex_encode_inj in Hd'; [|apply sha256_range..].
  destruct (decide (b = b')) as [->|Hne].
  - left. apply (content_fields_inj c c'); [done..|]. by eapply put_strings_inj.
  - right. exists b, b'. split; [done|]. split; [done|]. split; [|by symmetry]. intros E. by apply str_app_inj_l in E.
Qed.

(** Without absolute paths the encoding is ambiguous: a path is not told apart
    from a permission. *)
Lemma content_ambiguous :
  let c := ex_contribution [ex_fact "/a" [PermissionRead]; ex_fact "write" [PermissionRead; PermissionExecute]] in
  let c' := ex_contribution [ex_fact "/a" [PermissionRead; PermissionWrite]; ex_fact "read" [PermissionExecute]] in
  is_ok (ContributionDigest c) = true ∧ ContributionDigest c = ContributionDigest c' ∧
  ∃ n n', normalize c = Ok n ∧ normalize c' = Ok n' ∧ canonical n ≠ canonical n'.
Proof.
  assert (∀ c n, normalize c = Ok n → ContributionDigest c = contentDigest n) as Hd.
  { intros c n Hn. unfold ContributionDigest. by rewrite Hn. }
  intros c c'. destruct (normalize c) as [n|] eqn:En; [|vm_compute in En; discriminate].
  destruct (normalize c') as [n'|] eqn:En'; [|vm_compute in En'; discriminate].
  rewrite (Hd c n En), (Hd c' n' En'). vm_compute in En. injection En as <-. vm_compute in En'. injection En' as <-.
  split; [|split].
  - unfold contentDigest. destruct (put_all put_string _) eqn:E; [done|vm_compute in E; discriminate].
  - reflexivity.
  - eexists _, _. split; [reflexivity|]. split; [reflexivity|]. vm_compute. discriminate.
Qed.

Lemma contentDigest_binds_witness :
  let c := ex_contribution [ex_fact "/b" [PermissionWrite]; ex_fact "/a" [PermissionRead]; ex_fact "/b" [PermissionRead]] in
  let c' := ex_contribution [ex_fact "/a" [PermissionRead]; ex_fact "/b" [PermissionRead; PermissionWrite]] in
  ∃ n n', normalize c = Ok n ∧ normalize c' = Ok n' ∧ (canonical n = canonical n' ∨
    ∃ b b', put_all put_string (content_fields n) = Ok b ∧ put_all put_string (content_fields n') = Ok b' ∧
      collision ("observation-contribution-v1" +:+ b) ("observation-contribution-v1" +:+ b')).
Proof.
  intros c c'. destruct (normalize c) as [n|] eqn:En; [|vm_compute in En; discriminate].
  destruct (normalize c') as [n'|] eqn:En'; [|vm_compute in En'; discriminate].
  exists n, n'. split; [reflexivity|]. split; [reflexivity|].
  assert (∀ m, normalize c = Ok m ∨ normalize c' = Ok m → plain m) as Hplain.
  { intros m [Em|Em]; vm_compute in Em; injection Em as <-; (split; [reflexivity|split]);
      [repeat (constructor; [eexists; reflexivity|]); constructor
      |constructor; [|constructor]; apply (bool_decide_eq_true_1 _); vm_compute; reflexivity
      |repeat (constructor; [eexists; reflexivity|]); constructor
      |constructor; [|constructor]; apply (bool_decide_eq_true_1 _); vm_compute; reflexivity]. }
  assert (contentDigest n = contentDigest n') as Ed by (vm_compute in En, En'; injection En as <-; injection En' as <-; reflexivity).
  destruct (contentDigest n) as [d|] eqn:E.
  - exact (contentDigest_binds c c' n n' d En En' (Hplain n (or_introl En)) (Hplain n' (or_intror En')) E (eq_sym Ed)).
  - exfalso. vm_compute in En. injection En as <-. unfold contentDigest in E.
    destruct (put_all put_string _) eqn:Ep; [discriminate|vm_compute in Ep; discriminate].
Defined.

(** ** The effect of a contribution *)
Section upsert.
Context {A R K : Type} `{Countable K} (key_of : A → K) (key : R → K) (bump : A → R → R) (fresh : A → R).
Hypothesis key_bump : ∀ a r, key (bump a r) = key r.
Hypothesis key_fresh : ∀ a, key (fresh a) = key_of a.
#[local] Abbreviation add := (upsert key_of key bump fresh).
#[local] Abbreviation step o a := (Some (match o with Some r => bump a r | None => fresh a end)).

Lemma upsert_keys a l k : k ∈ map key (add a l) ↔ k = key_of a ∨ k ∈ map key l.
Proof.
  induction l as [|r l IH]; cbn [upsert].
  - cbn. rewrite key_fresh, elem_of_cons. naive_solver.
  - case_bool_decide as E; cbn; rewrite ?key_bump, !elem_of_cons; [rewrite <- E|rewrite IH]; naive_solver.
Qed.

Lemma upsert_distinct a l : NoDup (map key l) → NoDup (map key (add a l)).
Proof.
  induction l as [|r l IH]; cbn [upsert]; intros Hnd.
  - cbn. apply NoDup_singleton.
  - cbn in Hnd. inversion Hnd as [|?? Hn Hnd']; subst. case_bool_decide as E; cbn; constructor; rewrite ?key_bump; auto.
    rewrite upsert_keys. intros [E'|Hin]; [by apply E|by apply Hn].
Qed.

Lemma upsert_view a l : NoDup (map key l) → view key (add a l) = view_step key_of bump fresh (view key l) a.
Proof.
  assert (∀ r k, view key (r :: k) = <[key r := r]> (view key k)) as Hcons by done.
  induction l as [|r l IH]; intros Hnd; cbn [upsert].
  - by rewrite Hcons, key_fresh.
  - cbn in Hnd. inversion Hnd as [|?? Hn Hnd']; subst. unfold view_step in *. case_bool_decide as E; rewrite !Hcons.
    + rewrite key_bump, E, lookup_insert_eq. by rewrite insert_insert_eq.
    + rewrite IH by done. rewrite lookup_insert_ne by done. by rewrite insert_insert_ne by congruence.
Qed.

Lemma add_all_distinct vs : ∀ l, NoDup (map key l) → NoDup (map key (add_all add vs l)).
Proof. induction vs as [|a vs IH]; intros l Hl; [done|]. by apply IH, upsert_distinct. Qed.

Lemma add_all_lookup vs : ∀ l k, NoDup (map key l) →
  view key (add_all add vs l) !! k =
    foldl (fun o a => step o a) (view key l !! k) (List.filter (fun a => bool_decide (key_of a = k)) vs).
Proof.
  induction vs as [|a vs IH]; intros l k Hl; [done|]. cbn [add_all foldl List.filter].
  change (foldl (λ l v, add v l) (add a l) vs) with (add_all add vs (add a l)). rewrite IH by by apply upsert_distinct.
  rewrite upsert_view by done. unfold view_step. case_bool_decide as E.
  - rewrite E, lookup_insert_eq. done.
  - by rewrite lookup_insert_ne.
Qed.

Lemma add_all_keys vs : ∀ l k, k ∈ map key (add_all add vs l) ↔ k ∈ map key l ∨ k ∈ map key_of vs.
Proof.
  induction vs as [|a vs IH]; intros l k; cbn [add_all foldl map]; [by rewrite elem_of_nil; naive_solver|].
  change (foldl (λ l v, add v l) (add a l) vs) with (add_all add vs (add a l)). rewrite IH, upsert_keys, elem_of_cons. naive_solver.
Qed.

(** The records of the result: those of the list, each changed by the values of
    its key, and one per new key. *)
Lemma add_all_elem vs l r : NoDup (map key l) → r ∈ add_all add vs l →
  foldl (fun o a => step o a) (view key l !! key r) (List.filter (fun a => bool_decide (key_of a = key r)) vs) = Some r.
Proof. intros Hl Hr. rewrite <- add_all_lookup by done. apply lookup_view; [by apply add_all_distinct|done]. Qed.

Lemma upsert_same a l : NoDup (map key l) → (∃ r, r ∈ l ∧ key r = key_of a ∧ bump a r = r) → add a l = l.
Proof.
  intros Hnd (r & Hr & Ek & Eb). induction l as [|x l IH]; [by apply elem_of_nil in Hr|]. cbn [upsert map] in *.
  inversion Hnd as [|?? Hn Hnd']; subst. apply elem_of_cons in Hr as [<-|Hr].
  - by rewrite bool_decide_eq_true_2, Eb.
  - rewrite bool_decide_eq_false_2; [by rewrite IH|]. intros E. apply Hn. rewrite E, <- Ek. by apply (list_elem_of_fmap_2 key).
Qed.

Lemma add_all_same vs l : NoDup (map key l) → (∀ a, a ∈ vs → ∃ r, r ∈ l ∧ key r = key_of a ∧ bump a r = r) → add_all add vs l = l.
Proof.
  intros Hl. induction vs as [|a vs IH]; intros Hv; [done|]. cbn [add_all foldl].
  rewrite (upsert_same a l Hl) by (apply Hv; left). apply IH. intros b Hb. apply Hv. by right.
Qed.

(** Adding again what was added, to the sorted list, changes nothing. *)
Lemma add_all_twice (less : R → R → bool) `{!StrictWeak less} vs l :
  NoDup (map key l) → (∀ a r, a ∈ vs → r ∈ add_all add vs l → key r = key_of a → bump a r = r) →
  sort_by less (add_all add vs (sort_by less (add_all add vs l))) = sort_by less (add_all add vs l).
Proof.
  intros Hl Hb. rewrite (add_all_same vs (sort_by less _)); [by apply sort_by_idemp| |].
  - change (NoDup (key <$> sort_by less (add_all add vs l))). rewrite (sort_by_perm less). by apply add_all_distinct.
  - intros a Ha. assert (key_of a ∈ map key (add_all add vs l)) as Hk
      by (apply add_all_keys; right; by apply (list_elem_of_fmap_2 key_of)).
    apply list_elem_of_fmap in Hk as (r & E & Hr). exists r. rewrite elem_of_sort_by. eauto.
Qed.
End upsert.

(** *** Files *)
Abbreviation bump_file :=
  (fun value r => mkFileAccessRecord (fr_Path r) (mergePermissions (fr_Permissions r) (fa_Permissions value)) (fr_SeenInRuns r)).
Abbreviation fresh_file := (fun value => mkFileAccessRecord (fa_Path value) (mergePermissions [] (fa_Permissions value)) 0%Z).

(** The permissions and the count of a record after the values of its path. *)
Lemma file_fold vs : ∀ (o : option FileAccessRecord) r,
  foldl (fun o a => Some (match o with Some r => bump_file a r | None => fresh_file a end)) o vs = Some r →
  fr_SeenInRuns r = match o with Some r0 => fr_SeenInRuns r0 | None => 0%Z end ∧
  (∀ p, known_permission p →
    p ∈ fr_Permissions r ↔ (∃ r0, o = Some r0 ∧ p ∈ fr_Permissions r0) ∨ ∃ a, a ∈ vs ∧ p ∈ fa_Permissions a) ∧
  (vs ≠ [] → mergePermissions [] (fr_Permissions r) = fr_Permissions r).
Proof.
  assert (∀ ps qs, mergePermissions [] (mergePermissions ps qs) = mergePermissions ps qs) as Hcanon.
  { intros ps qs. apply mergePermissions_ext. intros p Hp. rewrite elem_of_mergePermissions by done.
    split; [intros [Hn|?]; [by apply elem_of_nil in Hn|done]|by right]. }
  induction vs as [|a vs IH] using rev_ind; intros o r E.
  - cbn in E. rewrite E. split; [done|]. split; [|done]. intros p _. split; [left; eauto|].
    intros [(r0 & [= <-] & Hp)|(a & Ha & _)]; [done|by apply elem_of_nil in Ha].
  - rewrite foldl_app in E. cbn [foldl] in E. injection E as <-.
    destruct (foldl _ o vs) as [r1|] eqn:E1; cbn [fr_SeenInRuns fr_Permissions].
    + destruct (IH o r1 E1) as (Hs & Hp & _). split; [done|]. split; [|intros _; apply Hcanon].
      intros p Hk. rewrite elem_of_mergePermissions, (Hp p Hk) by done. setoid_rewrite elem_of_app.
      setoid_rewrite list_elem_of_singleton. split.
      * intros [[?|(b & Hb & Hq)]|Hq]; [by left|right; eauto|right; eauto].
      * intros [?|(b & [Hb| ->] & Hq)]; [by left; left|left; right; eauto|by right].
    + assert (o = None ∧ vs = []) as [-> ->].
      { destruct vs as [|b vs _] using rev_ind; [by cbn in E1|]. by rewrite foldl_app in E1. }
      split; [done|]. split; [|intros _; apply Hcanon]. intros p Hk. rewrite elem_of_mergePermissions by done. cbn [app].
      setoid_rewrite list_elem_of_singleton. split.
      * intros [Hn|Hq]; [by apply elem_of_nil in Hn|]. right. eauto.
      * intros [(r0 & ? & _)|(b & -> & Hq)]; [done|by right].
Qed.

Lemma addFile_elem vs l r : NoDup (map fr_Path l) → r ∈ add_all addFileFact vs l →
  fr_SeenInRuns r = match view fr_Path l !! fr_Path r with Some r0 => fr_SeenInRuns r0 | None => 0%Z end ∧
  (∀ p, known_permission p →
    p ∈ fr_Permissions r ↔ (∃ r0, r0 ∈ l ∧ fr_Path r0 = fr_Path r ∧ p ∈ fr_Permissions r0) ∨ grants vs (fr_Path r) p) ∧
  (fr_Path r ∈ map fa_Path vs → mergePermissions [] (fr_Permissions r) = fr_Permissions r).
Proof.
  intros Hl Hr. pose proof (add_all_elem fa_Path fr_Path bump_file fresh_file (fun _ _ => eq_refl) (fun _ => eq_refl) vs l r Hl Hr) as E.
  apply file_fold in E as (Hs & Hp & Hc). split; [done|]. split.
  - intros p Hk. rewrite (Hp p Hk). unfold grants.
    split; (intros [H1|(a & Ha & Hq)]; [left|right]).
    + destruct H1 as (r0 & H1 & Hq). apply lookup_view in H1 as [? ?]; [|done]. eauto.
    + apply list_elem_of_In, filter_In in Ha as [Ha Hb]. apply bool_decide_eq_true in Hb. exists a. by rewrite list_elem_of_In.
    + destruct H1 as (r0 & H0 & H1 & Hq). exists r0. split; [|done]. by apply lookup_view.
    + destruct Hq as [Hb Hq]. exists a. split; [|done]. apply list_elem_of_In, filter_In.
      split; [by apply list_elem_of_In|by apply bool_decide_eq_true].
  - intros Hin. apply Hc. apply list_elem_of_fmap in Hin as (a & Ea & Ha). intros Hnil.
    assert (a ∈ List.filter (fun a => bool_decide (fa_Path a = fr_Path r)) vs) as Hf.
    { apply list_elem_of_In, filter_In. split; [by apply list_elem_of_In|by apply bool_decide_eq_true]. }
    rewrite Hnil in Hf. by apply elem_of_nil in Hf.
Qed.

Lemma addFile_twice vs l : NoDup (map fr_Path l) →
  let f k := sort_by (less_on fr_Path string_ltb) (add_all addFileFact vs k) in f (f l) = f l.
Proof.
  intros Hl f. subst f. cbv beta. apply (add_all_twice fa_Path fr_Path bump_file fresh_file (fun _ _ => eq_refl) (fun _ => eq_refl)); [apply _|exact Hl|].
  intros a r Ha Hr Ek.
  destruct (addFile_elem vs l r Hl Hr) as (_ & Hp & Hc).
  assert (mergePermissions (fr_Permissions r) (fa_Permissions a) = fr_Permissions r) as E; [|rewrite E; by destruct r].
  transitivity (mergePermissions [] (fr_Permissions r)).
  - apply mergePermissions_ext. intros p Hk. split.
    + intros [?|Hq]; [by right|]. right. apply (Hp p Hk). right. exists a. by rewrite Ek.
    + intros [Hn|?]; [by apply elem_of_nil in Hn|by left].
  - apply Hc. rewrite Ek. by apply (list_elem_of_fmap_2 fa_Path).
Qed.

(** Kinds of facts whose record is kept when it exists. *)
Lemma keep_elem {A R K} `{Countable K} (key_of : A → K) (key : R → K) (fresh : A → R) vs l r :
  (∀ a, key (fresh a) = key_of a) → NoDup (map key l) → r ∈ add_all (upsert key_of key (fun _ r => r) fresh) vs l →
  r ∈ l ∨ (key r ∉ map key l ∧ ∃ a, a ∈ vs ∧ r = fresh a).
Proof.
  intros Hf Hl Hr. pose proof (add_all_elem key_of key (fun _ r => r) fresh (fun _ _ => eq_refl) Hf vs l r Hl Hr) as E.
  assert (∀ xs o, foldl (fun o a => Some (match o with Some r => r | None => fresh a end)) o xs = Some r →
    o = Some r ∨ (o = None ∧ ∃ a, a ∈ xs ∧ r = fresh a)) as Hgo.
  { clear. induction xs as [|x xs IH]; intros o E; cbn in E; [by left|].
    apply IH in E as [[= <-]|[? _]]; [|done]. destruct o as [r0|]; [by left|]. right. split; [done|]. exists x. by split; [left|]. }
  apply Hgo in E as [E|[E (a & Ha & ->)]].
  - left. by apply lookup_view in E as [? _].
  - right. split; [by apply lookup_view_None|]. exists a. split; [|done].
    apply list_elem_of_In, filter_In in Ha as [Ha _]. by apply list_elem_of_In.
Qed.

Lemma keep_twice {A R K} `{Countable K} (key_of : A → K) (key : R → K) (fresh : A → R) (less : R → R → bool) `{!StrictWeak less} vs l :
  (∀ a, key (fresh a) = key_of a) → NoDup (map key l) →
  let f k := sort_by less (add_all (upsert key_of key (fun _ r => r) fresh) vs k) in f (f l) = f l.
Proof. intros Hf Hl f. subst f. cbv beta.
  exact (add_all_twice key_of key (fun _ r => r) fresh (fun _ _ => eq_refl) Hf less vs l Hl (fun _ _ _ _ _ => eq_refl)).
Qed.

(** *** The effect *)
Definition distinct_facts (p : Population) : Prop :=
  NoDup (map fr_Path (p_FilesystemAccesses p)) ∧ NoDup (map net_record_key (p_NetworkAccesses p)) ∧
  NoDup (map cr_Name (p_CapabilityAccesses p)).

Lemma less_net_record_lex a b : less_net_record a b = less_lex (less_on nr_Port Z.ltb) (less_on nr_Direction string_ltb) a b.
Proof.
  unfold less_net_record, less_lex, less_on.
  destruct (Z.eqb_spec (nr_Port a) (nr_Port b)), (Z.ltb_spec (nr_Port a) (nr_Port b)), (Z.ltb_spec (nr_Port b) (nr_Port a));
    cbn; done || lia.
Qed.

#[export] Instance less_net_record_weak : StrictWeak less_net_record.
Proof.
  pose proof (less_lex_weak (less_on nr_Port Z.ltb) (less_on nr_Direction string_ltb)) as Hw.
  split; intros x y; rewrite !less_net_record_lex; [apply less_asym|]. intros z. rewrite !less_net_record_lex. apply less_negtrans.
Qed.

Definition net_facts (c : Contribution) : list NetworkAccess := c_NetworkConnect c ++ c_NetworkBind c.

Lemma add_net_facts c l :
  add_all addNetworkFact (c_NetworkBind c) (add_all addNetworkFact (c_NetworkConnect c) l) = add_all addNetworkFact (net_facts c) l.
Proof. unfold add_all, net_facts. by rewrite foldl_app. Qed.

Lemma sort_keys {R K} (key : R → K) less l : NoDup (map key (sort_by less l)) ↔ NoDup (map key l).
Proof. change (map key ?x) with (key <$> x). by rewrite (sort_by_perm less). Qed.

Lemma sort_keys_elem {R K} (key : R → K) less l k : k ∈ map key (sort_by less l) ↔ k ∈ map key l.
Proof. change (map key ?x) with (key <$> x). by rewrite (sort_by_perm less). Qed.

(** What a contribution does to a population with one record per fact: the
    facts are the union of both, a path is granted what either granted it, no
    run is counted, no recorded fact is lost, and doing it again changes
    nothing. *)
Theorem addContributionFacts_exact pop c :
  distinct_facts pop →
  let q := addContributionFacts pop c in
  distinct_facts q ∧
  (∀ k, k ∈ map fr_Path (p_FilesystemAccesses q) ↔ k ∈ map fr_Path (p_FilesystemAccesses pop) ∨ k ∈ map fa_Path (c_Filesystem c)) ∧
  (∀ r p, r ∈ p_FilesystemAccesses q → known_permission p →
    p ∈ fr_Permissions r ↔
    (∃ r0, r0 ∈ p_FilesystemAccesses pop ∧ fr_Path r0 = fr_Path r ∧ p ∈ fr_Permissions r0) ∨ grants (c_Filesystem c) (fr_Path r) p) ∧
  (∀ r r0, r ∈ p_FilesystemAccesses q → r0 ∈ p_FilesystemAccesses pop → fr_Path r0 = fr_Path r → fr_SeenInRuns r = fr_SeenInRuns r0) ∧
  (∀ k, k ∈ map net_record_key (p_NetworkAccesses q) ↔ k ∈ map net_record_key (p_NetworkAccesses pop) ∨ k ∈ map net_key (net_facts c)) ∧
  (∀ k, k ∈ map cr_Name (p_CapabilityAccesses q) ↔ k ∈ map cr_Name (p_CapabilityAccesses pop) ∨ k ∈ map ca_Name (c_Capabilities c)) ∧
  addContributionFacts q c = q.
Proof.
  intros (Hf & Hn & Hc) q. subst q. unfold distinct_facts, addContributionFacts.
  cbn [p_FilesystemAccesses p_NetworkAccesses p_CapabilityAccesses p_Qualified p_Scope p_TargetBinding p_Target p_Container
    p_ImageIdentity p_BinaryPath p_RunsRecorded p_Contributors p_SyscallAccesses p_ObservationContributions p_PendingContributionMarkers].
  rewrite !add_net_facts, !sort_keys. split.
  { split; [by apply (add_all_distinct fa_Path fr_Path bump_file fresh_file)|]. split.
    - by apply (add_all_distinct net_key net_record_key (fun _ r => r) (fun v => mkNetworkAccessRecord (na_Port v) (na_Direction v) 0)).
    - by apply (add_all_distinct ca_Name cr_Name (fun _ r => r) (fun v => mkCapabilityAccessRecord (ca_Name v) 0)). }
  split. { intros k. rewrite sort_keys_elem. by apply (add_all_keys fa_Path fr_Path bump_file fresh_file). }
  split. { intros r p Hr%elem_of_sort_by Hk. apply addFile_elem in Hr as (_ & Hp & _); [|done]. by apply Hp. }
  split. { intros r r0 Hr%elem_of_sort_by Hr0 E. apply addFile_elem in Hr as (-> & _); [|done].
    assert (view fr_Path (p_FilesystemAccesses pop) !! fr_Path r = Some r0) as -> by by apply lookup_view. done. }
  split. { intros k. rewrite sort_keys_elem.
    by apply (add_all_keys net_key net_record_key (fun _ r => r) (fun v => mkNetworkAccessRecord (na_Port v) (na_Direction v) 0)). }
  split. { intros k. rewrite sort_keys_elem.
    by apply (add_all_keys ca_Name cr_Name (fun _ r => r) (fun v => mkCapabilityAccessRecord (ca_Name v) 0)). }
  f_equal; [by apply addFile_twice| |].
  - exact (keep_twice net_key net_record_key (fun v => mkNetworkAccessRecord (na_Port v) (na_Direction v) 0) less_net_record _ _ (fun _ => eq_refl) Hn).
  - exact (keep_twice ca_Name cr_Name (fun v => mkCapabilityAccessRecord (ca_Name v) 0) (less_on cr_Name string_ltb) _ _ (fun _ => eq_refl) Hc).
Qed.

Lemma addContributionFacts_exact_witness :
  let c := ex_contribution [ex_fact "/etc" [PermissionWrite]; ex_fact "/a" [PermissionRead]] in
  distinct_facts ex_stored_population ∧ addContributionFacts (addContributionFacts ex_stored_population c) c = addContributionFacts ex_stored_population c.
Proof.
  intros c. assert (distinct_facts ex_stored_population) as Hd.
  { split; [|split]; cbn; apply NoDup_singleton. }
  split; [exact Hd|]. destruct (addContributionFacts_exact ex_stored_population c Hd) as (_ & _ & _ & _ & _ & _ & H). exact H.
Defined.

(** ** The contribution of an Observation *)

(** Two packages derive the population of an Observation, one to write history
    and one to show it: they agree. *)
Lemma population_is_subject o i : containerPopulationFromObservation o = Ok i ↔ observationEnvironmentSubject o = Some i.
Proof.
  unfold containerPopulationFromObservation, observationEnvironmentSubject. cbv zeta.
  destruct (rts_items _) as [|target [|? ?]]; [done| |done].
  destruct (RuntimeContainerInstance_Valid target); cbn [negb orb]; [|done].
  destruct (bool_decide (ri_Slot target = _)); cbn [negb]; [|done].
  destruct (revision_image _ "" _) as [image|]; cbn [eligible mbind option_bind result_bind]; [|by destruct (empty _)].
  destruct (instance_image _ image _) as [image'|]; cbn [eligible mbind option_bind result_bind]; [|by destruct (empty _)].
  set (ident := mkPopulationIdentity ScopeContainer _ _ image' "").
  assert (empty image' = true → PopulationIdentity_Validate ident ≠ Ok ()) as Himg.
  { intros E. unfold PopulationIdentity_Validate, ident. cbn [pi_Target pi_Container pi_ImageIdentity].
    rewrite E, orb_true_r. done. }
  assert (empty (LegacyString (slot_target (ri_Slot target))) = true → PopulationIdentity_Validate ident ≠ Ok ()) as Htgt.
  { intros E. unfold PopulationIdentity_Validate, ident. cbn [pi_Target pi_Container pi_ImageIdentity]. by rewrite E. }
  unfold empty in *.
  assert (subject_valid ident = true ↔ PopulationIdentity_Validate ident = Ok ()) as Hv.
  { unfold subject_valid. destruct (PopulationIdentity_Validate ident) as [[]|]; done. }
  destruct (PopulationIdentity_Validate ident) as [[]|e]; cbn [mbind result_bind].
  - rewrite (proj2 Hv eq_refl). destruct (bool_decide (LegacyString _ = "")); [by destruct Htgt|].
    destruct (bool_decide (image' = "")); [by destruct Himg|]. split; congruence.
  - destruct (subject_valid ident); [by pose proof (proj1 Hv eq_refl)|].
    by destruct (bool_decide (LegacyString _ = "")), (bool_decide (image' = "")).
Qed.

Definition named (l : list SourceResult) (name : string) : list SourceResult :=
  List.filter (fun r => bool_decide (es_Name (sr_Source r) = name)) l.
Definition results_of (o : Observation) : string → list SourceResult := named (ObservationDomain.sources (o_result o)).

Lemma named_cons {B} (F : SourceResult → list B) r l name pre :
  (pre ++ (if bool_decide (es_Name (sr_Source r) = name) then F r else [])) ++ flat_map F (named l name) =
  pre ++ flat_map F (named (r :: l) name).
Proof.
  unfold named. cbn [List.filter]. destruct (bool_decide _); cbn [flat_map]; rewrite <- app_assoc; reflexivity.
Qed.

Lemma add_sources_facts l : ∀ c c', add_sources c l = Ok c' →
  c_ObservationID c' = c_ObservationID c ∧ c_Population c' = c_Population c ∧
  c_Filesystem c' = c_Filesystem c ++
    flat_map (fun r => map (fun f => mkFileAccess (ff_Path f) (ff_Permissions f) "" 0) (f_Filesystem (sr_Facts r))) (named l "filesystem") ∧
  c_NetworkConnect c' = c_NetworkConnect c ++ flat_map (fun r => map network_access (f_NetworkConnect (sr_Facts r))) (named l "networkConnect") ∧
  c_NetworkBind c' = c_NetworkBind c ++ flat_map (fun r => map network_access (f_NetworkBind (sr_Facts r))) (named l "networkBind") ∧
  c_Capabilities c' = c_Capabilities c ++
    flat_map (fun r => map (fun f => mkCapabilityAccess (cf_Name f) "" 0) (f_Capabilities (sr_Facts r))) (named l "capabilities") ∧
  ∃ summaries, c_Sources c' = c_Sources c ++ summaries ∧ Forall2 (fun r s => source_contribution r = Ok s) l summaries.
Proof.
  induction l as [|r l IH]; intros c c' E; cbn [add_sources] in E.
  - apply Ok_inj in E as <-. cbn. rewrite !app_nil_r. repeat split; try done. exists []. by rewrite app_nil_r.
  - apply result_bind_Ok in E as (c1 & E1 & E). unfold add_source in E1. apply result_bind_Ok in E1 as (summary & Hs & E1%Ok_inj).
    apply IH in E as (Ei & Ep & Ef & Ec & Eb & Eca & summaries & Es & Hall). subst c1.
    cbn [c_ObservationID c_Population c_Filesystem c_NetworkConnect c_NetworkBind c_Capabilities c_Sources] in *.
    rewrite Ei, Ep, Ef, Ec, Eb, Eca. split; [done|]. split; [done|].
    split; [exact (named_cons (fun r => map (fun f => mkFileAccess (ff_Path f) (ff_Permissions f) "" 0) _) r l _ _)|].
    split; [exact (named_cons (fun r => map network_access (f_NetworkConnect (sr_Facts r))) r l _ _)|].
    split; [exact (named_cons (fun r => map network_access (f_NetworkBind (sr_Facts r))) r l _ _)|].
    split; [exact (named_cons (fun r => map (fun f => mkCapabilityAccess (cf_Name f) "" 0) _) r l _ _)|].
    exists (summary :: summaries). rewrite Es, <- app_assoc. split; [done|]. by constructor.
Qed.

(** Only a frozen and completed Observation contributes, to the population
    under which its evidence is shown, exactly the normalised facts of its file,
    network and capability sources and one summary per source: facts of the
    exec source become no policy fact. *)
Theorem ContributionFromObservation_exact o c :
  ContributionFromObservation o = Ok c →
  o_frozen o = true ∧ ex_State (o_execution o) = ExecutionCompleted ∧
  observationEnvironmentSubject o = Some (c_Population c) ∧ c_ObservationID c = o_id o ∧ is_ok (normalize c) = true ∧
  c_Filesystem c = flat_map (fun r => map (fun f => mkFileAccess (ff_Path f) (ff_Permissions f) "" 0) (f_Filesystem (sr_Facts r)))
    (results_of o "filesystem") ∧
  c_NetworkConnect c = flat_map (fun r => map network_access (f_NetworkConnect (sr_Facts r))) (results_of o "networkConnect") ∧
  c_NetworkBind c = flat_map (fun r => map network_access (f_NetworkBind (sr_Facts r))) (results_of o "networkBind") ∧
  c_Capabilities c = flat_map (fun r => map (fun f => mkCapabilityAccess (cf_Name f) "" 0) (f_Capabilities (sr_Facts r)))
    (results_of o "capabilities") ∧
  ∃ summaries, c_Sources c ≡ₚ summaries ∧ Forall2 (fun r s => source_contribution r = Ok s) (ObservationDomain.sources (o_result o)) summaries.
Proof.
  unfold ContributionFromObservation. intros E.
  apply result_guard_Ok in E as [[[Hf Hs]%orb_false_iff _]%orb_false_iff (population & Hp & E)%result_bind_Ok].
  cbv zeta in E. apply result_guard_Ok in E as [_ (c1 & E1 & E)%result_bind_Ok]. apply result_bind_Ok in E as (n & Hn & E%Ok_inj).
  apply add_sources_facts in E1 as (Ei & Ep & Efs & Ec & Eb & Eca & summaries & Es & Hall). subst c.
  cbn [c_ObservationID c_Population c_Filesystem c_NetworkConnect c_NetworkBind c_Capabilities c_Sources app] in *.
  apply negb_false_iff in Hf, Hs. apply bool_decide_eq_true in Hs. rewrite Hn.
  split; [done|]. split; [done|]. split.
  { pose proof Hp as Hsub%population_is_subject. rewrite Hsub, Ep. f_equal.
    assert (pi_BinaryPath population = "") as Eb'; [|destruct population; cbn in *; by rewrite Eb'].
    clear -Hp. unfold containerPopulationFromObservation in Hp. destruct (rts_items _) as [|target [|? ?]]; [done| |done].
    cbv zeta in Hp. inv_ok. done. }
  do 6 (split; [done|]). exists summaries. split; [|done]. rewrite Es. apply sort_by_perm.
Qed.

Definition ex_completed : Observation :=
  let o := ex_observation "obs-1" "w1" ExecutionCompleted in
  ObservationDomain.mkObservation (o_id o) (o_spec o) (o_binding o)
    (mkObservationExecution ExecutionCompleted "DURATION_ELAPSED" 1 2 None None)
    (mkObservationResult [ObservationDomain.mkSourceResult (mkEvidenceSource "capabilities" "ebpf" "1")
       (mkSourceQualification true true true AttributionCompleted 1 0) EvidenceAvailable []
       (mkNormalizedFacts [] [] [] [] [mkCapabilityFact "CAP_KILL"]) []])
    (o_provenance o) true true.

Lemma ContributionFromObservation_exact_witness :
  ∃ c, ContributionFromObservation ex_completed = Ok c ∧ c_Capabilities c = [mkCapabilityAccess "CAP_KILL" "" 0].
Proof.
  destruct (ContributionFromObservation ex_completed) as [c|] eqn:E; [|vm_compute in E; discriminate].
  exists c. split; [reflexivity|].
  destruct (ContributionFromObservation_exact ex_completed c E) as (_ & _ & _ & _ & _ & _ & _ & _ & Hc & _). exact Hc.
Defined.
