(* ===== verification/ContributionStore.v ===== *)
(** * internal/history: the protocol that applies a contribution

    receipt_store.go and the calls of contribution.go: a receipt per
    contribution key goes from PREPARED to COMMITTED, the effect on the training
    history is recorded in the same write as a marker and the provenance of the
    observation, and the marker is removed after the commit.  Receipts and
    histories are two resources of one API server. *)
From S2P Require Import Prelude GoStd Identity Digest Json Policy Target Unstructured Kube Journal History HistoryPersisted HistoryStore Contribution.
Import Profile History.

(** ** Receipts *)
Definition ErrReceiptIdentityMismatch : string := "contribution receipt identity mismatch".
Definition errReceiptInitializing : string := "contribution receipt status initialization pending".
Definition ReceiptPrepared : string := "PREPARED".
Definition ReceiptCommitted : string := "COMMITTED".
Definition receiptInitializationReadAttempts : nat := 5.
Definition contributionConvergenceReads : nat := 5.

Record ObservationContributionReceipt := mkReceipt {
  r_ObservationID : string; r_Population : PopulationFingerprint; r_TrainingHistoryNamespace : string;
  r_TrainingHistoryName : string; r_ContributionKeyDigest : string; r_ContentDigest : string; r_State : string }.

Definition isSHA256 (value : string) : bool := (String.length value =? 64) && all_bytes (is_hex false) value.

Definition receipt_key (r : ObservationContributionReceipt) : ContributionKey := mkContributionKey (r_ObservationID r) (r_Population r).

Definition Receipt_Validate (r : ObservationContributionReceipt) : result unit :=
  let key := receipt_key r in
  fail_if negb (ContributionKey_Valid key) || blank (r_TrainingHistoryNamespace r) || blank (r_TrainingHistoryName r) ||
          (negb (bool_decide (r_State r = ReceiptPrepared)) && negb (bool_decide (r_State r = ReceiptCommitted)))
    with mkError ErrInvalidContribution "invalid receipt";
  match ContributionKey_Digest key with
  | Err _ => Err (mkError ErrReceiptIdentityMismatch "contribution key digest mismatch")
  | Ok digest =>
      fail_if negb (bool_decide (digest = r_ContributionKeyDigest r))
        with mkError ErrReceiptIdentityMismatch "contribution key digest mismatch";
      fail_if negb (empty (r_ContentDigest r)) && negb (isSHA256 (r_ContentDigest r))
        with mkError ErrInvalidContribution "invalid content digest";
      Ok ()
  end.

(** The object: its [spec] and its [status], a subresource. *)
Definition ReceiptObject : Type := KObject json json.

Definition optional (key value : string) : list (string * json) := if empty value then [] else [(key, JStr value)].

Definition receipt_spec (r : ObservationContributionReceipt) : json :=
  let p := r_Population r in
  obj_of
    ([("observationID", JStr (r_ObservationID r));
      ("populationFingerprint", obj_of
         ([("target", JStr (pi_Target p)); ("container", JStr (pi_Container p)); ("imageIdentity", JStr (pi_ImageIdentity p))] ++
          optional "scope" (pi_Scope p) ++ optional "binaryPath" (pi_BinaryPath p)));
      ("trainingHistoryNamespace", JStr (r_TrainingHistoryNamespace r));
      ("trainingHistoryName", JStr (r_TrainingHistoryName r));
      ("contributionKeyDigest", JStr (r_ContributionKeyDigest r))] ++ optional "contentDigest" (r_ContentDigest r)).

Definition receiptToUnstructured (name : string) (r : ObservationContributionReceipt) : ReceiptObject :=
  mkObject name "" "" (Some (receipt_spec r)) (Some (obj_of [("state", JStr (r_State r))])).

Section receipt.
Context `{!Unstructured}.

Definition with_state (r : ObservationContributionReceipt) (state : string) : ObservationContributionReceipt :=
  mkReceipt (r_ObservationID r) (r_Population r) (r_TrainingHistoryNamespace r) (r_TrainingHistoryName r)
    (r_ContributionKeyDigest r) (r_ContentDigest r) state.

Definition receiptFromUnstructured (obj : ReceiptObject) : result ObservationContributionReceipt :=
  let spec := default JNull (o_Spec obj) in
  match NestedMap ["populationFingerprint"] spec with
  | Err _ | Ok None => Err (mkError ErrInvalidContribution "missing population fingerprint")
  | Ok (Some fingerprint) =>
      let f key := text key (JObj fingerprint) in
      population ← normalized (mkPopulationIdentity (f "scope") (f "target") (f "container") (f "imageIdentity") (f "binaryPath"));
      let r := mkReceipt (text "observationID" spec) population (text "trainingHistoryNamespace" spec)
        (text "trainingHistoryName" spec) (text "contributionKeyDigest" spec) (text "contentDigest" spec) "" in
      let state := text "state" (default JNull (o_Status obj)) in
      fail_if blank state && is_ok (Receipt_Validate (with_state r ReceiptPrepared))
        with mkError errReceiptInitializing "";
      let r := with_state r state in
      _ ← Receipt_Validate r; Ok r
  end.

(** [SetNestedField] of [status.state]. *)
Definition set_receipt_state (obj : ReceiptObject) (state : string) : result ReceiptObject :=
  j ← SetNestedField ["status"; "state"] (JStr state)
        (JObj (match o_Status obj with Some status => [("status", status)] | None => [] end));
  status ← NestedField ["status"] j;
  Ok (mkObject (o_Name obj) (o_UID obj) (o_ResourceVersion obj) (o_Spec obj) status).
End receipt.

(** ** The calls of the receipt store

    [wait] is the select between a timer of 10 milliseconds and the end of the
    context, which is an error. *)
Class Waiting (W : Type) := { wait : M W unit }.

Section store.
Context {W : Type} `{!Api W json unit, !Api W json json, !Waiting W, !StructConverter, !Unstructured}.

Definition receipt_matches (key : ContributionKey) (r : ObservationContributionReceipt) : bool :=
  bool_decide (r_ObservationID r = ck_ObservationID key) && PopulationFingerprint_Equal (r_Population r) (ck_Population key).

(** The receipt and its resource version. *)
Definition GetReceipt (key : ContributionKey) : M W (option (ObservationContributionReceipt * string)) :=
  name <- m_lift (ReceiptName key) ;!
  m_try (api_get name) (fun obj : result ReceiptObject =>
    match obj with
    | Err e => if IsNotFound e then m_ret None else m_err e
    | Ok obj =>
        receipt <- m_lift (receiptFromUnstructured obj) ;!
        guard negb (receipt_matches key receipt) with mkError ErrReceiptIdentityMismatch "" ;!
        m_ret (Some (receipt, o_ResourceVersion obj))
    end).

Fixpoint get_initialized (reads : nat) (key : ContributionKey) : M W (option (ObservationContributionReceipt * string)) :=
  match reads with
  | 0 => m_err (mkError errReceiptInitializing "after 5 reads")
  | S k =>
      m_try (GetReceipt key) (fun r =>
        match r with
        | Err e =>
            if negb (bool_decide (err_is e = errReceiptInitializing)) then m_err e
            else if 0 <? k then do wait ;! get_initialized k key else get_initialized k key
        | Ok r => m_ret r
        end)
  end.

Definition GetAfterInitialization : ContributionKey → M W (option (ObservationContributionReceipt * string)) :=
  get_initialized receiptInitializationReadAttempts.

Definition CreatePrepared (key : ContributionKey) (historyNamespace historyName contentDigest : string)
  : M W (ObservationContributionReceipt * string) :=
  name <- m_lift (ReceiptName key) ;!
  population <- m_lift (normalized (ck_Population key)) ;!
  let key := mkContributionKey (ck_ObservationID key) population in
  let digest := match ContributionKey_Digest key with Ok d => d | Err _ => "" end in
  let receipt := mkReceipt (ck_ObservationID key) population historyNamespace historyName digest contentDigest ReceiptPrepared in
  do m_lift (Receipt_Validate receipt) ;!
  obj <- api_create (receiptToUnstructured name receipt) ;!
  obj <- m_lift (set_receipt_state obj ReceiptPrepared) ;!
  obj <- api_update_status obj ;!
  created <- m_lift (receiptFromUnstructured obj) ;!
  m_ret (created, o_ResourceVersion obj).

Definition content_mismatch {A} : M W A := m_err (mkError ErrContributionContentMismatch "committed receipt content mismatch").

Definition Commit (key : ContributionKey) (resourceVersion expectedContentDigest : string)
  : M W (ObservationContributionReceipt * string) :=
  name <- m_lift (ReceiptName key) ;!
  obj <- (api_get name : M W ReceiptObject) ;!
  receipt <- m_lift (receiptFromUnstructured obj) ;!
  guard negb (receipt_matches key receipt) with mkError ErrReceiptIdentityMismatch "" ;!
  if bool_decide (r_State receipt = ReceiptCommitted) then
    if negb (bool_decide (r_ContentDigest receipt = expectedContentDigest)) then content_mismatch
    else m_ret (receipt, o_ResourceVersion obj)
  else
    guard negb (bool_decide (r_State receipt = ReceiptPrepared)) with mkError ErrInvalidContribution "receipt is not prepared" ;!
    let obj := mkObject (o_Name obj) (o_UID obj) (if empty resourceVersion then o_ResourceVersion obj else resourceVersion)
                 (o_Spec obj) (o_Status obj) in
    obj <- m_lift (set_receipt_state obj ReceiptCommitted) ;!
    m_try (api_update_status obj) (fun updated =>
      match updated with
      | Ok updated =>
          committed <- m_lift (receiptFromUnstructured updated) ;! m_ret (committed, o_ResourceVersion updated)
      | Err e =>
          if IsConflict e then
            m_try (GetReceipt key) (fun fresh =>
              match fresh with
              | Ok (Some (fresh, rv)) =>
                  if bool_decide (r_State fresh = ReceiptCommitted) then
                    if negb (bool_decide (r_ContentDigest fresh = expectedContentDigest)) then content_mismatch
                    else m_ret (fresh, rv)
                  else m_err e
              | _ => m_err e
              end)
          else m_err e
      end).

(** ** The history effect *)
Definition resolveContributionHistoryName (fingerprint : PopulationFingerprint) : M W string :=
  identity <- m_lift (normalized fingerprint) ;!
  if bool_decide (pi_Scope identity = ScopeContainer) then m_lift (RecordNameContainerV2 identity)
  else
    let v2Name := RecordNameV2 (pi_Container fingerprint) (pi_BinaryPath fingerprint) in
    let legacyName := RecordNameLegacy (pi_Container fingerprint) (pi_BinaryPath fingerprint) in
    m_try (api_get v2Name) (fun v2 : result TrainingHistory =>
      match v2 with
      | Ok _ => m_ret v2Name
      | Err e =>
          guard negb (IsNotFound e) with e ;!
          if bool_decide (legacyName = v2Name) then m_ret v2Name
          else m_try (api_get legacyName) (fun legacy : result TrainingHistory =>
            match legacy with
            | Ok _ => m_ret legacyName
            | Err e => guard negb (IsNotFound e) with e ;! m_ret v2Name
            end)
      end).
End store.

(** The population of the key, a new one when there is none. *)
Definition started_population (f : PopulationFingerprint) : Population :=
  mkPopulation true (pi_Scope f) None (pi_Target f) (pi_Container f) (pi_ImageIdentity f) (pi_BinaryPath f)
    0 [] [] [] [] [] [] [].

Definition is_population (f : PopulationFingerprint) (p : Population) : bool :=
  PopulationFingerprint_Equal (populationFingerprint p) f.

Definition population_for (f : PopulationFingerprint) (l : list Population) : Population :=
  default (started_population f) (List.find (is_population f) l).

Fixpoint replace_population (f : PopulationFingerprint) (q : Population) (l : list Population) : list Population :=
  match l with
  | [] => [q]
  | p :: l => if is_population f p then q :: l else p :: replace_population f q l
  end.

(** The first summary of the capability source decides. *)
Definition capability_facts_complete (l : list ObservationSourceContribution) : bool :=
  match List.find (fun s => bool_decide (os_Source s = "capabilities")) l with
  | Some s => negb (bool_decide (os_EvidenceState s = "UNKNOWN")) && bool_decide (os_AttributionState s = "COMPLETED") &&
      os_BackendHealthy s && os_AttachedForWindow s && os_FlushConfirmed s && (os_ExcludedCount s =? 0)%Z
  | None => false
  end.

Definition provenance_of (c : Contribution) : ObservationContribution :=
  mkObservationContribution (c_ObservationID c) (c_Sources c) (map ca_Name (c_Capabilities c)) (capability_facts_complete (c_Sources c)).

(** The population with the facts, the provenance and the marker. *)
Definition contributed (c : Contribution) (marker : ContributionMarker) (p : Population) : Population :=
  let q := addContributionFacts p c in
  sortObservationMetadata (with_metadata q (p_ObservationContributions q ++ [provenance_of c])
    (p_PendingContributionMarkers q ++ [marker])).

(** What one reading of the record leads to. *)
Inductive effect :=
| EffectMarked
| EffectRefused (e : error)
| EffectRecorded
| EffectApply (record : Record_).

Definition history_effect (record : Record_) (key : ContributionKey) (c : Contribution) (marker : ContributionMarker) : effect :=
  let f := ck_Population key in
  let pop := population_for f (rec_Populations record) in
  if existsb (fun m => bool_decide (cm_KeyDigest m = cm_KeyDigest marker)) (p_PendingContributionMarkers pop) then EffectMarked
  else if maxObservationContributions <=? length (p_ObservationContributions pop)
  then EffectRefused (mkError ErrAuditProvenanceCapacity "")
  else if maxPendingContributionMarkers <=? length (p_PendingContributionMarkers pop)
  then EffectRefused (mkError ErrContributionMarkerCapacity "")
  else if existsb (fun existing => bool_decide (oc_ObservationID existing = c_ObservationID c)) (p_ObservationContributions pop)
  then EffectRecorded
  else EffectApply (with_populations record (replace_population f (contributed c marker pop) (rec_Populations record))).

Definition no_record : Record_ := mkRecord "" "" 0 [] [] [] [] [].
Definition ErrHistoryCASExhausted : string := "training history CAS retries exhausted".
Definition ErrHistoryPopulationNotFound : string := "training history population not found".
Definition ErrReceiptCommitFailure : string := "contribution receipt commit failed".
Definition ErrMarkerCleanupFailure : string := "contribution marker cleanup failed".
Definition ErrContributionKeyCollision : string := "contribution key collision".

Section protocol.
Context {W : Type} `{!Api W json unit, !Api W json json, !Waiting W, !StructConverter, !Unstructured}.

Definition provenance_without_marker {A} : M W A :=
  m_err (mkError ErrInvalidContribution "provenance already exists without marker").

(** The convergence window: further reads of a PREPARED receipt. *)
Fixpoint converge (reads : nat) (key : ContributionKey) (digest : string) : M W bool :=
  match reads with
  | 0 => provenance_without_marker
  | S k =>
      do wait ;!
      receipt <- GetReceipt key ;!
      match receipt with
      | Some (r, _) =>
          if bool_decide (r_State r = ReceiptCommitted) then
            if negb (bool_decide (r_ContentDigest r = digest)) then content_mismatch else m_ret true
          else converge k key digest
      | None => converge k key digest
      end
  end.

(** Provenance without a marker: only a committed receipt of the same content
    proves that an equivalent caller finished. *)
Definition authoritative_receipt (key : ContributionKey) (digest : string) : M W bool :=
  receipt <- GetReceipt key ;!
  match receipt with
  | Some (r, _) =>
      if bool_decide (r_State r = ReceiptCommitted) then
        if negb (bool_decide (r_ContentDigest r = digest)) then content_mismatch else m_ret true
      else if bool_decide (r_State r = ReceiptPrepared) then converge (contributionConvergenceReads - 1) key digest
      else provenance_without_marker
  | None => provenance_without_marker
  end.

(** [applyHistoryEffect]: whether a marker was present and whether the effect
    was applied. *)
Fixpoint apply_effect (attempts : nat) (name : string) (key : ContributionKey) (c : Contribution)
  (marker : ContributionMarker) (digest : string) : M W (bool * bool) :=
  match attempts with
  | 0 => m_err (mkError ErrHistoryCASExhausted "")
  | S k =>
      m_try (api_get name) (fun got : result TrainingHistory =>
        match got with
        | Ok obj =>
            record <- m_lift (record_of obj) ;!
            match history_effect record key c marker with
            | EffectMarked => m_ret (true, false)
            | EffectRefused e => m_err e
            | EffectRecorded => present <- authoritative_receipt key digest ;! m_ret (present, false)
            | EffectApply record =>
                spec <- m_lift (toUnstructured record) ;!
                m_try (api_update (mkObject name "" (o_ResourceVersion obj) (Some spec) None : TrainingHistory)) (fun r =>
                  match r with
                  | Ok _ => m_ret (false, true)
                  | Err e => if IsConflict e then apply_effect k name key c marker digest else m_err e
                  end)
            end
        | Err e =>
            guard negb (IsNotFound e) with e ;!
            match history_effect no_record key c marker with
            | EffectApply record =>
                spec <- m_lift (toUnstructured record) ;!
                m_try (api_create (mkObject name "" "" (Some spec) None : TrainingHistory)) (fun r =>
                  match r with
                  | Ok _ => m_ret (false, true)
                  | Err e => if IsAlreadyExists e then apply_effect k name key c marker digest else m_err e
                  end)
            | _ => m_err e
            end
        end)
  end.

Definition applyHistoryEffect (name : string) (key : ContributionKey) (c : Contribution) (marker : ContributionMarker)
  : M W (bool * bool) :=
  digest <- m_lift (contentDigest c) ;! apply_effect 5 name key c marker digest.

(** The record without the first marker of the digest, or that there is none. *)
Fixpoint drop_marker (digest : string) (l : list ContributionMarker) : option (list ContributionMarker) :=
  match l with
  | [] => None
  | m :: l => if bool_decide (cm_KeyDigest m = digest) then Some l
              else match drop_marker digest l with Some l => Some (m :: l) | None => None end
  end.

Definition cleaned (key : ContributionKey) (marker : ContributionMarker) (record : Record_) : result (option Record_) :=
  let f := ck_Population key in
  match List.find (is_population f) (rec_Populations record) with
  | None => Err (mkError ErrHistoryPopulationNotFound "")
  | Some pop =>
      match drop_marker (cm_KeyDigest marker) (p_PendingContributionMarkers pop) with
      | None => Ok None
      | Some ms =>
          let q := sortObservationMetadata (with_metadata pop (p_ObservationContributions pop) ms) in
          Ok (Some (with_populations record (replace_population f q (rec_Populations record))))
      end
  end.

Fixpoint cleanup (attempts : nat) (name : string) (key : ContributionKey) (marker : ContributionMarker) : M W unit :=
  match attempts with
  | 0 => m_err (mkError ErrHistoryCASExhausted "")
  | S k =>
      obj <- (api_get name : M W TrainingHistory) ;!
      record <- m_lift (record_of obj) ;!
      next <- m_lift (cleaned key marker record) ;!
      match next with
      | None => m_ret ()
      | Some record =>
          spec <- m_lift (toUnstructured record) ;!
          m_try (api_update (mkObject name "" (o_ResourceVersion obj) (Some spec) None : TrainingHistory)) (fun r =>
            match r with
            | Ok _ => m_ret ()
            | Err e => if IsConflict e then cleanup k name key marker else m_err e
            end)
      end
  end.

Definition cleanupContributionMarker : string → ContributionKey → ContributionMarker → M W unit := cleanup 5.

(** ** The protocol *)
Inductive ContributionApplyResult :=
| ContributionApplied | ContributionAlreadyCommitted | ContributionRecoveredAndCommitted | ContributionCommittedCleanupPending.

(** A receipt to start from: the stored one, or one that is created; a creation
    that lost a race reads again, and a receipt that is gone by then is a nil
    dereference. *)
Definition obtain_receipt (key : ContributionKey) (namespace historyName digest : string)
  : M W (ObservationContributionReceipt * string) :=
  found <- GetAfterInitialization key ;!
  match found with
  | Some r => m_ret r
  | None =>
      m_try (CreatePrepared key namespace historyName digest) (fun created =>
        match created with
        | Ok r => m_ret r
        | Err e =>
            if IsAlreadyExists e then
              m_try (GetAfterInitialization key) (fun again =>
                match again with
                | Ok (Some r) => m_ret r
                | Ok None => m_lift (panic "nil pointer dereference")
                | Err e =>
                    if bool_decide (err_is e = ErrReceiptIdentityMismatch)
                    then m_err (mkError ErrContributionKeyCollision "deterministic receipt name collision") else m_err e
                end)
            else m_err e
        end)
  end.

(** The last phase; an error of it is returned beside its result. *)
Definition finish (historyName : string) (key : ContributionKey) (marker : ContributionMarker) (applied : bool)
  : M W (ContributionApplyResult * option error) :=
  m_try (cleanupContributionMarker historyName key marker) (fun r =>
    match r with
    | Ok _ => m_ret (if applied then ContributionApplied else ContributionRecoveredAndCommitted, None)
    | Err e => if bool_decide (err_is e = "panic") then m_err e
               else m_ret (ContributionCommittedCleanupPending, Some (mkError ErrMarkerCleanupFailure (err_msg e)))
    end).

Definition ApplyContribution (namespace : string) (c : Contribution) : M W (ContributionApplyResult * option error) :=
  normal <- m_lift (normalize c) ;!
  digest <- m_lift (contentDigest normal) ;!
  let key := mkContributionKey (c_ObservationID normal) (c_Population normal) in
  historyName <- resolveContributionHistoryName (c_Population normal) ;!
  receipt <- obtain_receipt key namespace historyName digest ;!
  guard negb (bool_decide (r_ContentDigest receipt.1 = digest)) with mkError ErrContributionContentMismatch "" ;!
  if bool_decide (r_State receipt.1 = ReceiptCommitted) then m_ret (ContributionAlreadyCommitted, None)
  else
    keyDigest <- m_lift (ContributionKey_Digest key) ;!
    let marker := mkContributionMarker (c_ObservationID normal) (c_Population normal) keyDigest in
    effect <- applyHistoryEffect historyName key normal marker ;!
    m_try (Commit key receipt.2 digest) (fun committed =>
      match committed with
      | Err e => m_err (mkError ErrReceiptCommitFailure (err_msg e))
      | Ok (committed, _) =>
          guard negb (bool_decide (r_State committed = ReceiptCommitted)) with mkError ErrReceiptCommitFailure "unexpected receipt state" ;!
          finish historyName key marker (snd effect && negb (fst effect))
      end).

Definition ApplyObservationContribution (namespace : string) (observation : ObservationDomain.Observation)
  : M W (ContributionApplyResult * option error) :=
  guard blank namespace with mkError ErrObservationNotEligible "history namespace is empty" ;!
  contribution <- m_lift (ContributionFromObservation observation) ;!
  ApplyContribution namespace contribution.
End protocol.

(** ** A contribution has its effect once *)
Lemma find_replace g q l : is_population g q = true → List.find (is_population g) (replace_population g q l) = Some q.
Proof.
  intros Hq. induction l as [|p l IH]; cbn [replace_population List.find]; [by rewrite Hq|].
  destruct (is_population g p) eqn:E; cbn [List.find]; [by rewrite Hq|by rewrite E].
Qed.

(** Replacing the population of another fingerprint keeps the first one of this. *)
Lemma find_replace_other g g' q l :
  (∀ p, is_population g p = true → is_population g' p = false) → is_population g' q = true →
  List.find (is_population g) (replace_population g' q l) = List.find (is_population g) l.
Proof.
  intros Hne Hq. assert (is_population g q = false) as Hq'.
  { destruct (is_population g q) eqn:E; [|done]. apply Hne in E. congruence. }
  induction l as [|p l IH]; cbn [replace_population List.find]; [by rewrite Hq'|].
  destruct (is_population g' p) eqn:E; cbn [List.find]; [|by rewrite IH].
  rewrite Hq'. destruct (is_population g p) eqn:E'; [|done]. apply Hne in E'. congruence.
Qed.

(** Two fingerprints name the same population or no common one. *)
Lemma is_population_same g g' p : is_population g p = true → is_population g' p = true → legacy_scope g = legacy_scope g'.
Proof.
  unfold is_population, PopulationFingerprint_Equal. intros H1%bool_decide_eq_true H2%bool_decide_eq_true. congruence.
Qed.

Lemma is_population_legacy g g' : legacy_scope g = legacy_scope g' → is_population g = is_population g'.
Proof. intros E. unfold is_population, PopulationFingerprint_Equal. by rewrite E. Qed.

Definition normal_key (key : ContributionKey) : Prop := normalized (ck_Population key) = Ok (ck_Population key).

Lemma started_is_population key : normal_key key → is_population (ck_Population key) (started_population (ck_Population key)) = true.
Proof.
  intros Hk. apply normalized_scope in Hk. unfold is_population, PopulationFingerprint_Equal, populationFingerprint, started_population, legacy_scope.
  cbn [p_Scope p_Target p_Container p_ImageIdentity p_BinaryPath pi_Scope pi_BinaryPath]. apply bool_decide_eq_true.
  destruct (ck_Population key) as [sc t co im b]. cbn [pi_Scope pi_Target pi_Container pi_ImageIdentity pi_BinaryPath] in *.
  destruct Hk as [[-> Hb]|[-> ->]]; [|done]. unfold empty. rewrite (bool_decide_eq_false_2 (b = "")) by done. done.
Qed.

Lemma population_for_is key l : normal_key key → is_population (ck_Population key) (population_for (ck_Population key) l) = true.
Proof.
  intros Hk. unfold population_for. destruct (List.find _ l) as [p|] eqn:E; [apply find_some in E as [_ E]; exact E|by apply started_is_population].
Qed.

Lemma is_population_contributed g c marker p : is_population g (contributed c marker p) = is_population g p.
Proof. reflexivity. Qed.

Lemma contributed_ids c marker p id :
  id ∈ map oc_ObservationID (p_ObservationContributions (contributed c marker p)) ↔
  id = c_ObservationID c ∨ id ∈ map oc_ObservationID (p_ObservationContributions p).
Proof.
  unfold contributed, sortObservationMetadata, with_metadata, addContributionFacts. cbn [p_ObservationContributions].
  rewrite map_map. change (fun x => oc_ObservationID (sort_contribution x)) with oc_ObservationID.
  rewrite sort_keys_elem, map_app, elem_of_app. cbn [map provenance_of oc_ObservationID]. rewrite list_elem_of_singleton. tauto.
Qed.

Lemma history_effect_apply record key c marker r' : history_effect record key c marker = EffectApply r' →
  let pop := population_for (ck_Population key) (rec_Populations record) in
  r' = with_populations record (replace_population (ck_Population key) (contributed c marker pop) (rec_Populations record)) ∧
  c_ObservationID c ∉ map oc_ObservationID (p_ObservationContributions pop) ∧
  cm_KeyDigest marker ∉ map cm_KeyDigest (p_PendingContributionMarkers pop).
Proof.
  intros E. cbv zeta. unfold history_effect in E. cbv zeta in E.
  set (pop := population_for _ _) in *.
  destruct (existsb _ (p_PendingContributionMarkers pop)) eqn:E1; [done|].
  destruct (maxObservationContributions <=? _); [done|]. destruct (maxPendingContributionMarkers <=? _); [done|].
  destruct (existsb _ (p_ObservationContributions pop)) eqn:E2; [done|]. injection E as <-. split; [done|].
  split; intros (x & Ex & Hx)%list_elem_of_fmap.
  - apply (existsb_false_elem _ _ _ E2) in Hx. apply bool_decide_eq_false in Hx. congruence.
  - apply (existsb_false_elem _ _ _ E1) in Hx. apply bool_decide_eq_false in Hx. congruence.
Qed.

(** Every step a caller of the package makes on a stored record it has just
    read: the steps of the protocol, for any key; the merge of a run into the
    record or into one of its populations, with or without a target; and a
    snapshot of the record for a population. *)
Inductive history_step : Record_ → Record_ → Prop :=
| step_contribute key c marker r r' : normal_key key → history_effect r key c marker = EffectApply r' → history_step r r'
| step_clean key marker r r' : normal_key key → cleaned key marker r = Ok (Some r') → history_step r r'
| step_merge container binary behavior r : history_step r (Merge (Some r) container binary behavior)
| step_merge_population fingerprint subject behavior r :
    history_step r (MergePopulation (Some r) fingerprint subject behavior)
| step_merge_target fingerprint subject behavior target r :
    history_step r (MergePopulationWithTarget (Some r) fingerprint subject behavior target)
| step_snapshot identity r ps : snapshot_populations (wanted_population identity) (rec_Populations r) = Ok ps →
    history_step r (with_populations r ps).

Definition recorded (f : PopulationFingerprint) (id : string) (r : Record_) : Prop :=
  ∃ pop, List.find (is_population f) (rec_Populations r) = Some pop ∧ id ∈ map oc_ObservationID (p_ObservationContributions pop).

(** Changing the first population of a key to one with at least its
    contributions keeps what is recorded. *)
Lemma recorded_replace f id key r q :
  is_population (ck_Population key) q = true →
  (∀ p, List.find (is_population (ck_Population key)) (rec_Populations r) = Some p →
    id ∈ map oc_ObservationID (p_ObservationContributions p) → id ∈ map oc_ObservationID (p_ObservationContributions q)) →
  recorded f id r → recorded f id (with_populations r (replace_population (ck_Population key) q (rec_Populations r))).
Proof.
  intros Hq Hkeep (pop & Hf & Hid). unfold recorded. cbn [with_populations rec_Populations].
  destruct (decide (legacy_scope f = legacy_scope (ck_Population key))) as [E|E].
  - rewrite (is_population_legacy f (ck_Population key) E) in *. exists q. split; [by apply find_replace|]. by apply (Hkeep pop).
  - exists pop. split; [|done]. rewrite find_replace_other; [done| |done].
    intros p Hp. destruct (is_population (ck_Population key) p) eqn:Ep; [|done]. destruct E. by eapply is_population_same.
Qed.

(** *** The other writers keep what is recorded *)

(** A stable sort keeps the order of elements that do not compare. *)
Lemma filter_insert_by {A} (less : A → A → bool) P x l :
  (P x = true → ∀ y, y ∈ l → P y = true → less y x = false) → List.filter P (insert_by less x l) = List.filter P (x :: l).
Proof.
  induction l as [|y l IH]; intros Hx; [done|]. cbn [insert_by]. destruct (less y x) eqn:E; [|done].
  cbn [List.filter]. rewrite IH by (intros Hp z Hz; apply Hx; [done|by right]). cbn [List.filter].
  destruct (P x) eqn:Ex; [|done]. destruct (P y) eqn:Ey; [|done].
  by rewrite (Hx eq_refl y (list_elem_of_here _ _) Ey) in E.
Qed.

Lemma filter_sort_by {A} (less : A → A → bool) P l :
  (∀ x y, x ∈ l → y ∈ l → P x = true → P y = true → less y x = false) → List.filter P (sort_by less l) = List.filter P l.
Proof.
  induction l as [|x l IH]; intros Hl; [done|]. cbn [sort_by]. rewrite filter_insert_by.
  - cbn [List.filter]. rewrite IH; [done|]. intros y z Hy Hz. apply Hl; by right.
  - intros Hx y Hy%elem_of_sort_by Hpy. apply Hl; [left|by right|done..].
Qed.

Lemma find_filter {A} (P : A → bool) l : List.find P l = head (List.filter P l).
Proof. induction l as [|x l IH]; cbn; [done|]. by destruct (P x). Qed.

Lemma is_population_key f p q : is_population f p = true → is_population f q = true →
  populationKey (populationFingerprint p) = populationKey (populationFingerprint q).
Proof.
  assert (∀ g, populationKey (legacy_scope g) = populationKey g) as Hkey.
  { intros g. unfold legacy_scope. by destruct (_ && _). }
  unfold is_population, PopulationFingerprint_Equal. intros Ep%bool_decide_eq_true Eq%bool_decide_eq_true.
  by rewrite <-Hkey, Ep, <-Eq, Hkey.
Qed.

Lemma find_sorted f l :
  List.find (is_population f) (sort_by (less_on (fun p => populationKey (populationFingerprint p)) string_ltb) l) =
  List.find (is_population f) l.
Proof.
  rewrite !find_filter, filter_sort_by; [done|]. intros p q _ _ Hp Hq. unfold less_on.
  by rewrite (is_population_key f p q Hp Hq), string_ltb_irrefl.
Qed.

(** The first population of a fingerprint keeps its contributions when each
    population is replaced by one of the same identity and contributions. *)
Definition same_contributions (p q : Population) : Prop :=
  (∀ f, is_population f q = is_population f p) ∧ p_ObservationContributions q = p_ObservationContributions p.

Lemma find_same f p l k : Forall2 same_contributions l k → List.find (is_population f) l = Some p →
  ∀ rest, ∃ q, List.find (is_population f) (k ++ rest) = Some q ∧ p_ObservationContributions q = p_ObservationContributions p.
Proof.
  intros Hlk. induction Hlk as [|x y l k [Hi Hc] _ IH]; intros Hf rest; [done|]. cbn [List.find app] in Hf |- *. rewrite Hi.
  destruct (is_population f x); [|by apply IH]. injection Hf as <-. by exists y.
Qed.

Lemma count_run_same subject behavior p : same_contributions p (count_run subject behavior p).
Proof. done. Qed.

Lemma same_contributions_refl p : same_contributions p p.
Proof. done. Qed.
Lemma same_contributions_all l : Forall2 same_contributions l l.
Proof. induction l as [|p l IH]; constructor; [apply same_contributions_refl|done]. Qed.

Lemma update_population_same g target h l : (∀ p, same_contributions p (h p)) →
  ∃ k rest, update_population g target h l = k ++ rest ∧ Forall2 same_contributions l k.
Proof.
  intros Hh. induction l as [|p l (k & rest & E & Hk)]; cbn [update_population]; [by exists [], [h (new_population g target)]|].
  destruct (PopulationFingerprint_Equal _ g).
  - exists (h p :: l), []. rewrite app_nil_r. split; [done|]. constructor; [apply Hh|apply same_contributions_all].
  - exists (p :: k), rest. rewrite E. split; [done|]. by constructor; [apply same_contributions_refl|].
Qed.

Lemma NormalizeLegacyScope_same p q : NormalizeLegacyScope p = Ok q → same_contributions p q.
Proof.
  unfold NormalizeLegacyScope. intros [Hg H]%result_guard_Ok. cbv zeta in H. apply result_bind_Ok in H as (i & _ & H).
  apply Ok_inj in H as <-. destruct (empty (p_Scope p)) eqn:Es; [|apply same_contributions_refl].
  cbn [andb] in Hg. apply bool_decide_eq_true in Es. split; [|done]. intros f.
  unfold is_population, PopulationFingerprint_Equal, populationFingerprint. cbn [p_Scope p_Target p_Container p_ImageIdentity p_BinaryPath].
  by rewrite Es.
Qed.

Lemma snapshot_populations_same wanted l ps : snapshot_populations wanted l = Ok ps →
  ∃ k rest, ps = k ++ rest ∧ Forall2 same_contributions l k.
Proof.
  revert ps. induction l as [|p l IH]; intros ps; cbn [snapshot_populations]; [intros [= <-]; by exists [], [wanted]|].
  intros (q & Hq%NormalizeLegacyScope_same & H)%result_bind_Ok. destruct (PopulationIdentityEqual q wanted).
  - injection H as <-. exists (q :: l), []. rewrite app_nil_r. split; [done|]. constructor; [done|apply same_contributions_all].
  - apply result_bind_Ok in H as (ps' & Hps & [= <-]). destruct (IH ps' Hps) as (k & rest & -> & Hk).
    exists (q :: k), rest. split; [done|]. by constructor.
Qed.

Lemma recorded_same f id r r' k rest : Forall2 same_contributions (rec_Populations r) k →
  (∀ g, List.find (is_population g) (rec_Populations r') = List.find (is_population g) (k ++ rest)) →
  recorded f id r → recorded f id r'.
Proof.
  intros Hk Hf (pop & Hfind & Hid). destruct (find_same f pop _ k Hk Hfind rest) as (q & Hq & E).
  exists q. rewrite Hf, E. done.
Qed.

Lemma merge_population_recorded f id fingerprint subject behavior target r :
  recorded f id r → recorded f id (mergePopulation (Some r) fingerprint subject behavior target).
Proof.
  destruct (update_population_same fingerprint target (count_run subject behavior) (rec_Populations r)
    (count_run_same subject behavior)) as (k & rest & E & Hk).
  apply (recorded_same f id r _ k rest Hk). intros g. unfold mergePopulation. cbn [rec_Populations].
  by rewrite find_sorted, E.
Qed.

Lemma history_step_recorded f id r r' : history_step r r' → recorded f id r → recorded f id r'.
Proof.
  intros Hs Hr. destruct Hs as [key c marker r r' Hk E|key marker r r' Hk E|container binary behavior r
    |fingerprint subject behavior r|fingerprint subject behavior target r|identity r ps E].
  - apply history_effect_apply in E as (-> & _). apply recorded_replace; [|intros p Hf Hid|done].
    + rewrite is_population_contributed. by apply population_for_is.
    + apply contributed_ids. right. unfold population_for. by rewrite Hf.
  - unfold cleaned in E. destruct (List.find _ (rec_Populations r)) as [pop|] eqn:Ef; [|done].
    destruct (drop_marker _ _) as [ms|]; [|done]. injection E as <-. apply recorded_replace; [|intros p Hf Hid|done].
    + apply find_some in Ef as [_ Ef]. exact Ef.
    + rewrite Ef in Hf. injection Hf as <-. unfold sortObservationMetadata, with_metadata. cbn [p_ObservationContributions].
      rewrite map_map. change (fun x => oc_ObservationID (sort_contribution x)) with oc_ObservationID. by rewrite sort_keys_elem.
  - exact Hr.
  - by apply merge_population_recorded.
  - by apply merge_population_recorded.
  - destruct (snapshot_populations_same _ _ _ E) as (k & rest & -> & Hk). by apply (recorded_same f id r _ k rest Hk).
Qed.

(** C10: A contribution has its effect at most once.  The first application finds
    neither its marker nor its observation in the population of the key, adds
    both together with the facts, and after any sequence of steps of any
    callers, each on the record as it is stored, no contribution of the
    observation to that population is applied again: not by the protocol for
    any key, the removal of the marker included, not after the merges of runs
    into the record or into any of its populations, and not after snapshots of
    the record.  (A snapshot save of some other record replaces what is
    stored, and is no step.) *)
Theorem contribution_applied_once key c marker r r' r'' c' marker' r3 :
  normal_key key → history_effect r key c marker = EffectApply r' → rtc history_step r' r'' →
  c_ObservationID c' = c_ObservationID c →
  List.find (is_population (ck_Population key)) (rec_Populations r') =
    Some (contributed c marker (population_for (ck_Population key) (rec_Populations r))) ∧
  ¬ recorded (ck_Population key) (c_ObservationID c) r ∧ history_effect r'' key c' marker' ≠ EffectApply r3.
Proof.
  intros Hk E Hsteps Hid. apply history_effect_apply in E as (-> & Hn & _). cbn [with_populations rec_Populations].
  assert (is_population (ck_Population key) (contributed c marker (population_for (ck_Population key) (rec_Populations r))) = true) as Hq
    by (rewrite is_population_contributed; by apply population_for_is).
  split; [by apply find_replace|]. split.
  { intros (pop & Hf & Hin). unfold population_for in Hn. by rewrite Hf in Hn. }
  assert (recorded (ck_Population key) (c_ObservationID c) r'') as (pop & Hf & Hin).
  { assert (∀ x y, rtc history_step x y → recorded (ck_Population key) (c_ObservationID c) x → recorded (ck_Population key) (c_ObservationID c) y) as Hrtc.
    { intros x y Hxy. induction Hxy as [|x y z Hxy _ IH]; [done|]. intros Hx. by apply IH, (history_step_recorded _ _ x). }
    apply (Hrtc _ _ Hsteps). eexists. split; [by apply find_replace|]. apply contributed_ids. by left. }
  intros (_ & Hn' & _)%history_effect_apply. apply Hn'. unfold population_for. rewrite Hf, Hid. exact Hin.
Qed.

Definition ex_key : ContributionKey :=
  mkContributionKey "obs-1" (mkPopulationIdentity ScopeContainer "Deployment/web" "app" "sha256:00" "").
Definition ex_marker : ContributionMarker := mkContributionMarker "obs-1" (ck_Population ex_key) "digest".
Definition ex_applied : Record_ :=
  match history_effect no_record ex_key (ex_contribution [ex_fact "/etc" [PermissionRead]]) ex_marker with EffectApply r => r | _ => no_record end.

(** The marker is removed, then a run is merged into the population. *)
Lemma contribution_applied_once_witness :
  let c := ex_contribution [ex_fact "/etc" [PermissionRead]] in
  ∃ r'', cleaned ex_key ex_marker ex_applied = Ok (Some r'') ∧
    ∀ r3, history_effect (MergePopulation (Some r'') (ck_Population ex_key) "pod" (ex_run ["/var"])) ex_key c ex_marker ≠ EffectApply r3.
Proof.
  intros c. destruct (cleaned ex_key ex_marker ex_applied) as [[r''|]|] eqn:E; [|vm_compute in E; discriminate..].
  exists r''. split; [reflexivity|]. intros r3.
  apply (contribution_applied_once ex_key c ex_marker no_record ex_applied
    (MergePopulation (Some r'') (ck_Population ex_key) "pod" (ex_run ["/var"])) c ex_marker r3); [reflexivity|reflexivity| |reflexivity].
  apply (rtc_l _ _ r''); [exact (step_clean ex_key ex_marker ex_applied r'' eq_refl E)|].
  apply rtc_once, step_merge_population.
Defined.

(** A contribution that is accepted can still crash the process: the counts of
    its capability summary are not compared with its capability facts before the
    population is validated for storage. *)
Lemma inconsistent_contribution_panics `{!StructConverter} :
  let c := mkContribution "obs-1" (ck_Population ex_key) [] [] [] [mkCapabilityAccess "CAP_KILL" "" 0]
             [mkObservationSourceContribution "capabilities" "AVAILABLE" "COMPLETED" true true true 1 0 0] in
  ∃ n r, normalize c = Ok n ∧ history_effect no_record ex_key n ex_marker = EffectApply r ∧
    toUnstructured r = panic "invalid history observation metadata".
Proof. intros c. eexists _, _. split; [vm_compute; reflexivity|]. split; [vm_compute; reflexivity|]. reflexivity. Qed.
