(* ===== verification/ContributionCustody.v ===== *)
(** * The order of the calls of a contribution

    Whatever the API server answers, and wherever the process stops: history is
    only written under a receipt that is durable, the receipt is only committed
    once the effect is, and the marker is only removed once the receipt is
    committed.  So every prefix of a run is one a later run can recover from. *)
From S2P Require Import Prelude GoStd Identity Digest Json Policy Target Unstructured Kube Journal History HistoryPersisted HistoryStore Contribution ContributionStore.
Import Profile History.

(** ** The journal *)
Inductive event :=
| HGet (name : string) (r : result TrainingHistory)
| HCreate (o : TrainingHistory) (r : result TrainingHistory)
| HUpdate (o : TrainingHistory) (r : result TrainingHistory)
| RGet (name : string) (r : result ReceiptObject)
| RCreate (o : ReceiptObject) (r : result ReceiptObject)
| RStatus (o : ReceiptObject) (r : result ReceiptObject).

Class Journalled (W : Type) `{!Api W json unit, !Api W json json, !Waiting W} := {
  journal : W → list event;
  journal_hget : ∀ n, traced journal (api_get n : M W TrainingHistory) (fun evs r => evs = [HGet n r]);
  journal_hcreate : ∀ o : TrainingHistory, traced journal (api_create o) (fun evs r => evs = [HCreate o r]);
  journal_hupdate : ∀ o : TrainingHistory, traced journal (api_update o) (fun evs r => evs = [HUpdate o r]);
  journal_rget : ∀ n, traced journal (api_get n : M W ReceiptObject) (fun evs r => evs = [RGet n r]);
  journal_rcreate : ∀ o : ReceiptObject, traced journal (api_create o) (fun evs r => evs = [RCreate o r]);
  journal_rstatus : ∀ o : ReceiptObject, traced journal (api_update_status o) (fun evs r => evs = [RStatus o r]);
  journal_wait : quiet journal wait }.

Definition history_write (e : event) : bool := match e with HCreate _ _ | HUpdate _ _ => true | _ => false end.

Section custody.
Context {W : Type} `{!Api W json unit, !Api W json json, !Waiting W, !Journalled W, !StructConverter, !Unstructured}.
Variables (key : ContributionKey) (c : Contribution) (marker : ContributionMarker) (digest : string).

(** A receipt the server returned. *)
Definition receipt_read (evs : list event) (rec : ObservationContributionReceipt) : Prop :=
  ∃ obj, ((∃ n, RGet n (Ok obj) ∈ evs) ∨ ∃ o, RStatus o (Ok obj) ∈ evs) ∧ receiptFromUnstructured obj = Ok rec.

Definition prepared (evs : list event) : Prop :=
  ∃ rec, receipt_read evs rec ∧ r_ContentDigest rec = digest ∧ r_State rec = ReceiptPrepared.
Definition committed (evs : list event) : Prop := ∃ rec, receipt_read evs rec ∧ r_State rec = ReceiptCommitted.

(** The effect is durable: this run wrote it, a record with its marker was read,
    or the receipt of the same content was already committed. *)
Definition effective (evs : list event) : Prop :=
  (∃ e, e ∈ evs ∧ match e with HCreate _ (Ok _) | HUpdate _ (Ok _) => True | _ => False end) ∨
  (∃ n obj rec, HGet n (Ok obj) ∈ evs ∧ record_of obj = Ok rec ∧ history_effect rec key c marker = EffectMarked) ∨
  (∃ rec, receipt_read evs rec ∧ r_State rec = ReceiptCommitted ∧ r_ContentDigest rec = digest).

(** What a call may follow. *)
Definition allowed (pre : list event) (e : event) : Prop :=
  match e with
  | HGet _ _ | RGet _ _ => True
  | RCreate _ _ => ∃ pre' n err, pre = pre' ++ [RGet n (Err err)] ∧ IsNotFound err = true
  | RStatus o _ =>
      (∃ pre' o' obj, pre = pre' ++ [RCreate o' (Ok obj)] ∧ set_receipt_state obj ReceiptPrepared = Ok o) ∨
      (effective pre ∧ ∃ obj, set_receipt_state obj ReceiptCommitted = Ok o)
  | HCreate o _ =>
      prepared pre ∧ ∃ pre' n err r spec, pre = pre' ++ [HGet n (Err err)] ∧ IsNotFound err = true ∧
        history_effect no_record key c marker = EffectApply r ∧ toUnstructured r = Ok spec ∧ o = mkObject n "" "" (Some spec) None
  | HUpdate o _ =>
      ∃ pre' n obj rec r spec, pre = pre' ++ [HGet n (Ok obj)] ∧ record_of obj = Ok rec ∧ toUnstructured r = Ok spec ∧
        o = mkObject n "" (o_ResourceVersion obj) (Some spec) None ∧
        ((prepared pre ∧ history_effect rec key c marker = EffectApply r) ∨
         (committed pre ∧ cleaned key marker rec = Ok (Some r)))
  end.

Abbreviation safe := (safe journal allowed).

(** *** Facts of the past stay true *)
Lemma receipt_read_app evs suf rec : receipt_read evs rec → receipt_read (evs ++ suf) rec.
Proof.
  intros (obj & Hin & E). exists obj. split; [|done]. destruct Hin as [[n Hin]|[o Hin]]; [left; exists n|right; exists o];
    by apply elem_of_app; left.
Qed.
Lemma prepared_app evs suf : prepared evs → prepared (evs ++ suf).
Proof. intros (rec & Hr & Hx). exists rec. split; [by apply receipt_read_app|done]. Qed.
Lemma committed_app evs suf : committed evs → committed (evs ++ suf).
Proof. intros (rec & Hr & Hx). exists rec. split; [by apply receipt_read_app|done]. Qed.
Lemma effective_app evs suf : effective evs → effective (evs ++ suf).
Proof.
  intros [(e & He & Hx)|[(n & obj & rec & Hin & Hx)|(rec & Hr & Hx)]].
  - left. exists e. split; [by apply elem_of_app; left|done].
  - right. left. exists n, obj, rec. split; [by apply elem_of_app; left|done].
  - right. right. exists rec. split; [by apply receipt_read_app|done].
Qed.

Definition calm (suf : list event) : Prop := Forall (fun e => history_write e = false) suf.

(** The run went on from [pre] without touching history, to a result with [Q]. *)
Definition calmly {A} (pre : list event) (Q : list event → A → Prop) (evs : list event) (r : result A) : Prop :=
  ∃ suf, evs = pre ++ suf ∧ calm suf ∧ match r with Ok a => Q evs a | Err _ => True end.

Definition read_receipt (evs : list event) (r : option (ObservationContributionReceipt * string)) : Prop :=
  match r with
  | Some (rec, _) => receipt_read evs rec
  | None => ∃ pre' n err, evs = pre' ++ [RGet n (Err err)] ∧ IsNotFound err = true
  end.

Lemma calmly_err {A} pre (Q : list event → A → Prop) e : calmly pre Q pre (Err e).
Proof. exists []. rewrite app_nil_r. split; [done|]. by split; [constructor|]. Qed.
Lemma calmly_err1 {A} pre (Q : list event → A → Prop) x e : history_write x = false → calmly pre Q (pre ++ [x]) (Err e).
Proof. intros Hx. exists [x]. split; [done|]. by split; [repeat constructor|]. Qed.
Lemma calmly_ok {A} pre (Q : list event → A → Prop) a : Q pre a → calmly pre Q pre (Ok a).
Proof. intros HQ. exists []. rewrite app_nil_r. split; [done|]. by split; [constructor|]. Qed.
Lemma calmly_ok1 {A} pre (Q : list event → A → Prop) x a :
  history_write x = false → Q (pre ++ [x]) a → calmly pre Q (pre ++ [x]) (Ok a).
Proof. intros Hx HQ. exists [x]. split; [done|]. by split; [repeat constructor|]. Qed.

(** A calm run followed by a calm run. *)
Lemma calmly_trans {A} pre suf (Q : list event → A → Prop) evs r :
  calm suf → calmly (pre ++ suf) Q evs r → calmly pre Q evs r.
Proof.
  intros Hs (suf' & -> & Hs' & HQ). exists (suf ++ suf'). split; [by rewrite app_assoc|]. split; [|done]. by apply Forall_app.
Qed.

Lemma safe_calm_bind {A B} pre (m : M W A) (g : A → M W B) (Q : list event → A → Prop) (R : list event → B → Prop) :
  safe pre m (calmly pre Q) → (∀ a evs, Q evs a → safe evs (g a) (calmly evs R)) → safe pre (m_bind m g) (calmly pre R).
Proof.
  intros Hm Hg. eapply safe_bind; [exact Hm| |].
  - intros a evs (suf & -> & Hs & HQ). eapply safe_mono; [by apply Hg|]. intros evs r Hr. by eapply calmly_trans.
  - intros e evs (suf & -> & Hs & _). exists suf. done.
Qed.

Lemma safe_GetReceipt pre k : safe pre (GetReceipt k) (calmly pre read_receipt).
Proof.
  unfold GetReceipt. apply safe_lift_bind; [intros name _|intros e; apply calmly_err].
  eapply safe_try_call; [apply journal_rget|done|]. intros r. destruct r as [obj|e].
  - apply safe_lift_bind; [intros rec Hrec|intros e; by apply calmly_err1].
    destruct (negb _); [apply safe_err; by apply calmly_err1|].
    apply safe_ret. apply calmly_ok1; [done|]. exists obj. split; [|done].
    left. exists name. apply elem_of_app. right. left.
  - destruct (IsNotFound e) eqn:E; [apply safe_ret, calmly_ok1; cbn; eauto|apply safe_err; by apply calmly_err1].
Qed.

Lemma safe_get_initialized reads k : ∀ pre, safe pre (get_initialized reads k) (calmly pre read_receipt).
Proof.
  induction reads as [|n IH]; intros pre; cbn [get_initialized]; [apply safe_err, calmly_err|].
  eapply safe_try; [apply safe_GetReceipt|]. intros r evs (suf & -> & Hs & HQ). destruct r as [x|e].
  - apply safe_ret. exists suf. done.
  - destruct (negb _); [apply safe_err; by exists suf|].
    assert (safe (pre ++ suf) (get_initialized n k) (calmly pre read_receipt)) as Hrec.
    { eapply safe_mono; [apply IH|]. intros evs r Hr. by eapply calmly_trans. }
    destruct (0 <? n); [|exact Hrec].
    apply safe_quiet_bind; [apply journal_wait|intros _; exact Hrec|intros e'; by exists suf].
Qed.

(** *** Obtaining a receipt *)
Lemma safe_CreatePrepared pre k ns h d :
  (∃ pre' n err, pre = pre' ++ [RGet n (Err err)] ∧ IsNotFound err = true) →
  safe pre (CreatePrepared k ns h d) (calmly pre (fun evs x => receipt_read evs x.1)).
Proof.
  intros Hlast. unfold CreatePrepared. apply safe_lift_bind; [intros name _|intros e; apply calmly_err].
  apply safe_lift_bind; [intros population _|intros e; apply calmly_err]. cbv zeta.
  apply safe_lift_bind; [intros u _|intros e; apply calmly_err].
  eapply safe_bind_call; [apply journal_rcreate|intros r; exact Hlast| |intros e; by apply calmly_err1].
  intros obj. apply safe_lift_bind; [intros obj' Hset|intros e; by apply calmly_err1].
  eapply safe_bind_call; [apply journal_rstatus|intros r; left; eauto 10| |].
  - intros obj2. apply safe_lift_bind.
    + intros rec Hrec. apply safe_ret. rewrite <- app_assoc. cbn [app]. eexists. split; [reflexivity|].
      split; [by repeat constructor|]. exists obj2. split; [|done]. right. eexists. apply elem_of_app. right. right. left.
    + intros e. rewrite <- app_assoc. cbn [app]. eexists. split; [reflexivity|]. by split; [repeat constructor|].
  - intros e. rewrite <- app_assoc. cbn [app]. eexists. split; [reflexivity|]. by split; [repeat constructor|].
Qed.

Lemma safe_obtain_receipt pre k ns h d : safe pre (obtain_receipt k ns h d) (calmly pre (fun evs x => receipt_read evs x.1)).
Proof.
  unfold obtain_receipt. eapply safe_calm_bind; [apply safe_get_initialized|]. intros [[rec rv]|] evs Hread; cbn in Hread.
  - by apply safe_ret, calmly_ok.
  - eapply safe_try; [by apply safe_CreatePrepared|]. intros r evs' (suf & -> & Hs & HQ). destruct r as [x|e].
    + apply safe_ret. by exists suf.
    + destruct (IsAlreadyExists e); [|apply safe_err; by exists suf].
      eapply safe_try; [apply safe_get_initialized|]. intros r evs'' (suf' & -> & Hs' & HQ').
      assert (calm (suf ++ suf')) as Hss by by apply Forall_app.
      rewrite <- app_assoc. destruct r as [[[rec rv]|]|e'].
      * apply safe_ret. exists (suf ++ suf'). split; [done|]. split; [done|]. by rewrite app_assoc.
      * apply safe_lift. by exists (suf ++ suf').
      * destruct (bool_decide _); apply safe_err; by exists (suf ++ suf').
Qed.

Lemma safe_resolve pre fp : safe pre (resolveContributionHistoryName fp) (calmly pre (fun _ _ => True)).
Proof.
  unfold resolveContributionHistoryName. apply safe_lift_bind; [intros i _|intros e; apply calmly_err].
  destruct (bool_decide _); [apply safe_lift; destruct (RecordNameContainerV2 i); [by apply calmly_ok|apply calmly_err]|].
  cbv zeta. eapply safe_try_call; [apply journal_hget|done|]. intros [obj|e]; [apply safe_ret; by apply calmly_ok1|].
  destruct (negb _); [apply safe_err; by apply calmly_err1|].
  destruct (bool_decide _); [apply safe_ret; by apply calmly_ok1|].
  eapply safe_try_call; [apply journal_hget|done|]. intros r. rewrite <- app_assoc. cbn [app].
  assert (∀ x : result string, calmly pre (fun _ _ => True) (pre ++ [HGet (RecordNameV2 (pi_Container fp) (pi_BinaryPath fp)) (Err e);
    HGet (RecordNameLegacy (pi_Container fp) (pi_BinaryPath fp)) r]) x) as Hx.
  { intros x. eexists. split; [reflexivity|]. split; [by repeat constructor|by destruct x]. }
  destruct r as [obj|e']; [apply safe_ret, Hx|]. destruct (negb _); [apply safe_err, Hx|apply safe_ret, Hx].
Qed.

(** *** The effect *)
Definition committed_same (evs : list event) : Prop :=
  ∃ rec, receipt_read evs rec ∧ r_State rec = ReceiptCommitted ∧ r_ContentDigest rec = digest.

Lemma safe_converge reads k : ∀ pre, safe pre (converge reads k digest) (calmly pre (fun evs b => b = true ∧ committed_same evs)).
Proof.
  induction reads as [|n IH]; intros pre; cbn [converge]; [apply safe_err, calmly_err|].
  apply safe_quiet_bind; [apply journal_wait|intros _|intros e; apply calmly_err].
  eapply safe_calm_bind; [apply safe_GetReceipt|]. intros [[rec rv]|] evs Hread; [|apply IH]. cbn in Hread.
  destruct (bool_decide (r_State rec = ReceiptCommitted)) eqn:Es; [|apply IH].
  destruct (bool_decide (r_ContentDigest rec = digest)) eqn:Ed; cbn [negb]; [|apply safe_err, calmly_err].
  apply bool_decide_eq_true in Es, Ed. apply safe_ret, calmly_ok. split; [done|]. by exists rec.
Qed.

Lemma safe_authoritative pre k : safe pre (authoritative_receipt k digest) (calmly pre (fun evs b => b = true ∧ committed_same evs)).
Proof.
  unfold authoritative_receipt. eapply safe_calm_bind; [apply safe_GetReceipt|].
  intros [[rec rv]|] evs Hread; [|apply safe_err, calmly_err]. cbn in Hread.
  destruct (bool_decide (r_State rec = ReceiptCommitted)) eqn:Es.
  - destruct (bool_decide (r_ContentDigest rec = digest)) eqn:Ed; cbn [negb]; [|apply safe_err, calmly_err].
    apply bool_decide_eq_true in Es, Ed. apply safe_ret, calmly_ok. split; [done|]. by exists rec.
  - destruct (bool_decide (r_State rec = ReceiptPrepared)); [apply safe_converge|apply safe_err, calmly_err].
Qed.

(** The run went on from [pre], to a result with [Q]. *)
Definition onward {A} (pre : list event) (Q : list event → A → Prop) (evs : list event) (r : result A) : Prop :=
  ∃ suf, evs = pre ++ suf ∧ match r with Ok a => Q evs a | Err _ => True end.

Lemma calmly_onward {A} pre (Q : list event → A → Prop) evs r : calmly pre Q evs r → onward pre Q evs r.
Proof. intros (suf & -> & _ & HQ). by exists suf. Qed.
Lemma onward_trans {A} pre suf (Q : list event → A → Prop) evs r : onward (pre ++ suf) Q evs r → onward pre Q evs r.
Proof. intros (suf' & -> & HQ). exists (suf ++ suf'). by rewrite app_assoc. Qed.
Lemma onward_err {A} pre suf (Q : list event → A → Prop) e : onward pre Q (pre ++ suf) (Err e).
Proof. by exists suf. Qed.
Lemma onward_ok {A} pre suf (Q : list event → A → Prop) a : Q (pre ++ suf) a → onward pre Q (pre ++ suf) (Ok a).
Proof. intros HQ. by exists suf. Qed.

Lemma safe_apply_effect attempts name : ∀ pre, prepared pre →
  safe pre (apply_effect attempts name key c marker digest) (onward pre (fun evs _ => effective evs)).
Proof.
  induction attempts as [|n IH]; intros pre Hp; cbn [apply_effect].
  { apply safe_err. rewrite <- (app_nil_r pre) at 2. apply onward_err. }
  eapply safe_try_call; [apply journal_hget|done|]. intros [obj|e].
  - apply safe_lift_bind; [intros rec Hrec|intros e; apply onward_err].
    destruct (history_effect rec key c marker) as [|e| |r] eqn:Ee.
    + apply safe_ret, onward_ok. right. left. exists name, obj, rec. split; [|done]. apply elem_of_app. right. left.
    + apply safe_err, onward_err.
    + eapply safe_bind; [apply safe_authoritative| |].
      * intros b evs (suf & -> & _ & _ & Hc). apply safe_ret. rewrite <- app_assoc. apply onward_ok.
        rewrite app_assoc. right. right. exact Hc.
      * intros e evs (suf & -> & _). rewrite <- app_assoc. apply onward_err.
    + apply safe_lift_bind; [intros spec Hspec|intros e; apply onward_err].
      eapply safe_try_call; [apply journal_hupdate| |].
      { intros x. exists pre, name, obj, rec, r, spec. do 4 (split; [done|]). left. split; [by apply prepared_app|done]. }
      intros [stored|e]; rewrite <- app_assoc; cbn [app].
      * apply safe_ret, onward_ok. left. eexists. split; [apply elem_of_app; right; right; left|done].
      * destruct (IsConflict e); [|apply safe_err, onward_err].
        eapply safe_mono; [apply IH; by apply prepared_app|]. intros evs x Hx. by eapply onward_trans.
  - destruct (IsNotFound e) eqn:En; cbn [negb]; [|apply safe_err, onward_err].
    destruct (history_effect no_record key c marker) as [|e'| |r] eqn:Ee; [apply safe_err, onward_err..|].
    apply safe_lift_bind; [intros spec Hspec|intros e'; apply onward_err].
    eapply safe_try_call; [apply journal_hcreate| |].
    { intros x. split; [by apply prepared_app|]. exists pre, name, e, r, spec. done. }
    intros [stored|e']; rewrite <- app_assoc; cbn [app].
    * apply safe_ret, onward_ok. left. eexists. split; [apply elem_of_app; right; right; left|done].
    * destruct (IsAlreadyExists e'); [|apply safe_err, onward_err].
      eapply safe_mono; [apply IH; by apply prepared_app|]. intros evs x Hx. by eapply onward_trans.
Qed.

(** *** The commit *)
Lemma safe_Commit pre k rv : effective pre → safe pre (Commit k rv digest) (onward pre (fun evs x => receipt_read evs x.1)).
Proof.
  intros Heff. unfold Commit. assert (∀ e, onward pre (fun evs (x : ObservationContributionReceipt * string) => receipt_read evs x.1) pre (Err e)) as Herr.
  { intros e. rewrite <- (app_nil_r pre) at 2. apply onward_err. }
  apply safe_lift_bind; [intros name _|exact Herr].
  eapply safe_bind_call; [apply journal_rget|done| |intros e; apply onward_err].
  intros obj. apply safe_lift_bind; [intros rec Hrec|intros e; apply onward_err].
  assert (∀ suf, receipt_read ((pre ++ [RGet name (Ok obj)]) ++ suf) rec) as Hread.
  { intros suf. apply receipt_read_app. exists obj. split; [|done]. left. exists name. apply elem_of_app. right. left. }
  destruct (negb (receipt_matches k rec)); [apply safe_err, onward_err|].
  destruct (bool_decide (r_State rec = ReceiptCommitted)).
  { destruct (negb _); [apply safe_err, onward_err|]. apply safe_ret, onward_ok. rewrite <- (app_nil_r (pre ++ _)). apply Hread. }
  destruct (negb _); [apply safe_err, onward_err|]. cbv zeta.
  apply safe_lift_bind; [intros obj' Hset|intros e; apply onward_err].
  eapply safe_try_call; [apply journal_rstatus|intros r; right; split; [by apply effective_app|eauto]|].
  intros [updated|e]; rewrite <- app_assoc; cbn [app].
  - apply safe_lift_bind; [intros rec' Hrec'|intros e; apply onward_err].
    apply safe_ret, onward_ok. exists updated. split; [|done]. right. eexists. apply elem_of_app. right. right. left.
  - destruct (IsConflict e); [|apply safe_err, onward_err].
    eapply safe_try; [apply safe_GetReceipt|]. intros r evs (suf & -> & _ & HQ).
    rewrite <- app_assoc. destruct r as [[[fresh rv']|]|e']; [|apply safe_err, onward_err..].
    destruct (bool_decide (r_State fresh = _)); [|apply safe_err, onward_err].
    destruct (negb _); [apply safe_err, onward_err|]. apply safe_ret, onward_ok. rewrite app_assoc. exact HQ.
Qed.

(** *** The cleanup *)
Lemma safe_cleanup attempts name : ∀ pre, committed pre →
  safe pre (cleanup attempts name key marker) (onward pre (fun _ _ => True)).
Proof.
  induction attempts as [|n IH]; intros pre Hp; cbn [cleanup].
  { apply safe_err. rewrite <- (app_nil_r pre) at 2. apply onward_err. }
  eapply safe_bind_call; [apply journal_hget|done| |intros e; apply onward_err].
  intros obj. apply safe_lift_bind; [intros rec Hrec|intros e; apply onward_err].
  apply safe_lift_bind; [intros next Hnext|intros e; apply onward_err].
  destruct next as [r|]; [|by apply safe_ret, onward_ok].
  apply safe_lift_bind; [intros spec Hspec|intros e; apply onward_err].
  eapply safe_try_call; [apply journal_hupdate| |].
  { intros x. exists pre, name, obj, rec, r, spec. do 4 (split; [done|]). right. split; [by apply committed_app|done]. }
  intros [stored|e]; rewrite <- app_assoc; cbn [app]; [by apply safe_ret, onward_ok|].
  destruct (IsConflict e); [|apply safe_err, onward_err].
  eapply safe_mono; [apply IH; by apply committed_app|]. intros evs x Hx. by eapply onward_trans.
Qed.

(** What the result says is true of what was seen. *)
Definition truthful (evs : list event) (x : ContributionApplyResult * option error) : Prop :=
  match x.1 with
  | ContributionAlreadyCommitted => committed_same evs ∧ calm evs
  | ContributionApplied | ContributionRecoveredAndCommitted => x.2 = None ∧ committed evs ∧ effective evs
  | ContributionCommittedCleanupPending => x.2 ≠ None ∧ committed evs ∧ effective evs
  end.
Lemma safe_finish pre name applied : committed pre → effective pre →
  safe pre (finish name key marker applied) (onward pre truthful).
Proof.
  intros Hc He. unfold finish. eapply safe_try; [by apply safe_cleanup|]. intros r evs (suf & -> & _).
  assert (committed (pre ++ suf) ∧ effective (pre ++ suf)) as Hce by (split; [by apply committed_app|by apply effective_app]).
  destruct r as [[]|e]; [apply safe_ret, onward_ok; by destruct applied|].
  destruct (bool_decide _); [apply safe_err, onward_err|by apply safe_ret, onward_ok].
Qed.

(** A receipt with no other content is in one of two states. *)
Lemma receipt_state obj rec : receiptFromUnstructured obj = Ok rec → r_State rec = ReceiptPrepared ∨ r_State rec = ReceiptCommitted.
Proof.
  unfold receiptFromUnstructured. destruct (NestedMap _ _) as [[fp|]|]; [|done..].
  intros (population & _ & HR)%result_bind_Ok. cbv zeta in HR. apply result_guard_Ok in HR as [_ (u & Hv & <-%Ok_inj)%result_bind_Ok].
  unfold Receipt_Validate in Hv. cbv zeta in Hv. apply result_guard_Ok in Hv as [Hv _].
  apply orb_false_iff in Hv as [_ Hv]. apply andb_false_iff in Hv as [Hv|Hv]; apply negb_false_iff, bool_decide_eq_true in Hv; auto.
Qed.

(** The calls after the receipt is in hand. *)
Lemma safe_applied pre name rv : contentDigest c = Ok digest → prepared pre →
  safe pre (effect <- applyHistoryEffect name key c marker ;!
    m_try (Commit key rv digest) (fun committed =>
      match committed with
      | Err e => m_err (mkError ErrReceiptCommitFailure (err_msg e))
      | Ok (committed, _) =>
          guard negb (bool_decide (r_State committed = ReceiptCommitted)) with mkError ErrReceiptCommitFailure "unexpected receipt state" ;!
          finish name key marker (snd effect && negb (fst effect))
      end)) (onward pre truthful).
Proof.
  intros Hd Hp. eapply safe_bind.
  - unfold applyHistoryEffect. rewrite Hd. apply safe_lift_bind; [intros d [= <-]; by apply safe_apply_effect|].
    intros e. rewrite <- (app_nil_r pre) at 2. apply onward_err.
  - intros effect evs (suf & -> & He). eapply safe_try; [by apply safe_Commit|].
    intros r evs (suf' & -> & HQ). rewrite <- app_assoc in *. destruct r as [[rec rv']|e]; [|apply safe_err, onward_err].
    destruct (bool_decide (r_State rec = ReceiptCommitted)) eqn:Es; cbn [negb]; [|apply safe_err, onward_err].
    apply bool_decide_eq_true in Es. eapply safe_mono; [apply safe_finish|].
    + exists rec. split; [exact HQ|exact Es].
    + rewrite app_assoc. by apply effective_app.
    + intros evs x Hx. by eapply onward_trans.
  - intros e evs (suf & -> & _). apply onward_err.
Qed.
End custody.

(** C9: crash safety of a contribution.  Whatever the API server answers, and so
    wherever the process stops: history is created or updated only on the record
    just read, either by the effect of the contribution, under a receipt of its
    content that is durable, or by the removal of its marker, once the receipt is
    committed; the receipt is committed only when the effect is durable; and the
    result tells the truth, the answer that nothing was left to do included. *)
Theorem ApplyContribution_crash_safe {W} `{!Api W json unit, !Api W json json, !Waiting W, !Journalled W, !StructConverter, !Unstructured}
  namespace contribution c digest keyDigest :
  normalize contribution = Ok c → contentDigest c = Ok digest →
  let key := mkContributionKey (c_ObservationID c) (c_Population c) in
  let marker := mkContributionMarker (c_ObservationID c) (c_Population c) keyDigest in
  ContributionKey_Digest key = Ok keyDigest →
  safe journal (allowed key c marker digest) [] (ApplyContribution namespace contribution)
    (fun evs r => match r with Ok x => truthful key c marker digest evs x | Err _ => True end).
Proof.
  intros Hn Hd key marker Hk. unfold ApplyContribution. rewrite Hn. apply safe_lift_bind; [intros c' [= <-]|done].
  rewrite Hd. apply safe_lift_bind; [intros d' [= <-]|done]. fold key.
  eapply safe_bind; [apply safe_resolve| |done]. intros name evs (suf0 & -> & Hcalm0 & _). cbn [app].
  eapply safe_bind; [apply safe_obtain_receipt| |done]. intros [rec rv] evs (suf & -> & Hcalm & Hread). cbn [fst snd] in *.
  assert (calm (suf0 ++ suf)) as Hcalm' by by apply Forall_app.
  destruct (bool_decide (r_ContentDigest rec = digest)) eqn:Ed; cbn [negb]; [|by apply safe_err].
  apply bool_decide_eq_true in Ed. destruct (bool_decide (r_State rec = ReceiptCommitted)) eqn:Es.
  - apply bool_decide_eq_true in Es. apply safe_ret. split; [by exists rec|done].
  - apply bool_decide_eq_false in Es. rewrite Hk. apply safe_lift_bind; [intros kd [= <-]|done]. cbv zeta. fold marker.
    assert (prepared digest (suf0 ++ suf)) as Hp.
    { exists rec. split; [done|]. split; [done|]. destruct Hread as (obj & _ & Hobj). by destruct (receipt_state _ _ Hobj). }
    eapply safe_mono; [by apply safe_applied|]. intros evs r (suf' & -> & HQ). by destruct r.
Qed.

(** ** A concrete server with a journal *)
Record world := mkWorld { w_histories : cluster json unit; w_receipts : cluster json json; w_log : list event }.

Definition on_histories {A} (m : M (cluster json unit) A) (e : result A → list event) : M world A := fun w =>
  let '(r, h) := m (w_histories w) in (r, mkWorld h (w_receipts w) (w_log w ++ e r)).
Definition on_receipts {A} (m : M (cluster json json) A) (e : result A → list event) : M world A := fun w =>
  let '(r, k) := m (w_receipts w) in (r, mkWorld (w_histories w) k (w_log w ++ e r)).

#[export] Instance world_histories : Api world json unit :=
  {| api_get n := on_histories (cl_get n) (fun r => [HGet n r]);
     api_create o := on_histories (cl_create o) (fun r => [HCreate o r]);
     api_update o := on_histories (cl_update o) (fun r => [HUpdate o r]);
     api_update_status o := on_histories (cl_update_status o) (fun _ => []);
     api_now := on_histories cl_now (fun _ => []); api_retry f := f |}.
#[export] Instance world_receipts : Api world json json :=
  {| api_get n := on_receipts (cl_get n) (fun r => [RGet n r]);
     api_create o := on_receipts (cl_create o) (fun r => [RCreate o r]);
     api_update o := on_receipts (cl_update o) (fun _ => []);
     api_update_status o := on_receipts (cl_update_status o) (fun r => [RStatus o r]);
     api_now := on_receipts cl_now (fun _ => []); api_retry f := f |}.
#[export] Instance world_waiting : Waiting world := {| wait := m_ret () |}.

Lemma traced_histories {A} (m : M (cluster json unit) A) e : traced w_log (on_histories m e) (fun evs r => evs = e r).
Proof. intros w r w'. unfold on_histories. destruct (m (w_histories w)) as [x h]. intros [= <- <-]. by exists (e x). Qed.
Lemma traced_receipts {A} (m : M (cluster json json) A) e : traced w_log (on_receipts m e) (fun evs r => evs = e r).
Proof. intros w r w'. unfold on_receipts. destruct (m (w_receipts w)) as [x h]. intros [= <- <-]. by exists (e x). Qed.

#[export] Program Instance world_journalled : Journalled world := {| journal := w_log |}.
Next Obligation. intros n. apply traced_histories. Qed.
Next Obligation. intros o. apply traced_histories. Qed.
Next Obligation. intros o. apply traced_histories. Qed.
Next Obligation. intros n. apply traced_receipts. Qed.
Next Obligation. intros o. apply traced_receipts. Qed.
Next Obligation. intros o. apply traced_receipts. Qed.
Next Obligation. apply quiet_ret. Qed.

Definition empty_world : world := mkWorld (mkCluster ∅ 1 0) (mkCluster ∅ 1 0) [].

Lemma ApplyContribution_crash_safe_witness :
  let contribution := ex_contribution [ex_fact "/etc" [PermissionRead]] in
  ∃ c digest keyDigest, let key := mkContributionKey (c_ObservationID c) (c_Population c) in
    let marker := mkContributionMarker (c_ObservationID c) (c_Population c) keyDigest in
    safe journal (allowed key c marker digest) [] (ApplyContribution "default" contribution : M world _)
      (fun evs r => match r with Ok x => truthful key c marker digest evs x | Err _ => True end).
Proof.
  intros contribution. destruct (normalize contribution) as [c|] eqn:En; [|vm_compute in En; discriminate].
  destruct (contentDigest c) as [digest|] eqn:Ed.
  - destruct (ContributionKey_Digest (mkContributionKey (c_ObservationID c) (c_Population c))) as [keyDigest|] eqn:Ek.
    + exists c, digest, keyDigest. exact (ApplyContribution_crash_safe "default" contribution c digest keyDigest En Ed Ek).
    + exfalso. vm_compute in En. injection En as <-. unfold ContributionKey_Digest in Ek.
      destruct (ContributionKey_CanonicalBytes _) eqn:Eb; [discriminate|vm_compute in Eb; discriminate].
  - exfalso. vm_compute in En. injection En as <-. unfold contentDigest in Ed.
    destruct (put_all put_string _) eqn:Ep; [discriminate|vm_compute in Ep; discriminate].
Defined.
