(* ===== verification/Duration.v ===== *)
(** * Durations

    [time.Duration] as Go writes and reads it: [String] and [ParseDuration],
    the float64 product of a fraction with its unit included, and that a
    duration is read back from its text. *)
From S2P Require Import Prelude GoStd Identity Digest Json Decimal Timestamp.

(** ** float64

    The positive values that occur, as mantissa times a power of two; the
    exponent is not bounded. *)
Definition float : Type := Z * Z.

(** The nearest float64 of a quotient, ties to even. *)
Definition round_ratio (num den : Z) : float :=
  if (num =? 0)%Z then (0, 0)%Z
  else
    let e := (Z.log2 num - Z.log2 den - 53)%Z in
    let n := (num * 2 ^ Z.max 0 (- e))%Z in
    let d := (den * 2 ^ Z.max 0 e)%Z in
    let '(d, e) := if (2 ^ 53 * d <=? n)%Z then (2 * d, e + 1)%Z else (d, e) in
    let q := (n / d)%Z in
    let r := (n mod d)%Z in
    ((if ((d <? 2 * r) || ((2 * r =? d) && Z.odd q))%Z then q + 1 else q)%Z, e).
Definition float_of (n : Z) : float := round_ratio n 1.
Definition float_mul (x y : float) : float :=
  let '(m, e) := round_ratio (fst x * fst y) 1 in (m, (e + snd x + snd y)%Z).
Definition float_div (n : Z) (y : float) : float :=
  let '(m, e) := round_ratio n (fst y) in (m, (e - snd y)%Z).
Definition float_trunc (x : float) : Z :=
  if (snd x <? 0)%Z then (fst x / 2 ^ (- snd x))%Z else (fst x * 2 ^ snd x)%Z.

(** The float is the integer. *)
Definition float_is (x : float) (n : Z) : Prop := (snd x <= 0)%Z ∧ fst x = (n * 2 ^ (- snd x))%Z.

Lemma round_ratio_exact num q t den : (0 < q < 2 ^ 53)%Z → (0 < den)%Z →
  (num * 2 ^ Z.max 0 (- t) = q * 2 ^ Z.max 0 t * den)%Z →
  (snd (round_ratio num den) <= t)%Z ∧ fst (round_ratio num den) = (q * 2 ^ (t - snd (round_ratio num den)))%Z.
Proof.
  intros Hq Hden Hval. unfold round_ratio.
  assert (∀ z, 0 < 2 ^ Z.max 0 z)%Z as Hp by (intros; apply Z.pow_pos_nonneg; lia).
  pose proof (Hp t). pose proof (Hp (- t)%Z). assert (0 < num)%Z as Hnum by nia.
  destruct (Z.eqb_spec num 0) as [?|_]; [lia|].
  set (e := (Z.log2 num - Z.log2 den - 53)%Z).
  assert (e <= t)%Z as He.
  { subst e. assert (Z.log2 q < 53)%Z by (apply Z.log2_lt_pow2; lia).
    pose proof (Z.log2_mul_above q den ltac:(lia) ltac:(lia)).
    assert (0 < q * den)%Z by nia.
    assert (Z.max 0 (- t) + Z.log2 num = Z.max 0 t + Z.log2 (q * den))%Z as El.
    { rewrite <- !Z.log2_mul_pow2 by lia. f_equal. rewrite Hval. ring. }
    lia. }
  assert (num * 2 ^ Z.max 0 (- e) = q * 2 ^ (t - e) * (den * 2 ^ Z.max 0 e))%Z as En.
  { apply (Z.mul_reg_r _ _ (2 ^ Z.max 0 (- t))); [lia|].
    transitivity (q * den * 2 ^ (Z.max 0 t + Z.max 0 (- e)))%Z.
    - rewrite Z.pow_add_r by lia. transitivity (num * 2 ^ Z.max 0 (- t) * 2 ^ Z.max 0 (- e))%Z; [ring|]. rewrite Hval. ring.
    - replace (Z.max 0 t + Z.max 0 (- e))%Z with (t - e + (Z.max 0 e + Z.max 0 (- t)))%Z by lia.
      rewrite !Z.pow_add_r by lia. ring. }
  rewrite En. set (d := (den * 2 ^ Z.max 0 e)%Z).
  assert (0 < d)%Z as Hd by (subst d; apply Z.mul_pos_pos; [lia|apply Z.pow_pos_nonneg; lia]).
  assert (∀ k x, 0 < x → k * x / x = k ∧ (k * x) mod x = 0)%Z as Hdiv
    by (intros; split; [apply Z.div_mul|apply Z.mod_mul]; lia).
  destruct (Z.leb_spec (2 ^ 53 * d) (q * 2 ^ (t - e) * d)) as [Hle|Hlt]; cbn [fst snd].
  - assert (0 < t - e)%Z as Hpos.
    { destruct (Z.eq_dec (t - e) 0) as [E|]; [|lia]. rewrite E in Hle. change (2 ^ 0)%Z with 1%Z in Hle. nia. }
    assert (q * 2 ^ (t - e) * d = q * 2 ^ (t - (e + 1)) * (2 * d))%Z as ->.
    { replace (t - e)%Z with (t - (e + 1) + 1)%Z by lia. rewrite Z.pow_add_r by lia. change (2 ^ 1)%Z with 2%Z. ring. }
    destruct (Hdiv (q * 2 ^ (t - (e + 1)))%Z (2 * d)%Z ltac:(lia)) as [-> ->]. split; [lia|].
    destruct (Z.ltb_spec (2 * d) (2 * 0)); [lia|]. destruct (Z.eqb_spec (2 * 0) (2 * d)); [lia|]. done.
  - destruct (Hdiv (q * 2 ^ (t - e))%Z d Hd) as [-> ->]. split; [lia|].
    destruct (Z.ltb_spec d (2 * 0)); [lia|]. destruct (Z.eqb_spec (2 * 0) d); [lia|]. done.
Qed.

Lemma float_of_exact n : (0 < n < 2 ^ 53)%Z → float_is (float_of n) n.
Proof.
  intros Hn. destruct (round_ratio_exact n n 0 1 Hn ltac:(lia)) as [H1 H2]; [change (2 ^ Z.max 0 (- 0))%Z with 1%Z; change (2 ^ Z.max 0 0)%Z with 1%Z; ring|].
  split; [done|]. by rewrite Z.sub_0_l in H2.
Qed.
Lemma float_mul_exact x y n m : float_is x n → float_is y m → (0 < n * m < 2 ^ 53)%Z → float_is (float_mul x y) (n * m).
Proof.
  intros [Hx Ex] [Hy Ey] Hnm. unfold float_mul. destruct x as [mx ex], y as [my ey]. cbn [fst snd] in *. subst mx my.
  destruct (round_ratio_exact (n * 2 ^ (- ex) * (m * 2 ^ (- ey))) (n * m) (- ex + - ey) 1 Hnm ltac:(lia)) as [H1 H2].
  { rewrite Z.max_l, Z.max_r, Z.pow_add_r by lia. change (2 ^ 0)%Z with 1%Z. ring. }
  destruct (round_ratio _ 1) as [r e]. cbn [fst snd] in *. split; cbn [fst snd]; [lia|]. rewrite H2. do 2 f_equal. lia.
Qed.
Lemma float_div_exact k m y : float_is y m → (0 < k < 2 ^ 53)%Z → (0 < m)%Z → float_is (float_div (k * m) y) k.
Proof.
  intros [Hy Ey] Hk Hm. unfold float_div. destruct y as [my ey]. cbn [fst snd] in *. subst my.
  assert (0 < 2 ^ (- ey))%Z by (apply Z.pow_pos_nonneg; lia).
  destruct (round_ratio_exact (k * m) k ey (m * 2 ^ (- ey)) Hk ltac:(nia)) as [H1 H2].
  { rewrite Z.max_r, Z.max_l by lia. change (2 ^ 0)%Z with 1%Z. ring. }
  destruct (round_ratio _ _) as [r e]. cbn [fst snd] in *. split; cbn [fst snd]; [lia|]. rewrite H2. do 2 f_equal. lia.
Qed.
Lemma float_trunc_exact x n : float_is x n → float_trunc x = n.
Proof.
  intros [Hx E]. unfold float_trunc. rewrite E. destruct (Z.ltb_spec (snd x) 0).
  - apply Z.div_mul. apply Z.pow_nonzero; lia.
  - assert (snd x = 0)%Z as -> by lia. cbn. lia.
Qed.

(** ** [ParseDuration] *)
Fixpoint leading_int (x : Z) (s : string) : option (Z * string) :=
  match s with
  | String a r =>
      match digit_val a with
      | None => Some (x, s)
      | Some d =>
          if (922337203685477580 <? x)%Z then None
          else let x := (x * 10 + d)%Z in if (2 ^ 63 <? x)%Z then None else leading_int x r
      end
  | EmptyString => Some (x, s)
  end.

(** Digits beyond the precision of a uint64 are skipped. *)
Fixpoint leading_fraction (x : Z) (scale : float) (overflow : bool) (s : string) : Z * float * string :=
  match s with
  | String a r =>
      match digit_val a with
      | None => (x, scale, s)
      | Some d =>
          if overflow || (922337203685477580 <? x)%Z then leading_fraction x scale true r
          else let y := (x * 10 + d)%Z in
               if (2 ^ 63 <? y)%Z then leading_fraction x scale true r
               else leading_fraction y (float_mul scale (float_of 10)) false r
      end
  | EmptyString => (x, scale, s)
  end.

Definition unit_byte (a : ascii) : bool := negb (bool_decide (a = "."%char)) && negb (bool_decide (is_Some (digit_val a))).
Fixpoint take_unit (s : string) : string * string :=
  match s with
  | String a r => if unit_byte a then let '(u, rest) := take_unit r in (String a u, rest) else ("", s)
  | EmptyString => ("", s)
  end.

Definition micro : string := bytes_string [194; 181; 115].
Definition duration_unit (u : string) : option Z :=
  if bool_decide (u = "ns") then Some 1%Z
  else if bool_decide (u ∈ ["us"; micro; bytes_string [206; 188; 115]]) then Some 1000%Z
  else if bool_decide (u = "ms") then Some 1000000%Z
  else if bool_decide (u = "s") then Some 1000000000%Z
  else if bool_decide (u = "m") then Some 60000000000%Z
  else if bool_decide (u = "h") then Some 3600000000000%Z else None.

Definition fraction_value (unit f : Z) (scale : float) : Z :=
  if (0 <? f)%Z then float_trunc (float_mul (float_of f) (float_div unit scale)) else 0%Z.

(** One number with its unit, and what follows. *)
Definition duration_term (s : string) : option (Z * string) :=
  match s with
  | String a _ =>
      if negb (bool_decide (a = "."%char) || bool_decide (is_Some (digit_val a))) then None
      else
        '(v, r) ← leading_int 0 s;
        let pre := negb (String.length r =? String.length s) in
        let '(f, scale, post, r) :=
          match r with
          | String "." t => let '(f, scale, r) := leading_fraction 0 (float_of 1) false t in
                            (f, scale, negb (String.length r =? String.length t), r)
          | _ => (0%Z, float_of 1, false, r)
          end in
        if negb pre && negb post then None
        else
          let '(u, r) := take_unit r in
          unit ← (if bool_decide (u = "") then None else duration_unit u);
          if (2 ^ 63 / unit <? v)%Z then None
          else
            let v := (v * unit + fraction_value unit f scale)%Z in
            if (2 ^ 63 <? v)%Z then None else Some (v, r)
  | EmptyString => None
  end.

Fixpoint duration_terms (fuel : nat) (d : Z) (s : string) : option Z :=
  match fuel, s with
  | _, EmptyString => Some d
  | 0, _ => None
  | S k, _ =>
      '(v, r) ← duration_term s;
      let d := ((d + v) mod 2 ^ 64)%Z in
      if (2 ^ 63 <? d)%Z then None else duration_terms k d r
  end.

Definition ParseDuration (s : string) : result Z :=
  let '(neg, s) := match s with
                   | String "-" r => (true, r)
                   | String "+" r => (false, r)
                   | _ => (false, s)
                   end in
  if bool_decide (s = "0") then Ok 0%Z
  else if bool_decide (s = "") then Err (mkError "" "invalid duration")
  else match duration_terms (String.length s) 0 s with
       | Some d => if neg then Ok (- d)%Z
                   else if (2 ^ 63 - 1 <? d)%Z then Err (mkError "" "invalid duration") else Ok d
       | None => Err (mkError "" "invalid duration")
       end.

(** ** [Duration.String] *)

(** [fmtFrac] and [fmtInt]. *)
Definition fraction_text (prec : nat) (u : Z) : string :=
  let frac := str_rev (drop_trailing_zeros_rev (str_rev (pad_digits prec (u mod 10 ^ Z.of_nat prec) ""))) in
  if bool_decide (frac = "") then "" else "." +:+ frac.
Definition term_text (prec : nat) (u : Z) (unit : string) : string :=
  itoa (u / 10 ^ Z.of_nat prec) +:+ fraction_text prec u +:+ unit.

Definition Duration_String (d : Z) : string :=
  let u := Z.abs d in
  (if (d <? 0)%Z then "-" else "") +:+
  (if (u =? 0)%Z then "0s"
   else if (u <? 1000)%Z then term_text 0 u "ns"
   else if (u <? 1000000)%Z then term_text 3 u micro
   else if (u <? 1000000000)%Z then term_text 6 u "ms"
   else
     let secs := (u / 1000000000)%Z in
     (if (secs / 3600 =? 0)%Z then "" else itoa (secs / 3600) +:+ "h") +:+
     (if (secs / 60 =? 0)%Z then "" else itoa (secs / 60 mod 60) +:+ "m") +:+
     term_text 9 (u - secs / 60 * 60000000000) "s").

Example duration_string_ex :
  map Duration_String [0; 1; 1100; 2200000; 3300000000; 245000000000; 246001000000000; 3723005000000000; -1500000000; -9223372036854775808]%Z =
  ["0s"; "1ns"; "1.1" +:+ micro; "2.2ms"; "3.3s"; "4m5s"; "68h20m1s"; "1034h10m5s"; "-1.5s"; "-2562047h47m16.854775808s"].
Proof. vm_compute. reflexivity. Qed.
Example parse_duration_ex :
  map ParseDuration ["0"; "5s"; "-.5s"; "1.5h"; "39h9m14.425s"; "0.3333333333333333333h"; "1h30"; "3x"; "."; ""; "9223372036854775808ns"; "-9223372036854775808ns"; "1.00000000000000000000001h"] =
  [Ok 0; Ok 5000000000; Ok (-500000000); Ok 5400000000000; Ok 140954425000000; Ok 1200000000000;
   Err (mkError "" "invalid duration"); Err (mkError "" "invalid duration"); Err (mkError "" "invalid duration"); Err (mkError "" "invalid duration");
   Err (mkError "" "invalid duration"); Ok (-9223372036854775808); Ok 3600000000000]%Z.
Proof. vm_compute. reflexivity. Qed.

(** ** A duration is read back *)
Lemma digit_val_byte a d : digit_val a = Some d ↔ byte_in 48 57 a = true ∧ d = (byte_of a - 48)%Z.
Proof.
  unfold digit_val, byte_in, byte_of. destruct (nat_of_ascii a) as [|n] eqn:E.
  - cbn. split; [discriminate|intros [? _]; discriminate].
  - rewrite <- E. clear E n. set (n := nat_of_ascii a). destruct (andb _ _) eqn:E1; destruct (andb (48 <=? n) (n <=? 57)) eqn:E2; bool_simpl;
      rewrite ?andb_true_iff, ?andb_false_iff, ?Z.leb_le, ?Z.leb_gt, ?Nat.leb_le, ?Nat.leb_gt in *; try lia; naive_solver.
Qed.
Lemma digit_val_not a : byte_in 48 57 a = false → digit_val a = None.
Proof. intros H. destruct (digit_val a) eqn:E; [|done]. apply digit_val_byte in E as [? _]. congruence. Qed.

Lemma leading_int_value s t : not_digit t → ∀ acc v, (0 <= acc)%Z → decimal_value acc s = Some v → (v <= 2 ^ 63)%Z →
  leading_int acc (s +:+ t) = Some (v, t).
Proof.
  intros Ht. induction s as [|a s IH]; intros acc v Ha.
  - intros [= <-] _. rewrite str_app_nil_l. destruct t as [|a t]; [done|]. cbn. by rewrite Ht.
  - cbn [decimal_value]. destruct (byte_in 48 57 a) eqn:Ea; [|done]. intros Hv Hle.
    pose proof (decimal_value_bounds _ _ _ Hv) as [Hb _]. pose proof (pow10_pos s). pose proof (digit_byte a Ea) as [Hd _].
    str_simpl. cbn [leading_int]. rewrite (proj2 (digit_val_byte a _) (conj Ea eq_refl)).
    assert (acc * 10 + (byte_of a - 48) <= v)%Z by nia.
    destruct (Z.ltb_spec 922337203685477580 acc); [lia|]. cbv zeta.
    destruct (Z.ltb_spec (2 ^ 63) (acc * 10 + (byte_of a - 48))); [lia|]. apply IH; [lia|done|done].
Qed.

Lemma leading_fraction_value s t : not_digit t → ∀ acc v p scale, (0 <= acc)%Z → decimal_value acc s = Some v → (v <= 10 ^ 15)%Z →
  float_is scale (10 ^ Z.of_nat p) → p + String.length s ≤ 15 →
  ∃ scale', leading_fraction acc scale false (s +:+ t) = (v, scale', t) ∧ float_is scale' (10 ^ Z.of_nat (p + String.length s)).
Proof.
  intros Ht. induction s as [|a s IH]; intros acc v p scale Ha.
  - intros [= <-] _ Hs _. rewrite str_app_nil_l. exists scale. cbn [String.length]. rewrite Nat.add_0_r.
    split; [|done]. destruct t as [|a t]; [done|]. cbn. by rewrite Ht.
  - cbn [decimal_value]. destruct (byte_in 48 57 a) eqn:Ea; [|done]. intros Hv Hle Hs Hp. cbn [String.length] in Hp.
    pose proof (decimal_value_bounds _ _ _ Hv) as [Hb _]. pose proof (pow10_pos s). pose proof (digit_byte a Ea) as [Hd _].
    str_simpl. cbn [leading_fraction orb]. rewrite (proj2 (digit_val_byte a _) (conj Ea eq_refl)).
    assert (acc * 10 + (byte_of a - 48) <= v)%Z by nia.
    destruct (Z.ltb_spec 922337203685477580 acc); [lia|]. cbv zeta.
    destruct (Z.ltb_spec (2 ^ 63) (acc * 10 + (byte_of a - 48))); [lia|].
    assert (10 ^ Z.of_nat (S p) <= 10 ^ 15)%Z by (apply Z.pow_le_mono_r; lia).
    assert (0 < 10 ^ Z.of_nat (S p))%Z by (apply Z.pow_pos_nonneg; lia).
    destruct (IH (acc * 10 + (byte_of a - 48))%Z v (S p) (float_mul scale (float_of 10))) as (scale' & E & Hs'); [lia|done|done| |lia|].
    + rewrite Nat2Z.inj_succ, Z.pow_succ_r, Z.mul_comm by lia.
      apply float_mul_exact; [done|apply float_of_exact; lia|]. rewrite Z.mul_comm, <- Z.pow_succ_r, <- Nat2Z.inj_succ by lia. lia.
    + exists scale'. split; [done|]. cbn [String.length]. by rewrite <- Nat.add_succ_comm.
Qed.

Lemma fraction_nanos_value s t : not_digit t → ∀ p acc v, decimal_value acc s = Some v → String.length s ≤ p →
  fraction_nanos (10 ^ Z.of_nat p / 10) (s +:+ t) = ((v - acc * pow10 s) * 10 ^ Z.of_nat (p - String.length s), t)%Z.
Proof.
  intros Ht. induction s as [|a s IH]; intros p acc v.
  - intros [= <-] _. rewrite str_app_nil_l, fraction_end by done. f_equal. change (pow10 "") with 1%Z. lia.
  - cbn [decimal_value]. destruct (byte_in 48 57 a) eqn:Ea; [|done]. intros Hv Hl. cbn [String.length] in *.
    destruct p as [|p]; [lia|]. str_simpl. cbn [fraction_nanos]. rewrite (proj2 (digit_val_byte a _) (conj Ea eq_refl)).
    rewrite Nat2Z.inj_succ, Z.pow_succ_r, (Z.mul_comm 10), Z.div_mul by lia. rewrite (IH p _ _ Hv) by lia. f_equal.
    rewrite pow10_cons. cbn [Nat.sub]. replace (10 ^ Z.of_nat p)%Z with (pow10 s * 10 ^ Z.of_nat (p - String.length s))%Z; [ring|].
    unfold pow10. rewrite <- Z.pow_add_r by lia. f_equal. lia.
Qed.

(** *** One term *)
Definition starts_term (t : string) : Prop := match t with String a _ => is_digit_byte a = true | EmptyString => True end.
Definition unit_text (u : string) : Prop := u ≠ "" ∧ all_bytes unit_byte u = true.

Lemma take_unit_app u t : all_bytes unit_byte u = true → starts_term t → take_unit (u +:+ t) = (u, t).
Proof.
  induction u as [|a u IH]; intros Hu Ht.
  - rewrite str_app_nil_l. destruct t as [|a t]; [done|]. cbn. unfold unit_byte. unfold starts_term, is_digit_byte in Ht. rewrite Ht.
    by rewrite andb_false_r.
  - cbn [all_bytes] in Hu. apply andb_prop in Hu as [Ha Hu]. str_simpl. cbn [take_unit]. by rewrite Ha, IH.
Qed.
Lemma unit_not_digit u t : unit_text u → not_digit (u +:+ t).
Proof.
  destruct u as [|a u]; intros [Hne Hu]; [done|]. cbn [all_bytes] in Hu. apply andb_prop in Hu as [Ha _]. str_simpl. cbn.
  unfold unit_byte in Ha. apply andb_prop in Ha as [_ Ha]. destruct (digit_val a); [|done]. by rewrite bool_decide_eq_true_2 in Ha.
Qed.
Lemma unit_no_dot u t : unit_text u → match u +:+ t with String "." _ => False | _ => True end.
Proof.
  destruct u as [|a u]; intros [Hne Hu]; [done|]. cbn [all_bytes] in Hu. apply andb_prop in Hu as [Ha _]. str_simpl.
  destruct a as [[] [] [] [] [] [] [] []]; try done.
Qed.

Lemma digits_term s t : s ≠ "" → decimal_value 0 s ≠ None →
  ∃ a r, s +:+ t = String a r ∧ bool_decide (a = "."%char) || bool_decide (is_Some (digit_val a)) = true.
Proof.
  destruct s as [|a s]; [done|]. intros _ Hv. cbn [decimal_value] in Hv. exists a, (s +:+ t). split; [by str_simpl|].
  destruct (byte_in 48 57 a) eqn:Ea; [|done]. rewrite (proj2 (digit_val_byte a _) (conj Ea eq_refl)).
  by rewrite (bool_decide_eq_true_2 (is_Some _)), orb_true_r.
Qed.
Lemma app_length_ne s t : s ≠ "" → (String.length t =? String.length (s +:+ t)) = false.
Proof. intros Hs. rewrite str_length_app. apply Nat.eqb_neq. destruct s; [done|]. cbn. lia. Qed.

Lemma duration_term_plain n u unit t : (0 <= n)%Z → unit_text u → duration_unit u = Some unit → (0 < unit)%Z → (n * unit <= 2 ^ 63)%Z →
  starts_term t → duration_term (itoa n +:+ u +:+ t) = Some ((n * unit)%Z, t).
Proof.
  intros Hn Hu Hunit Hpos Hle Ht. destruct (itoa_spec n Hn) as (Hne & _ & Hv).
  destruct (digits_term (itoa n) (u +:+ t) Hne ltac:(congruence)) as (a & r & E & Ha).
  pose proof (leading_int_value (itoa n) (u +:+ t) (unit_not_digit u t Hu) 0 n ltac:(lia) Hv ltac:(nia)) as Hlead.
  pose proof (app_length_ne (itoa n) (u +:+ t) Hne) as Hpre.
  unfold duration_term. rewrite E in Hlead, Hpre |- *. rewrite Ha. cbn [negb]. rewrite Hlead. cbn [mbind option_bind]. rewrite Hpre. cbn [negb andb].
  assert (match u +:+ t with
          | String "." t0 => let '(f, scale, r0) := leading_fraction 0 (float_of 1) false t0 in (f, scale, negb (String.length r0 =? String.length t0), r0)
          | _ => (0%Z, float_of 1, false, u +:+ t) end = (0%Z, float_of 1, false, u +:+ t)) as ->.
  { pose proof (unit_no_dot u t Hu) as Hd. destruct (u +:+ t) as [|b x]; [done|]. destruct b as [[] [] [] [] [] [] [] []]; try done. }
  rewrite take_unit_app by (done || apply Hu). destruct Hu as [Hune _].
  rewrite bool_decide_eq_false_2, Hunit by done. cbn [mbind option_bind].
  destruct (Z.ltb_spec (2 ^ 63 / unit) n) as [Hc|_].
  { exfalso. assert (n <= 2 ^ 63 / unit)%Z by (apply Z.div_le_lower_bound; lia). lia. }
  change (fraction_value unit 0 (float_of 1)) with 0%Z. rewrite Z.add_0_r. destruct (Z.ltb_spec (2 ^ 63) (n * unit)); [lia|]. done.
Qed.

(** The trimmed digits of a fraction. *)
Lemma trimmed_digits s : all_bytes is_digit_byte s = true → all_bytes is_digit_byte (drop_trailing_zeros_rev s) = true ∧
  String.length (drop_trailing_zeros_rev s) ≤ String.length s.
Proof.
  induction s as [|a s IH]; [done|]. cbn [all_bytes]. intros [Ha Hs]%andb_prop.
  destruct (decide (a = "0"%char)) as [->|Hne].
  - cbn [drop_trailing_zeros_rev String.length]. destruct (IH Hs). split; [done|lia].
  - replace (drop_trailing_zeros_rev (String a s)) with (String a s); [cbn; rewrite Ha; split; [done|lia]|].
    destruct a as [[] [] [] [] [] [] [] []]; try done; by destruct Hne.
Qed.
Lemma digits_value s : all_bytes is_digit_byte s = true → ∀ acc, ∃ v, decimal_value acc s = Some v.
Proof.
  induction s as [|a s IH]; intros Hs acc; [by eexists|]. cbn [all_bytes] in Hs. apply andb_prop in Hs as [[d Hd]%bool_decide_eq_true_1 Hs].
  cbn [decimal_value]. apply digit_val_byte in Hd as [-> _]. by apply IH.
Qed.
Lemma pad_digits_length k : ∀ n acc, String.length (pad_digits k n acc) = k + String.length acc.
Proof. induction k as [|k IH]; intros n acc; [done|]. cbn [pad_digits]. rewrite IH. cbn. lia. Qed.
Lemma length_str_rev s : String.length (str_rev s) = String.length s.
Proof. induction s as [|a s IH]; [done|]. rewrite str_rev_cons, str_length_app, IH. cbn. lia. Qed.

Lemma fraction_digits prec u : (0 <= u)%Z →
  let frac := str_rev (drop_trailing_zeros_rev (str_rev (pad_digits prec (u mod 10 ^ Z.of_nat prec) ""))) in
  ∃ f, decimal_value 0 frac = Some f ∧ String.length frac ≤ prec ∧
    (f * 10 ^ Z.of_nat (prec - String.length frac) = u mod 10 ^ Z.of_nat prec)%Z.
Proof.
  intros Hu frac. set (m := (u mod 10 ^ Z.of_nat prec)%Z) in *.
  assert (0 < 10 ^ Z.of_nat prec)%Z as Hp by (apply Z.pow_pos_nonneg; lia).
  assert (0 <= m < 10 ^ Z.of_nat prec)%Z as Hm by (apply Z.mod_pos_bound; lia).
  assert (all_bytes is_digit_byte (str_rev (pad_digits prec m "")) = true) as Hall by (rewrite all_bytes_rev; by apply pad_digits_bytes).
  destruct (trimmed_digits _ Hall) as [Hd Hl].
  assert (all_bytes is_digit_byte frac = true) as Hf by (unfold frac; by rewrite all_bytes_rev).
  assert (String.length frac ≤ prec) as Hlen
    by (unfold frac; rewrite (length_str_rev (drop_trailing_zeros_rev _)); rewrite length_str_rev, pad_digits_length in Hl; cbn in Hl; lia).
  destruct (digits_value frac Hf 0) as [f Hv]. exists f. split; [done|]. split; [done|].
  pose proof (fraction_nanos_value frac "" I prec 0 f Hv Hlen) as E1.
  assert (fraction_nanos (10 ^ Z.of_nat prec / 10) (frac +:+ "") = (m, "")) as E2.
  { unfold frac. rewrite fraction_trimmed by done. rewrite str_rev_involutive, fraction_pad by (done || lia). by rewrite Z.mod_small. }
  rewrite E1 in E2. apply (f_equal fst) in E2. cbn [fst] in E2. by rewrite Z.sub_0_r in E2.
Qed.

Lemma duration_term_fraction prec u unit t : (0 <= u)%Z → prec ≤ 9 → unit_text unit → duration_unit unit = Some (10 ^ Z.of_nat prec)%Z →
  (u <= 2 ^ 63)%Z → starts_term t → duration_term (term_text prec u unit +:+ t) = Some (u, t).
Proof.
  intros Hu Hp Hunit Hdu Hle Ht. unfold term_text, fraction_text.
  destruct (fraction_digits prec u Hu) as (f & Hv & Hlen & Hf).
  set (frac := str_rev (drop_trailing_zeros_rev (str_rev (pad_digits prec (u mod 10 ^ Z.of_nat prec) "")))) in *.
  assert (0 < 10 ^ Z.of_nat prec <= 10 ^ 9)%Z as Hpp by (split; [apply Z.pow_pos_nonneg|apply Z.pow_le_mono_r]; lia).
  pose proof (Z.div_mod u (10 ^ Z.of_nat prec) ltac:(lia)) as Hdm.
  pose proof (Z.mod_pos_bound u (10 ^ Z.of_nat prec) ltac:(lia)) as Hmb.
  assert (0 <= u / 10 ^ Z.of_nat prec)%Z as Hq by (apply Z.div_pos; lia).
  rewrite !str_app_assoc. case_bool_decide as Hfr.
  { rewrite str_app_nil_l, (duration_term_plain _ _ (10 ^ Z.of_nat prec)%Z) by (done || lia). do 2 f_equal.
    rewrite Hfr in Hv. injection Hv as <-. lia. }
  set (n := (u / 10 ^ Z.of_nat prec)%Z) in *. destruct (itoa_spec n Hq) as (Hne & _ & Hn).
  set (rest := ("." +:+ frac) +:+ unit +:+ t).
  assert (rest = String "." (frac +:+ unit +:+ t)) as Er by (unfold rest; by str_simpl).
  destruct (digits_term (itoa n) rest Hne ltac:(congruence)) as (a & r & E & Ha).
  pose proof (leading_int_value (itoa n) rest ltac:(by rewrite Er) 0 n ltac:(lia) Hn ltac:(nia)) as Hlead.
  pose proof (app_length_ne (itoa n) rest Hne) as Hpre.
  unfold duration_term. rewrite E in Hlead, Hpre |- *. rewrite Ha. cbn [negb]. rewrite Hlead. cbn [mbind option_bind]. rewrite Hpre. cbn [negb andb].
  rewrite Er. pose proof (unit_not_digit unit t Hunit) as Hnd.
  pose proof (decimal_value_bounds _ _ _ Hv) as Hfb. rewrite Z.mul_0_l in Hfb. unfold pow10 in Hfb.
  assert (f < 10 ^ 9)%Z as Hf9.
  { assert (10 ^ Z.of_nat (String.length frac) <= 10 ^ 9)%Z by (apply Z.pow_le_mono_r; lia). lia. }
  destruct (leading_fraction_value frac (unit +:+ t) Hnd 0 f 0 (float_of 1) ltac:(lia) Hv ltac:(lia)) as (scale & El & Hs); [by apply float_of_exact|lia|].
  rewrite El. cbn [Nat.add] in Hs. rewrite take_unit_app by (done || apply Hunit). destruct Hunit as [Hune _].
  rewrite bool_decide_eq_false_2, Hdu by done. cbn [mbind option_bind].
  destruct (Z.ltb_spec (2 ^ 63 / 10 ^ Z.of_nat prec) n) as [Hc|_].
  { exfalso. assert (n <= 2 ^ 63 / 10 ^ Z.of_nat prec)%Z by (apply Z.div_le_lower_bound; lia). lia. }
  assert (fraction_value (10 ^ Z.of_nat prec) f scale = u mod 10 ^ Z.of_nat prec)%Z as ->.
  { unfold fraction_value. destruct (Z.ltb_spec 0 f) as [Hpos|Hz]; [|assert (f = 0)%Z by lia; subst f; lia].
    rewrite <- Hf. apply float_trunc_exact. set (k := (10 ^ Z.of_nat (prec - String.length frac))%Z) in *.
    assert (0 < k <= 10 ^ 9)%Z as Hk by (unfold k; split; [apply Z.pow_pos_nonneg|apply Z.pow_le_mono_r]; lia).
    apply float_mul_exact; [apply float_of_exact; lia| |nia].
    replace (10 ^ Z.of_nat prec)%Z with (k * 10 ^ Z.of_nat (String.length frac))%Z
      by (unfold k; rewrite <- Z.pow_add_r by lia; f_equal; lia).
    apply float_div_exact; [done|lia|apply Z.pow_pos_nonneg; lia]. }
  replace (n * 10 ^ Z.of_nat prec + u mod 10 ^ Z.of_nat prec)%Z with u by lia.
  destruct (Z.ltb_spec (2 ^ 63) u); [lia|]. done.
Qed.

(** *** The whole text *)
Lemma duration_terms_cons k d s v r : s ≠ "" → duration_term s = Some (v, r) → (0 <= d)%Z → (0 <= v)%Z → (d + v <= 2 ^ 63)%Z →
  duration_terms (S k) d s = duration_terms k (d + v) r.
Proof.
  intros Hs Ht Hd Hv Hle. destruct s as [|a s]; [done|]. cbn [duration_terms]. rewrite Ht. cbn [mbind option_bind].
  rewrite Z.mod_small by lia. destruct (Z.ltb_spec (2 ^ 63) (d + v)); [lia|]. done.
Qed.
Lemma duration_terms_end k d : duration_terms k d "" = Some d.
Proof. by destruct k. Qed.

Lemma itoa_starts n t : (0 <= n)%Z → starts_term (itoa n +:+ t) ∧ itoa n +:+ t ≠ "" ∧
  match itoa n +:+ t with String "-" _ | String "+" _ => False | _ => True end.
Proof.
  intros Hn. destruct (itoa_spec n Hn) as (Hne & _ & Hv). destruct (itoa n) as [|a s]; [done|]. str_simpl.
  cbn [decimal_value] in Hv. destruct (byte_in 48 57 a) eqn:Ea; [|done]. split.
  - cbn. unfold is_digit_byte. apply bool_decide_eq_true_2. rewrite (proj2 (digit_val_byte a _) (conj Ea eq_refl)). by eexists.
  - split; [done|]. destruct a as [[] [] [] [] [] [] [] []]; done.
Qed.
Lemma unit_text_ok : Forall unit_text ["ns"; micro; "ms"; "s"; "m"; "h"].
Proof. repeat constructor; done. Qed.

Lemma ParseDuration_unsigned s d : s ≠ "" → s ≠ "0" → match s with String "-" _ | String "+" _ => False | _ => True end →
  duration_terms (String.length s) 0 s = Some d → (d <= 2 ^ 63 - 1)%Z → ParseDuration s = Ok d.
Proof.
  intros Hne H0 Hs Ht Hd. unfold ParseDuration.
  assert (match s with String "-" r => (true, r) | String "+" r => (false, r) | _ => (false, s) end = (false, s)) as ->.
  { destruct s as [|a s]; [done|]. destruct a as [[] [] [] [] [] [] [] []]; done. }
  rewrite !bool_decide_eq_false_2, Ht by done. destruct (Z.ltb_spec (2 ^ 63 - 1) d); [lia|]. done.
Qed.

(** The terms of a text that starts with a number of a unit. *)
Lemma numeral_terms k n u t d v : (0 <= n)%Z → u ≠ "" →
  duration_term (itoa n +:+ u +:+ t) = Some (v, t) → (0 <= d)%Z → (0 <= v)%Z → (d + v <= 2 ^ 63)%Z →
  duration_terms (S k) d (itoa n +:+ u +:+ t) = duration_terms k (d + v) t.
Proof. intros Hn Hu Ht Hd Hv Hle. apply duration_terms_cons; try done. by apply itoa_starts. Qed.

Lemma seconds_terms secs k u : (0 <= secs)%Z → (0 <= u)%Z → (secs + u <= 2 ^ 63)%Z →
  duration_terms (S k) secs (term_text 9 u "s") = Some (secs + u)%Z.
Proof.
  intros Hs Hu Hle. pose proof (proj1 (Forall_forall _ _) unit_text_ok) as Hunit.
  rewrite (duration_terms_cons k secs _ u ""); [apply duration_terms_end| | |lia..].
  - unfold term_text. apply itoa_starts. apply Z.div_pos; lia.
  - rewrite <- (str_app_nil_r (term_text 9 u "s")). apply duration_term_fraction; [lia|lia|apply Hunit; set_solver|reflexivity|lia|done].
Qed.

Lemma term_text_app prec u unit t : term_text prec u unit +:+ t = itoa (u / 10 ^ Z.of_nat prec) +:+ (fraction_text prec u +:+ unit) +:+ t.
Proof. unfold term_text. by rewrite !str_app_assoc. Qed.

Lemma small_term prec u unit : (0 < u <= 2 ^ 63 - 1)%Z → prec ≤ 9 → unit_text unit → duration_unit unit = Some (10 ^ Z.of_nat prec)%Z →
  ParseDuration (term_text prec u unit) = Ok u.
Proof.
  intros Hu Hp Hunit Hdu. assert (0 <= u / 10 ^ Z.of_nat prec)%Z as Hq by (apply Z.div_pos; [lia|apply Z.pow_pos_nonneg; lia]).
  destruct (itoa_starts (u / 10 ^ Z.of_nat prec) (fraction_text prec u +:+ unit) Hq) as (_ & Hne & Hsign).
  fold (term_text prec u unit) in *.
  pose proof (duration_term_fraction prec u unit "" ltac:(lia) Hp Hunit Hdu ltac:(lia) I) as Ht. rewrite str_app_nil_r in Ht.
  apply ParseDuration_unsigned; [done| |done| |lia].
  - intros E. rewrite E in Ht. assert (duration_term "0" = None) by reflexivity. congruence.
  - destruct (String.length (term_text prec u unit)) as [|k] eqn:El; [by destruct (term_text prec u unit)|].
    rewrite (duration_terms_cons k 0 _ u "") by (done || lia). apply duration_terms_end.
Qed.

Definition unsigned (s : string) : Prop := match s with String "-" _ | String "+" _ => False | _ => True end.

Lemma numeral_form n u t : (0 <= n)%Z → u ∈ ["m"; "h"] →
  starts_term (itoa n +:+ u +:+ t) ∧ itoa n +:+ u +:+ t ≠ "" ∧
  2 + String.length t ≤ String.length (itoa n +:+ u +:+ t) ∧ unsigned (itoa n +:+ u +:+ t).
Proof.
  intros Hn Hin. destruct (itoa_starts n (u +:+ t) Hn) as (? & ? & ?). split_and!; try done.
  rewrite !str_length_app. destruct (itoa_spec n Hn) as [Hne _]. destruct (itoa n); [done|].
  destruct u; [set_solver|]. cbn. lia.
Qed.
Lemma seconds_form u : (0 <= u <= 2 ^ 63)%Z →
  starts_term (term_text 9 u "s") ∧ term_text 9 u "s" ≠ "" ∧ term_text 9 u "s" ≠ "0" ∧ unsigned (term_text 9 u "s").
Proof.
  intros Hu. destruct (itoa_starts (u / 10 ^ Z.of_nat 9) (fraction_text 9 u +:+ "s")) as (H1 & H2 & H3); [apply Z.div_pos; lia|].
  fold (term_text 9 u "s") in H1, H2, H3. split_and!; try done. intros E.
  pose proof (seconds_terms 0 0 u ltac:(lia) ltac:(lia) ltac:(lia)) as Hx. rewrite E in Hx.
  assert (duration_terms 1 0 "0" = None) by reflexivity. congruence.
Qed.
Lemma numeral_step n u unit t k acc : (0 <= n)%Z → u ∈ ["m"; "h"] → duration_unit u = Some unit → (0 < unit)%Z → starts_term t →
  (0 <= acc)%Z → (acc + n * unit <= 2 ^ 63)%Z →
  duration_terms (S k) acc (itoa n +:+ u +:+ t) = duration_terms k (acc + n * unit) t.
Proof.
  intros Hn Hin Hdu Hpos Ht Hacc Hsum. assert (unit_text u) as Hut by (apply (proj1 (Forall_forall _ _) unit_text_ok); set_solver).
  apply numeral_terms; [done|apply Hut| |done|lia|done]. apply duration_term_plain; (done || lia).
Qed.

(** Hours, minutes and seconds; the first two only when they are not zero. *)
Definition clock_text (hours minutes u : Z) : string :=
  (if (hours =? 0)%Z then "" else itoa hours +:+ "h") +:+
  (if (60 * hours + minutes =? 0)%Z then "" else itoa minutes +:+ "m") +:+ term_text 9 u "s".

Lemma Parse_clock hours minutes u : (0 <= hours)%Z → (0 <= minutes)%Z → (0 <= u)%Z →
  (hours * 3600000000000 + minutes * 60000000000 + u < 2 ^ 63)%Z →
  ParseDuration (clock_text hours minutes u) = Ok (hours * 3600000000000 + minutes * 60000000000 + u)%Z.
Proof.
  intros Hh Hm Hu Hd. unfold clock_text. destruct (seconds_form u ltac:(lia)) as (Ht1 & Ht2 & Ht3 & Ht4).
  pose proof (seconds_terms (hours * 3600000000000 + minutes * 60000000000)) as Hsec.
  set (tail := term_text 9 u "s") in *.
  assert (∀ k, (hours * 3600000000000 + minutes * 60000000000 + u <= 2 ^ 63)%Z →
    duration_terms (S k) (hours * 3600000000000 + minutes * 60000000000) tail = Some (hours * 3600000000000 + minutes * 60000000000 + u)%Z) as Hend
    by (intros k Hle; apply Hsec; lia).
  destruct (numeral_form minutes "m" tail Hm ltac:(set_solver)) as (Hf1 & Hf2 & Hf3 & Hf4).
  destruct (Z.eqb_spec (60 * hours + minutes) 0) as [Ez|Hnz].
  { destruct (Z.eqb_spec hours 0) as [Ez'|]; [|lia]. rewrite !str_app_nil_l. apply ParseDuration_unsigned; [done|done|done| |lia].
    destruct (String.length tail) as [|k] eqn:El; [by destruct tail|].
    replace 0%Z with (hours * 3600000000000 + minutes * 60000000000)%Z by lia. apply Hend. lia. }
  rewrite (str_app_assoc (itoa minutes)). destruct (Z.eqb_spec hours 0) as [Ez'|Hnz'].
  - rewrite str_app_nil_l. apply ParseDuration_unsigned; [done| |done| |lia].
    { intros E'. rewrite E' in Hf3. cbn in Hf3. lia. }
    destruct (String.length (itoa minutes +:+ "m" +:+ tail)) as [|[|k]]; [lia|lia|].
    rewrite (numeral_step _ _ 60000000000%Z) by (done || lia || set_solver).
    replace (0 + minutes * 60000000000)%Z with (hours * 3600000000000 + minutes * 60000000000)%Z by lia. apply Hend. lia.
  - rewrite (str_app_assoc (itoa hours)).
    destruct (numeral_form hours "h" (itoa minutes +:+ "m" +:+ tail) Hh ltac:(set_solver)) as (_ & Hg2 & Hg3 & Hg4).
    apply ParseDuration_unsigned; [done| |done| |lia].
    { intros E'. rewrite E' in Hg3. cbn in Hg3. lia. }
    destruct (String.length (itoa hours +:+ "h" +:+ itoa minutes +:+ "m" +:+ tail)) as [|[|[|k]]]; [lia|lia|lia|].
    rewrite (numeral_step _ _ 3600000000000%Z) by (done || lia || set_solver).
    rewrite (numeral_step _ _ 60000000000%Z) by (done || lia || set_solver). rewrite Z.add_0_l. apply Hend. lia.
Qed.

(** A duration is read back from the text it is written as. *)
Lemma Parse_String d : (0 < d < 2 ^ 63)%Z → ParseDuration (Duration_String d) = Ok d.
Proof.
  intros Hd. unfold Duration_String. rewrite Z.abs_eq by lia. destruct (Z.ltb_spec d 0); [lia|]. rewrite str_app_nil_l.
  destruct (Z.eqb_spec d 0) as [|_]; [lia|]. pose proof (proj1 (Forall_forall _ _) unit_text_ok) as Hunit.
  destruct (Z.ltb_spec d 1000); [apply small_term; [lia|lia|apply Hunit; set_solver|reflexivity]|].
  destruct (Z.ltb_spec d 1000000); [apply small_term; [lia|lia|apply Hunit; set_solver|reflexivity]|].
  destruct (Z.ltb_spec d 1000000000); [apply small_term; [lia|lia|apply Hunit; set_solver|reflexivity]|].
  set (secs := (d / 1000000000)%Z).
  pose proof (Z.div_mod d 1000000000 ltac:(lia)) as Hdm. pose proof (Z.mod_pos_bound d 1000000000 ltac:(lia)) as Hmb. fold secs in Hdm.
  pose proof (Z.div_mod secs 60 ltac:(lia)) as Hm1. pose proof (Z.mod_pos_bound secs 60 ltac:(lia)) as Hm2.
  pose proof (Z.div_mod (secs / 60) 60 ltac:(lia)) as Hm3. pose proof (Z.mod_pos_bound (secs / 60) 60 ltac:(lia)) as Hm4.
  assert (secs / 3600 = secs / 60 / 60)%Z as -> by (rewrite Z.div_div by lia; done).
  set (minutes := (secs / 60)%Z) in *. set (hours := (minutes / 60)%Z) in *.
  assert (0 <= minutes)%Z by (apply Z.div_pos; lia). assert (0 <= hours)%Z by (apply Z.div_pos; lia).
  rewrite Hm3 at 1. fold (clock_text hours (minutes mod 60) (d - minutes * 60000000000)).
  rewrite Parse_clock by lia. f_equal. lia.
Qed.
