(* ===== verification/ObservationPersisted.v ===== *)
(** * internal/observation/kubernetes/adapter.go: the persisted structs

    The JSON shape of a stored Observation: the structs of the adapter, their
    encoding by encoding/json and their strict decoding
    ([DisallowUnknownFields]), and what the passage through
    [map[string]interface{}] does to a value. *)
From S2P Require Import Prelude GoStd Identity ObservationDomain Digest Json Decimal Timestamp Duration Unstructured JsonParse Kube SpoBackend Target Attempt RollbackAttempt.
Import RollbackAttempt.

(** ** What a map holds

    [toMap] marshals a struct and unmarshals it into a map: invalid UTF-8
    becomes the replacement character and every number a float64, which is
    written with the fewest digits that determine it. *)
Fixpoint clean_utf8 (s : string) : string :=
  match s with
  | EmptyString => ""
  | String a s1 =>
      if ascii7 a then String a (clean_utf8 s1) else
      match s1 with
      | String b s2 =>
          if lead2 a b then String a (String b (clean_utf8 s2)) else
          match s2 with
          | String c s3 =>
              if lead3 a b c then String a (String b (String c (clean_utf8 s3)))
              else match s3 with
                   | String d s4 =>
                       if lead4 a b c d then String a (String b (String c (String d (clean_utf8 s4))))
                       else replacement +:+ clean_utf8 s1
                   | EmptyString => replacement +:+ clean_utf8 s1
                   end
          | EmptyString => replacement +:+ clean_utf8 s1
          end
      | EmptyString => replacement +:+ clean_utf8 s1
      end
  end.

Definition float_int (n : Z) : Z := float_trunc (float_of n).
(** The candidates with the last [p] digits zero, below and above. *)
Fixpoint shortest (p : nat) (x : Z) : Z :=
  match p with
  | 0 => x
  | S k =>
      let unit := (10 ^ Z.of_nat p)%Z in
      let lo := (x / unit * unit)%Z in
      let hi := (lo + unit)%Z in
      let lo_ok := ((0 <? lo) && (float_int lo =? x))%Z in
      let hi_ok := (float_int hi =? x)%Z in
      if lo_ok && hi_ok then (if x - lo <=? hi - x then lo else hi)%Z
      else if lo_ok then lo else if hi_ok then hi else shortest k x
  end.
Definition float_text (literal : string) : string :=
  match decimal_value 0 literal with
  | Some n => if (n <=? 2 ^ 53)%Z then literal else itoa (shortest 20 (float_int n))
  | None => literal
  end.

Fixpoint through_map (j : json) : json :=
  match j with
  | JStr s => JStr (clean_utf8 s)
  | JNum t => JNum (float_text t)
  | JArr l => JArr (map through_map l)
  | JObj fs => JObj (map (fun f => (f.1, through_map f.2)) fs)
  | _ => j
  end.
Definition toMap (j : json) : json := through_map j.

Example through_map_ex :
  map (fun n => through_map (JNum (itoa n))) [9007199254740992; 9007199254740993; 18446744073709551615; 1152921504606846977]%Z =
  map JNum ["9007199254740992"; "9007199254740992"; "18446744073709552000"; "1152921504606847000"].
Proof. vm_compute. reflexivity. Qed.

(** Text that is valid UTF-8, and numbers a float64 holds. *)
Fixpoint plain_json (j : json) : bool :=
  match j with
  | JStr s => valid_utf8 s
  | JNum t => match decimal_value 0 t with Some n => (n <=? 2 ^ 53)%Z | None => true end
  | JArr l => forallb plain_json l
  | JObj fs => forallb (fun f => plain_json f.2) fs
  | _ => true
  end.

Lemma clean_valid k : ∀ s, String.length s < k → valid_utf8 s = true → clean_utf8 s = s.
Proof.
  induction k as [|k IH]; intros s Hl Hv; [lia|].
  assert (∀ t, valid_utf8 t = true → String.length t < k → clean_utf8 t = t) as IH' by auto.
  destruct s as [|a s1]; [done|]. cbn [clean_utf8 valid_utf8 String.length] in *.
  destruct (ascii7 a); [rewrite IH' by (done || lia); done|].
  destruct s1 as [|b s2]; [done|]. cbn [String.length] in Hl.
  destruct (lead2 a b); [rewrite IH' by (done || lia); done|].
  destruct s2 as [|c s3]; [done|]. cbn [String.length] in Hl.
  destruct (lead3 a b c); [rewrite IH' by (done || lia); done|].
  destruct s3 as [|d s4]; [done|]. cbn [String.length] in Hl.
  destruct (lead4 a b c d); [rewrite IH' by (done || lia); done|done].
Qed.
Lemma through_plain j : plain_json j = true → through_map j = j.
Proof.
  induction j as [| | | |l IH|fs IH] using json_nested_ind; cbn [plain_json through_map]; intros Hp; try done.
  - unfold float_text. destruct (decimal_value 0 t); [|done]. by rewrite Hp.
  - f_equal. apply (clean_valid (S (String.length s))); [lia|done].
  - f_equal. rewrite Forall_forall in IH. rewrite forallb_forall in Hp. rewrite <- (map_id l) at 2.
    apply map_ext_in. intros x Hx. apply IH; [by apply list_elem_of_In|by apply Hp].
  - f_equal. rewrite Forall_forall in IH. rewrite forallb_forall in Hp. rewrite <- (map_id fs) at 2.
    apply map_ext_in. intros [key v] Hx. cbn. f_equal. apply (IH (key, v)); [by apply list_elem_of_In|by apply (Hp (key, v))].
Qed.

(** It is what marshalling and unmarshalling do to such a value. *)
Lemma through_text html j : canonical j = true → (Z.of_nat (depth j) <= 10000)%Z → plain_json j = true →
  Unmarshal (marshal_of html j) = Ok (toMap j).
Proof. intros. unfold toMap. rewrite through_plain by done. by apply Unmarshal_marshal. Qed.

(** ** Decoding

    As in RollbackAttempt, and a key that names no field is an error. *)
Definition known (names : list string) (fs : list (string * json)) : bool :=
  forallb (fun f => existsb (fun name => fold_eq name f.1) names) fs.
Definition into_strict {A} (names : list string) (fields : list (string * json) → A → result A) : A → json → result A :=
  into_struct (fun fs cur => if known names fs then fields fs cur else failwith "unknown field").

Definition max_int64 : Z := 9223372036854775807.
(** [strconv.ParseUint] and [ParseInt] of a number literal. *)
Definition into_uint64 (cur : Z) (j : json) : result Z :=
  match j with
  | JNum t => match decimal_value 0 t with
              | Some n => if empty t || (max_uint64 <? n)%Z then failwith "cannot unmarshal number" else Ok n
              | None => failwith "cannot unmarshal number"
              end
  | JNull => Ok cur
  | _ => failwith "cannot unmarshal into uint64"
  end.
Definition into_int (cur : Z) (j : json) : result Z :=
  match j with
  | JNum t =>
      let '(sign, digits) := match t with String "-" r => (-1, r)%Z | _ => (1%Z, t) end in
      match decimal_value 0 digits with
      | Some n => if empty digits || (max_int64 <? sign * n)%Z || (sign * n <? - max_int64 - 1)%Z
                  then failwith "cannot unmarshal number" else Ok (sign * n)%Z
      | None => failwith "cannot unmarshal number"
      end
  | JNull => Ok cur
  | _ => failwith "cannot unmarshal into int"
  end.
Definition into_bool (cur : bool) (j : json) : result bool :=
  match j with JBool b => Ok b | JNull => Ok cur | _ => failwith "cannot unmarshal into bool" end.
Definition into_pointer {A} (zero : A) (into : A → json → result A) (cur : option A) (j : json) : result (option A) :=
  match j with JNull => Ok None | _ => v ← into (default zero cur) j; Ok (Some v) end.
Abbreviation strings_field name fs cur := (into_field (into_slice "" into_string) name fs cur).

(** ** Encoding *)
Definition slice_json {A} (to : A → json) (l : list A) : json := match l with [] => JNull | _ => JArr (map to l) end.
Definition slice_field {A} (name : string) (to : A → json) (l : list A) : field := (name, slice_json to l, false).
Definition slice_omitempty {A} (name : string) (to : A → json) (l : list A) : field := (name, JArr (map to l), bool_decide (length l = 0)).
Definition uint_field (name : string) (n : Z) : field := (name, JNum (itoa n), false).
Definition uint_omitempty (name : string) (n : Z) : field := (name, JNum (itoa n), (n =? 0)%Z).
Definition bool_field (name : string) (b : bool) : field := (name, JBool b, false).

(** ** The structs *)
Record persistedGroupKind := mkPersistedGroupKind { pgk_Group : string; pgk_Kind : string }.
Definition zero_GroupKind := mkPersistedGroupKind "" "".
Definition GroupKind_json (p : persistedGroupKind) : json :=
  struct_json [omitempty "group" (pgk_Group p); required "kind" (pgk_Kind p)].
Definition into_GroupKind := into_strict ["group"; "kind"] (fun fs p =>
  group ← string_field "group" fs (pgk_Group p); kind ← string_field "kind" fs (pgk_Kind p);
  Ok (mkPersistedGroupKind group kind)).

Record persistedCluster := mkPersistedCluster { pcl_NamespaceUID : string }.
Definition zero_Cluster := mkPersistedCluster "".
Definition Cluster_json (p : persistedCluster) : json := struct_json [required "namespaceUID" (pcl_NamespaceUID p)].
Definition into_Cluster := into_strict ["namespaceUID"] (fun fs p =>
  uid ← string_field "namespaceUID" fs (pcl_NamespaceUID p); Ok (mkPersistedCluster uid)).

Record persistedWorkload := mkPersistedWorkload {
  pw_Cluster : persistedCluster; pw_Namespace : string; pw_GroupKind : persistedGroupKind; pw_Name : string; pw_UID : string }.
Definition zero_Workload := mkPersistedWorkload zero_Cluster "" zero_GroupKind "" "".
Definition Workload_json (p : persistedWorkload) : json :=
  struct_json [("cluster", Cluster_json (pw_Cluster p), false); required "namespace" (pw_Namespace p);
    ("groupKind", GroupKind_json (pw_GroupKind p), false); required "name" (pw_Name p); required "uid" (pw_UID p)].
Definition into_Workload := into_strict ["cluster"; "namespace"; "groupKind"; "name"; "uid"] (fun fs p =>
  cluster ← into_field into_Cluster "cluster" fs (pw_Cluster p);
  ns ← string_field "namespace" fs (pw_Namespace p);
  gk ← into_field into_GroupKind "groupKind" fs (pw_GroupKind p);
  name ← string_field "name" fs (pw_Name p);
  uid ← string_field "uid" fs (pw_UID p);
  Ok (mkPersistedWorkload cluster ns gk name uid)).

Record persistedSlot := mkPersistedSlot { psl_Workload : persistedWorkload; psl_Container : string }.
Definition zero_Slot := mkPersistedSlot zero_Workload "".
Definition Slot_json (p : persistedSlot) : json :=
  struct_json [("workload", Workload_json (psl_Workload p), false); required "container" (psl_Container p)].
Definition into_Slot := into_strict ["workload"; "container"] (fun fs p =>
  workload ← into_field into_Workload "workload" fs (psl_Workload p);
  container ← string_field "container" fs (psl_Container p);
  Ok (mkPersistedSlot workload container)).

Record persistedTarget := mkPersistedTarget { ptg_Slot : persistedSlot }.
Definition zero_Target := mkPersistedTarget zero_Slot.
Definition Target_json (p : persistedTarget) : json := struct_json [("slot", Slot_json (ptg_Slot p), false)].
Definition into_Target := into_strict ["slot"] (fun fs p =>
  slot ← into_field into_Slot "slot" fs (ptg_Slot p); Ok (mkPersistedTarget slot)).

Record persistedImageRevision := mkPersistedImageRevision { pir_Slot : persistedSlot; pir_ImageDigest : string }.
Definition zero_ImageRevision := mkPersistedImageRevision zero_Slot "".
Definition ImageRevision_json (p : persistedImageRevision) : json :=
  struct_json [("slot", Slot_json (pir_Slot p), false); required "imageDigest" (pir_ImageDigest p)].
Definition into_ImageRevision := into_strict ["slot"; "imageDigest"] (fun fs p =>
  slot ← into_field into_Slot "slot" fs (pir_Slot p);
  digest ← string_field "imageDigest" fs (pir_ImageDigest p);
  Ok (mkPersistedImageRevision slot digest)).

Record persistedRuntimeInstance := mkPersistedRuntimeInstance {
  pri_Slot : persistedSlot; pri_PodUID : string; pri_ContainerID : string; pri_ImageRevision : option persistedImageRevision }.
Definition zero_RuntimeInstance := mkPersistedRuntimeInstance zero_Slot "" "" None.
Definition RuntimeInstance_json (p : persistedRuntimeInstance) : json :=
  struct_json [("slot", Slot_json (pri_Slot p), false); required "podUID" (pri_PodUID p);
    omitempty "containerID" (pri_ContainerID p);
    match pri_ImageRevision p with
    | Some r => ("imageRevision", ImageRevision_json r, false)
    | None => ("imageRevision", JNull, true)
    end].
Definition into_RuntimeInstance := into_strict ["slot"; "podUID"; "containerID"; "imageRevision"] (fun fs p =>
  slot ← into_field into_Slot "slot" fs (pri_Slot p);
  pod ← string_field "podUID" fs (pri_PodUID p);
  container ← string_field "containerID" fs (pri_ContainerID p);
  revision ← into_field (into_pointer zero_ImageRevision into_ImageRevision) "imageRevision" fs (pri_ImageRevision p);
  Ok (mkPersistedRuntimeInstance slot pod container revision)).

Record persistedBackend := mkPersistedBackend { pb_Kind : string; pb_Version : string }.
Definition zero_Backend := mkPersistedBackend "" "".
Definition Backend_json (p : persistedBackend) : json := struct_json [required "kind" (pb_Kind p); required "version" (pb_Version p)].
Definition into_Backend := into_strict ["kind"; "version"] (fun fs p =>
  kind ← string_field "kind" fs (pb_Kind p); version ← string_field "version" fs (pb_Version p);
  Ok (mkPersistedBackend kind version)).

Record persistedTargetChange := mkPersistedTargetChange { ptc_At : string; ptc_Kind : string; ptc_Detail : string }.
Definition zero_TargetChange := mkPersistedTargetChange "" "" "".
Definition TargetChange_json (p : persistedTargetChange) : json :=
  struct_json [required "at" (ptc_At p); required "kind" (ptc_Kind p); omitempty "detail" (ptc_Detail p)].
Definition into_TargetChange := into_strict ["at"; "kind"; "detail"] (fun fs p =>
  at_ ← string_field "at" fs (ptc_At p); kind ← string_field "kind" fs (ptc_Kind p); detail ← string_field "detail" fs (ptc_Detail p);
  Ok (mkPersistedTargetChange at_ kind detail)).

Record persistedSpec := mkPersistedSpec {
  psp_Target : persistedTarget; psp_Sources : list string; psp_Duration : string; psp_RequesterSession : string; psp_AnchorPodUID : string }.
Definition zero_Spec := mkPersistedSpec zero_Target [] "" "" "".
Definition Spec_json (p : persistedSpec) : json :=
  struct_json [("target", Target_json (psp_Target p), false); slice_field "sources" JStr (psp_Sources p);
    required "duration" (psp_Duration p); omitempty "requesterSession" (psp_RequesterSession p);
    omitempty "anchorPodUID" (psp_AnchorPodUID p)].
Definition into_Spec := into_strict ["target"; "sources"; "duration"; "requesterSession"; "anchorPodUID"] (fun fs p =>
  target ← into_field into_Target "target" fs (psp_Target p);
  sources ← strings_field "sources" fs (psp_Sources p);
  duration ← string_field "duration" fs (psp_Duration p);
  session ← string_field "requesterSession" fs (psp_RequesterSession p);
  anchor ← string_field "anchorPodUID" fs (psp_AnchorPodUID p);
  Ok (mkPersistedSpec target sources duration session anchor)).

Record persistedBinding := mkPersistedBinding {
  pbd_ResolvedTargets : list persistedRuntimeInstance; pbd_Backend : persistedBackend;
  pbd_ImageRevisions : list persistedImageRevision; pbd_TargetChanges : list persistedTargetChange }.
Definition zero_Binding := mkPersistedBinding [] zero_Backend [] [].
Definition Binding_json (p : persistedBinding) : json :=
  struct_json [slice_field "resolvedTargets" RuntimeInstance_json (pbd_ResolvedTargets p);
    ("backend", Backend_json (pbd_Backend p), false);
    slice_field "imageRevisions" ImageRevision_json (pbd_ImageRevisions p);
    slice_field "targetChanges" TargetChange_json (pbd_TargetChanges p)].
Definition into_Binding := into_strict ["resolvedTargets"; "backend"; "imageRevisions"; "targetChanges"] (fun fs p =>
  targets ← into_field (into_slice zero_RuntimeInstance into_RuntimeInstance) "resolvedTargets" fs (pbd_ResolvedTargets p);
  backend ← into_field into_Backend "backend" fs (pbd_Backend p);
  revisions ← into_field (into_slice zero_ImageRevision into_ImageRevision) "imageRevisions" fs (pbd_ImageRevisions p);
  changes ← into_field (into_slice zero_TargetChange into_TargetChange) "targetChanges" fs (pbd_TargetChanges p);
  Ok (mkPersistedBinding targets backend revisions changes)).

Record persistedFailure := mkPersistedFailure {
  pf_Stage : string; pf_Code : string; pf_Reason : string; pf_Source : string; pf_OccurredAt : string; pf_Retryable : bool;
  pf_ExecutorID : string; pf_ClaimGeneration : Z }.
Definition zero_Failure := mkPersistedFailure "" "" "" "" "" false "" 0.
Definition Failure_json (p : persistedFailure) : json :=
  struct_json [required "stage" (pf_Stage p); required "code" (pf_Code p); required "reason" (pf_Reason p);
    required "source" (pf_Source p); required "occurredAt" (pf_OccurredAt p); bool_field "retryable" (pf_Retryable p);
    omitempty "executorID" (pf_ExecutorID p); uint_omitempty "claimGeneration" (pf_ClaimGeneration p)].
Definition into_Failure :=
  into_strict ["stage"; "code"; "reason"; "source"; "occurredAt"; "retryable"; "executorID"; "claimGeneration"] (fun fs p =>
  stage ← string_field "stage" fs (pf_Stage p);
  code ← string_field "code" fs (pf_Code p);
  reason ← string_field "reason" fs (pf_Reason p);
  source ← string_field "source" fs (pf_Source p);
  occurred ← string_field "occurredAt" fs (pf_OccurredAt p);
  retryable ← into_field into_bool "retryable" fs (pf_Retryable p);
  executor ← string_field "executorID" fs (pf_ExecutorID p);
  generation ← into_field into_uint64 "claimGeneration" fs (pf_ClaimGeneration p);
  Ok (mkPersistedFailure stage code reason source occurred retryable executor generation)).

Record persistedExecution := mkPersistedExecution {
  pe_State : string; pe_Completion : string; pe_StartedAt : string; pe_CompletedAt : string;
  pe_ExecutorID : string; pe_ClaimGeneration : Z; pe_LeaseExpiry : string;
  pe_StopRequestedAt : string; pe_StopRequester : string; pe_StopContextVersion : Z; pe_StopExecutorID : string;
  pe_StopClaimGeneration : Z; pe_Failure : option persistedFailure }.
Definition zero_Execution := mkPersistedExecution "" "" "" "" "" 0 "" "" "" 0 "" 0 None.
Definition Execution_json (p : persistedExecution) : json :=
  struct_json [required "state" (pe_State p); omitempty "completion" (pe_Completion p); omitempty "startedAt" (pe_StartedAt p);
    omitempty "completedAt" (pe_CompletedAt p); omitempty "executorID" (pe_ExecutorID p);
    uint_omitempty "claimGeneration" (pe_ClaimGeneration p); omitempty "leaseExpiry" (pe_LeaseExpiry p);
    omitempty "stopRequestedAt" (pe_StopRequestedAt p); omitempty "stopRequester" (pe_StopRequester p);
    uint_omitempty "stopContextVersion" (pe_StopContextVersion p); omitempty "stopExecutorID" (pe_StopExecutorID p);
    uint_omitempty "stopClaimGeneration" (pe_StopClaimGeneration p);
    match pe_Failure p with
    | Some f => ("failure", Failure_json f, false)
    | None => ("failure", JNull, true)
    end].
Definition into_Execution :=
  into_strict ["state"; "completion"; "startedAt"; "completedAt"; "executorID"; "claimGeneration"; "leaseExpiry"; "stopRequestedAt";
               "stopRequester"; "stopContextVersion"; "stopExecutorID"; "stopClaimGeneration"; "failure"] (fun fs p =>
  state ← string_field "state" fs (pe_State p);
  completion ← string_field "completion" fs (pe_Completion p);
  started ← string_field "startedAt" fs (pe_StartedAt p);
  completed ← string_field "completedAt" fs (pe_CompletedAt p);
  executor ← string_field "executorID" fs (pe_ExecutorID p);
  generation ← into_field into_uint64 "claimGeneration" fs (pe_ClaimGeneration p);
  lease ← string_field "leaseExpiry" fs (pe_LeaseExpiry p);
  stopped ← string_field "stopRequestedAt" fs (pe_StopRequestedAt p);
  requester ← string_field "stopRequester" fs (pe_StopRequester p);
  version ← into_field into_uint64 "stopContextVersion" fs (pe_StopContextVersion p);
  stopExecutor ← string_field "stopExecutorID" fs (pe_StopExecutorID p);
  stopGeneration ← into_field into_uint64 "stopClaimGeneration" fs (pe_StopClaimGeneration p);
  failure ← into_field (into_pointer zero_Failure into_Failure) "failure" fs (pe_Failure p);
  Ok (mkPersistedExecution state completion started completed executor generation lease stopped requester version
        stopExecutor stopGeneration failure)).

Record persistedQualification := mkPersistedQualification {
  pq_BackendHealthConfirmed : bool; pq_SourceAttachedForBoundWindow : bool; pq_FlushConfirmed : bool;
  pq_Attribution : string; pq_AttributedCount : Z; pq_ExcludedCount : Z }.
Definition zero_Qualification := mkPersistedQualification false false false "" 0 0.
Definition Qualification_json (p : persistedQualification) : json :=
  struct_json [bool_field "backendHealthConfirmed" (pq_BackendHealthConfirmed p);
    bool_field "sourceAttachedForBoundWindow" (pq_SourceAttachedForBoundWindow p); bool_field "flushConfirmed" (pq_FlushConfirmed p);
    required "attribution" (pq_Attribution p); uint_field "attributedCount" (pq_AttributedCount p);
    uint_field "excludedCount" (pq_ExcludedCount p)].
Definition into_Qualification :=
  into_strict ["backendHealthConfirmed"; "sourceAttachedForBoundWindow"; "flushConfirmed"; "attribution"; "attributedCount"; "excludedCount"] (fun fs p =>
  health ← into_field into_bool "backendHealthConfirmed" fs (pq_BackendHealthConfirmed p);
  attached ← into_field into_bool "sourceAttachedForBoundWindow" fs (pq_SourceAttachedForBoundWindow p);
  flush ← into_field into_bool "flushConfirmed" fs (pq_FlushConfirmed p);
  attribution ← string_field "attribution" fs (pq_Attribution p);
  attributed ← into_field into_uint64 "attributedCount" fs (pq_AttributedCount p);
  excluded ← into_field into_uint64 "excludedCount" fs (pq_ExcludedCount p);
  Ok (mkPersistedQualification health attached flush attribution attributed excluded)).

Record persistedExclusionReason := mkPersistedExclusionReason { pxr_Reason : string; pxr_Count : Z }.
Definition zero_ExclusionReason := mkPersistedExclusionReason "" 0.
Definition ExclusionReason_json (p : persistedExclusionReason) : json :=
  struct_json [required "reason" (pxr_Reason p); uint_field "count" (pxr_Count p)].
Definition into_ExclusionReason := into_strict ["reason"; "count"] (fun fs p =>
  reason ← string_field "reason" fs (pxr_Reason p); count ← into_field into_uint64 "count" fs (pxr_Count p);
  Ok (mkPersistedExclusionReason reason count)).

Record persistedFilesystemFact := mkPersistedFilesystemFact { pff_Path : string; pff_Permissions : list string }.
Definition zero_FilesystemFact := mkPersistedFilesystemFact "" [].
Definition FilesystemFact_json (p : persistedFilesystemFact) : json :=
  struct_json [required "path" (pff_Path p); ("permissions", JArr (map JStr (pff_Permissions p)), false)].
Definition into_FilesystemFact := into_strict ["path"; "permissions"] (fun fs p =>
  path ← string_field "path" fs (pff_Path p); permissions ← strings_field "permissions" fs (pff_Permissions p);
  Ok (mkPersistedFilesystemFact path permissions)).

Record persistedNetworkFact := mkPersistedNetworkFact { pnf_Port : Z; pnf_Direction : string }.
Definition zero_NetworkFact := mkPersistedNetworkFact 0 "".
Definition NetworkFact_json (p : persistedNetworkFact) : json :=
  struct_json [uint_field "port" (pnf_Port p); required "direction" (pnf_Direction p)].
Definition into_NetworkFact := into_strict ["port"; "direction"] (fun fs p =>
  port ← into_field into_int "port" fs (pnf_Port p); direction ← string_field "direction" fs (pnf_Direction p);
  Ok (mkPersistedNetworkFact port direction)).

Record persistedCapabilityFact := mkPersistedCapabilityFact { pcf_Name : string }.
Definition zero_CapabilityFact := mkPersistedCapabilityFact "".
Definition CapabilityFact_json (p : persistedCapabilityFact) : json := struct_json [required "name" (pcf_Name p)].
Definition into_CapabilityFact := into_strict ["name"] (fun fs p =>
  name ← string_field "name" fs (pcf_Name p); Ok (mkPersistedCapabilityFact name)).

Record persistedExecFact := mkPersistedExecFact { pxf_Path : string }.
Definition zero_ExecFact := mkPersistedExecFact "".
Definition ExecFact_json (p : persistedExecFact) : json := struct_json [required "path" (pxf_Path p)].
Definition into_ExecFact := into_strict ["path"] (fun fs p =>
  path ← string_field "path" fs (pxf_Path p); Ok (mkPersistedExecFact path)).

Record persistedFacts := mkPersistedFacts {
  pfs_Filesystem : list persistedFilesystemFact; pfs_Exec : list persistedExecFact; pfs_NetworkConnect : list persistedNetworkFact;
  pfs_NetworkBind : list persistedNetworkFact; pfs_Capabilities : list persistedCapabilityFact }.
Definition zero_Facts := mkPersistedFacts [] [] [] [] [].
Definition Facts_json (p : persistedFacts) : json :=
  struct_json [slice_omitempty "filesystem" FilesystemFact_json (pfs_Filesystem p); slice_omitempty "exec" ExecFact_json (pfs_Exec p);
    slice_omitempty "networkConnect" NetworkFact_json (pfs_NetworkConnect p);
    slice_omitempty "networkBind" NetworkFact_json (pfs_NetworkBind p);
    slice_omitempty "capabilities" CapabilityFact_json (pfs_Capabilities p)].
Definition into_Facts := into_strict ["filesystem"; "exec"; "networkConnect"; "networkBind"; "capabilities"] (fun fs p =>
  filesystem ← into_field (into_slice zero_FilesystemFact into_FilesystemFact) "filesystem" fs (pfs_Filesystem p);
  exec ← into_field (into_slice zero_ExecFact into_ExecFact) "exec" fs (pfs_Exec p);
  connect ← into_field (into_slice zero_NetworkFact into_NetworkFact) "networkConnect" fs (pfs_NetworkConnect p);
  bind ← into_field (into_slice zero_NetworkFact into_NetworkFact) "networkBind" fs (pfs_NetworkBind p);
  capabilities ← into_field (into_slice zero_CapabilityFact into_CapabilityFact) "capabilities" fs (pfs_Capabilities p);
  Ok (mkPersistedFacts filesystem exec connect bind capabilities)).

Record persistedSource := mkPersistedSource {
  pso_Name : string; pso_Backend : string; pso_Version : string; pso_Qualification : persistedQualification;
  pso_Evidence : string; pso_References : list string; pso_Facts : persistedFacts; pso_ExclusionReasons : list persistedExclusionReason }.
Definition zero_Source := mkPersistedSource "" "" "" zero_Qualification "" [] zero_Facts [].
(** A struct is never empty: the tag of [facts] has no effect. *)
Definition Source_json (p : persistedSource) : json :=
  struct_json [required "name" (pso_Name p); omitempty "backend" (pso_Backend p); omitempty "version" (pso_Version p);
    ("qualification", Qualification_json (pso_Qualification p), false); required "evidence" (pso_Evidence p);
    slice_omitempty "references" JStr (pso_References p); ("facts", Facts_json (pso_Facts p), false);
    slice_omitempty "exclusionReasons" ExclusionReason_json (pso_ExclusionReasons p)].
Definition into_Source :=
  into_strict ["name"; "backend"; "version"; "qualification"; "evidence"; "references"; "facts"; "exclusionReasons"] (fun fs p =>
  name ← string_field "name" fs (pso_Name p);
  backend ← string_field "backend" fs (pso_Backend p);
  version ← string_field "version" fs (pso_Version p);
  qualification ← into_field into_Qualification "qualification" fs (pso_Qualification p);
  evidence ← string_field "evidence" fs (pso_Evidence p);
  references ← strings_field "references" fs (pso_References p);
  facts ← into_field into_Facts "facts" fs (pso_Facts p);
  reasons ← into_field (into_slice zero_ExclusionReason into_ExclusionReason) "exclusionReasons" fs (pso_ExclusionReasons p);
  Ok (mkPersistedSource name backend version qualification evidence references facts reasons)).

Record persistedResult := mkPersistedResult { prs_Sources : list persistedSource }.
Definition zero_Result := mkPersistedResult [].
Definition Result_json (p : persistedResult) : json := struct_json [slice_field "sources" Source_json (prs_Sources p)].
Definition into_Result := into_strict ["sources"] (fun fs p =>
  sources ← into_field (into_slice zero_Source into_Source) "sources" fs (prs_Sources p); Ok (mkPersistedResult sources)).

Record persistedProvenance := mkPersistedProvenance {
  ppv_ResolvedTargets : list persistedRuntimeInstance; ppv_ImageRevisions : list persistedImageRevision;
  ppv_Backend : persistedBackend; ppv_RequestedSources : list string }.
Definition zero_Provenance := mkPersistedProvenance [] [] zero_Backend [].
Definition Provenance_json (p : persistedProvenance) : json :=
  struct_json [slice_field "resolvedTargets" RuntimeInstance_json (ppv_ResolvedTargets p);
    slice_field "imageRevisions" ImageRevision_json (ppv_ImageRevisions p); ("backend", Backend_json (ppv_Backend p), false);
    slice_field "requestedSources" JStr (ppv_RequestedSources p)].
Definition into_Provenance := into_strict ["resolvedTargets"; "imageRevisions"; "backend"; "requestedSources"] (fun fs p =>
  targets ← into_field (into_slice zero_RuntimeInstance into_RuntimeInstance) "resolvedTargets" fs (ppv_ResolvedTargets p);
  revisions ← into_field (into_slice zero_ImageRevision into_ImageRevision) "imageRevisions" fs (ppv_ImageRevisions p);
  backend ← into_field into_Backend "backend" fs (ppv_Backend p);
  sources ← strings_field "requestedSources" fs (ppv_RequestedSources p);
  Ok (mkPersistedProvenance targets revisions backend sources)).

Record persistedStatus := mkPersistedStatus {
  pst_Binding : persistedBinding; pst_Execution : persistedExecution; pst_Result : persistedResult;
  pst_Provenance : option persistedProvenance }.
Definition zero_Status := mkPersistedStatus zero_Binding zero_Execution zero_Result None.
Definition Status_json (p : persistedStatus) : json :=
  struct_json [("binding", Binding_json (pst_Binding p), false); ("execution", Execution_json (pst_Execution p), false);
    ("result", Result_json (pst_Result p), false);
    match pst_Provenance p with
    | Some v => ("provenance", Provenance_json v, false)
    | None => ("provenance", JNull, true)
    end].
Definition into_Status := into_strict ["binding"; "execution"; "result"; "provenance"] (fun fs p =>
  binding ← into_field into_Binding "binding" fs (pst_Binding p);
  execution ← into_field into_Execution "execution" fs (pst_Execution p);
  res ← into_field into_Result "result" fs (pst_Result p);
  provenance ← into_field (into_pointer zero_Provenance into_Provenance) "provenance" fs (pst_Provenance p);
  Ok (mkPersistedStatus binding execution res provenance)).

(** [fromMap]: the value of the map is text again, and decoded. *)
Definition fromMap {A} (zero : A) (into : A → json → result A) (j : json) : result A := into zero (through_map j).

(** ** What is written is read back *)
Definition uint64 (n : Z) : Prop := (0 <= n <= max_uint64)%Z.

Lemma known_stored names fields : forallb (fun f : field => bool_decide (f.1.1 ∈ names)) fields = true →
  known names (sort_by (less_on fst string_ltb) (stored fields)) = true.
Proof.
  intros H. unfold known. apply forallb_forall. intros f Hf%list_elem_of_In. rewrite sort_by_perm in Hf.
  unfold stored in Hf. apply list_elem_of_In, in_flat_map in Hf as (x & Hx & Hf). rewrite forallb_forall in H. specialize (H x Hx).
  bool_simpl. destruct x.2; [done|]. destruct Hf as [<-|[]]. apply existsb_exists. exists x.1.1. split; [by apply list_elem_of_In|apply fold_eq_refl].
Qed.

Lemma read_uint64 cur n : uint64 n → into_uint64 cur (JNum (itoa n)) = Ok n.
Proof.
  intros [H0 Hn]. destruct (itoa_spec n H0) as (Hne & _ & Hv). cbn [into_uint64]. rewrite Hv.
  unfold empty. rewrite bool_decide_eq_false_2 by done. destruct (Z.ltb_spec max_uint64 n); [lia|done].
Qed.
Lemma read_int cur n : (0 <= n <= max_int64)%Z → into_int cur (JNum (itoa n)) = Ok n.
Proof.
  intros [H0 Hn]. destruct (itoa_spec n H0) as (Hne & _ & Hv). cbn [into_int].
  assert (match itoa n with String "-" r => (-1, r)%Z | _ => (1%Z, itoa n) end = (1%Z, itoa n)) as ->.
  { destruct (itoa_starts n "" H0) as (_ & _ & Hs). rewrite str_app_nil_r in Hs. destruct (itoa n) as [|a s]; [done|].
    destruct a as [[] [] [] [] [] [] [] []]; done. }
  rewrite Hv, Z.mul_1_l. unfold empty. rewrite bool_decide_eq_false_2 by done.
  destruct (Z.ltb_spec max_int64 n); [lia|]. destruct (Z.ltb_spec n (- max_int64 - 1)); [unfold max_int64 in *; lia|done].
Qed.
Lemma read_items {A} (zero : A) (into : A → json → result A) (to : A → json) l : Forall (fun x => into zero (to x) = Ok x) l → result_mapM (into zero) (map to l) = Ok l.
Proof. induction 1 as [|x l Hx _ IH]; [done|]. cbn [map result_mapM]. rewrite Hx. cbn [mbind result_bind]. by rewrite IH. Qed.
Lemma read_slice {A} (zero : A) (into : A → json → result A) (to : A → json) cur l : Forall (fun x => into zero (to x) = Ok x) l →
  into_slice zero into cur (slice_json to l) = Ok l.
Proof. intros H. destruct l as [|x l]; [done|]. by apply (read_items zero into to). Qed.
Lemma read_strings cur l : into_slice "" into_string cur (slice_json JStr l) = Ok l.
Proof. apply read_slice. by apply Forall_forall. Qed.
(** A slice with [omitempty]. *)
Lemma read_omitted {A} (zero : A) (into : A → json → result A) (to : A → json) cur l :
  cur = [] → Forall (fun x => into zero (to x) = Ok x) l →
  (if bool_decide (length l = 0) then Ok cur else into_slice zero into cur (JArr (map to l))) = Ok l.
Proof. intros -> H. case_bool_decide as E; [by destruct l|]. by apply (read_items zero into to). Qed.
Lemma read_omitted_strings cur l : cur = [] →
  (if bool_decide (length l = 0) then Ok cur else into_slice "" into_string cur (JArr (map JStr l))) = Ok l.
Proof. intros. apply (read_omitted "" into_string JStr); [done|]. by apply Forall_forall. Qed.
Lemma read_omitted_uint cur n : cur = 0%Z → uint64 n → (if (n =? 0)%Z then Ok cur else into_uint64 cur (JNum (itoa n))) = Ok n.
Proof. intros -> H. destruct (Z.eqb_spec n 0) as [->|]; [done|by apply read_uint64]. Qed.

(** Unfold a decoder on a stored struct and read its fields. *)
Ltac read_struct into to :=
  unfold into, to, into_strict, struct_json, obj_of, into_struct;
  rewrite known_stored by reflexivity; read_fields.

Lemma read_GroupKind p : into_GroupKind zero_GroupKind (GroupKind_json p) = Ok p.
Proof. read_struct into_GroupKind GroupKind_json. by destruct p. Qed.
Lemma read_Cluster p : into_Cluster zero_Cluster (Cluster_json p) = Ok p.
Proof. read_struct into_Cluster Cluster_json. by destruct p. Qed.
Lemma read_Workload p : into_Workload zero_Workload (Workload_json p) = Ok p.
Proof.
  read_struct into_Workload Workload_json. cbn [pw_Cluster pw_GroupKind zero_Workload]. rewrite read_Cluster. cbn [mbind result_bind]. read_fields.
  rewrite read_GroupKind. cbn [mbind result_bind]. read_fields. by destruct p.
Qed.
Lemma read_Slot p : into_Slot zero_Slot (Slot_json p) = Ok p.
Proof.
  read_struct into_Slot Slot_json. cbn [psl_Workload zero_Slot]. rewrite read_Workload. cbn [mbind result_bind]. read_fields. by destruct p.
Qed.
Create Rewrite HintDb persisted.
#[local] Hint Rewrite read_GroupKind read_Cluster read_Workload read_Slot read_strings : persisted.

(** Fields of which some are structs or lists. *)
Ltac read_nested := repeat (progress (autorewrite with persisted; cbn [mbind result_bind]; read_fields)).

Lemma read_Target p : into_Target zero_Target (Target_json p) = Ok p.
Proof. read_struct into_Target Target_json. read_nested. by destruct p. Qed.
Lemma read_ImageRevision p : into_ImageRevision zero_ImageRevision (ImageRevision_json p) = Ok p.
Proof. read_struct into_ImageRevision ImageRevision_json. read_nested. by destruct p. Qed.
Lemma read_pointer {A} (zero : A) (into : A → json → result A) cur j fs v :
  j = JObj fs → cur = None → into zero j = Ok v → into_pointer zero into cur j = Ok (Some v).
Proof. intros -> -> E. unfold into_pointer. cbn [default]. by rewrite E. Qed.

Lemma read_RuntimeInstance p : into_RuntimeInstance zero_RuntimeInstance (RuntimeInstance_json p) = Ok p.
Proof.
  destruct p as [slot pod container [r|]]; read_struct into_RuntimeInstance RuntimeInstance_json; cbn [pri_Slot pri_PodUID pri_ContainerID pri_ImageRevision];
    read_nested; [|done].
  erewrite read_pointer by (reflexivity || apply read_ImageRevision). done.
Qed.
Lemma read_Backend p : into_Backend zero_Backend (Backend_json p) = Ok p.
Proof. read_struct into_Backend Backend_json. by destruct p. Qed.
Lemma read_TargetChange p : into_TargetChange zero_TargetChange (TargetChange_json p) = Ok p.
Proof. read_struct into_TargetChange TargetChange_json. by destruct p. Qed.
Lemma read_RuntimeInstances cur l : into_slice zero_RuntimeInstance into_RuntimeInstance cur (slice_json RuntimeInstance_json l) = Ok l.
Proof. apply read_slice, Forall_forall. intros p _. apply read_RuntimeInstance. Qed.
Lemma read_ImageRevisions cur l : into_slice zero_ImageRevision into_ImageRevision cur (slice_json ImageRevision_json l) = Ok l.
Proof. apply read_slice, Forall_forall. intros p _. apply read_ImageRevision. Qed.
Lemma read_TargetChanges cur l : into_slice zero_TargetChange into_TargetChange cur (slice_json TargetChange_json l) = Ok l.
Proof. apply read_slice, Forall_forall. intros p _. apply read_TargetChange. Qed.
#[local] Hint Rewrite read_Target read_ImageRevision read_Backend read_RuntimeInstances read_ImageRevisions read_TargetChanges : persisted.

Lemma read_Spec p : into_Spec zero_Spec (Spec_json p) = Ok p.
Proof. read_struct into_Spec Spec_json. read_nested. by destruct p. Qed.
Lemma read_Binding p : into_Binding zero_Binding (Binding_json p) = Ok p.
Proof. read_struct into_Binding Binding_json. read_nested. by destruct p. Qed.

Definition Failure_ok (p : persistedFailure) : Prop := uint64 (pf_ClaimGeneration p).
Lemma read_Failure p : Failure_ok p → into_Failure zero_Failure (Failure_json p) = Ok p.
Proof.
  intros H. read_struct into_Failure Failure_json. cbn [into_bool mbind result_bind]. read_fields.
  erewrite read_omitted_uint by (reflexivity || done). by destruct p.
Qed.

Definition Execution_ok (p : persistedExecution) : Prop :=
  uint64 (pe_ClaimGeneration p) ∧ uint64 (pe_StopContextVersion p) ∧ uint64 (pe_StopClaimGeneration p) ∧
  match pe_Failure p with Some f => Failure_ok f | None => True end.
Lemma read_Execution p : Execution_ok p → into_Execution zero_Execution (Execution_json p) = Ok p.
Proof.
  intros (H1 & H2 & H3 & H4). destruct p as [a b c d e f g h i j k l [x|]]; read_struct into_Execution Execution_json;
    cbn [pe_ClaimGeneration pe_StopContextVersion pe_StopClaimGeneration pe_Failure] in *;
    do 3 (erewrite read_omitted_uint by (reflexivity || done); cbn [mbind result_bind]; read_fields); [|done].
  erewrite read_pointer by (reflexivity || by apply read_Failure). done.
Qed.

Definition Qualification_ok (p : persistedQualification) : Prop := uint64 (pq_AttributedCount p) ∧ uint64 (pq_ExcludedCount p).
Lemma read_Qualification p : Qualification_ok p → into_Qualification zero_Qualification (Qualification_json p) = Ok p.
Proof.
  intros [H1 H2]. read_struct into_Qualification Qualification_json.
  do 3 (cbn [into_bool mbind result_bind]; read_fields). do 2 (rewrite read_uint64 by done; cbn [mbind result_bind]; read_fields).
  by destruct p.
Qed.
Lemma read_ExclusionReason p : uint64 (pxr_Count p) → into_ExclusionReason zero_ExclusionReason (ExclusionReason_json p) = Ok p.
Proof. intros H. read_struct into_ExclusionReason ExclusionReason_json. rewrite read_uint64 by done. by destruct p. Qed.
Lemma read_FilesystemFact p : into_FilesystemFact zero_FilesystemFact (FilesystemFact_json p) = Ok p.
Proof.
  read_struct into_FilesystemFact FilesystemFact_json. cbn [into_slice].
  rewrite (read_items "" into_string JStr) by by apply Forall_forall. by destruct p.
Qed.
Definition port_ok (p : persistedNetworkFact) : Prop := (0 <= pnf_Port p <= max_int64)%Z.
Lemma read_NetworkFact p : port_ok p → into_NetworkFact zero_NetworkFact (NetworkFact_json p) = Ok p.
Proof. intros H. read_struct into_NetworkFact NetworkFact_json. rewrite read_int by done. cbn [mbind result_bind]. read_fields. by destruct p. Qed.
Lemma read_CapabilityFact p : into_CapabilityFact zero_CapabilityFact (CapabilityFact_json p) = Ok p.
Proof. read_struct into_CapabilityFact CapabilityFact_json. by destruct p. Qed.
Lemma read_ExecFact p : into_ExecFact zero_ExecFact (ExecFact_json p) = Ok p.
Proof. read_struct into_ExecFact ExecFact_json. by destruct p. Qed.

Definition Facts_ok (p : persistedFacts) : Prop := Forall port_ok (pfs_NetworkConnect p) ∧ Forall port_ok (pfs_NetworkBind p).
Lemma read_Facts p : Facts_ok p → into_Facts zero_Facts (Facts_json p) = Ok p.
Proof.
  intros [Hc Hb]. read_struct into_Facts Facts_json.
  erewrite (read_omitted zero_FilesystemFact) by (reflexivity || (apply Forall_forall; intros; apply read_FilesystemFact)). cbn [mbind result_bind]. read_fields.
  erewrite (read_omitted zero_ExecFact) by (reflexivity || (apply Forall_forall; intros; apply read_ExecFact)). cbn [mbind result_bind]. read_fields.
  erewrite (read_omitted _ _ _ _ (pfs_NetworkConnect p)) by (reflexivity || (eapply Forall_impl; [exact Hc|intros; by apply read_NetworkFact])). cbn [mbind result_bind]. read_fields.
  erewrite (read_omitted _ _ _ _ (pfs_NetworkBind p)) by (reflexivity || (eapply Forall_impl; [exact Hb|intros; by apply read_NetworkFact])). cbn [mbind result_bind]. read_fields.
  erewrite (read_omitted zero_CapabilityFact) by (reflexivity || (apply Forall_forall; intros; apply read_CapabilityFact)). by destruct p.
Qed.

Definition Source_ok (p : persistedSource) : Prop :=
  Qualification_ok (pso_Qualification p) ∧ Facts_ok (pso_Facts p) ∧ Forall (fun r => uint64 (pxr_Count r)) (pso_ExclusionReasons p).
Lemma read_Source p : Source_ok p → into_Source zero_Source (Source_json p) = Ok p.
Proof.
  intros (Hq & Hf & Hr). read_struct into_Source Source_json.
  rewrite read_Qualification by done. cbn [mbind result_bind]. read_fields.
  erewrite read_omitted_strings by reflexivity. cbn [mbind result_bind]. read_fields.
  rewrite read_Facts by done. cbn [mbind result_bind]. read_fields.
  erewrite read_omitted by (reflexivity || (eapply Forall_impl; [exact Hr|intros; by apply read_ExclusionReason])). by destruct p.
Qed.
Lemma read_Result p : Forall Source_ok (prs_Sources p) → into_Result zero_Result (Result_json p) = Ok p.
Proof.
  intros H. read_struct into_Result Result_json.
  rewrite read_slice by (eapply Forall_impl; [exact H|intros; by apply read_Source]). by destruct p.
Qed.
Lemma read_Provenance p : into_Provenance zero_Provenance (Provenance_json p) = Ok p.
Proof. read_struct into_Provenance Provenance_json. read_nested. by destruct p. Qed.

Definition Status_ok (p : persistedStatus) : Prop := Execution_ok (pst_Execution p) ∧ Forall Source_ok (prs_Sources (pst_Result p)).
Lemma read_Status p : Status_ok p → into_Status zero_Status (Status_json p) = Ok p.
Proof.
  intros [He Hr]. destruct p as [b e r [v|]]; read_struct into_Status Status_json; cbn [pst_Binding pst_Execution pst_Result pst_Provenance] in *;
    rewrite read_Binding; cbn [mbind result_bind]; read_fields;
    rewrite read_Execution by done; cbn [mbind result_bind]; read_fields;
    rewrite read_Result by done; cbn [mbind result_bind]; read_fields; [|done].
  erewrite read_pointer by (reflexivity || apply read_Provenance). done.
Qed.
