(* ===== verification/ObservationAdapter.v ===== *)
(** * internal/observation/kubernetes/adapter.go

    The persistence adapter of the Observation aggregate: its encoding, the
    validation of what is decoded, and the round trip. *)
From S2P Require Import Prelude GoStd Policy Digest Json Decimal Timestamp Duration Unstructured JsonParse Kube SpoBackend Target Attempt RollbackAttempt Identity ObservationDomain ObservationPersisted.
Import RollbackAttempt.RollbackAttempt(field, required, omitempty, stored, struct_json).

Definition maxSources : nat := 16.
Definition maxTargets : nat := 64.
Definition maxRevisions : nat := 64.
Definition maxTargetChanges : nat := 256.
Definition maxSourceResults : nat := 16.
Definition maxString : nat := 512.
Definition maxSourceName : nat := 128.
Definition maxReferences : nat := 64.
Definition maxDuration : Z := 86400000000000.

Definition apiVersion : string := "landlockgenprof.io/v1alpha1".
Definition kind : string := "Observation".

(** A stored Observation.  What a status write leaves alone, the type and the
    specification, is the body. *)
Record ObservationBody := mkBody { b_apiVersion : string; b_kind : string; b_spec : option json }.
Definition ObservationObject : Type := KObject ObservationBody json.

(** ** Identities *)
Definition encodeSlot (slot : ContainerSlot) : persistedSlot :=
  let w := s_Workload slot in
  mkPersistedSlot (mkPersistedWorkload (mkPersistedCluster (NamespaceUID (w_Cluster w))) (w_Namespace w)
    (mkPersistedGroupKind (gk_Group (w_GroupKind w)) (gk_Kind (w_GroupKind w))) (w_Name w) (w_UID w)) (s_Container slot).
Definition decodeSlot (slot : persistedSlot) : result ContainerSlot :=
  let w := psl_Workload slot in
  let workload := mkWorkloadIdentity (mkClusterIdentity (pcl_NamespaceUID (pw_Cluster w))) (pw_Namespace w)
    (mkGroupKind (pgk_Group (pw_GroupKind w)) (pgk_Kind (pw_GroupKind w))) (pw_Name w) (pw_UID w) in
  let decoded := mkContainerSlot workload (psl_Container slot) in
  fail_if negb (ContainerSlot_Valid decoded) with errDomain "invalid container slot";
  Ok decoded.

Definition encodeImageRevision (item : ContainerImageRevision) : persistedImageRevision :=
  mkPersistedImageRevision (encodeSlot (ir_Slot item)) (ir_ImageDigest item).
Definition decodeImageRevision (item : persistedImageRevision) : result ContainerImageRevision :=
  slot ← decodeSlot (pir_Slot item); NewContainerImageRevision slot (pir_ImageDigest item).

Definition encodeRuntime (item : RuntimeContainerInstance) : persistedRuntimeInstance :=
  mkPersistedRuntimeInstance (encodeSlot (ri_Slot item)) (ri_PodUID item) (ri_ContainerID item)
    (encodeImageRevision <$> ri_ImageRevision item).
Definition decodeRuntime (item : persistedRuntimeInstance) : result RuntimeContainerInstance :=
  slot ← decodeSlot (pri_Slot item);
  revision ← match pri_ImageRevision item with
             | Some r => revision ← decodeImageRevision r; Ok (Some revision)
             | None => Ok None
             end;
  let decoded := mkRuntimeContainerInstance slot (pri_PodUID item) (pri_ContainerID item) revision in
  fail_if negb (RuntimeContainerInstance_Valid decoded) with errDomain "invalid runtime container instance";
  Ok decoded.

(** ** Specification *)
Definition encodeSpec (spec : ObservationSpec) : persistedSpec :=
  mkPersistedSpec (mkPersistedTarget (encodeSlot (rt_Slot (os_Target spec)))) (os_Sources spec)
    (Duration_String (os_Duration spec)) (os_RequesterSession spec) (os_AnchorPodUID spec).
Definition decodeSpec (spec : persistedSpec) : result ObservationSpec :=
  fail_if (length (psp_Sources spec) =? 0) || (maxSources <? length (psp_Sources spec))
          || (maxString <? String.length (psp_RequesterSession spec)) || (128 <? String.length (psp_AnchorPodUID spec))
    with errDomain "observation spec exceeds bounds";
  fail_if existsb (fun source => maxSourceName <? String.length source) (psp_Sources spec)
    with errDomain "evidence source exceeds bounds";
  slot ← decodeSlot (ptg_Slot (psp_Target spec));
  duration ← match ParseDuration (psp_Duration spec) with
             | Ok d => if (d <=? 0)%Z || (maxDuration <? d)%Z then Err (errDomain "invalid observation duration") else Ok d
             | Err _ => Err (errDomain "invalid observation duration")
             end;
  decoded ← NewObservationSpec (mkRequestedTarget slot) (psp_Sources spec) duration (psp_RequesterSession spec);
  if nonempty (psp_AnchorPodUID spec) then WithAnchorPodUID decoded (psp_AnchorPodUID spec) else Ok decoded.

(** ** Binding *)
Definition encodeBackend (b : BackendIdentity) : persistedBackend := mkPersistedBackend (b_Kind b) (b_Version b).
Definition decodeBackend (b : persistedBackend) : BackendIdentity := mkBackendIdentity (pb_Kind b) (pb_Version b).

Definition encodeTargetChange (item : TargetChangeEvent) : persistedTargetChange :=
  mkPersistedTargetChange (format_rfc3339nano (tc_At item)) (tc_Kind item) (tc_Detail item).
Definition decodeTargetChange (item : persistedTargetChange) : result TargetChangeEvent :=
  match parse_rfc3339 (ptc_At item) with
  | Ok at_ => NewTargetChangeEvent at_ (ptc_Kind item) (ptc_Detail item)
  | Err _ => Err (errDomain "invalid target change time")
  end.

Definition encodeBinding (binding : ObservationBinding) : persistedBinding :=
  mkPersistedBinding (map encodeRuntime (rts_items (ob_ResolvedTargets binding))) (encodeBackend (ob_Backend binding))
    (map encodeImageRevision (ob_ImageRevisions binding)) (map encodeTargetChange (ob_TargetChanges binding)).
Definition decodeBinding (binding : persistedBinding) : result ObservationBinding :=
  fail_if (maxTargets <? length (pbd_ResolvedTargets binding)) || (maxRevisions <? length (pbd_ImageRevisions binding))
          || (maxTargetChanges <? length (pbd_TargetChanges binding))
    with errDomain "observation binding exceeds bounds";
  instances ← result_mapM decodeRuntime (pbd_ResolvedTargets binding);
  targets ← NewResolvedTargetSet instances;
  revisions ← result_mapM decodeImageRevision (pbd_ImageRevisions binding);
  changes ← result_mapM decodeTargetChange (pbd_TargetChanges binding);
  Ok (mkObservationBinding targets (decodeBackend (pbd_Backend binding)) revisions changes).

(** ** Execution *)
Definition format_nonzero (t : time) : string := if time_is_zero t then "" else format_rfc3339nano t.

Definition encodeFailure (f : FailureInfo) : persistedFailure :=
  mkPersistedFailure (fi_Stage f) (fi_Code f) (fi_Reason f) (fi_Source f) (format_nonzero (fi_OccurredAt f)) (fi_Retryable f)
    (fi_ExecutorID f) (fi_ClaimGeneration f).
Definition encodeExecution (execution : ObservationExecution) : persistedExecution :=
  let stop {A} (zero : A) (field : StopIntent → A) : A :=
    match ex_StopIntent execution with Some intent => field intent | None => zero end in
  mkPersistedExecution (ex_State execution) (ex_Completion execution) (format_nonzero (ex_StartedAt execution))
    (format_nonzero (ex_CompletedAt execution)) "" 0 "" (stop "" (fun i => format_nonzero (si_RequestedAt i)))
    (stop "" si_Requester) (stop 0%Z si_ContextVersion) (stop "" si_ExecutorID) (stop 0%Z si_ClaimGeneration)
    (encodeFailure <$> ex_Failure execution).

Definition parse_or {A} (msg : string) (value : string) (k : time → result A) : result A :=
  match parse_rfc3339 value with Ok t => k t | Err _ => Err (errDomain msg) end.
(** An entry of the map from texts to fields. *)
Definition execution_time (value : string) : result time :=
  if empty value then Ok 0%Z else parse_or "invalid execution timestamp" value Ok.

Definition decodeStop (execution : persistedExecution) : result (option StopIntent) :=
  if empty (pe_StopRequestedAt execution) then Ok None
  else parse_or "invalid stop intent timestamp" (pe_StopRequestedAt execution) (fun t =>
    Ok (Some (mkStopIntent t (pe_StopRequester execution) (pe_StopContextVersion execution)
                (pe_StopExecutorID execution) (pe_StopClaimGeneration execution)))).
Definition decodeFailure (failure : option persistedFailure) : result (option FailureInfo) :=
  match failure with
  | None => Ok None
  | Some f => parse_or "invalid failure timestamp" (pf_OccurredAt f) (fun t =>
      Ok (Some (mkFailureInfo (pf_Stage f) (pf_Code f) (pf_Reason f) (pf_Source f) t (pf_Retryable f)
                  (pf_ExecutorID f) (pf_ClaimGeneration f))))
  end.

(** The two timestamps are entries of one map keyed by their texts: when the
    texts are equal only the second field is set. *)
Definition decodeExecution (execution : persistedExecution) : result ObservationExecution :=
  fail_if negb (ExecutionState_Valid (pe_State execution)) with errDomain "invalid execution state";
  started ← (if bool_decide (pe_StartedAt execution = pe_CompletedAt execution) then Ok 0%Z else execution_time (pe_StartedAt execution));
  completed ← execution_time (pe_CompletedAt execution);
  stop ← decodeStop execution;
  failure ← decodeFailure (pe_Failure execution);
  fail_if terminal (pe_State execution) && empty (pe_Completion execution) with errDomain "missing terminal reason";
  Ok (mkObservationExecution (pe_State execution) (pe_Completion execution) started completed stop failure).

(** ** Results *)
Definition encodeFacts (f : NormalizedFacts) : persistedFacts :=
  mkPersistedFacts (map (fun i => mkPersistedFilesystemFact (ff_Path i) (ff_Permissions i)) (f_Filesystem f))
    (map (fun i => mkPersistedExecFact (ef_Path i)) (f_Exec f))
    (map (fun i => mkPersistedNetworkFact (nf_Port i) (nf_Direction i)) (f_NetworkConnect f))
    (map (fun i => mkPersistedNetworkFact (nf_Port i) (nf_Direction i)) (f_NetworkBind f))
    (map (fun i => mkPersistedCapabilityFact (cf_Name i)) (f_Capabilities f)).
Definition decodeFacts (f : persistedFacts) : NormalizedFacts :=
  mkNormalizedFacts (map (fun i => mkFilesystemFact (pff_Path i) (pff_Permissions i)) (pfs_Filesystem f))
    (map (fun i => mkExecFact (pxf_Path i)) (pfs_Exec f))
    (map (fun i => mkNetworkFact (pnf_Port i) (pnf_Direction i)) (pfs_NetworkConnect f))
    (map (fun i => mkNetworkFact (pnf_Port i) (pnf_Direction i)) (pfs_NetworkBind f))
    (map (fun i => mkCapabilityFact (pcf_Name i)) (pfs_Capabilities f)).

Definition encodeSource (source : SourceResult) : persistedSource :=
  let q := sr_Qualification source in
  mkPersistedSource (es_Name (sr_Source source)) (es_Backend (sr_Source source)) (es_Version (sr_Source source))
    (mkPersistedQualification (BackendHealthConfirmed q) (SourceAttachedForBoundWindow q) (FlushConfirmed q) (Attribution q)
       (AttributedCount q) (ExcludedCount q))
    (sr_Evidence source) (sr_References source) (encodeFacts (sr_Facts source))
    (map (fun e => mkPersistedExclusionReason (er_Reason e) (er_Count e)) (sr_ExclusionReasons source)).
Definition decodeSource (item : persistedSource) : result SourceResult :=
  fail_if (maxSourceName <? String.length (pso_Name item)) || (maxReferences <? length (pso_References item))
    with errDomain "source result exceeds bounds";
  let q := pso_Qualification item in
  source ← NewSourceResult (mkEvidenceSource (pso_Name item) (pso_Backend item) (pso_Version item))
    (mkSourceQualification (pq_BackendHealthConfirmed q) (pq_SourceAttachedForBoundWindow q) (pq_FlushConfirmed q) (pq_Attribution q)
       (pq_AttributedCount q) (pq_ExcludedCount q))
    (pso_References item) [decodeFacts (pso_Facts item)];
  source ← WithExclusionReasons source (map (fun e => mkExclusionReasonCount (pxr_Reason e) (pxr_Count e)) (pso_ExclusionReasons item));
  fail_if negb (bool_decide (pso_Evidence item = sr_Evidence source))
    with errDomain "persisted evidence state disagrees with qualification";
  Ok source.

Definition encodeResult (res : ObservationResult) : persistedResult := mkPersistedResult (map encodeSource (sources res)).
Definition decodeResult (res : persistedResult) : result ObservationResult :=
  fail_if maxSourceResults <? length (prs_Sources res) with errDomain "too many source results";
  decoded ← result_mapM decodeSource (prs_Sources res);
  NewObservationResult decoded.

(** ** Provenance *)
Definition encodeProvenance (p : ObservationProvenance) : persistedProvenance :=
  mkPersistedProvenance (map encodeRuntime (rts_items (op_ResolvedTargets p))) (map encodeImageRevision (op_ImageRevisions p))
    (encodeBackend (op_Backend p)) (op_RequestedSources p).
Definition decodeProvenance (provenance : option persistedProvenance) : result ObservationProvenance :=
  match provenance with
  | None => Ok no_provenance
  | Some p =>
      fail_if (maxTargets <? length (ppv_ResolvedTargets p)) || (maxRevisions <? length (ppv_ImageRevisions p))
              || (maxSources <? length (ppv_RequestedSources p))
        with errDomain "observation provenance exceeds bounds";
      instances ← result_mapM decodeRuntime (ppv_ResolvedTargets p);
      targets ← NewResolvedTargetSet instances;
      revisions ← result_mapM decodeImageRevision (ppv_ImageRevisions p);
      Ok (mkObservationProvenance targets revisions (decodeBackend (ppv_Backend p)) (ppv_RequestedSources p))
  end.

(** ** Status and object *)

(** The executor's claim, stored beside the execution. *)
Record claimRecord := mkClaimRecord { ExecutorID : string; Generation : Z; LeaseExpiry : time }.
Definition no_claim : claimRecord := mkClaimRecord "" 0 0.
#[export] Instance claimRecord_eq_dec : EqDecision claimRecord.
Proof. solve_decision. Defined.

Definition with_claim (execution : persistedExecution) (claim : claimRecord) : persistedExecution :=
  mkPersistedExecution (pe_State execution) (pe_Completion execution) (pe_StartedAt execution) (pe_CompletedAt execution)
    (ExecutorID claim) (Generation claim) (format_rfc3339nano (LeaseExpiry claim)) (pe_StopRequestedAt execution)
    (pe_StopRequester execution) (pe_StopContextVersion execution) (pe_StopExecutorID execution)
    (pe_StopClaimGeneration execution) (pe_Failure execution).

Definition persisted_status (o : Observation) (execution : persistedExecution) : persistedStatus :=
  mkPersistedStatus (encodeBinding (o_binding o)) execution (encodeResult (o_result o))
    (if o_frozen o then Some (encodeProvenance (o_provenance o)) else None).
Definition encodeStatus (o : Observation) : json := toMap (Status_json (persisted_status o (encodeExecution (o_execution o)))).
Definition encodeStatusWithClaim (o : Observation) (claim : claimRecord) : json :=
  toMap (Status_json (persisted_status o (with_claim (encodeExecution (o_execution o)) claim))).

Definition decodeStatus (value : json)
  : result (ObservationBinding * ObservationExecution * ObservationResult * ObservationProvenance) :=
  status ← fromMap zero_Status into_Status value;
  binding ← decodeBinding (pst_Binding status);
  execution ← decodeExecution (pst_Execution status);
  res ← decodeResult (pst_Result status);
  provenance ← decodeProvenance (pst_Provenance status);
  Ok (binding, execution, res, provenance).

(** [validation.IsDNS1123Subdomain] of k8s.io/apimachinery. *)
Class NameValidation := { IsDNS1123Subdomain : string → bool }.

Definition ToUnstructured `{!NameValidation} (o : Observation) : result ObservationObject :=
  fail_if negb (ObservationID_Valid (o_id o)) || negb (IsDNS1123Subdomain (o_id o))
    with errDomain "ObservationID is not a Kubernetes name";
  Ok (mkObject (o_id o) "" "" (Some (mkBody apiVersion kind (Some (toMap (Spec_json (encodeSpec (o_spec o))))))) None).

Definition FromUnstructured (object : ObservationObject) : result Observation :=
  let body := default (mkBody "" "" None) (o_Spec object) in
  fail_if negb (bool_decide (b_apiVersion body = apiVersion)) || negb (bool_decide (b_kind body = kind))
    with errDomain "unexpected Observation GVK";
  fail_if empty (o_Name object) with errDomain "missing Observation name";
  match b_spec body with
  | None => Err (errDomain "missing Observation spec")
  | Some rawSpec =>
      spec ← fromMap zero_Spec into_Spec rawSpec;
      decodedSpec ← decodeSpec spec;
      match o_Status object with
      | Some rawStatus =>
          '(binding, execution, res, provenance) ← decodeStatus rawStatus;
          RestoreObservation (o_Name object) decodedSpec binding execution res provenance
      | None => NewObservation (o_Name object) decodedSpec
      end
  end.

#[export] Instance TargetChangeEvent_eq_dec : EqDecision TargetChangeEvent.
Proof. solve_decision. Defined.
#[export] Instance RequestedTarget_eq_dec : EqDecision RequestedTarget.
Proof. solve_decision. Defined.
#[export] Instance ObservationSpec_eq_dec : EqDecision ObservationSpec.
Proof. solve_decision. Defined.
#[export] Instance ResolvedTargetSet_eq_dec : EqDecision ResolvedTargetSet.
Proof. solve_decision. Defined.
#[export] Instance ObservationBinding_eq_dec : EqDecision ObservationBinding.
Proof. solve_decision. Defined.
#[export] Instance ObservationProvenance_eq_dec : EqDecision ObservationProvenance.
Proof. solve_decision. Defined.
#[export] Instance SourceQualification_eq_dec : EqDecision SourceQualification.
Proof. solve_decision. Defined.
#[export] Instance ExclusionReasonCount_eq_dec : EqDecision ExclusionReasonCount.
Proof. solve_decision. Defined.
#[export] Instance FilesystemFact_eq_dec : EqDecision FilesystemFact.
Proof. solve_decision. Defined.
#[export] Instance ExecFact_eq_dec : EqDecision ExecFact.
Proof. solve_decision. Defined.
#[export] Instance NetworkFact_eq_dec : EqDecision NetworkFact.
Proof. solve_decision. Defined.
#[export] Instance CapabilityFact_eq_dec : EqDecision CapabilityFact.
Proof. solve_decision. Defined.
#[export] Instance NormalizedFacts_eq_dec : EqDecision NormalizedFacts.
Proof. solve_decision. Defined.
#[export] Instance SourceResult_eq_dec : EqDecision SourceResult.
Proof. solve_decision. Defined.
#[export] Instance ObservationResult_eq_dec : EqDecision ObservationResult.
Proof. solve_decision. Defined.

(** ** The guard of a status write

    The source compares structs with [!=], which sees more than this
    development's values: of a [time.Time] also the location and the monotonic
    reading, and of a pointer its address.  What it sees of the two
    Observations compared is an argument. *)
Record representation := mkRepresentation {
  (** the [i]-th times of the two histories are represented alike *)
  same_change_time : nat → bool;
  (** so are the start times and the completion times *)
  same_execution_times : bool;
  (** the two executions share their stop intent and failure *)
  same_pointers : bool }.
(** Two decodings: times are in UTC without a monotonic reading, pointers are fresh. *)
Definition decoded_twice : representation := mkRepresentation (fun _ => true) true false.

Definition sameTargetChangePrefix (rep : representation) (old current : list TargetChangeEvent) : bool :=
  (length old <=? length current) &&
  forallb (fun '(i, (a, b)) => bool_decide (a = b) && same_change_time rep i) (zip (seq 0 (length old)) (zip old current)).

Definition same_execution (rep : representation) (e e' : ObservationExecution) : bool :=
  bool_decide (ex_State e = ex_State e' ∧ ex_Completion e = ex_Completion e' ∧ ex_StartedAt e = ex_StartedAt e' ∧
    ex_CompletedAt e = ex_CompletedAt e') && same_execution_times rep &&
  match ex_StopIntent e, ex_StopIntent e' with None, None => true | Some _, Some _ => same_pointers rep | _, _ => false end &&
  match ex_Failure e, ex_Failure e' with None, None => true | Some _, Some _ => same_pointers rep | _, _ => false end.

(** [reflect.DeepEqual] of the bindings adds nothing about times: it is asked
    when the histories have passed the prefix test. *)
Definition ValidateStatusMutation (rep : representation) (old new : Observation) : result unit :=
  fail_if negb (bool_decide (o_id old = o_id new)) || negb (bool_decide (o_spec old = o_spec new))
    with errDomain "Observation identity/spec changed";
  fail_if negb (sameTargetChangePrefix rep (ob_TargetChanges (o_binding old)) (ob_TargetChanges (o_binding new)))
    with errDomain "target-change history is not append-only";
  if o_frozen old then
    fail_if negb (same_execution rep (o_execution old) (o_execution new)) || negb (Bool.eqb (o_frozen old) (o_frozen new))
      with ErrObservationFrozen;
    fail_if negb (bool_decide (o_binding old = o_binding new)) || negb (bool_decide (o_result old = o_result new))
            || negb (bool_decide (o_provenance old = o_provenance new))
      with ErrObservationFrozen;
    Ok ()
  else Ok ().

(** ** Round trip *)

(** What the domain constructors make, part by part. *)
Definition slot_made (s : ContainerSlot) : Prop := ContainerSlot_Valid s = true.
Definition revision_made (r : ContainerImageRevision) : Prop := NewContainerImageRevision (ir_Slot r) (ir_ImageDigest r) = Ok r.
Definition runtime_made (r : RuntimeContainerInstance) : Prop :=
  RuntimeContainerInstance_Valid r = true ∧ ∀ v, ri_ImageRevision r = Some v → revision_made v.
Definition targets_made (t : ResolvedTargetSet) : Prop :=
  Forall runtime_made (rts_items t) ∧ NewResolvedTargetSet (rts_items t) = Ok t.
Definition change_made (e : TargetChangeEvent) : Prop :=
  (0 < tc_At e < instant_end)%Z ∧ NewTargetChangeEvent (tc_At e) (tc_Kind e) (tc_Detail e) = Ok e.
Record binding_made (b : ObservationBinding) : Prop := {
  bm_targets : targets_made (ob_ResolvedTargets b);
  bm_revisions : Forall revision_made (ob_ImageRevisions b);
  bm_changes : Forall change_made (ob_TargetChanges b);
  bm_bounds : length (rts_items (ob_ResolvedTargets b)) ≤ maxTargets ∧ length (ob_ImageRevisions b) ≤ maxRevisions ∧
    length (ob_TargetChanges b) ≤ maxTargetChanges }.
Definition instant (t : time) : Prop := (0 <= t < instant_end)%Z.
Record spec_made (s : ObservationSpec) : Prop := {
  sm_made : ∃ base, NewObservationSpec (os_Target s) (os_Sources s) (os_Duration s) (os_RequesterSession s) = Ok base ∧
    (if nonempty (os_AnchorPodUID s) then WithAnchorPodUID base (os_AnchorPodUID s) else Ok base) = Ok s;
  sm_duration : (os_Duration s <= maxDuration)%Z;
  sm_bounds : length (os_Sources s) ≤ maxSources ∧ String.length (os_RequesterSession s) ≤ maxString ∧
    Forall (fun x => String.length x ≤ maxSourceName) (os_Sources s) }.
(** The two instants must differ unless the first is zero. *)
Record execution_made (e : ObservationExecution) : Prop := {
  em_times : instant (ex_StartedAt e) ∧ instant (ex_CompletedAt e) ∧
    (ex_StartedAt e ≠ ex_CompletedAt e ∨ ex_StartedAt e = 0%Z);
  em_stop : ∀ i, ex_StopIntent e = Some i → (0 < si_RequestedAt i < instant_end)%Z ∧ uint64 (si_ContextVersion i) ∧
    uint64 (si_ClaimGeneration i);
  em_failure : ∀ f, ex_Failure e = Some f → (0 < fi_OccurredAt f < instant_end)%Z ∧ uint64 (fi_ClaimGeneration f) }.
Definition source_made (s : SourceResult) : Prop :=
  uint64 (AttributedCount (sr_Qualification s)) ∧ uint64 (ExcludedCount (sr_Qualification s)) ∧
  Forall (fun f => 0 <= nf_Port f <= max_int64)%Z (f_NetworkConnect (sr_Facts s)) ∧
  Forall (fun f => 0 <= nf_Port f <= max_int64)%Z (f_NetworkBind (sr_Facts s)) ∧
  Forall (fun e => uint64 (er_Count e)) (sr_ExclusionReasons s) ∧ String.length (es_Name (sr_Source s)) ≤ maxSourceName.
Record result_made (r : ObservationResult) : Prop := {
  rm_made : NewObservationResult (sources r) = Ok r;
  rm_sources : Forall source_made (sources r);
  rm_bound : length (sources r) ≤ maxSourceResults }.

Lemma slot_round_trip s : slot_made s → decodeSlot (encodeSlot s) = Ok s.
Proof. unfold slot_made, decodeSlot. destruct s as [[[uid] ns [g k] n u] c]. cbn -[ContainerSlot_Valid]. by intros ->. Qed.

Lemma revision_slot r : revision_made r → slot_made (ir_Slot r).
Proof. unfold revision_made, NewContainerImageRevision, slot_made. destruct (ContainerSlot_Valid _); [done|discriminate]. Qed.
Lemma revision_round_trip r : revision_made r → decodeImageRevision (encodeImageRevision r) = Ok r.
Proof.
  intros H. unfold decodeImageRevision, encodeImageRevision. cbn [pir_Slot pir_ImageDigest].
  rewrite slot_round_trip by by apply revision_slot. done.
Qed.
Lemma runtime_round_trip r : runtime_made r → decodeRuntime (encodeRuntime r) = Ok r.
Proof.
  intros [Hv Hr]. unfold decodeRuntime, encodeRuntime. cbn [pri_Slot pri_PodUID pri_ContainerID pri_ImageRevision].
  assert (slot_made (ri_Slot r)) as Hs by (unfold RuntimeContainerInstance_Valid in Hv; by apply andb_prop in Hv as [? _]).
  rewrite slot_round_trip by done. cbn [mbind result_bind]. destruct r as [s p c [v|]]; cbn [ri_ImageRevision fmap option_fmap option_map ri_Slot ri_PodUID ri_ContainerID] in *.
  - rewrite revision_round_trip by by apply Hr. cbn [mbind result_bind]. by rewrite Hv.
  - cbn [mbind result_bind]. by rewrite Hv.
Qed.
Lemma change_round_trip e : change_made e → decodeTargetChange (encodeTargetChange e) = Ok e.
Proof.
  intros [Ht He]. unfold decodeTargetChange, encodeTargetChange. cbn [ptc_At ptc_Kind ptc_Detail].
  rewrite parse_format_rfc3339 by lia. done.
Qed.

(** Decoding a list of encoded elements. *)
Lemma decode_map {A B} (enc : A → B) (dec : B → result A) l : Forall (fun x => dec (enc x) = Ok x) l → result_mapM dec (map enc l) = Ok l.
Proof. induction 1 as [|x l Hx _ IH]; [done|]. cbn [map result_mapM]. rewrite Hx. cbn [mbind result_bind]. by rewrite IH. Qed.
Lemma runtimes_round_trip l : Forall runtime_made l → result_mapM decodeRuntime (map encodeRuntime l) = Ok l.
Proof. intros H. apply decode_map. eapply Forall_impl; [exact H|]. intros; by apply runtime_round_trip. Qed.
Lemma revisions_round_trip l : Forall revision_made l → result_mapM decodeImageRevision (map encodeImageRevision l) = Ok l.
Proof. intros H. apply decode_map. eapply Forall_impl; [exact H|]. intros; by apply revision_round_trip. Qed.
Lemma backend_round_trip b : decodeBackend (encodeBackend b) = b.
Proof. by destruct b. Qed.

Lemma spec_round_trip s : spec_made s → decodeSpec (encodeSpec s) = Ok s.
Proof.
  intros [(base & Hb & Ha) Hd (H1 & H2 & H3)]. unfold decodeSpec, encodeSpec.
  cbn [psp_Target psp_Sources psp_Duration psp_RequesterSession psp_AnchorPodUID ptg_Slot].
  pose proof Hb as Hm. unfold NewObservationSpec in Hm. inv_ok.
  apply orb_false_iff in Heqb as [[Hv%negb_false_iff Hdur]%orb_false_iff Hlen].
  assert (String.length (os_AnchorPodUID s) ≤ 128) as Hl.
  { destruct (nonempty (os_AnchorPodUID s)) eqn:E.
    - unfold WithAnchorPodUID in Ha. inv_ok. apply orb_false_iff in Heqb as [_ ?]. by apply Nat.ltb_ge.
    - unfold nonempty in E. bool_simpl. rewrite E. cbn. lia. }
  assert (existsb (fun source => maxSourceName <? String.length source) (os_Sources s) = false) as Hex.
  { apply not_true_is_false. intros (x & Hx & Hlt)%existsb_exists. apply Nat.ltb_lt in Hlt. rewrite Forall_forall in H3.
    specialize (H3 x ltac:(by apply list_elem_of_In)). lia. }
  rewrite Hlen, Hex, !(proj2 (Nat.ltb_ge _ _)) by done. cbn [orb].
  rewrite slot_round_trip by done. cbn [mbind result_bind]. apply Z.leb_gt in Hdur.
  rewrite Parse_String by (unfold maxDuration in Hd; lia). rewrite (proj2 (Z.leb_gt _ _)), (proj2 (Z.ltb_ge _ _)) by done. cbn [orb mbind result_bind].
  assert (mkRequestedTarget (rt_Slot (os_Target s)) = os_Target s) as -> by by destruct (os_Target s).
  rewrite Hb. exact Ha.
Qed.

Lemma stored_binding_round_trip b : binding_made b → decodeBinding (encodeBinding b) = Ok b.
Proof.
  intros [[Ht Hs] Hr Hc (H1 & H2 & H3)]. unfold decodeBinding, encodeBinding.
  cbn [pbd_ResolvedTargets pbd_Backend pbd_ImageRevisions pbd_TargetChanges]. rewrite !length_map, !(proj2 (Nat.ltb_ge _ _)) by done. cbn [orb].
  rewrite runtimes_round_trip by done. cbn [mbind result_bind]. rewrite Hs. cbn [mbind result_bind].
  rewrite revisions_round_trip by done. cbn [mbind result_bind].
  rewrite decode_map by (eapply Forall_impl; [exact Hc|intros; by apply change_round_trip]). cbn [mbind result_bind].
  rewrite backend_round_trip. by destruct b.
Qed.

Lemma format_nonzero_empty t : instant t → empty (format_nonzero t) = time_is_zero t ∧
  (time_is_zero t = false → format_nonzero t = format_rfc3339nano t ∧ parse_rfc3339 (format_nonzero t) = Ok t).
Proof.
  intros Ht. unfold format_nonzero. destruct (time_is_zero t); [done|]. pose proof (parse_format_rfc3339 t Ht) as E. split; [|by split].
  unfold empty. apply bool_decide_eq_false_2. intros Ez. rewrite Ez in E. vm_compute in E. discriminate.
Qed.
Lemma execution_time_round_trip t : instant t → execution_time (format_nonzero t) = Ok t.
Proof.
  intros Ht. destruct (format_nonzero_empty t Ht) as [He Hp]. unfold execution_time, parse_or. rewrite He.
  destruct (time_is_zero t) eqn:E; [unfold time_is_zero in E; apply Z.eqb_eq in E; by subst|]. by destruct (Hp eq_refl) as [_ ->].
Qed.
Lemma format_nonzero_inj t t' : instant t → instant t' → format_nonzero t = format_nonzero t' → t = t'.
Proof.
  intros Ht Ht' E. pose proof (execution_time_round_trip t Ht) as H. rewrite E, execution_time_round_trip in H by done. by injection H.
Qed.

Lemma positive_round_trip t : (0 < t < instant_end)%Z → empty (format_nonzero t) = false ∧ parse_rfc3339 (format_nonzero t) = Ok t.
Proof.
  intros Ht. destruct (format_nonzero_empty t) as [-> Hp]; [unfold instant; lia|].
  assert (time_is_zero t = false) as E by (unfold time_is_zero; apply Z.eqb_neq; lia). by destruct (Hp E).
Qed.
Lemma stop_round_trip e claim : (∀ i, ex_StopIntent e = Some i → (0 < si_RequestedAt i < instant_end)%Z) →
  decodeStop (with_claim (encodeExecution e) claim) = Ok (ex_StopIntent e) ∧ decodeStop (encodeExecution e) = Ok (ex_StopIntent e).
Proof.
  intros Hs. unfold decodeStop, with_claim, encodeExecution. destruct (ex_StopIntent e) as [i|]; cbn; [|done].
  destruct (positive_round_trip _ (Hs i eq_refl)) as [-> Hp]. unfold parse_or. rewrite Hp. by destruct i.
Qed.
Lemma failure_round_trip f : (∀ x, f = Some x → (0 < fi_OccurredAt x < instant_end)%Z) → decodeFailure (encodeFailure <$> f) = Ok f.
Proof.
  intros Hf. destruct f as [f|]; cbn; [|done]. destruct (positive_round_trip _ (Hf f eq_refl)) as [_ Hp]. unfold parse_or. rewrite Hp. by destruct f.
Qed.

Lemma execution_round_trip e : execution_made e → ExecutionState_Valid (ex_State e) = true →
  (terminal (ex_State e) = true → ex_Completion e ≠ "") → ∀ claim,
  decodeExecution (with_claim (encodeExecution e) claim) = Ok e ∧ decodeExecution (encodeExecution e) = Ok e.
Proof.
  intros [(H1 & H2 & H3) Hs Hf] Hv Hc claim.
  destruct (stop_round_trip e claim) as [Hs1 Hs2]; [intros i Hi; by apply Hs|].
  assert (decodeFailure (encodeFailure <$> ex_Failure e) = Ok (ex_Failure e)) as Hfr by (apply failure_round_trip; intros f E; by apply Hf).
  assert ((if bool_decide (format_nonzero (ex_StartedAt e) = format_nonzero (ex_CompletedAt e)) then Ok 0%Z
           else execution_time (format_nonzero (ex_StartedAt e))) = Ok (ex_StartedAt e)) as Hstart.
  { case_bool_decide as E; [|by apply execution_time_round_trip]. apply format_nonzero_inj in E; [|done..]. by destruct H3 as [? | ->]. }
  assert (terminal (ex_State e) && empty (ex_Completion e) = false) as Hterm.
  { destruct (terminal (ex_State e)); [|done]. unfold empty. apply bool_decide_eq_false_2. by apply Hc. }
  unfold decodeExecution.
  change (pe_State (with_claim (encodeExecution e) claim)) with (ex_State e). change (pe_State (encodeExecution e)) with (ex_State e).
  change (pe_Completion (with_claim (encodeExecution e) claim)) with (ex_Completion e). change (pe_Completion (encodeExecution e)) with (ex_Completion e).
  change (pe_StartedAt (with_claim (encodeExecution e) claim)) with (format_nonzero (ex_StartedAt e)).
  change (pe_StartedAt (encodeExecution e)) with (format_nonzero (ex_StartedAt e)).
  change (pe_CompletedAt (with_claim (encodeExecution e) claim)) with (format_nonzero (ex_CompletedAt e)).
  change (pe_CompletedAt (encodeExecution e)) with (format_nonzero (ex_CompletedAt e)).
  change (pe_Failure (with_claim (encodeExecution e) claim)) with (encodeFailure <$> ex_Failure e).
  change (pe_Failure (encodeExecution e)) with (encodeFailure <$> ex_Failure e).
  rewrite Hv, Hstart, (execution_time_round_trip _ H2), Hs1, Hs2, Hfr. cbn [negb mbind result_bind]. rewrite Hterm. by destruct e.
Qed.

Lemma facts_round_trip f : decodeFacts (encodeFacts f) = f.
Proof.
  destruct f as [a b c d e]. unfold decodeFacts, encodeFacts. cbn. rewrite !map_map.
  f_equal; (etransitivity; [|apply map_id]); apply map_ext; by intros [].
Qed.

(** A validated result is decoded to itself. *)
Lemma source_round_trip s : validated s → source_made s → length (sr_References s) ≤ maxReferences → decodeSource (encodeSource s) = Ok s.
Proof.
  intros (w & Hw & He & Ee) (_ & _ & _ & _ & _ & Hn) Hr. unfold decodeSource, encodeSource.
  cbn [pso_Name pso_Backend pso_Version pso_Qualification pso_Evidence pso_References pso_Facts pso_ExclusionReasons pq_BackendHealthConfirmed
       pq_SourceAttachedForBoundWindow pq_FlushConfirmed pq_Attribution pq_AttributedCount pq_ExcludedCount].
  rewrite !(proj2 (Nat.ltb_ge _ _)) by done. cbn [orb]. rewrite facts_round_trip.
  assert (mkEvidenceSource (es_Name (sr_Source s)) (es_Backend (sr_Source s)) (es_Version (sr_Source s)) = sr_Source s) as -> by by destruct (sr_Source s).
  match goal with |- context [NewSourceResult _ ?q _ _] => assert (q = sr_Qualification s) as -> by by destruct (sr_Qualification s) end.
  rewrite Hw. cbn [mbind result_bind]. rewrite map_map.
  assert (map (fun e => mkExclusionReasonCount (pxr_Reason (mkPersistedExclusionReason (er_Reason e) (er_Count e)))
      (pxr_Count (mkPersistedExclusionReason (er_Reason e) (er_Count e)))) (sr_ExclusionReasons s) = sr_ExclusionReasons s) as ->
    by (etransitivity; [|apply map_id]; apply map_ext; by intros []).
  rewrite He. cbn [mbind result_bind]. by rewrite bool_decide_eq_true_2.
Qed.
Lemma validated_references s : validated s → length (sr_References s) ≤ maxReferences.
Proof. intros (w & Hw & _). unfold NewSourceResult in Hw. inv_ok. unfold maxReferences. by apply Nat.ltb_ge. Qed.

Lemma result_round_trip r : result_made r → decodeResult (encodeResult r) = Ok r.
Proof.
  intros [Hr Hs Hb]. unfold decodeResult, encodeResult. cbn [prs_Sources]. rewrite length_map, (proj2 (Nat.ltb_ge _ _)) by done.
  assert (Forall validated (sources r)) as Hv.
  { pose proof Hr as H. unfold NewObservationResult in H. apply result_bind_Ok in H as (k & Hk & [= E]).
    apply validate_sources_validated in Hk as (Hk & _ & _). rewrite <- E. cbn. unfold sort_sources. by rewrite sort_by_perm. }
  rewrite decode_map; [exact Hr|]. rewrite Forall_forall in Hv, Hs |- *. intros s Hin.
  apply source_round_trip; auto using validated_references.
Qed.

Lemma provenance_round_trip p : targets_made (op_ResolvedTargets p) → Forall revision_made (op_ImageRevisions p) →
  length (rts_items (op_ResolvedTargets p)) ≤ maxTargets → length (op_ImageRevisions p) ≤ maxRevisions →
  length (op_RequestedSources p) ≤ maxSources → decodeProvenance (Some (encodeProvenance p)) = Ok p.
Proof.
  intros [Ht Hs] Hr H1 H2 H3. unfold decodeProvenance, encodeProvenance. cbn [ppv_ResolvedTargets ppv_ImageRevisions ppv_Backend ppv_RequestedSources].
  rewrite !length_map, !(proj2 (Nat.ltb_ge _ _)) by done. cbn [orb]. rewrite runtimes_round_trip by done. cbn [mbind result_bind]. rewrite Hs.
  cbn [mbind result_bind]. rewrite revisions_round_trip by done. cbn [mbind result_bind]. rewrite backend_round_trip. by destruct p.
Qed.

(** ** Values the text of the API holds *)
Lemma ascii_valid s : all_bytes ascii7 s = true → valid_utf8 s = true.
Proof. induction s as [|a s IH]; [done|]. cbn [all_bytes valid_utf8]. intros [Ha Hs]%andb_prop. rewrite Ha. by apply IH. Qed.
Lemma digits_ascii s : all_bytes is_digit_byte s = true → all_bytes ascii7 s = true.
Proof.
  induction s as [|a s IH]; [done|]. cbn [all_bytes]. intros [Ha Hs]%andb_prop. rewrite IH, andb_true_r by done.
  unfold is_digit_byte in Ha. apply bool_decide_eq_true_1 in Ha as [d Hd]. apply digit_val_byte in Hd as [Hb _].
  unfold ascii7, byte_in in *. apply andb_prop in Hb as [_ Hb]. apply Nat.leb_le in Hb. cbn [Nat.leb andb]. apply Nat.leb_le. lia.
Qed.
Lemma timestamp_ascii t : all_bytes ascii7 (format_rfc3339nano t) = true.
Proof.
  unfold format_rfc3339nano. destruct (civil_from_days _) as [[y m] d]. cbv zeta.
  assert (∀ k n, all_bytes ascii7 (pad_digits k n "") = true) as Hp by (intros; apply digits_ascii, pad_digits_bytes; done).
  assert (all_bytes ascii7 (str_rev (drop_trailing_zeros_rev (str_rev (pad_digits 9 (t mod 1000000000) "")))) = true) as Hf.
  { apply digits_ascii. rewrite all_bytes_rev. apply trimmed_digits. rewrite all_bytes_rev. by apply pad_digits_bytes. }
  rewrite !all_bytes_app, !Hp. case_bool_decide; [done|]. by rewrite all_bytes_app, Hf.
Qed.
Lemma plain_timestamp t : valid_utf8 (format_rfc3339nano t) = true.
Proof. apply ascii_valid, timestamp_ascii. Qed.
Lemma plain_moment t : valid_utf8 (format_nonzero t) = true.
Proof. unfold format_nonzero. destruct (time_is_zero t); [done|apply plain_timestamp]. Qed.

Lemma forallb_perm {A} (p : A → bool) l l' : l ≡ₚ l' → forallb p l = forallb p l'.
Proof. induction 1 as [|x l l' _ IH|x y l|l1 l2 l3 _ IH1 _ IH2]; cbn; [done|by rewrite IH|by destruct (p x), (p y)|congruence]. Qed.
(** A struct is plain when the fields it writes are. *)
Lemma plain_struct fields : plain_json (struct_json fields) = forallb (fun f : field => f.2 || plain_json f.1.2) fields.
Proof.
  unfold struct_json, obj_of. cbn [plain_json].
  transitivity (forallb (fun f => plain_json f.2) (stored fields)).
  - apply forallb_perm, sort_by_perm.
  - unfold stored. induction fields as [|[[n v] o] fields IH]; [done|]. cbn. rewrite forallb_app, IH. by destruct o; cbn; rewrite ?andb_true_r.
Qed.
Lemma plain_number n : (0 <= n <= 2 ^ 53)%Z → plain_json (JNum (itoa n)) = true.
Proof. intros H. cbn [plain_json]. destruct (itoa_spec n) as (_ & _ & ->); [lia|]. apply Z.leb_le. lia. Qed.

(** A counter a float64 holds. *)
Definition counter (n : Z) : Prop := (0 <= n <= 2 ^ 53)%Z.

(** An Observation the adapter can hold: well formed, as every operation of the
    domain leaves it ([reachable_wf]), its binding flag being what its binding
    says, made of values the domain constructors accept, within the bounds,
    of valid UTF-8 text and counters a float64 holds. *)
Record persistable (o : Observation) : Prop := {
  pb_wf : wf o;
  pb_bound : o_bound o = binding_recorded (o_binding o);
  pb_spec : spec_made (o_spec o);
  pb_binding : binding_made (o_binding o);
  pb_execution : execution_made (o_execution o);
  pb_result : result_made (o_result o);
  pb_plain_spec : plain_json (Spec_json (encodeSpec (o_spec o))) = true;
  pb_plain_binding : plain_json (Binding_json (encodeBinding (o_binding o))) = true;
  pb_plain_execution : plain_json (Execution_json (encodeExecution (o_execution o))) = true;
  pb_plain_result : plain_json (Result_json (encodeResult (o_result o))) = true }.
(** A claim whose text and counter survive the JSON. *)
Definition plain_claim (claim : claimRecord) : Prop := valid_utf8 (ExecutorID claim) = true ∧ counter (Generation claim).

Lemma snapshot_plain o : plain_json (Spec_json (encodeSpec (o_spec o))) = true →
  plain_json (Binding_json (encodeBinding (o_binding o))) = true →
  plain_json (Provenance_json (encodeProvenance (snapshot o))) = true.
Proof.
  unfold Spec_json, Binding_json, Provenance_json, encodeSpec, encodeBinding, encodeProvenance, snapshot, slice_field.
  rewrite !plain_struct. cbn -[plain_json slice_json encodeRuntime encodeImageRevision encodeBackend encodeTargetChange Target_json required omitempty].
  rewrite !andb_true_iff. intros (_ & -> & _) (-> & -> & -> & _). done.
Qed.
Lemma claimed_execution_plain e claim : plain_json (Execution_json (encodeExecution e)) = true → plain_claim claim →
  plain_json (Execution_json (with_claim (encodeExecution e) claim)) = true.
Proof.
  intros He [Hx Hg]. revert He. unfold Execution_json. rewrite !plain_struct. unfold with_claim, required, omitempty, uint_omitempty.
  cbn -[plain_json encodeExecution Failure_json Z.eqb].
  intros He. repeat (apply andb_prop in He as [? He]). repeat (apply andb_true_intro; split); try assumption.
  - by apply orb_true_intro; right.
  - by apply orb_true_intro; right; apply plain_number.
  - by apply orb_true_intro; right; apply plain_timestamp.
Qed.
Lemma status_plain o claim : persistable o → plain_claim claim →
  plain_json (Status_json (persisted_status o (with_claim (encodeExecution (o_execution o)) claim))) = true.
Proof.
  intros [Hw _ _ _ _ _ Hps Hpb Hpe Hpr] Hc. unfold Status_json. rewrite plain_struct. unfold persisted_status.
  cbn [forallb fst snd orb pst_Binding pst_Execution pst_Result pst_Provenance].
  rewrite Hpb, Hpr, claimed_execution_plain by done. cbn [andb]. rewrite andb_true_r.
  destruct (o_frozen o) eqn:Hf; [|done]. cbn [fst snd orb]. destruct (wf_terminal _ Hw Hf) as [_ ->]. by apply snapshot_plain.
Qed.

Lemma encoded_source_ok s : source_made s → Source_ok (encodeSource s).
Proof.
  intros (H1 & H2 & H3 & H4 & H5 & _). unfold Source_ok, Qualification_ok, Facts_ok, encodeSource, encodeFacts.
  cbn [pso_Qualification pso_Facts pso_ExclusionReasons pq_AttributedCount pq_ExcludedCount pfs_NetworkConnect pfs_NetworkBind].
  split_and!; try done; apply Forall_map; eapply Forall_impl; [exact H3|done|exact H4|done|exact H5|done].
Qed.
Lemma counter_uint64 n : counter n → uint64 n.
Proof. unfold counter, uint64, max_uint64. lia. Qed.
Lemma encoded_execution_ok e claim : execution_made e → uint64 (Generation claim) → Execution_ok (with_claim (encodeExecution e) claim).
Proof.
  intros [_ Hs Hf] Hg. assert (uint64 0) as H0 by (unfold uint64, max_uint64; lia).
  unfold Execution_ok, with_claim, encodeExecution. cbn [pe_ClaimGeneration pe_StopContextVersion pe_StopClaimGeneration pe_Failure].
  split; [done|]. destruct (ex_StopIntent e) as [i|].
  - destruct (Hs i eq_refl) as (_ & H1 & H2). split_and!; [done|done|]. destruct (ex_Failure e) as [f|]; [|done]. by destruct (Hf f eq_refl).
  - split_and!; [done|done|]. destruct (ex_Failure e) as [f|]; [|done]. by destruct (Hf f eq_refl).
Qed.

Lemma Restore_wf o : wf o → o_bound o = binding_recorded (o_binding o) →
  RestoreObservation (o_id o) (o_spec o) (o_binding o) (o_execution o) (o_result o) (o_provenance o) = Ok o.
Proof.
  intros [H1 H2 H3 H4 H5 H6] Hb. unfold RestoreObservation. destruct (NewObservation (o_id o) (o_spec o)); [|done]. cbn [mbind result_bind].
  rewrite H1. cbn [negb]. destruct o as [id spec b e r p bd fz]. cbn -[blank terminal has_provenance] in *. subst bd fz. destruct (terminal (ex_State e)).
  - by destruct (H3 eq_refl) as [-> ?].
  - by destruct (H4 eq_refl) as [-> ?].
Qed.
Lemma wf_id o : wf o → o_id o ≠ "".
Proof. intros [_ _ _ _ _ H6] E. unfold NewObservation in H6. by rewrite E in H6. Qed.

Lemma decodeStatus_round_trip o claim : persistable o → plain_claim claim →
  decodeStatus (encodeStatusWithClaim o claim) = Ok (o_binding o, o_execution o, o_result o, o_provenance o).
Proof.
  intros Ho Hc. pose proof (status_plain o claim Ho Hc) as Hp. destruct Ho as [Hw _ Hs Hb He Hres _ _ _ _].
  unfold decodeStatus, encodeStatusWithClaim, fromMap, toMap. rewrite !through_plain by (done || by rewrite through_plain).
  rewrite read_Status; cbn [mbind result_bind].
  2:{ split; [apply encoded_execution_ok; [done|by apply counter_uint64, Hc]|]. cbn. apply Forall_map. eapply Forall_impl; [apply (rm_sources _ Hres)|].
      intros. by apply encoded_source_ok. }
  unfold persisted_status. cbn [pst_Binding pst_Execution pst_Result pst_Provenance].
  rewrite stored_binding_round_trip by done. cbn [mbind result_bind]. destruct Hw as [Hv Hf Ht Ha _ _].
  destruct (execution_round_trip _ He Hv) with claim as [-> _].
  { intros Hter E. destruct (Ht (eq_trans Hf Hter)) as [Hbl _]. by rewrite E in Hbl. }
  cbn [mbind result_bind]. rewrite result_round_trip by done. cbn [mbind result_bind].
  destruct (o_frozen o) eqn:Ef.
  - destruct (Ht eq_refl) as [_ ->]. unfold snapshot. destruct Hb as [Hbt Hrev _ (B1 & B2 & _)], Hs as [_ _ (B3 & _)].
    rewrite provenance_round_trip by done. done.
  - destruct (Ha eq_refl) as [-> _]. done.
Qed.


(** A start and an end at one instant are not told apart: the start is lost. *)
Lemma equal_instants_lose_start :
  let e := mkObservationExecution ExecutionCompleted "COMPLETED" (unix 0 0) (unix 0 0) None None in
  decodeExecution (encodeExecution e) = Ok (mkObservationExecution ExecutionCompleted "COMPLETED" 0 (unix 0 0) None None).
Proof. vm_compute. reflexivity. Qed.

(** A completed Observation with a bound target and a result. *)
Definition ex_stored_spec : ObservationSpec :=
  mkObservationSpec (mkRequestedTarget ex_slot) ["exec"] 90000000000 "session" "pod-1".
Definition ex_runtime : RuntimeContainerInstance := mkRuntimeContainerInstance ex_slot "pod-1" "containerd" None.
Definition ex_source_result : SourceResult :=
  mkSourceResult (mkEvidenceSource "exec" "trace_exec" "1") (mkSourceQualification true true true AttributionCompleted 2 0) EvidenceAvailable []
    (mkNormalizedFacts [] [mkExecFact "/bin/sh"] [] [] []) [].
Definition ex_stored_ops : list op :=
  [OpBind (mkResolvedTargetSet [ex_runtime]) (mkBackendIdentity "trace_exec" "1") []; OpTransition (unix 1 0) ExecutionStarting "";
   OpTransition (unix 2 0) ExecutionRunning ""; OpTargetChange (mkTargetChangeEvent (unix 3 5) PodAdded "pod-2"); OpSourceResult ex_source_result;
   OpTransition (unix 4 0) ExecutionCompleting ""; OpTransition (unix 5 0) ExecutionCompleted "COMPLETED"].
Definition ex_created : Observation :=
  mkObservation "obs-1" ex_stored_spec no_binding new_execution (mkObservationResult []) no_provenance false false.
Definition ex_stored_claim : claimRecord := mkClaimRecord "exec-1" 1 (unix 30 0).

Definition ex_completed : Observation := match run_ops ex_created ex_stored_ops with Ok o => o | Err _ => ex_created end.

Lemma ex_completed_runs : run_ops ex_created ex_stored_ops = Ok ex_completed.
Proof. vm_compute. reflexivity. Qed.
Lemma ex_completed_persistable : persistable ex_completed.
Proof.
  split.
  - apply reachable_wf_aux. eapply (reachable_run ex_created ex_stored_ops); [|apply ex_completed_runs].
    apply (reachable_new "obs-1" ex_stored_spec). vm_compute. reflexivity.
  - vm_compute. reflexivity.
  - split; [eexists; split; vm_compute; reflexivity|vm_compute; discriminate|].
    split_and!; [vm_compute; lia|vm_compute; lia|repeat constructor; vm_compute; lia].
  - split; [split; [repeat constructor; intros v; discriminate|vm_compute; reflexivity]|constructor| |split_and!; vm_compute; lia].
    repeat constructor; vm_compute; reflexivity.
  - split; [split_and!; try (vm_compute; split; [discriminate|reflexivity]); left; vm_compute; discriminate|discriminate|discriminate].
  - split; [vm_compute; reflexivity| |vm_compute; lia].
    repeat constructor; vm_compute; try discriminate; lia.
  - vm_compute. reflexivity.
  - vm_compute. reflexivity.
  - vm_compute. reflexivity.
  - vm_compute. reflexivity.
Qed.

