(* ===== verification/ObservationExecutor.v ===== *)
(** * internal/observation/kubernetes/executor.go and store.go

    The executor's claim on a stored Observation: one claim, a lease, and
    writes that are fenced by both.  The first part translates the calls of the
    store; [permitted] states what each may do to the state it found; the calls
    are then run over a journal of the API calls they make ([KubeJournal]),
    shown to do nothing else, and their writes to be read back; last, the
    objects that such writes make follow one another as one executor's. *)
From S2P Require Import Prelude GoStd Policy Digest Json Decimal Timestamp Duration Unstructured JsonParse Kube Journal KubeJournal SpoBackend Target K8sApply Attempt RollbackAttempt Identity ObservationDomain ObservationPersisted ObservationAdapter.
Import RollbackAttempt.

Definition ErrAlreadyClaimed : string := "observation already has an executor claim".
Definition ErrConcurrentConflict : string := "observation persistence conflict".
Definition ErrStaleExecutor : string := "stale executor authority".
Definition ErrLeaseExpired : string := "executor lease expired".
Definition ErrTerminalObservation : string := "terminal observation cannot be mutated".
Definition ErrObservationNotFound : string := "observation not found".
Definition ErrInvalidExecutor : string := "invalid executor identity".
Definition ErrRecoveryNotEligible : string := "observation is not eligible for lost-executor recovery".
Definition ErrStopNotEligible : string := "observation is not eligible for stopping".
Definition sentinel (kind : string) : error := mkError kind "".

Definition DefaultLeaseDuration : Z := 30000000000.

(** The authority token of an executor. *)
Record ExecutorClaim := mkExecutorClaim { xc_ObservationID : string; xc_ExecutorID : string; xc_ClaimGeneration : Z }.

(** The hexadecimal text of 16 random bytes. *)
Definition NewExecutorID (bytes : list Z) : string := "exec-" +:+ hex_encode bytes.

(** ** The stored claim *)

(** An int64 literal, or a float64 that is an unsigned integer. *)
Definition claim_generation (literal : string) : result Z :=
  let invalid := Err (errDomain "invalid claim generation") in
  if bool_decide (literal = "-0") then Ok 0%Z
  else match decimal_value 0 literal with
       | Some n =>
           if empty literal then invalid
           else if (n <=? max_int64)%Z then Ok n
           else if (float_int n <=? max_uint64)%Z then Ok (float_int n) else invalid
       | None => invalid
       end.
Definition text_field (key : string) (fs : list (string * json)) : string :=
  match lookup_field key fs with Some (JStr s) => s | _ => "" end.

Definition claim_of_fields (values : list (string * json)) : result claimRecord :=
  let executor := text_field "executorID" values in
  generation ← match lookup_field "claimGeneration" values with
               | None => Ok 0%Z
               | Some (JNum t) => claim_generation t
               | Some _ => Err (errDomain "invalid claim generation")
               end;
  let text := text_field "leaseExpiry" values in
  lease ← (if empty text then Ok 0%Z else parse_or "invalid lease expiry" text Ok);
  if empty executor && (generation =? 0)%Z && time_is_zero lease then Ok no_claim
  else
    fail_if empty executor || (generation =? 0)%Z || time_is_zero lease with errDomain "incomplete executor claim";
    Ok (mkClaimRecord executor generation lease).

Definition nestedField (status : option json) (field : string) : result (option json) :=
  match status with
  | None => Ok None
  | Some (JObj fs) => Ok (lookup_field field fs)
  | Some _ => Err (errDomain "malformed persisted object")
  end.
Definition claimFromObject (object : ObservationObject) : result claimRecord :=
  execution ← nestedField (o_Status object) "execution";
  match execution with
  | None => Ok no_claim
  | Some (JObj values) => claim_of_fields values
  | Some _ => Err (errDomain "malformed execution status")
  end.

(** ** The calls of the store *)
Record unstructuredRecord := mkUnstructuredRecord {
  ur_object : ObservationObject; ur_observation : Observation; ur_claim : claimRecord; ur_resourceVersion : string }.

Definition live (claim : claimRecord) (now : time) : bool := negb (time_is_zero (LeaseExpiry claim)) && (now <? LeaseExpiry claim)%Z.
Definition claimed_by (record : claimRecord) (claim : ExecutorClaim) : bool :=
  bool_decide (ExecutorID record = xc_ExecutorID claim) && (Generation record =? xc_ClaimGeneration claim)%Z.

Lemma nonempty_false s : nonempty s = false → s = "".
Proof. unfold nonempty. intros H%negb_false_iff. by apply bool_decide_eq_true in H. Qed.
Lemma claimed_by_true c claim : claimed_by c claim = true → ExecutorID c = xc_ExecutorID claim ∧ Generation c = xc_ClaimGeneration claim.
Proof. unfold claimed_by. intros [H1%bool_decide_eq_true H2%Z.eqb_eq]%andb_prop. done. Qed.

Section store.
Context {W : Type} `{!Api W ObservationBody json, !NameValidation}.

Definition CreateObservation (o : Observation) : M W string :=
  object <- m_lift (ToUnstructured o) ;!
  m_try (api_create object) (fun created : result ObservationObject =>
    match created with
    | Ok created => m_ret (o_ResourceVersion created)
    | Err e => m_err (mkError (err_is e) "creating Observation")
    end).

Definition GetObservation (name : string) : M W (Observation * string) :=
  m_try (api_get name) (fun got : result ObservationObject =>
    match got with
    | Err e => m_err (mkError (err_is e) "getting Observation")
    | Ok object =>
        match FromUnstructured object with
        | Ok o => m_ret (o, o_ResourceVersion object)
        | Err e => m_err (mkError (err_is e) "decoding Observation")
        end
    end).

Definition currentRecord (name : string) : M W unstructuredRecord :=
  m_try (api_get name) (fun got : result ObservationObject =>
    match got with
    | Err e => if IsNotFound e then m_err (sentinel ErrObservationNotFound) else m_err (mkError (err_is e) "reading Observation")
    | Ok object =>
        o <- m_lift (FromUnstructured object) ;!
        claim <- m_lift (claimFromObject object) ;!
        m_ret (mkUnstructuredRecord object o claim (o_ResourceVersion object))
    end).

Definition casStatus (record : unstructuredRecord) (expectedRV : string) (status : json) : M W string :=
  guard empty expectedRV with mkError "" "resourceVersion is required" ;!
  let obj := ur_object record in
  m_try (api_update_status (mkObject (o_Name obj) (o_UID obj) expectedRV (o_Spec obj) (Some status)))
    (fun updated : result ObservationObject =>
      match updated with
      | Ok updated => m_ret (o_ResourceVersion updated)
      | Err e => if IsConflict e then m_err (sentinel ErrConcurrentConflict)
                 else m_err (mkError (err_is e) "updating Observation status")
      end).

Definition authority (claim : ExecutorClaim) (expectedRV : string) (now : time) : M W unstructuredRecord :=
  guard empty (xc_ExecutorID claim) || (xc_ClaimGeneration claim =? 0)%Z with sentinel ErrStaleExecutor ;!
  record <- currentRecord (xc_ObservationID claim) ;!
  guard empty expectedRV || negb (bool_decide (ur_resourceVersion record = expectedRV)) with sentinel ErrConcurrentConflict ;!
  guard negb (claimed_by (ur_claim record) claim) with sentinel ErrStaleExecutor ;!
  guard o_frozen (ur_observation record) with sentinel ErrTerminalObservation ;!
  guard negb (live (ur_claim record) now) with sentinel ErrLeaseExpired ;!
  m_ret record.

Definition ClaimObservation (name executorID : string) : M W (ExecutorClaim * string) :=
  guard empty executorID with sentinel ErrInvalidExecutor ;!
  record <- currentRecord name ;!
  guard negb (bool_decide (ex_State (o_execution (ur_observation record)) = ExecutionRequested)) || nonempty (ExecutorID (ur_claim record))
    with sentinel ErrAlreadyClaimed ;!
  now <- api_now ;!
  o <- m_lift (Transition now (ur_observation record) ExecutionStarting "") ;!
  let generation := add_uint64 (Generation (ur_claim record)) 1 in
  now <- api_now ;!
  rv <- casStatus record (ur_resourceVersion record)
          (encodeStatusWithClaim o (mkClaimRecord executorID generation (now + DefaultLeaseDuration))) ;!
  m_ret (mkExecutorClaim name executorID generation, rv).

Record StopIntentInput := mkStopIntentInput { Requester : string; ContextVersion : Z }.

Definition StoreRequestStop (name : string) (input : StopIntentInput) : M W (Observation * string) :=
  guard empty (Requester input) with sentinel ErrInvalidExecutor ;!
  record <- currentRecord name ;!
  if StopRequested (o_execution (ur_observation record)) then m_ret (ur_observation record, ur_resourceVersion record)
  else
    guard negb (CanRequestStop (ur_observation record)) with sentinel ErrStopNotEligible ;!
    requestedAt <- api_now ;!
    bound <- (if nonempty (ExecutorID (ur_claim record)) then
                now <- api_now ;!
                guard negb (live (ur_claim record) now) with sentinel ErrLeaseExpired ;!
                m_ret (ExecutorID (ur_claim record), Generation (ur_claim record))
              else m_ret ("", 0%Z)) ;!
    o <- m_lift (RequestStop (ur_observation record)
                   (mkStopIntent requestedAt (Requester input) (ContextVersion input) (fst bound) (snd bound))) ;!
    rv <- casStatus record (ur_resourceVersion record) (encodeStatusWithClaim o (ur_claim record)) ;!
    m_ret (o, rv).

Definition StopRequestedForClaim (claim : ExecutorClaim) : M W bool :=
  record <- currentRecord (xc_ObservationID claim) ;!
  if o_frozen (ur_observation record) then m_ret false
  else
    now <- api_now ;!
    guard negb (claimed_by (ur_claim record) claim) || negb (live (ur_claim record) now) with sentinel ErrStaleExecutor ;!
    match ex_StopIntent (o_execution (ur_observation record)) with
    | None => m_ret false
    | Some intent =>
        guard nonempty (si_ExecutorID intent) &&
              (negb (bool_decide (si_ExecutorID intent = xc_ExecutorID claim)) ||
               negb (si_ClaimGeneration intent =? xc_ClaimGeneration claim)%Z) with sentinel ErrStaleExecutor ;!
        m_ret true
    end.

Definition ExecutorLost : string := "EXECUTOR_LOST".
(** The Observation whose executor is lost, from the two readings of the clock. *)
Definition lost (o : Observation) (claim : claimRecord) (completed occurred : time) : result Observation :=
  let e := o_execution o in
  RestoreObservation (o_id o) (o_spec o) (o_binding o)
    (mkObservationExecution ExecutionFailed ExecutorLost (ex_StartedAt e) completed (ex_StopIntent e)
       (Some (mkFailureInfo "EXECUTOR_LOSS" "EXECUTOR_LOST" "the executor lease expired before observation finalization" "executor"
                occurred true (ExecutorID claim) (Generation claim))))
    (o_result o) (snapshot o).

Definition TerminalizeExecutorLost (name : string) : M W string :=
  record <- currentRecord name ;!
  guard o_frozen (ur_observation record) with sentinel ErrTerminalObservation ;!
  guard empty (ExecutorID (ur_claim record)) with sentinel ErrRecoveryNotEligible ;!
  now <- api_now ;!
  guard (now <? LeaseExpiry (ur_claim record))%Z with sentinel ErrLeaseExpired ;!
  completed <- api_now ;!
  occurred <- api_now ;!
  o <- m_lift (lost (ur_observation record) (ur_claim record) completed occurred) ;!
  casStatus record (ur_resourceVersion record) (encodeStatusWithClaim o (ur_claim record)).

(** One attempt of the renewal; the caller's version is not used. *)
Definition renew_once (claim : ExecutorClaim) : M W (result string) :=
  record <- currentRecord (xc_ObservationID claim) ;!
  guard negb (claimed_by (ur_claim record) claim) with sentinel ErrStaleExecutor ;!
  guard o_frozen (ur_observation record) with sentinel ErrTerminalObservation ;!
  now <- api_now ;!
  guard negb (live (ur_claim record) now) with sentinel ErrLeaseExpired ;!
  now <- api_now ;!
  m_try (casStatus record (ur_resourceVersion record)
           (encodeStatusWithClaim (ur_observation record)
              (mkClaimRecord (xc_ExecutorID claim) (xc_ClaimGeneration claim) (now + DefaultLeaseDuration)))) (fun r => m_ret r).

Definition RenewLease (claim : ExecutorClaim) (expectedRV : string) : M W string :=
  first <- renew_once claim ;!
  match first with
  | Ok rv => m_ret rv
  | Err e =>
      guard negb (bool_decide (err_is e = ErrConcurrentConflict)) with e ;!
      second <- renew_once claim ;!
      m_lift second
  end.

Definition TransitionExecution (claim : ExecutorClaim) (expectedRV : string) (next : ExecutionState) (reason : CompletionReason) : M W string :=
  now <- api_now ;!
  record <- authority claim expectedRV now ;!
  now <- api_now ;!
  o <- m_lift (Transition now (ur_observation record) next reason) ;!
  casStatus record expectedRV (encodeStatusWithClaim o (ur_claim record)).

(** [rep]: how the caller's Observation compares with the one just decoded,
    beside its values. *)
Definition UpdateExecutorStatus (rep : representation) (claim : ExecutorClaim) (expectedRV : string) (o : Observation) : M W string :=
  now <- api_now ;!
  record <- authority claim expectedRV now ;!
  guard negb (bool_decide (o_id o = o_id (ur_observation record))) ||
        negb (bool_decide (ex_State (o_execution o) = ex_State (o_execution (ur_observation record)))) || o_frozen o
    with errTransition "executor status" ;!
  do m_lift (ValidateStatusMutation rep (ur_observation record) o) ;!
  casStatus record expectedRV (encodeStatusWithClaim o (ur_claim record)).

(** The unfenced primitive of store.go, which no operation uses. *)
Definition updateObservationStatus (rep : representation) (o : Observation) (expectedRV : string) (status : json) : M W string :=
  guard empty expectedRV with mkError "" "resourceVersion is required for Observation status update" ;!
  m_try (api_get (o_id o)) (fun got : result ObservationObject =>
    match got with
    | Err e => m_err (mkError (err_is e) "reading Observation status base")
    | Ok current =>
        match FromUnstructured current with
        | Err e => m_err (mkError (err_is e) "decoding Observation status base")
        | Ok old =>
            do m_lift (ValidateStatusMutation rep old o) ;!
            m_try (api_update_status (mkObject (o_Name current) (o_UID current) expectedRV (o_Spec current) (Some status)))
              (fun updated : result ObservationObject =>
                match updated with
                | Ok updated => m_ret (o_ResourceVersion updated)
                | Err e => m_err (mkError (err_is e) "updating Observation status")
                end)
        end
    end).
End store.

(** ** A claim is read back *)
Lemma lookup_through key fs : lookup_field key (map (fun f => (f.1, through_map f.2)) fs) = through_map <$> lookup_field key fs.
Proof. induction fs as [|f fs IH]; [done|]. cbn. by case_bool_decide. Qed.

Lemma stored_field_absent name fields : name ∉ map (fun f : field => f.1.1) fields → lookup_field name (stored fields) = None.
Proof.
  induction fields as [|f fields IH]; [done|]. cbn [map]. rewrite not_elem_of_cons. intros [Hne Hin]. cbn [stored flat_map].
  destruct f.2; cbn [app lookup_field]; [by apply IH|]. rewrite bool_decide_eq_false_2 by congruence. by apply IH.
Qed.
Lemma stored_field name v omitted fields : NoDup (map (fun f : field => f.1.1) fields) → (name, v, omitted) ∈ fields →
  lookup_field name (stored fields) = if omitted : bool then None else Some v.
Proof.
  induction fields as [|f fields IH]; intros Hnd Hin; [by apply elem_of_nil in Hin|]. cbn [map] in Hnd. apply NoDup_cons in Hnd as [Hf Hnd].
  cbn [stored flat_map]. apply elem_of_cons in Hin as [<-|Hin].
  - destruct omitted; cbn [snd fst app lookup_field] in *; [by apply stored_field_absent|]. by rewrite bool_decide_eq_true_2.
  - assert (name ∈ map (fun f : field => f.1.1) fields) as Hn by (apply list_elem_of_fmap; by exists (name, v, omitted)).
    destruct f.2; cbn [app lookup_field]; [by apply IH|]. rewrite bool_decide_eq_false_2 by (intros <-; done). by apply IH.
Qed.
(** A field of a struct that went through the map. *)
Lemma lookup_struct name v omitted fields : names_distinct (map (fun f : field => f.1.1) fields) → (name, v, omitted) ∈ fields →
  ∀ fs, through_map (struct_json fields) = JObj fs → lookup_field name fs = if omitted : bool then None else Some (through_map v).
Proof.
  intros Hnd Hin fs. unfold struct_json, obj_of. cbn [through_map]. intros [= <-]. rewrite lookup_through, lookup_sort.
  rewrite (stored_field name v omitted) by (done || (unfold names_distinct in Hnd; by eapply NoDup_fmap_1)). by destruct omitted.
Qed.

(** A claim an executor can hold: none, or all three parts. *)
Definition claim_ok (c : claimRecord) : Prop :=
  c = no_claim ∨ (ExecutorID c ≠ "" ∧ valid_utf8 (ExecutorID c) = true ∧ (0 < Generation c <= 2 ^ 53)%Z ∧ (0 < LeaseExpiry c < instant_end)%Z).

Lemma through_timestamp t : through_map (JStr (format_rfc3339nano t)) = JStr (format_rfc3339nano t).
Proof. apply through_plain, plain_timestamp. Qed.

Lemma claim_values values c : claim_ok c →
  text_field "executorID" values = ExecutorID c →
  lookup_field "claimGeneration" values = (if (Generation c =? 0)%Z then None else Some (JNum (itoa (Generation c)))) →
  text_field "leaseExpiry" values = format_rfc3339nano (LeaseExpiry c) → claim_of_fields values = Ok c.
Proof.
  intros Hc He Hg Hl. unfold claim_of_fields. rewrite He, Hg, Hl.
  assert (instant (LeaseExpiry c)) as Hi by (destruct Hc as [->|(_ & _ & _ & ?)]; unfold instant; [split; [done|vm_compute; reflexivity]|lia]).
  pose proof (parse_format_rfc3339 _ Hi) as Hp.
  assert (format_rfc3339nano (LeaseExpiry c) ≠ "") as Hne by (intros E; rewrite E in Hp; vm_compute in Hp; discriminate).
  unfold parse_or, empty. rewrite (bool_decide_eq_false_2 _ Hne), Hp. destruct Hc as [->|(Hx & _ & Hn & Ht)]; [done|].
  destruct (Z.eqb_spec (Generation c) 0); [lia|]. unfold claim_generation.
  destruct (itoa_spec (Generation c)) as (Hie & _ & Hv); [lia|].
  rewrite (bool_decide_eq_false_2 (itoa (Generation c) = "-0")) by (intros E; rewrite E in Hv; vm_compute in Hv; discriminate). rewrite Hv.
  unfold empty. rewrite (bool_decide_eq_false_2 _ Hie). destruct (Z.leb_spec (Generation c) max_int64); [|unfold max_int64 in *; lia].
  cbn [mbind result_bind]. rewrite (bool_decide_eq_false_2 _ Hx). destruct (Z.eqb_spec (Generation c) 0); [lia|].
  unfold time_is_zero. destruct (Z.eqb_spec (LeaseExpiry c) 0); [lia|]. cbn. by destruct c.
Qed.

Lemma claim_read_back object o c : claim_ok c → o_Status object = Some (encodeStatusWithClaim o c) → claimFromObject object = Ok c.
Proof.
  intros Hc Hs. unfold claimFromObject. rewrite Hs. unfold encodeStatusWithClaim, toMap.
  set (status := persisted_status o _). destruct (through_map (Status_json status)) as [| | | | |fs] eqn:E; try discriminate E.
  cbn [nestedField mbind result_bind].
  assert (lookup_field "execution" fs = Some (through_map (Execution_json (pst_Execution status)))) as ->.
  { destruct status as [b e r [v|]]; unfold Status_json in E; cbn [pst_Binding pst_Execution pst_Result pst_Provenance] in E |- *;
      (refine (lookup_struct "execution" _ false _ _ _ fs E); [distinct|member]). }
  set (e := pst_Execution status) in *. destruct (through_map (Execution_json e)) as [| | | | |values] eqn:Ee; try discriminate Ee.
  assert (pe_ExecutorID e = ExecutorID c ∧ pe_ClaimGeneration e = Generation c ∧ pe_LeaseExpiry e = format_rfc3339nano (LeaseExpiry c)) as (E1 & E2 & E3)
    by (split_and!; reflexivity).
  clearbody e. clear E status.
  assert (∀ name v omitted, (name, v, omitted) ∈
    [required "state" (pe_State e); omitempty "completion" (pe_Completion e); omitempty "startedAt" (pe_StartedAt e);
    omitempty "completedAt" (pe_CompletedAt e); omitempty "executorID" (pe_ExecutorID e);
    uint_omitempty "claimGeneration" (pe_ClaimGeneration e); omitempty "leaseExpiry" (pe_LeaseExpiry e)] →
    lookup_field name values = if omitted : bool then None else Some (through_map v)) as Hlook.
  { intros name v omitted Hin. destruct (pe_Failure e) as [f|] eqn:Ef; unfold Execution_json in Ee; rewrite Ef in Ee;
      (refine (lookup_struct name v omitted _ _ _ values Ee); [distinct|]; 
       repeat (apply elem_of_cons in Hin as [Hx|Hin]; [rewrite Hx; member|]); by apply elem_of_nil in Hin). }
  apply claim_values; [done|..].
  - unfold text_field. rewrite (Hlook "executorID" (JStr (pe_ExecutorID e)) (empty (pe_ExecutorID e))) by member. rewrite E1.
    unfold empty. case_bool_decide as Ex; [done|]. destruct Hc as [->|(_ & Hu & _)]; [done|]. by rewrite through_plain.
  - rewrite (Hlook "claimGeneration" (JNum (itoa (pe_ClaimGeneration e))) (pe_ClaimGeneration e =? 0)%Z) by member. rewrite E2.
    destruct (Z.eqb_spec (Generation c) 0) as [|Hnz]; [done|]. rewrite through_plain; [done|]. cbn [plain_json].
    destruct Hc as [->|(_ & _ & Hg & _)]; [done|]. destruct (itoa_spec (Generation c)) as (_ & _ & ->); [lia|]. apply Z.leb_le. lia.
  - unfold text_field. rewrite (Hlook "leaseExpiry" (JStr (pe_LeaseExpiry e)) (empty (pe_LeaseExpiry e))) by member. rewrite E3.
    unfold empty. case_bool_decide as El; [done|]. by rewrite through_timestamp.
Qed.

(** ** What a call may do

    The specification of the protocol: the state a call may leave, from the
    state it found and the clock readings it made. *)
Record xstate := mkXstate { xs_observation : Observation; xs_claim : claimRecord }.

(** The state a stored object is read as. *)
Definition reads (object : ObservationObject) (s : xstate) : Prop :=
  FromUnstructured object = Ok (xs_observation s) ∧ claimFromObject object = Ok (xs_claim s).

Inductive call :=
| CallClaim (name executor : string)
| CallStop (name : string) (input : StopIntentInput)
| CallLost (name : string)
| CallRenew (claim : ExecutorClaim) (expectedRV : string)
| CallTransition (claim : ExecutorClaim) (expectedRV : string) (next : ExecutionState) (reason : CompletionReason)
| CallUpdate (claim : ExecutorClaim) (expectedRV : string) (rep : representation) (o : Observation).

Definition call_name (c : call) : string :=
  match c with
  | CallClaim name _ | CallStop name _ | CallLost name => name
  | CallRenew claim _ | CallTransition claim _ _ _ | CallUpdate claim _ _ _ => xc_ObservationID claim
  end.
(** The version the caller read, where the call holds it to it. *)
Definition call_version (c : call) : option string :=
  match c with CallTransition _ version _ _ | CallUpdate _ version _ _ => Some version | _ => None end.

(** The lease had not expired at a reading of the clock. *)
Definition within_lease (c : claimRecord) (ts : list time) : Prop :=
  LeaseExpiry c ≠ 0%Z ∧ ∃ now, now ∈ ts ∧ (now < LeaseExpiry c)%Z.
(** The caller is the executor of the stored claim, within its lease. *)
Definition holds_claim (claim : ExecutorClaim) (s : xstate) (ts : list time) : Prop :=
  ExecutorID (xs_claim s) = xc_ExecutorID claim ∧ Generation (xs_claim s) = xc_ClaimGeneration claim ∧ within_lease (xs_claim s) ts.

Definition permitted (c : call) (ts : list time) (s s' : xstate) : Prop :=
  let o := xs_observation s in let e := o_execution o in let k := xs_claim s in
  o_frozen o = false ∧
  match c with
  | CallClaim _ executor =>
      executor ≠ "" ∧ ExecutorID k = "" ∧ ex_State e = ExecutionRequested ∧
      xs_observation s' = with_execution o
        (mkObservationExecution ExecutionStarting (ex_Completion e) (ex_StartedAt e) (ex_CompletedAt e) (ex_StopIntent e) (ex_Failure e)) ∧
      ∃ now, now ∈ ts ∧ xs_claim s' = mkClaimRecord executor (add_uint64 (Generation k) 1) (now + DefaultLeaseDuration)
  | CallStop _ input =>
      blank (Requester input) = false ∧ ex_StopIntent e = None ∧ ex_State e ∈ [ExecutionRequested; ExecutionStarting; ExecutionRunning] ∧
      (ExecutorID k ≠ "" → within_lease k ts) ∧ xs_claim s' = k ∧
      ∃ at_, at_ ∈ ts ∧ at_ ≠ 0%Z ∧ xs_observation s' = with_execution o
        (mkObservationExecution (ex_State e) (ex_Completion e) (ex_StartedAt e) (ex_CompletedAt e)
          (Some (mkStopIntent at_ (Requester input) (ContextVersion input) (ExecutorID k)
            (if nonempty (ExecutorID k) then Generation k else 0%Z))) (ex_Failure e))
  | CallLost _ =>
      ExecutorID k ≠ "" ∧ (∃ now, now ∈ ts ∧ LeaseExpiry k <= now)%Z ∧ xs_claim s' = k ∧
      ∃ completed occurred, completed ∈ ts ∧ occurred ∈ ts ∧ xs_observation s' =
        mkObservation (o_id o) (o_spec o) (o_binding o)
          (mkObservationExecution ExecutionFailed "EXECUTOR_LOST" (ex_StartedAt e) completed (ex_StopIntent e)
            (Some (mkFailureInfo "EXECUTOR_LOSS" "EXECUTOR_LOST" "the executor lease expired before observation finalization"
              "executor" occurred true (ExecutorID k) (Generation k))))
          (o_result o) (snapshot o) (binding_recorded (o_binding o)) true
  | CallRenew claim _ =>
      holds_claim claim s ts ∧ xs_observation s' = o ∧
      ∃ now, now ∈ ts ∧ xs_claim s' = mkClaimRecord (ExecutorID k) (Generation k) (now + DefaultLeaseDuration)
  | CallTransition claim _ next reason =>
      xc_ExecutorID claim ≠ "" ∧ holds_claim claim s ts ∧ xs_claim s' = k ∧
      ∃ at_, at_ ∈ ts ∧ Transition at_ o next reason = Ok (xs_observation s')
  | CallUpdate claim _ _ new =>
      xc_ExecutorID claim ≠ "" ∧ holds_claim claim s ts ∧ xs_claim s' = k ∧ xs_observation s' = new ∧
      o_id new = o_id o ∧ o_spec new = o_spec o ∧ ex_State (o_execution new) = ex_State e ∧ o_frozen new = false ∧
      ob_TargetChanges (o_binding o) `prefix_of` ob_TargetChanges (o_binding new)
  end.

Lemma permitted_mono c ts ts' s s' : (∀ t, t ∈ ts → t ∈ ts') → permitted c ts s s' → permitted c ts' s s'.
Proof.
  intros Hsub. assert (∀ k, within_lease k ts → within_lease k ts') as Hw by (intros k (H & t & Ht & Hl); split; eauto).
  assert (∀ k, holds_claim k s ts → holds_claim k s ts') as Hh by (intros k (H1 & H2 & H3); split_and!; auto).
  intros [Hf H]. split; [done|]. destruct c.
  - destruct H as (H1 & H2 & H3 & H4 & t & Ht & H5). split_and!; auto. exists t. auto.
  - destruct H as (H0 & H1 & H2 & H3 & H4 & t & Ht & H5). split_and!; auto. exists t. auto.
  - destruct H as (H1 & (t & Ht & Hl) & H2 & t1 & t2 & Ht1 & Ht2 & H3). split_and!; auto; [exists t; auto|exists t1, t2; auto].
  - destruct H as (H1 & H2 & t & Ht & H3). split_and!; auto. exists t. auto.
  - destruct H as (H1 & H2 & H3 & t & Ht & H4). split_and!; auto. exists t. auto.
  - destruct H as (H1 & H2 & H3). split_and!; auto; apply H3.
Qed.

(** ** What a step keeps *)
Lemma change_prefix rep old new : sameTargetChangePrefix rep old new = true → old `prefix_of` new.
Proof.
  unfold sameTargetChangePrefix. intros [Hl H]%andb_prop. apply Nat.leb_le in Hl. revert new Hl H. generalize 0.
  induction old as [|x old IH]; intros i [|y new]; cbn; intros Hl H; try lia; [apply prefix_nil..|].
  apply andb_prop in H as [[Hx%bool_decide_eq_true _]%andb_prop H]. subst y. apply prefix_cons, (IH (S i)); [lia|done].
Qed.
Lemma restored_whole id spec b e r p o : RestoreObservation id spec b e r p = Ok o →
  o_id o = id ∧ o_spec o = spec ∧ o_binding o = b ∧ o_execution o = e.
Proof.
  unfold RestoreObservation. intros (n & Hn & H)%result_bind_Ok. apply result_guard_Ok in H as [_ H].
  destruct (terminal (ex_State e)); by apply result_guard_Ok in H as [_ [= <-]].
Qed.
Lemma rank_max s : rank s ≤ 4.
Proof. unfold rank. repeat case_bool_decide; lia. Qed.
Lemma Transition_keeps now o next reason o' : Transition now o next reason = Ok o' →
  o_frozen o = false ∧ o_id o' = o_id o ∧ o_spec o' = o_spec o ∧ o_binding o' = o_binding o.
Proof. unfold Transition. intros H. inv_ok. by destruct (terminal next); injection H as <-. Qed.
Lemma RequestStop_keeps o intent o' : StopRequested (o_execution o) = false → RequestStop o intent = Ok o' →
  o_frozen o = false ∧ o_id o' = o_id o ∧ o_spec o' = o_spec o ∧ o_binding o' = o_binding o ∧ ex_State (o_execution o') = ex_State (o_execution o).
Proof.
  unfold RequestStop, StopRequested. intros Hs H. inv_ok. destruct (ex_StopIntent (o_execution o)); [done|]. inv_ok. bool_simpl.
  repeat split. match goal with Hc : CanRequestStop _ = true |- _ => unfold CanRequestStop in Hc; by destruct (o_frozen o) end.
Qed.

(** What later states of a stored Observation share with an earlier one. *)
Record follows (s s' : xstate) : Prop := {
  fo_id : o_id (xs_observation s') = o_id (xs_observation s);
  fo_spec : o_spec (xs_observation s') = o_spec (xs_observation s);
  fo_changes : ob_TargetChanges (o_binding (xs_observation s)) `prefix_of` ob_TargetChanges (o_binding (xs_observation s'));
  fo_rank : rank (ex_State (o_execution (xs_observation s))) ≤ rank (ex_State (o_execution (xs_observation s')));
  fo_owner : ExecutorID (xs_claim s) ≠ "" → ExecutorID (xs_claim s') = ExecutorID (xs_claim s) ∧ Generation (xs_claim s') = Generation (xs_claim s) }.

#[export] Instance follows_preorder : PreOrder follows.
Proof.
  split; [by split|]. intros s1 s2 s3 [A1 A2 A3 A4 A5] [B1 B2 B3 B4 B5].
  split; [congruence|congruence|by etrans|lia|]. intros Hne. destruct (A5 Hne) as [E1 E2]. rewrite <- E1, <- E2. apply B5. by rewrite E1.
Qed.


Lemma permitted_follows c ts s s' : permitted c ts s s' → o_frozen (xs_observation s) = false ∧ follows s s'.
Proof.
  intros [Hf H]. split; [done|]. destruct c; cbv beta zeta in H.
  - destruct H as (_ & Hc & Hs & Ho & t & _ & Hk). split; rewrite ?Ho, ?Hk; cbn -[rank]; try done. rewrite Hs. vm_compute. lia.
  - destruct H as (_ & _ & _ & _ & Hk & t & _ & _ & Ho). split; rewrite ?Ho, ?Hk; done.
  - destruct H as (_ & _ & Hk & t & t' & _ & _ & Ho). split; rewrite ?Ho, ?Hk; cbn -[rank]; try done. apply rank_max.
  - destruct H as (_ & Ho & t & _ & Hk). split; rewrite ?Ho, ?Hk; done.
  - destruct H as (_ & _ & Hk & t & _ & Ht). apply Transition_keeps in Ht as Hx. destruct Hx as (_ & E1 & E2 & E3). apply Transition_rank in Ht.
    split; rewrite ?E3, ?Hk; try done; lia.
  - destruct H as (_ & _ & Hk & Ho & E1 & E2 & E3 & _ & E4). split; rewrite ?Ho, ?E3, ?Hk; done.
Qed.

Section refinement.
Context {W : Type} `{!Api W ObservationBody json, !ApiLaws W ObservationBody json}.
Abbreviation log := (list (api_event W ObservationBody json)).

Definition run_call `{!Api V ObservationBody json} (c : call) : M V unit :=
  match c with
  | CallClaim name executor => do ClaimObservation name executor ;! m_ret ()
  | CallStop name input => do StoreRequestStop name input ;! m_ret ()
  | CallLost name => do TerminalizeExecutorLost name ;! m_ret ()
  | CallRenew claim rv => do RenewLease claim rv ;! m_ret ()
  | CallTransition claim rv next reason => do TransitionExecution claim rv next reason ;! m_ret ()
  | CallUpdate claim rv rep o => do UpdateExecutorStatus rep claim rv o ;! m_ret ()
  end.

(** A status write that was accepted: nothing was written before it; it
    replaced the object [cur], which the call had read as [s] and no one had
    changed, by the encoding of a state the protocol permits. *)
Definition write_permitted (c : call) (before : log) (w1 : W) (stored : ObservationObject) (w2 : W) : Prop :=
  unwritten before ∧ ∃ cur s s',
    look w1 (call_name c) = Some cur ∧ EvGet (call_name c) (Ok cur) ∈ before ∧ reads cur s ∧
    (∀ version, call_version c = Some version → version = o_ResourceVersion cur) ∧
    permitted c (readings before) s s' ∧
    look w2 (call_name c) = Some stored ∧ o_UID stored = o_UID cur ∧ o_Spec stored = o_Spec cur ∧
    o_Status stored = Some (encodeStatusWithClaim (xs_observation s') (xs_claim s')).
(** The API calls a store call may make. *)
Definition call_permitted (c : call) (before : log) (event : api_event W ObservationBody json) : Prop :=
  match event with
  | EvGet name _ => name = call_name c
  | EvNow _ => True
  | EvUpdateStatus w1 _ (Ok stored) w2 => write_permitted c before w1 stored w2
  | EvUpdateStatus _ _ (Err _) _ => True
  | EvCreate _ _ | EvUpdate _ _ => False
  end.

(** ** The calls meet the specification *)
Definition holds_record (j : journalled W ObservationBody json) (name : string) (r : unstructuredRecord) : Prop :=
  seen (j_world j) (ur_object r) ∧ EvGet name (Ok (ur_object r)) ∈ j_log j ∧ o_Name (ur_object r) = name ∧
  o_ResourceVersion (ur_object r) ≠ "" ∧ ur_resourceVersion r = o_ResourceVersion (ur_object r) ∧
  reads (ur_object r) (mkXstate (ur_observation r) (ur_claim r)).
(** Nothing is written yet, the clock was read at [ts], and [rec] is held. *)
Definition at_state (name : string) (rec : option unstructuredRecord) (ts : list time) (j : journalled W ObservationBody json) : Prop :=
  unwritten (j_log j) ∧ (∀ t, t ∈ ts → t ∈ readings (j_log j)) ∧ ∀ r, rec = Some r → holds_record j name r.
(** The last call was the write. *)
Definition ends_written (j : journalled W ObservationBody json) : Prop :=
  ∃ before w1 sent stored, j_log j = before ++ [EvUpdateStatus w1 sent (Ok stored) (j_world j)].

Lemma at_unwritten name rec ts j : at_state name rec ts j → unwritten (j_log j).
Proof. by intros [H _]. Qed.
Lemma unwritten_at name j : unwritten (j_log j) → at_state name None [] j.
Proof. intros H. split_and!; [done|by intros t ?%elem_of_nil|done]. Qed.
#[local] Hint Resolve at_unwritten : core.

Section calls.
Variable c : call.
Abbreviation spec := (run_spec (call_permitted c)).
Abbreviation name := (call_name c).

Lemma now_spec rec ts : spec (at_state name rec ts) api_now (fun t => at_state name rec (t :: ts)).
Proof.
  intros [w l] r j' Hl (Hu & Hts & Hr) H. cbn in H. unfold logged in H. cbn [j_world j_log] in H.
  destruct (api_now w) as [a w1] eqn:E. injection H as <- <-. cbn [j_log j_world] in *.
  split; [by apply each_snoc|]. destruct a as [t|e]; [|by apply unwritten_snoc].
  split_and!; cbn [j_log j_world].
  - by apply unwritten_snoc.
  - intros x. rewrite readings_snoc, elem_of_app, elem_of_cons. intros [->|Hx]; [right; by apply list_elem_of_here|left; by apply Hts].
  - intros x Hx. destruct (Hr x Hx) as (H1 & H2 & H3). split_and!; cbn [j_log j_world]; [by eapply now_keeps|apply elem_of_app; by left|apply H3..].
Qed.
Lemma get_spec ts : spec (at_state name None ts) (currentRecord name) (fun r => at_state name (Some r) ts).
Proof.
  intros [w l] r j' Hl (Hu & Hts & _) H. unfold currentRecord, m_try in H. cbn in H. unfold logged in H. cbn [j_world j_log] in H.
  destruct (api_get name w) as [a w1] eqn:E. cbn [j_log j_world] in Hl, Hu, Hts.
  set (l1 := l ++ [EvGet name a]) in *.
  assert (each (call_permitted c) l1) as Hl1 by by apply each_snoc.
  assert (unwritten l1) as Hu1 by by apply unwritten_snoc.
  destruct a as [obj|e]; [|destruct (IsNotFound e); injection H as <- <-; done].
  unfold m_bind, m_lift, m_ret in H. destruct (FromUnstructured obj) as [o|] eqn:Eo; [|by injection H as <- <-].
  destruct (claimFromObject obj) as [k|] eqn:Ek; [|by injection H as <- <-]. injection H as <- <-. split; [done|].
  apply get_seen in E as (Hs & Hn & Hv). split_and!; [done| |].
  - intros t Ht. cbn [j_log]. unfold l1. rewrite readings_snoc, elem_of_app. left. by apply Hts.
  - intros r [= <-]. split_and!; try done. cbn [j_log ur_object]. unfold l1. apply elem_of_app. right. apply list_elem_of_here.
Qed.
Lemma cas_spec r ts s' : permitted c ts (mkXstate (ur_observation r) (ur_claim r)) s' →
  (∀ version, call_version c = Some version → version = ur_resourceVersion r) →
  spec (at_state name (Some r) ts) (casStatus r (ur_resourceVersion r) (encodeStatusWithClaim (xs_observation s') (xs_claim s')))
    (fun _ => ends_written).
Proof.
  intros Hp Hver [w l] a j' Hl (Hu & Hts & Hr) H. destruct (Hr r eq_refl) as (Hs & Hg & Hn & Hv & Hrv & Hrd).
  unfold casStatus in H. destruct (empty (ur_resourceVersion r)); [by injection H as <- <-|].
  unfold m_try in H. cbn in H. unfold logged in H. cbn [j_world j_log] in *.
  destruct (api_update_status _ w) as [x w1] eqn:E. destruct x as [stored|e].
  2:{ assert (each (call_permitted c) (l ++ [EvUpdateStatus w (mkObject (o_Name (ur_object r)) (o_UID (ur_object r)) (ur_resourceVersion r)
          (o_Spec (ur_object r)) (Some (encodeStatusWithClaim (xs_observation s') (xs_claim s')))) (Err e) w1])) as Hl1 by by apply each_snoc.
      destruct (IsConflict e); injection H as <- <-; (split; [exact Hl1|by apply unwritten_snoc]). }
  injection H as <- <-. cbn [j_log j_world]. split; [|by eexists l, w, _, stored].
  apply each_snoc; [done|]. split; [done|].
  apply update_status_commits in E as (cur & Hl1 & Hcv & Hl2 & Huid & Hsp & Hst); [|cbn; by rewrite Hrv].
  cbn [o_Name o_ResourceVersion o_Status] in *.
  assert (cur = ur_object r) as -> by (eapply seen_version; [exact Hs|exact Hl1|by rewrite Hcv]).
  rewrite Hn in Hl1, Hl2. exists (ur_object r), (mkXstate (ur_observation r) (ur_claim r)), s'. split_and!; try done.
  - intros v Hcall. rewrite <- Hrv. by apply Hver.
  - by eapply permitted_mono.
Qed.

End calls.

(** One step of a run: a guard, a reading of the clock, a value computed. *)
Ltac step :=
  lazymatch goal with
  | |- run_spec _ _ (if _ then m_err _ else _) _ => apply run_guard; [eauto|intros ?]
  | |- run_spec _ _ (m_bind api_now _) _ => eapply run_bind; [apply now_spec|intros ?; cbv beta]
  | |- run_spec _ _ (m_bind (currentRecord _) _) _ => eapply run_bind; [apply get_spec|intros ?; cbv beta]
  | |- run_spec _ _ (m_bind (m_lift _) _) _ => apply run_lift_bind; [eauto|intros ? ?]
  end.

Lemma live_within k now ts : live k now = true → now ∈ ts → within_lease k ts.
Proof.
  unfold live, time_is_zero. intros [H1%negb_true_iff%Z.eqb_neq H2%Z.ltb_lt]%andb_prop Hin. split; [done|by exists now].
Qed.
Lemma claimed_holds claim s now ts : claimed_by (xs_claim s) claim = true → live (xs_claim s) now = true → now ∈ ts → holds_claim claim s ts.
Proof. intros [H1 H2]%claimed_by_true Hl Hin. split_and!; [done|done|by eapply live_within]. Qed.

Lemma authority_spec c claim version now : call_name c = xc_ObservationID claim →
  run_spec (call_permitted c) (at_state (call_name c) None [now]) (authority claim version now) (fun r j => at_state (call_name c) (Some r) [now] j ∧
    version = ur_resourceVersion r ∧ xc_ExecutorID claim ≠ "" ∧ o_frozen (ur_observation r) = false ∧
    holds_claim claim (mkXstate (ur_observation r) (ur_claim r)) [now]).
Proof.
  intros E. unfold authority. rewrite <- E. repeat step. apply run_ret. intros j Hj. bool_simpl.
  split; [done|]. split; [done|]. split; [intros Ex; by rewrite Ex in *|]. split; [done|].
  eapply claimed_holds; [done|done|apply list_elem_of_here].
Qed.

(** What the domain's operations do in these calls. *)
Lemma Transition_starting t o o' : Transition t o ExecutionStarting "" = Ok o' →
  let e := o_execution o in
  o_frozen o = false ∧ o' = with_execution o
    (mkObservationExecution ExecutionStarting (ex_Completion e) (ex_StartedAt e) (ex_CompletedAt e) (ex_StopIntent e) (ex_Failure e)).
Proof. unfold Transition. intros H. inv_ok. split; [done|]. by injection H as <-. Qed.
Lemma RequestStop_records o intent o' : StopRequested (o_execution o) = false → RequestStop o intent = Ok o' →
  let e := o_execution o in
  o_frozen o = false ∧ ex_StopIntent e = None ∧ ex_State e ∈ [ExecutionRequested; ExecutionStarting; ExecutionRunning] ∧
  si_RequestedAt intent ≠ 0%Z ∧ blank (si_Requester intent) = false ∧ o' = with_execution o
    (mkObservationExecution (ex_State e) (ex_Completion e) (ex_StartedAt e) (ex_CompletedAt e) (Some intent) (ex_Failure e)).
Proof.
  unfold RequestStop, StopRequested. intros Hs H. inv_ok. destruct (ex_StopIntent (o_execution o)); [done|]. inv_ok.
  apply orb_false_iff in Heqb as [Hz Hb]. unfold time_is_zero in Hz. apply Z.eqb_neq in Hz.
  match goal with Hc : negb (CanRequestStop _) = false |- _ => apply negb_false_iff in Hc; unfold CanRequestStop in Hc end.
  destruct (o_frozen o); [done|]. split_and!; try done. by eapply bool_decide_eq_true_1.
Qed.
Lemma lost_records o k t t' o' : lost o k t t' = Ok o' → let e := o_execution o in
  o' = mkObservation (o_id o) (o_spec o) (o_binding o)
    (mkObservationExecution ExecutionFailed "EXECUTOR_LOST" (ex_StartedAt e) t (ex_StopIntent e)
      (Some (mkFailureInfo "EXECUTOR_LOSS" "EXECUTOR_LOST" "the executor lease expired before observation finalization"
        "executor" t' true (ExecutorID k) (Generation k))))
    (o_result o) (snapshot o) (binding_recorded (o_binding o)) true.
Proof.
  unfold lost, RestoreObservation. intros (n & _ & H)%result_bind_Ok. cbn [ex_State ex_Completion] in H.
  apply result_guard_Ok in H as [_ H]. change (terminal ExecutionFailed) with true in H. cbv iota in H. by apply result_guard_Ok in H as [_ [= <-]].
Qed.

(** The write that ends a call. *)
Ltac commit r ts s' := eapply run_bind; [eapply (cas_spec _ r ts s')|intros ?; apply run_ret; auto].
Ltac among := repeat first [apply list_elem_of_here|apply list_elem_of_further].

Lemma ClaimObservation_spec x executor :
  run_spec (call_permitted (CallClaim x executor)) (at_state x None []) (ClaimObservation x executor) (fun _ => ends_written).
Proof.
  unfold ClaimObservation. change x with (call_name (CallClaim x executor)) at 1 2. step. step. rename a into r. step. step. rename a into t. step. rename a into o'.
  step. rename a into t'.
  commit r [t'; t] (mkXstate o' (mkClaimRecord executor (add_uint64 (Generation (ur_claim r)) 1) (t' + DefaultLeaseDuration))); [|done].
  apply Transition_starting in H1 as [Hf Ho]. bool_simpl. split; [done|]. split_and!; try done.
  - intros E. by rewrite E in *.
  - by apply nonempty_false.
  - exists t'. split; [among|done].
Qed.

(** A stop already recorded is only read. *)
Definition stop_recorded (c : call) (l : log) : Prop :=
  match c with
  | CallStop name _ => unwritten l ∧ ∃ obj o, EvGet name (Ok obj) ∈ l ∧ FromUnstructured obj = Ok o ∧ StopRequested (o_execution o) = true
  | _ => False
  end.
Lemma StoreRequestStop_spec x input :
  run_spec (call_permitted (CallStop x input)) (at_state x None []) (StoreRequestStop x input)
    (fun _ j => stop_recorded (CallStop x input) (j_log j) ∨ ends_written j).
Proof.
  unfold StoreRequestStop. change x with (call_name (CallStop x input)) at 1 2. step. step. rename a into r.
  destruct (StopRequested (o_execution (ur_observation r))) eqn:Es.
  { apply run_ret. intros j (Hu & _ & Hr). left. destruct (Hr r eq_refl) as (_ & Hg & _ & _ & _ & Hrd & _). split; [done|].
    by exists (ur_object r), (ur_observation r). }
  step. step. rename a into t.
  assert (∀ (bound : string * Z) ts, bound = (ExecutorID (ur_claim r), if nonempty (ExecutorID (ur_claim r)) then Generation (ur_claim r) else 0%Z) →
    t ∈ ts → (ExecutorID (ur_claim r) ≠ "" → within_lease (ur_claim r) ts) →
    run_spec (call_permitted (CallStop x input)) (at_state x (Some r) ts)
      (o <- m_lift (RequestStop (ur_observation r) (mkStopIntent t (Requester input) (ContextVersion input) (fst bound) (snd bound))) ;!
       rv <- casStatus r (ur_resourceVersion r) (encodeStatusWithClaim o (ur_claim r)) ;! m_ret (o, rv))
      (fun _ j => stop_recorded (CallStop x input) (j_log j) ∨ ends_written j)) as Hlast.
  { intros bound ts -> Ht Hl. change x with (call_name (CallStop x input)) at 2. step. rename a into o'.
    commit r ts (mkXstate o' (ur_claim r)); [|done]. apply (RequestStop_records _ _ _ Es) in H1 as (Hf & H2 & H3 & H4 & H5 & Ho).
    split; [done|]. split_and!; try done. by exists t. }
  eapply (run_bind _ _ _ _ (fun bound j => ∃ ts, at_state x (Some r) ts j ∧
    bound = (ExecutorID (ur_claim r), if nonempty (ExecutorID (ur_claim r)) then Generation (ur_claim r) else 0%Z) ∧ t ∈ ts ∧
    (ExecutorID (ur_claim r) ≠ "" → within_lease (ur_claim r) ts))).
  - destruct (nonempty (ExecutorID (ur_claim r))) eqn:En.
    + step. rename a into now. step. apply run_ret. intros j Hj. bool_simpl. exists [now; t]. split_and!; [done|done|among|].
      intros _. eapply live_within; [done|among].
    + apply run_ret. intros j Hj. apply nonempty_false in En. exists [t]. split_and!; [done|by rewrite En|among|done].
  - intros bound. cbv beta. apply run_exists. intros ts. apply run_fact. intros (Hb & Ht & Hl). by apply Hlast.
Qed.

Lemma TerminalizeExecutorLost_spec x :
  run_spec (call_permitted (CallLost x)) (at_state x None []) (TerminalizeExecutorLost x) (fun _ => ends_written).
Proof.
  unfold TerminalizeExecutorLost. change x with (call_name (CallLost x)) at 1 2. step. rename a into r. step. step. step. rename a into now. step. step. rename a into t.
  step. rename a into t'. step. rename a into o'.
  eapply run_post; [|eapply (cas_spec _ r [t'; t; now] (mkXstate o' (ur_claim r)))]; [auto| |done].
  apply lost_records in H2 as Ho. bool_simpl. split; [done|]. split_and!.
  - cbn. intros E. by rewrite E in *.
  - exists now. split; [among|]. by apply Z.ltb_ge.
  - done.
  - exists t, t'. split_and!; [among|among|done].
Qed.

Lemma renew_once_spec claim version :
  run_spec (call_permitted (CallRenew claim version)) (at_state (xc_ObservationID claim) None []) (renew_once claim)
    (fun r j => match r with Ok _ => ends_written j | Err _ => unwritten (j_log j) end).
Proof.
  unfold renew_once. change (xc_ObservationID claim) with (call_name (CallRenew claim version)). step. rename a into r. step. step. step. rename a into now. step. step. rename a into now'.
  bool_simpl. match goal with Hc : claimed_by _ _ = true |- _ => pose proof (claimed_by_true _ _ Hc) as [<- <-] end.
  apply run_result. eapply (cas_spec _ r [now'; now] (mkXstate (ur_observation r) _)); [|done].
  split; [done|]. split_and!; [eapply claimed_holds; [done|done|among]|done|exists now'; split; [among|done]].
Qed.
Lemma RenewLease_spec claim version :
  run_spec (call_permitted (CallRenew claim version)) (at_state (xc_ObservationID claim) None []) (RenewLease claim version) (fun _ => ends_written).
Proof.
  unfold RenewLease. eapply run_bind; [apply renew_once_spec|]. intros [rv|e]; [by apply run_ret|]. apply run_guard; [done|]. intros _.
  eapply run_bind; [eapply run_pre, renew_once_spec; apply unwritten_at|]. intros [rv|e'].
  - by apply (run_ret _ _ rv).
  - by apply (run_err _ _ e').
Qed.

Lemma TransitionExecution_spec claim version next reason :
  run_spec (call_permitted (CallTransition claim version next reason)) (at_state (xc_ObservationID claim) None [])
    (TransitionExecution claim version next reason) (fun _ => ends_written).
Proof.
  unfold TransitionExecution. set (c := CallTransition claim version next reason). change (xc_ObservationID claim) with (call_name c). step. rename a into now.
  eapply run_bind; [by apply authority_spec|]. intros r. cbv beta. apply run_fact. intros (Hv & Hx & Hf & Hh). step. rename a into t. step. rename a into o'.
  rewrite Hv. eapply (cas_spec c r [t; now] (mkXstate o' (ur_claim r))).
  - split; [done|]. split_and!; [done| |done|exists t; split; [among|done]].
    destruct Hh as (H1 & H2 & H3 & t1 & Ht1 & H4). split_and!; try done. split; [done|]. exists t1. split; [by apply list_elem_of_further|done].
  - by intros v [= <-].
Qed.
Lemma UpdateExecutorStatus_spec claim version rep o :
  run_spec (call_permitted (CallUpdate claim version rep o)) (at_state (xc_ObservationID claim) None [])
    (UpdateExecutorStatus rep claim version o) (fun _ => ends_written).
Proof.
  unfold UpdateExecutorStatus. set (c := CallUpdate claim version rep o). change (xc_ObservationID claim) with (call_name c). step. rename a into now.
  eapply run_bind; [by apply authority_spec|]. intros r. cbv beta. apply run_fact. intros (Hv & Hx & Hf & Hh). step. step. rename a into u.
  rewrite Hv. eapply (cas_spec c r [now] (mkXstate o (ur_claim r))).
  - bool_simpl. match goal with Hm : ValidateStatusMutation _ _ _ = Ok _ |- _ => unfold ValidateStatusMutation in Hm; inv_ok end. bool_simpl.
    split; [done|]. split_and!; try done. by eapply change_prefix.
  - by intros v [= <-].
Qed.

(** A successful run ends with the write, or read a stop already recorded. *)
Definition run_ends (c : call) (j : journalled W ObservationBody json) : Prop := stop_recorded c (j_log j) ∨ ends_written j.
Lemma run_call_spec c : run_spec (call_permitted c) (at_state (call_name c) None []) (run_call c) (fun _ => run_ends c).
Proof.
  destruct c; cbn [run_call call_name]; (eapply run_bind; [|intros ?; apply run_ret; intros j Hj; exact Hj]).
  - eapply run_post; [|apply ClaimObservation_spec]. by right.
  - apply StoreRequestStop_spec.
  - eapply run_post; [|apply TerminalizeExecutorLost_spec]. by right.
  - eapply run_post; [|apply RenewLease_spec]. by right.
  - eapply run_post; [|apply TransitionExecution_spec]. by right.
  - eapply run_post; [|apply UpdateExecutorStatus_spec]. by right.
Qed.
Lemma run_call_journal c w r w' l : run_call c (mkJournalled w []) = (r, mkJournalled w' l) →
  each (call_permitted c) l ∧ match r with Ok _ => run_ends c (mkJournalled w' l) | Err _ => unwritten l end.
Proof.
  intros H. refine (run_from_start _ _ _ _ _ _ _ _ (run_call_spec c) _ H). apply unwritten_at. constructor.
Qed.

(** ** What is written is read back *)

(** A state the adapter holds exactly. *)
Record storable (s : xstate) : Prop := {
  so_observation : persistable (xs_observation s);
  so_claim : claim_ok (xs_claim s) }.
(** Text and counters of a call survive the JSON; an Observation it brings is
    one the adapter can hold. *)
Definition inputs_ok (c : call) : Prop :=
  match c with
  | CallClaim _ executor => valid_utf8 executor = true
  | CallStop _ input => valid_utf8 (Requester input) = true ∧ counter (ContextVersion input)
  | CallTransition _ _ _ reason => valid_utf8 reason = true
  | CallUpdate _ _ _ o => persistable o
  | CallLost _ | CallRenew _ _ => True
  end.
(** The clock is in the range of the timestamps and after the start. *)
Definition clock_ok (s : xstate) (t : time) : Prop :=
  (0 < t ∧ t + DefaultLeaseDuration < instant_end ∧ ex_StartedAt (o_execution (xs_observation s)) < t)%Z.

Lemma claim_ok_plain k : claim_ok k → plain_claim k.
Proof. unfold plain_claim, counter. intros [->|(_ & Hu & Hg & _)]; [by split|split; [done|lia]]. Qed.
Lemma clock_ok_claim s t x g : clock_ok s t → x ≠ "" → valid_utf8 x = true → (0 < g <= 2 ^ 53)%Z → claim_ok (mkClaimRecord x g (t + DefaultLeaseDuration)).
Proof.
  intros (H1 & H2 & _) Hx Hu Hg. right. cbn [ExecutorID Generation LeaseExpiry]. split_and!; try done; try lia.
  assert (0 < DefaultLeaseDuration)%Z by done. lia.
Qed.

(** The plain texts of an execution. *)
Definition plain_uint (n : Z) : bool := (n =? 0)%Z || plain_json (JNum (itoa n)).
Definition plain_stop (i : StopIntent) : bool :=
  valid_utf8 (si_Requester i) && plain_uint (si_ContextVersion i) && valid_utf8 (si_ExecutorID i) && plain_uint (si_ClaimGeneration i).
Definition plain_failure (f : FailureInfo) : bool := plain_json (Failure_json (encodeFailure f)).
Definition plain_option {A} (p : A → bool) (x : option A) : bool := match x with Some a => p a | None => true end.

Lemma omit_plain s : empty s || plain_json (JStr s) = valid_utf8 s.
Proof. cbn [plain_json]. unfold empty. case_bool_decide as E; [by rewrite E|done]. Qed.
Lemma execution_plain e : plain_json (Execution_json (encodeExecution e)) =
  valid_utf8 (ex_State e) && valid_utf8 (ex_Completion e) && plain_option plain_stop (ex_StopIntent e) && plain_option plain_failure (ex_Failure e).
Proof.
  unfold Execution_json. rewrite plain_struct. unfold RollbackAttempt.required, RollbackAttempt.omitempty, uint_omitempty, encodeExecution.
  destruct e as [st co sa ca [i|] [f|]];
    cbn [ex_State ex_Completion ex_StartedAt ex_CompletedAt ex_StopIntent ex_Failure pe_State pe_Completion pe_StartedAt pe_CompletedAt
         pe_ExecutorID pe_ClaimGeneration pe_LeaseExpiry pe_StopRequestedAt pe_StopRequester pe_StopContextVersion pe_StopExecutorID
         pe_StopClaimGeneration pe_Failure fmap option_fmap option_map forallb fst snd plain_option];
    rewrite !omit_plain, ?plain_moment; unfold plain_stop, plain_uint, plain_failure; change ((0 =? 0)%Z) with true; change (plain_json (JStr st)) with (valid_utf8 st);
    change (valid_utf8 "") with true; cbn [orb]; rewrite ?andb_assoc, ?andb_true_r; reflexivity.
Qed.
Lemma state_plain st : ExecutionState_Valid st = true → valid_utf8 st = true.
Proof.
  unfold ExecutionState_Valid. intros H%bool_decide_eq_true. repeat (apply elem_of_cons in H as [->|H]; [done|]). by apply elem_of_nil in H.
Qed.

(** An active Observation whose execution goes on, and one that ends. *)
Lemma persist_execution o e : persistable o → o_frozen o = false → ExecutionState_Valid (ex_State e) = true → terminal (ex_State e) = false →
  ex_Completion e = ex_Completion (o_execution o) → ex_CompletedAt e = ex_CompletedAt (o_execution o) → execution_made e →
  plain_json (Execution_json (encodeExecution e)) = true → persistable (with_execution o e).
Proof.
  intros [[W1 W2 W3 W4 W5 W6] Hb Hs Hbi He Hr P1 P2 P3 P4] Hf Hv Ht Hc Hca Hm Hp. split; cbn [o_execution o_binding o_spec o_result o_bound with_execution]; try done.
  split; cbn [o_execution o_frozen o_provenance o_result o_id o_spec with_execution]; try done; [by rewrite Ht|by rewrite Hf|].
  intros _. rewrite Hc, Hca. by apply W4.
Qed.
Lemma persist_terminal o e : persistable o → ExecutionState_Valid (ex_State e) = true → terminal (ex_State e) = true →
  blank (ex_Completion e) = false → execution_made e → plain_json (Execution_json (encodeExecution e)) = true →
  persistable (mkObservation (o_id o) (o_spec o) (o_binding o) e (o_result o) (snapshot o) (o_bound o) true).
Proof.
  intros [[W1 W2 W3 W4 W5 W6] Hb Hs Hbi He Hr P1 P2 P3 P4] Hv Ht Hc Hm Hp. by split.
Qed.
Lemma execution_parts o : persistable o →
  plain_option plain_stop (ex_StopIntent (o_execution o)) = true ∧ plain_option plain_failure (ex_Failure (o_execution o)) = true ∧
  valid_utf8 (ex_Completion (o_execution o)) = true ∧ valid_utf8 (ex_State (o_execution o)) = true.
Proof.
  intros Ho. pose proof (pb_plain_execution _ Ho) as H. rewrite execution_plain in H. by apply andb_prop in H as [[[? ?]%andb_prop ?]%andb_prop ?].
Qed.

Lemma instant_if (b : bool) t t' : instant t → instant t' → instant (if b then t else t').
Proof. by destruct b. Qed.
Lemma if_split {A} (P : A → Prop) (b : bool) x y : (b = true → P x) → (b = false → P y) → P (if b then x else y).
Proof. destruct b; auto. Qed.
Lemma transition_storable s t next reason o' : storable s → clock_ok s t → valid_utf8 reason = true →
  Transition t (xs_observation s) next reason = Ok o' → persistable o'.
Proof.
  intros [Ho _] (T1 & T2 & T3) Hu H. assert (0 < DefaultLeaseDuration)%Z as HL by done. set (o := xs_observation s) in *.
  destruct (execution_parts o Ho) as (Q1 & Q2 & Q3 & Q4). destruct (pb_execution _ Ho) as [(E1 & E2 & E3) Es Ef]. pose proof (pb_wf _ Ho) as Hw.
  unfold Transition in H. inv_ok. bool_simpl.
  assert (instant (if bool_decide (next = ExecutionRunning) && time_is_zero (ex_StartedAt (o_execution o)) then t else ex_StartedAt (o_execution o))) as Hst
    by (apply instant_if; [unfold instant; lia|done]).
  destruct (terminal next) eqn:Et; injection H as <-.
  - apply (persist_terminal o); try done.
    + split; [split_and!|done|done]; cbn [ex_StartedAt ex_CompletedAt]; [done|unfold instant; lia|left].
      rewrite bool_decide_eq_false_2 by (intros ->; done). cbn [andb]. lia.
    + rewrite execution_plain. cbn [ex_State ex_Completion ex_StopIntent ex_Failure]. by rewrite state_plain, Hu, Q1, Q2.
  - apply persist_execution; try done.
    + split; [split_and!|done|done]; cbn [ex_StartedAt ex_CompletedAt]; [done|done|].
      destruct (wf_active _ Hw) as (_ & _ & ->); [done|]. apply (if_split (fun x => x ≠ _ ∨ x = _)); intros _; [left; lia|]. destruct (Z.eq_dec (ex_StartedAt (o_execution o)) 0); [by right|by left].
    + rewrite execution_plain. cbn [ex_State ex_Completion ex_StopIntent ex_Failure]. by rewrite state_plain, Q1, Q2, Q3.
Qed.

Lemma stop_storable s t input : storable s → clock_ok s t → valid_utf8 (Requester input) = true → counter (ContextVersion input) →
  o_frozen (xs_observation s) = false → let o := xs_observation s in let e := o_execution o in let k := xs_claim s in
  persistable (with_execution o (mkObservationExecution (ex_State e) (ex_Completion e) (ex_StartedAt e) (ex_CompletedAt e)
    (Some (mkStopIntent t (Requester input) (ContextVersion input) (ExecutorID k) (if nonempty (ExecutorID k) then Generation k else 0%Z))) (ex_Failure e))).
Proof.
  intros [Ho Hk] (T1 & T2 & T3) Hu Hc Hf. cbv zeta. assert (0 < DefaultLeaseDuration)%Z as HL by done. set (o := xs_observation s) in *.
  destruct (execution_parts o Ho) as (Q1 & Q2 & Q3 & Q4). destruct (pb_execution _ Ho) as [(E1 & E2 & E3) Es Ef]. pose proof (pb_wf _ Ho) as Hw.
  destruct (claim_ok_plain _ Hk) as [P1 P2].
  set (g := if nonempty _ then _ else _). assert (counter g) as Hg by (apply if_split; intros _; [done|unfold counter; lia]).
  apply persist_execution; try done.
  - apply Hw.
  - cbn [ex_State]. by rewrite <- (wf_frozen _ Hw).
  - split; [done| |done]. intros i [= <-]. split_and!; cbn; [done|lia|by apply counter_uint64|by apply counter_uint64].
  - rewrite execution_plain. cbn [ex_State ex_Completion ex_StopIntent ex_Failure plain_option]. rewrite Q2, Q3, Q4. unfold plain_stop, plain_uint.
    cbn [si_Requester si_ContextVersion si_ExecutorID si_ClaimGeneration]. by rewrite Hu, P1, !plain_number, !orb_true_r.
Qed.
Lemma lost_storable s t t' : storable s → clock_ok s t → clock_ok s t' → let o := xs_observation s in let e := o_execution o in let k := xs_claim s in
  persistable (mkObservation (o_id o) (o_spec o) (o_binding o)
    (mkObservationExecution ExecutionFailed "EXECUTOR_LOST" (ex_StartedAt e) t (ex_StopIntent e)
      (Some (mkFailureInfo "EXECUTOR_LOSS" "EXECUTOR_LOST" "the executor lease expired before observation finalization"
        "executor" t' true (ExecutorID k) (Generation k))))
    (o_result o) (snapshot o) (binding_recorded (o_binding o)) true).
Proof.
  intros [Ho Hk] (T1 & T2 & T3) (U1 & U2 & U3). cbv zeta. assert (0 < DefaultLeaseDuration)%Z as HL by done. set (o := xs_observation s) in *.
  destruct (execution_parts o Ho) as (Q1 & Q2 & Q3 & Q4). destruct (pb_execution _ Ho) as [(E1 & E2 & E3) Es Ef]. destruct (claim_ok_plain _ Hk) as [P1 P2].
  rewrite <- (pb_bound _ Ho). apply (persist_terminal o); try done.
  - split; [split_and!|done|]; cbn [ex_StartedAt ex_CompletedAt ex_Failure]; [done|unfold instant; lia|left; lia|].
    intros f [= <-]. cbn. split; [lia|by apply counter_uint64].
  - rewrite execution_plain. cbn [ex_State ex_Completion ex_StopIntent ex_Failure plain_option]. rewrite Q1. cbn [andb].
    unfold plain_failure, Failure_json. rewrite plain_struct. unfold RollbackAttempt.required, RollbackAttempt.omitempty, uint_omitempty, bool_field, encodeFailure.
    cbn [forallb fst snd orb pf_Stage pf_Code pf_Reason pf_Source pf_OccurredAt pf_Retryable pf_ExecutorID pf_ClaimGeneration
      fi_Stage fi_Code fi_Reason fi_Source fi_OccurredAt fi_Retryable fi_ExecutorID fi_ClaimGeneration].
    rewrite omit_plain, P1, plain_number, orb_true_r by done.
    assert (plain_json (JStr (format_nonzero t')) = true) as -> by apply plain_moment. done.
Qed.

(** A permitted step of a storable state, on good inputs, is storable. *)
Lemma permitted_storable c ts s s' : permitted c ts s s' → storable s → inputs_ok c → Forall (clock_ok s) ts → storable s'.
Proof.
  intros [Hf H] Hs Hin Hts. rewrite Forall_forall in Hts. pose proof Hs as [Ho Hk]. destruct c; cbv beta zeta in H.
  - destruct H as (Hx & Hx0 & Hst & Ho' & t & Ht & Hk'). split.
    + rewrite Ho'. pose proof (pb_execution _ Ho) as [E1 E2 E3]. destruct (execution_parts _ Ho) as (Q1 & Q2 & Q3 & Q4). apply persist_execution; try done.
      rewrite execution_plain. cbn [ex_State ex_Completion ex_StopIntent ex_Failure]. by rewrite Q1, Q2, Q3.
    + rewrite Hk'. eapply clock_ok_claim; [by apply Hts|done|done|]. destruct Hk as [-> | (? & _)]; [|done]. by vm_compute.
  - destruct H as (_ & _ & _ & _ & Hk' & t & Ht & _ & Ho'). destruct Hin. split; [|by rewrite Hk']. rewrite Ho'. by apply stop_storable; [|apply Hts|..].
  - destruct H as (_ & _ & Hk' & t & t' & Ht & Ht' & Ho'). split; [|by rewrite Hk']. rewrite Ho'. apply lost_storable; [done|by apply Hts..].
  - destruct H as ((Hx & Hg & Hl) & Ho' & t & Ht & Hk'). split; [by rewrite Ho'|]. rewrite Hk'.
    destruct Hk as [E | (H1 & H2 & H3 & _)]; [destruct Hl as [Hl _]; by rewrite E in Hl|]. by eapply clock_ok_claim; [apply Hts|..].
  - destruct H as (_ & _ & Hk' & t & Ht & Htr). split; [|by rewrite Hk']. by eapply transition_storable; [|apply Hts| |].
  - destruct H as (_ & _ & Hk' & Ho' & _). split; [by rewrite Ho'|by rewrite Hk'].
Qed.

Lemma read_parts (object : ObservationObject) o : FromUnstructured object = Ok o →
  o_id o = o_Name object ∧ ∃ raw spec, o_Spec object = Some (mkBody apiVersion kind (Some raw)) ∧ o_Name object ≠ "" ∧
    fromMap ObservationPersisted.zero_Spec ObservationPersisted.into_Spec raw = Ok spec ∧ decodeSpec spec = Ok (o_spec o).
Proof.
  unfold FromUnstructured. intros H. apply result_guard_Ok in H as [Hb H]. apply result_guard_Ok in H as [Hn H].
  unfold empty in Hn. apply bool_decide_eq_false in Hn. apply orb_false_iff in Hb as [Hv%negb_false_iff%bool_decide_eq_true_1 Hk%negb_false_iff%bool_decide_eq_true_1].
  destruct (o_Spec object) as [[v k [raw|]]|]; cbn [default from_option id b_apiVersion b_kind b_spec] in *; try done. subst v k.
  apply result_bind_Ok in H as (spec & Hs & H). apply result_bind_Ok in H as (d & Hd & H).
  assert (o_id o = o_Name object ∧ o_spec o = d) as [Hi <-].
  { destruct (o_Status object).
    - apply result_bind_Ok in H as ([[[b e] r] p] & _ & H). by apply restored_whole in H as (-> & -> & _).
    - unfold NewObservation in H. by apply result_guard_Ok in H as [_ [= <-]]. }
  split; [done|]. by exists raw, spec.
Qed.

(** The status a call wrote is read back as the state it stepped to. *)
Lemma written_reads (cur stored : ObservationObject) s s' : reads cur s → storable s' →
  o_id (xs_observation s') = o_id (xs_observation s) → o_spec (xs_observation s') = o_spec (xs_observation s) →
  o_Name stored = o_Name cur → o_Spec stored = o_Spec cur →
  o_Status stored = Some (encodeStatusWithClaim (xs_observation s') (xs_claim s')) → reads stored s'.
Proof.
  intros [Hr _] [Hp Hc] Hid Hspec Hn Hsp Hst. split; [|by eapply claim_read_back].
  apply read_parts in Hr as (Hi & raw & spec & Hraw & Hne & Hf & Hd).
  unfold FromUnstructured. rewrite Hn, Hsp, Hst, Hraw. cbn [default from_option id b_apiVersion b_kind b_spec].
  rewrite !(bool_decide_eq_true_2 (_ = _)) by done. cbn [negb orb]. unfold empty. rewrite bool_decide_eq_false_2 by done.
  rewrite Hf. cbn [mbind result_bind]. rewrite Hd. cbn [mbind result_bind].
  rewrite decodeStatus_round_trip by (done || by apply claim_ok_plain). cbn [mbind result_bind].
  rewrite <- Hi, <- Hspec, <- Hid. destruct Hp. by apply Restore_wf.
Qed.

(** The accepted write of a call, from a state it can read. *)
Lemma write_reads c before w1 stored w2 cur s : write_permitted c before w1 stored w2 → look w1 (call_name c) = Some cur → reads cur s →
  ∃ s', permitted c (readings before) s s' ∧ o_Status stored = Some (encodeStatusWithClaim (xs_observation s') (xs_claim s')) ∧
    (storable s → inputs_ok c → Forall (clock_ok s) (readings before) → storable s' ∧ reads stored s').
Proof.
  intros (_ & cur' & s1 & s' & Hl & _ & Hr & _ & Hp & Hl2 & _ & Hsp & Hst) Hl' Hr'. rewrite Hl in Hl'. injection Hl' as ->.
  assert (s1 = s) as -> by (destruct Hr as [A1 B1], Hr' as [A2 B2], s, s1; cbn [xs_observation xs_claim] in *; rewrite A1 in A2; rewrite B1 in B2; congruence).
  exists s'. split_and!; [done|done|]. intros Hs Hin Hts. assert (storable s') as Hs' by by eapply permitted_storable. split; [done|].
  apply permitted_follows in Hp as [_ [E1 E2 _ _ _]]. eapply written_reads; try eassumption. by rewrite (look_name _ _ _ Hl), (look_name _ _ _ Hl2).
Qed.

(** C12: whatever the world answers, every API call of a store call is
    permitted ([call_permitted]): it reads its own object and the clock, and at
    most once has a status write accepted.  That write replaces the object as
    it is at that moment, which the call had read, at the version the caller
    named where it names one; the guards of the protocol held of what was read,
    the lease at a reading of the clock made before the write; and the status
    is the encoding of a state the protocol permits ([permitted]).  A call that fails has had no
    write accepted.  A call that succeeds ends with its write, unless it is a
    stop request that read a stop already recorded and wrote nothing.  From a
    state the adapter holds exactly, with inputs that survive the JSON and a
    clock in range, the next call reads back the state written. *)
Theorem executor_fenced c w r w' l : run_call c (mkJournalled w []) = (r, mkJournalled w' l) →
  each (call_permitted c) l ∧
  (∀ e, r = Err e → unwritten l) ∧
  (∀ u, r = Ok u → stop_recorded c l ∨ ∃ before w1 sent stored, l = before ++ [EvUpdateStatus w1 sent (Ok stored) w']) ∧
  (∀ before w1 sent stored w2 rest cur s, l = before ++ EvUpdateStatus w1 sent (Ok stored) w2 :: rest →
    look w1 (call_name c) = Some cur → reads cur s → storable s → inputs_ok c → Forall (clock_ok s) (readings before) →
    ∃ s', permitted c (readings before) s s' ∧ reads stored s').
Proof.
  intros H. destruct (run_call_journal c w r w' l H) as [Hl Hr]. split; [done|]. split; [by intros e ->|]. split.
  { intros u ->. destruct Hr as [Hs|(before & w1 & sent & stored & E)]; [by left|right]. by exists before, w1, sent, stored. }
  intros before w1 sent stored w2 rest cur s E Hc Hrd Hs Hin Hts. apply Hl in E.
  destruct (write_reads _ _ _ _ _ _ _ E Hc Hrd) as (s' & Hp & _ & Hok). exists s'. split; [done|]. by apply Hok.
Qed.

(** ** The history of a stored Observation

    One object replaced by another by a status write the server accepted, in a
    run of a store call by anyone, from any world. *)
Definition object_step (obj obj' : ObservationObject) : Prop :=
  ∃ c w r w' l before w1 sent w2 rest,
    run_call c (mkJournalled w []) = (r, mkJournalled w' l) ∧ l = before ++ EvUpdateStatus w1 sent (Ok obj') w2 :: rest ∧
    look w1 (call_name c) = Some obj ∧
    inputs_ok c ∧ ∀ s, reads obj s → Forall (clock_ok s) (readings before).

(** The first claim is of generation 1; an unclaimed Observation waits. *)
Definition first_claim (s : xstate) : Prop :=
  xs_claim s = no_claim ∧ ex_State (o_execution (xs_observation s)) = ExecutionRequested ∨
  ExecutorID (xs_claim s) ≠ "" ∧ Generation (xs_claim s) = 1%Z.

Lemma permitted_first_claim c ts s s' : permitted c ts s s' → first_claim s → first_claim s'.
Proof.
  unfold first_claim. intros [_ H]. destruct c; cbv beta zeta in H.
  - destruct H as (Hx & Hx0 & _ & _ & t & _ & ->). cbn [ExecutorID Generation]. intros [[-> _]|[? _]]; [by right|done].
  - destruct H as (_ & _ & _ & _ & -> & t & _ & _ & ->). done.
  - destruct H as (Hx & _ & -> & _). intros [[E _]|?]; [by rewrite E in Hx|by right].
  - destruct H as ((_ & _ & Hl & _) & _ & t & _ & ->). intros [[E _]|?]; [by rewrite E in Hl|by right].
  - destruct H as (_ & (_ & _ & Hl & _) & -> & _). intros [[E _]|?]; [by rewrite E in Hl|by right].
  - destruct H as (_ & (_ & _ & Hl & _) & -> & _). intros [[E _]|?]; [by rewrite E in Hl|by right].
Qed.

Definition held (obj : ObservationObject) (s : xstate) : Prop := reads obj s ∧ storable s.
Lemma object_step_permitted obj obj' s : held obj s → object_step obj obj' → ∃ c ts s', permitted c ts s s' ∧ held obj' s'.
Proof.
  intros [Hr Hs] (c & w & r & w' & l & before & w1 & sent & w2 & rest & H & E & Hl & Hin & Hts).
  destruct (run_call_journal c w r w' l H) as [Hj _]. apply Hj in E.
  destruct (write_reads _ _ _ _ _ _ _ E Hl Hr) as (s' & Hp & _ & Hok). destruct (Hok Hs Hin (Hts s Hr)) as [Hs' Hr'].
  by exists c, (readings before), s'.
Qed.
Lemma object_steps obj obj' s : rtc object_step obj obj' → held obj s → first_claim s →
  ∃ s', held obj' s' ∧ first_claim s' ∧ follows s s'.
Proof.
  intros H. revert s. induction H as [obj|obj obj1 obj' Hstep _ IH]; intros s Hh Hf; [by exists s|].
  destruct (object_step_permitted _ _ _ Hh Hstep) as (c & ts & s1 & Hp & Hh1).
  destruct (IH s1 Hh1 (permitted_first_claim _ _ _ _ Hp Hf)) as (s' & Hh' & Hf' & Hfo).
  exists s'. split_and!; [done|done|]. etrans; [by eapply permitted_follows|done].
Qed.

(** C11: an Observation has one executor, however the calls of any number of
    processes interleave: along the objects that replace one another by
    accepted writes of store calls, from an unclaimed request, the first claim
    is of generation 1 and, once made, its owner and generation never change;
    the identity and the specification stay, the target changes are only
    appended to, the execution never goes back, it leaves the request only
    under a claim, and an object that is read as frozen is never replaced. *)
Theorem single_executor obj0 obj obj' s0 : reads obj0 s0 → storable s0 → first_claim s0 →
  rtc object_step obj0 obj → rtc object_step obj obj' →
  ∃ s s', reads obj s ∧ reads obj' s' ∧ first_claim s ∧ first_claim s' ∧ follows s s' ∧
    (o_frozen (xs_observation s) = true → obj' = obj).
Proof.
  intros Hr Hs Hf H1 H2. destruct (object_steps _ _ _ H1 (conj Hr Hs) Hf) as (s & Hh & Hf1 & _).
  destruct (object_steps _ _ _ H2 Hh Hf1) as (s' & Hh' & Hf' & Hfo). exists s, s'.
  split_and!; [by destruct Hh|by destruct Hh'|done|done|done|]. intros Hfz. destruct H2 as [|obj obj1 obj' Hstep _]; [done|].
  destruct (object_step_permitted _ _ _ Hh Hstep) as (c & ts & s1 & [Hn _] & _). by rewrite Hn in Hfz.
Qed.
End refinement.

(** ** A run: claimed, started, and lost after its lease *)
Definition ex_object_spec : json := toMap (ObservationPersisted.Spec_json (encodeSpec (o_spec ex_created))).
Definition ex_world : cluster ObservationBody json :=
  mkCluster {[ o_id ex_created := mkCell 0 0 (Some (mkBody apiVersion kind (Some ex_object_spec))) None ]} 1 1000000000.
Definition ex_run (c : call) (w : cluster ObservationBody json) : result unit * journalled (cluster ObservationBody json) ObservationBody json :=
  run_call c (mkJournalled w []).
Definition ex_after (c : call) (w : cluster ObservationBody json) : cluster ObservationBody json := j_world (snd (ex_run c w)).
Definition ex_claim_call : call := CallClaim (o_id ex_created) "exec-1".
Definition ex_claimed : cluster ObservationBody json := ex_after ex_claim_call ex_world.
Definition ex_token : ExecutorClaim := mkExecutorClaim (o_id ex_created) "exec-1" 1.
Definition ex_run_call : call := CallTransition ex_token "v1" ExecutionRunning "".
Definition ex_started : cluster ObservationBody json := ex_after ex_run_call ex_claimed.
(** The same cluster a minute later. *)
Definition ex_later (w : cluster ObservationBody json) : cluster ObservationBody json :=
  mkCluster (cl_cells w) (cl_next w) (cl_clock w + 60000000000).
Definition ex_object (w : cluster ObservationBody json) : ObservationObject :=
  default (mkObject "" "" "" None None) (cl_look w (o_id ex_created)).

Lemma ex_created_storable : storable (mkXstate ex_created no_claim).
Proof.
  split; [|by left]. split; try (vm_compute; reflexivity).
  - apply reachable_wf_aux, (reachable_new "obs-1" ex_stored_spec). vm_compute. reflexivity.
  - apply ex_completed_persistable.
  - split; [split; [constructor|vm_compute; reflexivity]|constructor|constructor|split_and!; vm_compute; lia].
  - split; [split_and!; try (vm_compute; split; [discriminate|reflexivity]); by right|discriminate|discriminate].
  - split; [vm_compute; reflexivity|constructor|vm_compute; lia].
Qed.

Lemma executor_fenced_witness :
  let run := ex_run ex_run_call ex_claimed in
  fst run = Ok () ∧ fst (ex_run (CallClaim (o_id ex_created) "exec-2") ex_started) = Err (sentinel ErrAlreadyClaimed) ∧
  each (call_permitted ex_run_call) (j_log (snd run)) ∧
  (stop_recorded ex_run_call (j_log (snd run)) ∨
   ∃ before w1 sent stored, j_log (snd run) = before ++ [EvUpdateStatus w1 sent (Ok stored) (j_world (snd run))]).
Proof.
  intros run. assert (run_call ex_run_call (mkJournalled ex_claimed []) = (Ok (), mkJournalled (j_world (snd run)) (j_log (snd run)))) as H
    by (vm_compute; reflexivity).
  split; [vm_compute; reflexivity|]. split; [vm_compute; reflexivity|].
  destruct (executor_fenced ex_run_call ex_claimed (Ok ()) (j_world (snd run)) (j_log (snd run)) H) as (Hl & _ & Hw & _).
  split; [exact Hl|exact (Hw () eq_refl)].
Defined.

(** A write of a run is a step. *)
Lemma run_step c w n w1 sent w2 obj obj' : j_log (snd (ex_run c w)) !! n = Some (EvUpdateStatus w1 sent (Ok obj') w2) →
  cl_look w1 (call_name c) = Some obj → inputs_ok c →
  (∀ s, reads obj s → Forall (clock_ok s) (readings (take n (j_log (snd (ex_run c w)))))) → object_step obj obj'.
Proof.
  intros Hn Hl Hin Hts. exists c, w, (fst (ex_run c w)), (j_world (snd (ex_run c w))), (j_log (snd (ex_run c w))),
    (take n (j_log (snd (ex_run c w)))), w1, sent, w2, (drop (S n) (j_log (snd (ex_run c w)))).
  split_and!; [|by rewrite take_drop_middle|done|done|done].
  unfold ex_run. by destruct (run_call c _) as [r [x y]].
Qed.
Lemma clock_started obj o ts : FromUnstructured obj = Ok o → ex_StartedAt (o_execution o) = 0%Z →
  Forall (fun t => 0 < t ∧ t + DefaultLeaseDuration < instant_end)%Z ts → ∀ s, reads obj s → Forall (clock_ok s) ts.
Proof.
  intros Ho Hz Hts s [Hs _]. rewrite Ho in Hs. injection Hs as Hs. eapply Forall_impl; [exact Hts|].
  intros t [H1 H2]. unfold clock_ok. rewrite <- Hs, Hz. by split_and!.
Qed.

Definition ex_lost : cluster ObservationBody json := ex_after (CallLost (o_id ex_created)) (ex_later ex_claimed).
Definition ex_read (obj : ObservationObject) : Observation := match FromUnstructured obj with Ok o => o | Err _ => ex_created end.

(** Steps of the example runs, before any start. *)
Ltac example_step c w n ts :=
  eapply (run_step c w n); [vm_compute; reflexivity|vm_compute; reflexivity|try exact I; vm_compute; reflexivity|];
  eapply clock_started; [vm_compute; reflexivity|vm_compute; reflexivity|];
  match goal with |- Forall _ ?l => replace l with (ts : list time) by (vm_compute; reflexivity) end; repeat constructor; vm_compute; reflexivity.
Lemma ex_step_claim : object_step (ex_object ex_world) (ex_object ex_claimed).
Proof. example_step ex_claim_call ex_world 3 [1000000000; 2000000000]%Z. Qed.
Lemma ex_step_lost : object_step (ex_object ex_claimed) (ex_object ex_lost).
Proof. example_step (CallLost (o_id ex_created)) (ex_later ex_claimed) 4 [63000000000; 64000000000; 65000000000]%Z. Qed.

Lemma single_executor_witness :
  reads (ex_object ex_world) (mkXstate ex_created no_claim) ∧
  ∃ s s', reads (ex_object ex_claimed) s ∧ reads (ex_object ex_lost) s' ∧ xs_claim s = mkClaimRecord "exec-1" 1 32000000000 ∧
    ex_State (o_execution (xs_observation s')) = ExecutionFailed ∧ first_claim s' ∧ follows s s' ∧
    (o_frozen (xs_observation s) = true → ex_object ex_lost = ex_object ex_claimed).
Proof.
  assert (reads (ex_object ex_world) (mkXstate ex_created no_claim)) as H0 by (split; vm_compute; reflexivity). split; [exact H0|].
  destruct (single_executor (ex_object ex_world) (ex_object ex_claimed) (ex_object ex_lost) (mkXstate ex_created no_claim) H0 ex_created_storable
    (or_introl (conj eq_refl eq_refl)) (rtc_once _ _ ex_step_claim) (rtc_once _ _ ex_step_lost)) as (s & s' & H1 & H2 & _ & H3 & H4 & H5).
  exists s, s'. split; [exact H1|]. split; [exact H2|].
  assert (xs_claim s = mkClaimRecord "exec-1" 1 32000000000 ∧ ex_State (o_execution (xs_observation s')) = ExecutionFailed) as [E1 E2].
  { destruct H1 as [_ H1], H2 as [H2 _]. split.
    - assert (claimFromObject (ex_object ex_claimed) = Ok (mkClaimRecord "exec-1" 1 32000000000)) as E by (vm_compute; reflexivity).
      rewrite E in H1. by injection H1.
    - assert ((fun r => match r with Ok o => ex_State (o_execution o) | Err _ => "" end) (FromUnstructured (ex_object ex_lost)) = ExecutionFailed) as E
        by (vm_compute; reflexivity). by rewrite H2 in E. }
  split; [exact E1|]. split; [exact E2|]. split; [exact H3|]. split; [exact H4|exact H5].
Defined.
